(* ===== verification/_CoqProject ===== *)
-Q . S2P
Prelude.v
ReplayWindow.v
PacketHeader.v
Packet.v
PacketProps.v
MemoryGovernor.v
QuicDatagram.v
Fragments.v
GraphAlgo.v
PeerGraph.v
WidestPath.v
WidestPathProps.v
WidestRoutes.v
IpReassembler.v
NetAddr.v
TrackerWire.v
TrackerBinding.v
TrackerServer.v
TrackerHttp.v
TransitBudget.v
TokenBucket.v
Acl.v
AclWhitelist.v
Cipher.v
SecureDatagram.v
SecureDatagramProps.v
DatagramWf.v
DatagramReplay.v
DatagramThreads.v
DatagramBatch.v
PeerSession.v
PeerSessionProps.v
SessionStore.v
StoreFrames.v
SessionStoreProps.v
SessionHandshake.v
L2Fabric.v
L2FabricProps.v
Forwarding.v
ServiceRouteProps.v
PathPolicy.v
PathPolicyProps.v
RouteGraph.v
RouteGraphProps.v
RouteTable.v
RouteTableProps.v
SharedMapsProps.v
RouteRebuild.v
RouteRebuildProps.v
Credentials.v
CredentialsProps.v
RouteRecords.v
RouteRecordsProps.v
CredentialTrust.v
CredentialTrustProps.v
