(* ===== verification/Prelude.v ===== *)
(** * Verification of lowerTier

    lowerTier is a peer-to-peer virtual network: nodes find each other through trackers, hold
    encrypted sessions, exchange routes and carry IP and Ethernet traffic for each other over QUIC
    and TCP tunnels.  This library models the parts of it that decide something (what is accepted,
    counted, encrypted, routed, split or dropped) as Rocq functions, translated from the Rust
    sources under src/, and proves what they promise.

    ** Conventions

    - A [w]-bit integer is a [Z] with its wrap-around or saturation written out ([wrap],
      [saturating_add], [saturating_sub], [saturating_mul]); bytes and text are lists of [Z].  The
      arithmetic is the one of the release profile: it wraps.
    - A function that can fail or panic returns an [outcome]: [Ok], [Err] or [Panic].  Index
      expressions, [unwrap] and [expect] give [Panic], so that panic freedom is a theorem.
    - State is passed explicitly.  Code behind a mutex, and every compare-and-exchange loop, is one
      transition; a concurrent run is a sequence of transitions ([run] over a list of operations).
      The calls of a datagram session share their lock and are several transitions:
      [SecureDatagram] has each call as a whole, [DatagramThreads] all interleavings of their actions.
      A clock reading is an argument; instants are nanoseconds unless a file says otherwise.
    - Third-party code is a parameter with its documented behaviour as hypotheses: the AEAD and HMAC
      of ring and hmac ([Cipher.AeadLaws] and arguments), SHA-256, Ed25519 and X25519 ([SignatureLaws]),
      the encoding of messages by prost ([CodecLaws]), the binary heap, the cidr crate,
      prefix maps, base64, the header bytes that pnet writes, percent decoding.  Each theorem over such a parameter has a
      witness with a concrete instance.

    ** Files

    The path of a packet.
    - [Prelude]: outcomes, machine integers, byte strings, list lemmas, tactics and hints.
    - [PacketHeader], [Packet], [PacketProps] (lowertier/src/tunnel/packet_def.rs): headers, the
      authenticated part of a header, VLAN tags, and [ZCPacket] with its layouts, edits, waypoint
      source routes, foreign-network encapsulation and authentication marks.
    - [QuicDatagram], [Fragments] (tunnel/quic.rs, tunnel/quic/fragments.rs): framing in QUIC
      datagrams, fragmentation and the reassembly cache, charged to [MemoryGovernor]
      (common/global_ctx.rs).
    - [IpReassembler] (gateway/ip_reassembler.rs): IPv4 fragments at the gateway.
    - [L2Fabric], [L2FabricProps] (peers/l2_fabric.rs, and the checks of common/config.rs on its
      flags): the Ethernet forwarding database, its policy and flood limits.

    Sessions.
    - [ReplayWindow] (peers/replay_window.rs): the anti-replay bitmap.
    - [Cipher] (peers/encrypt): sealing and opening of packets in place.
    - [SecureDatagram], [SecureDatagramProps], [DatagramWf], [DatagramReplay], [DatagramBatch]
      (peers/secure_datagram.rs): epochs, nonces, replay slots, key cache, single packets and batches.
    - [DatagramThreads]: the same calls as programs of atomic actions that threads interleave.
    - [PeerSession], [PeerSessionProps] (peers/peer_session.rs, [PeerSession]): a session with its
      synchronisations, their history and the pinned key of the peer.
    - [SessionStore], [StoreFrames], [SessionStoreProps], [SessionHandshake] (peers/peer_session.rs,
      [PeerSessionStore]): the sessions that all connections share, with reservations, transitions in
      doubt, proofs, receipts and their quotas, over a heap of shared sessions.

    Routes (peers/peer_ospf_route.rs).
    - [GraphAlgo] (peers/graph_algo.rs): shortest paths with first hops.
    - [PeerGraph]: the petgraph crate as an interface ([Petgraph], [PetgraphLaws]) with lists as an
      instance, walks, and shortest paths over it.
    - [WidestPath], [WidestPathProps], [WidestRoutes]: the widest paths for maximum goodput, in rounds
      of falling capacity, with their work budget.
    - [RouteRecords], [RouteRecordsProps]: the records and connections that peers report, the checks of
      a request, and their merge with its limits and memory.
    - [RouteGraph], [RouteGraphProps]: the capture of a topology from the synchronised records and its
      measured graphs.
    - [RouteTable], [RouteTableProps], [SharedMapsProps]: the next hops of the four policies, the
      address maps they share, and the snapshots of a table.
    - [RouteRebuild], [RouteRebuildProps]: rebuild requests, the tables they replace and the
      publication of one forwarding snapshot, beside other threads ([World] is what one read sees).

    Credentials.
    - [Credentials], [CredentialsProps] (peers/credential_manager.rs, proto/peer_rpc.rs): certificates,
      bundles, proofs, revocation and status, with the store and its file.
    - [CredentialTrust], [CredentialTrustProps] (peers/peer_ospf_route.rs, peers/route_trait.rs): which
      credentials of the records are trusted, who owns a key, who is removed, and the groups of a peer.
      The network name and root, which the code copies when a node starts, are those of the manager.

    Decisions.
    - [Forwarding] (peers/route_trait.rs, peers/service_route.rs): the forwarding snapshot and the
      service routes with their store, whose properties are in [ServiceRouteProps].
    - [PathPolicy], [PathPolicyProps] (peers/path_policy.rs): paths with waypoints and gateways that
      the sender chooses per flow, from their configuration to the plan of a packet.
    - [Acl], [AclWhitelist] (common/acl_processor.rs): compilation and evaluation of access rules,
      with cache, rate limits and connection tracking.
    - [TransitBudget] (common/transit_budget.rs) and [TokenBucket] (common/token_bucket.rs).

    The tracker (src/lowertier-tracker).
    - [NetAddr]: what the sources use of [std::net] and [str::parse].
    - [TrackerWire] (wire.rs), [TrackerBinding] (binding.rs), [TrackerServer] (server.rs) and
      [TrackerHttp] (both ends of the HTTP protocol together).

    The components call each other as in the code: [PeerSession] drives [SecureDatagram], which uses
    [ReplayWindow] and [Cipher]; [Cipher] works on the packets of [Packet]; [Fragments] reserves from
    [MemoryGovernor]; [Acl] uses [TokenBucket]; [L2Fabric] uses the frame parser of [PacketHeader];
    [PathPolicy] reads the snapshots of [Forwarding].  [SessionStore] holds sessions of [PeerSession].
    [RouteRecords] charges [MemoryGovernor] and carries the proofs of [Credentials]; [CredentialTrust] refreshes the trust from
    these records and removes records.  [RouteRebuild] captures and measures with [RouteGraph], fills the tables of [RouteTable] by the
    searches of [GraphAlgo] and [WidestPath] over [PeerGraph], and publishes a snapshot of [Forwarding].

    ** What is proved

    - Encryption: a nonce is used once per key as long as no send epoch begins while a synchronisation
      waits for its commit, the last epoch is not used, and a commit brings the current root key or a
      new one; [rotation_before_commit_reuses_nonce] and [last_epoch_reuses_nonce] show the repetition
      otherwise.  Concurrent calls under one root key never share a nonce and never accept one twice
      ([concurrent_calls_safe]).  No packet is accepted twice under one root key unless a synchronisation keeps the key
      ([datagram_never_accepts_twice], [sync_reopens_replay]).  What one side seals the other opens;
      a batch gives each packet its verdict; the state stays well typed and nothing panics on hostile
      input.  The bitmap of [ReplayWindow] refines the set of accepted numbers.
    - The session store: quotas are exact in every run, a failed or cancelled handshake leaves the
      published sessions and their keys, but for those whose proof lapsed unacknowledged, a commit and its receipt are one step, and a transition in
      doubt ends only by its exact identity.
    - Records: nodes that are told the same records and connections know the newest of them, in whatever
      order they come ([routes_converge]); limits and memory hold in every run; a bitmap is accepted exactly within
      its limits.
    - Credentials: what a manager issues verifies until it expires and is announced
      ([issued_credentials_trusted]); a stored revocation is permanent while the file can be read
      ([revocation_is_permanent]); a refresh trusts exactly what administrators agree on by
      good proofs ([good_proof], [credential_trust_exact]), so that announced credentials are trusted on every node of the network
      ([announced_credentials_trusted]).
    - Routes, from the records to the packet: the control, data and speed graphs are exact (consent to
      transit, peers to be avoided, measured deliveries); the tables of all policies hold best walks
      and direct peers first; maximum goodput is optimal or reports its exhausted work; addresses and
      prefixes lead to reachable, preferred owners; whatever the other threads do, a published
      snapshot is of one topology ([published_routes_coherent]) and packets are routed as the route
      service says ([packet_decisions_agree]).
    - Packets: round trips of waypoint routes, encapsulation, edits and fragmentation (QUIC and IPv4),
      safety against hostile trailers and fragments, bounds of the reassembly caches, authenticated
      data that determines the stable header fields, marks that are written once.
    - Forwarding: the counters of the forwarding database are exact and bounded in every run, an
      address is held by its owner during the hold time, and the VLAN policy sees every tag.  A service route is the best
      live one of the longest prefix.  The waypoints of a plan are usable, different and at most four;
      a flow keeps its plan while the members of the plan stay; a gateway comes from the path with
      the longest prefix.
    - Access: rules apply in the order of their priority, the cache never changes a verdict, and the
      whitelist admits exactly the listed ports.
    - Budgets: rates over any interval are bounded, the advertised waiting time suffices, and memory
      reservations are exact.
    - Tracker: announcements, both protocols from client to server and back, bounded memory under
      load, no amplification towards unverified addresses, and parsers that are total on all input.

    Seven theorems state a defect of the code: [rotation_before_commit_reuses_nonce],
    [sync_reopens_replay], [hostile_fragments_panic], [rejected_publication_mixes],
    [failed_request_hides_records], [silent_sources_unbounded] and [repeated_record_drops_groups].
    Three more are stated by [last_epoch_reuses_nonce], [failed_revocation_unrevokes] and
    [tcp_headroom_prefix_leaks_header], the exception of [fragmented_packet_roundtrip].

    ** Fuel and bounds

    Recursion that is not structural takes fuel, and a theorem or lemma shows that the amount used is
    enough: Dijkstra ends within the number of edges plus two rounds ([search_fuel]); the loops of the
    widest paths within the work that their budget still allows, each round of a loop being charged
    ([loop_fuel]); the expiry of fragments within
    the length of their queue; the composition of IPv4 packets within the payload length; the probe
    of the nonce table within its 128 slots (for the batches of at most 64 packets that callers
    pass); the VLAN loops within five rounds, because a fifth tag is refused.

    ** Not modelled

    - The handshakes of peer_conn.rs (the Noise protocol of the snow crate over tasks and channels) and
      the peer manager, which wire the modelled parts to tasks, channels and devices.
    - The exchange of route records in peer_ospf_route.rs: sessions over generated RPC stubs and
      the versions they save, foreign networks, and the attestations of bridges.  A rebuild
      takes the records as it finds them.
    - The services over generated RPC stubs, whose message types the build generates.
    - Transports, proxies, connectors, devices and platform code: sockets and third-party stacks.
    - The file of credentials: serde and the file system; a write succeeds or leaves the file as it was.
    - Configuration files, command line, user interfaces, statistics and logging.
    - Flow classification, pacing and probes: hashes of headers that pnet reads, and feedback from
      measured rates.
    - The vendored crates, which are patched copies of third-party code. *)
From stdpp Require Import base list gmap numbers.
From Stdlib Require Import ZArith Lia.

Local Open Scope Z_scope.

(** ** Outcomes of Rust code

    A computation either returns ([Ok]), returns an error of type [E] ([Err])
    or panics ([Panic]).  Index expressions, [unwrap], [expect] and [assert!]
    are modelled with [Panic], so that panic freedom is a theorem. *)
Inductive outcome (E A : Type) : Type :=
| Ok (a : A)
| Err (e : E)
| Panic.
Arguments Ok {E A} a.
Arguments Err {E A} e.
Arguments Panic {E A}.

#[export] Instance outcome_ret {E} : MRet (outcome E) := fun _ a => Ok a.
#[export] Instance outcome_bind {E} : MBind (outcome E) := fun _ _ f m =>
  match m with Ok a => f a | Err e => Err e | Panic => Panic end.

(** [ensure!(cond, msg)] *)
Definition ensure {E} (c : bool) (e : E) : outcome E unit :=
  if c then Ok tt else Err e.
(** [assert!(cond)] *)
Definition assert_ {E} (c : bool) : outcome E unit :=
  if c then Ok tt else Panic.
(** [opt.ok_or(e)], [opt.context(e)] followed by [?] *)
Definition ok_or {E A} (o : option A) (e : E) : outcome E A :=
  match o with Some a => Ok a | None => Err e end.
(** [opt.unwrap()], and an index expression on its checked counterpart *)
Definition unwrap {E A} (o : option A) : outcome E A :=
  match o with Some a => Ok a | None => Panic end.

Lemma bind_Ok {E A B} (m : outcome E A) (f : A -> outcome E B) (b : B) :
  (x ← m; f x) = Ok b <-> exists a, m = Ok a /\ f a = Ok b.
Proof. destruct m; cbv [mbind outcome_bind]; naive_solver. Qed.

Lemma bind_not_Panic {E A B} (m : outcome E A) (f : A -> outcome E B) :
  m <> Panic -> (forall a, m = Ok a -> f a <> Panic) -> (x ← m; f x) <> Panic.
Proof. destruct m; cbv [mbind outcome_bind]; naive_solver. Qed.

Lemma ensure_Ok {E} (c : bool) (e : E) u : ensure c e = Ok u <-> c = true.
Proof. destruct c, u; cbn; naive_solver. Qed.

(** ** Fixed-width unsigned integers

    A [w]-bit unsigned integer is a [Z] in [0 .. 2^w - 1]. *)
Definition is_u (w z : Z) : Prop := 0 <= z < 2 ^ w.
Definition u_max (w : Z) : Z := 2 ^ w - 1.
(** [z as uW], wrapping arithmetic of release builds *)
Definition wrap (w z : Z) : Z := z mod 2 ^ w.
Definition saturating_sub (a b : Z) : Z := Z.max 0 (a - b).
Definition saturating_add (w a b : Z) : Z := Z.min (u_max w) (a + b).
Definition saturating_mul (w a b : Z) : Z := Z.min (u_max w) (a * b).
Definition checked_add (w a b : Z) : option Z :=
  if a + b <? 2 ^ w then Some (a + b) else None.
Definition div_ceil (a b : Z) : Z := (a + b - 1) / b.
(** [!z] on a [w]-bit unsigned integer *)
Definition unot (w z : Z) : Z := Z.lxor z (Z.ones w).

Lemma wrap_range w z : 0 <= w -> is_u w (wrap w z).
Proof. intros. unfold is_u, wrap. apply Z.mod_pos_bound. apply Z.pow_pos_nonneg; lia. Qed.

Lemma wrap_small w z : is_u w z -> wrap w z = z.
Proof. intros. unfold wrap. by apply Z.mod_small. Qed.

Lemma is_u_mono v w z : v <= w -> is_u v z -> is_u w z.
Proof.
  intros Hvw [H0 H1]. split; [done|].
  eapply Z.lt_le_trans; [done|]. by apply Z.pow_le_mono_r.
Qed.

Lemma checked_add_Some w a b c : checked_add w a b = Some c -> c = a + b /\ a + b < 2 ^ w.
Proof. unfold checked_add. destruct (_ <? _) eqn:E; [|done]. apply Z.ltb_lt in E. by intros [= <-]. Qed.
Lemma checked_add_small w a b : a + b < 2 ^ w -> checked_add w a b = Some (a + b).
Proof. intros H. unfold checked_add. by rewrite (proj2 (Z.ltb_lt _ _) H). Qed.

(** ** Bytes and byte strings *)
Abbreviation byte := Z (only parsing).
Definition is_byte (b : Z) : Prop := 0 <= b < 256.
Definition bytes_ok (l : list Z) : Prop := Forall is_byte l.
#[export] Instance is_byte_dec b : Decision (is_byte b).
Proof. unfold is_byte. apply _. Defined.
#[export] Instance bytes_ok_dec l : Decision (bytes_ok l).
Proof. unfold bytes_ok. apply _. Defined.

Lemma bytes_ok_app l k : bytes_ok (l ++ k) <-> bytes_ok l /\ bytes_ok k.
Proof. apply Forall_app. Qed.
Lemma bytes_ok_take n l : bytes_ok l -> bytes_ok (take n l).
Proof. apply Forall_take. Qed.
Lemma bytes_ok_drop n l : bytes_ok l -> bytes_ok (drop n l).
Proof. apply Forall_drop. Qed.
Lemma bytes_ok_replicate n b : is_byte b -> bytes_ok (replicate n b).
Proof. intros. by apply Forall_replicate. Qed.

(** Little- and big-endian encodings of an unsigned integer on [n] bytes *)
Fixpoint to_le (n : nat) (z : Z) : list Z :=
  match n with O => [] | S n => z mod 256 :: to_le n (z / 256) end.
Fixpoint of_le (l : list Z) : Z :=
  match l with [] => 0 | b :: l => b + 256 * of_le l end.
Definition to_be (n : nat) (z : Z) : list Z := reverse (to_le n z).
Definition of_be (l : list Z) : Z := of_le (reverse l).

Lemma length_to_le n z : length (to_le n z) = n.
Proof. revert z. induction n; intros; cbn; auto. Qed.
Lemma length_to_be n z : length (to_be n z) = n.
Proof. unfold to_be. by rewrite length_reverse, length_to_le. Qed.

Lemma to_le_bytes n z : bytes_ok (to_le n z).
Proof.
  revert z. induction n as [|n IH]; intros; constructor; [|apply IH].
  unfold is_byte. apply Z.mod_pos_bound. lia.
Qed.
Lemma to_be_bytes n z : bytes_ok (to_be n z).
Proof. apply Forall_reverse, to_le_bytes. Qed.

Lemma of_to_le n z : 0 <= z < 256 ^ Z.of_nat n -> of_le (to_le n z) = z.
Proof.
  revert z. induction n as [|n IH]; intros z Hz; [cbn in *; lia|].
  cbn [to_le of_le]. rewrite IH.
  - pose proof (Z.div_mod z 256). lia.
  - rewrite Nat2Z.inj_succ, Z.pow_succ_r in Hz by lia.
    split; [apply Z.div_pos; lia|]. apply Z.div_lt_upper_bound; lia.
Qed.
Lemma of_to_be n z : 0 <= z < 256 ^ Z.of_nat n -> of_be (to_be n z) = z.
Proof. unfold of_be, to_be. rewrite reverse_involutive. apply of_to_le. Qed.

Lemma of_le_range l : bytes_ok l -> 0 <= of_le l < 256 ^ Z.of_nat (length l).
Proof.
  induction 1 as [|b l Hb Hl IH]; cbn [of_le length]; [cbn; lia|].
  rewrite Nat2Z.inj_succ, Z.pow_succ_r by lia. unfold is_byte in Hb. lia.
Qed.
Lemma of_be_range l : bytes_ok l -> 0 <= of_be l < 256 ^ Z.of_nat (length l).
Proof.
  intros. unfold of_be. rewrite <-(length_reverse l). apply of_le_range.
  by apply Forall_reverse.
Qed.

Lemma to_of_le l : bytes_ok l -> to_le (length l) (of_le l) = l.
Proof.
  induction 1 as [|b l Hb Hl IH]; cbn [of_le length to_le]; [done|].
  unfold is_byte in Hb.
  rewrite (Z.add_comm b), (Z.mul_comm 256).
  rewrite Z.add_comm, Z.mod_add, Z.mod_small by lia.
  rewrite Z.div_add, Z.div_small, Z.add_0_l by lia. by rewrite IH.
Qed.
Lemma to_of_be l : bytes_ok l -> to_be (length l) (of_be l) = l.
Proof.
  intros. unfold to_be, of_be. rewrite <-(length_reverse l), to_of_le.
  - apply reverse_involutive.
  - by apply Forall_reverse.
Qed.

(** the most significant byte split off *)
Lemma to_le_snoc n : forall z, to_le (S n) z = to_le n z ++ [(z / 256 ^ Z.of_nat n) mod 256].
Proof.
  induction n as [|n IH]; intros z; [cbn; by rewrite Z.div_1_r|].
  change (to_le (S (S n)) z) with (z mod 256 :: to_le (S n) (z / 256)). rewrite IH.
  cbn [to_le app]. do 4 f_equal. rewrite Zdiv_Zdiv by lia. f_equal.
  rewrite Nat2Z.inj_succ, Z.pow_succ_r by lia. lia.
Qed.

Lemma to_be_cons n z : to_be (S n) z = (z / 256 ^ Z.of_nat n) mod 256 :: to_be n z.
Proof. unfold to_be. rewrite to_le_snoc, reverse_app. done. Qed.

(** only the low bytes matter *)
Lemma to_le_add n : forall z k, to_le n (z + k * 256 ^ Z.of_nat n) = to_le n z.
Proof.
  induction n as [|n IH]; intros z k; [done|].
  rewrite Nat2Z.inj_succ, Z.pow_succ_r by lia. cbn [to_le].
  replace (z + k * (256 * 256 ^ Z.of_nat n)) with (z + (k * 256 ^ Z.of_nat n) * 256) by lia.
  rewrite Z.mod_add, Z.div_add, IH by lia. done.
Qed.

Lemma to_be_add n z k : to_be n (z + k * 256 ^ Z.of_nat n) = to_be n z.
Proof. unfold to_be. by rewrite to_le_add. Qed.

Lemma to_be_inj n a b :
  0 <= a < 256 ^ Z.of_nat n -> 0 <= b < 256 ^ Z.of_nat n ->
  to_be n a = to_be n b -> a = b.
Proof. intros Ha Hb E. rewrite <-(of_to_be n a), <-(of_to_be n b), E; done. Qed.
Lemma to_le_inj n a b :
  0 <= a < 256 ^ Z.of_nat n -> 0 <= b < 256 ^ Z.of_nat n ->
  to_le n a = to_le n b -> a = b.
Proof. intros Ha Hb E. rewrite <-(of_to_le n a), <-(of_to_le n b), E; done. Qed.

(** ** Slices *)
Definition len {A} (l : list A) : Z := Z.of_nat (length l).

(** [l.get(a..b)] *)
Definition get_range {A} (l : list A) (a b : nat) : option (list A) :=
  if bool_decide (a <= b /\ b <= length l)%nat then Some (take (b - a) (drop a l)) else None.
(** [l.get(a..)] *)
Definition get_from {A} (l : list A) (a : nat) : option (list A) :=
  if bool_decide (a <= length l)%nat then Some (drop a l) else None.
(** the list with [src] copied over the positions from [off] on *)
Definition splice {A} (l : list A) (off : nat) (src : list A) : list A :=
  take off l ++ src ++ drop (off + length src) l.
(** [l[a..b].copy_from_slice(src)]: panics unless the range is inside [l] and
    has the length of [src] *)
Definition copy_from_slice {E A} (l : list A) (a b : nat) (src : list A) : outcome E (list A) :=
  if bool_decide (a <= b /\ b <= length l /\ length src = b - a)%nat
  then Ok (splice l a src) else Panic.
(** [l.resize(n, x)] *)
Definition vec_resize {A} (n : nat) (x : A) (l : list A) : list A := take n l ++ replicate (n - length l) x.

Lemma len_nonneg {A} (l : list A) : 0 <= len l.
Proof. unfold len. lia. Qed.
Lemma len_app {A} (l k : list A) : len (l ++ k) = len l + len k.
Proof. unfold len. rewrite length_app. lia. Qed.

Lemma get_range_Some {A} (l : list A) a b s :
  get_range l a b = Some s <-> (a <= b /\ b <= length l)%nat /\ s = take (b - a) (drop a l).
Proof. unfold get_range. case_bool_decide; naive_solver. Qed.

Lemma get_range_length {A} (l : list A) a b s :
  get_range l a b = Some s -> length s = (b - a)%nat.
Proof. intros [? ->]%get_range_Some. rewrite length_take, length_drop. lia. Qed.

Lemma get_range_app {A} (l m r : list A) a b :
  length l = a -> (a + length m)%nat = b -> get_range (l ++ m ++ r) a b = Some m.
Proof.
  intros <- <-. apply get_range_Some. rewrite !length_app. split; [lia|].
  rewrite drop_app_length, take_app_le by lia. by rewrite take_ge by lia.
Qed.

Lemma take_split {A} (a b : nat) (l : list A) : (a <= b)%nat -> take b l = take a l ++ take (b - a) (drop a l).
Proof.
  intros H. rewrite <-(take_drop a (take b l)) at 1. rewrite take_take, Nat.min_l by lia.
  by rewrite skipn_firstn_comm.
Qed.

(** a slice of a concatenation *)
Lemma sub_app {A} (b l m r : list A) a n :
  b = l ++ m ++ r -> length l = a -> length m = n -> take n (drop a b) = m.
Proof. intros -> <- <-. rewrite drop_app_length, take_app_le by lia. by apply take_ge. Qed.

Lemma length_splice {A} (l : list A) off src :
  (off + length src <= length l)%nat -> length (splice l off src) = length l.
Proof. intros. unfold splice. rewrite !length_app, length_take, length_drop. lia. Qed.

Lemma splice_mid {A} (l m r src : list A) :
  length src = length m -> splice (l ++ m ++ r) (length l) src = l ++ src ++ r.
Proof.
  intros E. unfold splice. rewrite take_app_length. do 2 f_equal.
  rewrite E, drop_app_add, drop_app_length. done.
Qed.

Lemma copy_mid {E A} (l m r src : list A) a b :
  length l = a -> (a + length m)%nat = b -> length src = length m ->
  copy_from_slice (E := E) (l ++ m ++ r) a b src = Ok (l ++ src ++ r).
Proof.
  intros <- <- Hs. unfold copy_from_slice.
  rewrite bool_decide_true by (rewrite !length_app; lia). by rewrite splice_mid.
Qed.

Lemma bytes_ok_splice l off src :
  bytes_ok l -> bytes_ok src -> bytes_ok (splice l off src).
Proof.
  intros. unfold splice. apply bytes_ok_app; split; [by apply bytes_ok_take|].
  apply bytes_ok_app; split; [done|by apply bytes_ok_drop].
Qed.

(** ** Bit-level lemmas *)
Lemma land_bit_nonzero z n :
  0 <= n -> (Z.land z (2 ^ n) =? 0) = negb (Z.testbit z n).
Proof.
  intros Hn. destruct (Z.testbit z n) eqn:Hb; cbn.
  - apply Z.eqb_neq. intros E. apply (f_equal (fun v => Z.testbit v n)) in E.
    rewrite Z.land_spec, Hb, Z.pow2_bits_true, Z.bits_0 in E by done. done.
  - apply Z.eqb_eq. apply Z.bits_inj'. intros i Hi.
    rewrite Z.land_spec, Z.bits_0. destruct (decide (i = n)) as [->|].
    + by rewrite Hb.
    + by rewrite Z.pow2_bits_false, andb_false_r by done.
Qed.

Lemma testbit_above z w n : is_u w z -> w <= n -> Z.testbit z n = false.
Proof.
  intros [H0 H1] Hn. destruct (decide (z = 0)) as [->|]; [apply Z.bits_0|].
  apply Z.bits_above_log2; [lia|].
  assert (Z.log2 z < w); [|lia]. apply Z.log2_lt_pow2; lia.
Qed.

Lemma is_u_bits w z :
  0 <= w -> 0 <= z -> (forall n, w <= n -> Z.testbit z n = false) -> is_u w z.
Proof.
  intros Hw Hz Hb. split; [done|].
  destruct (decide (z < 2 ^ w)) as [|Hge]; [done|exfalso].
  assert (w <= Z.log2 z) by (apply Z.log2_le_pow2; lia).
  specialize (Hb (Z.log2 z)). rewrite Z.bit_log2 in Hb by lia. naive_solver.
Qed.

Lemma is_u_lor w a b : 0 <= w -> is_u w a -> is_u w b -> is_u w (Z.lor a b).
Proof.
  intros ? Ha Hb. apply is_u_bits; [done| |].
  - apply Z.lor_nonneg. unfold is_u in *. lia.
  - intros n Hn. rewrite Z.lor_spec. by rewrite !(testbit_above _ w) by done.
Qed.
Lemma is_u_land w a b : 0 <= w -> is_u w a -> 0 <= b -> is_u w (Z.land a b).
Proof.
  intros ? Ha Hb. apply is_u_bits; [done| |].
  - apply Z.land_nonneg. lia.
  - intros n Hn. rewrite Z.land_spec. by rewrite (testbit_above _ w) by done.
Qed.

Lemma land_eq_iff f g m :
  Z.land f m = Z.land g m <->
  (forall i, 0 <= i -> Z.testbit m i = true -> Z.testbit f i = Z.testbit g i).
Proof.
  split.
  - intros E i Hi Hm. apply (f_equal (fun z => Z.testbit z i)) in E.
    rewrite !Z.land_spec, Hm, !andb_true_r in E. done.
  - intros H. apply Z.bits_inj'. intros i Hi. rewrite !Z.land_spec.
    destruct (Z.testbit m i) eqn:Hm; [by rewrite H|by rewrite !andb_false_r].
Qed.

(** A property of all bytes, by evaluation on the 256 values *)
Lemma byte_forall (P : Z -> bool) :
  forallb P (seqZ 0 256) = true -> forall b, is_byte b -> P b = true.
Proof.
  intros H b Hb. rewrite forallb_forall in H. apply H.
  apply list_elem_of_In, elem_of_seqZ. unfold is_byte in Hb. lia.
Qed.

(** or-ing in bits above a number adds them *)
Lemma lor_add v t k : 0 <= k -> 0 <= v < 2 ^ k -> Z.lor v (t * 2 ^ k) = v + t * 2 ^ k.
Proof.
  intros Hk Hv. rewrite <-Z.add_nocarry_lor; [done|].
  apply Z.bits_inj'. intros n Hn. rewrite Z.land_spec, Z.bits_0.
  destruct (Z.le_gt_cases k n).
  - by rewrite (testbit_above v k n).
  - rewrite <-Z.shiftl_mul_pow2, Z.shiftl_spec_low by lia. apply andb_false_r.
Qed.

(** ** UTF-8 validation ([str::from_utf8]): the well-formed byte sequences of
    the Unicode standard, as the Rust standard library accepts them. *)
Definition in_range (lo hi b : Z) : bool := (lo <=? b) && (b <=? hi).
Definition utf8_tail : Z -> bool := in_range 0x80 0xbf.
Fixpoint utf8_valid (l : list Z) : bool :=
  match l with
  | [] => true
  | b0 :: l1 =>
    if in_range 0 0x7f b0 then utf8_valid l1 else
    match l1 with
    | [] => false
    | b1 :: l2 =>
      if in_range 0xc2 0xdf b0 then utf8_tail b1 && utf8_valid l2 else
      match l2 with
      | [] => false
      | b2 :: l3 =>
        let second := if b0 =? 0xe0 then in_range 0xa0 0xbf b1
                      else if b0 =? 0xed then in_range 0x80 0x9f b1 else utf8_tail b1 in
        if in_range 0xe0 0xef b0 then second && utf8_tail b2 && utf8_valid l3 else
        match l3 with
        | [] => false
        | b3 :: l4 =>
          let second := if b0 =? 0xf0 then in_range 0x90 0xbf b1
                        else if b0 =? 0xf4 then in_range 0x80 0x8f b1 else utf8_tail b1 in
          in_range 0xf0 0xf4 b0 && second && utf8_tail b2 && utf8_tail b3 && utf8_valid l4
        end
      end
    end
  end.
(** [str::from_utf8(bytes).ok()] *)
Definition from_utf8 (l : list Z) : option (list Z) := if utf8_valid l then Some l else None.

(** ** Generic list lemmas *)
Fixpoint sum_Z {A} (f : A -> Z) (l : list A) : Z :=
  match l with [] => 0 | x :: l => f x + sum_Z f l end.

Lemma sum_Z_app {A} (f : A -> Z) l k : sum_Z f (l ++ k) = sum_Z f l + sum_Z f k.
Proof. induction l as [|x l IH]; cbn in *; lia. Qed.

Lemma sum_Z_nonneg {A} (f : A -> Z) l : (forall x, x ∈ l -> 0 <= f x) -> 0 <= sum_Z f l.
Proof.
  induction l as [|x l IH]; intros H; [done|]. cbn. assert (0 <= f x) by (apply H; left).
  assert (0 <= sum_Z f l); [|lia]. apply IH. intros. apply H. by right.
Qed.

Lemma sum_Z_perm {A} (f : A -> Z) l k : l ≡ₚ k -> sum_Z f l = sum_Z f k.
Proof. induction 1; cbn in *; lia. Qed.

Lemma sum_Z_ext {A} (f g : A -> Z) l : (forall x, x ∈ l -> f x = g x) -> sum_Z f l = sum_Z g l.
Proof.
  induction l as [|x l IH]; intros H; [done|]. cbn.
  rewrite (H x) by left. rewrite IH; [done|]. intros. apply H. by right.
Qed.

(** ** Automation *)
Create HintDb lt.
#[export] Hint Resolve wrap_range to_le_bytes to_be_bytes bytes_ok_take bytes_ok_drop
  bytes_ok_splice len_nonneg : lt.
#[export] Hint Rewrite @length_app @length_take @length_drop @length_replicate length_to_le
  length_to_be @length_reverse @length_insert : ltlen.

(** lengths of list expressions, then linear arithmetic *)
Ltac len_lia := autorewrite with ltlen in *; cbn [length] in *; lia.

(** [Forall P [x1; ...; xn]], element by element *)
Ltac forall_list := repeat (apply Forall_cons_2; [try done|]); try apply Forall_nil_2.

(** case analysis on the boolean or option scrutinee of the goal's match *)
Ltac case_goal :=
  match goal with
  | |- context [match ?x with _ => _ end] =>
      lazymatch x with
      | context [match _ with _ => _ end] => fail
      | _ => let E := fresh "E" in destruct x eqn:E
      end
  end.

(** turn boolean comparisons of the context and goal into propositions *)
Ltac bool_to_Z :=
  repeat match goal with
  | H : (_ && _) = true |- _ => apply andb_true_iff in H as [? ?]
  | H : (_ || _) = false |- _ => apply orb_false_iff in H as [? ?]
  | H : negb _ = true |- _ => apply negb_true_iff in H
  | H : negb _ = false |- _ => apply negb_false_iff in H
  | H : (_ <? _) = true |- _ => apply Z.ltb_lt in H
  | H : (_ <? _) = false |- _ => apply Z.ltb_ge in H
  | H : (_ <=? _) = true |- _ => apply Z.leb_le in H
  | H : (_ <=? _) = false |- _ => apply Z.leb_gt in H
  | H : (_ =? _) = true |- _ => apply Z.eqb_eq in H
  | H : (_ =? _) = false |- _ => apply Z.eqb_neq in H
  end.
