(* ===== verification/ReplayWindow.v ===== *)
(** * Anti-replay window (src/lowertier/src/peers/replay_window.rs)

    The circular bitmap of authenticated sequence numbers, kept at its machine
    layout (sixteen 64-bit words), an abstract specification that remembers the
    accepted sequence numbers as a set, and the proof that the bitmap
    implements it for every sequence of operations. *)
From stdpp Require Import base list gmap numbers.
From Stdlib Require Import ZArith Lia.
From S2P Require Import Prelude.

Local Open Scope Z_scope.

Module ReplayWindow.

Definition MAX_PACKET_BATCH_SIZE : Z := 64.
Definition SEND_PIPELINE_SLOT_COUNT : Z := 8.
Definition REPLAY_WINDOW_BITS : Z := 1024.
Definition REPLAY_WINDOW_WORDS : nat := 16.
Definition NETWORK_REORDER_HEADROOM : Z := 256.
Definition REQUIRED_REPLAY_WINDOW_BITS : Z :=
  SEND_PIPELINE_SLOT_COUNT * MAX_PACKET_BATCH_SIZE + NETWORK_REORDER_HEADROOM.
Definition REPLAY_WINDOW_INDEX_MASK : Z := REPLAY_WINDOW_BITS - 1.

(** ** State and operations *)
Record t : Type := mk {
  max_sequence : Z;
  bitmap : list Z;
  valid : bool;
}.

Definition zero_bitmap : list Z := replicate REPLAY_WINDOW_WORDS 0.
Definition default : t := mk 0 zero_bitmap false.
Definition clear (w : t) : t := mk 0 zero_bitmap false.

Definition bit_index (sequence : Z) : Z := Z.land sequence REPLAY_WINDOW_INDEX_MASK.
Definition word_index (sequence : Z) : nat := Z.to_nat (bit_index sequence / 64).
Definition bit_mask (sequence : Z) : Z := Z.shiftl 1 (bit_index sequence mod 64).

Definition test_sequence (w : t) (sequence : Z) : bool :=
  negb (Z.land (bitmap w !!! word_index sequence) (bit_mask sequence) =? 0).

Definition set_sequence (w : t) (sequence : Z) : t :=
  mk (max_sequence w)
     (alter (fun word => Z.lor word (bit_mask sequence)) (word_index sequence) (bitmap w))
     (valid w).

Definition clear_sequence (w : t) (sequence : Z) : t :=
  mk (max_sequence w)
     (alter (fun word => Z.land word (unot 64 (bit_mask sequence)))
        (word_index sequence) (bitmap w))
     (valid w).

(** [for offset in 1..=n { self.clear_sequence(self.max_sequence + offset) }] *)
Fixpoint clear_offsets (n : nat) (w : t) : t :=
  match n with
  | O => w
  | S m => let w' := clear_offsets m w in
           clear_sequence w' (max_sequence w' + Z.of_nat n)
  end.

Definition clear_advanced_positions (w : t) (new_max_sequence : Z) : t :=
  let distance := new_max_sequence - max_sequence w in
  if REPLAY_WINDOW_BITS <=? distance
  then mk (max_sequence w) zero_bitmap (valid w)
  else clear_offsets (Z.to_nat distance) w.

Definition can_accept (w : t) (sequence : Z) : bool :=
  if negb (valid w) || (max_sequence w <? sequence) then true
  else let distance := max_sequence w - sequence in
       (distance <? REPLAY_WINDOW_BITS) && negb (test_sequence w sequence).

Definition accept (w : t) (sequence : Z) : t * bool :=
  if negb (can_accept w sequence) then (w, false)
  else if negb (valid w) then
    (set_sequence (mk sequence (bitmap w) true) sequence, true)
  else
    let w := if max_sequence w <? sequence
             then let w' := clear_advanced_positions w sequence in
                  mk sequence (bitmap w') (valid w')
             else w in
    (set_sequence w sequence, true).

(** ** Sequences of operations *)
Inductive op : Type :=
| OpAccept (sequence : Z)
| OpCanAccept (sequence : Z)
| OpClear.

Definition step (w : t) (o : op) : t * bool :=
  match o with
  | OpAccept s => accept w s
  | OpCanAccept s => (w, can_accept w s)
  | OpClear => (clear w, true)
  end.

Fixpoint run (w : t) (ops : list op) : list bool :=
  match ops with
  | [] => []
  | o :: ops => let '(w, b) := step w o in b :: run w ops
  end.

Definition op_ok (o : op) : Prop :=
  match o with OpAccept s | OpCanAccept s => is_u 64 s | OpClear => True end.

(** ** Specification

    The abstract state is the history of accepted sequence numbers since the
    last [clear].  A sequence number is acceptable when it is not in the
    history and is less than [REPLAY_WINDOW_BITS] behind the largest accepted
    one. *)
Definition newest (h : list Z) : Z := foldr Z.max 0 h.
Definition spec_can_accept (h : list Z) (s : Z) : bool :=
  bool_decide (s ∉ h /\ (h = [] \/ newest h - s < REPLAY_WINDOW_BITS)).
Definition spec_step (h : list Z) (o : op) : list Z * bool :=
  match o with
  | OpAccept s => if spec_can_accept h s then (s :: h, true) else (h, false)
  | OpCanAccept s => (h, spec_can_accept h s)
  | OpClear => ([], true)
  end.
Fixpoint spec_run (h : list Z) (ops : list op) : list bool :=
  match ops with
  | [] => []
  | o :: ops => let '(h, b) := spec_step h o in b :: spec_run h ops
  end.

(** ** The bitmap as a function from positions to bits *)
Definition bit (bm : list Z) (i : Z) : bool :=
  Z.testbit (bm !!! Z.to_nat (i / 64)) (i mod 64).
Definition bitmap_ok (bm : list Z) : Prop :=
  length bm = REPLAY_WINDOW_WORDS /\ Forall (is_u 64) bm.

Lemma bit_index_mod s : bit_index s = s mod 1024.
Proof. exact (Z.land_ones s 10 ltac:(lia)). Qed.

Lemma bit_index_range s : 0 <= bit_index s < 1024.
Proof. rewrite bit_index_mod. apply Z.mod_pos_bound. lia. Qed.

Lemma word_index_lt s : (word_index s < 16)%nat.
Proof.
  unfold word_index. pose proof (bit_index_range s).
  assert (bit_index s / 64 < 16) by (apply Z.div_lt_upper_bound; lia).
  assert (0 <= bit_index s / 64) by (apply Z.div_pos; lia). lia.
Qed.

Lemma bit_mask_pow s : bit_mask s = 2 ^ (bit_index s mod 64).
Proof. unfold bit_mask. rewrite Z.shiftl_mul_pow2, Z.mul_1_l; [done|]. apply Z.mod_pos_bound. lia. Qed.

Lemma test_sequence_bit w s : test_sequence w s = bit (bitmap w) (bit_index s).
Proof.
  unfold test_sequence, bit. fold (word_index s). rewrite bit_mask_pow, land_bit_nonzero.
  - by rewrite negb_involutive.
  - apply Z.mod_pos_bound. lia.
Qed.

Lemma positions_eq i j :
  0 <= i -> 0 <= j -> Z.to_nat (i / 64) = Z.to_nat (j / 64) -> i mod 64 = j mod 64 -> i = j.
Proof.
  intros. pose proof (Z.div_mod i 64). pose proof (Z.div_mod j 64).
  assert (0 <= i / 64) by (apply Z.div_pos; lia).
  assert (0 <= j / 64) by (apply Z.div_pos; lia). lia.
Qed.

Lemma bit_alter (f : Z -> Z) bm s i :
  length bm = REPLAY_WINDOW_WORDS -> 0 <= i ->
  bit (alter f (word_index s) bm) i =
  if decide (Z.to_nat (i / 64) = word_index s)
  then Z.testbit (f (bm !!! word_index s)) (i mod 64) else bit bm i.
Proof.
  intros Hl Hi. unfold bit. case_decide as E.
  - rewrite E, list_lookup_total_alter, decide_True; [done|].
    rewrite Hl. split; [done|apply word_index_lt].
  - by rewrite list_lookup_total_alter_ne by congruence.
Qed.

Lemma set_bit w s i :
  bitmap_ok (bitmap w) -> 0 <= i ->
  bit (bitmap (set_sequence w s)) i = bit (bitmap w) i || bool_decide (i = bit_index s).
Proof.
  intros [Hl _] Hi. cbn. rewrite bit_alter by done. pose proof (bit_index_range s).
  assert (0 <= bit_index s mod 64) by (apply Z.mod_pos_bound; lia).
  case_decide as E.
  - rewrite Z.lor_spec, bit_mask_pow. unfold bit. rewrite E. f_equal.
    case_bool_decide as E'; [subst; by apply Z.pow2_bits_true|].
    apply Z.pow2_bits_false. intros E2. apply E'. apply positions_eq; try lia. done.
  - rewrite bool_decide_false; [by rewrite orb_false_r|]. by intros ->.
Qed.

Lemma clear_bit w s i :
  bitmap_ok (bitmap w) -> 0 <= i ->
  bit (bitmap (clear_sequence w s)) i = bit (bitmap w) i && negb (bool_decide (i = bit_index s)).
Proof.
  intros [Hl _] Hi. cbn. rewrite bit_alter by done. pose proof (bit_index_range s).
  assert (0 <= bit_index s mod 64) by (apply Z.mod_pos_bound; lia).
  pose proof (Z.mod_pos_bound i 64 ltac:(lia)).
  case_decide as E.
  - rewrite Z.land_spec. unfold bit. rewrite E. f_equal.
    unfold unot. rewrite Z.lxor_spec, bit_mask_pow, Z.ones_spec_low by lia.
    case_bool_decide as E'; [subst; by rewrite Z.pow2_bits_true by lia|].
    rewrite Z.pow2_bits_false; [done|]. intros E2. apply E'. apply positions_eq; try lia. done.
  - rewrite bool_decide_false; [by rewrite andb_true_r|]. by intros ->.
Qed.

Lemma bit_mask_u64 s : is_u 64 (bit_mask s).
Proof.
  rewrite bit_mask_pow. pose proof (Z.mod_pos_bound (bit_index s) 64 ltac:(lia)).
  split; [apply Z.pow_nonneg; lia|]. apply Z.pow_lt_mono_r; lia.
Qed.

Lemma alter_words_ok f n bm :
  (forall z, is_u 64 z -> is_u 64 (f z)) -> bitmap_ok bm -> bitmap_ok (alter f n bm).
Proof.
  intros Hf [Hl Hw]. split; [by rewrite length_alter|].
  apply Forall_alter; [done|]. eauto.
Qed.

Lemma set_sequence_ok w s : bitmap_ok (bitmap w) -> bitmap_ok (bitmap (set_sequence w s)).
Proof. apply alter_words_ok. intros. apply is_u_lor; [lia|done|apply bit_mask_u64]. Qed.

Lemma clear_sequence_ok w s : bitmap_ok (bitmap w) -> bitmap_ok (bitmap (clear_sequence w s)).
Proof.
  apply alter_words_ok. intros. apply is_u_land; [lia|done|].
  pose proof (bit_mask_u64 s). unfold unot, is_u in *. apply Z.lxor_nonneg.
  assert (0 <= Z.ones 64) by done. split; lia.
Qed.

Lemma zero_bitmap_ok : bitmap_ok zero_bitmap.
Proof. split; [done|]. apply Forall_replicate. done. Qed.

Lemma zero_bit s : bit zero_bitmap (bit_index s) = false.
Proof.
  unfold bit, zero_bitmap. fold (word_index s).
  rewrite lookup_total_replicate_2 by apply word_index_lt. apply Z.bits_0.
Qed.

Lemma clear_offsets_spec n w :
  bitmap_ok (bitmap w) ->
  let w' := clear_offsets n w in
  bitmap_ok (bitmap w') /\ max_sequence w' = max_sequence w /\ valid w' = valid w /\
  forall i, 0 <= i ->
    bit (bitmap w') i = true <->
    bit (bitmap w) i = true /\
    forall k, 0 < k <= Z.of_nat n -> i <> bit_index (max_sequence w + k).
Proof.
  intros Hok. induction n as [|n (IHok & IHm & IHv & IH)]; cbn zeta in *.
  - split_and!; try done. intros i Hi. cbn [clear_offsets].
    split; [intros ?; split; [done|]; intros; lia|tauto].
  - cbn [clear_offsets]. set (w1 := clear_offsets n w) in *.
    split_and!; [by apply clear_sequence_ok|done|done|].
    intros i Hi. rewrite clear_bit, andb_true_iff, negb_true_iff, bool_decide_eq_false, IH, IHm
      by done.
    split.
    + intros [[Hb Hk] Hne]. split; [done|]. intros k Hk1.
      destruct (decide (k = Z.of_nat (S n))) as [->|]; [done|]. apply Hk. lia.
    + intros [Hb Hk]. split; [split; [done|]|apply Hk; lia].
      intros k Hk1. apply Hk. lia.
Qed.

Lemma bit_index_inj s1 s2 : Z.abs (s1 - s2) < 1024 -> bit_index s1 = bit_index s2 -> s1 = s2.
Proof.
  rewrite !bit_index_mod. intros Habs E.
  pose proof (Z.div_mod s1 1024). pose proof (Z.div_mod s2 1024). nia.
Qed.

(** Advancing to [m] keeps exactly the bits of the sequences that stay inside
    the new window, and clears those that enter it. *)
Lemma clear_advanced_spec w m :
  bitmap_ok (bitmap w) -> max_sequence w < m ->
  let w' := clear_advanced_positions w m in
  bitmap_ok (bitmap w') /\ valid w' = valid w /\
  forall s, m - 1024 < s <= m ->
    bit (bitmap w') (bit_index s) = bit (bitmap w) (bit_index s) && (s <=? max_sequence w).
Proof.
  intros Hok Hlt. unfold clear_advanced_positions. case_goal; cbn zeta; bool_to_Z.
  - unfold REPLAY_WINDOW_BITS in *. cbn. split_and!; [apply zero_bitmap_ok|done|].
    intros s Hs. rewrite zero_bit. symmetry. apply andb_false_iff. right. apply Z.leb_gt. lia.
  - pose proof (clear_offsets_spec (Z.to_nat (m - max_sequence w)) w Hok)
      as (Hok' & Hm & Hv & Hb). unfold REPLAY_WINDOW_BITS in *.
    split_and!; [done|done|]. intros s Hs. pose proof (bit_index_range s).
    apply eq_true_iff_eq. rewrite Hb, andb_true_iff, Z.leb_le by lia. split.
    + intros [Hset Hk]. split; [done|]. destruct (decide (s <= max_sequence w)); [done|].
      destruct (Hk (s - max_sequence w)); [lia|f_equal; lia].
    + intros [Hset Hle]. split; [done|]. intros k Hk Ek. apply bit_index_inj in Ek; lia.
Qed.

(** ** Refinement *)
Lemma newest_ge h s : s ∈ h -> s <= newest h.
Proof. induction 1; unfold newest in *; cbn in *; lia. Qed.

Lemma newest_cons s h : newest (s :: h) = Z.max s (newest h).
Proof. done. Qed.

Record refines (w : t) (h : list Z) : Prop := {
  ref_ok : bitmap_ok (bitmap w);
  ref_empty : valid w = false -> h = [] /\ bitmap w = zero_bitmap;
  ref_valid : valid w = true -> h <> [] /\ max_sequence w = newest h;
  ref_bits : forall s, newest h - 1024 < s <= newest h ->
    valid w = true -> bit (bitmap w) (bit_index s) = bool_decide (s ∈ h);
}.

Lemma default_refines : refines default [].
Proof. split; cbn; [apply zero_bitmap_ok|done|done|done]. Qed.

Lemma can_accept_refines w h s :
  refines w h -> can_accept w s = spec_can_accept h s.
Proof.
  intros [Hok He Hv Hb]. unfold can_accept, spec_can_accept, REPLAY_WINDOW_BITS.
  destruct (valid w) eqn:V; cbn [negb orb].
  2: { destruct He as [-> _]; [done|]. symmetry. apply bool_decide_eq_true. set_solver. }
  destruct Hv as [Hne ->]; [done|]. destruct (newest h <? s) eqn:E; bool_to_Z.
  - symmetry. apply bool_decide_eq_true. split; [|lia].
    intros Hin%newest_ge. lia.
  - rewrite test_sequence_bit. apply eq_true_iff_eq.
    rewrite andb_true_iff, Z.ltb_lt, negb_true_iff, bool_decide_eq_true. split.
    + intros [Hd Hbit]. rewrite Hb in Hbit by (done || lia).
      apply bool_decide_eq_false in Hbit. split; [done|lia].
    + intros [Hin [->|Hd]]; [done|]. split; [lia|]. rewrite Hb by (done || lia).
      by apply bool_decide_eq_false.
Qed.

(** Setting the bit of [s] in a window whose newest sequence is [newest (s :: h)] *)
Lemma set_sequence_refines w h s :
  bitmap_ok (bitmap w) -> valid w = true -> max_sequence w = newest (s :: h) -> s <= newest (s :: h) ->
  newest (s :: h) - 1024 < s ->
  (forall s', newest (s :: h) - 1024 < s' <= newest (s :: h) ->
     bit (bitmap w) (bit_index s') = bool_decide (s' ∈ h)) ->
  refines (set_sequence w s) (s :: h).
Proof.
  intros Hok Hv Hm Hle Hwin Hb. split; [by apply set_sequence_ok|cbn; congruence|done|].
  intros s' Hs' _. pose proof (bit_index_range s'). rewrite set_bit, Hb by (done || lia).
  apply eq_true_iff_eq. rewrite orb_true_iff, !bool_decide_eq_true, elem_of_cons.
  split; [intros [?|E]; [tauto|left; apply bit_index_inj; [lia|done]]|].
  intros [->|?]; tauto.
Qed.

Lemma accept_refines w h s :
  refines w h -> 0 <= s ->
  refines (accept w s).1 (spec_step h (OpAccept s)).1 /\
  (accept w s).2 = (spec_step h (OpAccept s)).2.
Proof.
  intros Href Hs. unfold accept. cbn [spec_step]. rewrite (can_accept_refines w h s Href).
  destruct (spec_can_accept h s) eqn:A; cbn [negb]; [|by split].
  apply bool_decide_eq_true in A as [Hnin Hwin]. destruct Href as [Hok He Hv Hb].
  destruct (valid w) eqn:V; cbn [negb fst snd].
  - destruct Hv as [Hne Hm]; [done|]. destruct Hwin as [->|Hwin]; [done|].
    split; [|done]. unfold REPLAY_WINDOW_BITS in *. rewrite Hm.
    destruct (newest h <? s) eqn:E; bool_to_Z.
    + pose proof (clear_advanced_spec w s Hok ltac:(lia)) as (Hok' & Hv' & Hb').
      assert (newest (s :: h) = s) as Hn by (rewrite newest_cons; lia).
      apply set_sequence_refines; rewrite ?Hn; cbn; try done; try lia; [congruence|].
      intros s' Hs'. rewrite Hb' by done. rewrite Hm.
      destruct (s' <=? newest h) eqn:E'; bool_to_Z.
      * rewrite andb_true_r. apply Hb; [lia|done].
      * rewrite andb_false_r. symmetry. apply bool_decide_eq_false.
        intros Hin%newest_ge. lia.
    + assert (newest (s :: h) = newest h) as Hn by (rewrite newest_cons; lia).
      apply set_sequence_refines; rewrite ?Hn; auto; lia.
  - destruct He as [-> Hz]; [done|]. split; [|done].
    assert (newest [s] = s) as Hn by (rewrite newest_cons; change (newest []) with 0; lia).
    apply set_sequence_refines; rewrite ?Hn; cbn; try done; try lia.
    intros s' _. rewrite Hz, zero_bit. symmetry. apply bool_decide_eq_false. set_solver.
Qed.

Lemma step_refines w h o :
  refines w h -> op_ok o ->
  refines (step w o).1 (spec_step h o).1 /\ (step w o).2 = (spec_step h o).2.
Proof.
  intros Href Hop. destruct o as [s|s|]; cbn [step op_ok] in *.
  - apply accept_refines; [done|]. apply Hop.
  - split; [done|]. by apply can_accept_refines.
  - split; [apply default_refines|done].
Qed.

Lemma run_refines w h ops :
  refines w h -> Forall op_ok ops -> run w ops = spec_run h ops.
Proof.
  intros Href Hops. revert w h Href. induction Hops as [|o ops Ho Hops IH]; intros; [done|].
  cbn. pose proof (step_refines w h o Href Ho) as [Href' Hb].
  destruct (step w o) as [w' b], (spec_step h o) as [h' b']; cbn in *. subst.
  f_equal. by apply IH.
Qed.

(** C9: for every sequence of [accept], [can_accept] and [clear] calls on
    64-bit sequence numbers, the 1024-bit circular bitmap answers exactly as
    the specification that remembers the whole history of accepted numbers:
    a number is accepted if and only if it was not accepted since the last
    [clear] and is less than 1024 behind the newest accepted number. *)
Theorem replay_window_refines_history (ops : list op) :
  Forall op_ok ops -> run default ops = spec_run [] ops.
Proof. apply run_refines, default_refines. Qed.

Lemma replay_window_refines_history_witness :
  run default [OpAccept 5; OpAccept 2000; OpAccept 5; OpAccept 977; OpAccept 977; OpClear; OpAccept 5]
  = [true; true; false; true; false; true; true].
Proof.
  rewrite replay_window_refines_history; [vm_compute; reflexivity|].
  repeat constructor; done.
Defined.

(** *** No replay *)
Definition accepted (w : t) (ops : list op) : list Z :=
  omap (fun '(o, b) => match o, b with OpAccept s, true => Some s | _, _ => None end)
       (zip ops (run w ops)).

Definition is_clear (o : op) : bool := match o with OpClear => true | _ => false end.

Lemma accepted_fresh w h ops :
  refines w h -> Forall op_ok ops -> existsb is_clear ops = false ->
  NoDup h -> NoDup (accepted w ops ++ h).
Proof.
  intros Href Hops Hnc. revert w h Href Hnc.
  induction Hops as [|o ops Ho Hops IH]; intros w h Href Hnc Hnd; [done|].
  cbn [existsb] in Hnc. apply orb_false_iff in Hnc as [Hno Hnc].
  pose proof (step_refines w h o Href Ho) as [Href' Hb]. unfold accepted in *. cbn [run].
  destruct (step w o) as [w' b] eqn:Es. cbn in Href', Hb. cbn [zip omap list_omap].
  destruct o as [s|s|]; cbn in *; [|by apply (IH w' h)|done].
  destruct (spec_can_accept h s) eqn:A; cbn in *; subst; [|by apply (IH w' h)].
  apply bool_decide_eq_true in A as [Hnin _].
  assert (NoDup (s :: h)) as Hnd' by by constructor.
  specialize (IH w' (s :: h) Href' Hnc Hnd').
  rewrite <-Permutation_middle in IH. done.
Qed.

(** replay protection.  Between two [clear]s no sequence number is ever
    accepted twice, whatever the order, the gaps and the number of packets. *)
Theorem replay_window_never_accepts_twice (ops : list op) :
  Forall op_ok ops -> existsb is_clear ops = false -> NoDup (accepted default ops).
Proof.
  intros Hops Hnc. pose proof (accepted_fresh default [] ops default_refines Hops Hnc) as H.
  rewrite app_nil_r in H. apply H. constructor.
Qed.

Lemma replay_window_never_accepts_twice_witness :
  NoDup (accepted default [OpAccept 3; OpAccept 1; OpAccept 3; OpAccept 5000; OpAccept 1]) /\
  accepted default [OpAccept 3; OpAccept 1; OpAccept 3; OpAccept 5000; OpAccept 1] = [3; 1; 5000].
Proof.
  split; [apply replay_window_never_accepts_twice; [repeat constructor; done|reflexivity]|].
  vm_compute. reflexivity.
Defined.

End ReplayWindow.
