(* ===== verification/PacketHeader.v ===== *)
(** * Packet headers (src/lowertier/src/tunnel/packet_def.rs)

    The peer-manager header with its flag byte, the canonical data that the
    authenticated encryption covers, and the header of packets that cross a
    foreign network. *)
From stdpp Require Import base list gmap numbers.
From Stdlib Require Import ZArith Lia.
From S2P Require Import Prelude.

Local Open Scope Z_scope.

(** ** Packet types *)
Inductive PacketType : Type :=
| Invalid | Data | HandShake | RoutePacket | Ping | Pong | TaRpc | Route | RpcReq | RpcResp
| ForeignNetworkPacket | NoiseHandshakeMsg1 | NoiseHandshakeMsg2 | NoiseHandshakeMsg3
| RelayHandshake | RelayHandshakeAck | Ethernet | SpeedProbe | SpeedProbeAck
| RelayHandshakeConfirm | RelayHandshakeConfirmAck | RelayHandshakeReadyReceipt
| RelayHandshakeReadyReceiptAck | RelayHandshakeReady | RelayHandshakeReadyAck
| NoiseHandshakeCommit | NoiseHandshakeCommitAck | NoiseHandshakeCommitDone
| NoiseHandshakeReady | NoiseHandshakeReadyAck | NoiseHandshakeReadyReceipt
| NoiseHandshakeReadyReceiptAck | RelayHandshakeReset | RelayHandshakeResetAck
| ReceiverPressure | OverlayStream | Waypoint.

(** [packet_type as u8] *)
Definition packet_type_code (p : PacketType) : Z :=
  match p with
  | Invalid => 0 | Data => 1 | HandShake => 2 | RoutePacket => 3 | Ping => 4 | Pong => 5
  | TaRpc => 6 | Route => 7 | RpcReq => 8 | RpcResp => 9 | ForeignNetworkPacket => 10
  | NoiseHandshakeMsg1 => 13 | NoiseHandshakeMsg2 => 14 | NoiseHandshakeMsg3 => 15
  | RelayHandshake => 20 | RelayHandshakeAck => 21 | Ethernet => 22 | SpeedProbe => 25
  | SpeedProbeAck => 26 | RelayHandshakeConfirm => 27 | RelayHandshakeConfirmAck => 28
  | RelayHandshakeReadyReceipt => 32 | RelayHandshakeReadyReceiptAck => 33
  | RelayHandshakeReady => 34 | RelayHandshakeReadyAck => 35 | NoiseHandshakeCommit => 29
  | NoiseHandshakeCommitAck => 30 | NoiseHandshakeCommitDone => 31 | NoiseHandshakeReady => 36
  | NoiseHandshakeReadyAck => 37 | NoiseHandshakeReadyReceipt => 38
  | NoiseHandshakeReadyReceiptAck => 39 | RelayHandshakeReset => 40
  | RelayHandshakeResetAck => 41 | ReceiverPressure => 42 | OverlayStream => 43 | Waypoint => 44
  end.

Definition TCP_TUNNEL_HEADER_SIZE : nat := 4.
Definition PEER_MANAGER_HEADER_SIZE : nat := 16.
Definition PEER_MANAGER_STABLE_AUTH_DATA_SIZE : nat := 19.
Definition FLOW_SHARD_PRESENT : Z := 0x80.
Definition FLOW_SHARD_MASK : Z := 0x3f.
Definition CRITICAL_L2_CONTROL : Z := 0x40.

(** ** Peer-manager header *)
Module PeerManagerHeader.

(** [PeerManagerHeaderFlags] *)
Definition ENCRYPTED : Z := 0x01.
Definition LATENCY_FIRST : Z := 0x02.
Definition EXIT_NODE : Z := 0x04.
Definition NO_PROXY : Z := 0x08.
Definition COMPRESSED : Z := 0x10.
Definition SPEED_FIRST : Z := 0x20.
Definition NOT_SEND_TO_TUN : Z := 0x40.
Definition HYBRID_IP_ETHERNET : Z := 0x80.

(** [from_bits(flags).unwrap().contains(m)]: every bit is a declared flag, so
    [from_bits] never fails *)
Definition contains (flags m : Z) : bool := Z.land flags m =? m.
Definition insert (flags m : Z) : Z := Z.lor flags m.
Definition remove (flags m : Z) : Z := Z.land flags (unot 8 m).
Definition assign (flags m : Z) (b : bool) : Z := if b then insert flags m else remove flags m.

Record t : Type := mk {
  from_peer_id : Z;
  to_peer_id : Z;
  packet_type : Z;
  flags : Z;
  forward_counter : Z;
  reserved : Z;
  len : Z;
}.

Definition wf (h : t) : Prop :=
  is_u 32 (from_peer_id h) /\ is_u 32 (to_peer_id h) /\ is_byte (packet_type h) /\
  is_byte (flags h) /\ is_byte (forward_counter h) /\ is_byte (reserved h) /\ is_u 32 (len h).
#[export] Instance wf_dec h : Decision (wf h).
Proof. unfold wf, is_u. apply _. Defined.

(** The [#[repr(C, packed)]] layout with little-endian words *)
Definition as_bytes (h : t) : list Z :=
  to_le 4 (from_peer_id h) ++ to_le 4 (to_peer_id h) ++
  [packet_type h; flags h; forward_counter h; reserved h] ++ to_le 4 (len h).

(** [PeerManagerHeader::ref_from_prefix(bytes)] *)
Definition ref_from_prefix (l : list Z) : option t :=
  match l with
  | f0 :: f1 :: f2 :: f3 :: t0 :: t1 :: t2 :: t3 :: ty :: fl :: fc :: rs ::
    l0 :: l1 :: l2 :: l3 :: _ =>
      Some (mk (of_le [f0; f1; f2; f3]) (of_le [t0; t1; t2; t3]) ty fl fc rs
               (of_le [l0; l1; l2; l3]))
  | _ => None
  end.

Definition with_flags (h : t) (f : Z) : t :=
  mk (from_peer_id h) (to_peer_id h) (packet_type h) f (forward_counter h) (reserved h) (len h).
Definition with_reserved (h : t) (r : Z) : t :=
  mk (from_peer_id h) (to_peer_id h) (packet_type h) (flags h) (forward_counter h) r (len h).
Definition with_to_peer_id (h : t) (p : Z) : t :=
  mk (from_peer_id h) p (packet_type h) (flags h) (forward_counter h) (reserved h) (len h).
Definition with_packet_type (h : t) (ty : Z) : t :=
  mk (from_peer_id h) (to_peer_id h) ty (flags h) (forward_counter h) (reserved h) (len h).
Definition with_len (h : t) (n : Z) : t :=
  mk (from_peer_id h) (to_peer_id h) (packet_type h) (flags h) (forward_counter h) (reserved h) n.
Definition with_forward_counter (h : t) (c : Z) : t :=
  mk (from_peer_id h) (to_peer_id h) (packet_type h) (flags h) c (reserved h) (len h).

Definition initialize (h : t) (from to ty n : Z) : t := mk from to ty 0 1 0 n.

Definition is_encrypted (h : t) : bool := contains (flags h) ENCRYPTED.
Definition is_latency_first (h : t) : bool := contains (flags h) LATENCY_FIRST.
Definition is_speed_first (h : t) : bool := contains (flags h) SPEED_FIRST.
Definition is_hybrid_ip_ethernet (h : t) : bool := contains (flags h) HYBRID_IP_ETHERNET.
Definition is_exit_node (h : t) : bool := contains (flags h) EXIT_NODE.
Definition is_no_proxy (h : t) : bool := contains (flags h) NO_PROXY.
Definition is_compressed (h : t) : bool := contains (flags h) COMPRESSED.
Definition is_not_send_to_tun (h : t) : bool := contains (flags h) NOT_SEND_TO_TUN.

Definition set_encrypted (h : t) (b : bool) : t := with_flags h (assign (flags h) ENCRYPTED b).
Definition set_latency_first (h : t) (b : bool) : t :=
  with_flags h (assign (flags h) LATENCY_FIRST b).
Definition set_speed_first (h : t) (b : bool) : t :=
  with_flags h (assign (flags h) SPEED_FIRST b).
Definition set_hybrid_ip_ethernet (h : t) (b : bool) : t :=
  with_flags h (assign (flags h) HYBRID_IP_ETHERNET b).
Definition set_exit_node (h : t) (b : bool) : t := with_flags h (assign (flags h) EXIT_NODE b).
Definition set_no_proxy (h : t) (b : bool) : t := with_flags h (assign (flags h) NO_PROXY b).
Definition set_compressed (h : t) (b : bool) : t := with_flags h (assign (flags h) COMPRESSED b).
Definition set_not_send_to_tun (h : t) (b : bool) : t :=
  with_flags h (assign (flags h) NOT_SEND_TO_TUN b).

Definition is_foreign_control (h : t) : bool :=
  (packet_type h =? packet_type_code ForeignNetworkPacket) && is_no_proxy h.

Definition flow_shard (h : t) : option Z :=
  if negb (Z.land (reserved h) FLOW_SHARD_PRESENT =? 0)
  then Some (Z.land (reserved h) FLOW_SHARD_MASK) else None.

Definition set_flow_shard {E} (h : t) (shard : Z) : outcome E t :=
  _ ← assert_ (shard <=? FLOW_SHARD_MASK);
  Ok (with_reserved h
        (Z.lor (Z.lor (Z.land (reserved h) CRITICAL_L2_CONTROL) FLOW_SHARD_PRESENT)
               (wrap 8 shard))).

Definition is_critical_l2_control (h : t) : bool :=
  negb (Z.land (reserved h) CRITICAL_L2_CONTROL =? 0).

Definition set_critical_l2_control (h : t) (critical : bool) : t :=
  with_reserved h
    (if critical then Z.lor (reserved h) CRITICAL_L2_CONTROL
     else Z.land (reserved h) (unot 8 CRITICAL_L2_CONTROL)).

Definition mutable_mask : Z := Z.lor (Z.lor ENCRYPTED LATENCY_FIRST) SPEED_FIRST.
Definition stable_auth_flags (h : t) : Z := Z.land (flags h) (unot 8 mutable_mask).

(** the byte at offset 14 of the authenticated data *)
Definition auth_reserved (h : t) : Z :=
  Z.lor (match flow_shard h with
         | Some shard => Z.lor 0x80 (Z.land (wrap 8 shard) FLOW_SHARD_MASK)
         | None => 0
         end)
        (if is_critical_l2_control h then CRITICAL_L2_CONTROL else 0).

Definition stable_auth_data (h : t) : list Z :=
  [0x45; 0x54; 0x41; 0x44] ++ to_be 4 (from_peer_id h) ++ to_be 4 (to_peer_id h) ++
  [packet_type h] ++ [stable_auth_flags h] ++ [auth_reserved h] ++ to_be 4 (len h).

(** ** Layout *)
Lemma length_as_bytes h : length (as_bytes h) = PEER_MANAGER_HEADER_SIZE.
Proof. reflexivity. Qed.

Lemma as_bytes_ok h : wf h -> bytes_ok (as_bytes h).
Proof.
  intros (? & ? & ? & ? & ? & ? & ?). unfold as_bytes.
  rewrite !bytes_ok_app. split_and!; auto with lt. forall_list.
Qed.

(** Parsing a header from the front of a buffer inverts the layout. *)
Lemma ref_from_prefix_as_bytes h rest : wf h -> ref_from_prefix (as_bytes h ++ rest) = Some h.
Proof.
  intros (Hf & Ht & _ & _ & _ & _ & Hl). destruct h as [f t ty fl fc rs n]; cbn in *.
  rewrite <-(of_to_le 4 f Hf) at 5. rewrite <-(of_to_le 4 t Ht) at 5.
  rewrite <-(of_to_le 4 n Hl) at 5. done.
Qed.

Lemma ref_from_prefix_Some l h :
  bytes_ok l -> ref_from_prefix l = Some h ->
  wf h /\ l = as_bytes h ++ drop PEER_MANAGER_HEADER_SIZE l.
Proof.
  intros Hok E. do 16 (destruct l as [|? l]; [discriminate E|]). cbn [ref_from_prefix] in E. injection E as <-.
  unfold bytes_ok in Hok. rewrite !Forall_cons_iff in Hok. destruct_and! Hok.
  assert (forall a b c d, is_byte a -> is_byte b -> is_byte c -> is_byte d ->
    is_u 32 (of_le [a; b; c; d]) /\ to_le 4 (of_le [a; b; c; d]) = [a; b; c; d]) as Hw.
  { intros a b c d ????. assert (bytes_ok [a; b; c; d]) by forall_list.
    split; [exact (of_le_range [a; b; c; d] ltac:(done))|].
    exact (to_of_le [a; b; c; d] ltac:(done)). }
  split.
  - unfold wf; cbn [from_peer_id to_peer_id packet_type flags forward_counter reserved len].
    split_and!; (done || by apply Hw).
  - unfold as_bytes; cbn [from_peer_id to_peer_id packet_type flags forward_counter reserved len].
    cbn [of_le] in Hw. rewrite !(fun a b c d Ha Hb Hc Hd => proj2 (Hw a b c d Ha Hb Hc Hd)) by done. done.
Qed.

(** ** Flags *)
Inductive header_flag : Type :=
| FEncrypted | FLatencyFirst | FExitNode | FNoProxy | FCompressed | FSpeedFirst
| FNotSendToTun | FHybridIpEthernet.
#[export] Instance header_flag_eq_dec : EqDecision header_flag.
Proof. solve_decision. Defined.

Definition get_flag (f : header_flag) (h : t) : bool :=
  match f with
  | FEncrypted => is_encrypted h | FLatencyFirst => is_latency_first h
  | FExitNode => is_exit_node h | FNoProxy => is_no_proxy h
  | FCompressed => is_compressed h | FSpeedFirst => is_speed_first h
  | FNotSendToTun => is_not_send_to_tun h | FHybridIpEthernet => is_hybrid_ip_ethernet h
  end.
Definition set_flag (f : header_flag) (h : t) (b : bool) : t :=
  match f with
  | FEncrypted => set_encrypted h b | FLatencyFirst => set_latency_first h b
  | FExitNode => set_exit_node h b | FNoProxy => set_no_proxy h b
  | FCompressed => set_compressed h b | FSpeedFirst => set_speed_first h b
  | FNotSendToTun => set_not_send_to_tun h b | FHybridIpEthernet => set_hybrid_ip_ethernet h b
  end.
Definition flag_bit (f : header_flag) : Z :=
  match f with
  | FEncrypted => 0 | FLatencyFirst => 1 | FExitNode => 2 | FNoProxy => 3 | FCompressed => 4
  | FSpeedFirst => 5 | FNotSendToTun => 6 | FHybridIpEthernet => 7
  end.

Lemma contains_bit z n : 0 <= n -> contains z (2 ^ n) = Z.testbit z n.
Proof.
  intros Hn. unfold contains. pose proof (land_bit_nonzero z n Hn) as H.
  destruct (Z.testbit z n) eqn:Hb; cbn in H.
  - apply Z.eqb_eq. apply Z.bits_inj'. intros i Hi. rewrite Z.land_spec.
    destruct (decide (i = n)) as [->|]; [by rewrite Hb|].
    by rewrite Z.pow2_bits_false, andb_false_r by done.
  - apply Z.eqb_eq in H. rewrite H. apply Z.eqb_neq. pose proof (Z.pow_pos_nonneg 2 n). lia.
Qed.

Lemma assign_bit z n b i :
  0 <= n -> 0 <= i < 8 -> Z.testbit (assign z (2 ^ n) b) i = if decide (i = n) then b else Z.testbit z i.
Proof.
  intros Hn Hi. unfold assign, insert, remove, unot. destruct b.
  - rewrite Z.lor_spec. case_decide as E; [subst; by rewrite Z.pow2_bits_true, orb_true_r by lia|].
    by rewrite Z.pow2_bits_false, orb_false_r by done.
  - rewrite Z.land_spec, Z.lxor_spec, Z.ones_spec_low by lia.
    case_decide as E; [subst; by rewrite Z.pow2_bits_true, andb_false_r by lia|].
    by rewrite Z.pow2_bits_false, andb_true_r by done.
Qed.

Lemma get_flag_bit f h : get_flag f h = Z.testbit (flags h) (flag_bit f).
Proof.
  rewrite <-contains_bit by (destruct f; cbn; lia). by destruct f.
Qed.

Lemma set_flag_flags f h b : flags (set_flag f h b) = assign (flags h) (2 ^ flag_bit f) b.
Proof. by destruct f. Qed.

(** each of the eight flag setters of the peer-manager header writes its
    own flag and no other: reading flag [g] after writing flag [f] gives the
    written value when [g] is [f] and the old value otherwise, and no other
    header field changes. *)
Theorem header_flag_setters_independent (f g : header_flag) (h : t) (b : bool) :
  get_flag g (set_flag f h b) = (if decide (g = f) then b else get_flag g h) /\
  with_flags (set_flag f h b) (flags h) = h.
Proof.
  rewrite !get_flag_bit, set_flag_flags. split; [|by destruct f, h].
  rewrite assign_bit by (destruct f, g; cbn; lia).
  destruct f, g; cbn; done.
Qed.

(** ** Flow shard and critical-control bits *)
Lemma reserved_auth_check :
  forallb (fun r =>
    let h := mk 0 0 0 0 0 r 0 in
    let a := mk 0 0 0 0 0 (auth_reserved h) 0 in
    bool_decide (flow_shard a = flow_shard h) &&
    Bool.eqb (is_critical_l2_control a) (is_critical_l2_control h))
  (seqZ 0 256) = true.
Proof. vm_compute. reflexivity. Qed.

(** The authenticated reserved byte determines shard and criticality. *)
Lemma auth_reserved_decodes h :
  is_byte (reserved h) ->
  let a := with_reserved h (auth_reserved h) in
  flow_shard a = flow_shard h /\ is_critical_l2_control a = is_critical_l2_control h.
Proof.
  intros Hr. pose proof (byte_forall _ reserved_auth_check (reserved h) Hr) as H.
  cbv zeta in H. apply andb_true_iff in H as [H1 H2].
  apply bool_decide_eq_true in H1. apply Bool.eqb_prop in H2. split; [exact H1|exact H2].
Qed.

Lemma auth_reserved_eq_iff h1 h2 :
  is_byte (reserved h1) -> is_byte (reserved h2) ->
  auth_reserved h1 = auth_reserved h2 <->
  flow_shard h1 = flow_shard h2 /\ is_critical_l2_control h1 = is_critical_l2_control h2.
Proof.
  intros H1 H2. split.
  - intros E. pose proof (auth_reserved_decodes h1 H1) as [A1 B1].
    pose proof (auth_reserved_decodes h2 H2) as [A2 B2].
    rewrite <-A1, <-A2, <-B1, <-B2. unfold flow_shard, is_critical_l2_control. cbn.
    by rewrite E.
  - intros [E1 E2]. unfold auth_reserved. by rewrite E1, E2.
Qed.

Lemma set_flow_shard_check :
  forallb (fun r => forallb (fun s =>
    match set_flow_shard (E := unit) (mk 0 0 0 0 0 r 0) s with
    | Ok h => bool_decide (flow_shard h = Some s) &&
        Bool.eqb (is_critical_l2_control h) (is_critical_l2_control (mk 0 0 0 0 0 r 0))
    | _ => false
    end) (seqZ 0 64)) (seqZ 0 256) = true.
Proof. vm_compute. reflexivity. Qed.

(** writing a flow shard of at most 63 never panics, is read back exactly
    and preserves the critical layer-2 control bit stored in the same byte;
    a larger shard is refused by the assertion. *)
Theorem flow_shard_roundtrip (h : t) (shard : Z) :
  is_byte (reserved h) -> is_u 16 shard ->
  match set_flow_shard (E := unit) h shard with
  | Ok h' => shard <= 63 /\ flow_shard h' = Some shard /\
             is_critical_l2_control h' = is_critical_l2_control h
  | Err _ => False
  | Panic => 63 < shard
  end.
Proof.
  intros Hr Hs. pose proof (byte_forall _ set_flow_shard_check (reserved h) Hr) as H.
  cbv beta in H. rewrite forallb_forall in H.
  unfold set_flow_shard at 1. cbn [mbind outcome_bind]. unfold assert_, FLOW_SHARD_MASK.
  destruct (shard <=? 63) eqn:E; bool_to_Z; [|cbn; lia].
  specialize (H shard). cbv [mbind outcome_bind].
  assert (In shard (seqZ 0 64)) as Hin.
  { apply list_elem_of_In, elem_of_seqZ. unfold is_u in Hs. lia. }
  specialize (H Hin). unfold set_flow_shard, assert_, FLOW_SHARD_MASK in H.
  rewrite (proj2 (Z.leb_le shard 63) E) in H. cbv [mbind outcome_bind] in H.
  apply andb_true_iff in H as [H1 H2].
  apply bool_decide_eq_true in H1. apply Bool.eqb_prop in H2.
  split_and!; [done|exact H1|exact H2].
Qed.

Lemma flow_shard_roundtrip_witness :
  match set_flow_shard (E := unit) (mk 1 2 1 0 1 0x40 7) 42 with
  | Ok h' => 42 <= 63 /\ flow_shard h' = Some 42 /\ is_critical_l2_control h' = true
  | Err _ => False
  | Panic => 63 < 42
  end.
Proof. apply (flow_shard_roundtrip (mk 1 2 1 0 1 0x40 7) 42); done. Defined.

(** ** Authenticated data *)
Lemma stable_auth_flags_eq_iff h1 h2 :
  stable_auth_flags h1 = stable_auth_flags h2 <->
  (forall f, f ∉ [FEncrypted; FLatencyFirst; FSpeedFirst] -> get_flag f h1 = get_flag f h2).
Proof.
  unfold stable_auth_flags. rewrite land_eq_iff. split.
  - intros H f Hf. rewrite !get_flag_bit. apply H; [by destruct f|].
    destruct f; try reflexivity; exfalso; set_solver.
  - intros H i Hi Hm.
    assert (i < 8) as Hi8.
    { destruct (decide (i < 8)); [done|]. rewrite (testbit_above _ 8) in Hm; [done| |lia]. done. }
    assert (i = 0 \/ i = 1 \/ i = 2 \/ i = 3 \/ i = 4 \/ i = 5 \/ i = 6 \/ i = 7) as Hcases by lia.
    destruct Hcases as [->|[->|[->|[->|[->|[->|[->| ->]]]]]]]; try discriminate Hm.
    + specialize (H FExitNode). rewrite !get_flag_bit in H. apply H. set_solver.
    + specialize (H FNoProxy). rewrite !get_flag_bit in H. apply H. set_solver.
    + specialize (H FCompressed). rewrite !get_flag_bit in H. apply H. set_solver.
    + specialize (H FNotSendToTun). rewrite !get_flag_bit in H. apply H. set_solver.
    + specialize (H FHybridIpEthernet). rewrite !get_flag_bit in H. apply H. set_solver.
Qed.

Lemma length_stable_auth_data h :
  length (stable_auth_data h) = PEER_MANAGER_STABLE_AUTH_DATA_SIZE.
Proof. unfold stable_auth_data. autorewrite with ltlen. reflexivity. Qed.

(** the authenticated header data binds exactly what it should.  Two
    well-formed headers have the same authenticated data if and only if they
    agree on both peer ids, the packet type, the length, the flow shard, the
    critical bit and on every flag except the three that relays may change
    (encrypted, latency-first, speed-first); the forward counter is free. *)
Theorem stable_auth_data_binds (h1 h2 : t) :
  wf h1 -> wf h2 ->
  stable_auth_data h1 = stable_auth_data h2 <->
  from_peer_id h1 = from_peer_id h2 /\ to_peer_id h1 = to_peer_id h2 /\
  packet_type h1 = packet_type h2 /\ len h1 = len h2 /\
  flow_shard h1 = flow_shard h2 /\ is_critical_l2_control h1 = is_critical_l2_control h2 /\
  (forall f, f ∉ [FEncrypted; FLatencyFirst; FSpeedFirst] -> get_flag f h1 = get_flag f h2).
Proof.
  intros (Hf1 & Ht1 & _ & _ & _ & Hr1 & Hl1) (Hf2 & Ht2 & _ & _ & _ & Hr2 & Hl2).
  rewrite <-stable_auth_flags_eq_iff.
  transitivity (from_peer_id h1 = from_peer_id h2 /\ to_peer_id h1 = to_peer_id h2 /\
    packet_type h1 = packet_type h2 /\ len h1 = len h2 /\ auth_reserved h1 = auth_reserved h2 /\
    stable_auth_flags h1 = stable_auth_flags h2).
  2: { rewrite auth_reserved_eq_iff by done. tauto. }
  unfold stable_auth_data. split.
  - intros E. apply app_inj_1 in E as [_ E]; [|done].
    apply app_inj_1 in E as [E1 E]; [|by rewrite !length_to_be].
    apply app_inj_1 in E as [E2 E]; [|by rewrite !length_to_be].
    apply app_inj_1 in E as [E3 E]; [|done]. apply app_inj_1 in E as [E4 E]; [|done].
    apply app_inj_1 in E as [E5 E]; [|done].
    apply (to_be_inj 4) in E1; [|done..]. apply (to_be_inj 4) in E2; [|done..].
    apply (to_be_inj 4) in E; [|done..]. naive_solver.
  - intros (-> & -> & -> & -> & -> & ->). done.
Qed.

Lemma stable_auth_data_binds_witness :
  let h1 := mk 7 9 1 0x80 1 0x85 100 in
  let h2 := with_forward_counter (set_encrypted (set_speed_first h1 true) true) 3 in
  stable_auth_data h1 = stable_auth_data h2.
Proof.
  cbv zeta. apply stable_auth_data_binds; [vm_compute; split_and!; congruence..|].
  split_and!; try reflexivity. intros []; intros Hf; try reflexivity; exfalso; apply Hf; set_solver.
Defined.

#[global] Arguments as_bytes : simpl never.

End PeerManagerHeader.

(** ** Foreign-network header *)
Module ForeignNetworkPacketHeader.

Record t : Type := mk {
  header_len : Z;
  dst_peer_id : Z;
  network_name_offset : Z;
  network_name_len : Z;
}.

(** [std::mem::size_of::<ForeignNetworkPacketHeader>()] *)
Definition SIZE : nat := 10.

Definition wf (h : t) : Prop :=
  is_u 16 (header_len h) /\ is_u 32 (dst_peer_id h) /\
  is_u 16 (network_name_offset h) /\ is_u 16 (network_name_len h).

Definition as_bytes (h : t) : list Z :=
  to_le 2 (header_len h) ++ to_le 4 (dst_peer_id h) ++
  to_le 2 (network_name_offset h) ++ to_le 2 (network_name_len h).

Definition ref_from_prefix (l : list Z) : option t :=
  match l with
  | h0 :: h1 :: d0 :: d1 :: d2 :: d3 :: o0 :: o1 :: n0 :: n1 :: _ =>
      Some (mk (of_le [h0; h1]) (of_le [d0; d1; d2; d3]) (of_le [o0; o1]) (of_le [n0; n1]))
  | _ => None
  end.

Definition new (dst : Z) (network_name : list Z) : t :=
  let network_name_offset := wrap 16 (Z.of_nat SIZE) in
  let network_name_len := wrap 16 (len network_name) in
  let header_len := wrap 16 (network_name_offset + network_name_len) in
  mk header_len dst network_name_offset network_name_len.

Definition get_header_len (h : t) : nat := Z.to_nat (header_len h).
Definition get_dst_peer_id (h : t) : Z := dst_peer_id h.

Definition validate (h : t) (payload : list Z) : option unit :=
  let name_offset := network_name_offset h in
  let name_len := network_name_len h in
  name_end ← checked_add 64 name_offset name_len;
  if (Z.of_nat SIZE <=? header_len h) && (header_len h <=? len payload) &&
     (Z.of_nat SIZE <=? name_offset) && negb (name_len =? 0) && (name_end =? header_len h)
  then Some tt else None.

Definition get_network_name (h : t) (payload : list Z) : option (list Z) :=
  _ ← validate h payload;
  name_end ← checked_add 64 (network_name_offset h) (network_name_len h);
  bytes ← get_range payload (Z.to_nat (network_name_offset h)) (Z.to_nat name_end);
  from_utf8 bytes.

Lemma foreign_length_as_bytes h : length (as_bytes h) = SIZE.
Proof. reflexivity. Qed.

Lemma foreign_ref_from_prefix_as_bytes h rest : wf h -> ref_from_prefix (as_bytes h ++ rest) = Some h.
Proof.
  intros (Hh & Hd & Ho & Hn). destruct h as [hl d o n]; cbn in *.
  rewrite <-(of_to_le 2 hl Hh) at 3. rewrite <-(of_to_le 4 d Hd) at 5.
  rewrite <-(of_to_le 2 o Ho) at 3. rewrite <-(of_to_le 2 n Hn) at 3. done.
Qed.

(** a network name that the 16-bit header fields can describe *)
Definition name_ok (name : list Z) : Prop := name <> [] /\ len name <= 65525.

Lemma new_fields dst name :
  name_ok name ->
  new dst name = mk (10 + len name) dst 10 (len name).
Proof.
  intros [_ Hl]. pose proof (len_nonneg name). unfold new.
  assert (forall z, 0 <= z <= 65535 -> wrap 16 z = z) as Hw
    by (intros; apply wrap_small; unfold is_u; cbn; lia).
  change (Z.of_nat SIZE) with 10. cbv zeta.
  by rewrite (Hw 10), (Hw (len name)), (Hw (10 + len name)) by lia.
Qed.

Lemma new_wf dst name : is_u 32 dst -> wf (new dst name).
Proof. intros. unfold wf, new. cbn. split_and!; auto using wrap_range with lia. Qed.

Lemma validate_new dst name payload :
  name_ok name -> 10 + len name <= len payload -> validate (new dst name) payload = Some tt.
Proof.
  intros Hn Hp. rewrite (new_fields dst name Hn). destruct Hn as [Hne Hl].
  assert (0 < len name) by (destruct name; [done|unfold len; cbn; lia]).
  unfold validate. cbn [header_len network_name_offset network_name_len].
  rewrite checked_add_small by (cbn; lia). cbn [mbind option_bind].
  rewrite !(proj2 (Z.leb_le _ _)), (proj2 (Z.eqb_neq _ _)), (proj2 (Z.eqb_eq _ _));
    [done|unfold SIZE; lia..].
Qed.

(** The network name and the destination written into a foreign-network
    header are recovered exactly from the serialized header followed by the
    name, whatever follows, for every non-empty UTF-8 name that the 16-bit
    length fields can hold. *)
Theorem foreign_header_roundtrip (dst : Z) (name rest : list Z) :
  is_u 32 dst -> name_ok name -> utf8_valid name = true ->
  let payload := as_bytes (new dst name) ++ name ++ rest in
  ref_from_prefix payload = Some (new dst name) /\
  get_network_name (new dst name) payload = Some name /\
  get_dst_peer_id (new dst name) = dst.
Proof.
  intros Hd Hn Hu payload. split_and!; [by apply foreign_ref_from_prefix_as_bytes, new_wf| |done].
  unfold get_network_name. subst payload. rewrite validate_new; [|done|].
  2: { rewrite !len_app. unfold len at 2. rewrite foreign_length_as_bytes. pose proof (len_nonneg rest).
       unfold SIZE. lia. }
  rewrite (new_fields dst name Hn). destruct Hn as [Hne Hl]. pose proof (len_nonneg name).
  cbn [mbind option_bind network_name_offset network_name_len].
  rewrite checked_add_small by (cbn; lia). cbn [mbind option_bind].
  rewrite get_range_app; [|reflexivity|unfold len; lia]. cbn. unfold from_utf8. by rewrite Hu.
Qed.

Lemma foreign_header_roundtrip_witness :
  get_network_name (new 77 [0x61; 0xc3; 0xa9])
    (as_bytes (new 77 [0x61; 0xc3; 0xa9]) ++ [0x61; 0xc3; 0xa9] ++ [1; 2]) = Some [0x61; 0xc3; 0xa9].
Proof. apply (foreign_header_roundtrip 77 [0x61; 0xc3; 0xa9] [1; 2]); done. Defined.

#[global] Arguments as_bytes : simpl never.

End ForeignNetworkPacketHeader.

(** ** VLAN tags of an Ethernet frame *)
Module Vlan.

(** [VlanStack]: four slots and a fill count *)
Record VlanStack : Type := mk_stack { tags : list Z; stack_len : nat }.
Definition empty_stack : VlanStack := mk_stack [0; 0; 0; 0] 0.
Definition as_slice (v : VlanStack) : list Z := take (stack_len v) (tags v).
Definition push (v : VlanStack) (tag : Z) : option VlanStack :=
  match tags v !! stack_len v with
  | Some _ => Some (mk_stack (<[stack_len v := tag]> (tags v)) (S (stack_len v)))
  | None => None
  end.

Record EthernetNetworkMetadata : Type := mk_metadata {
  ether_type : Z;
  payload_offset : nat;
  vlan_stack : VlanStack;
}.

Definition is_vlan_type (ty : Z) : bool := (ty =? 0x8100) || (ty =? 0x88a8) || (ty =? 0x9100).

(** The loop of [ethernet_network_metadata].  [slots] counts loop iterations;
    the stack refuses a fifth tag, so five are always enough. *)
Fixpoint vlan_loop (slots : nat) (frame : list Z) (ty : Z) (off : nat) (v : VlanStack)
    : option EthernetNetworkMetadata :=
  if is_vlan_type ty then
    match slots with
    | O => None
    | S slots =>
        tag ← get_range frame off (off + 4);
        v ← push v (Z.land (of_be (take 2 tag)) 0x0fff);
        vlan_loop slots frame (of_be (take 2 (drop 2 tag))) (off + 4) v
    end
  else Some (mk_metadata ty off v).

Definition ethernet_network_metadata (frame : list Z) : option EthernetNetworkMetadata :=
  ty ← get_range frame 12 14;
  vlan_loop 5 frame (of_be ty) 14 empty_stack.

(** *** Frames with a given tag stack *)
Definition tag_header (tpid_tci : Z * Z) : list Z := to_be 2 tpid_tci.1 ++ to_be 2 tpid_tci.2.
Fixpoint tagged (tags : list (Z * Z)) (ty : Z) : list Z :=
  match tags with
  | [] => to_be 2 ty
  | t :: tags => tag_header t ++ tagged tags ty
  end.
Definition tag_ok (t : Z * Z) : Prop := is_vlan_type t.1 = true /\ is_u 16 t.2.

Definition stack_wf (v : VlanStack) : Prop := length (tags v) = 4%nat /\ (stack_len v <= 4)%nat.

Lemma push_wf v tag :
  stack_wf v -> (stack_len v < 4)%nat ->
  exists v', push v tag = Some v' /\ stack_wf v' /\ stack_len v' = S (stack_len v) /\
             as_slice v' = as_slice v ++ [tag].
Proof.
  intros [Hl Hle] Hlt. unfold push.
  destruct (tags v !! stack_len v) eqn:E; [|apply lookup_ge_None in E; lia].
  eexists. split_and!; [done| |done|].
  - unfold stack_wf; cbn. rewrite length_insert. lia.
  - unfold as_slice; cbn. apply list_eq. intros i.
    destruct (decide (i < stack_len v)%nat).
    + rewrite lookup_take_lt, list_lookup_insert_ne, lookup_app_l, lookup_take_lt by
        (try rewrite length_take; lia). done.
    + destruct (decide (i = stack_len v)) as [->|].
      * rewrite lookup_take_lt, list_lookup_insert_eq, lookup_app_r by (try rewrite length_take; lia).
        rewrite length_take, Nat.min_l, Nat.sub_diag by lia. done.
      * rewrite lookup_take_ge, lookup_app_r by (try rewrite length_take; lia).
        symmetry. apply lookup_ge_None. rewrite length_take. cbn. lia.
Qed.

Lemma push_full v tag : stack_wf v -> stack_len v = 4%nat -> push v tag = None.
Proof. intros [Hl _] E. unfold push. by rewrite E, lookup_ge_None_2 by lia. Qed.

Lemma is_vlan_u16 ty : is_vlan_type ty = true -> is_u 16 ty.
Proof.
  unfold is_vlan_type. rewrite !orb_true_iff, !Z.eqb_eq. unfold is_u. cbn. lia.
Qed.

(** the EtherType that the header of a tag stack starts with *)
Definition first_type (ts : list (Z * Z)) (ty : Z) : Z :=
  match ts with [] => ty | t :: _ => t.1 end.

Lemma tagged_first ts ty rest :
  take 2 (tagged ts ty ++ rest) = to_be 2 (first_type ts ty).
Proof. destruct ts as [|[tp tci] ts]; done. Qed.

Lemma vlan_loop_tagged ts : forall slots pre ty rest v,
  (4 < slots + stack_len v)%nat -> Forall tag_ok ts -> is_u 16 ty -> is_vlan_type ty = false ->
  stack_wf v ->
  vlan_loop slots (pre ++ tagged ts ty ++ rest) (first_type ts ty) (length pre + 2) v =
  if decide (stack_len v + length ts <= 4)%nat
  then option_map (mk_metadata ty (length pre + 2 + 4 * length ts))
         (foldl (fun o t => o ≫= fun v => push v (Z.land t.2 0x0fff)) (Some v) ts)
  else None.
Proof.
  induction ts as [|[tp tci] ts IH]; intros slots pre ty rest v Hslots Hts Hty Hnv Hv.
  - assert (vlan_loop slots (pre ++ tagged [] ty ++ rest) ty (length pre + 2) v =
            Some (mk_metadata ty (length pre + 2) v)) as Hl
      by (destruct slots; cbn [vlan_loop]; by rewrite Hnv).
    cbn [first_type]. rewrite Hl. cbn. rewrite decide_True by (destruct Hv; lia).
    by replace (length pre + 2 + 0)%nat with (length pre + 2)%nat by lia.
  - destruct slots as [|slots]; [destruct Hv; lia|]. apply Forall_cons_iff in Hts as [[Htp Htci] Hts].
    cbn [fst snd] in *. cbn [first_type vlan_loop fst]. rewrite Htp.
    assert (get_range (pre ++ tagged ((tp, tci) :: ts) ty ++ rest) (length pre + 2) (length pre + 2 + 4)
            = Some (to_be 2 tci ++ to_be 2 (first_type ts ty))) as Hg.
    { replace (pre ++ tagged ((tp, tci) :: ts) ty ++ rest)
        with ((pre ++ to_be 2 tp) ++ (to_be 2 tci ++ take 2 (tagged ts ty ++ rest)) ++
              drop 2 (tagged ts ty ++ rest)).
      - rewrite tagged_first. apply get_range_app; rewrite !length_app, !length_to_be; lia.
      - rewrite <-!app_assoc. cbn [tagged tag_header fst snd]. rewrite take_drop.
        unfold tag_header. by rewrite <-!app_assoc. }
    rewrite Hg. cbn [mbind option_bind].
    change (take 2 (to_be 2 tci ++ to_be 2 (first_type ts ty))) with (to_be 2 tci).
    change (take 2 (drop 2 (to_be 2 tci ++ to_be 2 (first_type ts ty))))
      with (to_be 2 (first_type ts ty)).
    rewrite !of_to_be; [|exact Htci|]; cycle 1.
    { destruct ts as [|[tp' ?] ?]; [exact Hty|]. apply Forall_cons_iff in Hts as [[? _] _].
      by apply is_vlan_u16. }
    cbn [length foldl]. destruct (decide (stack_len v < 4)%nat) as [Hlt|Hge].
    + destruct (push_wf v (Z.land tci 0x0fff) Hv Hlt) as (v' & Hp & Hv' & Hl' & _).
      cbn [mbind option_bind snd]. rewrite Hp.
      specialize (IH slots (pre ++ tag_header (tp, tci)) ty rest v' ltac:(lia)
        Hts Hty Hnv Hv').
      rewrite <-app_assoc in IH.
      replace (pre ++ tagged ((tp, tci) :: ts) ty ++ rest)
        with (pre ++ tag_header (tp, tci) ++ tagged ts ty ++ rest)
        by (cbn [tagged]; by rewrite <-(app_assoc (tag_header _))).
      replace (length (pre ++ tag_header (tp, tci)) + 2)%nat with (length pre + 2 + 4)%nat in IH
        by (rewrite length_app; unfold tag_header; rewrite length_app, !length_to_be; lia).
      cbn [mbind option_bind]. rewrite IH, Hl'. repeat case_decide; try lia; [|done].
      by replace (length pre + 2 + 4 + 4 * length ts)%nat with (length pre + 2 + 4 * S (length ts))%nat by lia.
    + rewrite push_full by (try done; destruct Hv; lia). cbn [mbind option_bind].
      rewrite decide_False by (destruct Hv; lia). done.
Qed.

Lemma push_all ts v :
  stack_wf v -> (stack_len v + length ts <= 4)%nat ->
  exists v', foldl (fun o t => o ≫= fun v => push v (Z.land t.2 0x0fff)) (Some v) ts = Some v' /\
             as_slice v' = as_slice v ++ map (fun t : Z * Z => Z.land t.2 0x0fff) ts.
Proof.
  revert v. induction ts as [|t ts IH]; intros v Hv Hl.
  - exists v. by rewrite app_nil_r.
  - cbn [length] in Hl. destruct (push_wf v (Z.land t.2 0x0fff) Hv) as (v' & Hp & Hv' & Hl' & Hs); [lia|].
    destruct (IH v' Hv') as (v'' & Hf & Hs'); [lia|].
    exists v''. cbn [foldl mbind option_bind]. rewrite Hp. split; [exact Hf|].
    rewrite Hs', Hs, <-app_assoc. done.
Qed.

(** A frame whose two MAC addresses are followed by up to four VLAN tags
    (802.1Q, 802.1ad or 0x9100) and an EtherType parses to that EtherType, the
    offset just after it and the list of 12-bit VLAN ids in order; a frame
    with more than four tags is rejected. *)
Lemma vlan_metadata_correct (macs : list Z) (ts : list (Z * Z)) (ty : Z) (rest : list Z) :
  length macs = 12%nat -> Forall tag_ok ts -> is_u 16 ty -> is_vlan_type ty = false ->
  match ethernet_network_metadata (macs ++ tagged ts ty ++ rest) with
  | Some m => (length ts <= 4)%nat /\ ether_type m = ty /\
              payload_offset m = (14 + 4 * length ts)%nat /\
              as_slice (vlan_stack m) = map (fun t => Z.land t.2 0x0fff) ts
  | None => (4 < length ts)%nat
  end.
Proof.
  intros Hm Hts Hty Hnv. unfold ethernet_network_metadata.
  assert (get_range (macs ++ tagged ts ty ++ rest) 12 14 = Some (to_be 2 (first_type ts ty))) as Hg.
  { rewrite <-(take_drop 2 (tagged ts ty ++ rest)), tagged_first.
    apply get_range_app; rewrite ?length_to_be; lia. }
  rewrite Hg. cbn [mbind option_bind].
  rewrite of_to_be by (destruct ts as [|[tp ?] ?]; [exact Hty|];
    apply Forall_cons_iff in Hts as [[? _] _]; by apply is_vlan_u16).
  pose proof (vlan_loop_tagged ts 5 macs ty rest empty_stack ltac:(cbn; lia) Hts Hty Hnv
    ltac:(split; cbn; lia)) as Hl.
  rewrite Hm in Hl. cbn [Nat.add] in Hl. rewrite Hl. clear Hl. cbn [stack_len empty_stack].
  case_decide as Hle; cbn [Nat.add] in Hle; [|cbv iota; lia].
  destruct (push_all ts empty_stack) as (v' & Hf & Hs); [split; cbn; lia|cbn; lia|].
  rewrite Hf. cbn [option_map ether_type payload_offset vlan_stack].
  split_and!; [lia|done|lia|exact Hs].
Qed.

End Vlan.
