(* ===== verification/Packet.v ===== *)
(** * Zero-copy packets (src/lowertier/src/tunnel/packet_def.rs, [ZCPacket])

    A packet is a byte buffer whose layout depends on the tunnel it travels
    through, with local metadata.  The model keeps every field of the struct;
    [BytesMut] storage is its contents, an [Arc] is the number that identifies
    it, and calls into a shared buffer pool are returned as [pool_event]s. *)
From stdpp Require Import base list gmap numbers strings.
From Stdlib Require Import ZArith Lia.
From S2P Require Import Prelude PacketHeader.

Local Open Scope Z_scope.

Module PH := PeerManagerHeader.
Module FH := ForeignNetworkPacketHeader.

Inductive SecureAuthLevel : Type :=
| AuthNone | EncryptedUnauthenticated | PeerVerified | NetworkSecretConfirmed.
Inductive PeerIdentityType : Type := Admin | Credential | SharedNode | ForeignRelay.
#[export] Instance SecureAuthLevel_eq_dec : EqDecision SecureAuthLevel.
Proof. solve_decision. Defined.
#[export] Instance PeerIdentityType_eq_dec : EqDecision PeerIdentityType.
Proof. solve_decision. Defined.

(** ** Buffer layouts *)
Inductive ZCPacketType : Type := TCP | NIC | DummyTunnel.
#[export] Instance ZCPacketType_eq_dec : EqDecision ZCPacketType.
Proof. solve_decision. Defined.

Definition NIC_TUNNEL_HEADROOM : Z := 18.
Definition PAYLOAD_OFFSET_FOR_NIC_PACKET : Z := NIC_TUNNEL_HEADROOM + Z.of_nat PEER_MANAGER_HEADER_SIZE.
Definition INVALID_OFFSET : Z := u_max 64.

Record ZCPacketOffsets : Type := mk_offsets {
  payload_offset_of : Z;
  peer_manager_header_offset : Z;
  tcp_tunnel_header_offset : Z;
  dummy_tunnel_header_offset : Z;
}.

Definition get_converted_offset (old_hdr_size new_hdr_size : Z) : Z :=
  if old_hdr_size <? new_hdr_size then INVALID_OFFSET else old_hdr_size - new_hdr_size.

Definition get_packet_offsets (ty : ZCPacketType) : ZCPacketOffsets :=
  let tcp := Z.of_nat TCP_TUNNEL_HEADER_SIZE in
  let pm := Z.of_nat PEER_MANAGER_HEADER_SIZE in
  match ty with
  | TCP => mk_offsets (tcp + pm) tcp 0 (get_converted_offset tcp 0)
  | NIC => mk_offsets PAYLOAD_OFFSET_FOR_NIC_PACKET (PAYLOAD_OFFSET_FOR_NIC_PACKET - pm)
             (PAYLOAD_OFFSET_FOR_NIC_PACKET - pm - tcp) (PAYLOAD_OFFSET_FOR_NIC_PACKET - pm)
  | DummyTunnel => mk_offsets pm 0 (get_converted_offset 0 tcp) 0
  end.

(** ** Metadata derived from a packet *)
Record ParsedPacketMetadata : Type := mk_parsed {
  pm_from_peer_id : Z;
  pm_to_peer_id : Z;
  pm_packet_type : Z;
  pm_encrypted : bool;
  pm_compressed : bool;
  pm_not_send_to_tun : bool;
  pm_flow_shard : option Z;
  pm_ethernet_destination : option (list Z);
  pm_ethernet_source : option (list Z);
  pm_ethernet_network : option Vlan.EthernetNetworkMetadata;
}.

(** ** Relay traffic classes (src/lowertier/src/peers/traffic_metrics.rs) *)
Inductive TrafficKind : Type := TrafficData | TrafficControl.
#[export] Instance TrafficKind_eq_dec : EqDecision TrafficKind.
Proof. solve_decision. Defined.
Definition traffic_kind (ty : Z) : TrafficKind :=
  if (ty =? packet_type_code Data) || (ty =? packet_type_code Ethernet) ||
     (ty =? packet_type_code OverlayStream) || (ty =? packet_type_code Waypoint)
  then TrafficData else TrafficControl.
Definition is_relay_data_packet_type (ty : Z) : bool :=
  bool_decide (traffic_kind ty = TrafficData) || (ty =? packet_type_code ForeignNetworkPacket).

(** a call into the shared buffer pool *)
Inductive pool_event : Type :=
| PoolRecycle (pool : Z) (buffer : list Z)
| PoolRecycleInitialized (pool : Z) (buffer : list Z) (allocation_start : Z)
| PoolReplaceDetached (pool : Z).

Module ZCPacket.

Record t : Type := mk {
  transit_data : bool;
  transit_network : option (list Z);
  transit_destination : option Z;
  path_rule : option Z;
  inner : list Z;
  packet_type : ZCPacketType;
  lossy_hint : option bool;
  authenticated_peer_id : option Z;
  authenticated_peer_identity_type : option PeerIdentityType;
  authenticated_peer_secure_auth_level : option SecureAuthLevel;
  authenticated_session_id : option Z;
  verified_origin_peer_id : option Z;
  verified_origin_peer_identity_type : option PeerIdentityType;
  verified_origin_peer_secure_auth_level : option SecureAuthLevel;
  verified_origin_session_id : option Z;
  flow_hash : option Z;
  batch_key : option Z;
  queue_feedback : option Z;
  parsed_metadata : option ParsedPacketMetadata;
  reusable_pool : option Z;
  reusable_prefix : option (list Z);
  reusable_allocation_start : option Z;
}.

Definition with_transit_data (p : t) (v0 : bool) : t :=
  mk v0 (transit_network p) (transit_destination p) (path_rule p) (inner p) (packet_type p)
    (lossy_hint p) (authenticated_peer_id p) (authenticated_peer_identity_type p)
    (authenticated_peer_secure_auth_level p) (authenticated_session_id p)
    (verified_origin_peer_id p) (verified_origin_peer_identity_type p)
    (verified_origin_peer_secure_auth_level p) (verified_origin_session_id p) (flow_hash p)
    (batch_key p) (queue_feedback p) (parsed_metadata p) (reusable_pool p) (reusable_prefix
    p) (reusable_allocation_start p).
Definition with_transit_network (p : t) (v0 : option (list Z)) : t :=
  mk (transit_data p) v0 (transit_destination p) (path_rule p) (inner p) (packet_type p)
    (lossy_hint p) (authenticated_peer_id p) (authenticated_peer_identity_type p)
    (authenticated_peer_secure_auth_level p) (authenticated_session_id p)
    (verified_origin_peer_id p) (verified_origin_peer_identity_type p)
    (verified_origin_peer_secure_auth_level p) (verified_origin_session_id p) (flow_hash p)
    (batch_key p) (queue_feedback p) (parsed_metadata p) (reusable_pool p) (reusable_prefix
    p) (reusable_allocation_start p).
Definition with_transit_destination (p : t) (v0 : option Z) : t :=
  mk (transit_data p) (transit_network p) v0 (path_rule p) (inner p) (packet_type p)
    (lossy_hint p) (authenticated_peer_id p) (authenticated_peer_identity_type p)
    (authenticated_peer_secure_auth_level p) (authenticated_session_id p)
    (verified_origin_peer_id p) (verified_origin_peer_identity_type p)
    (verified_origin_peer_secure_auth_level p) (verified_origin_session_id p) (flow_hash p)
    (batch_key p) (queue_feedback p) (parsed_metadata p) (reusable_pool p) (reusable_prefix
    p) (reusable_allocation_start p).
Definition with_inner (p : t) (v0 : list Z) : t :=
  mk (transit_data p) (transit_network p) (transit_destination p) (path_rule p) v0
    (packet_type p) (lossy_hint p) (authenticated_peer_id p)
    (authenticated_peer_identity_type p) (authenticated_peer_secure_auth_level p)
    (authenticated_session_id p) (verified_origin_peer_id p)
    (verified_origin_peer_identity_type p) (verified_origin_peer_secure_auth_level p)
    (verified_origin_session_id p) (flow_hash p) (batch_key p) (queue_feedback p)
    (parsed_metadata p) (reusable_pool p) (reusable_prefix p) (reusable_allocation_start p).
Definition with_packet_type (p : t) (v0 : ZCPacketType) : t :=
  mk (transit_data p) (transit_network p) (transit_destination p) (path_rule p) (inner p) v0
    (lossy_hint p) (authenticated_peer_id p) (authenticated_peer_identity_type p)
    (authenticated_peer_secure_auth_level p) (authenticated_session_id p)
    (verified_origin_peer_id p) (verified_origin_peer_identity_type p)
    (verified_origin_peer_secure_auth_level p) (verified_origin_session_id p) (flow_hash p)
    (batch_key p) (queue_feedback p) (parsed_metadata p) (reusable_pool p) (reusable_prefix
    p) (reusable_allocation_start p).
Definition with_lossy_hint (p : t) (v0 : option bool) : t :=
  mk (transit_data p) (transit_network p) (transit_destination p) (path_rule p) (inner p)
    (packet_type p) v0 (authenticated_peer_id p) (authenticated_peer_identity_type p)
    (authenticated_peer_secure_auth_level p) (authenticated_session_id p)
    (verified_origin_peer_id p) (verified_origin_peer_identity_type p)
    (verified_origin_peer_secure_auth_level p) (verified_origin_session_id p) (flow_hash p)
    (batch_key p) (queue_feedback p) (parsed_metadata p) (reusable_pool p) (reusable_prefix
    p) (reusable_allocation_start p).
Definition with_authenticated_peer_id (p : t) (v0 : option Z) : t :=
  mk (transit_data p) (transit_network p) (transit_destination p) (path_rule p) (inner p)
    (packet_type p) (lossy_hint p) v0 (authenticated_peer_identity_type p)
    (authenticated_peer_secure_auth_level p) (authenticated_session_id p)
    (verified_origin_peer_id p) (verified_origin_peer_identity_type p)
    (verified_origin_peer_secure_auth_level p) (verified_origin_session_id p) (flow_hash p)
    (batch_key p) (queue_feedback p) (parsed_metadata p) (reusable_pool p) (reusable_prefix
    p) (reusable_allocation_start p).
Definition with_authenticated_peer_identity_type (p : t) (v0 : option PeerIdentityType) : t :=
  mk (transit_data p) (transit_network p) (transit_destination p) (path_rule p) (inner p)
    (packet_type p) (lossy_hint p) (authenticated_peer_id p) v0
    (authenticated_peer_secure_auth_level p) (authenticated_session_id p)
    (verified_origin_peer_id p) (verified_origin_peer_identity_type p)
    (verified_origin_peer_secure_auth_level p) (verified_origin_session_id p) (flow_hash p)
    (batch_key p) (queue_feedback p) (parsed_metadata p) (reusable_pool p) (reusable_prefix
    p) (reusable_allocation_start p).
Definition with_authenticated_peer_secure_auth_level (p : t) (v0 : option SecureAuthLevel) : t :=
  mk (transit_data p) (transit_network p) (transit_destination p) (path_rule p) (inner p)
    (packet_type p) (lossy_hint p) (authenticated_peer_id p)
    (authenticated_peer_identity_type p) v0 (authenticated_session_id p)
    (verified_origin_peer_id p) (verified_origin_peer_identity_type p)
    (verified_origin_peer_secure_auth_level p) (verified_origin_session_id p) (flow_hash p)
    (batch_key p) (queue_feedback p) (parsed_metadata p) (reusable_pool p) (reusable_prefix
    p) (reusable_allocation_start p).
Definition with_authenticated_session_id (p : t) (v0 : option Z) : t :=
  mk (transit_data p) (transit_network p) (transit_destination p) (path_rule p) (inner p)
    (packet_type p) (lossy_hint p) (authenticated_peer_id p)
    (authenticated_peer_identity_type p) (authenticated_peer_secure_auth_level p) v0
    (verified_origin_peer_id p) (verified_origin_peer_identity_type p)
    (verified_origin_peer_secure_auth_level p) (verified_origin_session_id p) (flow_hash p)
    (batch_key p) (queue_feedback p) (parsed_metadata p) (reusable_pool p) (reusable_prefix
    p) (reusable_allocation_start p).
Definition with_flow_hash (p : t) (v0 : option Z) : t :=
  mk (transit_data p) (transit_network p) (transit_destination p) (path_rule p) (inner p)
    (packet_type p) (lossy_hint p) (authenticated_peer_id p)
    (authenticated_peer_identity_type p) (authenticated_peer_secure_auth_level p)
    (authenticated_session_id p) (verified_origin_peer_id p)
    (verified_origin_peer_identity_type p) (verified_origin_peer_secure_auth_level p)
    (verified_origin_session_id p) v0 (batch_key p) (queue_feedback p) (parsed_metadata p)
    (reusable_pool p) (reusable_prefix p) (reusable_allocation_start p).
Definition with_batch_key (p : t) (v0 : option Z) : t :=
  mk (transit_data p) (transit_network p) (transit_destination p) (path_rule p) (inner p)
    (packet_type p) (lossy_hint p) (authenticated_peer_id p)
    (authenticated_peer_identity_type p) (authenticated_peer_secure_auth_level p)
    (authenticated_session_id p) (verified_origin_peer_id p)
    (verified_origin_peer_identity_type p) (verified_origin_peer_secure_auth_level p)
    (verified_origin_session_id p) (flow_hash p) v0 (queue_feedback p) (parsed_metadata p)
    (reusable_pool p) (reusable_prefix p) (reusable_allocation_start p).
Definition with_queue_feedback (p : t) (v0 : option Z) : t :=
  mk (transit_data p) (transit_network p) (transit_destination p) (path_rule p) (inner p)
    (packet_type p) (lossy_hint p) (authenticated_peer_id p)
    (authenticated_peer_identity_type p) (authenticated_peer_secure_auth_level p)
    (authenticated_session_id p) (verified_origin_peer_id p)
    (verified_origin_peer_identity_type p) (verified_origin_peer_secure_auth_level p)
    (verified_origin_session_id p) (flow_hash p) (batch_key p) v0 (parsed_metadata p)
    (reusable_pool p) (reusable_prefix p) (reusable_allocation_start p).
Definition with_parsed_metadata (p : t) (v0 : option ParsedPacketMetadata) : t :=
  mk (transit_data p) (transit_network p) (transit_destination p) (path_rule p) (inner p)
    (packet_type p) (lossy_hint p) (authenticated_peer_id p)
    (authenticated_peer_identity_type p) (authenticated_peer_secure_auth_level p)
    (authenticated_session_id p) (verified_origin_peer_id p)
    (verified_origin_peer_identity_type p) (verified_origin_peer_secure_auth_level p)
    (verified_origin_session_id p) (flow_hash p) (batch_key p) (queue_feedback p) v0
    (reusable_pool p) (reusable_prefix p) (reusable_allocation_start p).
Definition with_reusable_prefix (p : t) (v0 : option (list Z)) : t :=
  mk (transit_data p) (transit_network p) (transit_destination p) (path_rule p) (inner p)
    (packet_type p) (lossy_hint p) (authenticated_peer_id p)
    (authenticated_peer_identity_type p) (authenticated_peer_secure_auth_level p)
    (authenticated_session_id p) (verified_origin_peer_id p)
    (verified_origin_peer_identity_type p) (verified_origin_peer_secure_auth_level p)
    (verified_origin_session_id p) (flow_hash p) (batch_key p) (queue_feedback p)
    (parsed_metadata p) (reusable_pool p) v0 (reusable_allocation_start p).
Definition with_verified_origin (p : t) (v0 : option Z) (v1 : option PeerIdentityType) (v2 : option SecureAuthLevel) (v3 : option Z) : t :=
  mk (transit_data p) (transit_network p) (transit_destination p) (path_rule p) (inner p)
    (packet_type p) (lossy_hint p) (authenticated_peer_id p)
    (authenticated_peer_identity_type p) (authenticated_peer_secure_auth_level p)
    (authenticated_session_id p) v0 v1 v2 v3 (flow_hash p) (batch_key p) (queue_feedback p)
    (parsed_metadata p) (reusable_pool p) (reusable_prefix p) (reusable_allocation_start p).
Definition with_reusable (p : t) (v0 : option Z) (v1 : option (list Z)) (v2 : option Z) : t :=
  mk (transit_data p) (transit_network p) (transit_destination p) (path_rule p) (inner p)
    (packet_type p) (lossy_hint p) (authenticated_peer_id p)
    (authenticated_peer_identity_type p) (authenticated_peer_secure_auth_level p)
    (authenticated_session_id p) (verified_origin_peer_id p)
    (verified_origin_peer_identity_type p) (verified_origin_peer_secure_auth_level p)
    (verified_origin_session_id p) (flow_hash p) (batch_key p) (queue_feedback p)
    (parsed_metadata p) v0 v1 v2.


(** ** Construction *)
Definition new_from_buf (buf : list Z) (ty : ZCPacketType) : t :=
  mk false None None None buf ty None None None None None None None None None None None None
     None None None None.
Definition new_nic_packet : t := new_from_buf [] NIC.

Definition clone (p : t) : t := with_reusable p None None None.

Definition offsets (p : t) : ZCPacketOffsets := get_packet_offsets (packet_type p).
Definition payload_offset (p : t) : nat := Z.to_nat (payload_offset_of (offsets p)).
Definition pm_offset (p : t) : nat := Z.to_nat (peer_manager_header_offset (offsets p)).

(** [self.inner.get(offset..)] *)
Definition bytes_from_offset (p : t) (offset : Z) : option (list Z) :=
  if offset <=? len (inner p) then Some (drop (Z.to_nat offset) (inner p)) else None.

(** [&self.inner[offset..]] *)
Definition payload {E} (p : t) : outcome E (list Z) := unwrap (get_from (inner p) (payload_offset p)).
Definition tunnel_payload {E} (p : t) : outcome E (list Z) := unwrap (get_from (inner p) (pm_offset p)).

(** [self.inner.len() - self.payload_offset()], wrapping as release builds do *)
Definition payload_len (p : t) : Z := wrap 64 (len (inner p) - Z.of_nat (payload_offset p)).

Definition peer_manager_header (p : t) : option PH.t :=
  bytes ← bytes_from_offset p (peer_manager_header_offset (offsets p));
  PH.ref_from_prefix bytes.

(** A write through [mut_peer_manager_header]: the cached metadata is dropped,
    and [f] updates the header bytes in place.  [None] when the buffer is too
    short for a header. *)
Definition update_peer_manager_header (p : t) (f : PH.t -> PH.t) : option t :=
  h ← peer_manager_header p;
  Some (with_parsed_metadata (with_inner p (splice (inner p) (pm_offset p) (PH.as_bytes (f h)))) None).

Definition split_to {E} (n : nat) (l : list Z) : outcome E (list Z * list Z) :=
  if bool_decide (n <= length l)%nat then Ok (take n l, drop n l) else Panic.

Definition advance_inner {E} (p : t) (length : nat) : outcome E t :=
  '(prefix, rest) ← split_to length (inner p);
  let p := with_inner p rest in
  Ok (match reusable_prefix p with
      | Some existing => with_reusable_prefix p (Some (existing ++ prefix))
      | None => if reusable_pool p then with_reusable_prefix p (Some prefix) else p
      end).

Definition detach_reusable_buffer (p : t) : t * list pool_event :=
  match reusable_pool p with
  | Some pool => (with_reusable p None None None, [PoolReplaceDetached pool])
  | None => (p, [])
  end.

Definition recycle_reusable_buffer (p : t) : t * list pool_event :=
  match reusable_pool p with
  | None => (p, [])
  | Some pool =>
      let buffer := match reusable_prefix p with
                    | Some prefix => prefix ++ inner p
                    | None => inner p
                    end in
      (with_reusable (with_inner p []) None None None,
       [match reusable_allocation_start p with
        | Some start => PoolRecycleInitialized pool buffer start
        | None => PoolRecycle pool buffer
        end])
  end.

Definition new_from_buf_with_prefix {E} (buf : list Z) (prefix_length : nat) (ty : ZCPacketType)
    : outcome E t :=
  '(prefix, buf) ← split_to prefix_length buf;
  Ok (with_reusable_prefix (new_from_buf buf ty) (Some prefix)).

Definition new_from_reusable_buf (buf : list Z) (ty : ZCPacketType) (pool start : Z) : t :=
  with_reusable (new_from_buf buf ty) (Some pool) None (Some start).

(** [mut_payload], [mut_payload_preserving_flow_hash]: the metadata they drop *)
Definition touch_payload (p : t) : t := with_parsed_metadata (with_flow_hash p None) None.
Definition touch_payload_preserving_flow_hash (p : t) : t := with_parsed_metadata p None.

Definition new_with_payload {E} (bytes : list Z) : outcome E t :=
  let ret := new_nic_packet in
  let total_len := (payload_offset ret + length bytes)%nat in
  let ret := with_inner ret (vec_resize total_len 0 (inner ret)) in
  inner' ← copy_from_slice (inner ret) (payload_offset ret) (length (inner ret)) bytes;
  Ok (with_inner (touch_payload ret) inner').

Definition new_with_payload_len (payload_len : nat) : t :=
  let ret := new_nic_packet in
  with_inner ret (vec_resize (payload_offset ret + payload_len) 0 (inner ret)).

Definition new_with_payload_parts (parts : list (list Z)) : t :=
  let ret := new_nic_packet in
  let ret := with_inner ret (vec_resize (payload_offset ret) 0 (inner ret)) in
  foldl (fun ret part => with_inner ret (inner ret ++ part)) ret parts.

(** [payload_offset - packet_info_len] underflows for a longer packet info;
    the resize to the wrapped length then aborts *)
Definition new_for_tun {E} (packet_info_len : nat) : outcome E t :=
  let ret := new_nic_packet in
  if bool_decide (packet_info_len <= payload_offset ret)%nat
  then Ok (with_inner ret (vec_resize (payload_offset ret - packet_info_len) 0 (inner ret)))
  else Panic.

(** ** Payload editing *)
Definition prefix_error : string := "payload prefix exceeds the packet length".
Definition suffix_error : string := "payload suffix exceeds the packet length".
Definition overflow_error : string := "payload length overflow".

(** [l.copy_within(a..b, dest)] *)
Definition copy_within {E} (l : list Z) (a b dest : nat) : outcome E (list Z) :=
  if bool_decide (a <= b /\ b <= length l /\ dest + (b - a) <= length l)%nat
  then Ok (splice l dest (take (b - a) (drop a l))) else Panic.

Definition remove_payload_prefix_preserving_flow_hash (p : t) (prefix_len : nat)
    : outcome string t :=
  if payload_len p <? Z.of_nat prefix_len then Err prefix_error
  else p ← advance_inner p prefix_len;
       Ok (with_parsed_metadata p None).

Definition remove_payload_prefix (p : t) (prefix_len : nat) : outcome string t :=
  if payload_len p <? Z.of_nat prefix_len then Err prefix_error
  else p ← advance_inner p prefix_len;
       Ok (with_parsed_metadata (with_flow_hash p None) None).

Definition prepend_inner (p : t) (prefix : list Z) : outcome string t :=
  let off := payload_offset p in
  let old_len := length (inner p) in
  new_inner_len ← ok_or (checked_add 64 (len (inner p)) (len prefix)) overflow_error;
  let i := vec_resize (Z.to_nat new_inner_len) 0 (inner p) in
  i ← copy_within i off old_len (off + length prefix);
  i ← copy_from_slice i off (off + length prefix) prefix;
  Ok (with_inner p i).
Definition prepend_payload (p : t) (prefix : list Z) : outcome string t :=
  p ← prepend_inner p prefix; Ok (with_parsed_metadata (with_flow_hash p None) None).
Definition prepend_payload_preserving_flow_hash (p : t) (prefix : list Z) : outcome string t :=
  p ← prepend_inner p prefix; Ok (with_parsed_metadata p None).

Definition append_payload_preserving_flow_hash (p : t) (suffix : list Z) : outcome string t :=
  _ ← ok_or (checked_add 64 (len (inner p)) (len suffix)) overflow_error;
  Ok (with_parsed_metadata (with_inner p (inner p ++ suffix)) None).
Definition append_payload (p : t) (suffix : list Z) : outcome string t :=
  _ ← ok_or (checked_add 64 (len (inner p)) (len suffix)) overflow_error;
  Ok (with_parsed_metadata (with_flow_hash (with_inner p (inner p ++ suffix)) None) None).

Definition remove_payload_suffix_preserving_flow_hash (p : t) (suffix_len : nat)
    : outcome string t :=
  if payload_len p <? Z.of_nat suffix_len then Err suffix_error
  else Ok (with_parsed_metadata
             (with_inner p (take (length (inner p) - suffix_len) (inner p))) None).
Definition remove_payload_suffix (p : t) (suffix_len : nat) : outcome string t :=
  if payload_len p <? Z.of_nat suffix_len then Err suffix_error
  else Ok (with_parsed_metadata (with_flow_hash
             (with_inner p (take (length (inner p) - suffix_len) (inner p))) None) None).

Definition restore_payload_prefix_from_reusable_headroom (p : t) (prefix : list Z)
    : outcome string (t * bool) :=
  match reusable_prefix p with
  | None => Ok (p, false)
  | Some reusable =>
      if negb (bool_decide (length reusable = length prefix)) ||
         bool_decide (length (inner p) < payload_offset p + length prefix)%nat
      then Ok (p, false)
      else
        let i := reusable ++ inner p in
        i ← copy_from_slice i (payload_offset p) (payload_offset p + length prefix) prefix;
        Ok (with_parsed_metadata (with_reusable_prefix (with_inner p i) None) None, true)
  end.

(** ** Header editing *)
Definition fill_peer_manager_hdr {E} (p : t) (from to ty : Z) : outcome E t :=
  let p := with_flow_hash p None in
  let n := payload_len p in
  let foreign_flags :=
    if ty =? packet_type_code ForeignNetworkPacket
    then PH.flags <$> peer_manager_header p else None in
  unwrap (update_peer_manager_header p (fun hdr =>
    let hdr := PH.initialize hdr from to ty (wrap 32 n) in
    match foreign_flags with Some f => PH.with_flags hdr f | None => hdr end)).

Definition fill_peer_manager_hdr_preserving_flow_hash {E} (p : t) (from to ty : Z) : outcome E t :=
  let h := flow_hash p in
  p ← fill_peer_manager_hdr p from to ty;
  Ok (with_flow_hash p h).

Definition refresh_peer_manager_hdr_len (p : t) : t :=
  let n := payload_len p in
  match update_peer_manager_header p (fun h => PH.with_len h (wrap 32 n)) with
  | Some p => p
  | None => with_parsed_metadata p None
  end.

Definition is_lossy (p : t) : bool :=
  match lossy_hint p with
  | Some lossy => lossy
  | None =>
      match peer_manager_header p with
      | Some h => (PH.packet_type h =? packet_type_code Data) ||
                  (PH.packet_type h =? packet_type_code Ethernet)
      | None => false
      end
  end.

Definition get_src_peer_id (p : t) : option Z := PH.from_peer_id <$> peer_manager_header p.
Definition get_dst_peer_id (p : t) : option Z := PH.to_peer_id <$> peer_manager_header p.

Definition refresh_parsed_metadata {E} (p : t) : outcome E (t * option ParsedPacketMetadata) :=
  match peer_manager_header p with
  | None => Ok (p, None)
  | Some header =>
      '(dst, src, net) ←
        (if PH.packet_type header =? packet_type_code Ethernet then
           frame ← payload p;
           Ok (match get_range frame 0 6, get_range frame 6 12, get_range frame 12 14 with
               | Some d, Some s, Some _ => (Some d, Some s, Vlan.ethernet_network_metadata frame)
               | _, _, _ => (None, None, None)
               end)
         else Ok (None, None, None));
      let m := mk_parsed (PH.from_peer_id header) (PH.to_peer_id header) (PH.packet_type header)
                 (PH.is_encrypted header) (PH.is_compressed header)
                 (PH.is_not_send_to_tun header) (PH.flow_shard header) dst src net in
      Ok (with_parsed_metadata p (Some m), Some m)
  end.

(** ** Waypoints *)
Definition WAYPOINT_LIMIT : nat := 4.
Definition WAYPOINT_TAIL : nat := 7.
Definition WAYPOINT_VERSION : Z := 1.
Definition trailer_error : string := "invalid waypoint trailer".
Definition no_header_error : string := "packet without header".

(** [later waypoints reversed, u32 LE][final u32 LE][original type][count][version] *)
Definition waypoint_trailer (rest : list Z) (destination original_type : Z) : list Z :=
  concat (map (to_le 4) (reverse rest)) ++ to_le 4 destination ++
  [original_type; wrap 8 (len rest); WAYPOINT_VERSION].

Definition encode_waypoints (p : t) (waypoints : list Z) : outcome string t :=
  match waypoints with
  | [] => Err "no waypoints"%string
  | first :: rest =>
      if bool_decide (WAYPOINT_LIMIT < length waypoints)%nat then Err "too many waypoints"%string
      else
        header ← ok_or (peer_manager_header p) no_header_error;
        p ← append_payload_preserving_flow_hash p
              (waypoint_trailer rest (PH.to_peer_id header) (PH.packet_type header));
        ok_or (update_peer_manager_header p (fun h =>
                 PH.with_packet_type (PH.with_to_peer_id h first) (packet_type_code Waypoint)))
              no_header_error
  end.

(** [payload[i]], [PeerId::from_le_bytes(payload[a..b])] *)
Definition index (l : list Z) (i : nat) : outcome string Z := unwrap (l !! i).
Definition index_le (l : list Z) (a b : nat) : outcome string Z := unwrap (of_le <$> get_range l a b).

(** the payload bytes replaced in place *)
Definition write_payload (p : t) (bytes : list Z) : t :=
  with_inner (touch_payload_preserving_flow_hash p) (take (payload_offset p) (inner p) ++ bytes).

(** the checks of [advance_waypoint]: remaining waypoints, original type, destination *)
Definition read_trailer (bytes : list Z) : outcome string (nat * Z * Z) :=
  let length := length bytes in
  if bool_decide (length < WAYPOINT_TAIL)%nat then Err trailer_error else
  version ← index bytes (length - 1);
  if negb (version =? WAYPOINT_VERSION) then Err trailer_error else
  remaining ← index bytes (length - 2);
  original_type ← index bytes (length - 3);
  destination ← index_le bytes (length - 7) (length - 3);
  let remaining := Z.to_nat remaining in
  if bool_decide (WAYPOINT_LIMIT <= remaining)%nat ||
     bool_decide (length < WAYPOINT_TAIL + 4 * remaining)%nat ||
     (original_type =? packet_type_code Waypoint)
  then Err trailer_error else Ok (remaining, original_type, destination).

(** drop the last intermediate waypoint from the trailer, and return it *)
Definition pop_waypoint (p : t) (bytes : list Z) (remaining : nat) : outcome string (Z * t) :=
  let length := length bytes in
  next ← index_le bytes (length - 11) (length - 7);
  let tail := (length - WAYPOINT_TAIL)%nat in
  bytes ← copy_within bytes tail length (tail - 4);
  let bytes := <[(length - 6)%nat := wrap 8 (Z.of_nat remaining - 1)]> bytes in
  p ← remove_payload_suffix_preserving_flow_hash (write_payload p bytes) 4;
  Ok (next, p).

Definition advance_waypoint (p : t) : outcome string (Z * t) :=
  bytes ← payload p;
  '(remaining, original_type, destination) ← read_trailer bytes;
  '(next, p) ←
    (if bool_decide (0 < remaining)%nat then pop_waypoint p bytes remaining
     else
       p ← remove_payload_suffix_preserving_flow_hash p WAYPOINT_TAIL;
       Ok (destination, p));
  p ← ok_or (update_peer_manager_header p (fun h =>
        let h := PH.with_to_peer_id h next in
        if bool_decide (remaining = 0)%nat then PH.with_packet_type h original_type else h))
      no_header_error;
  Ok (next, p).

(** ** Tunnel layouts *)
Definition convert_type {E} (p : t) (target : ZCPacketType) : outcome E (t * list pool_event) :=
  if decide (target = packet_type p) then Ok (p, []) else
  new_offset ←
    match target with
    | TCP => Ok (tcp_tunnel_header_offset (offsets p))
    | DummyTunnel => Ok (dummy_tunnel_header_offset (offsets p))
    | NIC => Panic
    end;
  if new_offset =? INVALID_OFFSET then
    body ← tunnel_payload p;
    let new_pm_offset := Z.to_nat (peer_manager_header_offset (get_packet_offsets target)) in
    let buf := vec_resize new_pm_offset 0 [] ++ body in
    let packet := new_from_buf buf target in
    let packet := with_lossy_hint packet (lossy_hint p) in
    let packet := with_authenticated_peer_id packet (authenticated_peer_id p) in
    let packet := with_authenticated_peer_identity_type packet (authenticated_peer_identity_type p) in
    let packet := with_authenticated_peer_secure_auth_level packet
                    (authenticated_peer_secure_auth_level p) in
    let packet := with_authenticated_session_id packet (authenticated_session_id p) in
    let packet := with_verified_origin packet (verified_origin_peer_id p)
                    (verified_origin_peer_identity_type p) (verified_origin_peer_secure_auth_level p)
                    (verified_origin_session_id p) in
    let packet := with_flow_hash packet (flow_hash p) in
    let packet := with_batch_key packet (batch_key p) in
    let packet := with_queue_feedback packet (queue_feedback p) in
    Ok (packet, (recycle_reusable_buffer p).2)
  else
    p ← advance_inner p (Z.to_nat new_offset);
    Ok (with_packet_type p target, []).

Definition convert_type_in_place (p : t) (target : ZCPacketType) : outcome string t :=
  if decide (target = packet_type p) then Ok p else
  new_offset ←
    match target with
    | TCP => Ok (tcp_tunnel_header_offset (offsets p))
    | DummyTunnel => Ok (dummy_tunnel_header_offset (offsets p))
    | NIC => Err "in-place NIC conversion is not supported"%string
    end;
  if new_offset =? INVALID_OFFSET
  then Err "the packet does not have the required in-place prefix"%string
  else
    p ← advance_inner p (Z.to_nat new_offset);
    Ok (with_packet_type p target).

(** ** Hand-over of the bytes

    [payload_bytes] and [tunnel_payload_bytes] give the remaining buffer away
    and tell the pool that it is gone. *)
Definition take_bytes_from {E} (p : t) (offset : nat) : outcome E (list Z * list pool_event) :=
  p ← advance_inner p offset;
  let '(p, events) := detach_reusable_buffer p in
  Ok (inner p, events).
Definition payload_bytes {E} (p : t) : outcome E (list Z * list pool_event) :=
  take_bytes_from p (payload_offset p).
Definition tunnel_payload_bytes {E} (p : t) : outcome E (list Z * list pool_event) :=
  take_bytes_from p (pm_offset p).

(** the bytes handed to the transport: the prefix is written into the tunnel
    headroom, else into the reusable prefix, else everything is copied *)
Definition tunnel_payload_with_prefix_into_bytes {E} (p : t) (prefix : list Z) : outcome E (list Z) :=
  let payload_offset := pm_offset p in
  if bool_decide (length prefix <= payload_offset)%nat then
    let start := (payload_offset - length prefix)%nat in
    i ← copy_from_slice (inner p) start payload_offset prefix;
    Ok (drop start i)
  else
    match reusable_prefix p with
    | Some headroom =>
        if bool_decide (length prefix <= length headroom)%nat then
          let start := (length headroom - length prefix)%nat in
          headroom ← copy_from_slice headroom start (length headroom) prefix;
          Ok (drop start (headroom ++ inner p))
        else payload ← tunnel_payload p; Ok (prefix ++ payload)
    | None => payload ← tunnel_payload p; Ok (prefix ++ payload)
    end.

(** ** Foreign networks *)
Definition new_for_foreign_network {E} (network_name : list Z) (dst_peer_id : Z) (foreign : t)
    : outcome E t :=
  let fh := FH.new dst_peer_id network_name in
  foreign_payload ← tunnel_payload foreign;
  let total_payload_len := (FH.get_header_len fh + length foreign_payload)%nat in
  let ret := new_nic_packet in
  let ret := with_transit_data ret (transit_data foreign) in
  let ret := with_transit_network ret (Some network_name) in
  let ret := with_transit_destination ret (Some dst_peer_id) in
  let off := payload_offset ret in
  let i := vec_resize (off + total_payload_len) 0 (inner ret) in
  i ← copy_from_slice i off (off + FH.SIZE) (FH.as_bytes fh);
  let name_offset := Z.to_nat (FH.network_name_offset fh) in
  let name_len := Z.to_nat (FH.network_name_len fh) in
  i ← copy_from_slice i (off + name_offset) (off + name_offset + name_len) network_name;
  i ← copy_from_slice i (off + FH.get_header_len fh) (length i) foreign_payload;
  let ret := touch_payload (with_inner ret i) in
  unwrap (update_peer_manager_header ret (fun hdr =>
    let hdr := PH.initialize hdr 0 0 (packet_type_code ForeignNetworkPacket)
                 (wrap 32 (Z.of_nat total_payload_len)) in
    match peer_manager_header foreign with
    | Some inner =>
        let hdr := PH.set_speed_first (PH.set_latency_first hdr (PH.is_latency_first inner))
                     (PH.is_speed_first inner) in
        PH.set_no_proxy hdr
          (PH.is_foreign_control inner || negb (is_relay_data_packet_type (PH.packet_type inner)))
    | None => hdr
    end)).

Definition foreign_network_hdr {E} (p : t) : outcome E (option FH.t) :=
  match peer_manager_header p with
  | None => Ok None
  | Some peer_header =>
      if negb (PH.packet_type peer_header =? packet_type_code ForeignNetworkPacket) then Ok None
      else
        bytes ← payload p;
        Ok (header ← FH.ref_from_prefix bytes; _ ← FH.validate header bytes; Some header)
  end.

Definition foreign_network_inner_header {E} (p : t) : outcome E (option PH.t) :=
  match peer_manager_header p with
  | None => Ok None
  | Some peer_header =>
      if negb (PH.packet_type peer_header =? packet_type_code ForeignNetworkPacket) then Ok None
      else
        bytes ← payload p;
        hdr ← foreign_network_hdr (E := E) p;
        Ok (hdr ← hdr; inner_packet ← get_from bytes (FH.get_header_len hdr);
            PH.ref_from_prefix inner_packet)
  end.

Definition foreign_network_inner_packet_type {E} (p : t) : outcome E (option Z) :=
  h ← foreign_network_inner_header (E := E) p; Ok (option_map PH.packet_type h).

Definition foreign_network_inner_is_data {E} (p : t) : outcome E (option bool) :=
  h ← foreign_network_inner_header (E := E) p;
  Ok (option_map (fun hdr => negb (PH.is_foreign_control hdr) &&
                             is_relay_data_packet_type (PH.packet_type hdr)) h).

Definition foreign_network_packet {E} (p : t) : outcome E (option t) :=
  match peer_manager_header p with
  | None => Ok None
  | Some header =>
      denied ← (if PH.is_foreign_control header
                then data ← foreign_network_inner_is_data (E := E) p;
                     Ok (match data with Some d => d | None => true end)
                else Ok false);
      if denied : bool then Ok None
      else
        hdr ← foreign_network_hdr (E := E) p;
        match hdr with
        | None => Ok None
        | Some hdr =>
            let foreign_hdr_len := FH.get_header_len hdr in
            bytes ← payload (E := E) p;
            if bool_decide (foreign_hdr_len < FH.SIZE)%nat ||
               bool_decide (length bytes < foreign_hdr_len)%nat
            then Ok None
            else
              p ← advance_inner p (foreign_hdr_len + payload_offset p);
              Ok (Some (with_packet_type p DummyTunnel))
        end
  end.

(** ** Authentication marks *)
Definition set_once {A} `{EqDecision A} (current : option A) (v : A) : option A * bool :=
  match current with
  | None => (Some v, true)
  | Some c => (Some c, bool_decide (c = v))
  end.

Definition set_authenticated_peer_id (p : t) (peer_id : Z) : t * bool :=
  if peer_id =? 0 then (p, false) else
  let '(v, ok) := set_once (authenticated_peer_id p) peer_id in
  (with_authenticated_peer_id p v, ok).
Definition set_authenticated_peer_identity_type (p : t) (ty : PeerIdentityType) : t * bool :=
  let '(v, ok) := set_once (authenticated_peer_identity_type p) ty in
  (with_authenticated_peer_identity_type p v, ok).
Definition set_authenticated_peer_secure_auth_level (p : t) (l : SecureAuthLevel) : t * bool :=
  let '(v, ok) := set_once (authenticated_peer_secure_auth_level p) l in
  (with_authenticated_peer_secure_auth_level p v, ok).
Definition set_authenticated_session_id (p : t) (session_id : Z) : t * bool :=
  let '(v, ok) := set_once (authenticated_session_id p) session_id in
  (with_authenticated_session_id p v, ok).

Definition set_verified_origin (p : t) (peer_id : Z) (ty : PeerIdentityType)
    (l : SecureAuthLevel) (session_id : Z) : t * bool :=
  if peer_id =? 0 then (p, false) else
  match verified_origin_peer_id p, verified_origin_peer_identity_type p,
        verified_origin_peer_secure_auth_level p, verified_origin_session_id p with
  | None, None, None, None =>
      (with_verified_origin p (Some peer_id) (Some ty) (Some l) (Some session_id), true)
  | Some cp, Some ci, Some cl, Some cs =>
      (p, bool_decide (cp = peer_id) && bool_decide (ci = ty) && bool_decide (cl = l) &&
          bool_decide (cs = session_id))
  | _, _, _, _ => (p, false)
  end.

Definition logical {A} (p : t) (origin hop : option A) : option A :=
  if verified_origin_peer_id p then origin else hop.
Definition logical_authenticated_peer_id (p : t) : option Z :=
  logical p (verified_origin_peer_id p) (authenticated_peer_id p).
Definition logical_authenticated_peer_identity_type (p : t) : option PeerIdentityType :=
  logical p (verified_origin_peer_identity_type p) (authenticated_peer_identity_type p).
Definition logical_authenticated_peer_secure_auth_level (p : t) : option SecureAuthLevel :=
  logical p (verified_origin_peer_secure_auth_level p) (authenticated_peer_secure_auth_level p).
Definition logical_authenticated_session_id (p : t) : option Z :=
  logical p (verified_origin_session_id p) (authenticated_session_id p).

Definition clear_authenticated_peer_id (p : t) : t :=
  with_verified_origin
    (with_authenticated_session_id
       (with_authenticated_peer_secure_auth_level
          (with_authenticated_peer_identity_type (with_authenticated_peer_id p None) None) None) None)
    None None None None.

End ZCPacket.
