(* ===== verification/PacketProps.v ===== *)
(** * Properties of zero-copy packets

    Round trips of waypoint source routes, of foreign-network encapsulation
    and of payload edits, layout conversions, and the write-once
    authentication marks. *)
From stdpp Require Import base list gmap numbers strings.
From Stdlib Require Import ZArith Lia.
From S2P Require Import Prelude PacketHeader Packet.

Local Open Scope Z_scope.

Module PacketProps.
Import ZCPacket.

(** ** The three regions of a buffer

    [layout p pre h body]: the buffer is tunnel headroom, header and payload. *)
Record layout (p : t) (pre : list Z) (h : PH.t) (body : list Z) : Prop := {
  lay_inner : inner p = pre ++ PH.as_bytes h ++ body;
  lay_pre : length pre = pm_offset p;
  lay_wf : PH.wf h;
}.

Lemma payload_offset_pm p : payload_offset p = (pm_offset p + 16)%nat.
Proof. unfold payload_offset, pm_offset, offsets. by destruct (packet_type p). Qed.

Lemma payload_offset_le p : (payload_offset p <= 34)%nat.
Proof. unfold payload_offset, offsets. apply Nat.leb_le. by destruct (packet_type p). Qed.

Lemma layout_header p pre h body : layout p pre h body -> peer_manager_header p = Some h.
Proof.
  intros [Hi Hp Hw]. unfold peer_manager_header, bytes_from_offset.
  replace (peer_manager_header_offset (offsets p)) with (Z.of_nat (pm_offset p))
    by (unfold pm_offset, offsets; by destruct (packet_type p)).
  rewrite Nat2Z.id, Hi, <-Hp. rewrite (proj2 (Z.leb_le _ _)) by (rewrite len_app; unfold len; lia).
  cbn. rewrite drop_app_length. by apply PH.ref_from_prefix_as_bytes.
Qed.

(** Every buffer long enough for a header has this shape. *)
Lemma header_layout p h :
  bytes_ok (inner p) -> peer_manager_header p = Some h ->
  layout p (take (pm_offset p) (inner p)) h (drop (payload_offset p) (inner p)).
Proof.
  unfold peer_manager_header, bytes_from_offset. intros Hok E.
  replace (peer_manager_header_offset (offsets p)) with (Z.of_nat (pm_offset p)) in E
    by (unfold pm_offset, offsets; by destruct (packet_type p)).
  rewrite Nat2Z.id in E. destruct (_ <=? _) eqn:Hle; [|done]. bool_to_Z. cbn in E.
  apply PH.ref_from_prefix_Some in E as [Hw E]; [|auto with lt].
  split; [|rewrite length_take; unfold len in *; lia|done].
  rewrite payload_offset_pm, <-drop_drop. change 16%nat with PEER_MANAGER_HEADER_SIZE.
  rewrite <-E. by rewrite take_drop.
Qed.

Lemma layout_payload {E} p pre h body : layout p pre h body -> payload (E := E) p = Ok body.
Proof.
  intros [Hi Hp Hw]. unfold payload, get_from. rewrite payload_offset_pm, Hi, <-Hp.
  rewrite bool_decide_true by (rewrite !length_app, PH.length_as_bytes; cbn; lia).
  cbn. f_equal. by rewrite drop_app_add.
Qed.

Lemma layout_tunnel_payload {E} p pre h body :
  layout p pre h body -> tunnel_payload (E := E) p = Ok (PH.as_bytes h ++ body).
Proof.
  intros [Hi Hp Hw]. unfold tunnel_payload, get_from. rewrite Hi, <-Hp.
  rewrite bool_decide_true by (rewrite length_app; lia). cbn. by rewrite drop_app_length.
Qed.

Lemma layout_update p pre h body f :
  layout p pre h body -> PH.wf (f h) ->
  exists p', update_peer_manager_header p f = Some p' /\
    p' = with_parsed_metadata (with_inner p (pre ++ PH.as_bytes (f h) ++ body)) None /\
    layout p' pre (f h) body.
Proof.
  intros Hl Hw. pose proof (layout_header _ _ _ _ Hl) as Hh. destruct Hl as [Hi Hp _].
  eexists. unfold update_peer_manager_header. rewrite Hh. cbn. split; [done|].
  rewrite Hi, <-Hp, splice_mid by done. split; [done|]. by split.
Qed.

Lemma layout_payload_len p pre h body :
  layout p pre h body -> len body < 2 ^ 64 -> payload_len p = len body.
Proof.
  intros [Hi Hp _] Hb. unfold payload_len. rewrite payload_offset_pm, Hi, <-Hp, !len_app.
  replace (len pre + (len (PH.as_bytes h) + len body) - Z.of_nat (length pre + 16)) with (len body).
  - apply wrap_small. split; [apply len_nonneg|done].
  - assert (len (PH.as_bytes h) = 16) by reflexivity. unfold len in *. lia.
Qed.

Lemma layout_append p pre h body suffix :
  layout p pre h body -> len (inner p) + len suffix < 2 ^ 64 ->
  let p' := with_parsed_metadata (with_inner p (pre ++ PH.as_bytes h ++ body ++ suffix)) None in
  append_payload_preserving_flow_hash p suffix = Ok p' /\ layout p' pre h (body ++ suffix).
Proof.
  intros [Hi Hp Hw] Hs. unfold append_payload_preserving_flow_hash.
  rewrite checked_add_small by done. cbn. rewrite Hi, <-!app_assoc. split; [done|by split].
Qed.

Lemma layout_remove_suffix p pre h body suffix :
  layout p pre h (body ++ suffix) -> len (body ++ suffix) < 2 ^ 64 ->
  let p' := with_parsed_metadata (with_inner p (pre ++ PH.as_bytes h ++ body)) None in
  remove_payload_suffix_preserving_flow_hash p (length suffix) = Ok p' /\ layout p' pre h body.
Proof.
  intros Hl Hs. pose proof (layout_payload_len _ _ _ _ Hl Hs) as Hn.
  destruct Hl as [Hi Hp Hw]. unfold remove_payload_suffix_preserving_flow_hash. rewrite Hn.
  rewrite (proj2 (Z.ltb_ge _ _)) by (rewrite len_app; pose proof (len_nonneg body); unfold len in *; lia).
  cbn. split; [|by split]. do 3 f_equal. rewrite Hi, !app_assoc. apply take_app_length'.
  rewrite !length_app. lia.
Qed.

Lemma layout_bytes_ok p pre h body :
  layout p pre h body -> bytes_ok pre -> bytes_ok body -> bytes_ok (inner p).
Proof.
  intros [Hi _ Hw] ??. rewrite Hi, !bytes_ok_app. auto using PH.as_bytes_ok.
Qed.

(** ** Waypoints *)
Lemma length_le_words l : length (concat (map (to_le 4) l)) = (4 * length l)%nat.
Proof. induction l as [|x l IH]; cbn [map concat length]; [done|]. rewrite length_app, IH. cbn. lia. Qed.

Lemma length_waypoint_trailer rest d ty :
  length (waypoint_trailer rest d ty) = (4 * length rest + 7)%nat.
Proof.
  unfold waypoint_trailer. rewrite !length_app, length_le_words, length_reverse. cbn. lia.
Qed.

(** the header of a packet on its way to waypoint [w] *)
Definition waypoint_header (h : PH.t) (w : Z) : PH.t :=
  PH.with_packet_type (PH.with_to_peer_id h w) (packet_type_code Waypoint).

Lemma waypoint_header_wf h w : PH.wf h -> is_u 32 w -> PH.wf (waypoint_header h w).
Proof. intros (?&?&?&?&?&?&?) ?. unfold PH.wf; cbn. split_and!; done. Qed.

(** Reading at a known position of a concatenation *)
Lemma index_mid a x b i : i = length a -> index (a ++ x :: b) i = Ok x.
Proof. intros ->. unfold index. by rewrite list_lookup_middle. Qed.

Lemma index_le_mid a w b i j :
  i = length a -> j = (i + 4)%nat -> is_u 32 w -> index_le (a ++ to_le 4 w ++ b) i j = Ok w.
Proof.
  intros -> -> Hw. unfold index_le. rewrite get_range_app by (rewrite ?length_to_le; lia).
  cbn [fmap option_fmap option_map unwrap]. f_equal. by apply of_to_le.
Qed.

(** the last seven bytes of a trailer *)
Definition trailer_tail (n : nat) (d ty : Z) : list Z :=
  to_le 4 d ++ [ty; wrap 8 (Z.of_nat n); WAYPOINT_VERSION].

Lemma waypoint_trailer_tail rest d ty :
  waypoint_trailer rest d ty =
  concat (map (to_le 4) (reverse rest)) ++ trailer_tail (length rest) d ty.
Proof. done. Qed.

Lemma waypoint_trailer_cons w r d ty :
  waypoint_trailer (w :: r) d ty =
  concat (map (to_le 4) (reverse r)) ++ to_le 4 w ++ trailer_tail (S (length r)) d ty.
Proof.
  rewrite waypoint_trailer_tail, reverse_cons, map_app, concat_app. cbn [map concat].
  by rewrite app_nil_r, <-app_assoc.
Qed.

(** Reading the fields of a tail that ends the payload *)
Lemma tail_fields b n d ty :
  let l := b ++ trailer_tail n d ty in
  is_u 32 d -> (n < 4)%nat ->
  index l (length l - 1) = Ok WAYPOINT_VERSION /\
  index l (length l - 2) = Ok (Z.of_nat n) /\
  index l (length l - 3) = Ok ty /\
  index_le l (length l - 7) (length l - 3) = Ok d.
Proof.
  intros l Hd Hn. assert (length l = length b + 7)%nat as Hlen
    by (unfold l; rewrite length_app; done).
  rewrite Hlen.
  replace (Ok (Z.of_nat n)) with (@Ok string _ (wrap 8 (Z.of_nat n)))
    by (f_equal; apply wrap_small; unfold is_u; cbn; lia).
  split_and!.
  - replace l with ((b ++ to_le 4 d ++ [ty; wrap 8 (Z.of_nat n)]) ++ [WAYPOINT_VERSION])
      by (unfold l, trailer_tail; by rewrite <-!app_assoc).
    apply index_mid. rewrite !length_app. cbn. lia.
  - replace l with ((b ++ to_le 4 d ++ [ty]) ++ [wrap 8 (Z.of_nat n); WAYPOINT_VERSION])
      by (unfold l, trailer_tail; by rewrite <-!app_assoc).
    apply index_mid. rewrite !length_app. cbn. lia.
  - replace l with ((b ++ to_le 4 d) ++ [ty; wrap 8 (Z.of_nat n); WAYPOINT_VERSION])
      by (unfold l, trailer_tail; by rewrite <-!app_assoc).
    apply index_mid. rewrite !length_app. cbn. lia.
  - unfold l, trailer_tail. apply index_le_mid; [lia|lia|done].
Qed.

Lemma copy_tail {E} b w n d ty :
  let l := b ++ to_le 4 w ++ trailer_tail n d ty in
  copy_within (E := E) l (length b + 4) (length l) (length b)
  = Ok (b ++ trailer_tail n d ty ++ drop 3 (trailer_tail n d ty)).
Proof.
  intros l. assert (length l = length b + 11)%nat as Hlen
    by (unfold l; rewrite length_app; done).
  unfold copy_within. rewrite bool_decide_true by lia. f_equal.
  replace (take (length l - (length b + 4)) (drop (length b + 4) l)) with (trailer_tail n d ty).
  - unfold l. change (to_le 4 w ++ trailer_tail n d ty)
      with (take 7 (to_le 4 w ++ trailer_tail n d ty) ++ drop 3 (trailer_tail n d ty)).
    by rewrite splice_mid.
  - unfold l at 2. rewrite <-drop_drop, drop_app_length.
    change (drop 4 (to_le 4 w ++ trailer_tail n d ty)) with (trailer_tail n d ty).
    symmetry. apply take_ge. rewrite Hlen. change (length (trailer_tail n d ty)) with 7%nat. lia.
Qed.

Lemma read_trailer_tail b n d ty :
  is_u 32 d -> (n < 4)%nat -> (4 * n <= length b)%nat -> ty <> packet_type_code Waypoint ->
  read_trailer (b ++ trailer_tail n d ty) = Ok (n, ty, d).
Proof.
  intros Hd Hn Hb Hty. pose proof (tail_fields b n d ty Hd Hn) as (E1 & E2 & E3 & E4).
  assert (length (b ++ trailer_tail n d ty) = length b + 7)%nat as HL by (by rewrite length_app).
  unfold read_trailer. rewrite bool_decide_false by (rewrite HL; unfold WAYPOINT_TAIL; lia).
  rewrite E1. cbn [mbind outcome_bind]. rewrite Z.eqb_refl. cbn [negb].
  rewrite E2. cbn [mbind outcome_bind]. rewrite E3. cbn [mbind outcome_bind].
  rewrite E4. cbn [mbind outcome_bind]. rewrite Nat2Z.id.
  rewrite !bool_decide_false by (rewrite ?HL; unfold WAYPOINT_LIMIT, WAYPOINT_TAIL; lia).
  by rewrite (proj2 (Z.eqb_neq _ _)) by done.
Qed.

(** [write_payload] keeps headroom and header. *)
Lemma layout_write p pre h body bytes :
  layout p pre h body -> layout (write_payload p bytes) pre h bytes.
Proof.
  intros [Hi Hp Hw]. split; [|done|done]. unfold write_payload. cbn.
  rewrite (app_assoc pre). f_equal. rewrite payload_offset_pm, Hi, <-Hp, (app_assoc pre).
  apply take_app_length'. by rewrite length_app.
Qed.

Lemma layout_body_small p pre h body :
  layout p pre h body -> len (inner p) < 2 ^ 64 -> len body < 2 ^ 64.
Proof.
  intros [Hi _ _]. rewrite Hi, !len_app.
  pose proof (len_nonneg pre). pose proof (len_nonneg (PH.as_bytes h)). lia.
Qed.

Lemma pop_waypoint_correct p pre h b w n d ty :
  layout p pre h (b ++ to_le 4 w ++ trailer_tail (S n) d ty) ->
  is_u 32 w -> len (inner p) < 2 ^ 64 ->
  let p' := with_parsed_metadata (with_inner p
              (pre ++ PH.as_bytes h ++ b ++ trailer_tail n d ty)) None in
  pop_waypoint p (b ++ to_le 4 w ++ trailer_tail (S n) d ty) (S n) = Ok (w, p') /\
  layout p' pre h (b ++ trailer_tail n d ty).
Proof.
  set (T := trailer_tail (S n) d ty). set (T' := trailer_tail n d ty).
  intros Hl Hw Hlen. pose proof (layout_body_small _ _ _ _ Hl Hlen) as Hlb.
  assert (length (b ++ to_le 4 w ++ T) = length b + 11)%nat as HL by (rewrite !length_app; done).
  unfold pop_waypoint.
  rewrite index_le_mid by (done || (rewrite HL; lia)). cbn [mbind outcome_bind].
  replace (length (b ++ to_le 4 w ++ T) - WAYPOINT_TAIL)%nat with (length b + 4)%nat
    by (rewrite HL; unfold WAYPOINT_TAIL; lia).
  replace (length b + 4 - 4)%nat with (length b) by lia.
  unfold T at 1 2. rewrite copy_tail. fold T. cbn [mbind outcome_bind].
  replace (length (b ++ to_le 4 w ++ T) - 6)%nat with (length b + 5)%nat by (rewrite HL; lia).
  replace (wrap 8 (Z.of_nat (S n) - 1)) with (wrap 8 (Z.of_nat n)) by (f_equal; lia).
  assert (<[(length b + 5)%nat := wrap 8 (Z.of_nat n)]> (b ++ T ++ drop 3 T) = (b ++ T') ++ drop 3 T)
    as -> by (rewrite insert_app_r; by rewrite <-app_assoc).
  pose proof (layout_write p pre h _ ((b ++ T') ++ drop 3 T) Hl) as Hl1.
  destruct (layout_remove_suffix _ pre h (b ++ T') (drop 3 T) Hl1) as [Hrm Hl2].
  { rewrite !len_app in *. assert (len T' = 7) by reflexivity. assert (len T = 7) by reflexivity.
    assert (len (drop 3 T) = 4) by reflexivity. assert (len (to_le 4 w) = 4) by reflexivity. lia. }
  change (length (drop 3 T)) with 4%nat in Hrm. rewrite Hrm. split; [done|exact Hl2].
Qed.

(** One hop with waypoints left *)
Lemma advance_more p pre h cur body w r d ty :
  layout p pre (waypoint_header h cur) (body ++ waypoint_trailer (w :: r) d ty) ->
  PH.wf h -> is_u 32 w -> is_u 32 d -> ty <> packet_type_code Waypoint -> (length r < 3)%nat ->
  len (inner p) < 2 ^ 64 ->
  let p' := with_parsed_metadata (with_inner p
              (pre ++ PH.as_bytes (waypoint_header h w) ++ body ++ waypoint_trailer r d ty)) None in
  advance_waypoint p = Ok (w, p') /\
  layout p' pre (waypoint_header h w) (body ++ waypoint_trailer r d ty).
Proof.
  intros Hl Hwf Hw Hd Hty Hr Hlen p'.
  set (b := body ++ concat (map (to_le 4) (reverse r))).
  set (n := length r).
  assert (body ++ waypoint_trailer (w :: r) d ty = b ++ to_le 4 w ++ trailer_tail (S n) d ty) as Hb
    by (unfold b, n; by rewrite waypoint_trailer_cons, <-app_assoc).
  assert (body ++ waypoint_trailer r d ty = b ++ trailer_tail n d ty) as Hb'
    by (unfold b, n; by rewrite waypoint_trailer_tail, <-app_assoc).
  rewrite Hb in Hl. subst p'. rewrite Hb'.
  unfold advance_waypoint. rewrite (layout_payload _ _ _ _ Hl). cbn [mbind outcome_bind].
  rewrite app_assoc, read_trailer_tail, <-app_assoc; [|done|unfold n; lia| |done].
  2: { unfold b, n. rewrite !length_app, length_le_words, length_reverse, length_to_le. lia. }
  cbn [mbind outcome_bind]. rewrite (bool_decide_true (0 < S n)%nat) by lia.
  destruct (pop_waypoint_correct p pre _ b w n d ty Hl Hw Hlen) as [-> Hl2].
  cbn [mbind outcome_bind].
  destruct (layout_update _ pre (waypoint_header h cur) _
    (fun h => PH.with_to_peer_id h w) Hl2) as (p3 & Hu & -> & Hl3).
  { exact (waypoint_header_wf h w Hwf Hw). }
  rewrite (bool_decide_false (S n = 0)%nat) by lia. cbv beta iota zeta. rewrite Hu.
  split; [done|exact Hl3].
Qed.

(** The last hop restores the destination and the original packet type. *)
Lemma advance_last p pre h cur body d ty :
  layout p pre (waypoint_header h cur) (body ++ waypoint_trailer [] d ty) ->
  PH.wf h -> is_u 32 d -> is_byte ty -> ty <> packet_type_code Waypoint ->
  len (inner p) < 2 ^ 64 ->
  advance_waypoint p = Ok (d, with_parsed_metadata (with_inner p
    (pre ++ PH.as_bytes (PH.with_packet_type (PH.with_to_peer_id h d) ty) ++ body)) None).
Proof.
  intros Hl Hwf Hd Hb Hty Hlen. change (waypoint_trailer [] d ty) with (trailer_tail 0 d ty) in Hl.
  pose proof (layout_body_small _ _ _ _ Hl Hlen) as Hlb.
  unfold advance_waypoint. rewrite (layout_payload _ _ _ _ Hl). cbn [mbind outcome_bind].
  rewrite read_trailer_tail by (done || lia). cbn [mbind outcome_bind].
  rewrite (bool_decide_false (0 < 0)%nat) by lia.
  destruct (layout_remove_suffix p pre _ body (trailer_tail 0 d ty) Hl Hlb) as [Hrm Hl2].
  change (length (trailer_tail 0 d ty)) with WAYPOINT_TAIL in Hrm. rewrite Hrm.
  cbn [mbind outcome_bind].
  destruct (layout_update _ pre (waypoint_header h cur) body
    (fun h => PH.with_packet_type (PH.with_to_peer_id h d) ty) Hl2) as (p3 & Hu & -> & _).
  { destruct Hwf as (?&?&?&?&?&?&?). unfold PH.wf; cbn. split_and!; done. }
  rewrite (bool_decide_true (0 = 0)%nat) by lia. cbv beta iota zeta. rewrite Hu. done.
Qed.

(** the peers visited by [n] hops, and the packet after them *)
Fixpoint travel (n : nat) (p : t) : outcome string (list Z * t) :=
  match n with
  | O => Ok ([], p)
  | S n =>
      '(next, p) ← advance_waypoint p;
      '(visited, p) ← travel n p;
      Ok (next :: visited, p)
  end.

Lemma travel_S n p :
  travel (S n) p =
  ('(next, p) ← advance_waypoint p; '(visited, p) ← travel n p; Ok (next :: visited, p)).
Proof. done. Qed.

Lemma travel_waypoints r : forall p pre h cur body d ty,
  layout p pre (waypoint_header h cur) (body ++ waypoint_trailer r d ty) ->
  PH.wf h -> Forall (is_u 32) r -> is_u 32 d -> is_byte ty -> ty <> packet_type_code Waypoint ->
  (length r <= 3)%nat -> len (inner p) < 2 ^ 64 ->
  travel (S (length r)) p = Ok (r ++ [d], with_parsed_metadata (with_inner p
    (pre ++ PH.as_bytes (PH.with_packet_type (PH.with_to_peer_id h d) ty) ++ body)) None).
Proof.
  induction r as [|w r IH]; intros p pre h cur body d ty Hl Hwf Hr Hd Hb Hty Hle Hlen.
  - cbn [travel length]. rewrite (advance_last p pre h cur body d ty) by done. done.
  - apply Forall_cons_iff in Hr as [Hw Hr]. cbn [length] in *. rewrite travel_S.
    destruct (advance_more p pre h cur body w r d ty Hl) as [Ha Hl']; try done.
    rewrite Ha. cbn [mbind outcome_bind].
    rewrite (IH _ _ _ _ _ _ _ Hl'); try done; [lia|].
    cbn [inner with_parsed_metadata with_inner]. destruct Hl as [Hi _ _].
    rewrite Hi in Hlen. unfold len in *. rewrite !length_app, !length_waypoint_trailer in *.
    cbn [length] in *. rewrite !PH.length_as_bytes in *. lia.
Qed.

(** C25: source-routed waypoints.  Encoding one to four waypoints into a packet
    addresses it to the first; each hop then addresses it to the next one in
    order and the last hop to the original destination, and the packet that
    arrives is the original one, byte for byte, header included. *)
Theorem waypoint_route_roundtrip (p : t) (h : PH.t) (first : Z) (rest : list Z) :
  bytes_ok (inner p) -> len (inner p) + 19 < 2 ^ 64 -> peer_manager_header p = Some h ->
  PH.packet_type h <> packet_type_code Waypoint ->
  Forall (is_u 32) (first :: rest) -> (length rest <= 3)%nat ->
  exists p1,
    encode_waypoints p (first :: rest) = Ok p1 /\
    get_dst_peer_id p1 = Some first /\
    travel (S (length rest)) p1
      = Ok (rest ++ [PH.to_peer_id h], with_parsed_metadata p None).
Proof.
  intros Hok Hlen Hh Hty [Hf Hr]%Forall_cons_iff Hle.
  pose proof (header_layout p h Hok Hh) as Hl. set (pre := take _ _) in Hl. set (body := drop _ _) in Hl.
  assert (PH.wf h) as Hwf by apply Hl.
  pose proof Hwf as (_ & Hto & Hpt & _).
  unfold encode_waypoints.
  rewrite bool_decide_false by (cbn [length]; unfold WAYPOINT_LIMIT; lia).
  rewrite Hh. cbn [ok_or mbind outcome_bind].
  set (tr := waypoint_trailer rest (PH.to_peer_id h) (PH.packet_type h)).
  assert (len tr <= 19) as Htr by (unfold len, tr; rewrite length_waypoint_trailer; lia).
  destruct (layout_append p pre h body tr Hl) as [Ha Hl1]; [lia|].
  rewrite Ha. cbn [mbind outcome_bind]. set (p0 := with_parsed_metadata _ None) in *.
  destruct (layout_update p0 pre h (body ++ tr) (fun h => waypoint_header h first) Hl1)
    as (p1 & Hu & Hp1 & Hl2); [by apply waypoint_header_wf|].
  unfold waypoint_header in Hu at 1. rewrite Hu. cbn [ok_or]. exists p1. split; [done|].
  split. { unfold get_dst_peer_id. by rewrite (layout_header _ _ _ _ Hl2). }
  rewrite (travel_waypoints rest p1 pre h first body _ _ Hl2); try done.
  - f_equal. f_equal. subst p1. unfold p0. destruct Hl as [Hi _ _].
    replace (PH.with_packet_type (PH.with_to_peer_id h (PH.to_peer_id h)) (PH.packet_type h)) with h
      by (by destruct h). rewrite <-Hi. by destruct p.
  - subst p1. cbn [inner with_parsed_metadata with_inner]. destruct Hl as [Hi _ _].
    rewrite Hi in Hlen. rewrite !len_app in *.
    assert (len (PH.as_bytes (waypoint_header h first)) = len (PH.as_bytes h)) by reflexivity. lia.
Qed.

Definition sample_packet : t :=
  with_inner new_nic_packet
    (replicate 18 0 ++ PH.as_bytes (PH.mk 1 9 1 1 1 0 3) ++ [10; 20; 30]).

Lemma waypoint_route_roundtrip_witness :
  exists p1,
    encode_waypoints sample_packet [5; 6; 7] = Ok p1 /\ get_dst_peer_id p1 = Some 5 /\
    travel 3 p1 = Ok ([6; 7; 9], sample_packet).
Proof.
  apply (waypoint_route_roundtrip sample_packet (PH.mk 1 9 1 1 1 0 3) 5 [6; 7]).
  - apply (bool_decide_unpack _). vm_compute. exact I.
  - vm_compute. reflexivity.
  - vm_compute. reflexivity.
  - done.
  - forall_list; done.
  - cbn. lia.
Defined.

(** ** Foreign-network encapsulation *)
Definition zero_header : PH.t := PH.mk 0 0 0 0 0 0 0.

Lemma nic_layout body :
  layout (with_inner new_nic_packet (replicate 34 0 ++ body)) (replicate 18 0) zero_header body.
Proof. split; [done|done|]. unfold PH.wf, is_u, is_byte; cbn. lia. Qed.

(** The three copies of [new_for_foreign_network] fill the whole payload. *)
Lemma foreign_buffer {E} fh name body :
  FH.header_len fh = 10 + len name -> FH.network_name_offset fh = 10 ->
  FH.network_name_len fh = len name ->
  let off := 34%nat in
  let i := vec_resize (off + (FH.get_header_len fh + length body)) 0 [] in
  (i ← copy_from_slice (E := E) i off (off + FH.SIZE) (FH.as_bytes fh);
   i ← copy_from_slice i (off + Z.to_nat (FH.network_name_offset fh))
         (off + Z.to_nat (FH.network_name_offset fh) + Z.to_nat (FH.network_name_len fh)) name;
   copy_from_slice i (off + FH.get_header_len fh) (length i) body)
  = Ok (replicate 34 0 ++ FH.as_bytes fh ++ name ++ body).
Proof.
  intros Hh Ho Hn off. unfold FH.get_header_len. rewrite Hh, Ho, Hn.
  replace (Z.to_nat (10 + len name)) with (10 + length name)%nat by (unfold len; lia).
  replace (Z.to_nat (len name)) with (length name) by (unfold len; lia).
  unfold vec_resize. rewrite take_nil. cbn [app length]. rewrite Nat.sub_0_r.
  replace (off + (10 + length name + length body))%nat
    with (off + (10 + (length name + length body)))%nat by lia.
  rewrite !replicate_add, (copy_mid (replicate off 0) (replicate 10 0)) by done.
  cbn [mbind outcome_bind]. rewrite (app_assoc (replicate off 0) (FH.as_bytes fh) (replicate (length name) 0 ++ _)).
  rewrite (copy_mid (replicate off 0 ++ FH.as_bytes fh)) by (rewrite ?length_app, ?length_replicate; done || lia).
  cbn [mbind outcome_bind]. rewrite (app_assoc _ name).
  set (l := (replicate off 0 ++ FH.as_bytes fh) ++ name).
  assert (length l = off + (10 + length name))%nat as Hl by (unfold l; rewrite !length_app, length_replicate, FH.foreign_length_as_bytes; unfold FH.SIZE; lia).
  rewrite <-(app_nil_r (replicate (length body) 0)), copy_mid.
  - unfold l. by rewrite app_nil_r, <-!app_assoc.
  - done.
  - rewrite !length_app, Hl. cbn. lia.
  - by rewrite length_replicate.
Qed.

(** the header that [new_for_foreign_network] writes in front of the packet of header [h] *)
Definition foreign_outer_header (h : PH.t) (n : Z) : PH.t :=
  let hdr := PH.initialize zero_header 0 0 (packet_type_code ForeignNetworkPacket) n in
  let hdr := PH.set_speed_first (PH.set_latency_first hdr (PH.is_latency_first h))
               (PH.is_speed_first h) in
  PH.set_no_proxy hdr
    (PH.is_foreign_control h || negb (is_relay_data_packet_type (PH.packet_type h))).

Lemma foreign_outer_header_wf h n : is_u 32 n -> PH.wf (foreign_outer_header h n).
Proof.
  intros Hn. unfold foreign_outer_header, PH.wf. cbn.
  generalize (PH.is_latency_first h) (PH.is_speed_first h)
    (PH.is_foreign_control h || negb (is_relay_data_packet_type (PH.packet_type h))).
  intros [] [] []; split_and!; done.
Qed.

Lemma foreign_outer_control h n :
  PH.is_foreign_control (foreign_outer_header h n)
  = PH.is_foreign_control h || negb (is_relay_data_packet_type (PH.packet_type h)).
Proof.
  unfold foreign_outer_header.
  set (b := PH.is_foreign_control h || _). clearbody b.
  unfold PH.is_foreign_control. cbn.
  destruct (PH.is_latency_first h), (PH.is_speed_first h), b; done.
Qed.

Lemma encapsulate_layout {E} name dst p h pre body :
  layout p pre h body -> FH.name_ok name ->
  exists q n, new_for_foreign_network (E := E) name dst p = Ok q /\ is_u 32 n /\
    layout q (replicate 18 0) (foreign_outer_header h n)
      (FH.as_bytes (FH.new dst name) ++ name ++ PH.as_bytes h ++ body).
Proof.
  intros Hl Hn. pose proof (FH.new_fields dst name Hn) as Hf. unfold new_for_foreign_network.
  rewrite (layout_tunnel_payload _ _ _ _ Hl). cbn [mbind outcome_bind].
  rewrite (layout_header _ _ _ _ Hl). cbv zeta.
  set (fh := FH.new dst name) in *. set (fp := PH.as_bytes h ++ body).
  set (n := wrap 32 _). assert (is_u 32 n) as Hu by (apply wrap_range; lia).
  change (payload_offset _) with 34%nat.
  cbn [inner with_transit_data with_transit_network with_transit_destination new_nic_packet new_from_buf].
  pose proof (foreign_buffer (E := E) fh name fp) as Hb. cbv zeta in Hb.
  rewrite Hf in Hb at 1 2 3. specialize (Hb eq_refl eq_refl eq_refl).
  apply bind_Ok in Hb as (i1 & -> & Hb). cbn [mbind outcome_bind].
  apply bind_Ok in Hb as (i2 & -> & Hb). cbn [mbind outcome_bind]. rewrite Hb.
  cbn [mbind outcome_bind].
  match goal with |- context [update_peer_manager_header ?q ?f] =>
    destruct (layout_update q (replicate 18 0) zero_header (FH.as_bytes fh ++ name ++ fp) f)
      as (q' & -> & _ & Hq') end.
  - split; [done|done|]. apply (nic_layout []).
  - exact (foreign_outer_header_wf h n Hu).
  - exists q', n. done.
Qed.

Lemma encapsulated_header {E} q dst name h n body :
  layout q (replicate 18 0) (foreign_outer_header h n)
    (FH.as_bytes (FH.new dst name) ++ name ++ PH.as_bytes h ++ body) ->
  FH.name_ok name -> is_u 32 dst ->
  foreign_network_hdr (E := E) q = Ok (Some (FH.new dst name)).
Proof.
  intros Hl Hn Hd. unfold foreign_network_hdr. rewrite (layout_header _ _ _ _ Hl).
  cbn [PH.packet_type foreign_outer_header]. rewrite (layout_payload _ _ _ _ Hl).
  cbn -[FH.new FH.as_bytes]. rewrite FH.foreign_ref_from_prefix_as_bytes by by apply FH.new_wf.
  cbn -[FH.new FH.as_bytes]. rewrite FH.validate_new; [done|done|]. rewrite !len_app.
  pose proof (len_nonneg (PH.as_bytes h)). pose proof (len_nonneg body).
  assert (len (FH.as_bytes (FH.new dst name)) = 10) by reflexivity. lia.
Qed.

Lemma foreign_prefix_length dst name :
  FH.name_ok name ->
  FH.get_header_len (FH.new dst name) = length (FH.as_bytes (FH.new dst name) ++ name).
Proof.
  intros Hn. rewrite length_app, FH.foreign_length_as_bytes, (FH.new_fields dst name Hn).
  unfold FH.get_header_len, FH.SIZE, len. cbn. lia.
Qed.

Lemma encapsulated_inner_header {E} q dst name h n body :
  layout q (replicate 18 0) (foreign_outer_header h n)
    (FH.as_bytes (FH.new dst name) ++ name ++ PH.as_bytes h ++ body) ->
  FH.name_ok name -> is_u 32 dst -> PH.wf h ->
  foreign_network_inner_header (E := E) q = Ok (Some h).
Proof.
  intros Hl Hn Hd Hw. unfold foreign_network_inner_header.
  rewrite (layout_header _ _ _ _ Hl), (encapsulated_header _ _ _ _ _ _ Hl) by done.
  cbn [PH.packet_type foreign_outer_header]. rewrite (layout_payload _ _ _ _ Hl).
  cbn -[FH.new FH.as_bytes]. rewrite foreign_prefix_length by done. rewrite app_assoc. unfold get_from.
  rewrite bool_decide_true by (rewrite (length_app (_ ++ _)); lia).
  cbn -[FH.new FH.as_bytes]. by rewrite drop_app_length, PH.ref_from_prefix_as_bytes.
Qed.

(** Advancing to offset [n] leaves the bytes behind it. *)
Lemma advance_inner_drop {E} p n :
  (n <= length (inner p))%nat ->
  exists p', advance_inner (E := E) p n = Ok p' /\ inner p' = drop n (inner p) /\
    packet_type p' = packet_type p.
Proof.
  intros Hn. unfold advance_inner, split_to. rewrite bool_decide_true by done. cbn.
  eexists. split; [done|]. by destruct (reusable_prefix p), (reusable_pool p).
Qed.

Lemma encapsulated_packet {E} q dst name h n body :
  layout q (replicate 18 0) (foreign_outer_header h n)
    (FH.as_bytes (FH.new dst name) ++ name ++ PH.as_bytes h ++ body) ->
  FH.name_ok name -> is_u 32 dst -> PH.wf h ->
  exists r, foreign_network_packet (E := E) q = Ok (Some r) /\ layout r [] h body.
Proof.
  intros Hl Hn Hd Hw. unfold foreign_network_packet, foreign_network_inner_is_data.
  rewrite (layout_header _ _ _ _ Hl), foreign_outer_control.
  rewrite (encapsulated_header _ _ _ _ _ _ Hl), (encapsulated_inner_header _ _ _ _ _ _ Hl) by done.
  rewrite (layout_payload _ _ _ _ Hl), app_assoc. cbn [mbind outcome_bind option_map].
  rewrite (foreign_prefix_length dst name Hn). set (pre := FH.as_bytes _ ++ name).
  destruct (advance_inner_drop (E := E) q (length pre + payload_offset q)) as (r & Hr & Hi & Ht).
  { destruct Hl as [Hi Hp _]. rewrite Hi, payload_offset_pm, <-Hp. unfold pre.
    rewrite !length_app, !PH.length_as_bytes. unfold PEER_MANAGER_HEADER_SIZE. lia. }
  exists (with_packet_type r DummyTunnel).
  assert (bool_decide (length pre < FH.SIZE)%nat = false) as -> by
    (apply bool_decide_eq_false_2; unfold pre; rewrite length_app, FH.foreign_length_as_bytes; lia).
  rewrite (bool_decide_eq_false_2 (_ < length pre)%nat) by (rewrite length_app; lia).
  rewrite Hr. cbn [mbind outcome_bind orb]. split.
  - destruct (PH.is_foreign_control h), (is_relay_data_packet_type (PH.packet_type h)); done.
  - split; [|done|done]. cbn [inner with_packet_type]. rewrite Hi. destruct Hl as [-> Hp _].
    rewrite payload_offset_pm, <-Hp. fold pre. rewrite (app_assoc (replicate 18 0)).
    set (out := replicate 18 0 ++ PH.as_bytes (foreign_outer_header h n)).
    assert (length out = 34%nat) as Ho by done. change (length (replicate 18 0%Z) + 16)%nat with 34%nat.
    rewrite Nat.add_comm, <-Ho, drop_app_add. unfold pre. rewrite app_assoc. by rewrite drop_app_length.
Qed.

(** foreign-network encapsulation is transparent.  A packet wrapped for
    peer [dst] of network [name] carries the foreign header with exactly this
    destination and name, reports whether its content is data as the relay
    would classify the inner header, and unwraps to a packet with the same
    header and payload bytes, for data and for control packets alike. *)
Theorem foreign_network_encapsulation_roundtrip (name : list Z) (dst : Z) (p : t) (h : PH.t) :
  bytes_ok (inner p) -> peer_manager_header p = Some h -> FH.name_ok name -> is_u 32 dst ->
  exists q r,
    new_for_foreign_network (E := unit) name dst p = Ok q /\
    foreign_network_hdr (E := unit) q = Ok (Some (FH.new dst name)) /\
    foreign_network_inner_is_data (E := unit) q
      = Ok (Some (negb (PH.is_foreign_control h) && is_relay_data_packet_type (PH.packet_type h))) /\
    foreign_network_packet (E := unit) q = Ok (Some r) /\
    peer_manager_header r = Some h /\
    tunnel_payload (E := unit) r = tunnel_payload p.
Proof.
  intros Hok Hh Hn Hd. pose proof (header_layout p h Hok Hh) as Hl.
  destruct (encapsulate_layout (E := unit) name dst p h _ _ Hl Hn) as (q & n & Hq & Hu & Hlq).
  destruct (encapsulated_packet (E := unit) _ _ _ _ _ _ Hlq Hn Hd) as (r & Hr & Hlr); [apply Hl|].
  exists q, r. unfold foreign_network_inner_is_data.
  rewrite (encapsulated_header _ _ _ _ _ _ Hlq), (encapsulated_inner_header _ _ _ _ _ _ Hlq);
    [|try done; apply Hl..].
  rewrite (layout_header _ _ _ _ Hlr), (layout_tunnel_payload _ _ _ _ Hl),
    (layout_tunnel_payload _ _ _ _ Hlr). done.
Qed.

Lemma foreign_network_encapsulation_roundtrip_witness :
  exists q r, new_for_foreign_network (E := unit) [110; 101; 116] 7 sample_packet = Ok q /\
    foreign_network_packet (E := unit) q = Ok (Some r) /\
    tunnel_payload (E := unit) r = tunnel_payload sample_packet.
Proof.
  destruct (foreign_network_encapsulation_roundtrip [110; 101; 116] 7 sample_packet
    (default zero_header (peer_manager_header sample_packet))) as (q & r & H1 & _ & _ & H2 & _ & H3).
  - vm_compute. forall_list.
  - vm_compute. reflexivity.
  - split; [done|]. vm_compute. done.
  - split; [done|]. vm_compute. reflexivity.
  - by exists q, r.
Defined.

(** ** Payload edits *)
Lemma layout_prepend p pre h body a :
  layout p pre h body -> len (inner p) + len a < 2 ^ 64 ->
  prepend_inner p a = Ok (with_inner p (pre ++ PH.as_bytes h ++ a ++ body)).
Proof.
  intros [Hi Hp _] Hs. unfold prepend_inner. rewrite checked_add_small by done.
  cbn [ok_or mbind outcome_bind]. set (hd := pre ++ PH.as_bytes h).
  assert (payload_offset p = length hd) as Ho
    by (rewrite payload_offset_pm, <-Hp; unfold hd; by rewrite length_app).
  assert (inner p = hd ++ body) as Hi' by (unfold hd; by rewrite <-app_assoc).
  replace (vec_resize (Z.to_nat (len (inner p) + len a)) 0 (inner p))
    with (hd ++ body ++ replicate (length a) 0).
  2: { unfold vec_resize. rewrite take_ge by (unfold len; lia). rewrite Hi', <-app_assoc.
       do 3 f_equal. unfold len. lia. }
  unfold copy_within. rewrite Ho, Hi'.
  rewrite bool_decide_true by (rewrite !length_app, length_replicate; lia).
  cbn [mbind outcome_bind].
  assert (exists m, length m = length a /\
    splice (hd ++ body ++ replicate (length a) 0) (length hd + length a)
      (take (length (hd ++ body) - length hd) (drop (length hd) (hd ++ body ++ replicate (length a) 0)))
    = hd ++ m ++ body) as (m & Hm & ->).
  { rewrite drop_app_length, length_app, take_app_length' by lia.
    exists (take (length a) (body ++ replicate (length a) 0)).
    split; [rewrite length_take, length_app, length_replicate; lia|].
    unfold splice. rewrite take_app_add. rewrite <-app_assoc. do 2 f_equal.
    rewrite drop_ge; [by rewrite app_nil_r|]. rewrite !length_app, length_replicate. lia. }
  rewrite copy_mid by lia. cbn [mbind outcome_bind]. unfold hd. by rewrite <-app_assoc.
Qed.

(** Removing a payload prefix of a pooled packet and restoring another one of
    the same length in its headroom. *)
Lemma layout_headroom p pre h a b body pool :
  layout p pre h (a ++ body) -> reusable_pool p = Some pool -> reusable_prefix p = None ->
  length a = length b -> (length a <= length body)%nat -> len (a ++ body) < 2 ^ 64 ->
  exists q, remove_payload_prefix_preserving_flow_hash p (length a) = Ok q /\
    restore_payload_prefix_from_reusable_headroom q b
      = Ok (with_parsed_metadata (with_inner p (pre ++ PH.as_bytes h ++ b ++ body)) None, true).
Proof.
  intros Hl Hpool Hpre Hab Hle Hs. pose proof (layout_payload_len _ _ _ _ Hl Hs) as Hn.
  destruct Hl as [Hi Hp _]. unfold remove_payload_prefix_preserving_flow_hash. rewrite Hn.
  rewrite (proj2 (Z.ltb_ge _ _)) by (rewrite len_app; unfold len; lia).
  unfold advance_inner, split_to.
  assert (length (inner p) = length pre + 16 + length a + length body)%nat as Hlen
    by (rewrite Hi, !length_app, PH.length_as_bytes; unfold PEER_MANAGER_HEADER_SIZE; lia).
  rewrite bool_decide_true by lia. cbn [mbind outcome_bind]. eexists. split; [done|].
  cbn [reusable_prefix with_inner]. rewrite Hpre. cbn [reusable_pool with_inner]. rewrite Hpool.
  unfold restore_payload_prefix_from_reusable_headroom. cbn [reusable_prefix with_parsed_metadata with_reusable_prefix].
  change (payload_offset _) with (payload_offset p). cbn [inner with_parsed_metadata with_reusable_prefix with_inner].
  rewrite bool_decide_true by (rewrite length_take; lia).
  rewrite bool_decide_false by (rewrite length_drop, payload_offset_pm; lia). cbn [negb orb].
  rewrite take_drop, Hi, (app_assoc pre).
  rewrite copy_mid by (rewrite ?payload_offset_pm, <-?Hp, ?length_app, ?PH.length_as_bytes;
    unfold PEER_MANAGER_HEADER_SIZE; lia).
  cbn [mbind outcome_bind].
  destruct p; cbn in *; subst. rewrite <-(app_assoc pre (PH.as_bytes h) (b ++ body)). reflexivity.
Qed.

(** Payload edits keep the packet header and are inverse to each other.
    Prepending makes the payload [a ++ body] behind the same header; removing
    an appended suffix gives the packet back; and on a pooled packet a payload
    prefix is replaced in place through the reusable headroom, the header
    staying where it was. *)
Theorem payload_edits_roundtrip (p : t) (h : PH.t) (a b : list Z) (body : list Z) (pool : Z) :
  bytes_ok (inner p) -> peer_manager_header p = Some h -> payload (E := string) p = Ok (a ++ body) ->
  len (inner p) + len b < 2 ^ 64 ->
  (exists q, prepend_payload_preserving_flow_hash p b = Ok q /\
     payload (E := string) q = Ok (b ++ a ++ body) /\ peer_manager_header q = Some h) /\
  (exists q, append_payload_preserving_flow_hash p b = Ok q /\
     payload (E := string) q = Ok (a ++ body ++ b) /\
     remove_payload_suffix_preserving_flow_hash q (length b) = Ok (with_parsed_metadata p None)) /\
  (reusable_pool p = Some pool -> reusable_prefix p = None ->
   length a = length b -> (length a <= length body)%nat ->
   exists q r, remove_payload_prefix_preserving_flow_hash p (length a) = Ok q /\
     restore_payload_prefix_from_reusable_headroom q b = Ok (r, true) /\
     payload (E := string) r = Ok (b ++ body) /\ peer_manager_header r = Some h).
Proof.
  intros Hok Hh Hp Hs. pose proof (header_layout p h Hok Hh) as Hl.
  pose proof (layout_payload (E := string) _ _ _ _ Hl) as Hp'. rewrite Hp in Hp'. injection Hp' as Hp'.
  set (pre := take _ _) in Hl. rewrite <-Hp' in Hl. clear Hp Hp'.
  assert (len (a ++ body) < 2 ^ 64) as Hb.
  { apply (layout_body_small _ _ _ _ Hl). pose proof (len_nonneg b). lia. }
  split_and!.
  - unfold prepend_payload_preserving_flow_hash. rewrite (layout_prepend _ _ _ _ _ Hl) by done.
    eexists. split; [done|].
    assert (layout (with_parsed_metadata (with_inner p (pre ++ PH.as_bytes h ++ b ++ a ++ body)) None)
              pre h (b ++ a ++ body)) as Hl' by (by destruct Hl; split).
    by rewrite (layout_payload _ _ _ _ Hl'), (layout_header _ _ _ _ Hl').
  - destruct (layout_append _ _ _ _ b Hl Hs) as [-> Hl']. eexists. split; [done|].
    split; [by rewrite (layout_payload _ _ _ _ Hl'), <-app_assoc|].
    destruct (layout_remove_suffix _ _ _ _ _ Hl') as [-> _].
    { pose proof (layout_body_small _ _ _ _ Hl'). apply H. destruct Hl as [Hi _ _]. rewrite Hi, !len_app in Hs.
      cbn [inner with_parsed_metadata with_inner]. rewrite !len_app. lia. }
    destruct Hl as [Hi _ _]. f_equal. rewrite <-Hi. by destruct p.
  - intros Hpool Hpre Hab Hle.
    destruct (layout_headroom p pre h a b body pool Hl) as (q & -> & Hr); try done.
    eexists q, _. split; [done|]. split; [exact Hr|].
    assert (layout (with_parsed_metadata (with_inner p (pre ++ PH.as_bytes h ++ b ++ body)) None)
              pre h (b ++ body)) as Hl' by (by destruct Hl; split).
    by rewrite (layout_payload _ _ _ _ Hl'), (layout_header _ _ _ _ Hl').
Qed.

Lemma payload_edits_roundtrip_witness :
  let p := new_from_reusable_buf (replicate 16 0 ++ [1; 2; 3; 4]) DummyTunnel 1 0 in
  exists q r, remove_payload_prefix_preserving_flow_hash p 2 = Ok q /\
    restore_payload_prefix_from_reusable_headroom q [9; 8] = Ok (r, true) /\
    payload (E := string) r = Ok [9; 8; 3; 4].
Proof.
  intros p. destruct (payload_edits_roundtrip p zero_header [1; 2] [9; 8] [3; 4] 1) as (_ & _ & H).
  - vm_compute. forall_list.
  - vm_compute. reflexivity.
  - vm_compute. reflexivity.
  - vm_compute. reflexivity.
  - destruct H as (q & r & H1 & H2 & H3 & _); [done|done|done|vm_compute; lia|].
    by exists q, r.
Defined.

(** ** Layout conversion *)
Definition marks (p : t) :=
  (authenticated_peer_id p, authenticated_peer_identity_type p,
   authenticated_peer_secure_auth_level p, authenticated_session_id p,
   (verified_origin_peer_id p, verified_origin_peer_identity_type p,
    verified_origin_peer_secure_auth_level p, verified_origin_session_id p),
   (flow_hash p, batch_key p, queue_feedback p, lossy_hint p)).

(** the offset the conversion advances by, where the layout permits it *)
Lemma converted_offset from target :
  let off := match target with
             | TCP => tcp_tunnel_header_offset (get_packet_offsets from)
             | _ => dummy_tunnel_header_offset (get_packet_offsets from)
             end in
  target <> NIC -> off <> INVALID_OFFSET ->
  (Z.to_nat off + Z.to_nat (peer_manager_header_offset (get_packet_offsets target))
   = Z.to_nat (peer_manager_header_offset (get_packet_offsets from)))%nat.
Proof. by destruct from, target. Qed.

Lemma convert_advance p pre h body off target :
  layout p pre h body ->
  (Z.to_nat off + Z.to_nat (peer_manager_header_offset (get_packet_offsets target)) = pm_offset p)%nat ->
  exists q, (forall E, advance_inner (E := E) p (Z.to_nat off) = Ok q) /\
    layout (with_packet_type q target) (drop (Z.to_nat off) pre) h body /\ marks q = marks p.
Proof.
  intros [Hi Hp Hw] Ho. unfold advance_inner, split_to.
  rewrite bool_decide_true by (rewrite Hi, length_app; lia). cbn [mbind outcome_bind].
  cbn [reusable_prefix reusable_pool with_inner]. eexists. split; [done|]. split.
  - split; [| |done].
    + transitivity (drop (Z.to_nat off) (inner p)); [by destruct (reusable_prefix p), (reusable_pool p)|].
      rewrite Hi, drop_app_le by lia. done.
    + rewrite length_drop. unfold pm_offset at 1, offsets. cbn [packet_type with_packet_type]. lia.
  - by destruct (reusable_prefix p), (reusable_pool p).
Qed.

(** Layout conversion is content preserving.  Converting a packet with a
    header to another tunnel layout panics only for the unsupported conversion
    into the NIC layout; otherwise the result has the target layout, the same
    header, payload, authentication marks, flow hash, batch key, queue feedback
    and lossy hint.  The in-place variant succeeds exactly when no copy is
    needed, and then gives the same packet without returning a pool buffer. *)
Theorem convert_type_preserves (p : t) (h : PH.t) (target : ZCPacketType) :
  bytes_ok (inner p) -> peer_manager_header p = Some h ->
  match convert_type (E := unit) p target with
  | Ok (q, events) =>
      packet_type q = target /\ peer_manager_header q = Some h /\
      tunnel_payload (E := unit) q = tunnel_payload p /\ marks q = marks p /\
      match convert_type_in_place p target with
      | Ok q' => q' = q /\ events = []
      | Err _ => events = (recycle_reusable_buffer p).2 /\ reusable_pool q = None
      | Panic => False
      end
  | Err _ => False
  | Panic => target = NIC /\ packet_type p <> NIC
  end.
Proof.
  intros Hok Hh. pose proof (header_layout p h Hok Hh) as Hl.
  set (pre := take _ _) in Hl. set (body := drop _ _) in Hl.
  pose proof (layout_tunnel_payload (E := unit) _ _ _ _ Hl) as Ht. rewrite Ht.
  unfold convert_type, convert_type_in_place.
  case_decide as Hd; [by rewrite Ht|].
  pose proof (converted_offset (packet_type p) target) as Hco. cbv zeta in Hco.
  change (Z.to_nat (peer_manager_header_offset (get_packet_offsets (packet_type p))))
    with (pm_offset p) in Hco. fold (offsets p) in Hco.
  destruct target; [destruct (tcp_tunnel_header_offset (offsets p) =? INVALID_OFFSET) eqn:Heq
    |by split; [|intros E; rewrite E in Hd]
    |destruct (dummy_tunnel_header_offset (offsets p) =? INVALID_OFFSET) eqn:Heq].
  all: cbn [mbind outcome_bind]; rewrite Heq; bool_to_Z.
  1,3: rewrite Ht; cbn [mbind outcome_bind]; split_and!; try done;
    eapply layout_header; (split; [reflexivity|done|apply Hl]).
  1: destruct (convert_advance p pre h body _ TCP Hl (Hco ltac:(done) Heq)) as (q & Hq & Hlq & Hm).
  2: destruct (convert_advance p pre h body _ DummyTunnel Hl (Hco ltac:(done) Heq)) as (q & Hq & Hlq & Hm).
  all: rewrite !Hq; cbn [mbind outcome_bind].
  all: by rewrite (layout_header _ _ _ _ Hlq), (layout_tunnel_payload _ _ _ _ Hlq).
Qed.

Lemma convert_type_preserves_witness :
  match convert_type (E := unit) sample_packet TCP with
  | Ok (q, events) => packet_type q = TCP /\ tunnel_payload (E := unit) q = tunnel_payload sample_packet
  | _ => False
  end.
Proof.
  pose proof (convert_type_preserves sample_packet (PH.mk 1 9 1 1 1 0 3) TCP) as H.
  destruct (convert_type sample_packet TCP) as [[q ev]| |].
  - destruct H as (H1 & _ & H2 & _); [apply (bool_decide_unpack _); vm_compute; exact I|vm_compute; reflexivity|].
    done.
  - apply H; [apply (bool_decide_unpack _); vm_compute; exact I|vm_compute; reflexivity].
  - destruct H as [H _]; [apply (bool_decide_unpack _); vm_compute; exact I|vm_compute; reflexivity|done].
Defined.

(** ** Hostile waypoint trailers *)
Lemma le_words n : forall l, bytes_ok l -> length l = (4 * n)%nat ->
  exists ws, length ws = n /\ Forall (is_u 32) ws /\ l = concat (map (to_le 4) ws).
Proof.
  induction n as [|n IH]; intros l Hok Hl.
  - exists []. split_and!; [done|by constructor|]. by apply nil_length_inv.
  - destruct (IH (drop 4 l)) as (ws & Hw & Hu & Hd); [auto with lt|rewrite length_drop; lia|].
    assert (length (take 4 l) = 4%nat) as H4 by (rewrite length_take; lia).
    assert (bytes_ok (take 4 l)) as Hb by auto with lt.
    exists (of_le (take 4 l) :: ws). cbn [map concat length]. split_and!; [lia| |].
    + constructor; [|done]. pose proof (of_le_range _ Hb) as Hr. rewrite H4 in Hr. exact Hr.
    + rewrite <-H4 at 1. by rewrite to_of_le, <-Hd, take_drop.
Qed.

Lemma tail_split l :
  bytes_ok l -> (7 <= length l)%nat ->
  exists b d ty n v, l = b ++ to_le 4 d ++ [ty; n; v] /\ is_u 32 d /\ bytes_ok [ty; n; v] /\ bytes_ok b.
Proof.
  intros Hok Hl. set (k := (length l - 7)%nat).
  pose proof (take_drop k l) as Hs.
  assert (length (drop k l) = 7%nat) as H7 by (rewrite length_drop; lia).
  assert (bytes_ok (drop k l)) as Hd by auto with lt.
  destruct (drop k l) as [|d0 [|d1 [|d2 [|d3 [|ty [|n [|v [|? ?]]]]]]]]; try discriminate H7.
  change [d0; d1; d2; d3; ty; n; v] with ([d0; d1; d2; d3] ++ [ty; n; v]) in Hd.
  apply bytes_ok_app in Hd as [Hd Ht].
  exists (take k l), (of_le [d0; d1; d2; d3]), ty, n, v. split_and!; [|exact (of_le_range _ Hd)|done|auto with lt].
  rewrite <-Hs at 1. f_equal. pose proof (to_of_le _ Hd) as E. cbn [length] in E. by rewrite E.
Qed.

(** The only error [read_trailer] gives is the trailer error, it never reads
    out of bounds, and what it accepts is the trailer of some route. *)
Lemma read_trailer_inv l :
  bytes_ok l ->
  match read_trailer l with
  | Ok (n, ty, d) =>
      is_u 32 d /\ is_byte ty /\ ty <> packet_type_code Waypoint /\
      exists body rest, l = body ++ waypoint_trailer rest d ty /\ length rest = n /\
        (n < 4)%nat /\ Forall (is_u 32) rest
  | Err e => e = trailer_error
  | Panic => False
  end.
Proof.
  intros Hok. destruct (decide (7 <= length l)%nat) as [Hl|Hl].
  2: { unfold read_trailer. rewrite bool_decide_true by (unfold WAYPOINT_TAIL; lia). done. }
  destruct (tail_split l Hok Hl) as (b & d & ty & n & v & -> & Hd & Ht & Hb).
  assert (length (b ++ to_le 4 d ++ [ty; n; v]) = length b + 7)%nat as HL by (rewrite length_app; done).
  unfold read_trailer. rewrite bool_decide_false by (unfold WAYPOINT_TAIL; lia).
  rewrite HL. replace (length b + 7 - 3)%nat with (length b + 4)%nat by lia.
  assert (forall i x, [ty; n; v] !! i = Some x ->
            index (b ++ to_le 4 d ++ [ty; n; v]) (length b + (4 + i)) = Ok x) as Hx.
  { intros i x Hi. unfold index. rewrite lookup_app_r by lia.
    replace (length b + (4 + i) - length b)%nat with (length (to_le 4 d) + i)%nat by (rewrite length_to_le; lia).
    rewrite lookup_app_r by lia. replace (_ + i - _)%nat with i by lia. by rewrite Hi. }
  replace (length b + 7 - 1)%nat with (length b + (4 + 2))%nat by lia. rewrite (Hx 2%nat v eq_refl).
  cbn [mbind outcome_bind]. destruct (v =? WAYPOINT_VERSION) eqn:Ev; [|done]. cbn [negb].
  replace (length b + 7 - 2)%nat with (length b + (4 + 1))%nat by lia. rewrite (Hx 1%nat n eq_refl).
  cbn [mbind outcome_bind]. replace (length b + 4)%nat with (length b + (4 + 0))%nat by lia.
  rewrite (Hx 0%nat ty eq_refl). cbn [mbind outcome_bind].
  rewrite index_le_mid by (done || lia). cbn [mbind outcome_bind].
  do 2 (case_bool_decide as Hc; [done|]; revert Hc). intros Hc1 Hc2. cbn [orb].
  destruct (ty =? _) eqn:Ety; [done|]. bool_to_Z. unfold WAYPOINT_LIMIT, WAYPOINT_TAIL in *.
  apply Forall_cons_iff in Ht as [Hty [Hn _]%Forall_cons_iff].
  split_and!; [done..|]. set (m := Z.to_nat n) in *.
  destruct (le_words m (drop (length b - 4 * m) b)) as (ws & Hw & Hu & Hdr);
    [auto with lt|rewrite length_drop; lia|].
  exists (take (length b - 4 * m) b), (reverse ws). split_and!.
  - rewrite waypoint_trailer_tail, reverse_involutive, <-Hdr, (app_assoc (take _ _)), take_drop. f_equal.
    unfold trailer_tail. rewrite length_reverse, Hw, Ev. unfold m. rewrite Z2Nat.id by (destruct Hn; lia).
    rewrite wrap_small by exact Hn. done.
  - by rewrite length_reverse.
  - lia.
  - by apply Forall_reverse.
Qed.

(** waypoint forwarding is safe on hostile bytes.  Whatever a packet marked
    as a waypoint packet contains, advancing it never panics and fails only
    with the trailer error; if it succeeds, the payload is some body behind
    which stands the trailer of a route of at most three further waypoints and
    a destination, the hops visit exactly these in order, and after the last
    hop the packet carries the body and the recovered packet type, which is not
    the waypoint type: no packet circulates for more than four hops. *)
Theorem hostile_waypoint_safe (p : t) (h : PH.t) :
  bytes_ok (inner p) -> len (inner p) < 2 ^ 64 -> peer_manager_header p = Some h ->
  PH.packet_type h = packet_type_code Waypoint ->
  match advance_waypoint p with
  | Ok (next, _) =>
      exists body rest d ty q,
        payload (E := string) p = Ok (body ++ waypoint_trailer rest d ty) /\
        (length rest <= 3)%nat /\ ty <> packet_type_code Waypoint /\
        next = hd d rest /\
        travel (S (length rest)) p = Ok (rest ++ [d], q) /\
        payload (E := string) q = Ok body /\
        peer_manager_header q = Some (PH.with_packet_type (PH.with_to_peer_id h d) ty)
  | Err e => e = trailer_error
  | Panic => False
  end.
Proof.
  intros Hok Hlen Hh Hty. pose proof (header_layout p h Hok Hh) as Hl.
  set (pre := take _ _) in Hl. set (bytes := drop _ _) in Hl.
  pose proof (read_trailer_inv bytes) as Hr. unfold bytes in Hr at 1. specialize (Hr ltac:(auto with lt)).
  pose proof (layout_payload (E := string) _ _ _ _ Hl) as Hp.
  assert (h = waypoint_header h (PH.to_peer_id h)) as Hw
    by (destruct h; unfold waypoint_header; cbn in *; by rewrite <-Hty).
  assert (PH.wf h) as Hwf by apply Hl.
  destruct (read_trailer bytes) as [[[n ty] d]|e|] eqn:Et; [|by unfold advance_waypoint; rewrite Hp; cbn; rewrite Et; cbn|done].
  destruct Hr as (Hd & Hb & Hnw & body & rest & Hbytes & Hn & Hn4 & Hu).
  assert (exists q, travel (S (length rest)) p = Ok (rest ++ [d], q) /\
    layout q pre (PH.with_packet_type (PH.with_to_peer_id h d) ty) body) as (q & Hq & Hlq).
  { eexists. split.
    - apply (travel_waypoints rest p pre h (PH.to_peer_id h)); rewrite <-?Hw, <-?Hbytes; try done. lia.
    - destruct Hl as [_ Hpre _]. split; [done|done|]. destruct Hwf as (?&?&?&?&?&?&?).
      unfold PH.wf; cbn. split_and!; done. }
  pose proof Hq as Hq2. rewrite travel_S in Hq2. apply bind_Ok in Hq2 as ([next p1] & -> & Hq2).
  apply bind_Ok in Hq2 as ([vs p2] & _ & Hq2). injection Hq2 as Hv _.
  exists body, rest, d, ty, q. split_and!; try done; [by rewrite Hp, Hbytes|lia|by destruct rest; injection Hv| |].
  - exact (layout_payload _ _ _ _ Hlq).
  - exact (layout_header _ _ _ _ Hlq).
Qed.

Lemma hostile_waypoint_safe_witness :
  match advance_waypoint (with_inner new_nic_packet
          (replicate 18 0 ++ PH.as_bytes (PH.mk 1 9 44 1 1 0 3) ++ [1; 2; 3; 4; 5; 6; 7; 8; 9])) with
  | Ok _ => False
  | Err e => e = trailer_error
  | Panic => False
  end.
Proof.
  pose proof (hostile_waypoint_safe (with_inner new_nic_packet
    (replicate 18 0 ++ PH.as_bytes (PH.mk 1 9 44 1 1 0 3) ++ [1; 2; 3; 4; 5; 6; 7; 8; 9]))
    (PH.mk 1 9 44 1 1 0 3)) as H.
  destruct (advance_waypoint _) as [x|e|] eqn:E; [vm_compute in E; discriminate E| |].
  - apply H; [apply (bool_decide_unpack _); vm_compute; exact I|vm_compute; reflexivity..].
  - apply H; [apply (bool_decide_unpack _); vm_compute; exact I|vm_compute; reflexivity..].
Defined.

(** ** Authentication marks *)
Inductive auth_op : Type :=
| SetPeerId (peer_id : Z)
| SetIdentityType (ty : PeerIdentityType)
| SetSecureAuthLevel (l : SecureAuthLevel)
| SetSessionId (session_id : Z)
| SetVerifiedOrigin (peer_id : Z) (ty : PeerIdentityType) (l : SecureAuthLevel) (session_id : Z).

Definition auth_step (p : t) (o : auth_op) : t * bool :=
  match o with
  | SetPeerId peer_id => set_authenticated_peer_id p peer_id
  | SetIdentityType ty => set_authenticated_peer_identity_type p ty
  | SetSecureAuthLevel l => set_authenticated_peer_secure_auth_level p l
  | SetSessionId session_id => set_authenticated_session_id p session_id
  | SetVerifiedOrigin peer_id ty l session_id => set_verified_origin p peer_id ty l session_id
  end.

(** the mark asked for is the mark the packet has *)
Definition auth_holds (p : t) (o : auth_op) : Prop :=
  match o with
  | SetPeerId peer_id => peer_id <> 0 /\ authenticated_peer_id p = Some peer_id
  | SetIdentityType ty => authenticated_peer_identity_type p = Some ty
  | SetSecureAuthLevel l => authenticated_peer_secure_auth_level p = Some l
  | SetSessionId session_id => authenticated_session_id p = Some session_id
  | SetVerifiedOrigin peer_id ty l session_id =>
      peer_id <> 0 /\ verified_origin_peer_id p = Some peer_id /\
      verified_origin_peer_identity_type p = Some ty /\
      verified_origin_peer_secure_auth_level p = Some l /\
      verified_origin_session_id p = Some session_id
  end.

(** the four marks of the verified origin are set together or not at all *)
Definition origin_consistent (p : t) : Prop :=
  match verified_origin_peer_id p, verified_origin_peer_identity_type p,
        verified_origin_peer_secure_auth_level p, verified_origin_session_id p with
  | None, None, None, None | Some _, Some _, Some _, Some _ => True
  | _, _, _, _ => False
  end.

Lemma set_once_spec {A} `{EqDecision A} (c : option A) (v : A) :
  ((set_once c v).2 = true <-> (set_once c v).1 = Some v) /\
  (forall w, c = Some w -> (set_once c v).1 = Some w).
Proof. destruct c; cbn; rewrite ?bool_decide_eq_true; naive_solver. Qed.

Lemma auth_step_spec p o :
  origin_consistent p ->
  let '(q, ok) := auth_step p o in
  (ok = true <-> auth_holds q o) /\ origin_consistent q /\
  inner q = inner p /\
  (forall o', auth_holds p o' -> auth_holds q o').
Proof.
  intros Hc. destruct (auth_step p o) as [q ok] eqn:E.
  destruct p as [? ? ? ? ? ? ? pid pty plv pse oid oty olv ose ? ? ? ? ? ? ?].
  unfold auth_step, set_authenticated_peer_id, set_authenticated_peer_identity_type,
    set_authenticated_peer_secure_auth_level, set_authenticated_session_id, set_verified_origin in E.
  destruct o as [i|y|l|s|i y l s]; cbn in E.
  - destruct (Z.eqb_spec i 0); [injection E as <- <-; split_and!; cbn; naive_solver|].
    pose proof (set_once_spec pid i) as [H1 H2]. destruct (set_once pid i) as [v b].
    injection E as <- <-. cbn in *. split_and!; try done; [naive_solver|intros []; cbn; naive_solver].
  - pose proof (set_once_spec pty y) as [H1 H2]. destruct (set_once pty y) as [v b].
    injection E as <- <-. cbn in *. split_and!; try done. intros []; cbn; naive_solver.
  - pose proof (set_once_spec plv l) as [H1 H2]. destruct (set_once plv l) as [v b].
    injection E as <- <-. cbn in *. split_and!; try done. intros []; cbn; naive_solver.
  - pose proof (set_once_spec pse s) as [H1 H2]. destruct (set_once pse s) as [v b].
    injection E as <- <-. cbn in *. split_and!; try done. intros []; cbn; naive_solver.
  - destruct (Z.eqb_spec i 0); [injection E as <- <-; split_and!; cbn; naive_solver|].
    destruct oid, oty, olv, ose; cbn in Hc; try done; injection E as <- <-.
    + rewrite !andb_true_iff, !bool_decide_eq_true. split_and!; cbn; try done. naive_solver.
    + split_and!; cbn; try done. intros []; cbn; naive_solver.
Qed.

Definition auth_run (p : t) (ops : list auth_op) : t :=
  fold_left (fun p o => (auth_step p o).1) ops p.

Lemma auth_run_spec ops : forall p, origin_consistent p ->
  origin_consistent (auth_run p ops) /\ inner (auth_run p ops) = inner p /\
  (forall o, auth_holds p o -> auth_holds (auth_run p ops) o).
Proof.
  induction ops as [|o ops IH]; intros p Hc; [done|]. unfold auth_run. cbn [fold_left].
  pose proof (auth_step_spec p o Hc) as Hs. destruct (auth_step p o) as [q ok].
  destruct Hs as (_ & Hc' & Hi & Hh). destruct (IH q Hc') as (H1 & H2 & H3). cbn [fst].
  split_and!; [done|by rewrite <-Hi|auto].
Qed.

(** authentication marks are write-once.  After any sequence of mark
    setters the packet bytes are unchanged and every mark that held before
    still holds; a setter reports success exactly when the packet then carries
    the requested mark; and the logical identity is never mixed: its four parts
    are all the verified origin's, all present, or all the previous hop's. *)
Theorem authentication_marks_write_once (p : t) (ops : list auth_op) (o : auth_op) :
  origin_consistent p ->
  let q := auth_run p ops in
  inner q = inner p /\ (forall o', auth_holds p o' -> auth_holds q o') /\
  ((auth_step q o).2 = true <-> auth_holds (auth_step q o).1 o) /\
  let logical := (logical_authenticated_peer_id q, logical_authenticated_peer_identity_type q,
                  logical_authenticated_peer_secure_auth_level q, logical_authenticated_session_id q) in
  ((exists i y l s, logical = (Some i, Some y, Some l, Some s) /\
      (verified_origin_peer_id q, verified_origin_peer_identity_type q,
       verified_origin_peer_secure_auth_level q, verified_origin_session_id q) = logical) \/
   logical = (authenticated_peer_id q, authenticated_peer_identity_type q,
              authenticated_peer_secure_auth_level q, authenticated_session_id q)).
Proof.
  intros Hc q. destruct (auth_run_spec ops p Hc) as (Hq & Hi & Hh). fold q in Hq, Hi, Hh.
  pose proof (auth_step_spec q o Hq) as Hs. destruct (auth_step q o) as [q' ok]. cbn [fst snd].
  split_and!; [done|done|by destruct Hs|].
  unfold logical_authenticated_peer_id, logical_authenticated_peer_identity_type,
    logical_authenticated_peer_secure_auth_level, logical_authenticated_session_id, logical.
  unfold origin_consistent in Hq.
  destruct (verified_origin_peer_id q), (verified_origin_peer_identity_type q),
    (verified_origin_peer_secure_auth_level q), (verified_origin_session_id q); try done; cbn.
  - left. by eexists _, _, _, _.
  - by right.
Qed.

Lemma authentication_marks_write_once_witness :
  let q := auth_run sample_packet [SetPeerId 4; SetPeerId 5; SetSessionId 8] in
  inner q = inner sample_packet /\ authenticated_peer_id q = Some 4 /\
  (auth_step q (SetPeerId 5)).2 = false /\ authenticated_session_id q = Some 8.
Proof.
  intros q. split; [apply (authentication_marks_write_once sample_packet
    [SetPeerId 4; SetPeerId 5; SetSessionId 8] (SetPeerId 5)); exact I|]. done.
Defined.

End PacketProps.
