(* ===== verification/MemoryGovernor.v ===== *)
(** * The process memory governor (src/lowertier/src/common/global_ctx.rs)

    One counter of retained bytes shared by every connection of the process.
    A reservation is a permit that owns its bytes until it is dropped.  Each
    operation on the counter is one atomic update, so a concurrent run is a
    sequence of the operations below. *)
From stdpp Require Import base list gmap numbers.
From Stdlib Require Import ZArith Lia.
From S2P Require Import Prelude.

Local Open Scope Z_scope.

Module MemoryGovernor.

Definition MIN_PROCESS_MEMORY_BYTES : Z := 64 * 1024 * 1024.
Definition MAX_PROCESS_MEMORY_BYTES : Z := 1024 * 1024 * 1024.
Definition NETWORK_EXTENSION_MEMORY_BYTES : Z := 16 * 1024 * 1024.

Definition clamp (z lo hi : Z) : Z := Z.min hi (Z.max lo z).

Definition process_memory_limit (physical_bytes : Z) (override_bytes : option Z)
    (network_extension : bool) : Z :=
  let default := clamp (physical_bytes / 16) MIN_PROCESS_MEMORY_BYTES MAX_PROCESS_MEMORY_BYTES in
  let limit := Z.min (match override_bytes with Some b => b | None => default end) (u_max 64) in
  if network_extension then Z.min limit NETWORK_EXTENSION_MEMORY_BYTES else limit.

Record t : Type := mk {
  limit : Z;
  explicit_limit : option Z;
  retained : Z;
  refused : Z;
}.

Definition with_limit (limit : Z) : t := mk limit None 0 0.
Definition with_retained (g : t) (r : Z) : t := mk (limit g) (explicit_limit g) r (refused g).

(** The strictest explicit limit wins until the process restarts. *)
Definition configure (network_extension : bool) (g : t) (override_bytes : option Z) : t :=
  match override_bytes with
  | None => g
  | Some bytes =>
      let limit := process_memory_limit 0 (Some bytes) network_extension in
      let limit := match explicit_limit g with Some previous => Z.min previous limit | None => limit end in
      mk limit (Some limit) (retained g) (refused g)
  end.

Definition record_connection_refusal (g : t) : t :=
  mk (limit g) (explicit_limit g) (retained g) (wrap 64 (refused g + 1)).

(** [try_update] of the counter; the answer says whether it succeeded *)
Definition reserve_with_headroom (g : t) (bytes headroom : Z) : t * bool :=
  match checked_add 64 (retained g) bytes with
  | Some total =>
      if total <=? saturating_sub (limit g) headroom then (with_retained g total, true) else (g, false)
  | None => (g, false)
  end.
Definition reserve (g : t) (bytes : Z) : t * bool := reserve_with_headroom g bytes 0.

(** the bytes a permit owns *)
Abbreviation permit := Z (only parsing).

Definition try_reserve_connection (g : t) (bytes : Z) : t * option permit :=
  let '(g, ok) := reserve_with_headroom g bytes (limit g / 4) in
  (g, if ok then Some bytes else None).
Definition try_reserve_owned (g : t) (bytes : Z) : t * option permit :=
  let '(g, ok) := reserve g bytes in (g, if ok then Some bytes else None).

(** An underflow leaves the counter alone (release builds only log it). *)
Definition release (g : t) (bytes : Z) : t :=
  if bytes <=? retained g then with_retained g (retained g - bytes) else g.

Definition try_extend (g : t) (p : permit) (bytes : Z) : t * permit * bool :=
  match checked_add 64 p bytes with
  | None => (g, p, false)
  | Some total =>
      let '(g, ok) := reserve g bytes in
      if ok then (g, total, true) else (g, p, false)
  end.

(** ** Properties *)
Lemma reserve_with_headroom_spec g bytes headroom :
  let '(g', ok) := reserve_with_headroom g bytes headroom in
  limit g' = limit g /\ explicit_limit g' = explicit_limit g /\ refused g' = refused g /\
  (if ok then retained g' = retained g + bytes /\ retained g' <= saturating_sub (limit g) headroom
   else g' = g).
Proof.
  unfold reserve_with_headroom. destruct (checked_add _ _ _) eqn:E; [|done].
  apply checked_add_Some in E as [-> ?]. destruct (_ <=? _) eqn:L; [|done]. bool_to_Z. done.
Qed.

Lemma reserve_spec g bytes :
  let '(g', ok) := reserve g bytes in
  limit g' = limit g /\
  (if ok then retained g' = retained g + bytes /\ retained g' <= Z.max 0 (limit g) else g' = g).
Proof.
  unfold reserve. pose proof (reserve_with_headroom_spec g bytes 0) as H.
  destruct (reserve_with_headroom g bytes 0) as [g' []]; destruct H as (? & _ & _ & H); [|done].
  unfold saturating_sub in H. split; [done|]. rewrite Z.sub_0_r in H. done.
Qed.

(** A reservation that fits is granted. *)
Lemma reserve_granted g bytes :
  0 <= bytes -> 0 <= retained g -> retained g + bytes <= limit g -> limit g < 2 ^ 64 ->
  reserve g bytes = (with_retained g (retained g + bytes), true).
Proof.
  intros. unfold reserve, reserve_with_headroom. rewrite checked_add_small by lia.
  unfold saturating_sub. rewrite (proj2 (Z.leb_le _ _)) by lia. done.
Qed.

Lemma release_spec g bytes :
  bytes <= retained g -> release g bytes = with_retained g (retained g - bytes).
Proof. intros. unfold release. by rewrite (proj2 (Z.leb_le _ _)). Qed.

(** ** Permits over a whole run

    Every live permit of the process with the bytes it owns, keyed by owner. *)
Inductive op : Type :=
| OReserve (owner : Z) (bytes : Z)
| OConnection (owner : Z) (bytes : Z)
| OExtend (owner : Z) (bytes : Z)
| ODrop (owner : Z)
| OConfigure (bytes : option Z).

Definition state : Type := t * gmap Z permit.

Definition add_permit (s : state) (owner : Z) (r : t * option permit) : state :=
  match r with (g, Some p) => (g, <[owner := p]> s.2) | (g, None) => (g, s.2) end.

(** [OReserve] and [OConnection] are issued for a fresh owner only: a permit
    is created by the call and cannot be overwritten. *)
Definition step (network_extension : bool) (s : state) (o : op) : state :=
  match o with
  | OReserve owner bytes =>
      match s.2 !! owner with Some _ => s | None => add_permit s owner (try_reserve_owned s.1 bytes) end
  | OConnection owner bytes =>
      match s.2 !! owner with Some _ => s | None => add_permit s owner (try_reserve_connection s.1 bytes) end
  | OExtend owner bytes =>
      match s.2 !! owner with
      | Some p => let '(g, p, _) := try_extend s.1 p bytes in (g, <[owner := p]> s.2)
      | None => s
      end
  | ODrop owner =>
      match s.2 !! owner with
      | Some p => (release s.1 p, delete owner s.2)
      | None => s
      end
  | OConfigure bytes => (configure network_extension s.1 bytes, s.2)
  end.

Definition op_ok (o : op) : Prop :=
  match o with
  | OReserve _ bytes | OConnection _ bytes | OExtend _ bytes => is_u 64 bytes
  | ODrop _ => True
  | OConfigure bytes => match bytes with Some b => is_u 64 b | None => True end
  end.

Definition total (m : gmap Z permit) : Z := map_fold (fun _ p acc => p + acc) 0 m.

Lemma total_insert m i p : m !! i = None -> total (<[i := p]> m) = p + total m.
Proof. intros. unfold total. apply map_fold_insert_L; [intros; lia|done]. Qed.

Lemma total_delete m i p : m !! i = Some p -> total m = p + total (delete i m).
Proof.
  intros H. rewrite <-(insert_delete_id m i p H) at 1. apply total_insert, lookup_delete_eq.
Qed.

Lemma total_update m i p q : m !! i = Some p -> total (<[i := q]> m) = total m - p + q.
Proof.
  intros H. pose proof (total_delete m i p H) as Hd.
  assert (total (<[i := q]> (delete i m)) = q + total (delete i m)) as Hq
    by apply total_insert, lookup_delete_eq.
  rewrite insert_delete_eq in Hq. lia.
Qed.

Lemma total_nonneg m : map_Forall (fun _ p => 0 <= p) m -> 0 <= total m.
Proof.
  unfold total. induction m as [|i x m Hi IH] using map_ind; [done|].
  intros H. rewrite map_Forall_insert in H by done. destruct H as [Hx0 Hm0].
  rewrite map_fold_insert_L; [|intros; lia|done]. specialize (IH Hm0). lia.
Qed.

Lemma total_ge m i p : map_Forall (fun _ q => 0 <= q) m -> m !! i = Some p -> p <= total m.
Proof.
  intros Hm H. rewrite (total_delete m i p H).
  pose proof (total_nonneg (delete i m) (map_Forall_delete _ _ _ Hm)). lia.
Qed.

(** the counter is the sum of the live permits *)
Record inv (s : state) : Prop := {
  inv_total : retained s.1 = total s.2;
  inv_nonneg : map_Forall (fun _ p => 0 <= p) s.2;
}.

Lemma add_permit_inv s owner g bytes (r : option permit) :
  inv s -> s.2 !! owner = None -> 0 <= bytes ->
  match r with Some p => p = bytes /\ retained g = retained s.1 + bytes | None => g = s.1 end ->
  inv (add_permit s owner (g, r)).
Proof.
  intros [Ht Hn] Ho Hb Hr. destruct r as [p|]; cbn; [destruct Hr as [-> Hr]|subst g; by split].
  split; cbn; [rewrite total_insert by done; lia|]. by apply map_Forall_insert_2.
Qed.

Lemma step_inv ne s o : inv s -> op_ok o -> inv (step ne s o).
Proof.
  intros Hi Ho. pose proof Hi as [Ht Hn]. destruct o as [w b|w b|w b|w|b]; cbn in Ho |- *.
  - destruct (s.2 !! w) eqn:E; [done|]. unfold try_reserve_owned.
    pose proof (reserve_spec s.1 b) as H. destruct (reserve s.1 b) as [g []];
      apply (add_permit_inv s w g b); try done; [apply Ho|by destruct H as [_ [? _]]|apply Ho|by destruct H].
  - destruct (s.2 !! w) eqn:E; [done|]. unfold try_reserve_connection.
    pose proof (reserve_with_headroom_spec s.1 b (limit s.1 / 4)) as H.
    destruct (reserve_with_headroom _ _ _) as [g []]; destruct H as (_ & _ & _ & H);
      apply (add_permit_inv s w g b); try done; [apply Ho|by destruct H|apply Ho].
  - destruct (s.2 !! w) as [p|] eqn:E; [|done]. unfold try_extend.
    pose proof (Hn w p E) as Hp. cbn in Hp.
    destruct (checked_add 64 p b) as [c|] eqn:Ec.
    2: { split; cbn; [|by apply map_Forall_insert_2]. rewrite (total_update _ _ p) by done. lia. }
    apply checked_add_Some in Ec as [-> _].
    pose proof (reserve_spec s.1 b) as H. destruct (reserve s.1 b) as [g []]; destruct H as [_ H].
    + split; cbn; [rewrite (total_update _ _ p) by done; lia|].
      apply map_Forall_insert_2; [destruct Ho; lia|done].
    + subst g. split; cbn; [|by apply map_Forall_insert_2]. rewrite (total_update _ _ p) by done. lia.
  - destruct (s.2 !! w) as [p|] eqn:E; [|done].
    pose proof (total_ge _ _ _ Hn E). rewrite release_spec by lia.
    split; cbn; [rewrite (total_delete _ _ _ E) in Ht; lia|by apply map_Forall_delete].
  - destruct b; [|done]. by split.
Qed.

Definition run (ne : bool) (s : state) (ops : list op) : state := fold_left (step ne) ops s.

Lemma run_inv ne ops : forall s, inv s -> Forall op_ok ops -> inv (run ne s ops).
Proof.
  induction ops as [|o ops IH]; intros s Hs Ho; [done|]. apply Forall_cons_iff in Ho as [? ?].
  apply IH; [by apply step_inv|done].
Qed.

(** No operation raises the counter above the limit in force; a new
    connection leaves a quarter of the limit free. *)
Lemma step_bound ne s o :
  inv s -> op_ok o -> 0 <= limit s.1 ->
  retained (step ne s o).1 <= Z.max (retained s.1) (limit s.1).
Proof.
  intros [Ht Hn] Ho Hl. destruct o as [w b|w b|w b|w|b]; cbn in Ho |- *.
  - destruct (s.2 !! w); [cbn; lia|]. unfold try_reserve_owned.
    pose proof (reserve_spec s.1 b) as H. destruct (reserve s.1 b) as [g []]; cbn;
      destruct H as [? H]; [lia|subst; lia].
  - destruct (s.2 !! w); [cbn; lia|]. unfold try_reserve_connection.
    pose proof (reserve_with_headroom_spec s.1 b (limit s.1 / 4)) as H.
    pose proof (Z.div_pos (limit s.1) 4 Hl ltac:(lia)).
    destruct (reserve_with_headroom _ _ _) as [g []]; cbn; destruct H as (_ & _ & _ & H);
      [unfold saturating_sub in H; lia|subst; lia].
  - destruct (s.2 !! w) as [p|] eqn:E; [|cbn; lia]. unfold try_extend.
    destruct (checked_add 64 p b); [|cbn; lia].
    pose proof (reserve_spec s.1 b) as H. destruct (reserve s.1 b) as [g []]; cbn;
      destruct H as [? H]; [lia|subst; lia].
  - destruct (s.2 !! w) as [p|] eqn:E; [|cbn; lia]. pose proof (Hn w p E) as Hp. cbn in Hp.
    cbn. unfold release. destruct (_ <=? _); cbn; lia.
  - destruct b; cbn; lia.
Qed.

(** without an explicit override the limit is constant *)
Definition is_configure (o : op) : bool := match o with OConfigure (Some _) => true | _ => false end.

Lemma step_limit ne s o : is_configure o = false -> limit (step ne s o).1 = limit s.1.
Proof.
  destruct o as [w b|w b|w b|w|[b|]]; cbn; intros Hc; try done; destruct (s.2 !! w); try done.
  - unfold try_reserve_owned. pose proof (reserve_spec s.1 b) as H. by destruct (reserve s.1 b) as [g []], H.
  - unfold try_reserve_connection. pose proof (reserve_with_headroom_spec s.1 b (limit s.1 / 4)) as H.
    by destruct (reserve_with_headroom _ _ _) as [g []], H.
  - unfold try_extend. destruct (checked_add _ _ _); [|done].
    pose proof (reserve_spec s.1 b) as H. by destruct (reserve s.1 b) as [g []], H.
  - unfold release. by destruct (_ <=? _).
Qed.

(** Memory accounting.  After any sequence of reservations, connection
    admissions, permit extensions, drops and reconfigurations, in any
    interleaving of their owners, the retained counter is exactly the sum of
    the bytes of the live permits, so no release underflows; and as long as no
    override changes the limit the retained bytes never exceed it. *)
Theorem governor_accounting (ne : bool) (L : Z) (ops : list op) :
  is_u 64 L -> Forall op_ok ops ->
  let s := run ne (with_limit L, ∅) ops in
  retained s.1 = total s.2 /\ map_Forall (fun _ p => 0 <= p <= retained s.1) s.2 /\
  (Forall (fun o => is_configure o = false) ops -> retained s.1 <= L).
Proof.
  intros HL Hops s. assert (inv (with_limit L, ∅)) as H0 by (split; [done|apply map_Forall_empty]).
  pose proof (run_inv ne ops _ H0 Hops) as Hi. fold s in Hi. pose proof Hi as [Ht Hn].
  split_and!; [done| |].
  - intros i p Hp. pose proof (Hn i p Hp). pose proof (total_ge _ _ _ Hn Hp). rewrite Ht. done.
  - intros Hc. subst s. clear Hi Ht Hn.
    assert (limit (with_limit L, (∅ : gmap Z Z)).1 = L /\ retained (with_limit L, (∅ : gmap Z Z)).1 <= L) as [HlL Hr]
      by (destruct HL; done).
    revert H0 HlL Hr. generalize (with_limit L, (∅ : gmap Z Z)).
    induction ops as [|o ops IH]; intros s H0 HlL Hr; [done|].
    apply Forall_cons_iff in Hops as [Ho Hops]. apply Forall_cons_iff in Hc as [Hco Hc].
    apply (IH Hops Hc (step ne s o)); [by apply step_inv|by rewrite step_limit|].
    pose proof (step_bound ne s o H0 Ho). destruct HL. lia.
Qed.

Lemma governor_accounting_witness :
  let s := run false (with_limit 100, ∅)
             [OReserve 1 60; OReserve 2 60; OExtend 1 30; OConnection 3 5; ODrop 1; OConnection 3 75] in
  retained s.1 = total s.2 /\ retained s.1 = 75 /\ retained s.1 <= 100.
Proof.
  intros s. destruct (governor_accounting false 100
    [OReserve 1 60; OReserve 2 60; OExtend 1 30; OConnection 3 5; ODrop 1; OConnection 3 75]) as (H1 & _ & H3).
  - done.
  - forall_list; vm_compute; done.
  - split; [exact H1|]. split; [vm_compute; reflexivity|]. apply H3. forall_list.
Defined.

End MemoryGovernor.
