(* ===== verification/QuicDatagram.v ===== *)
(** * QUIC DATAGRAM framing (src/lowertier/src/tunnel/quic.rs)

    The HTTP/3 DATAGRAM prefix (quarter stream id and context id as QUIC
    variable-length integers), whole-packet datagrams, and the split of an
    oversized packet into numbered fragments. *)
From stdpp Require Import base list gmap numbers strings.
From Stdlib Require Import ZArith Lia.
From S2P Require Import Prelude PacketHeader Packet PacketProps.

Local Open Scope Z_scope.

Module QuicDatagram.
Import ZCPacket.

Definition DATAGRAM_CONTEXT_WHOLE : Z := 0.
Definition DATAGRAM_CONTEXT_FRAGMENT : Z := 1.
Definition DATAGRAM_FRAGMENT_HEADER_LEN : nat := 6.

(** ** Delivery lane *)
Inductive QuicDelivery : Type := PlainDatagram | ReliableStream.
Definition select_quic_delivery (p : t) : QuicDelivery :=
  let critical_l2 := match peer_manager_header p with
                     | Some header => PH.is_critical_l2_control header | None => false end in
  if is_lossy p && negb critical_l2 then PlainDatagram else ReliableStream.

(** ** Variable-length integers *)
Definition put_quic_varint_at {E} (buffer : list Z) (offset : nat) (value : Z)
    : outcome E (list Z * nat) :=
  if value <=? 63 then
    b ← copy_from_slice buffer offset (offset + 1) [wrap 8 value]; Ok (b, 1%nat)
  else if value <=? 16383 then
    let encoded := Z.lor (wrap 16 value) 0x4000 in
    b ← copy_from_slice buffer offset (offset + 2) (to_be 2 encoded); Ok (b, 2%nat)
  else if value <=? 1073741823 then
    let encoded := Z.lor (wrap 32 value) 0x80000000 in
    b ← copy_from_slice buffer offset (offset + 4) (to_be 4 encoded); Ok (b, 4%nat)
  else
    let encoded := Z.lor value 0xc000000000000000 in
    b ← copy_from_slice buffer offset (offset + 8) (to_be 8 encoded); Ok (b, 8%nat).

Definition put_quic_varint {E} (buffer : list Z) (value : Z) : outcome E (list Z) :=
  '(scratch, length) ← put_quic_varint_at (E := E) (replicate 8 0) 0 value;
  Ok (buffer ++ take length scratch).

Definition decode_quic_varint (buffer : list Z) : option (Z * nat) :=
  match buffer with
  | [] => None
  | first :: _ =>
      let length := Z.to_nat (Z.shiftl 1 (Z.shiftr first 6)) in
      if bool_decide (List.length buffer < length)%nat then None
      else Some (of_be (Z.land first 0x3f :: take (length - 1) (drop 1 buffer)), length)
  end.

Definition connect_ip_datagram_overhead (stream_id : Z) : nat :=
  let quarter_stream_id := stream_id / 4 in
  let quarter_length :=
    if quarter_stream_id <=? 63 then 1%nat
    else if quarter_stream_id <=? 16383 then 2%nat
    else if quarter_stream_id <=? 1073741823 then 4%nat else 8%nat in
  (quarter_length + 1)%nat.

(** ** Encoding *)
Definition encode_quic_datagram_prefix {E} (stream_id context_id : Z) : outcome E (list Z * nat) :=
  let prefix := replicate (Z.to_nat NIC_TUNNEL_HEADROOM) 0 in
  '(prefix, length) ← put_quic_varint_at (E := E) prefix 0 (stream_id / 4);
  '(prefix, n) ← put_quic_varint_at prefix length context_id;
  Ok (prefix, (length + n)%nat).

Definition encode_quic_datagram {E} (p : t) (stream_id : Z) : outcome E (list Z) :=
  '(prefix, length) ← encode_quic_datagram_prefix (E := E) stream_id DATAGRAM_CONTEXT_WHOLE;
  tunnel_payload_with_prefix_into_bytes p (take length prefix).

(** [l.chunks(n)] *)
Fixpoint chunks_loop (fuel n : nat) (l : list Z) : list (list Z) :=
  match fuel, l with
  | S fuel, _ :: _ => take n l :: chunks_loop fuel n (drop n l)
  | _, _ => []
  end.
Definition chunks (n : nat) (l : list Z) : list (list Z) := chunks_loop (length l) n l.

(** the fragment datagram of chunk [index] of [total] *)
Definition fragment_datagram (prefix : list Z) (id : Z) (total : nat) (index : nat) (part : list Z)
    : list Z :=
  prefix ++ to_le 4 id ++ [wrap 8 (Z.of_nat index); wrap 8 (Z.of_nat total)] ++ part.

(** The datagrams queued for a packet, and the next fragment id. *)
Definition encode_lossy_quic_datagrams {E} (p : t) (stream_id : Z) (max_size : option nat)
    (fragment_id : Z) : outcome E (list (list Z) * Z) :=
  whole ← encode_quic_datagram (E := E) p stream_id;
  match max_size with
  | None => Ok ([whole], fragment_id)
  | Some max_size =>
      if bool_decide (length whole <= max_size)%nat then Ok ([whole], fragment_id)
      else
        payload ← unwrap (get_from whole (connect_ip_datagram_overhead stream_id));
        '(frag_prefix, frag_prefix_len) ←
          encode_quic_datagram_prefix (E := E) stream_id DATAGRAM_CONTEXT_FRAGMENT;
        let chunk := (max_size - (frag_prefix_len + DATAGRAM_FRAGMENT_HEADER_LEN))%nat in
        if bool_decide (chunk = 0)%nat then Ok ([], fragment_id)
        else
          let total := Z.to_nat (div_ceil (len payload) (Z.of_nat chunk)) in
          if bool_decide (total = 0 \/ 255 < total)%nat then Ok ([], fragment_id)
          else Ok (imap (fragment_datagram (take frag_prefix_len frag_prefix) fragment_id total)
                     (chunks chunk payload),
                   wrap 32 (fragment_id + 1))
  end.

(** ** Decoding *)
Inductive tunnel_error : Type :=
| NoQuarterStreamId | NoContextId | UnexpectedRequest | TooShort (have : Z)
| FragmentTooShort | UnexpectedContext.

Inductive DecodedDatagram : Type :=
| Whole (p : t)
| Fragment (id index count : Z) (payload : list Z).

Definition datagram_packet_group (bytes : list Z) : option Z :=
  '(_, quarter_length) ← decode_quic_varint bytes;
  '(context, context_length) ← decode_quic_varint (drop quarter_length bytes);
  if negb (context =? DATAGRAM_CONTEXT_FRAGMENT) then None
  else
    body ← get_from bytes (quarter_length + context_length);
    of_le <$> get_range body 0 4.

Definition packet_from_tunnel_payload (bytes : list Z) (header_length : nat) : outcome tunnel_error t :=
  let have := saturating_sub (len bytes) (Z.of_nat header_length) in
  if have <? Z.of_nat PEER_MANAGER_HEADER_SIZE then Err (TooShort have)
  else new_from_buf_with_prefix bytes header_length DummyTunnel.

Definition decode_quic_datagram_parts (bytes : list Z) (stream_id : Z)
    : outcome tunnel_error DecodedDatagram :=
  '(quarter_stream_id, quarter_length) ← ok_or (decode_quic_varint bytes) NoQuarterStreamId;
  rest ← unwrap (get_from bytes quarter_length);
  '(context_id, context_length) ← ok_or (decode_quic_varint rest) NoContextId;
  if negb (quarter_stream_id =? stream_id / 4) then Err UnexpectedRequest
  else
    let header_length := (quarter_length + context_length)%nat in
    if context_id =? DATAGRAM_CONTEXT_WHOLE then
      p ← packet_from_tunnel_payload bytes header_length; Ok (Whole p)
    else if context_id =? DATAGRAM_CONTEXT_FRAGMENT then
      let body := match get_from bytes header_length with Some b => b | None => [] end in
      if bool_decide (length body < DATAGRAM_FRAGMENT_HEADER_LEN)%nat then Err FragmentTooShort
      else
        id ← unwrap (of_le <$> get_range body 0 4);
        index ← unwrap (body !! 4%nat);
        count ← unwrap (body !! 5%nat);
        payload ← unwrap (get_from bytes (header_length + DATAGRAM_FRAGMENT_HEADER_LEN));
        Ok (Fragment id index count payload)
    else Err UnexpectedContext.

(** ** Round trips *)

(** the encoding of [v]: a two-bit length tag above the value *)
Definition varint (v : Z) : list Z :=
  if v <=? 63 then to_be 1 v
  else if v <=? 16383 then to_be 2 (v + 1 * 2 ^ 14)
  else if v <=? 1073741823 then to_be 4 (v + 2 * 2 ^ 30)
  else to_be 8 (v + 3 * 2 ^ 62).

Lemma decode_tagged n t v rest :
  0 <= v < 64 * 256 ^ Z.of_nat n -> 0 <= t < 4 -> Z.shiftl 1 t = Z.of_nat (S n) ->
  decode_quic_varint (to_be (S n) (v + t * (64 * 256 ^ Z.of_nat n)) ++ rest) = Some (v, S n).
Proof.
  intros Hv Ht Hs. set (P := 256 ^ Z.of_nat n) in *.
  assert (0 < P) as HP by (unfold P; apply Z.pow_pos_nonneg; lia).
  assert (0 <= v / P < 64) as Hq
    by (split; [apply Z.div_pos; lia|apply Z.div_lt_upper_bound; lia]).
  rewrite to_be_cons. fold P.
  replace (v + t * (64 * P)) with (v + (t * 64) * P) by lia.
  rewrite Z.div_add by lia. rewrite (Z.mod_small (v / P + t * 64)) by lia.
  unfold P at 2. rewrite to_be_add. cbn [app decode_quic_varint].
  assert (Z.shiftr (v / P + t * 64) 6 = t) as ->.
  { rewrite Z.shiftr_div_pow2 by lia. change (2 ^ 6) with 64. rewrite Z.div_add by lia.
    rewrite Z.div_small by lia. lia. }
  rewrite Hs, Nat2Z.id. cbn [length]. rewrite length_app, length_to_be.
  rewrite bool_decide_false by lia. do 2 f_equal.
  rewrite skipn_cons, drop_0. replace (S n - 1)%nat with n by lia. rewrite take_app_length' by (by rewrite length_to_be).
  change 0x3f with (Z.ones 6). rewrite Z.land_ones by lia. change (2 ^ 6) with 64.
  rewrite Z.mod_add, Z.mod_small by lia.
  transitivity (of_be (to_be (S n) v)).
  - rewrite to_be_cons. fold P. by rewrite (Z.mod_small (v / P) 256) by lia.
  - apply of_to_be. rewrite Nat2Z.inj_succ, Z.pow_succ_r by lia. fold P. lia.
Qed.

Lemma decode_varint v rest :
  0 <= v < 2 ^ 62 -> decode_quic_varint (varint v ++ rest) = Some (v, length (varint v)).
Proof.
  intros Hv. unfold varint. repeat case_match; bool_to_Z; rewrite length_to_be.
  - pose proof (decode_tagged 0 0 v rest) as H'. cbn [Z.of_nat] in H'. rewrite Z.mul_0_l, Z.add_0_r in H'.
    apply H'; lia || done.
  - apply (decode_tagged 1 1); [change (64 * 256 ^ Z.of_nat 1) with 16384; lia|lia|done].
  - apply (decode_tagged 3 2); [change (64 * 256 ^ Z.of_nat 3) with 1073741824; lia|lia|done].
  - apply (decode_tagged 7 3); [change (64 * 256 ^ Z.of_nat 7) with (2 ^ 62); lia|lia|done].
Qed.

Lemma put_varint {E} l m r v :
  0 <= v < 2 ^ 62 -> length m = length (varint v) ->
  put_quic_varint_at (E := E) (l ++ m ++ r) (length l) v
  = Ok (l ++ varint v ++ r, length (varint v)).
Proof.
  intros Hv Hm. unfold put_quic_varint_at, varint in *.
  repeat case_match; bool_to_Z; rewrite length_to_be in *.
  - rewrite wrap_small by (unfold is_u; cbn; lia).
    assert (to_be 1 v = [v]) as -> by (cbn; by rewrite Z.mod_small by lia).
    rewrite copy_mid by (cbn; lia). done.
  - rewrite wrap_small by (unfold is_u; cbn; lia).
    replace 0x4000 with (1 * 2 ^ 14) by reflexivity. rewrite lor_add by lia.
    rewrite copy_mid by (rewrite ?length_to_be; lia). done.
  - rewrite wrap_small by (unfold is_u; cbn; lia).
    replace 0x80000000 with (2 * 2 ^ 30) by reflexivity. rewrite lor_add by lia.
    rewrite copy_mid by (rewrite ?length_to_be; lia). done.
  - replace 0xc000000000000000 with (3 * 2 ^ 62) by reflexivity. rewrite lor_add by lia.
    rewrite copy_mid by (rewrite ?length_to_be; lia). done.
Qed.

Lemma length_varint_le v : (1 <= length (varint v) <= 8)%nat.
Proof. unfold varint. repeat case_match; rewrite length_to_be; lia. Qed.

Lemma length_varint_overhead s : connect_ip_datagram_overhead s = (length (varint (s / 4)) + 1)%nat.
Proof. unfold connect_ip_datagram_overhead, varint. repeat case_match; by rewrite length_to_be. Qed.

Lemma length_varint_stream s : s < 65536 -> (length (varint (s / 4)) <= 2)%nat.
Proof.
  intros Hs. assert (s / 4 <= 16383) by (apply Z.lt_succ_r, Z.div_lt_upper_bound; lia).
  unfold varint. repeat case_match; bool_to_Z; rewrite length_to_be; lia.
Qed.

(** the prefix of every datagram of a request stream *)
Definition datagram_prefix (stream_id context_id : Z) : list Z :=
  varint (stream_id / 4) ++ varint context_id.

(** stream ids are 62-bit integers *)
Definition stream_ok (stream_id : Z) : Prop := is_u 62 stream_id.

Lemma quarter_range s : stream_ok s -> 0 <= s / 4 < 2 ^ 62.
Proof.
  intros [H0 H1]. split; [apply Z.div_pos; lia|]. apply Z.div_lt_upper_bound; lia.
Qed.

Lemma encode_prefix {E} s c :
  stream_ok s -> 0 <= c <= 1 ->
  exists l, encode_quic_datagram_prefix (E := E) s c = Ok (l, length (datagram_prefix s c)) /\
    take (length (datagram_prefix s c)) l = datagram_prefix s c.
Proof.
  intros Hs Hc. pose proof (quarter_range s Hs) as Hq.
  pose proof (length_varint_le (s / 4)). unfold datagram_prefix.
  assert (length (varint c) = 1%nat) as Hc1 by (unfold varint; rewrite (proj2 (Z.leb_le _ _)) by lia; done).
  set (k := length (varint (s / 4))) in *.
  exists (varint (s / 4) ++ varint c ++ replicate (17 - k) 0). split.
  - unfold encode_quic_datagram_prefix. change (Z.to_nat NIC_TUNNEL_HEADROOM) with 18%nat.
    replace 18%nat with (k + (1 + (17 - k)))%nat at 1 by lia. rewrite replicate_add.
    pose proof (put_varint (E := E) [] (replicate k 0) (replicate (1 + (17 - k)) 0) (s / 4) Hq) as Hp.
    cbn [app length] in Hp. rewrite Hp by apply length_replicate. cbn [mbind outcome_bind].
    fold k. change (replicate (1 + (17 - k)) 0) with ([0] ++ replicate (17 - k) 0).
    unfold k at 3. rewrite put_varint by (cbn; lia || done). cbn [mbind outcome_bind]. by rewrite length_app.
  - rewrite app_assoc. apply take_app_length.
Qed.

(** the tunnel header that is sent with a prefix that does not fit into it but into removed headroom *)
Definition leaked (p : t) (prefix : list Z) : list Z :=
  match reusable_prefix p with
  | Some headroom => if bool_decide (pm_offset p < length prefix <= length headroom)%nat then take (pm_offset p) (inner p) else []
  | None => []
  end.

(** The bytes on the wire are the prefix and the tunnel payload, but for a header that leaks. *)
Lemma tunnel_payload_with_prefix {E} p prefix body :
  tunnel_payload (E := E) p = Ok body ->
  tunnel_payload_with_prefix_into_bytes (E := E) p prefix = Ok (prefix ++ leaked p prefix ++ body).
Proof.
  unfold tunnel_payload, get_from. case_bool_decide as Hle; [|done]. intros [= <-]. unfold leaked.
  unfold tunnel_payload_with_prefix_into_bytes, tunnel_payload, get_from.
  rewrite (bool_decide_true (pm_offset p <= _)%nat) by done. cbn [unwrap mbind outcome_bind].
  case_bool_decide as Hp.
  - set (o := pm_offset p) in *. set (s := (o - length prefix)%nat).
    assert (inner p = take s (inner p) ++ take (length prefix) (drop s (inner p)) ++ drop o (inner p)) as E0.
    { replace (drop o (inner p)) with (drop (length prefix) (drop s (inner p)))
        by (rewrite drop_drop; f_equal; lia). by rewrite !take_drop. }
    rewrite E0 at 1. rewrite copy_mid; cbn [mbind outcome_bind].
    + rewrite drop_app_length' by (rewrite length_take; lia). destruct (reusable_prefix p); [rewrite bool_decide_false by lia|]; done.
    + rewrite length_take. lia.
    + rewrite length_take, length_drop. lia.
    + rewrite length_take, length_drop. lia.
  - destruct (reusable_prefix p) as [hr|] eqn:Er; [|done]. case_bool_decide as Hh; [|rewrite bool_decide_false by lia; done].
    rewrite bool_decide_true by lia. rewrite (take_drop (pm_offset p) (inner p)).
    set (s := (length hr - length prefix)%nat).
    rewrite <-(take_drop s hr) at 1.
    rewrite <-(app_nil_r (drop s hr)), copy_mid; cbn [mbind outcome_bind].
    + rewrite app_nil_r, <-app_assoc, drop_app_length' by (rewrite length_take; lia). done.
    + rewrite length_take. lia.
    + rewrite length_drop. lia.
    + rewrite length_drop. lia.
Qed.

(** A packet the prefix fits in front of without touching its payload: only a
    TCP-layout packet with reusable headroom is excluded on high stream ids. *)
Definition transport_ok (p : t) (stream_id : Z) : Prop :=
  packet_type p = TCP -> reusable_prefix p = None \/ stream_id < 65536.

(** what follows the prefix of a whole datagram *)
Definition wire_payload (p : t) (stream_id : Z) (body : list Z) : list Z := leaked p (datagram_prefix stream_id DATAGRAM_CONTEXT_WHOLE) ++ body.

Lemma wire_payload_clean p s body : transport_ok p s -> wire_payload p s body = body.
Proof.
  intros Ht. unfold wire_payload, leaked. destruct (reusable_prefix p) as [hr|] eqn:Er; [|done]. case_bool_decide as Hh; [|done].
  revert Hh. unfold datagram_prefix, DATAGRAM_CONTEXT_WHOLE. rewrite length_app.
  pose proof (length_varint_le (s / 4)). change (length (varint 0)) with 1%nat.
  unfold pm_offset, offsets. destruct (packet_type p) eqn:E0;
    [change (Z.to_nat _) with 4%nat|change (Z.to_nat _) with 18%nat|done].
  - destruct (Ht E0) as [?|Hlt]; [congruence|]. pose proof (length_varint_stream s Hlt). lia.
  - lia.
Qed.

Lemma encode_whole {E} p s body :
  stream_ok s -> tunnel_payload (E := E) p = Ok body ->
  encode_quic_datagram (E := E) p s = Ok (datagram_prefix s DATAGRAM_CONTEXT_WHOLE ++ wire_payload p s body).
Proof.
  intros Hs Hb. unfold encode_quic_datagram.
  destruct (encode_prefix (E := E) s DATAGRAM_CONTEXT_WHOLE Hs) as (l & -> & Hl); [done|].
  cbn [mbind outcome_bind]. rewrite Hl. by apply tunnel_payload_with_prefix.
Qed.

Lemma get_from_app {A} (l r : list A) : get_from (l ++ r) (length l) = Some r.
Proof. unfold get_from. rewrite bool_decide_true by (rewrite length_app; lia). by rewrite drop_app_length. Qed.

Lemma decode_prefix s c rest :
  stream_ok s -> 0 <= c <= 1 ->
  decode_quic_varint (datagram_prefix s c ++ rest) = Some (s / 4, length (varint (s / 4))) /\
  decode_quic_varint (varint c ++ rest) = Some (c, length (varint c)) /\
  get_from (datagram_prefix s c ++ rest) (length (varint (s / 4))) = Some (varint c ++ rest).
Proof.
  intros Hs Hc. unfold datagram_prefix. rewrite <-app_assoc.
  rewrite !decode_varint by (apply quarter_range; done) || lia.
  by rewrite get_from_app.
Qed.

Lemma decode_parts_prefix s c rest :
  stream_ok s -> 0 <= c <= 1 ->
  decode_quic_datagram_parts (datagram_prefix s c ++ rest) s =
  let bytes := datagram_prefix s c ++ rest in
  let header_length := length (datagram_prefix s c) in
  if c =? DATAGRAM_CONTEXT_WHOLE then p ← packet_from_tunnel_payload bytes header_length; Ok (Whole p)
  else if bool_decide (length rest < DATAGRAM_FRAGMENT_HEADER_LEN)%nat then Err FragmentTooShort
  else
    id ← unwrap (of_le <$> get_range rest 0 4);
    index ← unwrap (rest !! 4%nat);
    count ← unwrap (rest !! 5%nat);
    payload ← unwrap (get_from bytes (header_length + DATAGRAM_FRAGMENT_HEADER_LEN));
    Ok (Fragment id index count payload).
Proof.
  intros Hs Hc. destruct (decode_prefix s c rest Hs Hc) as (H1 & H2 & H3).
  unfold decode_quic_datagram_parts. rewrite H1. cbn [ok_or mbind outcome_bind].
  rewrite H3. cbn [unwrap mbind outcome_bind]. rewrite H2. cbn [ok_or mbind outcome_bind].
  rewrite Z.eqb_refl. cbn [negb].
  rewrite <-(length_app (varint (s / 4)) (varint c)). fold (datagram_prefix s c).
  assert (c = 0 \/ c = 1) as [->| ->] by lia; [done|]. cbn [Z.eqb DATAGRAM_CONTEXT_WHOLE].
  by rewrite get_from_app.
Qed.

Lemma decode_whole s body :
  stream_ok s -> (16 <= length body)%nat ->
  exists p, decode_quic_datagram_parts (datagram_prefix s DATAGRAM_CONTEXT_WHOLE ++ body) s = Ok (Whole p) /\
    tunnel_payload (E := unit) p = Ok body /\ packet_type p = DummyTunnel.
Proof.
  intros Hs Hb. rewrite decode_parts_prefix by done. cbv zeta. rewrite Z.eqb_refl.
  unfold packet_from_tunnel_payload, saturating_sub. rewrite len_app.
  change (Z.of_nat PEER_MANAGER_HEADER_SIZE) with 16.
  rewrite (proj2 (Z.ltb_ge _ _)) by (unfold len; lia).
  unfold new_from_buf_with_prefix, split_to. rewrite bool_decide_true by (rewrite length_app; lia).
  cbn [mbind outcome_bind]. eexists. split; [done|]. rewrite drop_app_length. split; [|done].
  unfold tunnel_payload, get_from. by rewrite bool_decide_true by exact (Nat.le_0_l _).
Qed.

Lemma decode_fragment s id total index part :
  stream_ok s -> is_u 32 id -> (index < total)%nat -> (total <= 255)%nat ->
  let d := fragment_datagram (datagram_prefix s DATAGRAM_CONTEXT_FRAGMENT) id total index part in
  decode_quic_datagram_parts d s = Ok (Fragment id (Z.of_nat index) (Z.of_nat total) part) /\
  datagram_packet_group d = Some id.
Proof.
  intros Hs Hid Hi Ht. unfold fragment_datagram.
  rewrite !wrap_small by (unfold is_u; change (2 ^ 8) with 256; lia).
  set (rest := to_le 4 id ++ [Z.of_nat index; Z.of_nat total] ++ part).
  assert (get_range rest 0 4 = Some (to_le 4 id)) as Hg by (by apply (get_range_app [])).
  assert (length rest = 6 + length part)%nat as Hlr by (unfold rest; rewrite !length_app; done).
  cbv zeta. split.
  - rewrite decode_parts_prefix by done. cbv zeta. change (DATAGRAM_CONTEXT_FRAGMENT =? _) with false.
    rewrite bool_decide_false by (rewrite Hlr; unfold DATAGRAM_FRAGMENT_HEADER_LEN; lia).
    rewrite Hg. cbn [fmap option_fmap option_map unwrap mbind outcome_bind].
    rewrite of_to_le by exact Hid. change (rest !! 4%nat) with (Some (Z.of_nat index)).
    change (rest !! 5%nat) with (Some (Z.of_nat total)). cbn [unwrap mbind outcome_bind].
    unfold get_from. rewrite bool_decide_true by (rewrite length_app, Hlr; unfold DATAGRAM_FRAGMENT_HEADER_LEN; lia).
    cbn [unwrap mbind outcome_bind]. by rewrite drop_app_add.
  - destruct (decode_prefix s DATAGRAM_CONTEXT_FRAGMENT rest Hs) as (H1 & H2 & H3); [done|].
    unfold datagram_packet_group. rewrite H1. cbn [mbind option_bind].
    replace (drop _ _) with (varint DATAGRAM_CONTEXT_FRAGMENT ++ rest)
      by (unfold datagram_prefix; by rewrite <-app_assoc, drop_app_length).
    rewrite H2. cbn [mbind option_bind]. change (negb (_ =? _)) with false. cbv iota.
    rewrite <-length_app. fold (datagram_prefix s DATAGRAM_CONTEXT_FRAGMENT).
    unfold get_from. rewrite bool_decide_true by (rewrite length_app; lia).
    rewrite drop_app_length. cbn [mbind option_bind]. rewrite Hg.
    cbn [fmap option_fmap option_map]. by rewrite of_to_le by exact Hid.
Qed.

(** ** Chunks *)
Lemma chunks_loop_spec fuel n l :
  (0 < n)%nat -> (length l <= fuel)%nat ->
  concat (chunks_loop fuel n l) = l /\
  length (chunks_loop fuel n l) = Z.to_nat (div_ceil (len l) (Z.of_nat n)) /\
  Forall (fun c => (0 < length c <= n)%nat) (chunks_loop fuel n l).
Proof.
  intros Hn. revert l. induction fuel as [|fuel IH]; intros l Hl.
  { destruct l; [|cbn in Hl; lia]. split_and!; [done| |constructor].
    unfold div_ceil, len. cbn [length]. rewrite Z.div_small by lia. done. }
  destruct l as [|x l].
  { split_and!; [done| |constructor]. unfold div_ceil, len. cbn [length]. rewrite Z.div_small by lia. done. }
  cbn [chunks_loop]. set (y := x :: l) in *.
  destruct (IH (drop n y)) as (H1 & H2 & H3); [rewrite length_drop; cbn in Hl |- *; lia|].
  split_and!.
  - cbn [concat]. rewrite H1. apply take_drop.
  - cbn [length]. rewrite H2. unfold div_ceil, len. rewrite length_drop.
    assert (0 < Z.of_nat (length y)) as Hy by (unfold y; cbn; lia).
    destruct (Nat.le_gt_cases n (length y)).
    + rewrite Nat2Z.inj_sub by done.
      replace (Z.of_nat (length y) + Z.of_nat n - 1)
        with (Z.of_nat (length y) - Z.of_nat n + Z.of_nat n - 1 + 1 * Z.of_nat n) by lia.
      rewrite Z.div_add by lia. rewrite Z2Nat.inj_add; [lia| |lia]. apply Z.div_pos; lia.
    + replace (length y - n)%nat with 0%nat by lia. rewrite Z.div_small by lia.
      replace (Z.of_nat (length y) + Z.of_nat n - 1)
        with (Z.of_nat (length y) - 1 + 1 * Z.of_nat n) by lia.
      rewrite Z.div_add, Z.div_small by lia. done.
  - constructor; [|done]. rewrite length_take. unfold y. cbn. lia.
Qed.

(** the fragment datagrams of [body] in chunks of [chunk] bytes *)
Definition fragment_datagrams (s id : Z) (parts : list (list Z)) : list (list Z) :=
  imap (fragment_datagram (datagram_prefix s DATAGRAM_CONTEXT_FRAGMENT) id (length parts)) parts.

Lemma encode_lossy_cases {E} p s max_size id payload :
  stream_ok s -> tunnel_payload (E := E) p = Ok payload ->
  let body := wire_payload p s payload in
  let whole := datagram_prefix s DATAGRAM_CONTEXT_WHOLE ++ body in
  exists dgs id', encode_lossy_quic_datagrams (E := E) p s max_size id = Ok (dgs, id') /\
    match max_size with
    | Some m =>
        if bool_decide (length whole <= m)%nat then dgs = [whole] /\ id' = id
        else
          let chunk := (m - (length (datagram_prefix s DATAGRAM_CONTEXT_FRAGMENT) + 6))%nat in
          (dgs = [] /\ id' = id /\ (chunk = 0 \/ body = [] \/ 255 * chunk < length body)%nat) \/
          (dgs = fragment_datagrams s id (chunks chunk body) /\ id' = wrap 32 (id + 1) /\
           (0 < chunk)%nat /\ (0 < length (chunks chunk body) <= 255)%nat)
    | None => dgs = [whole] /\ id' = id
    end.
Proof.
  intros Hs Hb body whole. unfold encode_lossy_quic_datagrams. rewrite (encode_whole p s payload) by done. fold body.
  cbn [mbind outcome_bind]. fold whole. destruct max_size as [m|]; [|by eexists _, _].
  case_bool_decide as Hm; [by eexists _, _|].
  assert (get_from whole (connect_ip_datagram_overhead s) = Some body) as ->.
  { rewrite length_varint_overhead. unfold whole. change 1%nat with (length (varint DATAGRAM_CONTEXT_WHOLE)).
    rewrite <-length_app. apply get_from_app. }
  cbn [unwrap mbind outcome_bind].
  destruct (encode_prefix (E := E) s DATAGRAM_CONTEXT_FRAGMENT Hs) as (l & -> & Hl); [done|].
  cbn [mbind outcome_bind]. rewrite Hl. unfold DATAGRAM_FRAGMENT_HEADER_LEN.
  set (chunk := (m - _)%nat). case_bool_decide as Hc0; [eexists _, _; split; [done|left; auto]|].
  pose proof (chunks_loop_spec (length body) chunk body ltac:(lia) ltac:(lia)) as (_ & Hn & _).
  fold (chunks chunk body) in Hn. rewrite <-Hn.
  case_bool_decide as Hc.
  - eexists _, _. split; [done|]. left. split_and!; [done|done|]. right.
    rewrite Hn in Hc. unfold div_ceil, len in Hc. destruct Hc as [Hc|Hc].
    + left. destruct body as [|x b]; [done|]. exfalso.
      assert (1 <= (Z.of_nat (length (x :: b)) + Z.of_nat chunk - 1) / Z.of_nat chunk); [|lia].
      apply Z.div_le_lower_bound; cbn [length]; lia.
    + right. apply Nat.lt_nge. intros Hle.
      assert ((Z.of_nat (length body) + Z.of_nat chunk - 1) / Z.of_nat chunk < 256); [|lia].
      apply Z.div_lt_upper_bound; lia.
  - eexists _, _. split; [done|]. right. split_and!; [done|done|lia|lia|lia].
Qed.

(** DATAGRAM framing.  A packet of at least a header is sent as one whole
    datagram, which decodes to a packet with the same tunnel payload; or, when
    the path limit is smaller, as at most 255 fragments, each within the path
    limit, which decode to numbered parts whose concatenation is the tunnel
    payload and which are grouped under their fragment id; or, only when
    fragments leave no room for data or 255 of them are not enough, it is
    dropped. *)
Theorem quic_datagram_framing (p : t) (s : Z) (max_size : option nat) (id : Z) (body : list Z) :
  stream_ok s -> transport_ok p s -> is_u 32 id ->
  tunnel_payload (E := unit) p = Ok body -> (16 <= length body)%nat ->
  exists dgs id',
    encode_lossy_quic_datagrams (E := unit) p s max_size id = Ok (dgs, id') /\
    ((exists w q, dgs = [w] /\ id' = id /\ decode_quic_datagram_parts w s = Ok (Whole q) /\
        tunnel_payload (E := unit) q = Ok body) \/
     (exists m parts, max_size = Some m /\ concat parts = body /\ length dgs = length parts /\
        (length parts <= 255)%nat /\ id' = wrap 32 (id + 1) /\
        forall i part, parts !! i = Some part ->
          exists d, dgs !! i = Some d /\ (length d <= m)%nat /\ datagram_packet_group d = Some id /\
            decode_quic_datagram_parts d s
              = Ok (Fragment id (Z.of_nat i) (Z.of_nat (length parts)) part)) \/
     (exists m, max_size = Some m /\ dgs = [] /\
        (m <= length (datagram_prefix s DATAGRAM_CONTEXT_FRAGMENT) + 6 \/
         255 * (m - (length (datagram_prefix s DATAGRAM_CONTEXT_FRAGMENT) + 6)) < length body)%nat)).
Proof.
  intros Hs Ht Hid Hb Hlen.
  destruct (encode_lossy_cases (E := unit) p s max_size id body Hs Hb) as (dgs & id' & He & Hc). rewrite (wire_payload_clean p s body Ht) in Hc.
  exists dgs, id'. split; [done|].
  destruct (decode_whole s body Hs Hlen) as (q & Hq & Hqb & _).
  destruct max_size as [m|]; [|destruct Hc as [-> ->]; left; by eexists _, q].
  case_bool_decide; [destruct Hc as [-> ->]; left; by eexists _, q|].
  destruct Hc as [(-> & -> & Hc)|(-> & -> & Hpos & Hn)].
  - right; right. exists m. split_and!; [done|done|]. destruct Hc as [?|[->|?]]; [left; lia|cbn in Hlen; lia|by right].
  - right; left. set (chunk := (m - _)%nat) in *.
    pose proof (chunks_loop_spec (length body) chunk body Hpos ltac:(lia)) as (Hcat & _ & Hall).
    fold (chunks chunk body) in Hcat, Hall.
    exists m, (chunks chunk body). unfold fragment_datagrams. split_and!; try done;
      [apply length_imap|lia|].
    intros i part Hi. eexists. rewrite list_lookup_imap, Hi. split; [done|].
    pose proof (lookup_lt_Some _ _ _ Hi). rewrite Forall_lookup in Hall. pose proof (Hall i part Hi) as Hp.
    cbn in Hp. destruct (decode_fragment s id (length (chunks chunk body)) i part) as [-> ->]; [done..|lia|].
    split_and!; [|done|done]. unfold fragment_datagram. rewrite !length_app, length_to_le. cbn [length].
    unfold chunk in *. lia.
Qed.

Lemma quic_datagram_framing_witness :
  exists dgs id', encode_lossy_quic_datagrams (E := unit) PacketProps.sample_packet 4 (Some 14%nat) 7
    = Ok (dgs, id') /\ length dgs = 4%nat /\ id' = 8.
Proof.
  destruct (quic_datagram_framing PacketProps.sample_packet 4 (Some 14%nat) 7
    (PH.as_bytes (PH.mk 1 9 1 1 1 0 3) ++ [10; 20; 30])) as (dgs & id' & H & _).
  - done.
  - intros H. discriminate H.
  - done.
  - vm_compute. reflexivity.
  - vm_compute. lia.
  - exists dgs, id'. split; [exact H|]. vm_compute in H. injection H as <- <-. done.
Defined.

(** outside the domain of the framing theorem the prefix goes wrong: on a
    request stream id of 65536 or more, a packet in the TCP layout whose
    removed headroom is still attached is sent with its four TCP tunnel header
    bytes between the DATAGRAM prefix and the payload. *)
Theorem tcp_headroom_prefix_leaks_header (prefix headroom header body : list Z) (p : t) :
  packet_type p = TCP -> reusable_prefix p = Some headroom -> inner p = header ++ body ->
  length header = 4%nat -> (4 < length prefix <= length headroom)%nat ->
  tunnel_payload (E := unit) p = Ok body /\
  tunnel_payload_with_prefix_into_bytes (E := unit) p prefix = Ok (prefix ++ header ++ body).
Proof.
  intros Ht Hr Hi Hh Hp. assert (pm_offset p = 4%nat) as Ho by (unfold pm_offset, offsets; by rewrite Ht).
  split.
  - unfold tunnel_payload. rewrite Ho, Hi, <-Hh. by rewrite get_from_app.
  - unfold tunnel_payload_with_prefix_into_bytes. rewrite Ho, Hr, Hi.
    rewrite bool_decide_false, bool_decide_true by lia.
    set (s := (length headroom - length prefix)%nat).
    rewrite <-(take_drop s headroom) at 1.
    rewrite <-(app_nil_r (drop s headroom)), copy_mid; cbn [mbind outcome_bind].
    + rewrite app_nil_r, <-app_assoc, drop_app_length' by (rewrite length_take; lia). done.
    + rewrite length_take. lia.
    + rewrite length_drop. lia.
    + rewrite length_drop. lia.
Qed.

Lemma tcp_headroom_prefix_leaks_header_witness :
  let p := with_reusable (new_from_buf [1; 2; 3; 4; 50; 60] TCP) (Some 1) (Some (replicate 14 0)) (Some 0) in
  encode_quic_datagram (E := unit) p 65536 = Ok (datagram_prefix 65536 0 ++ [1; 2; 3; 4] ++ [50; 60]).
Proof.
  intros p. destruct (tcp_headroom_prefix_leaks_header (datagram_prefix 65536 0) (replicate 14 0)
    [1; 2; 3; 4] [50; 60] p) as [_ H]; [done..|vm_compute; lia|].
  vm_compute in H |- *. exact H.
Defined.

End QuicDatagram.
