(* ===== verification/Fragments.v ===== *)
(** * Reassembly of QUIC DATAGRAM fragments (src/lowertier/src/tunnel/quic/fragments.rs)

    Partial packets own bounded storage: at most 64 assemblies and 2 MiB per
    connection, charged to the process memory governor, and each expires 15
    seconds after its first fragment. *)
From stdpp Require Import base list gmap numbers strings.
From Stdlib Require Import ZArith Lia Sorted.
From S2P Require Import Prelude PacketHeader Packet PacketProps MemoryGovernor QuicDatagram.

Local Open Scope Z_scope.

Module Gov := MemoryGovernor.

Module Fragments.

Definition DATAGRAM_FRAGMENT_MAX_PENDING : nat := 64.
Definition QUIC_DATAGRAM_RECEIVE_BUFFER_BYTES : Z := 2 * 1024 * 1024.
Definition RETAINED_BYTES_LIMIT : Z := QUIC_DATAGRAM_RECEIVE_BUFFER_BYTES.
(** durations and instants in nanoseconds *)
Definition ASSEMBLY_LIFETIME : Z := 15 * 1000000000.

Record FragmentInProgress : Type := mk_entry {
  parts : list (option (list Z));
  filled : nat;
  payload_bytes : Z;
  entry_retained : Z;
  expires : Z;
  permit : Z;
}.

Record t : Type := mk {
  pending : gmap Z FragmentInProgress;
  order : list Z;
  retained_bytes : Z;
  governor : Gov.t;
  (** the deadline of the timer *)
  expiry : option Z;
}.

Definition with_governor (g : Gov.t) : t := mk ∅ [] 0 g None.
Definition set_governor (s : t) (g : Gov.t) : t :=
  mk (pending s) (order s) (retained_bytes s) g (expiry s).

(** [remove] takes the entry out; [drop_entry] is the end of its life, where
    its permit is released. *)
Definition remove (s : t) (id : Z) : t * option FragmentInProgress :=
  match pending s !! id with
  | None => (s, None)
  | Some entry =>
      (mk (delete id (pending s)) (filter (fun pending_id => pending_id <> id) (order s))
          (wrap 64 (retained_bytes s - entry_retained entry)) (governor s) (expiry s),
       Some entry)
  end.
Definition drop_entry (s : t) (e : option FragmentInProgress) : t :=
  match e with Some e => set_governor s (Gov.release (governor s) (permit e)) | None => s end.
Definition remove_drop (s : t) (id : Z) : t := let '(s, e) := remove s id in drop_entry s e.

Definition schedule_expiry (s : t) : t :=
  match (match order s with id :: _ => pending s !! id | [] => None end) with
  | None => s
  | Some entry => mk (pending s) (order s) (retained_bytes s) (governor s) (Some (expires entry))
  end.

(** the loop of [expire]; the queue shrinks with every turn, so its length is
    fuel enough *)
Fixpoint expire_loop (fuel : nat) (s : t) (now : Z) : outcome unit t :=
  match fuel, order s with
  | _, [] => Ok s
  | O, _ => Ok s
  | S fuel, id :: _ =>
      entry ← unwrap (pending s !! id);
      if now <? expires entry then Ok s else expire_loop fuel (remove_drop s id) now
  end.
Definition expire (s : t) (now : Z) : outcome unit t :=
  s ← expire_loop (length (order s)) s now; Ok (schedule_expiry s).

Section Reassembly.
(** [size_of::<Option<Bytes>>()], a property of the bytes crate *)
Context (SLOT : Z).

(** a new entry for [id], after the eviction of the oldest when the cache is full *)
Definition insert_entry (s : t) (id count now metadata_bytes : Z) : outcome unit (t * bool) :=
  s ← (if bool_decide (size (pending s) = DATAGRAM_FRAGMENT_MAX_PENDING)
       then oldest ← unwrap (head (order s)); Ok (remove_drop s oldest)
       else Ok s);
  let '(g, p) := Gov.try_reserve_owned (governor s) metadata_bytes in
  let s := set_governor s g in
  match p with
  | None => Ok (s, false)
  | Some p =>
      let entry := mk_entry (replicate (Z.to_nat count) None) 0 0 metadata_bytes
                     (now + ASSEMBLY_LIFETIME) p in
      Ok (mk (<[id := entry]> (pending s)) (order s ++ [id])
             (wrap 64 (retained_bytes s + metadata_bytes)) (governor s) (expiry s), true)
  end.

(** the assembled packet, when the parts are complete and a header fits *)
Definition assemble (s : t) (id : Z) : t * option ZCPacket.t :=
  let '(s, e) := remove s id in
  match e with
  | None => (s, None)
  | Some assembled =>
      if payload_bytes assembled <? Z.of_nat PEER_MANAGER_HEADER_SIZE
      then (drop_entry s (Some assembled), None)
      else
        let '(g, p) := Gov.try_reserve_owned (governor s) (payload_bytes assembled) in
        let s := set_governor s g in
        match p with
        | None => (drop_entry s (Some assembled), None)
        | Some output =>
            let s := set_governor s (Gov.release (governor s) output) in
            (drop_entry s (Some assembled),
             payload ← mapM (fun part => part) (parts assembled);
             Some (ZCPacket.new_from_buf (concat payload) DummyTunnel))
        end
  end.

(** the fragment stored into its entry *)
Definition store (s : t) (id : Z) (entry : FragmentInProgress) (index : Z) (payload : list Z)
    : outcome unit (t * option ZCPacket.t) :=
  let '(g, p, ok) := Gov.try_extend (governor s) (permit entry) (len payload) in
  let s := set_governor s g in
  if negb ok then Ok (remove_drop s id, None)
  else if bool_decide (length (parts entry) <= Z.to_nat index)%nat then Panic
  else
    let entry := mk_entry (<[Z.to_nat index := Some payload]> (parts entry)) (filled entry + 1)
                   (wrap 64 (payload_bytes entry + len payload))
                   (wrap 64 (entry_retained entry + len payload)) (expires entry) p in
    let s := mk (<[id := entry]> (pending s)) (order s)
                (wrap 64 (retained_bytes s + len payload)) (governor s) (expiry s) in
    if negb (bool_decide (filled entry = length (parts entry))) then Ok (s, None)
    else Ok (assemble s id).

Definition push_fragment (s : t) (id index count : Z) (payload : list Z) (now : Z)
    : outcome unit (t * option ZCPacket.t) :=
  if (count =? 0) || (count <=? index) then Ok (s, None) else
  s ← expire s now;
  rejected ←
    match pending s !! id with
    | Some entry =>
        if negb (bool_decide (length (parts entry) = Z.to_nat count)) then Ok true
        else part ← unwrap (parts entry !! Z.to_nat index); Ok (bool_decide (is_Some part))
    | None => Ok false
    end;
  if rejected : bool then Ok (s, None) else
  let metadata_bytes := match pending s !! id with Some _ => 0 | None => count * SLOT end in
  match checked_add 64 metadata_bytes (len payload) with
  | None => Ok (s, None)
  | Some charge =>
      if saturating_sub RETAINED_BYTES_LIMIT (retained_bytes s) <? charge
      then Ok (remove_drop s id, None)
      else
        '(s, inserted) ←
          match pending s !! id with
          | Some _ => Ok (s, true)
          | None => insert_entry s id count now metadata_bytes
          end;
        if negb inserted then Ok (s, None) else
        entry ← unwrap (pending s !! id);
        store s id entry index payload
  end.

(** [ingest]: a datagram from the connection, at time [now] *)
Definition ingest (s : t) (bytes : list Z) (stream_id now : Z) : outcome unit (t * option ZCPacket.t) :=
  match QuicDatagram.decode_quic_datagram_parts bytes stream_id with
  | Ok (QuicDatagram.Whole packet) => Ok (s, Some packet)
  | Ok (QuicDatagram.Fragment id index count payload) =>
      '(s, packet) ← push_fragment s id index count payload now;
      Ok (schedule_expiry s, packet)
  | Err _ => Ok (s, None)
  | Panic => Panic
  end.

(** [poll_expiry] at time [now]: the timer fires when its deadline is reached *)
Definition poll_expiry (s : t) (now : Z) : outcome unit t :=
  if negb (bool_decide (pending s = ∅)) &&
     match expiry s with Some deadline => deadline <=? now | None => false end
  then expire s now else Ok s.

End Reassembly.


(** ** Invariant *)
Section Invariant.
Context (SLOT : Z).
Hypothesis SLOT_ok : 0 <= SLOT < 2 ^ 32.

(** the bytes received so far, in order of their index *)
Definition received (l : list (option (list Z))) : list (list Z) := omap (fun part => part) l.

Lemma received_insert l i x :
  l !! i = Some None ->
  length (received (<[i := Some x]> l)) = S (length (received l)) /\
  sum_Z len (received (<[i := Some x]> l)) = sum_Z len (received l) + len x.
Proof.
  intros Hi. rewrite <-(take_drop_middle l i None Hi) at 2 4. rewrite insert_take_drop
    by (by apply lookup_lt_Some in Hi).
  unfold received. rewrite !omap_app. cbn. rewrite !length_app, !sum_Z_app. cbn. lia.
Qed.

Lemma length_received l : (length (received l) <= length l)%nat.
Proof. induction l as [|[x|] l IH]; cbn in *; unfold received in *; lia. Qed.

Lemma received_complete l :
  length (received l) = length l -> mapM (fun part => part) l = Some (received l).
Proof.
  induction l as [|[x|] l IH]; cbn; [done| |].
  - intros [= H]. by rewrite (IH H).
  - intros H. pose proof (length_received l). unfold received in *. lia.
Qed.

Record entry_ok (e : FragmentInProgress) : Prop := {
  e_count : (0 < length (parts e) <= 255)%nat;
  e_filled : filled e = length (received (parts e));
  e_payload : payload_bytes e = sum_Z len (received (parts e));
  e_retained : entry_retained e = Z.of_nat (length (parts e)) * SLOT + payload_bytes e;
  e_permit : permit e = entry_retained e;
}.

Lemma entry_retained_nonneg e : entry_ok e -> 0 <= payload_bytes e <= entry_retained e.
Proof.
  intros [? ? Hp Hr _]. pose proof (sum_Z_nonneg len (received (parts e)) (fun _ _ => len_nonneg _)).
  rewrite Hr, <-Hp in *. lia.
Qed.

Definition charge (m : gmap Z FragmentInProgress) : Z := Gov.total (entry_retained <$> m).

Lemma charge_insert m id e : m !! id = None -> charge (<[id := e]> m) = entry_retained e + charge m.
Proof. intros H. unfold charge. rewrite fmap_insert. apply Gov.total_insert. by rewrite lookup_fmap, H. Qed.
Lemma charge_delete m id e : m !! id = Some e -> charge m = entry_retained e + charge (delete id m).
Proof. intros H. unfold charge. rewrite fmap_delete. apply Gov.total_delete. by rewrite lookup_fmap, H. Qed.
Lemma charge_update m id e e' :
  m !! id = Some e -> charge (<[id := e']> m) = charge m - entry_retained e + entry_retained e'.
Proof. intros H. unfold charge. rewrite fmap_insert. apply Gov.total_update. by rewrite lookup_fmap, H. Qed.
Lemma charge_nonneg m : map_Forall (fun _ e => entry_ok e) m -> 0 <= charge m.
Proof.
  intros H. apply Gov.total_nonneg. intros i x. rewrite lookup_fmap, fmap_Some. intros (e & He & ->).
  pose proof (entry_retained_nonneg e (H i e He)). lia.
Qed.

(** the queue is in order of expiry *)
Definition older (m : gmap Z FragmentInProgress) (a b : Z) : Prop :=
  forall ea eb, m !! a = Some ea -> m !! b = Some eb -> expires ea <= expires eb.

(** [ext]: the bytes the rest of the process holds; [now]: the latest clock reading *)
Record inv (ext now : Z) (s : t) : Prop := {
  i_order : NoDup (order s);
  i_dom : forall id, id ∈ order s <-> is_Some (pending s !! id);
  i_size : (length (order s) <= DATAGRAM_FRAGMENT_MAX_PENDING)%nat;
  i_entries : map_Forall (fun _ e => entry_ok e) (pending s);
  i_retained : retained_bytes s = charge (pending s);
  i_limit : retained_bytes s <= RETAINED_BYTES_LIMIT;
  i_gov : Gov.retained (governor s) = charge (pending s) + ext;
  i_sorted : StronglySorted (older (pending s)) (order s);
  i_fresh : map_Forall (fun _ e => expires e <= now + ASSEMBLY_LIFETIME) (pending s);
}.

Lemma inv_size ext now s : inv ext now s -> size (pending s) = length (order s).
Proof.
  intros H. rewrite <-size_dom, <-(size_list_to_set (C := gset Z) (order s)) by apply H.
  f_equal. apply set_eq. intros id. rewrite elem_of_dom, elem_of_list_to_set. symmetry. apply H.
Qed.

Lemma StronglySorted_filter {A} (R : A -> A -> Prop) (P : A -> Prop) `{!forall x, Decision (P x)} l :
  StronglySorted R l -> StronglySorted R (filter P l).
Proof.
  induction 1 as [|x l Hl IH Hx]; [constructor|]. rewrite filter_cons. case_decide; [|done].
  constructor; [done|]. apply Forall_forall. intros y Hy. rewrite Forall_forall in Hx.
  apply Hx. by apply list_elem_of_filter in Hy as [_ ?].
Qed.

Lemma StronglySorted_mono {A} (R R' : A -> A -> Prop) l :
  (forall a b, R a b -> R' a b) -> StronglySorted R l -> StronglySorted R' l.
Proof.
  intros HR. induction 1 as [|x l Hl IH Hx]; constructor; [done|].
  eapply Forall_impl; [exact Hx|]. auto.
Qed.

Lemma remove_drop_None s id : pending s !! id = None -> remove_drop s id = s.
Proof. intros H. unfold remove_drop, remove. by rewrite H. Qed.

(** taking an entry out: [remove] and the release of its permit *)
Lemma remove_inv ext now s id e :
  inv ext now s -> pending s !! id = Some e ->
  let s' := (remove s id).1 in
  remove s id = (s', Some e) /\ pending s' = delete id (pending s) /\
  governor s' = governor s /\ inv (ext + permit e) now s'.
Proof.
  intros Hi He. unfold remove. rewrite He. cbn. split_and!; [done..|].
  destruct Hi as [Ho Hd Hs Hen Hr Hl Hg Hso Hf].
  pose proof (charge_delete _ _ _ He) as Hc. pose proof (Hen id e He) as Hok.
  pose proof (entry_retained_nonneg e Hok).
  pose proof (charge_nonneg (delete id (pending s)) (map_Forall_delete _ _ _ Hen)).
  assert (wrap 64 (retained_bytes s - entry_retained e) = charge (delete id (pending s))) as Hw.
  { rewrite Hr, Hc, Z.add_simpl_l. apply wrap_small. unfold is_u.
    unfold RETAINED_BYTES_LIMIT, QUIC_DATAGRAM_RECEIVE_BUFFER_BYTES in Hl.
    change (2 ^ 64) with 18446744073709551616. lia. }
  split; cbn.
  - by apply NoDup_filter.
  - intros i. rewrite list_elem_of_filter, Hd. destruct (decide (i = id)) as [->|Hne].
    + rewrite lookup_delete_eq. split; [naive_solver|by intros []].
    + rewrite lookup_delete_ne by done. naive_solver.
  - etransitivity; [apply length_filter|done].
  - by apply map_Forall_delete.
  - done.
  - rewrite Hw. lia.
  - rewrite Hg, (e_permit _ Hok). lia.
  - apply StronglySorted_filter. eapply StronglySorted_mono; [|exact Hso].
    intros a b Hab ea eb Ha%lookup_delete_Some Hb%lookup_delete_Some. apply Hab; naive_solver.
  - by apply map_Forall_delete.
Qed.

Lemma inv_release ext now s p :
  inv (ext + p) now s -> 0 <= ext -> 0 <= p ->
  inv ext now (set_governor s (Gov.release (governor s) p)).
Proof.
  intros [Ho Hd Hs Hen Hr Hl Hg Hso Hf] He Hp. pose proof (charge_nonneg _ Hen).
  rewrite Gov.release_spec by lia. split; cbn; try done. lia.
Qed.

Lemma remove_drop_inv ext now s id :
  inv ext now s -> 0 <= ext ->
  inv ext now (remove_drop s id) /\ pending (remove_drop s id) = delete id (pending s).
Proof.
  intros Hi Hx. destruct (pending s !! id) as [e|] eqn:E.
  - destruct (remove_inv ext now s id e Hi E) as (Hr & Hp & _ & Hi').
    pose proof (i_entries _ _ _ Hi id e E) as Hok. pose proof (entry_retained_nonneg e Hok).
    unfold remove_drop. rewrite Hr. cbn. split; [|done].
    apply inv_release; [done|done|]. rewrite (e_permit _ Hok). lia.
  - rewrite remove_drop_None by done. split; [done|]. by rewrite delete_id.
Qed.

Lemma schedule_expiry_inv ext now s : inv ext now s -> inv ext now (schedule_expiry s).
Proof.
  intros Hi. unfold schedule_expiry. destruct (order s) as [|id l] eqn:Eo; [done|].
  destruct (pending s !! id); [|done]. rewrite <-Eo. by destruct Hi; split.
Qed.

Lemma schedule_expiry_pending s : pending (schedule_expiry s) = pending s.
Proof. unfold schedule_expiry. by repeat case_match. Qed.

Lemma StronglySorted_snoc {A} (R : A -> A -> Prop) l x :
  StronglySorted R l -> Forall (fun y => R y x) l -> StronglySorted R (l ++ [x]).
Proof.
  induction 1 as [|y l Hl IH Hy]; cbn; intros Hx; [repeat constructor|].
  apply Forall_cons_iff in Hx as [Hyx Hx]. constructor; [by apply IH|].
  apply Forall_app. split; [done|]. by repeat constructor.
Qed.

(** ** Expiry *)
Lemma expire_loop_spec ext now t0 fuel : forall s,
  inv ext now s -> 0 <= ext -> (length (order s) <= fuel)%nat ->
  exists s', expire_loop fuel s t0 = Ok s' /\ inv ext now s' /\
    (forall id e, pending s' !! id = Some e <-> pending s !! id = Some e /\ t0 < expires e).
Proof.
  induction fuel as [|fuel IH]; intros s Hi Hx Hf.
  { destruct (order s) as [|x l] eqn:Eo; [|cbn in Hf; lia]. exists s. cbn [expire_loop]. rewrite Eo.
    split_and!; [done|done|]. intros id e. split; [|naive_solver]. intros He.
    exfalso. assert (id ∈ order s) as Hin by (apply Hi; eauto). rewrite Eo in Hin. set_solver. }
  cbn [expire_loop]. destruct (order s) as [|x l] eqn:Eo.
  { exists s. split_and!; [done|done|]. intros id e. split; [|naive_solver]. intros He.
    exfalso. assert (id ∈ order s) as Hin by (apply Hi; eauto). rewrite Eo in Hin. set_solver. }
  assert (is_Some (pending s !! x)) as [ex Hex] by (apply Hi; rewrite Eo; set_solver).
  rewrite Hex. cbn [unwrap mbind outcome_bind]. destruct (t0 <? expires ex) eqn:Et; bool_to_Z.
  - exists s. split_and!; [done|done|]. intros id e. split; [|naive_solver]. intros He. split; [done|].
    assert (id ∈ order s) as Hin by (apply Hi; eauto). rewrite Eo in Hin.
    apply elem_of_cons in Hin as [->|Hin]; [naive_solver|].
    pose proof (i_sorted _ _ _ Hi) as Hso. rewrite Eo in Hso. apply StronglySorted_inv in Hso as [_ Hso].
    rewrite Forall_forall in Hso. pose proof (Hso id Hin ex e Hex He). lia.
  - destruct (remove_drop_inv ext now s x Hi Hx) as [Hi' Hp].
    assert (order (remove_drop s x) = filter (fun y => y <> x) (order s)) as Ho
      by (unfold remove_drop, remove; by rewrite Hex).
    destruct (IH (remove_drop s x) Hi' Hx) as (s' & Hs' & Hi'' & Hl).
    { rewrite Ho. rewrite <-Eo in Hf.
      assert (length (filter (fun y => y <> x) (order s)) < length (order s))%nat; [|lia].
      apply (length_filter_lt _ _ x); [rewrite Eo; set_solver|naive_solver]. }
    exists s'. split_and!; [done|done|]. intros id e. rewrite Hl, Hp, lookup_delete_Some.
    split; [naive_solver|]. intros [He Hlt]. split_and!; [|done|done]. intros ->. naive_solver lia.
Qed.

Lemma expire_spec ext now t0 s :
  inv ext now s -> 0 <= ext ->
  exists s', expire s t0 = Ok s' /\ inv ext now s' /\
    (forall id e, pending s' !! id = Some e <-> pending s !! id = Some e /\ t0 < expires e).
Proof.
  intros Hi Hx. destruct (expire_loop_spec ext now t0 _ s Hi Hx ltac:(reflexivity)) as (s' & Hs & Hi' & Hl).
  exists (schedule_expiry s'). unfold expire. rewrite Hs. cbn. rewrite schedule_expiry_pending.
  auto using schedule_expiry_inv.
Qed.

Lemma inv_time ext now now' s : now <= now' -> inv ext now s -> inv ext now' s.
Proof.
  intros Hn [? ? ? ? ? ? ? ? Hf]. split; try done. intros i e He. pose proof (Hf i e He). cbn in *. lia.
Qed.

(** ** A new entry *)
Definition fresh_entry (count now : Z) : FragmentInProgress :=
  mk_entry (replicate (Z.to_nat count) None) 0 0 (count * SLOT) (now + ASSEMBLY_LIFETIME) (count * SLOT).

Lemma received_replicate n : received (replicate n None) = [].
Proof. induction n; [done|]. exact IHn. Qed.

Lemma fresh_entry_ok count now : 0 < count <= 255 -> entry_ok (fresh_entry count now).
Proof.
  intros Hc. split; cbn; rewrite ?length_replicate, ?received_replicate; cbn; try lia.
Qed.

Lemma inv_insert ext now s id e :
  inv ext now s -> pending s !! id = None -> (length (order s) < DATAGRAM_FRAGMENT_MAX_PENDING)%nat ->
  entry_ok e -> expires e = now + ASSEMBLY_LIFETIME ->
  retained_bytes s + entry_retained e <= RETAINED_BYTES_LIMIT ->
  forall g, Gov.retained g = Gov.retained (governor s) + entry_retained e ->
  inv ext now (mk (<[id := e]> (pending s)) (order s ++ [id])
                  (wrap 64 (retained_bytes s + entry_retained e)) g (expiry s)).
Proof.
  intros [Ho Hd Hs Hen Hr Hl Hg Hso Hf] Hn Hlt Hok Hex Hlim g Hgr.
  pose proof (entry_retained_nonneg e Hok). pose proof (charge_nonneg _ Hen).
  assert (id ∉ order s) as Hnin by (rewrite Hd, Hn; by intros []).
  assert (wrap 64 (retained_bytes s + entry_retained e) = charge (<[id := e]> (pending s))) as Hw.
  { rewrite charge_insert, Hr by done. rewrite wrap_small; [lia|]. unfold is_u.
    unfold RETAINED_BYTES_LIMIT, QUIC_DATAGRAM_RECEIVE_BUFFER_BYTES in *.
    change (2 ^ 64) with 18446744073709551616. lia. }
  split; cbn.
  - apply NoDup_app. split_and!; [done|set_solver|apply NoDup_singleton].
  - intros i. rewrite elem_of_app, list_elem_of_singleton, Hd. destruct (decide (i = id)) as [->|Hne].
    + rewrite lookup_insert_eq. naive_solver.
    + rewrite lookup_insert_ne by done. naive_solver.
  - rewrite length_app. cbn. lia.
  - by apply map_Forall_insert_2.
  - done.
  - rewrite Hw, charge_insert by done. lia.
  - rewrite Hgr, Hg, charge_insert by done. lia.
  - assert (StronglySorted (older (<[id := e]> (pending s))) (order s)) as Hso'.
    { clear - Hso Hnin. induction Hso as [|x l Hl IH Hx]; constructor; [apply IH; set_solver|].
      apply Forall_forall. intros y Hy. rewrite Forall_forall in Hx. intros ea eb.
      rewrite !lookup_insert_ne by set_solver. apply (Hx y Hy). }
    apply StronglySorted_snoc; [done|]. apply Forall_forall. intros y Hy ea eb.
    rewrite lookup_insert_ne, lookup_insert_eq by set_solver. intros Ha [= <-].
    pose proof (Hf y ea Ha). cbn in *. lia.
  - apply map_Forall_insert_2; [lia|done].
Qed.

(** [m'] has no entry that [m] does not have *)
Definition keeps (m' m : gmap Z FragmentInProgress) : Prop := m' ⊆ m.

Lemma remove_drop_keeps ext now s id :
  inv ext now s -> 0 <= ext -> keeps (pending (remove_drop s id)) (pending s).
Proof. intros Hi Hx. destruct (remove_drop_inv ext now s id Hi Hx) as [_ ->]. apply delete_subseteq. Qed.

(** a governor call that does not change what this connection holds *)
Lemma inv_governor ext now s g :
  inv ext now s -> Gov.retained g = Gov.retained (governor s) -> inv ext now (set_governor s g).
Proof. intros [? ? ? ? ? ? Hg ? ?] H. split; cbn; try done. by rewrite H. Qed.

Lemma insert_entry_spec ext now s id count :
  inv ext now s -> 0 <= ext -> pending s !! id = None -> 0 < count <= 255 ->
  retained_bytes s + count * SLOT <= RETAINED_BYTES_LIMIT ->
  exists s' b, insert_entry s id count now (count * SLOT) = Ok (s', b) /\ inv ext now s' /\
    if b then pending s' !! id = Some (fresh_entry count now) /\
              keeps (delete id (pending s')) (pending s) /\
              retained_bytes s' <= retained_bytes s + count * SLOT
    else keeps (pending s') (pending s).
Proof.
  intros Hi Hx Hn Hc Hl. unfold insert_entry.
  assert (exists s1, (if bool_decide (size (pending s) = DATAGRAM_FRAGMENT_MAX_PENDING)
            then oldest ← unwrap (head (order s)); Ok (remove_drop s oldest) else Ok s)
          = @Ok unit _ s1 /\ inv ext now s1 /\ keeps (pending s1) (pending s) /\
          (length (order s1) < DATAGRAM_FRAGMENT_MAX_PENDING)%nat /\
          retained_bytes s1 <= retained_bytes s) as (s1 & -> & Hi1 & Hk & Hs & Hr).
  { pose proof (inv_size _ _ _ Hi) as Hsz. pose proof (i_size _ _ _ Hi). case_bool_decide as Hb.
    - destruct (order s) as [|x l] eqn:Eo; [rewrite Hsz in Hb; done|]. cbn.
      eexists. split; [done|]. destruct (remove_drop_inv ext now s x Hi Hx) as [Hi1 Hp].
      assert (is_Some (pending s !! x)) as [e He] by (apply Hi; rewrite Eo; set_solver).
      split_and!; [done|by eapply remove_drop_keeps| |].
      + pose proof (inv_size _ _ _ Hi1) as Hsz1. rewrite <-Hsz1, Hp, map_size_delete, He, Hb.
        unfold DATAGRAM_FRAGMENT_MAX_PENDING. lia.
      + rewrite (i_retained _ _ _ Hi1), Hp, (i_retained _ _ _ Hi), (charge_delete _ _ _ He).
        pose proof (entry_retained_nonneg e (i_entries _ _ _ Hi x e He)). lia.
    - exists s. split_and!; [done|done|done|lia|lia]. }
  cbn [mbind outcome_bind]. unfold Gov.try_reserve_owned.
  pose proof (Gov.reserve_spec (governor s1) (count * SLOT)) as Hg.
  destruct (Gov.reserve (governor s1) (count * SLOT)) as [g ok]; destruct Hg as [_ Hg].
  assert (pending s1 !! id = None) as Hn1 by (eapply lookup_weaken_None; [exact Hn|exact Hk]).
  destruct ok.
  - destruct Hg as [Hg _]. eexists _, true. split; [done|].
    pose proof (inv_insert ext now s1 id (fresh_entry count now) Hi1 Hn1 Hs
      (fresh_entry_ok count now Hc) eq_refl ltac:(cbn; lia) g Hg) as Hi2.
    split_and!; [exact Hi2|apply lookup_insert_eq|cbn; by rewrite delete_insert_id|].
    pose proof (i_retained _ _ _ Hi2) as Hr2. cbn in Hr2 |- *. rewrite Hr2, charge_insert by done.
    rewrite <-(i_retained _ _ _ Hi1). cbn. lia.
  - subst g. eexists _, false. split; [done|]. split; [|exact Hk]. by apply inv_governor.
Qed.

(** ** Storing a fragment *)
Lemma inv_update ext now s id e e' n g :
  inv ext now s -> pending s !! id = Some e -> entry_ok e' -> expires e' = expires e ->
  entry_retained e' = entry_retained e + n -> 0 <= n ->
  retained_bytes s + n <= RETAINED_BYTES_LIMIT ->
  Gov.retained g = Gov.retained (governor s) + n ->
  inv ext now (mk (<[id := e']> (pending s)) (order s) (wrap 64 (retained_bytes s + n)) g (expiry s)).
Proof.
  intros [Ho Hd Hs Hen Hr Hl Hg Hso Hf] He Hok Hex Hret Hn Hlim Hgr.
  pose proof (charge_nonneg _ Hen). pose proof (charge_update _ _ _ e' He) as Hc.
  assert (wrap 64 (retained_bytes s + n) = charge (<[id := e']> (pending s))) as Hw.
  { rewrite Hc, Hr. rewrite wrap_small; [lia|]. unfold is_u.
    unfold RETAINED_BYTES_LIMIT, QUIC_DATAGRAM_RECEIVE_BUFFER_BYTES in *.
    change (2 ^ 64) with 18446744073709551616. lia. }
  split; cbn; [done| |done| |done|rewrite Hw, Hc; lia|lia| |].
  - intros i. rewrite Hd. destruct (decide (i = id)) as [->|Hne].
    + rewrite lookup_insert_eq, He. naive_solver.
    + by rewrite lookup_insert_ne.
  - by apply map_Forall_insert_2.
  - eapply StronglySorted_mono; [|exact Hso]. intros a b Hab ea eb.
    rewrite !lookup_insert_Some. intros [[<- <-]|[? Ha]] [[<- <-]|[? Hb]]; rewrite ?Hex; eauto.
  - apply map_Forall_insert_2; [|done]. rewrite Hex. exact (Hf id e He).
Qed.

Lemma assemble_spec ext now s id e :
  inv ext now s -> 0 <= ext -> pending s !! id = Some e -> filled e = length (parts e) ->
  inv ext now (assemble s id).1 /\ pending (assemble s id).1 = delete id (pending s) /\
  (forall pk, (assemble s id).2 = Some pk ->
     pk = ZCPacket.new_from_buf (concat (received (parts e))) DummyTunnel) /\
  (16 <= payload_bytes e -> Gov.retained (governor s) + payload_bytes e <= Gov.limit (governor s) < 2 ^ 64 ->
     (assemble s id).2 <> None).
Proof.
  intros Hi Hx He Hf. pose proof (i_entries _ _ _ Hi id e He) as Hok.
  pose proof (entry_retained_nonneg e Hok). pose proof (e_permit _ Hok) as Hpm.
  destruct (remove_inv ext now s id e Hi He) as (Hr & Hp & Hgs & Hi').
  unfold assemble. rewrite Hr. set (s1 := (remove s id).1) in *.
  change (Z.of_nat PEER_MANAGER_HEADER_SIZE) with 16.
  pose proof (inv_release ext now s1 (permit e) Hi' Hx ltac:(lia)) as Hrel.
  destruct (payload_bytes e <? 16) eqn:Eb; bool_to_Z.
  { split_and!; [exact Hrel|exact Hp|done|lia]. }
  unfold Gov.try_reserve_owned. pose proof (Gov.reserve_spec (governor s1) (payload_bytes e)) as Hg.
  pose proof (Gov.reserve_granted (governor s1) (payload_bytes e)) as Hgr.
  destruct (Gov.reserve (governor s1) (payload_bytes e)) as [g ok]; destruct Hg as [_ Hg]. destruct ok.
  - destruct Hg as [Hg _]. cbn.
    assert (Gov.retained (Gov.release g (payload_bytes e)) = Gov.retained (governor s1)) as Hrr.
    { rewrite Gov.release_spec; cbn; rewrite Hg; [lia|].
      pose proof (i_gov _ _ _ Hi'). pose proof (charge_nonneg _ (i_entries _ _ _ Hi')). lia. }
    split_and!.
    + apply inv_release; [|done|lia]. by apply (inv_governor _ _ s1).
    + exact Hp.
    + intros pk. rewrite received_complete by (rewrite <-(e_filled _ Hok); done). cbn. by intros [= <-].
    + intros _ _. rewrite received_complete by (rewrite <-(e_filled _ Hok); done). done.
  - subst g. cbn. split_and!; [exact Hrel|exact Hp|done|]. intros _ Hroom.
    rewrite Hgs in Hgr. specialize (Hgr ltac:(lia)). exfalso.
    pose proof (i_gov _ _ _ Hi). pose proof (charge_nonneg _ (i_entries _ _ _ Hi)).
    specialize (Hgr ltac:(lia) ltac:(lia) ltac:(lia)). discriminate Hgr.
Qed.

(** the entry after the fragment at [index] *)
Definition fill (e : FragmentInProgress) (index : nat) (payload : list Z) : FragmentInProgress :=
  mk_entry (<[index := Some payload]> (parts e)) (filled e + 1) (payload_bytes e + len payload)
    (entry_retained e + len payload) (expires e) (permit e + len payload).

Lemma fill_ok e index payload :
  entry_ok e -> parts e !! index = Some None -> entry_ok (fill e index payload).
Proof.
  intros [Hc Hf Hp Hr Hm] Hi. pose proof (received_insert _ _ payload Hi) as [H1 H2].
  split; unfold fill; cbn [parts filled payload_bytes entry_retained permit];
    rewrite ?length_insert, ?H1, ?H2; lia.
Qed.

Lemma store_spec ext now s id e index payload :
  inv ext now s -> 0 <= ext -> pending s !! id = Some e -> 0 <= index ->
  parts e !! Z.to_nat index = Some None ->
  retained_bytes s + len payload <= RETAINED_BYTES_LIMIT ->
  let e' := fill e (Z.to_nat index) payload in
  exists s' r, store s id e index payload = Ok (s', r) /\ inv ext now s' /\
    (pending s' = delete id (pending s) \/
     (pending s' = <[id := e']> (pending s) /\ filled e' <> length (parts e') /\ r = None)) /\
    (forall pk, r = Some pk -> filled e' = length (parts e') /\
       pk = ZCPacket.new_from_buf (concat (received (parts e'))) DummyTunnel) /\
    (Gov.limit (governor s) < 2 ^ 64 ->
     Gov.retained (governor s) + len payload + payload_bytes e' <= Gov.limit (governor s) ->
     if decide (filled e' = length (parts e')) then 16 <= payload_bytes e' -> r <> None
     else pending s' = <[id := e']> (pending s)).
Proof.
  intros Hi Hx He Hix Hpart Hlim e'. pose proof (i_entries _ _ _ Hi id e He) as Hok.
  pose proof (entry_retained_nonneg e Hok). pose proof (len_nonneg payload).
  pose proof (fill_ok e _ payload Hok Hpart) as Hok'. fold e' in Hok'.
  pose proof (charge_delete _ _ _ He) as Hcd.
  pose proof (charge_nonneg _ (map_Forall_delete _ _ id (i_entries _ _ _ Hi))) as Hcn.
  pose proof (i_retained _ _ _ Hi) as Hri. pose proof (i_gov _ _ _ Hi) as Hgi.
  assert (RETAINED_BYTES_LIMIT < 2 ^ 64) as Hlim64 by done.
  unfold store, Gov.try_extend.
  rewrite checked_add_small by (rewrite (e_permit _ Hok); lia).
  pose proof (Gov.reserve_spec (governor s) (len payload)) as Hg.
  pose proof (Gov.reserve_granted (governor s) (len payload) ltac:(lia)) as Hgr.
  destruct (Gov.reserve (governor s) (len payload)) as [g ok]; destruct Hg as [Hgl Hg]. destruct ok; cbn [negb].
  2: { subst g. destruct (remove_drop_inv ext now (set_governor s (governor s)) id) as [Hi' Hp];
         [by apply inv_governor|done|].
       eexists _, None. split_and!; [done|exact Hi'|by left|done|]. intros H64 Hroom. exfalso.
       specialize (Hgr ltac:(lia) ltac:(cbn in Hroom; lia) H64). discriminate Hgr. }
  destruct Hg as [Hg _].
  rewrite bool_decide_false by (apply lookup_lt_Some in Hpart; lia). cbn [parts filled].
  assert (forall z, 0 <= z <= RETAINED_BYTES_LIMIT -> wrap 64 z = z) as Hw
    by (intros; apply wrap_small; unfold is_u; lia).
  rewrite (Hw (payload_bytes e + len payload)), (Hw (entry_retained e + len payload)) by lia.
  fold (fill e (Z.to_nat index) payload). fold e'.
  pose proof (inv_update ext now s id e e' (len payload) g Hi He Hok' eq_refl eq_refl ltac:(lia) Hlim Hg) as Hi2.
  change (pending (set_governor s g)) with (pending s). change (order (set_governor s g)) with (order s).
  change (retained_bytes (set_governor s g)) with (retained_bytes s). change (governor (set_governor s g)) with g.
  change (expiry (set_governor s g)) with (expiry s).
  set (s2 := mk _ _ _ _ _) in *.
  change (<[Z.to_nat index:=Some payload]> (parts e)) with (parts e'). change (filled e + 1)%nat with (filled e').
  case_bool_decide as Hcomplete; cbn [negb].
  - assert (pending s2 !! id = Some e') as He2 by apply lookup_insert_eq.
    destruct (assemble_spec ext now s2 id e' Hi2 Hx He2 Hcomplete) as (H1 & H2 & H3 & H4).
    destruct (assemble s2 id) as [s3 r] eqn:Ea. cbn [fst snd] in H1, H2, H3, H4. exists s3, r. split_and!; [done|done| |auto|].
    + left. rewrite H2. cbn. apply delete_insert_eq.
    + intros H64 Hroom. rewrite decide_True by done. intros H16. apply H4; [done|].
      change (governor s2) with g. rewrite Hgl. lia.
  - exists s2, None. split_and!; [done|done|by right|done|]. intros _ _. by rewrite decide_False.
Qed.

(** ** One fragment *)
Definition arrival : Type := Z * Z * Z * list Z.

(** every stored part is a fragment that arrived for its place *)
Definition prov (H : list arrival) (m : gmap Z FragmentInProgress) : Prop :=
  forall id e k bytes, m !! id = Some e -> parts e !! k = Some (Some bytes) ->
    (id, Z.of_nat k, Z.of_nat (length (parts e)), bytes) ∈ H.

Lemma prov_keeps H m m' : prov H m -> keeps m' m -> prov H m'.
Proof. intros Hp Hk id e k b He. apply Hp. eapply lookup_weaken; [exact He|exact Hk]. Qed.

Lemma prov_weaken a H m : prov H m -> prov (a :: H) m.
Proof. intros Hp id e k b He Hb. apply list_elem_of_further. by eapply Hp. Qed.

Lemma prov_fill H m m' id e index count payload :
  prov H m -> keeps (delete id m') m -> m' !! id = Some (fill e (Z.to_nat index) payload) ->
  (m !! id = Some e \/ parts e = replicate (Z.to_nat count) None) ->
  0 <= index -> length (parts e) = Z.to_nat count -> 0 <= count ->
  prov ((id, index, count, payload) :: H) m'.
Proof.
  intros Hp Hk He' He Hi Hl Hc i e0 k b Hm Hb.
  destruct (decide (i = id)) as [->|Hne].
  - rewrite He' in Hm. injection Hm as <-. cbn [fill parts] in Hb |- *. rewrite length_insert, Hl, Z2Nat.id by done.
    apply list_lookup_insert_Some in Hb as [(<- & [= <-] & _)|[Hne Hb]].
    + rewrite Z2Nat.id by done. apply list_elem_of_here.
    + apply list_elem_of_further. destruct He as [He|He].
      * pose proof (Hp id e k b He Hb) as Hin. by rewrite Hl, Z2Nat.id in Hin by done.
      * rewrite He in Hb. apply lookup_replicate in Hb as [? _]. done.
  - apply list_elem_of_further. apply (Hp i e0 k b); [|done].
    eapply lookup_weaken; [|exact Hk]. by rewrite lookup_delete_ne.
Qed.

Lemma fill_prov H m id e index count payload ps :
  prov H m -> (m !! id = Some e \/ parts e = replicate (Z.to_nat count) None) ->
  0 <= index -> length (parts e) = Z.to_nat count -> 0 <= count ->
  filled (fill e (Z.to_nat index) payload) = length (parts (fill e (Z.to_nat index) payload)) ->
  entry_ok (fill e (Z.to_nat index) payload) ->
  received (parts (fill e (Z.to_nat index) payload)) = ps ->
  length ps = Z.to_nat count /\
  forall k b, ps !! k = Some b -> (id, Z.of_nat k, count, b) ∈ (id, index, count, payload) :: H.
Proof.
  intros Hp He Hi Hl Hc Hf Hok <-. set (e' := fill e (Z.to_nat index) payload) in *.
  rewrite (e_filled _ Hok) in Hf.
  assert (length (parts e') = Z.to_nat count) as Hl'
    by (unfold e'; cbn [fill parts]; by rewrite length_insert).
  split; [by rewrite Hf|]. intros k b Hb.
  pose proof (received_complete _ Hf) as Hm. apply mapM_Some_1 in Hm.
  destruct (Forall2_lookup_r _ _ _ _ _ Hm Hb) as (x & Hx & ->).
  pose proof (prov_fill H m (<[id := e']> m) id e index count payload Hp) as Hpf.
  specialize (Hpf ltac:(rewrite delete_insert_eq; apply delete_subseteq) (lookup_insert_eq _ _ _) He Hi Hl Hc).
  pose proof (Hpf id e' k b (lookup_insert_eq _ _ _) Hx) as Hin. by rewrite Hl', Z2Nat.id in Hin by done.
Qed.

(** what every branch of [push_fragment] establishes *)
Definition push_result (ext now : Z) (H : list arrival) (id count : Z)
    (o : outcome unit (t * option ZCPacket.t)) : Prop :=
  exists s' r, o = Ok (s', r) /\ inv ext now s' /\ prov H (pending s') /\
    (forall pk, r = Some pk -> exists ps, pk = ZCPacket.new_from_buf (concat ps) DummyTunnel /\
       length ps = Z.to_nat count /\
       forall k b, ps !! k = Some b -> (id, Z.of_nat k, count, b) ∈ H).

Lemma push_none ext now H a id count s :
  inv ext now s -> prov H (pending s) -> push_result ext now (a :: H) id count (Ok (s, None)).
Proof. intros Hi Hp. exists s, None. split_and!; [done|done|by apply prov_weaken|done]. Qed.

Lemma store_step ext now s m H id e index count payload :
  inv ext now s -> 0 <= ext -> pending s !! id = Some e ->
  prov H m -> keeps (delete id (pending s)) m ->
  (m !! id = Some e \/ parts e = replicate (Z.to_nat count) None) ->
  0 <= index -> 0 <= count -> length (parts e) = Z.to_nat count ->
  parts e !! Z.to_nat index = Some None ->
  retained_bytes s + len payload <= RETAINED_BYTES_LIMIT ->
  push_result ext now ((id, index, count, payload) :: H) id count (store s id e index payload).
Proof.
  intros Hi Hx He Hp Hk Hsrc Hix Hc Hl Hpart Hlim.
  pose proof (fill_ok e _ payload (i_entries _ _ _ Hi id e He) Hpart) as Hok.
  destruct (store_spec ext now s id e index payload Hi Hx He Hix Hpart Hlim)
    as (s' & r & -> & Hi' & Hpend & Hpk & _).
  exists s', r. split_and!; [done|done| |].
  - destruct Hpend as [->|(-> & _ & _)].
    + apply prov_weaken. by eapply prov_keeps.
    + eapply (prov_fill H m); [done| |apply lookup_insert_eq|done..]. by rewrite delete_insert_eq.
  - intros pk Hr. destruct (Hpk pk Hr) as [Hf ->]. eexists. split; [done|].
    by eapply (fill_prov H m).
Qed.

Lemma push_fragment_spec ext now now' s id index count payload H :
  inv ext now s -> 0 <= ext -> now <= now' -> is_byte index -> is_byte count -> prov H (pending s) ->
  push_result ext now' ((id, index, count, payload) :: H) id count
    (push_fragment SLOT s id index count payload now').
Proof.
  intros Hi Hx Hn Hib Hcb Hpr. unfold is_byte in *. unfold push_fragment.
  apply (inv_time _ _ now') in Hi; [|done].
  destruct (_ || _) eqn:Eg; [by apply push_none|]. bool_to_Z.
  destruct (expire_spec ext now' now' s Hi Hx) as (s1 & -> & Hi1 & Hex). cbn [mbind outcome_bind].
  assert (keeps (pending s1) (pending s)) as Hk1 by (apply map_subseteq_spec; naive_solver).
  pose proof (prov_keeps _ _ _ Hpr Hk1) as Hpr1. clear Hk1 Hex Hpr Hi s.
  pose proof (remove_drop_inv ext now' s1 id Hi1 Hx) as [Hid _].
  pose proof (prov_keeps _ _ _ Hpr1 (remove_drop_keeps ext now' s1 id Hi1 Hx)) as Hprd.
  pose proof (len_nonneg payload). pose proof (i_limit _ _ _ Hi1).
  destruct (pending s1 !! id) as [e|] eqn:He.
  - case_bool_decide as Hl; [|by apply push_none]. cbn [negb].
    destruct (lookup_lt_is_Some_2 (parts e) (Z.to_nat index)) as [part Hpart]; [lia|].
    rewrite Hpart. cbn [unwrap mbind outcome_bind].
    case_bool_decide as Hpt; [by apply push_none|].
    destruct part; [by exfalso; apply Hpt; eauto|].
    destruct (checked_add 64 0 (len payload)) as [c|] eqn:Ec; [|by apply push_none].
    apply checked_add_Some in Ec as [-> _]. unfold saturating_sub.
    destruct (_ <? _) eqn:Elim; [by apply push_none|]. bool_to_Z.
    cbn [mbind outcome_bind negb]. rewrite He. cbn [unwrap mbind outcome_bind].
    apply (store_step ext now' s1 (pending s1)); try done; [apply delete_subseteq|by left|lia..].
  - cbn [mbind outcome_bind].
    destruct (checked_add 64 (count * SLOT) (len payload)) as [c|] eqn:Ec; [|by apply push_none].
    apply checked_add_Some in Ec as [-> _]. unfold saturating_sub.
    destruct (_ <? _) eqn:Elim; [by apply push_none|]. bool_to_Z.
    destruct (insert_entry_spec ext now' s1 id count Hi1 Hx He) as (s2 & b & -> & Hi2 & Hb); [lia|lia|].
    cbn [mbind outcome_bind]. destruct b; cbn [negb]; [|apply push_none; [done|exact (prov_keeps _ _ _ Hpr1 Hb)]].
    destruct Hb as (He2 & Hk & Hr). rewrite He2. cbn [unwrap mbind outcome_bind].
    apply (store_step ext now' s2 (pending s1)); try done; [by right|lia|lia| | |lia].
    + cbn. apply length_replicate.
    + cbn. apply lookup_replicate. split; [done|lia].
Qed.

(** ** Progress of one assembly *)
Definition glimit (s : t) : Z := Gov.limit (governor s).

Lemma charge_keeps m m' :
  map_Forall (fun _ e => entry_ok e) m -> keeps m' m -> charge m' <= charge m.
Proof.
  revert m'. induction m as [|i e m Hi IH] using map_ind; intros m' Hok Hk.
  - assert (m' = ∅) as ->; [|done]. apply map_eq. intros i. apply (lookup_weaken_None _ _ _ (lookup_empty i) Hk).
  - rewrite map_Forall_insert in Hok by done. destruct Hok as [He Hok].
    pose proof (entry_retained_nonneg e He). rewrite charge_insert by done.
    assert (keeps (delete i m') m) as Hk'
      by (apply (delete_mono _ _ i) in Hk; by rewrite delete_insert_id in Hk).
    specialize (IH _ Hok Hk'). destruct (m' !! i) as [e'|] eqn:E.
    + assert (e' = e) as -> by (pose proof (lookup_weaken _ _ _ _ E Hk) as Hl;
        rewrite lookup_insert_eq in Hl; by injection Hl).
      rewrite (charge_delete _ _ _ E). lia.
    + rewrite delete_id in IH by done. lia.
Qed.

Lemma inv_retained_le ext now ext' now' s s' :
  inv ext now s -> inv ext' now' s' -> keeps (pending s') (pending s) -> retained_bytes s' <= retained_bytes s.
Proof.
  intros Hi Hi' Hk. rewrite (i_retained _ _ _ Hi), (i_retained _ _ _ Hi').
  apply charge_keeps; [apply Hi|done].
Qed.

Lemma release_glimit g b : Gov.limit (Gov.release g b) = Gov.limit g.
Proof. unfold Gov.release. by destruct (_ <=? _). Qed.

Lemma remove_drop_glimit s id : glimit (remove_drop s id) = glimit s.
Proof.
  unfold remove_drop, remove, glimit. destruct (pending s !! id); [|done]. apply release_glimit.
Qed.

Lemma expire_loop_glimit fuel t0 : forall s s', expire_loop fuel s t0 = Ok s' -> glimit s' = glimit s.
Proof.
  induction fuel as [|fuel IH]; intros s s'; cbn [expire_loop]; destruct (order s); try naive_solver.
  destruct (pending s !! z); cbn [unwrap mbind outcome_bind]; [|done].
  destruct (_ <? _); [naive_solver|]. intros Hl%IH. by rewrite Hl, remove_drop_glimit.
Qed.

Lemma expire_glimit s s' t0 : expire s t0 = Ok s' -> glimit s' = glimit s.
Proof.
  unfold expire. intros (s1 & Hl%expire_loop_glimit & [= <-])%bind_Ok. rewrite <-Hl.
  unfold schedule_expiry. destruct (order s1); [done|]. by destruct (pending s1 !! z).
Qed.

Lemma reserve_glimit g b : Gov.limit (Gov.reserve g b).1 = Gov.limit g.
Proof. pose proof (Gov.reserve_spec g b) as H. destruct (Gov.reserve g b). apply H. Qed.

Lemma insert_entry_live ext now s id count :
  inv ext now s -> 0 <= ext -> pending s !! id = None -> 0 < count <= 255 ->
  retained_bytes s + count * SLOT <= RETAINED_BYTES_LIMIT ->
  retained_bytes s + ext + count * SLOT <= glimit s < 2 ^ 64 ->
  exists s', insert_entry s id count now (count * SLOT) = Ok (s', true) /\ glimit s' = glimit s.
Proof.
  intros Hi Hx Hn Hc Hl Hroom. unfold insert_entry.
  assert (exists s1, (if bool_decide (size (pending s) = DATAGRAM_FRAGMENT_MAX_PENDING)
            then oldest ← unwrap (head (order s)); Ok (remove_drop s oldest) else Ok s)
          = @Ok unit _ s1 /\ Gov.retained (governor s1) = retained_bytes s1 + ext /\ 0 <= retained_bytes s1 /\
          retained_bytes s1 <= retained_bytes s /\ glimit s1 = glimit s) as (s1 & -> & Hg & H0 & Hr & Hgl).
  { case_bool_decide as Hb.
    - destruct (order s) as [|x l] eqn:Eo; [rewrite (inv_size _ _ _ Hi), Eo in Hb; done|]. cbn.
      eexists. split; [done|]. destruct (remove_drop_inv ext now s x Hi Hx) as [Hi1 Hp].
      rewrite (i_gov _ _ _ Hi1), <-(i_retained _ _ _ Hi1). split_and!; [done| | |apply remove_drop_glimit].
      + rewrite (i_retained _ _ _ Hi1). apply charge_nonneg, Hi1.
      + eapply inv_retained_le; [exact Hi|exact Hi1|by eapply remove_drop_keeps].
    - exists s. rewrite (i_gov _ _ _ Hi), <-(i_retained _ _ _ Hi). split_and!; [done|done| |lia|done].
      rewrite (i_retained _ _ _ Hi). apply charge_nonneg, Hi. }
  cbn [mbind outcome_bind]. unfold Gov.try_reserve_owned.
  pose proof (reserve_glimit (governor s1) (count * SLOT)) as Hgl2. unfold glimit in *.
  rewrite Gov.reserve_granted in Hgl2 |- * by nia. eexists. split; [done|]. exact Hgl.
Qed.

Lemma assemble_glimit s id : glimit (assemble s id).1 = glimit s.
Proof.
  unfold assemble, remove, glimit. destruct (pending s !! id) as [e|]; [|done].
  destruct (_ <? _); [apply release_glimit|]. unfold Gov.try_reserve_owned.
  match goal with |- context [Gov.reserve ?g ?b] =>
    pose proof (reserve_glimit g b) as H; destruct (Gov.reserve g b) as [g' []] end;
    cbn in *; by rewrite !release_glimit.
Qed.

Lemma store_glimit s id e index payload s' r :
  store s id e index payload = Ok (s', r) -> glimit s' = glimit s.
Proof.
  unfold store, Gov.try_extend. destruct (checked_add _ _ _).
  2: { cbn. intros [= <- <-]. by rewrite remove_drop_glimit. }
  pose proof (reserve_glimit (governor s) (len payload)) as H.
  destruct (Gov.reserve _ _) as [g []]; cbn [fst] in H; cbn -[assemble].
  2: { intros [= <- <-]. rewrite remove_drop_glimit. exact H. }
  case_bool_decide; [done|]. case_bool_decide; cbn -[assemble].
  - intros Ha. injection Ha as Ha. apply (f_equal fst) in Ha. cbn [fst] in Ha. rewrite <-Ha, assemble_glimit. exact H.
  - intros [= <- <-]. exact H.
Qed.

(** [store] makes progress when there is room *)
Lemma store_live ext now s id e index payload :
  inv ext now s -> 0 <= ext -> pending s !! id = Some e -> 0 <= index ->
  parts e !! Z.to_nat index = Some None ->
  retained_bytes s + len payload <= RETAINED_BYTES_LIMIT ->
  let e' := fill e (Z.to_nat index) payload in
  retained_bytes s + ext + len payload + payload_bytes e' <= glimit s < 2 ^ 64 ->
  exists s' r, store s id e index payload = Ok (s', r) /\ inv ext now s' /\ glimit s' = glimit s /\
    if decide (filled e' = length (parts e'))
    then 16 <= payload_bytes e' -> r = Some (ZCPacket.new_from_buf (concat (received (parts e'))) DummyTunnel)
    else r = None /\ pending s' !! id = Some e' /\ retained_bytes s' <= retained_bytes s + len payload.
Proof.
  intros Hi Hx He Hix Hpart Hlim e' Hroom.
  destruct (store_spec ext now s id e index payload Hi Hx He Hix Hpart Hlim)
    as (s' & r & Hs & Hi' & Hpend & Hpk & Hlive).
  exists s', r. split_and!; [done|done|by eapply store_glimit|].
  pose proof (i_gov _ _ _ Hi) as Hg. rewrite <-(i_retained _ _ _ Hi) in Hg.
  unfold glimit in Hroom. specialize (Hlive ltac:(lia) ltac:(fold e'; lia)). fold e' in Hlive, Hpend, Hpk.
  case_decide as Hd.
  - intros H16. specialize (Hlive H16). destruct r as [pk|]; [|done]. f_equal. by apply Hpk.
  - assert (r = None) as -> by (destruct r as [pk|]; [|done]; by destruct (Hpk pk eq_refl)).
    split_and!; [done|rewrite Hlive; apply lookup_insert_eq|].
    rewrite (i_retained _ _ _ Hi'), Hlive, (charge_update _ _ _ _ He), (i_retained _ _ _ Hi).
    unfold e'. cbn [fill entry_retained]. lia.
Qed.

(** the entry [id] is in before the fragment, and what storing it costs *)
Definition target (s : t) (id count time : Z) (e : FragmentInProgress) (metadata : Z) : Prop :=
  (pending s !! id = Some e /\ time < expires e /\ metadata = 0) \/
  (pending s !! id = None /\ e = fresh_entry count time /\ metadata = count * SLOT).

Lemma push_live ext now time s id index count payload e metadata :
  inv ext now s -> 0 <= ext -> now <= time -> 0 <= index < count -> count <= 255 ->
  target s id count time e metadata ->
  length (parts e) = Z.to_nat count -> parts e !! Z.to_nat index = Some None ->
  let e' := fill e (Z.to_nat index) payload in
  let cost := metadata + len payload in
  retained_bytes s + cost <= RETAINED_BYTES_LIMIT ->
  retained_bytes s + ext + cost + payload_bytes e' <= glimit s < 2 ^ 64 ->
  exists s' r, push_fragment SLOT s id index count payload time = Ok (s', r) /\
    inv ext time s' /\ glimit s' = glimit s /\
    if decide (filled e' = length (parts e'))
    then 16 <= payload_bytes e' -> r = Some (ZCPacket.new_from_buf (concat (received (parts e'))) DummyTunnel)
    else r = None /\ pending s' !! id = Some e' /\ retained_bytes s' <= retained_bytes s + cost.
Proof.
  intros Hi Hx Hn Hix Hc Htg Hl Hpart e' cost Hlim Hroom. unfold push_fragment.
  rewrite (proj2 (Z.eqb_neq _ _)), (proj2 (Z.leb_gt _ _)) by lia. cbn [orb].
  apply (inv_time _ _ time) in Hi; [|done].
  destruct (expire_spec ext time time s Hi Hx) as (s1 & Hs1 & Hi1 & Hex). rewrite Hs1.
  pose proof (expire_glimit _ _ _ Hs1) as Hgl. cbn [mbind outcome_bind].
  assert (retained_bytes s1 <= retained_bytes s) as Hr1.
  { eapply inv_retained_le; [exact Hi|exact Hi1|]. apply map_subseteq_spec. naive_solver. }
  rewrite <-Hgl in Hroom |- *. pose proof (len_nonneg payload).
  assert (0 <= metadata) by (destruct Htg as [(_ & _ & ->)|(_ & _ & ->)]; lia).
  assert (0 <= retained_bytes s1) by (rewrite (i_retained _ _ _ Hi1); apply charge_nonneg, Hi1).
  assert (checked_add 64 metadata (len payload) = Some cost) as Hca.
  { apply checked_add_small. unfold cost in *. assert (RETAINED_BYTES_LIMIT < 2 ^ 64) by done. lia. }
  destruct Htg as [(He & Ht & ->)|(He & -> & ->)].
  - assert (pending s1 !! id = Some e) as He1 by (apply Hex; done). rewrite He1.
    rewrite bool_decide_true, Hpart by done. cbn [negb unwrap mbind outcome_bind].
    rewrite bool_decide_false by (by intros []). rewrite Hca. unfold saturating_sub.
    rewrite (proj2 (Z.ltb_ge _ _)) by lia. cbn [mbind outcome_bind negb]. rewrite He1.
    cbn [unwrap mbind outcome_bind]. unfold cost in *.
    destruct (store_live ext time s1 id e index payload) as (s' & r & -> & Hi' & Hg' & Hres);
      try done; [fold e'; lia..|].
    exists s', r. split_and!; [done..|]. fold e' in Hres. case_decide; [done|].
    destruct Hres as (? & ? & ?). split_and!; [done|done|lia].
  - assert (pending s1 !! id = None) as He1
      by (destruct (pending s1 !! id) eqn:E; [|done]; apply Hex in E as [E _]; congruence).
    rewrite He1. cbn [mbind outcome_bind]. rewrite Hca. unfold saturating_sub.
    rewrite (proj2 (Z.ltb_ge _ _)) by lia. unfold cost in *.
    assert (0 <= payload_bytes e') by (unfold e'; cbn; lia).
    destruct (insert_entry_live ext time s1 id count) as (s2 & Hs2 & Hg2); try done; [lia..|].
    destruct (insert_entry_spec ext time s1 id count) as (s2' & b & Hs2' & Hi2 & Hb); try done; [lia..|].
    rewrite Hs2 in Hs2'. injection Hs2' as <- <-. destruct Hb as (He2 & Hk & Hr).
    rewrite Hs2. cbn [mbind outcome_bind negb]. rewrite He2. cbn [unwrap mbind outcome_bind].
    destruct (store_live ext time s2 id (fresh_entry count time) index payload)
      as (s' & r & -> & Hi' & Hg' & Hres); try done; [lia|lia|rewrite Hg2; fold e'; lia|].
    exists s', r. split_and!; [done|done|by rewrite Hg'|]. fold e' in Hres. case_decide; [done|].
    destruct Hres as (? & ? & ?). split_and!; [done|done|lia].
Qed.

(** ** All fragments of a packet, in any order *)
Section AnyOrder.
Context (ps : list (list Z)) (id ext stream : Z) (datagram : nat -> list Z).
Hypothesis datagram_ok : forall k p, ps !! k = Some p ->
  QuicDatagram.decode_quic_datagram_parts (datagram k) stream
  = Ok (QuicDatagram.Fragment id (Z.of_nat k) (len ps) p).
Hypothesis ps_count : (0 < length ps <= 255)%nat.
Hypothesis ext_nonneg : 0 <= ext.

Definition count : Z := len ps.
Definition bytes_at (k : nat) : list Z := match ps !! k with Some p => p | None => [] end.

(** the parts of the entry while the fragments [todo] are missing *)
Definition view (todo : list nat) : list (option (list Z)) :=
  imap (fun k p => if decide (k ∈ todo) then None else Some p) ps.

Lemma view_insert k todo :
  k ∉ todo -> <[k := Some (bytes_at k)]> (view (k :: todo)) = view todo.
Proof.
  intros Hk. apply list_eq. intros i. unfold view, bytes_at.
  destruct (decide (i = k)) as [->|Hne].
  - destruct (ps !! k) as [p|] eqn:E.
    + rewrite list_lookup_insert_eq by (rewrite length_imap; by apply lookup_lt_Some in E).
      rewrite list_lookup_imap, E. cbn. by rewrite decide_False.
    + rewrite list_insert_ge by (rewrite length_imap; by apply lookup_ge_None). by rewrite !list_lookup_imap, E.
  - rewrite list_lookup_insert_ne by done. rewrite !list_lookup_imap. destruct (ps !! i); [|done]. cbn.
    f_equal. apply decide_ext. set_solver.
Qed.

Lemma view_nil : received (view []) = ps.
Proof.
  unfold view. clear. induction ps as [|p l IH]; [done|]. cbn. f_equal. exact IH.
Qed.

Lemma length_view todo : length (view todo) = length ps.
Proof. apply length_imap. Qed.

Lemma view_missing k todo : (k < length ps)%nat -> view (k :: todo) !! k = Some None.
Proof.
  intros Hk. unfold view. rewrite list_lookup_imap.
  destruct (lookup_lt_is_Some_2 ps k Hk) as [p ->]. cbn. rewrite decide_True; [done|set_solver].
Qed.

Definition missing (todo : list nat) : Z := sum_Z (fun k => len (bytes_at k)) todo.

Lemma received_view todo :
  NoDup todo -> Forall (fun k => k < length ps)%nat todo ->
  (length (received (view todo)) + length todo = length ps)%nat /\
  sum_Z len (received (view todo)) + missing todo = sum_Z len ps.
Proof.
  induction todo as [|k todo IH]; intros Hd Hf.
  - rewrite view_nil. unfold missing. cbn. lia.
  - apply NoDup_cons in Hd as [Hk Hd]. apply Forall_cons_iff in Hf as [Hlt Hf].
    destruct (IH Hd Hf) as [H1 H2].
    destruct (received_insert _ _ (bytes_at k) (view_missing k todo Hlt)) as [H3 H4].
    rewrite view_insert in H3, H4 by done. unfold missing in *. cbn [length sum_Z] in *. lia.
Qed.

(** the datagrams arrive in the order and at the times of [ks] *)
Fixpoint deliver (s : t) (ks : list (nat * Z)) : outcome unit (t * list (option ZCPacket.t)) :=
  match ks with
  | [] => Ok (s, [])
  | (k, time) :: ks =>
      '(s, r) ← ingest SLOT s (datagram k) stream time;
      '(s, rs) ← deliver s ks;
      Ok (s, r :: rs)
  end.

Lemma deliver_cons s k time ks :
  deliver s ((k, time) :: ks) =
  ('(s, r) ← ingest SLOT s (datagram k) stream time;
   '(s, rs) ← deliver s ks; Ok (s, r :: rs)).
Proof. done. Qed.

(** the clock: times do not decrease and stay before the deadline *)
Fixpoint clock (now deadline : Z) (ks : list (nat * Z)) : Prop :=
  match ks with
  | [] => True
  | (_, time) :: ks => now <= time < deadline /\ clock time deadline ks
  end.

Lemma schedule_expiry_glimit s : glimit (schedule_expiry s) = glimit s.
Proof. unfold schedule_expiry. destruct (order s); [done|]. by destruct (pending s !! z). Qed.
Lemma schedule_expiry_retained s : retained_bytes (schedule_expiry s) = retained_bytes s.
Proof. unfold schedule_expiry. destruct (order s); [done|]. by destruct (pending s !! z). Qed.

Lemma deliver_step s now e metadata k time todo :
  inv ext now s -> target s id count time e metadata -> parts e = view (k :: todo) -> entry_ok e ->
  now <= time -> NoDup (k :: todo) -> Forall (fun k => k < length ps)%nat (k :: todo) ->
  retained_bytes s + metadata + missing (k :: todo) <= RETAINED_BYTES_LIMIT ->
  retained_bytes s + ext + metadata + missing (k :: todo) + sum_Z len ps <= glimit s < 2 ^ 64 ->
  16 <= sum_Z len ps ->
  exists s' r, ingest SLOT s (datagram k) stream time = Ok (s', r) /\
    inv ext time s' /\ glimit s' = glimit s /\
    if decide (todo = []) then r = Some (ZCPacket.new_from_buf (concat ps) DummyTunnel)
    else r = None /\ exists e', pending s' !! id = Some e' /\ parts e' = view todo /\
      expires e' = expires e /\ retained_bytes s' <= retained_bytes s + metadata + len (bytes_at k).
Proof.
  intros Hi Htg Hparts Hok Hnow [Hk Hnd]%NoDup_cons [Hklt Hlt]%Forall_cons_iff Hlim Hroom H16.
  pose proof (received_view todo Hnd Hlt) as [Hrl Hrs].
  pose proof (view_missing k todo Hklt) as Hmiss. rewrite <-Hparts in Hmiss.
  pose proof (fill_ok e k (bytes_at k) Hok Hmiss) as Hok'. set (e' := fill e k (bytes_at k)) in *.
  assert (parts e' = view todo) as Hp' by (unfold e'; cbn [fill parts]; rewrite Hparts; by apply view_insert).
  pose proof (e_filled _ Hok') as Hfl. pose proof (e_payload _ Hok') as Hpb. rewrite Hp' in Hfl, Hpb.
  change (missing (k :: todo)) with (len (bytes_at k) + missing todo) in *.
  assert (0 <= missing todo) as Hm0 by (apply sum_Z_nonneg; intros; apply len_nonneg).
  assert (Z.to_nat (Z.of_nat k) = k) as Hkk by lia.
  assert (length (parts e) = Z.to_nat count) as Hlp
    by (rewrite Hparts, length_view; unfold count, len; lia).
  destruct (push_live ext now time s id (Z.of_nat k) count (bytes_at k) e metadata)
    as (s' & r & Hpush & Hi' & Hg' & Hres); rewrite ?Hkk; fold e'; try done; try (unfold count, len; lia); [lia..|].
  exists (schedule_expiry s'), r. unfold ingest.
  rewrite (datagram_ok k (bytes_at k)) by (unfold bytes_at; by destruct (lookup_lt_is_Some_2 ps k Hklt) as [? ->]).
  fold count. rewrite Hpush. cbn [mbind outcome_bind]. rewrite schedule_expiry_glimit, schedule_expiry_pending, schedule_expiry_retained.
  split_and!; [done|by apply schedule_expiry_inv|done|].
  rewrite Hkk in Hres. fold e' in Hres. rewrite Hp', length_view in Hres.
  destruct todo as [|k2 todo]; cbn [length] in Hrl.
  - rewrite decide_True in Hres by lia. rewrite (decide_True (P := [] = [])) by done. rewrite Hres by (rewrite Hpb; unfold missing in Hrs; cbn in Hrs; lia).
    by rewrite view_nil.
  - rewrite decide_False in Hres by lia. rewrite decide_False by done. destruct Hres as (-> & He' & Hr).
    split; [done|]. exists e'. split_and!; [done..|lia].
Qed.

Lemma deliver_live ks : forall s now e metadata k time,
  let all := (k, time) :: ks in
  inv ext now s -> target s id count time e metadata -> parts e = view (all.*1) -> entry_ok e ->
  clock now (expires e) all -> NoDup (all.*1) -> Forall (fun k => k < length ps)%nat (all.*1) ->
  retained_bytes s + metadata + missing (all.*1) <= RETAINED_BYTES_LIMIT ->
  retained_bytes s + ext + metadata + missing (all.*1) + sum_Z len ps <= glimit s < 2 ^ 64 ->
  16 <= sum_Z len ps ->
  exists s', deliver s all = Ok (s', replicate (length ks) None ++
    [Some (ZCPacket.new_from_buf (concat ps) DummyTunnel)]).
Proof.
  induction ks as [|[k2 time2] ks IH];
    intros s now e metadata k time all Hi Htg Hparts Hok [Hnow Hclk] Hnd Hlt Hlim Hroom H16.
  all: destruct (deliver_step s now e metadata k time _ Hi Htg Hparts Hok ltac:(lia) Hnd Hlt Hlim Hroom H16)
         as (s1 & r & Hpush & Hi1 & Hg1 & Hres).
  all: unfold all in *; rewrite deliver_cons, Hpush; cbn [mbind outcome_bind].
  - rewrite decide_True in Hres by done. subst r. by exists s1.
  - rewrite decide_False in Hres by done. destruct Hres as (-> & e1 & He1 & Hp1 & Hex1 & Hr1).
    apply NoDup_cons in Hnd as [_ Hnd]. apply Forall_cons_iff in Hlt as [_ Hlt].
    change (missing (((k, time) :: (k2, time2) :: ks).*1))
      with (len (bytes_at k) + missing (((k2, time2) :: ks).*1)) in *.
    destruct (IH s1 time e1 0 k2 time2) as (s' & Hs'); try done.
    + left. split_and!; [done|rewrite Hex1; apply Hclk|done].
    + apply (i_entries _ _ _ Hi1 id e1 He1).
    + by rewrite Hex1.
    + lia.
    + rewrite Hg1. lia.
    + exists s'. rewrite Hs'. done.
Qed.

End AnyOrder.

End Invariant.

(** ** Whole runs *)
Inductive event : Type :=
| Arrive (id index count : Z) (payload : list Z) (now : Z)
| Poll (now : Z)
| OtherReserve (bytes : Z)
| OtherRelease (bytes : Z).

(** the connection, the bytes the rest of the process holds, and the packets delivered *)
Record sys : Type := mk_sys {
  conn : t;
  other : Z;
  delivered : list (Z * Z * ZCPacket.t);
}.

Definition sys_step (SLOT : Z) (x : sys) (ev : event) : outcome unit sys :=
  match ev with
  | Arrive id index count payload now =>
      '(s, r) ← push_fragment SLOT (conn x) id index count payload now;
      Ok (mk_sys s (other x)
            (match r with Some pk => (id, count, pk) :: delivered x | None => delivered x end))
  | Poll now => s ← poll_expiry (conn x) now; Ok (mk_sys s (other x) (delivered x))
  | OtherReserve bytes =>
      let '(g, ok) := Gov.reserve (governor (conn x)) bytes in
      Ok (mk_sys (set_governor (conn x) g) (if ok then other x + bytes else other x) (delivered x))
  | OtherRelease bytes =>
      if bytes <=? other x
      then Ok (mk_sys (set_governor (conn x) (Gov.release (governor (conn x)) bytes)) (other x - bytes) (delivered x))
      else Ok x
  end.

Fixpoint sys_run (SLOT : Z) (x : sys) (evs : list event) : outcome unit sys :=
  match evs with
  | [] => Ok x
  | ev :: evs => x ← sys_step SLOT x ev; sys_run SLOT x evs
  end.

Definition arrivals (evs : list event) : list arrival :=
  omap (fun ev => match ev with Arrive id index count payload _ => Some (id, index, count, payload) | _ => None end) evs.

(** wire fields are bytes, other owners move non-negative amounts, the clock is monotone *)
Fixpoint events_ok (now : Z) (evs : list event) : Prop :=
  match evs with
  | [] => True
  | Arrive _ index count _ time :: evs => is_byte index /\ is_byte count /\ now <= time /\ events_ok time evs
  | Poll time :: evs => now <= time /\ events_ok time evs
  | (OtherReserve b | OtherRelease b) :: evs => 0 <= b /\ events_ok now evs
  end.

(** a delivered packet is the in-order concatenation of fragments that arrived *)
Definition sound (H : list arrival) (d : Z * Z * ZCPacket.t) : Prop :=
  exists ps, d.2 = ZCPacket.new_from_buf (concat ps) DummyTunnel /\ length ps = Z.to_nat d.1.2 /\
    forall k b, ps !! k = Some b -> (d.1.1, Z.of_nat k, d.1.2, b) ∈ H.

Lemma sound_weaken H H' d : H ⊆ H' -> sound H d -> sound H' d.
Proof. intros Hs (ps & H1 & H2 & H3). exists ps. split_and!; [done..|]. intros k b Hk. apply Hs, H3, Hk. Qed.

Record sys_ok (SLOT now : Z) (H : list arrival) (x : sys) : Prop := {
  ok_inv : inv SLOT (other x) now (conn x);
  ok_other : 0 <= other x;
  ok_prov : prov H (pending (conn x));
  ok_sound : Forall (sound H) (delivered x);
}.

Lemma poll_expiry_inv SLOT ext now time s :
  0 <= SLOT < 2 ^ 32 -> inv SLOT ext now s -> 0 <= ext -> now <= time ->
  exists s', poll_expiry s time = Ok s' /\ inv SLOT ext time s' /\ keeps (pending s') (pending s).
Proof.
  intros HS Hi Hx Hn. apply (inv_time _ _ _ time) in Hi; [|done]. unfold poll_expiry.
  destruct (_ && _); [|by exists s].
  destruct (expire_spec SLOT HS ext time time s Hi Hx) as (s' & -> & Hi' & Hl).
  exists s'. split_and!; [done..|]. apply map_subseteq_spec. naive_solver.
Qed.

Lemma sys_step_ok SLOT now H x ev evs :
  0 <= SLOT < 2 ^ 32 -> sys_ok SLOT now H x -> events_ok now (ev :: evs) ->
  exists x' now', sys_step SLOT x ev = Ok x' /\ events_ok now' evs /\
    sys_ok SLOT now' (match ev with Arrive id index count payload _ => (id, index, count, payload) :: H | _ => H end) x'.
Proof.
  intros HS [Hi Hx Hp Hd] Hev. destruct ev as [id index count payload time|time|b|b]; cbn in Hev |- *.
  - destruct Hev as (Hib & Hcb & Hn & Hev).
    destruct (push_fragment_spec SLOT HS (other x) now time (conn x) id index count payload H Hi Hx Hn Hib Hcb Hp)
      as (s' & r & -> & Hi' & Hp' & Hr). cbn.
    eexists _, time. split_and!; [done..|]. split; cbn; [done|done|done|].
    assert (Forall (sound ((id, index, count, payload) :: H)) (delivered x)) as Hd'.
    { eapply Forall_impl; [exact Hd|]. intros d. apply sound_weaken. set_solver. }
    destruct r as [pk|]; [|done]. constructor; [|done]. by apply Hr.
  - destruct Hev as [Hn Hev].
    destruct (poll_expiry_inv SLOT (other x) now time (conn x) HS Hi Hx Hn) as (s' & -> & Hi' & Hk). cbn.
    eexists _, time. split_and!; [done..|]. split; cbn; [done|done|by eapply prov_keeps|done].
  - destruct Hev as [Hb Hev]. pose proof (Gov.reserve_spec (governor (conn x)) b) as Hg.
    destruct (Gov.reserve _ b) as [g ok]; destruct Hg as [_ Hg].
    eexists _, now. split_and!; [done..|]. split; cbn; [|destruct ok; lia|done|done].
    destruct Hi as [? ? ? ? ? ? Hgov ? ?]. split; cbn; try done. destruct ok; [lia|by rewrite Hg].
  - destruct Hev as [Hb Hev]. destruct (b <=? other x) eqn:E; bool_to_Z.
    + eexists _, now. split_and!; [done..|]. split; cbn; [|lia|done|done].
      apply inv_release; [done|by replace (other x - b + b) with (other x) by lia|lia|lia].
    + by eexists x, now.
Qed.

Lemma sys_run_ok SLOT evs : 0 <= SLOT < 2 ^ 32 -> forall now H x,
  sys_ok SLOT now H x -> events_ok now evs ->
  exists x' now', sys_run SLOT x evs = Ok x' /\ sys_ok SLOT now' (reverse (arrivals evs) ++ H) x'.
Proof.
  intros HS. induction evs as [|ev evs IH]; intros now H x Hok Hev; [by eexists x, now|].
  destruct (sys_step_ok SLOT now H x ev evs HS Hok Hev) as (x1 & now1 & Hs & Hev1 & Hok1).
  cbn [sys_run]. rewrite Hs. cbn [mbind outcome_bind].
  destruct (IH now1 _ x1 Hok1 Hev1) as (x' & now' & Hr & Hok'). exists x', now'. split; [done|].
  unfold arrivals in *. destruct ev; cbn [omap list_omap]; try exact Hok'.
  rewrite reverse_cons, <-app_assoc. exact Hok'.
Qed.

Lemma empty_inv SLOT L : inv SLOT 0 0 (with_governor (Gov.with_limit L)).
Proof.
  split; cbn.
  - apply NoDup_nil_2.
  - intros id. rewrite lookup_empty. split; [set_solver|by intros []].
  - lia.
  - apply map_Forall_empty.
  - done.
  - done.
  - done.
  - apply SSorted_nil.
  - apply map_Forall_empty.
Qed.

(** fragment reassembly is bounded, accounted and sound.  For every run of
    arriving fragments (any ids, orders, duplicates and sizes), timer polls and
    memory traffic of the rest of the process, the cache never panics; it holds
    at most 64 assemblies and 2 MiB; its byte counter is the sum over its
    entries and is exactly its share of the governor's counter; and every
    packet it delivers is the concatenation, in index order, of [count]
    fragments that arrived for that id and count. *)
Theorem fragments_bounded_and_sound (SLOT L : Z) (evs : list event) :
  0 <= SLOT < 2 ^ 32 -> events_ok 0 evs ->
  exists x, sys_run SLOT (mk_sys (with_governor (Gov.with_limit L)) 0 []) evs = Ok x /\
    let s := conn x in
    (size (pending s) <= 64)%nat /\ retained_bytes s <= 2 * 1024 * 1024 /\
    retained_bytes s = charge (pending s) /\
    Gov.retained (governor s) = retained_bytes s + other x /\
    (forall id, id ∈ order s <-> is_Some (pending s !! id)) /\
    Forall (sound (arrivals evs)) (delivered x).
Proof.
  intros HS Hev.
  destruct (sys_run_ok SLOT evs HS 0 [] (mk_sys (with_governor (Gov.with_limit L)) 0 [])) as (x & now' & Hr & Hok).
  - split; cbn; [apply empty_inv|done|by intros ? ? ? ? ?%lookup_empty_Some|apply Forall_nil_2].
  - done.
  - exists x. split; [done|]. destruct Hok as [Hi _ _ Hs]. cbv zeta.
    rewrite (inv_size _ _ _ _ Hi), (i_gov _ _ _ _ Hi), <-(i_retained _ _ _ _ Hi).
    split_and!; [apply Hi|apply Hi|done|done|apply Hi|].
    eapply Forall_impl; [exact Hs|]. intros d. apply sound_weaken. rewrite app_nil_r.
    intros a. by rewrite elem_of_reverse.
Qed.

Lemma fragments_bounded_and_sound_witness :
  exists x, sys_run 32 (mk_sys (with_governor (Gov.with_limit 100000)) 0 [])
    [Arrive 7 1 2 [9; 9] 5; Arrive 7 1 2 [1] 6; OtherReserve 50; Arrive 7 0 2 (replicate 16 3) 9; Poll 20] = Ok x /\
    length (delivered x) = 1%nat /\ retained_bytes (conn x) = 0 /\ Gov.retained (governor (conn x)) = 50.
Proof.
  destruct (fragments_bounded_and_sound 32 100000
    [Arrive 7 1 2 [9; 9] 5; Arrive 7 1 2 [1] 6; OtherReserve 50; Arrive 7 0 2 (replicate 16 3) 9; Poll 20])
    as (x & Hx & _).
  - done.
  - cbn. unfold is_byte. lia.
  - exists x. split; [exact Hx|]. vm_compute in Hx. injection Hx as <-. done.
Defined.

Lemma sum_len_concat (ps : list (list Z)) : sum_Z len ps = len (concat ps).
Proof. induction ps as [|p ps IH]; [done|]. cbn [concat sum_Z]. rewrite len_app, IH. lia. Qed.

Lemma view_all ps todo : seq 0 (length ps) ≡ₚ todo -> view ps todo = replicate (length ps) None.
Proof.
  intros Hp. apply list_eq. intros i. unfold view. rewrite list_lookup_imap.
  destruct (ps !! i) as [p|] eqn:E.
  - pose proof (lookup_lt_Some _ _ _ E). rewrite lookup_replicate_2 by done. cbn.
    rewrite decide_True; [done|]. rewrite <-Hp. apply elem_of_seq. lia.
  - apply lookup_ge_None in E. symmetry. cbn. apply lookup_ge_None. by rewrite length_replicate.
Qed.

Lemma missing_all ps todo : seq 0 (length ps) ≡ₚ todo -> missing ps todo = sum_Z len ps.
Proof.
  intros Hp. unfold missing. rewrite <-(sum_Z_perm _ _ _ Hp). unfold bytes_at. clear Hp todo.
  induction ps as [|p l IH] using rev_ind; [done|].
  rewrite length_app, Nat.add_comm. cbn [length Nat.add]. rewrite seq_S, !sum_Z_app. cbn [sum_Z].
  rewrite lookup_app_r, Nat.sub_diag by lia. cbn. f_equal.
  rewrite <-IH. apply sum_Z_ext. intros k [_ Hk]%elem_of_seq.
  by rewrite lookup_app_l by lia.
Qed.

(** the datagrams of a split packet arrive in some order *)
Lemma deliver_fragments (SLOT stream fid ext now : Z) (body : list Z) (chunk : nat) (s : t) (k0 : nat) (t0 : Z) (ks : list (nat * Z)) :
  let ps := QuicDatagram.chunks chunk body in let dgs := QuicDatagram.fragment_datagrams stream fid ps in
  0 <= SLOT < 2 ^ 32 -> QuicDatagram.stream_ok stream -> is_u 32 fid -> (16 <= length body)%nat -> (0 < chunk)%nat -> (0 < length ps <= 255)%nat ->
  inv SLOT ext now s -> 0 <= ext -> pending s !! fid = None ->
  seq 0 (length dgs) ≡ₚ k0 :: ks.*1 -> clock now (t0 + ASSEMBLY_LIFETIME) ((k0, t0) :: ks) ->
  retained_bytes s + len dgs * SLOT + len body <= RETAINED_BYTES_LIMIT ->
  retained_bytes s + ext + len dgs * SLOT + 2 * len body <= glimit s < 2 ^ 64 ->
  exists s' q, deliver SLOT stream (fun k => match dgs !! k with Some d => d | None => [] end) s ((k0, t0) :: ks) = Ok (s', replicate (length ks) None ++ [Some q]) /\
    ZCPacket.tunnel_payload (E := unit) q = Ok body.
Proof.
  intros ps dgs HS Hst Hfid Hlen Hpos Hcount Hi Hx Hn Hperm Hclk Hlim Hroom.
  pose proof (QuicDatagram.chunks_loop_spec (length body) chunk body Hpos ltac:(lia)) as (Hcat & _ & _).
  fold (QuicDatagram.chunks chunk body) in Hcat. fold ps in Hcat.
  assert (length dgs = length ps) as Hld by apply length_imap.
  assert (len dgs = count ps) as Hld' by (unfold count, len; by rewrite Hld).
  assert (sum_Z len ps = len body) as Hsum by (by rewrite sum_len_concat, Hcat).
  rewrite Hld in Hperm. assert (NoDup (k0 :: ks.*1)) as Hnd by (rewrite <-Hperm; apply NoDup_seq).
  destruct (deliver_live SLOT HS ps fid ext stream (fun k => match dgs !! k with Some d => d | None => [] end))
    with (ks := ks) (s := s) (now := now) (e := fresh_entry SLOT (count ps) t0) (metadata := count ps * SLOT) (k := k0) (time := t0)
    as (s' & Hs'); try done.
  - intros k part Hk. unfold dgs, QuicDatagram.fragment_datagrams. rewrite list_lookup_imap, Hk. cbn.
    apply (QuicDatagram.decode_fragment stream fid (length ps) k part); try done; [by apply lookup_lt_Some in Hk|lia].
  - by right.
  - cbn [parts fresh_entry fmap list_fmap fst]. rewrite view_all by done. unfold count, len. by rewrite Nat2Z.id.
  - apply fresh_entry_ok. unfold count, len. lia.
  - rewrite <-Hperm. apply Forall_forall. intros k [_ Hk]%elem_of_seq. lia.
  - cbn [fmap list_fmap fst]. rewrite missing_all, Hsum by done. lia.
  - cbn [fmap list_fmap fst]. rewrite missing_all, Hsum by done. lia.
  - rewrite Hsum. unfold len. lia.
  - exists s'. eexists. split; [exact Hs'|]. rewrite Hcat.
    unfold ZCPacket.tunnel_payload, get_from. rewrite bool_decide_true by exact (Nat.le_0_l _). done.
Qed.

(** C26: What is sent arrives whole.  A packet of at least a peer-manager header that the sender encodes for any path limit,
    as one datagram or as fragments under an id that the receiver does not hold yet, is rebuilt by the receiver from its
    datagrams in whatever order they come, as long as all come within the assembly lifetime and the receiver has room: every
    datagram but the last yields nothing, the last yields one packet, whose tunnel payload is the one that was sent, for every
    layout and stream id but one: a packet in the TCP layout with removed headroom still attached, on a stream id of 65536 or
    more, may arrive with its tunnel header in front of the payload (the bytes of [leaked]). *)
Theorem fragmented_packet_roundtrip (SLOT stream fid ext now : Z) (max_size : option nat) (p : ZCPacket.t) (body : list Z)
    (dgs : list (list Z)) (fid' : Z) (s : t) (k0 : nat) (t0 : Z) (ks : list (nat * Z)) :
  0 <= SLOT < 2 ^ 32 ->
  QuicDatagram.stream_ok stream -> is_u 32 fid ->
  ZCPacket.tunnel_payload (E := unit) p = Ok body -> (16 <= length body)%nat ->
  QuicDatagram.encode_lossy_quic_datagrams (E := unit) p stream max_size fid = Ok (dgs, fid') ->
  dgs <> [] ->
  inv SLOT ext now s -> 0 <= ext -> pending s !! fid = None ->
  seq 0 (length dgs) ≡ₚ k0 :: ks.*1 -> clock now (t0 + ASSEMBLY_LIFETIME) ((k0, t0) :: ks) ->
  let sent := QuicDatagram.leaked p (QuicDatagram.datagram_prefix stream QuicDatagram.DATAGRAM_CONTEXT_WHOLE) ++ body in
  retained_bytes s + len dgs * SLOT + len sent <= RETAINED_BYTES_LIMIT ->
  retained_bytes s + ext + len dgs * SLOT + 2 * len sent <= glimit s < 2 ^ 64 ->
  (exists s' q,
    deliver SLOT stream (fun k => match dgs !! k with Some d => d | None => [] end) s ((k0, t0) :: ks)
      = Ok (s', replicate (length ks) None ++ [Some q]) /\
    ZCPacket.tunnel_payload (E := unit) q = Ok sent) /\
  ((ZCPacket.packet_type p = Packet.TCP -> ZCPacket.reusable_prefix p = None \/ stream < 65536) -> sent = body).
Proof.
  intros HS Hst Hfid Hb Hlen Henc Hne Hi Hx Hn Hperm Hclk sent Hlim Hroom.
  split; [|intros Ht; by apply (QuicDatagram.wire_payload_clean p stream body)].
  destruct (QuicDatagram.encode_lossy_cases (E := unit) p stream max_size fid body Hst Hb) as (dgs' & fid2 & Henc' & Hcase).
  rewrite Henc in Henc'. injection Henc' as <- <-. fold (QuicDatagram.wire_payload p stream body) in sent. change (QuicDatagram.wire_payload p stream body) with sent in Hcase.
  assert (16 <= length sent)%nat as Hls by (unfold sent, QuicDatagram.wire_payload; rewrite length_app; lia).
  assert (dgs = [QuicDatagram.datagram_prefix stream QuicDatagram.DATAGRAM_CONTEXT_WHOLE ++ sent] \/
    exists chunk, dgs = QuicDatagram.fragment_datagrams stream fid (QuicDatagram.chunks chunk sent) /\ (0 < chunk)%nat /\ (0 < length (QuicDatagram.chunks chunk sent) <= 255)%nat) as [->|(chunk & -> & Hpos & Hcount)].
  { destruct max_size as [m|]; [|left; by destruct Hcase]. case_bool_decide; [left; by destruct Hcase|].
    destruct Hcase as [(-> & _)|(-> & _ & ? & ?)]; [done|]. right. by eexists. }
  - destruct (QuicDatagram.decode_whole stream sent Hst Hls) as (q & Hq & Hqb & _). cbn [length seq] in Hperm.
    apply Permutation_length_1_inv in Hperm. injection Hperm as -> Hks. apply fmap_nil_inv in Hks as ->.
    exists s, q. split; [|done]. cbn [deliver]. unfold ingest. cbn [lookup list_lookup]. rewrite Hq. done.
  - by apply (deliver_fragments SLOT stream fid ext now sent chunk).
Qed.

Lemma fragmented_packet_roundtrip_witness :
  exists dgs s' q,
    QuicDatagram.encode_lossy_quic_datagrams (E := unit) PacketProps.sample_packet 4 (Some 14%nat) 7
      = Ok (dgs, 8) /\
    deliver 32 4 (fun k => match dgs !! k with Some d => d | None => [] end)
      (with_governor (Gov.with_limit 100000)) [(2%nat, 1); (0%nat, 2); (3%nat, 2); (1%nat, 9)]
      = Ok (s', [None; None; None; Some q]) /\
    ZCPacket.tunnel_payload (E := unit) q = ZCPacket.tunnel_payload PacketProps.sample_packet.
Proof.
  destruct (QuicDatagram.encode_lossy_quic_datagrams (E := unit) PacketProps.sample_packet 4 (Some 14%nat) 7)
    as [[dgs fid']| |] eqn:E; [|vm_compute in E; discriminate E..].
  destruct (fragmented_packet_roundtrip 32 4 7 0 0 (Some 14%nat) PacketProps.sample_packet
    (PH.as_bytes (PH.mk 1 9 1 1 1 0 3) ++ [10; 20; 30]) dgs fid' (with_governor (Gov.with_limit 100000))
    2 1 [(0%nat, 2); (3%nat, 2); (1%nat, 9)]) as [(s' & q & H1 & H2) _].
  all: try done.
  all: pose proof E as E'; vm_compute in E'; injection E' as <- <-.
  - vm_compute. lia.
  - discriminate.
  - apply empty_inv.
  - apply (bool_decide_unpack _). vm_compute. exact I.
  - vm_compute. discriminate.
  - vm_compute. split; [discriminate|reflexivity].
  - eexists _, s', q. split; [done|]. split; [exact H1|]. rewrite H2. vm_compute. reflexivity.
Defined.

End Fragments.
