(* ===== verification/GraphAlgo.v ===== *)
(** * Shortest paths with first hops (src/lowertier/src/peers/graph_algo.rs)

    Dijkstra's algorithm as the route table runs it: [usize] costs, an edge
    filter, a binary heap with stale entries, and for every node the first hop
    and the number of hops of the path found.  The heap is an interface, with
    a list as an instance. *)
From stdpp Require Import base list gmap numbers strings.
From Stdlib Require Import ZArith Lia.
From S2P Require Import Prelude.

Local Open Scope Z_scope.

(** ** The priority queue

    [std::collections::BinaryHeap] of [MinScored]: [pop] gives an element of
    least score, in no particular order among equal scores. *)
Class Heap (A H : Type) : Type := {
  heap_new : H;
  heap_push : Z * A -> H -> H;
  heap_pop : H -> option ((Z * A) * H);
  heap_elements : H -> list (Z * A);
}.

Class HeapLaws (A H : Type) `{Heap A H} : Prop := {
  heap_new_elements : heap_elements heap_new = [];
  heap_push_elements x h : heap_elements (heap_push x h) ≡ₚ x :: heap_elements h;
  heap_pop_None h : heap_pop h = None -> heap_elements h = [];
  heap_pop_Some x h h' : heap_pop h = Some (x, h') ->
    heap_elements h ≡ₚ x :: heap_elements h' /\
    Forall (fun y => x.1 <= y.1) (heap_elements h');
}.

(** An unsorted list, searched for its first minimum. *)
Fixpoint take_min {A} (best : Z * A) (rest : list (Z * A)) : (Z * A) * list (Z * A) :=
  match rest with
  | [] => (best, [])
  | y :: rest =>
      if y.1 <? best.1
      then let '(m, l) := take_min y rest in (m, best :: l)
      else let '(m, l) := take_min best rest in (m, y :: l)
  end.

#[export] Instance list_heap (A : Type) : Heap A (list (Z * A)) := {
  heap_new := [];
  heap_push x h := x :: h;
  heap_pop h := match h with [] => None | x :: l => Some (take_min x l) end;
  heap_elements h := h;
}.

Lemma take_min_spec {A} (rest : list (Z * A)) : forall best,
  let '(m, l) := take_min best rest in
  best :: rest ≡ₚ m :: l /\ m.1 <= best.1 /\ Forall (fun y => m.1 <= y.1) l.
Proof.
  induction rest as [|y rest IH]; intros best; cbn; [split_and!; [done|lia|apply Forall_nil_2]|].
  destruct (y.1 <? best.1) eqn:E; bool_to_Z.
  - specialize (IH y). destruct (take_min y rest) as [m l]. destruct IH as (Hp & Hm & Hf).
    split_and!; [by rewrite Hp, Permutation_swap|lia|]. constructor; [lia|done].
  - specialize (IH best). destruct (take_min best rest) as [m l]. destruct IH as (Hp & Hm & Hf).
    split_and!; [|lia|constructor; [lia|done]].
    etransitivity; [apply perm_swap|]. rewrite Hp. apply perm_swap.
Qed.

#[export] Instance list_heap_laws (A : Type) : HeapLaws A (list (Z * A)).
Proof.
  split; cbn; [done|done|by intros []|].
  intros x h h'. destruct h as [|y l]; [done|]. intros [= E].
  pose proof (take_min_spec l y) as H. rewrite E in H. destruct H as (Hp & _ & Hf). done.
Qed.

Module GraphAlgo.

Section Dijkstra.
Context {A : Type} `{CA : Countable A} {Q : Type} {HQ : Heap A Q}.

(** the outgoing edges of a node: target, and cost unless the edge is filtered out *)
Context (edges : A -> list (A * option Z)).

Record state : Type := mk {
  visited : gset A;
  scores : gmap A Z;
  first_hop : gmap A (A * nat);
  visit_next : Q;
}.

Definition out_of_fuel : string := "out of fuel".

(** [first_hop] of a node reached over [node] *)
Definition inherit (start : A) (hops : gmap A (A * nat)) (node next : A) : outcome string (A * nat) :=
  hop ← (if decide (node = start) then Ok (next, O) else unwrap (hops !! node));
  Ok (hop.1, S hop.2).

(** the body of the edge loop *)
Definition relax (start node : A) (node_score : Z) (s : state) (e : A * option Z) : outcome string state :=
  let next := e.1 in
  if decide (next ∈ visited s) then Ok s else
  match e.2 with
  | None => Ok s
  | Some cost =>
      let next_score := wrap 64 (node_score + cost) in
      let improve :=
        hop ← inherit start (first_hop s) node next;
        Ok (mk (visited s) (<[next := next_score]> (scores s)) (<[next := hop]> (first_hop s))
               (heap_push (next_score, next) (visit_next s))) in
      match scores s !! next with
      | Some old => if next_score <? old then improve else Ok s
      | None => improve
      end
  end.

Fixpoint relax_all (start node : A) (node_score : Z) (s : state) (es : list (A * option Z))
    : outcome string state :=
  match es with
  | [] => Ok s
  | e :: es => s ← relax start node node_score s e; relax_all start node node_score s es
  end.

Fixpoint dijkstra_loop (fuel : nat) (start : A) (s : state) : outcome string state :=
  match fuel with
  | O => Err out_of_fuel
  | S fuel =>
      match heap_pop (visit_next s) with
      | None => Ok s
      | Some ((node_score, node), rest) =>
          let s := mk (visited s) (scores s) (first_hop s) rest in
          if decide (node ∈ visited s) then dijkstra_loop fuel start s
          else
            s ← relax_all start node node_score s (edges node);
            dijkstra_loop fuel start
              (mk ({[node]} ∪ visited s) (scores s) (first_hop s) (visit_next s))
      end
  end.

Definition initial (start : A) : state :=
  mk ∅ {[start := 0]} {[start := (start, O)]} (heap_push (0, start) heap_new).

Definition dijkstra_with_first_hop_filtered (fuel : nat) (start : A)
    : outcome string (gmap A Z * gmap A (A * nat)) :=
  s ← dijkstra_loop fuel start (initial start);
  Ok (scores s, first_hop s).

End Dijkstra.

(** every edge costs *)
Definition dijkstra_with_first_hop {A} `{CA : Countable A} {Q} {HQ : Heap A Q}
    (edges : A -> list (A * Z)) (fuel : nat) (start : A) :=
  dijkstra_with_first_hop_filtered (Q := Q)
    (fun n => map (fun e => (e.1, Some e.2)) (edges n)) fuel start.

(** ** Correctness *)
Section Correctness.
Context {A : Type} `{CA : Countable A} {Q : Type} {HQ : Heap A Q} {LQ : HeapLaws A Q}.
Context (edges : A -> list (A * option Z)) (start : A).

(** a walk from [start] to a node: its cost, its number of edges, its first hop *)
Inductive walk : A -> Z -> nat -> A -> Prop :=
| walk_start : walk start 0 0 start
| walk_step u c n f v w :
    walk u c n f -> (v, Some w) ∈ edges u ->
    walk v (c + w) (S n) (if decide (n = O) then v else f).

Lemma walk_zero u c f : walk u c 0 f -> u = start /\ f = start.
Proof. by inversion 1. Qed.

(** a finite graph whose path costs fit a [usize] *)
Context (V : gset A) (C : Z).
Hypothesis start_in : start ∈ V.
Hypothesis edges_in : forall u v w, u ∈ V -> (v, w) ∈ edges u -> v ∈ V.
Hypothesis costs_ok : forall u v w, u ∈ V -> (v, Some w) ∈ edges u -> 0 <= w <= C.
Hypothesis C_nonneg : 0 <= C.
Hypothesis no_overflow : C * Z.of_nat (size V) < 2 ^ 64.

Abbreviation st := (@state A _ _ Q) (only parsing).

(** what holds while the edges of [node] are relaxed; [bound] is the number of
    nodes a path may have used *)
Record inner (node : A) (d : Z) (bound : nat) (s : st) : Prop := {
  in_walk : forall v dv, scores s !! v = Some dv ->
    exists f n, first_hop s !! v = Some (f, n) /\ walk v dv n f;
  in_hops : forall v x, first_hop s !! v = Some x -> is_Some (scores s !! v);
  in_heap : forall k v, (k, v) ∈ heap_elements (visit_next s) ->
    d <= k /\ exists dv, scores s !! v = Some dv /\ dv <= k;
  in_open : forall v dv, v ∉ visited s -> v <> node -> scores s !! v = Some dv ->
    (dv, v) ∈ heap_elements (visit_next s);
  in_closed : forall x, x ∈ visited s -> exists dx, scores s !! x = Some dx /\ dx <= d /\
    forall v w, (v, Some w) ∈ edges x -> exists dv, scores s !! v = Some dv /\ dv <= dx + w;
  in_start : scores s !! start = Some 0 /\ first_hop s !! start = Some (start, O);
  in_V : forall v dv, scores s !! v = Some dv -> v ∈ V /\ 0 <= dv <= C * Z.of_nat bound;
  in_node : scores s !! node = Some d;
  in_fresh : node ∉ visited s;
}.

(** relaxing an edge lowers scores only *)
Definition lowers (s s' : st) : Prop :=
  forall v dv, scores s !! v = Some dv -> exists dv', scores s' !! v = Some dv' /\ dv' <= dv.

Lemma lowers_trans s1 s2 s3 : lowers s1 s2 -> lowers s2 s3 -> lowers s1 s3.
Proof. intros H12 H23 v dv Hv. destruct (H12 v dv Hv) as (d2 & H2 & ?), (H23 v d2 H2) as (d3 & ? & ?). exists d3. split; [done|lia]. Qed.

Definition improved (s : st) (next : A) (score : Z) (hop : A * nat) : st :=
  mk (visited s) (<[next := score]> (scores s)) (<[next := hop]> (first_hop s))
    (heap_push (score, next) (visit_next s)).

Lemma push_elem x y (h : Q) : x ∈ heap_elements (heap_push y h) <-> x = y \/ x ∈ heap_elements h.
Proof. rewrite heap_push_elements. apply elem_of_cons. Qed.

Lemma improved_inner node d bound s next score hop :
  inner node d bound s -> next ∉ visited s -> next <> node -> next ∈ V ->
  walk next score hop.2 hop.1 -> d <= score <= C * Z.of_nat bound ->
  (forall old, scores s !! next = Some old -> score < old) ->
  inner node d bound (improved s next score hop) /\ lowers s (improved s next score hop).
Proof.
  intros Hi Hnv Hne HV Hw Hsc Hold.
  assert (lowers s (improved s next score hop)) as Hl.
  { intros v dv Hv. cbn. destruct (decide (v = next)) as [->|].
    - rewrite lookup_insert_eq. specialize (Hold dv Hv). exists score. split; [done|lia].
    - rewrite lookup_insert_ne by done. exists dv. split; [done|lia]. }
  split; [|done]. destruct Hi as [Iw Ih Ip Io Ic Is Iv In If].
  assert (next <> start) as Hns.
  { intros ->. destruct Is as [Is _]. specialize (Hold 0 Is). pose proof (Iv node d In). lia. }
  split; cbn.
  - intros v dv. destruct (decide (v = next)) as [->|].
    + rewrite !lookup_insert_eq. intros [= <-]. destruct hop as [f n]. by exists f, n.
    + rewrite !lookup_insert_ne by done. apply Iw.
  - intros v x. destruct (decide (v = next)) as [->|].
    + rewrite !lookup_insert_eq. done.
    + rewrite !lookup_insert_ne by done. apply Ih.
  - intros k v. rewrite push_elem. intros [[= -> ->]|Hin].
    + split; [lia|]. exists score. rewrite lookup_insert_eq. split; [done|lia].
    + destruct (Ip k v Hin) as [? (dv & Hdv & ?)]. split; [done|].
      destruct (Hl v dv Hdv) as (dv' & ? & ?). exists dv'. split; [done|lia].
  - intros v dv Hv Hvn. rewrite push_elem. destruct (decide (v = next)) as [->|].
    + rewrite lookup_insert_eq. intros [= <-]. by left.
    + rewrite lookup_insert_ne by done. intros Hd. right. by apply Io.
  - intros x Hx. destruct (Ic x Hx) as (dx & Hdx & Hle & Hcl). exists dx.
    rewrite lookup_insert_ne by (intros ->; done). split_and!; [done..|].
    intros v w Hvw. destruct (Hcl v w Hvw) as (dv & Hdv & ?).
    destruct (Hl v dv Hdv) as (dv' & ? & ?). exists dv'. split; [done|lia].
  - rewrite !lookup_insert_ne by done. done.
  - intros v dv. destruct (decide (v = next)) as [->|].
    + rewrite lookup_insert_eq. intros [= <-]. pose proof (Iv node d In). split; [done|lia].
    + rewrite lookup_insert_ne by done. apply Iv.
  - by rewrite lookup_insert_ne.
  - done.
Qed.

(** one edge *)
Lemma relax_spec node d bound s v w :
  inner node d bound s -> (v, w) ∈ edges node -> node ∈ V ->
  d + C <= C * Z.of_nat bound -> (bound <= size V)%nat ->
  exists s', relax start node d s (v, w) = Ok s' /\ inner node d bound s' /\ lowers s s' /\
    visited s' = visited s /\
    (length (heap_elements (visit_next s')) <= S (length (heap_elements (visit_next s))))%nat /\
    (forall c, w = Some c -> exists dv, scores s' !! v = Some dv /\ dv <= d + c).
Proof.
  intros Hi He HV Hb Hsz. assert (lowers s s) as Hrefl by (intros x dx ?; exists dx; split; [done|lia]).
  pose proof Hi as [Iw Ih Ip Io Ic Is Iv In If]. unfold relax. cbn [fst snd].
  case_decide as Hvis.
  { exists s. split_and!; try done; [lia|]. intros c ->. destruct (Ic v Hvis) as (dv & Hdv & ? & _).
    exists dv. split; [done|]. pose proof (costs_ok node v c HV He). lia. }
  destruct w as [c|]; [|exists s; split_and!; try done; lia].
  pose proof (costs_ok node v c HV He) as Hc. pose proof (Iv node d In) as [_ Hd].
  assert (wrap 64 (d + c) = d + c) as -> by (apply wrap_small; unfold is_u; nia).
  destruct (Iw node d In) as (f & n & Hf & Hw).
  assert (exists hop, inherit start (first_hop s) node v = Ok hop /\ walk v (d + c) hop.2 hop.1) as (hop & -> & Hhop).
  { unfold inherit. case_decide as Hs.
    - subst node. destruct Is as [Hs0 Hs1]. rewrite Hs0 in In. injection In as <-.
      eexists. split; [done|]. apply (walk_step start 0 0 start v c walk_start He).
    - rewrite Hf. eexists. split; [done|]. cbn. pose proof (walk_step _ _ _ _ _ _ Hw He) as Hst.
      rewrite decide_False in Hst; [done|]. intros ->. by destruct (walk_zero _ _ _ Hw). }
  cbn [mbind outcome_bind]. fold (improved s v (d + c) hop).
  assert (forall P : Prop, v <> node -> (forall old, scores s !! v = Some old -> d + c < old) ->
    exists s', @Ok string _ (improved s v (d + c) hop) = Ok s' /\ inner node d bound s' /\ lowers s s' /\
    visited s' = visited s /\
    (length (heap_elements (visit_next s')) <= S (length (heap_elements (visit_next s))))%nat /\
    (forall c0, Some c = Some c0 -> exists dv, scores s' !! v = Some dv /\ dv <= d + c0)) as Himp.
  { intros _ Hne Hlt. destruct (improved_inner node d bound s v (d + c) hop) as [Hi' Hl']; try done; [by eapply edges_in|lia|].
    eexists. split_and!; [done..| |].
    - cbn. by rewrite heap_push_elements.
    - intros c0 [= <-]. exists (d + c). cbn. rewrite lookup_insert_eq. split; [done|lia]. }
  destruct (scores s !! v) as [old|] eqn:Eold.
  - destruct (d + c <? old) eqn:Elt; bool_to_Z.
    + apply (Himp True); [|naive_solver]. intros ->. rewrite In in Eold. injection Eold as <-. lia.
    + exists s. split_and!; try done; [lia|]. intros c0 [= <-]. exists old. done.
  - apply (Himp True); [|naive_solver]. intros ->. congruence.
Qed.

Lemma relax_all_spec node d bound es : forall s,
  inner node d bound s -> (forall e, e ∈ es -> e ∈ edges node) -> node ∈ V ->
  d + C <= C * Z.of_nat bound -> (bound <= size V)%nat ->
  exists s', relax_all start node d s es = Ok s' /\ inner node d bound s' /\ lowers s s' /\
    visited s' = visited s /\
    (length (heap_elements (visit_next s')) <= length es + length (heap_elements (visit_next s)))%nat /\
    (forall v c, (v, Some c) ∈ es -> exists dv, scores s' !! v = Some dv /\ dv <= d + c).
Proof.
  induction es as [|[v w] es IH]; intros s Hi Hes HV Hb Hsz.
  { exists s. split_and!; try done; [|set_solver]. intros x dx ?. exists dx. split; [done|lia]. }
  destruct (relax_spec node d bound s v w Hi) as (s1 & Hr & Hi1 & Hl1 & Hv1 & Hn1 & He1); try done; [apply Hes; set_solver|].
  destruct (IH s1 Hi1) as (s2 & Hr2 & Hi2 & Hl2 & Hv2 & Hn2 & He2); try done; [set_solver|].
  exists s2. cbn [relax_all]. rewrite Hr. cbn [mbind outcome_bind].
  split_and!; [done|done|by eapply lowers_trans|by rewrite Hv2|cbn; lia|].
  intros v' c [Heq|Hin]%elem_of_cons; [|by apply He2]. injection Heq as -> <-.
  destruct (He1 c eq_refl) as (dv & Hdv & ?). destruct (Hl2 _ _ Hdv) as (dv' & ? & ?).
  exists dv'. split; [done|lia].
Qed.

(** between two iterations *)
Record outer (s : st) : Prop := {
  out_walk : forall v dv, scores s !! v = Some dv ->
    exists f n, first_hop s !! v = Some (f, n) /\ walk v dv n f;
  out_hops : forall v x, first_hop s !! v = Some x -> is_Some (scores s !! v);
  out_heap : forall k v, (k, v) ∈ heap_elements (visit_next s) ->
    exists dv, scores s !! v = Some dv /\ dv <= k;
  out_open : forall v dv, v ∉ visited s -> scores s !! v = Some dv ->
    (dv, v) ∈ heap_elements (visit_next s);
  out_closed : forall x, x ∈ visited s -> exists dx, scores s !! x = Some dx /\
    (forall k v, (k, v) ∈ heap_elements (visit_next s) -> dx <= k) /\
    forall v w, (v, Some w) ∈ edges x -> exists dv, scores s !! v = Some dv /\ dv <= dx + w;
  out_start : scores s !! start = Some 0 /\ first_hop s !! start = Some (start, O);
  out_V : forall v dv, scores s !! v = Some dv -> v ∈ V /\ 0 <= dv <= C * Z.of_nat (size (visited s));
  out_visited : visited s ⊆ V;
}.

(** what is still to do: queue entries, and the edges of the nodes not visited *)
Definition work (s : st) : nat :=
  (length (heap_elements (visit_next s)) +
   sum_list_with (fun v => length (edges v)) (elements (V ∖ visited s)))%nat.

Lemma work_visit (vis : gset A) node :
  node ∈ V -> node ∉ vis ->
  sum_list_with (fun v => length (edges v)) (elements (V ∖ vis)) =
  (length (edges node) +
   sum_list_with (fun v => length (edges v)) (elements (V ∖ ({[node]} ∪ vis))))%nat.
Proof.
  intros HV Hn. set (R := V ∖ ({[node]} ∪ vis)).
  assert (V ∖ vis = {[node]} ∪ R) as -> by (apply set_eq; intros x; unfold R;
    destruct (decide (x = node)); set_solver).
  rewrite elements_disj_union by (unfold R; set_solver).
  rewrite sum_list_with_app, elements_singleton. cbn. lia.
Qed.

Lemma pop_inner s node d rest :
  outer s -> heap_pop (visit_next s) = Some ((d, node), rest) -> node ∉ visited s ->
  let s1 := mk (visited s) (scores s) (first_hop s) rest in
  inner node d (S (size (visited s))) s1 /\ node ∈ V.
Proof.
  intros [Ow Oh Op Oo Oc Os Ov Ovs] Hpop Hn. apply heap_pop_Some in Hpop as [Hperm Hmin].
  assert ((d, node) ∈ heap_elements (visit_next s)) as Hin by (rewrite Hperm; set_solver).
  destruct (Op d node Hin) as (d0 & Hd0 & Hle).
  assert (d0 = d) as ->.
  { pose proof (Oo node d0 Hn Hd0) as Hin0. rewrite Hperm in Hin0. apply elem_of_cons in Hin0 as [Heq|Hin0]; [by injection Heq|].
    rewrite Forall_forall in Hmin. specialize (Hmin _ Hin0). cbn in Hmin. lia. }
  split; [|by apply (Ov node d)].
  split; cbn; try done.
  - intros k v Hk. split; [rewrite Forall_forall in Hmin; apply (Hmin (k, v) Hk)|].
    apply Op. rewrite Hperm. set_solver.
  - intros v dv Hv Hvn Hd. pose proof (Oo v dv Hv Hd) as Hi. rewrite Hperm in Hi.
    apply elem_of_cons in Hi as [Heq|Hi]; [naive_solver|done].
  - intros x Hx. destruct (Oc x Hx) as (dx & Hdx & Hk & Hcl). exists dx. split_and!; [done| |done].
    by apply (Hk d node).
  - intros v dv Hv. destruct (Ov v dv Hv) as [? ?]. split; [done|]. rewrite Nat2Z.inj_succ. nia.
Qed.

Lemma inner_outer node d s :
  inner node d (S (size (visited s))) s -> node ∈ V -> visited s ⊆ V ->
  (forall v c, (v, Some c) ∈ edges node -> exists dv, scores s !! v = Some dv /\ dv <= d + c) ->
  outer (mk ({[node]} ∪ visited s) (scores s) (first_hop s) (visit_next s)).
Proof.
  intros [Iw Ih Ip Io Ic Is Iv In If] HV Hvis Hcl. split; cbn; try done.
  - intros k v Hk. by destruct (Ip k v Hk).
  - intros v dv Hv. apply Io; set_solver.
  - intros x [->%elem_of_singleton|Hx]%elem_of_union.
    + exists d. split_and!; [done| |done]. intros k v Hk. by destruct (Ip k v Hk).
    + destruct (Ic x Hx) as (dx & Hdx & Hle & Hc). exists dx. split_and!; [done| |done].
      intros k v Hk. destruct (Ip k v Hk). lia.
  - intros v dv Hv. rewrite size_union by set_solver. rewrite size_singleton. by apply Iv.
  - set_solver.
Qed.

Lemma dijkstra_loop_spec fuel : forall s,
  outer s -> (work s < fuel)%nat ->
  exists s', dijkstra_loop edges fuel start s = Ok s' /\ outer s' /\ heap_elements (visit_next s') = [].
Proof.
  induction fuel as [|fuel IH]; intros s Ho Hw; [lia|]. cbn [dijkstra_loop].
  destruct (heap_pop (visit_next s)) as [[[d node] rest]|] eqn:Epop.
  2: { exists s. split_and!; [done..|]. by apply heap_pop_None. }
  pose proof (heap_pop_Some _ _ _ Epop) as [Hperm _].
  assert (length (heap_elements (visit_next s)) = S (length (heap_elements rest))) as Hlen by (by rewrite Hperm).
  case_decide as Hvis; cbn [visited] in Hvis.
  - apply IH.
    + destruct Ho as [Ow Oh Op Oo Oc Os Ov Ovs]. split; cbn; try done.
      * intros k v Hk. apply Op. rewrite Hperm. set_solver.
      * intros v dv Hv Hd. pose proof (Oo v dv Hv Hd) as Hi. rewrite Hperm in Hi.
        apply elem_of_cons in Hi as [Heq|Hi]; [naive_solver|done].
      * intros x Hx. destruct (Oc x Hx) as (dx & ? & Hk & ?). exists dx. split_and!; [done| |done].
        intros k v Hkv. apply (Hk k v). rewrite Hperm. set_solver.
    + unfold work in *. cbn. lia.
  - destruct (pop_inner s node d rest Ho Epop Hvis) as [Hi HV].
    set (s1 := mk (visited s) (scores s) (first_hop s) rest) in *.
    assert (S (size (visited s)) <= size V)%nat as Hsz.
    { pose proof (subseteq_size ({[node]} ∪ visited s) V) as Hss.
      rewrite size_union, size_singleton in Hss by set_solver. apply Hss. pose proof (out_visited _ Ho). set_solver. }
    assert (d + C <= C * Z.of_nat (S (size (visited s)))) as Hb.
    { pose proof (in_node _ _ _ _ Hi) as Hd. destruct (out_V _ Ho node d Hd). lia. }
    destruct (relax_all_spec node d _ (edges node) s1 Hi) as (s2 & -> & Hi2 & _ & Hv2 & Hn2 & He2); try done.
    cbn [mbind outcome_bind]. change (visited s1) with (visited s) in Hv2. apply IH.
    + apply (inner_outer node d); [by rewrite Hv2|done|rewrite Hv2; apply Ho|done].
    + unfold work in *. cbn [visit_next visited]. rewrite Hv2.
      rewrite (work_visit (visited s) node) in Hw by done. cbn [visit_next] in Hn2. unfold s1 in Hn2. cbn in Hn2. lia.
Qed.

Lemma initial_outer : outer (initial start).
Proof.
  assert (forall x, x ∈ heap_elements (heap_push (0, start) (heap_new : Q)) <-> x = (0, start)) as He.
  { intros x. rewrite push_elem, heap_new_elements. set_solver. }
  split; cbn; try done.
  - intros v dv [<- <-]%lookup_singleton_Some. exists start, O. rewrite lookup_singleton_eq. split; [done|constructor].
  - intros v x [<- <-]%lookup_singleton_Some. by rewrite lookup_singleton_eq.
  - intros k v Hk%He. injection Hk as -> ->. exists 0. rewrite lookup_singleton_eq. split; [done|lia].
  - intros v dv _ [<- <-]%lookup_singleton_Some. by apply He.
  - by rewrite !lookup_singleton_eq.
  - intros v dv [<- <-]%lookup_singleton_Some. rewrite size_empty. split; [done|lia].
Qed.

(** at the end every walk is at least as long as the score of its end *)
Lemma final_optimal s v c n f :
  outer s -> heap_elements (visit_next s) = [] -> walk v c n f ->
  exists d, scores s !! v = Some d /\ d <= c.
Proof.
  intros Ho He. induction 1 as [|u c n f v w Hw IH Hedge].
  - exists 0. split; [apply Ho|lia].
  - destruct IH as (d & Hd & Hle).
    assert (u ∈ visited s) as Hu.
    { destruct (decide (u ∈ visited s)) as [|Hn]; [done|]. pose proof (out_open _ Ho u d Hn Hd) as Hin.
      rewrite He in Hin. set_solver. }
    destruct (out_closed _ Ho u Hu) as (d' & Hd' & _ & Hcl). assert (d' = d) as -> by congruence.
    destruct (Hcl v w Hedge) as (dv & ? & ?). exists dv. split; [done|lia].
Qed.

Definition total_edges : nat := sum_list_with (fun v => length (edges v)) (elements V).

Lemma dijkstra_correct fuel :
  (total_edges + 1 < fuel)%nat ->
  exists sc fh, dijkstra_with_first_hop_filtered (Q := Q) edges fuel start = Ok (sc, fh) /\
    forall v, match sc !! v, fh !! v with
              | Some d, Some (f, n) => walk v d n f /\ forall d' n' f', walk v d' n' f' -> d <= d'
              | None, None => forall d n f, ~ walk v d n f
              | _, _ => False
              end.
Proof.
  intros Hf. destruct (dijkstra_loop_spec fuel (initial start) initial_outer) as (s & Hs & Ho & He).
  { unfold work, initial. cbn [visit_next visited]. rewrite heap_push_elements, heap_new_elements, difference_empty_L.
    cbn [length]. unfold total_edges in Hf. lia. }
  exists (scores s), (first_hop s). unfold dijkstra_with_first_hop_filtered. rewrite Hs. split; [done|].
  intros v. pose proof (final_optimal s v) as Hopt.
  destruct (scores s !! v) as [d|] eqn:Ed.
  - destruct (out_walk _ Ho v d Ed) as (f & n & -> & Hw). split; [done|].
    intros d' n' f' Hw'. destruct (Hopt _ _ _ Ho He Hw') as (d2 & Hd2 & ?). congruence || (injection Hd2 as <-; lia).
  - destruct (first_hop s !! v) as [x|] eqn:Eh; [destruct (out_hops _ Ho v x Eh); congruence|].
    intros d n f Hw. by destruct (Hopt _ _ _ Ho He Hw) as (d2 & Hd2 & _).
Qed.

End Correctness.

(** a finite graph with [usize] path costs *)
Record graph_ok {A} `{CA : Countable A} (edges : A -> list (A * option Z)) (start : A) (V : gset A) (C : Z)
    : Prop := {
  g_start : start ∈ V;
  g_edges : forall u v w, u ∈ V -> (v, w) ∈ edges u -> v ∈ V;
  g_costs : forall u v w, u ∈ V -> (v, Some w) ∈ edges u -> 0 <= w <= C;
  g_nonneg : 0 <= C;
  g_overflow : C * Z.of_nat (size V) < 2 ^ 64;
}.

(** Dijkstra's algorithm computes shortest paths with their first hops.
    On a finite graph whose path costs fit a [usize], with any heap that pops a
    least element, the loop ends after at most one pop per edge and one for the
    start, no map access panics, and for every node: if it has a score, the
    score is the cost of a walk from the start over permitted edges that has
    the recorded number of hops and first hop, and no permitted walk is
    cheaper; if it has none, no permitted walk reaches it. *)
Theorem dijkstra_shortest_first_hop {A} `{CA : Countable A} {Q} {HQ : Heap A Q} {LQ : HeapLaws A Q}
    (edges : A -> list (A * option Z)) (start : A) (V : gset A) (C : Z) (fuel : nat) :
  graph_ok edges start V C -> (total_edges edges V + 1 < fuel)%nat ->
  exists sc fh, dijkstra_with_first_hop_filtered (Q := Q) edges fuel start = Ok (sc, fh) /\
    forall v, match sc !! v, fh !! v with
              | Some d, Some (f, n) =>
                  walk edges start v d n f /\ forall d' n' f', walk edges start v d' n' f' -> d <= d'
              | None, None => forall d n f, ~ walk edges start v d n f
              | _, _ => False
              end.
Proof. intros [? ? ? ? ?] Hf. by eapply dijkstra_correct. Qed.

(** two routes to node 3: direct but dear, or over 2; node 9 is cut off by the filter *)
Definition sample_edges (n : Z) : list (Z * option Z) :=
  if n =? 1 then [(3, Some 10); (2, Some 3); (9, None)]
  else if n =? 2 then [(3, Some 4); (1, Some 1)] else [].

Lemma dijkstra_shortest_first_hop_witness :
  exists sc fh,
    dijkstra_with_first_hop_filtered (Q := list (Z * Z)) sample_edges 8 1 = Ok (sc, fh) /\
    sc !! 3 = Some 7 /\ fh !! 3 = Some (2, 2%nat) /\ sc !! 9 = None.
Proof.
  destruct (dijkstra_shortest_first_hop (Q := list (Z * Z)) sample_edges 1 {[1; 2; 3; 9]} 10 8)
    as (sc & fh & H & _).
  - split.
    + set_solver.
    + intros u v w _ He. unfold sample_edges in He. repeat case_match; set_solver.
    + intros u v w _ He. unfold sample_edges in He. repeat case_match; apply list_elem_of_In in He; cbn in He;
        naive_solver lia.
    + lia.
    + vm_compute. reflexivity.
  - vm_compute. lia.
  - exists sc, fh. split; [exact H|]. vm_compute in H. injection H as <- <-. done.
Defined.

End GraphAlgo.
