(* ===== verification/PeerGraph.v ===== *)
(** * Graphs of the petgraph crate

    [petgraph::Graph] as src/lowertier/src/peers/peer_ospf_route.rs uses it: nodes and edges by index, the outgoing
    edges of a node in some order.  The operations of the crate and its shortest distances are an interface with the
    documented behaviour as laws; lists and the shortest paths of GraphAlgo are an instance. *)
From stdpp Require Import base list gmap numbers.
From Stdlib Require Import ZArith Lia.
From S2P Require Import Prelude GraphAlgo.

Local Open Scope Z_scope.

Module PeerGraph.

Record Edge (W : Type) : Type := mk_edge { source : nat; target : nat; weight : W }.
Arguments mk_edge {_} _ _ _.
Arguments source {_} _.
Arguments target {_} _.
Arguments weight {_} _.

(** the peer of each node, [edge_references], and [edges] of a node *)
Record Graph (W : Type) : Type := mk_graph { node_weights : list Z; edge_references : list (Edge W); edges : nat -> list (Edge W) }.
Arguments mk_graph {_} _ _ _.
Arguments node_weights {_} _.
Arguments edge_references {_} _.
Arguments edges {_} _ _.

Definition node_count {W} (g : Graph W) : nat := length (node_weights g).
Definition edge_count {W} (g : Graph W) : nat := length (edge_references g).

(** endpoints are nodes, and the adjacency is that of the edges *)
Record well_formed {W} (g : Graph W) : Prop := {
  wf_ends : forall e, e ∈ edge_references g -> (source e < node_count g)%nat /\ (target e < node_count g)%nat;
  wf_out : forall u, edges g u ≡ₚ filter (fun e => source e = u) (edge_references g);
}.

(** the edges of a walk from [start], in order, and its end *)
Inductive walk {W} (g : Graph W) (start : nat) : list (Edge W) -> nat -> Prop :=
| walk_nil : walk g start [] start
| walk_snoc es u e : walk g start es u -> e ∈ edge_references g -> source e = u -> walk g start (es ++ [e]) (target e).
(** the node after the first edge *)
Definition first_target {W} (start : nat) (es : list (Edge W)) : nat := match es with [] => start | e :: _ => target e end.

(** the outgoing edges with their costs, for the shortest paths *)
Definition out_costs {W} (g : Graph W) (cost : Edge W -> option Z) (u : nat) : list (nat * option Z) := (fun e => (target e, cost e)) <$> edges g u.

(** ** The interface *)
Class Petgraph : Type := {
  graph_new : forall {W}, Graph W;
  add_node : forall {W}, Z -> Graph W -> Graph W;
  add_edge : forall {W}, nat -> nat -> W -> Graph W -> Graph W;
  retain_edges : forall {W}, (nat -> nat -> bool) -> Graph W -> Graph W;
  dijkstra : forall {W}, Graph W -> nat -> (Edge W -> Z) -> gmap nat Z;
}.

(** the shortest distances from [start] *)
Definition distances {W} (g : Graph W) (start : nat) (cost : Edge W -> Z) (d : gmap nat Z) : Prop :=
  forall v, match d !! v with
            | Some x => (exists n f, GraphAlgo.walk (out_costs g (fun e => Some (cost e))) start v x n f) /\
                        forall x' n f, GraphAlgo.walk (out_costs g (fun e => Some (cost e))) start v x' n f -> x <= x'
            | None => forall x n f, ~ GraphAlgo.walk (out_costs g (fun e => Some (cost e))) start v x n f
            end.

Class PetgraphLaws `{Petgraph} : Prop := {
  graph_new_empty W : node_weights (@graph_new _ W) = [] /\ edge_references (@graph_new _ W) = [] /\ forall u, edges (@graph_new _ W) u = [];
  add_node_spec W x (g : Graph W) : node_weights (add_node x g) = node_weights g ++ [x] /\ edge_references (add_node x g) = edge_references g /\
    forall u, edges (add_node x g) u = edges g u;
  add_edge_spec W u v (w : W) g : node_weights (add_edge u v w g) = node_weights g /\ edge_references (add_edge u v w g) ≡ₚ mk_edge u v w :: edge_references g /\
    forall x, edges (add_edge u v w g) x ≡ₚ if decide (u = x) then mk_edge u v w :: edges g x else edges g x;
  retain_edges_spec W keep (g : Graph W) : node_weights (retain_edges keep g) = node_weights g /\
    edge_references (retain_edges keep g) ≡ₚ filter (fun e => keep (source e) (target e)) (edge_references g) /\
    forall u, edges (retain_edges keep g) u ≡ₚ filter (fun e => keep (source e) (target e)) (edges g u);
  dijkstra_spec W (g : Graph W) start cost C : well_formed g -> (start < node_count g)%nat ->
    (forall e, e ∈ edge_references g -> 0 <= cost e <= C) -> 0 <= C -> C * Z.of_nat (node_count g) < 2 ^ 64 -> distances g start cost (dijkstra g start cost);
}.

(** ** Well-formed graphs stay so *)
Section Laws.
Context {P : Petgraph} {PL : PetgraphLaws} {W : Type}.
Implicit Types g : Graph W.

Lemma graph_new_wf : well_formed (graph_new (W := W)).
Proof. destruct (graph_new_empty W) as (_ & E & K). split; [rewrite E; set_solver|]. intros u. by rewrite K, E. Qed.
Lemma add_node_count x g : node_count (add_node x g) = S (node_count g).
Proof. destruct (add_node_spec W x g) as (E & _). unfold node_count. rewrite E, length_app. simpl; lia. Qed.
Lemma add_node_wf x g : well_formed g -> well_formed (add_node x g).
Proof.
  intros [K1 K2]. pose proof (add_node_count x g) as Ec. destruct (add_node_spec W x g) as (_ & Er & Eo).
  split; [intros e; rewrite Er; intros ?%K1; lia|]. intros u. by rewrite Eo, Er.
Qed.
Lemma add_edge_count u v w g : node_count (add_edge u v w g) = node_count g.
Proof. destruct (add_edge_spec W u v w g) as (E & _). unfold node_count. by rewrite E. Qed.
Lemma add_edge_wf u v w g : (u < node_count g)%nat -> (v < node_count g)%nat -> well_formed g -> well_formed (add_edge u v w g).
Proof.
  intros Hu Hv [K1 K2]. pose proof (add_edge_count u v w g) as Ec. destruct (add_edge_spec W u v w g) as (_ & Er & Eo). split.
  - intros e. rewrite Er, Ec. intros [->|?]%elem_of_cons; [done|by apply K1].
  - intros x. rewrite Eo, Er, filter_cons. simpl. case_decide; by rewrite K2.
Qed.
Lemma retain_count keep g : node_count (retain_edges keep g) = node_count g.
Proof. destruct (retain_edges_spec W keep g) as (E & _). unfold node_count. by rewrite E. Qed.
Lemma elem_of_retain keep g e : e ∈ edge_references (retain_edges keep g) <-> e ∈ edge_references g /\ keep (source e) (target e) = true.
Proof. destruct (retain_edges_spec W keep g) as (_ & E & _). rewrite E, list_elem_of_filter. rewrite Is_true_true. tauto. Qed.
Lemma retain_wf keep g : well_formed g -> well_formed (retain_edges keep g).
Proof.
  intros [K1 K2]. pose proof (retain_count keep g) as Ec. destruct (retain_edges_spec W keep g) as (_ & Er & Eo). split.
  - intros e [He _]%elem_of_retain. rewrite Ec. by apply K1.
  - intros u. rewrite Eo, Er, K2, !list_filter_filter. erewrite list_filter_iff; [done|]. intros; tauto.
Qed.

Lemma elem_of_edges g u e : well_formed g -> e ∈ edges g u <-> e ∈ edge_references g /\ source e = u.
Proof. intros [_ K]. rewrite K, list_elem_of_filter. tauto. Qed.
End Laws.

(** ** Shortest paths over a graph *)
Definition node_set {W} (g : Graph W) : gset nat := list_to_set (seq 0 (node_count g)).
(** one pop for each edge and one for the start *)
Definition search_fuel {W} (g : Graph W) : nat := S (S (GraphAlgo.total_edges (out_costs g (fun _ => None)) (node_set g))).

Lemma elem_of_node_set {W} (g : Graph W) u : u ∈ node_set g <-> (u < node_count g)%nat.
Proof. unfold node_set. rewrite elem_of_list_to_set, elem_of_seq. lia. Qed.

Section Search.
Context {W : Type} (g : Graph W) (Wf : well_formed g).

Lemma elem_of_out_costs cost u v w : (v, w) ∈ out_costs g cost u <-> exists e, e ∈ edge_references g /\ source e = u /\ target e = v /\ cost e = w.
Proof.
  unfold out_costs. rewrite list_elem_of_fmap. split.
  - intros (e & [= -> ->] & [? ?]%(elem_of_edges g u e Wf)). by exists e.
  - intros (e & He & Hu & <- & <-). exists e. split; [done|]. by apply elem_of_edges.
Qed.

(** a walk of the search is a walk over edges that have a cost *)
Definition total (cost : Edge W -> option Z) (es : list (Edge W)) : Z := sum_Z (fun e => default 0 (cost e)) es.
Lemma search_walk cost start v d n f : GraphAlgo.walk (out_costs g cost) start v d n f <->
  exists es, walk g start es v /\ (forall e, e ∈ es -> is_Some (cost e)) /\ d = total cost es /\ n = length es /\ f = first_target start es.
Proof.
  split.
  - induction 1 as [|u c n f v w _ (es & We & Hc & -> & -> & ->) (e & He & <- & <- & Ew)%elem_of_out_costs]; [exists []; split_and!; [constructor|set_solver|done..]|].
    exists (es ++ [e]). split_and!; [by eapply walk_snoc|intros x [?| ->%list_elem_of_singleton]%elem_of_app; [by apply Hc|by rewrite Ew]| | |].
    + unfold total. rewrite sum_Z_app. simpl. rewrite Ew. simpl. lia.
    + rewrite length_app. simpl. lia.
    + destruct es; [by rewrite decide_True|by rewrite decide_False].
  - intros (es & We & Hc & -> & -> & ->). induction We as [|es u e We IH He Hu]; [constructor|].
    destruct (Hc e ltac:(set_solver)) as [w Ew]. specialize (IH ltac:(set_solver)). pose proof (GraphAlgo.walk_step _ _ _ _ _ _ (target e) w IH (proj2 (elem_of_out_costs cost u (target e) (Some w)) ltac:(by exists e))) as K.
    replace (total cost (es ++ [e])) with (total cost es + w) by (unfold total; rewrite sum_Z_app; simpl; rewrite Ew; simpl; lia).
    rewrite length_app, Nat.add_1_r. replace (first_target start (es ++ [e])) with (if decide (length es = 0%nat) then target e else first_target start es); [done|].
    destruct es; [by rewrite decide_True|by rewrite decide_False].
Qed.

(** *** Edges on shortest ways *)
Definition sum_cost (c : Edge W -> Z) (es : list (Edge W)) : Z := sum_Z c es.
Lemma sum_cost_snoc c es e : sum_cost c (es ++ [e]) = sum_cost c es + c e.
Proof. unfold sum_cost. rewrite sum_Z_app. simpl. lia. Qed.
Definition tight (d : gmap nat Z) (c : Edge W -> Z) (e : Edge W) : bool :=
  match d !! source e, d !! target e with Some a, Some b => a + c e =? b | _, _ => false end.

Lemma distances_walks start c d : distances g start c d -> forall v, match d !! v with
  | Some x => (exists es, walk g start es v /\ x = sum_cost c es) /\ forall es, walk g start es v -> x <= sum_cost c es
  | None => forall es, ~ walk g start es v
  end.
Proof.
  assert (K : forall es v, walk g start es v -> GraphAlgo.walk (out_costs g (fun e => Some (c e))) start v (sum_cost c es) (length es) (first_target start es)).
  { intros es v We. apply search_walk. by exists es. }
  intros D v. specialize (D v). destruct (d !! v) as [x|]; [|intros es We; by eapply D, K].
  destruct D as [(n & f & (es & We & _ & -> & _)%search_walk) D]. split; [by exists es|]. intros es2 W2. by eapply D, K.
Qed.

(** the walks over tight edges are the cheapest ones *)
Lemma tight_walk start c d : distances g start c d -> (forall e, e ∈ edge_references g -> 0 <= c e) ->
  forall es v, walk g start es v -> (forall e, e ∈ es -> tight d c e = true) <-> (forall es2, walk g start es2 v -> sum_cost c es <= sum_cost c es2).
Proof.
  intros D Hc. pose proof (distances_walks start c d D) as Dw.
  assert (H0 : d !! start = Some 0).
  { specialize (Dw start). destruct (d !! start) as [x|]; [|by exfalso; eapply Dw; constructor]. destruct Dw as [(es & We & ->) K]. specialize (K [] ltac:(constructor)).
    f_equal. assert (0 <= sum_cost c es); [|unfold sum_cost in *; simpl in *; lia]. apply sum_Z_nonneg. intros e He. apply Hc. clear -We He. induction We; set_solver. }
  assert (Hd : forall es v, walk g start es v -> (forall e, e ∈ es -> tight d c e = true) -> d !! v = Some (sum_cost c es)).
  { induction 1 as [|es u e We IH He Hu]; intros Ht; [done|]. specialize (IH ltac:(set_solver)). specialize (Ht e ltac:(set_solver)). unfold tight in Ht. rewrite Hu, IH in Ht.
    destruct (d !! target e) as [b|]; [|done]. apply Z.eqb_eq in Ht. by rewrite sum_cost_snoc, Ht. }
  intros es v We. split.
  - intros Ht es2 W2. pose proof (Dw v) as K. rewrite (Hd es v We Ht) in K. by apply K.
  - induction We as [|es u e We IH He Hu]; intros Km; [set_solver|].
    assert (Ht : forall e, e ∈ es -> tight d c e = true).
    { apply IH. intros es2 W2. specialize (Km (es2 ++ [e]) ltac:(by eapply walk_snoc)). rewrite !sum_cost_snoc in Km. lia. }
    intros x [Hx| ->%list_elem_of_singleton]%elem_of_app; [by apply Ht|]. unfold tight. rewrite Hu, (Hd es u We Ht).
    pose proof (Dw (target e)) as K. destruct (d !! target e) as [b|]; [|by exfalso; eapply K, walk_snoc]. destruct K as [(es2 & W2 & ->) K].
    specialize (K _ (walk_snoc _ _ _ _ _ We He Hu)). specialize (Km es2 W2). rewrite sum_cost_snoc in *. lia.
Qed.

Context (start : nat) (Hs : (start < node_count g)%nat) (cost : Edge W -> option Z) (C : Z).
Context (Hc : forall e c, e ∈ edge_references g -> cost e = Some c -> 0 <= c <= C) (HC : 0 <= C) (Ho : C * Z.of_nat (node_count g) < 2 ^ 64).

(** the routine of GraphAlgo gives least costs, first hops and hop counts *)
Lemma first_hops_spec E : (forall u, E u = out_costs g cost u) -> exists sc fh,
  GraphAlgo.dijkstra_with_first_hop_filtered (Q := list (Z * nat)) E (search_fuel g) start = Ok (sc, fh) /\
  forall v, match sc !! v, fh !! v with
            | Some d, Some (f, n) => GraphAlgo.walk (out_costs g cost) start v d n f /\ forall d' n' f', GraphAlgo.walk (out_costs g cost) start v d' n' f' -> d <= d'
            | None, None => forall d n f, ~ GraphAlgo.walk (out_costs g cost) start v d n f
            | _, _ => False
            end.
Proof.
  intros HE. assert (K : forall v d n f, GraphAlgo.walk (out_costs g cost) start v d n f <-> GraphAlgo.walk E start v d n f).
  { intros v d n f. split; (induction 1; [constructor|econstructor; [done|]]); [by rewrite HE|by rewrite <- HE]. }
  destruct (GraphAlgo.dijkstra_correct (Q := list (Z * nat)) E start (node_set g) C) with (fuel := search_fuel g) as (sc & fh & Es & Ks).
  - by apply elem_of_node_set.
  - intros u v w _. rewrite HE. intros (e & He & _ & <- & _)%elem_of_out_costs. apply elem_of_node_set. by apply (wf_ends g Wf).
  - intros u v w _. rewrite HE. intros (e & He & _ & _ & Ew)%elem_of_out_costs. by eapply Hc.
  - done.
  - unfold node_set. rewrite size_list_to_set by apply NoDup_seq. by rewrite length_seq.
  - unfold search_fuel. cut (GraphAlgo.total_edges E (node_set g) = GraphAlgo.total_edges (out_costs g (fun _ => None)) (node_set g)); [lia|].
    unfold GraphAlgo.total_edges, out_costs. induction (elements (node_set g)) as [|v l IH]; [done|]. simpl. by rewrite IH, HE; unfold out_costs; rewrite !length_fmap.
  - exists sc, fh. split; [done|]. intros v. specialize (Ks v). destruct (sc !! v), (fh !! v) as [[f n]|]; try done.
    + destruct Ks as [K1 K2]. split; [by apply K|]. intros d' n' f' ?%K. eauto.
    + intros d n f ?%K. by eapply Ks.
Qed.
End Search.

(** ** Lists as graphs *)
#[export] Instance list_petgraph : Petgraph := {|
  graph_new W := mk_graph [] [] (fun _ => []);
  add_node W x g := mk_graph (node_weights g ++ [x]) (edge_references g) (edges g);
  add_edge W u v w g := mk_graph (node_weights g) (mk_edge u v w :: edge_references g) (fun x => if decide (u = x) then mk_edge u v w :: edges g x else edges g x);
  retain_edges W keep g := mk_graph (node_weights g) (filter (fun e => keep (source e) (target e)) (edge_references g)) (fun u => filter (fun e => keep (source e) (target e)) (edges g u));
  dijkstra W g start cost :=
    match GraphAlgo.dijkstra_with_first_hop_filtered (Q := list (Z * nat)) (out_costs g (fun e => Some (cost e))) (search_fuel g) start with Ok (sc, _) => sc | _ => ∅ end;
|}.
#[export] Instance list_petgraph_laws : PetgraphLaws.
Proof.
  split; [done|done|done|done|]. intros W g start cost C Wf Hs Hc HC Ho.
  destruct (first_hops_spec g Wf start Hs (fun e => Some (cost e)) C ltac:(intros e c He [= <-]; auto) HC Ho _ (fun _ => eq_refl)) as (sc & fh & E & K). unfold dijkstra, list_petgraph. rewrite E.
  intros v. specialize (K v). destruct (sc !! v), (fh !! v) as [[f n]|]; try done. destruct K as [K1 K2]. split; eauto.
Qed.
End PeerGraph.
