(* ===== verification/WidestPath.v ===== *)
(** * Widest paths

    The maximum-goodput routes of src/lowertier/src/peers/peer_ospf_route.rs: the widest capacity of every
    node from the start, then, in rounds of falling capacity, the least latency, hop count and first hop among
    the paths that reach that capacity, all within a work budget.

    Graphs are those of PeerGraph; a [BTreeSet] is a finite set whose least or greatest element is popped. *)
From stdpp Require Import base list gmap numbers sorting.
From Stdlib Require Import ZArith Lia.
From S2P Require Import Prelude PeerGraph.

Local Open Scope Z_scope.

(** ** Ordered sets *)
(** a decidable total order *)
Class Ordered (A : Type) : Type := { le_b : A -> A -> bool }.
Class OrderedLaws (A : Type) `{Ordered A} : Prop := {
  le_refl : forall x : A, le_b x x = true;
  le_trans : forall x y z : A, le_b x y = true -> le_b y z = true -> le_b x z = true;
  le_total : forall x y : A, le_b x y = true \/ le_b y x = true;
  le_antisym : forall x y : A, le_b x y = true -> le_b y x = true -> x = y;
}.

#[export] Instance Z_ordered : Ordered Z := {| le_b := Z.leb |}.
#[export] Instance nat_ordered : Ordered nat := {| le_b := Nat.leb |}.
(** tuples compare by their first difference *)
#[export] Instance pair_ordered {A B} `{EqDecision A} `{Ordered A} `{Ordered B} : Ordered (A * B) :=
  {| le_b x y := if decide (x.1 = y.1) then le_b x.2 y.2 else le_b x.1 y.1 |}.

#[export] Instance Z_ordered_laws : OrderedLaws Z.
Proof. split; simpl; intros; lia. Qed.
#[export] Instance nat_ordered_laws : OrderedLaws nat.
Proof. split; simpl; intros *; rewrite ?Nat.leb_le; lia. Qed.
#[export] Instance pair_ordered_laws {A B} `{EqDecision A} `{OrderedLaws A} `{OrderedLaws B} : OrderedLaws (A * B).
Proof.
  split.
  - intros [a b]; simpl. rewrite decide_True by done. apply le_refl.
  - intros [a b] [a' b'] [a'' b'']; simpl. repeat case_decide; subst; try done; intros K K'; try (by eapply le_trans).
    match goal with N : _ <> _ |- _ => exfalso; apply N; by apply le_antisym end.
  - intros [a b] [a' b']; simpl. repeat case_decide; subst; try done; apply le_total.
  - intros [a b] [a' b']; simpl. repeat case_decide; subst; try done; intros K K'; [f_equal; by apply le_antisym|].
    match goal with N : _ <> _ |- _ => exfalso; apply N; by apply le_antisym end.
Qed.

Section OrderedSets.
Context {A : Type} `{Countable A} `{Ordered A}.

Definition least (l : list A) : option A :=
  match l with [] => None | x :: l => Some (foldl (fun a b => if le_b a b then a else b) x l) end.
Definition greatest (l : list A) : option A :=
  match l with [] => None | x :: l => Some (foldl (fun a b => if le_b b a then a else b) x l) end.
Definition pop_first (s : gset A) : option (A * gset A) := (fun x => (x, s ∖ {[x]})) <$> least (elements s).
Definition pop_last (s : gset A) : option (A * gset A) := (fun x => (x, s ∖ {[x]})) <$> greatest (elements s).
End OrderedSets.

Module WidestPath.
Export PeerGraph.

(** ** Graphs *)
Record SpeedEdge : Type := mk_speed { delivery_bps : Z; latency_ms : Z }.
Abbreviation edge := (Edge SpeedEdge).
Abbreviation SpeedGraph := (Graph SpeedEdge).

Record RouteQuality : Type := mk_quality { q_delivery_bps : Z; q_latency_ms : Z; q_hops : Z }.
Record SpeedPath : Type := mk_path { next_hop_peer_id : Z; quality : RouteQuality }.

Record WidestPathPreparation : Type := mk_preparation {
  capacities : list Z;
  destinations : list (Z * nat);
  minimum_delivery_bps : option Z;
  active_edge_count : Z;
  capacity_work : Z;
}.

(** ** Work *)
Inductive Error : Type := WidestPathWorkError | OutOfFuel.
Definition MAX_ROUTE_REBUILD_WORK : Z := 8000000.
Record WidestPathWorkBudget : Type := mk_budget { used : Z; limit : Z }.

Definition with_used (n lim : Z) : outcome Error WidestPathWorkBudget :=
  if lim <? n then Err WidestPathWorkError else Ok (mk_budget n lim).
Definition charge (b : WidestPathWorkBudget) (amount : Z) : outcome Error WidestPathWorkBudget :=
  next_used ← ok_or (checked_add 64 (used b) amount) WidestPathWorkError;
  if limit b <? next_used then Err WidestPathWorkError else Ok (mk_budget next_used (limit b)).

Definition checked_mul (w a b : Z) : option Z := if a * b <? 2 ^ w then Some (a * b) else None.
Definition widest_path_work_limit (nodes edges : Z) : outcome Error Z :=
  topology_work ← ok_or (checked_add 64 nodes edges) WidestPathWorkError;
  destination_work ← ok_or (checked_mul 64 topology_work (Z.max nodes 1)) WidestPathWorkError;
  ok_or ((fun work => Z.min work MAX_ROUTE_REBUILD_WORK) <$> (checked_add 64 topology_work destination_work ≫= fun work => checked_mul 64 work 4))
    WidestPathWorkError.

(** ** Capacities *)
(** one unit of work in the budget and in the preparation's own count *)
Definition charge_counted (b : WidestPathWorkBudget) (work : Z) : outcome Error (WidestPathWorkBudget * Z) :=
  b ← charge b 1;
  work ← ok_or (checked_add 64 work 1) WidestPathWorkError;
  Ok (b, work).

Record cap_state : Type := mk_cap { caps : list Z; cap_pending : gset (Z * nat); work : Z; cap_budget : WidestPathWorkBudget }.

(** the body of the loop over [graph.edges(node)] *)
Definition scan_edge (capacity : Z) (s : cap_state) (e : edge) : outcome Error cap_state :=
  '(b, w) ← charge_counted (cap_budget s) (work s);
  let next_capacity := Z.min capacity (delivery_bps (weight e)) in
  '(b, w) ← charge_counted b w;
  old ← unwrap (caps s !! target e);
  if (next_capacity =? 0) || (next_capacity <=? old) then Ok (mk_cap (caps s) (cap_pending s) w b)
  else
    let pending := if old =? 0 then cap_pending s else cap_pending s ∖ {[(old, target e)]} in
    Ok (mk_cap (<[target e := next_capacity]> (caps s)) ({[(next_capacity, target e)]} ∪ pending) w b).

Fixpoint fold_out {S A} (f : S -> A -> outcome Error S) (s : S) (l : list A) : outcome Error S :=
  match l with [] => Ok s | x :: l => s ← f s x; fold_out f s l end.

Fixpoint capacity_loop (fuel : nat) (g : SpeedGraph) (s : cap_state) : outcome Error cap_state :=
  match fuel with
  | O => Err OutOfFuel
  | S fuel =>
      match pop_last (cap_pending s) with
      | None => Ok s
      | Some ((capacity, node), pending) =>
          '(b, w) ← charge_counted (cap_budget s) (work s);
          cur ← unwrap (caps s !! node);
          let s := mk_cap (caps s) pending w b in
          if negb (cur =? capacity) then capacity_loop fuel g s
          else s ← fold_out (scan_edge capacity) s (edges g node); capacity_loop fuel g s
      end
  end.

(** every round charges at least one unit *)
Definition loop_fuel (b : WidestPathWorkBudget) : nat := S (Z.to_nat (limit b - used b)).

Definition initial_caps (g : SpeedGraph) (start : nat) : list Z := <[start := u_max 64]> (replicate (node_count g) 0).
Definition widest_capacities_checked (g : SpeedGraph) (start : nat) (w : Z) (b : WidestPathWorkBudget) : outcome Error cap_state :=
  _ ← unwrap (replicate (node_count g) 0 !! start);
  capacity_loop (loop_fuel b) g (mk_cap (initial_caps g start) {[(u_max 64, start)]} w b).

(** ** Preparation *)
(** greatest capacity first, then by index *)
Definition dest_le (x y : Z * nat) : Prop := y.1 < x.1 \/ x.1 = y.1 /\ (x.2 <= y.2)%nat.
#[export] Instance dest_le_dec : RelDecision dest_le.
Proof. intros x y; unfold dest_le; apply _. Defined.

Definition reached (start : nat) (cs : list Z) : list (Z * nat) :=
  omap (fun ic : nat * Z => if (0 <? ic.2) && negb (ic.1 =? start)%nat then Some (ic.2, ic.1) else None) (imap (fun i c => (i, c)) cs).
Definition add_work (w amount : Z) : outcome Error Z := ok_or (checked_add 64 w amount) WidestPathWorkError.

(** an edge that can carry the least required capacity from a node that has it *)
Definition active (cs : list Z) (minimum : Z) (e : edge) : outcome Error bool :=
  if minimum <=? delivery_bps (weight e) then c ← unwrap (cs !! source e); Ok (minimum <=? c) else Ok false.
Definition count_edge (cs : list Z) (minimum : Z) (s : Z * Z * WidestPathWorkBudget) (e : edge) : outcome Error (Z * Z * WidestPathWorkBudget) :=
  let '(n, w, b) := s in
  '(b, w) ← charge_counted b w;
  a ← active cs minimum e;
  Ok (if a : bool then n + 1 else n, w, b).

Definition prepare_widest_path_with_budget (g : SpeedGraph) (start : nat) (b : WidestPathWorkBudget)
    : outcome Error (WidestPathPreparation * WidestPathWorkBudget) :=
  match node_weights g !! start with
  | None => Ok (mk_preparation [] [] None 0 0, b)
  | Some _ =>
      s ← widest_capacities_checked g start 0 b;
      b ← charge (cap_budget s) (len (caps s));
      w ← add_work (work s) (len (caps s));
      let dests := merge_sort dest_le (reached start (caps s)) in
      b ← charge b (len dests);
      w ← add_work w (len dests);
      match last dests with
      | None => Ok (mk_preparation (caps s) dests None 0 w, b)
      | Some (minimum, _) =>
          '(n, w, b) ← fold_out (count_edge (caps s) minimum) (0, w, b) (edge_references g);
          Ok (mk_preparation (caps s) dests (Some minimum) n w, b)
      end
  end.

(** what a failed preparation returns *)
Definition no_preparation (g : SpeedGraph) : WidestPathPreparation := mk_preparation (replicate (node_count g) 0) [] None 0 (u_max 64).
Definition prepare_widest_path (g : SpeedGraph) (start : nat) : outcome Error WidestPathPreparation :=
  match widest_path_work_limit (Z.of_nat (node_count g)) (Z.of_nat (edge_count g)) with
  | Ok lim =>
      match with_used 0 lim with
      | Ok b => match prepare_widest_path_with_budget g start b with Ok (p, _) => Ok p | Err _ => Ok (no_preparation g) | Panic => Panic end
      | _ => Panic
      end
  | Err _ => Ok (no_preparation g)
  | Panic => Panic
  end.

(** ** Labels *)
(** latency, hops and the first hop's peer; labels compare in this order *)
Definition label : Type := (Z * Z * Z)%type.
Record label_state : Type := mk_labels { labels : list (option label); l_pending : gset (label * nat); l_budget : WidestPathWorkBudget }.

Definition speed_path_label (g : SpeedGraph) (start src tgt : nat) (l : label) (lat : Z) : outcome Error label :=
  first ← (if (src =? start)%nat then unwrap (node_weights g !! tgt) else Ok l.2);
  Ok (saturating_add 64 l.1.1 lat, saturating_add 64 l.1.2 1, first).

Definition relax_speed_path (s : label_state) (tgt : nat) (candidate : label) : outcome Error label_state :=
  b ← charge (l_budget s) 1;
  previous ← unwrap (labels s !! tgt);
  if match previous with Some current => le_b current candidate | None => false end then Ok (mk_labels (labels s) (l_pending s) b)
  else
    let pending := match previous with Some l => l_pending s ∖ {[(l, tgt)]} | None => l_pending s end in
    Ok (mk_labels (<[tgt := Some candidate]> (labels s)) ({[(candidate, tgt)]} ∪ pending) b).

(** delivery, source, target, latency *)
Definition flat_edge : Type := (Z * nat * nat * Z)%type.
Definition flat_le (x y : flat_edge) : Prop :=
  let '(d, a, t, l) := x in let '(d', a', t', l') := y in
  d' < d \/ d = d' /\ ((a < a')%nat \/ a = a' /\ ((t < t')%nat \/ t = t' /\ l <= l')).
#[export] Instance flat_le_dec : RelDecision flat_le.
Proof. intros [[[d a] t] l] [[[d' a'] t'] l']; unfold flat_le; apply _. Defined.

Definition flatten (e : edge) : flat_edge := (delivery_bps (weight e), source e, target e, latency_ms (weight e)).
Definition collect_edge (cs : list Z) (minimum : Z) (s : list flat_edge * WidestPathWorkBudget) (e : edge)
    : outcome Error (list flat_edge * WidestPathWorkBudget) :=
  b ← charge s.2 1;
  a ← active cs minimum e;
  Ok (if a : bool then s.1 ++ [flatten e] else s.1, b).

(** the longest prefix that satisfies [f], and the rest *)
Fixpoint split_while {A} (f : A -> bool) (l : list A) : list A * list A :=
  match l with
  | [] => ([], [])
  | x :: l' => if f x then let '(a, b) := split_while f l' in (x :: a, b) else ([], l)
  end.

(** ** Rounds *)
Definition activate_edge (s : list (list (nat * Z)) * WidestPathWorkBudget) (e : flat_edge)
    : outcome Error (list (list (nat * Z)) * WidestPathWorkBudget) :=
  let '(_, src, tgt, lat) := e in
  b ← charge s.2 1;
  adjacency ← unwrap (s.1 !! src);
  Ok (<[src := adjacency ++ [(tgt, lat)]]> s.1, b).

Definition seed_edge (g : SpeedGraph) (start : nat) (s : label_state) (e : flat_edge) : outcome Error label_state :=
  let '(_, src, tgt, lat) := e in
  source_label ← unwrap (labels s !! src);
  match source_label with
  | None => Ok s
  | Some l => candidate ← speed_path_label g start src tgt l lat; relax_speed_path s tgt candidate
  end.

Definition relax_active (g : SpeedGraph) (start node : nat) (l : label) (s : label_state) (e : nat * Z) : outcome Error label_state :=
  b ← charge (l_budget s) 1;
  candidate ← speed_path_label g start node e.1 l e.2;
  relax_speed_path (mk_labels (labels s) (l_pending s) b) e.1 candidate.

Fixpoint label_loop (fuel : nat) (g : SpeedGraph) (start : nat) (active_edges : list (list (nat * Z))) (s : label_state) : outcome Error label_state :=
  match fuel with
  | O => Err OutOfFuel
  | S fuel =>
      match pop_first (l_pending s) with
      | None => Ok s
      | Some ((l, node), pending) =>
          b ← charge (l_budget s) 1;
          cur ← unwrap (labels s !! node);
          let s := mk_labels (labels s) pending b in
          if negb (bool_decide (cur = Some l)) then label_loop fuel g start active_edges s
          else
            adjacency ← unwrap (active_edges !! node);
            s ← fold_out (relax_active g start node l) s adjacency;
            label_loop fuel g start active_edges s
      end
  end.

Definition finalize (delivery : Z) (ls : list (option label)) (s : gmap nat SpeedPath * WidestPathWorkBudget) (d : Z * nat)
    : outcome Error (gmap nat SpeedPath * WidestPathWorkBudget) :=
  b ← charge s.2 1;
  l ← unwrap (ls !! d.2);
  match l with
  | None => Ok (s.1, b)
  | Some (lat, hops, first) => Ok (<[d.2 := mk_path first (mk_quality delivery lat hops)]> s.1, b)
  end.

Record round_state : Type := mk_round {
  active_edges : list (list (nat * Z));
  round_labels : list (option label);
  routes : gmap nat SpeedPath;
  round_budget : WidestPathWorkBudget;
}.

(** one value of [delivery_bps]: activate, seed, propagate, finalize *)
Definition round (g : SpeedGraph) (start : nat) (delivery : Z) (dests : list (Z * nat)) (new_edges : list flat_edge) (s : round_state)
    : outcome Error round_state :=
  '(act, b) ← fold_out activate_edge (active_edges s, round_budget s) new_edges;
  ls ← fold_out (seed_edge g start) (mk_labels (round_labels s) ∅ b) new_edges;
  ls ← label_loop (loop_fuel (l_budget ls)) g start act ls;
  '(rs, b) ← fold_out (finalize delivery (labels ls)) (routes s, l_budget ls) dests;
  Ok (mk_round act (labels ls) rs b).

Fixpoint rounds (fuel : nat) (g : SpeedGraph) (start : nat) (dests : list (Z * nat)) (es : list flat_edge) (s : round_state)
    : outcome Error round_state :=
  match dests, fuel with
  | [], _ => Ok s
  | _ :: _, O => Err OutOfFuel
  | (delivery, v) :: rest, S fuel =>
      let '(same, later) := split_while (fun d : Z * nat => d.1 =? delivery) rest in
      let '(new_edges, es) := split_while (fun e : flat_edge => delivery <=? e.1.1.1) es in
      s ← round g start delivery ((delivery, v) :: same) new_edges s;
      rounds fuel g start later es s
  end.

Definition widest_path_with_preparation (g : SpeedGraph) (start : nat) (p : WidestPathPreparation) (b : WidestPathWorkBudget)
    : outcome Error (gmap nat SpeedPath * WidestPathWorkBudget) :=
  match node_weights g !! start with
  | None => Ok (∅, b)
  | Some peer =>
      if negb (length (capacities p) =? node_count g)%nat then Ok (∅, b) else
      match minimum_delivery_bps p with
      | None => Ok (∅, b)
      | Some minimum =>
          '(es, b) ← fold_out (collect_edge (capacities p) minimum) ([], b) (edge_references g);
          let es := merge_sort flat_le es in
          let ls := <[start := Some (0, 0, peer)]> (replicate (node_count g) None) in
          s ← rounds (length (destinations p)) g start (destinations p) es (mk_round (replicate (node_count g) []) ls ∅ b);
          Ok (routes s, round_budget s)
      end
  end.

(** [prepare_widest_path], then the routes under the budget that is left *)
Definition max_goodput_routes (g : SpeedGraph) (start : nat) : outcome Error (gmap nat SpeedPath) :=
  p ← prepare_widest_path g start;
  lim ← widest_path_work_limit (Z.of_nat (node_count g)) (Z.of_nat (edge_count g));
  b ← with_used (capacity_work p) lim;
  '(rs, _) ← widest_path_with_preparation g start p b;
  Ok rs.
End WidestPath.
