(* ===== verification/WidestPathProps.v ===== *)
(** * Properties of widest paths

    The routes of the maximum-goodput policy are optimal and the work budget of the code is enough for them
    (src/lowertier/src/peers/peer_ospf_route.rs). *)
From stdpp Require Import base list gmap numbers sorting.
From Stdlib Require Import ZArith Lia.
From S2P Require Import Prelude WidestPath.

Local Open Scope Z_scope.

(** ** Ordered sets *)
Section OrderedSetLemmas.
Context {A : Type} `{Countable A} `{OrderedLaws A}.

Lemma least_spec (l : list A) x : least l = Some x -> x ∈ l /\ forall y, y ∈ l -> le_b x y = true.
Proof.
  destruct l as [|a l]; [done|]. intros [= <-]. revert a. induction l as [|b l IH]; intros a; simpl.
  - split; [by left|]. intros y ->%list_elem_of_singleton. apply le_refl.
  - destruct (le_b a b) eqn:E.
    + destruct (IH a) as [K1 K2]. split; [set_solver|]. intros y [->|[->|Hy]%elem_of_cons]%elem_of_cons; [apply K2; by left| |apply K2; by right].
      eapply le_trans; [apply K2; by left|done].
    + destruct (IH b) as [K1 K2]. split; [set_solver|]. intros y [->|Hy]%elem_of_cons; [|by apply K2].
      eapply le_trans; [apply K2; by left|]. destruct (le_total a b); congruence.
Qed.
Lemma greatest_spec (l : list A) x : greatest l = Some x -> x ∈ l /\ forall y, y ∈ l -> le_b y x = true.
Proof.
  destruct l as [|a l]; [done|]. intros [= <-]. revert a. induction l as [|b l IH]; intros a; simpl.
  - split; [by left|]. intros y ->%list_elem_of_singleton. apply le_refl.
  - destruct (le_b b a) eqn:E.
    + destruct (IH a) as [K1 K2]. split; [set_solver|]. intros y [->|[->|Hy]%elem_of_cons]%elem_of_cons; [apply K2; by left| |apply K2; by right].
      eapply le_trans; [done|apply K2; by left].
    + destruct (IH b) as [K1 K2]. split; [set_solver|]. intros y [->|Hy]%elem_of_cons; [|by apply K2].
      eapply le_trans; [|apply K2; by left]. destruct (le_total a b); congruence.
Qed.
Lemma pop_first_spec (s s' : gset A) x : pop_first s = Some (x, s') -> x ∈ s /\ s' = s ∖ {[x]} /\ forall y, y ∈ s -> le_b x y = true.
Proof. unfold pop_first. intros (y & [K1 K2]%least_spec & [= -> ->])%fmap_Some. rewrite elem_of_elements in K1. split_and!; [done|done|]. intros z Hz; apply K2. by apply elem_of_elements. Qed.
Lemma pop_first_none (s : gset A) : pop_first s = None -> s = ∅.
Proof. unfold pop_first. intros E%fmap_None. apply leibniz_equiv, elements_empty_inv. by destruct (elements s). Qed.
Lemma pop_last_spec (s s' : gset A) x : pop_last s = Some (x, s') -> x ∈ s /\ s' = s ∖ {[x]} /\ forall y, y ∈ s -> le_b y x = true.
Proof. unfold pop_last. intros (y & [K1 K2]%greatest_spec & [= -> ->])%fmap_Some. rewrite elem_of_elements in K1. split_and!; [done|done|]. intros z Hz; apply K2. by apply elem_of_elements. Qed.
Lemma pop_last_none (s : gset A) : pop_last s = None -> s = ∅.
Proof. unfold pop_last. intros E%fmap_None. apply leibniz_equiv, elements_empty_inv. by destruct (elements s). Qed.
End OrderedSetLemmas.

Module WidestPathProps.
Import WidestPath.

(** ** Work *)
(** a budget whose arithmetic fits *)
Definition budget_ok (b : WidestPathWorkBudget) : Prop := 0 <= used b <= limit b /\ limit b < 2 ^ 63.
(** [need] units are enough for the result, and nothing else goes wrong *)
Definition within {X} (need : Z) (b : WidestPathWorkBudget) (r : outcome Error X) (Q : X -> Prop) : Prop :=
  match r with
  | Ok x => Q x
  | Err WidestPathWorkError => limit b < used b + need
  | Err OutOfFuel | Panic => False
  end.
(** [b'] is [b] after at most [k] units *)
Definition spent (k : Z) (b b' : WidestPathWorkBudget) : Prop := budget_ok b' /\ limit b' = limit b /\ used b <= used b' <= used b + k.

Lemma within_bind {X Y} (bud : X -> WidestPathWorkBudget) need k n b (m : outcome Error X) (f : X -> outcome Error Y) (P : X -> Prop) (Q : Y -> Prop) :
  within k b m (fun x => P x /\ spent k b (bud x)) -> (forall x, P x -> spent k b (bud x) -> within n (bud x) (f x) Q) -> 0 <= n -> k + n <= need ->
  within need b (m ≫= f) Q.
Proof.
  intros K F ? ?. destruct m as [x|[]|]; simpl in *; [|lia|done|done]. destruct K as [Px Sx]. specialize (F x Px Sx). destruct Sx as (_ & E & ?).
  unfold within in *. destruct (f x) as [y|[]|]; try done. lia.
Qed.
Lemma within_weaken {X} need need' b (r : outcome Error X) (P Q : X -> Prop) : within need b r P -> need <= need' -> (forall x, P x -> Q x) -> within need' b r Q.
Proof. unfold within. destruct r as [x|[]|]; auto. lia. Qed.
Lemma within_charge b n : budget_ok b -> 0 <= n ->
  within n b (charge b n) (fun b' => spent n b b' /\ used b' = used b + n).
Proof.
  intros [[? ?] ?] ?. unfold charge, checked_add. destruct (Z.ltb_spec (used b + n) (2 ^ 64)); simpl; [|lia].
  destruct (Z.ltb_spec (limit b) (used b + n)); simpl; unfold spent, budget_ok; simpl; lia.
Qed.
Lemma spent_trans j k b b' b'' : spent j b b' -> spent k b' b'' -> spent (j + k) b b''.
Proof. unfold spent; intros (? & ? & ?) (? & ? & ?); split_and!; try done; lia. Qed.

Lemma spent_refl b : budget_ok b -> spent 0 b b.
Proof. unfold spent, budget_ok; lia. Qed.
Lemma spent_weaken j k b b' : spent j b b' -> j <= k -> spent k b b'.
Proof. unfold spent; intros (? & ? & ?) ?; split_and!; try done; lia. Qed.

(** a fold whose steps cost at most [k] *)
Lemma within_fold {S A} (bud : S -> WidestPathWorkBudget) k (f : S -> A -> outcome Error S) (I : list A -> S -> Prop) l :
  0 <= k ->
  (forall pre x s, x ∈ l -> I pre s -> budget_ok (bud s) -> within k (bud s) (f s x) (fun s' => I (pre ++ [x]) s' /\ spent k (bud s) (bud s'))) ->
  forall s, I [] s -> budget_ok (bud s) ->
  within (k * len l) (bud s) (fold_out f s l) (fun s' => I l s' /\ spent (k * len l) (bud s) (bud s')).
Proof.
  intros Hk F. cut (forall post pre s, pre ++ post = l -> I pre s -> budget_ok (bud s) ->
    within (k * len post) (bud s) (fold_out f s post) (fun s' => I l s' /\ spent (k * len post) (bud s) (bud s'))).
  { intros K s Is B. by apply (K l [] s). }
  induction post as [|x post IH]; intros pre s E Is B.
  { simpl. rewrite app_nil_r in E; subst. split; [done|]. unfold len; simpl. rewrite Z.mul_0_r. by apply spent_refl. }
  assert (El : len (x :: post) = 1 + len post) by (unfold len; simpl; lia). pose proof (len_nonneg post).
  simpl. eapply (within_bind bud _ k (k * len post)); [apply (F pre x s); [set_solver|done|done]| |nia|nia].
  intros s1 I1 S1. eapply within_weaken; [apply (IH (pre ++ [x]) s1); [by rewrite <- app_assoc|done|apply S1]|done|].
  intros s2 [I2 S2]. split; [done|]. eapply spent_weaken; [by eapply spent_trans|nia].
Qed.

(** ** Costs *)
(** every element has one key *)
Section Keys.
Context {X : Type} (key : X -> nat).
Lemma sum_indicator (e : X) (N : list nat) : NoDup N -> 0 <= sum_Z (fun v => if decide (key e = v) then 1 else 0) N <= 1.
Proof.
  induction 1 as [|v N Hn _ IH]; simpl; [lia|]. case_decide as E; [|lia].
  rewrite (sum_Z_ext _ (fun _ => 0)); [|intros x Hx; rewrite decide_False; [done|congruence]].
  assert (sum_Z (fun _ : nat => 0) N = 0) as ->; [|lia]. clear. induction N; simpl; lia.
Qed.
Lemma sum_filters (E : list X) (N : list nat) : NoDup N -> sum_Z (fun v => len (filter (fun e => key e = v) E)) N <= len E.
Proof.
  intros Nd. induction E as [|e E IH]; [unfold len; simpl; clear; induction N; simpl; lia|].
  assert (K : forall v, len (filter (fun e => key e = v) (e :: E)) = (if decide (key e = v) then 1 else 0) + len (filter (fun e => key e = v) E)).
  { intros v. rewrite filter_cons. case_decide; unfold len; simpl; lia. }
  rewrite (sum_Z_ext _ _ _ (fun v _ => K v)). pose proof (sum_indicator e N Nd).
  assert (Ks : forall N, sum_Z (fun v => (if decide (key e = v) then 1 else 0) + len (filter (fun e => key e = v) E)) N =
    sum_Z (fun v => if decide (key e = v) then 1 else 0) N + sum_Z (fun v => len (filter (fun e => key e = v) E)) N).
  { clear. induction N; simpl; lia. }
  rewrite Ks. unfold len in *; simpl; lia.
Qed.

(** what the nodes below [n] outside [D] can cost: one unit and two for each element they are the key of *)
Context (n : nat) (E : list X).
Definition nodes : gset nat := list_to_set (seq 0 n).
Lemma elem_of_nodes v : v ∈ nodes <-> (v < n)%nat.
Proof. unfold nodes. rewrite elem_of_list_to_set, elem_of_seq. lia. Qed.
Definition cost (v : nat) : Z := 1 + 2 * len (filter (fun e => key e = v) E).
Definition rest (D : gset nat) : Z := sum_Z cost (elements (nodes ∖ D)).
Lemma cost_pos v : 1 <= cost v.
Proof. unfold cost. pose proof (len_nonneg (filter (fun e => key e = v) E)). lia. Qed.
Lemma rest_nonneg D : 0 <= rest D.
Proof. apply sum_Z_nonneg. intros v _. pose proof (cost_pos v). lia. Qed.
Lemma rest_step D u : u ∈ nodes -> u ∉ D -> rest D = cost u + rest (D ∪ {[u]}).
Proof.
  intros Hn Hd. unfold rest. replace (nodes ∖ D) with ({[u]} ∪ nodes ∖ (D ∪ {[u]})).
  - rewrite (sum_Z_perm cost _ (u :: elements (nodes ∖ (D ∪ {[u]})))); [done|]. apply elements_union_singleton. set_solver.
  - apply set_eq; intros x. destruct (decide (x = u)); set_solver.
Qed.
Lemma rest_bound D : rest D <= Z.of_nat n + 2 * len E.
Proof.
  unfold rest. set (N := elements (nodes ∖ D)). assert (Nd : NoDup N) by apply NoDup_elements.
  assert (Hl : len N <= Z.of_nat n).
  { unfold len. apply Nat2Z.inj_le. change (length N) with (size (nodes ∖ D)). transitivity (size nodes); [apply subseteq_size; set_solver|].
    unfold nodes. rewrite size_list_to_set by apply NoDup_seq. by rewrite length_seq. }
  assert (Ks : sum_Z cost N = len N + 2 * sum_Z (fun v => len (filter (fun e => key e = v) E)) N).
  { clear Nd Hl. induction N as [|v N IH]; [done|]. simpl. rewrite IH. unfold cost, len; simpl; lia. }
  pose proof (sum_filters E N Nd). lia.
Qed.
End Keys.

(** ** Graphs and walks *)
Record graph_ok (g : SpeedGraph) : Prop := {
  go_edges : forall e, e ∈ edge_references g -> (source e < node_count g)%nat /\ (target e < node_count g)%nat /\
    is_u 64 (delivery_bps (weight e)) /\ is_u 64 (latency_ms (weight e));
  go_out : forall u, edges g u ≡ₚ filter (fun e => source e = u) (edge_references g);
}.

(** the capacity of a walk *)
Definition bottleneck (es : list edge) : Z := foldr (fun e c => Z.min (delivery_bps (weight e)) c) (u_max 64) es.
Lemma bottleneck_snoc es e : bottleneck (es ++ [e]) = Z.min (bottleneck es) (Z.min (delivery_bps (weight e)) (u_max 64)).
Proof. unfold bottleneck. induction es as [|x es IH]; simpl; [lia|]. rewrite IH. lia. Qed.
Lemma bottleneck_ge es c : c <= u_max 64 -> c <= bottleneck es <-> Forall (fun e => c <= delivery_bps (weight e)) es.
Proof.
  intros Hc. induction es as [|e es IH]; simpl; [split; [constructor|done]|].
  rewrite Forall_cons, <- IH. unfold bottleneck; simpl. lia.
Qed.

(** ** Capacities *)
Section Capacities.
Context (g : SpeedGraph) (start : nat) (G : graph_ok g) (Hs : (start < node_count g)%nat).
#[local] Notation walk := (walk g start).

Lemma edges_in u e : e ∈ edges g u -> e ∈ edge_references g /\ source e = u.
Proof. rewrite (go_out g G u). by intros [? ?]%list_elem_of_filter. Qed.
Lemma in_edges e : e ∈ edge_references g -> e ∈ edges g (source e).
Proof. intros; rewrite (go_out g G). by apply list_elem_of_filter. Qed.
Lemma out_target u e : e ∈ edges g u -> (target e < node_count g)%nat.
Proof. intros [K _]%edges_in. by apply (go_edges g G). Qed.
Lemma out_delivery u e : e ∈ edges g u -> is_u 64 (delivery_bps (weight e)).
Proof. intros [K _]%edges_in. by apply (go_edges g G). Qed.

(** [c] is the best known capacity of [v] *)
Definition cap_at (cs : list Z) (v : nat) (c : Z) : Prop := cs !! v = Some c /\ 0 < c.

Record cap_sound (s : cap_state) : Prop := {
  cs_len : length (caps s) = node_count g;
  cs_start : caps s !! start = Some (u_max 64);
  cs_range : forall v c, caps s !! v = Some c -> 0 <= c <= u_max 64;
  cs_walk : forall v c, cap_at (caps s) v c -> exists es, walk es v /\ c = bottleneck es;
  cs_pending : forall c v, (c, v) ∈ cap_pending s -> cap_at (caps s) v c;
}.

(** an edge that no longer improves its target *)
Definition settled (cs : list Z) (c : Z) (e : edge) : Prop := exists ct, cs !! target e = Some ct /\ Z.min c (delivery_bps (weight e)) <= ct.

(** the nodes of [D] are done: nothing pending beats them and their edges are settled *)
Record cap_inv (D : gset nat) (s : cap_state) : Prop := {
  cv_sound : cap_sound s;
  cv_cover : forall v c, cap_at (caps s) v c -> v ∈ D \/ (c, v) ∈ cap_pending s;
  cv_done : forall u, u ∈ D -> exists c, cap_at (caps s) u c /\ (forall e, e ∈ edges g u -> settled (caps s) c e) /\
    (forall c' v, (c', v) ∈ cap_pending s -> c' <= c);
  cv_new : forall c v, (c, v) ∈ cap_pending s -> v ∉ D;
}.

(** while the edges of [u] are scanned; those of [pre] are done *)
Record cap_scan (D : gset nat) (u : nat) (c : Z) (pre : list edge) (s : cap_state) : Prop := {
  sc_sound : cap_sound s;
  sc_cover : forall v c', cap_at (caps s) v c' -> v ∈ D ∪ {[u]} \/ (c', v) ∈ cap_pending s;
  sc_done : forall v, v ∈ D -> exists cv, cap_at (caps s) v cv /\ c <= cv /\ (forall e, e ∈ edges g v -> settled (caps s) cv e);
  sc_new : forall c' v, (c', v) ∈ cap_pending s -> v ∉ D ∪ {[u]} /\ c' <= c;
  sc_self : cap_at (caps s) u c;
  sc_pre : forall e, e ∈ pre -> settled (caps s) c e;
}.

(** the preparation counts the work since [w0] *)
Context (w0 : Z) (Hw0 : 0 <= w0).
Definition counted (s : cap_state) : Prop := work s = used (cap_budget s) - w0 /\ w0 <= used (cap_budget s).

Lemma within_counted b w : budget_ok b -> w = used b - w0 -> w0 <= used b ->
  within 1 b (charge_counted b w) (fun bw => (bw.2 = used bw.1 - w0 /\ used bw.1 = used b + 1) /\ spent 1 b bw.1).
Proof.
  intros B -> L. unfold charge_counted. eapply (within_bind id _ 1 0); [eapply within_weaken; [by apply within_charge|done|]| |done|done].
  { intros b' [S E]; split; [exact E|done]. }
  intros b' E S; simpl in *. unfold checked_add. destruct S as ([? ?] & ? & ?). destruct (Z.ltb_spec (used b - w0 + 1) (2 ^ 64)); [|lia]. simpl.
  split_and!; simpl; try lia. split_and!; try done; lia.
Qed.

Definition grown (cs cs' : list Z) : Prop := forall v c, cs !! v = Some c -> exists c', cs' !! v = Some c' /\ c <= c'.
Lemma settled_grown cs cs' c e : grown cs cs' -> settled cs c e -> settled cs' c e.
Proof. intros K (ct & Et & L). destruct (K _ _ Et) as (c' & ? & ?). exists c'. split; [done|lia]. Qed.
Lemma grown_insert cs v old c : cs !! v = Some old -> old <= c -> grown cs (<[v := c]> cs).
Proof.
  intros E L u cu Eu. destruct (decide (u = v)) as [->|Hn]; [|exists cu; by rewrite list_lookup_insert_ne].
  exists c. rewrite list_lookup_insert_eq by (by eapply lookup_lt_Some). split; [done|]. congruence.
Qed.

Section Scan.
Context (D : gset nat) (u : nat) (c : Z).

(** a new capacity for the target of an edge of [u] *)
Lemma scan_improves pre s e old w b : cap_scan D u c pre s -> e ∈ edges g u -> caps s !! target e = Some old ->
  let nc := Z.min c (delivery_bps (weight e)) in 0 < nc -> old < nc ->
  let pend := if old =? 0 then cap_pending s else cap_pending s ∖ {[(old, target e)]} in
  cap_scan D u c (pre ++ [e]) (mk_cap (<[target e := nc]> (caps s)) ({[(nc, target e)]} ∪ pend) w b).
Proof.
  intros [S Cv Dn Nw Sf Pr] He Eo nc Hnc Ho pend. pose proof (out_delivery _ _ He) as Hd. destruct (edges_in _ _ He) as [Hin Hsrc].
  assert (Hlt : (target e < length (caps s))%nat) by (by eapply lookup_lt_Some).
  assert (Hv : target e ∉ D ∪ {[u]}).
  { intros [K|K%elem_of_singleton]%elem_of_union.
    - destruct (Dn _ K) as (cv & [Ecv _] & ? & _). rewrite Eo in Ecv. simplify_eq. lia.
    - rewrite K in Eo. destruct Sf as [Ef _]. rewrite Eo in Ef. simplify_eq. lia. }
  assert (Hne : forall v, v ∈ D ∪ {[u]} -> v <> target e) by (intros v Hv1 ->; done).
  assert (Gr : grown (caps s) (<[target e := nc]> (caps s))) by (apply grown_insert with old; [done|lia]).
  assert (Hc : forall v x, cap_at (<[target e := nc]> (caps s)) v x -> v = target e /\ x = nc \/ v <> target e /\ cap_at (caps s) v x).
  { intros v x [Ev Hx]. destruct (decide (v = target e)) as [->|Hn]; [left|right; rewrite list_lookup_insert_ne in Ev by done; by split].
    rewrite list_lookup_insert_eq in Ev by done. by simplify_eq. }
  assert (Hk : forall v x, v <> target e -> cap_at (caps s) v x -> cap_at (<[target e := nc]> (caps s)) v x).
  { intros v x Hn [Ev Hx]. split; [by rewrite list_lookup_insert_ne|done]. }
  assert (Hp : forall x v, (x, v) ∈ pend -> (x, v) ∈ cap_pending s /\ v <> target e).
  { intros x v K. destruct (decide (v = target e)) as [->|]; [|split; [subst pend; case_match; set_solver|done]]. exfalso.
    assert (K' : (x, target e) ∈ cap_pending s) by (subst pend; case_match; set_solver).
    destruct (cs_pending _ S _ _ K') as [Ex Hx]. rewrite Eo in Ex. simplify_eq. subst pend.
    destruct (Z.eqb_spec x 0); [lia|]. set_solver. }
  split; simpl.
  - split; simpl.
    + by rewrite length_insert; apply S.
    + rewrite list_lookup_insert_ne; [apply S|]. intros Et. rewrite Et in *. rewrite (cs_start _ S) in Eo. simplify_eq. unfold is_u, u_max in *. lia.
    + intros v x Ex. destruct (decide (v = target e)) as [->|Hn]; [|rewrite list_lookup_insert_ne in Ex by done; by apply (cs_range _ S v)].
      rewrite list_lookup_insert_eq in Ex by done. simplify_eq. unfold is_u, u_max in *. lia.
    + intros v x [[-> ->]|[Hn K]]%Hc; [|by apply (cs_walk _ S)]. destruct (cs_walk _ S u c Sf) as (es & W & Ec). exists (es ++ [e]).
      split; [by eapply walk_snoc|]. rewrite bottleneck_snoc, <- Ec. unfold is_u, u_max in *. lia.
    + intros x v [[= -> ->]%elem_of_singleton|K]%elem_of_union; [by split; [rewrite list_lookup_insert_eq|]|].
      apply Hp in K as [K Hn]. apply Hk; [done|]. by apply (cs_pending _ S).
  - intros v x [[-> ->]|[Hn K]]%Hc; [right; set_solver|]. destruct (Cv v x K) as [|Kp]; [by left|right].
    subst pend. case_match; set_solver.
  - intros v Hv1. destruct (Dn v Hv1) as (cv & Kc & L & Ks). exists cv. split_and!; [apply Hk; [|done]; apply Hne; set_solver|done|].
    intros e' He'. eapply settled_grown; eauto.
  - intros x v [[= -> ->]%elem_of_singleton|K]%elem_of_union; [split; [done|lia]|]. apply Hp in K as [K _]. by apply Nw.
  - apply Hk; [apply Hne; set_solver|done].
  - intros e' [K| ->%list_elem_of_singleton]%elem_of_app; [eapply settled_grown; eauto|]. exists nc. split; [by rewrite list_lookup_insert_eq|done].
Qed.

Lemma within_scan_edge pre s e : e ∈ edges g u -> cap_scan D u c pre s /\ counted s -> budget_ok (cap_budget s) ->
  within 2 (cap_budget s) (scan_edge c s e) (fun s' => (cap_scan D u c (pre ++ [e]) s' /\ counted s') /\ spent 2 (cap_budget s) (cap_budget s')).
Proof.
  intros He [Sc [Ew Lw]] B. unfold scan_edge. pose proof (sc_sound _ _ _ _ _ Sc) as S.
  eapply (within_bind fst _ 1 1); [by apply within_counted| |done|done]. intros [b1 w1] [E1 U1] S1; simpl in *.
  eapply (within_bind fst _ 1 0); [apply within_counted; [apply S1|done|lia]| |done|done]. intros [b2 w2] [E2 U2] S2; simpl in *.
  assert (S12 : spent 2 (cap_budget s) b2) by (by eapply (spent_trans 1 1)).
  assert (Hlt : (target e < length (caps s))%nat) by (rewrite (cs_len _ S); by eapply out_target).
  destruct (lookup_lt_is_Some_2 _ _ Hlt) as [old Eo]. rewrite Eo; simpl. pose proof (cs_range _ S _ _ Eo) as Hr.
  assert (Cn : forall cs p, counted (mk_cap cs p w2 b2)) by (intros; split; simpl; lia).
  destruct ((_ =? 0) || (_ <=? old)) eqn:Eb; simpl; (split; [split; [|apply Cn]|exact S12]).
  - destruct Sc as [_ Cv Dn Nw Sf Pr]. destruct S as [S1' S2' S3' S4' S5']. split; simpl; try done.
    intros e' [K| ->%list_elem_of_singleton]%elem_of_app; [by apply Pr|]. exists old. split; [done|].
    apply orb_true_iff in Eb as [K%Z.eqb_eq|K%Z.leb_le]; lia.
  - apply orb_false_iff in Eb as [K%Z.eqb_neq K'%Z.leb_gt]. apply scan_improves; [done|done|done| |done].
    destruct Sf as [_ Hc] || pose proof (sc_self _ _ _ _ _ Sc) as [_ Hc]. pose proof (out_delivery _ _ He). unfold is_u in *. lia.
Qed.

Lemma within_scan_all s : cap_scan D u c [] s /\ counted s -> budget_ok (cap_budget s) ->
  within (2 * len (edges g u)) (cap_budget s) (fold_out (scan_edge c) s (edges g u))
    (fun s' => (cap_scan D u c (edges g u) s' /\ counted s') /\ spent (2 * len (edges g u)) (cap_budget s) (cap_budget s')).
Proof. intros K B. apply (within_fold cap_budget 2 _ (fun pre s => cap_scan D u c pre s /\ counted s)); [done| |done|done]. intros; by apply within_scan_edge. Qed.

(** the node with the greatest pending capacity starts, and is done when its edges are *)
Lemma scan_begin s w b : cap_inv D s -> (c, u) ∈ cap_pending s -> (forall y, y ∈ cap_pending s -> le_b y (c, u) = true) ->
  cap_scan D u c [] (mk_cap (caps s) (cap_pending s ∖ {[(c, u)]}) w b).
Proof.
  intros [S Cv Dn Nw] Hin Hmax. assert (Hle : forall c' v, (c', v) ∈ cap_pending s -> c' <= c).
  { intros c' v K%Hmax. simpl in K. case_decide; simplify_eq/=; lia. }
  pose proof (cs_pending _ S _ _ Hin) as Hu.
  split; simpl; [destruct S; split; simpl; try done; intros; set_solver| | | |done|set_solver].
  - intros v x K. destruct (Cv v x K) as [|Kp]; [set_solver|]. destruct (decide (v = u)) as [->|]; [set_solver|]. right; set_solver.
  - intros v K. destruct (Dn v K) as (cv & Kc & Ks & Ko). exists cv. split_and!; [done|by eapply Ko|done].
  - intros x v K. apply elem_of_difference in K as [K Kn]. split; [|by eapply Hle]. intros [K2|K2%elem_of_singleton]%elem_of_union; [by eapply Nw|].
    subst v. destruct (cs_pending _ S _ _ K) as [Ex _]. destruct Hu as [Eu _]. rewrite Eu in Ex. simplify_eq. set_solver.
Qed.
Lemma scan_end s : cap_scan D u c (edges g u) s -> cap_inv (D ∪ {[u]}) s.
Proof.
  intros [S Cv Dn Nw Sf Pr]. split; [done|done| |].
  - intros v [K| ->%elem_of_singleton]%elem_of_union.
    + destruct (Dn v K) as (cv & Kc & L & Ks). exists cv. split_and!; [done|done|]. intros c' x [_ ?]%Nw. lia.
    + exists c. split_and!; [done|done|]. by intros c' x [_ ?]%Nw.
  - by intros c' v [? _]%Nw.
Qed.
End Scan.

(** *** The loop *)
#[local] Notation rest := (rest source (node_count g) (edge_references g)).
#[local] Notation cost := (cost source (edge_references g)).
Lemma cost_out u : cost u = 1 + 2 * len (edges g u).
Proof. unfold cost, len. by rewrite (go_out g G u). Qed.

Lemma within_capacity_loop fuel : forall D s, cap_inv D s -> counted s -> budget_ok (cap_budget s) ->
  limit (cap_budget s) - used (cap_budget s) < Z.of_nat fuel ->
  within (rest D) (cap_budget s) (capacity_loop fuel g s)
    (fun s' => (exists D', cap_inv D' s' /\ cap_pending s' = ∅ /\ counted s') /\ spent (rest D) (cap_budget s) (cap_budget s')).
Proof.
  induction fuel as [|fuel IH]; intros D s I C B F; [unfold budget_ok in B; simpl in F; lia|]. simpl.
  destruct (pop_last (cap_pending s)) as [[[c u] pending]|] eqn:Ep.
  2: { apply pop_last_none in Ep. simpl. split; [eauto|]. eapply spent_weaken; [by apply spent_refl|apply rest_nonneg]. }
  apply pop_last_spec in Ep as (Hin & -> & Hmax). pose proof (cs_pending _ (cv_sound _ _ I) _ _ Hin) as [Eu Hc].
  assert (Hu : u ∈ nodes (node_count g)) by (apply elem_of_nodes; rewrite <- (cs_len _ (cv_sound _ _ I)); by eapply lookup_lt_Some).
  rewrite (rest_step _ _ _ D u Hu (cv_new _ _ I _ _ Hin)), cost_out. pose proof (rest_nonneg source (node_count g) (edge_references g) (D ∪ {[u]})). pose proof (len_nonneg (edges g u)).
  eapply (within_bind fst _ 1 (2 * len (edges g u) + rest (D ∪ {[u]}))); [by apply within_counted; [|apply C..]| |lia|lia].
  intros [b w] [E1 U1] S1; simpl in *. rewrite Eu; simpl. rewrite Z.eqb_refl; simpl.
  eapply (within_bind cap_budget _ (2 * len (edges g u)) (rest (D ∪ {[u]}))); [apply (within_scan_all D u c)| |lia|lia].
  { split; [by apply scan_begin|]. split; simpl; [done|destruct C; lia]. }
  { apply S1. }
  intros s' [Sc C'] S2. simpl in S2. apply scan_end in Sc. destruct S1 as (B1 & L1 & W1), S2 as (B2 & L2 & W2).
  eapply within_weaken; [apply (IH (D ∪ {[u]}) s'); [done|done|done|lia]|lia|]. intros s'' [K S3]. split; [done|].
  destruct S3 as (B3 & L3 & W3). unfold spent. split_and!; [done|lia|lia|lia].
Qed.
(** *** The result *)
(** the capacity of each node is the greatest bottleneck of the walks that reach it *)
Definition widest (cs : list Z) : Prop :=
  length cs = node_count g /\ cs !! start = Some (u_max 64) /\
  forall v c, cs !! v = Some c -> 0 <= c <= u_max 64 /\ (0 < c -> exists es, walk es v /\ c = bottleneck es) /\ (forall es, walk es v -> bottleneck es <= c).

Lemma walk_bound es v : walk es v -> (v < node_count g)%nat.
Proof. destruct 1 as [|es u e W He _]; [done|]. by apply (go_edges g G). Qed.

Lemma inv_widest D s : cap_inv D s -> cap_pending s = ∅ -> widest (caps s).
Proof.
  intros [S Cv Dn Nw] Ep. split_and!; [apply S|apply S|]. intros v c Ec. split_and!; [by apply (cs_range _ S v c)|by apply (cs_range _ S v c)| |].
  { intros Hc. apply (cs_walk _ S v c). by split. }
  assert (K : forall es v, walk es v -> exists c, caps s !! v = Some c /\ bottleneck es <= c).
  { induction 1 as [|es u e W (cu & Eu & Lu) He Hsrc]; [exists (u_max 64); split; [apply S|done]|].
    destruct (go_edges g G e He) as (_ & Ht & Hd & _). rewrite bottleneck_snoc.
    destruct (lookup_lt_is_Some_2 (caps s) (target e)) as [ct Et]; [by rewrite (cs_len _ S)|]. exists ct. split; [done|].
    pose proof (cs_range _ S _ _ Et). pose proof (cs_range _ S _ _ Eu). destruct (decide (0 < cu)) as [Hcu|]; [|lia].
    destruct (Cv u cu (conj Eu Hcu)) as [Hu|Hu]; [|set_solver]. destruct (Dn u Hu) as (c' & [Ec' _] & Ks & _). rewrite Eu in Ec'. simplify_eq.
    destruct (Ks e (in_edges e He)) as (ct' & Et' & L). rewrite Et in Et'. simplify_eq. lia. }
  intros es W. destruct (K es v W) as (c' & Ec' & L). rewrite Ec in Ec'. by simplify_eq.
Qed.

Lemma initial_inv w b : cap_inv ∅ (mk_cap (initial_caps g start) {[(u_max 64, start)]} w b).
Proof.
  unfold initial_caps. assert (Hlt : (start < length (replicate (node_count g) 0%Z))%nat) by (by rewrite length_replicate).
  assert (Hc : forall v c, cap_at (<[start := u_max 64]> (replicate (node_count g) 0)) v c -> v = start /\ c = u_max 64).
  { intros v c [Ev Hv]. destruct (decide (v = start)) as [->|]; [rewrite list_lookup_insert_eq in Ev by done; injection Ev as <-; by split|].
    rewrite list_lookup_insert_ne in Ev by done. apply lookup_replicate in Ev as [-> _]. lia. }
  split; simpl.
  - split; simpl.
    + by rewrite length_insert, length_replicate.
    + by rewrite list_lookup_insert_eq.
    + intros v c Ev. destruct (decide (v = start)) as [->|]; [rewrite list_lookup_insert_eq in Ev by done; simplify_eq; unfold u_max; lia|].
      rewrite list_lookup_insert_ne in Ev by done. apply lookup_replicate in Ev as [-> _]. unfold u_max; lia.
    + intros v c [-> ->]%Hc. exists []. split; [constructor|done].
    + intros c v [= -> ->]%elem_of_singleton. split; [by rewrite list_lookup_insert_eq|unfold u_max; lia].
  - intros v c [-> ->]%Hc. set_solver.
  - set_solver.
  - set_solver.
Qed.

Lemma within_widest b : budget_ok b -> used b = w0 -> let k := Z.of_nat (node_count g) + 2 * Z.of_nat (edge_count g) in
  within k b (widest_capacities_checked g start 0 b) (fun s => (widest (caps s) /\ counted s) /\ spent k b (cap_budget s)).
Proof.
  intros B U k. unfold widest_capacities_checked. rewrite lookup_replicate_2 by done.
  change (within k b (capacity_loop (loop_fuel b) g (mk_cap (initial_caps g start) {[(u_max 64, start)]} 0 b)) (fun s => (widest (caps s) /\ counted s) /\ spent k b (cap_budget s))).
  pose proof (rest_bound source (node_count g) (edge_references g) ∅). unfold len, edge_count in *. eapply within_weaken; [apply (within_capacity_loop _ ∅); [apply initial_inv|split; simpl; lia|done|]|done|].
  - unfold loop_fuel; simpl. unfold budget_ok in B. lia.
  - intros s [(D & I & Ep & C) S]. split; [split; [by eapply inv_widest|done]|]. eapply spent_weaken; [done|]. done.
Qed.
End Capacities.

(** ** Preparation *)
#[export] Instance dest_le_trans : Transitive dest_le.
Proof. intros [] [] []; unfold dest_le; simpl; lia. Qed.
#[export] Instance dest_le_total : Total dest_le.
Proof. intros [] []; unfold dest_le; simpl; lia. Qed.

Section Preparation.
Context (g : SpeedGraph) (start : nat) (G : graph_ok g) (Hs : (start < node_count g)%nat).

Lemma elem_of_reached cs c v : (c, v) ∈ reached start cs <-> cs !! v = Some c /\ 0 < c /\ v <> start.
Proof.
  unfold reached. rewrite list_elem_of_omap. split.
  - intros ([i x] & (j & Ej)%list_elem_of_lookup & E). rewrite list_lookup_imap in Ej. apply fmap_Some in Ej as (y & Ey & [= -> ->]).
    simpl in E. case_match eqn:B; [|done]. simplify_eq. apply andb_true_iff in B as [?%Z.ltb_lt ?%negb_true_iff%Nat.eqb_neq]. done.
  - intros (E & Hc & Hn). exists (v, c). split.
    + apply list_elem_of_lookup. exists v. by rewrite list_lookup_imap, E.
    + simpl. by rewrite (proj2 (Z.ltb_lt _ _) Hc), (proj2 (Nat.eqb_neq _ _) Hn).
Qed.
Lemma reached_nodup cs : NoDup (snd <$> reached start cs).
Proof.
  unfold reached. assert (N : NoDup (fst <$> imap (fun (i : nat) (c : Z) => (i, c)) cs)).
  { rewrite fmap_imap. unfold compose; simpl. rewrite (imap_seq_0 _ (fun i => i)), list_fmap_id. apply NoDup_seq. }
  induction (imap _ _) as [|[i c] l IH]; [constructor|]. cbn in N. apply NoDup_cons in N as [Hn N]. specialize (IH N).
  simpl. destruct ((0 <? c) && negb (i =? start)%nat); [|done]. apply NoDup_cons. split; [|done].
  intros K. apply list_elem_of_fmap in K as ([c' v] & Ev & K). apply list_elem_of_omap in K as ([j x] & Hx & E). simpl in *. case_match; simplify_eq.
  apply Hn. apply list_elem_of_fmap. eexists. split; [|exact Hx]. done.
Qed.

(** what the preparation promises to the rounds *)
Record prepared (p : WidestPathPreparation) : Prop := {
  pr_widest : widest g start (capacities p);
  pr_dests : forall c v, (c, v) ∈ destinations p <-> capacities p !! v = Some c /\ 0 < c /\ v <> start;
  pr_sorted : StronglySorted dest_le (destinations p);
  pr_nodup : NoDup (snd <$> destinations p);
  pr_minimum : minimum_delivery_bps p = fst <$> last (destinations p);
}.

Lemma dests_bound cs l : length cs = node_count g -> l ≡ₚ reached start cs -> (length l < node_count g)%nat.
Proof.
  intros Hl P. assert (Nd : NoDup (start :: (snd <$> l))).
  { apply NoDup_cons. rewrite P. split; [|apply reached_nodup]. intros ([c v] & E & (_ & _ & ?)%elem_of_reached)%list_elem_of_fmap. by simpl in E. }
  cut (length (start :: (snd <$> l)) <= length (seq 0 (node_count g)))%nat; [rewrite length_seq; simpl; rewrite length_fmap; lia|].
  apply submseteq_length, NoDup_submseteq; [done|]. intros v [->|([c v'] & -> & K)%list_elem_of_fmap]%elem_of_cons; apply elem_of_seq; [lia|].
  rewrite P in K. apply elem_of_reached in K as (E & _ & _). apply lookup_lt_Some in E. simpl; lia.
Qed.

Lemma dests_sorted l : StronglySorted dest_le (merge_sort dest_le l).
Proof. apply StronglySorted_merge_sort; apply _. Qed.

Lemma active_ok cs m e : length cs = node_count g -> e ∈ edge_references g ->
  exists c, cs !! source e = Some c /\ active cs m e = Ok ((m <=? delivery_bps (weight e)) && (m <=? c)).
Proof.
  intros Hl He. destruct (go_edges g G e He) as (Hsrc & _). destruct (lookup_lt_is_Some_2 cs (source e)) as [c E]; [by rewrite Hl|].
  exists c. split; [done|]. unfold active. rewrite E. by destruct (m <=? delivery_bps (weight e)).
Qed.

(** a charge recorded in the preparation's count *)
Lemma within_add_work {X} b w w0 n k need (f : Z -> WidestPathWorkBudget -> outcome Error X) Q :
  budget_ok b -> w = used b - w0 -> 0 <= w0 <= used b -> 0 <= n ->
  (forall w' b', w' = used b' - w0 -> w0 <= used b' -> spent n b b' -> within k b' (f w' b') Q) -> 0 <= k -> n + k <= need ->
  within need b (b ← charge b n; w ← add_work w n; f w b) Q.
Proof.
  intros B -> L Hn F Hk Hneed. eapply (within_bind id _ n k); [eapply within_weaken; [by apply within_charge|done|]| |done|done].
  { intros b' [S E]; split; [exact E|done]. }
  intros b' E S; simpl in *. unfold add_work, checked_add. pose proof S as ([? ?] & ? & ?). destruct (Z.ltb_spec (used b - w0 + n) (2 ^ 64)); [|lia]. simpl.
  apply F; [lia|lia|done].
Qed.

Lemma within_count_edges cs m w0 n w b : length cs = node_count g -> budget_ok b -> w = used b - w0 -> 0 <= w0 <= used b ->
  within (len (edge_references g)) b (fold_out (count_edge cs m) (n, w, b) (edge_references g))
    (fun s => (s.1.2 = used s.2 - w0 /\ w0 <= used s.2) /\ spent (len (edge_references g)) b s.2).
Proof.
  intros Hl B E L. pose proof (within_fold (snd : Z * Z * WidestPathWorkBudget -> _) 1 (count_edge cs m) (fun _ s => s.1.2 = used s.2 - w0 /\ w0 <= used s.2)
    (edge_references g) ltac:(done)) as F. rewrite Z.mul_1_l in F. apply (F) ; [|simpl; lia|done].
  intros pre e [[n1 w1] b1] He [E1 L1] B1. simpl in *. eapply (within_bind fst _ 1 0); [apply (within_counted g start Hs w0); [lia|done|done|done]| |done|done].
  intros [b2 w2] [E2 U2] S2; simpl in *. destruct (active_ok cs m e Hl He) as (c & _ & ->). simpl. split; [lia|done].
Qed.

(** preparing costs three units for each node and edge *)
Lemma within_prepare b : budget_ok b -> used b = 0 -> let k := 3 * (Z.of_nat (node_count g) + Z.of_nat (edge_count g)) in
  within k b (prepare_widest_path_with_budget g start b)
    (fun pb => (prepared pb.1 /\ capacity_work pb.1 = used pb.2) /\ spent k b pb.2).
Proof.
  intros B U k. unfold prepare_widest_path_with_budget. destruct (lookup_lt_is_Some_2 (node_weights g) start Hs) as [peer ->].
  set (n := Z.of_nat (node_count g)). set (m := Z.of_nat (edge_count g)). assert (0 <= n /\ 0 <= m) as [? ?] by (unfold n, m; lia).
  eapply (within_bind cap_budget _ (n + 2 * m) (2 * n + m)); [apply (within_widest g start G Hs 0); [lia|done|done]| |lia|unfold k; fold n m; lia].
  intros s [W [C _]] S. set (dests := merge_sort dest_le (reached start (caps s))). assert (Wl : length (caps s) = node_count g) by apply W.
  assert (P : dests ≡ₚ reached start (caps s)) by apply merge_sort_Permutation.
  assert (El : len (caps s) = n) by (unfold len, n; by rewrite Wl). pose proof (dests_bound _ _ Wl P) as Hd.
  assert (Hn : len dests <= n) by (unfold len, n; lia). pose proof (len_nonneg dests).
  assert (Pr : forall k w, prepared (mk_preparation (caps s) dests (fst <$> last dests) k w)).
  { intros k' w'. split; simpl; [done|intros c v; rewrite P; apply elem_of_reached|apply dests_sorted|rewrite P; apply reached_nodup|done]. }
  rewrite El. destruct S as (B1 & L1 & U1). eapply (within_add_work _ _ 0 _ (n + m)); [done|done|lia|lia| |lia|lia]. intros w2 b2 E2 _ S2.
  eapply (within_add_work _ _ 0 _ m); [apply S2|done|destruct S2; lia|done| |lia|lia]. intros w3 b3 E3 _ S3. destruct S2 as (B2 & L2 & U2), S3 as (B3 & L3 & U3).
  destruct (last dests) as [[c v]|] eqn:El'.
  2: { simpl. split; [split; [apply Pr|simpl; lia]|unfold spent, k; fold n m; simpl; split_and!; [done|lia..]]. }
  eapply (within_bind snd _ m 0); [apply (within_count_edges _ _ 0); [done|done|done|lia]| |lia|lia]. intros [[x w4] b4] [E4 _] (B4 & L4 & U4); simpl in *.
  split; [split; [apply Pr|simpl; lia]|unfold spent, k; fold n m; simpl; split_and!; [done|lia..]].
Qed.
End Preparation.
End WidestPathProps.
