(* ===== verification/WidestRoutes.v ===== *)
(** * Routes of the widest paths

    The label rounds of src/lowertier/src/peers/peer_ospf_route.rs: after each round the labels are the least
    over the active edges, so the routes are optimal, and the work limit of the code is enough for them. *)
From stdpp Require Import base list gmap numbers sorting.
From Stdlib Require Import ZArith Lia.
From S2P Require Import Prelude WidestPath WidestPathProps.

Local Open Scope Z_scope.

Module WidestRoutes.
Import WidestPath WidestPathProps.

(** ** Labels *)
(** lexicographic: latency, hops, first hop *)
Definition label_le (x y : label) : Prop :=
  x.1.1 < y.1.1 \/ x.1.1 = y.1.1 /\ (x.1.2 < y.1.2 \/ x.1.2 = y.1.2 /\ x.2 <= y.2).
Lemma label_le_spec x y : le_b x y = true <-> label_le x y.
Proof.
  destruct x as [[a h] f], y as [[a' h'] f']. unfold label_le; simpl. repeat case_decide; simplify_eq/=; rewrite Z.leb_le; try lia.
  assert (h <> h') by congruence. lia.
Qed.
#[export] Instance label_le_refl : Reflexive label_le.
Proof. intros x; unfold label_le; lia. Qed.
#[export] Instance label_le_trans : Transitive label_le.
Proof. intros x y z; unfold label_le; lia. Qed.
Lemma label_le_node (x y : label) (u v : nat) : le_b (x, u) (y, v) = true -> label_le x y.
Proof. simpl. case_decide as E; intros K; [rewrite E; reflexivity|]. by apply label_le_spec. Qed.
#[local] Arguments le_b : simpl never.

(** *** Walks *)
Section Walks.
Context (g : SpeedGraph) (start : nat) (peer : Z).

Definition latency (es : list edge) : Z := sum_Z (fun e => latency_ms (weight e)) es.
(** the peer after the last departure from [start] *)
Definition first_hop (es : list edge) : Z :=
  foldl (fun f e => if decide (source e = start) then default peer (node_weights g !! target e) else f) peer es.
(** what a walk is worth *)
Definition walk_label (es : list edge) : label := (latency es, len es, first_hop es).
(** the same in the machine's arithmetic *)
Definition machine_label (es : list edge) : label := (Z.min (u_max 64) (latency es), len es, first_hop es).

Lemma latency_snoc es e : latency (es ++ [e]) = latency es + latency_ms (weight e).
Proof. unfold latency. rewrite sum_Z_app. simpl. lia. Qed.
Lemma first_hop_snoc es e : first_hop (es ++ [e]) = if decide (source e = start) then default peer (node_weights g !! target e) else first_hop es.
Proof. unfold first_hop. by rewrite foldl_app. Qed.
Lemma len_snoc es (e : edge) : len (es ++ [e]) = len es + 1.
Proof. unfold len. rewrite length_app. simpl; lia. Qed.
End Walks.

(** ** The state of the labels *)
Definition lab (ls : list (option label)) (v : nat) (l : label) : Prop := ls !! v = Some (Some l).
Lemma lab_fun ls v l l' : lab ls v l -> lab ls v l' -> l = l'.
Proof. unfold lab. congruence. Qed.

Section Labels.
Context (g : SpeedGraph) (start : nat) (peer : Z) (G : graph_ok g) (Hp : node_weights g !! start = Some peer).
#[local] Notation walk := (walk g start).
#[local] Notation machine_label := (machine_label g start peer).
#[local] Notation walk_label := (walk_label g start peer).

Lemma walk_edges es v : walk es v -> forall e, e ∈ es -> e ∈ edge_references g.
Proof. induction 1; set_solver. Qed.
Lemma latency_nonneg es v : walk es v -> 0 <= latency es.
Proof.
  intros W. apply sum_Z_nonneg. intros e He. destruct (go_edges g G e (walk_edges _ _ W e He)) as (_ & _ & _ & K). unfold is_u in K. lia.
Qed.

(** the label of an edge's target through it *)
Definition extend (e : edge) (l : label) : label :=
  (saturating_add 64 l.1.1 (latency_ms (weight e)), saturating_add 64 l.1.2 1,
   if decide (source e = start) then default peer (node_weights g !! target e) else l.2).
Lemma speed_path_label_ok e l : e ∈ edge_references g -> speed_path_label g start (source e) (target e) l (latency_ms (weight e)) = Ok (extend e l).
Proof.
  intros He. destruct (go_edges g G e He) as (_ & Ht & _). unfold speed_path_label, extend.
  destruct (Nat.eqb_spec (source e) start) as [E|E]; [rewrite decide_True by done|by rewrite decide_False].
  destruct (lookup_lt_is_Some_2 _ _ Ht) as [p ->]. done.
Qed.
Lemma extend_machine e es v : walk es v -> e ∈ edge_references g -> len es < 2 ^ 63 -> extend e (machine_label es) = machine_label (es ++ [e]).
Proof.
  intros W He Hl. unfold extend, machine_label; simpl. rewrite latency_snoc, first_hop_snoc, len_snoc. f_equal.
  pose proof (latency_nonneg _ _ W). pose proof (len_nonneg es). destruct (go_edges g G e He) as (_ & _ & _ & K). unfold is_u in K.
  unfold saturating_add, u_max in *. f_equal; lia.
Qed.
Lemma extend_grows e es v : walk es v -> e ∈ edge_references g -> len es < 2 ^ 63 -> label_le (machine_label es) (extend e (machine_label es)).
Proof.
  intros W He Hl. rewrite (extend_machine e es v) by done. unfold label_le; simpl. rewrite latency_snoc, len_snoc.
  destruct (go_edges g G e He) as (_ & _ & _ & K). unfold is_u in K. lia.
Qed.
(** the machine's step is monotone up to the bound of its latencies *)
Lemma extend_mono e l es : 0 <= l.1.2 < 2 ^ 63 -> 0 <= latency_ms (weight e) -> latency (es ++ [e]) <= u_max 64 ->
  label_le l (walk_label es) -> label_le (extend e l) (walk_label (es ++ [e])).
Proof.
  intros Hh He Hm K. unfold extend, walk_label, label_le in *; simpl in *. rewrite latency_snoc in *. rewrite first_hop_snoc, len_snoc.
  unfold saturating_add, u_max in *. case_decide; lia.
Qed.
Lemma start_least es v : walk es v -> label_le (0, 0, peer) (machine_label es).
Proof.
  intros W. pose proof (latency_nonneg _ _ W). unfold label_le; simpl. destruct es as [|e es]; [unfold len, latency, first_hop, u_max; simpl; lia|].
  pose proof (len_nonneg es). unfold len in *; simpl in *. unfold u_max; lia.
Qed.

(** each label is that of a walk over the edges of [A] *)
Record sound (A : list edge) (ls : list (option label)) (n : Z) : Prop := {
  so_len : length ls = node_count g;
  so_start : lab ls start (0, 0, peer);
  so_walk : forall v l, lab ls v l -> exists es, walk es v /\ (forall e, e ∈ es -> e ∈ A) /\ l = machine_label es /\ len es <= n;
}.
Lemma labels_sound_weaken A A' ls n n' : sound A ls n -> (forall e, e ∈ A -> e ∈ A') -> n <= n' -> sound A' ls n'.
Proof. intros [K1 K2 K3] Hi Hn. split; [done|done|]. intros v l (es & ? & ? & ? & ?)%K3. exists es. split_and!; auto; lia. Qed.

(** going through [e] no longer improves its target *)
Definition settled (ls : list (option label)) (e : edge) : Prop :=
  forall l, lab ls (source e) l -> exists lt, lab ls (target e) lt /\ label_le lt (extend e l).
Definition covered (E : list edge) (s : label_state) : Prop :=
  forall e, e ∈ E -> settled (labels s) e \/ exists l, (l, source e) ∈ l_pending s.
Record lstate (A : list edge) (s : label_state) : Prop := {
  st_sound : sound A (labels s) (used (l_budget s));
  st_pending : forall l v, (l, v) ∈ l_pending s -> lab (labels s) v l;
  st_budget : budget_ok (l_budget s);
}.

(** *** One relaxation *)
Inductive relaxed (s : label_state) (t : nat) (c : label) (s' : label_state) : Prop :=
| relax_keeps lt : lab (labels s) t lt -> label_le lt c -> labels s' = labels s -> l_pending s' = l_pending s -> relaxed s t c s'
| relax_improves : (t < length (labels s))%nat -> (forall lt, lab (labels s) t lt -> label_le c lt /\ ~ label_le lt c) -> labels s' = <[t := Some c]> (labels s) ->
    (forall l v, (l, v) ∈ l_pending s' <-> l = c /\ v = t \/ v <> t /\ (l, v) ∈ l_pending s) -> relaxed s t c s'.

Lemma label_total x y : label_le x y \/ label_le y x.
Proof. unfold label_le. lia. Qed.

Lemma within_relax A s t es : lstate A s -> walk es t -> (forall e, e ∈ es -> e ∈ A) -> len es <= used (l_budget s) + 1 ->
  within 1 (l_budget s) (relax_speed_path s t (machine_label es))
    (fun s' => (relaxed s t (machine_label es) s' /\ lstate A s') /\ spent 1 (l_budget s) (l_budget s')).
Proof.
  intros [So Pe Bu] W Wa Hl. unfold relax_speed_path. set (c := machine_label es).
  eapply (within_bind id _ 1 0); [eapply within_weaken; [by apply within_charge|done|]| |done|done]. { intros b [S E]; split; [exact E|done]. }
  intros b E S; simpl in *. assert (Ht : (t < length (labels s))%nat) by (rewrite (so_len _ _ _ So); by eapply walk_bound; [..|exact W]; [|eapply lookup_lt_Some]).
  destruct (lookup_lt_is_Some_2 _ _ Ht) as [prev Ev]. rewrite Ev; simpl. assert (So1 : sound A (labels s) (used b)) by (eapply labels_sound_weaken; [done|auto|lia]).
  destruct (match prev with Some current => le_b current c | None => false end) eqn:Em; simpl.
  { destruct prev as [lt|]; [|done]. split; [split; [apply (relax_keeps _ _ _ _ lt); try done; by apply label_le_spec|split; [done|done|apply S]]|done]. }
  assert (Hno : forall lt, lab (labels s) t lt -> label_le c lt /\ ~ label_le lt c).
  { intros lt El. unfold lab in El. rewrite Ev in El. simplify_eq. destruct (label_total lt c) as [K|K]; [by apply label_le_spec in K; congruence|].
    split; [done|]. intros K2%label_le_spec. congruence. }
  assert (Hpe : forall l v, (l, v) ∈ {[(c, t)]} ∪ match prev with Some l => l_pending s ∖ {[(l, t)]} | None => l_pending s end <->
      l = c /\ v = t \/ v <> t /\ (l, v) ∈ l_pending s).
  { intros l v. assert (Kt : (l, t) ∈ l_pending s -> prev = Some l) by (intros K%Pe; unfold lab in K; rewrite Ev in K; by simplify_eq).
    destruct (decide (v = t)) as [->|Hn]; destruct prev as [lp|]; split; set_solver. }
  split; [split|done]; [by apply relax_improves|]. split; simpl; [|intros l v [[-> ->]|[Hn K]]%Hpe|apply S].
  - split; [by rewrite length_insert; apply So| |].
    + unfold lab. destruct (decide (t = start)) as [->|]; [|rewrite list_lookup_insert_ne by done; apply So].
      exfalso. destruct (Hno _ (so_start _ _ _ So)) as [_ K]. apply K. by eapply start_least.
    + intros v l K. unfold lab in K. destruct (decide (v = t)) as [->|]; [|rewrite list_lookup_insert_ne in K by done; by apply So1].
      rewrite list_lookup_insert_eq in K by done. simplify_eq. exists es. split_and!; try done. lia.
  - unfold lab. by rewrite list_lookup_insert_eq.
  - unfold lab. rewrite list_lookup_insert_ne by done. by apply Pe.
Qed.

Section Relaxed.
Context (s s' : label_state) (t : nat) (c : label) (R : relaxed s t c s').
Lemma relaxed_target : exists lt, lab (labels s') t lt /\ label_le lt c.
Proof.
  destruct R as [lt ? ? -> _|Hl _ -> _]; [by exists lt|]. exists c. split; [|reflexivity]. unfold lab. by rewrite list_lookup_insert_eq.
Qed.
Lemma relaxed_improves v l : lab (labels s) v l -> exists l', lab (labels s') v l' /\ label_le l' l.
Proof.
  intros K. destruct R as [lt ? ? -> _|Hl Hc -> _]; [exists l; split; [done|reflexivity]|]. destruct (decide (v = t)) as [->|Hn].
  - exists c. split; [unfold lab; by rewrite list_lookup_insert_eq|by apply Hc].
  - exists l. split; [unfold lab; by rewrite list_lookup_insert_ne|reflexivity].
Qed.
(** a label no greater than the candidate stays *)
Lemma relaxed_keeps v l : lab (labels s) v l -> label_le l c \/ v <> t -> lab (labels s') v l.
Proof.
  intros K Hk. destruct R as [lt ? ? -> _|Hl Hc -> _]; [done|]. unfold lab. rewrite list_lookup_insert_ne; [done|].
  intros ->. destruct Hk; [|done]. by destruct (Hc l K).
Qed.
Lemma relaxed_pending l v : (l, v) ∈ l_pending s' -> (l, v) ∈ l_pending s \/ l = c /\ v = t /\ forall lt, lab (labels s) t lt -> ~ label_le lt c.
Proof.
  destruct R as [lt ? ? _ ->|Hl Hc _ Hpe]; [by left|]. intros [[-> ->]|[_ ?]]%Hpe; [right|by left]. split_and!; [done|done|]. by intros lt [_ ?]%Hc.
Qed.
Lemma relaxed_settled e : settled (labels s) e -> settled (labels s') e \/ exists l, (l, source e) ∈ l_pending s'.
Proof.
  intros K. destruct R as [lt ? ? -> _|Hl Hc El Hpe]; [by left|].
  destruct (decide (source e = t)) as [E|Hn]; [right; exists c; rewrite E; apply Hpe; by left|left].
  intros l L. rewrite El in L. unfold lab in L. rewrite list_lookup_insert_ne in L by done. destruct (K l L) as (lt & Lt & Le).
  destruct (relaxed_improves _ _ Lt) as (l' & L' & Le'). exists l'. split; [done|by transitivity lt].
Qed.
Lemma relaxed_covered E : covered E s -> covered E s'.
Proof.
  intros K e He. destruct (K e He) as [Ks|[l Kp]]; [by apply relaxed_settled|]. right.
  destruct R as [lt ? ? _ ->|Hl Hc _ Hpe]; [by exists l|]. destruct (decide (source e = t)) as [Et|Hn]; [exists c|exists l]; apply Hpe; auto.
Qed.
End Relaxed.

Lemma fold_out_fmap {S X Y} (h : X -> Y) (f : S -> Y -> outcome Error S) l s : fold_out f s (h <$> l) = fold_out (fun s x => f s (h x)) s l.
Proof. revert s. induction l as [|x l IH]; intros s; simpl; [done|]. destruct (f s (h x)); simpl; auto. Qed.

(** *** Active edges *)
Context (A : list edge) (HA : forall e, e ∈ A -> e ∈ edge_references g).

(** a label and an edge give a walk that is one longer *)
Lemma within_extend s e l : lstate A s -> e ∈ A -> lab (labels s) (source e) l ->
  within 1 (l_budget s) (relax_speed_path s (target e) (extend e l))
    (fun s' => (relaxed s (target e) (extend e l) s' /\ lstate A s') /\ spent 1 (l_budget s) (l_budget s')) /\ label_le l (extend e l).
Proof.
  intros L He Hl. destruct (so_walk _ _ _ (st_sound _ _ L) _ _ Hl) as (es & W & Wa & -> & Hn). pose proof (HA e He) as Hr.
  assert (len es < 2 ^ 63) by (destruct (st_budget _ _ L); lia). split; [|by eapply extend_grows].
  rewrite (extend_machine e es (source e)) by done. apply within_relax; [done|by eapply walk_snoc| |rewrite len_snoc; lia].
  intros x [K| ->%list_elem_of_singleton]%elem_of_app; auto.
Qed.

(** seeding the new edges [N] *)
Lemma within_seed N Old s : (forall e, e ∈ N -> e ∈ A) -> lstate A s -> covered Old s ->
  within (len N) (l_budget s) (fold_out (seed_edge g start) s (flatten <$> N))
    (fun s' => (lstate A s' /\ covered (Old ++ N) s') /\ spent (len N) (l_budget s) (l_budget s')).
Proof.
  intros HN L C. rewrite fold_out_fmap. pose proof (within_fold l_budget 1 (fun s e => seed_edge g start s (flatten e)) (fun pre s => lstate A s /\ covered (Old ++ pre) s) N ltac:(done)) as F.
  rewrite Z.mul_1_l in F. apply F; [|by rewrite app_nil_r|apply L]. clear F C L s. intros pre e s He [L C] B. unfold seed_edge, flatten. pose proof (HN e He) as Ha. pose proof (HA e Ha) as Hr.
  destruct (go_edges g G e Hr) as (Hsrc & _). destruct (lookup_lt_is_Some_2 (labels s) (source e)) as [[l|] E]; [by rewrite (so_len _ _ _ (st_sound _ _ L))| |]; rewrite E; simpl.
  - rewrite speed_path_label_ok by done; simpl. destruct (within_extend s e l L Ha E) as [K Kle]. eapply within_weaken; [exact K|done|].
    intros s' [[R L'] S]. split; [split; [done|]|done]. intros x Hx. rewrite app_assoc in Hx. apply elem_of_app in Hx as [Hx| ->%list_elem_of_singleton].
    { by eapply relaxed_covered; [|exact C|]. }
    left. intros l1 L1. assert (l1 = l) as -> by (eapply lab_fun; [exact L1|]; eapply relaxed_keeps; [done|done|by left]). by eapply relaxed_target.
  - split; [split; [done|]|eapply spent_weaken; [by apply spent_refl|done]]. intros x Hx. rewrite app_assoc in Hx. apply elem_of_app in Hx as [Hx| ->%list_elem_of_singleton]; [by apply C|].
    left. intros l L1. unfold lab in L1. congruence.
Qed.

(** *** Propagation *)
Definition arc (e : edge) : nat * Z := (target e, latency_ms (weight e)).
Definition adj (E : list edge) (u : nat) : list (nat * Z) := arc <$> filter (fun e => source e = u) E.

(** the nodes of [D] had their turn in this round *)
Record loop_inv (D : gset nat) (s : label_state) : Prop := {
  li_state : lstate A s;
  li_covered : covered A s;
  li_done : forall u, u ∈ D -> exists l, lab (labels s) u l /\ forall l' v, (l', v) ∈ l_pending s -> label_le l l';
  li_new : forall l v, (l, v) ∈ l_pending s -> v ∉ D;
}.
(** during the turn of [u] with the label [l] *)
Record turn (D : gset nat) (u : nat) (l : label) (pre : list edge) (s : label_state) : Prop := {
  tu_state : lstate A s;
  tu_covered : covered (filter (fun e => source e <> u) A) s;
  tu_done : forall v, v ∈ D -> exists lv, lab (labels s) v lv /\ label_le lv l;
  tu_new : forall l' v, (l', v) ∈ l_pending s -> v ∉ D ∪ {[u]} /\ label_le l l';
  tu_self : lab (labels s) u l;
  tu_pre : forall e, e ∈ pre -> exists lt, lab (labels s) (target e) lt /\ label_le lt (extend e l);
}.

Lemma turn_begin D s l u b : loop_inv D s -> (l, u) ∈ l_pending s -> (forall y, y ∈ l_pending s -> le_b (l, u) y = true) -> spent 1 (l_budget s) b ->
  turn D u l [] (mk_labels (labels s) (l_pending s ∖ {[(l, u)]}) b).
Proof.
  intros [L C Dn Nw] Hin Hmin S. destruct L as [So Pe Bu]. split; simpl.
  - split; simpl; [|intros; apply Pe; set_solver|apply S]. eapply labels_sound_weaken; [done|auto|apply S].
  - intros e [Hn He]%list_elem_of_filter. destruct (C e He) as [?|[l' K]]; [by left|right]. exists l'. simpl. set_solver.
  - intros v K. destruct (Dn v K) as (lv & Lv & Kl). exists lv. split; [done|by eapply Kl].
  - intros l' v [K Kn]%elem_of_difference. split; [|by eapply label_le_node, Hmin]. intros [K2|K2%elem_of_singleton]%elem_of_union; [by eapply Nw|].
    subst v. pose proof (lab_fun _ _ _ _ (Pe _ _ K) (Pe _ _ Hin)). set_solver.
  - by apply Pe.
  - set_solver.
Qed.

Lemma within_turn_edge D u l pre s e : e ∈ filter (fun e => source e = u) A -> turn D u l pre s -> budget_ok (l_budget s) ->
  within 2 (l_budget s) (relax_active g start u l s (arc e)) (fun s' => turn D u l (pre ++ [e]) s' /\ spent 2 (l_budget s) (l_budget s')).
Proof.
  intros [Hu Ha]%list_elem_of_filter [L C Dn Nw Sf Pr] B. unfold relax_active.
  eapply (within_bind id _ 1 1); [eapply within_weaken; [by apply within_charge|done|]| |done|done]. { intros b [S E]; split; [exact E|done]. }
  intros b E S; cbn [fst snd arc]. rewrite <- Hu, speed_path_label_ok by auto. cbn [mbind outcome_bind].
  set (s1 := mk_labels (labels s) (l_pending s) b). assert (L1 : lstate A s1).
  { split; simpl; [|apply L|apply S]. eapply labels_sound_weaken; [apply L|auto|]. simpl in S. destruct S; lia. }
  assert (El : lab (labels s1) (source e) l) by (by rewrite Hu). destruct (within_extend s1 e l L1 Ha El) as [K Kle].
  eapply within_weaken; [exact K|done|]. intros s' [[R L'] S']. split; [|by eapply (spent_trans 1 1)]. subst u. split.
  - done.
  - by apply (relaxed_covered _ _ _ _ R).
  - intros v Hv. destruct (Dn v Hv) as (lv & Lv & Le). exists lv. split; [|done]. apply (relaxed_keeps _ _ _ _ R); [done|left]. by transitivity l.
  - intros l' v [K1|(-> & -> & Hno)]%(relaxed_pending _ _ _ _ R); [by apply Nw|]. split; [|done]. intros [K2|K2%elem_of_singleton]%elem_of_union.
    + destruct (Dn _ K2) as (lv & Lv & Le). eapply Hno; [exact Lv|]. by transitivity l.
    + rewrite <- K2 in El. by eapply Hno.
  - apply (relaxed_keeps _ _ _ _ R); [done|by left].
  - intros x [Hx| ->%list_elem_of_singleton]%elem_of_app; [|by apply (relaxed_target _ _ _ _ R)].
    destruct (Pr x Hx) as (lt & Lt & Le). destruct (relaxed_improves _ _ _ _ R _ _ Lt) as (l' & Ll' & Le'). exists l'. split; [done|by transitivity lt].
Qed.

Lemma turn_end D u l s : turn D u l (filter (fun e => source e = u) A) s -> loop_inv (D ∪ {[u]}) s.
Proof.
  intros [L C Dn Nw Sf Pr]. split; [done| | |].
  - intros e He. destruct (decide (source e = u)) as [Hu|Hu]; [|by apply C, list_elem_of_filter].
    left. intros l' L'. rewrite Hu in L'. assert (l' = l) as -> by (by eapply lab_fun). apply Pr. by apply list_elem_of_filter.
  - intros v [Hv| ->%elem_of_singleton]%elem_of_union.
    + destruct (Dn v Hv) as (lv & Lv & Le). exists lv. split; [done|]. intros l' x [_ K]%Nw. by transitivity l.
    + exists l. split; [done|]. by intros l' x [_ K]%Nw.
  - by intros l' v [K _]%Nw.
Qed.

#[local] Notation rest := (rest source (node_count g) A).
Lemma within_label_loop act fuel : (forall u, (u < node_count g)%nat -> act !! u = Some (adj A u)) ->
  forall D s, loop_inv D s -> limit (l_budget s) - used (l_budget s) < Z.of_nat fuel ->
  within (rest D) (l_budget s) (label_loop fuel g start act s)
    (fun s' => (lstate A s' /\ forall e, e ∈ A -> settled (labels s') e) /\ spent (rest D) (l_budget s) (l_budget s')).
Proof.
  intros Hact. induction fuel as [|fuel IH]; intros D s I F; pose proof (st_budget _ _ (li_state _ _ I)) as B; [unfold budget_ok in B; simpl in F; lia|]. simpl.
  destruct (pop_first (l_pending s)) as [[[l u] pending]|] eqn:Ep.
  2: { apply pop_first_none in Ep. simpl. split; [split; [apply I|]|eapply spent_weaken; [by apply spent_refl|apply rest_nonneg]].
    intros e He. destruct (li_covered _ _ I e He) as [?|[l K]]; [done|]. set_solver. }
  apply pop_first_spec in Ep as (Hin & -> & Hmin). pose proof (st_pending _ _ (li_state _ _ I) _ _ Hin) as Eu.
  assert (Hu : (u < node_count g)%nat) by (rewrite <- (so_len _ _ _ (st_sound _ _ (li_state _ _ I))); by eapply lookup_lt_Some).
  rewrite (rest_step _ _ _ D u (proj2 (elem_of_nodes _ _) Hu) (li_new _ _ I _ _ Hin)). pose proof (rest_nonneg source (node_count g) A (D ∪ {[u]})).
  set (E := filter (fun e => source e = u) A). pose proof (len_nonneg E). unfold cost; fold E.
  eapply (within_bind id _ 1 (2 * len E + rest (D ∪ {[u]}))); [eapply within_weaken; [by apply within_charge|done|]| |lia|lia].
  { intros b [S Eb]; split; [exact Eb|done]. }
  intros b Eb S; simpl in *. unfold lab in Eu. rewrite Eu; simpl. rewrite bool_decide_true by done; simpl. rewrite Hact by done; simpl.
  eapply (within_bind l_budget _ (2 * len E) (rest (D ∪ {[u]}))).
  { unfold adj; fold E. rewrite fold_out_fmap. apply (within_fold l_budget 2 (fun s e => relax_active g start u l s (arc e)) (turn D u l)); [done| |by apply turn_begin|apply S].
    intros; by apply within_turn_edge. }
  2, 3: lia.
  intros s' T S2. apply turn_end in T. simpl in S2. destruct S as (B1 & L1 & W1), S2 as (B2 & L2 & W2).
  eapply within_weaken; [apply (IH (D ∪ {[u]}) s'); [done|lia]|lia|]. intros s'' [K (B3 & L3 & W3)]. split; [done|]. unfold spent. split_and!; [done|lia..].
Qed.

(** *** Settled labels are least *)
Lemma labels_least ls n : sound A ls n -> n < 2 ^ 63 -> (forall e, e ∈ A -> settled ls e) ->
  forall es v, walk es v -> (forall e, e ∈ es -> e ∈ A) ->
  exists l, lab ls v l /\ l.1.1 <= latency es /\ (latency es <= u_max 64 -> label_le l (walk_label es)).
Proof.
  intros So Hn Fx. induction 1 as [|es u e W IH He Hsrc]; intros Hes.
  { exists (0, 0, peer). split_and!; [apply So|done|intros _; unfold walk_label, len; simpl; reflexivity]. }
  destruct IH as (l & Ll & Kl & Le); [intros; apply Hes; set_solver|]. rewrite <- Hsrc in Ll. destruct (Fx e ltac:(set_solver) l Ll) as (lt & Lt & Kt). exists lt.
  destruct (go_edges g G e He) as (_ & _ & _ & Hu). unfold is_u in Hu. rewrite latency_snoc in *. split_and!; [done| |].
  - unfold label_le, extend, saturating_add in Kt; simpl in Kt. lia.
  - intros Hm. transitivity (extend e l); [done|]. destruct (so_walk _ _ _ So _ _ Ll) as (es' & _ & _ & E & Hlen). pose proof (len_nonneg es').
    apply extend_mono; [rewrite E; simpl; lia|lia|by rewrite latency_snoc|apply Le; lia].
Qed.

(** ** One round *)
Definition act_ok (E : list edge) (act : list (list (nat * Z))) : Prop := length act = node_count g /\ forall u, (u < node_count g)%nat -> act !! u = Some (adj E u).

Lemma adj_snoc E e u : adj (E ++ [e]) u = if decide (source e = u) then adj E u ++ [arc e] else adj E u.
Proof.
  unfold adj. rewrite filter_app, fmap_app, filter_cons, filter_nil. case_decide; simpl; [done|]. by rewrite app_nil_r.
Qed.

Lemma within_activate Old N act b : (forall e, e ∈ N -> e ∈ edge_references g) -> act_ok Old act -> budget_ok b ->
  within (len N) b (fold_out activate_edge (act, b) (flatten <$> N)) (fun s => act_ok (Old ++ N) s.1 /\ spent (len N) b s.2).
Proof.
  intros HN Ha B. rewrite fold_out_fmap.
  pose proof (within_fold (snd : list (list (nat * Z)) * WidestPathWorkBudget -> _) 1 (fun s e => activate_edge s (flatten e)) (fun pre s => act_ok (Old ++ pre) s.1) N ltac:(done)) as F.
  rewrite Z.mul_1_l in F. apply F; [|by rewrite app_nil_r|done]. clear F Ha B b act. intros pre e [act b] He [Hl Ha] B. unfold flatten, activate_edge. simpl in *.
  eapply (within_bind id _ 1 0); [eapply within_weaken; [by apply within_charge|done|]| |done|done]. { intros b' [S E]; split; [exact E|done]. }
  intros b' E S; simpl. destruct (go_edges g G e (HN e He)) as (Hs & _). rewrite Ha by done; simpl. split; [|done]. rewrite app_assoc. split; simpl.
  { by rewrite length_insert. }
  intros u Hu. rewrite adj_snoc. case_decide as Ed; [subst; rewrite list_lookup_insert_eq by lia|rewrite list_lookup_insert_ne, Ha by done]; done.
Qed.
End Labels.

(** *** Final labels *)
Definition path_of (delivery : Z) (l : label) : SpeedPath := mk_path l.2 (mk_quality delivery l.1.1 l.1.2).
(** the routes of [ds] come from the labels, the others stay *)
Definition finalized (delivery : Z) (ls : list (option label)) (ds : list (Z * nat)) (rs rs' : gmap nat SpeedPath) : Prop :=
  forall v p, rs' !! v = Some p <-> v ∈ ds.*2 /\ (exists l, lab ls v l /\ p = path_of delivery l) \/ v ∉ ds.*2 /\ rs !! v = Some p.

Lemma within_finalize delivery ls ds rs b : (forall d, d ∈ ds -> exists l, lab ls d.2 l) -> budget_ok b ->
  within (len ds) b (fold_out (finalize delivery ls) (rs, b) ds) (fun s => finalized delivery ls ds rs s.1 /\ spent (len ds) b s.2).
Proof.
  intros Hd B. pose proof (within_fold (snd : gmap nat SpeedPath * WidestPathWorkBudget -> _) 1 (finalize delivery ls) (fun pre s => finalized delivery ls pre rs s.1) ds ltac:(done)) as F.
  rewrite Z.mul_1_l in F. apply F; [|intros v p; set_solver|done]. clear F B b. intros pre d [rs1 b] He K B. unfold finalize. cbn [fst snd] in *.
  eapply (within_bind id _ 1 0); [eapply within_weaken; [by apply within_charge|done|]| |done|done]. { intros b' [S E]; split; [exact E|done]. }
  intros b' E S. destruct (Hd d He) as [l Ll]. pose proof Ll as Ll'. unfold lab in Ll'.
  match goal with |- context [unwrap ?x] => change x with (ls !! d.2) end. rewrite Ll'; simpl. destruct l as [[lat hops] first]. split; [|done].
  intros v p. rewrite fmap_app. simpl. destruct (decide (v = d.2)) as [->|Hn].
  - rewrite lookup_insert_eq. split; [intros [= <-]; left; split; [set_solver|by exists (lat, hops, first)]|].
    intros [[_ (l & L & ->)]|[Hno _]]; [|set_solver]. by rewrite (lab_fun _ _ _ _ L Ll).
  - rewrite lookup_insert_ne by done. rewrite (K v p). assert (v ∈ pre.*2 <-> v ∈ pre.*2 ++ [d.2]) as -> by set_solver. done.
Qed.

Section Rounds.
Context (g : SpeedGraph) (start : nat) (peer : Z) (G : graph_ok g) (Hp : node_weights g !! start = Some peer).
#[local] Notation walk := (walk g start).
#[local] Notation n := (Z.of_nat (node_count g)).

Record round_ok (A : list edge) (s : round_state) : Prop := {
  ro_act : act_ok g A (active_edges s);
  ro_sound : sound g start peer A (round_labels s) (used (round_budget s));
  ro_settled : forall e, e ∈ A -> settled g start peer (round_labels s) e;
  ro_budget : budget_ok (round_budget s);
}.

Lemma within_round A N delivery ds s : (forall e, e ∈ A ++ N -> e ∈ edge_references g) -> round_ok A s ->
  (forall d, d ∈ ds -> exists es, walk es d.2 /\ forall e, e ∈ es -> e ∈ A ++ N) ->
  let k := 2 * len N + (n + 2 * len (A ++ N)) + len ds in
  within k (round_budget s) (round g start delivery ds (flatten <$> N) s)
    (fun s' => (round_ok (A ++ N) s' /\ finalized delivery (round_labels s') ds (routes s) (routes s')) /\ spent k (round_budget s) (round_budget s')).
Proof.
  intros HA [Ra Rs Rt Rb] Hd k. unfold round. pose proof (len_nonneg N). pose proof (len_nonneg ds). pose proof (len_nonneg (A ++ N)).
  eapply (within_bind snd _ (len N) (len N + (n + 2 * len (A ++ N)) + len ds)); [apply (within_activate g G A); [intros; apply HA; set_solver|done|done]| |lia|unfold k; lia].
  intros [act b1] Ha S1; simpl in Ha, S1. cbn [snd].
  eapply (within_bind l_budget _ (len N) (n + 2 * len (A ++ N) + len ds)); [apply (within_seed g start peer G Hp (A ++ N) HA N A)| |lia|lia].
  { set_solver. }
  { split; simpl; [|set_solver|apply S1]. eapply labels_sound_weaken; [exact Rs|set_solver|apply S1]. }
  { intros e He. left. by apply Rt. }
  intros s2 [L2 C2] S2. cbn [l_budget] in S2. pose proof (rest_bound source (node_count g) (A ++ N) ∅).
  eapply (within_bind l_budget _ (n + 2 * len (A ++ N)) (len ds)).
  3, 4: lia.
  { eapply within_weaken; [apply (within_label_loop g start peer G Hp (A ++ N) HA act _ (proj2 Ha) ∅)|done|].
    - split; [done|done|set_solver|set_solver].
    - unfold loop_fuel. destruct (st_budget _ _ _ _ _ L2); lia.
    - intros s3 [K S3]. split; [exact K|by eapply spent_weaken]. }
  intros s3 [L3 F3] S3.
  eapply (within_bind snd _ (len ds) 0); [apply (within_finalize); [|exact (st_budget _ _ _ _ _ L3)]| |done|lia].
  { intros d (es & We & Ea)%Hd. destruct (labels_least g start peer G Hp (A ++ N) HA _ _ (st_sound _ _ _ _ _ L3) ltac:(destruct (st_budget _ _ _ _ _ L3); lia) F3 es d.2 We Ea) as (l & ? & _). eauto. }
  intros [rs b4] Kf S4; simpl in *. destruct S1 as (B1 & E1 & U1), S2 as (B2 & E2 & U2), S3 as (B3 & E3 & U3), S4 as (B4 & E4 & U4).
  split; [split; [split; simpl; [done| |done|done]|done]|unfold spent, k; split_and!; [done|lia..]].
  eapply labels_sound_weaken; [apply L3|done|lia].
Qed.

(** ** The best route to a node of capacity [c] *)
Record best (c : Z) (v : nat) (p : SpeedPath) : Prop := {
  be_delivery : q_delivery_bps (quality p) = c;
  be_walk : exists es, walk es v /\ bottleneck es = c /\ (q_latency_ms (quality p), q_hops (quality p), next_hop_peer_id p) = machine_label g start peer es;
  be_least : forall es, walk es v -> c <= bottleneck es -> q_latency_ms (quality p) <= latency es /\
    (latency es <= u_max 64 -> label_le (q_latency_ms (quality p), q_hops (quality p), next_hop_peer_id p) (walk_label g start peer es));
}.

Context (cs : list Z) (W : widest g start cs).

(** [A] holds the edges that matter for the capacity [c] *)
Record active_at (c : Z) (A : list edge) : Prop := {
  aa_sound : forall e, e ∈ A -> e ∈ edge_references g /\ c <= delivery_bps (weight e);
  aa_complete : forall e ce, e ∈ edge_references g -> c <= delivery_bps (weight e) -> cs !! source e = Some ce -> c <= ce -> e ∈ A;
}.

Lemma active_walk c A es v : active_at c A -> walk es v -> c <= bottleneck es -> forall e, e ∈ es -> e ∈ A.
Proof.
  intros [_ Ac]. induction 1 as [|es u e We IH He Hsrc]; [set_solver|]. rewrite bottleneck_snoc. intros Hc x [Hx| ->%list_elem_of_singleton]%elem_of_app; [apply IH; [lia|done]|].
  destruct W as (Wl & _ & Wc). destruct (go_edges g G e He) as (Hs & _ & Hd & _). destruct (lookup_lt_is_Some_2 cs (source e)) as [ce Ece]; [by rewrite Wl|].
  apply (Ac e ce); [done|lia|done|]. rewrite Hsrc in Ece. destruct (Wc _ _ Ece) as (_ & _ & K). specialize (K es We). lia.
Qed.

Lemma label_best c A s v l : active_at c A -> round_ok A s -> cs !! v = Some c -> 0 < c -> lab (round_labels s) v l -> best c v (path_of c l).
Proof.
  intros Aa [_ So St [? ?]] Ec Hc Ll. destruct W as (_ & _ & Wc). destruct (Wc _ _ Ec) as (Hr & _ & Kmax).
  destruct (so_walk _ _ _ _ _ _ So _ _ Ll) as (es & We & Ea & -> & _). split; simpl; [done| |].
  - exists es. split_and!; [done| |done]. apply Z.le_antisymm; [by apply Kmax|]. apply bottleneck_ge; [lia|]. apply Forall_forall. intros e He. by apply (aa_sound _ _ Aa), Ea.
  - intros es' We' Hb. destruct (labels_least g start peer G Hp A (fun e He => proj1 (aa_sound _ _ Aa e He)) _ _ So ltac:(lia) St es' v We') as (l' & L' & K1 & K2).
    { by eapply active_walk. }
    rewrite (lab_fun _ _ _ _ L' Ll) in *. by split.
Qed.

(** ** All rounds *)
Lemma split_while_spec {X} (f : X -> bool) l a b : split_while f l = (a, b) -> l = a ++ b /\ (forall x, x ∈ a -> f x = true) /\ (forall x b', b = x :: b' -> f x = false).
Proof.
  revert a b. induction l as [|x l IH]; intros a b; simpl; [intros [= <- <-]; set_solver|]. destruct (f x) eqn:E.
  - destruct (split_while f l) as [a' b'] eqn:Es. intros [= <- <-]. destruct (IH a' b' eq_refl) as (-> & K1 & K2). split_and!; [done| |done].
    intros y [->|?]%elem_of_cons; auto.
  - intros [= <- <-]. split_and!; [done|set_solver|]. by intros y b' [= -> ->].
Qed.
Lemma split_while_fmap {X Y} (h : X -> Y) (f : Y -> bool) l : split_while f (h <$> l) = let '(a, b) := split_while (fun x => f (h x)) l in (h <$> a, h <$> b).
Proof. induction l as [|x l IH]; [done|]. rewrite fmap_cons. simpl. destruct (f (h x)); [|done]. setoid_rewrite IH. by destruct (split_while _ l). Qed.

(** the edges of falling capacity that the rounds activate *)
Context (E : list edge) (m : Z).
Context (Es : StronglySorted (fun e e' => delivery_bps (weight e') <= delivery_bps (weight e)) E).
Context (Ein : forall e, e ∈ E <-> e ∈ edge_references g /\ m <= delivery_bps (weight e) /\ exists c, cs !! source e = Some c /\ m <= c).

(** the edges up to a capacity are a prefix *)
Lemma activated A R N R' c : A ++ R = E -> (forall e, e ∈ A -> c <= delivery_bps (weight e)) -> m <= c ->
  split_while (fun e => c <=? delivery_bps (weight e)) R = (N, R') -> active_at c (A ++ N) /\ R = N ++ R'.
Proof.
  intros HE HA Hm (-> & KN & KR)%split_while_spec. split; [split|done].
  - intros e He. split; [apply Ein; set_solver|]. apply elem_of_app in He as [|He%KN]; [auto|lia].
  - intros e ce He Hd Ece Hce. assert (Hi : e ∈ E) by (apply Ein; split_and!; [done|lia|exists ce; split; [done|lia]]).
    rewrite <- HE, app_assoc in Hi. apply elem_of_app in Hi as [?|Hr]; [done|]. exfalso.
    destruct R' as [|x R']; [set_solver|]. specialize (KR x R' eq_refl). apply Z.leb_gt in KR.
    rewrite <- HE, app_assoc in Es. apply StronglySorted_app in Es as (_ & _ & Sx). apply StronglySorted_inv in Sx as [_ Sx]. rewrite Forall_forall in Sx.
    apply elem_of_cons in Hr as [->|Hr]; [lia|]. specialize (Sx e Hr). simpl in Sx. lia.
Qed.

(** the routes so far are those of the destinations [done] *)
Definition routed (dn : list (Z * nat)) (rs : gmap nat SpeedPath) : Prop :=
  (forall v p, rs !! v = Some p -> exists c, (c, v) ∈ dn /\ best c v p) /\ (forall c v, (c, v) ∈ dn -> is_Some (rs !! v)).

Lemma routed_round dn c ds A s rs rs' : routed dn rs -> active_at c A -> round_ok A s -> finalized c (round_labels s) ds rs rs' ->
  (forall d, d ∈ ds -> d.1 = c /\ cs !! d.2 = Some c /\ 0 < c /\ exists l, lab (round_labels s) d.2 l) -> routed (dn ++ ds) rs'.
Proof.
  intros [R1 R2] Aa Ro Fi Hd. split.
  - intros v p [[([c' v'] & -> & Hin)%list_elem_of_fmap (l & Ll & ->)]|[Hn K]]%Fi; simpl in *.
    + destruct (Hd _ Hin) as (Ed & Ec & Hc & _); simpl in *; subst. exists c. split; [set_solver|]. by eapply label_best.
    + destruct (R1 v p K) as (c' & ? & ?). exists c'. split; [set_solver|done].
  - intros c' v Hin. destruct (decide (v ∈ ds.*2)) as [Hv|Hv].
    + pose proof Hv as ([c2 v2] & -> & Hin2)%list_elem_of_fmap. destruct (Hd _ Hin2) as (_ & _ & _ & l & Ll). exists (path_of c l). apply Fi. left. split; [done|eauto].
    + apply elem_of_app in Hin as [Hin|Hin]; [|exfalso; apply Hv; apply list_elem_of_fmap; by exists (c', v)].
      destruct (R2 _ _ Hin) as [p Kp]. exists p. apply Fi. by right.
Qed.

(** a destination of capacity [c] is reached over the edges of capacity [c] *)
Lemma destination_walk c A v : active_at c A -> cs !! v = Some c -> 0 < c -> exists es, walk es v /\ forall e, e ∈ es -> e ∈ A.
Proof.
  intros Aa Ec Hc. destruct W as (_ & _ & Wc). destruct (Wc _ _ Ec) as (_ & K & _). destruct (K Hc) as (es & We & ->).
  exists es. split; [done|]. by eapply active_walk.
Qed.
Lemma round_reached A s es v : (forall e, e ∈ A -> e ∈ edge_references g) -> round_ok A s -> walk es v -> (forall e, e ∈ es -> e ∈ A) -> exists l, lab (round_labels s) v l.
Proof.
  intros HA [_ So St [? ?]] We Ea. destruct (labels_least g start peer G Hp A HA _ _ So ltac:(lia) St es v We Ea) as (l & ? & _). eauto.
Qed.

(** what is known of the destinations of the rounds to come *)
Record upcoming (A : list edge) (todo : list (Z * nat)) : Prop := {
  up_sorted : StronglySorted dest_le todo;
  up_capacity : forall d, d ∈ todo -> cs !! d.2 = Some d.1 /\ 0 < d.1 /\ m <= d.1;
  up_active : forall e d, e ∈ A -> d ∈ todo -> d.1 <= delivery_bps (weight e);
}.

(** the destinations of the next round, and those after it *)
Lemma next_round A R N R' c v same later todo : A ++ R = E -> upcoming A ((c, v) :: todo) ->
  split_while (fun d : Z * nat => d.1 =? c) todo = (same, later) -> split_while (fun e => c <=? delivery_bps (weight e)) R = (N, R') ->
  todo = same ++ later /\ R = N ++ R' /\ active_at c (A ++ N) /\ upcoming (A ++ N) later /\
  forall d, d ∈ (c, v) :: same -> d.1 = c /\ cs !! d.2 = Some c /\ 0 < c.
Proof.
  intros HE [Us Uc Ua] (-> & Ks & _)%split_while_spec Hs. destruct (Uc (c, v)) as (Ec & Hc & Hm); [by left|]; simpl in *.
  destruct (activated A R N R' c HE) as [Aa ->]; [intros e He; by apply (Ua e (c, v) He); left|done|done|]. split_and!; [done|done|done| |].
  - apply StronglySorted_inv in Us as [Us Uf]. rewrite Forall_forall in Uf. split; [by apply StronglySorted_app in Us as (_ & _ & ?)|intros d Hd; apply Uc; set_solver|].
    intros e d He Hd. destruct (aa_sound _ _ Aa e He) as [_ Hce]. specialize (Uf d ltac:(set_solver)). unfold dest_le in Uf; simpl in Uf. lia.
  - intros d [->|Hd]%elem_of_cons; [done|]. pose proof (Ks d Hd) as Ed%Z.eqb_eq. destruct (Uc d) as (? & ? & ?); [set_solver|]. by rewrite Ed in *.
Qed.

Lemma within_rounds fuel : forall dn todo A R s, (length todo <= fuel)%nat -> A ++ R = E -> round_ok A s -> routed dn (routes s) -> upcoming A todo ->
  let k := 2 * len R + len todo * (n + 2 * len E + 1) in
  within k (round_budget s) (rounds fuel g start todo (flatten <$> R) s) (fun s' => routed (dn ++ todo) (routes s') /\ spent k (round_budget s) (round_budget s')).
Proof.
  induction fuel as [|fuel IH]; intros dn todo A R s Hf HE Ro Rt Up k; pose proof (len_nonneg R); pose proof (len_nonneg E).
  1, 2: destruct todo as [|[c v] todo]; [|try (simpl in Hf; lia)].
  1, 2: simpl; rewrite app_nil_r; split; [done|]; eapply spent_weaken; [apply spent_refl, Ro|unfold k, len; simpl; lia].
  simpl. rewrite split_while_fmap. destruct (split_while (fun d : Z * nat => d.1 =? c) todo) as [same later] eqn:Ed.
  change (fun x => c <=? (flatten x).1.1.1) with (fun x => c <=? delivery_bps (weight x)). destruct (split_while _ R) as [N R'] eqn:Er.
  destruct (next_round A R N R' c v same later todo HE Up Ed Er) as (-> & -> & Aa & Up' & Hd). set (ds := (c, v) :: same) in *.
  assert (HA : forall e, e ∈ A ++ N -> e ∈ edge_references g) by (intros e He; by apply (aa_sound _ _ Aa)).
  assert (Hw : forall d, d ∈ ds -> exists es, walk es d.2 /\ forall e, e ∈ es -> e ∈ A ++ N) by (intros d (_ & ? & ?)%Hd; by apply (destination_walk c)).
  assert (El : len (A ++ N) + len R' = len E) by (rewrite <- HE; unfold len; rewrite !length_app; lia). pose proof (len_nonneg R'). pose proof (len_nonneg N). pose proof (len_nonneg (A ++ N)).
  pose proof (len_nonneg same). pose proof (len_nonneg later). assert (Eds : len ds = 1 + len same) by (unfold ds, len; simpl; lia).
  assert (Ek : 2 * len N + (n + 2 * len (A ++ N)) + len ds + (2 * len R' + len later * (n + 2 * len E + 1)) <= k).
  { unfold k. replace (len ((c, v) :: same ++ later)) with (1 + len same + len later) by (unfold len; simpl; rewrite length_app; lia).
    replace (len (N ++ R')) with (len N + len R') by (unfold len; rewrite length_app; lia). nia. }
  eapply (within_bind round_budget _ _ (2 * len R' + len later * (n + 2 * len E + 1))); [by apply (within_round A N c ds)| |nia|exact Ek].
  intros s' [Ro' Fi] S1. assert (Rt' : routed (dn ++ ds) (routes s')).
  { eapply routed_round; [done|done|done|done|]. intros d Hdd. destruct (Hd d Hdd) as (? & ? & ?), (Hw d Hdd) as (es & ? & ?). split_and!; [done..|]. by eapply round_reached. }
  eapply within_weaken; [apply (IH (dn ++ ds) later (A ++ N) R' s')|done|].
  { simpl in Hf. rewrite length_app in Hf. lia. }
  { rewrite <- app_assoc. done. }
  all: try done. intros s'' [K S2]. split; [by rewrite <- app_assoc in K|]. destruct S1 as (B1 & L1 & U1), S2 as (B2 & L2 & U2). unfold spent. split_and!; [done|lia..].
Qed.
End Rounds.

(** ** The result *)
#[export] Instance flat_le_trans : Transitive flat_le.
Proof. intros [[[]]] [[[]]] [[[]]]; unfold flat_le; simpl; lia. Qed.
#[export] Instance flat_le_total : Total flat_le.
Proof. intros [[[]]] [[[]]]; unfold flat_le; simpl; lia. Qed.

Definition unflatten (f : flat_edge) : edge := let '(d, u, t, l) := f in mk_edge u t (mk_speed d l).
Lemma flatten_unflatten f : flatten (unflatten f) = f.
Proof. by destruct f as [[[]]]. Qed.
Lemma unflatten_flatten e : unflatten (flatten e) = e.
Proof. by destruct e as [? ? []]. Qed.

(** sorting by falling capacity *)
Lemma sorted_edges L : exists E, merge_sort flat_le (flatten <$> L) = flatten <$> E /\ E ≡ₚ L /\
  StronglySorted (fun e e' => delivery_bps (weight e') <= delivery_bps (weight e)) E.
Proof.
  set (F := merge_sort flat_le (flatten <$> L)). assert (EF : F = flatten <$> (unflatten <$> F)).
  { rewrite <- list_fmap_compose. rewrite (list_fmap_ext _ id F); [by rewrite list_fmap_id|]. intros i x _. apply flatten_unflatten. }
  exists (unflatten <$> F). split_and!; [done| |].
  - unfold F. rewrite merge_sort_Permutation, <- list_fmap_compose. rewrite (list_fmap_ext _ id L); [by rewrite list_fmap_id|]. intros i x _. apply unflatten_flatten.
  - assert (S : StronglySorted flat_le F) by (apply StronglySorted_merge_sort; apply _). clear EF. induction S as [|f F' S IH Hf]; simpl; constructor; [done|].
    apply Forall_fmap. eapply Forall_impl; [exact Hf|]. intros [[[]]]; destruct f as [[[]]]; unfold flat_le; simpl. lia.
Qed.

Lemma last_least l d : StronglySorted dest_le l -> last l = Some d -> forall x, x ∈ l -> d.1 <= x.1.
Proof.
  intros S (l' & ->)%last_Some x Hx. apply StronglySorted_app in S as (K & _ & _). apply elem_of_app in Hx as [Hx| ->%list_elem_of_singleton]; [|done].
  specialize (K x d Hx ltac:(set_solver)). unfold dest_le in K. lia.
Qed.

Section Result.
Context (g : SpeedGraph) (start : nat) (peer : Z) (G : graph_ok g) (Hp : node_weights g !! start = Some peer).
#[local] Notation walk := (walk g start).
#[local] Notation n := (Z.of_nat (node_count g)).
#[local] Notation m := (Z.of_nat (edge_count g)).

(** exactly the nodes that some capacity reaches have a route, each of greatest capacity and then best *)
Definition optimal (rs : gmap nat SpeedPath) : Prop :=
  (forall v p, rs !! v = Some p -> v <> start /\ exists c, 0 < c /\ (forall es, walk es v -> bottleneck es <= c) /\ best g start peer c v p) /\
  (forall v es, walk es v -> v <> start -> 0 < bottleneck es -> is_Some (rs !! v)).

Lemma routed_optimal p rs : prepared g start p -> routed g start peer (destinations p) rs -> optimal rs.
Proof.
  intros P [R1 R2]. pose proof (pr_widest _ _ _ P) as (Wl & _ & Wc). split.
  - intros v q Kq. destruct (R1 v q Kq) as (c & (Ec & Hc & Hn)%(pr_dests _ _ _ P) & Kb). split; [done|]. exists c. split_and!; [done|by apply (Wc v)|done].
  - intros v es We Hn Hb. destruct (lookup_lt_is_Some_2 (capacities p) v) as [c Ec]; [rewrite Wl; by eapply walk_bound; [..|exact We]; [|eapply lookup_lt_Some]|].
    destruct (Wc v c Ec) as (_ & _ & K). specialize (K es We). apply (R2 c). apply (pr_dests _ _ _ P). split_and!; [done|lia|done].
Qed.

(** the edges that the rounds can use *)
Definition usable (cs : list Z) (mn : Z) (e : edge) : Prop := mn <= delivery_bps (weight e) /\ mn <= default 0 (cs !! source e).
#[local] Instance usable_dec cs mn e : Decision (usable cs mn e).
Proof. unfold usable. apply _. Defined.
Lemma within_collect cs mn b : length cs = node_count g -> budget_ok b ->
  within m b (fold_out (collect_edge cs mn) ([], b) (edge_references g))
    (fun s => s.1 = flatten <$> filter (usable cs mn) (edge_references g) /\ spent m b s.2).
Proof.
  intros Hl B. pose proof (within_fold (snd : list flat_edge * WidestPathWorkBudget -> _) 1 (collect_edge cs mn) (fun pre s => s.1 = flatten <$> filter (usable cs mn) pre) (edge_references g) ltac:(done)) as F.
  rewrite Z.mul_1_l in F. apply F; [|done|done]. clear F B b. intros pre e [l b] He K B. unfold collect_edge. cbn [fst snd] in *.
  eapply (within_bind id _ 1 0); [eapply within_weaken; [by apply within_charge|done|]| |done|done]. { intros b' [S E]; split; [exact E|done]. }
  intros b' E S. destruct (active_ok g G cs mn e Hl He) as (c & Ec & ->). cbn [mbind outcome_bind]. split; [|done]. cbn [fst snd]. subst l.
  rewrite filter_app, filter_cons, filter_nil, fmap_app.
  destruct ((mn <=? delivery_bps (weight e)) && (mn <=? c)) eqn:Eb; [rewrite decide_True; [done|]|rewrite decide_False; [by rewrite app_nil_r|]]; unfold usable; rewrite Ec; simpl; lia.
Qed.

Lemma start_bound : (start < node_count g)%nat.
Proof. by eapply lookup_lt_Some. Qed.

Lemma initial_round b : budget_ok b -> round_ok g start peer [] (mk_round (replicate (node_count g) []) (<[start := Some (0, 0, peer)]> (replicate (node_count g) None)) ∅ b).
Proof.
  intros B. pose proof start_bound as Hs. split; simpl; [| |set_solver|done].
  - split; [by rewrite length_replicate|]. intros u Hu. by rewrite lookup_replicate_2.
  - assert (Hl : (start < length (replicate (node_count g) (None : option label)))%nat) by (by rewrite length_replicate). split.
    + by rewrite length_insert, length_replicate.
    + unfold lab. by rewrite list_lookup_insert_eq.
    + intros v l Ll. unfold lab in Ll. destruct (decide (v = start)) as [->|]; [|rewrite list_lookup_insert_ne in Ll by done; by apply lookup_replicate in Ll as [? _]].
      rewrite list_lookup_insert_eq in Ll by done. injection Ll as <-. exists []. destruct B. split_and!; [constructor|set_solver|done|unfold len; simpl; lia].
Qed.

(** the routes cost one unit for each edge to collect, two to activate it, and the rounds *)
Lemma within_routes p b : prepared g start p -> budget_ok b ->
  within (3 * m + (n - 1) * (n + 2 * m + 1)) b (widest_path_with_preparation g start p b) (fun r => optimal r.1 /\ spent (3 * m + (n - 1) * (n + 2 * m + 1)) b r.2).
Proof.
  intros P B. pose proof start_bound as Hs. pose proof (pr_widest _ _ _ P) as Wd. pose proof Wd as (Wl & _). unfold widest_path_with_preparation. rewrite Hp, Wl, Nat.eqb_refl. cbn [negb].
  assert (Hk : 0 <= (n - 1) * (n + 2 * m + 1)) by nia. rewrite (pr_minimum _ _ _ P). destruct (last (destinations p)) as [[mn v]|] eqn:El; cbn [fmap option_fmap option_map fst].
  2: { split; [|eapply spent_weaken; [by apply spent_refl|lia]]. apply (routed_optimal p); [done|]. apply last_None in El. rewrite El. split; set_solver. }
  assert (Hd : len (destinations p) <= n - 1).
  { assert (Hq : (length (destinations p) < node_count g)%nat); [|unfold len; lia]. cut (destinations p ≡ₚ reached start (capacities p)); [by apply dests_bound|].
    apply NoDup_Permutation; [by eapply NoDup_fmap_1, pr_nodup|by eapply NoDup_fmap_1, reached_nodup|]. intros [c u]. by rewrite (pr_dests _ _ _ P), elem_of_reached. }
  eapply (within_bind snd _ m (2 * m + (n - 1) * (n + 2 * m + 1))); [by apply (within_collect (capacities p) mn)| |lia|lia]. intros [fl b1] Ef S1. cbn [fst snd] in *. subst fl.
  destruct (sorted_edges (filter (usable (capacities p) mn) (edge_references g))) as (E & -> & Pe & Se).
  assert (Ein : forall e, e ∈ E <-> e ∈ edge_references g /\ mn <= delivery_bps (weight e) /\ exists c, capacities p !! source e = Some c /\ mn <= c).
  { intros e. rewrite Pe, list_elem_of_filter. unfold usable. split; [intros [[? K] He]|intros (He & ? & c & -> & ?); done].
    destruct (go_edges g G e He) as (Hsrc & _). destruct (lookup_lt_is_Some_2 (capacities p) (source e)) as [c Ec]; [by rewrite Wl|]. rewrite Ec in K. eauto. }
  assert (HE : len E <= m) by (unfold len; rewrite Pe; apply Nat2Z.inj_le, length_filter). pose proof (len_nonneg E). pose proof (len_nonneg (destinations p)).
  assert (Hk2 : 2 * len E + len (destinations p) * (n + 2 * len E + 1) <= 2 * m + (n - 1) * (n + 2 * m + 1)) by nia.
  eapply (within_bind round_budget _ _ 0); [apply (within_rounds g start peer G Hp (capacities p) Wd E mn Se Ein _ [] _ [] E)| |done|simpl; lia].
  { done. } { done. } { apply initial_round, S1. } { split; set_solver. }
  { split; [apply P| |set_solver]. intros [c u] Hcu. pose proof (last_least _ _ (pr_sorted _ _ _ P) El _ Hcu). apply (pr_dests _ _ _ P) in Hcu as (? & ? & _). done. }
  intros s' Rt S2. cbn [round_budget] in *. split; [by eapply routed_optimal|]. destruct S1 as (B1 & L1 & U1), S2 as (B2 & L2 & U2). cbn [snd]. unfold spent. split_and!; [done|lia..].
Qed.

(** what the whole computation can need *)
Definition work_bound : Z := n * n + 2 * n * m + 3 * n + 4 * m.

Lemma work_limit_spec : match widest_path_work_limit n m with
  | Ok lim => lim = Z.min (4 * ((n + m) + (n + m) * n)) MAX_ROUTE_REBUILD_WORK
  | Err e => e = WidestPathWorkError /\ MAX_ROUTE_REBUILD_WORK < work_bound
  | Panic => False
  end.
Proof.
  pose proof start_bound. assert (1 <= n) by lia. assert (0 <= m) by lia. unfold widest_path_work_limit, checked_add, checked_mul, work_bound, MAX_ROUTE_REBUILD_WORK.
  rewrite (Z.max_l n 1) by lia. destruct (Z.ltb_spec (n + m) (2 ^ 64)); simpl; [|split; [done|nia]].
  destruct (Z.ltb_spec ((n + m) * n) (2 ^ 64)); simpl; [|split; [done|nia]].
  destruct (Z.ltb_spec (n + m + (n + m) * n) (2 ^ 64)); simpl; [|split; [done|nia]].
  destruct (Z.ltb_spec ((n + m + (n + m) * n) * 4) (2 ^ 64)); simpl; [f_equal; lia|split; [done|nia]].
Qed.

Lemma max_goodput_spec : match max_goodput_routes g start with
  | Ok rs => optimal rs
  | Err e => e = WidestPathWorkError /\ MAX_ROUTE_REBUILD_WORK < work_bound
  | Panic => False
  end.
Proof.
  pose proof start_bound as Hs. assert (1 <= n) by lia. assert (0 <= m) by lia. pose proof work_limit_spec as Kl. unfold max_goodput_routes, prepare_widest_path.
  destruct (widest_path_work_limit n m) as [lim|e|]; [|done|done]. assert (Hlim : 0 <= lim < 2 ^ 63) by (unfold MAX_ROUTE_REBUILD_WORK in *; nia).
  assert (with_used 0 lim = Ok (mk_budget 0 lim)) as -> by (unfold with_used; by rewrite (proj2 (Z.ltb_ge lim 0)) by lia). cbn [mbind outcome_bind]. pose proof (within_prepare g start G Hs (mk_budget 0 lim) ltac:(unfold budget_ok; simpl; lia) eq_refl) as Kp.
  destruct (prepare_widest_path_with_budget g start (mk_budget 0 lim)) as [[p b]|[]|]; [| |done|done].
  2: { simpl in *. unfold with_used, no_preparation, u_max; simpl. rewrite (proj2 (Z.ltb_lt lim _)) by lia. split; [done|]. unfold work_bound, MAX_ROUTE_REBUILD_WORK in *. nia. }
  destruct Kp as [[P Ew] ([[? ?] ?] & Elim & Eu)]. cbn [fst snd limit used] in *. cbn [mbind outcome_bind]. unfold with_used. rewrite Ew, (proj2 (Z.ltb_ge lim _)) by lia. cbn [mbind outcome_bind].
  pose proof (within_routes p (mk_budget (used b) lim) P ltac:(unfold budget_ok; simpl; lia)) as Kr.
  destruct (widest_path_with_preparation g start p _) as [[rs b']|[]|]; [apply Kr| |done|done].
  simpl in *. split; [done|]. unfold work_bound, MAX_ROUTE_REBUILD_WORK in *. nia.
Qed.
End Result.

(** Whatever the topology, the maximum-goodput routes either come out optimal or the computation reports that its work
    limit is exhausted, and it always finishes within that limit when n*n + 2*n*m + 3*n + 4*m (n nodes, m edges) is at most
    [MAX_ROUTE_REBUILD_WORK]; it neither panics nor loops.  Optimal means: exactly the nodes other than the start that some
    path of positive capacity reaches have a route; its capacity is the greatest bottleneck of all walks to the node; its
    latency, hop count and first hop are those of one walk of that capacity, and lexicographically least among all walks of
    that capacity (among those whose latency fits 64 bits; the latency itself is least among all). *)
Theorem max_goodput_routes_optimal g start peer : graph_ok g -> node_weights g !! start = Some peer ->
  match max_goodput_routes g start with
  | Ok rs => optimal g start peer rs
  | Err e => e = WidestPathWorkError /\ MAX_ROUTE_REBUILD_WORK < work_bound g
  | Panic => False
  end.
Proof. intros G Hp. by apply max_goodput_spec. Qed.

(** three peers; the direct edge to the last one is quick but narrow *)
Definition demo_edges : list edge := [mk_edge 0 1 (mk_speed 100 5); mk_edge 1 2 (mk_speed 80 5); mk_edge 0 2 (mk_speed 50 1)].
Definition demo_graph : SpeedGraph := mk_graph [10; 20; 30] demo_edges (fun u => filter (fun e => source e = u) demo_edges).

Lemma max_goodput_routes_optimal_witness : exists rs, max_goodput_routes demo_graph 0 = Ok rs /\
  rs !! 2%nat = Some (mk_path 20 (mk_quality 80 10 2)) /\ optimal demo_graph 0 10 rs.
Proof.
  assert (G : graph_ok demo_graph).
  { split; [|done]. intros e He. unfold demo_graph, demo_edges, node_count in *; simpl in *. unfold is_u.
    repeat (apply elem_of_cons in He as [->|He]; [simpl; lia|]). by apply not_elem_of_nil in He. }
  pose proof (max_goodput_routes_optimal demo_graph 0 10 G eq_refl) as K.
  assert (E : match max_goodput_routes demo_graph 0 with Ok rs => rs !! 2%nat | _ => None end = Some (mk_path 20 (mk_quality 80 10 2))) by (vm_compute; reflexivity).
  destruct (max_goodput_routes demo_graph 0) as [rs| |]; [|done|done]. by exists rs.
Defined.
End WidestRoutes.
