(* ===== verification/IpReassembler.v ===== *)
(** * IPv4 fragments in the gateway (src/lowertier/src/gateway/ip_reassembler.rs)

    [compose_ipv4_packet] splits a payload into IPv4 packets, [IpReassembler]
    rebuilds payloads from fragments.  Header fields are read and written by
    the pnet crate: a packet is the record of the fields the code reads, and
    the 20 bytes that pnet writes for a header are a parameter. *)
From stdpp Require Import base list gmap numbers strings.
From Stdlib Require Import ZArith Lia.
From S2P Require Import Prelude.

Local Open Scope Z_scope.

Module IpReassembler.

(** the fields of an [Ipv4Packet] that are read; [fragment_offset] in units of
    eight bytes, [flags] the three flag bits *)
Record Ipv4Packet : Type := mk_ipv4 {
  total_length : Z;
  header_length : Z;
  identification : Z;
  flags : Z;
  fragment_offset : Z;
  payload : list Z;
}.

Definition DontFragment : Z := 2.
Definition MoreFragments : Z := 1.

Record IpFragment : Type := mk_frag { offset : Z; data : list Z }.

(** [data.len() as u16] *)
Definition len16 (l : list Z) : Z := wrap 16 (len l).

Definition from_packet (p : Ipv4Packet) : IpFragment :=
  mk_frag (wrap 16 (fragment_offset p * 8)) (payload p).

Record IpPacket : Type := mk_pkt { pkt_total : option Z; fragments : list IpFragment }.
Definition new_packet : IpPacket := mk_pkt None [].

Definition overlaps (f g : IpFragment) : bool :=
  ((offset f <=? offset g) && (offset g <? wrap 16 (offset f + len16 (data f)))) ||
  ((offset g <=? offset f) && (offset f <? wrap 16 (offset g + len16 (data g)))).

Definition add_to_packet (p : IpPacket) (f : IpFragment) : IpPacket :=
  if existsb (fun g => overlaps g f) (fragments p) then p
  else mk_pkt (pkt_total p) (fragments p ++ [f]).

Definition is_complete (p : IpPacket) : bool :=
  match pkt_total p with
  | None => false
  | Some total => foldl (fun acc f => wrap 16 (acc + len16 (data f))) 0 (fragments p) =? total
  end.

(** [sort_by_key(|f| f.offset)], a stable sort *)
Fixpoint insert_sorted (f : IpFragment) (l : list IpFragment) : list IpFragment :=
  match l with
  | [] => [f]
  | g :: l => if offset f <=? offset g then f :: g :: l else g :: insert_sorted f l
  end.
Definition sort_by_offset (l : list IpFragment) : list IpFragment := foldr insert_sorted [] l.

Fixpoint write_fragments (packet : list Z) (l : list IpFragment) : outcome unit (list Z) :=
  match l with
  | [] => Ok packet
  | f :: l =>
      let start := Z.to_nat (offset f) in
      packet ← copy_from_slice packet start (start + length (data f)) (data f);
      write_fragments packet l
  end.

Definition assemble (p : IpPacket) : outcome unit (IpPacket * option (list Z)) :=
  if negb (is_complete p) then Ok (p, None)
  else
    let p := mk_pkt (pkt_total p) (sort_by_offset (fragments p)) in
    total ← unwrap (pkt_total p);
    packet ← write_fragments (replicate (Z.to_nat total) 0) (fragments p);
    Ok (p, Some packet).

(** source, destination, identification *)
Abbreviation IpResemblerKey := (Z * Z * Z)%type (only parsing).
Record IpResemblerValue : Type := mk_value { v_packet : IpPacket; timestamp : Z }.
Record t : Type := mk { packets : gmap IpResemblerKey IpResemblerValue; timeout : Z }.
Definition new (timeout : Z) : t := mk ∅ timeout.

Definition is_packet_fragmented (p : Ipv4Packet) : bool :=
  negb (fragment_offset p =? 0) || negb (Z.land (flags p) MoreFragments =? 0).
Definition is_last_fragment (p : Ipv4Packet) : bool := Z.land (flags p) MoreFragments =? 0.

Definition add_fragment (s : t) (source destination : Z) (p : Ipv4Packet) (now : Z)
    : outcome unit (t * option (list Z)) :=
  let total := wrap 16 (total_length p - wrap 16 (header_length p * 4)) in
  if negb (total =? len16 (payload p)) then Ok (s, None)
  else
    let fragment := from_packet p in
    let key := (source, destination, identification p) in
    let value := match packets s !! key with Some v => v | None => mk_value new_packet now end in
    let packet := v_packet value in
    let packet := if is_last_fragment p
                  then mk_pkt (Some (wrap 16 (total + offset fragment))) (fragments packet) else packet in
    let packet := add_to_packet packet fragment in
    '(packet, result) ← assemble packet;
    match result with
    | Some data => Ok (mk (delete key (packets s)) (timeout s), Some data)
    | None => Ok (mk (<[key := mk_value packet now]> (packets s)) (timeout s), None)
    end.

Definition remove_expired_packets (s : t) (now : Z) : t :=
  mk (filter (fun kv => now - timestamp kv.2 <= timeout s) (packets s)) (timeout s).

(** ** Composition *)
Section Compose.
(** the header pnet writes for total length, identification, flags and offset *)
Context (header_bytes : Z -> Z -> Z -> Z -> list Z).

Record ComposeArgs : Type := mk_args {
  buf : list Z;
  payload_len : nat;
  payload_mtu : nat;
  ip_id : Z;
}.

(** one turn of the loop: the packet given to the callback, and the buffer *)
Definition compose_piece (a : ComposeArgs) (total_pieces cur_piece : nat) (b : list Z)
    (fragment_off fragment_len : nat) : outcome unit (list Z * Ipv4Packet) :=
  slice ← unwrap (get_range b fragment_off (fragment_off + fragment_len + 20));
  '(fl, fo) ←
    (if bool_decide (1 < total_pieces)%nat then
       _ ← assert_ (bool_decide (fragment_off mod 8 = 0)%nat);
       Ok (if negb (bool_decide (cur_piece = total_pieces - 1)%nat) then MoreFragments else 0,
           wrap 16 (Z.of_nat fragment_off) / 8)
     else Ok (DontFragment, 0));
  let total := wrap 16 (Z.of_nat fragment_len + 20) in
  b ← copy_from_slice b fragment_off (fragment_off + 20) (header_bytes total (ip_id a) fl fo);
  Ok (b, mk_ipv4 total 5 (ip_id a) fl fo (drop 20 slice)).

(** the packets the callback sees, in order, when it does not fail *)
Fixpoint compose_loop (fuel : nat) (a : ComposeArgs) (total_pieces cur_piece : nat) (b : list Z)
    (fragment_off : nat) : outcome unit (list Ipv4Packet) :=
  if bool_decide (payload_len a <= fragment_off)%nat then Ok []
  else
    match fuel with
    | O => Err tt
    | S fuel =>
        let next := Nat.min (fragment_off + payload_mtu a) (payload_len a) in
        '(b, packet) ← compose_piece a total_pieces cur_piece b fragment_off (next - fragment_off);
        rest ← compose_loop fuel a total_pieces (S cur_piece) b next;
        Ok (packet :: rest)
    end.

(** [div_ceil] panics on a zero MTU; every turn of the loop advances, so
    [payload_len] turns are enough *)
Definition compose_ipv4_packet (a : ComposeArgs) : outcome unit (list Ipv4Packet) :=
  if bool_decide (payload_mtu a = 0)%nat then Panic
  else
    let total_pieces := Z.to_nat (div_ceil (Z.of_nat (payload_len a)) (Z.of_nat (payload_mtu a))) in
    compose_loop (payload_len a) a total_pieces 0 (buf a) 0.

End Compose.

(** ** Pieces of a payload *)
Section Pieces.
Context (body : list Z) (m : nat).
Hypothesis m_pos : (0 < m)%nat.
Hypothesis body_pos : (0 < length body)%nat.
Hypothesis body_fits : len body <= 65535.

(** the number of pieces, and the piece at index [i] *)
Definition pieces : nat := Z.to_nat (div_ceil (len body) (Z.of_nat m)).
Definition frag (i : nat) : IpFragment := mk_frag (Z.of_nat (i * m)) (take m (drop (i * m) body)).

Lemma pieces_spec i : (i < pieces)%nat <-> (i * m < length body)%nat.
Proof.
  unfold pieces, div_ceil, len. split; intros Hi.
  - assert (Z.of_nat i < (Z.of_nat (length body) + Z.of_nat m - 1) / Z.of_nat m) as H by lia.
    pose proof (Z.mul_div_le (Z.of_nat (length body) + Z.of_nat m - 1) (Z.of_nat m) ltac:(lia)). nia.
  - assert (Z.of_nat i < (Z.of_nat (length body) + Z.of_nat m - 1) / Z.of_nat m) as H; [|lia].
    apply Z.lt_le_trans with (Z.of_nat i + 1); [lia|]. apply Z.div_le_lower_bound; nia.
Qed.

Lemma pieces_pos : (0 < pieces)%nat.
Proof. apply pieces_spec. lia. Qed.

Lemma frag_length i : length (data (frag i)) = Nat.min m (length body - i * m).
Proof. cbn. by rewrite length_take, length_drop. Qed.

Lemma frag_bounds i :
  (i < pieces)%nat ->
  0 <= offset (frag i) /\ 0 < len (data (frag i)) /\ offset (frag i) + len (data (frag i)) <= len body /\
  len16 (data (frag i)) = len (data (frag i)).
Proof.
  intros Hi%pieces_spec. pose proof (frag_length i) as Hl. unfold len16, len in *. cbn [frag offset].
  rewrite Hl. split_and!; try lia. apply wrap_small. unfold is_u. change (2 ^ 16) with 65536. lia.
Qed.

Lemma frag_disjoint i j : (i < pieces)%nat -> (j < pieces)%nat -> i <> j -> overlaps (frag i) (frag j) = false.
Proof.
  intros Hi Hj Hne. destruct (frag_bounds i Hi) as (? & ? & ? & Li), (frag_bounds j Hj) as (? & ? & ? & Lj).
  unfold overlaps. rewrite Li, Lj.
  rewrite !wrap_small by (unfold is_u; change (2 ^ 16) with 65536; lia).
  assert (len (data (frag i)) <= Z.of_nat m /\ len (data (frag j)) <= Z.of_nat m) as [? ?]
    by (unfold len; rewrite !frag_length; lia).
  apply orb_false_iff. rewrite !andb_false_iff, !Z.leb_gt, !Z.ltb_ge. cbn [frag offset] in *.
  destruct (proj1 (Nat.lt_gt_cases i j) Hne) as [Hlt|Hlt]; nia.
Qed.

Definition frags (ix : list nat) : list IpFragment := map frag ix.
Definition valid (ix : list nat) : Prop := NoDup ix /\ Forall (fun i => i < pieces)%nat ix.

(** the bytes of the pieces [ix] *)
Definition amount (ix : list nat) : Z := sum_Z (fun i => len (data (frag i))) ix.

Lemma amount_all : amount (seq 0 pieces) = len body.
Proof.
  assert (forall k, (k <= pieces)%nat -> amount (seq 0 k) = Z.of_nat (Nat.min (k * m) (length body))) as Ha.
  { induction k as [|k IH]; intros Hk; [done|]. unfold amount in *. rewrite seq_S, sum_Z_app, IH by lia.
    cbn [sum_Z Nat.add]. unfold len. rewrite frag_length.
    assert (k * m < length body)%nat by (apply pieces_spec; lia). lia. }
  rewrite Ha by lia. unfold len. f_equal.
  destruct (Nat.le_gt_cases (length body) (pieces * m)); [lia|].
  assert (pieces < pieces)%nat by (by apply pieces_spec). lia.
Qed.

Lemma valid_submseteq ix : valid ix -> ix ⊆+ seq 0 pieces.
Proof.
  intros [Hd Hf]. apply NoDup_submseteq; [done|]. intros i Hi. rewrite Forall_forall in Hf.
  apply elem_of_seq. specialize (Hf i Hi). lia.
Qed.

(** a proper part of the pieces has fewer bytes than the payload *)
Lemma amount_partial ix :
  valid ix -> amount ix <= len body /\ (amount ix = len body -> ix ≡ₚ seq 0 pieces).
Proof.
  intros Hv. destruct (submseteq_Permutation _ _ (valid_submseteq ix Hv)) as (rest & Hp).
  assert (amount ix + amount rest = len body) as Hsum
    by (unfold amount; rewrite <-sum_Z_app, <-(sum_Z_perm _ _ _ Hp); apply amount_all).
  assert (Forall (fun i => i < pieces)%nat rest) as Hr.
  { apply Forall_forall. intros i Hi. assert (i ∈ seq 0 pieces) as Hin by (rewrite Hp; set_solver).
    apply elem_of_seq in Hin. lia. }
  assert (0 <= amount rest) as H0.
  { apply sum_Z_nonneg. intros. apply len_nonneg. }
  split; [lia|]. intros Heq. destruct rest as [|i rest]; [by rewrite Hp, app_nil_r|]. exfalso.
  apply Forall_cons_iff in Hr as [Hi Hr]. destruct (frag_bounds i Hi) as (_ & Hpos & _ & _).
  assert (0 <= amount rest) by (apply sum_Z_nonneg; intros; apply len_nonneg).
  unfold amount in *. cbn [sum_Z] in Hsum. lia.
Qed.

Lemma sum16 ix : forall acc,
  valid ix -> 0 <= acc -> acc + amount ix <= 65535 ->
  foldl (fun acc f => wrap 16 (acc + len16 (data f))) acc (frags ix) = acc + amount ix.
Proof.
  induction ix as [|i ix IH]; intros acc [Hd Hf] H0 Hb; unfold amount in *; cbn [sum_Z frags map foldl] in *; [lia|].
  apply NoDup_cons in Hd as [_ Hd]. apply Forall_cons_iff in Hf as [Hi Hf].
  destruct (frag_bounds i Hi) as (_ & ? & _ & ->).
  assert (0 <= sum_Z (fun i => len (data (frag i))) ix) by (apply sum_Z_nonneg; intros; apply len_nonneg).
  rewrite wrap_small by (unfold is_u; change (2 ^ 16) with 65536; lia).
  fold (frags ix). rewrite IH; [lia|done|lia|lia].
Qed.

Lemma insert_sorted_perm f l : insert_sorted f l ≡ₚ f :: l.
Proof.
  induction l as [|g l IH]; cbn; [done|]. destruct (_ <=? _); [done|]. rewrite IH. apply perm_swap.
Qed.
Lemma sort_perm l : sort_by_offset l ≡ₚ l.
Proof. induction l as [|f l IH]; cbn; [done|]. by rewrite insert_sorted_perm, IH. Qed.

(** Writing pieces puts the bytes of the payload at their places. *)
Lemma write_frags ix : forall pk,
  Forall (fun i => i < pieces)%nat ix -> length pk = length body ->
  exists pk', write_fragments pk (frags ix) = Ok pk' /\ length pk' = length body /\
    forall p, pk' !! p = if decide ((p / m)%nat ∈ ix) then body !! p else pk !! p.
Proof.
  induction ix as [|i ix IH]; intros pk Hf Hl.
  { exists pk. split_and!; [done..|]. intros p. rewrite decide_False; [done|set_solver]. }
  apply Forall_cons_iff in Hf as [Hi Hf]. pose proof (proj1 (pieces_spec i) Hi) as Hi'.
  pose proof (frag_length i) as Hlen. cbn [frags map write_fragments].
  assert (Z.to_nat (offset (frag i)) = (i * m)%nat) as -> by (cbn [frag offset]; lia).
  unfold copy_from_slice at 1. rewrite bool_decide_true by lia. cbn [mbind outcome_bind].
  destruct (IH (splice pk (i * m) (data (frag i))) Hf) as (pk' & Hw & Hl' & Hlk).
  { rewrite length_splice; lia. }
  exists pk'. split_and!; [done..|]. intros p. rewrite Hlk.
  assert (splice pk (i * m) (data (frag i)) !! p = if decide ((p / m)%nat = i) then body !! p else pk !! p) as Hs.
  { assert ((p / m)%nat = i <-> (i * m <= p < i * m + m)%nat) as Hdiv.
    { split; [intros <-; pose proof (Nat.div_mod p m); pose proof (Nat.mod_upper_bound p m); lia|].
      intros Hp. symmetry. apply (Nat.div_unique p m i (p - i * m)); lia. }
    unfold splice. destruct (Nat.lt_ge_cases p (i * m)) as [Hp|Hp].
    - rewrite lookup_app_l by (rewrite length_take; lia). rewrite lookup_take_lt by lia.
      rewrite decide_False; [done|]. rewrite Hdiv. lia.
    - rewrite lookup_app_r by (rewrite length_take; lia). rewrite length_take, Nat.min_l by lia.
      destruct (Nat.lt_ge_cases (p - i * m) (length (data (frag i)))) as [Hq|Hq].
      + rewrite lookup_app_l by lia. rewrite decide_True by (rewrite Hdiv; lia). cbn [frag data].
        rewrite lookup_take_lt by lia. rewrite lookup_drop. f_equal. lia.
      + rewrite lookup_app_r by lia. rewrite lookup_drop.
        replace (i * m + length (data (frag i)) + (p - i * m - length (data (frag i))))%nat with p by lia.
        case_decide as Hd; [|done]. rewrite Hdiv in Hd.
        rewrite !lookup_ge_None_2; [done|lia|lia]. }
  rewrite Hs. destruct (decide ((p / m)%nat ∈ ix)), (decide ((p / m)%nat = i));
    [rewrite decide_True; [done|set_solver]..|rewrite decide_False; [done|set_solver]].
Qed.

End Pieces.

(** ** Round trip *)
Section RoundTrip.
Context (header_bytes : Z -> Z -> Z -> Z -> list Z).
Hypothesis header_20 : forall a b c d, length (header_bytes a b c d) = 20%nat.
Context (a : ComposeArgs).
Hypothesis mtu_ok : (0 < payload_mtu a)%nat /\ (payload_mtu a mod 8 = 0)%nat /\ Z.of_nat (payload_mtu a) <= 65515.
Hypothesis len_ok : (0 < payload_len a)%nat /\ Z.of_nat (payload_len a) <= 65535.
Hypothesis buf_ok : (payload_len a + 20 <= length (buf a))%nat.

Local Abbreviation m := (payload_mtu a).
(** the payload stands behind the room for one header *)
Definition body : list Z := take (payload_len a) (drop 20 (buf a)).
Local Abbreviation n := (pieces body m).

Lemma length_body : length body = payload_len a.
Proof. unfold body. rewrite length_take, length_drop. lia. Qed.

Lemma body_args : (0 < m)%nat /\ (0 < length body)%nat /\ len body <= 65535.
Proof. unfold len. rewrite length_body. lia. Qed.

Lemma piece_lt i : (i < n)%nat <-> (i * m < payload_len a)%nat.
Proof. destruct body_args as (H1 & H2 & H3). rewrite <-length_body. by apply pieces_spec. Qed.

Definition piece_packet (i : nat) : Ipv4Packet :=
  mk_ipv4 (wrap 16 (len (data (frag body m i)) + 20)) 5 (ip_id a)
    (if bool_decide (1 < n)%nat then if negb (bool_decide (i = n - 1)%nat) then MoreFragments else 0
     else DontFragment)
    (if bool_decide (1 < n)%nat then Z.of_nat (i * m) / 8 else 0)
    (data (frag body m i)).

Lemma compose_piece_spec b i :
  (i < n)%nat -> length b = length (buf a) ->
  drop (i * m + 20) b = drop (i * m + 20) (buf a) ->
  exists b', compose_piece header_bytes a n i b (i * m) (Nat.min m (payload_len a - i * m))
      = Ok (b', piece_packet i) /\ length b' = length (buf a) /\
    drop (i * m + 20) b' = drop (i * m + 20) (buf a).
Proof.
  destruct mtu_ok as (Hm & Hm8 & Hm16), len_ok as [Hl0 Hl]. intros Hi Hb Hd.
  pose proof (proj1 (piece_lt i) Hi) as Hi'.
  set (k := Nat.min m (payload_len a - i * m)).
  assert (k = Nat.min m (payload_len a - i * m)) as Hk by done.
  assert (data (frag body m i) = take k (drop (i * m + 20) (buf a))) as Hdata.
  { cbn [frag data]. unfold body. rewrite skipn_firstn_comm, drop_drop, take_take.
    f_equal. f_equal. lia. }
  unfold compose_piece, get_range.
  rewrite (bool_decide_true (i * m <= i * m + k + 20 <= length b)%nat) by lia. cbn [unwrap mbind outcome_bind].
  assert (exists fl fo, (if bool_decide (1 < n)%nat then
       _ ← assert_ (bool_decide ((i * m) mod 8 = 0)%nat);
       Ok (if negb (bool_decide (i = n - 1)%nat) then MoreFragments else 0,
           wrap 16 (Z.of_nat (i * m)) / 8)
     else Ok (DontFragment, 0)) = @Ok unit _ (fl, fo) /\
     fl = flags (piece_packet i) /\ fo = fragment_offset (piece_packet i)) as (fl & fo & -> & Hfl & Hfo).
  { unfold piece_packet. cbn [flags fragment_offset]. case_bool_decide; [|by eexists _, _].
    rewrite (bool_decide_true ((i * m) mod 8 = 0)%nat) by (rewrite Nat.Div0.mul_mod, Hm8, Nat.mul_0_r; done).
    cbn [assert_ mbind outcome_bind]. eexists _, _. split_and!; [done..|].
    f_equal. apply wrap_small. unfold is_u. change (2 ^ 16) with 65536. lia. }
  cbn [mbind outcome_bind]. set (hb := header_bytes _ _ _ _). pose proof (header_20 _ _ _ _ : length hb = 20%nat) as Hh.
  unfold copy_from_slice. rewrite bool_decide_true by lia. cbn [mbind outcome_bind].
  eexists. split_and!.
  - unfold piece_packet in *. cbn [flags fragment_offset] in *. rewrite Hfl, Hfo. do 3 f_equal.
    + unfold len. rewrite Hdata, length_take, length_drop. do 2 f_equal. lia.
    + rewrite Hdata, <-Hd. replace (i * m + k + 20 - i * m)%nat with (20 + k)%nat by lia.
      rewrite skipn_firstn_comm, drop_drop. f_equal. lia.
  - rewrite length_splice; lia.
  - rewrite <-Hd. unfold splice. rewrite (app_assoc (take _ _)), Hh. apply drop_app_length'.
    rewrite length_app, length_take. lia.
Qed.

Lemma compose_loop_spec fuel : forall i b,
  (i <= n)%nat -> (payload_len a - i * m <= fuel)%nat -> length b = length (buf a) ->
  drop (i * m + 20) b = drop (i * m + 20) (buf a) ->
  compose_loop header_bytes fuel a n i b (Nat.min (i * m) (payload_len a)) = Ok (map piece_packet (seq i (n - i))).
Proof.
  destruct mtu_ok as (Hm & _ & _), len_ok as [Hl0 _].
  pose proof piece_lt as Hps.
  induction fuel as [|fuel IH]; intros i b Hi Hf Hb Hd.
  all: destruct (decide (i < n)%nat) as [Hlt|Hge].
  all: try (assert (i = n) as -> by lia; rewrite Nat.sub_diag;
       assert (~ (n * m < payload_len a)%nat) by (rewrite <-Hps; lia);
       cbn [compose_loop]; by rewrite bool_decide_true by lia).
  all: pose proof (proj1 (Hps i) Hlt) as Hlt'.
  1: lia.
  cbn [compose_loop]. rewrite Nat.min_l by lia. rewrite bool_decide_false by lia.
  replace (Nat.min (i * m + m) (payload_len a) - i * m)%nat with (Nat.min m (payload_len a - i * m)) by lia.
  destruct (compose_piece_spec b i Hlt Hb Hd) as (b' & -> & Hb' & Hd'). cbn [mbind outcome_bind].
  replace (i * m + m)%nat with (S i * m)%nat by lia.
  rewrite IH; [|lia|lia|done|].
  - cbn [mbind outcome_bind]. replace (n - i)%nat with (S (n - S i)) by lia. done.
  - replace (S i * m + 20)%nat with (i * m + 20 + m)%nat by lia. by rewrite <-!(drop_drop _ m (i * m + 20)%nat), Hd'.
Qed.

Lemma compose_spec : compose_ipv4_packet header_bytes a = Ok (map piece_packet (seq 0 n)).
Proof.
  destruct mtu_ok as (Hm & _ & _), len_ok as [Hl0 _]. unfold compose_ipv4_packet.
  rewrite bool_decide_false by lia.
  replace (Z.to_nat (div_ceil (Z.of_nat (payload_len a)) (Z.of_nat m))) with n
    by (unfold pieces, len; by rewrite length_body).
  rewrite <-(Nat.sub_0_r n) at 2. rewrite <-(compose_loop_spec (payload_len a) 0 (buf a)) by (done || lia).
  done.
Qed.

Context (src dst : Z).
Definition key : IpResemblerKey := (src, dst, ip_id a).

Lemma piece_fragment i : (i < n)%nat -> from_packet (piece_packet i) = frag body m i.
Proof.
  destruct mtu_ok as (Hm & Hm8 & Hm16), len_ok as [Hl0 Hl]. intros Hi.
  pose proof (proj1 (piece_lt i) Hi) as Hi'. unfold from_packet, piece_packet. cbn [fragment_offset payload].
  destruct (frag body m i) as [o d] eqn:Ef. assert (o = Z.of_nat (i * m)) as -> by (unfold frag in Ef; congruence).
  f_equal. case_bool_decide as Hn.
  - assert (Z.of_nat (i * m) / 8 * 8 = Z.of_nat (i * m)) as ->.
    { rewrite Z.mul_comm. symmetry. apply Z_div_exact_2; [lia|].
      change 8 with (Z.of_nat 8). rewrite <-Nat2Z.inj_mod. rewrite Nat.Div0.mul_mod, Hm8, Nat.mul_0_r. done. }
    apply wrap_small. unfold is_u. change (2 ^ 16) with 65536. lia.
  - assert (i = 0)%nat as -> by lia. done.
Qed.

Lemma piece_total i :
  (i < n)%nat ->
  wrap 16 (total_length (piece_packet i) - wrap 16 (header_length (piece_packet i) * 4))
  = len (data (frag body m i)).
Proof.
  destruct mtu_ok as (Hm & Hm8 & Hm16). intros Hi.
  destruct body_args as (H1 & H2 & H3). destruct (frag_bounds body m H1 H2 H3 i Hi) as (_ & ? & _ & _).
  assert (len (data (frag body m i)) <= Z.of_nat m) by (unfold len; rewrite frag_length; lia).
  unfold piece_packet. cbn [total_length header_length].
  rewrite (wrap_small 16 (_ + 20)) by (unfold is_u; change (2 ^ 16) with 65536; lia).
  change (wrap 16 (5 * 4)) with 20. rewrite Z.add_simpl_r. apply wrap_small.
  unfold is_u. change (2 ^ 16) with 65536. lia.
Qed.

Lemma piece_last i : (i < n)%nat -> is_last_fragment (piece_packet i) = bool_decide (i = n - 1)%nat.
Proof.
  intros Hi. unfold is_last_fragment, piece_packet. cbn [flags].
  repeat case_bool_decide; cbn [negb]; try done; lia.
Qed.

(** the last piece tells the total *)
Lemma last_total : offset (frag body m (n - 1)) + len (data (frag body m (n - 1))) = len body.
Proof.
  destruct body_args as (H1 & H2 & H3). pose proof (pieces_pos body m H1 H2 H3) as Hn.
  pose proof (proj1 (piece_lt (n - 1)) ltac:(lia)).
  assert (~ (n * m < payload_len a)%nat) by (rewrite <-piece_lt; lia).
  unfold len. rewrite frag_length. cbn [frag offset]. rewrite length_body in *. nia.
Qed.

(** the entry after the pieces [done] *)
Definition entry_packet (done : list nat) : IpPacket :=
  mk_pkt (if decide ((n - 1)%nat ∈ done) then Some (len body) else None) (frags body m done).

Definition entry_is (s : t) (done : list nat) : Prop :=
  match done with
  | [] => packets s !! key = None
  | _ => exists ts, packets s !! key = Some (mk_value (entry_packet done) ts)
  end.

Lemma add_to_entry done i :
  valid body m (done ++ [i]) ->
  add_to_packet (mk_pkt (pkt_total (entry_packet (done ++ [i]))) (frags body m done)) (frag body m i)
  = entry_packet (done ++ [i]).
Proof.
  destruct body_args as (H1 & H2 & H3). intros [Hd Hf]. unfold add_to_packet. cbn [fragments].
  assert (existsb (fun g => overlaps g (frag body m i)) (frags body m done) = false) as ->.
  { apply not_true_iff_false. rewrite existsb_exists. intros (g & Hg & Ho).
    unfold frags in Hg. apply in_map_iff in Hg as (j & <- & Hj). apply list_elem_of_In in Hj.
    rewrite frag_disjoint in Ho; try done.
    - rewrite Forall_forall in Hf. apply Hf. set_solver.
    - rewrite Forall_forall in Hf. apply Hf. set_solver.
    - intros ->. apply NoDup_app in Hd as (_ & Hd & _). apply (Hd i Hj). set_solver. }
  unfold entry_packet, frags. cbn [pkt_total]. by rewrite map_app.
Qed.

Lemma complete_entry done :
  valid body m done -> done <> [] ->
  is_complete (entry_packet done) = bool_decide (length done = n).
Proof.
  destruct body_args as (H1 & H2 & H3). intros Hv Hne.
  destruct (amount_partial body m H1 H2 H3 done Hv) as [Hle Heq].
  unfold is_complete, entry_packet. cbn [pkt_total fragments].
  case_decide as Hin.
  - rewrite (sum16 body m H1 H2 H3 done 0 Hv) by lia. case_bool_decide as Hl.
    + apply Z.eqb_eq. assert (done ⊆+ seq 0 n) as Hs by (by apply valid_submseteq).
      apply submseteq_length_Permutation in Hs; [|rewrite length_seq; lia].
      unfold amount. rewrite (sum_Z_perm _ _ _ Hs). rewrite Z.add_0_l. by apply amount_all.
    + apply Z.eqb_neq. intros Ha. apply Hl. rewrite Heq by lia. by rewrite length_seq.
  - symmetry. apply bool_decide_eq_false_2. intros Hl. apply Hin.
    assert (done ⊆+ seq 0 n) as Hs by (by apply valid_submseteq).
    apply submseteq_length_Permutation in Hs; [|rewrite length_seq; lia].
    rewrite Hs. apply elem_of_seq. pose proof (pieces_pos body m H1 H2 H3). lia.
Qed.

Lemma assemble_entry done :
  valid body m done -> length done = n ->
  exists p, assemble (entry_packet done) = Ok (p, Some body).
Proof.
  destruct body_args as (H1 & H2 & H3). intros Hv Hl. pose proof (pieces_pos body m H1 H2 H3) as Hn.
  assert (done ⊆+ seq 0 n) as Hs by (by apply valid_submseteq).
  apply submseteq_length_Permutation in Hs; [|rewrite length_seq; lia].
  unfold assemble. rewrite complete_entry by (done || (intros ->; cbn in Hl; lia)).
  rewrite bool_decide_true by done. cbn [negb pkt_total fragments entry_packet].
  rewrite decide_True by (rewrite Hs; apply elem_of_seq; lia). cbn [unwrap mbind outcome_bind].
  destruct (Permutation_map_inv _ _ (sort_perm (frags body m done))) as (ix & Hsort & Hp).
  rewrite Hsort. fold (frags body m ix).
  destruct (write_frags body m H1 H2 H3 ix (replicate (Z.to_nat (len body)) 0)) as (pk & -> & Hlp & Hlk).
  - rewrite <-Hp. apply Hv.
  - rewrite length_replicate. unfold len. lia.
  - cbn [mbind outcome_bind]. eexists. do 3 f_equal. apply list_eq. intros p. rewrite Hlk.
    destruct (Nat.lt_ge_cases p (length body)) as [Hlt|Hge].
    + rewrite decide_True; [done|]. rewrite <-Hp, Hs. apply elem_of_seq. split; [lia|].
      apply pieces_spec; try done. pose proof (Nat.Div0.mul_div_le p m). lia.
    + rewrite (lookup_ge_None_2 body) by done. case_decide; [done|].
      apply lookup_ge_None_2. rewrite length_replicate. unfold len. lia.
Qed.

Lemma add_piece s done i now :
  entry_is s done -> valid body m (done ++ [i]) ->
  exists s' r, add_fragment s src dst (piece_packet i) now = Ok (s', r) /\
    (forall k, k <> key -> packets s' !! k = packets s !! k) /\ timeout s' = timeout s /\
    if decide (length (done ++ [i]) = n) then r = Some body /\ packets s' !! key = None
    else r = None /\ entry_is s' (done ++ [i]).
Proof.
  intros He Hv. pose proof Hv as [Hd Hf]. rewrite Forall_app in Hf. destruct Hf as [_ [Hi _]%Forall_cons_iff].
  destruct body_args as (H1 & H2 & H3). destruct (frag_bounds body m H1 H2 H3 i Hi) as (_ & _ & _ & H16).
  unfold add_fragment. cbv zeta. rewrite piece_total, piece_fragment, piece_last by done.
  change (payload (piece_packet i)) with (data (frag body m i)). rewrite H16, Z.eqb_refl. cbn [negb].
  change (identification (piece_packet i)) with (ip_id a). fold key.
  match goal with |- context [v_packet ?value] =>
    assert (v_packet value = entry_packet done) as ->
      by (destruct done as [|j l]; cbn [entry_is] in He; [by rewrite He|by destruct He as [ts ->]]) end.
  assert ((if bool_decide (i = n - 1)%nat
           then mk_pkt (Some (wrap 16 (len (data (frag body m i)) + offset (frag body m i)))) (fragments (entry_packet done))
           else entry_packet done) = mk_pkt (pkt_total (entry_packet (done ++ [i]))) (frags body m done)) as ->.
  { unfold entry_packet at 3. cbn [pkt_total]. case_bool_decide as Hlast.
    - subst i. rewrite decide_True by set_solver. rewrite Z.add_comm, last_total. f_equal. f_equal.
      apply wrap_small. unfold is_u. change (2 ^ 16) with 65536. pose proof (len_nonneg body). lia.
    - unfold entry_packet. f_equal. repeat case_decide; set_solver. }
  rewrite add_to_entry by done. case_decide as Hn.
  - destruct (assemble_entry (done ++ [i]) Hv Hn) as [p ->]. cbn [mbind outcome_bind].
    eexists _, _. split; [done|]. cbn. split_and!; [|done|done|apply lookup_delete_eq].
    intros k Hk. by rewrite lookup_delete_ne.
  - unfold assemble. rewrite complete_entry by (done || (intros E; by apply app_eq_nil in E as [_ ?])).
    rewrite bool_decide_false by done. cbn [negb mbind outcome_bind].
    eexists _, _. split; [done|]. cbn. split_and!; [|done|done|].
    + intros k Hk. by rewrite lookup_insert_ne.
    + destruct done; cbn; exists now; by rewrite lookup_insert_eq.
Qed.

End RoundTrip.

(** packets arriving in the order [ks] at the times [ts] *)
Fixpoint deliver (s : t) (src dst : Z) (ps : list Ipv4Packet) (ks : list (nat * Z))
    : outcome unit (t * list (option (list Z))) :=
  match ks with
  | [] => Ok (s, [])
  | (k, now) :: ks =>
      p ← unwrap (ps !! k);
      '(s, r) ← add_fragment s src dst p now;
      '(s, rs) ← deliver s src dst ps ks;
      Ok (s, r :: rs)
  end.

Lemma deliver_pieces (header_bytes : Z -> Z -> Z -> Z -> list Z) a src dst :
  (forall a b c d, length (header_bytes a b c d) = 20%nat) ->
  (0 < payload_mtu a)%nat /\ (payload_mtu a mod 8 = 0)%nat /\ Z.of_nat (payload_mtu a) <= 65515 ->
  (0 < payload_len a)%nat /\ Z.of_nat (payload_len a) <= 65535 ->
  (payload_len a + 20 <= length (buf a))%nat ->
  let n := pieces (body a) (payload_mtu a) in
  forall ks s got,
  entry_is a src dst s got -> (got ++ ks.*1) ≡ₚ seq 0 n -> ks <> [] ->
  exists s', deliver s src dst (map (piece_packet a) (seq 0 n)) ks
      = Ok (s', replicate (length ks - 1) None ++ [Some (body a)]) /\
    timeout s' = timeout s /\ packets s' = delete (key a src dst) (packets s).
Proof.
  intros Hh Hm Hl Hb n. induction ks as [|[k now] ks IH]; intros s got He Hp Hne; [done|].
  assert (valid (body a) (payload_mtu a) (got ++ k :: ks.*1)) as Hv.
  { split; [rewrite Hp; apply NoDup_seq|]. rewrite Hp. apply Forall_forall. intros i [_ Hi]%elem_of_seq. done. }
  assert (valid (body a) (payload_mtu a) (got ++ [k])) as Hv1.
  { destruct Hv as [Hd Hf]. split.
    - rewrite cons_middle, app_assoc in Hd. by apply NoDup_app in Hd as [? _].
    - rewrite cons_middle, app_assoc, Forall_app in Hf. by destruct Hf. }
  assert (k < n)%nat as Hk by (destruct Hv1 as [_ Hf]; rewrite Forall_app in Hf; by destruct Hf as [_ [? _]%Forall_cons_iff]).
  destruct (add_piece header_bytes Hh a Hm Hl Hb src dst s got k now He Hv1) as (s1 & r & Ha & Hk1 & Ht1 & Hr).
  assert (map (piece_packet a) (seq 0 n) !! k = Some (piece_packet a k)) as Hlk.
  { rewrite list_lookup_fmap, lookup_seq_lt by done. done. }
  assert (deliver s src dst (map (piece_packet a) (seq 0 n)) ((k, now) :: ks) =
    ('(s, rs) ← deliver s1 src dst (map (piece_packet a) (seq 0 n)) ks; Ok (s, r :: rs))) as ->.
  { cbn [deliver]. rewrite Hlk. cbn [unwrap mbind outcome_bind]. by rewrite Ha. }
  assert (length (got ++ [k]) + length ks = n)%nat as Hlen.
  { apply Permutation_length in Hp. rewrite length_app, length_seq in Hp. cbn in Hp. rewrite length_fmap in Hp.
    rewrite length_app. cbn. lia. }
  destruct ks as [|k2 ks].
  - rewrite decide_True in Hr by (cbn in Hlen; lia). destruct Hr as [-> Hdel]. exists s1. split_and!; [done..|].
    apply map_eq. intros i. destruct (decide (i = key a src dst)) as [->|Hi].
    + by rewrite lookup_delete_eq.
    + rewrite lookup_delete_ne by done. by apply Hk1.
  - rewrite decide_False in Hr by (cbn in Hlen; lia). destruct Hr as [-> He1].
    destruct (IH s1 (got ++ [k])) as (s' & Hs' & Ht' & Hp'); [done|by rewrite <-app_assoc|done|].
    exists s'. rewrite Hs'. cbn [mbind outcome_bind]. split_and!; [|by rewrite Ht'|].
    + cbn [length]. rewrite !Nat.sub_succ, !Nat.sub_0_r. done.
    + rewrite Hp'. apply map_eq. intros i. destruct (decide (i = key a src dst)) as [->|Hi].
      * by rewrite !lookup_delete_eq.
      * rewrite !lookup_delete_ne by done. by apply Hk1.
Qed.

(** IPv4 fragmentation round trip.  A payload that [compose_ipv4_packet]
    splits for an MTU that is a multiple of eight is rebuilt exactly by the
    reassembler from its packets in any order: every packet but the last yields
    nothing, the last yields the payload, and no trace of the packet is left
    while the other packets under reassembly are untouched. *)
Theorem ipv4_fragmentation_roundtrip (header_bytes : Z -> Z -> Z -> Z -> list Z) (a : ComposeArgs)
    (s : t) (src dst : Z) (ks : list (nat * Z)) :
  (forall x y z w, length (header_bytes x y z w) = 20%nat) ->
  (0 < payload_mtu a)%nat -> (payload_mtu a mod 8 = 0)%nat -> Z.of_nat (payload_mtu a) <= 65515 ->
  (0 < payload_len a)%nat -> Z.of_nat (payload_len a) <= 65535 ->
  (payload_len a + 20 <= length (buf a))%nat ->
  packets s !! (src, dst, ip_id a) = None ->
  exists ps, compose_ipv4_packet header_bytes a = Ok ps /\
    (ks.*1 ≡ₚ seq 0 (length ps) ->
     exists s', deliver s src dst ps ks
         = Ok (s', replicate (length ps - 1) None ++ [Some (take (payload_len a) (drop 20 (buf a)))]) /\
       packets s' = packets s).
Proof.
  intros Hh Hm Hm8 Hm16 Hl0 Hl Hb Hn.
  pose proof (compose_spec header_bytes Hh a (conj Hm (conj Hm8 Hm16)) (conj Hl0 Hl) Hb) as Hc.
  eexists. split; [exact Hc|]. rewrite length_map, length_seq. intros Hp.
  assert (0 < pieces (body a) (payload_mtu a))%nat as Hpos.
  { apply piece_lt; [by split_and!|by split|done|lia]. }
  assert (length ks = pieces (body a) (payload_mtu a)) as Hlen.
  { apply Permutation_length in Hp. by rewrite length_fmap, length_seq in Hp. }
  destruct (deliver_pieces header_bytes a src dst Hh (conj Hm (conj Hm8 Hm16)) (conj Hl0 Hl) Hb ks s [])
    as (s' & Hs' & _ & Hp'); [done|done|intros ->; cbn in Hlen; lia|].
  exists s'. rewrite Hlen in Hs'. split; [done|]. rewrite Hp'. by apply delete_id.
Qed.

Lemma ipv4_fragmentation_roundtrip_witness :
  let a := mk_args (replicate 20 0 ++ seqZ 1 20) 20 8 77 in
  exists s', (ps ← compose_ipv4_packet (fun _ _ _ _ => replicate 20 5) a;
      deliver (new 10) 1 2 ps [(2%nat, 3); (0%nat, 4); (1%nat, 5)])
    = Ok (s', [None; None; Some (seqZ 1 20)]).
Proof.
  intros a. destruct (ipv4_fragmentation_roundtrip (fun _ _ _ _ => replicate 20 5) a (new 10) 1 2
    [(2%nat, 3); (0%nat, 4); (1%nat, 5)]) as (ps & H1 & H2); try done; [vm_compute; lia..|].
  rewrite H1. cbn [mbind outcome_bind]. vm_compute in H1. injection H1 as <-.
  destruct H2 as (s' & H2 & _); [apply (bool_decide_unpack _); vm_compute; exact I|].
  exists s'. rewrite H2. vm_compute. reflexivity.
Defined.

Lemma wrap16_small z : 0 <= z < 65536 -> wrap 16 z = z.
Proof. intros. apply wrap_small. unfold is_u. change (2 ^ 16) with 65536. lia. Qed.

Lemma far_write_panics far d1 d2 :
  len d1 + len d2 <= far -> 0 < len d1 ->
  write_fragments (replicate (Z.to_nat (len d2 + len d1)) 0) [mk_frag (len d1) d2; mk_frag far d1] = Panic.
Proof.
  intros Hlt Hd1. cbn [write_fragments offset data].
  assert (length (replicate (Z.to_nat (len d2 + len d1)) 0%Z) = length d1 + length d2)%nat as Hr
    by (rewrite length_replicate; unfold len; lia).
  assert (Z.to_nat (len d1) = length d1) as -> by (unfold len; lia).
  unfold copy_from_slice. rewrite bool_decide_true by (rewrite Hr; lia).
  cbn [mbind outcome_bind]. rewrite bool_decide_false; [done|].
  rewrite length_splice by (rewrite Hr; lia). rewrite Hr. unfold len in *. lia.
Qed.

(** the two fragments in the order they arrived *)
Lemma far_assemble_panics far d1 d2 fs :
  0 < len d1 -> 0 < len d2 -> len d1 + len d2 <= far -> far < 65536 ->
  fs = [mk_frag far d1; mk_frag (len d1) d2] \/ fs = [mk_frag (len d1) d2; mk_frag far d1] ->
  assemble (mk_pkt (Some (len d2 + len d1)) fs) = Panic.
Proof.
  intros Hd1 Hd2 Hlt Hfar Hfs.
  assert (is_complete (mk_pkt (Some (len d2 + len d1)) fs) = true) as Hc.
  { unfold is_complete. destruct Hfs as [-> | ->]; cbn [pkt_total fragments foldl data]; unfold len16;
      rewrite Z.add_0_l, !(wrap16_small (len d1)), !(wrap16_small (len d2)) by lia;
      rewrite !wrap16_small by lia; apply Z.eqb_eq; lia. }
  assert (sort_by_offset fs = [mk_frag (len d1) d2; mk_frag far d1]) as Hs.
  { unfold sort_by_offset. destruct Hfs as [-> | ->]; cbn [foldr insert_sorted offset].
    - by rewrite (proj2 (Z.leb_gt _ _)) by lia.
    - by rewrite (proj2 (Z.leb_le _ _)) by lia. }
  unfold assemble. rewrite Hc. cbn [negb pkt_total fragments unwrap mbind outcome_bind].
  by rewrite Hs, far_write_panics by lia.
Qed.

Lemma far_disjoint far d1 d2 :
  0 < len d1 -> 0 < len d2 -> len d1 + len d2 <= far -> far + len d1 < 65536 ->
  overlaps (mk_frag far d1) (mk_frag (len d1) d2) = false /\
  overlaps (mk_frag (len d1) d2) (mk_frag far d1) = false.
Proof.
  intros. unfold overlaps, len16. cbn [offset data].
  rewrite (wrap16_small (len d1)), (wrap16_small (len d2)), !wrap16_small by lia.
  rewrite (proj2 (Z.leb_gt far _)), (proj2 (Z.ltb_ge far _)) by lia.
  by rewrite !andb_false_r, !andb_false_l.
Qed.

Lemma lone_assemble o d total :
  0 <= len d < total -> total < 65536 ->
  assemble (mk_pkt (Some total) [mk_frag o d]) = Ok (mk_pkt (Some total) [mk_frag o d], None).
Proof.
  intros. unfold assemble.
  replace (is_complete _) with false; [done|]. symmetry. unfold is_complete, len16.
  cbn [pkt_total fragments foldl data]. unfold len16. rewrite Z.add_0_l, !wrap16_small by (rewrite ?wrap16_small; lia).
  apply Z.eqb_neq. lia.
Qed.

(** C40: completeness of a packet is decided by the sum of the fragment lengths
    alone.  Take two fragments whose lengths add up to the total announced by
    the last one, of which the other lies at or beyond that total (at any offset
    [8 * k] that keeps its end in 16 bits).  Whatever else the reassembler
    holds, and in either order of arrival, the first of them is kept and the
    second makes it write outside its buffer: the process aborts. *)
Theorem hostile_fragments_panic (s : t) (src dst id k t1 t2 : Z) (d1 d2 : list Z) :
  packets s !! (src, dst, id) = None ->
  (0 < length d1)%nat -> (0 < length d2)%nat -> len d1 mod 8 = 0 ->
  len d1 + len d2 <= 8 * k -> 8 * k + len d1 < 65536 ->
  let far := mk_ipv4 (len d1 + 20) 5 id MoreFragments k d1 in
  let last := mk_ipv4 (len d2 + 20) 5 id 0 (len d1 / 8) d2 in
  (exists s1, add_fragment s src dst far t1 = Ok (s1, None) /\ add_fragment s1 src dst last t2 = Panic) /\
  (exists s1, add_fragment s src dst last t1 = Ok (s1, None) /\ add_fragment s1 src dst far t2 = Panic).
Proof.
  intros Hn H1 H2 H8 Hlt Hfar far last.
  assert (0 < len d1 /\ 0 < len d2) as [Hd1 Hd2] by (unfold len; lia).
  assert (len d1 / 8 * 8 = len d1) as Hdiv by (pose proof (Z.div_mod (len d1) 8); lia).
  destruct (far_disjoint (8 * k) d1 d2) as [Ho1 Ho2]; [lia..|].
  assert (from_packet far = mk_frag (8 * k) d1 /\ from_packet last = mk_frag (len d1) d2) as [Hf Hl].
  { unfold from_packet, far, last. cbn [fragment_offset payload].
    rewrite Hdiv, (Z.mul_comm k), !wrap16_small by lia. done. }
  split.
  - exists (mk (<[(src, dst, id) := mk_value (mk_pkt None [mk_frag (8 * k) d1]) t1]> (packets s)) (timeout s)).
    unfold add_fragment. rewrite Hf, Hl. unfold far, last.
    cbn [total_length header_length identification payload packets].
    change (wrap 16 (5 * 4)) with 20. rewrite !Z.add_simpl_r. unfold len16. rewrite !Z.eqb_refl, Hn, lookup_insert_eq.
    split; [done|]. cbn [negb v_packet offset]. change (is_last_fragment _) with true. cbv iota.
    rewrite (wrap16_small (len d2)), (wrap16_small (len d2 + len d1)) by lia.
    unfold add_to_packet. cbn [fragments app existsb pkt_total]. rewrite Ho1. cbn [orb].
    by rewrite (far_assemble_panics (8 * k) d1 d2) by (by left || lia).
  - exists (mk (<[(src, dst, id) := mk_value (mk_pkt (Some (len d2 + len d1)) [mk_frag (len d1) d2]) t1]> (packets s)) (timeout s)).
    unfold add_fragment. rewrite Hf, Hl. unfold far, last.
    cbn [total_length header_length identification payload packets].
    change (wrap 16 (5 * 4)) with 20. rewrite !Z.add_simpl_r. unfold len16. rewrite !Z.eqb_refl, Hn, lookup_insert_eq.
    cbn [negb v_packet offset new_packet]. change (is_last_fragment (mk_ipv4 _ _ _ 0 _ _)) with true.
    change (is_last_fragment (mk_ipv4 _ _ _ MoreFragments _ _)) with false. cbv iota.
    rewrite (wrap16_small (len d2)), (wrap16_small (len d2 + len d1)) by lia.
    unfold add_to_packet. cbn [fragments app existsb pkt_total]. rewrite Ho2. cbn [orb].
    rewrite (far_assemble_panics (8 * k) d1 d2) by (by right || lia).
    split; [|done]. unfold new_packet. cbn [fragments app existsb pkt_total]. by rewrite lone_assemble by (unfold len in *; lia).
Qed.

Lemma hostile_fragments_panic_witness :
  (exists s1, add_fragment (new 10) 1 2 (mk_ipv4 28 5 9 MoreFragments 1000 (replicate 8 1)) 0 = Ok (s1, None) /\
    add_fragment s1 1 2 (mk_ipv4 28 5 9 0 1 (replicate 8 2)) 1 = Panic) /\
  (exists s1, add_fragment (new 10) 1 2 (mk_ipv4 28 5 9 0 1 (replicate 8 2)) 0 = Ok (s1, None) /\
    add_fragment s1 1 2 (mk_ipv4 28 5 9 MoreFragments 1000 (replicate 8 1)) 1 = Panic).
Proof.
  apply (hostile_fragments_panic (new 10) 1 2 9 1000 0 1 (replicate 8 1) (replicate 8 2));
    [done|vm_compute; lia|vm_compute; lia|done|done|done].
Defined.

End IpReassembler.
