(* ===== verification/NetAddr.v ===== *)
(** * Internet addresses and numbers as text

    What the sources use of [std::net] and of [str::parse]: IP and socket
    addresses with their order and classification, their textual form, and the
    decimal form of machine integers.  Text is a list of bytes. *)
From stdpp Require Import base list gmap numbers strings countable sorting.
From Stdlib Require Import ZArith Lia.
From Stdlib Require Ascii.
From S2P Require Import Prelude.

Local Open Scope Z_scope.

(** the bytes of a literal *)
Fixpoint str (s : string) : list Z :=
  match s with
  | EmptyString => []
  | String c s => Z.of_N (Ascii.N_of_ascii c) :: str s
  end.
Definition ch (s : string) : Z := match str s with c :: _ => c | [] => 0 end.

(** ** Splitting and trimming *)
Module Text.

(** [s.split(c)] *)
Fixpoint split (c : Z) (s : list Z) : list (list Z) :=
  match s with
  | [] => [[]]
  | x :: s => if x =? c then [] :: split c s
              else match split c s with h :: t => (x :: h) :: t | [] => [[x]] end
  end.
(** [s.split_once(c)] *)
Fixpoint split_once (c : Z) (s : list Z) : option (list Z * list Z) :=
  match s with
  | [] => None
  | x :: s => if x =? c then Some ([], s)
              else match split_once c s with Some (a, b) => Some (x :: a, b) | None => None end
  end.

(** the encodings of the characters with the property White_Space *)
Definition white_space : list (list Z) :=
  ((fun c => [c]) <$> [9; 10; 11; 12; 13; 32]) ++
  [[0xc2; 0x85]; [0xc2; 0xa0]; [0xe1; 0x9a; 0x80]] ++
  ((fun c => [0xe2; 0x80; c]) <$> (seqZ 0x80 11 ++ [0xa8; 0xa9; 0xaf])) ++
  [[0xe2; 0x81; 0x9f]; [0xe3; 0x80; 0x80]].

(** the text after a prefix that is one of [ws] *)
Fixpoint strip_one (ws : list (list Z)) (s : list Z) : option (list Z) :=
  match ws with
  | [] => None
  | w :: ws => if bool_decide (take (length w) s = w) then Some (drop (length w) s) else strip_one ws s
  end.
Fixpoint strip_all (fuel : nat) (ws : list (list Z)) (s : list Z) : list Z :=
  match fuel with
  | O => s
  | S fuel => match strip_one ws s with Some r => strip_all fuel ws r | None => s end
  end.
(** [s.trim()] *)
Definition trim (s : list Z) : list Z :=
  let s := strip_all (length s) white_space s in
  reverse (strip_all (length s) (reverse <$> white_space) (reverse s)).

End Text.

(** ** Decimal numbers *)
Module Decimal.

Definition is_digit (c : Z) : bool := (48 <=? c) && (c <=? 57).

(** the digits of a number below [10^fuel], most significant first *)
Fixpoint digits (fuel : nat) (z : Z) (acc : list Z) : list Z :=
  match fuel with
  | O => acc
  | S fuel =>
      let acc := 48 + z mod 10 :: acc in
      if z / 10 =? 0 then acc else digits fuel (z / 10) acc
  end.
(** [z.to_string()] of an unsigned integer of at most 64 bits: 20 digits *)
Definition print (z : Z) : list Z := digits 20 z [].
(** [z.to_string()] of a signed integer *)
Definition print_signed (z : Z) : list Z := if z <? 0 then 45 :: print (- z) else print z.

(** digits accumulated with checked arithmetic up to [hi] *)
Fixpoint read (hi acc : Z) (s : list Z) : option Z :=
  match s with
  | [] => Some acc
  | c :: s =>
      if is_digit c then
        let acc := acc * 10 + (c - 48) in
        if acc <=? hi then read hi acc s else None
      else None
  end.

(** [s.parse::<uW>()] *)
Definition parse_u (w : Z) (s : list Z) : option Z :=
  match s with
  | [] => None
  | c :: r => if c =? 43 then (match r with [] => None | _ => read (u_max w) 0 r end)
              else read (u_max w) 0 s
  end.
(** [s.parse::<iW>()] *)
Definition parse_i (w : Z) (s : list Z) : option Z :=
  match s with
  | [] => None
  | c :: r =>
      if (c =? 43) || (c =? 45) then
        match r with
        | [] => None
        | _ => if c =? 43 then read (2 ^ (w - 1) - 1) 0 r
               else z ← read (2 ^ (w - 1)) 0 r; Some (- z)
        end
      else read (2 ^ (w - 1) - 1) 0 s
  end.

(** the value of a digit string *)
Fixpoint value (acc : Z) (s : list Z) : Z :=
  match s with [] => acc | c :: s => value (acc * 10 + (c - 48)) s end.

Lemma value_mono s : forall acc, 0 <= acc -> Forall (fun c => is_digit c = true) s -> acc <= value acc s.
Proof.
  induction s as [|c s IH]; intros acc Ha Hs; [done|]. apply Forall_cons_iff in Hs as [Hc Hs].
  unfold is_digit in Hc. bool_to_Z. cbn. specialize (IH (acc * 10 + (c - 48))). 
  etransitivity; [|apply IH; [lia|done]]. lia.
Qed.

Lemma read_value hi s : forall acc, 0 <= acc -> Forall (fun c => is_digit c = true) s ->
  value acc s <= hi -> read hi acc s = Some (value acc s).
Proof.
  induction s as [|c s IH]; intros acc Ha Hs Hv; [done|]. apply Forall_cons_iff in Hs as [Hc Hs].
  cbn [read value] in *. rewrite Hc. unfold is_digit in Hc. bool_to_Z.
  pose proof (value_mono s (acc * 10 + (c - 48)) ltac:(lia) Hs).
  rewrite (proj2 (Z.leb_le _ _)) by lia. apply IH; [lia|done..].
Qed.

Lemma digits_spec fuel : forall z acc, 0 <= z < 10 ^ Z.of_nat fuel -> (0 < fuel)%nat ->
  Forall (fun c => is_digit c = true) acc ->
  exists l, digits fuel z acc = l ++ acc /\ l <> [] /\ Forall (fun c => is_digit c = true) l /\
    value 0 l = z /\ (1 < length l -> head l <> Some 48%Z)%nat /\ (length l <= fuel)%nat.
Proof.
  induction fuel as [|fuel IH]; intros z acc Hz Hf Ha; [lia|].
  rewrite Nat2Z.inj_succ, Z.pow_succ_r in Hz by lia. cbn [digits].
  pose proof (Z.div_mod z 10 ltac:(lia)) as Hdm. pose proof (Z.mod_pos_bound z 10 ltac:(lia)) as Hm.
  assert (is_digit (48 + z mod 10) = true) as Hd
    by (unfold is_digit; apply andb_true_iff; split; apply Z.leb_le; lia).
  destruct (z / 10 =? 0) eqn:E; bool_to_Z.
  - exists [48 + z mod 10]. split_and!; [done|done|by forall_list|cbn; lia|cbn; lia|cbn; lia].
  - assert (0 < fuel)%nat by (destruct fuel; [cbn in Hz; lia|lia]).
    destruct (IH (z / 10) (48 + z mod 10 :: acc)) as (l & -> & Hne & Hl & Hv & Hh & Hlen);
      [split; [apply Z.div_pos; lia|apply Z.div_lt_upper_bound; lia]|done|by constructor|].
    exists (l ++ [48 + z mod 10]). rewrite <-app_assoc.
    assert (forall a m b, value b (m ++ [a]) = value b m * 10 + (a - 48)) as Hsnoc.
    { intros a m. induction m as [|x m IHm]; intros b; [done|]. cbn. apply IHm. }
    split_and!; [done|by destruct l|by apply Forall_app; split; [|forall_list]|rewrite Hsnoc; lia| |len_lia].
    intros _. destruct l as [|x [|y l]]; [done| |cbn in *; apply Hh; lia].
    cbn in *. intros [= ->]. lia.
Qed.

Lemma print_spec z : 0 <= z < 2 ^ 64 ->
  print z <> [] /\ Forall (fun c => is_digit c = true) (print z) /\ value 0 (print z) = z /\
  (1 < length (print z) -> head (print z) <> Some 48%Z)%nat.
Proof.
  intros Hz. unfold print. destruct (digits_spec 20 z []) as (l & -> & H1 & H2 & H3 & H4 & _);
    [cbn in *; lia|lia|by constructor|]. by rewrite app_nil_r.
Qed.

Lemma print_head_digit z : 0 <= z < 2 ^ 64 -> exists c l, print z = c :: l /\ is_digit c = true.
Proof.
  intros Hz. destruct (print_spec z Hz) as (Hne & Hd & _). destruct (print z) as [|c l]; [done|].
  apply Forall_cons_iff in Hd as [? ?]. eauto.
Qed.

Lemma parse_print w z : 0 <= w <= 64 -> 0 <= z < 2 ^ w -> parse_u w (print z) = Some z.
Proof.
  intros Hw Hz. assert (2 ^ w <= 2 ^ 64) by (apply Z.pow_le_mono_r; lia).
  destruct (print_spec z) as (Hne & Hd & Hv & _); [lia|]. unfold parse_u.
  destruct (print z) as [|c l] eqn:E; [done|]. pose proof Hd as [Hc _]%Forall_cons_iff.
  unfold is_digit in Hc. bool_to_Z. rewrite (proj2 (Z.eqb_neq _ _)) by lia.
  rewrite read_value, Hv; [done|lia|done|]. rewrite Hv. unfold u_max. lia.
Qed.

End Decimal.

(** ** IP and socket addresses *)
Module Net.

(** an address as the unsigned integer of its octets *)
Inductive IpAddr : Type :=
| V4 (a : Z)
| V6 (a : Z).

#[export] Instance IpAddr_eq_dec : EqDecision IpAddr.
Proof. solve_decision. Defined.
#[export] Instance IpAddr_countable : Countable IpAddr.
Proof.
  refine (inj_countable' (fun i => match i with V4 a => inl a | V6 a => inr a end)
    (fun s => match s with inl a => V4 a | inr a => V6 a end) _). by intros [].
Defined.

(** the flow information of an IPv6 socket address is zero throughout; its
    scope id is zero unless the text or the socket gives one *)
Record SocketAddr : Type := mk_addr { ip : IpAddr; port : Z; scope_id : Z }.

#[export] Instance SocketAddr_eq_dec : EqDecision SocketAddr.
Proof. solve_decision. Defined.
#[export] Instance SocketAddr_countable : Countable SocketAddr.
Proof.
  refine (inj_countable' (fun s => (ip s, port s, scope_id s))
    (fun p => mk_addr p.1.1 p.1.2 p.2) _). by intros [].
Defined.

(** [SocketAddr::new] *)
Definition new (i : IpAddr) (p : Z) : SocketAddr := mk_addr i p 0.

Definition is_ipv4 (i : IpAddr) : bool := match i with V4 _ => true | V6 _ => false end.
Definition is_ipv6 (i : IpAddr) : bool := negb (is_ipv4 i).
Definition octets (i : IpAddr) : list Z := match i with V4 a => to_be 4 a | V6 a => to_be 16 a end.
Definition is_unspecified (i : IpAddr) : bool := match i with V4 a => a =? 0 | V6 a => a =? 0 end.
Definition is_multicast (i : IpAddr) : bool :=
  match i with V4 a => Z.shiftr a 28 =? 14 | V6 a => Z.shiftr a 120 =? 255 end.
Definition BROADCAST : IpAddr := V4 (2 ^ 32 - 1).
(** [Ipv6Addr::to_ipv4_mapped] *)
Definition to_ipv4_mapped (a : Z) : option Z :=
  if Z.shiftr a 32 =? 0xffff then Some (a mod 2 ^ 32) else None.

(** well-formed addresses: octets and ports of their width *)
Definition ip_ok (i : IpAddr) : Prop := match i with V4 a => is_u 32 a | V6 a => is_u 128 a end.
Definition addr_ok (s : SocketAddr) : Prop := ip_ok (ip s) /\ is_u 16 (port s).
#[export] Instance ip_ok_dec i : Decision (ip_ok i).
Proof. destruct i; cbn; unfold is_u; apply _. Defined.
#[export] Instance addr_ok_dec s : Decision (addr_ok s).
Proof. unfold addr_ok, is_u. apply _. Defined.

Lemma length_octets i : length (octets i) = if is_ipv4 i then 4%nat else 16%nat.
Proof. destruct i; apply length_to_be. Qed.
Lemma octets_bytes i : bytes_ok (octets i).
Proof. destruct i; apply to_be_bytes. Qed.

(** *** The order of [SocketAddr]: IPv4 first, then address, port, scope *)
Definition kind (s : SocketAddr) : Z := if is_ipv4 (ip s) then 0 else 1.
Definition number (s : SocketAddr) : Z := match ip s with V4 a => a | V6 a => a end.
Definition le (s t : SocketAddr) : Prop :=
  kind s < kind t \/ (kind s = kind t /\
  (number s < number t \/ (number s = number t /\
  (port s < port t \/ (port s = port t /\ scope_id s <= scope_id t))))).
#[export] Instance le_dec s t : Decision (le s t).
Proof. unfold le. apply _. Defined.
#[export] Instance le_total : Total le.
Proof. intros s t. unfold le. lia. Qed.
#[export] Instance le_trans : Transitive le.
Proof. intros s t u. unfold le. lia. Qed.
#[export] Instance le_antisymm : AntiSymm eq le.
Proof.
  intros [i p c] [j q d]. unfold le, kind, number. cbn.
  destruct i, j; cbn; intros; try lia; do 2 f_equal; lia.
Qed.

(** [v.sort_unstable()]: equal addresses are identical *)
Definition sort (l : list SocketAddr) : list SocketAddr := merge_sort le l.

Lemma addr_sort_perm l : sort l ≡ₚ l.
Proof. apply merge_sort_Permutation. Qed.
Lemma sort_sorted l : Sorted le (sort l).
Proof. apply Sorted_merge_sort, _. Qed.

(** [v.dedup()] *)
Fixpoint dedup (l : list SocketAddr) : list SocketAddr :=
  match l with
  | x :: (y :: _) as l' => if decide (x = y) then dedup l' else x :: dedup l'
  | l => l
  end.


Lemma dedup_cons x y l :
  dedup (x :: y :: l) = if decide (x = y) then dedup (y :: l) else x :: dedup (y :: l).
Proof. done. Qed.

Lemma elem_of_dedup z l : z ∈ dedup l <-> z ∈ l.
Proof.
  induction l as [|x [|y l] IH]; [done|done|]. rewrite dedup_cons. case_decide; [subst|].
  - rewrite IH, !elem_of_cons. tauto.
  - rewrite !elem_of_cons, IH, elem_of_cons. tauto.
Qed.

Lemma NoDup_dedup_sorted l : StronglySorted le l -> NoDup (dedup l).
Proof.
  induction l as [|x [|y l] IH]; intros Hs; [constructor|apply NoDup_singleton|].
  apply StronglySorted_inv in Hs as [Hs Hx]. rewrite dedup_cons. case_decide; [by apply IH|].
  apply NoDup_cons. split; [|by apply IH]. rewrite elem_of_dedup, elem_of_cons. intros [->|Hin]; [done|].
  apply StronglySorted_inv in Hs as [_ Hy]. apply Forall_cons_iff in Hx as [Hxy _].
  rewrite Forall_forall in Hy. apply Hy in Hin. by assert (x = y) by (by apply (anti_symm le)).
Qed.

Lemma NoDup_dedup_sort l : NoDup (dedup (sort l)).
Proof. apply NoDup_dedup_sorted, Sorted_StronglySorted; [apply _|apply sort_sorted]. Qed.
Lemma elem_of_dedup_sort z l : z ∈ dedup (sort l) <-> z ∈ l.
Proof. by rewrite elem_of_dedup, addr_sort_perm. Qed.

(** *** Textual form

    [read_*] consume a prefix of the text and give the value and the rest. *)
Definition to_digit (radix c : Z) : option Z :=
  let d := if (48 <=? c) && (c <=? 57) then c - 48
           else if (97 <=? c) && (c <=? 122) then c - 87
           else if (65 <=? c) && (c <=? 90) then c - 55 else radix in
  if d <? radix then Some d else None.

Fixpoint read_digits (radix : Z) (s : list Z) : list Z * list Z :=
  match s with
  | [] => ([], [])
  | c :: r => match to_digit radix c with
              | Some d => let '(ds, rest) := read_digits radix r in (d :: ds, rest)
              | None => ([], s)
              end
  end.

(** a number of at most [max] digits and value [hi] *)
Definition read_number (radix : Z) (max : option nat) (hi : Z) (allow_zero_prefix : bool) (s : list Z)
    : option (Z * list Z) :=
  let '(ds, rest) := read_digits radix s in
  if match max with Some m => bool_decide (m < length ds)%nat | None => false end then None
  else if bool_decide (length ds = 0)%nat then None
  else if negb allow_zero_prefix && bool_decide (head s = Some 48) && bool_decide (1 < length ds)%nat then None
  else
    let v := foldl (fun acc d => acc * radix + d) 0 ds in
    if v <=? hi then Some (v, rest) else None.

Definition read_given_char (c : Z) (s : list Z) : option (list Z) :=
  match s with d :: r => if d =? c then Some r else None | [] => None end.

(** a separator before every element but the first *)
Definition read_separator {A} (sep : Z) (index : nat) (p : list Z -> option (A * list Z)) (s : list Z)
    : option (A * list Z) :=
  match index with O => p s | S _ => r ← read_given_char sep s; p r end.

Definition read_octet := read_number 10 (Some 3%nat) 255 false.
Definition read_ipv4_addr (s : list Z) : option (Z * list Z) :=
  '(a, s) ← read_separator 46 0 read_octet s;
  '(b, s) ← read_separator 46 1 read_octet s;
  '(c, s) ← read_separator 46 2 read_octet s;
  '(d, s) ← read_separator 46 3 read_octet s;
  Some (((a * 256 + b) * 256 + c) * 256 + d, s).

(** groups from index [i] on, at most [n]; whether the last two come from an
    embedded IPv4 address *)
Fixpoint read_groups (n i : nat) (s : list Z) : list Z * bool * list Z :=
  match n with
  | O => ([], false, s)
  | S n =>
      match (if bool_decide (0 < n)%nat then read_separator 58 i read_ipv4_addr s else None) with
      | Some (a, rest) => ([a / 65536; a mod 65536], true, rest)
      | None =>
          match read_separator 58 i (read_number 16 (Some 4%nat) 65535 true) s with
          | Some (g, rest) => let '(gs, v4, rest) := read_groups n (S i) rest in (g :: gs, v4, rest)
          | None => ([], false, s)
          end
      end
  end.

Definition of_groups (gs : list Z) : Z := foldl (fun acc g => acc * 65536 + g) 0 gs.

Definition read_ipv6_addr (s : list Z) : option (Z * list Z) :=
  let '(hd, head_ipv4, s) := read_groups 8 0 s in
  if bool_decide (length hd = 8)%nat then Some (of_groups hd, s)
  else if head_ipv4 : bool then None
  else
    s ← read_given_char 58 s;
    s ← read_given_char 58 s;
    let '(tl, _, s) := read_groups (8 - (length hd + 1)) 0 s in
    Some (of_groups (hd ++ replicate (8 - length hd - length tl) 0 ++ tl), s).

Definition read_ip_addr (s : list Z) : option (IpAddr * list Z) :=
  match read_ipv4_addr s with
  | Some (a, r) => Some (V4 a, r)
  | None => '(a, r) ← read_ipv6_addr s; Some (V6 a, r)
  end.

Definition read_port (s : list Z) : option (Z * list Z) :=
  s ← read_given_char 58 s; read_number 10 None 65535 true s.
(** [%scope], zero when absent *)
Definition read_scope_id (s : list Z) : Z * list Z :=
  match (r ← read_given_char 37 s; read_number 10 None (2 ^ 32 - 1) true r) with
  | Some (v, r) => (v, r)
  | None => (0, s)
  end.

Definition read_socket_addr (s : list Z) : option (SocketAddr * list Z) :=
  match ('(a, r) ← read_ipv4_addr s; '(p, r) ← read_port r; Some (mk_addr (V4 a) p 0, r)) with
  | Some x => Some x
  | None =>
      r ← read_given_char 91 s;
      '(a, r) ← read_ipv6_addr r;
      let '(sc, r) := read_scope_id r in
      r ← read_given_char 93 r;
      '(p, r) ← read_port r;
      Some (mk_addr (V6 a) p sc, r)
  end.

(** [s.parse()]: the whole text is consumed *)
Definition parse_with {A} (p : list Z -> option (A * list Z)) (s : list Z) : option A :=
  match p s with Some (a, []) => Some a | _ => None end.
Definition parse_ip : list Z -> option IpAddr := parse_with read_ip_addr.
Definition parse_addr : list Z -> option SocketAddr := parse_with read_socket_addr.

(** [{:x}] *)
Definition hex_digit (d : Z) : Z := if d <? 10 then 48 + d else 87 + d.
Fixpoint hex (fuel : nat) (z : Z) (acc : list Z) : list Z :=
  match fuel with
  | O => acc
  | S fuel =>
      let acc := hex_digit (z mod 16) :: acc in
      if z / 16 =? 0 then acc else hex fuel (z / 16) acc
  end.
Definition print_group (g : Z) : list Z := hex 4 g [].

Definition print_ipv4 (a : Z) : list Z :=
  Decimal.print (a / 2 ^ 24) ++ 46 :: Decimal.print (a / 2 ^ 16 mod 256) ++ 46 ::
  Decimal.print (a / 2 ^ 8 mod 256) ++ 46 :: Decimal.print (a mod 256).

Definition groups (a : Z) : list Z := map (fun i => a / 2 ^ (16 * (7 - i)) mod 65536) (seqZ 0 8).

(** the first longest run of zero groups: start and length *)
Fixpoint longest_run (i : nat) (gs : list Z) (current longest : nat * nat) : nat * nat :=
  match gs with
  | [] => longest
  | g :: gs =>
      if g =? 0 then
        let current := (if bool_decide (current.2 = 0)%nat then i else current.1, S current.2) in
        longest_run (S i) gs current (if bool_decide (longest.2 < current.2)%nat then current else longest)
      else longest_run (S i) gs (O, O) longest
  end.

Fixpoint print_groups (gs : list Z) : list Z :=
  match gs with
  | [] => []
  | [g] => print_group g
  | g :: gs => print_group g ++ 58 :: print_groups gs
  end.

Definition print_ipv6 (a : Z) : list Z :=
  match to_ipv4_mapped a with
  | Some v4 => str "::ffff:" ++ print_ipv4 v4
  | None =>
      let gs := groups a in
      let '(start, n) := longest_run 0 gs (O, O) (O, O) in
      if bool_decide (1 < n)%nat
      then print_groups (take start gs) ++ [58; 58] ++ print_groups (drop (start + n) gs)
      else print_groups gs
  end.

(** [addr.to_string()] *)
Definition print_addr (s : SocketAddr) : list Z :=
  match ip s with
  | V4 a => print_ipv4 a ++ 58 :: Decimal.print (port s)
  | V6 a =>
      91 :: print_ipv6 a ++
      (if scope_id s =? 0 then [] else 37 :: Decimal.print (scope_id s)) ++
      93 :: 58 :: Decimal.print (port s)
  end.
End Net.
