(* ===== verification/TrackerWire.v ===== *)
(** * The tracker wire formats (src/lowertier-tracker/src/wire.rs)

    BEP 15 datagrams with their URL data options, compact peer lists, the
    bencoded HTTP reply, and punch packets.  HMAC-SHA256 is a parameter. *)
From stdpp Require Import base list gmap numbers strings.
From Stdlib Require Import ZArith Lia.
From S2P Require Import Prelude NetAddr.

Local Open Scope Z_scope.

Module TrackerWire.
Import Net.

(** [OutOfFuel] is not an error of the code: no function returns it *)
Inductive error : Type :=
| Msg (s : string)
| OutOfFuel.

Definition CONNECT_MAGIC : Z := 0x41727101980.
Definition MAX_PEERS : nat := 16.
Definition MAX_RESPONSE : Z := 16 * 1024.
Definition IDLE_ANNOUNCE_INTERVAL_SECS : Z := 30.
(** [[u8; 20]] *)
Abbreviation Id := (list Z) (only parsing).
Definition ECHO_MAGIC : list Z := str "LTO1".

(** [packet[a..b].try_into()] of an integer field *)
Definition be_at (packet : list Z) (a b : nat) : outcome error Z :=
  s ← unwrap (get_range packet a b); Ok (of_be s).

Definition observed_connect (packet : list Z) : outcome error (option SocketAddr) :=
  if negb (bool_decide (get_range packet 16 20 = Some ECHO_MAGIC)) then Ok None
  else
    _ ← ensure (23 <=? len packet) (Msg "short observed endpoint");
    k ← unwrap (packet !! 20%nat);
    i ← (if (k =? 4) && (len packet =? 27) then Ok (V4 (of_be (drop 23 packet)))
         else if (k =? 6) && (len packet =? 39) then Ok (V6 (of_be (drop 23 packet)))
         else Err (Msg "invalid observed endpoint"));
    p ← be_at packet 21 23;
    Ok (Some (new i p)).

(** [l.chunks(n)] *)
Fixpoint chunks {A} (fuel n : nat) (l : list A) : list (list A) :=
  match fuel, l with
  | S fuel, _ :: _ => take n l :: chunks fuel n (drop n l)
  | _, _ => []
  end.

(** ** URL data (BEP 41) *)
Definition append_url_data (packet target : list Z) : outcome error (list Z) :=
  _ ← ensure (len target <=? 1024) (Msg "tracker URL data too large");
  Ok (foldl (fun packet chunk => packet ++ [2; wrap 8 (len chunk)] ++ chunk) packet
        (chunks (length target) 255 target)).

Fixpoint url_loop (fuel offset : nat) (packet data : list Z) : outcome error (list Z) :=
  if bool_decide (length packet <= offset)%nat then Ok data
  else
    match fuel with
    | O => Err OutOfFuel
    | S fuel =>
        k ← unwrap (packet !! offset);
        let offset := S offset in
        if k =? 0 then Ok data
        else if k =? 1 then url_loop fuel offset packet data
        else
          n ← ok_or (packet !! offset) (Msg "short tracker option");
          let offset := S offset in
          value ← ok_or (get_range packet offset (offset + Z.to_nat n)) (Msg "truncated tracker option");
          data ← (if k =? 2 then
                    _ ← ensure (len data + n <=? 1024) (Msg "tracker URL data too large");
                    Ok (data ++ value)
                  else Ok data);
          url_loop fuel (offset + Z.to_nat n) packet data
    end.

(** every turn advances, so the length of the packet is enough fuel *)
Definition url_data (packet : list Z) : outcome error (list Z) :=
  _ ← ensure (98 <=? len packet) (Msg "short tracker announce");
  data ← url_loop (length packet) 98 packet [];
  ok_or (from_utf8 data) (Msg "invalid utf-8").

(** ** Connect and announce datagrams (BEP 15) *)
Definition connect_request (transaction : Z) : list Z :=
  to_be 8 CONNECT_MAGIC ++ replicate 4 0 ++ to_be 4 transaction.

Definition response_header (packet : list Z) (action transaction : Z) : outcome error unit :=
  _ ← ensure ((8 <=? len packet) && (len packet <=? MAX_RESPONSE)) (Msg "invalid tracker response length");
  t ← be_at packet 4 8;
  _ ← ensure (t =? transaction) (Msg "tracker transaction mismatch");
  received ← be_at packet 0 4;
  if received =? 3 then Err (Msg "tracker error")
  else ensure (received =? action) (Msg "tracker action mismatch").

Definition connect_response (packet : list Z) (transaction : Z) : outcome error Z :=
  _ ← response_header packet 0 transaction;
  _ ← ensure (16 <=? len packet) (Msg "short tracker connect response");
  be_at packet 8 16.

Record Announce : Type := mk_announce {
  hash : Id;
  peer : Id;
  key : Z;
  a_port : Z;
  event : Z;
  a_left : Z;
  numwant : Z;
}.

(** the fields at their offsets, zero bytes between *)
Definition udp (a : Announce) (connection transaction : Z) : list Z :=
  to_be 8 connection ++ to_be 4 1 ++ to_be 4 transaction ++
  hash a ++ peer a ++ replicate 8 0 ++
  to_be 8 (a_left a) ++ replicate 8 0 ++
  to_be 4 (event a) ++ replicate 4 0 ++
  to_be 4 (key a) ++ to_be 4 (wrap 32 (numwant a)) ++ to_be 2 (a_port a).

(** [%{byte:02X}] *)
Definition hex_upper (d : Z) : Z := if d <? 10 then 48 + d else 55 + d.
Definition escape (bytes : list Z) : list Z :=
  mjoin ((fun b => [37; hex_upper (b / 16); hex_upper (b mod 16)]) <$> bytes).

Definition http_query (a : Announce) : list Z :=
  let ev := if event a =? 2 then str "started" else if event a =? 3 then str "stopped" else [] in
  str "info_hash=" ++ escape (hash a) ++ str "&peer_id=" ++ escape (peer a) ++
  str "&port=" ++ Decimal.print (a_port a) ++ str "&key=" ++ Decimal.print (key a) ++
  str "&uploaded=0&downloaded=0&left=" ++ Decimal.print (a_left a) ++
  str "&compact=1&numwant=" ++ Decimal.print_signed (numwant a) ++ str "&event=" ++ ev.

Record Peers : Type := mk_peers {
  p_interval : Z;
  addresses : list SocketAddr;
  observed : option SocketAddr;
}.

(** what a peer list never contains *)
Definition unusable (a : SocketAddr) : bool :=
  (port a =? 0) || is_unspecified (ip a) || is_multicast (ip a) || bool_decide (ip a = BROADCAST).

Definition compact_entry (ipv6 : bool) (entry : list Z) : SocketAddr :=
  if ipv6 then new (V6 (of_be (take 16 entry))) (of_be (drop 16 entry))
  else new (V4 (of_be (take 4 entry))) (of_be (drop 4 entry)).

Fixpoint compact_loop (ipv6 : bool) (entries : list (list Z)) (peers : list SocketAddr) : list SocketAddr :=
  match entries with
  | [] => peers
  | entry :: entries =>
      let address := compact_entry ipv6 entry in
      if unusable address then compact_loop ipv6 entries peers
      else
        let peers := if bool_decide (address ∈ peers) then peers else peers ++ [address] in
        if bool_decide (length peers = MAX_PEERS) then peers else compact_loop ipv6 entries peers
  end.

Definition stride (ipv6 : bool) : nat := if ipv6 then 18 else 6.
Definition compact (bytes : list Z) (ipv6 : bool) : outcome error (list SocketAddr) :=
  _ ← ensure (bool_decide (length bytes mod stride ipv6 = 0)%nat) (Msg "truncated compact peer list");
  Ok (compact_loop ipv6 (chunks (length bytes) (stride ipv6) bytes) []).

Definition announce_response (packet : list Z) (transaction : Z) (ipv6 : bool) : outcome error Peers :=
  _ ← response_header packet 1 transaction;
  _ ← ensure (20 <=? len packet) (Msg "short tracker announce response");
  interval ← be_at packet 8 12;
  _ ← ensure (0 <? interval) (Msg "tracker interval is zero");
  addresses ← compact (drop 20 packet) ipv6;
  Ok (mk_peers interval addresses None).

(** ** The bencoded reply of an HTTP tracker

    A parser function takes the bytes and the offset, and gives its value and
    the new offset. *)
Definition peek (bytes : list Z) (offset : nat) : outcome error Z :=
  ok_or (bytes !! offset) (Msg "truncated bencode").

Fixpoint digits_end (fuel : nat) (bytes : list Z) (offset : nat) : outcome error nat :=
  match fuel with
  | O => Err OutOfFuel
  | S fuel =>
      c ← peek bytes offset;
      if Decimal.is_digit c then digits_end fuel bytes (S offset) else Ok offset
  end.

Definition bstring (bytes : list Z) (offset : nat) : outcome error (list Z * nat) :=
  let start := offset in
  offset ← digits_end (S (length bytes)) bytes offset;
  c ← peek bytes offset;
  _ ← ensure ((c =? 58) && bool_decide (start < offset)%nat) (Msg "invalid bencode string");
  text ← unwrap (get_range bytes start offset);
  n ← ok_or (t ← from_utf8 text; Decimal.parse_u 64 t) (Msg "invalid number");
  let offset := S offset in
  stop ← ok_or (checked_add 64 (Z.of_nat offset) n) (Msg "bencode length overflow");
  value ← ok_or (if stop <=? len bytes then get_range bytes offset (Z.to_nat stop) else None)
    (Msg "short bencode string");
  Ok (value, Z.to_nat stop).

Fixpoint find_e (fuel : nat) (bytes : list Z) (offset : nat) : outcome error nat :=
  match fuel with
  | O => Err OutOfFuel
  | S fuel =>
      c ← peek bytes offset;
      if c =? 101 then Ok offset else find_e fuel bytes (S offset)
  end.

Definition integer (bytes : list Z) (offset : nat) : outcome error (Z * nat) :=
  c ← peek bytes offset;
  _ ← ensure (c =? 105) (Msg "expected bencode integer");
  let start := S offset in
  offset ← find_e (S (length bytes)) bytes start;
  text ← unwrap (get_range bytes start offset);
  v ← ok_or (t ← from_utf8 text; Decimal.parse_i 64 t) (Msg "invalid number");
  Ok (v, S offset).

(** the items of a list or dictionary up to its end, each skipped by [item] *)
Fixpoint skip_items (item : nat -> outcome error nat) (fuel : nat) (bytes : list Z) (dictionary : bool)
    (offset : nat) : outcome error nat :=
  match fuel with
  | O => Err OutOfFuel
  | S fuel =>
      c ← peek bytes offset;
      if c =? 101 then Ok (S offset)
      else
        offset ← (if dictionary then '(_, o) ← bstring bytes offset; Ok o else Ok offset);
        offset ← item offset;
        skip_items item fuel bytes dictionary offset
  end.

(** [levels] bounds the recursion: [depth] grows with every level and the
    code stops at 8 *)
Fixpoint skip_value (levels : nat) (bytes : list Z) (depth offset : nat) : outcome error nat :=
  match levels with
  | O => Err OutOfFuel
  | S levels =>
      _ ← ensure (bool_decide (depth <= 8)%nat) (Msg "bencode nesting limit");
      c ← peek bytes offset;
      if c =? 105 then '(_, o) ← integer bytes offset; Ok o
      else if Decimal.is_digit c then '(_, o) ← bstring bytes offset; Ok o
      else if (c =? 108) || (c =? 100) then
        skip_items (skip_value levels bytes (S depth)) (S (length bytes)) bytes (c =? 100) (S offset)
      else Err (Msg "invalid bencode value")
  end.
Definition skip (bytes : list Z) (depth offset : nat) : outcome error nat :=
  skip_value (S (9 - depth)) bytes depth offset.

(** the fields of one peer dictionary, up to its end *)
Fixpoint peer_fields (fuel : nat) (bytes : list Z) (i : option IpAddr) (p : option Z) (offset : nat)
    : outcome error (option IpAddr * option Z * nat) :=
  match fuel with
  | O => Err OutOfFuel
  | S fuel =>
      c ← peek bytes offset;
      if c =? 101 then Ok (i, p, S offset)
      else
        '(k, offset) ← bstring bytes offset;
        if bool_decide (k = str "ip") then
          '(v, offset) ← bstring bytes offset;
          a ← ok_or (t ← from_utf8 v; parse_ip t) (Msg "invalid address");
          peer_fields fuel bytes (Some a) p offset
        else if bool_decide (k = str "port") then
          '(v, offset) ← integer bytes offset;
          _ ← ensure ((0 <=? v) && (v <=? 65535)) (Msg "out of range");
          peer_fields fuel bytes i (Some v) offset
        else
          offset ← skip bytes 1 offset;
          peer_fields fuel bytes i p offset
  end.

Definition push_peer (peers : list SocketAddr) (a : SocketAddr) : list SocketAddr :=
  if bool_decide (length peers < MAX_PEERS)%nat && negb (unusable a) && negb (bool_decide (a ∈ peers))
  then peers ++ [a] else peers.

Fixpoint peer_list (fuel : nat) (bytes : list Z) (peers : list SocketAddr) (offset : nat)
    : outcome error (list SocketAddr * nat) :=
  match fuel with
  | O => Err OutOfFuel
  | S fuel =>
      c ← peek bytes offset;
      if c =? 101 then Ok (peers, S offset)
      else
        _ ← ensure (c =? 100) (Msg "invalid tracker peer dictionary");
        '(i, p, offset) ← peer_fields (S (length bytes)) bytes None None (S offset);
        i ← ok_or i (Msg "missing peer IP");
        p ← ok_or p (Msg "missing peer port");
        peer_list fuel bytes (push_peer peers (new i p)) offset
  end.

Definition bpeers (bytes : list Z) (offset : nat) : outcome error (list SocketAddr * nat) :=
  c ← peek bytes offset;
  if negb (c =? 108) then
    '(s, offset) ← bstring bytes offset;
    l ← compact s false;
    Ok (l, offset)
  else peer_list (S (length bytes)) bytes [] (S offset).

(** the locals of [http_response] *)
Record http_locals : Type := mk_locals {
  l_interval : option Z;
  minimum : Z;
  l_addresses : list SocketAddr;
  l_observed : option SocketAddr;
}.

(** [u32::try_from] *)
Definition try_u32 (v : Z) : outcome error Z :=
  if (0 <=? v) && (v <? 2 ^ 32) then Ok v else Err (Msg "out of range").

(** one key of the reply dictionary and its value *)
Definition http_field (bytes : list Z) (l : http_locals) (offset : nat) : outcome error (http_locals * nat) :=
  '(k, offset) ← bstring bytes offset;
  if bool_decide (k = str "failure reason") then
    '(_, _) ← bstring bytes offset; Err (Msg "tracker error")
  else if bool_decide (k = str "interval") then
    '(v, offset) ← integer bytes offset; v ← try_u32 v;
    Ok (mk_locals (Some v) (minimum l) (l_addresses l) (l_observed l), offset)
  else if bool_decide (k = str "min interval") then
    '(v, offset) ← integer bytes offset; v ← try_u32 v;
    Ok (mk_locals (l_interval l) v (l_addresses l) (l_observed l), offset)
  else if bool_decide (k = str "peers") then
    '(ps, offset) ← bpeers bytes offset;
    Ok (mk_locals (l_interval l) (minimum l) (l_addresses l ++ ps) (l_observed l), offset)
  else if bool_decide (k = str "peers6") then
    '(s, offset) ← bstring bytes offset; ps ← compact s true;
    Ok (mk_locals (l_interval l) (minimum l) (l_addresses l ++ ps) (l_observed l), offset)
  else if bool_decide (k = str "lt_observed") then
    '(s, offset) ← bstring bytes offset;
    a ← ok_or (t ← from_utf8 s; parse_addr t) (Msg "invalid address");
    Ok (mk_locals (l_interval l) (minimum l) (l_addresses l) (Some a), offset)
  else
    offset ← skip bytes 0 offset; Ok (l, offset).

Fixpoint http_fields (fuel : nat) (bytes : list Z) (l : http_locals) (offset : nat)
    : outcome error (http_locals * nat) :=
  match fuel with
  | O => Err OutOfFuel
  | S fuel =>
      c ← peek bytes offset;
      if c =? 101 then Ok (l, S offset)
      else '(l, offset) ← http_field bytes l offset; http_fields fuel bytes l offset
  end.

Definition http_response (bytes : list Z) : outcome error Peers :=
  _ ← ensure (len bytes <=? MAX_RESPONSE) (Msg "HTTP tracker response too large");
  c ← peek bytes 0;
  _ ← ensure (c =? 100) (Msg "tracker response is not a dictionary");
  '(l, offset) ← http_fields (S (length bytes)) bytes (mk_locals None 0 [] None) 1;
  _ ← ensure (bool_decide (offset = length bytes)) (Msg "trailing tracker data");
  interval ← ok_or (v ← l_interval l; if 0 <? v then Some v else None) (Msg "missing tracker interval");
  Ok (mk_peers (Z.max interval (minimum l)) (take MAX_PEERS (dedup (sort (l_addresses l)))) (l_observed l)).
(** ** Authenticated values *)
Section Mac.
(** HMAC-SHA256 of a message under a key *)
Context (hmac : list Z -> list Z -> list Z).

Definition rendezvous_id (k protocol : list Z) : Id :=
  take 20 (hmac k (str "vpn-rendezvous-v1" ++
    if bool_decide (protocol = str "quic") then [] else (0 :: str "transport=") ++ protocol)).

Definition PUNCH_BYTES : Z := 65.
Definition PUNCH_MAGIC : list Z := [0; 76; 84; 1].
Definition punch_mac (k head : list Z) : list Z := hmac k (str "vpn-punch-v1" ++ [0] ++ head).

Definition punch (k : list Z) (peer : Z) (nonce : list Z) (now : Z) (reply : bool) : list Z :=
  let head := PUNCH_MAGIC ++ [if reply then 1 else 0] ++ to_be 4 peer ++ nonce ++ to_be 8 now in
  head ++ punch_mac k head.

Definition read_punch (bytes k : list Z) (now : Z) : outcome error (Z * list Z * bool) :=
  _ ← ensure ((len bytes =? PUNCH_BYTES) && bool_decide (take 4 bytes = PUNCH_MAGIC) &&
              match bytes !! 4%nat with Some b => b <=? 1 | None => false end) (Msg "invalid punch packet");
  sent ← be_at bytes 25 33;
  _ ← ensure (Z.abs (now - sent) <=? 60) (Msg "expired punch packet");
  _ ← ensure (bool_decide (punch_mac k (take 33 bytes) = drop 33 bytes)) (Msg "invalid punch authentication");
  peer ← be_at bytes 5 9;
  nonce ← unwrap (get_range bytes 9 25);
  reply ← unwrap (bytes !! 4%nat);
  Ok (peer, nonce, negb (reply =? 0)).

End Mac.


(** ** Lemmas on fields *)
Lemma be_at_app l m r a b :
  length l = a -> (a + length m)%nat = b -> be_at (l ++ m ++ r) a b = Ok (of_be m).
Proof. intros Ha Hb. unfold be_at. by rewrite (get_range_app l m r a b). Qed.

Lemma be_at_ok packet a b : (a <= b <= length packet)%nat ->
  be_at packet a b = Ok (of_be (take (b - a) (drop a packet))).
Proof. intros H. unfold be_at, get_range. by rewrite bool_decide_true by lia. Qed.

(** a field read as an integer and written back *)
Lemma field_be packet a b : bytes_ok packet -> (a <= b <= length packet)%nat ->
  to_be (b - a) (of_be (take (b - a) (drop a packet))) = take (b - a) (drop a packet).
Proof.
  intros Hp Hab. rewrite <-(to_of_be (take (b - a) (drop a packet))) at 2;
    [|by apply bytes_ok_take, bytes_ok_drop].
  f_equal. rewrite length_take, length_drop. lia.
Qed.

Lemma field_range packet a b : bytes_ok packet -> (a <= b <= length packet)%nat ->
  0 <= of_be (take (b - a) (drop a packet)) < 256 ^ Z.of_nat (b - a).
Proof.
  intros Hp Hab. pose proof (of_be_range (take (b - a) (drop a packet))) as H.
  rewrite length_take, length_drop, Nat.min_l in H by lia. apply H. by apply bytes_ok_take, bytes_ok_drop.
Qed.

(** ** Punch packets *)
Section Punch.
Context (hmac : list Z -> list Z -> list Z).

Lemma read_punch_Ok bytes k now p n r :
  read_punch hmac bytes k now = Ok (p, n, r) <->
  length bytes = 65%nat /\ take 4 bytes = PUNCH_MAGIC /\
  (exists b, bytes !! 4%nat = Some b /\ b <= 1 /\ r = negb (b =? 0)) /\
  Z.abs (now - of_be (take 8 (drop 25 bytes))) <= 60 /\
  punch_mac hmac k (take 33 bytes) = drop 33 bytes /\
  p = of_be (take 4 (drop 5 bytes)) /\ n = take 16 (drop 9 bytes).
Proof.
  unfold read_punch. destruct (decide (length bytes = 65%nat)) as [Hl|Hl].
  2: { unfold len, PUNCH_BYTES. rewrite (proj2 (Z.eqb_neq _ _)) by lia. split; [done|naive_solver]. }
  unfold len, PUNCH_BYTES. rewrite Hl. destruct (bytes !! 4%nat) as [b|] eqn:Eb; [|].
  2: { apply lookup_ge_None in Eb. lia. }
  rewrite (be_at_ok bytes 25 33), (be_at_ok bytes 5 9) by lia. unfold get_range.
  rewrite (bool_decide_true (9 <= 25 /\ 25 <= length bytes)%nat) by lia.
  cbn [mbind outcome_bind unwrap Nat.sub]. unfold ensure.
  replace (Z.of_nat 65 =? 65) with true by done. rewrite andb_true_l.
  destruct (bool_decide (take 4 bytes = PUNCH_MAGIC)) eqn:Em; cbn [andb mbind outcome_bind].
  2: { apply bool_decide_eq_false in Em. naive_solver. }
  apply bool_decide_eq_true in Em.
  destruct (b <=? 1) eqn:Eb1; bool_to_Z; cbn [mbind outcome_bind]; [|naive_solver lia].
  destruct (_ <=? 60) eqn:Et; bool_to_Z; cbn [mbind outcome_bind]; [|naive_solver lia].
  destruct (bool_decide (punch_mac _ _ _ = _)) eqn:Ec; cbn [mbind outcome_bind].
  2: { apply bool_decide_eq_false in Ec. naive_solver. }
  apply bool_decide_eq_true in Ec. naive_solver.
Qed.

Hypothesis hmac_length : forall k m, length (hmac k m) = 32%nat.

Lemma read_punch_punch k peer nonce sent reply now :
  is_u 32 peer -> length nonce = 16%nat -> is_u 64 sent -> Z.abs (now - sent) <= 60 ->
  read_punch hmac (punch hmac k peer nonce sent reply) k now = Ok (peer, nonce, reply).
Proof.
  intros Hp Hn Hs Ht. apply read_punch_Ok. unfold punch.
  set (r := if reply then 1 else 0). set (head := PUNCH_MAGIC ++ _). set (mac := punch_mac hmac k head).
  assert (length head = 33%nat) as Hh by (unfold head; rewrite !length_app, !length_to_be, Hn; done).
  assert (length mac = 32%nat) as Hm by apply hmac_length.
  assert (take 33 (head ++ mac) = head) as Htk by (rewrite take_app_le, take_ge; [done|lia..]).
  assert (drop 33 (head ++ mac) = mac) as Hdr by (by rewrite drop_app_length').
  rewrite Htk, Hdr.
  rewrite (sub_app _ (PUNCH_MAGIC ++ [r] ++ to_be 4 peer ++ nonce) (to_be 8 sent) mac 25 8);
    [|unfold head; by rewrite <-!app_assoc|rewrite !length_app, length_to_be, Hn; done|apply length_to_be].
  rewrite (sub_app _ (PUNCH_MAGIC ++ [r]) (to_be 4 peer) (nonce ++ to_be 8 sent ++ mac) 5 4);
    [|unfold head; by rewrite <-!app_assoc|done|apply length_to_be].
  rewrite (sub_app _ (PUNCH_MAGIC ++ [r] ++ to_be 4 peer) nonce (to_be 8 sent ++ mac) 9 16);
    [|unfold head; by rewrite <-!app_assoc|by rewrite !length_app, length_to_be|done].
  rewrite !of_to_be by done.
  split_and!; [rewrite length_app; lia|done| |lia|done|done|done].
  exists r. split_and!; [done|unfold r; by destruct reply|by destruct reply].
Qed.

(** punch packets are authentic and exact.  A packet is accepted at time
    [now] exactly when it is the packet that a holder of the key makes for the
    peer, nonce and direction read from it, at a time within a minute of
    [now]: no other bytes are accepted, and every such packet is. *)
Theorem punch_accepts_exactly_authentic (bytes k : list Z) (now peer : Z) (nonce : list Z) (reply : bool) :
  bytes_ok bytes ->
  read_punch hmac bytes k now = Ok (peer, nonce, reply) <->
  exists sent, bytes = punch hmac k peer nonce sent reply /\ Z.abs (now - sent) <= 60 /\
    is_u 64 sent /\ is_u 32 peer /\ length nonce = 16%nat.
Proof.
  intros Hb. split; [|intros (sent & -> & Ht & Hs & Hp & Hn); by apply read_punch_punch].
  intros (Hl & Hm & (b & Hlk & Hb1 & ->) & Ht & Hmac & -> & ->)%read_punch_Ok.
  pose proof (field_range bytes 25 33 Hb ltac:(lia)) as Hs. pose proof (field_range bytes 5 9 Hb ltac:(lia)) as Hp.
  pose proof (field_be bytes 25 33 Hb ltac:(lia)) as Es. pose proof (field_be bytes 5 9 Hb ltac:(lia)) as Ep.
  cbn [Nat.sub] in *.
  exists (of_be (take 8 (drop 25 bytes))). split_and!; [|done|apply Hs|apply Hp|len_lia].
  assert (take 33 bytes = PUNCH_MAGIC ++ [if negb (b =? 0) then 1 else 0] ++
    to_be 4 (of_be (take 4 (drop 5 bytes))) ++ take 16 (drop 9 bytes) ++ to_be 8 (of_be (take 8 (drop 25 bytes)))) as E.
  { rewrite Ep, Es, (take_split 4 33), Hm by lia. f_equal. cbn [Nat.sub].
    rewrite (take_split 1 29), drop_drop by lia. cbn [Nat.sub Nat.add]. f_equal.
    { rewrite (drop_S _ _ _ Hlk). pose proof (Forall_lookup_1 _ _ _ _ Hb Hlk) as Hby. unfold is_byte in Hby.
      cbn. f_equal. destruct (b =? 0) eqn:E0; bool_to_Z; cbn; lia. }
    rewrite (take_split 4 28), drop_drop by lia. cbn [Nat.sub Nat.add]. f_equal.
    rewrite (take_split 16 24), drop_drop by lia. done. }
  unfold punch. rewrite <-E, Hmac. by rewrite take_drop.
Qed.
End Punch.

(** a keyed checksum in place of the MAC *)
Definition checksum_mac (k m : list Z) : list Z := replicate 32 (foldr Z.add 0 (k ++ m) mod 256).

Lemma punch_accepts_exactly_authentic_witness :
  read_punch checksum_mac (punch checksum_mac [1; 2] 7 (replicate 16 9) 1000 true) [1; 2] 1030
    = Ok (7, replicate 16 9, true).
Proof.
  apply (punch_accepts_exactly_authentic checksum_mac).
  - intros. apply length_replicate.
  - apply (bool_decide_unpack _). vm_compute. done.
  - exists 1000. split_and!; [done|cbn; lia|split; [lia|done]..|done].
Defined.

(** ** URL data *)
Lemma chunks_join {A} n (l : list A) : forall fuel, (0 < n)%nat -> (length l <= fuel)%nat -> mjoin (chunks fuel n l) = l.
Proof.
  intros fuel Hn. revert l. induction fuel as [|fuel IH]; intros l Hl; [by destruct l; cbn in *; [|lia]|].
  destruct l as [|x l]; [done|]. cbn [chunks mjoin list_join]. rewrite IH by len_lia. apply take_drop.
Qed.

Lemma chunks_size {A} n (l : list A) : forall fuel, (0 < n)%nat ->
  Forall (fun c => 0 < length c <= n)%nat (chunks fuel n l).
Proof.
  intros fuel Hn. revert l. induction fuel as [|fuel IH]; intros l; [constructor|].
  destruct l as [|x l]; [constructor|]. cbn [chunks]. constructor; [len_lia|apply IH].
Qed.

(** the options of a list of chunks *)
Definition options (cs : list (list Z)) : list Z := mjoin ((fun c => [2; len c] ++ c) <$> cs).

Lemma append_options cs : forall packet, Forall (fun c => 0 < length c <= 255)%nat cs ->
  foldl (fun packet chunk => packet ++ [2; wrap 8 (len chunk)] ++ chunk) packet cs = packet ++ options cs.
Proof.
  induction cs as [|c cs IH]; intros packet Hc; [by rewrite app_nil_r|].
  apply Forall_cons_iff in Hc as [Hc Hcs]. cbn [foldl]. rewrite IH by done.
  rewrite wrap_small by (unfold is_u, len; change (2 ^ 8) with 256; lia).
  cbn [options fmap list_fmap mjoin list_join]. by rewrite <-!app_assoc.
Qed.

Lemma options_cons c cs : options (c :: cs) = 2 :: len c :: c ++ options cs.
Proof. done. Qed.

Lemma url_loop_options cs : forall fuel pre data, Forall (fun c => 0 < length c <= 255)%nat cs ->
  (length cs <= fuel)%nat -> len data + len (mjoin cs) <= 1024 ->
  url_loop fuel (length pre) (pre ++ options cs) data = Ok (data ++ mjoin cs).
Proof.
  induction cs as [|c cs IH]; intros fuel pre data Hc Hf Hd.
  { cbn. rewrite app_nil_r. unfold url_loop. destruct fuel; rewrite bool_decide_true by done; by rewrite app_nil_r. }
  apply Forall_cons_iff in Hc as [Hc Hcs]. destruct fuel as [|fuel]; [cbn in Hf; lia|].
  change (mjoin (c :: cs)) with (c ++ mjoin cs) in Hd. rewrite len_app in Hd.
  cbn [url_loop]. rewrite bool_decide_false by (cbn; rewrite length_app; cbn; lia).
  rewrite (lookup_app_r pre _ (length pre)), Nat.sub_diag by lia.
  rewrite (lookup_app_r pre _ (S (length pre))) by lia. replace (S (length pre) - length pre)%nat with 1%nat by lia.
  rewrite options_cons. cbn [lookup list_lookup unwrap ok_or mbind outcome_bind]. replace (2 =? 0) with false by done. replace (2 =? 1) with false by done.
  replace (Z.to_nat (len c)) with (length c) by (unfold len; lia).
  change (2 :: len c :: c ++ options cs) with ([2; len c] ++ c ++ options cs). rewrite (app_assoc pre [2; len c]).
  rewrite (get_range_app (pre ++ [2; len c]) c (options cs)) by (rewrite ?length_app; cbn; lia).
  cbn [ok_or mbind outcome_bind]. unfold ensure. replace (2 =? 2) with true by done.
  rewrite (proj2 (Z.leb_le _ _)) by (unfold len in *; lia). cbn [mbind outcome_bind].
  rewrite (app_assoc (pre ++ _) c).
  replace (S (S (length pre)) + length c)%nat with (length ((pre ++ [2; len c]) ++ c)) by (rewrite !length_app; cbn; lia).
  rewrite IH; [|done|cbn in Hf; lia|rewrite len_app; unfold len in *; lia].
  by rewrite <-app_assoc.
Qed.

Lemma url_loop_sound packet : bytes_ok packet -> forall fuel offset data,
  (length packet - offset <= fuel)%nat -> len data <= 1024 ->
  (exists e, url_loop fuel offset packet data = Err (Msg e)) \/
  (exists d, url_loop fuel offset packet data = Ok d /\ len d <= 1024).
Proof.
  intros Hb. induction fuel as [|fuel IH]; intros offset data Hf Hd; cbn [url_loop].
  { rewrite bool_decide_true by lia. eauto. }
  case_bool_decide; [eauto|].
  destruct (lookup_lt_is_Some_2 packet offset) as [k Hk]; [lia|]. rewrite Hk. cbn [unwrap mbind outcome_bind].
  destruct (k =? 0); [eauto|]. destruct (k =? 1); [apply IH; [lia|done]|].
  destruct (packet !! S offset) as [n|] eqn:Hn; cbn [ok_or mbind outcome_bind]; [|eauto].
  destruct (get_range _ _ _) as [v|] eqn:Hv; cbn [ok_or mbind outcome_bind]; [|eauto].
  pose proof (get_range_length _ _ _ _ Hv) as Hlv. pose proof (Forall_lookup_1 _ _ _ _ Hb Hn) as Hby.
  unfold is_byte in Hby. destruct (k =? 2); cbn [mbind outcome_bind]; [|apply IH; [lia|done]].
  unfold ensure. destruct (_ <=? 1024) eqn:E; bool_to_Z; cbn [mbind outcome_bind]; [|eauto].
  apply IH; [lia|]. rewrite len_app. unfold len in *. lia.
Qed.

Lemma url_data_total datagram : bytes_ok datagram ->
  (exists e, url_data datagram = Err (Msg e)) \/
  (exists d, url_data datagram = Ok d /\ len d <= 1024 /\ utf8_valid d = true).
Proof.
  intros Hb. unfold url_data. destruct (98 <=? len datagram); cbn [ensure mbind outcome_bind]; [|eauto].
  destruct (url_loop_sound datagram Hb (length datagram) 98 []) as [[e ->]|(d & -> & Hd)];
    [lia|unfold len; cbn [length]; lia|cbn; eauto|]. cbn. unfold from_utf8.
  destruct (utf8_valid d) eqn:E; cbn; [right; eauto|eauto].
Qed.

Lemma url_data_append packet target :
  length packet = 98%nat -> utf8_valid target = true -> len target <= 1024 ->
  exists o, append_url_data packet target = Ok (packet ++ o) /\ url_data (packet ++ o) = Ok target.
Proof.
  intros Hp Hu Ht. pose proof (chunks_size 255 target (length target) ltac:(lia)) as Hc.
  pose proof (chunks_join 255 target (length target) ltac:(lia) ltac:(lia)) as Hj.
  exists (options (chunks (length target) 255 target)). split.
  - unfold append_url_data. rewrite (proj2 (Z.leb_le _ _)) by done.
    cbn [ensure mbind outcome_bind]. by rewrite append_options.
  - unfold url_data. rewrite (proj2 (Z.leb_le _ _)) by (rewrite len_app; unfold len; lia).
    cbn [ensure mbind outcome_bind]. rewrite <-Hp at 2.
    rewrite url_loop_options; [|done| |by rewrite Hj].
    + rewrite Hj. cbn. unfold from_utf8. by rewrite Hu.
    + rewrite length_app. generalize (chunks (length target) 255 target). intros cs.
      induction cs as [|c cs IH]; [cbn; lia|]. rewrite options_cons. cbn [length]. rewrite length_app. lia.
Qed.

(** URL data round trip and bound.  The options appended to a 98-byte
    announce are read back as the same URL; on any datagram whatever the reader
    ends without a panic, with an error or with at most 1024 bytes of text. *)
Theorem url_data_correct (packet target datagram : list Z) :
  length packet = 98%nat -> utf8_valid target = true -> len target <= 1024 -> bytes_ok datagram ->
  (exists p, append_url_data packet target = Ok p /\ url_data p = Ok target) /\
  ((exists e, url_data datagram = Err (Msg e)) \/
   (exists d, url_data datagram = Ok d /\ len d <= 1024 /\ utf8_valid d = true)).
Proof.
  intros Hp Hu Ht Hb. split.
  - destruct (url_data_append packet target Hp Hu Ht) as (o & ? & ?). eauto.
  - by apply url_data_total.
Qed.

Lemma url_data_correct_witness :
  exists p, append_url_data (replicate 98 7) (str "/announce?passkey=abc") = Ok p /\
    url_data p = Ok (str "/announce?passkey=abc").
Proof.
  apply (url_data_correct (replicate 98 7) (str "/announce?passkey=abc") [1; 2; 3]);
    [done|done|vm_compute; congruence|]. unfold bytes_ok, is_byte. forall_list; lia.
Defined.

(** ** The bencode parser is total and its result bounded *)

(** no panic and no lack of fuel, and [P] of what is returned *)
Definition good {A} (P : A -> Prop) (m : outcome error A) : Prop :=
  match m with Ok a => P a | Err (Msg _) => True | _ => False end.

Lemma good_bind {A B} (P : A -> Prop) (Q : B -> Prop) m (f : A -> outcome error B) :
  good P m -> (forall a, P a -> good Q (f a)) -> good Q (a ← m; f a).
Proof. destruct m as [a|[]|]; cbn; auto. Qed.
Lemma good_mono {A} (P Q : A -> Prop) m : good P m -> (forall a, P a -> Q a) -> good Q m.
Proof. destruct m as [a|[]|]; cbn; auto. Qed.
Lemma good_ensure c s : good (fun _ => c = true) (ensure c (Msg s)).
Proof. by destruct c. Qed.
Lemma good_ok_or {A} (o : option A) s : good (fun a => o = Some a) (ok_or o (Msg s)).
Proof. by destruct o. Qed.

(** bind rules chosen by the head of the computation *)
Ltac good_step :=
  lazymatch goal with
  | |- good _ (ensure _ _ ≫= _) => eapply good_bind; [apply good_ensure|let u := fresh "u" in let H := fresh "H" in intros u H; cbn beta in H; clear u]
  | |- good _ (ok_or _ _ ≫= _) => eapply good_bind; [apply good_ok_or|let H := fresh "H" in intros ? H; cbn beta in H]
  | |- good _ (peek _ _ ≫= _) => eapply good_bind; [apply good_ok_or|let H := fresh "H" in intros ? H; cbn beta in H]
  end.

Section Total.
Context (bytes : list Z).

(** an offset after [offset], inside the bytes or at their end *)
Definition after (offset o : nat) : Prop := (offset < o <= length bytes)%nat.

(** enough fuel for a loop that advances from [offset] *)
Definition fuelled (fuel offset : nat) : Prop := (0 < fuel)%nat /\ (length bytes < fuel + offset)%nat.

Lemma fuelled_full offset : fuelled (S (length bytes)) offset.
Proof. unfold fuelled. lia. Qed.
Lemma fuelled_step fuel offset o : fuelled (S fuel) offset -> after offset o -> fuelled fuel o.
Proof. unfold fuelled, after. lia. Qed.

Lemma digits_end_good fuel : forall offset, fuelled fuel offset ->
  good (fun o => offset <= o < length bytes)%nat (digits_end fuel bytes offset).
Proof.
  induction fuel as [|fuel IH]; intros offset Hf; [unfold fuelled in Hf; lia|]. cbn [digits_end].
  good_step. apply lookup_lt_Some in H. destruct (Decimal.is_digit _); [|cbn; lia].
  eapply good_mono; [apply IH; eapply fuelled_step; [done|split; lia]|cbn; lia].
Qed.

Lemma bstring_good offset : good (fun r => after offset r.2) (bstring bytes offset).
Proof.
  unfold bstring. eapply good_bind; [apply digits_end_good, fuelled_full|]. intros o Ho. cbn beta in Ho.
  do 2 good_step. unfold get_range. rewrite bool_decide_true by lia. cbn [unwrap mbind outcome_bind].
  do 3 good_step. cbn.
  match goal with H : checked_add _ _ _ = Some _ |- _ => apply checked_add_Some in H as [Hstop _] end.
  match goal with H : (if ?c then _ else _) = Some _ |- _ => destruct c eqn:E; [bool_to_Z|done];
    apply get_range_Some in H as [? _] end.
  unfold after, len in *. lia.
Qed.

Lemma find_e_good fuel : forall offset, fuelled fuel offset ->
  good (fun o => offset <= o < length bytes)%nat (find_e fuel bytes offset).
Proof.
  induction fuel as [|fuel IH]; intros offset Hf; [unfold fuelled in Hf; lia|]. cbn [find_e].
  good_step. apply lookup_lt_Some in H. destruct (_ =? 101); [cbn; lia|].
  eapply good_mono; [apply IH; eapply fuelled_step; [done|split; lia]|cbn; lia].
Qed.

Lemma integer_good offset : good (fun r => after offset r.2) (integer bytes offset).
Proof.
  unfold integer. do 2 good_step. eapply good_bind; [apply find_e_good, fuelled_full|]. intros o Ho.
  cbn beta in Ho. unfold get_range. rewrite bool_decide_true by lia. cbn [unwrap mbind outcome_bind].
  good_step. cbn. unfold after. lia.
Qed.

Lemma skip_items_good item dictionary :
  (forall o, good (after o) (item o)) ->
  forall fuel offset, fuelled fuel offset -> good (after offset) (skip_items item fuel bytes dictionary offset).
Proof.
  intros Hi. induction fuel as [|fuel IH]; intros offset Hf; [unfold fuelled in Hf; lia|]. cbn [skip_items].
  good_step. apply lookup_lt_Some in H. destruct (_ =? 101); [cbn; unfold after; lia|].
  apply (good_bind (fun o => offset <= o)%nat).
  { destruct dictionary; [|cbn; lia]. eapply good_bind; [apply bstring_good|]. intros [v o]. cbn. unfold after. lia. }
  intros o Ho. eapply good_bind; [apply Hi|]. intros o' Ho'.
  eapply good_mono; [apply IH; eapply fuelled_step; [done|]|]; unfold after in *; cbn; lia.
Qed.

Lemma skip_value_good levels : forall depth offset, (9 < levels + depth)%nat -> (0 < levels)%nat ->
  good (after offset) (skip_value levels bytes depth offset).
Proof.
  induction levels as [|levels IH]; intros depth offset Hl Hp; [lia|]. cbn [skip_value].
  good_step. apply bool_decide_eq_true in H. good_step.
  destruct (_ =? 105); [eapply good_bind; [apply integer_good|by intros []]|].
  destruct (Decimal.is_digit _); [eapply good_bind; [apply bstring_good|by intros []]|].
  destruct (_ || _); [|done].
  eapply good_mono; [apply skip_items_good; [intros; apply IH; lia|apply fuelled_full]|].
  unfold after. lia.
Qed.

Lemma skip_good depth offset : (depth <= 9)%nat -> good (after offset) (skip bytes depth offset).
Proof. intros. apply skip_value_good; lia. Qed.

Lemma peer_fields_good fuel : forall i p offset, fuelled fuel offset ->
  good (fun r => after offset r.2) (peer_fields fuel bytes i p offset).
Proof.
  induction fuel as [|fuel IH]; intros i p offset Hf; [unfold fuelled in Hf; lia|]. cbn [peer_fields].
  good_step. apply lookup_lt_Some in H. destruct (_ =? 101); [cbn; unfold after; lia|].
  assert (forall i p o, after offset o -> good (fun r => after offset r.2) (peer_fields fuel bytes i p o)) as Hrec.
  { intros i' p' o Ho. eapply good_mono; [apply IH; by eapply fuelled_step|]. unfold after in *. lia. }
  eapply good_bind; [apply bstring_good|]. intros [k o] Ho. cbn [snd] in Ho.
  case_bool_decide; [|case_bool_decide].
  - eapply good_bind; [apply bstring_good|]. intros [v o'] Ho'. good_step. apply Hrec. unfold after in *; cbn in *; lia.
  - eapply good_bind; [apply integer_good|]. intros [v o'] Ho'. good_step. apply Hrec. unfold after in *; cbn in *; lia.
  - eapply good_bind; [by apply skip_good; lia|]. intros o' Ho'. apply Hrec. unfold after in *; lia.
Qed.

(** only usable addresses, at most [MAX_PEERS], none twice *)
Definition peers_ok (l : list SocketAddr) : Prop :=
  (length l <= MAX_PEERS)%nat /\ NoDup l /\ Forall (fun a => unusable a = false) l.

Lemma peers_ok_snoc l a : peers_ok l -> (length l < MAX_PEERS)%nat -> a ∉ l -> unusable a = false -> peers_ok (l ++ [a]).
Proof.
  intros (Hl & Hn & Hf) Hm Ha Hu. split_and!; [len_lia| |].
  - apply NoDup_app. split_and!; [done| |apply NoDup_singleton]. intros x Hx ->%list_elem_of_singleton. done.
  - apply Forall_app. split; [done|by forall_list].
Qed.

Lemma push_peer_ok l a : peers_ok l -> peers_ok (push_peer l a).
Proof.
  intros Hl. unfold push_peer. destruct (_ && _) eqn:E; [|done]. bool_to_Z.
  apply bool_decide_eq_true in H. apply bool_decide_eq_false in H0. by apply peers_ok_snoc.
Qed.

Lemma compact_loop_ok ipv6 es : forall l, peers_ok l -> (length l < MAX_PEERS)%nat -> peers_ok (compact_loop ipv6 es l).
Proof.
  induction es as [|e es IH]; intros l Hl Hm; [done|]. cbn [compact_loop].
  destruct (unusable _) eqn:Eu; [by apply IH|].
  destruct (bool_decide (compact_entry ipv6 e ∈ l)) eqn:Ein.
  - rewrite bool_decide_false by lia. by apply IH.
  - apply bool_decide_eq_false in Ein. assert (peers_ok (l ++ [compact_entry ipv6 e])) by (by apply peers_ok_snoc).
    case_bool_decide; [done|]. apply IH; [done|]. len_lia.
Qed.

Lemma compact_good s ipv6 : good peers_ok (compact s ipv6).
Proof.
  unfold compact. good_step. apply compact_loop_ok; [|unfold MAX_PEERS; cbn; lia].
  split_and!; [cbn; lia|constructor|constructor].
Qed.

Lemma peer_list_good fuel : forall l offset, fuelled fuel offset -> peers_ok l ->
  good (fun r => peers_ok r.1 /\ after offset r.2) (peer_list fuel bytes l offset).
Proof.
  induction fuel as [|fuel IH]; intros l offset Hf Hl; [unfold fuelled in Hf; lia|]. cbn [peer_list].
  good_step. apply lookup_lt_Some in H. destruct (_ =? 101); [cbn; unfold after; split; [done|lia]|].
  good_step. eapply good_bind; [apply peer_fields_good, fuelled_full|]. intros [[i p] o] Ho. cbn [snd] in Ho.
  do 2 good_step.
  eapply good_mono; [apply IH; [eapply fuelled_step; [done|]|by apply push_peer_ok]|]; unfold after in *; [lia|].
  intros ? [? ?]. split; [done|lia].
Qed.

Lemma bpeers_good offset : good (fun r => peers_ok r.1 /\ after offset r.2) (bpeers bytes offset).
Proof.
  unfold bpeers. good_step. destruct (negb _).
  - eapply good_bind; [apply bstring_good|]. intros [s o] Ho. cbn [snd] in Ho.
    eapply good_bind; [apply compact_good|]. intros l Hl. done.
  - eapply good_mono; [apply peer_list_good; [apply fuelled_full|]|].
    + split_and!; [cbn; lia|constructor|constructor].
    + unfold after. intros ? [? ?]. split; [done|lia].
Qed.

(** what holds of the locals between two fields *)
Definition locals_ok (l : http_locals) : Prop :=
  Forall (fun a => unusable a = false) (l_addresses l) /\ 0 <= minimum l < 2 ^ 32 /\
  (forall v, l_interval l = Some v -> 0 <= v < 2 ^ 32).

Lemma try_u32_good v : good (fun w => 0 <= w < 2 ^ 32) (try_u32 v).
Proof. unfold try_u32. destruct (_ && _) eqn:E; [|done]. bool_to_Z. done. Qed.

Lemma http_field_good l offset : locals_ok l ->
  good (fun r => locals_ok r.1 /\ after offset r.2) (http_field bytes l offset).
Proof.
  intros (Ha & Hm & Hi). unfold http_field. eapply good_bind; [apply bstring_good|].
  intros [k o] Ho. cbn [snd] in Ho.
  assert (forall o', after o o' -> after offset o') as Htr by (unfold after in *; lia).
  case_bool_decide; [eapply good_bind; [apply bstring_good|by intros []]|].
  case_bool_decide; [|case_bool_decide; [|case_bool_decide; [|case_bool_decide; [|case_bool_decide]]]].
  - eapply good_bind; [apply integer_good|]. intros [v o'] Ho'. eapply good_bind; [apply try_u32_good|].
    intros w Hw. split; [|by apply Htr]. split; [done|split; [done|]]. cbn. by intros ? [= <-].
  - eapply good_bind; [apply integer_good|]. intros [v o'] Ho'. eapply good_bind; [apply try_u32_good|].
    intros w Hw. split; [|by apply Htr]. done.
  - eapply good_bind; [apply bpeers_good|]. intros [ps o'] [(_ & _ & Hp) Ho'].
    split; [|by apply Htr]. split; [by apply Forall_app|done].
  - eapply good_bind; [apply bstring_good|]. intros [s o'] Ho'. eapply good_bind; [apply compact_good|].
    intros ps (_ & _ & Hp). split; [|by apply Htr]. split; [by apply Forall_app|done].
  - eapply good_bind; [apply bstring_good|]. intros [s o'] Ho'. good_step. split; [|by apply Htr]. done.
  - eapply good_bind; [by apply skip_good; lia|]. intros o' Ho'. split; [done|by apply Htr].
Qed.

Lemma http_fields_good fuel : forall l offset, fuelled fuel offset -> locals_ok l ->
  good (fun r => locals_ok r.1) (http_fields fuel bytes l offset).
Proof.
  induction fuel as [|fuel IH]; intros l offset Hf Hl; [unfold fuelled in Hf; lia|]. cbn [http_fields].
  good_step. destruct (_ =? 101); [done|].
  eapply good_bind; [by apply http_field_good|]. intros [l' o] [Hl' Ho]. apply IH; [by eapply fuelled_step|done].
Qed.

End Total.

(** C32: the HTTP reply parser is total and bounded.  On any bytes at all it
    ends, without a panic and within its fuel; what it accepts has a positive
    32-bit interval and at most 16 distinct addresses, none of which has port
    zero or is unspecified, multicast or broadcast. *)
Theorem http_response_total_and_bounded (bytes : list Z) :
  (exists e, http_response bytes = Err (Msg e)) \/
  (exists p, http_response bytes = Ok p /\ 0 < p_interval p < 2 ^ 32 /\
     (length (addresses p) <= MAX_PEERS)%nat /\ NoDup (addresses p) /\
     Forall (fun a => unusable a = false) (addresses p)).
Proof.
  enough (good (fun p => 0 < p_interval p < 2 ^ 32 /\ peers_ok (addresses p)) (http_response bytes)) as H.
  { destruct (http_response bytes) as [p|[e|]|]; cbn in H; [|by eauto|done..].
    right. exists p. destruct H as [? (? & ? & ?)]. done. }
  unfold http_response. do 3 good_step.
  eapply good_bind; [apply http_fields_good; [apply fuelled_full|]|].
  { split; [constructor|split; done]. }
  intros [l o] (Ha & Hm & Hi). do 2 good_step. cbn.
  destruct (l_interval l) as [v|] eqn:Ev; [|done]. cbn in *.
  destruct (0 <? v) eqn:Ez; [|done]. bool_to_Z. simplify_eq. specialize (Hi _ Ev).
  split; [lia|]. split_and!; [rewrite length_take; unfold MAX_PEERS; lia| |].
  - eapply sublist_NoDup; [apply NoDup_dedup_sort|apply sublist_take].
  - apply Forall_take. rewrite Forall_forall in *. intros x Hx. apply (proj1 (elem_of_dedup_sort _ _)) in Hx. by apply Ha.
Qed.
End TrackerWire.
