(* ===== verification/TrackerBinding.v ===== *)
(** * STUN binding replies (src/lowertier-tracker/src/binding.rs)

    The codec that tells a peer its observed address: the request, and the
    reply to a request with its attributes checked. *)
From stdpp Require Import base list gmap numbers strings.
From Stdlib Require Import ZArith Lia.
From S2P Require Import Prelude NetAddr.

Local Open Scope Z_scope.

Module TrackerBinding.
Import Net.

(** [Dropped] is the [None] of the code; [OutOfFuel] is never returned *)
Inductive error : Type :=
| Dropped
| OutOfFuel.

Definition MAGIC : list Z := [0x21; 0x12; 0xa4; 0x42].
Definition MAX_MESSAGE : Z := 20 + 512.

Definition request (transaction : list Z) : list Z := [0; 1; 0; 0] ++ MAGIC ++ transaction.

(** the request attributes from [offset] on: the offset after them, and
    whether the reply goes out from the other port *)
Fixpoint attributes (fuel : nat) (packet : list Z) (alternate : bool) (offset : nat) (change_port : bool)
    : outcome error (nat * bool) :=
  if bool_decide (length packet <= offset)%nat then Ok (offset, change_port)
  else
    match fuel with
    | O => Err OutOfFuel
    | S fuel =>
        k ← ok_or (get_range packet offset (offset + 2)) Dropped;
        n ← ok_or (get_range packet (offset + 2) (offset + 4)) Dropped;
        let n := Z.to_nat (of_be n) in
        value ← ok_or (get_range packet (offset + 4) (offset + 4 + n)) Dropped;
        change_port ←
          (if of_be k =? 3 then
             _ ← ensure (bool_decide (length value = 4%nat)) Dropped;
             let flags := of_be value in
             _ ← ensure (negb (negb (Z.land flags (unot 32 2) =? 0) || (negb (flags =? 0) && negb alternate))) Dropped;
             Ok (flags =? 2)
           else
             _ ← ensure (negb ((of_be k <? 0x8000) && negb (of_be k =? 0x26))) Dropped;
             Ok change_port);
        attributes fuel packet alternate ((offset + 4 + n + 3) / 4 * 4) change_port
    end.

Definition header_ok (packet : list Z) : bool :=
  (20 <=? len packet) && (len packet <=? MAX_MESSAGE) &&
  bool_decide (take 2 packet = [0; 1]) && bool_decide (take 4 (drop 4 packet) = MAGIC) &&
  (of_be (take 2 (drop 2 packet)) =? len packet - 20) && ((len packet - 20) mod 4 =? 0).

(** the reply to a request, of which it keeps the magic and the transaction *)
Definition reply_to (id : list Z) (source : SocketAddr) : list Z :=
  let address := octets (ip source) in
  let n := 4 + len address in
  [1; 1] ++ to_be 2 (wrap 16 (n + 4)) ++ id ++
  [0; 0x20; 0; wrap 8 n; 0; if is_ipv4 (ip source) then 1 else 2] ++
  to_be 2 (Z.lxor (port source) 0x2112) ++ zip_with Z.lxor address id.

(** every attribute has at least four bytes: the length is enough fuel *)
Definition response (packet : list Z) (source : SocketAddr) (alternate : bool) : outcome error (list Z * bool) :=
  _ ← ensure (header_ok packet) Dropped;
  '(offset, change_port) ← attributes (length packet) packet alternate 20 false;
  _ ← ensure (bool_decide (offset = length packet) && negb (port source =? 0)) Dropped;
  Ok (reply_to (take 16 (drop 4 packet)) source, change_port).

(** ** Properties *)

(** the mapped address that a client reads from a reply: the attribute 0x20,
    unmasked with the magic and the transaction *)
Definition mapped_address (reply : list Z) : option SocketAddr :=
  p ← get_range reply 26 28;
  let p := Z.lxor (of_be p) 0x2112 in
  let a := zip_with Z.lxor (drop 28 reply) (take 16 (drop 4 reply)) in
  if bool_decide (take 6 (drop 20 reply) = [0; 0x20; 0; 8; 0; 1]) then Some (new (V4 (of_be a)) p)
  else if bool_decide (take 6 (drop 20 reply) = [0; 0x20; 0; 20; 0; 2]) then Some (new (V6 (of_be a)) p)
  else None.

Lemma attributes_total packet alternate : forall fuel offset change,
  (length packet <= fuel + offset)%nat -> (change = true -> alternate = true) ->
  attributes fuel packet alternate offset change = Err Dropped \/
  exists o c, attributes fuel packet alternate offset change = Ok (o, c) /\ (c = true -> alternate = true).
Proof.
  induction fuel as [|fuel IH]; intros offset change Hf Hc; cbn [attributes].
  { rewrite bool_decide_true by lia. eauto. }
  case_bool_decide; [eauto|].
  destruct (get_range packet offset (offset + 2)); cbn [ok_or mbind outcome_bind]; [|by left].
  destruct (get_range packet (offset + 2) (offset + 4)); cbn [ok_or mbind outcome_bind]; [|by left].
  destruct (get_range packet (offset + 4) _); cbn [ok_or mbind outcome_bind]; [|by left].
  assert (forall n ch, (ch = true -> alternate = true) ->
    attributes fuel packet alternate ((offset + 4 + n + 3) / 4 * 4) ch = Err Dropped \/
    exists o c, attributes fuel packet alternate ((offset + 4 + n + 3) / 4 * 4) ch = Ok (o, c) /\ (c = true -> alternate = true)) as Hrec.
  { intros n ch Hch. apply IH; [|done]. pose proof (Nat.div_mod (offset + 4 + n + 3) 4).
    pose proof (Nat.mod_upper_bound (offset + 4 + n + 3) 4). lia. }
  destruct (_ =? 3); unfold ensure.
  - destruct (bool_decide _); cbn [mbind outcome_bind]; [|by left].
    destruct (negb _) eqn:E; cbn [mbind outcome_bind]; [|by left]. apply Hrec.
    intros Ez%Z.eqb_eq. apply negb_true_iff, orb_false_iff in E as [_ E]. rewrite Ez in E. by destruct alternate.
  - destruct (negb _); cbn [mbind outcome_bind]; [|by left]. by apply Hrec.
Qed.

Lemma response_total packet source alternate :
  response packet source alternate = Err Dropped \/
  exists c, response packet source alternate = Ok (reply_to (take 16 (drop 4 packet)) source, c) /\
    header_ok packet = true /\ (c = true -> alternate = true).
Proof.
  unfold response. destruct (header_ok packet) eqn:Hh; cbn [ensure mbind outcome_bind]; [|by left].
  destruct (attributes_total packet alternate (length packet) 20 false) as [->|(o & c & -> & Hc)];
    [lia|done|by left|]. cbn [mbind outcome_bind].
  destruct (_ && negb _); cbn [ensure mbind outcome_bind]; [|by left]. right. eauto.
Qed.

Lemma zip_lxor_invol (a m : list Z) : (length a <= length m)%nat ->
  zip_with Z.lxor (zip_with Z.lxor a m) m = a.
Proof.
  revert m. induction a as [|x a IH]; intros [|y m] H; cbn in *; [done|done|lia|].
  rewrite IH by lia. f_equal. by rewrite Z.lxor_assoc, Z.lxor_nilpotent, Z.lxor_0_r.
Qed.

Lemma lxor_u16 a b : is_u 16 a -> is_u 16 b -> is_u 16 (Z.lxor a b).
Proof.
  intros Ha Hb. apply is_u_bits; [lia| |].
  - apply Z.lxor_nonneg. unfold is_u in *. lia.
  - intros n Hn. rewrite Z.lxor_spec, !(testbit_above _ 16) by done. done.
Qed.

Lemma of_be_octets i : ip_ok i -> of_be (octets i) = match i with V4 a => a | V6 a => a end.
Proof. destruct i; intros H; apply of_to_be, H. Qed.

Lemma reply_to_spec id source : length id = 16%nat -> addr_ok source -> scope_id source = 0 ->
  mapped_address (reply_to id source) = Some source /\ take 16 (drop 4 (reply_to id source)) = id /\
  of_be (take 2 (drop 2 (reply_to id source))) = len (reply_to id source) - 20.
Proof.
  intros Hid [Hip Hport] Hs. unfold reply_to.
  set (n := 4 + len (octets (ip source))). set (kind := [0; 32; 0; wrap 8 n; 0; _]).
  set (pt := to_be 2 (Z.lxor _ _)). set (masked := zip_with _ _ _). set (b := [1; 1] ++ _).
  assert (length (octets (ip source)) <= 16)%nat as Ho by (rewrite length_octets; destruct (is_ipv4 _); lia).
  assert (length masked = length (octets (ip source))) as Hm by (unfold masked; rewrite length_zip_with; lia).
  assert (length b = 28 + length masked)%nat as Hb
    by (unfold b, pt; rewrite !length_app, !length_to_be, Hid; cbn [length kind]; lia).
  pose proof (sub_app b ([1; 1] ++ to_be 2 (wrap 16 (n + 4))) id (kind ++ pt ++ masked) 4 16 eq_refl
    ltac:(by rewrite length_app, length_to_be) Hid) as Eid.
  pose proof (sub_app b ([1; 1] ++ to_be 2 (wrap 16 (n + 4)) ++ id) kind (pt ++ masked) 20 6
    ltac:(unfold b; by rewrite <-!app_assoc) ltac:(by rewrite !length_app, length_to_be, Hid) eq_refl) as Ek.
  pose proof (get_range_app ([1; 1] ++ to_be 2 (wrap 16 (n + 4)) ++ id ++ kind) pt masked 26 28
    ltac:(by rewrite !length_app, length_to_be, Hid) ltac:(unfold pt; by rewrite length_to_be)) as Ep.
  rewrite <-!app_assoc in Ep. fold b in Ep.
  assert (drop 28 b = masked) as Ed.
  { replace b with (([1; 1] ++ to_be 2 (wrap 16 (n + 4)) ++ id ++ kind ++ pt) ++ masked)
      by (unfold b; by rewrite <-!app_assoc).
    apply drop_app_length'. unfold pt. by rewrite !length_app, !length_to_be, Hid. }
  split_and!; [|done|].
  - unfold mapped_address. rewrite Ep. cbn [mbind option_bind]. rewrite Eid, Ed, Ek. unfold masked.
    rewrite zip_lxor_invol by lia. unfold pt.
    rewrite of_to_be by (apply lxor_u16; [done|by split]).
    rewrite Z.lxor_assoc, Z.lxor_nilpotent, Z.lxor_0_r, of_be_octets by done.
    destruct source as [[a|a] p sc]; cbn in Hs |- *; subst sc; [by rewrite bool_decide_true|].
    rewrite bool_decide_false by done. by rewrite bool_decide_true.
  - rewrite (sub_app b [1; 1] (to_be 2 (wrap 16 (n + 4))) (id ++ kind ++ pt ++ masked)) by (done || apply length_to_be).
    rewrite wrap_small, of_to_be by (unfold is_u, n, len; cbn; lia). unfold n, len. lia.
Qed.

(** Binding replies are sound.  On any datagram the responder ends without
    a panic, with no reply or with one whose transaction is the request's,
    whose length field is right, and whose mapped address, unmasked as a client
    does, is the source of the request; the other port is used only where there
    is one.  A plain request from a usable port is always answered. *)
Theorem stun_binding_correct (packet : list Z) (source : SocketAddr) (alternate : bool) :
  addr_ok source -> scope_id source = 0 ->
  (response packet source alternate = Err Dropped \/
   exists reply change, response packet source alternate = Ok (reply, change) /\
     mapped_address reply = Some source /\
     take 16 (drop 4 reply) = take 16 (drop 4 packet) /\
     of_be (take 2 (drop 2 reply)) = len reply - 20 /\
     (change = true -> alternate = true)) /\
  (forall tx, length tx = 12%nat -> bytes_ok tx -> port source <> 0 ->
     exists reply, response (request tx) source alternate = Ok (reply, false)).
Proof.
  intros [Hip Hport] Hscope. split.
  - destruct (response_total packet source alternate) as [->|(c & -> & Hh & Hc)]; [by left|]. right.
    eexists _, c. split; [done|].
    unfold header_ok in Hh. bool_to_Z. set (tx := take 16 (drop 4 packet)).
    assert (length tx = 16%nat) as Htx by (unfold tx; unfold len in *; len_lia).
    destruct (reply_to_spec tx source Htx (conj Hip Hport) Hscope) as (? & ? & ?). done.
  - intros tx Htx Hb Hp. eexists. unfold response.
    assert (length (request tx) = 20%nat) as Hl by (unfold request; rewrite !length_app, Htx; done).
    assert (header_ok (request tx) = true) as ->.
    { unfold header_ok, len. rewrite Hl. done. }
    cbn [ensure mbind outcome_bind]. rewrite Hl. cbn [attributes].
    rewrite bool_decide_true by lia. cbn [mbind outcome_bind].
    rewrite bool_decide_true by done. rewrite (proj2 (Z.eqb_neq _ _)) by done. done.
Qed.

Lemma stun_binding_correct_witness :
  exists reply, response (request (replicate 12 5)) (new (V4 0x01020304) 9) false = Ok (reply, false).
Proof.
  apply (stun_binding_correct [] (new (V4 0x01020304) 9) false);
    [by split|done|done|by apply Forall_replicate|done].
Defined.
End TrackerBinding.
