(* ===== verification/TrackerServer.v ===== *)
(** * The tracker server (src/lowertier-tracker/src/server.rs)

    The peer store behind the UDP and HTTP trackers, its admission limits, and
    the handlers of both protocols.  The store is passed explicitly; HMAC and
    percent decoding are parameters; clock readings are arguments, instants in
    nanoseconds. *)
From stdpp Require Import base list gmap numbers strings.
From Stdlib Require Import ZArith Lia.
From S2P Require Import Prelude NetAddr TrackerWire TrackerBinding.

Local Open Scope Z_scope.

(** The percent_encoding crate: [%] and two hexadecimal digits stand for a
    byte, other characters for themselves. *)
Class PercentDecode : Type := percent_decode : list Z -> list Z.
Class PercentDecodeLaws (D : PercentDecode) : Prop := {
  percent_decode_nil : percent_decode [] = [];
  percent_decode_plain c s : c <> 37 -> percent_decode (c :: s) = c :: percent_decode s;
  percent_decode_byte b s : is_byte b ->
    percent_decode (37 :: TrackerWire.hex_upper (b / 16) :: TrackerWire.hex_upper (b mod 16) :: s) = b :: percent_decode s;
}.

Module TrackerServer.
Import Text Net TrackerWire.

Definition MAX_SWARMS : Z := 4096.
Definition MAX_ENTRIES : Z := 65536.
Definition MAX_SWARM_ENTRIES : Z := 256.

Record Entry : Type := mk_entry { address : SocketAddr; expires : Z }.
#[export] Instance Entry_eq_dec : EqDecision Entry.
Proof. solve_decision. Defined.

(** the entries of a swarm by peer id and address *)
Abbreviation Swarm := (gmap (list Z * SocketAddr) Entry) (only parsing).

Record Store : Type := mk_store {
  swarms : gmap (list Z) Swarm;
  entries : Z;
  cleanup : Z;
  rate_second : Z;
  rates : gmap IpAddr Z;
  requests : Z;
  response_bytes : Z;
}.

(** the fields of [TrackerServer] that never change *)
Record Server : Type := mk_server {
  secret : list Z;
  passkey_tag : option (list Z);
  interval : Z;
}.

(** durations in nanoseconds *)
Definition secs (n : Z) : Z := n * 1000000000.

Definition announce_interval (c : Server) (a : Announce) : Z :=
  if a_left a =? 2 then Z.max (interval c) IDLE_ANNOUNCE_INTERVAL_SECS else interval c.

(** ** Admission *)
(** an IPv6 source counts as its IPv4 address or as its /64 *)
Definition rate_source (source : IpAddr) : IpAddr :=
  match source with
  | V6 a => match to_ipv4_mapped a with
            | Some v4 => V4 v4
            | None => V6 (Z.land a (Z.shiftl (u_max 64) 64))
            end
  | i => i
  end.

Definition admit_source (s : Store) (source : IpAddr) (now : Z) : Store * bool :=
  let source := rate_source source in
  let s := if rate_second s =? now then s
           else mk_store (swarms s) (entries s) (cleanup s) now ∅ 0 0 in
  if 2048 <=? requests s then (s, false)
  else if bool_decide (rates s !! source = None) && (2048 <=? Z.of_nat (size (rates s))) then (s, false)
  else
    let count := default 0 (rates s !! source) in
    let with_count n r := mk_store (swarms s) (entries s) (cleanup s) (rate_second s)
                            (<[source := n]> (rates s)) r (response_bytes s) in
    if 32 <=? count then (with_count count (requests s), false)
    else (with_count (count + 1) (requests s + 1), true).

Definition admit_response (s : Store) (bytes : Z) : Store * bool :=
  if 128 * 1024 <? response_bytes s + bytes then (s, false)
  else (mk_store (swarms s) (entries s) (cleanup s) (rate_second s) (rates s) (requests s)
          (response_bytes s + bytes), true).

(** ** Announces *)
(** [swarms.values().map(HashMap::len).sum()] *)
Definition total (m : gmap (list Z) Swarm) : Z := sum_Z (fun kv => Z.of_nat (size kv.2)) (map_to_list m).

Definition retain_live (now : Z) (sw : Swarm) : Swarm := filter (fun kv => now < expires kv.2) sw.
Definition retain_swarm (now : Z) (sw : Swarm) : option Swarm :=
  let sw := retain_live now sw in if bool_decide (sw = ∅) then None else Some sw.

Definition set_swarms (s : Store) (m : gmap (list Z) Swarm) (n : Z) : Store :=
  mk_store m n (cleanup s) (rate_second s) (rates s) (requests s) (response_bytes s).

Definition capacity_reached (s : Store) (h : Id) : bool :=
  (MAX_ENTRIES <=? entries s) || (MAX_SWARMS <=? Z.of_nat (size (swarms s))) ||
  match swarms s !! h with Some sw => MAX_SWARM_ENTRIES <=? Z.of_nat (size sw) | None => false end.

(** the sweep of all swarms, when it is due; [elapsed] since the last one *)
Definition sweep (s : Store) (h : Id) (now elapsed : Z) : Store :=
  if (secs 30 <=? elapsed) || (capacity_reached s h && (secs 1 <=? elapsed)) then
    let m := omap (retain_swarm now) (swarms s) in
    mk_store m (total m) now (rate_second s) (rates s) (requests s) (response_bytes s)
  else s.

(** the swarm of the announce without its expired entries *)
Definition expire_swarm (s : Store) (h : Id) (now : Z) : Store :=
  match swarms s !! h with
  | Some sw =>
      let sw' := retain_live now sw in
      let removed := Z.of_nat (size sw) - Z.of_nat (size sw') in
      set_swarms s (<[h := sw']> (swarms s)) (wrap 64 (entries s - removed))
  | None => s
  end.

Definition stop_peer (s : Store) (h : Id) (k : list Z * SocketAddr) (source : IpAddr) : Store :=
  match swarms s !! h with
  | Some sw =>
      match sw !! k with
      | Some e => if bool_decide (ip (address e) = source)
                  then set_swarms s (<[h := delete k sw]> (swarms s)) (wrap 64 (entries s - 1)) else s
      | None => s
      end
  | None => s
  end.

Definition open_swarm (s : Store) (h : Id) : Store * outcome error unit :=
  match swarms s !! h with
  | Some _ => (s, Ok tt)
  | None => if Z.of_nat (size (swarms s)) <? MAX_SWARMS
            then (set_swarms s (<[h := ∅]> (swarms s)) (entries s), Ok tt)
            else (s, Err (Msg "tracker swarm limit"))
  end.

(** the swarm with the entry of the announcing peer *)
Definition register_peer (s : Store) (h : Id) (k : list Z * SocketAddr) (e : Entry)
    : Store * outcome error Swarm :=
  match swarms s !! h with
  | None => (s, Panic)
  | Some sw =>
      let is_new := bool_decide (sw !! k = None) in
      if is_new && negb ((entries s <? MAX_ENTRIES) && (Z.of_nat (size sw) <? MAX_SWARM_ENTRIES))
      then (s, Err (Msg "tracker peer limit"))
      else
        let sw := <[k := e]> sw in
        (set_swarms s (<[h := sw]> (swarms s)) (if is_new then entries s + 1 else entries s), Ok sw)
  end.

(** [numwant as usize] of a non-negative number, at most [MAX_PEERS] *)
Definition reply_limit (numwant : Z) : nat :=
  if numwant <? 0 then MAX_PEERS else Z.to_nat (Z.min numwant (Z.of_nat MAX_PEERS)).

Definition rotate_left {A} (n : nat) (l : list A) : list A := drop n l ++ take n l.

Definition select_peers (sw : Swarm) (a : Announce) (source : IpAddr) (now unix : Z) : list SocketAddr :=
  let limit := reply_limit (numwant a) in
  if bool_decide (limit = 0%nat) then []
  else
    let peers := (fun kv => address kv.2) <$>
      filter (fun kv => kv.1.1 <> peer a /\ now < expires kv.2 /\
                        is_ipv6 (ip (address kv.2)) = is_ipv6 source) (map_to_list sw) in
    let peers := sort peers in
    let peers := if bool_decide (peers = []) then peers
                 else rotate_left (Z.to_nat (unix mod len peers)) peers in
    take limit peers.

Definition entry_lifetime (c : Server) (a : Announce) : Z := secs (Z.max (announce_interval c a * 3) 10).

(** a stop, or a registration followed by the selection of peers *)
Definition announce (c : Server) (s : Store) (a : Announce) (source : IpAddr) (now elapsed unix : Z)
    : Store * outcome error (list SocketAddr) :=
  if negb (negb (a_port a =? 0) && ((0 <=? event a) && (event a <=? 3)))
  then (s, Err (Msg "invalid tracker announce"))
  else
    let addr := new source (a_port a) in
    let k := (peer a, addr) in
    let s := expire_swarm (sweep s (hash a) now elapsed) (hash a) now in
    if event a =? 3 then (stop_peer s (hash a) k source, Ok [])
    else
      match open_swarm s (hash a) with
      | (s, Ok _) =>
          match register_peer s (hash a) k (mk_entry addr (now + entry_lifetime c a)) with
          | (s, Ok sw) => (s, Ok (select_peers sw a source now unix))
          | (s, Err e) => (s, Err e)
          | (s, Panic) => (s, Panic)
          end
      | (s, Err e) => (s, Err e)
      | (s, Panic) => (s, Panic)
      end.

(** ** Text *)
(** [s.replace('+', " ")] *)
Definition plus_to_space (s : list Z) : list Z := (fun c => if c =? 43 then 32 else c) <$> s.

Definition append_compact (bytes : list Z) (a : SocketAddr) : list Z :=
  bytes ++ octets (ip a) ++ to_be 2 (port a).

Section Handlers.
Context (hmac : list Z -> list Z -> list Z) {D : PercentDecode}.

Definition with_passkey (secret : list Z) (interval : Z) (passkey : option (list Z)) : outcome error Server :=
  _ ← ensure ((1 <=? interval) && (interval <=? 86400)) (Msg "rendezvous interval must be 1-86400 seconds");
  _ ← ensure (match passkey with None => true | Some k => (0 <? len k) && (len k <=? 256) end)
        (Msg "invalid passkey length");
  Ok (mk_server secret (hmac secret <$> passkey) interval).
Definition new_store (now : Z) : Store := mk_store ∅ 0 now 0 ∅ 0 0.

(** the values of the fields named [name] of a query *)
Definition query_values (name query : list Z) : list (list Z) :=
  omap (fun field => match split_once 61 field with
                     | Some (n, v) => if bool_decide (n = name) then Some v else None
                     | None => None
                     end) (split 38 query).

Definition authorized (c : Server) (query : option (list Z)) : bool :=
  match passkey_tag c with
  | None => true
  | Some tag =>
      match query_values (str "passkey") (default [] query) with
      | [k] => bool_decide (hmac (secret c) (percent_decode (plus_to_space k)) = tag)
      | _ => false
      end
  end.

Definition cookie (c : Server) (source : SocketAddr) (bucket : Z) : Z :=
  of_be (take 8 (hmac (secret c) (str "lowertier-tracker-cookie-v1" ++
    (if is_ipv4 (ip source) then 4 else 6) :: octets (ip source) ++ to_be 2 (port source) ++ to_be 8 bucket))).

(** the clock during an announce: the instant, the time since the last sweep,
    the second of the day *)
Record Clock : Type := mk_clock { instant : Z; elapsed : Z; unix : Z }.

(** [i32::from_be_bytes] *)
Definition signed32 (z : Z) : Z := if z <? 2 ^ 31 then z else z - 2 ^ 32.

Definition read_announce (packet : list Z) : outcome error Announce :=
  h ← unwrap (get_range packet 16 36);
  p ← unwrap (get_range packet 36 56);
  k ← be_at packet 88 92;
  pt ← be_at packet 96 98;
  ev ← be_at packet 80 84;
  lf ← be_at packet 64 72;
  nw ← be_at packet 92 96;
  Ok (mk_announce h p k pt ev lf (signed32 nw)).

Definition connect_reply (c : Server) (packet transaction : list Z) (source : SocketAddr) (now : Z) : list Z :=
  to_be 4 0 ++ transaction ++ to_be 8 (cookie c source (now / 60)) ++
  (if bool_decide (get_range packet 16 20 = Some ECHO_MAGIC) && (48 <=? len packet)
   then ECHO_MAGIC ++ [if is_ipv4 (ip source) then 4 else 6] ++ to_be 2 (port source) ++ octets (ip source)
   else []).

Definition cookie_valid (c : Server) (source : SocketAddr) (now connection : Z) : bool :=
  existsb (fun age => cookie c source (saturating_sub (now / 60) age) =? connection) [0; 1; 2].

(** the reply that fits the response budget *)
Definition send_within (s : Store) (reply : list Z) : Store * option (list Z) :=
  let '(s, ok) := admit_response s (len reply) in (s, if ok : bool then Some reply else None).

Definition announce_reply (c : Server) (a : Announce) (transaction : list Z) (peers : list SocketAddr) : list Z :=
  foldl append_compact (to_be 4 1 ++ transaction ++ to_be 4 (announce_interval c a) ++ to_be 8 0) peers.

(** [None] drops the datagram *)
Definition udp_response (c : Server) (s : Store) (packet : list Z) (source : SocketAddr) (now : Z) (k : Clock)
    : Store * outcome error (option (list Z)) :=
  if len packet <? 16 then (s, Ok None)
  else
    let '(s, admitted) := admit_source s (ip source) now in
    if negb admitted then (s, Ok None)
    else
      let connection := of_be (take 8 packet) in
      let action := of_be (take 4 (drop 8 packet)) in
      let transaction := take 4 (drop 12 packet) in
      if (action =? 0) && (connection =? CONNECT_MAGIC) then
        let '(s, r) := send_within s (connect_reply c packet transaction source now) in (s, Ok r)
      else if negb (action =? 1) || (len packet <? 98) || negb (cookie_valid c source now connection)
      then (s, Ok None)
      else
        match url_data packet with
        | Err OutOfFuel => (s, Err OutOfFuel)
        | Panic => (s, Panic)
        | Err _ => (s, Ok None)
        | Ok target =>
            if negb (authorized c (snd <$> split_once 63 target)) then (s, Ok None)
            else
              match read_announce packet with
              | Panic => (s, Panic)
              | Err e => (s, Err e)
              | Ok a =>
                  match announce c s a (ip source) (instant k) (elapsed k) (unix k) with
                  | (s, Ok peers) =>
                      let '(s, r) := send_within s (announce_reply c a transaction peers) in (s, Ok r)
                  | (s, Err _) => (s, Ok None)
                  | (s, Panic) => (s, Panic)
                  end
              end
        end.

(** one turn of the UDP server: the reply, and whether it leaves by the
    alternate socket *)
Definition serve_udp_turn (c : Server) (s : Store) (packet : list Z) (source : SocketAddr) (alternate : bool)
    (now : Z) (k : Clock) : Store * outcome error (option (list Z * bool)) :=
  if (20 <=? len packet) && bool_decide (take 4 (drop 4 packet) = TrackerBinding.MAGIC) then
    let '(s, admitted) := admit_source s (ip source) now in
    if negb admitted then (s, Ok None)
    else
      match TrackerBinding.response packet source alternate with
      | Ok (reply, change) =>
          let '(s, ok) := admit_response s (len reply) in
          (s, if ok : bool then (if change && negb alternate then Panic else Ok (Some (reply, change))) else Ok None)
      | Err TrackerBinding.OutOfFuel => (s, Err OutOfFuel)
      | Err TrackerBinding.Dropped => (s, Ok None)
      | Panic => (s, Panic)
      end
  else
    match udp_response c s packet source now k with
    | (s, Ok (Some reply)) => (s, Ok (Some (reply, false)))
    | (s, Ok None) => (s, Ok None)
    | (s, Err e) => (s, Err e)
    | (s, Panic) => (s, Panic)
    end.

(** ** HTTP *)
(** the fields of a query, none of them twice *)
Fixpoint query_fields (items : list (list Z)) (fields : gmap (list Z) (list Z)) : outcome error (gmap (list Z) (list Z)) :=
  match items with
  | [] => Ok fields
  | item :: items =>
      '(n, v) ← ok_or (split_once 61 item) (Msg "invalid tracker query");
      let v := percent_decode (plus_to_space v) in
      _ ← ensure (bool_decide (fields !! n = None)) (Msg "duplicate tracker parameter");
      query_fields items (<[n := v]> fields)
  end.

Definition parse_event (v : list Z) : outcome error Z :=
  if bool_decide (v = []) then Ok 0
  else if bool_decide (v = str "started") then Ok 2
  else if bool_decide (v = str "stopped") then Ok 3
  else if bool_decide (v = str "completed") then Ok 1
  else Err (Msg "invalid tracker event").

(** a 20-byte identifier *)
Definition as_id (v : list Z) : outcome error Id :=
  _ ← ensure (bool_decide (length v = 20%nat)) (Msg "invalid length"); Ok v.

(** an optional number *)
Definition number_or (parse : list Z -> option Z) (v : option (list Z)) (d : Z) : outcome error Z :=
  match v with
  | None => Ok d
  | Some v => ok_or (t ← from_utf8 v; parse t) (Msg "invalid number")
  end.

Definition parse_query (query : list Z) : outcome error Announce :=
  _ ← ensure (len query <=? 4096) (Msg "tracker query too large");
  fields ← query_fields (split 38 query) ∅;
  let required n := ok_or (fields !! str n) (Msg "missing tracker parameter") in
  h ← required "info_hash"; h ← as_id h;
  p ← required "peer_id"; p ← as_id p;
  pt ← required "port";
  pt ← ok_or (t ← from_utf8 pt; Decimal.parse_u 16 t) (Msg "invalid number");
  ev ← parse_event (default [] (fields !! str "event"));
  lf ← number_or (Decimal.parse_u 64) (fields !! str "left") 1;
  nw ← number_or (Decimal.parse_i 32) (fields !! str "numwant") (Z.of_nat MAX_PEERS);
  Ok (mk_announce h p 0 pt ev lf nw).

(** what the handler reads of a request *)
Record Request : Type := mk_request { is_get : bool; path : list Z; query : option (list Z) }.

(** a bencoded byte string *)
Definition bencode_string (v : list Z) : list Z := Decimal.print (len v) ++ 58 :: v.

Definition http_body (c : Server) (a : Announce) (source : SocketAddr) (q : list Z) (peers : list SocketAddr) : list Z :=
  let peers := take MAX_PEERS peers in
  let v4 := foldl append_compact [] (filter (fun p => is_ipv4 (ip p) = true) peers) in
  let v6 := foldl append_compact [] (filter (fun p => is_ipv4 (ip p) = false) peers) in
  str "d8:intervali" ++ Decimal.print (announce_interval c a) ++ str "e" ++
  (if negb (port source =? 0) && bool_decide (str "lt_observe=1" ∈ split 38 q)
   then str "11:lt_observed" ++ bencode_string (print_addr source) else []) ++
  str "5:peers" ++ bencode_string v4 ++ str "6:peers6" ++ bencode_string v6 ++ str "e".

(** the announce of a request, and its reply *)
Definition http_announce (c : Server) (s : Store) (r : Request) (source : SocketAddr) (k : Clock)
    : Store * outcome error (list Z) :=
  if negb (is_get r && bool_decide (path r = str "/announce")) then (s, Err (Msg "use GET /announce"))
  else
    match query r with
    | None => (s, Err (Msg "missing query"))
    | Some q =>
        if negb (authorized c (Some q)) then (s, Err (Msg "invalid tracker request"))
        else
          match parse_query q with
          | Panic => (s, Panic)
          | Err e => (s, Err e)
          | Ok a =>
              match announce c s a (ip source) (instant k) (elapsed k) (unix k) with
              | (s, Ok peers) => (s, Ok (http_body c a source q peers))
              | (s, Err e) => (s, Err e)
              | (s, Panic) => (s, Panic)
              end
          end
    end.

Definition failure_body : list Z := str "d14:failure reason23:invalid tracker requeste".

(** the body of the reply; [None] refuses the request *)
Definition http_reply (c : Server) (s : Store) (r : Request) (source : option SocketAddr) (now : Z) (k : Clock)
    : Store * outcome error (option (list Z)) :=
  match source with
  | None => (s, Ok None)
  | Some source =>
      let '(s, admitted) := admit_source s (ip source) now in
      if negb admitted then (s, Ok None)
      else
        match http_announce c s r source k with
        | (s, Ok body) => let '(s, r) := send_within s body in (s, Ok r)
        | (s, Err _) => let '(s, r) := send_within s failure_body in (s, Ok r)
        | (s, Panic) => (s, Panic)
        end
  end.

End Handlers.

(** ** The store invariant *)
Definition swarm_ok (sw : Swarm) : Prop :=
  Z.of_nat (size sw) <= MAX_SWARM_ENTRIES /\ map_Forall (fun k e => address e = k.2) sw.

Definition swarms_ok (m : gmap (list Z) Swarm) (n : Z) : Prop :=
  n = total m /\ n <= MAX_ENTRIES /\ Z.of_nat (size m) <= MAX_SWARMS /\ map_Forall (fun _ => swarm_ok) m.

Record store_ok (s : Store) : Prop := mk_store_ok {
  ok_swarms : swarms_ok (swarms s) (entries s);
  ok_requests : 0 <= requests s <= 2048;
  ok_rates : Z.of_nat (size (rates s)) <= 2048 /\ map_Forall (fun _ n => 0 <= n <= 32) (rates s);
  ok_bytes : 0 <= response_bytes s <= 128 * 1024;
}.

Lemma total_insert_None m h sw : m !! h = None -> total (<[h := sw]> m) = Z.of_nat (size sw) + total m.
Proof. intros Hm. unfold total. rewrite (sum_Z_perm _ _ _ (map_to_list_insert _ _ _ Hm)). done. Qed.
Lemma swarms_total_delete m h sw : m !! h = Some sw -> total m = Z.of_nat (size sw) + total (delete h m).
Proof. intros Hm. unfold total. rewrite <-(sum_Z_perm _ _ _ (map_to_list_delete _ _ _ Hm)). done. Qed.
Lemma total_insert_Some m h sw sw' : m !! h = Some sw ->
  total (<[h := sw']> m) = total m - Z.of_nat (size sw) + Z.of_nat (size sw').
Proof.
  intros Hm. rewrite <-insert_delete_eq, total_insert_None by apply lookup_delete_eq.
  rewrite (swarms_total_delete m h sw Hm). lia.
Qed.
Lemma swarms_total_nonneg m : 0 <= total m.
Proof. apply sum_Z_nonneg. intros. lia. Qed.
Lemma swarms_total_ge m h sw : m !! h = Some sw -> Z.of_nat (size sw) <= total m.
Proof. intros Hm. rewrite (swarms_total_delete m h sw Hm). pose proof (swarms_total_nonneg (delete h m)). lia. Qed.

Lemma size_retain_live now sw : (size (retain_live now sw) <= size sw)%nat.
Proof. apply map_subseteq_size, map_filter_subseteq. Qed.
Lemma retain_live_ok now sw : swarm_ok sw -> swarm_ok (retain_live now sw).
Proof.
  intros [Hs Hf]. split; [pose proof (size_retain_live now sw); lia|].
  intros k e He. apply map_lookup_filter_Some in He as [He _]. by apply Hf.
Qed.

Lemma total_sweep now m :
  total (omap (retain_swarm now) m) <= total m /\ (size (omap (retain_swarm now) m) <= size m)%nat.
Proof.
  induction m as [|h sw m Hm IH] using map_ind; [by rewrite omap_empty|].
  destruct IH as [Ht Hs]. rewrite total_insert_None, map_size_insert_None by done.
  assert (omap (retain_swarm now) m !! h = None) as Hn by (by rewrite lookup_omap, Hm).
  destruct (retain_swarm now sw) as [sw'|] eqn:E.
  - rewrite (omap_insert_Some _ _ _ _ sw') by done.
    rewrite total_insert_None, map_size_insert_None by done.
    unfold retain_swarm in E. case_bool_decide; simplify_eq. pose proof (size_retain_live now sw). lia.
  - rewrite omap_insert_None by done. rewrite delete_id by done. lia.
Qed.

Lemma sweep_ok s h now el : store_ok s -> store_ok (sweep s h now el).
Proof.
  intros Hs. unfold sweep. destruct (_ || _); [|done]. destruct Hs as [(Hn & Hm & Hz & Hf) ? ? ?].
  split; [|done..]. cbn. destruct (total_sweep now (swarms s)) as [Ht Hsz].
  split_and!; [done|lia|lia|]. intros k sw Hk. apply lookup_omap_Some in Hk as (sw0 & E & Hk).
  unfold retain_swarm in E. case_bool_decide; simplify_eq. by apply retain_live_ok, (Hf k).
Qed.

(** replacing a swarm by one no larger *)
Lemma swarms_ok_shrink m n h sw sw' : swarms_ok m n -> m !! h = Some sw -> swarm_ok sw' ->
  (size sw' <= size sw)%nat ->
  swarms_ok (<[h := sw']> m) (wrap 64 (n - (Z.of_nat (size sw) - Z.of_nat (size sw')))).
Proof.
  intros (-> & Hm & Hz & Hf) Hl Hok Hsz. pose proof (swarms_total_ge _ _ _ Hl). unfold MAX_ENTRIES in *.
  rewrite wrap_small by (split; [lia|change (2 ^ 64) with 18446744073709551616; lia]).
  split_and!; [rewrite (total_insert_Some _ _ _ _ Hl); lia|unfold MAX_ENTRIES; lia| |by apply map_Forall_insert_2].
  by rewrite map_size_insert_Some by done.
Qed.

Lemma expire_swarm_ok s h now : store_ok s -> store_ok (expire_swarm s h now).
Proof.
  intros [Hs ? ? ?]. unfold expire_swarm. destruct (swarms s !! h) as [sw|] eqn:E; [|done].
  split; [|done..]. apply (swarms_ok_shrink _ _ _ _ _ Hs E); [|apply size_retain_live].
  apply retain_live_ok. apply Hs in E. done.
Qed.

Lemma size_delete_Some {K A} `{Countable K} (m : gmap K A) k e : m !! k = Some e -> size m = S (size (delete k m)).
Proof. intros Hk. rewrite <-(insert_delete_id m k e Hk) at 1. apply map_size_insert_None, lookup_delete_eq. Qed.

Lemma stop_peer_ok s h k source : store_ok s -> store_ok (stop_peer s h k source).
Proof.
  intros [Hs ? ? ?]. unfold stop_peer. destruct (swarms s !! h) as [sw|] eqn:E; [|done].
  destruct (sw !! k) as [e|] eqn:Ek; [|done]. case_bool_decide; [|done]. split; [|done..].
  pose proof (size_delete_Some sw k e Ek) as Hsz.
  replace (entries s - 1) with (entries s - (Z.of_nat (size sw) - Z.of_nat (size (delete k sw)))) by lia.
  apply (swarms_ok_shrink _ _ _ _ _ Hs E); [|lia]. apply Hs in E as [Hz Hf].
  split; [lia|]. by apply map_Forall_delete.
Qed.

Lemma open_swarm_ok s h : store_ok s -> store_ok (open_swarm s h).1.
Proof.
  intros Hs. unfold open_swarm. destruct (swarms s !! h) eqn:E; [done|].
  destruct (_ <? _) eqn:Elt; [bool_to_Z|done]. destruct Hs as [(Hn & Hm & Hz & Hf) ? ? ?].
  split; [|done..]. cbn. split_and!; [by rewrite total_insert_None, map_size_empty by done|done| |].
  - rewrite map_size_insert_None by done. lia.
  - apply map_Forall_insert_2; [|done]. split; [by rewrite map_size_empty|apply map_Forall_empty].
Qed.

Lemma register_peer_ok s h k e : store_ok s -> address e = k.2 -> store_ok (register_peer s h k e).1.
Proof.
  intros Hs He. unfold register_peer. destruct (swarms s !! h) as [sw|] eqn:E; [|done].
  destruct (_ && negb _) eqn:Elim; [done|]. destruct Hs as [(Hn & Hm & Hz & Hf) ? ? ?].
  pose proof (Hf _ _ E) as [Hsz Hk]. split; [|done..]. cbn.
  assert (map_Forall (fun k e => address e = k.2) (<[k := e]> sw)) as Hins by (by apply map_Forall_insert_2).
  split_and!; [| |by rewrite map_size_insert_Some|apply map_Forall_insert_2; [split; [|done]|done]];
    [rewrite (total_insert_Some _ _ _ _ E)|..]; case_bool_decide as Ek; cbn [andb] in Elim; bool_to_Z;
    rewrite ?(map_size_insert_None _ _ _ Ek); try lia; destruct (sw !! k) eqn:Es; try done;
    rewrite ?(map_size_insert_Some _ _ _ (mk_is_Some _ _ Es)); lia.
Qed.

Lemma announce_ok c s a source now el ux : store_ok s -> store_ok (announce c s a source now el ux).1.
Proof.
  intros Hs. unfold announce. destruct (negb _); [done|].
  pose proof (expire_swarm_ok _ (hash a) now (sweep_ok s (hash a) now el Hs)) as H1.
  revert H1. generalize (expire_swarm (sweep s (hash a) now el) (hash a) now). intros s1 H1.
  destruct (event a =? 3); [by apply stop_peer_ok|].
  pose proof (open_swarm_ok s1 (hash a) H1) as H2.
  destruct (open_swarm s1 (hash a)) as [s2 [u|er|]]; cbn [fst] in *; [|done..].
  match goal with |- context [register_peer s2 ?h ?k ?e] =>
    pose proof (register_peer_ok s2 h k e H2 eq_refl) as H3; destruct (register_peer s2 h k e) as [s3 [sw|er|]] end; done.
Qed.

Lemma admit_source_ok s source now : store_ok s -> store_ok (admit_source s source now).1.
Proof.
  intros Hs. unfold admit_source. set (src := rate_source source).
  set (s1 := if rate_second s =? now then s else _).
  assert (store_ok s1) as H1.
  { unfold s1. destruct (_ =? now); [done|]. destruct Hs. split; cbn; [done|lia| |lia].
    split; [by rewrite map_size_empty|apply map_Forall_empty]. }
  clearbody s1. clear Hs. destruct (2048 <=? requests s1) eqn:Er; [done|].
  destruct (_ && _) eqn:Ec; [done|]. destruct H1 as [? Hr [Hz Hf] ?]. bool_to_Z.
  assert (Z.of_nat (size (<[src := 0]> (rates s1))) <= 2048) as Hsz.
  { destruct (rates s1 !! src) eqn:El; [by rewrite map_size_insert_Some|].
    rewrite map_size_insert_None by done. rewrite bool_decide_true in Ec by done. cbn in Ec. bool_to_Z. lia. }
  assert (0 <= default 0 (rates s1 !! src) <= 32) as Hd.
  { destruct (rates s1 !! src) eqn:El; cbn; [by apply (Hf src)|lia]. }
  assert (forall n, Z.of_nat (size (<[src := n]> (rates s1))) <= 2048) as Hsz'
    by (intros n; rewrite !map_size_insert in *; done).
  destruct (32 <=? _) eqn:E32; bool_to_Z; split; cbn; try done; try lia;
    (split; [apply Hsz'|apply map_Forall_insert_2; [lia|done]]).
Qed.

Lemma admit_response_ok s n : 0 <= n -> store_ok s -> store_ok (admit_response s n).1.
Proof.
  intros Hn Hs. unfold admit_response. destruct (_ <? _) eqn:E; [done|]. bool_to_Z.
  destruct Hs. split; cbn; [done..|lia].
Qed.

Lemma send_within_ok s l : store_ok s -> store_ok (send_within s l).1.
Proof.
  intros Hs. unfold send_within. pose proof (admit_response_ok s (len l) (len_nonneg l) Hs).
  by destruct (admit_response s (len l)).
Qed.

Lemma new_store_ok t0 : store_ok (new_store t0).
Proof.
  split; cbn; [|lia| |lia].
  - split_and!; [done|done|by rewrite map_size_empty|apply map_Forall_empty].
  - split; [by rewrite map_size_empty|apply map_Forall_empty].
Qed.

(** *** No panics *)
Section Safety.
Context (hmac : list Z -> list Z -> list Z) {D : PercentDecode}.

(** a reply, or none *)
Definition served {A} (r : outcome error A) : Prop := exists a, r = Ok a.

Lemma open_swarm_lookup s h s' u : open_swarm s h = (s', Ok u) -> is_Some (swarms s' !! h).
Proof.
  unfold open_swarm. destruct (swarms s !! h) eqn:E; [intros; by simplify_eq|].
  destruct (_ <? _); intros; simplify_eq. cbn. by rewrite lookup_insert_eq.
Qed.

Lemma announce_no_panic c s a source now el ux : (announce c s a source now el ux).2 <> Panic.
Proof.
  unfold announce. destruct (negb _); [done|]. destruct (event a =? 3); [done|].
  destruct (open_swarm _ _) as [s2 [u|er|]] eqn:Eo; [|done|].
  - apply open_swarm_lookup in Eo as [sw Hsw]. unfold register_peer. rewrite Hsw. by destruct (_ && negb _).
  - unfold open_swarm in Eo. destruct (swarms _ !! _); [done|]. by destruct (_ <? _).
Qed.

Lemma announce_no_fuel_error c s a source now el ux : (announce c s a source now el ux).2 <> Err OutOfFuel.
Proof.
  unfold announce. destruct (negb _); [done|]. destruct (event a =? 3); [done|].
  destruct (open_swarm _ _) as [s2 [u|er|]] eqn:Eo; [|cbn|done].
  - unfold register_peer. destruct (swarms s2 !! _); [|done]. by destruct (_ && negb _).
  - unfold open_swarm in Eo. destruct (swarms _ !! _); [done|]. destruct (_ <? _); congruence.
Qed.

Lemma read_announce_total packet : (98 <= length packet)%nat -> exists a, read_announce packet = Ok a.
Proof.
  intros H. unfold read_announce, get_range.
  rewrite !bool_decide_true by lia. cbn [unwrap mbind outcome_bind]. rewrite !be_at_ok by lia.
  cbn [mbind outcome_bind]. eauto.
Qed.

Lemma udp_response_served c s packet source now k : bytes_ok packet ->
  served (udp_response hmac c s packet source now k).2.
Proof.
  intros Hb. unfold udp_response, served. destruct (len packet <? 16); [eauto|].
  destruct (admit_source s (ip source) now) as [s1 []]; cbn [negb]; [|eauto].
  destruct (_ && _); [destruct (send_within _ _); eauto|].
  destruct (_ || _) eqn:E; [eauto|]. bool_to_Z. assert (98 <= length packet)%nat as Hl by (unfold len in *; lia).
  destruct (url_data_total packet Hb) as [[e ->]|(d & -> & _)]; [eauto|].
  destruct (negb (authorized _ _ _)); [eauto|].
  destruct (read_announce_total packet Hl) as [a ->].
  pose proof (announce_no_panic c s1 a (ip source) (instant k) (elapsed k) (unix k)) as Hp.
  destruct (announce _ _ _ _ _ _ _) as [s2 [ps|e|]]; [destruct (send_within _ _); eauto|eauto|done].
Qed.

Lemma serve_udp_turn_served c s packet source alternate now k : bytes_ok packet ->
  served (serve_udp_turn hmac c s packet source alternate now k).2.
Proof.
  intros Hb. unfold serve_udp_turn, served. destruct (_ && _).
  - destruct (admit_source s (ip source) now) as [s1 []]; cbn [negb]; [|eauto].
    destruct (TrackerBinding.response_total packet source alternate) as [->|(ch & -> & _ & Hc)]; [eauto|].
    destruct (admit_response _ _) as [s2 []]; [|eauto].
    destruct ch, alternate; cbn; eauto. by specialize (Hc eq_refl).
  - destruct (udp_response_served c s packet source now k Hb) as [r Hr].
    destruct (udp_response _ _ _ _ _ _ _) as [s1 o]. cbn in Hr. subst o. destruct r; eauto.
Qed.

Lemma query_fields_no_panic items : forall fields, query_fields items fields <> Panic.
Proof.
  induction items as [|i items IH]; intros fields; cbn [query_fields]; [done|].
  apply bind_not_Panic; [by destruct (split_once _ _)|]. intros [n v] _.
  apply bind_not_Panic; [by destruct (bool_decide _)|]. intros _ _. apply IH.
Qed.

Lemma parse_query_no_panic q : parse_query q <> Panic.
Proof.
  unfold parse_query. apply bind_not_Panic; [by destruct (_ <=? _)|]. intros _ _.
  apply bind_not_Panic; [apply query_fields_no_panic|]. intros f _. unfold as_id.
  repeat (apply bind_not_Panic; [|intros ? _]); try apply bind_not_Panic; try (intros ? _);
    unfold number_or, parse_event, ok_or, ensure; repeat case_match; done.
Qed.

Lemma http_announce_no_panic c s r source k : (http_announce hmac c s r source k).2 <> Panic.
Proof.
  unfold http_announce. destruct (negb _); [done|]. destruct (query r) as [q|]; [|done].
  destruct (negb _); [done|]. destruct (parse_query q) as [a|e|] eqn:E; [|done|].
  - pose proof (announce_no_panic c s a (ip source) (instant k) (elapsed k) (unix k)).
    by destruct (announce _ _ _ _ _ _ _) as [s2 []].
  - exfalso. revert E. apply parse_query_no_panic.
Qed.

Lemma http_reply_served c s r source now k : served (http_reply hmac c s r source now k).2.
Proof.
  unfold http_reply, served. destruct source as [source|]; [|eauto].
  destruct (admit_source s (ip source) now) as [s1 []]; cbn [negb]; [|eauto].
  pose proof (http_announce_no_panic c s1 r source k).
  destruct (http_announce _ _ _ _ _ _) as [s2 []]; [destruct (send_within _ _); eauto..|done].
Qed.
End Safety.

(** ** Runs of the server *)
Inductive arrival : Type :=
| Datagram (packet : list Z) (source : SocketAddr) (now : Z) (k : Clock)
| HttpRequest (r : Request) (source : option SocketAddr) (now : Z) (k : Clock).

Section Runs.
Context (hmac : list Z -> list Z -> list Z) {D : PercentDecode} (c : Server) (alternate : bool).

Definition handle (s : Store) (e : arrival) : Store * outcome error (option (list Z)) :=
  match e with
  | Datagram packet source now k =>
      match serve_udp_turn hmac c s packet source alternate now k with
      | (s, Ok r) => (s, Ok (fst <$> r))
      | (s, Err e) => (s, Err e)
      | (s, Panic) => (s, Panic)
      end
  | HttpRequest r source now k => http_reply hmac c s r source now k
  end.

Fixpoint run (s : Store) (es : list arrival) : Store * list (outcome error (option (list Z))) :=
  match es with
  | [] => (s, [])
  | e :: es => let '(s, r) := handle s e in let '(s, rs) := run s es in (s, r :: rs)
  end.

Definition arrival_ok (e : arrival) : Prop :=
  match e with Datagram packet _ _ _ => bytes_ok packet | _ => True end.

Lemma udp_response_ok s packet source now k :
  store_ok s -> store_ok (udp_response hmac c s packet source now k).1.
Proof.
  intros Hs. unfold udp_response. destruct (len packet <? 16); [done|].
  pose proof (admit_source_ok s (ip source) now Hs) as H1.
  destruct (admit_source s (ip source) now) as [s1 ad]; cbn [fst] in H1. destruct (negb ad); [done|].
  destruct (_ && _).
  { match goal with |- context [send_within s1 ?l] => pose proof (send_within_ok s1 l H1) end.
    by destruct (send_within _ _). }
  destruct (_ || _); [done|]. destruct (url_data packet) as [d|[]|]; [|done..].
  destruct (negb _); [done|]. destruct (read_announce packet) as [a|e|]; [|done..].
  pose proof (announce_ok c s1 a (ip source) (instant k) (elapsed k) (unix k) H1) as H2.
  destruct (announce _ _ _ _ _ _ _) as [s2 [ps|e|]]; cbn [fst] in H2; [|done..].
  match goal with |- context [send_within s2 ?l] => pose proof (send_within_ok s2 l H2) end.
  by destruct (send_within _ _).
Qed.

Lemma serve_udp_turn_ok s packet source now k :
  store_ok s -> store_ok (serve_udp_turn hmac c s packet source alternate now k).1.
Proof.
  intros Hs. unfold serve_udp_turn. destruct (_ && _).
  - pose proof (admit_source_ok s (ip source) now Hs) as H1.
    destruct (admit_source s (ip source) now) as [s1 ad]; cbn [fst] in H1. destruct (negb ad); [done|].
    destruct (TrackerBinding.response _ _ _) as [[reply ch]|[]|]; [|done..].
    pose proof (admit_response_ok s1 (len reply) (len_nonneg _) H1). by destruct (admit_response _ _).
  - pose proof (udp_response_ok s packet source now k Hs) as H1.
    by destruct (udp_response _ _ _ _ _ _ _) as [s1 [[]| |]].
Qed.

Lemma http_reply_ok s r source now k : store_ok s -> store_ok (http_reply hmac c s r source now k).1.
Proof.
  intros Hs. unfold http_reply. destruct source as [source|]; [|done].
  pose proof (admit_source_ok s (ip source) now Hs) as H1.
  destruct (admit_source s (ip source) now) as [s1 ad]; cbn [fst] in H1. destruct (negb ad); [done|].
  assert (store_ok (http_announce hmac c s1 r source k).1) as H2.
  { unfold http_announce. destruct (negb _); [done|]. destruct (query r) as [q|]; [|done].
    destruct (negb _); [done|]. destruct (parse_query q) as [a|e|]; [|done..].
    pose proof (announce_ok c s1 a (ip source) (instant k) (elapsed k) (unix k) H1).
    by destruct (announce _ _ _ _ _ _ _) as [s2 []]. }
  destruct (http_announce _ _ _ _ _ _) as [s2 [body|e|]]; cbn [fst] in H2; [..|done];
    (match goal with |- context [send_within s2 ?l] => pose proof (send_within_ok s2 l H2) end;
     by destruct (send_within _ _)).
Qed.

Lemma handle_ok s e : store_ok s -> arrival_ok e -> store_ok (handle s e).1 /\ served (handle s e).2.
Proof.
  intros Hs He. destruct e as [packet source now k|r source now k]; cbn [handle].
  - pose proof (serve_udp_turn_ok s packet source now k Hs) as H1.
    destruct (serve_udp_turn_served hmac c s packet source alternate now k He) as [o Ho].
    destruct (serve_udp_turn _ _ _ _ _ _ _ _) as [s1 r]. cbn in *. subst r. split; [done|]. by eexists.
  - split; [by apply http_reply_ok|apply http_reply_served].
Qed.

(** the tracker stays within its limits under any load.  Whatever
    datagrams and requests arrive, from any sources and at any times, every one
    is handled without a panic, and the store keeps at most 4096 swarms of at
    most 256 entries, 65536 in all and exactly as many as it counts, admits at
    most 2048 requests and 128 KiB of replies per second and 32 requests per
    source, and every entry is filed under the address it was announced from. *)
Theorem tracker_bounded_under_load (t0 : Z) (es : list arrival) :
  Forall arrival_ok es ->
  let '(s, rs) := run (new_store t0) es in
  length rs = length es /\ Forall served rs /\ store_ok s.
Proof.
  intros Hes. pose proof (new_store_ok t0) as H0. revert H0. generalize (new_store t0). induction Hes as [|e es He Hes IH]; intros s Hs; [done|].
  cbn [run]. destruct (handle_ok s e Hs He) as [H1 H2]. destruct (handle s e) as [s1 r]. cbn in H1, H2.
  specialize (IH s1 H1). destruct (run s1 es) as [s2 rs]. destruct IH as (Hl & Hr & Hok).
  split_and!; [cbn; lia|by constructor|done].
Qed.
End Runs.

(** percent decoding *)
Definition hex_value (c : Z) : option Z := Net.to_digit 16 c.
Fixpoint decode_percent (s : list Z) : list Z :=
  match s with
  | [] => []
  | c :: r =>
      match r with
      | a :: b :: r' =>
          match hex_value a, hex_value b with
          | Some x, Some y => if c =? 37 then x * 16 + y :: decode_percent r' else c :: decode_percent r
          | _, _ => c :: decode_percent r
          end
      | _ => c :: decode_percent r
      end
  end.
#[export] Instance percent_decoder : PercentDecode := decode_percent.
#[export] Instance percent_decoder_laws : PercentDecodeLaws percent_decoder.
Proof.
  split; [done| |].
  - intros c s Hc. change (decode_percent (c :: s) = c :: decode_percent s). cbn [decode_percent].
    destruct s as [|a [|b r]]; [done..|]. rewrite (proj2 (Z.eqb_neq _ _) Hc). by destruct (hex_value a), (hex_value b).
  - intros b s Hb.
    change (decode_percent (37 :: hex_upper (b / 16) :: hex_upper (b mod 16) :: s) = b :: decode_percent s).
    cbn [decode_percent].
    assert (hex_value (hex_upper (b / 16)) = Some (b / 16) /\ hex_value (hex_upper (b mod 16)) = Some (b mod 16)) as [-> ->].
    { pose proof (byte_forall (fun b => match hex_value (hex_upper (b / 16)), hex_value (hex_upper (b mod 16)) with
        | Some x, Some y => (x =? b / 16) && (y =? b mod 16) | _, _ => false end) ltac:(vm_compute; reflexivity) b Hb) as H.
      cbn beta in H. destruct (hex_value _), (hex_value _); try done. bool_to_Z. by subst. }
    change (37 =? 37) with true. cbv iota. f_equal. pose proof (Z.div_mod b 16). lia.
Qed.

Lemma tracker_bounded_under_load_witness :
  let e := Datagram (connect_request 7) (new (V4 0x01020304) 9) 5 (mk_clock 1 1 1) in
  let c := mk_server [1; 2] None 2 in
  let '(s, rs) := run checksum_mac c false (new_store 0) [e; e] in
  length rs = 2%nat /\ Forall served rs /\ store_ok s.
Proof.
  apply (tracker_bounded_under_load checksum_mac (mk_server [1; 2] None 2) false 0
    [Datagram (connect_request 7) (new (V4 0x01020304) 9) 5 (mk_clock 1 1 1);
     Datagram (connect_request 7) (new (V4 0x01020304) 9) 5 (mk_clock 1 1 1)]).
  forall_list; cbn [arrival_ok]; apply (bool_decide_unpack _); by vm_compute.
Defined.

(** ** What an announce does *)
(** the entry filed under swarm [h] and key [k] *)
Definition find (s : Store) (h : Id) (k : list Z * SocketAddr) : option Entry := sw ← swarms s !! h; sw !! k.

(** [s'] has only entries of [s], and all that are live *)
Definition keeps (now : Z) (s s' : Store) : Prop :=
  (forall h k e, find s' h k = Some e -> find s h k = Some e) /\
  (forall h k e, find s h k = Some e -> now < expires e -> find s' h k = Some e).

Lemma find_Some s h k e : find s h k = Some e <-> exists sw, swarms s !! h = Some sw /\ sw !! k = Some e.
Proof. unfold find. destruct (swarms s !! h); cbn; naive_solver. Qed.

Lemma retain_live_lookup (now : Z) (sw : Swarm) (k : list Z * SocketAddr) (e : Entry) :
  retain_live now sw !! k = Some e <-> sw !! k = Some e /\ now < expires e.
Proof. unfold retain_live. by rewrite map_lookup_filter_Some. Qed.

Lemma sweep_keeps now s h el : keeps now s (sweep s h now el).
Proof.
  unfold sweep. destruct (_ || _); [|done]. split; intros h' k e; rewrite !find_Some; cbn [swarms].
  - intros (sw & Hsw & Hk). apply lookup_omap_Some in Hsw as (sw0 & E & H0).
    unfold retain_swarm in E. case_bool_decide; simplify_eq. apply retain_live_lookup in Hk as [? _]. eauto.
  - intros (sw & Hsw & Hk) Hl. exists (retain_live now sw).
    assert (retain_live now sw !! k = Some e) as Hr by (by apply retain_live_lookup).
    split; [|done]. rewrite lookup_omap, Hsw. cbn. unfold retain_swarm.
    rewrite bool_decide_false; [done|]. intros E. by rewrite E, lookup_empty in Hr.
Qed.

Lemma expire_keeps now s h : keeps now s (expire_swarm s h now).
Proof.
  unfold expire_swarm. destruct (swarms s !! h) as [sw|] eqn:E; [|done].
  split; intros h' k e; rewrite !find_Some; cbn [swarms set_swarms];
    destruct (decide (h = h')) as [<-|Hne]; rewrite ?lookup_insert_eq, ?lookup_insert_ne by done; [| done| |done].
  - intros (sw' & [= <-] & Hk). apply retain_live_lookup in Hk as [? _]. eauto.
  - intros (sw' & Hs & Hk) Hl. simplify_eq. eexists. split; [done|]. by apply retain_live_lookup.
Qed.

Lemma keeps_trans now s1 s2 s3 : keeps now s1 s2 -> keeps now s2 s3 -> keeps now s1 s3.
Proof. intros [] []. split; eauto. Qed.

Lemma open_swarm_find s h s' r h' k : open_swarm s h = (s', r) -> find s' h' k = find s h' k.
Proof.
  unfold open_swarm, find. destruct (swarms s !! h) eqn:E; [intros; by simplify_eq|].
  destruct (_ <? _); intros; simplify_eq; [|done]. cbn. destruct (decide (h = h')) as [<-|].
  - by rewrite lookup_insert_eq, E.
  - by rewrite lookup_insert_ne by done.
Qed.

Lemma register_find s h k e s' sw : register_peer s h k e = (s', Ok sw) ->
  swarms s' !! h = Some sw /\ find s' h k = Some e /\
  (forall h' k', (h', k') <> (h, k) -> find s' h' k' = find s h' k').
Proof.
  unfold register_peer, find. destruct (swarms s !! h) as [sw0|] eqn:E; [|done].
  destruct (_ && negb _); [done|]. intros; simplify_eq. cbn. rewrite lookup_insert_eq. cbn.
  split_and!; [done|by rewrite lookup_insert_eq|]. intros h' k' Hne.
  destruct (decide (h = h')) as [<-|]; [|by rewrite lookup_insert_ne by done].
  rewrite lookup_insert_eq, E. cbn. rewrite lookup_insert_ne by congruence. done.
Qed.

Lemma stop_find s h k source : store_ok s -> ip k.2 = source ->
  find (stop_peer s h k source) h k = None /\
  (forall h' k', (h', k') <> (h, k) -> find (stop_peer s h k source) h' k' = find s h' k').
Proof.
  intros Hs Hk. unfold stop_peer, find. destruct (swarms s !! h) as [sw|] eqn:E; [|rewrite E; done].
  destruct (sw !! k) as [e|] eqn:Ek; [|rewrite E; done].
  rewrite bool_decide_true by (by rewrite (proj2 (proj2 (proj2 (proj2 (ok_swarms s Hs))) _ _ E) _ _ Ek)).
  cbn. rewrite lookup_insert_eq. cbn. split; [apply lookup_delete_eq|]. intros h' k' Hne.
  destruct (decide (h = h')) as [<-|]; [|by rewrite lookup_insert_ne by done].
  rewrite lookup_insert_eq, E. cbn. rewrite lookup_delete_ne by congruence. done.
Qed.

(** the entries of a swarm that may be given to the announcing peer *)
Definition candidates (sw : Swarm) (a : Announce) (source : IpAddr) (now : Z) : list ((list Z * SocketAddr) * Entry) :=
  filter (fun kv => kv.1.1 <> peer a /\ now < expires kv.2 /\
                    is_ipv6 (ip (address kv.2)) = is_ipv6 source) (map_to_list sw).

Lemma rotate_perm {A} n (l : list A) : rotate_left n l ≡ₚ l.
Proof. unfold rotate_left. rewrite Permutation_app_comm. by rewrite take_drop. Qed.

Lemma select_peers_spec sw a source now ux :
  exists l, l ≡ₚ (fun kv => address kv.2) <$> candidates sw a source now /\
    select_peers sw a source now ux = take (reply_limit (numwant a)) l.
Proof.
  unfold select_peers. fold (candidates sw a source now). set (l := _ <$> candidates sw a source now).
  destruct (bool_decide (reply_limit _ = 0%nat)) eqn:E0.
  { apply bool_decide_eq_true in E0. exists l. by rewrite E0. }
  exists (if bool_decide (sort l = []) then sort l else rotate_left (Z.to_nat (ux mod len (sort l))) (sort l)).
  split; [|done]. destruct (bool_decide (sort l = [])); [|rewrite rotate_perm]; apply addr_sort_perm.
Qed.

Lemma elem_of_candidates sw a source now k e : map_Forall (fun k e => address e = k.2) sw ->
  (k, e) ∈ candidates sw a source now <->
  sw !! k = Some e /\ k.1 <> peer a /\ now < expires e /\ is_ipv6 (ip k.2) = is_ipv6 source.
Proof.
  intros Hf. unfold candidates. rewrite list_elem_of_filter, elem_of_map_to_list. cbn. split.
  - intros ((? & ? & Hi) & Hk). rewrite (Hf _ _ Hk) in Hi. done.
  - intros (Hk & ? & ? & ?). by rewrite (Hf _ _ Hk).
Qed.

(** the reply lists live entries of others, all of them unless it is full *)
Lemma select_peers_correct sw a source now ux : map_Forall (fun k e => address e = k.2) sw ->
  let peers := select_peers sw a source now ux in
  (length peers <= reply_limit (numwant a))%nat /\
  (forall p, p ∈ peers -> exists id e, sw !! (id, p) = Some e /\ id <> peer a /\ now < expires e /\
     is_ipv6 (ip p) = is_ipv6 source) /\
  (forall id p e, sw !! (id, p) = Some e -> id <> peer a -> now < expires e -> is_ipv6 (ip p) = is_ipv6 source ->
     p ∈ peers \/ length peers = reply_limit (numwant a)).
Proof.
  intros Hf. cbv zeta. destruct (select_peers_spec sw a source now ux) as (l & Hl & ->). split_and!.
  - rewrite length_take. lia.
  - intros p Hp. apply elem_of_take in Hp as (i & Hp%list_elem_of_lookup_2 & _). rewrite Hl in Hp.
    apply list_elem_of_fmap in Hp as ([[id p'] e] & -> & Hin).
    apply elem_of_candidates in Hin as (Hk & Hid & He & Hi); [|done]. cbn in *.
    rewrite (Hf _ _ Hk). cbn. exists id, e. done.
  - intros id p e Hk Hid He Hi. destruct (Nat.le_gt_cases (reply_limit (numwant a)) (length l)) as [Hle|Hgt].
    { right. rewrite length_take. lia. }
    left. rewrite take_ge by lia. rewrite Hl. apply list_elem_of_fmap. exists ((id, p), e).
    split; [cbn; by rewrite (Hf _ _ Hk)|]. by apply elem_of_candidates.
Qed.

(** the store is as full as it may be for a new entry of swarm [h] *)
Definition full (s : Store) (h : Id) : Prop :=
  MAX_SWARMS <= Z.of_nat (size (swarms s)) \/ MAX_ENTRIES <= entries s \/
  exists sw, swarms s !! h = Some sw /\ MAX_SWARM_ENTRIES <= Z.of_nat (size sw).

Lemma register_err s h k e s' er : register_peer s h k e = (s', Err er) -> s' = s /\ full s h.
Proof.
  unfold register_peer. destruct (swarms s !! h) as [sw|] eqn:E; [|done].
  destruct (_ && negb _) eqn:El; [|done]. intros; simplify_eq. split; [done|].
  apply andb_true_iff in El as [_ El]. apply negb_true_iff, andb_false_iff in El as [El|El]; bool_to_Z; unfold full; eauto.
Qed.

Lemma open_err s h s' er : open_swarm s h = (s', Err er) -> s' = s /\ full s h.
Proof.
  unfold open_swarm. destruct (swarms s !! h) eqn:E; [done|].
  destruct (_ <? _) eqn:El; [done|]. bool_to_Z. intros; simplify_eq. split; [done|by left].
Qed.

(** C31: announces do what a tracker promises.  Other peers' live entries
    survive unchanged and no entry appears but the announcing peer's own, filed
    under the address the datagram came from and the announced port.  A stop
    removes that entry.  Any other accepted announce stores it with its expiry
    and replies with at most 16 live entries of other peers of the same swarm
    and address family, with all of them unless the reply is full.  A
    well-formed announce is refused only when a limit is reached. *)
Theorem announce_correct (c : Server) (s : Store) (a : Announce) (source : IpAddr) (now el ux : Z)
    (s' : Store) (r : outcome error (list SocketAddr)) :
  store_ok s -> announce c s a source now el ux = (s', r) ->
  let addr := new source (a_port a) in
  let me := (peer a, addr) in
  (forall h k e, (h, k) <> (hash a, me) ->
     (find s' h k = Some e -> find s h k = Some e) /\
     (find s h k = Some e -> now < expires e -> find s' h k = Some e)) /\
  (forall peers, r = Ok peers -> event a = 3 -> peers = [] /\ find s' (hash a) me = None) /\
  (forall peers, r = Ok peers -> event a <> 3 ->
     find s' (hash a) me = Some (mk_entry addr (now + entry_lifetime c a)) /\
     (length peers <= reply_limit (numwant a) <= MAX_PEERS)%nat /\
     (forall p, p ∈ peers -> exists id e, find s' (hash a) (id, p) = Some e /\ id <> peer a /\
        now < expires e /\ is_ipv6 (ip p) = is_ipv6 source) /\
     (forall id p e, find s' (hash a) (id, p) = Some e -> id <> peer a -> now < expires e ->
        is_ipv6 (ip p) = is_ipv6 source -> p ∈ peers \/ length peers = reply_limit (numwant a))) /\
  (forall er, r = Err er -> a_port a = 0 \/ ~ (0 <= event a <= 3) \/ (event a <> 3 /\ full s' (hash a))).
Proof.
  intros Hs Ha addr me. pose proof (announce_ok c s a source now el ux Hs) as Hs'. rewrite Ha in Hs'. cbn [fst] in Hs'.
  unfold announce in Ha. destruct (negb _) eqn:Ev.
  { simplify_eq. split_and!; [done|done|done|]. intros er _. apply negb_true_iff, andb_false_iff in Ev as [Ev|Ev].
    - bool_to_Z. by left.
    - right; left. intros [? ?]. apply andb_false_iff in Ev as [?|?]; bool_to_Z; lia. }
  pose proof (expire_swarm_ok _ (hash a) now (sweep_ok s (hash a) now el Hs)) as H1.
  pose proof (keeps_trans _ _ _ _ (sweep_keeps now s (hash a) el) (expire_keeps now _ (hash a))) as [Kb Kf].
  set (s1 := expire_swarm _ _ _) in *. clearbody s1. fold addr me in Ha.
  assert (forall s2, (forall h k, (h, k) <> (hash a, me) -> find s2 h k = find s1 h k) ->
    forall h k e, (h, k) <> (hash a, me) -> (find s2 h k = Some e -> find s h k = Some e) /\
      (find s h k = Some e -> now < expires e -> find s2 h k = Some e)) as Hothers.
  { intros s2 H2 h k e Hne. rewrite H2 by done. eauto. }
  destruct (event a =? 3) eqn:E3; bool_to_Z.
  { simplify_eq. destruct (stop_find s1 (hash a) me source H1 eq_refl) as [Hn Ho].
    split_and!; [by apply Hothers|intros; by simplify_eq|done|done]. }
  destruct (open_swarm s1 (hash a)) as [s2 o] eqn:Eo.
  pose proof (fun h k => open_swarm_find _ _ _ _ h k Eo) as Hof. destruct o as [u|er|]; cbn in Ha.
  - destruct (register_peer s2 _ _ _) as [s3 [sw|er|]] eqn:Er; simplify_eq.
    + apply register_find in Er as (Hsw & Hme & Ho). destruct (ok_swarms s' Hs') as (_ & _ & _ & Hf).
      destruct (Hf _ _ Hsw) as [_ Hk].
      destruct (select_peers_correct sw a source now ux Hk) as (Hp1 & Hp2 & Hp3).
      split_and!; [apply Hothers; intros; by rewrite Ho|done| |done].
      intros peers [= <-] _. unfold find at 2 3. rewrite Hsw. cbn [mbind option_bind].
      split_and!; [done|done|unfold reply_limit, MAX_PEERS; destruct (_ <? 0); lia|done|done].
    + apply register_err in Er as [-> Hfull]. split_and!; [by apply Hothers|done|done|]. eauto.
    + split_and!; [|done..]. apply Hothers. intros. unfold register_peer in Er.
      destruct (swarms s2 !! hash a) eqn:E; [by destruct (_ && negb _)|]. by simplify_eq.
  - simplify_eq. destruct (open_err _ _ _ _ Eo) as [-> Hfull]. split_and!; [by apply Hothers|done|done|]. eauto.
  - simplify_eq. split_and!; [by apply Hothers|done..].
Qed.

Lemma announce_correct_witness :
  let a := mk_announce [1] [2] 0 80 2 1 16 in
  exists s' peers, announce (mk_server [] None 2) (new_store 0) a (V4 1) 5 5 5 = (s', Ok peers) /\
    find s' [1] ([2], new (V4 1) 80) = Some (mk_entry (new (V4 1) 80) (5 + 10000000000)).
Proof.
  cbv zeta. eexists _, _. split; [vm_compute; reflexivity|].
  eapply (announce_correct (mk_server [] None 2) (new_store 0) (mk_announce [1] [2] 0 80 2 1 16) (V4 1) 5 5 5);
    [apply new_store_ok|vm_compute; reflexivity|reflexivity|done].
Defined.

(** ** The two sides of the UDP protocol *)
Lemma announce_peers c s a source now el ux s' peers :
  store_ok s -> announce c s a source now el ux = (s', Ok peers) ->
  (length peers <= MAX_PEERS)%nat /\
  (forall p, p ∈ peers -> exists id e, find s (hash a) (id, p) = Some e /\ is_ipv6 (ip p) = is_ipv6 source).
Proof.
  intros Hs Ha. pose proof (announce_ok c s a source now el ux Hs) as Hs'. rewrite Ha in Hs'. cbn [fst] in Hs'.
  unfold announce in Ha. destruct (negb _); [done|].
  pose proof (keeps_trans _ _ _ _ (sweep_keeps now s (hash a) el) (expire_keeps now _ (hash a))) as [Kb _].
  set (s1 := expire_swarm _ _ _) in *. clearbody s1.
  destruct (event a =? 3); [simplify_eq; split; [cbn; lia|set_solver]|].
  destruct (open_swarm s1 (hash a)) as [s2 [u|er|]] eqn:Eo; [|done..].
  pose proof (fun h k => open_swarm_find _ _ _ _ h k Eo) as Hof.
  destruct (register_peer s2 _ _ _) as [s3 [sw|er|]] eqn:Er; simplify_eq.
  apply register_find in Er as (Hsw & Hme & Ho). destruct (ok_swarms s' Hs') as (_ & _ & _ & Hf).
  destruct (Hf _ _ Hsw) as [_ Hk]. destruct (select_peers_correct sw a source now ux Hk) as (Hp1 & Hp2 & _).
  split; [etransitivity; [done|]; unfold reply_limit, MAX_PEERS; destruct (_ <? 0); lia|].
  intros p Hp. destruct (Hp2 p Hp) as (id & e & He & Hid & _ & Hi). exists id, e. split; [|done].
  apply Kb. rewrite <-Hof, <-Ho by congruence. apply find_Some. eauto.
Qed.

(** the compact form of an address *)
Definition compact_addr (p : SocketAddr) : list Z := octets (ip p) ++ to_be 2 (port p).

Lemma append_compact_join peers : forall b, foldl append_compact b peers = b ++ mjoin (compact_addr <$> peers).
Proof.
  induction peers as [|p peers IH]; intros b; [by rewrite app_nil_r|].
  cbn [foldl]. rewrite IH. unfold append_compact. by rewrite <-app_assoc.
Qed.

Lemma length_compact_addr p : length (compact_addr p) = stride (is_ipv6 (ip p)).
Proof. unfold compact_addr. rewrite length_app, length_octets, length_to_be. by destruct (ip p). Qed.

Lemma chunks_of_join {A} n (ls : list (list A)) : forall fuel, (0 < n)%nat ->
  Forall (fun l => length l = n) ls -> (length ls <= fuel)%nat -> chunks fuel n (mjoin ls) = ls.
Proof.
  intros fuel Hn. revert fuel. induction ls as [|l ls IH]; intros fuel Hl Hf; [by destruct fuel|].
  apply Forall_cons_iff in Hl as [Hl Hls]. destruct fuel as [|fuel]; [cbn in Hf; lia|].
  change (mjoin (l :: ls)) with (l ++ mjoin ls). destruct l as [|x l]; [cbn in Hl; lia|].
  cbn [chunks app]. change (x :: l ++ mjoin ls) with ((x :: l) ++ mjoin ls).
  rewrite take_app_length', drop_app_length' by done. by rewrite IH by (done || (cbn in Hf; lia)).
Qed.

Lemma length_join_const {A} n (ls : list (list A)) : Forall (fun l => length l = n) ls ->
  length (mjoin ls) = (length ls * n)%nat.
Proof.
  induction 1 as [|l ls Hl Hls IH]; [done|]. change (mjoin (l :: ls)) with (l ++ mjoin ls).
  rewrite length_app. cbn [length]. lia.
Qed.

Lemma compact_loop_push ipv6 es : forall l, (length l < MAX_PEERS)%nat ->
  compact_loop ipv6 es l = foldl push_peer l (compact_entry ipv6 <$> es).
Proof.
  assert (forall ps l, length l = MAX_PEERS -> foldl push_peer l ps = l) as Hfull.
  { induction ps as [|p ps IH]; intros l Hl; [done|]. cbn [foldl]. unfold push_peer at 2.
    rewrite bool_decide_false by lia. cbn [andb]. by apply IH. }
  induction es as [|e es IH]; intros l Hl; [done|]. cbn [compact_loop fmap list_fmap foldl].
  unfold push_peer at 2. rewrite (bool_decide_true (length l < MAX_PEERS)%nat) by done. cbn [andb].
  destruct (unusable _); cbn [negb andb]; [by apply IH|].
  destruct (bool_decide (_ ∈ l)); cbn [negb].
  - rewrite bool_decide_false by lia. by apply IH.
  - case_bool_decide as Hm; [by rewrite Hfull|]. apply IH. len_lia.
Qed.

(** an address that SocketAddr::new makes *)
Definition plain_addr (p : SocketAddr) : Prop := addr_ok p /\ scope_id p = 0.

Lemma compact_entry_addr p : plain_addr p -> compact_entry (is_ipv6 (ip p)) (compact_addr p) = p.
Proof.
  intros [[Hi Hp] Hs]. destruct p as [[a|a] p sc]; cbn in Hi, Hp, Hs; subst sc; unfold compact_entry, compact_addr; cbn [ip is_ipv6 is_ipv4 negb octets port];
    rewrite take_app_length', drop_app_length', !of_to_be by (apply length_to_be || done); done.
Qed.

Lemma compact_roundtrip ipv6 peers :
  Forall plain_addr peers -> Forall (fun p => is_ipv6 (ip p) = ipv6) peers ->
  compact (mjoin (compact_addr <$> peers)) ipv6 = Ok (foldl push_peer [] peers).
Proof.
  intros Hp Hi. assert (0 < stride ipv6)%nat as Hst by (destruct ipv6; cbn; lia).
  assert (Forall (fun l => length l = stride ipv6) (compact_addr <$> peers)) as Hl.
  { apply Forall_fmap. eapply Forall_impl; [exact Hi|]. intros p <-. apply length_compact_addr. }
  unfold compact. rewrite (length_join_const (stride ipv6)) by done.
  rewrite Nat.Div0.mod_mul, bool_decide_true by done. cbn [ensure mbind outcome_bind].
  rewrite chunks_of_join by (done || nia). rewrite compact_loop_push by (unfold MAX_PEERS; cbn; lia).
  do 2 f_equal. rewrite <-list_fmap_compose. rewrite <-(list_fmap_id peers) at 2.
  apply list_fmap_ext. intros i p Hlk. cbn.
  rewrite <-(Forall_lookup_1 _ _ _ _ Hi Hlk). apply compact_entry_addr. by apply (Forall_lookup_1 _ _ _ _ Hp Hlk).
Qed.

Lemma be_at_sub b l m r i j : b = l ++ m ++ r -> length l = i -> (i + length m)%nat = j -> be_at b i j = Ok (of_be m).
Proof. intros ->. apply be_at_app. Qed.
Lemma get_sub {A} (b l m r : list A) i j : b = l ++ m ++ r -> length l = i -> (i + length m)%nat = j -> get_range b i j = Some m.
Proof. intros ->. apply get_range_app. Qed.

(** an announce whose fields have their widths *)
Definition announce_fits (a : Announce) : Prop :=
  length (hash a) = 20%nat /\ length (peer a) = 20%nat /\ is_u 32 (key a) /\ is_u 16 (a_port a) /\
  is_u 32 (event a) /\ is_u 64 (a_left a) /\ - 2 ^ 31 <= numwant a < 2 ^ 31.

Lemma signed32_wrap z : - 2 ^ 31 <= z < 2 ^ 31 -> signed32 (wrap 32 z) = z.
Proof.
  intros Hz. unfold signed32, wrap. destruct (Z.neg_nonneg_cases z).
  - replace (z mod 2 ^ 32) with (z + 2 ^ 32)
      by (symmetry; rewrite <-(Z.mod_add z 1), Z.mod_small; lia).
    rewrite (proj2 (Z.ltb_ge _ _)); lia.
  - rewrite Z.mod_small by lia. by rewrite (proj2 (Z.ltb_lt _ _)) by lia.
Qed.

Lemma length_udp a conn tx : announce_fits a -> length (udp a conn tx) = 98%nat.
Proof. intros (Hh & Hp & _). unfold udp. rewrite !length_app, !length_to_be, Hh, Hp. done. Qed.

(** the fields of an announce datagram are read back *)
Lemma read_announce_udp a conn tx rest : announce_fits a -> read_announce (udp a conn tx ++ rest) = Ok a.
Proof.
  intros (Hh & Hp & Hk & Hpt & He & Hl & Hn). unfold udp, read_announce. rewrite <-!app_assoc.
  remember (to_be 8 conn) as A eqn:EA. remember (to_be 4 1) as B eqn:EB. remember (to_be 4 tx) as C eqn:EC.
  remember (to_be 8 (a_left a)) as L eqn:EL. remember (to_be 4 (event a)) as E eqn:EE.
  remember (to_be 4 (key a)) as K eqn:EK. remember (to_be 4 (wrap 32 (numwant a))) as N eqn:EN.
  remember (to_be 2 (a_port a)) as P eqn:EP. set (b := A ++ _).
  assert (length A = 8%nat /\ length B = 4%nat /\ length C = 4%nat /\ length L = 8%nat /\ length E = 4%nat /\
    length K = 4%nat /\ length N = 4%nat /\ length P = 2%nat) as (HA & HB & HC & HL & HE & HK & HN & HP)
    by (subst; split_and!; apply length_to_be).
  set (Z8 := replicate 8 0) in *. set (Z4 := replicate 4 0) in *.
  assert (length Z8 = 8%nat /\ length Z4 = 4%nat) as [H8 H4] by done. clearbody Z8 Z4.
  rewrite (get_sub b (A ++ B ++ C) (hash a) (peer a ++ Z8 ++ L ++ Z8 ++ E ++ Z4 ++ K ++ N ++ P ++ rest) 16 36);
    [|unfold b; by rewrite <-!app_assoc|len_lia..].
  rewrite (get_sub b (A ++ B ++ C ++ hash a) (peer a) (Z8 ++ L ++ Z8 ++ E ++ Z4 ++ K ++ N ++ P ++ rest) 36 56);
    [|unfold b; by rewrite <-!app_assoc|len_lia..].
  rewrite (be_at_sub b (A ++ B ++ C ++ hash a ++ peer a ++ Z8) L (Z8 ++ E ++ Z4 ++ K ++ N ++ P ++ rest) 64 72);
    [|unfold b; by rewrite <-!app_assoc|len_lia..].
  rewrite (be_at_sub b (A ++ B ++ C ++ hash a ++ peer a ++ Z8 ++ L ++ Z8) E (Z4 ++ K ++ N ++ P ++ rest) 80 84);
    [|unfold b; by rewrite <-!app_assoc|len_lia..].
  rewrite (be_at_sub b (A ++ B ++ C ++ hash a ++ peer a ++ Z8 ++ L ++ Z8 ++ E ++ Z4) K (N ++ P ++ rest) 88 92);
    [|unfold b; by rewrite <-!app_assoc|len_lia..].
  rewrite (be_at_sub b (A ++ B ++ C ++ hash a ++ peer a ++ Z8 ++ L ++ Z8 ++ E ++ Z4 ++ K) N (P ++ rest) 92 96);
    [|unfold b; by rewrite <-!app_assoc|len_lia..].
  rewrite (be_at_sub b (A ++ B ++ C ++ hash a ++ peer a ++ Z8 ++ L ++ Z8 ++ E ++ Z4 ++ K ++ N) P rest 96 98);
    [|unfold b; by rewrite <-!app_assoc|len_lia..].
  cbn [unwrap mbind outcome_bind]. subst K P E L N. rewrite !of_to_be; try done.
  - rewrite signed32_wrap by done. by destruct a.
  - apply (wrap_range 32). lia.
Qed.

Section UdpExchange.
Context (hmac : list Z -> list Z -> list Z) {D : PercentDecode}.
Hypothesis hmac_length : forall k m, length (hmac k m) = 32%nat.
Hypothesis hmac_bytes : forall k m, bytes_ok (hmac k m).
Context (c : Server) (source : SocketAddr).

Lemma cookie_range bucket : is_u 64 (cookie hmac c source bucket).
Proof.
  unfold cookie. match goal with |- is_u 64 (of_be (take 8 ?h)) => pose proof (of_be_range (take 8 h)) as H end.
  rewrite length_take, hmac_length in H. apply H. apply bytes_ok_take, hmac_bytes.
Qed.

Lemma response_header_ok action tx rest : 0 <= action < 2 ^ 32 -> action <> 3 -> is_u 32 tx -> len rest <= 1000 ->
  response_header (to_be 4 action ++ to_be 4 tx ++ rest) action tx = Ok tt.
Proof.
  intros Ha H3 Ht Hl. unfold response_header.
  assert (len (to_be 4 action ++ to_be 4 tx ++ rest) = 8 + len rest) as ->
    by (unfold len; rewrite !length_app, !length_to_be; lia).
  pose proof (len_nonneg rest). unfold MAX_RESPONSE.
  rewrite (proj2 (Z.leb_le 8 _)), (proj2 (Z.leb_le (8 + len rest) _)) by lia. cbn [andb ensure mbind outcome_bind].
  rewrite (be_at_app (to_be 4 action) (to_be 4 tx) rest 4 8) by (by rewrite ?length_to_be).
  rewrite (be_at_sub _ [] (to_be 4 action) (to_be 4 tx ++ rest) 0 4) by (done || by rewrite ?length_to_be).
  rewrite !of_to_be by done. cbn [mbind outcome_bind]. rewrite !Z.eqb_refl. cbn [ensure mbind outcome_bind].
  by rewrite (proj2 (Z.eqb_neq _ _)) by done.
Qed.

Lemma connect_response_reply packet tx now : is_u 32 tx ->
  connect_response (connect_reply hmac c packet (to_be 4 tx) source now) tx = Ok (cookie hmac c source (now / 60)).
Proof.
  intros Ht. unfold connect_response, connect_reply. set (echo := if _ : bool then _ else _).
  assert (length echo <= 23)%nat as He.
  { unfold echo. destruct (_ && _); [|cbn; lia]. rewrite !length_app, length_to_be, length_octets.
    destruct (is_ipv4 _); cbn; lia. }
  rewrite response_header_ok; [|lia|lia|done|unfold len; rewrite length_app, length_to_be; lia].
  cbn [mbind outcome_bind]. unfold len. rewrite !length_app, !length_to_be.
  rewrite (proj2 (Z.leb_le 16 _)) by lia. cbn [ensure mbind outcome_bind].
  rewrite (be_at_sub _ (to_be 4 0 ++ to_be 4 tx) (to_be 8 (cookie hmac c source (now / 60))) echo);
    [by rewrite of_to_be by apply cookie_range|by rewrite <-!app_assoc|by rewrite length_app, !length_to_be|by rewrite length_to_be].
Qed.

(** the echo request of a client: the connect request padded to 48 bytes *)
Definition echo_request (tx : Z) : list Z := connect_request tx ++ ECHO_MAGIC ++ replicate 28 0.

Lemma observed_connect_reply tx tr now : plain_addr source -> length tr = 4%nat ->
  observed_connect (connect_reply hmac c (echo_request tx) tr source now) = Ok (Some source).
Proof.
  intros [[Hi Hp] Hs] Htr. unfold connect_reply.
  assert (get_range (echo_request tx) 16 20 = Some ECHO_MAGIC) as Hg.
  { apply get_range_app; [|done]. unfold connect_request. by rewrite !length_app, !length_to_be. }
  assert (48 <=? len (echo_request tx) = true) as ->.
  { unfold echo_request, connect_request, len. rewrite !length_app, !length_to_be. done. }
  rewrite bool_decide_true by done. cbn [andb].
  set (ck := to_be 8 _). assert (length ck = 8%nat) as Hck by apply length_to_be. clearbody ck.
  set (fam := [if is_ipv4 (ip source) then 4 else 6]). set (b := to_be 4 0 ++ _).
  assert (length b = 23 + length (octets (ip source)))%nat as Hb.
  { unfold b. rewrite !length_app, !length_to_be, Htr, Hck.
    change (length ECHO_MAGIC) with 4%nat. change (length fam) with 1%nat. lia. }
  unfold observed_connect.
  rewrite (get_sub b (to_be 4 0 ++ tr ++ ck) ECHO_MAGIC (fam ++ to_be 2 (port source) ++ octets (ip source)) 16 20);
    [|unfold b; by rewrite <-!app_assoc|rewrite !length_app, length_to_be, Htr, Hck; done|done].
  rewrite bool_decide_true by done. cbn [negb]. unfold len. rewrite Hb.
  rewrite (proj2 (Z.leb_le 23 _)) by lia. cbn [ensure mbind outcome_bind].
  assert (b !! 20%nat = Some (if is_ipv4 (ip source) then 4 else 6)) as Hk.
  { replace b with ((to_be 4 0 ++ tr ++ ck ++ ECHO_MAGIC) ++ fam ++ to_be 2 (port source) ++ octets (ip source))
      by (unfold b; by rewrite <-!app_assoc).
    rewrite lookup_app_r by (rewrite !length_app, length_to_be, Htr, Hck; cbn; lia).
    rewrite !length_app, length_to_be, Htr, Hck. done. }
  rewrite Hk. cbn [unwrap mbind outcome_bind].
  assert (drop 23 b = octets (ip source)) as ->.
  { replace b with ((to_be 4 0 ++ tr ++ ck ++ ECHO_MAGIC ++ fam ++ to_be 2 (port source)) ++ octets (ip source))
      by (unfold b; by rewrite <-!app_assoc).
    apply drop_app_length'. rewrite !length_app, !length_to_be, Htr, Hck. done. }
  rewrite (be_at_sub b (to_be 4 0 ++ tr ++ ck ++ ECHO_MAGIC ++ fam) (to_be 2 (port source)) (octets (ip source)) 21 23);
    [|unfold b; by rewrite <-!app_assoc|rewrite !length_app, !length_to_be, Htr, Hck; done|by rewrite length_to_be].
  rewrite of_to_be by apply Hp. rewrite length_octets, TrackerBinding.of_be_octets by done.
  destruct source as [[a|a] p sc]; cbn in Hs |- *; by subst sc.
Qed.

Lemma take_prefix {A} (b m r : list A) n : b = m ++ r -> length m = n -> take n b = m.
Proof. intros -> <-. by rewrite take_app_length. Qed.

Lemma connect_reply_sent s tx ext now k s' reply : is_u 32 tx ->
  udp_response hmac c s (connect_request tx ++ ext) source now k = (s', Ok (Some reply)) ->
  reply = connect_reply hmac c (connect_request tx ++ ext) (to_be 4 tx) source now.
Proof.
  intros Ht. unfold udp_response. set (b := connect_request tx ++ ext).
  destruct (len b <? 16); [done|]. destruct (admit_source _ _ _) as [s1 []]; cbn [negb]; [|done].
  rewrite (take_prefix b (to_be 8 CONNECT_MAGIC) (replicate 4 0 ++ to_be 4 tx ++ ext) 8);
    [|unfold b, connect_request; by rewrite <-!app_assoc|done].
  rewrite (sub_app b (to_be 8 CONNECT_MAGIC) (replicate 4 0) (to_be 4 tx ++ ext) 8 4);
    [|unfold b, connect_request; by rewrite <-!app_assoc|done..].
  rewrite (sub_app b (to_be 8 CONNECT_MAGIC ++ replicate 4 0) (to_be 4 tx) ext 12 4);
    [|unfold b, connect_request; by rewrite <-!app_assoc|done|apply length_to_be].
  change ((of_be (replicate 4 0) =? 0) && (of_be (to_be 8 CONNECT_MAGIC) =? CONNECT_MAGIC)) with true. cbv iota.
  unfold send_within. destruct (admit_response _ _) as [s2 []]; [|done]. by intros [= _ <-].
Qed.

Lemma cookie_valid_window t now : 0 <= t -> t / 60 <= now / 60 <= t / 60 + 2 ->
  cookie_valid hmac c source now (cookie hmac c source (t / 60)) = true.
Proof.
  intros Ht Hw. assert (0 <= t / 60) by (apply Z.div_pos; lia). unfold cookie_valid, saturating_sub. cbn [existsb].
  assert (now / 60 = t / 60 \/ now / 60 = t / 60 + 1 \/ now / 60 = t / 60 + 2) as [->|[->| ->]] by lia.
  - rewrite Z.max_r, Z.sub_0_r, Z.eqb_refl by lia. done.
  - replace (Z.max 0 (t / 60 + 1 - 1)) with (t / 60) by lia. rewrite Z.eqb_refl. cbn. by rewrite orb_true_r.
  - replace (Z.max 0 (t / 60 + 2 - 2)) with (t / 60) by lia. rewrite Z.eqb_refl. cbn. by rewrite !orb_true_r.
Qed.

(** the reply to an announce is read back by the client *)
Lemma announce_response_reply a tx peers : is_u 32 tx -> 0 < announce_interval c a < 2 ^ 32 ->
  (length peers <= MAX_PEERS)%nat -> Forall plain_addr peers ->
  Forall (fun p => is_ipv6 (ip p) = is_ipv6 (ip source)) peers ->
  let reply := announce_reply c a (to_be 4 tx) peers in
  len reply <= 308 /\
  announce_response reply tx (is_ipv6 (ip source))
    = Ok (mk_peers (announce_interval c a) (foldl push_peer [] peers) None).
Proof.
  intros Ht Hint Hl Hp Hf. cbv zeta. unfold announce_reply. rewrite append_compact_join.
  set (body := mjoin _).
  assert (length body <= 288)%nat as Hb.
  { unfold body. rewrite (length_join_const (stride (is_ipv6 (ip source)))).
    - rewrite length_fmap. unfold MAX_PEERS in Hl. destruct (is_ipv6 _); cbn [stride]; lia.
    - apply Forall_fmap. eapply Forall_impl; [exact Hf|]. intros p <-. apply length_compact_addr. }
  assert (len ((to_be 4 1 ++ to_be 4 tx ++ to_be 4 (announce_interval c a) ++ to_be 8 0) ++ body)
    = 20 + len body) as Hlen by (unfold len; rewrite !length_app, !length_to_be; lia).
  split; [rewrite Hlen; unfold len; lia|]. unfold announce_response. rewrite Hlen, <-!app_assoc.
  rewrite response_header_ok; [|lia|lia|done|unfold len; rewrite !length_app, !length_to_be; lia].
  cbn [mbind outcome_bind]. rewrite (proj2 (Z.leb_le 20 _)) by (unfold len; lia). cbn [ensure mbind outcome_bind].
  rewrite (be_at_sub _ (to_be 4 1 ++ to_be 4 tx) (to_be 4 (announce_interval c a)) (to_be 8 0 ++ body) 8 12);
    [|by rewrite <-!app_assoc|by rewrite length_app, !length_to_be|by rewrite length_to_be].
  rewrite of_to_be by (cbn; lia). cbn [mbind outcome_bind]. rewrite (proj2 (Z.ltb_lt 0 _)) by lia.
  cbn [ensure mbind outcome_bind].
  assert (drop 20 (to_be 4 1 ++ to_be 4 tx ++ to_be 4 (announce_interval c a) ++ to_be 8 0 ++ body) = body) as ->.
  { rewrite !app_assoc. apply drop_app_length'. by rewrite !length_app, !length_to_be. }
  unfold body. by rewrite compact_roundtrip.
Qed.

(** every stored address is one that [SocketAddr::new] made *)
Definition addresses_plain (s : Store) : Prop := forall h k e, find s h k = Some e -> plain_addr k.2.

Lemma udp_announce_served s s1 s2 a conn tx o target now k peers :
  store_ok s -> addresses_plain s -> announce_fits a -> is_u 64 conn -> is_u 32 tx ->
  0 < announce_interval c a < 2 ^ 32 ->
  url_data (udp a conn tx ++ o) = Ok target -> authorized hmac c (snd <$> split_once 63 target) = true ->
  cookie_valid hmac c source now conn = true ->
  admit_source s (ip source) now = (s1, true) ->
  announce c s1 a (ip source) (instant k) (elapsed k) (unix k) = (s2, Ok peers) ->
  response_bytes s2 + 308 <= 128 * 1024 ->
  exists s3 reply, udp_response hmac c s (udp a conn tx ++ o) source now k = (s3, Ok (Some reply)) /\
    announce_response reply tx (is_ipv6 (ip source))
      = Ok (mk_peers (announce_interval c a) (foldl push_peer [] peers) None).
Proof.
  intros Hs Hpl Ha Hc Ht Hi Hu Hau Hck Hadm Hann Hbytes.
  pose proof (admit_source_ok s (ip source) now Hs) as Hs1. rewrite Hadm in Hs1. cbn [fst] in Hs1.
  destruct (announce_peers _ _ _ _ _ _ _ _ _ Hs1 Hann) as [Hlen Hfrom].
  assert (swarms s1 = swarms s) as Hsw by (revert Hadm; unfold admit_source; repeat case_match; intros; by simplify_eq).
  destruct (announce_response_reply a tx peers Ht Hi Hlen) as [Hl Hr].
  { apply Forall_forall. intros p Hp. destruct (Hfrom p Hp) as (id & e & He & _).
    unfold find in He. rewrite Hsw in He. apply (Hpl (hash a) (id, p) e He). }
  { apply Forall_forall. intros p Hp. by destruct (Hfrom p Hp) as (id & e & _ & Hf). }
  pose proof (length_udp a conn tx Ha) as Hlu. unfold udp_response.
  assert (98 <= len (udp a conn tx ++ o)) as H98 by (rewrite len_app; unfold len; lia).
  rewrite (proj2 (Z.ltb_ge _ 16)), Hadm by lia. cbn [negb].
  set (b := udp a conn tx ++ o) in *.
  rewrite (take_prefix b (to_be 8 conn) (drop 8 (udp a conn tx) ++ o) 8); [|done|apply length_to_be].
  rewrite (sub_app b (to_be 8 conn) (to_be 4 1) (drop 12 (udp a conn tx) ++ o) 8 4); [|done..].
  rewrite (sub_app b (to_be 8 conn ++ to_be 4 1) (to_be 4 tx) (drop 16 (udp a conn tx) ++ o) 12 4);
    [|done|done|apply length_to_be].
  rewrite (of_to_be 8 conn) by done. change (of_be (to_be 4 1)) with 1. cbn [Z.eqb andb negb orb].
  rewrite (proj2 (Z.ltb_ge _ 98)), Hck, Hu, Hau by lia. cbn [negb orb]. unfold b at 1.
  rewrite read_announce_udp, Hann by done. unfold send_within, admit_response.
  rewrite (proj2 (Z.ltb_ge _ _)) by lia. eauto.
Qed.

(** the UDP protocol works end to end.  A client that connects reads the
    server's cookie from the reply, and its own address when it asked for an
    echo.  With that cookie, used in the same minute or one of the next two,
    its announce is understood field by field, URL data included, and answered,
    and the client reads from the answer the interval and exactly the usable
    addresses that the store selected, each once. *)
Theorem udp_exchange_correct (t now tx tx' : Z) (a : Announce) (target : list Z) :
  plain_addr source -> is_u 32 tx -> is_u 32 tx' -> announce_fits a -> 1 <= interval c <= 86400 ->
  utf8_valid target = true -> len target <= 1024 ->
  authorized hmac c (snd <$> split_once 63 target) = true ->
  0 <= t -> t / 60 <= now / 60 <= t / 60 + 2 ->
  (forall s k s' reply, udp_response hmac c s (connect_request tx) source t k = (s', Ok (Some reply)) ->
     connect_response reply tx = Ok (cookie hmac c source (t / 60))) /\
  (forall s k s' reply, udp_response hmac c s (echo_request tx) source t k = (s', Ok (Some reply)) ->
     connect_response reply tx = Ok (cookie hmac c source (t / 60)) /\ observed_connect reply = Ok (Some source)) /\
  exists datagram, append_url_data (udp a (cookie hmac c source (t / 60)) tx') target = Ok datagram /\
    forall s s1 s2 k peers, store_ok s -> addresses_plain s ->
      admit_source s (ip source) now = (s1, true) ->
      announce c s1 a (ip source) (instant k) (elapsed k) (unix k) = (s2, Ok peers) ->
      response_bytes s2 + 308 <= 128 * 1024 ->
      exists s3 reply, udp_response hmac c s datagram source now k = (s3, Ok (Some reply)) /\
        announce_response reply tx' (is_ipv6 (ip source))
          = Ok (mk_peers (announce_interval c a) (foldl push_peer [] peers) None).
Proof.
  intros Hsrc Ht Ht' Ha Hint Hu Hl Hau Ht0 Hw. split_and!.
  - intros s k s' reply H. rewrite <-(app_nil_r (connect_request tx)) in H.
    rewrite (connect_reply_sent _ _ _ _ _ _ _ Ht H). by apply connect_response_reply.
  - intros s k s' reply H. unfold echo_request in H. rewrite (connect_reply_sent _ _ _ _ _ _ _ Ht H).
    split; [by apply connect_response_reply|]. by apply observed_connect_reply, length_to_be.
  - destruct (url_data_append (udp a (cookie hmac c source (t / 60)) tx') target (length_udp _ _ _ Ha) Hu Hl)
      as (o & Ho & Hurl).
    exists (udp a (cookie hmac c source (t / 60)) tx' ++ o). split; [done|].
    intros s s1 s2 k peers Hs Hpl Hadm Hann Hb.
    apply (udp_announce_served s s1 s2 a _ tx' o target now k peers); try done; [apply cookie_range| |by apply cookie_valid_window].
    unfold announce_interval, IDLE_ANNOUNCE_INTERVAL_SECS. destruct (_ =? 2); lia.
Qed.

(** the tracker amplifies nothing for a source it has not verified, and
    shows peers only to one it has.  A UDP reply longer than its request, or
    one that is not to a connect, is given only to a datagram that carries a
    cookie made for its source in this minute or the two before, with URL data
    that holds the passkey where the server has one. *)
Theorem unverified_sources_not_amplified (s s' : Store) (packet : list Z) (now : Z) (k : Clock) (reply : list Z) :
  bytes_ok packet ->
  udp_response hmac c s packet source now k = (s', Ok (Some reply)) ->
  (of_be (take 8 packet) = CONNECT_MAGIC /\ swarms s' = swarms s /\ len reply <= len packet) \/
  (cookie_valid hmac c source now (of_be (take 8 packet)) = true /\
   exists target, url_data packet = Ok target /\ authorized hmac c (snd <$> split_once 63 target) = true).
Proof.
  intros Hb. unfold udp_response. destruct (len packet <? 16) eqn:E16; [done|]. bool_to_Z.
  destruct (admit_source s (ip source) now) as [s1 ad] eqn:Hadm. destruct ad; cbn [negb]; [|done].
  destruct (_ && _) eqn:Ec.
  - bool_to_Z. unfold send_within, admit_response. destruct (_ <? _); [done|].
    intros [= <- <-]. left. split_and!; [done| |].
    + revert Hadm. unfold admit_source. repeat case_match; intros; by simplify_eq.
    + unfold connect_reply, len in *. rewrite !length_app, !length_to_be, length_take, length_drop.
      destruct (_ && _) eqn:Ee; [|cbn [length]; lia]. bool_to_Z. rewrite !length_app, length_to_be, length_octets.
      change (length ECHO_MAGIC) with 4%nat. destruct (is_ipv4 _); cbn [length]; lia.
  - destruct (_ || _) eqn:Ev; [done|]. bool_to_Z.
    destruct (url_data packet) as [d|[]|] eqn:Eu; [|done..].
    destruct (negb (authorized _ _ _)) eqn:Eau; [done|]. bool_to_Z. intros _. right. eauto.
Qed.
End UdpExchange.

Lemma checksum_mac_bytes k m : bytes_ok (checksum_mac k m).
Proof. apply Forall_replicate. unfold is_byte. apply Z.mod_pos_bound. lia. Qed.

Lemma udp_exchange_correct_witness :
  let c := mk_server [1; 2] None 2 in
  let src := new (V4 0x01020304) 9 in
  exists s' reply, udp_response checksum_mac c (new_store 0) (echo_request 7) src 100 (mk_clock 1 1 1) = (s', Ok (Some reply)) /\
    connect_response reply 7 = Ok (cookie checksum_mac c src 1) /\ observed_connect reply = Ok (Some src).
Proof.
  cbv zeta. eexists _, _. split; [vm_compute; reflexivity|].
  destruct (udp_exchange_correct checksum_mac (fun k m => length_replicate 32 _) checksum_mac_bytes
    (mk_server [1; 2] None 2) (new (V4 0x01020304) 9) 100 150 7 8
    (mk_announce (replicate 20 1) (replicate 20 2) 3 80 2 1 16) (str "/announce"))
    as (_ & H & _); [(done || (vm_compute; done))..|].
  eapply (H (new_store 0) (mk_clock 1 1 1)). vm_compute. reflexivity.
Defined.

Lemma unverified_sources_not_amplified_witness :
  let c := mk_server [1; 2] None 2 in
  let src := new (V4 0x01020304) 9 in
  exists s' reply, udp_response checksum_mac c (new_store 0) (echo_request 7) src 100 (mk_clock 1 1 1) = (s', Ok (Some reply)) /\
    ((of_be (take 8 (echo_request 7)) = CONNECT_MAGIC /\ swarms s' = swarms (new_store 0) /\ len reply <= len (echo_request 7)) \/
     (cookie_valid checksum_mac c src 100 (of_be (take 8 (echo_request 7))) = true /\
      exists target, url_data (echo_request 7) = Ok target /\ authorized checksum_mac c (snd <$> split_once 63 target) = true)).
Proof.
  cbv zeta. eexists _, _. split; [vm_compute; reflexivity|].
  eapply (unverified_sources_not_amplified checksum_mac (mk_server [1; 2] None 2) (new (V4 0x01020304) 9)
    (new_store 0) _ (echo_request 7) 100 (mk_clock 1 1 1));
    [|vm_compute; reflexivity]. apply (bool_decide_unpack _). vm_compute. done.
Defined.
End TrackerServer.
