(* ===== verification/TrackerHttp.v ===== *)
(** * The two sides of the HTTP tracker protocol

    The query that [Announce::http_query] writes is read by the server's
    [parse_query], and the bencoded body the server writes is read by
    [wire::http_response]. *)
From stdpp Require Import base list gmap numbers strings.
From Stdlib Require Import ZArith Lia.
From S2P Require Import Prelude NetAddr TrackerWire TrackerServer.

Local Open Scope Z_scope.

Module TrackerHttp.
Import Text Net TrackerWire TrackerServer.

(** ** Queries *)
Lemma split_here c l r : c ∉ l -> split c (l ++ c :: r) = l :: split c r.
Proof.
  induction l as [|x l IH]; intros Hl; cbn [app split]; [by rewrite Z.eqb_refl|].
  apply not_elem_of_cons in Hl as [Hx Hl]. rewrite (proj2 (Z.eqb_neq _ _)) by congruence. by rewrite IH.
Qed.
Lemma split_last c l : c ∉ l -> split c l = [l].
Proof.
  induction l as [|x l IH]; intros Hl; cbn [split]; [done|].
  apply not_elem_of_cons in Hl as [Hx Hl]. rewrite (proj2 (Z.eqb_neq _ _)) by congruence. by rewrite IH.
Qed.
Lemma split_once_here c l r : c ∉ l -> split_once c (l ++ c :: r) = Some (l, r).
Proof.
  induction l as [|x l IH]; intros Hl; cbn [app split_once]; [by rewrite Z.eqb_refl|].
  apply not_elem_of_cons in Hl as [Hx Hl]. rewrite (proj2 (Z.eqb_neq _ _)) by congruence. by rewrite IH.
Qed.

(** text of digits and a sign *)
Definition numeral (s : list Z) : Prop := Forall (fun c => Decimal.is_digit c = true \/ c = 45) s.

Lemma numeral_print z : 0 <= z < 2 ^ 64 -> numeral (Decimal.print z).
Proof. intros Hz. destruct (Decimal.print_spec z Hz) as (_ & H & _). eapply Forall_impl; [exact H|]. tauto. Qed.
Lemma numeral_print_signed z : - 2 ^ 31 <= z < 2 ^ 31 -> numeral (Decimal.print_signed z).
Proof.
  intros Hz. unfold Decimal.print_signed. destruct (z <? 0) eqn:E; bool_to_Z; [|apply numeral_print; lia].
  constructor; [by right|]. apply numeral_print. lia.
Qed.
Lemma numeral_not_in c s : numeral s -> Decimal.is_digit c = false -> c <> 45 -> c ∉ s.
Proof. intros Hs Hd H45 Hc. unfold numeral in Hs. rewrite Forall_forall in Hs. destruct (Hs c Hc); congruence. Qed.

Lemma escape_chars l : bytes_ok l -> Forall (fun c => c = 37 \/ 48 <= c <= 57 \/ 65 <= c <= 70) (escape l).
Proof.
  assert (forall d, 0 <= d < 16 -> 48 <= hex_upper d <= 57 \/ 65 <= hex_upper d <= 70) as Hx.
  { intros d Hd. unfold hex_upper. destruct (d <? 10) eqn:E; bool_to_Z; lia. }
  induction 1 as [|b l Hb Hl IH]; [constructor|]. unfold is_byte in Hb.
  change (escape (b :: l)) with (37 :: hex_upper (b / 16) :: hex_upper (b mod 16) :: escape l).
  constructor; [by left|]. constructor.
  - right. apply Hx. split; [apply Z.div_pos; lia|apply Z.div_lt_upper_bound; lia].
  - constructor; [|done]. right. apply Hx, Z.mod_pos_bound. lia.
Qed.
Lemma escape_not_in c l : bytes_ok l -> c = 38 \/ c = 61 \/ c = 43 -> c ∉ escape l.
Proof. intros Hl Hc Hin. pose proof (escape_chars l Hl) as H. rewrite Forall_forall in H. specialize (H c Hin). lia. Qed.

Lemma plus_to_space_id s : 43 ∉ s -> plus_to_space s = s.
Proof.
  unfold plus_to_space. induction s as [|x s IH]; intros H; [done|]. apply not_elem_of_cons in H as [Hx Hs].
  rewrite fmap_cons, IH by done. by rewrite (proj2 (Z.eqb_neq _ _)) by congruence.
Qed.

Section Query.
Context {D : PercentDecode} {L : PercentDecodeLaws D}.

Lemma decode_escape l : bytes_ok l -> percent_decode (plus_to_space (escape l)) = l.
Proof.
  intros Hl. rewrite plus_to_space_id by (apply escape_not_in; auto).
  induction Hl as [|b l Hb Hl IH]; [apply percent_decode_nil|].
  change (escape (b :: l)) with (37 :: hex_upper (b / 16) :: hex_upper (b mod 16) :: escape l).
  by rewrite percent_decode_byte, IH.
Qed.

Lemma decode_plain s : 37 ∉ s -> 43 ∉ s -> percent_decode (plus_to_space s) = s.
Proof.
  intros H37 H43. rewrite plus_to_space_id by done. clear H43.
  induction s as [|x s IH]; [apply percent_decode_nil|]. apply not_elem_of_cons in H37 as [Hx Hs].
  by rewrite percent_decode_plain, IH.
Qed.

Lemma decode_numeral s : numeral s -> percent_decode (plus_to_space s) = s.
Proof. intros Hs. apply decode_plain; by apply (numeral_not_in _ s Hs). Qed.

Lemma query_fields_cons n v items f : 61 ∉ n -> f !! n = None ->
  query_fields ((n ++ 61 :: v) :: items) f = query_fields items (<[n := percent_decode (plus_to_space v)]> f).
Proof.
  intros Hn Hf. cbn [query_fields]. rewrite split_once_here by done. cbn [ok_or mbind outcome_bind].
  by rewrite bool_decide_true by done.
Qed.
End Query.


Lemma ascii_utf8 s : Forall (fun c => 0 <= c <= 127) s -> utf8_valid s = true.
Proof.
  induction 1 as [|c s Hc Hs IH]; [done|]. cbn [utf8_valid]. unfold in_range.
  rewrite (proj2 (Z.leb_le 0 c)), (proj2 (Z.leb_le c _)) by lia. done.
Qed.
Lemma from_utf8_numeral s : numeral s -> from_utf8 s = Some s.
Proof.
  intros Hs. unfold from_utf8. rewrite ascii_utf8; [done|]. eapply Forall_impl; [exact Hs|].
  intros c [Hc| ->]; [|lia]. unfold Decimal.is_digit in Hc. bool_to_Z. lia.
Qed.

Lemma read_print hi z : 0 <= z <= hi -> z < 2 ^ 64 -> Decimal.read hi 0 (Decimal.print z) = Some z.
Proof.
  intros Hz H64. destruct (Decimal.print_spec z) as (_ & Hd & Hv & _); [lia|].
  rewrite Decimal.read_value, Hv; [done|lia|done|lia].
Qed.
Lemma parse_print_signed w z : 1 <= w <= 64 -> - 2 ^ (w - 1) <= z < 2 ^ (w - 1) ->
  Decimal.parse_i w (Decimal.print_signed z) = Some z.
Proof.
  intros Hw Hz. assert (2 ^ (w - 1) <= 2 ^ 63) by (apply Z.pow_le_mono_r; lia).
  assert (2 ^ 63 < 2 ^ 64) by done. unfold Decimal.print_signed. destruct (z <? 0) eqn:E; bool_to_Z.
  - destruct (Decimal.print_head_digit (- z)) as (c & l & Hp & Hc); [lia|].
    cbn [Decimal.parse_i]. change ((45 =? 43) || (45 =? 45)) with true. cbv iota. rewrite Hp.
    change (45 =? 43) with false. cbv iota. rewrite <-Hp, read_print by lia. cbn. f_equal. lia.
  - destruct (Decimal.print_head_digit z) as (c & l & Hp & Hc); [lia|].
    unfold Decimal.parse_i. rewrite Hp. unfold Decimal.is_digit in Hc. bool_to_Z.
    rewrite (proj2 (Z.eqb_neq c 43)), (proj2 (Z.eqb_neq c 45)) by lia. cbn [orb]. rewrite <-Hp. apply read_print; lia.
Qed.

Lemma length_print z : 0 <= z < 2 ^ 64 -> (length (Decimal.print z) <= 20)%nat.
Proof.
  intros Hz. unfold Decimal.print. destruct (Decimal.digits_spec 20 z []) as (l & -> & _ & _ & _ & _ & Hl);
    [cbn in *; lia|lia|by constructor|]. by rewrite app_nil_r.
Qed.
Lemma length_print_signed z : - 2 ^ 31 <= z < 2 ^ 31 -> (length (Decimal.print_signed z) <= 21)%nat.
Proof.
  intros Hz. unfold Decimal.print_signed. destruct (z <? 0) eqn:E; bool_to_Z; cbn [length].
  - pose proof (length_print (- z) ltac:(lia)). lia.
  - pose proof (length_print z ltac:(lia)). lia.
Qed.
Lemma length_escape l : length (escape l) = (3 * length l)%nat.
Proof.
  induction l as [|b l IH]; [done|].
  change (escape (b :: l)) with (37 :: hex_upper (b / 16) :: hex_upper (b mod 16) :: escape l). cbn [length]. lia.
Qed.

(** a field of a query *)
Definition field (n : string) (v : list Z) : list Z := str n ++ 61 :: v.
Definition event_text (ev : Z) : list Z :=
  if ev =? 2 then str "started" else if ev =? 3 then str "stopped" else [].

Lemma http_query_fields a : http_query a =
  field "info_hash" (escape (hash a)) ++ 38 :: field "peer_id" (escape (peer a)) ++ 38 ::
  field "port" (Decimal.print (a_port a)) ++ 38 :: field "key" (Decimal.print (key a)) ++ 38 ::
  field "uploaded" (str "0") ++ 38 :: field "downloaded" (str "0") ++ 38 ::
  field "left" (Decimal.print (a_left a)) ++ 38 :: field "compact" (str "1") ++ 38 ::
  field "numwant" (Decimal.print_signed (numwant a)) ++ 38 :: field "event" (event_text (event a)).
Proof. reflexivity. Qed.

Lemma split_field n v r : 38 ∉ str n -> 38 ∉ v -> split 38 (field n v ++ 38 :: r) = field n v :: split 38 r.
Proof. intros Hn Hv. apply split_here. unfold field. rewrite elem_of_app, elem_of_cons. intros [?|[?|?]]; done. Qed.

(** membership of a character in a literal, by evaluation *)
Ltac lit_not_in := apply (bool_decide_unpack _); vm_compute; exact I.

(** the lookups of a map of literal keys *)
Ltac lookup_literals :=
  repeat first
    [ rewrite lookup_insert_eq
    | rewrite lookup_insert_ne by (vm_compute; congruence)
    | rewrite lookup_empty ].

Lemma event_text_spec ev : ev = 0 \/ ev = 2 \/ ev = 3 ->
  (38 ∉ event_text ev) /\ (37 ∉ event_text ev) /\ (43 ∉ event_text ev) /\ parse_event (event_text ev) = Ok ev.
Proof. intros [->|[->| ->]]; (split_and!; [lit_not_in..|reflexivity]). Qed.

Lemma parse_http_query {D : PercentDecode} {L : PercentDecodeLaws D} a :
  announce_fits a -> bytes_ok (hash a) -> bytes_ok (peer a) -> event a = 0 \/ event a = 2 \/ event a = 3 ->
  parse_query (http_query a)
    = Ok (mk_announce (hash a) (peer a) 0 (a_port a) (event a) (a_left a) (numwant a)).
Proof.
  intros (Hh & Hp & Hk & Hpt & _ & Hl & Hn) Bh Bp He.
  assert (forall w z, w <= 64 -> is_u w z -> 0 <= z < 2 ^ 64) as Hw by (intros w z ? H; by apply (is_u_mono w 64)).
  pose proof (numeral_print _ (Hw 16 _ ltac:(lia) Hpt)) as Npt. pose proof (numeral_print _ (Hw 32 _ ltac:(lia) Hk)) as Nk.
  pose proof (numeral_print _ (Hw 64 _ ltac:(lia) Hl)) as Nl. pose proof (numeral_print_signed _ Hn) as Nn.
  destruct (event_text_spec (event a) He) as (E38 & E37 & E43 & Eev).
  assert (len (http_query a) <= 4096) as Hlen.
  { pose proof (length_print _ (Hw 16 _ ltac:(lia) Hpt)). pose proof (length_print _ (Hw 32 _ ltac:(lia) Hk)).
    pose proof (length_print _ (Hw 64 _ ltac:(lia) Hl)). pose proof (length_print_signed _ Hn).
    assert (length (event_text (event a)) <= 7)%nat by (by destruct He as [->|[->| ->]]; cbn; lia).
    rewrite http_query_fields. unfold field, len.
    repeat (rewrite length_app; cbn [length str]). rewrite !length_escape, Hh, Hp. cbn [length]. lia. }
  unfold parse_query. rewrite (proj2 (Z.leb_le _ _)) by done. cbn [ensure mbind outcome_bind].
  rewrite http_query_fields.
  do 9 (rewrite split_field; [|lit_not_in|
    lazymatch goal with
    | |- _ ∉ str _ => lit_not_in
    | |- _ ∉ escape _ => apply escape_not_in; auto
    | |- _ => apply numeral_not_in; [assumption|reflexivity|discriminate]
    end]).
  rewrite split_last by (unfold field; rewrite elem_of_app, elem_of_cons; intros [H|[H|H]]; [revert H; lit_not_in|done|done]).
  unfold field. do 10 (rewrite query_fields_cons; [|lit_not_in|lookup_literals; reflexivity]). cbn [query_fields mbind outcome_bind].
  rewrite (decode_plain (event_text _)) by assumption.
  rewrite !decode_escape, !decode_numeral by (assumption || (unfold numeral; forall_list; by left)).
  lookup_literals. cbn [ok_or mbind outcome_bind default option_bind number_or]. unfold as_id.
  rewrite Hh, Hp, !from_utf8_numeral by assumption. rewrite bool_decide_true by done. cbn [ensure mbind outcome_bind option_bind].
  rewrite !Decimal.parse_print by (done || lia). cbn [ok_or mbind outcome_bind]. cbn [default from_option]. unfold id. rewrite Eev.
  cbn [mbind outcome_bind]. rewrite parse_print_signed by (done || lia). done.
Qed.

(** ** Bencoded bodies *)
Lemma peek_app pre c rest : peek (pre ++ c :: rest) (length pre) = Ok c.
Proof. unfold peek. by rewrite list_lookup_middle. Qed.

Lemma digits_end_app ds : forall fuel pre c rest, Forall (fun d => Decimal.is_digit d = true) ds ->
  Decimal.is_digit c = false -> (length ds < fuel)%nat ->
  digits_end fuel (pre ++ ds ++ c :: rest) (length pre) = Ok (length pre + length ds)%nat.
Proof.
  induction ds as [|d ds IH]; intros fuel pre c rest Hd Hc Hf; (destruct fuel as [|fuel]; [cbn in Hf; lia|]).
  - cbn [digits_end app]. rewrite peek_app. cbn [mbind outcome_bind]. rewrite Hc. f_equal. cbn. lia.
  - apply Forall_cons_iff in Hd as [Hd Hds]. cbn [digits_end app]. rewrite peek_app. cbn [mbind outcome_bind]. rewrite Hd.
    specialize (IH fuel (pre ++ [d]) c rest Hds Hc ltac:(cbn in Hf; lia)).
    rewrite <-app_assoc, length_app in IH. cbn [app length] in IH.
    rewrite Nat.add_1_r in IH. rewrite IH. f_equal. cbn. lia.
Qed.

Lemma find_e_app ds : forall fuel pre rest, 101 ∉ ds -> (length ds < fuel)%nat ->
  find_e fuel (pre ++ ds ++ 101 :: rest) (length pre) = Ok (length pre + length ds)%nat.
Proof.
  induction ds as [|d ds IH]; intros fuel pre rest Hd Hf; (destruct fuel as [|fuel]; [cbn in Hf; lia|]).
  - cbn [find_e app]. rewrite peek_app. cbn [mbind outcome_bind]. f_equal. cbn. lia.
  - apply not_elem_of_cons in Hd as [Hd Hds]. cbn [find_e app]. rewrite peek_app. cbn [mbind outcome_bind].
    rewrite (proj2 (Z.eqb_neq d 101)) by congruence.
    specialize (IH fuel (pre ++ [d]) rest Hds ltac:(cbn in Hf; lia)).
    rewrite <-app_assoc, length_app in IH. cbn [app length] in IH.
    rewrite Nat.add_1_r in IH. rewrite IH. f_equal. cbn. lia.
Qed.

(** a bencoded string is read back *)
Lemma bstring_app pre v rest : len (pre ++ bencode_string v ++ rest) < 2 ^ 63 ->
  bstring (pre ++ bencode_string v ++ rest) (length pre) = Ok (v, length (pre ++ bencode_string v)).
Proof.
  intros Hl. unfold bencode_string in *. set (ds := Decimal.print (len v)) in *.
  assert (0 <= len v < 2 ^ 63) as Hv.
  { unfold len in *. rewrite !length_app in Hl. cbn [length] in Hl. lia. }
  destruct (Decimal.print_spec (len v)) as (Hne & Hd & _); [lia|]. fold ds in Hne, Hd.
  assert (0 < length ds)%nat as Hpos by (destruct ds; [done|cbn; lia]).
  rewrite <-app_assoc in *. cbn [app] in *. unfold bstring.
  rewrite digits_end_app; [|done|done|rewrite !length_app; lia]. cbn [mbind outcome_bind].
  assert (pre ++ ds ++ 58 :: v ++ rest = (pre ++ ds) ++ 58 :: v ++ rest) as E by (by rewrite <-app_assoc).
  rewrite E at 1. rewrite <-length_app at 1. rewrite peek_app. cbn [mbind outcome_bind].
  rewrite Z.eqb_refl, bool_decide_true by lia. cbn [andb ensure mbind outcome_bind].
  rewrite get_range_app by done. cbn [unwrap mbind outcome_bind].
  rewrite from_utf8_numeral by (apply numeral_print; lia). cbn [option_bind mbind ok_or].
  assert (Decimal.parse_u 64 ds = Some (len v)) as -> by (apply Decimal.parse_print; lia).
  cbn [ok_or mbind outcome_bind].
  rewrite checked_add_small by (unfold len in *; rewrite !length_app in Hl; cbn [length] in Hl; lia).
  cbn [ok_or mbind outcome_bind].
  rewrite (proj2 (Z.leb_le _ _)) by (unfold len; rewrite !length_app; cbn [length]; rewrite !length_app; lia).
  replace (Z.to_nat (Z.of_nat (S (length pre + length ds)) + len v)) with (S (length pre + length ds) + length v)%nat
    by (unfold len; lia).
  replace (pre ++ ds ++ 58 :: v ++ rest) with ((pre ++ ds ++ [58]) ++ v ++ rest) by (by rewrite <-!app_assoc).
  rewrite get_range_app; [|rewrite !length_app; cbn; lia|done]. cbn [ok_or mbind outcome_bind].
  do 2 f_equal. rewrite !length_app. cbn [length]. lia.
Qed.

(** and so is an integer *)
Lemma integer_app pre z rest : 0 <= z < 2 ^ 63 ->
  integer (pre ++ 105 :: Decimal.print z ++ 101 :: rest) (length pre)
    = Ok (z, length (pre ++ 105 :: Decimal.print z ++ [101])).
Proof.
  intros Hz. set (ds := Decimal.print z).
  destruct (Decimal.print_spec z) as (Hne & Hd & _); [lia|]. fold ds in Hne, Hd.
  unfold integer. rewrite peek_app. cbn [mbind outcome_bind]. rewrite Z.eqb_refl. cbn [ensure mbind outcome_bind].
  replace (pre ++ 105 :: ds ++ 101 :: rest) with ((pre ++ [105]) ++ ds ++ 101 :: rest) by (by rewrite <-app_assoc).
  replace (S (length pre)) with (length (pre ++ [105])) by (rewrite length_app; cbn; lia).
  rewrite find_e_app; [|apply numeral_not_in; [apply numeral_print; lia|done..]|rewrite !length_app; lia].
  cbn [mbind outcome_bind]. rewrite get_range_app by done. cbn [unwrap mbind outcome_bind].
  rewrite from_utf8_numeral by (apply numeral_print; lia). cbn [option_bind mbind].
  replace (Decimal.parse_i 64 ds) with (Some z).
  2: { symmetry. unfold ds. rewrite <-(parse_print_signed 64 z) by lia. unfold Decimal.print_signed.
       by rewrite (proj2 (Z.ltb_ge z 0)) by lia. }
  cbn [ok_or mbind outcome_bind]. do 2 f_equal. rewrite !length_app. cbn [length]. rewrite length_app. cbn [length]. lia.
Qed.

Lemma peek_bencode pre v rest : exists c, peek (pre ++ bencode_string v ++ rest) (length pre) = Ok c /\ Decimal.is_digit c = true.
Proof.
  unfold bencode_string. assert (exists d ds, Decimal.print (len v) = d :: ds /\ Decimal.is_digit d = true) as (d & ds & -> & Hd).
  { unfold Decimal.print. cbn [Decimal.digits]. assert (forall fuel z acc d ds, acc = d :: ds -> Decimal.is_digit d = true ->
      exists d ds, Decimal.digits fuel z acc = d :: ds /\ Decimal.is_digit d = true) as H.
    { induction fuel as [|fuel IH]; intros z acc d ds Ha Hd; cbn [Decimal.digits]; [eauto|].
      assert (Decimal.is_digit (48 + z mod 10) = true) as Hz.
      { unfold Decimal.is_digit. pose proof (Z.mod_pos_bound z 10 ltac:(lia)). apply andb_true_iff. split; apply Z.leb_le; lia. }
      destruct (_ =? 0); [eauto|]. by eapply IH. }
    assert (Decimal.is_digit (48 + len v mod 10) = true) as Hz.
    { unfold Decimal.is_digit. pose proof (Z.mod_pos_bound (len v) 10 ltac:(lia)). apply andb_true_iff. split; apply Z.leb_le; lia. }
    destruct (_ =? 0); [eauto|]. by eapply (H 19%nat). }
  exists d. split; [|done]. rewrite <-app_assoc. apply peek_app.
Qed.

Section Body.
Context (bytes : list Z).
Hypothesis small : len bytes < 2 ^ 63.

(** a field that begins here is parsed by [http_field] *)
Lemma http_fields_step fuel pre k rest l l' o :
  bytes = pre ++ bencode_string k ++ rest -> http_field bytes l (length pre) = Ok (l', o) ->
  http_fields (S fuel) bytes l (length pre) = http_fields fuel bytes l' o.
Proof.
  intros Hb Hf. cbn [http_fields]. destruct (peek_bencode pre k rest) as (c & Hc & Hd). rewrite <-Hb in Hc.
  rewrite Hc. cbn [mbind outcome_bind]. unfold Decimal.is_digit in Hd. bool_to_Z.
  rewrite (proj2 (Z.eqb_neq c 101)) by lia. by rewrite Hf.
Qed.

Lemma bstring_here pre v rest : bytes = pre ++ bencode_string v ++ rest ->
  bstring bytes (length pre) = Ok (v, length (pre ++ bencode_string v)).
Proof. intros Hb. rewrite Hb. apply bstring_app. by rewrite <-Hb. Qed.

Lemma interval_field pre z rest l : bytes = pre ++ bencode_string (str "interval") ++ 105 :: Decimal.print z ++ 101 :: rest ->
  0 <= z < 2 ^ 32 ->
  http_field bytes l (length pre) = Ok (mk_locals (Some z) (minimum l) (l_addresses l) (l_observed l),
    length (pre ++ bencode_string (str "interval") ++ 105 :: Decimal.print z ++ [101])).
Proof.
  intros Hb Hz. unfold http_field. rewrite (bstring_here pre (str "interval") _ Hb). cbn [mbind outcome_bind].
  rewrite (bool_decide_false (str "interval" = str "failure reason")) by done.
  rewrite (bool_decide_true (str "interval" = str "interval")) by done.
  assert (bytes = (pre ++ bencode_string (str "interval")) ++ 105 :: Decimal.print z ++ 101 :: rest) as Hb'
    by (rewrite Hb; by rewrite <-app_assoc).
  rewrite Hb' at 1. rewrite integer_app by lia. cbn [mbind outcome_bind]. unfold try_u32.
  rewrite (proj2 (Z.leb_le 0 z)), (proj2 (Z.ltb_lt z _)) by lia. cbn [andb mbind outcome_bind]. by rewrite <-app_assoc.
Qed.

Lemma observed_field pre v a rest l : bytes = pre ++ bencode_string (str "lt_observed") ++ bencode_string v ++ rest ->
  (t ← from_utf8 v; parse_addr t) = Some a ->
  http_field bytes l (length pre) = Ok (mk_locals (l_interval l) (minimum l) (l_addresses l) (Some a),
    length (pre ++ bencode_string (str "lt_observed") ++ bencode_string v)).
Proof.
  intros Hb Ha. unfold http_field. rewrite (bstring_here pre (str "lt_observed") _ Hb). cbn [mbind outcome_bind].
  do 5 rewrite bool_decide_false by done. rewrite bool_decide_true by done.
  rewrite (bstring_here (pre ++ bencode_string (str "lt_observed")) v rest) by (rewrite Hb; by rewrite <-app_assoc).
  cbn [mbind outcome_bind]. cbn [mbind] in Ha. rewrite Ha. cbn [ok_or mbind outcome_bind]. by rewrite <-app_assoc.
Qed.

Lemma peers_field pre v ps rest l : bytes = pre ++ bencode_string (str "peers") ++ bencode_string v ++ rest ->
  compact v false = Ok ps ->
  http_field bytes l (length pre) = Ok (mk_locals (l_interval l) (minimum l) (l_addresses l ++ ps) (l_observed l),
    length (pre ++ bencode_string (str "peers") ++ bencode_string v)).
Proof.
  intros Hb Hc. unfold http_field. rewrite (bstring_here pre (str "peers") _ Hb). cbn [mbind outcome_bind].
  do 3 rewrite bool_decide_false by done. rewrite bool_decide_true by done.
  assert (bytes = (pre ++ bencode_string (str "peers")) ++ bencode_string v ++ rest) as Hb' by (rewrite Hb; by rewrite <-app_assoc).
  unfold bpeers. destruct (peek_bencode (pre ++ bencode_string (str "peers")) v rest) as (c & Hpk & Hd).
  rewrite <-Hb' in Hpk. rewrite Hpk. cbn [mbind outcome_bind]. unfold Decimal.is_digit in Hd. bool_to_Z.
  rewrite (proj2 (Z.eqb_neq c 108)) by lia. cbn [negb]. rewrite (bstring_here _ v rest Hb'). cbn [mbind outcome_bind].
  rewrite Hc. cbn [mbind outcome_bind]. by rewrite <-app_assoc.
Qed.

Lemma peers6_field pre v ps rest l : bytes = pre ++ bencode_string (str "peers6") ++ bencode_string v ++ rest ->
  compact v true = Ok ps ->
  http_field bytes l (length pre) = Ok (mk_locals (l_interval l) (minimum l) (l_addresses l ++ ps) (l_observed l),
    length (pre ++ bencode_string (str "peers6") ++ bencode_string v)).
Proof.
  intros Hb Hc. unfold http_field. rewrite (bstring_here pre (str "peers6") _ Hb). cbn [mbind outcome_bind].
  do 4 rewrite bool_decide_false by done. rewrite bool_decide_true by done.
  rewrite (bstring_here (pre ++ bencode_string (str "peers6")) v rest) by (rewrite Hb; by rewrite <-app_assoc).
  cbn [mbind outcome_bind]. rewrite Hc. cbn [mbind outcome_bind]. by rewrite <-app_assoc.
Qed.
End Body.

(** ** Sizes *)
Lemma length_digits fuel : forall z acc, (length (Decimal.digits fuel z acc) <= fuel + length acc)%nat.
Proof.
  induction fuel as [|fuel IH]; intros z acc; cbn [Decimal.digits]; [lia|].
  destruct (_ =? 0); [cbn; lia|]. etransitivity; [apply IH|]. cbn [length]. lia.
Qed.
Lemma length_hex fuel : forall z acc, (length (hex fuel z acc) <= fuel + length acc)%nat.
Proof.
  induction fuel as [|fuel IH]; intros z acc; cbn [hex]; [lia|].
  destruct (_ =? 0); [cbn; lia|]. etransitivity; [apply IH|]. cbn [length]. lia.
Qed.
Lemma length_print_any z : (length (Decimal.print z) <= 20)%nat.
Proof. apply (length_digits 20 z []). Qed.

Lemma length_print_groups gs : (length (print_groups gs) <= 5 * length gs)%nat.
Proof.
  induction gs as [|g gs IH]; [done|]. pose proof (length_hex 4 g []) as H. cbn [length] in H.
  destruct gs as [|g' gs]; [cbn [print_groups]; unfold print_group; cbn [length]; lia|].
  change (print_groups (g :: g' :: gs)) with (print_group g ++ 58 :: print_groups (g' :: gs)).
  rewrite length_app. unfold print_group. cbn [length] in *. lia.
Qed.

Lemma length_print_addr s : (length (print_addr s) <= 200)%nat.
Proof.
  assert (forall a, length (print_ipv4 a) <= 83)%nat as H4.
  { intros a. unfold print_ipv4. repeat (rewrite length_app; cbn [length]).
    pose proof (length_print_any (a / 2 ^ 24)). pose proof (length_print_any (a / 2 ^ 16 mod 256)).
    pose proof (length_print_any (a / 2 ^ 8 mod 256)). pose proof (length_print_any (a mod 256)). lia. }
  assert (forall a, length (print_ipv6 a) <= 90)%nat as H6.
  { intros a. unfold print_ipv6. destruct (to_ipv4_mapped a) as [v|].
    - rewrite length_app. pose proof (H4 v). change (length (str "::ffff:")) with 7%nat. lia.
    - assert (length (groups a) = 8%nat) as Hg by done. destruct (longest_run _ _ _ _) as [st n]. case_bool_decide.
      + rewrite !length_app. pose proof (length_print_groups (take st (groups a))) as H1.
        pose proof (length_print_groups (drop (st + n) (groups a))) as H2.
        rewrite length_take in H1. rewrite length_drop in H2. cbn [length]. lia.
      + pose proof (length_print_groups (groups a)). lia. }
  pose proof (length_print_any (port s)). pose proof (length_print_any (scope_id s)).
  unfold print_addr. destruct (ip s) as [a|a].
  - rewrite length_app. cbn [length]. pose proof (H4 a). lia.
  - cbn [length]. rewrite !length_app. pose proof (H6 a). destruct (_ =? 0); cbn [length]; lia.
Qed.

Lemma length_bencode v : (length v <= 400 -> length (bencode_string v) <= 421)%nat.
Proof. intros H. unfold bencode_string. rewrite length_app. cbn [length]. pose proof (length_print_any (len v)). lia. Qed.

(** the addresses of a family in compact form *)
Lemma compact_family peers b : Forall plain_addr peers ->
  compact (foldl append_compact [] (filter (fun p => is_ipv4 (ip p) = negb b) peers)) b
    = Ok (foldl push_peer [] (filter (fun p => is_ipv4 (ip p) = negb b) peers)).
Proof.
  intros Hp. rewrite append_compact_join. apply compact_roundtrip.
  - apply Forall_forall. intros p [_ Hin]%list_elem_of_filter. rewrite Forall_forall in Hp. by apply Hp.
  - apply Forall_forall. intros p [Hf _]%list_elem_of_filter. unfold is_ipv6. rewrite Hf. apply negb_involutive.
Qed.

Lemma length_compact_family peers f `{forall p, Decision (f p)} : (length peers <= MAX_PEERS)%nat ->
  (length (foldl append_compact [] (filter f peers)) <= 288)%nat.
Proof.
  intros Hl. rewrite append_compact_join. cbn [app].
  assert (forall l, length (mjoin (compact_addr <$> l)) <= 18 * length l)%nat as Hj.
  { induction l as [|p l IH]; [done|]. change (mjoin (compact_addr <$> p :: l)) with (compact_addr p ++ mjoin (compact_addr <$> l)).
    rewrite length_app, length_compact_addr. cbn [length]. destruct (is_ipv6 (ip p)); cbn [stride]; lia. }
  pose proof (Hj (filter f peers)). pose proof (length_filter f peers). unfold MAX_PEERS in Hl. lia.
Qed.

(** the address the reply shows, when it was asked for *)
Definition observed_of (source : SocketAddr) (q : list Z) : option SocketAddr :=
  if negb (port source =? 0) && bool_decide (str "lt_observe=1" ∈ split 38 q) then Some source else None.

Lemma http_body_fields c a source q peers :
  http_body c a source q peers =
  [100] ++ bencode_string (str "interval") ++ 105 :: Decimal.print (announce_interval c a) ++ 101 ::
  (match observed_of source q with
   | Some s => bencode_string (str "lt_observed") ++ bencode_string (print_addr s) | None => [] end) ++
  bencode_string (str "peers") ++
  bencode_string (foldl append_compact [] (filter (fun p => is_ipv4 (ip p) = true) (take MAX_PEERS peers))) ++
  bencode_string (str "peers6") ++
  bencode_string (foldl append_compact [] (filter (fun p => is_ipv4 (ip p) = false) (take MAX_PEERS peers))) ++ [101].
Proof. unfold http_body, observed_of. destruct (_ && _); reflexivity. Qed.

Lemma push_peers_spec l p : (length l <= MAX_PEERS)%nat ->
  p ∈ foldl push_peer [] l <-> p ∈ l /\ unusable p = false.
Proof.
  intros Hl. enough (forall acc, (length acc + length l <= MAX_PEERS)%nat ->
    p ∈ foldl push_peer acc l <-> p ∈ acc \/ (p ∈ l /\ unusable p = false)) as H.
  { rewrite H by (cbn; lia). set_solver. }
  clear Hl. induction l as [|x l IH]; intros acc Hl; [set_solver|]. cbn [foldl length] in *.
  assert (p ∈ push_peer acc x <-> p ∈ acc \/ (p = x /\ unusable x = false)) as Hpp.
  { unfold push_peer. rewrite bool_decide_true by lia. cbn [andb].
    destruct (unusable x); cbn [negb andb]; [split; [tauto|intros [?|[_ ?]]; done]|].
    case_bool_decide as Hin; cbn [negb].
    - split; [tauto|]. intros [?|[-> _]]; done.
    - rewrite elem_of_app, list_elem_of_singleton. tauto. }
  rewrite IH, Hpp, elem_of_cons.
  - split; [intros [[?|[-> ?]]|[? ?]]; tauto|]. intros [?|[[->|?] ?]]; tauto.
  - unfold push_peer. destruct (_ && _); rewrite ?length_app; cbn [length]; lia.
Qed.

Lemma http_body_length c a source q peers : len (http_body c a source q peers) <= MAX_RESPONSE.
Proof.
  rewrite http_body_fields. assert (length (take MAX_PEERS peers) <= MAX_PEERS)%nat as Ht by (rewrite length_take; lia).
  pose proof (length_bencode _ (Nat.le_trans _ _ 400 (length_compact_family _ (fun p => is_ipv4 (ip p) = true) Ht) ltac:(lia))).
  pose proof (length_bencode _ (Nat.le_trans _ _ 400 (length_compact_family _ (fun p => is_ipv4 (ip p) = false) Ht) ltac:(lia))).
  pose proof (length_print_any (announce_interval c a)). pose proof (length_print_addr source).
  pose proof (length_bencode (print_addr source) ltac:(lia)). unfold MAX_RESPONSE, len.
  assert (forall s : string, length (str s) <= 400 -> length (bencode_string (str s)) <= 421)%nat as Hs
    by (intros; by apply length_bencode).
  pose proof (Hs "interval" ltac:(vm_compute; lia)). pose proof (Hs "lt_observed" ltac:(vm_compute; lia)).
  pose proof (Hs "peers" ltac:(vm_compute; lia)). pose proof (Hs "peers6" ltac:(vm_compute; lia)).
  unfold observed_of. rewrite length_app, length_app. cbn [length]. rewrite length_app. cbn [length].
  destruct (_ && bool_decide (str "lt_observe=1" ∈ _)); rewrite !length_app; cbn [length]; lia.
Qed.

Section Reply.
Context (bytes : list Z).
Hypothesis small : len bytes < 2 ^ 63.

(** both peer lists and the end *)
Lemma peers_tail fuel pre v4 v6 ps4 ps6 l :
  bytes = pre ++ bencode_string (str "peers") ++ bencode_string v4 ++ bencode_string (str "peers6") ++ bencode_string v6 ++ [101] ->
  compact v4 false = Ok ps4 -> compact v6 true = Ok ps6 ->
  http_fields (S (S (S fuel))) bytes l (length pre) =
    Ok (mk_locals (l_interval l) (minimum l) ((l_addresses l ++ ps4) ++ ps6) (l_observed l), length bytes).
Proof.
  intros Hb H4 H6.
  rewrite (http_fields_step bytes _ _ (str "peers") _ _ _ _ Hb (peers_field bytes small _ _ _ _ _ Hb H4)).
  set (pre3 := pre ++ bencode_string (str "peers") ++ bencode_string v4).
  assert (bytes = pre3 ++ bencode_string (str "peers6") ++ bencode_string v6 ++ [101]) as Hb3
    by (rewrite Hb; unfold pre3; by rewrite <-!app_assoc).
  rewrite (http_fields_step bytes _ _ (str "peers6") _ _ _ _ Hb3 (peers6_field bytes small _ _ _ _ _ Hb3 H6)).
  cbn [l_interval minimum l_addresses l_observed http_fields].
  set (pre4 := pre3 ++ bencode_string (str "peers6") ++ bencode_string v6).
  assert (bytes = pre4 ++ 101 :: []) as Hb4 by (rewrite Hb3; unfold pre4; by rewrite <-!app_assoc).
  rewrite Hb4 at 1. rewrite peek_app. cbn [mbind outcome_bind]. rewrite Z.eqb_refl.
  do 2 f_equal. rewrite Hb4, (length_app _ [101]). cbn [length]. lia.
Qed.

Definition observed_text (o : option SocketAddr) : list Z :=
  match o with Some s => bencode_string (str "lt_observed") ++ bencode_string (print_addr s) | None => [] end.

(** the observed address, if there is one, and what follows *)
Lemma observed_step fuel pre o rest l r :
  bytes = pre ++ observed_text o ++ rest -> l_observed l = None ->
  (forall s, o = Some s -> (t ← from_utf8 (print_addr s); parse_addr t) = Some s) ->
  (forall m, http_fields (S (S (S m))) bytes (mk_locals (l_interval l) (minimum l) (l_addresses l) o)
     (length (pre ++ observed_text o)) = r) ->
  http_fields (S (S (S (S fuel)))) bytes l (length pre) = r.
Proof.
  intros Hb Hl Ho Hr. destruct o as [s|]; cbn [observed_text] in *.
  - rewrite <-app_assoc in Hb.
    rewrite (http_fields_step bytes _ _ (str "lt_observed") _ _ _ _ Hb (observed_field bytes small _ _ s _ _ Hb (Ho s eq_refl))).
    apply Hr.
  - rewrite app_nil_r in Hr. rewrite <-(Hr (S fuel)). destruct l. cbn [l_interval minimum l_addresses l_observed] in *. by subst.
Qed.
End Reply.

Lemma http_body_read c a source q peers :
  0 < announce_interval c a < 2 ^ 32 -> Forall plain_addr peers -> (length peers <= MAX_PEERS)%nat ->
  (forall s, observed_of source q = Some s -> (t ← from_utf8 (print_addr s); parse_addr t) = Some s) ->
  http_response (http_body c a source q peers) = Ok (mk_peers (announce_interval c a)
    (take MAX_PEERS (dedup (sort (foldl push_peer [] (filter (fun p => is_ipv4 (ip p) = true) peers) ++
                                  foldl push_peer [] (filter (fun p => is_ipv4 (ip p) = false) peers)))))
    (observed_of source q)).
Proof.
  intros Hi Hp Hl Hobs. pose proof (http_body_length c a source q peers) as Hlen.
  pose proof (http_body_fields c a source q peers) as Hb. rewrite take_ge in Hb by done. fold (observed_text (observed_of source q)) in Hb.
  set (body := http_body c a source q peers) in *. clearbody body.
  assert (len body < 2 ^ 63) as Hsmall by (unfold MAX_RESPONSE in Hlen; lia).
  pose proof (compact_family peers false Hp) as H4. pose proof (compact_family peers true Hp) as H6. cbn [negb] in H4, H6.
  set (pre1 := [100] ++ bencode_string (str "interval") ++ 105 :: Decimal.print (announce_interval c a) ++ [101]).
  assert (exists n, length body = S (S (S (S n)))) as [n Hn].
  { exists (length body - 4)%nat. rewrite Hb, 2 length_app. change (length (bencode_string (str "interval"))) with 10%nat. lia. }
  unfold http_response. rewrite (proj2 (Z.leb_le _ _)) by done. cbn [ensure mbind outcome_bind].
  assert (peek body 0 = Ok 100) as -> by (rewrite Hb; reflexivity). cbn [mbind outcome_bind].
  rewrite Z.eqb_refl. cbn [ensure mbind outcome_bind].
  rewrite Hn. change 1%nat with (length [100]).
  rewrite (http_fields_step body _ [100] (str "interval") _ _ _ _ Hb (interval_field body Hsmall _ _ _ _ Hb ltac:(lia))).
  fold pre1. cbn [minimum l_addresses l_observed].
  erewrite (observed_step body Hsmall n pre1 (observed_of source q)); [..|intros m; eapply (peers_tail body Hsmall m)]; [|..|exact H4|exact H6].
  - cbn [mbind outcome_bind l_interval minimum l_addresses l_observed]. rewrite bool_decide_true by done.
    cbn [ensure mbind outcome_bind option_bind]. rewrite (proj2 (Z.ltb_lt 0 _)) by lia.
    cbn [ok_or mbind outcome_bind app]. by rewrite Z.max_l by lia.
  - rewrite Hb. unfold pre1. cbn [app]. f_equal. rewrite <-app_assoc. f_equal. cbn [app]. f_equal. by rewrite <-app_assoc.
  - done.
  - exact Hobs.
  - rewrite Hb. unfold pre1. cbn [app]. f_equal. rewrite <-!app_assoc. f_equal. cbn [app]. f_equal. by rewrite <-!app_assoc.
Qed.

(** the addresses of a reply are the usable ones, each once *)
Lemma reply_addresses peers : (length peers <= MAX_PEERS)%nat ->
  let l := take MAX_PEERS (dedup (sort (foldl push_peer [] (filter (fun p => is_ipv4 (ip p) = true) peers) ++
                                        foldl push_peer [] (filter (fun p => is_ipv4 (ip p) = false) peers)))) in
  NoDup l /\ forall p, p ∈ l <-> p ∈ peers /\ unusable p = false.
Proof.
  intros Hl. cbv zeta. set (d := dedup _). pose proof (NoDup_dedup_sort _ : NoDup d) as Hd.
  assert (forall p, p ∈ d <-> p ∈ peers /\ unusable p = false) as Hin.
  { intros p. unfold d. rewrite elem_of_dedup_sort, elem_of_app.
    pose proof (length_filter (fun p => is_ipv4 (ip p) = true) peers). pose proof (length_filter (fun p => is_ipv4 (ip p) = false) peers).
    rewrite !push_peers_spec, !list_elem_of_filter by lia. destruct (is_ipv4 (ip p)); naive_solver. }
  rewrite take_ge; [done|]. etransitivity; [|exact Hl].
  apply submseteq_length, NoDup_submseteq; [done|]. intros p [? _]%Hin. done.
Qed.

(** the HTTP protocol works end to end.  The query a client writes is read
    by the server as the same announce, but for the key, which the server does
    not use.  For any query that is read as an announce which the store accepts,
    the server's body is read by the client as the server's interval, the
    source as observed where that was asked for, and exactly the usable
    addresses that the store selected, each once. *)
Theorem http_exchange_correct (hmac : list Z -> list Z -> list Z) {D : PercentDecode} {L : PercentDecodeLaws D}
    (c : Server) (a : Announce) (source : SocketAddr) (q : list Z) :
  1 <= interval c <= 86400 -> announce_fits a -> bytes_ok (hash a) -> bytes_ok (peer a) ->
  event a = 0 \/ event a = 2 \/ event a = 3 ->
  (forall s, observed_of source q = Some s -> (t ← from_utf8 (print_addr s); parse_addr t) = Some s) ->
  parse_query (http_query a) = Ok (mk_announce (hash a) (peer a) 0 (a_port a) (event a) (a_left a) (numwant a)) /\
  forall a' s s' k peers, store_ok s -> addresses_plain s ->
    authorized hmac c (Some q) = true -> parse_query q = Ok a' ->
    announce c s a' (ip source) (instant k) (elapsed k) (unix k) = (s', Ok peers) ->
    exists body r, http_announce hmac c s (mk_request true (str "/announce") (Some q)) source k = (s', Ok body) /\
      http_response body = Ok r /\ p_interval r = announce_interval c a' /\ observed r = observed_of source q /\
      NoDup (addresses r) /\ forall p, p ∈ addresses r <-> p ∈ peers /\ unusable p = false.
Proof.
  intros Hint Ha Bh Bp He Hobs. split; [by apply parse_http_query|].
  intros a' s s' k peers Hs Hpl Hau Hq Hann.
  destruct (announce_peers _ _ _ _ _ _ _ _ _ Hs Hann) as [Hlen Hfrom].
  eexists _, _. split_and!.
  - unfold http_announce. cbn [is_get path query]. rewrite bool_decide_true by done. cbn [negb andb].
    rewrite Hau, Hq, Hann. reflexivity.
  - apply http_body_read; [|apply Forall_forall; intros p Hp; destruct (Hfrom p Hp) as (id & e & Hf & _); apply (Hpl _ _ _ Hf)|done|done].
    unfold announce_interval, IDLE_ANNOUNCE_INTERVAL_SECS. destruct (_ =? 2); lia.
  - done.
  - done.
  - by apply reply_addresses.
  - by apply reply_addresses.
Qed.

Lemma http_exchange_correct_witness :
  let a := mk_announce (replicate 20 1) (replicate 20 2) 3 80 2 1 16 in
  parse_query (http_query a) = Ok (mk_announce (replicate 20 1) (replicate 20 2) 0 80 2 1 16).
Proof.
  apply (http_exchange_correct checksum_mac (mk_server [] None 2) (mk_announce (replicate 20 1) (replicate 20 2) 3 80 2 1 16)
    (new (V4 0x01020304) 9) (str "lt_observe=1"));
    [cbn [interval]; lia| |by apply Forall_replicate|by apply Forall_replicate|by right; left|].
  - unfold announce_fits, is_u. cbn [hash peer key a_port event a_left numwant]. rewrite !length_replicate. lia.
  - intros s Hs. assert (Some s = Some (new (V4 0x01020304) 9)) as [= ->] by (rewrite <-Hs; vm_compute; reflexivity).
    vm_compute. reflexivity.
Defined.
End TrackerHttp.
