(* ===== verification/TransitBudget.v ===== *)
(** * The transit budget (src/lowertier/src/common/transit_budget.rs)

    A bit-exact token bucket that limits what a relay carries for others.
    Instants are nanoseconds; [RelayConfig] is the part of it that is read. *)
From stdpp Require Import base list numbers.
From Stdlib Require Import ZArith Lia.
From S2P Require Import Prelude.

Local Open Scope Z_scope.

Module TransitBudget.

Record RelayConfig : Type := mk_config {
  transit_bps_limit : option Z;
  transit_burst_bytes : option Z;
}.

(** [MAX_PACKET_BATCH_SIZE * 4096] *)
Definition MAX_TRANSIT_PACKET_BYTES : Z := 64 * 4096.

(** the checks of a configuration that concern the budget *)
Definition config_valid (c : RelayConfig) : bool :=
  match transit_bps_limit c with Some bits => 0 <? bits | None => true end &&
  match transit_burst_bytes c with
  | Some burst => match transit_bps_limit c with Some _ => true | None => false end &&
                  (MAX_TRANSIT_PACKET_BYTES <=? burst) && (burst <=? u_max 64 / 8)
  | None => true
  end.

Record t : Type := mk {
  rate : option Z;
  cap : Z;
  credit : Z;
  remainder : Z;
  updated : Z;
}.

Definition capacity (c : RelayConfig) : Z :=
  match transit_burst_bytes c with
  | Some b => b
  | None => Z.max (div_ceil (default 0 (transit_bps_limit c)) 8) MAX_TRANSIT_PACKET_BYTES
  end * 8.

Definition new (c : RelayConfig) (now : Z) : t :=
  mk (transit_bps_limit c) (capacity c) (capacity c) 0 now.

Definition NANOS : Z := 1000000000.

Definition refill (s : t) (now : Z) : t :=
  let elapsed := saturating_sub now (updated s) in
  match rate s with
  | Some r =>
      let bits := saturating_add 128 (saturating_mul 128 elapsed r) (remainder s) in
      mk (rate s) (cap s) (Z.min (cap s) (saturating_add 128 (credit s) (bits / NANOS))) (bits mod NANOS) now
  | None => mk (rate s) (cap s) (credit s) (remainder s) now
  end.

Definition update (s : t) (c : RelayConfig) (now : Z) : t :=
  let s := refill s now in
  mk (transit_bps_limit c) (capacity c) (Z.min (credit s) (capacity c)) (remainder s) (updated s).

Definition consume (s : t) (bytes now : Z) : t * bool :=
  let s := refill s now in
  match rate s with
  | None => (s, true)
  | Some _ =>
      let bits := bytes * 8 in
      if credit s <? bits then (s, false)
      else (mk (rate s) (cap s) (credit s - bits) (remainder s) (updated s), true)
  end.

(** bytes that may be read now, or zero and the time to wait; [div_ceil] panics
    on a zero rate *)
Definition receive_chunk (s : t) (bytes now : Z) : outcome unit (t * (Z * Z)) :=
  match rate s with
  | None => Ok (s, (bytes, 0))
  | Some _ =>
      let chunk := Z.min bytes (wrap 64 (cap s / 8)) in
      let '(s, ok) := consume s chunk now in
      if ok : bool then Ok (s, (chunk, 0))
      else
        r ← unwrap (rate s);
        if r =? 0 then Panic
        else
          let nanos := div_ceil (saturating_mul 128 (chunk * 8 - credit s) NANOS) r in
          Ok (s, (0, Z.min nanos (u_max 64)))
  end.

(** ** Invariant *)
Definition ok (s : t) : Prop :=
  0 <= credit s <= cap s /\ 0 <= remainder s < NANOS /\ cap s < 2 ^ 128 /\
  match rate s with Some r => 0 <= r | None => True end.

(** stored credit in units of a billionth of a bit *)
Definition potential (s : t) : Z := credit s * NANOS + remainder s.
(** what a refill may add *)
Definition allowance (s : t) (now : Z) : Z :=
  match rate s with Some r => r * saturating_sub now (updated s) | None => 0 end.

Lemma NANOS_pos : 0 < NANOS.
Proof. done. Qed.

Lemma refill_spec s now : ok s ->
  ok (refill s now) /\ potential (refill s now) <= potential s + allowance s now /\
  rate (refill s now) = rate s /\ cap (refill s now) = cap s /\ updated (refill s now) = now.
Proof.
  intros (Hc & Hr & Hcap & Hrate). unfold refill, allowance, ok, potential.
  destruct (rate s) as [r|] eqn:E; cbn; rewrite ?E; [|split_and!; (done || lia)].
  set (el := saturating_sub now (updated s)). assert (0 <= el) by (unfold el, saturating_sub; lia).
  unfold saturating_add, saturating_mul.
  set (bits := Z.min _ (Z.min (u_max 128) (el * r) + remainder s)).
  assert (0 <= bits <= r * el + remainder s) as Hb by (unfold bits, u_max; split; [apply Z.min_glb; [done|]|]; nia || lia).
  pose proof (Z.div_mod bits NANOS ltac:(done)) as Hdm. pose proof (Z.mod_pos_bound bits NANOS NANOS_pos) as Hm.
  assert (0 <= bits / NANOS) by (apply Z.div_pos; [lia|done]). unfold u_max in *.
  split_and!; try done; try lia. set (q := bits / NANOS) in *.
  assert (Z.min (cap s) (Z.min (2 ^ 128 - 1) (credit s + q)) <= credit s + q) by lia. nia.
Qed.

Lemma consume_spec s bytes now : ok s -> 0 <= bytes ->
  let '(s', b) := consume s bytes now in
  ok s' /\ rate s' = rate s /\ cap s' = cap s /\
  potential s' + (if rate s then if b : bool then bytes * 8 * NANOS else 0 else 0) <= potential s + allowance s now.
Proof.
  intros Hs Hb. unfold consume. destruct (refill_spec s now Hs) as (Hok & Hp & Hr & Hc & _).
  rewrite Hr. destruct (rate s) as [r|] eqn:E; [|split_and!; (done || lia || congruence)].
  destruct (_ <? _) eqn:El; bool_to_Z; [split_and!; (done || lia || congruence)|].
  destruct Hok as (H1 & H2 & H3 & H4). unfold ok, potential in *. cbn. rewrite Hr in *.
  split_and!; (done || lia || congruence).
Qed.

Lemma capacity_range c : config_valid c = true -> (forall r, transit_bps_limit c = Some r -> r < 2 ^ 64) ->
  8 * MAX_TRANSIT_PACKET_BYTES <= capacity c < 2 ^ 65.
Proof.
  intros Hv Hr. unfold config_valid, capacity in *. apply andb_true_iff in Hv as [H1 H2].
  destruct (transit_burst_bytes c) as [b|].
  - bool_to_Z. change (u_max 64 / 8) with 2305843009213693951 in *. unfold MAX_TRANSIT_PACKET_BYTES in *. lia.
  - assert (div_ceil (default 0 (transit_bps_limit c)) 8 <= 2 ^ 61) as Hd.
    { unfold div_ceil. destruct (transit_bps_limit c) as [r|]; [|vm_compute; discriminate].
      specialize (Hr r eq_refl). cbn [default from_option]. unfold id.
      apply Z.lt_succ_r, Z.div_lt_upper_bound; lia. }
    unfold MAX_TRANSIT_PACKET_BYTES. lia.
Qed.

(** ** Runs *)
Inductive op : Type :=
| Consume (bytes now : Z)
| Chunk (bytes now : Z)
| Update (c : RelayConfig) (now : Z).

(** an operation gives the bytes that it lets through *)
Definition step (s : t) (o : op) : outcome unit (t * Z) :=
  match o with
  | Consume bytes now => let '(s, b) := consume s bytes now in Ok (s, if b : bool then bytes else 0)
  | Chunk bytes now => '(s, (n, _)) ← receive_chunk s bytes now; Ok (s, n)
  | Update c now => Ok (update s c now, 0)
  end.

Fixpoint run (s : t) (ops : list op) : outcome unit (t * list Z) :=
  match ops with
  | [] => Ok (s, [])
  | o :: ops => '(s, n) ← step s o; '(s, ns) ← run s ops; Ok (s, n :: ns)
  end.

Definition op_ok (o : op) : Prop :=
  match o with
  | Consume bytes _ | Chunk bytes _ => 0 <= bytes
  | Update c _ => config_valid c = true /\ (forall r, transit_bps_limit c = Some r -> r < 2 ^ 64)
  end.

(** ** What the configured limits allow, from the configurations and the clock alone *)
Definition time (o : op) : Z := match o with Consume _ now | Chunk _ now | Update _ now => now end.
Definition limit_after (limit : option Z) (o : op) : option Z := match o with Update c _ => transit_bps_limit c | _ => limit end.
(** the limit and the time after some operations *)
Definition limits_after (limit : option Z) (ops : list op) : option Z := fold_left limit_after ops limit.
Definition last_time (t0 : Z) (ops : list op) : Z := fold_left (fun _ o => time o) ops t0.
(** the clock never goes back *)
Fixpoint ticks (t0 : Z) (ops : list op) : Prop := match ops with [] => True | o :: ops => t0 <= time o /\ ticks (time o) ops end.
(** the limit in force times the time that it was, in billionths of a bit *)
Fixpoint allowed (limit : option Z) (t0 : Z) (ops : list op) : Z :=
  match ops with
  | [] => 0
  | o :: ops => match limit with Some r => r * (time o - t0) | None => 0 end + allowed (limit_after limit o) (time o) ops
  end.
(** the bits that were let through while a limit was set *)
Fixpoint carried (limit : option Z) (ops : list op) (ns : list Z) : Z :=
  match ops, ns with
  | o :: ops, n :: ns => match limit with Some _ => n * 8 | None => 0 end + carried (limit_after limit o) ops ns
  | _, _ => 0
  end.

(** a budget of a valid configuration, last used at [t0] under [limit] *)
Definition running (limit : option Z) (t0 : Z) (s : t) : Prop :=
  ok s /\ rate s = limit /\ forall r, rate s = Some r -> 0 < r /\ updated s = t0.

Lemma config_rate c r : config_valid c = true -> transit_bps_limit c = Some r -> 0 < r.
Proof. unfold config_valid. intros H E. rewrite E in H. apply andb_true_iff in H as [H _]. by bool_to_Z. Qed.

Lemma consume_updated s bytes now : updated (consume s bytes now).1 = now.
Proof. unfold consume, refill. destruct (rate s); cbn; [|done]. by case_match. Qed.

Lemma step_spec limit t0 s o : running limit t0 s -> op_ok o -> t0 <= time o ->
  exists s' n, step s o = Ok (s', n) /\ running (limit_after limit o) (time o) s' /\
    match limit with Some _ => n * 8 | None => 0 end * NANOS + potential s' <= potential s + match limit with Some r => r * (time o - t0) | None => 0 end.
Proof.
  intros (Hs & <- & Hr) Ho Ht.
  assert (allowance s (time o) = match rate s with Some r => r * (time o - t0) | None => 0 end) as Ha.
  { unfold allowance. destruct (rate s) as [r|] eqn:E; [|done]. destruct (Hr r eq_refl) as [_ ->]. unfold saturating_sub. rewrite Z.max_r by lia. done. }
  rewrite <- Ha. destruct o as [bytes now|bytes now|c now]; cbn [step op_ok time limit_after] in *.
  - pose proof (consume_spec s bytes now Hs Ho) as H. pose proof (consume_updated s bytes now) as Hu. destruct (consume s bytes now) as [s' b].
    destruct H as (Hok & Hrt & _ & Hp). eexists _, _. split; [done|]. split; [split; [done|]; split; [done|]; rewrite Hrt; naive_solver|].
    destruct (rate s), b; lia.
  - unfold receive_chunk. destruct (rate s) as [r|] eqn:E.
    2: { eexists _, _. split; [done|]. split; [split; [done|]; by rewrite E|]. unfold allowance. rewrite E. lia. }
    set (chunk := Z.min bytes _). assert (0 <= chunk) as Hc.
    { unfold chunk. pose proof (wrap_range 64 (cap s / 8) ltac:(lia)) as [? _]. lia. }
    pose proof (consume_spec s chunk now Hs Hc) as H. pose proof (consume_updated s chunk now) as Hu. destruct (consume s chunk now) as [s' b].
    destruct H as (Hok & Hrt & _ & Hp). cbn [fst] in Hu. rewrite E in Hp, Hrt. destruct (Hr r eq_refl) as [Hpos _].
    assert (running (Some r) now s') as Hrun by (split; [done|]; split; [done|]; rewrite Hrt; naive_solver).
    destruct b; cbn [mbind outcome_bind]; [eexists _, _; split; [done|]; split; [done|lia]|].
    rewrite Hrt. cbn [unwrap mbind outcome_bind]. rewrite (proj2 (Z.eqb_neq r 0)) by lia. cbn [mbind outcome_bind].
    eexists _, _. split; [done|]. split; [done|lia].
  - destruct Ho as [Hv Hlim]. eexists _, _. split; [done|]. destruct (refill_spec s now Hs) as (Hok & Hp & _ & _ & Hu).
    pose proof (capacity_range c Hv Hlim) as Hcap. destruct Hok as ((? & ?) & Hrem & ? & ?).
    unfold update, running, ok, potential, MAX_TRANSIT_PACKET_BYTES in *. cbn. split; [split; [split_and!|split]|].
    + apply Z.min_glb; lia.
    + lia.
    + lia.
    + lia.
    + lia.
    + destruct (transit_bps_limit c) eqn:E; [|done]. apply (config_rate c) in E; [lia|done].
    + done.
    + intros r Hr'. split; [by apply (config_rate c)|done].
    + pose proof NANOS_pos. destruct (rate s); nia.
Qed.

Lemma run_spec ops : forall limit t0 s, running limit t0 s -> Forall op_ok ops -> ticks t0 ops ->
  exists s' ns, run s ops = Ok (s', ns) /\ running (limits_after limit ops) (last_time t0 ops) s' /\
    carried limit ops ns * NANOS + potential s' <= potential s + allowed limit t0 ops.
Proof.
  induction ops as [|o ops IH]; intros limit t0 s Hs Hok Ht; [eexists _, _; split; [done|]; split; [done|cbn; lia]|].
  apply Forall_cons_1 in Hok as [Ho Hok]. destruct Ht as [Ht0 Ht]. destruct (step_spec limit t0 s o Hs Ho Ht0) as (s1 & n & E & H1 & Hp).
  destruct (IH _ _ s1 H1 Hok Ht) as (s2 & ns & E' & H2 & Hp'). exists s2, (n :: ns). cbn [run]. rewrite E. cbn [mbind outcome_bind]. rewrite E'.
  split; [done|]. split; [done|]. cbn [carried allowed]. lia.
Qed.

Lemma new_running c t0 : config_valid c = true -> (forall r, transit_bps_limit c = Some r -> r < 2 ^ 64) -> running (transit_bps_limit c) t0 (new c t0).
Proof.
  intros Hv Hlim. pose proof (capacity_range c Hv Hlim) as Hcap. unfold MAX_TRANSIT_PACKET_BYTES in Hcap.
  unfold running, ok, new. cbn. split; [split_and!; try lia; try done|].
  - destruct (transit_bps_limit c) eqn:E; [|done]. apply (config_rate c) in E; [lia|done].
  - split; [done|]. intros r Hr. split; [by apply (config_rate c)|done].
Qed.

(** under limits of at most [r], no more than [r] for the time that passed *)
Lemma allowed_below r ops : 0 <= r -> forall limit t0, ticks t0 ops -> (forall x, limit = Some x -> x <= r) ->
  (forall c now x, Update c now ∈ ops -> transit_bps_limit c = Some x -> x <= r) -> allowed limit t0 ops <= r * (last_time t0 ops - t0).
Proof.
  intros H0. induction ops as [|o ops IH]; intros limit t0 Ht Hl Hops; [cbn; lia|]. destruct Ht as [Ht0 Ht]. cbn [allowed]. change (last_time t0 (o :: ops)) with (last_time (time o) ops).
  assert (match limit with Some x => x * (time o - t0) | None => 0 end <= r * (time o - t0)) by (destruct limit as [x|]; [specialize (Hl x eq_refl)|]; nia).
  assert (allowed (limit_after limit o) (time o) ops <= r * (last_time (time o) ops - time o)); [|lia]. apply IH; [done| |].
  - destruct o as [| |c now]; cbn [limit_after]; [done|done|]. intros x. apply (Hops c now). by left.
  - intros c now x Hin. apply (Hops c now). by right.
Qed.

(** C29: The transit budget never carries more than its rate and one burst.  In any run of packets, stream reads and
    configuration changes from a fresh budget, on a clock that does not go back, nothing panics, and over any part of the run the
    bits carried while a limit is set are at most one full budget plus, for each limit, the limit times the time that it was in
    force: over the whole run the initial capacity, later what the capacity holds, exact to a billionth of a bit however often
    the budget is polled.  A change of configuration grants no fresh burst.  If no limit exceeds [r], this is at most [r] times
    the time that passed. *)
Theorem transit_rate_bounded (c : RelayConfig) (t0 : Z) (before ops : list op) :
  config_valid c = true -> (forall r, transit_bps_limit c = Some r -> r < 2 ^ 64) -> Forall op_ok (before ++ ops) -> ticks t0 (before ++ ops) ->
  let limit := limits_after (transit_bps_limit c) before in let t1 := last_time t0 before in
  exists s1 ns1 s' ns, run (new c t0) before = Ok (s1, ns1) /\ run s1 ops = Ok (s', ns) /\ 0 <= credit s' <= cap s' /\
    carried limit ops ns * NANOS + potential s' <= potential s1 + allowed limit t1 ops /\
    potential s1 < (cap s1 + 1) * NANOS /\ (before = [] -> potential s1 = capacity c * NANOS) /\
    (forall r, 0 <= r -> (forall x, limit = Some x -> x <= r) -> (forall d now x, Update d now ∈ ops -> transit_bps_limit d = Some x -> x <= r) ->
       carried limit ops ns * NANOS <= potential s1 + r * (last_time t1 ops - t1)).
Proof.
  intros Hv Hlim Hops Hticks limit t1. apply Forall_app in Hops as [Hb Ho].
  assert (ticks t0 before /\ ticks t1 ops) as [Hb' Ho'].
  { subst t1. clear -Hticks. revert t0 Hticks. induction before as [|o l IH]; intros t0 H; [done|]. destruct H as [H0 H]. destruct (IH _ H). done. }
  destruct (run_spec before _ t0 (new c t0) (new_running c t0 Hv Hlim) Hb Hb') as (s1 & ns1 & E1 & R1 & _).
  destruct (run_spec ops _ _ s1 R1 Ho Ho') as (s' & ns & E2 & R2 & Hp). fold limit in Hp, R1, R2. fold t1 in Hp, R1, R2.
  exists s1, ns1, s', ns. destruct R1 as ((Hc1 & Hr1 & _) & _), R2 as ((Hc2 & Hr2 & _) & _). split_and!; try done; try lia.
  - unfold potential, NANOS in *. lia.
  - intros ->. cbn in E1. injection E1 as <- _. unfold potential. cbn. lia.
  - intros r H0 Hl Hr. pose proof (allowed_below r ops H0 limit t1 Ho' Hl Hr). assert (0 <= potential s') by (unfold potential, NANOS in *; lia). lia.
Qed.

Lemma transit_rate_bounded_witness : let ops := [Consume 1 5; Consume 1 1000000005] in
  exists s1 ns1 s' ns, run (new (mk_config (Some 8) None) 0) [Consume 262144 0] = Ok (s1, ns1) /\ potential s1 = 0 /\ run s1 ops = Ok (s', ns) /\
    ns = [0; 1] /\ carried (Some 8) ops ns * NANOS <= potential s1 + 8 * (1000000005 - 0).
Proof.
  intros ops. destruct (transit_rate_bounded (mk_config (Some 8) None) 0 [Consume 262144 0] ops) as (s1 & ns1 & s' & ns & E1 & E2 & _ & _ & _ & _ & K).
  - done.
  - by intros r [= <-].
  - forall_list; cbn [op_ok]; lia.
  - cbn. lia.
  - exists s1, ns1, s', ns. vm_compute in E1. injection E1 as <- <-. vm_compute in E2. injection E2 as <- <-. do 4 (split; [done|]).
    apply (K 8); [lia|by intros x [= <-]|]. intros d now x Hin. repeat (apply elem_of_cons in Hin as [Hin|Hin]; [discriminate Hin|]). by apply elem_of_nil in Hin.
Defined.

(** enough elapsed time covers a deficit *)
Lemma refill_covers s r now need : ok s -> rate s = Some r -> 0 < r -> credit s <= need <= cap s -> cap s <= 2 ^ 90 ->
  updated s + div_ceil ((need - credit s) * NANOS) r <= now -> need <= credit (refill s now).
Proof.
  intros (Hc & Hrem & _ & _) Hr Hpos Hneed Hcap Hnow. unfold refill. rewrite Hr. cbn [credit].
  set (el := saturating_sub now (updated s)). set (d := (need - credit s) * NANOS) in *.
  assert (0 <= d < 2 ^ 120) as Hd by (unfold d, NANOS; lia).
  assert (d <= el * r) as Hel.
  { assert (div_ceil d r <= el) as H by (unfold el, saturating_sub; lia).
    unfold div_ceil in H. pose proof (Z.div_mod (d + r - 1) r ltac:(lia)). pose proof (Z.mod_pos_bound (d + r - 1) r Hpos). nia. }
  unfold saturating_add, saturating_mul, u_max. set (bits := Z.min _ (Z.min _ (el * r) + remainder s)).
  assert (d <= bits) as Hb by (unfold bits; lia).
  assert (need - credit s <= bits / NANOS) as Hq by (apply Z.div_le_lower_bound; [done|]; unfold d in Hb; lia). lia.
Qed.

(** C30: waiting as told is enough.  When a stream read is put off for some
    time, then after that time the same read gets its whole chunk, which is not
    empty. *)
Theorem transit_wait_sufficient (s s' : t) (r bytes now d now' : Z) :
  ok s -> rate s = Some r -> 0 < r -> 8 <= cap s <= 2 ^ 66 -> 0 < bytes ->
  receive_chunk s bytes now = Ok (s', (0, d)) -> d < u_max 64 -> now + d <= now' ->
  exists s'', receive_chunk s' bytes now' = Ok (s'', (Z.min bytes (cap s / 8), 0)) /\ 0 < Z.min bytes (cap s / 8).
Proof.
  intros Hs Hr Hpos Hcap Hbytes Hrc Hd Hnow.
  assert (1 <= cap s / 8 <= 2 ^ 63) as Hq.
  { split; [apply Z.div_le_lower_bound; lia|]. apply Z.div_le_upper_bound; lia. }
  assert (wrap 64 (cap s / 8) = cap s / 8) as Hw by (apply wrap_small; unfold is_u; lia).
  unfold receive_chunk in Hrc |- *. rewrite Hr, Hw in Hrc. set (chunk := Z.min bytes (cap s / 8)) in *.
  assert (chunk * 8 <= cap s) as Hchunk by (unfold chunk; pose proof (Z.mul_div_le (cap s) 8); lia).
  destruct (refill_spec s now Hs) as (Hok & _ & Hr1 & Hc1 & Hu1). unfold consume in Hrc. rewrite Hr1, Hr in Hrc.
  set (s1 := refill s now) in *. destruct (credit s1 <? chunk * 8) eqn:Elt; bool_to_Z; [|injection Hrc; unfold chunk in *; lia].
  cbn [mbind outcome_bind] in Hrc. rewrite Hr1, Hr in Hrc. cbn [unwrap mbind outcome_bind] in Hrc.
  rewrite (proj2 (Z.eqb_neq r 0)) in Hrc by lia. injection Hrc as <- Hdd.
  destruct Hok as (Hcr & Hrem & Hc128 & _). unfold saturating_mul in Hdd.
  rewrite (Z.min_r (u_max 128)) in Hdd by (unfold u_max, NANOS; lia).
  rewrite Hr1, Hr, Hc1, Hw. fold chunk. unfold consume.
  destruct (refill_spec s1 now') as (_ & _ & Hr2 & _ & _); [split_and!; try done; try lia; by rewrite Hr1, Hr; lia|].
  rewrite Hr2, Hr1, Hr.
  assert (chunk * 8 <= credit (refill s1 now')) as Hge.
  { apply (refill_covers s1 r); try lia; [|by rewrite Hr1].
    split_and!; try done; try lia. by rewrite Hr1, Hr; lia. }
  rewrite (proj2 (Z.ltb_ge _ _)) by done. eexists. split; [done|]. unfold chunk. lia.
Qed.

Lemma transit_wait_sufficient_witness :
  let s := mk (Some 8) 2097152 0 0 0 in
  exists s'', receive_chunk s 2 2000000000 = Ok (s'', (2, 0)) /\ 0 < 2.
Proof.
  cbv zeta. apply (transit_wait_sufficient (mk (Some 8) 2097152 0 0 0) (mk (Some 8) 2097152 0 0 0) 8 2 0 2000000000 2000000000);
    [|done|done|cbn; lia|done|vm_compute; reflexivity|done|done].
  unfold ok, NANOS. cbn [rate cap credit remainder]. lia.
Defined.

(** a refill below the capacity *)
Lemma refill_exact s r now : ok s -> rate s = Some r -> updated s <= now ->
  potential s + r * (now - updated s) < cap s * NANOS -> cap s <= 2 ^ 90 ->
  let p := potential s + r * (now - updated s) in
  refill s now = mk (Some r) (cap s) (p / NANOS) (p mod NANOS) now.
Proof.
  intros (Hc & Hrem & Hcap & Hrate) Hr Ht Hlt H90. cbv zeta. rewrite Hr in Hrate. unfold refill, potential in *. rewrite Hr.
  assert (saturating_sub now (updated s) = now - updated s) as -> by (unfold saturating_sub; lia).
  assert (0 <= (now - updated s) * r) by nia. assert (0 <= credit s * NANOS) by (unfold NANOS; lia).
  assert (cap s * NANOS < 2 ^ 120) by (unfold NANOS; lia).
  set (b := (now - updated s) * r + remainder s).
  assert (b / NANOS < cap s - credit s + 1) as Hq by (apply Z.div_lt_upper_bound; [done|]; unfold b, NANOS in *; lia).
  assert (Z.min (2 ^ 128 - 1) ((now - updated s) * r) = (now - updated s) * r) as Hm1 by lia.
  assert (Z.min (2 ^ 128 - 1) b = b) as Hm2 by (unfold b; lia).
  unfold saturating_add, saturating_mul, u_max. rewrite Hm1. fold b. rewrite Hm2, Z.min_r, Z.min_r by lia.
  replace (credit s * NANOS + remainder s + r * (now - updated s)) with (b + credit s * NANOS) by (unfold b; lia).
  rewrite Z.div_add, Z.mod_add by done. f_equal. lia.
Qed.

(** Polling costs nothing.  Refilling in between gives the same budget as
    refilling once, to the remainder, as long as neither the capacity nor the
    128-bit range is reached: no rate is so small that frequent polling starves
    it. *)
Theorem transit_polling_exact (s : t) (t1 t2 : Z) :
  ok s -> updated s <= t1 <= t2 -> potential s + allowance s t2 < cap s * NANOS -> cap s <= 2 ^ 90 ->
  refill (refill s t1) t2 = refill s t2 /\ potential (refill s t2) = potential s + allowance s t2.
Proof.
  intros Hs Ht Hlt H90. pose proof Hs as (Hc & Hrem & Hcap & Hrate). unfold allowance in *.
  destruct (rate s) as [r|] eqn:E.
  2: { unfold refill, potential in *. rewrite E. cbn [rate]. split; [done|cbn [credit remainder]; lia]. }
  unfold saturating_sub in *. rewrite Z.max_r in * by lia.
  assert (r * (t1 - updated s) <= r * (t2 - updated s)) by nia.
  rewrite (refill_exact s r t1), (refill_exact s r t2) by (done || lia).
  set (p1 := potential s + r * (t1 - updated s)). set (p2 := potential s + r * (t2 - updated s)).
  assert (forall p u, potential (mk (Some r) (cap s) (p / NANOS) (p mod NANOS) u) = p) as Hpot
    by (intros p u; unfold potential; cbn [credit remainder]; pose proof (Z.div_mod p NANOS ltac:(done)); lia).
  assert (0 <= p1) by (unfold p1, potential, NANOS in *; nia).
  split; [|apply Hpot]. rewrite (refill_exact _ r t2); rewrite ?Hpot; cbn [cap updated rate]; try done; try lia.
  - replace (p1 + r * (t2 - t1)) with p2 by (unfold p1, p2; lia). done.
  - unfold ok. cbn [credit cap remainder rate]. split_and!; try done.
    + by apply Z.div_pos.
    + apply Z.lt_le_incl, Z.div_lt_upper_bound; [done|]. unfold p1 in *. lia.
    + by apply Z.mod_pos_bound.
    + by apply Z.mod_pos_bound.
Qed.

Lemma transit_polling_exact_witness :
  let s := mk (Some 1) 2097152 0 0 0 in
  refill (refill s 300000000) 1500000000 = refill s 1500000000 /\ potential (refill s 1500000000) = 0 + 1500000000.
Proof.
  apply (transit_polling_exact (mk (Some 1) 2097152 0 0 0) 300000000 1500000000);
    unfold ok, potential, allowance, saturating_sub, NANOS; cbn [rate cap credit remainder updated]; lia.
Defined.
End TransitBudget.
