(* ===== verification/TokenBucket.v ===== *)
(** * Token buckets (src/lowertier/src/common/token_bucket.rs)

    The compare-and-exchange loops of the bucket are atomic transitions of its
    token count.  A refill computes the tokens to add with [f64] operations,
    which are those of the IEEE binary64 format of [SpecFloat]. *)
From Stdlib Require Import Floats.SpecFloat.
From stdpp Require Import base list numbers.
From Stdlib Require Import ZArith Lia.
From S2P Require Import Prelude.

Local Open Scope Z_scope.

(** ** The operations of [f64] that the bucket uses *)
Module F64.
Definition prec : Z := 53.
Definition emax : Z := 1024.
(** [z as f64] of an unsigned integer, rounded to nearest even *)
Definition of_u (z : Z) : spec_float := binary_normalize prec emax z 0 false.
Definition mul : spec_float -> spec_float -> spec_float := SFmul prec emax.
Definition div : spec_float -> spec_float -> spec_float := SFdiv prec emax.
(** [x as u64]: truncated, saturating, zero for NaN *)
Definition to_u64 (x : spec_float) : Z :=
  match x with
  | S754_finite false m e => Z.min (Z.shiftl (Zpos m) e) (u_max 64)
  | S754_infinity false => u_max 64
  | _ => 0
  end.
End F64.

Module TokenBucket.

Record t : Type := mk { capacity : Z; fill_rate : Z; available_tokens : Z; last_refill_time : Z }.

Definition new (capacity bps : Z) : t := mk capacity bps capacity 0.

(** the tokens for the microseconds since the last refill *)
Definition tokens_to_add (rate elapsed_micros : Z) : Z :=
  let elapsed_secs := F64.div (F64.of_u elapsed_micros) (F64.of_u 1000000) in
  F64.to_u64 (F64.mul (F64.of_u rate) elapsed_secs).

Definition refill (b : t) (now_micros : Z) : t :=
  let n := tokens_to_add (fill_rate b) (saturating_sub now_micros (last_refill_time b)) in
  if n =? 0 then mk (capacity b) (fill_rate b) (available_tokens b) now_micros
  else mk (capacity b) (fill_rate b)
         (Z.min (saturating_add 64 (available_tokens b) n) (capacity b)) now_micros.

Definition try_consume (b : t) (tokens : Z) : t * bool :=
  if capacity b <? tokens then (b, false)
  else if available_tokens b <? tokens then (b, false)
  else (mk (capacity b) (fill_rate b) (available_tokens b - tokens) (last_refill_time b), true).

Definition ok (b : t) : Prop := 0 <= available_tokens b <= capacity b.

Lemma tokens_to_add_nonneg r e : 0 <= tokens_to_add r e.
Proof.
  unfold tokens_to_add, F64.to_u64, u_max. destruct (F64.mul _ _) as [?|[]|?|[] m e']; try done.
  apply Z.min_glb; [|done]. by apply Z.shiftl_nonneg.
Qed.

Lemma new_ok c r : 0 <= c -> ok (new c r).
Proof. unfold ok. cbn. lia. Qed.
Lemma refill_ok b now : ok b -> ok (refill b now).
Proof.
  unfold ok, refill, saturating_add, u_max. intros.
  pose proof (tokens_to_add_nonneg (fill_rate b) (saturating_sub now (last_refill_time b))).
  destruct (_ =? 0); cbn [available_tokens capacity]; lia.
Qed.
Lemma try_consume_ok b n : ok b -> 0 <= n -> ok (try_consume b n).1.
Proof.
  unfold ok, try_consume. intros. destruct (capacity b <? n); [done|].
  destruct (available_tokens b <? n) eqn:E; [done|]. bool_to_Z. cbn [fst available_tokens capacity]. lia.
Qed.

(** ** A refill every ten milliseconds, as the access control lists ask for *)
Fixpoint ticks (n : nat) (b : t) : t :=
  match n with
  | O => b
  | S n => let b := ticks n b in refill b (last_refill_time b + 10000)
  end.

Lemma slow_rates : Forall (fun r => tokens_to_add r 10000 = 0) (seqZ 0 100) /\ tokens_to_add 100 10000 = 1.
Proof. split; [|reflexivity]. by apply (bool_decide_eq_true_1 _). Qed.

(** below a hundred tokens a second each tick rounds to no token and forgets the elapsed time, so
    the bucket never fills again *)
Theorem slow_bucket_never_refills n b : 0 <= fill_rate b < 100 -> 0 <= last_refill_time b ->
  available_tokens (ticks n b) = available_tokens b.
Proof.
  intros Hr Ht. assert (fill_rate (ticks n b) = fill_rate b /\ 0 <= last_refill_time (ticks n b) /\
    available_tokens (ticks n b) = available_tokens b) as (_ & _ & ?); [|done].
  induction n as [|n (IH1 & IH2 & IH3)]; [done|]. cbn [ticks]. unfold refill.
  replace (saturating_sub _ _) with 10000 by (unfold saturating_sub; lia).
  destruct slow_rates as [H _]. rewrite Forall_forall in H.
  rewrite IH1, H by (apply list_elem_of_In, elem_of_seqZ; lia). cbn. split_and!; [done|lia|done].
Qed.

End TokenBucket.
