(* ===== verification/Acl.v ===== *)
(** * Access control lists (src/lowertier/src/common/acl_processor.rs)

    Rules compiled from the configuration, the packet path with its result
    cache, rate limits and connection tracking, the clean-up tasks, and the
    whitelist builder.  The cidr crate is an interface; the accessors that the
    build generates for the enumerations of acl.proto are the fields of the
    records; clocks are arguments. *)
From stdpp Require Import base list gmap numbers strings sorting.
From Stdlib Require Import ZArith Lia.
From S2P Require Import Prelude NetAddr TokenBucket.

Local Open Scope Z_scope.

(** [cidr::IpCidr]: networks of both families, membership and parsing *)
Class CidrOps : Type := {
  Ipv4Cidr : Type;
  Ipv6Cidr : Type;
  v4_contains : Ipv4Cidr -> Z -> bool;
  v6_contains : Ipv6Cidr -> Z -> bool;
  cidr_from_str : list Z -> option (Ipv4Cidr + Ipv6Cidr);
}.

Module Acl.
Import Net.

(** ** The messages of acl.proto *)
Inductive Protocol : Type := Unspecified | Tcp | Udp | Icmp | IcmPv6 | AnyProtocol.
Inductive Action : Type := Noop | Allow | Drop.
Inductive ChainType : Type := UnspecifiedChain | Inbound | Outbound | Forward.

#[export] Instance Protocol_eq_dec : EqDecision Protocol.
Proof. solve_decision. Defined.
#[export] Instance Action_eq_dec : EqDecision Action.
Proof. solve_decision. Defined.
#[export] Instance ChainType_eq_dec : EqDecision ChainType.
Proof. solve_decision. Defined.

Definition protocol_number (p : Protocol) : nat :=
  match p with Unspecified => 0 | Tcp => 1 | Udp => 2 | Icmp => 3 | IcmPv6 => 4 | AnyProtocol => 5 end.
Definition chain_number (c : ChainType) : nat :=
  match c with UnspecifiedChain => 0 | Inbound => 1 | Outbound => 2 | Forward => 3 end.

#[export] Instance Protocol_countable : Countable Protocol.
Proof.
  refine (inj_countable protocol_number (fun n => match n with 0 => Some Unspecified | 1 => Some Tcp | 2 => Some Udp
    | 3 => Some Icmp | 4 => Some IcmPv6 | _ => Some AnyProtocol end%nat) _). by intros [].
Defined.
#[export] Instance ChainType_countable : Countable ChainType.
Proof.
  refine (inj_countable chain_number (fun n => match n with 0 => Some UnspecifiedChain | 1 => Some Inbound
    | 2 => Some Outbound | _ => Some Forward end%nat) _). by intros [].
Defined.

(** text is a list of bytes *)
Abbreviation text := (list Z) (only parsing).

Record Rule : Type := mk_rule {
  r_priority : Z;
  r_enabled : bool;
  r_protocol : Protocol;
  r_ports : list text;
  r_source_ips : list text;
  r_destination_ips : list text;
  r_source_ports : list text;
  r_action : Action;
  r_rate_limit : Z;
  r_burst_limit : Z;
  r_stateful : bool;
  r_source_groups : list text;
  r_destination_groups : list text;
}.

Record Chain : Type := mk_chain {
  c_chain_type : ChainType;
  c_enabled : bool;
  c_rules : list Rule;
  c_default_action : Action;
}.

(** [Acl]: the chains, if there is a first version *)
Abbreviation AclConfig := (option (list Chain)) (only parsing).

(** ** Packets, keys and results *)
Record PacketInfo : Type := mk_info {
  src_ip : IpAddr;
  dst_ip : IpAddr;
  src_port : option Z;
  dst_port : option Z;
  protocol : Protocol;
  packet_size : Z;
  src_groups : list text;
  dst_groups : list text;
}.

(** chain and rule priority *)
Abbreviation RateLimitKey := (ChainType * Z)%type (only parsing).
(** source and destination address, ports, protocol *)
Abbreviation FlowKey := (IpAddr * IpAddr * Z * Z * Protocol)%type (only parsing).
Definition flow_key (p : PacketInfo) : FlowKey :=
  (src_ip p, dst_ip p, default 0 (src_port p), default 0 (dst_port p), protocol p).

(** chain, flow, and the groups where a rule needs them *)
Abbreviation AclCacheKey := (ChainType * FlowKey * option (list text) * option (list text))%type (only parsing).
Definition cache_key (p : PacketInfo) (ct : ChainType) (needs_src needs_dst : bool) : AclCacheKey :=
  (ct, flow_key p, if needs_src then Some (src_groups p) else None,
   if needs_dst then Some (dst_groups p) else None).

Inductive RuleId : Type := Priority (p : Z) | Stateful (p : Z) | Default.
Inductive AclLogContext : Type :=
| StatefulMatch (s d : IpAddr)
| RuleMatch (s d : IpAddr) (a : Action)
| DefaultDrop
| DefaultAllow
| UnsupportedChainType
| RateLimitDrop.

Record AclResult : Type := mk_result {
  action : Action;
  matched_rule : option RuleId;
  should_log : bool;
  log_context : option AclLogContext;
}.

Record AclCacheEntry : Type := mk_entry {
  e_matched_rule : RuleId;
  created_at : Z;
  conn_track_key : option FlowKey;
  rate_limit_keys : list RateLimitKey;
  acl_result : option AclResult;
  (** the shared counters, by their identity *)
  rule_stats_vec : list nat;
}.

Inductive ConnState : Type := New | Established | Related | Invalid.
Record ConnTrackEntry : Type := mk_conn {
  ct_src : SocketAddr;
  ct_dst : SocketAddr;
  ct_protocol : Protocol;
  ct_state : ConnState;
  ct_created_at : Z;
  ct_last_seen : Z;
  ct_packets : Z;
  ct_bytes : Z;
}.

Record RateLimitValue : Type := mk_limit { token_bucket : TokenBucket.t; last_update : Z }.

(** the statistics that the processor itself counts *)
Inductive StatKey : Type := CacheHits | RuleMatches | DefaultAllows | DefaultDrops.
#[export] Instance StatKey_eq_dec : EqDecision StatKey.
Proof. solve_decision. Defined.


(** ** Compilation of the configuration *)
Section Processor.
Context {C : CidrOps}.

Record FastLookupRule : Type := mk_fast {
  priority : Z;
  f_protocol : Protocol;
  src_ip_ranges : list (Ipv4Cidr + Ipv6Cidr);
  dst_ip_ranges : list (Ipv4Cidr + Ipv6Cidr);
  src_port_ranges : list (Z * Z);
  dst_port_ranges : list (Z * Z);
  source_groups : list text;
  destination_groups : list text;
  f_action : Action;
  stateful : bool;
  rate_limit : Z;
  burst_limit : Z;
  (** the identity of the rule's counter *)
  rule_stats : nat;
}.

Definition parse_port_range (s : text) : option (Z * Z) :=
  match Text.split_once 45 s with
  | Some (a, b) =>
      a ← Decimal.parse_u 16 (Text.trim a);
      b ← Decimal.parse_u 16 (Text.trim b);
      Some (a, b)
  | None => p ← Decimal.parse_u 16 (Text.trim s); Some (p, p)
  end.

Definition convert_to_fast_lookup_rule (id : nat) (r : Rule) : FastLookupRule :=
  mk_fast (r_priority r) (r_protocol r)
    (omap cidr_from_str (r_source_ips r)) (omap cidr_from_str (r_destination_ips r))
    (omap parse_port_range (r_source_ports r)) (omap parse_port_range (r_ports r))
    (r_source_groups r) (r_destination_groups r)
    (r_action r) (r_stateful r) (r_rate_limit r) (r_burst_limit r) id.

(** [sort_by_key(|r| Reverse(r.priority))], a stable sort *)
Fixpoint insert_rule (r : FastLookupRule) (l : list FastLookupRule) : list FastLookupRule :=
  match l with
  | [] => [r]
  | q :: l => if priority q <=? priority r then r :: q :: l else q :: insert_rule r l
  end.
Definition sort_rules (l : list FastLookupRule) : list FastLookupRule := foldr insert_rule [] l.

(** the compiled rules of a chain, their counters numbered from [id] *)
Definition chain_rules (id : nat) (c : Chain) : list FastLookupRule :=
  sort_rules (imap (fun i r => convert_to_fast_lookup_rule (id + i) r) (filter (fun r => r_enabled r = true) (c_rules c))).

(** the rules of the enabled chains of a type, chain after chain *)
Fixpoint rules_of_type (ct : ChainType) (id : nat) (cs : list Chain) : list FastLookupRule :=
  match cs with
  | [] => []
  | c :: cs =>
      (if c_enabled c && bool_decide (c_chain_type c = ct) then chain_rules id c else []) ++
      rules_of_type ct (id + length (c_rules c)) cs
  end.

Definition build_rules (cfg : AclConfig) : list FastLookupRule * list FastLookupRule * list FastLookupRule :=
  let cs := default [] cfg in (rules_of_type Inbound 1 cs, rules_of_type Outbound 1 cs, rules_of_type Forward 1 cs).

Definition default_action_of (ct : ChainType) (cfg : AclConfig) : Action :=
  match list_find (fun c => c_chain_type c = ct) (default [] cfg) with
  | Some (_, c) => c_default_action c
  | None => Allow
  end.
Definition build_default_actions (cfg : AclConfig) : Action * Action * Action :=
  (default_action_of Inbound cfg, default_action_of Outbound cfg, default_action_of Forward cfg).

(** the fields of [AclProcessor] that never change *)
Record Processor : Type := mk_processor {
  inbound_rules : list FastLookupRule;
  outbound_rules : list FastLookupRule;
  forward_rules : list FastLookupRule;
  needs_src_groups : bool;
  needs_dst_groups : bool;
  default_inbound_action : Action;
  default_outbound_action : Action;
  default_forward_action : Action;
}.
Definition default_rule_stats : nat := 0.
Definition cache_max_size : nat := 1024.
Definition secs (n : Z) : Z := n * 1000000000.
Definition cache_cleanup_interval : Z := secs 20.

(** the shared tables: the cache, the limiters, tracked connections, statistics
    and rule counters (packets and bytes) *)
Record State : Type := mk_state {
  conn_track : gmap FlowKey ConnTrackEntry;
  rate_limiters : gmap RateLimitKey RateLimitValue;
  rule_cache : gmap AclCacheKey AclCacheEntry;
  stats : StatKey -> Z;
  counters : gmap nat (Z * Z);
}.

Definition new_internal (cfg : AclConfig) : Processor :=
  let '(i, o, f) := build_rules cfg in
  let '(di, d_o, df) := build_default_actions cfg in
  let all := i ++ o ++ f in
  mk_processor i o f
    (existsb (fun r => negb (bool_decide (source_groups r = []))) all)
    (existsb (fun r => negb (bool_decide (destination_groups r = []))) all) di d_o df.

(** a processor starts with an empty cache and fresh rule counters; on a reload
    it takes over connections, limiters and statistics *)
Definition new_with_shared_state (ct : gmap FlowKey ConnTrackEntry) (rl : gmap RateLimitKey RateLimitValue)
    (st : StatKey -> Z) : State := mk_state ct rl ∅ st ∅.

Definition rules_for (P : Processor) (ct : ChainType) : option (list FastLookupRule) :=
  match ct with
  | Inbound => Some (inbound_rules P)
  | Outbound => Some (outbound_rules P)
  | Forward => Some (forward_rules P)
  | UnspecifiedChain => None
  end.
Definition default_action (P : Processor) (ct : ChainType) : Action :=
  match ct with
  | Inbound => default_inbound_action P
  | Outbound => default_outbound_action P
  | Forward => default_forward_action P
  | UnspecifiedChain => Allow
  end.

(** ** Matching *)
Definition cidr_contains (c : Ipv4Cidr + Ipv6Cidr) (i : IpAddr) : bool :=
  match c, i with
  | inl c, V4 a => v4_contains c a
  | inr c, V6 a => v6_contains c a
  | _, _ => false
  end.
Definition ip_matches (l : list (Ipv4Cidr + Ipv6Cidr)) (i : IpAddr) : bool :=
  bool_decide (l = []) || existsb (fun c => cidr_contains c i) l.
Definition port_matches (l : list (Z * Z)) (p : option Z) : bool :=
  match p with
  | Some p => bool_decide (l = []) || existsb (fun r => (r.1 <=? p) && (p <=? r.2)) l
  | None => true
  end.
Definition group_matches (l groups : list text) : bool :=
  bool_decide (l = []) || existsb (fun g => bool_decide (g ∈ l)) groups.

Definition rule_matches (r : FastLookupRule) (p : PacketInfo) : bool :=
  (bool_decide (f_protocol r = AnyProtocol) || bool_decide (f_protocol r = protocol p)) &&
  ip_matches (src_ip_ranges r) (src_ip p) && ip_matches (dst_ip_ranges r) (dst_ip p) &&
  port_matches (src_port_ranges r) (src_port p) && port_matches (dst_port_ranges r) (dst_port p) &&
  group_matches (source_groups r) (src_groups p) && group_matches (destination_groups r) (dst_groups p).

End Processor.

(** ** State changes *)
Definition set_limiters (s : State) (m : gmap RateLimitKey RateLimitValue) : State :=
  mk_state (conn_track s) m (rule_cache s) (stats s) (counters s).
Definition set_cache (s : State) (m : gmap AclCacheKey AclCacheEntry) : State :=
  mk_state (conn_track s) (rate_limiters s) m (stats s) (counters s).
Definition increment_stat (s : State) (k : StatKey) : State :=
  mk_state (conn_track s) (rate_limiters s) (rule_cache s)
    (fun q => if decide (q = k) then wrap 64 (stats s q + 1) else stats s q) (counters s).

(** [RuleCounter::increment] *)
Definition increment_counter (size : Z) (m : gmap nat (Z * Z)) (id : nat) : gmap nat (Z * Z) :=
  let '(n, b) := default (0, 0) (m !! id) in <[id := (wrap 64 (n + 1), wrap 64 (b + size))]> m.
Definition inc_cache_entry_stats (s : State) (e : AclCacheEntry) (p : PacketInfo) : State :=
  mk_state (conn_track s) (rate_limiters s) (rule_cache s) (stats s)
    (foldl (increment_counter (packet_size p)) (counters s) (rule_stats_vec e)).

(** one token of the rule's bucket; a missing bucket is made when allowed *)
Definition check_rate_limit (s : State) (k : RateLimitKey) (rate burst : Z) (allow_create : bool) (now : Z)
    : outcome unit (State * bool) :=
  if rate =? 0 then Ok (s, true)
  else
    bucket ← match rate_limiters s !! k with
             | Some v => Ok (token_bucket v)
             | None => if allow_create then Ok (TokenBucket.new burst rate) else Panic
             end;
    let '(bucket, ok) := TokenBucket.try_consume bucket 1 in
    Ok (set_limiters s (<[k := mk_limit bucket now]> (rate_limiters s)), ok).

Definition check_connection_state (s : State) (k : FlowKey) (p : PacketInfo) (unix : Z) : State :=
  let e := match conn_track s !! k with
           | Some x => mk_conn (ct_src x) (ct_dst x) (ct_protocol x) Established (ct_created_at x) unix
                         (wrap 64 (ct_packets x + 1)) (wrap 64 (ct_bytes x + packet_size p))
           | None => mk_conn (new (src_ip p) (default 0 (src_port p))) (new (dst_ip p) (default 0 (dst_port p)))
                       (protocol p) New unix unix 1 (packet_size p)
           end in
  mk_state (<[k := e]> (conn_track s)) (rate_limiters s) (rule_cache s) (stats s) (counters s).

(** ** Clean-up *)
Definition older (a b : AclCacheKey * AclCacheEntry) : Prop := created_at a.2 <= created_at b.2.
#[export] Instance older_dec a b : Decision (older a b).
Proof. unfold older. apply _. Defined.

Definition cleanup_cache (m : gmap AclCacheKey AclCacheEntry) (max_size : nat) (now : Z) : gmap AclCacheKey AclCacheEntry :=
  let expired := if now <? secs 15 then now else now - secs 15 in
  let m := filter (fun kv => expired < created_at kv.2) m in
  if bool_decide (size m <= max_size)%nat then m
  else
    let entries := merge_sort older (map_to_list m) in
    let to_remove := (size m - max_size + max_size / 5)%nat in
    foldl (fun m kv => delete kv.1 m) m (take to_remove entries).

(** one turn of the first clean-up task *)
Definition cleanup_turn (s : State) (now : Z) : State :=
  mk_state (conn_track s)
    (filter (fun kv => now - last_update kv.2 < cache_cleanup_interval) (rate_limiters s))
    (cleanup_cache (rule_cache s) cache_max_size now) (stats s) (counters s).

(** [cleanup_expired_connections]; the difference wraps *)
Definition cleanup_expired_connections (s : State) (unix timeout_secs : Z) : State :=
  mk_state (filter (fun kv => ~ timeout_secs < wrap 64 (unix - ct_last_seen kv.2)) (conn_track s))
    (rate_limiters s) (rule_cache s) (stats s) (counters s).

Definition cache_result (s : State) (k : AclCacheKey) (e : AclCacheEntry) (now : Z) : State :=
  let m := <[k := e]> (rule_cache s) in
  set_cache s (if bool_decide (cache_max_size * 2 < size m)%nat then cleanup_cache m cache_max_size now else m).

(** ** The packet path *)
Definition rate_limit_drop (id : RuleId) : AclResult := mk_result Drop (Some id) false (Some RateLimitDrop).

(** the limits of a cached entry, all of which must admit the packet *)
Fixpoint check_cached_limits (s : State) (ks : list RateLimitKey) (now : Z) : outcome unit (State * bool) :=
  match ks with
  | [] => Ok (s, true)
  | k :: ks =>
      '(s, ok) ← check_rate_limit s k 1 1 false now;
      if ok : bool then check_cached_limits s ks now else Ok (s, false)
  end.

Definition process_packet_with_cache_entry (s : State) (p : PacketInfo) (e : AclCacheEntry) (now unix : Z)
    : outcome unit (State * AclResult) :=
  '(s, ok) ← check_cached_limits s (rate_limit_keys e) now;
  if negb ok then Ok (s, rate_limit_drop (e_matched_rule e))
  else
    let s := match conn_track_key e with Some k => check_connection_state s k p unix | None => s end in
    let s := inc_cache_entry_stats s e p in
    r ← unwrap (acl_result e);
    Ok (s, r).

Section Packet.
Context {C : CidrOps}.

(** what a matching rule puts in the cache *)
Definition rule_entry (r : FastLookupRule) (p : PacketInfo) (ct : ChainType) (now : Z) : AclCacheEntry :=
  let limited := 0 <? rate_limit r in
  let keys := if limited then [(ct, priority r)] else [] in
  let counted := (if limited then [rule_stats r] else []) ++ [rule_stats r] in
  if stateful r && bool_decide (f_action r = Allow) then
    mk_entry (Stateful (priority r)) now (Some (flow_key p)) keys
      (Some (mk_result Allow (Some (Stateful (priority r))) false (Some (StatefulMatch (src_ip p) (dst_ip p))))) counted
  else
    mk_entry (Priority (priority r)) now None keys
      (Some (mk_result (f_action r) (Some (Priority (priority r))) false
               (Some (RuleMatch (src_ip p) (dst_ip p) (f_action r))))) counted.

Definition default_entry (a : Action) (now : Z) : AclCacheEntry :=
  mk_entry Default now None []
    (Some (mk_result a (Some Default) false (Some (if bool_decide (a = Drop) then DefaultDrop else DefaultAllow))))
    [default_rule_stats].

(** a packet that matches [r] *)
Definition process_rule (s : State) (r : FastLookupRule) (p : PacketInfo) (ct : ChainType) (k : AclCacheKey) (now unix : Z)
    : outcome unit (State * AclResult) :=
  '(s, ok) ← (if 0 <? rate_limit r
              then check_rate_limit s (ct, priority r) (rate_limit r) (burst_limit r) true now else Ok (s, true));
  if negb ok then Ok (s, rate_limit_drop (Priority (priority r)))
  else
    let e := rule_entry r p ct now in
    let s := match conn_track_key e with Some k => check_connection_state s k p unix | None => s end in
    let s := increment_stat s RuleMatches in
    let s := inc_cache_entry_stats s e p in
    let s := cache_result s k e now in
    res ← unwrap (acl_result e);
    Ok (s, res).

Definition process_default (P : Processor) (s : State) (p : PacketInfo) (ct : ChainType) (k : AclCacheKey) (now : Z)
    : outcome unit (State * AclResult) :=
  let a := default_action P ct in
  let s := increment_stat s (if bool_decide (a = Drop) then DefaultDrops else DefaultAllows) in
  let e := default_entry a now in
  let s := inc_cache_entry_stats s e p in
  let s := cache_result s k e now in
  res ← unwrap (acl_result e);
  Ok (s, res).

Definition process_packet (P : Processor) (s : State) (p : PacketInfo) (ct : ChainType) (now unix : Z)
    : outcome unit (State * AclResult) :=
  let k := cache_key p ct (needs_src_groups P) (needs_dst_groups P) in
  match rule_cache s !! k with
  | Some cached => process_packet_with_cache_entry (increment_stat s CacheHits) p cached now unix
  | None =>
      match rules_for P ct with
      | None => Ok (s, mk_result Drop (Some Default) false (Some UnsupportedChainType))
      | Some rules =>
          match List.find (fun r => rule_matches r p) rules with
          | Some r => process_rule s r p ct k now unix
          | None => process_default P s p ct k now
          end
      end
  end.

End Packet.

(** ** The cache is transparent *)
Lemma cleanup_cache_lookup m n now k e : cleanup_cache m n now !! k = Some e ->
  m !! k = Some e /\ (if now <? secs 15 then now else now - secs 15) < created_at e.
Proof.
  unfold cleanup_cache. set (ex := if now <? secs 15 then _ else _). set (m' := filter _ m).
  assert (forall (l : list (AclCacheKey * AclCacheEntry)) (m0 : gmap AclCacheKey AclCacheEntry),
    foldl (fun m kv => delete kv.1 m) m0 l !! k = Some e -> m0 !! k = Some e) as Hdel.
  { induction l as [|[k' e'] l IH]; intros m0 H; [done|]. cbn in H. apply IH in H. apply lookup_delete_Some in H as [_ ?]. done. }
  intros H. assert (m' !! k = Some e) as Hm by (destruct (bool_decide _); [done|by eapply Hdel]).
  unfold m' in Hm. by apply map_lookup_filter_Some in Hm.
Qed.

Definition has_ports (p : Protocol) : bool := match p with Tcp | Udp => true | _ => false end.
(** ports are present exactly for TCP and UDP, as the filter extracts them *)
Definition ports_ok (p : PacketInfo) : Prop :=
  (src_port p = None <-> has_ports (protocol p) = false) /\ (dst_port p = None <-> has_ports (protocol p) = false).

Section Transparent.
Context {C : CidrOps} (P : Processor).

Definition all_rules : list FastLookupRule := inbound_rules P ++ outbound_rules P ++ forward_rules P.
(** a processor that ignores groups has no rule with groups *)
Definition groups_known : Prop :=
  (needs_src_groups P = false -> Forall (fun r => source_groups r = []) all_rules) /\
  (needs_dst_groups P = false -> Forall (fun r => destination_groups r = []) all_rules).

Hypothesis known : groups_known.

Lemma rules_for_all ct rules r : rules_for P ct = Some rules -> r ∈ rules -> r ∈ all_rules.
Proof. intros H Hr. unfold all_rules. destruct ct; cbn in H; simplify_eq; rewrite !elem_of_app; auto. Qed.

(** packets with one cache key match the same rules *)
Lemma key_determines p q ct rules r : ports_ok p -> ports_ok q ->
  cache_key p ct (needs_src_groups P) (needs_dst_groups P) = cache_key q ct (needs_src_groups P) (needs_dst_groups P) ->
  rules_for P ct = Some rules -> r ∈ rules -> rule_matches r p = rule_matches r q.
Proof.
  intros [Hp1 Hp2] [Hq1 Hq2] Hk Hrs Hr. apply (rules_for_all ct rules) in Hr; [|done].
  unfold cache_key, flow_key in Hk. injection Hk as Hs Hd Hsp Hdp Hpr Hsg Hdg.
  assert (forall a b, (a = None <-> has_ports (protocol q) = false) -> (b = None <-> has_ports (protocol q) = false) ->
    default 0 a = default 0 b -> a = b) as Hport.
  { intros [a|] [b|] Ha Hb E; cbn in E; [by f_equal|..|done]; naive_solver. }
  rewrite Hpr in Hp1, Hp2. apply (Hport (src_port p) (src_port q)) in Hsp; [|done..].
  apply (Hport (dst_port p) (dst_port q)) in Hdp; [|done..].
  unfold rule_matches. rewrite Hs, Hd, Hsp, Hdp, Hpr. destruct known as [K1 K2].
  f_equal; [f_equal|].
  - destruct (needs_src_groups P); [by injection Hsg as ->|]. specialize (K1 eq_refl). rewrite Forall_forall in K1.
    unfold group_matches. by rewrite (K1 r Hr).
  - destruct (needs_dst_groups P); [by injection Hdg as ->|]. specialize (K2 eq_refl). rewrite Forall_forall in K2.
    unfold group_matches. by rewrite (K2 r Hr).
Qed.

Lemma find_ext {A} (f g : A -> bool) l : (forall x, x ∈ l -> f x = g x) -> List.find f l = List.find g l.
Proof.
  induction l as [|x l IH]; intros H; [done|]. cbn. rewrite (H x) by left. rewrite IH; [done|]. intros. apply H. by right.
Qed.

(** the first rule that matches *)
Definition deciding_rule (ct : ChainType) (p : PacketInfo) : option FastLookupRule :=
  rules ← rules_for P ct; List.find (fun r => rule_matches r p) rules.

(** the result of a packet that no rate limit drops, from the rules alone *)
Definition verdict (ct : ChainType) (p : PacketInfo) : AclResult :=
  match rules_for P ct with
  | None => mk_result Drop (Some Default) false (Some UnsupportedChainType)
  | Some _ =>
      match deciding_rule ct p with
      | Some r =>
          if stateful r && bool_decide (f_action r = Allow)
          then mk_result Allow (Some (Stateful (priority r))) false (Some (StatefulMatch (src_ip p) (dst_ip p)))
          else mk_result (f_action r) (Some (Priority (priority r))) false (Some (RuleMatch (src_ip p) (dst_ip p) (f_action r)))
      | None => mk_result (default_action P ct) (Some Default) false
                  (Some (if bool_decide (default_action P ct = Drop) then DefaultDrop else DefaultAllow))
      end
  end.

(** the bucket of the deciding rule has a token left for the packet *)
Definition admits (s : State) (ct : ChainType) (r : FastLookupRule) : bool :=
  negb (0 <? rate_limit r) ||
  match rate_limiters s !! (ct, priority r) with
  | Some v => (1 <=? TokenBucket.capacity (token_bucket v)) && (1 <=? TokenBucket.available_tokens (token_bucket v))
  | None => 1 <=? burst_limit r
  end.

(** a cache entry is what the rules give for the packets of its key, and the
    limiters it refers to are there, used no earlier than it was made *)
Definition cached_ok (s : State) (now : Z) (k : AclCacheKey) (e : AclCacheEntry) : Prop :=
  exists p ct rules, ports_ok p /\ k = cache_key p ct (needs_src_groups P) (needs_dst_groups P) /\
    rules_for P ct = Some rules /\ created_at e <= now /\
    match deciding_rule ct p with
    | Some r => e = rule_entry r p ct (created_at e) /\
        (0 < rate_limit r -> exists v, rate_limiters s !! (ct, priority r) = Some v /\ created_at e <= last_update v)
    | None => e = default_entry (default_action P ct) (created_at e)
    end.

Definition inv (s : State) (now : Z) : Prop :=
  map_Forall (cached_ok s now) (rule_cache s) /\ map_Forall (fun _ v => last_update v <= now) (rate_limiters s).

(** entries may go, limiters may be used *)
Lemma inv_mono s s' now now' : inv s now -> now <= now' ->
  (forall k e, rule_cache s' !! k = Some e -> rule_cache s !! k = Some e) ->
  (forall k v, rate_limiters s !! k = Some v -> exists v', rate_limiters s' !! k = Some v' /\ last_update v <= last_update v') ->
  map_Forall (fun _ v => last_update v <= now') (rate_limiters s') -> inv s' now'.
Proof.
  intros [Hc Hl] Hn Hsub Hlim Hl'. split; [|done]. intros k e Hk. apply Hsub, Hc in Hk as (p & ct & rules & Hp & -> & Hr & Ht & Hm).
  exists p, ct, rules. split_and!; [done..|lia|]. destruct (deciding_rule ct p) as [r|]; [|done].
  destruct Hm as [He Hv]. split; [done|]. intros Hpos. destruct (Hv Hpos) as (v & Hv1 & Hv2).
  destruct (Hlim _ _ Hv1) as (v' & ? & ?). exists v'. split; [done|lia].
Qed.

Lemma inv_limiter s now now' k b : inv s now -> now <= now' ->
  inv (set_limiters s (<[k := mk_limit b now']> (rate_limiters s))) now'.
Proof.
  intros Hi Hn. eapply inv_mono; [exact Hi|done|done| |]; cbn.
  - intros k' v Hv. destruct (decide (k = k')) as [<-|].
    + rewrite lookup_insert_eq. eexists. split; [done|]. cbn. destruct Hi as [_ Hl]. specialize (Hl _ _ Hv). cbn in Hl. lia.
    + rewrite lookup_insert_ne by done. exists v. split; [done|lia].
  - apply map_Forall_insert_2; [cbn; lia|]. destruct Hi as [_ Hl]. intros k' v Hv. specialize (Hl _ _ Hv). cbn in Hl. lia.
Qed.

(** changes to the other tables *)
Lemma inv_other s s' now : inv s now -> rule_cache s' = rule_cache s -> rate_limiters s' = rate_limiters s -> inv s' now.
Proof. intros [Hc Hl] H1 H2. split; [|by rewrite H2]. rewrite H1. intros k e Hk. apply Hc in Hk. unfold cached_ok. by rewrite H2. Qed.

Lemma inv_cache_result s now p ct rules : inv s now -> ports_ok p -> rules_for P ct = Some rules ->
  forall e, created_at e = now ->
  match deciding_rule ct p with
  | Some r => e = rule_entry r p ct now /\
      (0 < rate_limit r -> exists v, rate_limiters s !! (ct, priority r) = Some v /\ last_update v = now)
  | None => e = default_entry (default_action P ct) now
  end ->
  inv (cache_result s (cache_key p ct (needs_src_groups P) (needs_dst_groups P)) e now) now.
Proof.
  intros [Hc Hl] Hp Hr e He Hm. split; [|done]. cbn [rule_cache cache_result set_cache].
  set (k := cache_key _ _ _ _). intros k' e' Hk'.
  assert (<[k := e]> (rule_cache s) !! k' = Some e') as Hin
    by (destruct (bool_decide _); [by apply cleanup_cache_lookup in Hk' as [? _]|done]).
  destruct (decide (k = k')) as [<-|Hne].
  - rewrite lookup_insert_eq in Hin. simplify_eq. exists p, ct, rules. split_and!; [done..|lia|].
    destruct (deciding_rule ct p) as [r|]; [|done]. destruct Hm as [He' Hv]. split; [done|].
    intros Hpos. destruct (Hv Hpos) as (v & ? & ?). exists v. split; [done|lia].
  - rewrite lookup_insert_ne in Hin by done. apply Hc in Hin. done.
Qed.

Lemma try_consume_one b : (TokenBucket.try_consume b 1).2 = (1 <=? TokenBucket.capacity b) && (1 <=? TokenBucket.available_tokens b).
Proof.
  unfold TokenBucket.try_consume. rewrite !Z.leb_antisym.
  destruct (TokenBucket.capacity b <? 1); [done|]. by destruct (TokenBucket.available_tokens b <? 1).
Qed.

Lemma check_rate_limit_spec s ct r rate burst allow now : 0 < rate -> 0 < rate_limit r ->
  (allow = true /\ burst = burst_limit r) \/ (exists v, rate_limiters s !! (ct, priority r) = Some v) ->
  exists b, check_rate_limit s (ct, priority r) rate burst allow now
    = Ok (set_limiters s (<[(ct, priority r) := mk_limit b now]> (rate_limiters s)), admits s ct r).
Proof.
  intros Hrate Hpos Hex. unfold check_rate_limit, admits. rewrite (proj2 (Z.eqb_neq rate 0)) by lia.
  rewrite (proj2 (Z.ltb_lt 0 _)) by done. cbn [negb orb].
  destruct (rate_limiters s !! (ct, priority r)) as [v|] eqn:E; cbn [mbind outcome_bind].
  - pose proof (try_consume_one (token_bucket v)) as H. destruct (TokenBucket.try_consume _ 1) as [b ok].
    cbn in H. subst ok. eauto.
  - destruct Hex as [[-> ->]|[v Hv]]; [|done]. cbn [mbind outcome_bind].
    pose proof (try_consume_one (TokenBucket.new (burst_limit r) rate)) as H.
    destruct (TokenBucket.try_consume _ 1) as [b ok]. cbn in H. subst ok. rewrite andb_diag. eauto.
Qed.

(** what processing a packet must give *)
Definition outcome_ok (s : State) (ct : ChainType) (p : PacketInfo) (r : AclResult) : Prop :=
  match deciding_rule ct p with
  | Some rule => if admits s ct rule then r = verdict ct p
                 else action r = Drop /\ log_context r = Some RateLimitDrop
  | None => r = verdict ct p
  end.

Lemma rule_entry_result r p ct now : acl_result (rule_entry r p ct now) =
  Some (if stateful r && bool_decide (f_action r = Allow)
        then mk_result Allow (Some (Stateful (priority r))) false (Some (StatefulMatch (src_ip p) (dst_ip p)))
        else mk_result (f_action r) (Some (Priority (priority r))) false (Some (RuleMatch (src_ip p) (dst_ip p) (f_action r)))).
Proof. unfold rule_entry. by destruct (_ && _). Qed.
Lemma rule_entry_fields r p ct now : created_at (rule_entry r p ct now) = now /\
  rate_limit_keys (rule_entry r p ct now) = (if 0 <? rate_limit r then [(ct, priority r)] else []).
Proof. unfold rule_entry. by destruct (_ && _). Qed.

Lemma verdict_rule ct p rules r : rules_for P ct = Some rules -> deciding_rule ct p = Some r ->
  acl_result (rule_entry r p ct 0) = Some (verdict ct p).
Proof. intros Hr Hd. rewrite rule_entry_result. unfold verdict. by rewrite Hr, Hd. Qed.

Lemma process_rule_spec s now now' unix p ct rules r : inv s now -> now <= now' -> ports_ok p ->
  rules_for P ct = Some rules -> deciding_rule ct p = Some r ->
  exists s' res, process_rule s r p ct (cache_key p ct (needs_src_groups P) (needs_dst_groups P)) now' unix = Ok (s', res) /\
    inv s' now' /\ outcome_ok s ct p res.
Proof.
  intros Hi Hn Hp Hrs Hd. unfold process_rule, outcome_ok. rewrite Hd.
  assert (inv s now') as Hi' by (eapply inv_mono; [exact Hi|done|done|eauto using Z.le_refl|]; destruct Hi as [_ Hl]; intros k v Hv; specialize (Hl k v Hv); cbn in Hl; lia).
  assert (exists s1, (if 0 <? rate_limit r then check_rate_limit s (ct, priority r) (rate_limit r) (burst_limit r) true now' else Ok (s, true))
      = Ok (s1, admits s ct r) /\ inv s1 now' /\
      (0 < rate_limit r -> exists v, rate_limiters s1 !! (ct, priority r) = Some v /\ last_update v = now')) as (s1 & -> & H1 & Hlim).
  { destruct (0 <? rate_limit r) eqn:E; bool_to_Z.
    - destruct (check_rate_limit_spec s ct r (rate_limit r) (burst_limit r) true now') as [b ->]; [done|done|by left|].
      eexists. split; [done|]. split; [by eapply inv_limiter|]. intros _. cbn. rewrite lookup_insert_eq. eauto.
    - exists s. unfold admits. rewrite (proj2 (Z.ltb_ge 0 _)) by done. split_and!; [done|done|lia]. }
  cbn [mbind outcome_bind]. destruct (admits s ct r); cbn [negb]; [|by eexists _, _].
  rewrite rule_entry_result. cbn [unwrap mbind outcome_bind]. eexists _, _. split; [done|]. split.
  - apply (inv_cache_result _ _ p ct rules); [|done|done|apply rule_entry_fields|].
    + eapply inv_other; [exact H1|..]; by destruct (conn_track_key _).
    + rewrite Hd. split; [done|]. intros Hpos. destruct (Hlim Hpos) as (v & Hv & ?). exists v.
      split; [|done]. by destruct (conn_track_key _).
  - unfold verdict. by rewrite Hrs, Hd.
Qed.

Lemma process_cached_spec s now now' unix p ct e : inv s now -> now <= now' -> ports_ok p ->
  rule_cache s !! cache_key p ct (needs_src_groups P) (needs_dst_groups P) = Some e ->
  exists s' res, process_packet_with_cache_entry (increment_stat s CacheHits) p e now' unix = Ok (s', res) /\
    inv s' now' /\ outcome_ok s ct p res.
Proof.
  intros Hi Hn Hp Hk. pose proof Hi as [Hc _]. apply Hc in Hk as (q & ct' & rules & Hq & Hkey & Hrs & Ht & Hm).
  assert (ct' = ct) as -> by (unfold cache_key in Hkey; by simplify_eq).
  assert (deciding_rule ct q = deciding_rule ct p) as Hdq.
  { unfold deciding_rule. rewrite Hrs. cbn. apply find_ext. intros r Hr. by eapply (key_determines q p ct rules). }
  assert (flow_key q = flow_key p) as Hfk by (unfold cache_key in Hkey; congruence).
  assert (src_ip q = src_ip p /\ dst_ip q = dst_ip p) as [Hsip Hdip] by (unfold flow_key in Hfk; by simplify_eq).
  rewrite Hdq in Hm. unfold outcome_ok, process_packet_with_cache_entry.
  assert (inv (increment_stat s CacheHits) now') as Hi'.
  { eapply inv_mono; [exact Hi|done|done|eauto using Z.le_refl|]. destruct Hi as [_ Hl]. intros k v Hv.
    specialize (Hl k v Hv). cbn in Hl. lia. }
  destruct (deciding_rule ct p) as [r|] eqn:Hd.
  - destruct Hm as [He Hlim]. rewrite He. rewrite (proj2 (rule_entry_fields r q ct _)).
    assert (exists s1, check_cached_limits (increment_stat s CacheHits) (if 0 <? rate_limit r then [(ct, priority r)] else []) now'
      = Ok (s1, admits s ct r) /\ inv s1 now') as (s1 & -> & H1).
    { destruct (0 <? rate_limit r) eqn:E; bool_to_Z; cbn [check_cached_limits].
      - destruct (Hlim E) as (v & Hv & _).
        destruct (check_rate_limit_spec (increment_stat s CacheHits) ct r 1 1 false now') as [b ->]; [done|done|right; by exists v|].
        cbn [mbind outcome_bind]. change (admits (increment_stat s CacheHits) ct r) with (admits s ct r).
        eexists. split; [by destruct (admits s ct r)|]. by eapply inv_limiter.
      - eexists. split; [|exact Hi']. unfold admits. by rewrite (proj2 (Z.ltb_ge 0 _)) by done. }
    cbn [mbind outcome_bind]. destruct (admits s ct r); cbn [negb]; [|by eexists _, _].
    rewrite rule_entry_result. cbn [unwrap mbind outcome_bind]. eexists _, _. split; [done|]. split.
    + eapply inv_other; [exact H1|..]; by destruct (conn_track_key _).
    + unfold verdict. by rewrite Hrs, Hd, Hsip, Hdip.
  - rewrite Hm. cbn. eexists _, _. split; [done|]. split; [by eapply inv_other|].
    unfold verdict. by rewrite Hrs, Hd.
Qed.

Lemma process_packet_spec s now now' unix p ct : inv s now -> now <= now' -> ports_ok p ->
  exists s' r, process_packet P s p ct now' unix = Ok (s', r) /\ inv s' now' /\ outcome_ok s ct p r.
Proof.
  intros Hi Hn Hp. unfold process_packet.
  destruct (rule_cache s !! _) as [e|] eqn:Hk; [by eapply process_cached_spec|].
  assert (inv s now') as Hi' by (eapply inv_mono; [exact Hi|done|done|eauto using Z.le_refl|]; destruct Hi as [_ Hl]; intros k v Hv; specialize (Hl k v Hv); cbn in Hl; lia).
  destruct (rules_for P ct) as [rules|] eqn:Hrs.
  2: { eexists _, _. split; [done|]. split; [done|]. unfold outcome_ok, deciding_rule, verdict. by rewrite Hrs. }
  destruct (List.find _ rules) as [r|] eqn:Hf.
  - eapply process_rule_spec; [exact Hi|done|done|exact Hrs|]. unfold deciding_rule. by rewrite Hrs.
  - assert (deciding_rule ct p = None) as Hd by (unfold deciding_rule; by rewrite Hrs).
    unfold process_default. cbn [acl_result default_entry unwrap mbind outcome_bind].
    eexists _, _. split; [done|]. split.
    + apply (inv_cache_result _ _ p ct rules); [by eapply inv_other|done|done|done|by rewrite Hd].
    + unfold outcome_ok, verdict. by rewrite Hd, Hrs.
Qed.

(** the clean-up task drops a limiter only after the entries that use it *)
Lemma cleanup_turn_inv s now now' : inv s now -> now <= now' -> inv (cleanup_turn s now') now'.
Proof.
  intros [Hc Hl] Hn. split; cbn.
  - intros k e Hk. apply cleanup_cache_lookup in Hk as [Hk Hex].
    apply Hc in Hk as (p & ct & rules & Hp & -> & Hr & Ht & Hm). exists p, ct, rules. split_and!; [done..|lia|].
    destruct (deciding_rule ct p) as [r|]; [|done]. destruct Hm as [He Hv]. split; [done|]. intros Hpos.
    destruct (Hv Hpos) as (v & Hv1 & Hv2). exists v. split; [|done]. apply map_lookup_filter_Some. split; [done|]. cbn.
    unfold cache_cleanup_interval, secs in *. destruct (now' <? 15 * 1000000000) eqn:E; bool_to_Z; lia.
  - intros k v Hv. apply map_lookup_filter_Some in Hv as [Hv _]. specialize (Hl k v Hv). cbn in Hl. lia.
Qed.
(** ** Runs of a processor: packets, clean-up turns, refills of the buckets *)
Inductive step : State * Z -> State * Z -> Prop :=
| step_packet s now p ct now' unix s' r : now <= now' -> ports_ok p ->
    process_packet P s p ct now' unix = Ok (s', r) -> step (s, now) (s', now')
| step_cleanup s now now' : now <= now' -> step (s, now) (cleanup_turn s now', now')
| step_connections s now unix : step (s, now) (cleanup_expired_connections s unix 60, now)
| step_refill s now k v micros : rate_limiters s !! k = Some v ->
    step (s, now) (set_limiters s (<[k := mk_limit (TokenBucket.refill (token_bucket v) micros) (last_update v)]> (rate_limiters s)), now).

Lemma acl_step_inv x y : step x y -> inv x.1 x.2 -> inv y.1 y.2.
Proof.
  intros [s now p ct now' unix s' r Hn Hp E|s now now' Hn|s now unix|s now k v micros Hk]; cbn [fst snd]; intros Hi.
  - destruct (process_packet_spec s now now' unix p ct Hi Hn Hp) as (s1 & r1 & E1 & Hi1 & _). congruence.
  - by eapply cleanup_turn_inv.
  - by eapply inv_other.
  - eapply inv_mono; [exact Hi|lia|done| |]; cbn.
    + intros k' w Hw. destruct (decide (k = k')) as [<-|].
      * rewrite lookup_insert_eq. eexists. split; [done|]. cbn. simplify_eq. lia.
      * rewrite lookup_insert_ne by done. exists w. split; [done|lia].
    + destruct Hi as [_ Hl]. apply map_Forall_insert_2; [exact (Hl _ _ Hk)|done].
Qed.

Lemma acl_run_inv x y : rtc step x y -> inv x.1 x.2 -> inv y.1 y.2.
Proof. induction 1; eauto using acl_step_inv. Qed.

Lemma fresh_inv conns limits st now : map_Forall (fun _ v => last_update v <= now) limits ->
  inv (new_with_shared_state conns limits st) now.
Proof. intros H. split; [apply map_Forall_empty|done]. Qed.
End Transparent.

Section Config.
Context {C : CidrOps}.

Lemma any_false {A} (f : A -> bool) l : existsb f l = false -> Forall (fun x => f x = false) l.
Proof. induction l as [|x l IH]; cbn; [constructor|]. intros [? ?]%orb_false_iff. eauto. Qed.

Lemma new_internal_known cfg : groups_known (new_internal cfg).
Proof.
  split; cbn; intros H; apply any_false in H; (eapply Forall_impl; [exact H|]); cbn; intros r Hr;
    by apply negb_false_iff, bool_decide_eq_true in Hr.
Qed.

(** C27: From any shared tables a reload hands over, through any sequence of packets, clean-up turns
    and bucket refills, the next packet is processed without a panic, the limiter that a cached
    result refers to included, and its result is the one the rules alone give: that of the first
    matching rule or of the default action, cached or not, unless the bucket of the deciding rule is
    empty, and then the packet is dropped. *)
Theorem acl_cache_transparent cfg conns limits st now0 s now now' unix p ct :
  map_Forall (fun _ v => last_update v <= now0) limits ->
  rtc (step (new_internal cfg)) (new_with_shared_state conns limits st, now0) (s, now) ->
  now <= now' -> ports_ok p ->
  exists s' r, process_packet (new_internal cfg) s p ct now' unix = Ok (s', r) /\ outcome_ok (new_internal cfg) s ct p r.
Proof.
  intros Hl Hrun Hn Hp. pose proof (new_internal_known cfg) as Hk.
  apply (acl_run_inv _ Hk) in Hrun; [|by apply fresh_inv].
  destruct (process_packet_spec _ Hk s now now' unix p ct) as (s' & r & ? & _ & ?); eauto.
Qed.

(** ** Which rule decides *)
Lemma rule_matches_id i j r p :
  rule_matches (convert_to_fast_lookup_rule i r) p = rule_matches (convert_to_fast_lookup_rule j r) p.
Proof. done. Qed.

Definition descending (l : list FastLookupRule) : Prop := StronglySorted (fun q r => priority r <= priority q) l.

Lemma insert_rule_elem r l q : q ∈ insert_rule r l -> q = r \/ q ∈ l.
Proof.
  induction l as [|h l IH]; cbn; [rewrite list_elem_of_singleton; auto|].
  destruct (priority h <=? priority r); rewrite !elem_of_cons; [naive_solver|]. intros [->|?%IH]; naive_solver.
Qed.
Lemma insert_rule_descending r l : descending l -> descending (insert_rule r l).
Proof.
  induction 1 as [|h l Hs IH Hh]; cbn; [by repeat constructor|].
  destruct (priority h <=? priority r) eqn:E; bool_to_Z.
  - constructor; [by constructor|]. constructor; [done|]. eapply Forall_impl; [exact Hh|]. cbn. lia.
  - constructor; [done|]. apply Forall_forall. intros q [->|Hq]%insert_rule_elem; [lia|].
    rewrite Forall_forall in Hh. by apply Hh.
Qed.
Lemma sort_rules_descending l : descending (sort_rules l).
Proof. induction l; cbn; [constructor|by apply insert_rule_descending]. Qed.

(** the first match after an insertion *)
Lemma find_insert f r l : descending l -> List.find f (insert_rule r l) =
  if f r then match List.find f l with
              | Some q => Some (if priority q <=? priority r then r else q)
              | None => Some r
              end
  else List.find f l.
Proof.
  induction 1 as [|h l Hs IH Hh]; cbn; [by destruct (f r)|].
  destruct (priority h <=? priority r) eqn:E; cbn.
  - destruct (f r); [|done]. destruct (f h); [by rewrite E|]. destruct (List.find f l) as [q|] eqn:Eq; [|done].
    apply List.find_some in Eq as [Hq _]. rewrite <- list_elem_of_In in Hq. rewrite Forall_forall in Hh. specialize (Hh q Hq).
    cbn in Hh. bool_to_Z. by rewrite (proj2 (Z.leb_le _ _)) by lia.
  - rewrite IH. destruct (f h); [|done]. rewrite E. by destruct (f r).
Qed.

Definition enabled_match (p : PacketInfo) (r : Rule) : Prop :=
  r_enabled r = true /\ rule_matches (convert_to_fast_lookup_rule 0 r) p = true.

(** the best rule of a chain: the highest priority, then the first in the configuration *)
Definition best_of (rs : list Rule) (p : PacketInfo) (r : option FastLookupRule) : Prop :=
  match r with
  | Some r => exists i r0 id, rs !! i = Some r0 /\ enabled_match p r0 /\ r = convert_to_fast_lookup_rule id r0 /\
      forall j r1, rs !! j = Some r1 -> enabled_match p r1 ->
        r_priority r1 < r_priority r0 \/ (r_priority r1 = r_priority r0 /\ (i <= j)%nat)
  | None => forall j r1, rs !! j = Some r1 -> ~ enabled_match p r1
  end.

Lemma best_of_skip r rs p o : ~ enabled_match p r -> best_of rs p o -> best_of (r :: rs) p o.
Proof.
  intros Hn. destruct o as [q|]; cbn.
  - intros (i & r0 & id & Hi & Hm & -> & Hall). exists (S i), r0, id. split_and!; [done..|].
    intros [|j] r1 Hj Hm1; cbn in Hj; simplify_eq; [done|]. destruct (Hall j r1 Hj Hm1) as [|[]]; [by left|right; split; [done|lia]].
  - intros Hall [|j] r1 Hj Hm1; cbn in Hj; simplify_eq; [done|]. by eapply Hall.
Qed.

Lemma chain_rules_best id c p : best_of (c_rules c) p (List.find (fun r => rule_matches r p) (chain_rules id c)).
Proof.
  unfold chain_rules. generalize (c_rules c) as rs. intros rs. revert id. induction rs as [|r rs IH]; intros id; [cbn; done|].
  rewrite filter_cons. case_decide as He.
  2: { apply best_of_skip; [|apply IH]. unfold enabled_match. naive_solver. }
  cbn [imap foldr sort_rules]. change (foldr insert_rule [] ?l) with (sort_rules l).
  rewrite find_insert by apply sort_rules_descending.
  replace (imap _ _) with (imap (fun i r => convert_to_fast_lookup_rule (S id + i) r) (filter (fun r => r_enabled r = true) rs))
    by (apply imap_ext; intros; cbn; f_equal; lia).
  specialize (IH (S id)). set (o := List.find _ _) in *. rewrite (rule_matches_id _ 0).
  destruct (rule_matches (convert_to_fast_lookup_rule 0 r) p) eqn:Em; [|apply best_of_skip; [by intros [_ ?]; congruence|done]].
  destruct o as [q|]; cbn in IH.
  - destruct IH as (i & r0 & id0 & Hi & Hm & -> & Hall). cbn [priority convert_to_fast_lookup_rule].
    destruct (r_priority r0 <=? r_priority r) eqn:E; bool_to_Z; cbn.
    + exists 0%nat, r, (id + 0)%nat. split_and!; [done..|]. intros [|j] r1 Hj Hm1; cbn in Hj; simplify_eq; [right; split; [done|lia]|].
      destruct (Hall j r1 Hj Hm1) as [|[]]; [left; lia|]. destruct (decide (r_priority r1 = r_priority r)); [right; split; [done|lia]|left; lia].
    + exists (S i), r0, id0. split_and!; [done..|]. intros [|j] r1 Hj Hm1; cbn in Hj; simplify_eq; [left; lia|].
      destruct (Hall j r1 Hj Hm1) as [|[]]; [by left|right; split; [done|lia]].
  - exists 0%nat, r, (id + 0)%nat. split_and!; [done..|]. intros [|j] r1 Hj Hm1; cbn in Hj; simplify_eq; [right; split; [done|lia]|].
    by destruct (IH j r1 Hj).
Qed.

(** rule [i] of chain [a] of the configuration is enabled, of the chain's type and matches *)
Definition candidate (cs : list Chain) (ct : ChainType) (p : PacketInfo) (a i : nat) (r : Rule) : Prop :=
  exists c, cs !! a = Some c /\ c_enabled c = true /\ c_chain_type c = ct /\ c_rules c !! i = Some r /\ enabled_match p r.

Lemma candidate_skip c cs ct p a i r : candidate (c :: cs) ct p (S a) i r <-> candidate cs ct p a i r.
Proof. done. Qed.

Lemma find_app {A} (f : A -> bool) l k : List.find f (l ++ k) = match List.find f l with Some x => Some x | None => List.find f k end.
Proof. induction l as [|x l IH]; cbn; [done|]. by destruct (f x). Qed.

(** chains in their order, then priorities, then the order of the rules *)
Definition precedes (a i : nat) (r : Rule) (b j : nat) (r' : Rule) : Prop :=
  (a < b)%nat \/ (a = b /\ (r_priority r' < r_priority r \/ (r_priority r' = r_priority r /\ (i <= j)%nat))).

Definition first_candidate (cs : list Chain) (ct : ChainType) (p : PacketInfo) (r : option FastLookupRule) : Prop :=
  match r with
  | Some r => exists a i r0 id, candidate cs ct p a i r0 /\ r = convert_to_fast_lookup_rule id r0 /\
      forall b j r1, candidate cs ct p b j r1 -> precedes a i r0 b j r1
  | None => forall b j r1, ~ candidate cs ct p b j r1
  end.

Lemma first_candidate_skip c cs ct p o : (forall i r, ~ candidate (c :: cs) ct p 0 i r) ->
  first_candidate cs ct p o -> first_candidate (c :: cs) ct p o.
Proof.
  intros Hn. destruct o as [q|]; cbn.
  - intros (a & i & r0 & id & Hc & -> & Hall). exists (S a), i, r0, id. split_and!; [done..|].
    intros [|b] j r1 Hb; [by apply Hn in Hb|]. destruct (Hall b j r1 Hb) as [|[-> ?]]; [left; lia|by right].
  - intros Hall [|b] j r1 Hb; [by apply Hn in Hb|]. by apply (Hall b j r1).
Qed.

Lemma rules_of_type_first ct cs id p :
  first_candidate cs ct p (List.find (fun r => rule_matches r p) (rules_of_type ct id cs)).
Proof.
  revert id. induction cs as [|c cs IH]; intros id; cbn [rules_of_type].
  { cbn. intros b j r1 (c & Hb & _). done. }
  rewrite find_app. destruct (c_enabled c && bool_decide (c_chain_type c = ct)) eqn:E.
  2: { cbn [List.find]. apply first_candidate_skip; [|apply IH]. intros i r (c' & Hc & He & Ht & _). cbn in Hc. simplify_eq.
       rewrite He, bool_decide_true in E by done. done. }
  apply andb_true_iff in E as [He Ht%bool_decide_eq_true].
  pose proof (chain_rules_best id c p) as Hb. destruct (List.find _ (chain_rules id c)) as [q|]; cbn in Hb.
  - destruct Hb as (i & r0 & id0 & Hi & Hm & -> & Hall). exists 0%nat, i, r0, id0. split_and!; [by exists c|done|].
    intros [|b] j r1 (c' & Hc & _ & _ & Hj & Hm1); [|left; lia]. cbn in Hc. simplify_eq. right. split; [done|]. by apply Hall.
  - apply first_candidate_skip; [|apply IH]. intros i r (c' & Hc & _ & _ & Hj & Hm). cbn in Hc. simplify_eq. by destruct (Hb i r Hj).
Qed.

Lemma rules_for_new cfg ct : rules_for (new_internal cfg) ct =
  if bool_decide (ct = UnspecifiedChain) then None else Some (rules_of_type ct 1 (default [] cfg)).
Proof. by destruct ct. Qed.

(** C28: The rule that decides a packet is the enabled matching rule of the first enabled chain of the
    packet's chain type that has one, in that chain the one with the highest priority, and among
    equal priorities the first configured; when no rule decides, no enabled rule of an enabled chain
    of the type matches. *)
Theorem acl_priority_order cs ct p :
  if bool_decide (ct = UnspecifiedChain) then verdict (new_internal (Some cs)) ct p = mk_result Drop (Some Default) false (Some UnsupportedChainType)
  else first_candidate cs ct p (deciding_rule (new_internal (Some cs)) ct p).
Proof.
  destruct (bool_decide_reflect (ct = UnspecifiedChain)) as [->|Hne]; [done|].
  unfold deciding_rule. rewrite rules_for_new, bool_decide_false by done. cbn. apply rules_of_type_first.
Qed.

(** a limited rule appears twice among the counters of its cache entry, so every packet it lets
    through counts as two packets *)
Lemma limited_rule_counts_twice s r p ct k now unix s' res : 0 < rate_limit r ->
  process_rule s r p ct k now unix = Ok (s', res) -> log_context res <> Some RateLimitDrop ->
  let '(n, b) := default (0, 0) (counters s !! rule_stats r) in
  counters s' !! rule_stats r = Some (wrap 64 (wrap 64 (n + 1) + 1), wrap 64 (wrap 64 (b + packet_size p) + packet_size p)).
Proof.
  intros Hl H Hres. unfold process_rule in H. rewrite (proj2 (Z.ltb_lt 0 _)) in H by done.
  destruct (check_rate_limit s _ _ _ _ _) as [[s1 ok]|[]|] eqn:E; cbn [mbind outcome_bind] in H; [|done|done].
  assert (counters s1 = counters s) as Hc.
  { unfold check_rate_limit in E. rewrite (proj2 (Z.eqb_neq _ 0)) in E by lia.
    destruct (match rate_limiters s !! _ with Some _ => _ | None => _ end) as [b|[]|]; cbn [mbind outcome_bind] in E; [|done|done].
    destruct (TokenBucket.try_consume b 1). by simplify_eq. }
  destruct ok; cbn [negb] in H; [|by simplify_eq].
  rewrite rule_entry_result in H. cbn [unwrap mbind outcome_bind] in H. simplify_eq. cbn [counters cache_result set_cache inc_cache_entry_stats].
  assert (rule_stats_vec (rule_entry r p ct now) = [rule_stats r; rule_stats r]) as ->.
  { unfold rule_entry. rewrite (proj2 (Z.ltb_lt 0 _)) by done. by destruct (_ && _). }
  replace (counters (increment_stat _ _)) with (counters s) by (cbn; by destruct (conn_track_key _)).
  cbn [foldl]. unfold increment_counter. destruct (default (0, 0) (counters s !! rule_stats r)) as [n b].
  rewrite lookup_insert_eq. cbn. by rewrite lookup_insert_eq.
Qed.

(** selectors that do not parse are left out: a rule that names only such sources takes any source *)
Lemma unparsable_sources_match_all id r i : omap cidr_from_str (r_source_ips r) = [] ->
  ip_matches (src_ip_ranges (convert_to_fast_lookup_rule id r)) i = true.
Proof. intros H. cbn. by rewrite H. Qed.

End Config.

(** ** A processor of one limited rule *)
(** networks of a single host *)
Definition host_only : CidrOps := {|
  Ipv4Cidr := Z; Ipv6Cidr := Z; v4_contains := Z.eqb; v6_contains := Z.eqb;
  cidr_from_str := fun s => match Net.parse_ip s with Some (V4 a) => Some (inl a) | Some (V6 a) => Some (inr a) | None => None end;
|}.
Definition demo_rule : Rule :=
  mk_rule 10 true Tcp [str "80-90"] [str "10.0.0.1"] [] [] Allow 5 2 true [] [].
Definition demo_config : AclConfig := Some [mk_chain Inbound true [demo_rule] Drop].
Definition demo_packet : PacketInfo := mk_info (V4 167772161) (V4 167772162) (Some 4000) (Some 85) Tcp 100 [] [].
Definition demo_start : State := new_with_shared_state ∅ ∅ (fun _ => 0).

(** after one packet of the rule a second one takes the cached result *)
Lemma acl_cache_transparent_witness :
  let P := new_internal (C := host_only) demo_config in
  exists s1 r1, process_packet (C := host_only) P demo_start demo_packet Inbound 5 0 = Ok (s1, r1) /\
  exists s2 r2, process_packet (C := host_only) P s1 demo_packet Inbound 7 0 = Ok (s2, r2) /\
    outcome_ok (C := host_only) P s1 Inbound demo_packet r2.
Proof.
  intros P. assert (map_Forall (fun _ v => last_update v <= 3) (rate_limiters demo_start)) as Hl by apply map_Forall_empty.
  destruct (process_packet_spec (C := host_only) P (new_internal_known _) demo_start 3 5 0 demo_packet Inbound
    (fresh_inv (C := host_only) P _ _ _ _ Hl)) as (s1 & r1 & E & _ & _); [lia|done|].
  exists s1, r1. split; [exact E|].
  apply (acl_cache_transparent (C := host_only) demo_config ∅ ∅ (fun _ => 0) 3 s1 5 7 0 demo_packet Inbound); [exact Hl| |lia|done].
  apply rtc_once. by apply (step_packet (C := host_only) P demo_start 3 demo_packet Inbound 5 0 s1 r1).
Defined.

End Acl.
