(* ===== verification/AclWhitelist.v ===== *)
(** * Port whitelists (src/lowertier/src/common/acl_processor.rs, [AclRuleBuilder])

    The chain that the TCP and UDP port whitelists of the configuration turn
    into, and what it lets in. *)
From stdpp Require Import base list gmap numbers strings sorting.
From Stdlib Require Import ZArith Lia.
From S2P Require Import Prelude NetAddr TokenBucket Acl.

Local Open Scope Z_scope.

Module AclWhitelist.
Import Acl.

Record AclRuleBuilder : Type := mk_builder {
  (** no ACL, or one with or without a first version *)
  acl : option (option (list Chain));
  tcp_whitelist : list (list Z);
  udp_whitelist : list (list Z);
  whitelist_priority : option Z;
}.

(** one entry of a list: a range is kept as it is, a port is printed again *)
Definition parse_port_spec (s : list Z) : option (list Z) :=
  if bool_decide (45 ∈ s) then
    match Text.split 45 s with
    | [a; b] =>
        start ← Decimal.parse_u 16 a;
        stop ← Decimal.parse_u 16 b;
        if stop <? start then None else Some s
    | _ => None
    end
  else port ← Decimal.parse_u 16 s; Some (Decimal.print port).
Fixpoint parse_port_list (l : list (list Z)) : option (list (list Z)) :=
  match l with
  | [] => Some []
  | s :: l => p ← parse_port_spec s; ps ← parse_port_list l; Some (p :: ps)
  end.

Definition allow_rule (proto : Protocol) (priority : Z) (ports : list (list Z)) (stateful : bool) : Rule :=
  mk_rule priority true proto ports [] [] [] Allow 0 0 stateful [] [].
Definition deny_other (proto : Protocol) : Rule :=
  mk_rule 0 true proto [str "0-65535"] [] [] [] Drop 0 0 false [] [].

(** the rules of one protocol *)
Definition whitelist_rules (proto : Protocol) (priority : Z) (l : list (list Z)) (stateful : bool) : option (list Rule) :=
  match l with
  | [] => Some []
  | _ => ports ← parse_port_list l; Some [allow_rule proto priority ports stateful; deny_other proto]
  end.

Definition generate_acl_from_whitelists (b : AclRuleBuilder) : option AclRuleBuilder :=
  match tcp_whitelist b, udp_whitelist b with
  | [], [] => Some b
  | _, _ =>
      let rule_priority := default 1000 (whitelist_priority b) in
      tcp ← whitelist_rules Tcp rule_priority (tcp_whitelist b) true;
      let rule_priority := if bool_decide (tcp_whitelist b = []) then rule_priority else wrap 32 (rule_priority - 1) in
      udp ← whitelist_rules Udp rule_priority (udp_whitelist b) false;
      let inbound_chain := mk_chain Inbound true (tcp ++ udp) Allow in
      let v1 := match mjoin (acl b) with
                | Some chains => chains ++ [inbound_chain]
                | None => [inbound_chain]
                end in
      Some (mk_builder (Some (Some v1)) (tcp_whitelist b) (udp_whitelist b) (whitelist_priority b))
  end.

Definition do_build (b : AclRuleBuilder) : option (option (option (list Chain))) :=
  b ← generate_acl_from_whitelists b; Some (acl b).

(** [build_config]: the builder of a configuration *)
Definition build_config (acl : option (option (list Chain))) (tcp udp : list (list Z)) : option (option (option (list Chain))) :=
  do_build (mk_builder acl tcp udp None).

(** ** Ports and ranges as text *)
(** what an entry means: a port, or a range with its ends in order *)
Inductive port_spec : list Z -> Z -> Z -> Prop :=
| spec_port t a : Decimal.parse_u 16 t = Some a -> port_spec t a a
| spec_range t1 t2 a b : Decimal.parse_u 16 t1 = Some a -> Decimal.parse_u 16 t2 = Some b -> a <= b ->
    port_spec (t1 ++ 45 :: t2) a b.

Definition plain (c : Z) : bool := Decimal.is_digit c || (c =? 43).

Lemma read_plain hi s : forall acc z, Decimal.read hi acc s = Some z -> Forall (fun c => plain c = true) s /\ (acc <= hi -> z <= hi).
Proof.
  induction s as [|c s IH]; intros acc z H; cbn in H; [simplify_eq; done|].
  destruct (Decimal.is_digit c) eqn:E; [|done]. destruct (_ <=? hi) eqn:E2; [|done]. apply IH in H as [H H2]. bool_to_Z.
  split; [constructor; [unfold plain; by rewrite E|done]|auto].
Qed.
Lemma read_nonneg hi s : forall acc z, 0 <= acc -> Decimal.read hi acc s = Some z -> 0 <= z.
Proof.
  induction s as [|c s IH]; intros acc z Ha H; cbn in H; [simplify_eq; done|].
  destruct (Decimal.is_digit c) eqn:E; [|done]. destruct (_ <=? hi) eqn:E2; [|done]. apply IH in H; [done|].
  unfold Decimal.is_digit in E. bool_to_Z. lia.
Qed.

Lemma parse_u_plain s z : Decimal.parse_u 16 s = Some z -> s <> [] /\ Forall (fun c => plain c = true) s /\ 0 <= z < 65536.
Proof.
  unfold Decimal.parse_u. intros H. destruct s as [|c r]; [done|]. split; [done|]. destruct (c =? 43) eqn:E.
  - destruct r as [|d r]; [done|]. pose proof (read_nonneg _ _ _ _ (Z.le_refl 0) H). apply read_plain in H as [H Hz]. split.
    + constructor; [unfold plain; rewrite E; by rewrite orb_true_r|done].
    + specialize (Hz ltac:(done)). change (u_max 16) with 65535 in Hz. lia.
  - pose proof (read_nonneg _ _ _ _ (Z.le_refl 0) H). apply read_plain in H as [H Hz]. split; [done|].
    specialize (Hz ltac:(done)). change (u_max 16) with 65535 in Hz. lia.
Qed.

(** ** Trimming does nothing to a number *)
Definition starts_plain (w : list Z) : bool := match w with [] => true | c :: _ => plain c end.

Lemma strip_all_plain fuel ws c s : Forall (fun w => starts_plain w = false) ws -> plain c = true ->
  Text.strip_all fuel ws (c :: s) = c :: s.
Proof.
  intros Hw Hc. assert (Text.strip_one ws (c :: s) = None) as H.
  { induction Hw as [|w ws Hw _ IH]; [done|]. cbn. rewrite bool_decide_false; [done|].
    destruct w as [|d w]; [done|]. cbn in Hw |- *. intros [= ->]. congruence. }
  destruct fuel; cbn; [done|]. by rewrite H.
Qed.
Lemma white_space_plain : Forall (fun w => starts_plain w = false) Text.white_space /\
  Forall (fun w => starts_plain w = false) (reverse <$> Text.white_space).
Proof. split; eapply bool_decide_eq_true_1; vm_compute; reflexivity. Qed.

Lemma trim_plain s : Forall (fun c => plain c = true) s -> Text.trim s = s.
Proof.
  intros H. destruct white_space_plain as [W1 W2]. unfold Text.trim.
  destruct s as [|c s]; [done|]. rewrite strip_all_plain; [|done|by inversion H].
  pose proof (proj2 (Forall_reverse _ _) H) as Hr. destruct (reverse (c :: s)) as [|d r] eqn:E.
  { apply (f_equal reverse) in E. rewrite reverse_involutive in E. done. }
  rewrite strip_all_plain; [|done|by inversion Hr]. by rewrite <- E, reverse_involutive.
Qed.

Lemma split_none c s : c ∉ s -> Text.split c s = [s].
Proof.
  induction s as [|x s IH]; intros H; [done|]. cbn. rewrite elem_of_cons in H.
  rewrite (proj2 (Z.eqb_neq x c)) by naive_solver. rewrite IH by naive_solver. done.
Qed.
Lemma split_app c a s : c ∉ a -> Text.split c (a ++ c :: s) = a :: Text.split c s.
Proof.
  induction a as [|x a IH]; intros H; cbn; [by rewrite Z.eqb_refl|]. rewrite elem_of_cons in H.
  rewrite (proj2 (Z.eqb_neq x c)) by naive_solver. rewrite IH by naive_solver. done.
Qed.
Lemma split_once_app c a s : c ∉ a -> Text.split_once c (a ++ c :: s) = Some (a, s).
Proof.
  induction a as [|x a IH]; intros H; cbn; [by rewrite Z.eqb_refl|]. rewrite elem_of_cons in H.
  rewrite (proj2 (Z.eqb_neq x c)) by naive_solver. rewrite IH by naive_solver. done.
Qed.
Lemma split_once_none c s : c ∉ s -> Text.split_once c s = None.
Proof.
  induction s as [|x s IH]; intros H; [done|]. cbn. rewrite elem_of_cons in H.
  rewrite (proj2 (Z.eqb_neq x c)) by naive_solver. rewrite IH by naive_solver. done.
Qed.

Lemma plain_no_dash s : Forall (fun c => plain c = true) s -> 45 ∉ s.
Proof. intros H Hin. rewrite Forall_forall in H. by apply H in Hin. Qed.

(** an accepted entry means what it says, and every meaningful entry is accepted *)
Lemma parse_port_spec_sound s t : parse_port_spec s = Some t ->
  exists a b, port_spec s a b /\ parse_port_range t = Some (a, b).
Proof.
  unfold parse_port_spec. destruct (bool_decide_reflect (45 ∈ s)) as [Hd|Hd].
  - apply list_elem_of_split_l in Hd as (x & y & -> & Hx). rewrite split_app by done.
    destruct (decide (45 ∈ y)) as [Hy|Hy].
    { apply list_elem_of_split_l in Hy as (y1 & y2 & -> & Hy1). rewrite split_app by done.
      destruct (Text.split 45 y2) as [|z zs] eqn:Ez; [|done]. destruct y2; cbn in Ez; [done|].
      destruct (_ =? 45); [done|]. by destruct (Text.split 45 y2). }
    rewrite split_none by done. destruct (Decimal.parse_u 16 x) as [a|] eqn:Ea; [|done]. cbn.
    destruct (Decimal.parse_u 16 y) as [b|] eqn:Eb; [|done]. cbn. destruct (b <? a) eqn:E; [done|]. bool_to_Z. intros [= <-].
    exists a, b. split; [by constructor|]. unfold parse_port_range. rewrite split_once_app by done.
    rewrite !trim_plain by (by eapply parse_u_plain). by rewrite Ea, Eb.
  - destruct (Decimal.parse_u 16 s) as [a|] eqn:Ea; [|done]. cbn [mbind option_bind]. intros [= <-]. exists a, a. split; [by constructor|].
    destruct (parse_u_plain _ _ Ea) as (_ & _ & Hr).
    pose proof (Decimal.parse_print 16 a ltac:(lia) ltac:(lia)) as Hp. destruct (parse_u_plain _ _ Hp) as (_ & Hpl & _).
    unfold parse_port_range. rewrite split_once_none by (by apply plain_no_dash).
    rewrite trim_plain by done. by rewrite Hp.
Qed.
Lemma parse_port_spec_complete s a b : port_spec s a b -> is_Some (parse_port_spec s).
Proof.
  unfold parse_port_spec. intros [t z H|t1 t2 x y H1 H2 Hle].
  - rewrite bool_decide_false by (by eapply plain_no_dash, parse_u_plain). rewrite H. cbn. eauto.
  - rewrite bool_decide_true by (rewrite elem_of_app, elem_of_cons; auto).
    rewrite split_app by (by eapply plain_no_dash, parse_u_plain).
    rewrite split_none by (by eapply plain_no_dash, parse_u_plain). rewrite H1, H2. cbn.
    rewrite (proj2 (Z.ltb_ge y x)) by done. eauto.
Qed.

Lemma port_spec_range s a b : port_spec s a b -> parse_port_range s = Some (a, b).
Proof.
  unfold parse_port_range. intros [t z H|t1 t2 x y H1 H2 Hle].
  - rewrite split_once_none by (by eapply plain_no_dash, parse_u_plain).
    rewrite trim_plain by (by eapply parse_u_plain). by rewrite H.
  - rewrite split_once_app by (by eapply plain_no_dash, parse_u_plain).
    rewrite !trim_plain by (by eapply parse_u_plain). by rewrite H1, H2.
Qed.
Lemma port_spec_unique s a b a' b' : port_spec s a b -> port_spec s a' b' -> a = a' /\ b = b'.
Proof. intros H1%port_spec_range H2%port_spec_range. by simplify_eq. Qed.

(** ** What the chain lets in *)
(** an entry of the list contains the port *)
Definition listed (l : list (list Z)) (q : Z) : Prop := exists s a b, s ∈ l /\ port_spec s a b /\ a <= q <= b.

Lemma parse_port_list_spec l :
  match parse_port_list l with
  | Some ps => (forall s, s ∈ l -> exists a b, port_spec s a b) /\ length (omap parse_port_range ps) = length l /\
      forall q, existsb (fun r => (r.1 <=? q) && (q <=? r.2)) (omap parse_port_range ps) = true <-> listed l q
  | None => exists s, s ∈ l /\ forall a b, ~ port_spec s a b
  end.
Proof.
  induction l as [|s l IH]; cbn [parse_port_list].
  { split_and!; [by intros ? ?%elem_of_nil|done|]. intros q. split; [done|]. intros (? & ? & ? & ?%elem_of_nil & _). done. }
  destruct (parse_port_spec s) as [t|] eqn:Es; cbn [mbind option_bind].
  2: { exists s. split; [by left|]. intros a b H%parse_port_spec_complete. rewrite Es in H. by destruct H. }
  destruct (parse_port_list l) as [ps|]; cbn [mbind option_bind].
  2: { destruct IH as (x & Hx & ?). exists x. split; [by right|done]. }
  destruct IH as (Hall & Hlen & Hin). destruct (parse_port_spec_sound s t Es) as (a & b & Hsp & Hr).
  change (omap parse_port_range (t :: ps)) with (match parse_port_range t with Some y => y :: omap parse_port_range ps | None => omap parse_port_range ps end).
  rewrite Hr. split_and!.
  - intros x [->|?]%elem_of_cons; eauto.
  - cbn [length]. by rewrite Hlen.
  - intros q. cbn [existsb fst snd]. rewrite orb_true_iff, Hin, andb_true_iff, !Z.leb_le. split.
    + intros [?|(x & a' & b' & ? & ? & ?)]; [exists s, a, b|exists x, a', b']; rewrite elem_of_cons; auto.
    + intros (x & a' & b' & [->|?]%elem_of_cons & Hx & ?); [left|right; by exists x, a', b'].
      by destruct (port_spec_unique _ _ _ _ _ Hsp Hx) as [-> ->].
Qed.

Section Meaning.
Context {C : CidrOps}.

Lemma rule_matches_ports id proto prio ports act st p q : dst_port p = Some q -> proto <> AnyProtocol ->
  rule_matches (convert_to_fast_lookup_rule id (mk_rule prio true proto ports [] [] [] act 0 0 st [] [])) p =
  bool_decide (proto = protocol p) && port_matches (omap parse_port_range ports) (Some q).
Proof.
  intros Hq Hne. unfold rule_matches. cbn [f_protocol src_ip_ranges dst_ip_ranges src_port_ranges dst_port_ranges
    source_groups destination_groups convert_to_fast_lookup_rule r_protocol r_ports r_source_ips r_destination_ips r_source_ports
    r_source_groups r_destination_groups]. rewrite Hq, bool_decide_false by done.
  change (ip_matches (omap cidr_from_str []) ?x) with true. change (group_matches [] ?x) with true.
  replace (port_matches (omap parse_port_range []) (src_port p)) with true by (by destruct (src_port p)).
  cbn [orb]. by rewrite !andb_true_r.
Qed.
Lemma rule_matches_other id proto prio ports act st p : proto <> protocol p -> proto <> AnyProtocol ->
  rule_matches (convert_to_fast_lookup_rule id (mk_rule prio true proto ports [] [] [] act 0 0 st [] [])) p = false.
Proof. intros H Hne. unfold rule_matches. cbn [f_protocol convert_to_fast_lookup_rule r_protocol]. by rewrite !bool_decide_false. Qed.

Lemma rules_of_type_whitelist cs c id : Forall (fun c => c_chain_type c <> Inbound) cs ->
  c_enabled c = true -> c_chain_type c = Inbound -> exists id', rules_of_type Inbound id (cs ++ [c]) = chain_rules id' c.
Proof.
  intros H He Ht. revert id. induction H as [|d cs Hd _ IH]; intros id; cbn.
  - rewrite He, bool_decide_true by done. cbn. rewrite app_nil_r. eauto.
  - rewrite (bool_decide_false (c_chain_type d = Inbound)) by done. rewrite andb_false_r. apply IH.
Qed.
Lemma default_action_whitelist cs c : Forall (fun c => c_chain_type c <> Inbound) cs ->
  c_chain_type c = Inbound -> default_action_of Inbound (Some (cs ++ [c])) = c_default_action c.
Proof.
  intros H Ht. unfold default_action_of. cbn [from_option id]. rewrite list_find_app_r; [|by apply list_find_None].
  cbn. by rewrite decide_True.
Qed.

Lemma verdict_whitelist cs rules p : Forall (fun c => c_chain_type c <> Inbound) cs ->
  exists n, action (verdict (new_internal (Some (cs ++ [mk_chain Inbound true rules Allow]))) Inbound p) =
    match List.find (fun r => rule_matches r p) (chain_rules n (mk_chain Inbound true rules Allow)) with
    | Some r => f_action r
    | None => Allow
    end.
Proof.
  intros H. destruct (rules_of_type_whitelist cs (mk_chain Inbound true rules Allow) 1 H) as [n Hn]; [done..|]. exists n.
  unfold verdict, deciding_rule. rewrite rules_for_new, bool_decide_false by done. cbn [from_option id mbind option_bind].
  rewrite Hn. destruct (List.find _ _) as [r|].
  - destruct (stateful r); cbn [andb]; [|done]. by destruct (bool_decide_reflect (f_action r = Allow)) as [->|].
  - change (default_action (new_internal ?x) Inbound) with (default_action_of Inbound x).
    rewrite default_action_whitelist by done. done.
Qed.

(** the port is not on the list *)
Definition shut_out (l : list (list Z)) (p : PacketInfo) : Prop :=
  l <> [] /\ forall q, dst_port p = Some q -> ~ listed l q.

(** the two rules of a protocol decide all its packets *)
Lemma whitelist_pair proto prio l ports st id1 id2 p : parse_port_list l = Some ports -> l <> [] ->
  proto <> AnyProtocol -> protocol p = proto -> (exists q, dst_port p = Some q /\ 0 <= q < 65536) ->
  (rule_matches (convert_to_fast_lookup_rule id1 (allow_rule proto prio ports st)) p = true /\ ~ shut_out l p \/
   rule_matches (convert_to_fast_lookup_rule id1 (allow_rule proto prio ports st)) p = false /\ shut_out l p) /\
  rule_matches (convert_to_fast_lookup_rule id2 (deny_other proto)) p = true.
Proof.
  intros Hl Hne Hany Hp (q & Hq & Hr). pose proof (parse_port_list_spec l) as S. rewrite Hl in S. destruct S as (_ & Hlen & Hin).
  unfold allow_rule, deny_other. rewrite !(rule_matches_ports _ _ _ _ _ _ p q) by done. rewrite bool_decide_true by done.
  change (omap parse_port_range [str "0-65535"]) with [(0, 65535)].
  unfold port_matches. rewrite (bool_decide_false (omap _ _ = [])) by (intros E; rewrite E in Hlen; by destruct l).
  cbn [orb andb]. split.
  - destruct (existsb _ _) eqn:E.
    + left. split; [done|]. intros [_ H]. apply (H q Hq). by apply Hin.
    + right. split; [done|]. split; [done|]. intros q' Hq' H. simplify_eq. apply Hin in H. congruence.
  - cbn [existsb fst snd]. rewrite (proj2 (Z.leb_le 0 q)) by lia. rewrite (proj2 (Z.leb_le q 65535)) by lia. by rewrite orb_true_r.
Qed.

(** the packets that the lists drop *)
Definition whitelist_drops (tcp udp : list (list Z)) (p : PacketInfo) : Prop :=
  (protocol p = Tcp /\ shut_out tcp p) \/ (protocol p = Udp /\ shut_out udp p).

Definition ports_u16 (p : PacketInfo) : Prop := forall q, dst_port p = Some q -> 0 <= q < 65536.


(** one protocol's pair in front of rules that do not match *)
Lemma whitelist_one proto prio l ports st id1 id2 p : parse_port_list l = Some ports -> l <> [] ->
  proto <> AnyProtocol -> protocol p = proto -> (exists q, dst_port p = Some q /\ 0 <= q < 65536) ->
  match List.find (fun r => rule_matches r p)
    [convert_to_fast_lookup_rule id1 (allow_rule proto prio ports st); convert_to_fast_lookup_rule id2 (deny_other proto)] with
  | Some r => (f_action r = Allow /\ ~ shut_out l p) \/ (f_action r = Drop /\ shut_out l p)
  | None => False
  end.
Proof.
  intros Hl Hne Hany Hp Hq. destruct (whitelist_pair proto prio l ports st id1 id2 p Hl Hne Hany Hp Hq) as [[[H1 H2]|[H1 H2]] H3];
    cbn [List.find]; rewrite H1; [by left|]. rewrite H3. by right.
Qed.

Lemma drops_tcp tcp udp p : protocol p = Tcp -> (shut_out tcp p <-> whitelist_drops tcp udp p).
Proof. unfold whitelist_drops. intros ->. naive_solver. Qed.
Lemma drops_udp tcp udp p : protocol p = Udp -> (shut_out udp p <-> whitelist_drops tcp udp p).
Proof. unfold whitelist_drops. intros ->. naive_solver. Qed.
Lemma drops_none tcp udp p : (protocol p = Tcp -> tcp = []) -> (protocol p = Udp -> udp = []) -> ~ whitelist_drops tcp udp p.
Proof. intros H1 H2 [[H [H' _]]|[H [H' _]]]; auto. Qed.

Lemma pair_verdict (o : option FastLookupRule) (Q D : Prop) :
  match o with Some r => (f_action r = Allow /\ ~ Q) \/ (f_action r = Drop /\ Q) | None => False end -> (Q <-> D) ->
  match o with Some r => (f_action r = Allow /\ ~ D) \/ (f_action r = Drop /\ D) | None => ~ D end.
Proof. destruct o; tauto. Qed.

Lemma whitelist_find id tcp udp pt pu p : parse_port_list tcp = Some pt -> parse_port_list udp = Some pu ->
  ports_ok p -> ports_u16 p ->
  let rules := (if bool_decide (tcp = []) then [] else [allow_rule Tcp 1000 pt true; deny_other Tcp]) ++
    (if bool_decide (udp = []) then [] else [allow_rule Udp (if bool_decide (tcp = []) then 1000 else 999) pu false; deny_other Udp]) in
  match List.find (fun r => rule_matches r p) (chain_rules id (mk_chain Inbound true rules Allow)) with
  | Some r => (f_action r = Allow /\ ~ whitelist_drops tcp udp p) \/ (f_action r = Drop /\ whitelist_drops tcp udp p)
  | None => ~ whitelist_drops tcp udp p
  end.
Proof.
  intros Ht Hu [_ Hp] Hr rules. unfold rules. clear rules.
  assert (has_ports (protocol p) = true -> exists q, dst_port p = Some q /\ 0 <= q < 65536) as Hq.
  { intros H. destruct (dst_port p) as [q|] eqn:E; [by exists q; auto|]. destruct Hp as [Hp _]. rewrite Hp in H; done. }
  pose proof (fun H => whitelist_one Tcp 1000 tcp pt true (id + 0) (id + 1) p Ht H ltac:(done)) as WT.
  pose proof (fun prio i H => whitelist_one Udp prio udp pu false (id + i) (id + S i) p Hu H ltac:(done)) as WU.
  set (aT := convert_to_fast_lookup_rule (id + 0) (allow_rule Tcp 1000 pt true)) in *.
  set (dT := convert_to_fast_lookup_rule (id + 1) (deny_other Tcp)) in *.
  set (aU := fun i prio => convert_to_fast_lookup_rule (id + i) (allow_rule Udp prio pu false)).
  set (dU := fun i => convert_to_fast_lookup_rule (id + i) (deny_other Udp)).
  assert (chain_rules id (mk_chain Inbound true ((if bool_decide (tcp = []) then [] else [allow_rule Tcp 1000 pt true; deny_other Tcp]) ++
    (if bool_decide (udp = []) then [] else [allow_rule Udp (if bool_decide (tcp = []) then 1000 else 999) pu false; deny_other Udp])) Allow) =
    if bool_decide (tcp = []) then if bool_decide (udp = []) then [] else [aU 0%nat 1000; dU 1%nat]
    else if bool_decide (udp = []) then [aT; dT] else [aT; aU 2%nat 999; dT; dU 3%nat]) as ->.
  { by destruct (bool_decide (tcp = [])), (bool_decide (udp = [])). }
  assert (forall i, protocol p <> Udp -> rule_matches (dU i) p = false) as HdU by (intros; by apply rule_matches_other).
  assert (forall i prio, protocol p <> Udp -> rule_matches (aU i prio) p = false) as HaU by (intros; by apply rule_matches_other).
  assert (protocol p <> Tcp -> rule_matches aT p = false /\ rule_matches dT p = false) as HT by (intros; split; by apply rule_matches_other).
  cbn [List.find] in WT, WU.
  destruct (bool_decide_reflect (tcp = [])) as [Ht0|Ht0]; destruct (bool_decide_reflect (udp = [])) as [Hu0|Hu0]; cbn [List.find];
    destruct (decide (protocol p = Tcp)) as [Hpr|Hpr]; try (rewrite !HaU, !HdU by (rewrite Hpr; done)); try (destruct (HT ltac:(done)) as [-> ->]).
  1-3, 6: (apply drops_none; intros; first [done|congruence]).
  2, 3: (apply (pair_verdict _ (shut_out tcp p)); [apply WT; [done..|apply Hq; by rewrite Hpr]|by apply drops_tcp]).
  all: destruct (decide (protocol p = Udp)) as [Hpu|Hpu]; [|rewrite HaU, HdU by done; apply drops_none; intros; done].
  all: apply (pair_verdict _ (shut_out udp p)); [|by apply drops_udp].
  1: apply (WU 1000 0%nat); [done..|apply Hq; by rewrite Hpu].
  apply (WU 999 2%nat); [done..|apply Hq; by rewrite Hpu].
Qed.

Lemma whitelist_rules_spec proto prio l st : whitelist_rules proto prio l st =
  (ports ← parse_port_list l; Some (if bool_decide (l = []) then [] else [allow_rule proto prio ports st; deny_other proto])).
Proof. by destruct l. Qed.

Lemma build_config_spec acl tcp udp : build_config acl tcp udp =
  (pt ← parse_port_list tcp; pu ← parse_port_list udp;
   Some (if bool_decide (tcp = []) && bool_decide (udp = []) then acl else
     Some (Some (default [] (mjoin acl) ++ [mk_chain Inbound true
       ((if bool_decide (tcp = []) then [] else [allow_rule Tcp 1000 pt true; deny_other Tcp]) ++
        (if bool_decide (udp = []) then [] else [allow_rule Udp (if bool_decide (tcp = []) then 1000 else 999) pu false; deny_other Udp])) Allow])))).
Proof.
  unfold build_config, do_build, generate_acl_from_whitelists. cbn [tcp_whitelist udp_whitelist whitelist_priority AclWhitelist.acl from_option].
  rewrite !whitelist_rules_spec.
  destruct tcp as [|t tcp]; [destruct udp as [|u udp]; [done|]|].
  - change (parse_port_list []) with (Some (A := list (list Z)) []). cbn [mbind option_bind].
    destruct (parse_port_list (u :: udp)) as [pu|]; [|done]. by destruct (mjoin acl).
  - destruct (parse_port_list (t :: tcp)) as [pt|]; [|by destruct udp]. destruct udp as [|u udp]; [by destruct (mjoin acl)|].
    cbn [mbind option_bind]. destruct (parse_port_list (u :: udp)) as [pu|]; [|done]. by destruct (mjoin acl).
Qed.

Lemma verdict_no_inbound cfg p : Forall (fun c => c_chain_type c <> Inbound) (default [] cfg) ->
  action (verdict (new_internal cfg) Inbound p) = Allow.
Proof.
  intros H. unfold verdict, deciding_rule. rewrite rules_for_new, bool_decide_false by done. cbn [mbind option_bind].
  change (default_action (new_internal ?x) Inbound) with (default_action_of Inbound x).
  assert (forall n, rules_of_type Inbound n (default [] cfg) = []) as Hr.
  { induction H as [|c cs Hc _ IH]; intros n; [done|]. cbn. rewrite (bool_decide_false (c_chain_type c = Inbound)) by done.
    rewrite andb_false_r. apply IH. }
  rewrite Hr. cbn [List.find action]. unfold default_action_of. by rewrite (proj2 (list_find_None _ _)).
Qed.

(** From the TCP and UDP whitelists of a configuration whose own ACL has no inbound chain, the
    builder fails exactly when an entry is neither a port nor a range with its ends in order, and
    otherwise the rules drop an inbound packet exactly when a list for its protocol is given and
    none of the entries contains its destination port; every other inbound packet is allowed. *)
Theorem whitelist_admits_exactly acl tcp udp :
  Forall (fun c => c_chain_type c <> Inbound) (default [] (mjoin acl)) ->
  match build_config acl tcp udp with
  | None => exists s, s ∈ tcp ++ udp /\ forall a b, ~ port_spec s a b
  | Some cfg => (forall s, s ∈ tcp ++ udp -> exists a b, port_spec s a b) /\
      forall p, ports_ok p -> ports_u16 p ->
        let a := action (verdict (new_internal (mjoin cfg)) Inbound p) in
        (a = Allow /\ ~ whitelist_drops tcp udp p) \/ (a = Drop /\ whitelist_drops tcp udp p)
  end.
Proof.
  intros Hc. rewrite build_config_spec. pose proof (parse_port_list_spec tcp) as Ht. pose proof (parse_port_list_spec udp) as Hu.
  destruct (parse_port_list tcp) as [pt|] eqn:Et; cbn [mbind option_bind].
  2: { destruct Ht as (s & ? & ?). exists s. rewrite elem_of_app. auto. }
  destruct (parse_port_list udp) as [pu|] eqn:Eu; cbn [mbind option_bind].
  2: { destruct Hu as (s & ? & ?). exists s. rewrite elem_of_app. auto. }
  destruct Ht as [Ht _], Hu as [Hu _]. split; [intros s [?|?]%elem_of_app; auto|]. intros p Hp Hr. cbv zeta.
  destruct (bool_decide (tcp = []) && bool_decide (udp = [])) eqn:E.
  - apply andb_true_iff in E as [->%bool_decide_eq_true ->%bool_decide_eq_true]. left. split; [by apply verdict_no_inbound|by apply drops_none].
  - cbn [mjoin option_join].
    match goal with |- context [mk_chain Inbound true ?rs Allow] => destruct (verdict_whitelist _ rs p Hc) as [n ->] end.
    pose proof (whitelist_find n tcp udp pt pu p Et Eu Hp Hr) as W. cbv zeta in W. destruct (List.find _ _); [done|]. by left.
Qed.
End Meaning.

(** a port and a range for TCP: port 85 is shut out *)
Lemma whitelist_admits_exactly_witness :
  match build_config None [str "80"; str "8000-9000"] [] with
  | None => False
  | Some cfg => action (verdict (C := host_only) (new_internal (C := host_only) (mjoin cfg)) Inbound demo_packet) = Drop
  end.
Proof.
  pose proof (whitelist_admits_exactly (C := host_only) None [str "80"; str "8000-9000"] [] (Forall_nil_2 _)) as H.
  rewrite build_config_spec in H |- *. destruct H as [_ H]. specialize (H demo_packet). cbv zeta in H.
  destruct H as [[_ H]|[H _]]; [done|by intros q [= <-]| |exact H].
  vm_compute in H. vm_compute. reflexivity.
Defined.
End AclWhitelist.
