(* ===== verification/Cipher.v ===== *)
(** * Packet encryption (src/lowertier/src/peers/encrypt)

    The in-place cipher of secure datagrams: the payload is sealed with the
    stable header fields as associated data and followed by tag and nonce.  The
    AEAD algorithms of the ring crate are an interface. *)
From stdpp Require Import base list gmap numbers strings.
From Stdlib Require Import ZArith Lia.
From S2P Require Import Prelude PacketHeader Packet PacketProps NetAddr.

Local Open Scope Z_scope.

(** [EncryptionAlgorithm] of src/lowertier/src/common/config.rs *)
Inductive EncryptionAlgorithm : Type := AesGcm | Aes256Gcm | ChaCha20Poly1305.

(** [ring::aead]: sealing gives the ciphertext and the tag *)
Class Aead : Type := {
  seal : EncryptionAlgorithm -> list Z -> list Z -> list Z -> list Z -> option (list Z * list Z);
  open : EncryptionAlgorithm -> list Z -> list Z -> list Z -> list Z -> list Z -> option (list Z);
}.
(** the texts that all three algorithms seal *)
Definition sealable_text (text : list Z) : Prop := bytes_ok text /\ len text < 2 ^ 32.
(** what its documentation promises: a sealed text opens to itself, only
    sealed texts open, lengths are kept, tags have sixteen bytes, and texts
    below the limits of all three algorithms are sealed *)
Class AeadLaws (A : Aead) : Prop := {
  open_seal alg key nonce aad text c tag : seal alg key nonce aad text = Some (c, tag) ->
    open alg key nonce aad c tag = Some text;
  seal_open alg key nonce aad c tag text : open alg key nonce aad c tag = Some text ->
    seal alg key nonce aad text = Some (c, tag);
  seal_length alg key nonce aad text c tag : seal alg key nonce aad text = Some (c, tag) ->
    length c = length text /\ length tag = 16%nat;
  seal_bytes alg key nonce aad text c tag : seal alg key nonce aad text = Some (c, tag) ->
    bytes_ok c /\ bytes_ok tag;
  seal_total alg key nonce aad text : sealable_text text -> is_Some (seal alg key nonce aad text);
}.

Module Cipher.
Import ZCPacket PacketProps.

Inductive Error : Type := PacketTooShort (n : Z) | DecryptionFailed | EncryptionFailed | InvalidTag (tag : list Z).

(** [StandardAeadTail] *)
Definition TAG_SIZE : nat := 16.
Definition NONCE_SIZE : nat := 12.
Definition SIZE : nat := 28.
Record AeadTail : Type := mk_tail { tag : list Z; nonce : list Z }.
Definition ref_from_suffix (payload : list Z) : option AeadTail :=
  if bool_decide (SIZE <= length payload)%nat then
    let t := drop (length payload - SIZE) payload in Some (mk_tail (take TAG_SIZE t) (drop TAG_SIZE t))
  else None.

(** [RingCipher]: the algorithm and its key *)
Record RingCipher : Type := mk_cipher { algorithm : EncryptionAlgorithm; key : list Z }.

Definition create_ring_encryptor (a : EncryptionAlgorithm) (key_128 key_256 : list Z) : RingCipher :=
  match a with
  | AesGcm => mk_cipher AesGcm key_128
  | Aes256Gcm => mk_cipher Aes256Gcm key_256
  | ChaCha20Poly1305 => mk_cipher ChaCha20Poly1305 key_256
  end.

(** [str::eq_ignore_ascii_case] *)
Definition ascii_lower (c : Z) : Z := if (65 <=? c) && (c <=? 90) then c + 32 else c.
Definition eq_ignore_ascii_case (a b : list Z) : bool := bool_decide (map ascii_lower a = map ascii_lower b).

(** [EncryptionAlgorithm::try_from], ignoring case *)
Definition algorithm_from_str (s : list Z) : option EncryptionAlgorithm :=
  if eq_ignore_ascii_case s (str "aes-gcm") then Some AesGcm
  else if eq_ignore_ascii_case s (str "aes-256-gcm") then Some Aes256Gcm
  else if eq_ignore_ascii_case s (str "chacha20-poly1305") then Some ChaCha20Poly1305
  else None.

Definition create_secure_datagram_encryptor (alg key_128 key_256 : list Z) : RingCipher :=
  create_ring_encryptor (default ChaCha20Poly1305 (algorithm_from_str alg)) key_128 key_256.

Section Packets.
Context {A : Aead}.

Definition encrypt_with_nonce_and_aad (c : RingCipher) (p : t) (nonce aad : list Z) : outcome Error t :=
  h ← unwrap (peer_manager_header p);
  if PH.is_encrypted h then Ok p
  else
    _ ← ensure (bool_decide (length nonce = NONCE_SIZE)) EncryptionFailed;
    text ← payload p;
    '(sealed, tag) ← ok_or (seal (algorithm c) (key c) nonce aad text) EncryptionFailed;
    let p := write_payload p sealed in
    _ ← ensure (bool_decide (length tag = TAG_SIZE)) (InvalidTag tag);
    p ← unwrap (update_peer_manager_header p (fun h => PH.set_encrypted h true));
    Ok (with_inner (with_parsed_metadata p None) (inner p ++ tag ++ nonce)).

Definition decrypt_with_aad (c : RingCipher) (p : t) (aad : list Z) : outcome Error t :=
  h ← unwrap (peer_manager_header p);
  if negb (PH.is_encrypted h) then Err DecryptionFailed
  else
    text ← payload p;
    if bool_decide (length text < SIZE)%nat then Err (PacketTooShort (len text))
    else
      let text_len := (length text - SIZE)%nat in
      tail ← unwrap (ref_from_suffix text);
      plain ← ok_or (open (algorithm c) (key c) (nonce tail) aad (take text_len text) (tag tail)) DecryptionFailed;
      let p := write_payload p (plain ++ drop text_len text) in
      p ← unwrap (update_peer_manager_header p (fun h => PH.set_encrypted h false));
      Ok (with_inner (with_parsed_metadata p None) (take (length (inner p) - SIZE) (inner p))).

End Packets.

Definition is_byte_b (z : Z) : bool := (0 <=? z) && (z <? 256).

(** ** What the cipher does to a packet *)
Lemma encrypted_flag_check : forallb (fun f =>
  is_byte_b (PH.assign f PH.ENCRYPTED true) && is_byte_b (PH.assign f PH.ENCRYPTED false) &&
  PH.contains (PH.assign f PH.ENCRYPTED true) PH.ENCRYPTED &&
  (PH.contains f PH.ENCRYPTED || (PH.assign (PH.assign f PH.ENCRYPTED true) PH.ENCRYPTED false =? f)) &&
  (Z.land (PH.assign f PH.ENCRYPTED true) (unot 8 PH.mutable_mask) =? Z.land f (unot 8 PH.mutable_mask)) &&
  (Z.land (PH.assign f PH.ENCRYPTED false) (unot 8 PH.mutable_mask) =? Z.land f (unot 8 PH.mutable_mask)))
  (seqZ 0 256) = true.
Proof. reflexivity. Qed.

Lemma encrypted_flag h b : PH.wf h ->
  PH.wf (PH.set_encrypted h b) /\ PH.is_encrypted (PH.set_encrypted h true) = true /\
  (PH.is_encrypted h = false -> PH.set_encrypted (PH.set_encrypted h true) false = h) /\
  PH.stable_auth_data (PH.set_encrypted h b) = PH.stable_auth_data h.
Proof.
  intros Hwf. pose proof Hwf as (W1 & W2 & W3 & Hf & W5 & W6 & W7). pose proof (byte_forall _ encrypted_flag_check _ Hf) as H. cbn beta in H.
  apply andb_true_iff in H as [H H6]. apply andb_true_iff in H as [H H5]. apply andb_true_iff in H as [H H4].
  apply andb_true_iff in H as [H H3]. apply andb_true_iff in H as [H1 H2]. unfold is_byte_b in *.
  split_and!.
  - unfold PH.wf. cbn. split_and!; try done; destruct b; bool_to_Z; unfold is_byte; lia.
  - done.
  - intros E. unfold PH.is_encrypted in E. rewrite E in H4. cbn [orb] in H4. bool_to_Z.
    destruct h. unfold PH.set_encrypted, PH.with_flags. cbn [PH.flags PH.from_peer_id PH.to_peer_id PH.packet_type PH.forward_counter PH.reserved PH.len] in *. by f_equal.
  - unfold PH.stable_auth_data, PH.stable_auth_flags. cbn [PH.set_encrypted PH.with_flags PH.flags PH.from_peer_id PH.to_peer_id PH.packet_type PH.len].
    bool_to_Z. destruct b; [rewrite H5|rewrite H6]; done.
Qed.

Section Laws.
Context {A : Aead} {L : AeadLaws A}.

Lemma cipher_write p pre h body bytes : layout p pre h body ->
  write_payload p bytes = with_parsed_metadata (with_inner p (pre ++ PH.as_bytes h ++ bytes)) None /\
  layout (write_payload p bytes) pre h bytes.
Proof.
  intros [Hi Hp Hw]. assert (take (payload_offset p) (inner p) = pre ++ PH.as_bytes h) as Ht.
  { rewrite Hi, app_assoc, payload_offset_pm. apply take_app_length'. rewrite length_app, PH.length_as_bytes. rewrite Hp. done. }
  unfold write_payload. rewrite Ht, <- app_assoc. split; [done|]. by split.
Qed.

Lemma encrypt_layout c p pre h body nonce aad : layout p pre h body -> PH.is_encrypted h = false ->
  length nonce = NONCE_SIZE -> sealable_text body ->
  exists text tag, seal (algorithm c) (key c) nonce aad body = Some (text, tag) /\
    let p' := with_parsed_metadata (with_inner p (pre ++ PH.as_bytes (PH.set_encrypted h true) ++ text ++ tag ++ nonce)) None in
    encrypt_with_nonce_and_aad c p nonce aad = Ok p' /\ layout p' pre (PH.set_encrypted h true) (text ++ tag ++ nonce).
Proof.
  intros Hl He Hn Hb. destruct (seal_total (algorithm c) (key c) nonce aad body Hb) as [[text tag] Hs].
  exists text, tag. split; [done|]. cbv zeta. destruct (seal_length _ _ _ _ _ _ _ Hs) as [_ Htag].
  unfold encrypt_with_nonce_and_aad. rewrite (layout_header _ _ _ _ Hl). cbn [unwrap mbind outcome_bind]. rewrite He.
  rewrite bool_decide_true by done. cbn [ensure mbind outcome_bind]. rewrite (layout_payload _ _ _ _ Hl). cbn [mbind outcome_bind].
  rewrite Hs. cbn [ok_or mbind outcome_bind]. rewrite bool_decide_true by done. cbn [ensure mbind outcome_bind].
  destruct (cipher_write p pre h body text Hl) as [Hw1 Hw2].
  destruct (layout_update _ pre h text (fun h => PH.set_encrypted h true) Hw2) as (p' & -> & Hp' & Hl').
  { apply encrypted_flag. by destruct Hl. }
  cbn [unwrap mbind outcome_bind]. rewrite Hp', Hw1. cbn -[PH.as_bytes].
  destruct Hl' as [_ Hp2 Hw']. rewrite Hp', Hw1 in Hp2. split; [by rewrite <- !app_assoc|]. by split.
Qed.

Lemma ref_from_suffix_app text tag nonce : length tag = TAG_SIZE -> length nonce = NONCE_SIZE ->
  ref_from_suffix (text ++ tag ++ nonce) = Some (mk_tail tag nonce).
Proof.
  intros Ht Hn. unfold ref_from_suffix, SIZE, TAG_SIZE, NONCE_SIZE in *. rewrite !length_app.
  rewrite bool_decide_true by lia. replace (length text + (length tag + length nonce) - 28)%nat with (length text) by lia.
  rewrite drop_app_length. rewrite <- Ht, take_app_length, drop_app_length. done.
Qed.
Lemma ref_from_suffix_inv l tail : ref_from_suffix l = Some tail ->
  exists text, l = text ++ tag tail ++ nonce tail /\ length (tag tail) = TAG_SIZE /\ length (nonce tail) = NONCE_SIZE.
Proof.
  unfold ref_from_suffix. case_bool_decide as H; [|done]. intros [= <-]. cbn [tag nonce].
  exists (take (length l - SIZE) l). rewrite !take_drop. split; [done|].
  rewrite length_take, !length_drop. unfold SIZE, TAG_SIZE, NONCE_SIZE in *. lia.
Qed.

Lemma decrypt_layout c p pre h text tag nonce aad body : layout p pre h (text ++ tag ++ nonce) -> PH.is_encrypted h = true ->
  length tag = TAG_SIZE -> length nonce = NONCE_SIZE -> open (algorithm c) (key c) nonce aad text tag = Some body ->
  let p' := with_parsed_metadata (with_inner p (pre ++ PH.as_bytes (PH.set_encrypted h false) ++ body)) None in
  decrypt_with_aad c p aad = Ok p' /\ layout p' pre (PH.set_encrypted h false) body.
Proof.
  intros Hl He Ht Hn Ho. cbv zeta.
  destruct (seal_length _ _ _ _ _ _ _ (seal_open _ _ _ _ _ _ _ Ho)) as [Hlen _].
  unfold decrypt_with_aad. rewrite (layout_header _ _ _ _ Hl). cbn [unwrap mbind outcome_bind]. rewrite He. cbn [negb].
  rewrite (layout_payload _ _ _ _ Hl). cbn [mbind outcome_bind].
  rewrite bool_decide_false by (rewrite !length_app; unfold SIZE, TAG_SIZE, NONCE_SIZE in *; lia).
  rewrite ref_from_suffix_app by done. cbn [unwrap mbind outcome_bind Cipher.tag Cipher.nonce].
  replace (length (text ++ tag ++ nonce) - SIZE)%nat with (length text)
    by (rewrite !length_app; unfold SIZE, TAG_SIZE, NONCE_SIZE in *; lia).
  rewrite take_app_length, drop_app_length, Ho. cbn [ok_or mbind outcome_bind].
  destruct (cipher_write p pre h _ (body ++ tag ++ nonce) Hl) as [Hw1 Hw2].
  destruct (layout_update _ pre h (body ++ tag ++ nonce) (fun h => PH.set_encrypted h false) Hw2) as (p' & -> & Hp' & Hl').
  { apply encrypted_flag. by destruct Hl. }
  cbn [unwrap mbind outcome_bind]. destruct Hl' as [Hi Hp2 Hw']. rewrite Hi.
  replace (take _ (pre ++ _)) with (pre ++ PH.as_bytes (PH.set_encrypted h false) ++ body).
  2: { rewrite !app_assoc. symmetry. rewrite <- (app_assoc _ tag nonce). apply take_app_length'. 
       rewrite !length_app. unfold SIZE, TAG_SIZE, NONCE_SIZE in *. lia. }
  rewrite Hp', Hw1 in *. cbn -[PH.as_bytes] in *. split; [done|]. by split.
Qed.

(** only what was sealed under the key, the nonce and the associated data is accepted *)
Lemma decrypt_authentic c p aad p' : bytes_ok (inner p) -> decrypt_with_aad c p aad = Ok p' ->
  exists pre h text tag nonce body, layout p pre h (text ++ tag ++ nonce) /\ PH.is_encrypted h = true /\
    length tag = TAG_SIZE /\ length nonce = NONCE_SIZE /\
    seal (algorithm c) (key c) nonce aad body = Some (text, tag) /\
    p' = with_parsed_metadata (with_inner p (pre ++ PH.as_bytes (PH.set_encrypted h false) ++ body)) None.
Proof.
  intros Hb H. pose proof H as Hd. unfold decrypt_with_aad in H.
  destruct (peer_manager_header p) as [h|] eqn:Eh; [|done]. cbn [unwrap mbind outcome_bind] in H.
  pose proof (header_layout p h Hb Eh) as Hl. destruct (PH.is_encrypted h) eqn:Ee; [|done]. cbn [negb] in H.
  rewrite (layout_payload _ _ _ _ Hl) in H. cbn [mbind outcome_bind] in H. case_bool_decide as Hs; [done|].
  destruct (ref_from_suffix _) as [tail|] eqn:Et; [|done]. cbn [unwrap mbind outcome_bind] in H.
  apply ref_from_suffix_inv in Et as (text & Etext & Ht & Hn).
  set (body0 := drop (payload_offset p) (inner p)) in *.
  replace (length body0 - SIZE)%nat with (length text) in H
    by (rewrite Etext, !length_app; unfold SIZE, TAG_SIZE, NONCE_SIZE in *; lia).
  replace (take (length text) body0) with text in H by (by rewrite Etext, take_app_length).
  destruct (open _ _ _ _ _ _) as [body|] eqn:Eo; [|done]. clear H.
  rewrite Etext in Hl. destruct (decrypt_layout c p _ h text (tag tail) (nonce tail) aad body Hl Ee Ht Hn Eo) as [E _].
  eexists _, h, text, (tag tail), (nonce tail), body. split_and!; [exact Hl|done|done|done|by apply seal_open|congruence].
Qed.
End Laws.

(** ** A cipher for examples: the text in clear with a checksum *)
Definition checksum (l : list Z) : Z := fold_left (fun a b => (a * 31 + b) mod 256) l 7.
Definition sum_aead : Aead := {|
  seal _ k n aad text := if decide (bytes_ok text) then Some (text, replicate 16 (checksum (k ++ n ++ aad ++ text))) else None;
  open _ k n aad text tag :=
    if decide (bytes_ok text /\ tag = replicate 16 (checksum (k ++ n ++ aad ++ text))) then Some text else None;
|}.

Lemma checksum_byte l : is_byte (checksum l).
Proof.
  unfold checksum. assert (forall a, is_byte a -> is_byte (fold_left (fun a b => (a * 31 + b) mod 256) l a)) as Hf; [|by apply Hf].
  induction l as [|b l IH]; intros a Ha; [done|]. cbn. apply IH. apply Z.mod_pos_bound. lia.
Qed.

#[export] Instance sum_aead_laws : AeadLaws sum_aead.
Proof.
  split; cbn [seal open sum_aead].
  - intros alg k n aad text c tag. case_decide; [|done]. intros [= <- <-]. by rewrite decide_True.
  - intros alg k n aad c tag text. case_decide as Hd; [|done]. destruct Hd as [? ->]. intros [= <-]. by rewrite decide_True.
  - intros alg k n aad text c tag. case_decide; [|done]. intros [= <- <-]. done.
  - intros alg k n aad text c tag. case_decide; [|done]. intros [= <- <-]. split; [done|]. repeat (constructor; [apply checksum_byte|]). constructor.
  - intros alg k n aad text [? _]. rewrite decide_True by done. eauto.
Qed.
End Cipher.
