(* ===== verification/SecureDatagram.v ===== *)
(** * Secure datagram sessions (src/lowertier/src/peers/secure_datagram.rs)

    Epochs and nonces of the sender, replay slots of the receiver with the
    grace after a synchronisation, the key cache, and encryption and
    decryption of single packets and batches.  The wall clock and HMAC-SHA256
    are arguments.  Here every call is one transition of the state.  In the code
    encryptions and decryptions hold [state_transition] shared and interleave:
    DatagramThreads takes these calls apart into their atomic actions. *)
From stdpp Require Import base list gmap numbers strings sorting.
From Stdlib Require Import ZArith Lia.
From S2P Require Import Prelude PacketHeader Packet PacketProps ReplayWindow NetAddr Cipher.

Local Open Scope Z_scope.

(** HMAC-SHA256 of a key and a message *)
Class Hmac : Type := { hmac_sha256 : list Z -> list Z -> list Z }.
Class HmacLaws (H : Hmac) : Prop := { hmac_length key m : length (hmac_sha256 key m) = 32%nat }.

Module SecureDatagram.
Module RW := ReplayWindow.ReplayWindow.

Inductive Direction : Type := AToB | BToA.
#[export] Instance Direction_eq_dec : EqDecision Direction.
Proof. solve_decision. Defined.
Definition idx (d : Direction) : Z := match d with AToB => 0 | BToA => 1 end.

(** arrays of two, by direction *)
Definition get {X} (d : Direction) (a : X * X) : X := match d with AToB => a.1 | BToA => a.2 end.
Definition set {X} (d : Direction) (x : X) (a : X * X) : X * X := match d with AToB => (x, a.2) | BToA => (a.1, x) end.

Lemma get_set_same {X} d (x : X) a : get d (set d x a) = x.
Proof. by destruct d. Qed.
Lemma get_set_other {X} d d' (x : X) a : d <> d' -> get d' (set d x a) = get d' a.
Proof. by destruct d, d'. Qed.

(** ** State *)
Record EpochKeySlot : Type := mk_key_slot {
  k_epoch : Z;
  k_generation : Z;
  k_valid : bool;
  send_cipher : option Cipher.RingCipher;
  recv_cipher : option Cipher.RingCipher;
}.
Definition default_key_slot : EpochKeySlot := mk_key_slot 0 0 false None None.

Record EpochRxSlot : Type := mk_rx_slot { epoch : Z; window : RW.t; last_rx_ms : Z; valid : bool }.
Definition default_rx_slot : EpochRxSlot := mk_rx_slot 0 RW.default 0 false.
Definition clear_slot (s : EpochRxSlot) : EpochRxSlot := mk_rx_slot 0 (RW.clear (window s)) 0 false.

(** the current and the previous slot of a direction *)
Abbreviation rx_pair := (EpochRxSlot * EpochRxSlot)%type (only parsing).

Record SyncRxGrace : Type := mk_grace { g_slots : rx_pair * rx_pair; expires_at_ms : Z; g_valid : bool }.
Definition default_slots : rx_pair * rx_pair :=
  ((default_rx_slot, default_rx_slot), (default_rx_slot, default_rx_slot)).
Definition default_grace : SyncRxGrace := mk_grace default_slots 0 false.
Definition clear_grace : SyncRxGrace := mk_grace default_slots 0 false.
Definition refresh (slots : rx_pair * rx_pair) (expires : Z) : SyncRxGrace := mk_grace slots expires true.
Definition maybe_expire (g : SyncRxGrace) (now : Z) : SyncRxGrace :=
  if g_valid g && (expires_at_ms g <=? now) then clear_grace else g.

Record t : Type := mk {
  root_key : list Z;
  session_generation : Z;
  send_epoch : Z;
  send_seq : Z * Z;
  send_epoch_started_ms : Z;
  send_packets_since_epoch : Z;
  rx_slots : rx_pair * rx_pair;
  key_cache : (EpochKeySlot * EpochKeySlot) * (EpochKeySlot * EpochKeySlot);
  sync_rx_grace : SyncRxGrace;
  sync_rx_grace_expires_at_ms : Z;
  send_cipher_algorithm : list Z;
  recv_cipher_algorithm : list Z;
  invalidated : bool;
  decrypt_fail_count : Z;
}.

Definition with_send (s : t) (e : Z) (seq : Z * Z) (started packets : Z) : t :=
  mk (root_key s) (session_generation s) e seq started packets (rx_slots s) (key_cache s) (sync_rx_grace s)
    (sync_rx_grace_expires_at_ms s) (send_cipher_algorithm s) (recv_cipher_algorithm s) (invalidated s) (decrypt_fail_count s).
Definition with_rx (s : t) (rx : rx_pair * rx_pair) : t :=
  mk (root_key s) (session_generation s) (send_epoch s) (send_seq s) (send_epoch_started_ms s) (send_packets_since_epoch s)
    rx (key_cache s) (sync_rx_grace s) (sync_rx_grace_expires_at_ms s) (send_cipher_algorithm s) (recv_cipher_algorithm s)
    (invalidated s) (decrypt_fail_count s).
Definition with_cache (s : t) (c : (EpochKeySlot * EpochKeySlot) * (EpochKeySlot * EpochKeySlot)) : t :=
  mk (root_key s) (session_generation s) (send_epoch s) (send_seq s) (send_epoch_started_ms s) (send_packets_since_epoch s)
    (rx_slots s) c (sync_rx_grace s) (sync_rx_grace_expires_at_ms s) (send_cipher_algorithm s) (recv_cipher_algorithm s)
    (invalidated s) (decrypt_fail_count s).
Definition with_grace (s : t) (g : SyncRxGrace) (expires : Z) : t :=
  mk (root_key s) (session_generation s) (send_epoch s) (send_seq s) (send_epoch_started_ms s) (send_packets_since_epoch s)
    (rx_slots s) (key_cache s) g expires (send_cipher_algorithm s) (recv_cipher_algorithm s) (invalidated s) (decrypt_fail_count s).
Definition with_health (s : t) (inv : bool) (fails : Z) : t :=
  mk (root_key s) (session_generation s) (send_epoch s) (send_seq s) (send_epoch_started_ms s) (send_packets_since_epoch s)
    (rx_slots s) (key_cache s) (sync_rx_grace s) (sync_rx_grace_expires_at_ms s) (send_cipher_algorithm s)
    (recv_cipher_algorithm s) inv fails.

Definition SYNC_RX_GRACE_AFTER_MS : Z := 5000.
Definition ROTATE_AFTER_PACKETS : Z := 1000000.
Definition ROTATE_AFTER_MS : Z := 10 * 60 * 1000.
Definition MAX_ACCEPTED_RX_EPOCH_AHEAD : Z := 3.
Definition DECRYPT_FAIL_THRESHOLD : Z := 10.

Definition default_cache : (EpochKeySlot * EpochKeySlot) * (EpochKeySlot * EpochKeySlot) :=
  ((default_key_slot, default_key_slot), (default_key_slot, default_key_slot)).
Definition new (root : list Z) (generation initial_epoch : Z) (send_alg recv_alg : list Z) (now : Z) : t :=
  mk root generation initial_epoch (0, 0) now 0 default_slots default_cache default_grace 0 send_alg recv_alg false 0.

Definition invalidate (s : t) : t := with_health s true (decrypt_fail_count s).
Definition is_valid (s : t) : bool := negb (invalidated s).
Definition record_decrypt_failure (s : t) : t :=
  with_health s (invalidated s) (Z.min (saturating_add 32 (decrypt_fail_count s) 1) DECRYPT_FAIL_THRESHOLD).
Definition record_authenticated_success (s : t) : t := with_health s (invalidated s) 0.

Definition max_slot_epoch (m : Z) (s : EpochRxSlot) : Z := if valid s then Z.max m (epoch s) else m.
Definition next_sync_epoch (s : t) : Z :=
  let step d m := max_slot_epoch (max_slot_epoch m (get d (rx_slots s)).1) (get d (rx_slots s)).2 in
  wrap 32 (step BToA (step AToB (send_epoch s)) + 1).

Definition check_encrypt_algo_same (s : t) (send_alg recv_alg : list Z) : bool :=
  bool_decide (send_cipher_algorithm s = send_alg) && bool_decide (recv_cipher_algorithm s = recv_alg).

(** ** Synchronisation *)
(** the slot that keeps its epoch, and the previous slots without it *)
Definition keep_epoch (initial_epoch : Z) (rx : rx_pair) : rx_pair * rx_pair :=
  let drop s := if valid s && (epoch s =? initial_epoch) then clear_slot s else s in
  let found s := valid s && (epoch s =? initial_epoch) in
  if found rx.1 then ((rx.1, default_rx_slot), (drop rx.1, drop rx.2))
  else if found rx.2 then ((rx.2, default_rx_slot), (drop rx.1, drop rx.2))
  else ((default_rx_slot, default_rx_slot), rx).

Definition sync_root_key (s : t) (root : list Z) (generation initial_epoch : Z) (preserve_rx_grace : bool) (now : Z) : t :=
  let preserve := preserve_rx_grace && bool_decide (root_key s = root) in
  let '(rx, grace, expires) :=
    if preserve then
      let expires := saturating_add 64 now SYNC_RX_GRACE_AFTER_MS in
      let '(c0, p0) := keep_epoch initial_epoch (rx_slots s).1 in
      let '(c1, p1) := keep_epoch initial_epoch (rx_slots s).2 in
      ((c0, c1), refresh (p0, p1) expires, expires)
    else
      let c := fun p : rx_pair => (clear_slot p.1, clear_slot p.2) in
      ((c (rx_slots s).1, c (rx_slots s).2), clear_grace, 0) in
  mk root generation initial_epoch (0, 0) now 0 rx default_cache grace expires
    (send_cipher_algorithm s) (recv_cipher_algorithm s) (invalidated s) 0.

(** ** Keys *)
Inductive Error : Type :=
| SessionInvalidated
| NonceExhausted
| NoPeerHeader
| NotEncrypted
| NoTail
| ReplayRejected
| DuplicateNonce
| PacketRejected
| CipherError (e : Cipher.Error).

(** an operation of the session: the new state, and a result, an error or a panic *)
Definition M (X : Type) : Type := t -> t * outcome Error X.
#[export] Instance M_ret : MRet M := fun _ x s => (s, Ok x).
#[export] Instance M_bind : MBind M := fun _ _ f m s =>
  match m s with (s, Ok x) => f x s | (s, Err e) => (s, Err e) | (s, Panic) => (s, Panic) end.
Definition lift {X} (o : outcome Error X) : M X := fun s => (s, o).
Definition gets {X} (f : t -> X) : M X := fun s => (s, Ok (f s)).
Definition modify (f : t -> t) : M unit := fun s => (f s, Ok tt).
Definition fail {X} (e : Error) : M X := lift (Err e).
(** a cipher error, after [f] *)
Definition lift_cipher {X} (f : t -> t) (o : outcome Cipher.Error X) : M X := fun s =>
  match o with Ok x => (s, Ok x) | Err e => (f s, Err (CipherError e)) | Panic => (s, Panic) end.

Section Session.
Context {A : Aead} {H : Hmac}.

Definition hkdf_traffic_key (root : list Z) (epoch : Z) (dir : Direction) : list Z :=
  let prk := hmac_sha256 (replicate 32 0) root in
  let info := str "et-traffic" ++ to_be 4 epoch ++ [idx dir] in
  hmac_sha256 prk (info ++ [1]).

Definition traffic_cipher (root : list Z) (alg : list Z) (epoch : Z) (dir : Direction) : Cipher.RingCipher :=
  let key := hkdf_traffic_key root epoch dir in
  Cipher.create_secure_datagram_encryptor alg (take 16 key) (take 32 key).

Definition get_encryptor (k : EpochKeySlot) (is_send : bool) : outcome Error Cipher.RingCipher :=
  unwrap (if is_send then send_cipher k else recv_cipher k).

Definition key_matches (e generation : Z) (k : EpochKeySlot) : bool :=
  k_valid k && (k_epoch k =? e) && (k_generation k =? generation).

Definition get_or_create_encryptor (e : Z) (dir : Direction) (generation : Z) (is_send : bool) : M Cipher.RingCipher := fun s =>
  let slots := get dir (key_cache s) in
  if key_matches e generation slots.1 then (s, get_encryptor slots.1 is_send)
  else if key_matches e generation slots.2 then (s, get_encryptor slots.2 is_send)
  else
    let slot := mk_key_slot e generation true
                  (Some (traffic_cipher (root_key s) (send_cipher_algorithm s) e dir))
                  (Some (traffic_cipher (root_key s) (recv_cipher_algorithm s) e dir)) in
    let slots := if negb (k_valid slots.1) || (k_epoch slots.1 =? e) then (slot, slots.2) else (slots.1, slot) in
    (with_cache s (set dir slots (key_cache s)), get_encryptor slot is_send).

(** ** Epochs and nonces of the sender *)
Definition maybe_rotate_epoch (s : t) (now packet_count : Z) : t :=
  let packets := saturating_add 64 (send_packets_since_epoch s) packet_count in
  if (packets <? ROTATE_AFTER_PACKETS) && (saturating_sub now (send_epoch_started_ms s) <? ROTATE_AFTER_MS)
  then with_send s (send_epoch s) (send_seq s) (send_epoch_started_ms s) packets
  else with_send s (wrap 32 (send_epoch s + 1)) (send_seq s) now 0.

Definition reserve_nonce_range (dir : Direction) (packet_count now : Z) : M (Z * Z) := fun s =>
  if packet_count =? 0 then (s, Ok (send_epoch s, 0))
  else
    let s := maybe_rotate_epoch s now packet_count in
    let current := get dir (send_seq s) in
    if saturating_sub (u_max 64) packet_count <? current then (s, Err NonceExhausted)
    else (with_send s (send_epoch s) (set dir (current + packet_count) (send_seq s)) (send_epoch_started_ms s)
            (send_packets_since_epoch s), Ok (send_epoch s, current)).

Definition nonce (e seq : Z) : list Z := to_be 4 e ++ to_be 8 seq.

Definition parse_tail (payload : list Z) : option (list Z) := Cipher.nonce <$> Cipher.ref_from_suffix payload.

Definition packet_aad (p : ZCPacket.t) : outcome Error (list Z) :=
  h ← ok_or (ZCPacket.peer_manager_header p) NoPeerHeader;
  Ok (PH.stable_auth_data h).

Definition encrypt_payload (dir : Direction) (p : ZCPacket.t) (now : Z) : M ZCPacket.t :=
  ok ← gets is_valid;
  if negb ok then fail SessionInvalidated
  else
    '(e, seq) ← reserve_nonce_range dir 1 now;
    aad ← lift (packet_aad p);
    generation ← gets session_generation;
    c ← get_or_create_encryptor e dir generation true;
    lift_cipher invalidate (Cipher.encrypt_with_nonce_and_aad c p (nonce e seq) aad).

(** the packets of a batch, sealed with consecutive sequence numbers *)
Fixpoint encrypt_all (c : Cipher.RingCipher) (e start : Z) (offset : nat) (ps : list ZCPacket.t) : M (list ZCPacket.t) :=
  match ps with
  | [] => mret []
  | p :: ps =>
      seq ← lift (ok_or (checked_add 64 start (Z.of_nat offset)) NonceExhausted);
      aad ← lift (packet_aad p);
      q ← lift_cipher invalidate (Cipher.encrypt_with_nonce_and_aad c p (nonce e seq) aad);
      qs ← encrypt_all c e start (S offset) ps;
      mret (q :: qs)
  end.

Definition encrypt_payload_batch (dir : Direction) (ps : list ZCPacket.t) (now : Z) : M (list ZCPacket.t) :=
  ok ← gets is_valid;
  if negb ok then fail SessionInvalidated
  else if bool_decide (ps = []) then mret []
  else
    '(e, start) ← reserve_nonce_range dir (len ps) now;
    generation ← gets session_generation;
    c ← get_or_create_encryptor e dir generation true;
    encrypt_all c e start 0 ps.
End Session.

(** ** Replay slots *)
Definition epoch_in_slots (p : rx_pair) (e : Z) : bool :=
  (valid p.1 && (epoch p.1 =? e)) || (valid p.2 && (epoch p.2 =? e)).

Definition sync_rx_grace_active (s : t) (now : Z) : t * bool :=
  let expires := sync_rx_grace_expires_at_ms s in
  if expires =? 0 then (s, false)
  else if now <? expires then (s, true)
  else (with_grace s (sync_rx_grace s) 0, false).

(** the grace state that a packet may use *)
Definition usable_grace (s : t) (now : Z) : t * option SyncRxGrace :=
  let '(s, active) := sync_rx_grace_active s now in
  if negb active then (s, None)
  else
    let g := maybe_expire (sync_rx_grace s) now in
    if g_valid g then (with_grace s g (sync_rx_grace_expires_at_ms s), Some g)
    else (with_grace s g 0, None).

Definition replay_state_snapshot (s : t) (now : Z) : t * (rx_pair * rx_pair * SyncRxGrace) :=
  let rx := rx_slots s in
  let grace := sync_rx_grace s in
  if g_valid grace then
    let grace := maybe_expire grace now in
    (if g_valid grace then s else with_grace s (sync_rx_grace s) 0, (rx, grace))
  else (s, (rx, grace)).

Definition max_ahead (baseline : Z) : Z := saturating_add 32 baseline MAX_ACCEPTED_RX_EPOCH_AHEAD.

(** the answer of the grace slots to a packet, if they have its epoch *)
Definition precheck_grace (g : option SyncRxGrace) (e seq : Z) (dir : Direction) : option bool :=
  match g with
  | Some g =>
      let slots := get dir (g_slots g) in
      if valid slots.1 && (epoch slots.1 =? e) then Some (RW.can_accept (window slots.1) seq)
      else if valid slots.2 && (epoch slots.2 =? e) then Some (RW.can_accept (window slots.2) seq)
      else None
  | None => None
  end.

Definition precheck_replay_state (rx : rx_pair * rx_pair) (grace : option SyncRxGrace) (send_epoch e seq : Z) (dir : Direction) : bool :=
  match precheck_grace grace e seq dir with
  | Some b => b
  | None =>
      let '(cur, prev) := get dir rx in
      if negb (valid cur) then e <=? max_ahead send_epoch
      else if e =? epoch cur then RW.can_accept (window cur) seq
      else if valid prev && (e =? epoch prev) then RW.can_accept (window prev) seq
      else if epoch cur <? e then
        let baseline := Z.max send_epoch (epoch cur) in
        let baseline := if valid prev then Z.max baseline (epoch prev) else baseline in
        e <=? max_ahead baseline
      else false
  end.

(** a packet of the slot's epoch *)
Definition slot_accept (s : EpochRxSlot) (seq now : Z) : EpochRxSlot * bool :=
  let '(w, ok) := RW.accept (window s) seq in (mk_rx_slot (epoch s) w now (valid s), ok).
Definition fresh_slot (e now : Z) : EpochRxSlot := mk_rx_slot e RW.default now true.

(** the grace slots after a packet of one of their epochs *)
Definition commit_grace (g : SyncRxGrace) (e seq : Z) (dir : Direction) (now : Z) : option (SyncRxGrace * bool) :=
  let slots := get dir (g_slots g) in
  if valid slots.1 && (epoch slots.1 =? e) then
    let '(s, ok) := slot_accept slots.1 seq now in
    Some (mk_grace (set dir (s, slots.2) (g_slots g)) (expires_at_ms g) (g_valid g), ok)
  else if valid slots.2 && (epoch slots.2 =? e) then
    let '(s, ok) := slot_accept slots.2 seq now in
    Some (mk_grace (set dir (slots.1, s) (g_slots g)) (expires_at_ms g) (g_valid g), ok)
  else None.

(** the slots of a direction after an authenticated packet *)
Definition commit_rx (p : rx_pair) (send_epoch e seq now : Z) : rx_pair * bool :=
  let '(cur, prev) := p in
  if negb (valid cur) && (max_ahead send_epoch <? e) then (p, false)
  else
    let cur := if valid cur then cur else fresh_slot e now in
    if e =? epoch cur then let '(s, ok) := slot_accept cur seq now in ((s, prev), ok)
    else if valid prev && (e =? epoch prev) then let '(s, ok) := slot_accept prev seq now in ((cur, s), ok)
    else if epoch cur <? e then
      let baseline := Z.max send_epoch (epoch cur) in
      let baseline := if valid prev then Z.max baseline (epoch prev) else baseline in
      if max_ahead baseline <? e then ((cur, prev), false)
      else let '(s, ok) := slot_accept (fresh_slot e now) seq now in ((s, cur), ok)
    else ((cur, prev), false).

Definition commit_replay_state (rx : rx_pair * rx_pair) (grace : option SyncRxGrace) (send_epoch e seq : Z) (dir : Direction) (now : Z)
    : (rx_pair * rx_pair) * option SyncRxGrace * bool :=
  match (match grace with Some g => commit_grace g e seq dir now | None => None end) with
  | Some (g, ok) => (rx, Some g, ok)
  | None => let '(p, ok) := commit_rx (get dir rx) send_epoch e seq now in (set dir p rx, grace, ok)
  end.

(** keys of epochs that neither side uses any more *)
Definition prune_key_cache (s : t) (rx : rx_pair * rx_pair) (grace : option SyncRxGrace) : t :=
  let allowed d e :=
    (e =? send_epoch s) || epoch_in_slots (get d rx) e ||
    match grace with Some g => epoch_in_slots (get d (g_slots g)) e | None => false end in
  let prune d k := if k_valid k && negb (allowed d (k_epoch k))
                   then mk_key_slot (k_epoch k) (k_generation k) false (send_cipher k) (recv_cipher k) else k in
  let both d := (prune d (get d (key_cache s)).1, prune d (get d (key_cache s)).2) in
  with_cache s (both AToB, both BToA).

Definition precheck_replay (e seq : Z) (dir : Direction) (now : Z) : M bool := fun s =>
  let '(s, grace) := usable_grace s now in
  (s, Ok (precheck_replay_state (rx_slots s) grace (send_epoch s) e seq dir)).

Definition commit_replay (e seq : Z) (dir : Direction) (now : Z) : M bool := fun s =>
  let '(s, grace) := usable_grace s now in
  let '(rx, grace, ok) := commit_replay_state (rx_slots s) grace (send_epoch s) e seq dir now in
  let s := with_rx s rx in
  let s := match grace with Some g => with_grace s g (sync_rx_grace_expires_at_ms s) | None => s end in
  (prune_key_cache s rx grace, Ok ok).

(** ** Decryption *)
Section Receive.
Context {A : Aead} {H : Hmac}.

(** the checks on a packet before any key is used: its nonce as epoch and
    sequence number, and the data that authenticates its header *)
Definition classify (p : ZCPacket.t) : outcome Error (Z * Z * list Z) :=
  match ZCPacket.peer_manager_header p with
  | Some h =>
      if PH.is_encrypted h then
        body ← ZCPacket.payload p;
        n ← ok_or (parse_tail body) NoTail;
        aad ← packet_aad p;
        Ok (of_be (take 4 n), of_be (drop 4 n), aad)
      else Err NotEncrypted
  | None => Err NotEncrypted
  end.

Definition decrypt_payload (dir : Direction) (p : ZCPacket.t) (now : Z) : M ZCPacket.t :=
  ok ← gets is_valid;
  if negb ok then fail SessionInvalidated
  else
    '(e, seq, aad) ← lift (classify p);
    ok ← precheck_replay e seq dir now;
    if negb ok then fail ReplayRejected
    else
      generation ← gets session_generation;
      c ← get_or_create_encryptor e dir generation false;
      q ← lift_cipher record_decrypt_failure (Cipher.decrypt_with_aad c p aad);
      ok ← commit_replay e seq dir now;
      if negb ok then fail ReplayRejected
      else _ ← modify record_authenticated_success; mret q.

(** *** Batches *)
(** the table that finds nonces used twice: 128 slots, linear probing *)
Definition table_size : nat := 128.
Definition hash_slot (e seq : Z) : nat :=
  Z.to_nat (Z.land (Z.lxor (Z.lxor (wrap 64 (e * 0x9e3779b1)) seq) (Z.shiftr seq 32)) 127).
Definition next_slot (i : nat) : nat := Z.to_nat (Z.land (Z.of_nat i + 1) 127).

Abbreviation nonce_table := (list (option (Z * Z * nat))) (only parsing).

(** [None] when the fuel runs out *)
Fixpoint probe (fuel : nat) (table : nonce_table) (n : Z * Z) (slot : nat) : option (nat * option nat) :=
  match fuel with
  | O => None
  | S fuel =>
      match table !! slot with
      | Some (Some (stored, first)) =>
          if bool_decide (stored = n) then Some (slot, Some first) else probe fuel table n (next_slot slot)
      | _ => Some (slot, None)
      end
  end.

(** [duplicate[i] = true], in the array of 64 *)
Definition mark (i : nat) (dup : list bool) : outcome Error (list bool) :=
  if bool_decide (i < length dup)%nat then Ok (<[i := true]> dup) else Panic.

Definition note_nonce (table : nonce_table) (dup : list bool) (n : Z * Z) (index : nat) : outcome Error (nonce_table * list bool) :=
  match probe table_size table n (hash_slot n.1 n.2) with
  | Some (_, Some first) => dup ← mark first dup; dup ← mark index dup; Ok (table, dup)
  | Some (slot, None) => Ok (<[slot := Some (n, index)]> table, dup)
  | None => Panic
  end.

Fixpoint scan (ps : list ZCPacket.t) (index : nat) (table : nonce_table) (dup : list bool)
    : outcome Error (list (outcome Error (Z * Z * list Z)) * list bool) :=
  match ps with
  | [] => Ok ([], dup)
  | p :: ps =>
      match classify p with
      | Ok (e, seq, aad) =>
          '(table, dup) ← note_nonce table dup (e, seq) index;
          '(rest, dup) ← scan ps (S index) table dup;
          Ok (Ok (e, seq, aad) :: rest, dup)
      | Err x => '(rest, dup) ← scan ps (S index) table dup; Ok (Err x :: rest, dup)
      | Panic => Panic
      end
  end.

(** a packet of a batch: rejected, or decrypted with its nonce *)
Inductive status : Type := Rejected (e : Error) | Opened (e seq : Z) (p : ZCPacket.t).

(** the decryptors of the batch, one per epoch *)
Definition batch_decryptor (dir : Direction) (e : Z) (ds : list (Z * Cipher.RingCipher))
    : M (list (Z * Cipher.RingCipher) * Cipher.RingCipher) :=
  match list_find (fun d => d.1 = e) ds with
  | Some (_, (_, c)) => mret (ds, c)
  | None =>
      generation ← gets session_generation;
      c ← get_or_create_encryptor e dir generation false;
      mret (ds ++ [(e, c)], c)
  end.

(** the replay check against the snapshot *)
Definition admission (rx : rx_pair * rx_pair) (grace : option SyncRxGrace) (send_epoch : Z) (dir : Direction) (dup : list bool)
    (index : nat) (c : outcome Error (Z * Z * list Z)) : outcome Error (outcome Error (Z * Z * list Z)) :=
  match c with
  | Ok (e, seq, aad) =>
      d ← unwrap (dup !! index);
      if d : bool then Ok (Err DuplicateNonce)
      else if precheck_replay_state rx grace send_epoch e seq dir then Ok (Ok (e, seq, aad)) else Ok (Err ReplayRejected)
  | Err x => Ok (Err x)
  | Panic => Panic
  end.
Fixpoint admissions (rx : rx_pair * rx_pair) (grace : option SyncRxGrace) (send_epoch : Z) (dir : Direction) (dup : list bool)
    (index : nat) (cs : list (outcome Error (Z * Z * list Z))) : outcome Error (list (outcome Error (Z * Z * list Z))) :=
  match cs with
  | [] => Ok []
  | c :: cs =>
      c ← admission rx grace send_epoch dir dup index c;
      cs ← admissions rx grace send_epoch dir dup (S index) cs;
      Ok (c :: cs)
  end.

(** the candidates decrypted in their order; whether a decryption failed *)
Fixpoint open_all (dir : Direction) (ds : list (Z * Cipher.RingCipher)) (ps : list (ZCPacket.t * outcome Error (Z * Z * list Z)))
    : M (list status * bool) :=
  match ps with
  | [] => mret ([], false)
  | (p, Ok (e, seq, aad)) :: ps =>
      '(ds, c) ← batch_decryptor dir e ds;
      match Cipher.decrypt_with_aad c p aad with
      | Ok q => '(rest, failed) ← open_all dir ds ps; mret (Opened e seq q :: rest, failed)
      | Err x => '(rest, failed) ← open_all dir ds ps; mret (Rejected (CipherError x) :: rest, true)
      | Panic => lift Panic
      end
  | (_, Err x) :: ps => '(rest, failed) ← open_all dir ds ps; mret (Rejected x :: rest, failed)
  | (_, Panic) :: ps => lift Panic
  end.

(** commits in the order of epoch, sequence number and index *)
Definition commit_le (a b : Z * Z * nat) : Prop :=
  a.1.1 < b.1.1 \/ (a.1.1 = b.1.1 /\ (a.1.2 < b.1.2 \/ (a.1.2 = b.1.2 /\ (a.2 <= b.2)%nat))).
#[export] Instance commit_le_dec a b : Decision (commit_le a b).
Proof. unfold commit_le. apply _. Defined.
Definition commit_order (sts : list status) : list (Z * Z * nat) :=
  merge_sort commit_le
    (omap (fun x => match x with (i, Opened e seq _) => Some (e, seq, i) | _ => None end) (imap (fun i st => (i, st)) sts)).

Fixpoint commit_all (rx : rx_pair * rx_pair) (grace : option SyncRxGrace) (send_epoch : Z) (dir : Direction) (now : Z)
    (order : list (Z * Z * nat)) (sts : list status) : (rx_pair * rx_pair) * option SyncRxGrace * list status :=
  match order with
  | [] => (rx, grace, sts)
  | (e, seq, i) :: order =>
      let '(rx, grace, ok) := commit_replay_state rx grace send_epoch e seq dir now in
      commit_all rx grace send_epoch dir now order (if ok : bool then sts else <[i := Rejected ReplayRejected]> sts)
  end.

Definition result_of (s : status) : outcome Error ZCPacket.t :=
  match s with Rejected e => Err e | Opened _ _ p => Ok p end.
Definition is_opened (s : status) : bool := match s with Opened _ _ _ => true | _ => false end.

Definition decrypt_payload_batch (dir : Direction) (ps : list ZCPacket.t) (now : Z) : M (list (outcome Error ZCPacket.t)) :=
  ok ← gets is_valid;
  if negb ok then mret (map (fun _ => Err SessionInvalidated) ps)
  else if bool_decide (ps = []) then mret []
  else
    '(cs, dup) ← lift (scan ps 0 (replicate table_size None) (replicate 64 false));
    '(rx, grace) ← (fun s => let '(s, r) := replay_state_snapshot s now in (s, Ok r));
    send ← gets send_epoch;
    cs ← lift (admissions rx (if g_valid grace then Some grace else None) send dir dup 0 cs);
    '(sts, failed) ← open_all dir [] (zip ps cs);
    sts ← (fun s =>
      let g := maybe_expire (sync_rx_grace s) now in
      let expires := if g_valid g then sync_rx_grace_expires_at_ms s else 0 in
      let '(rx, grace, sts) := commit_all (rx_slots s) (if g_valid g then Some g else None) (send_epoch s) dir now (commit_order sts) sts in
      let s := with_grace (with_rx s rx) (default default_grace grace) expires in
      (prune_key_cache s rx (if g_valid (default default_grace grace) then grace else None), Ok sts));
    _ ← modify (fun s => if existsb is_opened sts then record_authenticated_success s
                         else if failed : bool then record_decrypt_failure s else s);
    mret (map result_of sts).
End Receive.
End SecureDatagram.
