(* ===== verification/SecureDatagramProps.v ===== *)
(** * Properties of secure datagram sessions

    Nonces of a session are never reserved twice, what one side seals the
    other side opens, and the lemmas on single acceptances and on the commits
    of a batch that the files on replays and batches build on. *)
From stdpp Require Import base list gmap numbers strings sorting.
From Stdlib Require Import ZArith Lia.
From S2P Require Import Prelude PacketHeader Packet PacketProps ReplayWindow NetAddr Cipher SecureDatagram.

Local Open Scope Z_scope.

Module SecureDatagramProps.
Import SecureDatagram.

(** ** The key cache *)
Section Cache.
Context {A : Aead} {H : Hmac}.

(** a valid slot holds the ciphers of its epoch *)
Definition slot_ok (s : t) (d : Direction) (k : EpochKeySlot) : Prop :=
  k_valid k = true ->
  send_cipher k = Some (traffic_cipher (root_key s) (send_cipher_algorithm s) (k_epoch k) d) /\
  recv_cipher k = Some (traffic_cipher (root_key s) (recv_cipher_algorithm s) (k_epoch k) d).
Definition cache_ok (s : t) : Prop :=
  forall d, slot_ok s d (get d (key_cache s)).1 /\ slot_ok s d (get d (key_cache s)).2.

Definition cipher_for (s : t) (is_send : bool) (e : Z) (d : Direction) : Cipher.RingCipher :=
  traffic_cipher (root_key s) (if is_send then send_cipher_algorithm s else recv_cipher_algorithm s) e d.

(** what the cache may change of a session: nothing else *)
Definition same_but_cache (s s' : t) : Prop := s' = with_cache s (key_cache s').

Lemma get_or_create_spec s e d g is_send : cache_ok s ->
  exists c, get_or_create_encryptor e d g is_send s = (with_cache s c, Ok (cipher_for s is_send e d)) /\ cache_ok (with_cache s c).
Proof.
  intros Hc. unfold get_or_create_encryptor. pose proof (Hc d) as [H1 H2].
  assert (with_cache s (key_cache s) = s) as Hs by (by destruct s).
  destruct (key_matches e g (get d (key_cache s)).1) eqn:E1.
  { exists (key_cache s). unfold key_matches in E1. bool_to_Z. destruct (H1 ltac:(done)) as [Hsc Hrc]. rewrite Hs. split; [|done].
    unfold get_encryptor, cipher_for. destruct is_send; rewrite ?Hsc, ?Hrc; cbn; congruence. }
  destruct (key_matches e g (get d (key_cache s)).2) eqn:E2.
  { exists (key_cache s). unfold key_matches in E2. bool_to_Z. destruct (H2 ltac:(done)) as [Hsc Hrc]. rewrite Hs. split; [|done].
    unfold get_encryptor, cipher_for. destruct is_send; rewrite ?Hsc, ?Hrc; cbn; congruence. }
  eexists. split; [unfold cipher_for; by destruct is_send|].
  intros d'. destruct (decide (d = d')) as [<-|Hne].
  - cbn [key_cache with_cache]. rewrite get_set_same. destruct (_ || _); cbn; by split.
  - cbn [key_cache with_cache]. rewrite get_set_other by done. apply Hc.
Qed.

Lemma cache_ok_ext s s' : cache_ok s -> root_key s' = root_key s -> send_cipher_algorithm s' = send_cipher_algorithm s ->
  recv_cipher_algorithm s' = recv_cipher_algorithm s -> key_cache s' = key_cache s -> cache_ok s'.
Proof. intros Hc E1 E2 E3 E4 d. unfold slot_ok. rewrite E1, E2, E3, E4. apply Hc. Qed.

Lemma prune_cache_ok s rx g : cache_ok s -> cache_ok (prune_key_cache s rx g).
Proof. intros Hc d. destruct (Hc d) as [H1 H2]. destruct d; cbn; split; (case_match; [done|]; done). Qed.

Lemma default_cache_ok s : key_cache s = default_cache -> cache_ok s.
Proof. intros E d. rewrite E. by destruct d. Qed.
End Cache.

(** ** One acceptance rule *)
Lemma accept_can w seq : (RW.accept w seq).2 = RW.can_accept w seq.
Proof. unfold RW.accept. destruct (RW.can_accept w seq); [|done]. by destruct (RW.valid w). Qed.
Lemma accept_fresh seq : (RW.accept RW.default seq).2 = true.
Proof. by rewrite accept_can. Qed.
Lemma slot_accept_snd sl seq now : (slot_accept sl seq now).2 = RW.can_accept (window sl) seq.
Proof. unfold slot_accept. rewrite <- accept_can. by destruct (RW.accept _ _). Qed.
Lemma slot_accept_fst sl seq now : (slot_accept sl seq now).1 = mk_rx_slot (epoch sl) (RW.accept (window sl) seq).1 now (valid sl).
Proof. unfold slot_accept. by destruct (RW.accept _ _). Qed.

Lemma commit_rx_ok p se e seq now : (commit_rx p se e seq now).2 =
  let '(cur, prev) := p in
  if negb (valid cur) then e <=? max_ahead se
  else if e =? epoch cur then RW.can_accept (window cur) seq
  else if valid prev && (e =? epoch prev) then RW.can_accept (window prev) seq
  else if epoch cur <? e then
    let baseline := Z.max se (epoch cur) in
    let baseline := if valid prev then Z.max baseline (epoch prev) else baseline in
    e <=? max_ahead baseline
  else false.
Proof.
  destruct p as [cur prev]. unfold commit_rx. destruct (valid cur) eqn:Ev; cbn [negb andb].
  - destruct (e =? epoch cur) eqn:E1.
    { pose proof (slot_accept_snd cur seq now) as Hs. destruct (slot_accept cur seq now). done. }
    destruct (valid prev && (e =? epoch prev)) eqn:E2.
    { pose proof (slot_accept_snd prev seq now) as Hs. destruct (slot_accept prev seq now). done. }
    destruct (epoch cur <? e) eqn:E3; [|done]. set (b := if valid prev then _ else _). rewrite Z.leb_antisym.
    destruct (max_ahead b <? e); cbn [negb]; [done|].
    pose proof (slot_accept_snd (fresh_slot e now) seq now) as Hs. destruct (slot_accept _ _ _). done.
  - rewrite Z.leb_antisym. destruct (max_ahead se <? e); cbn [negb]; [done|].
    cbn [epoch fresh_slot]. rewrite Z.eqb_refl.
    pose proof (slot_accept_snd (fresh_slot e now) seq now) as Hs. destruct (slot_accept _ _ _). done.
Qed.

(** the check before decryption is the answer of the commit after it *)
Lemma precheck_is_commit rx g se e seq d now :
  (commit_replay_state rx g se e seq d now).2 = precheck_replay_state rx g se e seq d.
Proof.
  unfold commit_replay_state, precheck_replay_state.
  assert ((precheck_grace g e seq d) = snd <$> (match g with Some g => commit_grace g e seq d now | None => None end)) as ->.
  { unfold precheck_grace, commit_grace. destruct g as [g|]; [|done]. destruct (get d (g_slots g)) as [a b]. cbn [fst snd].
    destruct (valid a && (epoch a =? e)).
    { pose proof (slot_accept_snd a seq now) as Hs. destruct (slot_accept a seq now). cbn in *. by subst. }
    destruct (valid b && (epoch b =? e)); [|done].
    pose proof (slot_accept_snd b seq now) as Hs. destruct (slot_accept b seq now). cbn in *. by subst. }
  destruct (match g with Some g => commit_grace g e seq d now | None => None end) as [[g' ok]|]; [done|]. cbn [fmap option_fmap option_map].
  pose proof (commit_rx_ok (get d rx) se e seq now) as Hc. destruct (commit_rx _ _ _ _ _) as [p' ok]. exact Hc.
Qed.

(** ** The slots of a direction remember what was accepted *)
Definition seqs (e : Z) (h : list (Z * Z)) : list Z := (filter (fun x : Z * Z => x.1 = e) h).*2.

Lemma elem_of_seqs e q h : q ∈ seqs e h <-> (e, q) ∈ h.
Proof.
  unfold seqs. rewrite list_elem_of_fmap. split.
  - intros ([e' q'] & -> & [? ?]%list_elem_of_filter). cbn in *. by subst.
  - intros Hin. exists (e, q). split; [done|]. by apply list_elem_of_filter.
Qed.
Lemma seqs_cons_eq e q h : seqs e ((e, q) :: h) = q :: seqs e h.
Proof. unfold seqs. rewrite filter_cons_True by done. done. Qed.
Lemma seqs_cons_ne e e' q h : e' <> e -> seqs e ((e', q) :: h) = seqs e h.
Proof. intros. unfold seqs. rewrite filter_cons_False by done. done. Qed.
Lemma seqs_above e h : Forall (fun x : Z * Z => x.1 < e) h -> seqs e h = [].
Proof.
  induction 1 as [|[e' q] h Hlt _ IH]; [done|]. cbn in Hlt. by rewrite seqs_cons_ne by lia.
Qed.

Definition rx_refines (p : EpochRxSlot * EpochRxSlot) (h : list (Z * Z)) : Prop :=
  let '(cur, prev) := p in
  if valid cur then
    RW.refines (window cur) (seqs (epoch cur) h) /\ Forall (fun x : Z * Z => x.1 <= epoch cur) h /\
    (valid prev = true -> epoch prev < epoch cur /\ RW.refines (window prev) (seqs (epoch prev) h))
  else h = [] /\ valid prev = false.

Lemma rx_refines_default : rx_refines (default_rx_slot, default_rx_slot) [].
Proof. done. Qed.

(** accepting in a window *)
Lemma window_accept w l seq : RW.refines w l -> 0 <= seq ->
  if (RW.accept w seq).2 then seq ∉ l /\ RW.refines (RW.accept w seq).1 (seq :: l) else (RW.accept w seq).1 = w.
Proof.
  intros Hr Hs. destruct (RW.accept_refines w l seq Hr Hs) as [H1 H2]. cbn [RW.spec_step] in *.
  destruct (RW.spec_can_accept l seq) eqn:E; cbn [fst snd] in *; rewrite H2.
  - unfold RW.spec_can_accept in E. apply bool_decide_eq_true in E as [? _]. done.
  - rewrite accept_can in H2. unfold RW.accept. by rewrite H2.
Qed.

Lemma commit_rx_refines p h se e seq now : rx_refines p h -> 0 <= seq ->
  if (commit_rx p se e seq now).2 then (e, seq) ∉ h /\ rx_refines (commit_rx p se e seq now).1 ((e, seq) :: h)
  else rx_refines (commit_rx p se e seq now).1 h.
Proof.
  destruct p as [cur prev]. intros Hr Hs. unfold commit_rx. cbn [rx_refines] in Hr.
  destruct (valid cur) eqn:Ev; cbn [negb andb].
  - destruct Hr as (Hw & Hle & Hp). destruct (e =? epoch cur) eqn:E1; bool_to_Z.
    { subst e. pose proof (window_accept _ _ seq Hw Hs) as Ha. unfold slot_accept.
      destruct (RW.accept (window cur) seq) as [w ok]. cbn [fst snd] in *. destruct ok; cbn [rx_refines valid window epoch]; rewrite Ev.
      - destruct Ha as [Hn Ha]. rewrite elem_of_seqs in Hn. split; [done|]. rewrite seqs_cons_eq. split; [done|]. split; [constructor; [cbn; lia|done]|].
        intros Hpv. destruct (Hp Hpv) as [Hlt Hpw]. split; [done|]. rewrite seqs_cons_ne by lia. done.
      - subst w. done. }
    destruct (valid prev && (e =? epoch prev)) eqn:E2; bool_to_Z.
    { subst e. destruct (Hp ltac:(done)) as [Hlt Hpw]. pose proof (window_accept _ _ seq Hpw Hs) as Ha. unfold slot_accept.
      destruct (RW.accept (window prev) seq) as [w ok]. cbn [fst snd] in *. destruct ok; cbn [rx_refines valid window epoch]; rewrite Ev.
      - destruct Ha as [Hn Ha]. rewrite elem_of_seqs in Hn. split; [done|]. rewrite seqs_cons_ne by lia. split; [done|]. split; [constructor; [cbn; lia|done]|].
        intros _. split; [done|]. by rewrite seqs_cons_eq.
      - subst w. done. }
    destruct (epoch cur <? e) eqn:E3; bool_to_Z; [|cbn [snd fst rx_refines]; by rewrite Ev].
    set (b := if valid prev then _ else _). destruct (max_ahead b <? e); [cbn [snd fst rx_refines]; by rewrite Ev|].
    assert (Forall (fun x : Z * Z => x.1 < e) h) as Hlt by (eapply Forall_impl; [exact Hle|]; cbn; lia).
    pose proof (window_accept _ _ seq RW.default_refines Hs) as Ha. unfold slot_accept. cbn [fresh_slot window epoch valid].
    pose proof (accept_fresh seq) as Hf. destruct (RW.accept RW.default seq) as [w ok]. cbn [fst snd] in *. subst ok.
    destruct Ha as [_ Ha]. cbn [rx_refines valid window epoch]. split.
    + intros Hin. rewrite Forall_forall in Hlt. specialize (Hlt _ Hin). cbn in Hlt. lia.
    + rewrite seqs_cons_eq, seqs_above by done. split; [done|]. split; [constructor; [cbn; lia|]; eapply Forall_impl; [exact Hle|]; cbn; lia|].
      intros _. split; [done|]. rewrite seqs_cons_ne by lia. done.
  - destruct Hr as [-> Hpv]. destruct (max_ahead se <? e); [cbn [snd fst rx_refines]; by rewrite Ev|].
    unfold slot_accept, fresh_slot. cbn [window epoch valid]. rewrite Z.eqb_refl.
    pose proof (window_accept _ _ seq RW.default_refines Hs) as Ha. pose proof (accept_fresh seq) as Hf.
    destruct (RW.accept RW.default seq) as [w ok]. cbn [fst snd] in *. subst ok. destruct Ha as [_ Ha]. cbn [rx_refines valid window epoch].
    split; [set_solver|]. rewrite seqs_cons_eq. split; [done|]. split; [constructor; [cbn; lia|constructor]|]. congruence.
Qed.

(** ** A decryption *)
(** what no packet of the peer changes *)
Definition frame (s s' : t) : Prop :=
  root_key s' = root_key s /\ session_generation s' = session_generation s /\ send_epoch s' = send_epoch s /\
  send_seq s' = send_seq s /\ send_epoch_started_ms s' = send_epoch_started_ms s /\
  send_packets_since_epoch s' = send_packets_since_epoch s /\ send_cipher_algorithm s' = send_cipher_algorithm s /\
  recv_cipher_algorithm s' = recv_cipher_algorithm s /\ invalidated s' = invalidated s.

Lemma frame_refl s : frame s s.
Proof. by unfold frame. Qed.
Lemma frame_trans s1 s2 s3 : frame s1 s2 -> frame s2 s3 -> frame s1 s3.
Proof. unfold frame. intuition congruence. Qed.

Lemma usable_grace_frame s now : let '(s1, g) := usable_grace s now in
  frame s s1 /\ rx_slots s1 = rx_slots s /\ key_cache s1 = key_cache s /\ decrypt_fail_count s1 = decrypt_fail_count s /\
  match g with Some g => g_valid g = true /\ sync_rx_grace s1 = g /\ now < sync_rx_grace_expires_at_ms s1 | None => True end.
Proof.
  unfold usable_grace, sync_rx_grace_active. destruct (_ =? 0); [done|]. destruct (now <? _) eqn:E; [|done]. cbn [negb].
  destruct (g_valid (maybe_expire _ _)) eqn:Eg; [|done]. bool_to_Z. done.
Qed.

Lemma usable_grace_cache s now c : usable_grace (with_cache s c) now =
  (with_cache (usable_grace s now).1 c, (usable_grace s now).2).
Proof.
  unfold usable_grace, sync_rx_grace_active. cbn [with_cache sync_rx_grace_expires_at_ms].
  destruct (_ =? 0); [done|]. destruct (now <? _); [|done]. cbn. by destruct (g_valid _).
Qed.

Lemma maybe_expire_idem g now : maybe_expire (maybe_expire g now) now = maybe_expire g now.
Proof.
  unfold maybe_expire. destruct (g_valid g && (expires_at_ms g <=? now)) eqn:E; [done|]. by rewrite E.
Qed.

Lemma usable_grace_idem s now : usable_grace (usable_grace s now).1 now = usable_grace s now.
Proof.
  unfold usable_grace, sync_rx_grace_active. destruct (sync_rx_grace_expires_at_ms s =? 0) eqn:E0; [cbn; by rewrite E0|].
  destruct (now <? _) eqn:E1; [|done]. cbn [negb]. destruct (g_valid (maybe_expire (sync_rx_grace s) now)) eqn:Eg; [|done].
  cbn [fst sync_rx_grace_expires_at_ms with_grace sync_rx_grace]. rewrite E0, E1. cbn [negb].
  change (sync_rx_grace (with_grace s ?g ?x)) with g. by rewrite maybe_expire_idem, Eg.
Qed.

Section Decrypt.
Context {A : Aead} {H : Hmac}.

Lemma health_cache_ok s i f : cache_ok s -> cache_ok (with_health s i f).
Proof. intros Hc. by apply (cache_ok_ext s). Qed.
Lemma grace_cache_ok s g x : cache_ok s -> cache_ok (with_grace s g x).
Proof. intros Hc. by apply (cache_ok_ext s). Qed.
Lemma rx_cache_ok s rx : cache_ok s -> cache_ok (with_rx s rx).
Proof. intros Hc. by apply (cache_ok_ext s). Qed.

(** the state after the grace is looked at *)
Abbreviation graced s now := (usable_grace s now).1 (only parsing).
Abbreviation grace_of s now := (usable_grace s now).2 (only parsing).

(** the state after an accepted packet, apart from the key cache *)
Definition committed (s : t) (e seq : Z) (d : Direction) (now : Z) (s' : t) : Prop :=
  let '(rx, g, _) := commit_replay_state (rx_slots s) (grace_of s now) (send_epoch s) e seq d now in
  frame s s' /\ rx_slots s' = rx /\ sync_rx_grace_expires_at_ms s' = sync_rx_grace_expires_at_ms (graced s now) /\
  sync_rx_grace s' = default (sync_rx_grace (graced s now)) g /\ decrypt_fail_count s' = 0.

Lemma decrypt_payload_spec s d p now : cache_ok s -> is_valid s = true ->
  match classify p with
  | Ok (e, seq, aad) =>
      if precheck_replay_state (rx_slots s) (grace_of s now) (send_epoch s) e seq d then
        match Cipher.decrypt_with_aad (cipher_for s false e d) p aad with
        | Ok q => exists s', decrypt_payload d p now s = (s', Ok q) /\ cache_ok s' /\ committed s e seq d now s'
        | Err x => exists c, decrypt_payload d p now s = (record_decrypt_failure (with_cache (graced s now) c), Err (CipherError x)) /\
            cache_ok (with_cache (graced s now) c)
        | Panic => (decrypt_payload d p now s).2 = Panic
        end
      else decrypt_payload d p now s = (graced s now, Err ReplayRejected)
  | Err x => decrypt_payload d p now s = (s, Err x)
  | Panic => (decrypt_payload d p now s).2 = Panic
  end.
Proof.
  intros Hc Hv. unfold decrypt_payload. cbv [mbind M_bind mret M_ret gets lift fail modify]. rewrite Hv. cbn [negb].
  destruct (classify p) as [[[e seq] aad]|x|]; [|done|done].
  pose proof (usable_grace_frame s now) as Hf. pose proof (usable_grace_idem s now) as Hi.
  unfold precheck_replay. destruct (usable_grace s now) as [s1 g] eqn:Eg. cbn [fst snd] in *.
  destruct Hf as (Hf & Hrx & Hkc & Hfc & _). rewrite Hrx. replace (send_epoch s1) with (send_epoch s) by (symmetry; apply Hf).
  destruct (precheck_replay_state (rx_slots s) g (send_epoch s) e seq d) eqn:Ep; cbn [negb]; [|done].
  assert (cache_ok s1) as Hc1 by (eapply cache_ok_ext; [exact Hc|apply Hf..|done]).
  assert (cipher_for s1 false e d = cipher_for s false e d) as Hci.
  { unfold cipher_for. f_equal; apply Hf. }
  destruct (get_or_create_spec s1 e d (session_generation s1) false Hc1) as (c & -> & Hc2). rewrite Hci.
  unfold lift_cipher. destruct (Cipher.decrypt_with_aad _ _ _) as [q|x|]; [|by exists c|done].
  unfold commit_replay. rewrite usable_grace_cache, Hi. cbn [fst snd].
  replace (rx_slots (with_cache s1 c)) with (rx_slots s) by (by cbn). replace (send_epoch (with_cache s1 c)) with (send_epoch s) by (symmetry; apply Hf).
  pose proof (precheck_is_commit (rx_slots s) g (send_epoch s) e seq d now) as Hpc. rewrite Ep in Hpc.
  unfold committed. rewrite Eg. cbn [fst snd].
  destruct (commit_replay_state (rx_slots s) g (send_epoch s) e seq d now) as [[rx g'] ok]. cbn in Hpc. subst ok. cbn [negb].
  eexists. split; [reflexivity|]. split.
  - apply health_cache_ok, prune_cache_ok. destruct g'; [apply grace_cache_ok|]; by apply rx_cache_ok.
  - destruct g'; cbn; (split; [|done]); unfold frame in *; cbn; intuition.
Qed.
End Decrypt.

(** ** Reservations of nonces *)
(** the part of the state that a reservation leaves alone *)
Definition send_only (s s' : t) : Prop :=
  s' = with_send s (send_epoch s') (send_seq s') (send_epoch_started_ms s') (send_packets_since_epoch s').

Lemma reserve_range_spec d n now s : n <> 0 ->
  match reserve_nonce_range d n now s with
  | (s', r) => send_only s s' /\ (send_epoch s' = send_epoch s \/ send_epoch s' = wrap 32 (send_epoch s + 1)) /\
      match r with
      | Ok (e, start) => e = send_epoch s' /\ start = get d (send_seq s) /\ send_seq s' = set d (start + n) (send_seq s) /\
          start <= saturating_sub (u_max 64) n
      | Err x => x = NonceExhausted /\ send_seq s' = send_seq s /\ saturating_sub (u_max 64) n < get d (send_seq s)
      | Panic => False
      end
  end.
Proof.
  intros Hn. unfold reserve_nonce_range. rewrite (proj2 (Z.eqb_neq n 0)) by done.
  assert (send_seq (maybe_rotate_epoch s now n) = send_seq s /\ send_only s (maybe_rotate_epoch s now n) /\
    (send_epoch (maybe_rotate_epoch s now n) = send_epoch s \/ send_epoch (maybe_rotate_epoch s now n) = wrap 32 (send_epoch s + 1)))
    as (E1 & E2 & E3) by (unfold maybe_rotate_epoch; destruct (_ && _); split_and!; [done|done|by left|done|done|by right]).
  rewrite E1. destruct (saturating_sub (u_max 64) n <? get d (send_seq s)) eqn:E; bool_to_Z.
  - done.
  - cbn. split; [|by split]. unfold send_only in *. cbn. rewrite E2 at 1. done.
Qed.

Lemma reserve_epoch d n now s : n <> 0 -> is_u 32 (send_epoch s) -> send_epoch s < u_max 32 ->
  send_epoch s <= send_epoch (reserve_nonce_range d n now s).1 <= send_epoch s + 1.
Proof.
  intros Hn Hu He. pose proof (reserve_range_spec d n now s Hn) as Hs. destruct (reserve_nonce_range d n now s) as [s' r].
  destruct Hs as (_ & [E|E] & _); cbn [fst]; rewrite E; [lia|]. rewrite wrap_small; [lia|]. unfold is_u, u_max in *. lia.
Qed.

(** ** A sealed packet *)
Section Seal.
Context {A : Aead} {AL : AeadLaws A} {H : Hmac}.
Import PacketProps.

Definition state_ok (s : t) : Prop :=
  is_u 32 (send_epoch s) /\ 0 <= (send_seq s).1 /\ 0 <= (send_seq s).2.

Lemma length_nonce e seq : length (nonce e seq) = Cipher.NONCE_SIZE.
Proof. unfold nonce. by rewrite length_app, !length_to_be. Qed.

Lemma nonce_decodes e seq : is_u 32 e -> is_u 64 seq ->
  of_be (take 4 (nonce e seq)) = e /\ of_be (drop 4 (nonce e seq)) = seq.
Proof.
  intros He Hs. unfold nonce. rewrite (take_app_length' (to_be 4 e)), (drop_app_length' (to_be 4 e)) by (by rewrite length_to_be).
  split; by apply of_to_be.
Qed.

Lemma classify_sealed q pre h text tag e seq : layout q pre h (text ++ tag ++ nonce e seq) -> PH.is_encrypted h = true ->
  length tag = 16%nat -> is_u 32 e -> is_u 64 seq -> classify q = Ok (e, seq, PH.stable_auth_data h).
Proof.
  intros Hl He Ht H1 H2. unfold classify, packet_aad. rewrite (layout_header _ _ _ _ Hl), He, (layout_payload _ _ _ _ Hl).
  cbn [mbind outcome_bind]. unfold parse_tail. rewrite Cipher.ref_from_suffix_app by (done || apply length_nonce).
  cbn [fmap option_fmap option_map ok_or mbind outcome_bind Cipher.nonce]. destruct (nonce_decodes e seq H1 H2) as [-> ->]. done.
Qed.

Lemma encrypt_payload_spec s d p pre h body now : cache_ok s -> is_valid s = true -> state_ok s ->
  layout p pre h body -> PH.is_encrypted h = false -> sealable_text body -> get d (send_seq s) < u_max 64 ->
  exists s' text tag, let e := send_epoch s' in let seq := get d (send_seq s) in
    let q := ZCPacket.with_parsed_metadata (ZCPacket.with_inner p
      (pre ++ PH.as_bytes (PH.set_encrypted h true) ++ text ++ tag ++ nonce e seq)) None in
    encrypt_payload d p now s = (s', Ok q) /\ cache_ok s' /\
    s' = with_cache (reserve_nonce_range d 1 now s).1 (key_cache s') /\
    seal (Cipher.algorithm (cipher_for s true e d)) (Cipher.key (cipher_for s true e d)) (nonce e seq) (PH.stable_auth_data h) body = Some (text, tag) /\
    layout q pre (PH.set_encrypted h true) (text ++ tag ++ nonce e seq) /\
    classify q = Ok (e, seq, PH.stable_auth_data h).
Proof.
  intros Hc Hv (Hu & Hs1 & Hs2) Hl He Hb Hx. unfold encrypt_payload. cbv [mbind M_bind gets lift fail]. rewrite Hv. cbn [negb].
  pose proof (reserve_range_spec d 1 now s ltac:(done)) as Hr. destruct (reserve_nonce_range d 1 now s) as [s1 r] eqn:Er.
  destruct Hr as (Hso & Hep & Hr). assert (0 <= get d (send_seq s)) as Hpos by (destruct d; done).
  destruct r as [[e start]|x|]; [|exfalso; destruct Hr as (_ & _ & Hr); unfold saturating_sub, u_max in *; lia|done].
  destruct Hr as (-> & -> & Hseq & _). assert (is_u 32 (send_epoch s1)) as He1.
  { destruct Hep as [->| ->]; [done|]. apply wrap_range. lia. }
  unfold packet_aad. rewrite (layout_header _ _ _ _ Hl). cbn [ok_or mbind outcome_bind].
  assert (root_key s1 = root_key s /\ send_cipher_algorithm s1 = send_cipher_algorithm s /\ recv_cipher_algorithm s1 = recv_cipher_algorithm s /\ key_cache s1 = key_cache s)
    as (R1 & R2 & R3 & R4) by (rewrite Hso; done).
  assert (cache_ok s1) as Hc1 by (by apply (cache_ok_ext s)).
  destruct (get_or_create_spec s1 (send_epoch s1) d (session_generation s1) true Hc1) as (c & -> & Hc2).
  assert (cipher_for s1 true (send_epoch s1) d = cipher_for s true (send_epoch s1) d) as -> by (unfold cipher_for; by rewrite R1, R2).
  destruct (Cipher.encrypt_layout (cipher_for s true (send_epoch s1) d) p pre h body (nonce (send_epoch s1) (get d (send_seq s))) (PH.stable_auth_data h) Hl He
    (length_nonce _ _) Hb) as (text & tag & Hseal & Henc & Hlay).
  exists (with_cache s1 c), text, tag. cbv zeta. unfold lift_cipher. rewrite Henc. cbn [fst with_cache key_cache send_epoch].
  destruct Hl as [_ _ Hw]. split_and!; [done|done|done|done|done|].
  destruct (Cipher.encrypted_flag h true Hw) as (_ & Henc' & _ & Haad). rewrite <- Haad. apply (classify_sealed _ _ _ _ _ _ _ Hlay); try done.
  - by destruct (seal_length _ _ _ _ _ _ _ Hseal).
  - unfold is_u, u_max in *. lia.
Qed.

(** the other side opens it when its replay state admits the nonce *)
Lemma sealed_opens a b d p pre h body now now' : cache_ok a -> is_valid a = true -> state_ok a ->
  cache_ok b -> is_valid b = true -> root_key b = root_key a -> recv_cipher_algorithm b = send_cipher_algorithm a ->
  layout p pre h body -> PH.is_encrypted h = false -> sealable_text body -> get d (send_seq a) < u_max 64 ->
  exists a' q, encrypt_payload d p now a = (a', Ok q) /\ cache_ok a' /\ a' = with_cache (reserve_nonce_range d 1 now a).1 (key_cache a') /\
    classify q = Ok (send_epoch a', get d (send_seq a), PH.stable_auth_data h) /\
    (precheck_replay_state (rx_slots b) (usable_grace b now').2 (send_epoch b) (send_epoch a') (get d (send_seq a)) d = true ->
     exists b', decrypt_payload d q now' b = (b', Ok (ZCPacket.with_parsed_metadata p None)) /\ cache_ok b' /\
       committed b (send_epoch a') (get d (send_seq a)) d now' b').
Proof.
  intros Hca Hva Hsa Hcb Hvb Hk Halg Hl He Hlen Hx.
  destruct (encrypt_payload_spec a d p pre h body now Hca Hva Hsa Hl He Hlen Hx) as (a' & text & tag & Henc & Hca' & Ha' & Hseal & Hlay & Hcl).
  eexists a', _. split; [exact Henc|]. split; [done|]. split; [done|]. split; [done|]. intros Hpre.
  match type of Hcl with classify ?q = _ => pose proof (decrypt_payload_spec b d q now' Hcb Hvb) as Hd end. rewrite Hcl in Hd. rewrite Hpre in Hd.
  assert (cipher_for b false (send_epoch a') d = cipher_for a true (send_epoch a') d) as Hci by (unfold cipher_for; by rewrite Hk, Halg).
  rewrite Hci in Hd. destruct (seal_length _ _ _ _ _ _ _ Hseal) as [_ Htag]. apply open_seal in Hseal.
  destruct Hl as [Hi Hp Hw]. destruct (Cipher.encrypted_flag h true Hw) as (_ & Henc' & Hback & _).
  destruct (Cipher.decrypt_layout _ _ _ _ _ _ _ _ _ Hlay Henc' Htag (length_nonce _ _) Hseal) as [Hdec _]. rewrite Hdec in Hd.
  destruct Hd as (b' & Hd & ? & ?). exists b'. split; [|done]. rewrite Hd. do 2 f_equal. rewrite (Hback He), <- Hi. by destruct p.
Qed.
End Seal.

(** ** A stream of packets *)
Lemma accept_newer w seq : (RW.valid w = true -> RW.max_sequence w < seq) ->
  RW.can_accept w seq = true /\ RW.valid (RW.accept w seq).1 = true /\ RW.max_sequence (RW.accept w seq).1 = seq.
Proof.
  intros Hn. assert (RW.can_accept w seq = true) as Hc.
  { unfold RW.can_accept. destruct (RW.valid w); [|done]. by rewrite (proj2 (Z.ltb_lt _ _)) by auto. }
  split; [done|]. unfold RW.accept. rewrite Hc. cbn [negb]. destruct (RW.valid w) eqn:Ev; cbn [negb]; [|done].
  rewrite (proj2 (Z.ltb_lt _ _)) by auto. cbn. split; [|done].
  unfold RW.clear_advanced_positions. destruct (_ <=? _); [done|].
  generalize (Z.to_nat (seq - RW.max_sequence w)). intros n. by induction n.
Qed.

Section Stream.
Context {A : Aead} {AL : AeadLaws A} {H : Hmac}.
Import PacketProps.

(** the packets a session seals: with a header, not yet encrypted *)
Definition sealable (p : ZCPacket.t) : Prop :=
  exists pre h body, layout p pre h body /\ PH.is_encrypted h = false /\ sealable_text body.

(** each packet is sealed by [a] and given to [b], with the clocks of both *)
Fixpoint exchange (d : Direction) (a b : t) (ps : list (ZCPacket.t * Z * Z)) : list (outcome Error ZCPacket.t) :=
  match ps with
  | [] => []
  | (p, now, now') :: ps =>
      match encrypt_payload d p now a with
      | (a, Ok q) => let '(b, r) := decrypt_payload d q now' b in r :: exchange d a b ps
      | (_, r) => [r]
      end
  end.

(** the receiver is where the sender is *)
Definition in_step (d : Direction) (a b : t) : Prop :=
  cache_ok a /\ is_valid a = true /\ state_ok a /\ cache_ok b /\ is_valid b = true /\ root_key b = root_key a /\
  recv_cipher_algorithm b = send_cipher_algorithm a /\ sync_rx_grace_expires_at_ms b = 0 /\
  let '(cur, prev) := get d (rx_slots b) in
  (valid prev = true -> valid cur = true /\ epoch prev < epoch cur) /\
  if valid cur then epoch cur = send_epoch a /\ (RW.valid (window cur) = true -> RW.max_sequence (window cur) < get d (send_seq a))
  else send_epoch a = send_epoch b.

Lemma no_grace s now : sync_rx_grace_expires_at_ms s = 0 -> usable_grace s now = (s, None).
Proof. intros E. unfold usable_grace, sync_rx_grace_active. by rewrite E. Qed.

(** an in-step receiver admits the next packet, in the sender's epoch or one later *)
Lemma commit_next cur prev se e e' seq now :
  (if valid cur then epoch cur = e /\ (RW.valid (window cur) = true -> RW.max_sequence (window cur) < seq) else e = se) ->
  e <= e' <= e + 1 -> e' < 2 ^ 32 -> (valid prev = true -> valid cur = true /\ epoch prev < epoch cur) ->
  exists cur' prev', commit_rx (cur, prev) se e' seq now = ((cur', prev'), true) /\ valid cur' = true /\ epoch cur' = e' /\
    RW.valid (window cur') = true /\ RW.max_sequence (window cur') = seq /\ (valid prev' = true -> epoch prev' < epoch cur').
Proof.
  intros Hin He He' Hprev. unfold commit_rx, max_ahead, saturating_add, u_max, MAX_ACCEPTED_RX_EPOCH_AHEAD.
  assert (forall c, epoch c = e' -> valid c = true -> (RW.valid (window c) = true -> RW.max_sequence (window c) < seq) ->
    exists c', slot_accept c seq now = (c', true) /\ valid c' = true /\ epoch c' = e' /\ RW.valid (window c') = true /\ RW.max_sequence (window c') = seq) as Hacc.
  { intros c Hc Hv Hn. destruct (accept_newer _ _ Hn) as (H1 & H2 & H3). pose proof (slot_accept_snd c seq now) as E1.
    pose proof (slot_accept_fst c seq now) as E2. destruct (slot_accept c seq now) as [c' ok]. cbn [fst snd] in *. subst.
    eexists. split; [by rewrite H1|]. cbn. done. }
  assert (RW.valid RW.default = true -> RW.max_sequence RW.default < seq) as Hd by done.
  destruct (valid cur) eqn:Ev; cbn [negb andb].
  - destruct Hin as [Hc Hn]. destruct (e' =? epoch cur) eqn:E; bool_to_Z.
    + destruct (Hacc cur (eq_sym E) Ev Hn) as (c' & -> & ? & ? & ? & ?). exists c', prev. split_and!; try done. intros Hp. destruct (Hprev Hp). lia.
    + assert (epoch cur < e') by lia.
      assert (valid prev && (e' =? epoch prev) = false) as -> by (destruct (valid prev); [|done]; cbn; apply Z.eqb_neq; destruct (Hprev eq_refl); lia).
      rewrite (proj2 (Z.ltb_lt _ _)) by done.
      set (b := if valid prev then _ else _). assert (epoch cur <= b) by (unfold b; destruct (valid prev); lia).
      rewrite (proj2 (Z.ltb_ge _ _)) by lia.
      destruct (Hacc (fresh_slot e' now) eq_refl eq_refl Hd) as (c' & -> & ? & ? & ? & ?). exists c', cur. split_and!; try done. intros _. lia.
  - subst e. rewrite (proj2 (Z.ltb_ge _ _)) by lia. cbn [epoch fresh_slot]. rewrite Z.eqb_refl.
    destruct (Hacc (fresh_slot e' now) eq_refl eq_refl Hd) as (c' & -> & ? & ? & ? & ?). exists c', prev. split_and!; try done. intros Hp. by destruct (Hprev Hp).
Qed.

Lemma exchange_step d a b p now now' : in_step d a b -> sealable p ->
  send_epoch a + 1 < 2 ^ 32 -> get d (send_seq a) < u_max 64 ->
  exists a' q b', encrypt_payload d p now a = (a', Ok q) /\ decrypt_payload d q now' b = (b', Ok (ZCPacket.with_parsed_metadata p None)) /\
    in_step d a' b' /\ send_epoch a' <= send_epoch a + 1 /\ get d (send_seq a') = get d (send_seq a) + 1.
Proof.
  intros (Hca & Hva & Hsa & Hcb & Hvb & Hk & Halg & Hg & Hin) (pre & h & body & Hl & He & Hb) Hep Hx.
  destruct (sealed_opens a b d p pre h body now now' Hca Hva Hsa Hcb Hvb Hk Halg Hl He Hb Hx) as (a' & q & E1 & Hca' & Ha' & _ & Hopen).
  pose proof (reserve_range_spec d 1 now a ltac:(done)) as Hr. pose proof (reserve_epoch d 1 now a ltac:(done)) as Hre.
  destruct (reserve_nonce_range d 1 now a) as [a1 r] eqn:Er. cbn [fst] in *. destruct Hsa as (Hu & Hs1 & Hs2).
  specialize (Hre Hu ltac:(unfold u_max; lia)). destruct Hr as (Hso & _ & Hr).
  assert (0 <= get d (send_seq a)) as Hpos by (destruct d; done).
  destruct r as [[e0 start]|x|]; [|exfalso; destruct Hr as (_ & _ & Hr); unfold saturating_sub, u_max in *; lia|done].
  destruct Hr as (_ & -> & Hseq & _).
  assert (send_epoch a' = send_epoch a1) as Hea by (by rewrite Ha').
  assert (send_seq a' = set d (get d (send_seq a) + 1) (send_seq a)) as Hsa' by (by rewrite Ha').
  rewrite no_grace in Hopen by done. cbn [snd] in Hopen.
  destruct (get d (rx_slots b)) as [cur prev] eqn:Erx.
  destruct Hin as [Hprev Hin].
  destruct (commit_next cur prev (send_epoch b) (send_epoch a) (send_epoch a') (get d (send_seq a)) now' Hin) as
    (cur' & prev' & Hcm & Hv' & He' & Hwv & Hwm & Hpv); [lia|lia|done|].
  assert (commit_replay_state (rx_slots b) None (send_epoch b) (send_epoch a') (get d (send_seq a)) d now' =
    (set d (cur', prev') (rx_slots b), None, true)) as Hcs by (unfold commit_replay_state; by rewrite Erx, Hcm).
  destruct Hopen as (b' & E2 & Hcb' & Hcom).
  { rewrite <- (precheck_is_commit _ _ _ _ _ _ now'). by rewrite Hcs. }
  exists a', q, b'. split; [done|]. split; [done|].
  unfold committed in Hcom. rewrite no_grace in Hcom by done. cbn [fst snd] in Hcom. rewrite Hcs in Hcom.
  destruct Hcom as ((F1 & F2 & F3 & F4 & F5 & F6 & F7 & F8 & F9) & Hrx & Hex & _ & _).
  assert (root_key a' = root_key a /\ send_cipher_algorithm a' = send_cipher_algorithm a /\ is_valid a' = is_valid a) as (R1 & R2 & R3)
    by (rewrite Ha', Hso; done).
  split; [|split; [lia|by rewrite Hsa', get_set_same]].
  unfold in_step. rewrite Hrx, get_set_same. split_and!.
  - done.
  - congruence.
  - split; [unfold is_u in *; lia|]. rewrite Hsa'. destruct d; cbn in *; lia.
  - done.
  - unfold is_valid in *. congruence.
  - congruence.
  - congruence.
  - congruence.
  - intros Hp. split; [done|]. by apply Hpv.
  - rewrite Hv'. split; [done|]. intros _. rewrite Hwm, Hsa', get_set_same. lia.
Qed.

(** C4: Two sessions created with the same root key, epoch and matching algorithms: every sequence of
    packets that one side seals and the other receives in order comes out exactly as it went in,
    through any number of epoch rotations, until epochs or sequence numbers run out. *)
Theorem datagram_stream_roundtrip d root gen epoch0 sa ra sb rb ta tb ps :
  rb = sa -> Forall (fun x => sealable x.1.1) ps -> is_u 32 epoch0 ->
  epoch0 + Z.of_nat (length ps) < u_max 32 -> Z.of_nat (length ps) < u_max 64 ->
  exchange d (new root gen epoch0 sa ra ta) (new root gen epoch0 sb rb tb) ps =
  map (fun x => Ok (ZCPacket.with_parsed_metadata x.1.1 None)) ps.
Proof.
  intros -> Hps Hu He Hl.
  assert (in_step d (new root gen epoch0 sa ra ta) (new root gen epoch0 sb sa tb)) as Hin.
  { unfold in_step. split_and!; try done; [by apply default_cache_ok|by apply default_cache_ok|by destruct d]. }
  assert (send_epoch (new root gen epoch0 sa ra ta) + Z.of_nat (length ps) < u_max 32) as He1 by done.
  assert (get d (send_seq (new root gen epoch0 sa ra ta)) + Z.of_nat (length ps) < u_max 64) as Hl1 by (destruct d; cbn; done).
  clear He Hl Hu. revert Hin He1 Hl1. generalize (new root gen epoch0 sa ra ta) (new root gen epoch0 sb sa tb).
  induction Hps as [|[[p now] now'] ps Hp Hps IH]; intros a b Hin He Hl; [done|]. cbn [length] in *.
  destruct (exchange_step d a b p now now' Hin Hp) as (a' & q & b' & E1 & E2 & Hin' & He' & Hs'); [unfold u_max in *; lia|lia|].
  cbn [exchange map fst]. rewrite E1, E2. f_equal. apply IH; [done|lia|lia].
Qed.
End Stream.

(** ** Runs of a session *)
Inductive event : Type :=
| Encrypt (d : Direction) (p : ZCPacket.t) (now : Z)
| EncryptBatch (d : Direction) (ps : list ZCPacket.t) (now : Z)
| Decrypt (d : Direction) (p : ZCPacket.t) (now : Z)
| DecryptBatch (d : Direction) (ps : list ZCPacket.t) (now : Z)
| Sync (root : list Z) (generation initial_epoch : Z) (preserve : bool) (now : Z)
| Invalidate.

Section Runs.
Context {A : Aead} {H : Hmac}.

Definition step (s : t) (ev : event) : t :=
  match ev with
  | Encrypt d p now => (encrypt_payload d p now s).1
  | EncryptBatch d ps now => (encrypt_payload_batch d ps now s).1
  | Decrypt d p now => (decrypt_payload d p now s).1
  | DecryptBatch d ps now => (decrypt_payload_batch d ps now s).1
  | Sync root gen e preserve now => sync_root_key s root gen e preserve now
  | Invalidate => invalidate s
  end.

(** a nonce with the key it goes with *)
Record nonce_use : Type := mk_use { u_key : list Z; u_dir : Direction; u_epoch : Z; u_seq : Z }.

(** the nonces reserved for [n] packets *)
Definition reserved (s : t) (d : Direction) (n now : Z) : list nonce_use :=
  match reserve_nonce_range d n now s with
  | (_, Ok (e, start)) => map (fun i => mk_use (root_key s) d e (start + i)) (seqZ 0 n)
  | _ => []
  end.
Definition nonces (s : t) (ev : event) : list nonce_use :=
  match ev with
  | Encrypt d p now => if is_valid s then reserved s d 1 now else []
  | EncryptBatch d ps now => if is_valid s && negb (bool_decide (ps = [])) then reserved s d (len ps) now else []
  | _ => []
  end.
Fixpoint nonces_of_run (s : t) (evs : list event) : list nonce_use :=
  match evs with [] => [] | ev :: evs => nonces s ev ++ nonces_of_run (step s ev) evs end.

(** a synchronisation takes a root key never used before, or keeps the key and moves on to an epoch
    that was not used for sending; epochs do not wrap *)
Fixpoint syncs_fresh (old : list (list Z)) (s : t) (evs : list event) : Prop :=
  match evs with
  | [] => True
  | ev :: evs =>
      send_epoch s < u_max 32 /\
      match ev with
      | Sync root _ e _ _ => is_u 32 e /\ (if decide (root = root_key s) then send_epoch s < e else root ∉ old) /\
          syncs_fresh (root_key s :: old) (step s ev) evs
      | _ => syncs_fresh old (step s ev) evs
      end
  end.

(** nothing but an encryption touches the sender's state *)
Lemma encrypt_step s d p now : let s' := (encrypt_payload d p now s).1 in
  root_key s' = root_key s /\
  if is_valid s then send_epoch s' = send_epoch (reserve_nonce_range d 1 now s).1 /\ send_seq s' = send_seq (reserve_nonce_range d 1 now s).1
  else send_epoch s' = send_epoch s /\ send_seq s' = send_seq s.
Proof.
  unfold encrypt_payload. cbv [mbind M_bind gets lift fail]. destruct (is_valid s); cbn [negb]; [|done].
  pose proof (reserve_range_spec d 1 now s ltac:(done)) as Hr. destruct (reserve_nonce_range d 1 now s) as [s1 r]. destruct Hr as (Hso & _ & Hr).
  assert (root_key s1 = root_key s) as Hk by (by rewrite Hso). cbn [fst].
  destruct r as [[e start]|x|]; [|done|done]. destruct (packet_aad p); [|done|done].
  unfold get_or_create_encryptor. destruct (key_matches _ _ _); [|destruct (key_matches _ _ _)]; cbn [fst snd];
    (destruct (get_encryptor _ _); [|done|done]; unfold lift_cipher; destruct (Cipher.encrypt_with_nonce_and_aad _ _ _ _); done).
Qed.

Lemma encrypt_all_frame c e start n ps s : let s' := (encrypt_all c e start n ps s).1 in
  root_key s' = root_key s /\ send_epoch s' = send_epoch s /\ send_seq s' = send_seq s.
Proof.
  revert n s. induction ps as [|p ps IH]; intros n s; [done|]. cbn [encrypt_all]. cbv [mbind M_bind lift].
  destruct (ok_or _ _); [|done|done]. destruct (packet_aad p); [|done|done].
  unfold lift_cipher. destruct (Cipher.encrypt_with_nonce_and_aad _ _ _ _); [|done|done].
  specialize (IH (S n) s). cbv zeta in IH. by destruct (encrypt_all c e start (S n) ps s) as [s' [|?|]].
Qed.

Lemma encrypt_batch_step s d ps now : let s' := (encrypt_payload_batch d ps now s).1 in
  root_key s' = root_key s /\
  if is_valid s && negb (bool_decide (ps = [])) then
    send_epoch s' = send_epoch (reserve_nonce_range d (len ps) now s).1 /\ send_seq s' = send_seq (reserve_nonce_range d (len ps) now s).1
  else send_epoch s' = send_epoch s /\ send_seq s' = send_seq s.
Proof.
  unfold encrypt_payload_batch. cbv [mbind M_bind gets lift fail mret M_ret]. destruct (is_valid s); cbn [negb andb]; [|done].
  case_bool_decide as Hps; cbn [negb]; [done|]. assert (len ps <> 0) as Hn by (destruct ps; [done|unfold len; cbn; lia]).
  pose proof (reserve_range_spec d (len ps) now s Hn) as Hr. destruct (reserve_nonce_range d (len ps) now s) as [s1 r]. destruct Hr as (Hso & _ & Hr).
  assert (root_key s1 = root_key s) as Hk by (by rewrite Hso). cbn [fst].
  destruct r as [[e start]|x|]; [|done|done].
  unfold get_or_create_encryptor. destruct (key_matches _ _ _); [|destruct (key_matches _ _ _)]; cbn [fst snd];
    (destruct (get_encryptor _ _) as [c|?|]; [|done|done]);
    match goal with |- context [encrypt_all ?c ?e ?st ?n ?ps ?x] => destruct (encrypt_all_frame c e st n ps x) as (F1 & F2 & F3) end;
    rewrite F1, F2, F3; cbn; done.
Qed.
End Runs.

(** ** Operations that leave the sender alone *)
Definition keeps {X} (m : M X) : Prop := forall s, frame s (m s).1.

Lemma keeps_bind {X Y} (m : M X) (f : X -> M Y) : keeps m -> (forall x, keeps (f x)) -> keeps (m ≫= f).
Proof.
  intros Hm Hf s. cbv [mbind M_bind]. specialize (Hm s). destruct (m s) as [s1 [x|e|]]; [|done|done].
  eapply frame_trans; [exact Hm|apply Hf].
Qed.
Lemma keeps_lift {X} (o : outcome Error X) : keeps (lift o).
Proof. intros s. apply frame_refl. Qed.
Lemma keeps_ret {X} (x : X) : keeps (mret x).
Proof. intros s. apply frame_refl. Qed.
Lemma keeps_gets {X} (f : t -> X) : keeps (gets f).
Proof. intros s. apply frame_refl. Qed.
Lemma keeps_fail {X} e : keeps (X := X) (fail e).
Proof. intros s. apply frame_refl. Qed.
Lemma keeps_modify f : (forall s, frame s (f s)) -> keeps (modify f).
Proof. intros Hf s. apply Hf. Qed.
Lemma keeps_lift_cipher {X} f (o : outcome Cipher.Error X) : (forall s, frame s (f s)) -> keeps (lift_cipher f o).
Proof. intros Hf s. unfold lift_cipher. destruct o; [apply frame_refl|apply Hf|apply frame_refl]. Qed.
Lemma keeps_precheck e seq d now : keeps (precheck_replay e seq d now).
Proof.
  intros s. unfold precheck_replay. pose proof (usable_grace_frame s now) as Hf. destruct (usable_grace s now). apply Hf.
Qed.
Lemma keeps_commit e seq d now : keeps (commit_replay e seq d now).
Proof.
  intros s. unfold commit_replay. pose proof (usable_grace_frame s now) as Hf. destruct (usable_grace s now) as [s1 g].
  destruct Hf as [Hf _]. destruct (commit_replay_state _ _ _ _ _ _ _) as [[rx g'] ok]. cbn [fst].
  eapply frame_trans; [exact Hf|]. by destruct g'.
Qed.

Lemma record_failure_frame s : frame s (record_decrypt_failure s).
Proof. done. Qed.
Lemma record_success_frame s : frame s (record_authenticated_success s).
Proof. done. Qed.

Create HintDb keeps.
#[export] Hint Resolve keeps_bind keeps_lift keeps_ret keeps_gets keeps_fail keeps_modify keeps_lift_cipher
  keeps_precheck keeps_commit frame_refl record_failure_frame record_success_frame : keeps.

Section Keeps.
Context {A : Aead} {H : Hmac}.

Lemma keeps_encryptor e d g b : keeps (get_or_create_encryptor e d g b).
Proof.
  intros s. unfold get_or_create_encryptor. destruct (key_matches _ _ _); [apply frame_refl|].
  by destruct (key_matches _ _ _).
Qed.
#[local] Hint Resolve keeps_encryptor : keeps.

Lemma keeps_decrypt d p now : keeps (decrypt_payload d p now).
Proof.
  unfold decrypt_payload. apply keeps_bind; [auto with keeps|]. intros [|]; cbn [negb]; [|auto with keeps].
  apply keeps_bind; [auto with keeps|]. intros [[e seq] aad]. apply keeps_bind; [auto with keeps|].
  intros [|]; cbn [negb]; [|auto with keeps]. apply keeps_bind; [auto with keeps|]. intros g.
  apply keeps_bind; [auto with keeps|]. intros c. apply keeps_bind; [auto with keeps|]. intros q.
  apply keeps_bind; [auto with keeps|]. intros [|]; cbn [negb]; auto with keeps.
Qed.

Lemma keeps_decryptor d e ds : keeps (batch_decryptor d e ds).
Proof. unfold batch_decryptor. destruct (list_find _ ds) as [[? [? ?]]|]; auto with keeps. Qed.
#[local] Hint Resolve keeps_decryptor : keeps.

Lemma keeps_open_all d ps : forall ds, keeps (open_all d ds ps).
Proof.
  induction ps as [|[p [[[e seq] aad]|x|]] ps IH]; intros ds; cbn [open_all]; auto with keeps.
  - apply keeps_bind; [auto with keeps|]. intros [ds' c]. destruct (Cipher.decrypt_with_aad c p aad); auto with keeps.
    + apply keeps_bind; [auto with keeps|]. intros [? ?]. auto with keeps.
    + apply keeps_bind; [auto with keeps|]. intros [? ?]. auto with keeps.
  - apply keeps_bind; [auto with keeps|]. intros [? ?]. auto with keeps.
Qed.
#[local] Hint Resolve keeps_open_all : keeps.

Lemma keeps_decrypt_batch d ps now : keeps (decrypt_payload_batch d ps now).
Proof.
  unfold decrypt_payload_batch. apply keeps_bind; [auto with keeps|]. intros [|]; cbn [negb]; [|auto with keeps].
  destruct (bool_decide _); [auto with keeps|]. apply keeps_bind; [auto with keeps|]. intros [cs dup].
  apply keeps_bind.
  { intros s. unfold replay_state_snapshot. destruct (g_valid (sync_rx_grace s)); [|apply frame_refl]. by destruct (g_valid _). }
  intros [rx g]. apply keeps_bind; [auto with keeps|]. intros se. apply keeps_bind; [auto with keeps|]. intros cs'.
  apply keeps_bind; [auto with keeps|]. intros [sts failed]. apply keeps_bind.
  { intros s. destruct (commit_all _ _ _ _ _ _ _) as [[? ?] ?]. done. }
  intros sts'. apply keeps_bind; [|auto with keeps]. apply keeps_modify. intros s. destruct (existsb _ _); [done|]. by destruct failed.
Qed.
End Keeps.

(** ** Nonces are never used twice *)
Section Nonces.
Context {A : Aead} {H : Hmac}.

(** the uses so far, the keys of earlier synchronisations and the epoch of the last one *)
Record nonce_inv (us : list nonce_use) (old : list (list Z)) (base : Z) (s : t) : Prop := {
  ni_nodup : NoDup us;
  ni_epoch : forall u, u ∈ us -> u_key u = root_key s -> u_epoch u <= send_epoch s;
  ni_seq : forall u, u ∈ us -> u_key u = root_key s -> u_epoch u < base \/ u_seq u < get (u_dir u) (send_seq s);
  ni_old : forall u, u ∈ us -> u_key u = root_key s \/ u_key u ∈ old;
  ni_base : base <= send_epoch s;
  ni_u32 : is_u 32 (send_epoch s);
}.

Lemma nonce_inv_frame us old base s s' : nonce_inv us old base s -> root_key s' = root_key s ->
  send_epoch s' = send_epoch s -> send_seq s' = send_seq s -> nonce_inv us old base s'.
Proof. intros [H1 H2 H3 H4 H5 H6] E1 E2 E3. split; rewrite ?E1, ?E2, ?E3; done. Qed.

Lemma reserved_inv us old base s s' d n now : nonce_inv us old base s -> 0 < n -> send_epoch s < u_max 32 ->
  root_key s' = root_key s -> send_epoch s' = send_epoch (reserve_nonce_range d n now s).1 ->
  send_seq s' = send_seq (reserve_nonce_range d n now s).1 -> nonce_inv (us ++ reserved s d n now) old base s'.
Proof.
  intros [H1 H2 H3 H4 H5 H6] Hn Hmax E1 E2 E3.
  pose proof (reserve_epoch d n now s ltac:(lia) H6 Hmax) as Hep. pose proof (reserve_range_spec d n now s ltac:(lia)) as Hr.
  unfold reserved. destruct (reserve_nonce_range d n now s) as [s1 r]. cbn [fst] in *. destruct Hr as (_ & _ & Hr).
  assert (is_u 32 (send_epoch s')) as Hu by (rewrite E2; unfold is_u, u_max in *; lia).
  destruct r as [[e start]|x|]; [|destruct Hr as (_ & Hseq & _)|done].
  2: { rewrite app_nil_r. split; rewrite ?E1, ?E2, ?E3, ?Hseq; try done; [|lia|by rewrite <- E2]. intros u Hu1 Hu2. specialize (H2 u Hu1 Hu2). lia. }
  destruct Hr as (-> & -> & Hseq & _). rewrite Hseq in E3.
  assert (forall u, u ∈ map (fun i => mk_use (root_key s) d (send_epoch s1) (get d (send_seq s) + i)) (seqZ 0 n) ->
    u_key u = root_key s /\ u_dir u = d /\ u_epoch u = send_epoch s1 /\ get d (send_seq s) <= u_seq u < get d (send_seq s) + n) as Hnew.
  { intros u Hin. apply list_elem_of_fmap in Hin as (i & -> & Hi%elem_of_seqZ). cbn. split_and!; try done; lia. }
  split; rewrite ?E1, ?E2, ?E3.
  - apply NoDup_app. split; [done|]. split.
    + intros u Hin Hin2. destruct (Hnew u Hin2) as (K1 & K2 & K3 & K4). destruct (H3 u Hin K1) as [?|Hlt]; [lia|]. rewrite K2 in Hlt. lia.
    + apply NoDup_fmap_2_strong; [|apply NoDup_seqZ]. intros i j _ _ [= E]. lia.
  - intros u [Hin|Hin]%elem_of_app Hk; [specialize (H2 u Hin Hk); lia|]. destruct (Hnew u Hin) as (_ & _ & -> & _). lia.
  - intros u [Hin|Hin]%elem_of_app Hk.
    + destruct (H3 u Hin Hk) as [?|Hlt]; [by left|right]. destruct (decide (d = u_dir u)) as [->|Hne].
      * rewrite get_set_same. lia.
      * by rewrite get_set_other.
    + destruct (Hnew u Hin) as (_ & -> & _ & ?). right. rewrite get_set_same. lia.
  - intros u [Hin|Hin]%elem_of_app; [by apply H4|]. destruct (Hnew u Hin) as (-> & _). by left.
  - lia.
  - rewrite <- E2. done.
Qed.

Lemma run_nonces evs : forall us old base s, nonce_inv us old base s -> syncs_fresh old s evs -> NoDup (us ++ nonces_of_run s evs).
Proof.
  induction evs as [|ev evs IH]; intros us old base s Hi Hf.
  { cbn. rewrite app_nil_r. by destruct Hi. }
  cbn [nonces_of_run]. rewrite app_assoc. destruct Hf as [Hmax Hf].
  destruct ev as [d p now|d ps now|d p now|d ps now|root gen e pres now|]; cbn [nonces].
  - apply (IH _ old base); [|done]. destruct (encrypt_step s d p now) as [E1 E2]. destruct (is_valid s).
    + destruct E2. by apply (reserved_inv _ _ _ s).
    + rewrite app_nil_r. destruct E2. by apply (nonce_inv_frame _ _ _ s).
  - apply (IH _ old base); [|done]. destruct (encrypt_batch_step s d ps now) as [E1 E2]. destruct (is_valid s && negb (bool_decide (ps = []))) eqn:E.
    + destruct E2. apply andb_true_iff in E as [_ E]. apply negb_true_iff, bool_decide_eq_false in E.
      apply (reserved_inv _ _ _ s); try done. destruct ps; [done|unfold len; cbn; lia].
    + rewrite app_nil_r. destruct E2. by apply (nonce_inv_frame _ _ _ s).
  - rewrite app_nil_r. apply (IH _ old base); [|done]. destruct (keeps_decrypt d p now s) as (E1 & _ & E2 & E3 & _). by apply (nonce_inv_frame _ _ _ s).
  - rewrite app_nil_r. apply (IH _ old base); [|done]. destruct (keeps_decrypt_batch d ps now s) as (E1 & _ & E2 & E3 & _). by apply (nonce_inv_frame _ _ _ s).
  - rewrite app_nil_r. destruct Hf as (He & Hd & Hf). apply (IH _ (root_key s :: old) e); [|done]. destruct Hi as [H1 H2 H3 H4 H5 H6].
    assert (root_key (step s (Sync root gen e pres now)) = root /\ send_epoch (step s (Sync root gen e pres now)) = e) as [K1 K2].
    { cbn [step]. unfold sync_root_key. destruct (pres && _); [|done]. destruct (keep_epoch e (rx_slots s).1), (keep_epoch e (rx_slots s).2). done. }
    assert (forall u, u ∈ us -> u_key u = root -> u_epoch u < e) as Hold.
    { intros u Hin <-. case_decide as Hk; [specialize (H2 u Hin Hk); lia|]. by destruct (H4 u Hin). }
    split; rewrite ?K1, ?K2; try done; try lia.
    + intros u Hin Hk. specialize (Hold u Hin Hk). lia.
    + intros u Hin Hk. left. by apply Hold.
    + intros u Hin. right. destruct (H4 u Hin) as [->|?]; [by left|by right].
  - rewrite app_nil_r. apply (IH _ old base); [|done]. by apply (nonce_inv_frame _ _ _ s).
Qed.

(** In any run of a session, single packets and batches in both directions, epoch rotations and
    synchronisations included, no nonce is reserved twice for one root key, direction and epoch, when
    each synchronisation brings a root key that was not used before or keeps the key and moves to an
    epoch beyond the ones used for sending. *)
Theorem nonces_never_repeat root gen epoch0 sa ra t0 evs :
  is_u 32 epoch0 -> syncs_fresh [] (new root gen epoch0 sa ra t0) evs ->
  NoDup (nonces_of_run (new root gen epoch0 sa ra t0) evs).
Proof.
  intros Hu Hf. apply (run_nonces evs [] [] epoch0 (new root gen epoch0 sa ra t0)); [|done].
  split; try done; try (intros u Hin; by apply elem_of_nil in Hin). constructor.
Qed.
End Nonces.

(** ** No packet is accepted twice *)
Definition graceless (s : t) : Prop := sync_rx_grace_expires_at_ms s = 0 /\ g_valid (sync_rx_grace s) = false.

(** what a packet of direction [d] with nonce [x] does to the slots *)
Definition commits (s : t) (d : Direction) (now : Z) (x : Z * Z) (s' : t) (ok : bool) : Prop :=
  rx_slots s' = set d (commit_rx (get d (rx_slots s)) (send_epoch s) x.1 x.2 now).1 (rx_slots s) /\
  ok = (commit_rx (get d (rx_slots s)) (send_epoch s) x.1 x.2 now).2.

Section NoReplay.
Context {A : Aead} {H : Hmac}.

Lemma encryptor_rx e d g b s : let s' := (get_or_create_encryptor e d g b s).1 in
  rx_slots s' = rx_slots s /\ sync_rx_grace s' = sync_rx_grace s /\
  sync_rx_grace_expires_at_ms s' = sync_rx_grace_expires_at_ms s /\ send_epoch s' = send_epoch s.
Proof.
  unfold get_or_create_encryptor. destruct (key_matches _ _ _); [done|]. by destruct (key_matches _ _ _).
Qed.

Lemma decrypt_rx s d p now : graceless s ->
  match decrypt_payload d p now s with
  | (s', r) => graceless s' /\
      match r with
      | Ok _ => exists e seq aad, classify p = Ok (e, seq, aad) /\ commits s d now (e, seq) s' true
      | _ => rx_slots s' = rx_slots s \/ exists e seq aad, classify p = Ok (e, seq, aad) /\ commits s d now (e, seq) s' false
      end
  end.
Proof.
  intros [Hg1 Hg2]. unfold decrypt_payload. cbv [mbind M_bind gets lift fail mret M_ret modify].
  destruct (is_valid s); cbn [negb]; [|by split; [split|left]].
  destruct (classify p) as [[[e seq] aad]|x|]; [|by split; [split|left]..].
  unfold precheck_replay. rewrite no_grace by done. destruct (precheck_replay_state _ _ _ _ _ _); cbn [negb]; [|by split; [split|left]].
  pose proof (encryptor_rx e d (session_generation s) false s) as (R1 & R2 & R3 & R4).
  destruct (get_or_create_encryptor e d (session_generation s) false s) as [s1 r]. cbn [fst] in *.
  assert (graceless s1) as Hgl by (split; congruence).
  destruct r as [c|x|]; [|by split; [|left]..]. unfold lift_cipher.
  destruct (Cipher.decrypt_with_aad c p aad) as [q|x|]; [|by split; [|left]..].
  unfold commit_replay. rewrite no_grace by apply Hgl. unfold commit_replay_state. rewrite R1, R4.
  destruct (commit_rx (get d (rx_slots s)) (send_epoch s) e seq now) as [pr ok] eqn:Ec.
  destruct ok; cbn [negb].
  - split; [done|]. exists e, seq, aad. split; [done|]. unfold commits. cbn [fst snd]. by rewrite Ec.
  - split; [done|]. right. exists e, seq, aad. split; [done|]. unfold commits. cbn [fst snd]. by rewrite Ec.
Qed.

(** *** The commits of a batch *)
(** the packets that are open, with their index *)
Definition opened_at (sts : list status) : list (Z * Z * nat) :=
  omap (fun x => match x with (i, Opened e seq _) => Some (e, seq, i) | _ => None end) (imap (fun i st => (i, st)) sts).

Lemma elem_of_opened_at sts e seq i : (e, seq, i) ∈ opened_at sts <-> exists q, sts !! i = Some (Opened e seq q).
Proof.
  unfold opened_at. rewrite list_elem_of_omap. split.
  - intros ([j st] & Hin & Hs). apply elem_of_lookup_imap in Hin as (k & y & [= -> ->] & Hk). destruct y as [|e' seq' q]; [done|]. simplify_eq. eauto.
  - intros [q Hq]. exists (i, Opened e seq q). split; [|done]. apply elem_of_lookup_imap. eauto.
Qed.

Lemma opened_at_reject sts e seq i q er : sts !! i = Some (Opened e seq q) ->
  opened_at sts ≡ₚ (e, seq, i) :: opened_at (<[i := Rejected er]> sts).
Proof.
  intros Hi. apply list_elem_of_split_length in Hi as (l1 & l2 & -> & ->).
  rewrite insert_app_r_alt, Nat.sub_diag by done. cbn [list_insert insert]. unfold opened_at. rewrite !imap_app, !omap_app. cbn [imap].
  change (omap ?f (?x :: ?l)) with (match f x with Some y => y :: omap f l | None => omap f l end). cbn beta iota.
  rewrite Nat.add_0_r. by rewrite <- Permutation_middle.
Qed.

Lemma commit_all_refines order : forall rx sts h h0 dn d se now,
  rx_refines (get d rx) h -> NoDup h -> h ≡ₚ dn.*1 ++ h0 -> opened_at sts ≡ₚ dn ++ order ->
  Forall (fun x : Z * Z * nat => 0 <= x.1.2) order ->
  match commit_all rx None se d now order sts with
  | (rx', g', sts') => exists h', rx_refines (get d rx') h' /\ NoDup h' /\ h' ≡ₚ (opened_at sts').*1 ++ h0 /\
      (forall d', d' <> d -> get d' rx' = get d' rx) /\ g' = None
  end.
Proof.
  induction order as [|[[e seq] i] order IH]; intros rx sts h h0 dn d se now Hr Hnd Hh Ho Hs; cbn [commit_all].
  { exists h. split_and!; try done. rewrite app_nil_r in Ho. by rewrite Ho. }
  apply Forall_cons_iff in Hs as [Hs0 Hs]. cbn in Hs0. unfold commit_replay_state.
  pose proof (commit_rx_refines (get d rx) h se e seq now Hr Hs0) as Hc.
  destruct (commit_rx (get d rx) se e seq now) as [p' ok]. cbn [fst snd] in Hc.
  destruct ok.
  - destruct Hc as [Hnin Hc]. specialize (IH (set d p' rx) sts ((e, seq) :: h) h0 (dn ++ [(e, seq, i)]) d se now).
    rewrite get_set_same in IH. specialize (IH Hc ltac:(by constructor)).
    destruct (commit_all (set d p' rx) None se d now order sts) as [[rx' g'] sts'].
    destruct IH as (h' & R1 & R2 & R3 & R4 & R5).
    + rewrite fmap_app. cbn. rewrite <- app_assoc. cbn. rewrite Hh. by rewrite Permutation_middle.
    + by rewrite <- app_assoc.
    + done.
    + exists h'. split_and!; try done. intros d' Hd. rewrite R4 by done. by apply get_set_other.
  - assert (exists q, sts !! i = Some (Opened e seq q)) as [q Hq].
    { apply elem_of_opened_at. rewrite Ho. apply elem_of_app. right. by left. }
    specialize (IH (set d p' rx) (<[i := Rejected ReplayRejected]> sts) h h0 dn d se now).
    rewrite get_set_same in IH. specialize (IH Hc Hnd Hh).
    destruct (commit_all (set d p' rx) None se d now order (<[i := Rejected ReplayRejected]> sts)) as [[rx' g'] sts'].
    destruct IH as (h' & R1 & R2 & R3 & R4 & R5).
    + apply (Permutation_cons_inv (a := (e, seq, i))). rewrite <- (opened_at_reject _ _ _ _ _ _ Hq), Ho. by rewrite Permutation_middle.
    + done.
    + exists h'. split_and!; try done. intros d' Hd. rewrite R4 by done. by apply get_set_other.
Qed.

Lemma scan_classify ps : forall i tb dup cs dup', scan ps i tb dup = Ok (cs, dup') -> cs = map classify ps.
Proof.
  induction ps as [|p ps IH]; intros i tb dup cs dup' Hs; cbn [scan] in Hs; [by simplify_eq|]. cbn [map].
  destruct (classify p) as [[[e seq] aad]|x|]; [| |done].
  - destruct (note_nonce tb dup (e, seq) i) as [[tb1 dup1]|?|]; [|done|done]. cbn [mbind outcome_bind] in Hs.
    destruct (scan ps (S i) tb1 dup1) as [[rest dup2]|?|] eqn:E; [|done|done]. cbn [mbind outcome_bind] in Hs. simplify_eq.
    f_equal. by eapply IH.
  - destruct (scan ps (S i) tb dup) as [[rest dup2]|?|] eqn:E; [|done|done]. cbn [mbind outcome_bind] in Hs. simplify_eq.
    f_equal. by eapply IH.
Qed.

Lemma admissions_rel rx g se d dup cs : forall i cs', admissions rx g se d dup i cs = Ok cs' ->
  Forall2 (fun c c' => forall x, c' = Ok x -> c = Ok x) cs cs'.
Proof.
  induction cs as [|c cs IH]; intros i cs' Hs; cbn [admissions] in Hs; [simplify_eq; constructor|].
  destruct (admission rx g se d dup i c) as [c'|?|] eqn:E; [|done|done]. cbn [mbind outcome_bind] in Hs.
  destruct (admissions rx g se d dup (S i) cs) as [cs1|?|] eqn:E2; [|done|done]. cbn [mbind outcome_bind] in Hs. simplify_eq.
  constructor; [|by eapply IH]. intros x ->. unfold admission in E. destruct c as [[[e seq] aad]|y|]; [|done|done].
  destruct (dup !! i) as [[]|]; cbn [unwrap mbind outcome_bind] in E; [done| |done].
  destruct (precheck_replay_state _ _ _ _ _ _); by simplify_eq.
Qed.

(** an open packet passed all checks before *)
Definition opened_from (c : outcome Error (Z * Z * list Z)) (st : status) : Prop :=
  match st with Opened e seq _ => exists aad, c = Ok (e, seq, aad) | Rejected _ => True end.

Lemma decryptor_rx d e ds s : let s' := (batch_decryptor d e ds s).1 in
  rx_slots s' = rx_slots s /\ sync_rx_grace s' = sync_rx_grace s /\
  sync_rx_grace_expires_at_ms s' = sync_rx_grace_expires_at_ms s /\ send_epoch s' = send_epoch s.
Proof.
  unfold batch_decryptor. destruct (list_find _ ds) as [[? [? ?]]|]; [done|]. cbv [mbind M_bind gets mret M_ret].
  pose proof (encryptor_rx e d (session_generation s) false s) as He. destruct (get_or_create_encryptor _ _ _ _ s) as [s1 [|?|]]; exact He.
Qed.

Lemma open_all_rx d l : forall ds s, let s' := (open_all d ds l s).1 in
  rx_slots s' = rx_slots s /\ sync_rx_grace s' = sync_rx_grace s /\
  sync_rx_grace_expires_at_ms s' = sync_rx_grace_expires_at_ms s /\ send_epoch s' = send_epoch s.
Proof.
  induction l as [|[p [[[e seq] aad]|x|]] l IH]; intros ds s; cbn [open_all]; cbv [mbind M_bind mret M_ret lift]; [done| | |done].
  - pose proof (decryptor_rx d e ds s) as Hd. destruct (batch_decryptor d e ds s) as [s1 [[ds' c]|?|]]; [|done|done]. cbn [fst] in Hd.
    destruct Hd as (-> & -> & -> & ->) || idtac. destruct (Cipher.decrypt_with_aad c p aad) as [q|x|].
    + specialize (IH ds' s1). destruct (open_all d ds' l s1) as [s2 [[? ?]|?|]]; cbn [fst] in *; intuition congruence.
    + specialize (IH ds' s1). destruct (open_all d ds' l s1) as [s2 [[? ?]|?|]]; cbn [fst] in *; intuition congruence.
    + done.
  - specialize (IH ds s). destruct (open_all d ds l s) as [s2 [[? ?]|?|]]; done.
Qed.

Lemma open_all_rel d l : forall ds s s' sts failed, open_all d ds l s = (s', Ok (sts, failed)) ->
  Forall2 (fun x st => opened_from x.2 st) l sts.
Proof.
  induction l as [|[p [[[e seq] aad]|x|]] l IH]; intros ds s s' sts failed; cbn [open_all]; cbv [mbind M_bind mret M_ret lift].
  - intros. simplify_eq. constructor.
  - destruct (batch_decryptor d e ds s) as [s1 [[ds' c]|?|]]; [|done|done].
    destruct (Cipher.decrypt_with_aad c p aad) as [q|x|]; [| |done].
    + destruct (open_all d ds' l s1) as [s2 [[rest f]|?|]] eqn:E; [|done|done]. intros. simplify_eq. constructor; [cbn; eauto|by eapply IH].
    + destruct (open_all d ds' l s1) as [s2 [[rest f]|?|]] eqn:E; [|done|done]. intros. simplify_eq. constructor; [done|by eapply IH].
  - destruct (open_all d ds l s) as [s2 [[rest f]|?|]] eqn:E; [|done|done]. intros. simplify_eq. constructor; [done|by eapply IH].
  - done.
Qed.

Lemma Forall2_replace {X Y} (P : X -> Y -> Prop) l k i y : Forall2 P l k -> (forall x, P x y) -> Forall2 P l (<[i := y]> k).
Proof. intros Hf Hy. revert i. induction Hf as [|x z l k Hx Hf IH]; intros [|i]; cbn; constructor; auto. Qed.

Lemma commit_all_rel order : forall rx g se d now ps sts, Forall2 (fun p st => opened_from (classify p) st) ps sts ->
  Forall2 (fun p st => opened_from (classify p) st) ps (commit_all rx g se d now order sts).2.
Proof.
  induction order as [|[[e seq] i] order IH]; intros rx g se d now ps sts Hf; cbn [commit_all]; [done|].
  destruct (commit_replay_state rx g se e seq d now) as [[rx' g'] ok]. apply IH. destruct ok; [done|].
  by apply Forall2_replace.
Qed.

(** the nonces of the packets that a batch accepts *)
Definition batch_accepts (ps : list ZCPacket.t) (rs : list (outcome Error ZCPacket.t)) : list (Z * Z) :=
  omap (fun x : ZCPacket.t * outcome Error ZCPacket.t =>
    match x.2, classify x.1 with Ok _, Ok (e, seq, _) => Some (e, seq) | _, _ => None end) (zip ps rs).

Lemma omap_cons {X Y} (f : X -> option Y) x l : omap f (x :: l) = match f x with Some y => y :: omap f l | None => omap f l end.
Proof. done. Qed.

Lemma opened_at_nonces sts : (opened_at sts).*1 = omap (fun st => match st with Opened e seq _ => Some (e, seq) | _ => None end) sts.
Proof.
  unfold opened_at. assert (forall n, (omap (fun x : nat * status => match x with (i, Opened e seq _) => Some (e, seq, i) | _ => None end)
    (imap (fun i st => (n + i, st)%nat) sts)).*1 = omap (fun st => match st with Opened e seq _ => Some (e, seq) | _ => None end) sts) as Hn.
  { induction sts as [|st sts IH]; intros n; [done|]. cbn [imap].
    assert (imap ((fun i st => ((n + i)%nat, st)) ∘ S) sts = imap (fun i st => ((S n + i)%nat, st)) sts) as ->
      by (apply imap_ext; intros; cbn; f_equal; lia).
    rewrite !omap_cons. specialize (IH (S n)). destruct st; [exact IH|]. cbn [fmap list_fmap fst]. f_equal. exact IH. }
  apply (Hn 0%nat).
Qed.

Lemma batch_accepts_opened ps sts : Forall2 (fun p st => opened_from (classify p) st) ps sts ->
  batch_accepts ps (map result_of sts) = (opened_at sts).*1.
Proof.
  rewrite opened_at_nonces. unfold batch_accepts. induction 1 as [|p st ps sts Hp Hf IH]; [done|]. cbn [map zip zip_with].
  rewrite !omap_cons. cbn [fst snd]. destruct st as [x|e seq q]; cbn [result_of opened_from] in *; [done|].
  destruct Hp as [aad ->]. by f_equal.
Qed.

Lemma classify_range p e seq aad : bytes_ok (ZCPacket.inner p) -> classify p = Ok (e, seq, aad) -> is_u 32 e /\ is_u 64 seq.
Proof.
  intros Hb Hc. unfold classify in Hc. destruct (ZCPacket.peer_manager_header p) as [h|]; [|done]. destruct (PH.is_encrypted h); [|done].
  unfold ZCPacket.payload, get_from in Hc. case_bool_decide; [|done]. cbn [unwrap mbind outcome_bind] in Hc.
  set (body := drop _ _) in Hc. assert (bytes_ok body) as Hbody by (by apply bytes_ok_drop).
  unfold parse_tail in Hc. destruct (Cipher.ref_from_suffix body) as [tail|] eqn:Et; [|done].
  apply Cipher.ref_from_suffix_inv in Et as (text & Etext & _ & Hn). rewrite Etext, !bytes_ok_app in Hbody. destruct Hbody as (_ & _ & Hbn).
  cbn [fmap option_fmap option_map ok_or mbind outcome_bind] in Hc. destruct (packet_aad p); [|done|done]. cbn [mbind outcome_bind] in Hc. simplify_eq.
  pose proof (of_be_range _ (bytes_ok_take 4 _ Hbn)) as R1. pose proof (of_be_range _ (bytes_ok_drop 4 _ Hbn)) as R2.
  rewrite length_take in R1. rewrite length_drop in R2. unfold Cipher.NONCE_SIZE in Hn. rewrite Hn in R1, R2. split; [exact R1|exact R2].
Qed.

Lemma batch_accepts_err ps x : batch_accepts ps (map (fun _ => Err x) ps) = [].
Proof. unfold batch_accepts. induction ps as [|p ps IH]; [done|]. cbn [map zip zip_with]. rewrite omap_cons. exact IH. Qed.

Lemma commit_order_perm sts : commit_order sts ≡ₚ opened_at sts.
Proof. apply merge_sort_Permutation. Qed.

Lemma opened_at_range ps sts : Forall (fun p => bytes_ok (ZCPacket.inner p)) ps ->
  Forall2 (fun p st => opened_from (classify p) st) ps sts -> Forall (fun x : Z * Z * nat => 0 <= x.1.2) (commit_order sts).
Proof.
  intros Hb Hf. apply Forall_forall. intros [[e seq] i] Hin. rewrite commit_order_perm in Hin.
  apply elem_of_opened_at in Hin as [q Hq]. destruct (Forall2_lookup_r _ _ _ _ _ Hf Hq) as (p & Hp & aad & Hc).
  apply (classify_range p) in Hc; [cbn; unfold is_u in Hc; lia|]. rewrite Forall_forall in Hb. apply Hb. by eapply list_elem_of_lookup_2.
Qed.

Lemma commit_all_other order : forall rx se d now sts, let '(rx', g', _) := commit_all rx None se d now order sts in
  (forall d', d' <> d -> get d' rx' = get d' rx) /\ g' = None.
Proof.
  induction order as [|[[e seq] i] order IH]; intros rx se d now sts; cbn [commit_all]; [done|].
  unfold commit_replay_state. destruct (commit_rx _ _ _ _ _) as [p' ok].
  specialize (IH (set d p' rx) se d now (if ok then sts else <[i := Rejected ReplayRejected]> sts)).
  destruct (commit_all _ _ _ _ _ _ _) as [[rx' g'] sts']. destruct IH as [IH ->]. split; [|done].
  intros d' Hd. rewrite IH by done. by apply get_set_other.
Qed.

Lemma decrypt_batch_rx s d ps now : graceless s -> Forall (fun p => bytes_ok (ZCPacket.inner p)) ps ->
  match decrypt_payload_batch d ps now s with
  | (s', r) => graceless s' /\ (forall d', d' <> d -> get d' (rx_slots s') = get d' (rx_slots s)) /\
      match r with
      | Ok rs => forall h, rx_refines (get d (rx_slots s)) h -> NoDup h ->
          exists h', rx_refines (get d (rx_slots s')) h' /\ NoDup h' /\ h' ≡ₚ batch_accepts ps rs ++ h
      | _ => rx_slots s' = rx_slots s
      end
  end.
Proof.
  intros [Hg1 Hg2] Hb. unfold decrypt_payload_batch. cbv [mbind M_bind gets lift fail mret M_ret modify].
  destruct (is_valid s); cbn [negb].
  2: { split; [done|]. split; [done|]. intros h Hr Hn. exists h. by rewrite batch_accepts_err. }
  case_bool_decide as Hps; [subst; split; [done|]; split; [done|]; intros h Hr Hn; by exists h|].
  destruct (scan _ _ _ _) as [[cs dup]|?|] eqn:Es; [|done|done]. apply scan_classify in Es. subst cs.
  unfold replay_state_snapshot. rewrite Hg2. destruct (admissions _ _ _ _ _ _ _) as [cs'|?|] eqn:Ea; [|done|done].
  apply admissions_rel in Ea. pose proof (open_all_rx d (zip ps cs') [] s) as (O1 & O2 & O3 & O4).
  destruct (open_all d [] (zip ps cs') s) as [s1 r] eqn:Eo. cbn [fst] in *.
  assert (graceless s1) as [G1 G2] by (split; congruence).
  destruct r as [[sts failed]|?|]; [|by rewrite O1..].
  apply open_all_rel in Eo. assert (Forall2 (fun p st => opened_from (classify p) st) ps sts) as Hf.
  { assert (length cs' = length ps) as Hl by (apply Forall2_length in Ea; by rewrite length_map in Ea).
    clear -Ea Eo Hl. revert sts cs' Ea Eo Hl. induction ps as [|p ps IH]; intros sts [|c cs'] Ea Eo Hl; try done.
    - inversion Eo. constructor.
    - cbn [zip zip_with map] in *. inversion Eo as [|? st ? sts' Hst Ho]; subst. inversion Ea as [|? ? ? ? Hc Ha]; subst.
      constructor; [|eapply IH; [exact Ha|exact Ho|cbn in Hl; lia]]. destruct st as [|e seq q]; [done|]. destruct Hst as [aad Hst]. exists aad. by apply Hc. }
  assert (maybe_expire (sync_rx_grace s1) now = sync_rx_grace s1) as -> by (unfold maybe_expire; by rewrite G2). rewrite G2, O1, O4.
  pose proof (fun h Hr Hn => commit_all_refines (commit_order sts) (rx_slots s) sts h h [] d (send_epoch s) now Hr Hn (Permutation_refl h)) as Hc.
  pose proof (commit_all_rel (commit_order sts) (rx_slots s) None (send_epoch s) d now ps sts Hf) as Hrel.
  pose proof (commit_all_other (commit_order sts) (rx_slots s) (send_epoch s) d now sts) as Hoth.
  pose proof (opened_at_range ps sts Hb Hf) as Hrg.
  destruct (commit_all (rx_slots s) None (send_epoch s) d now (commit_order sts) sts) as [[rx' g'] sts'] eqn:Ecm. cbn [snd] in Hrel.
  destruct Hoth as [Hoth ->]. cbn [from_option].
  match goal with |- context [if existsb is_opened sts' then record_authenticated_success ?x else _] => set (s2 := x) end.
  assert (forall b f, rx_slots (if b : bool then record_authenticated_success s2 else if f : bool then record_decrypt_failure s2 else s2) = rx' /\
    graceless (if b : bool then record_authenticated_success s2 else if f : bool then record_decrypt_failure s2 else s2)) as Hfin.
  { intros [] []; done. }
  destruct (Hfin (existsb is_opened sts') failed) as [-> Hgl]. split; [exact Hgl|]. split; [exact Hoth|].
  intros h Hr Hn. destruct (Hc h Hr Hn) as (h' & R1 & R2 & R3 & _); [cbn; by rewrite commit_order_perm|done|].
  exists h'. split_and!; [done|done|]. by rewrite (batch_accepts_opened ps sts' Hrel).
Qed.
End NoReplay.

(** ** Examples *)
Definition sum_hmac : Hmac := {| hmac_sha256 k m := replicate 32 (Cipher.checksum (k ++ m)) |}.
#[export] Instance sum_hmac_laws : HmacLaws sum_hmac.
Proof. split. done. Qed.
#[local] Existing Instances Cipher.sum_aead Cipher.sum_aead_laws sum_hmac.

Definition aes : list Z := str "aes-gcm".
Definition demo_session : t := new (replicate 32 5) 1 7 aes aes 1000.

Definition plain_packet : ZCPacket.t :=
  ZCPacket.with_inner ZCPacket.new_nic_packet (replicate 18 0 ++ PH.as_bytes (PH.mk 1 9 1 0 1 0 3) ++ [10; 20; 30]).

Lemma sample_sealable : sealable plain_packet.
Proof.
  exists (replicate 18 0), (PH.mk 1 9 1 0 1 0 3), [10; 20; 30]. split_and!; [|done|].
  - split; [done|done|]. apply (bool_decide_unpack _). done.
  - split; [|done]. apply (bool_decide_unpack _). done.
Qed.

Lemma datagram_stream_roundtrip_witness :
  exchange AToB demo_session demo_session [(plain_packet, 1000, 1001); (plain_packet, 700000, 700001)] =
  [Ok plain_packet; Ok plain_packet].
Proof.
  apply (datagram_stream_roundtrip AToB (replicate 32 5) 1 7 aes aes aes aes 1000 1000
    [(plain_packet, 1000, 1001); (plain_packet, 700000, 700001)]); [done| |done|done|done].
  repeat constructor; apply sample_sealable.
Defined.

Lemma nonces_never_repeat_witness :
  let evs := [Encrypt AToB plain_packet 1000; EncryptBatch AToB [plain_packet; plain_packet] 700000;
              Sync (replicate 32 5) 1 9 true 700001; Encrypt AToB plain_packet 700002;
              Sync (replicate 32 6) 2 1 false 700003; Encrypt AToB plain_packet 700004] in
  length (nonces_of_run demo_session evs) = 5%nat /\ NoDup (nonces_of_run demo_session evs).
Proof.
  intros evs. split; [reflexivity|]. apply (nonces_never_repeat (replicate 32 5) 1 7 aes aes 1000 evs); [done|].
  subst evs. vm_compute. split_and!; try done; try (intros [=]); try reflexivity.
  intros Hin. inversion Hin as [|? ? ? Hn]. by apply elem_of_nil in Hn.
Defined.
End SecureDatagramProps.
