(* ===== verification/DatagramWf.v ===== *)
(** * Well-formed secure datagram sessions

    The invariant of a session (src/lowertier/src/peers/secure_datagram.rs): its counters keep to
    their widths, its key cache holds the ciphers of its root key, and its replay windows hold the
    numbers they accepted.  Every operation keeps it, whatever packets arrive. *)
From stdpp Require Import base list gmap numbers sorting.
From Stdlib Require Import ZArith Lia.
From S2P Require Import Prelude PacketHeader Packet PacketProps ReplayWindow NetAddr Cipher SecureDatagram SecureDatagramProps.

Local Open Scope Z_scope.

Module DatagramWf.
Import SecureDatagram SecureDatagramProps.

(** ** Replay slots *)
Definition window_ok (sl : EpochRxSlot) : Prop := valid sl = true -> exists l, RW.refines (window sl) l.
Definition pair_ok (p : EpochRxSlot * EpochRxSlot) : Prop :=
  window_ok p.1 /\ window_ok p.2 /\ (valid p.2 = true -> valid p.1 = true /\ epoch p.2 < epoch p.1).
Definition grace_ok (g : option SyncRxGrace) (d : Direction) : Prop :=
  match g with Some g => window_ok (get d (g_slots g)).1 /\ window_ok (get d (g_slots g)).2 | None => True end.

Lemma rx_refines_pair_ok p h : rx_refines p h -> pair_ok p.
Proof.
  destruct p as [cur prev]. unfold rx_refines, pair_ok, window_ok. cbn [fst snd]. destruct (valid cur).
  - intros (Hw & _ & Hp). split_and!; [eauto|intros Hv; destruct (Hp Hv); eauto|]. intros Hv. by destruct (Hp Hv).
  - intros [_ ->]. done.
Qed.

Lemma slot_accept_frame sl x now : valid (slot_accept sl x now).1 = valid sl /\ epoch (slot_accept sl x now).1 = epoch sl.
Proof. by rewrite slot_accept_fst. Qed.

Lemma slot_accept_ok sl x now : window_ok sl -> 0 <= x -> window_ok (slot_accept sl x now).1.
Proof.
  intros Hw H0 Hv. rewrite slot_accept_fst in *. cbn [valid window] in *. destruct (Hw Hv) as [l Hr].
  pose proof (window_accept (window sl) l x Hr H0) as Ha. destruct (RW.accept (window sl) x).2; [destruct Ha; eauto|rewrite Ha; eauto].
Qed.
Lemma fresh_slot_ok e now : window_ok (fresh_slot e now).
Proof. intros _. exists []. apply RW.default_refines. Qed.

Lemma commit_rx_pair_ok p se e x now : pair_ok p -> 0 <= x -> pair_ok (commit_rx p se e x now).1.
Proof.
  destruct p as [cur prev]. intros Hp H0. pose proof Hp as (W1 & W2 & W3). cbn [fst snd] in *. unfold commit_rx, pair_ok.
  pose proof (slot_accept_frame cur x now) as [C1 C2]. pose proof (slot_accept_ok cur x now W1 H0) as C3.
  pose proof (slot_accept_frame prev x now) as [P1 P2]. pose proof (slot_accept_ok prev x now W2 H0) as P3.
  pose proof (slot_accept_frame (fresh_slot e now) x now) as [N1 N2]. pose proof (slot_accept_ok _ x now (fresh_slot_ok e now) H0) as N3.
  destruct (valid cur) eqn:Ev; cbn [negb andb].
  - destruct (slot_accept cur x now) as [c' ?], (slot_accept prev x now) as [p' ?]. cbn [fst] in *. destruct (e =? epoch cur); [cbn [fst snd]; split_and!; rewrite ?C1, ?C2; first [done|intros Hv; destruct (W3 Hv); split; [congruence|lia]]|].
    destruct (valid prev && (e =? epoch prev)); [cbn [fst snd]; split_and!; rewrite ?P1, ?P2, ?Ev; first [done|intros Hv; destruct (W3 Hv); split; [congruence|lia]]|].
    destruct (epoch cur <? e) eqn:E; [|done]. destruct (max_ahead _ <? e); [done|]. bool_to_Z.
    destruct (slot_accept (fresh_slot e now) x now) as [n' ?]. cbn [fst snd valid epoch fresh_slot] in *; split_and!; rewrite ?N1, ?N2; done.
  - destruct (max_ahead se <? e); [done|]. cbn [epoch fresh_slot]. rewrite Z.eqb_refl.
    destruct (slot_accept (fresh_slot e now) x now) as [n' ?]. cbn [fst snd valid epoch fresh_slot] in *; split_and!; rewrite ?N1, ?N2; try done.
    intros Hv. by destruct (W3 Hv).
Qed.

Lemma commit_state_ok rx g se e seq d now : pair_ok (get d rx) -> grace_ok g d -> 0 <= seq ->
  let '(rx', g', _) := commit_replay_state rx g se e seq d now in pair_ok (get d rx') /\ grace_ok g' d.
Proof.
  intros Hp Hg H0. unfold commit_replay_state. pose proof (commit_rx_pair_ok (get d rx) se e seq now Hp H0) as Hk.
  destruct (match g with Some g => commit_grace g e seq d now | None => None end) as [[g' ok]|] eqn:E.
  - destruct g as [g|]; [|done]. split; [done|]. unfold commit_grace in E. destruct Hg as [G1 G2].
    pose proof (slot_accept_ok _ seq now G1 H0) as K1. pose proof (slot_accept_ok _ seq now G2 H0) as K2.
    destruct (slot_accept (get d (g_slots g)).1 seq now), (slot_accept (get d (g_slots g)).2 seq now).
    destruct (_ && _); [|destruct (_ && _); [|done]]; simplify_eq; cbn [grace_ok g_slots]; by rewrite get_set_same.
  - destruct (commit_rx _ _ _ _ _) as [p' ok]. by rewrite get_set_same.
Qed.

(** ** Packets that are bytes never panic *)
Lemma classify_total p : bytes_ok (ZCPacket.inner p) -> classify p <> Panic.
Proof.
  intros Hb. unfold classify. destruct (ZCPacket.peer_manager_header p) as [h|] eqn:Eh; [|done]. destruct (PH.is_encrypted h); [|done].
  rewrite (PacketProps.layout_payload _ _ _ _ (PacketProps.header_layout p h Hb Eh)). cbn [mbind outcome_bind]. destruct (parse_tail _); [|done].
  unfold packet_aad. by rewrite Eh.
Qed.

Lemma decrypt_total {A : Aead} {AL : AeadLaws A} c p aad e seq aad' : bytes_ok (ZCPacket.inner p) -> classify p = Ok (e, seq, aad') ->
  Cipher.decrypt_with_aad c p aad <> Panic.
Proof.
  intros Hb Hc. unfold classify in Hc. destruct (ZCPacket.peer_manager_header p) as [h|] eqn:Eh; [|done].
  destruct (PH.is_encrypted h) eqn:Ee; [|done]. pose proof (PacketProps.header_layout p h Hb Eh) as Hl.
  rewrite (PacketProps.layout_payload _ _ _ _ Hl) in Hc. cbn [mbind outcome_bind] in Hc. set (body := drop _ _) in *.
  unfold parse_tail in Hc. destruct (Cipher.ref_from_suffix body) as [tail|] eqn:Et; [|done]. pose proof Et as Et'. clear Hc.
  apply Cipher.ref_from_suffix_inv in Et as (text & Etext & Ht & Hn). pose proof Hl as Hl2. rewrite Etext in Hl2.
  destruct (open (Cipher.algorithm c) (Cipher.key c) (Cipher.nonce tail) aad text (Cipher.tag tail)) as [plain|] eqn:Eo.
  { destruct (Cipher.decrypt_layout c p _ h text _ _ aad plain Hl2 Ee Ht Hn Eo) as [-> _]. done. }
  unfold Cipher.decrypt_with_aad. rewrite Eh. cbn [unwrap mbind outcome_bind]. rewrite Ee. cbn [negb].
  rewrite (PacketProps.layout_payload _ _ _ _ Hl). cbn [mbind outcome_bind]. case_bool_decide; [done|]. rewrite Et'. cbn [unwrap mbind outcome_bind].
  replace (take _ body) with text; [by rewrite Eo|]. rewrite Etext. symmetry. apply take_app_length'. rewrite !length_app. unfold Cipher.SIZE, Cipher.TAG_SIZE, Cipher.NONCE_SIZE in *. lia.
Qed.

(** ** The decryption of a batch *)
Section Open.
Context {A : Aead} {H : Hmac}.

(** the candidates of a batch, opened *)
Definition opened (s : t) (d : Direction) (p : ZCPacket.t) (c : outcome Error (Z * Z * list Z)) : status :=
  match c with
  | Ok (e, seq, aad) =>
      match Cipher.decrypt_with_aad (cipher_for s false e d) p aad with
      | Ok q => Opened e seq q
      | Err x => Rejected (CipherError x)
      | Panic => Rejected PacketRejected
      end
  | Err x => Rejected x
  | Panic => Rejected PacketRejected
  end.
Definition ciphers_ok (s : t) (d : Direction) (ds : list (Z * Cipher.RingCipher)) : Prop :=
  Forall (fun x => x.2 = cipher_for s false x.1 d) ds.

Lemma batch_decryptor_spec s d e ds : cache_ok s -> ciphers_ok s d ds ->
  exists c ds', batch_decryptor d e ds s = (with_cache s c, Ok (ds', cipher_for s false e d)) /\ cache_ok (with_cache s c) /\ ciphers_ok s d ds'.
Proof.
  intros Hc Hd. unfold batch_decryptor. assert (with_cache s (key_cache s) = s) as Hs by (by destruct s).
  destruct (list_find _ ds) as [[i [e' c]]|] eqn:E.
  - apply list_find_Some in E as (Hi & He & _). cbn in He. subst e'. exists (key_cache s), ds. rewrite Hs. cbv [mret M_ret]. split_and!; [|done..].
    unfold ciphers_ok in Hd. rewrite Forall_forall in Hd. specialize (Hd _ (list_elem_of_lookup_2 _ _ _ Hi)). cbn in Hd. by subst c.
  - cbv [mbind M_bind gets mret M_ret]. destruct (get_or_create_spec s e d (session_generation s) false Hc) as (c & -> & Hc').
    exists c, (ds ++ [(e, cipher_for s false e d)]). split_and!; [done..|]. apply Forall_app. split; [done|by constructor].
Qed.

Lemma open_all_spec d l : forall ds s, cache_ok s -> ciphers_ok s d ds ->
  Forall (fun x => x.2 <> Panic /\ forall c e seq aad, x.2 = Ok (e, seq, aad) -> Cipher.decrypt_with_aad c x.1 aad <> Panic) l ->
  exists c b, open_all d ds l s = (with_cache s c, Ok (map (fun x => opened s d x.1 x.2) l, b)) /\ cache_ok (with_cache s c).
Proof.
  induction l as [|[p [[[e seq] aad]|x|]] l IH]; intros ds s Hc Hd Hp; cbn [open_all map]; cbv [mbind M_bind mret M_ret lift].
  - exists (key_cache s), false. assert (with_cache s (key_cache s) = s) as -> by (by destruct s). done.
  - apply Forall_cons_iff in Hp as [[_ Hp0] Hp]. specialize (Hp0 (cipher_for s false e d) e seq aad eq_refl). cbn [fst snd opened] in *.
    destruct (batch_decryptor_spec s d e ds Hc Hd) as (c & ds' & -> & Hc' & Hd').
    destruct (IH ds' (with_cache s c) Hc' Hd' Hp) as (c2 & b & E & Hc2).
    destruct (Cipher.decrypt_with_aad _ _ _) as [q|x|]; [| |done]; rewrite E; eauto.
  - apply Forall_cons_iff in Hp as [_ Hp]. destruct (IH ds s Hc Hd Hp) as (c2 & b & E & Hc2). rewrite E. eauto.
  - apply Forall_cons_iff in Hp as [[? _] _]. done.
Qed.
End Open.

(** ** The invariant *)
Definition epochs_ok (p : EpochRxSlot * EpochRxSlot) : Prop :=
  (valid p.1 = true -> is_u 32 (epoch p.1)) /\ (valid p.2 = true -> is_u 32 (epoch p.2)).
Definition key_ok (k : list Z) : Prop := bytes_ok k /\ length k = 32%nat.
#[export] Instance key_ok_dec k : Decision (key_ok k).
Proof. unfold key_ok. apply _. Defined.

Lemma commit_rx_epochs p se e x now : epochs_ok p -> is_u 32 e -> epochs_ok (commit_rx p se e x now).1.
Proof.
  destruct p as [cur prev]. intros [E1 E2] He. cbn [fst snd] in *. unfold commit_rx, epochs_ok.
  pose proof (slot_accept_frame prev x now) as [P1 P2]. pose proof (slot_accept_frame (fresh_slot e now) x now) as [N1 N2].
  destruct (valid cur) eqn:Ev; cbn [negb andb].
  - pose proof (slot_accept_frame cur x now) as [C1 C2]. destruct (slot_accept cur x now), (slot_accept prev x now). cbn [fst] in *.
    destruct (e =? epoch cur); [cbn [fst snd]; rewrite C1, C2; by rewrite Ev|].
    destruct (valid prev && (e =? epoch prev)); [cbn [fst snd]; rewrite P1, P2, Ev; done|].
    destruct (epoch cur <? e); [|cbn [fst snd]; by rewrite Ev]. destruct (max_ahead _ <? e); [cbn [fst snd]; by rewrite Ev|].
    destruct (slot_accept (fresh_slot e now) x now). cbn [fst snd valid epoch fresh_slot] in *. rewrite N1, N2, Ev. auto.
  - destruct (max_ahead se <? e); [cbn [fst snd]; by rewrite Ev|]. cbn [epoch fresh_slot]. rewrite Z.eqb_refl.
    destruct (slot_accept (fresh_slot e now) x now). cbn [fst snd valid epoch fresh_slot] in *. rewrite N1, N2. auto.
Qed.

Section Wf.
Context {A : Aead} {AL : AeadLaws A} {H : Hmac}.

Record wf (s : t) : Prop := {
  wf_root : key_ok (root_key s);
  wf_epoch : is_u 32 (send_epoch s);
  wf_seq : forall d, is_u 64 (get d (send_seq s));
  wf_fails : 0 <= decrypt_fail_count s <= DECRYPT_FAIL_THRESHOLD;
  wf_cache : cache_ok s;
  wf_rx : forall d, pair_ok (get d (rx_slots s)) /\ epochs_ok (get d (rx_slots s));
  wf_grace : forall d, grace_ok (Some (sync_rx_grace s)) d;
}.

Lemma default_grace_ok d : grace_ok (Some default_grace) d /\ grace_ok (Some clear_grace) d.
Proof. by destruct d. Qed.

Lemma wf_new root gen epoch0 sa ra now : key_ok root -> is_u 32 epoch0 -> wf (new root gen epoch0 sa ra now).
Proof.
  intros Hr He. split; [done|done|by intros []|done|by apply default_cache_ok|by intros []|intros d; apply default_grace_ok].
Qed.

(** the same session with another key cache, other health, replay state or sender *)
Lemma wf_with_cache s c : wf s -> cache_ok (with_cache s c) -> wf (with_cache s c).
Proof. intros [? ? ? ? ? ? ?] ?. by split. Qed.
Lemma wf_invalidate s : wf s -> wf (invalidate s).
Proof. intros [? ? ? ? ? ? ?]. by split. Qed.
Lemma wf_record_failure s : wf s -> wf (record_decrypt_failure s).
Proof.
  intros [? ? ? Hf ? ? ?]. split; try done. cbn. unfold saturating_add, u_max, DECRYPT_FAIL_THRESHOLD in *. lia.
Qed.
Lemma wf_record_success s : wf s -> wf (record_authenticated_success s).
Proof. intros [? ? ? ? ? ? ?]. by split. Qed.
Lemma wf_with_grace s g x : wf s -> (forall d, grace_ok (Some g) d) -> wf (with_grace s g x).
Proof. intros [? ? ? ? ? ? ?] ?. by split. Qed.
Lemma wf_with_rx s rx : wf s -> (forall d, pair_ok (get d rx) /\ epochs_ok (get d rx)) -> wf (with_rx s rx).
Proof. intros [? ? ? ? ? ? ?] ?. by split. Qed.
Lemma wf_prune s rx g : wf s -> wf (prune_key_cache s rx g).
Proof. intros [? ? ? ? ? ? ?]. split; try done. by apply prune_cache_ok. Qed.

Lemma maybe_expire_ok g now d : grace_ok (Some g) d -> grace_ok (Some (maybe_expire g now)) d.
Proof. intros Hg. unfold maybe_expire. destruct (_ && _); [apply default_grace_ok|done]. Qed.

Lemma wf_usable_grace s now : wf s -> wf (usable_grace s now).1 /\ forall d, grace_ok (usable_grace s now).2 d.
Proof.
  intros Hw. pose proof (wf_grace s Hw) as Hg. unfold usable_grace, sync_rx_grace_active. destruct (_ =? 0); [done|].
  destruct (now <? _); cbn [negb].
  - destruct (g_valid (maybe_expire _ _)); cbn [fst snd]; (split; [|intros d]); try done; try (by apply maybe_expire_ok); (apply wf_with_grace; [done|]); intros d; by apply maybe_expire_ok.
  - split; [|done]. by apply wf_with_grace.
Qed.

Lemma wf_reserve d n now s : 0 < n <= u_max 64 -> wf s -> wf (reserve_nonce_range d n now s).1.
Proof.
  intros Hn [W1 W2 W3 W4 W5 W6 W7]. pose proof (reserve_range_spec d n now s ltac:(lia)) as Hr.
  destruct (reserve_nonce_range d n now s) as [s1 r]. destruct Hr as (Hso & He & Hr). cbn [fst].
  assert (is_u 32 (send_epoch s1)) as He1 by (destruct He as [->| ->]; [done|apply wrap_range; lia]).
  split; [by rewrite Hso|done| |by rewrite Hso..]. pose proof (W3 d) as Hd. destruct r as [[e start]|x|]; [|destruct Hr as (_ & -> & _); done|done].
  destruct Hr as (_ & -> & -> & Hle). intros d'. destruct (decide (d = d')) as [<-|Hne]; [|by rewrite get_set_other].
  rewrite get_set_same. unfold saturating_sub, is_u, u_max in *. lia.
Qed.

(** *** Sending *)
Lemma wf_encryptor e d g b s : wf s -> wf (get_or_create_encryptor e d g b s).1.
Proof. intros Hw. destruct (get_or_create_spec s e d g b (wf_cache s Hw)) as (c & -> & Hc). by apply wf_with_cache. Qed.

(** operations that keep the invariant *)
Definition keeps_wf {X} (m : M X) : Prop := forall s, wf s -> wf (m s).1.
Lemma keeps_wf_bind {X Y} (m : M X) (f : X -> M Y) : keeps_wf m -> (forall x, keeps_wf (f x)) -> keeps_wf (m ≫= f).
Proof.
  intros Hm Hf s Hw. cbv [mbind M_bind]. specialize (Hm s Hw). destruct (m s) as [s1 [x|e|]]; [|done|done]. by apply Hf.
Qed.
Lemma keeps_wf_lift {X} (o : outcome Error X) : keeps_wf (lift o).
Proof. by intros s Hw. Qed.
Lemma keeps_wf_ret {X} (x : X) : keeps_wf (mret x).
Proof. by intros s Hw. Qed.
Lemma keeps_wf_gets {X} (f : t -> X) : keeps_wf (gets f).
Proof. by intros s Hw. Qed.
Lemma keeps_wf_fail {X} e : keeps_wf (X := X) (fail e).
Proof. by intros s Hw. Qed.
Lemma keeps_wf_modify f : (forall s, wf s -> wf (f s)) -> keeps_wf (modify f).
Proof. intros Hf s Hw. by apply Hf. Qed.
Lemma keeps_wf_cipher {X} f (o : outcome Cipher.Error X) : (forall s, wf s -> wf (f s)) -> keeps_wf (lift_cipher f o).
Proof. intros Hf s Hw. unfold lift_cipher. destruct o; [done|by apply Hf|done]. Qed.
Lemma keeps_wf_reserve d n now : 0 < n <= u_max 64 -> keeps_wf (reserve_nonce_range d n now).
Proof. intros Hn s Hw. by apply wf_reserve. Qed.
Lemma keeps_wf_encryptor e d g b : keeps_wf (get_or_create_encryptor e d g b).
Proof. intros s Hw. by apply wf_encryptor. Qed.
End Wf.

Create HintDb wf.
#[export] Hint Resolve keeps_wf_bind keeps_wf_lift keeps_wf_ret keeps_wf_gets keeps_wf_fail keeps_wf_modify keeps_wf_cipher
  keeps_wf_reserve keeps_wf_encryptor wf_invalidate wf_record_failure wf_record_success : wf.

Section Operations.
Context {A : Aead} {AL : AeadLaws A} {H : Hmac}.

Lemma keeps_wf_encrypt d p now : keeps_wf (encrypt_payload d p now).
Proof.
  unfold encrypt_payload. apply keeps_wf_bind; [auto with wf|]. intros [|]; cbn [negb]; [|auto with wf].
  apply keeps_wf_bind; [by apply keeps_wf_reserve|]. intros [e seq]. auto 7 with wf.
Qed.
Lemma keeps_wf_encrypt_all c e start ps : forall n, keeps_wf (encrypt_all c e start n ps).
Proof. induction ps as [|p ps IH]; intros n; cbn [encrypt_all]; auto 9 with wf. Qed.
#[local] Hint Resolve keeps_wf_encrypt_all : wf.
Lemma keeps_wf_encrypt_batch d ps now : len ps <= u_max 64 -> keeps_wf (encrypt_payload_batch d ps now).
Proof.
  intros Hl. unfold encrypt_payload_batch. apply keeps_wf_bind; [auto with wf|]. intros [|]; cbn [negb]; [|auto with wf].
  case_bool_decide as Hps; [auto with wf|]. assert (0 < len ps) by (destruct ps; [done|unfold len; cbn; lia]).
  apply keeps_wf_bind; [by apply keeps_wf_reserve|]. intros [e seq]. auto with wf.
Qed.
End Operations.

(** *** Receiving *)
Definition rx_ok (rx : EpochRxSlot * EpochRxSlot * (EpochRxSlot * EpochRxSlot)) : Prop :=
  forall d, pair_ok (get d rx) /\ epochs_ok (get d rx).

Lemma commit_state_rx_ok rx g se e seq d now : rx_ok rx -> (forall d, grace_ok g d) -> is_u 32 e -> 0 <= seq ->
  let '(rx', g', _) := commit_replay_state rx g se e seq d now in rx_ok rx' /\ (forall d, grace_ok g' d) /\ (is_Some g' -> is_Some g).
Proof.
  intros Hr Hg He Hs. pose proof (commit_state_ok rx g se e seq d now (proj1 (Hr d)) (Hg d) Hs) as Hd. unfold commit_replay_state in *.
  destruct (match g with Some g => commit_grace g e seq d now | None => None end) as [[g' ok]|] eqn:E.
  - destruct g as [g|]; [|done]. split; [done|]. split; [|eauto]. intros d'. destruct (decide (d = d')) as [<-|Hne]; [apply Hd|].
    specialize (Hg d'). unfold commit_grace in E. destruct (slot_accept (get d (g_slots g)).1 seq now), (slot_accept (get d (g_slots g)).2 seq now).
    destruct (_ && _); [|destruct (_ && _); [|done]]; simplify_eq; cbn [grace_ok g_slots]; by rewrite get_set_other.
  - pose proof (commit_rx_epochs (get d rx) se e seq now (proj2 (Hr d)) He) as Hep. destruct (commit_rx _ _ _ _ _) as [p' ok]. cbn [fst] in Hep.
    split; [|done]. intros d'. destruct (decide (d = d')) as [<-|Hne]; [|rewrite get_set_other by done; apply Hr].
    destruct Hd as [Hd _]. by rewrite get_set_same in *.
Qed.

Lemma commit_all_rx_ok order : forall rx g se d now sts, rx_ok rx -> (forall d, grace_ok g d) ->
  Forall (fun x : Z * Z * nat => is_u 32 x.1.1 /\ 0 <= x.1.2) order ->
  let '(rx', g', _) := commit_all rx g se d now order sts in rx_ok rx' /\ (forall d, grace_ok g' d).
Proof.
  induction order as [|[[e seq] i] order IH]; intros rx g se d now sts Hr Hg Hf; cbn [commit_all]; [done|].
  apply Forall_cons_iff in Hf as [[He Hs] Hf]. cbn [fst snd] in *. pose proof (commit_state_rx_ok rx g se e seq d now Hr Hg He Hs) as Hc.
  destruct (commit_replay_state rx g se e seq d now) as [[rx' g'] ok]. apply IH; [apply Hc|apply Hc|done].
Qed.

Section Receiving.
Context {A : Aead} {AL : AeadLaws A} {H : Hmac}.

Lemma keeps_wf_lift_bind {X Y} (o : outcome Error X) (f : X -> M Y) : (forall x, o = Ok x -> keeps_wf (f x)) -> keeps_wf (lift o ≫= f).
Proof. intros Hf s Hw. cbv [mbind M_bind lift]. destruct o; [by apply Hf|done|done]. Qed.

Lemma keeps_wf_precheck e seq d now : keeps_wf (precheck_replay e seq d now).
Proof. intros s Hw. unfold precheck_replay. pose proof (wf_usable_grace s now Hw) as [Hg _]. by destruct (usable_grace s now). Qed.

Lemma keeps_wf_commit e seq d now : is_u 32 e -> 0 <= seq -> keeps_wf (commit_replay e seq d now).
Proof.
  intros He Hs s Hw. unfold commit_replay. pose proof (wf_usable_grace s now Hw) as [Hg Hgr]. destruct (usable_grace s now) as [s1 g]. cbn [fst snd] in *.
  pose proof (commit_state_rx_ok (rx_slots s1) g (send_epoch s1) e seq d now (wf_rx s1 Hg) Hgr He Hs) as Hc.
  destruct (commit_replay_state _ _ _ _ _ _ _) as [[rx g'] ok]. destruct Hc as (C1 & C2 & _). cbn [fst]. apply wf_prune.
  destruct g' as [g'|]; [apply wf_with_grace; [by apply wf_with_rx|done]|by apply wf_with_rx].
Qed.

Lemma keeps_wf_decrypt d p now : bytes_ok (ZCPacket.inner p) -> keeps_wf (decrypt_payload d p now).
Proof.
  intros Hb. unfold decrypt_payload. apply keeps_wf_bind; [auto with wf|]. intros [|]; cbn [negb]; [|auto with wf].
  apply keeps_wf_lift_bind. intros [[e seq] aad] Hc. apply classify_range in Hc as [He [Hs _]]; [|done].
  apply keeps_wf_bind; [apply keeps_wf_precheck|]. intros [|]; cbn [negb]; [|auto with wf].
  apply keeps_wf_bind; [auto with wf|]. intros g. apply keeps_wf_bind; [auto with wf|]. intros c. apply keeps_wf_bind; [auto with wf|]. intros q.
  apply keeps_wf_bind; [by apply keeps_wf_commit|]. intros [|]; cbn [negb]; auto with wf.
Qed.
End Receiving.

Section Batches.
Context {A : Aead} {AL : AeadLaws A} {H : Hmac}.

Lemma keeps_wf_open_all d l : forall ds, keeps_wf (open_all d ds l).
Proof.
  assert (forall e ds, keeps_wf (batch_decryptor d e ds)) as Hd.
  { intros e ds. unfold batch_decryptor. destruct (list_find _ ds) as [[? [? ?]]|]; auto with wf. }
  induction l as [|[p [[[e seq] aad]|x|]] l IH]; intros ds; cbn [open_all]; [auto with wf| | |auto with wf].
  - apply keeps_wf_bind; [done|]. intros [ds' c]. destruct (Cipher.decrypt_with_aad c p aad); [| |auto with wf];
      (apply keeps_wf_bind; [done|]; intros [? ?]; auto with wf).
  - apply keeps_wf_bind; [done|]. intros [? ?]. auto with wf.
Qed.

Lemma commit_order_range ps sts : Forall (fun p => bytes_ok (ZCPacket.inner p)) ps ->
  Forall2 (fun p st => opened_from (classify p) st) ps sts ->
  Forall (fun x : Z * Z * nat => is_u 32 x.1.1 /\ 0 <= x.1.2) (commit_order sts).
Proof.
  intros Hb Hf. apply Forall_forall. intros [[e seq] i] Hin. rewrite commit_order_perm in Hin. apply elem_of_opened_at in Hin as [q Hq].
  destruct (Forall2_lookup_r _ _ _ _ _ Hf Hq) as (p & Hp & aad & Hc). rewrite Forall_forall in Hb.
  apply classify_range in Hc as [? [? _]]; [done|]. apply Hb. by eapply list_elem_of_lookup_2.
Qed.

Lemma wf_batch_commit d now s sts : wf s -> Forall (fun x : Z * Z * nat => is_u 32 x.1.1 /\ 0 <= x.1.2) (commit_order sts) ->
  let g := maybe_expire (sync_rx_grace s) now in
  let '(rx, grace, _) := commit_all (rx_slots s) (if g_valid g then Some g else None) (send_epoch s) d now (commit_order sts) sts in
  forall x, wf (prune_key_cache (with_grace (with_rx s rx) (default default_grace grace) x) rx (if g_valid (default default_grace grace) then grace else None)).
Proof.
  intros Hw Hf g. assert (forall d, grace_ok (if g_valid g then Some g else None) d) as Hg.
  { intros d'. destruct (g_valid g); [|done]. apply maybe_expire_ok, Hw. }
  pose proof (commit_all_rx_ok (commit_order sts) (rx_slots s) _ (send_epoch s) d now sts (wf_rx s Hw) Hg Hf) as Hc.
  destruct (commit_all _ _ _ _ _ _ _) as [[rx g'] sts']. destruct Hc as [C1 C2]. intros x. apply wf_prune, wf_with_grace; [by apply wf_with_rx|].
  destruct g' as [g'|]; [done|]. intros d'. apply default_grace_ok.
Qed.

Lemma candidates_from ps cs sts : Forall2 (fun c c' => forall x, c' = Ok x -> c = Ok x) (map classify ps) cs ->
  Forall2 (fun x st => opened_from x.2 st) (zip ps cs) sts -> Forall2 (fun p st => opened_from (classify p) st) ps sts.
Proof.
  intros Ha. pose proof (Forall2_length _ _ _ Ha) as Hl. rewrite length_map in Hl. revert sts cs Ha Hl.
  induction ps as [|p ps IH]; intros sts [|c cs'] Ha Hl Eo; try done.
  - inversion Eo. constructor.
  - cbn [zip zip_with map] in *. inversion Eo as [|? st ? sts' Hst Ho]; subst. inversion Ha as [|? ? ? ? Hc Ha']; subst.
    constructor; [|eapply IH; [exact Ha'|cbn in Hl; lia|exact Ho]]. destruct st as [|e seq q]; [done|]. destruct Hst as [aad Hst]. exists aad. by apply Hc.
Qed.

Lemma keeps_wf_decrypt_batch d ps now : Forall (fun p => bytes_ok (ZCPacket.inner p)) ps -> keeps_wf (decrypt_payload_batch d ps now).
Proof.
  intros Hb. unfold decrypt_payload_batch. apply keeps_wf_bind; [auto with wf|]. intros [|]; cbn [negb]; [|auto with wf].
  case_bool_decide; [auto with wf|]. apply keeps_wf_lift_bind. intros [cs dup] Hscan. apply scan_classify in Hscan. subst cs.
  apply keeps_wf_bind.
  { intros s Hw. unfold replay_state_snapshot. destruct (g_valid (sync_rx_grace s)); [|done]. destruct (g_valid _); [done|]. apply wf_with_grace; [done|apply Hw]. }
  intros [rx g]. apply keeps_wf_bind; [auto with wf|]. intros se. apply keeps_wf_lift_bind. intros cs Ha. apply admissions_rel in Ha.
  intros s Hw. cbv [mbind M_bind]. pose proof (keeps_wf_open_all d (zip ps cs) [] s Hw) as Ho. destruct (open_all d [] (zip ps cs) s) as [s1 [[sts failed]|e|]] eqn:E; [|done|done].
  apply open_all_rel in E. pose proof (candidates_from ps cs sts Ha E) as Hf. cbn [fst] in Ho.
  pose proof (wf_batch_commit d now s1 sts Ho (commit_order_range ps sts Hb Hf)) as Hc. cbv zeta in *.
  destruct (commit_all _ _ _ _ _ _ _) as [[rx' g'] sts']. cbv [modify mret M_ret]. cbn [fst]. destruct (existsb is_opened sts'); [apply wf_record_success, Hc|].
  destruct failed; [apply wf_record_failure, Hc|apply Hc].
Qed.
End Batches.

(** *** Synchronisation *)
Lemma keep_epoch_ok e p : pair_ok p /\ epochs_ok p ->
  let '(kept, old) := keep_epoch e p in (pair_ok kept /\ epochs_ok kept) /\ window_ok old.1 /\ window_ok old.2.
Proof.
  destruct p as [a b]. intros [(W1 & W2 & _) [E1 E2]]. unfold keep_epoch. cbn [fst snd] in *.
  assert (forall s, window_ok s -> window_ok (if valid s && (epoch s =? e) then clear_slot s else s)) as Hd by (intros s ?; by destruct (_ && _)).
  destruct (valid a && (epoch a =? e)); [by split_and!; try apply Hd|]. destruct (valid b && (epoch b =? e)); by split_and!; try apply Hd.
Qed.

Lemma wf_sync {A : Aead} {H : Hmac} s root gen e preserve now : wf s -> key_ok root -> is_u 32 e -> wf (sync_root_key s root gen e preserve now).
Proof.
  intros [W1 W2 W3 W4 W5 W6 W7] Hr He. unfold sync_root_key. destruct (preserve && _).
  - pose proof (keep_epoch_ok e _ (W6 AToB)) as Ka. pose proof (keep_epoch_ok e _ (W6 BToA)) as Kb. cbn [get] in *.
    destruct (keep_epoch e (rx_slots s).1) as [ka pa], (keep_epoch e (rx_slots s).2) as [kb pb].
    split; try done; [by intros []|by apply default_cache_ok|intros []; [apply Ka|apply Kb]|intros []; [apply Ka|apply Kb]].
  - split; try done; [by intros []|by apply default_cache_ok|by intros []|by intros []].
Qed.

(** ** Runs *)
Definition event_ok (ev : event) : Prop :=
  match ev with
  | Encrypt _ p _ | Decrypt _ p _ => bytes_ok (ZCPacket.inner p)
  | EncryptBatch _ ps _ => Forall (fun p => bytes_ok (ZCPacket.inner p)) ps /\ len ps <= u_max 64
  | DecryptBatch _ ps _ => Forall (fun p => bytes_ok (ZCPacket.inner p)) ps /\ (length ps <= 64)%nat
  | Sync root _ e _ _ => key_ok root /\ is_u 32 e
  | Invalidate => True
  end.
#[export] Instance event_ok_dec ev : Decision (event_ok ev).
Proof. destruct ev; unfold event_ok, key_ok, is_u; apply _. Defined.

Section SessionRuns.
Context {A : Aead} {AL : AeadLaws A} {H : Hmac}.

Definition run (s : t) (evs : list event) : t := fold_left step evs s.

Lemma step_wf s ev : wf s -> event_ok ev -> wf (step s ev).
Proof.
  intros Hw. destruct ev; cbn [event_ok step].
  - intros _. by apply keeps_wf_encrypt.
  - intros [_ ?]. by apply keeps_wf_encrypt_batch.
  - intros ?. by apply keeps_wf_decrypt.
  - intros [? _]. by apply keeps_wf_decrypt_batch.
  - intros [? ?]. by apply wf_sync.
  - intros _. by apply wf_invalidate.
Qed.

Lemma run_wf evs : forall s, wf s -> Forall event_ok evs -> wf (run s evs).
Proof. unfold run. induction evs as [|ev evs IH]; intros s Hw; [done|]. intros [? ?]%Forall_cons_iff. cbn. apply IH; [by apply step_wf|done]. Qed.
End SessionRuns.
End DatagramWf.
