(* ===== verification/DatagramReplay.v ===== *)
(** Replays over runs of a secure datagram session (src/lowertier/src/peers/secure_datagram.rs):
    within one root key no nonce is accepted twice, and a synchronisation that keeps the root key
    brings back packets that were accepted before it. *)
From stdpp Require Import base list gmap sorting.
From S2P Require Import Prelude ReplayWindow PacketHeader Packet PacketProps Cipher SecureDatagram SecureDatagramProps DatagramWf.
Import SecureDatagram SecureDatagramProps DatagramWf.
Local Open Scope Z_scope.

Module DatagramReplay.

(** ** The receiving side of a session *)
Definition rx_same (s s' : t) : Prop :=
  rx_slots s' = rx_slots s /\ sync_rx_grace s' = sync_rx_grace s /\
  sync_rx_grace_expires_at_ms s' = sync_rx_grace_expires_at_ms s.
Definition leaves_rx {X} (m : M X) : Prop := forall s, rx_same s (m s).1.

Lemma leaves_rx_bind {X Y} (m : M X) (f : X -> M Y) : leaves_rx m -> (forall x, leaves_rx (f x)) -> leaves_rx (m ≫= f).
Proof.
  intros Hm Hf s. cbv [mbind M_bind]. specialize (Hm s). destruct (m s) as [s1 [x|e|]]; [|done|done].
  specialize (Hf x s1). unfold rx_same in *. cbn [fst] in *. intuition congruence.
Qed.
Lemma leaves_rx_lift {X} (o : outcome Error X) : leaves_rx (lift o).
Proof. done. Qed.
Lemma leaves_rx_gets {X} (f : t -> X) : leaves_rx (gets f).
Proof. done. Qed.
Lemma leaves_rx_ret {X} (x : X) : leaves_rx (mret x).
Proof. done. Qed.
Lemma leaves_rx_fail {X} e : leaves_rx (X := X) (fail e).
Proof. done. Qed.
Lemma leaves_rx_cipher {X} (o : outcome Cipher.Error X) : leaves_rx (lift_cipher invalidate o).
Proof. intros s. unfold lift_cipher. by destruct o. Qed.
Lemma leaves_rx_reserve d n now : n <> 0 -> leaves_rx (reserve_nonce_range d n now).
Proof.
  intros Hn s. pose proof (reserve_range_spec d n now s Hn) as Hr. destruct (reserve_nonce_range d n now s) as [s1 r].
  destruct Hr as (Hso & _). cbn [fst]. by rewrite Hso.
Qed.

Create HintDb leaves_rx.
#[export] Hint Resolve leaves_rx_bind leaves_rx_lift leaves_rx_gets leaves_rx_ret leaves_rx_fail leaves_rx_cipher leaves_rx_reserve : leaves_rx.

Section Replay.
Context {A : Aead} {H : Hmac}.

Lemma leaves_rx_encryptor e d g b : leaves_rx (get_or_create_encryptor e d g b).
Proof. intros s. pose proof (encryptor_rx e d g b s) as (? & ? & ? & _). by split_and!. Qed.
#[local] Hint Resolve leaves_rx_encryptor : leaves_rx.

Lemma leaves_rx_encrypt d p now : leaves_rx (encrypt_payload d p now).
Proof.
  unfold encrypt_payload. apply leaves_rx_bind; [auto with leaves_rx|]. intros [|]; cbn [negb]; [|auto with leaves_rx].
  apply leaves_rx_bind; [auto with leaves_rx|]. intros [e seq]. auto 6 with leaves_rx.
Qed.

Lemma leaves_rx_encrypt_all c e start ps : forall n, leaves_rx (encrypt_all c e start n ps).
Proof. induction ps as [|p ps IH]; intros n; cbn [encrypt_all]; auto 8 with leaves_rx. Qed.
#[local] Hint Resolve leaves_rx_encrypt_all : leaves_rx.

Lemma leaves_rx_encrypt_batch d ps now : leaves_rx (encrypt_payload_batch d ps now).
Proof.
  unfold encrypt_payload_batch. apply leaves_rx_bind; [auto with leaves_rx|]. intros [|]; cbn [negb]; [|auto with leaves_rx].
  case_bool_decide as Hps; [auto with leaves_rx|]. assert (len ps <> 0) by (destruct ps; [done|unfold len; cbn; lia]).
  apply leaves_rx_bind; [auto with leaves_rx|]. intros [e seq]. auto with leaves_rx.
Qed.

(** ** The packets a run accepts *)
Definition use_of (s : t) (d : Direction) (x : Z * Z) : nonce_use := mk_use (root_key s) d x.1 x.2.

Definition accepted (s : t) (ev : event) : list nonce_use :=
  match ev with
  | Decrypt d p now =>
      match (decrypt_payload d p now s).2, classify p with
      | Ok _, Ok (e, seq, _) => [use_of s d (e, seq)]
      | _, _ => []
      end
  | DecryptBatch d ps now =>
      match (decrypt_payload_batch d ps now s).2 with
      | Ok rs => map (use_of s d) (batch_accepts ps rs)
      | _ => []
      end
  | _ => []
  end.
Fixpoint accepted_of_run (s : t) (evs : list event) : list nonce_use :=
  match evs with [] => [] | ev :: evs => accepted s ev ++ accepted_of_run (step s ev) evs end.

(** packets are bytes, and a synchronisation brings a root key that was not used before *)
Fixpoint rekeys (old : list (list Z)) (s : t) (evs : list event) : Prop :=
  match evs with
  | [] => True
  | ev :: evs =>
      match ev with
      | Decrypt _ p _ => bytes_ok (ZCPacket.inner p) /\ rekeys old (step s ev) evs
      | DecryptBatch _ ps _ => Forall (fun p => bytes_ok (ZCPacket.inner p)) ps /\ rekeys old (step s ev) evs
      | Sync root _ _ _ _ => root ∉ root_key s :: old /\ rekeys (root_key s :: old) (step s ev) evs
      | _ => rekeys old (step s ev) evs
      end
  end.

(** the accepted nonces [us], the earlier keys, and what the windows of each direction know of them *)
Record rx_inv (us : list nonce_use) (old : list (list Z)) (s : t) : Prop := {
  ri_nodup : NoDup us;
  ri_graceless : graceless s;
  ri_old : forall u, u ∈ us -> u_key u ∈ root_key s :: old;
  ri_rx : forall d, exists h, rx_refines (get d (rx_slots s)) h /\ NoDup h /\ forall x, x ∈ h <-> use_of s d x ∈ us;
}.

Lemma rx_inv_same us old s s' : rx_inv us old s -> root_key s' = root_key s -> rx_same s s' -> rx_inv us old s'.
Proof.
  intros [H1 [H2 H3] H4 H5] E1 (E2 & E3 & E4). split; [done| |by rewrite E1|].
  - unfold graceless. by rewrite E3, E4.
  - intros d. destruct (H5 d) as (h & ?). exists h. unfold use_of in *. by rewrite E1, E2.
Qed.

(** a direction that accepts [new] *)
Lemma rx_inv_accept us old s s' d new : rx_inv us old s -> root_key s' = root_key s -> graceless s' ->
  (forall d', d' <> d -> get d' (rx_slots s') = get d' (rx_slots s)) ->
  (forall h, rx_refines (get d (rx_slots s)) h -> NoDup h ->
    exists h', rx_refines (get d (rx_slots s')) h' /\ NoDup h' /\ h' ≡ₚ new ++ h) ->
  rx_inv (us ++ map (use_of s d) new) old s'.
Proof.
  intros [H1 H2 H4 H5] E1 Hg Ho Hn. destruct (H5 d) as (h & R1 & R2 & R3). destruct (Hn h R1 R2) as (h' & N1 & N2 & N3).
  assert (forall x d', use_of s d' x ∈ map (use_of s d) new <-> d' = d /\ x ∈ new) as Hmap.
  { intros x d'. rewrite list_elem_of_fmap. split; [|intros [-> ?]; by exists x]. intros ([e q] & [= -> E2 E3] & ?). destruct x. cbn in *. by subst. }
  split; [| done | |].
  - apply NoDup_app. rewrite N3 in N2. apply NoDup_app in N2 as (M1 & M2 & M3). split; [done|]. split.
    + intros u Hu (x & -> & Hx)%list_elem_of_fmap. apply (M2 x Hx). by apply R3.
    + apply NoDup_fmap_2_strong; [|done]. intros [? ?] [? ?] _ _ [= -> ->]. done.
  - rewrite E1. intros u [Hu|(x & -> & _)%list_elem_of_fmap]%elem_of_app; [by apply H4|by left].
  - intros d'. unfold use_of. rewrite E1. change (mk_use (root_key s) d') with (fun e q => use_of s d' (e, q)).
    destruct (decide (d' = d)) as [->|Hd].
    + exists h'. split_and!; [done..|]. intros x. rewrite N3, !elem_of_app, R3, Hmap. destruct x. intuition.
    + destruct (H5 d') as (h2 & Q1 & Q2 & Q3). exists h2. rewrite Ho by done. split_and!; [done..|].
      intros x. rewrite elem_of_app, Q3, Hmap. destruct x. intuition.
Qed.

Lemma commits_accept s s' d now x ok : 0 <= x.2 -> commits s d now x s' ok ->
  (forall d', d' <> d -> get d' (rx_slots s') = get d' (rx_slots s)) /\
  (forall h, rx_refines (get d (rx_slots s)) h -> NoDup h ->
    exists h', rx_refines (get d (rx_slots s')) h' /\ NoDup h' /\ h' ≡ₚ (if ok then [x] else []) ++ h).
Proof.
  destruct x as [e seq]. cbn [snd]. intros Hs [-> ->]. split; [intros; by apply get_set_other|].
  intros h Hr Hn. rewrite get_set_same. cbn [fst snd]. pose proof (commit_rx_refines _ _ (send_epoch s) e seq now Hr Hs) as Hc.
  destruct (commit_rx _ _ _ _ _) as [p [|]]; cbn [fst snd] in *; [|by exists h].
  destruct Hc. exists ((e, seq) :: h). split_and!; [done|by constructor|done].
Qed.

Lemma decrypt_inv us old s d p now : rx_inv us old s -> bytes_ok (ZCPacket.inner p) ->
  rx_inv (us ++ accepted s (Decrypt d p now)) old (step s (Decrypt d p now)).
Proof.
  intros Hi Hb. pose proof (decrypt_rx s d p now (ri_graceless _ _ _ Hi)) as Hr. destruct (keeps_decrypt d p now s) as (E1 & _).
  cbn [accepted step]. destruct (decrypt_payload d p now s) as [s' r]. cbn [fst snd] in *. destruct Hr as [Hg Hr].
  assert (forall e seq aad ok, classify p = Ok (e, seq, aad) -> commits s d now (e, seq) s' ok ->
    rx_inv (us ++ map (use_of s d) (if ok then [(e, seq)] else [])) old s') as Hc.
  { intros e seq aad ok Hcl Hco. apply classify_range in Hcl as [_ Hq]; [|done].
    destruct (commits_accept s s' d now (e, seq) ok) as [K1 K2]; [cbn; unfold is_u in Hq; lia|done|]. by apply rx_inv_accept. }
  assert (rx_slots s' = rx_slots s \/ (exists e seq aad, classify p = Ok (e, seq, aad) /\ commits s d now (e, seq) s' false) ->
    rx_inv (us ++ []) old s') as Hno.
  { intros [Hs|(e & seq & aad & Hcl & Hco)]; [|by apply (Hc _ _ _ _ Hcl Hco)].
    apply (rx_inv_accept us old s s' d []); [done..|by rewrite Hs|]. intros h. rewrite Hs. by exists h. }
  destruct r; [|by apply Hno..]. destruct Hr as (e & seq & aad & Hcl & Hco). rewrite Hcl. by apply (Hc _ _ _ true Hcl).
Qed.

Lemma decrypt_batch_inv us old s d ps now : rx_inv us old s -> Forall (fun p => bytes_ok (ZCPacket.inner p)) ps ->
  rx_inv (us ++ accepted s (DecryptBatch d ps now)) old (step s (DecryptBatch d ps now)).
Proof.
  intros Hi Hb. pose proof (decrypt_batch_rx s d ps now (ri_graceless _ _ _ Hi) Hb) as Hr.
  destruct (keeps_decrypt_batch d ps now s) as (E1 & _). cbn [accepted step].
  destruct (decrypt_payload_batch d ps now s) as [s' r]. cbn [fst snd] in *. destruct Hr as (Hg & Ho & Hr).
  destruct r; [by apply rx_inv_accept|..].
  all: apply (rx_inv_accept us old s s' d []); [done..|]; intros h; rewrite Hr; by exists h.
Qed.

Lemma rekey_inv us old s root gen e pres now : rx_inv us old s -> root ∉ root_key s :: old ->
  rx_inv us (root_key s :: old) (step s (Sync root gen e pres now)).
Proof.
  intros [H1 H2 H3 H4] Hf. cbn [step]. unfold sync_root_key.
  rewrite (bool_decide_eq_false_2 (root_key s = root)) by (intros Hk; apply Hf; rewrite Hk; by left). rewrite andb_false_r.
  split; cbn; [done|done| |].
  - intros u Hu. right. by apply H3.
  - intros d. exists []. split; [destruct d; cbn; done|]. split; [constructor|]. intros x. split; [by intros ?%elem_of_nil|].
    intros Hu%H3. cbn in Hu. by destruct Hf.
Qed.

Lemma run_accepted evs : forall us old s, rx_inv us old s -> rekeys old s evs -> NoDup (us ++ accepted_of_run s evs).
Proof.
  induction evs as [|ev evs IH]; intros us old s Hi Hf.
  { cbn. rewrite app_nil_r. by destruct Hi. }
  cbn [accepted_of_run]. rewrite app_assoc.
  destruct ev as [d p now|d ps now|d p now|d ps now|root gen e pres now|]; cbn [rekeys] in Hf.
  - rewrite app_nil_r. apply (IH _ old); [|done]. destruct (encrypt_step s d p now) as [E1 _]. apply (rx_inv_same _ _ s); [done|done|apply leaves_rx_encrypt].
  - rewrite app_nil_r. apply (IH _ old); [|done]. destruct (encrypt_batch_step s d ps now) as [E1 _]. apply (rx_inv_same _ _ s); [done|done|apply leaves_rx_encrypt_batch].
  - destruct Hf. apply (IH _ old); [by apply decrypt_inv|done].
  - destruct Hf. apply (IH _ old); [by apply decrypt_batch_inv|done].
  - rewrite app_nil_r. destruct Hf. apply (IH _ (root_key s :: old)); [by apply rekey_inv|done].
  - rewrite app_nil_r. apply (IH _ old); [|done]. by apply (rx_inv_same _ _ s).
Qed.

(** C2: In any run of a session in which every synchronisation brings a new root key, single packets
    and batches, epoch changes of the peer, reordering and forged packets included, no nonce is
    accepted twice for one root key, direction and epoch. *)
Theorem datagram_never_accepts_twice root gen epoch0 sa ra t0 evs :
  rekeys [] (new root gen epoch0 sa ra t0) evs ->
  NoDup (accepted_of_run (new root gen epoch0 sa ra t0) evs).
Proof.
  intros Hf. apply (run_accepted evs [] [] (new root gen epoch0 sa ra t0)); [|done]. split; [constructor|done| |].
  - intros u Hu. by apply elem_of_nil in Hu.
  - intros d. exists []. split; [by destruct d|]. split; [constructor|]. intros x. by rewrite !elem_of_nil.
Qed.

(** ** A synchronisation that keeps the root key *)
(** the newest epoch a session has seen, its own or the peer's *)
Definition newest_epoch (s : t) : Z :=
  let step d m := max_slot_epoch (max_slot_epoch m (get d (rx_slots s)).1) (get d (rx_slots s)).2 in
  step BToA (step AToB (send_epoch s)).

Lemma newest_epoch_slots s d : (valid (get d (rx_slots s)).1 = true -> epoch (get d (rx_slots s)).1 <= newest_epoch s) /\
  (valid (get d (rx_slots s)).2 = true -> epoch (get d (rx_slots s)).2 <= newest_epoch s) /\ send_epoch s <= newest_epoch s.
Proof.
  unfold newest_epoch, max_slot_epoch. destruct d; repeat case_match; split_and!; intros; try done; lia.
Qed.

Lemma commit_rx_slot p se e seq now : (commit_rx p se e seq now).2 = true ->
  let p' := (commit_rx p se e seq now).1 in
  valid p'.1 = true /\ (epoch p'.1 = e \/ valid p'.2 = true /\ epoch p'.2 = e).
Proof.
  destruct p as [cur prev]. unfold commit_rx. destruct (valid cur) eqn:Ev; cbn [negb andb].
  - destruct (e =? epoch cur) eqn:E1; bool_to_Z.
    { unfold slot_accept. destruct (RW.accept _ _) as [w ok]. cbn. intros _. split; [done|by left]. }
    destruct (valid prev && (e =? epoch prev)) eqn:E2; bool_to_Z.
    { unfold slot_accept. destruct (RW.accept _ _) as [w ok]. cbn. intros _. split; [done|by right]. }
    destruct (epoch cur <? e); [|done]. destruct (max_ahead _ <? e); [done|].
    unfold slot_accept. destruct (RW.accept _ _) as [w ok]. cbn. intros _. split; [done|by left].
  - destruct (max_ahead se <? e); [done|]. cbn [fresh_slot epoch]. rewrite Z.eqb_refl.
    unfold slot_accept. destruct (RW.accept _ _) as [w ok]. cbn. intros _. split; [done|by left].
Qed.

Lemma keep_epoch_beyond e p : (valid p.1 = true -> epoch p.1 < e) -> (valid p.2 = true -> epoch p.2 < e) ->
  keep_epoch e p = ((default_rx_slot, default_rx_slot), p).
Proof.
  intros H1 H2. unfold keep_epoch. destruct (valid p.1), (valid p.2); cbn [andb];
    repeat (match goal with |- context [?x =? e] => rewrite (proj2 (Z.eqb_neq x e)) by (specialize (H1 eq_refl) || specialize (H2 eq_refl); lia) end); done.
Qed.

Lemma sync_clears_windows s gen now : is_u 32 (send_epoch s) -> newest_epoch s < u_max 32 ->
  let s' := sync_root_key s (root_key s) gen (next_sync_epoch s) true now in
  rx_slots s' = default_slots /\ send_epoch s' = newest_epoch s + 1 /\ root_key s' = root_key s /\
  recv_cipher_algorithm s' = recv_cipher_algorithm s /\ is_valid s' = is_valid s /\ cache_ok s' /\
  sync_rx_grace_expires_at_ms s' = saturating_add 64 now SYNC_RX_GRACE_AFTER_MS.
Proof.
  intros Hu Hn. pose proof (newest_epoch_slots s AToB) as (A1 & A2 & A3). pose proof (newest_epoch_slots s BToA) as (B1 & B2 & _).
  assert (next_sync_epoch s = newest_epoch s + 1) as ->.
  { unfold next_sync_epoch. change (wrap 32 (newest_epoch s + 1) = newest_epoch s + 1). apply wrap_small. unfold is_u, u_max in *. lia. }
  unfold sync_root_key. rewrite bool_decide_eq_true_2 by done. cbn [andb].
  rewrite !keep_epoch_beyond; cbn [get] in *; try (intros Hv; (specialize (A1 Hv) || specialize (A2 Hv) || specialize (B1 Hv) || specialize (B2 Hv)); lia).
  split_and!; try done. by apply default_cache_ok.
Qed.

Lemma expired_grace s now : 0 < sync_rx_grace_expires_at_ms s <= now ->
  usable_grace s now = (with_grace s (sync_rx_grace s) 0, None).
Proof.
  intros He. unfold usable_grace, sync_rx_grace_active. rewrite (proj2 (Z.eqb_neq _ 0)), (proj2 (Z.ltb_ge _ _)) by lia. done.
Qed.

(** a packet that a session without a pending grace opened, and the epochs it knows afterwards *)
Lemma opened_epoch s d p q now s1 : cache_ok s -> graceless s -> decrypt_payload d p now s = (s1, Ok q) ->
  exists e seq aad, classify p = Ok (e, seq, aad) /\ Cipher.decrypt_with_aad (cipher_for s false e d) p aad = Ok q /\
    is_valid s1 = true /\ frame s s1 /\ e <= newest_epoch s1.
Proof.
  intros Hc Hg Hd. assert (is_valid s = true) as Hv.
  { destruct (is_valid s) eqn:E; [done|]. unfold decrypt_payload in Hd. cbv [mbind M_bind gets fail] in Hd. rewrite E in Hd. done. }
  pose proof (decrypt_rx s d p now Hg) as Hr. pose proof (decrypt_payload_spec s d p now Hc Hv) as Hs. pose proof (keeps_decrypt d p now s) as Hf.
  rewrite Hd in Hr, Hs, Hf. destruct Hr as (_ & e & seq & aad & Hcl & Hrx & Hok). rewrite Hcl in Hs. exists e, seq, aad. split; [done|].
  destruct (precheck_replay_state _ _ _ _ _ _); [|done]. cbn [fst] in Hf.
  destruct (Cipher.decrypt_with_aad _ _ _) as [q'|?|]; [|by destruct Hs as (? & [=] & _)|done].
  destruct Hs as (s' & [= -> ->] & _). split; [done|]. split; [unfold is_valid in *; by replace (invalidated s') with (invalidated s) by (symmetry; apply Hf)|].
  split; [done|]. symmetry in Hok. apply commit_rx_slot in Hok as [V1 V2]. cbn [fst snd] in *.
  destruct (newest_epoch_slots s' d) as (N1 & N2 & _). rewrite Hrx, get_set_same in N1, N2.
  destruct V2 as [<-|[V2 <-]]; [by apply N1|by apply N2].
Qed.

(** C34: A synchronisation that keeps the root key, the one that [prepare_sync_transition] and
    [commit_reserved_sync] perform, forgets the replay windows once its grace period is over: until the
    peer sends a packet of the new epoch, a packet that was opened before the synchronisation is opened
    a second time. *)
Theorem sync_reopens_replay s d p q now1 s1 now2 now3 :
  wf s -> graceless s -> decrypt_payload d p now1 s = (s1, Ok q) ->
  newest_epoch s1 < u_max 32 -> 0 <= now2 -> saturating_add 64 now2 SYNC_RX_GRACE_AFTER_MS <= now3 ->
  let s2 := sync_root_key s1 (root_key s1) (session_generation s1) (next_sync_epoch s1) true now2 in
  exists s3, decrypt_payload d p now3 s2 = (s3, Ok q).
Proof.
  intros [_ Hu _ _ Hc _ _] Hg Hd Hn H0 Hnow s2. destruct (opened_epoch s d p q now1 s1 Hc Hg Hd) as (e & seq & aad & Hcl & Hop & Hv & Hf & He).
  assert (send_epoch s1 = send_epoch s) as Hse by apply Hf.
  destruct (sync_clears_windows s1 (session_generation s1) now2) as (W1 & W2 & W3 & W4 & W5 & W6 & W7); [by rewrite Hse|done|]. fold s2 in W1, W2, W3, W4, W5, W6, W7.
  pose proof (decrypt_payload_spec s2 d p now3 W6) as Hs. rewrite W5, Hcl in Hs. specialize (Hs Hv).
  assert (0 < saturating_add 64 now2 SYNC_RX_GRACE_AFTER_MS) as Hpos by (unfold saturating_add, u_max, SYNC_RX_GRACE_AFTER_MS; lia).
  rewrite expired_grace in Hs by lia. cbn [snd] in Hs. unfold precheck_replay_state in Hs. cbn [precheck_grace] in Hs. rewrite W1 in Hs.
  replace (get d default_slots) with (default_rx_slot, default_rx_slot) in Hs by (by destruct d). cbn [valid default_rx_slot negb] in Hs.
  rewrite W2, (proj2 (Z.leb_le _ _)) in Hs by (unfold max_ahead, saturating_add, u_max, MAX_ACCEPTED_RX_EPOCH_AHEAD in *; lia).
  replace (cipher_for s2 false e d) with (cipher_for s false e d) in Hs.
  2: { unfold cipher_for. rewrite W3, W4. f_equal; symmetry; apply Hf. }
  rewrite Hop in Hs. destruct Hs as (s3 & Hs & _). by exists s3.
Qed.
End Replay.

(** ** Examples *)
#[local] Existing Instances Cipher.sum_aead Cipher.sum_aead_laws sum_hmac.

Definition sealed_packet : ZCPacket.t :=
  match (encrypt_payload AToB plain_packet 1000 demo_session).2 with Ok q => q | _ => plain_packet end.
Definition demo_events : list event :=
  [Decrypt AToB sealed_packet 1001; Decrypt AToB sealed_packet 1002; DecryptBatch AToB [sealed_packet] 1003;
   Sync (replicate 32 6) 2 1 false 1004; Decrypt AToB sealed_packet 1005].

Lemma datagram_never_accepts_twice_witness :
  accepted_of_run demo_session demo_events = [mk_use (replicate 32 5) AToB 7 0] /\ NoDup (accepted_of_run demo_session demo_events).
Proof.
  split; [reflexivity|]. apply (datagram_never_accepts_twice (replicate 32 5) 1 7 aes aes 1000 demo_events).
  assert (bytes_ok (ZCPacket.inner sealed_packet)) as Hb by (apply (bool_decide_unpack _); vm_compute; exact I).
  cbn [rekeys demo_events]. split_and!; try exact Hb; [by constructor| |exact I].
  apply (bool_decide_unpack _). vm_compute. exact I.
Defined.

Lemma sync_reopens_replay_witness :
  let s1 := (decrypt_payload AToB sealed_packet 1001 demo_session).1 in
  let s2 := sync_root_key s1 (root_key s1) (session_generation s1) (next_sync_epoch s1) true 2000 in
  next_sync_epoch s1 = 8 /\ exists s3, decrypt_payload AToB sealed_packet 7000 s2 = (s3, Ok plain_packet).
Proof.
  split; [reflexivity|]. apply (sync_reopens_replay demo_session AToB sealed_packet plain_packet 1001 _ 2000 7000).
  - apply wf_new; [|done]. apply (bool_decide_unpack _). done.
  - done.
  - reflexivity.
  - reflexivity.
  - done.
  - vm_compute. intros [=].
Defined.
End DatagramReplay.
