(* ===== verification/DatagramThreads.v ===== *)
(** * Concurrent calls of a secure datagram session

    The calls of src/lowertier/src/peers/secure_datagram.rs as several threads make them at once.  Encryption and decryption
    hold [state_transition] shared, so they interleave; only [sync_root_key] holds it alone.  Here every call is a program of
    atomic actions (an atomic variable, or the section of one lock), which any schedule may interleave.  Run without
    interruption a program is the call of SecureDatagram.

    A loop around a compare-and-exchange acts once, when it succeeds: its other rounds only read.  The rotation lock is left
    out, which only allows more interleavings, as does reading the sending epoch before the lock of the replay slots
    is taken.  Memory is sequentially consistent. *)
From stdpp Require Import base list gmap sorting.
From Stdlib Require Import ZArith Lia.
From S2P Require Import Prelude ReplayWindow PacketHeader Packet PacketProps Cipher SecureDatagram SecureDatagramProps DatagramWf DatagramReplay.
Import SecureDatagram SecureDatagramProps.
Local Open Scope Z_scope.

Module DatagramThreads.
Import DatagramReplay.

(** ** Programs *)
(** what a thread has done: it owns a range of nonces, or a packet with this nonce was accepted *)
Inductive note : Type := Reserved (d : Direction) (e start n : Z) | Accepted (d : Direction) (e seq : Z).
Inductive prog (X : Type) : Type :=
| Ret (o : outcome Error X)
| Act (Y : Type) (m : M Y) (notes : Y -> list note) (k : Y -> prog X).
Arguments Ret {X} o.
Arguments Act {X} Y m notes k.

#[export] Instance prog_ret : MRet prog := fun X x => Ret (Ok x).
#[export] Instance prog_bind : MBind prog := fun X Z f => fix go p :=
  match p with
  | Ret (Ok x) => f x
  | Ret (Err e) => Ret (Err e)
  | Ret Panic => Ret Panic
  | Act Y m notes k => Act Y m notes (fun y => go (k y))
  end.


(** ** Sending *)
Definition count_packets (n : Z) : M Z := fun s =>
  let packets := saturating_add 64 (send_packets_since_epoch s) n in (with_send s (send_epoch s) (send_seq s) (send_epoch_started_ms s) packets, Ok packets).


Section Calls.
Context {A : Aead} {H : Hmac}.


Definition snapshot_grace (now : Z) : M SyncRxGrace := fun s =>
  let grace := sync_rx_grace s in
  if g_valid grace then let grace := maybe_expire grace now in (if g_valid grace then s else with_grace s (sync_rx_grace s) 0, Ok grace)
  else (s, Ok grace).


(** ** Threads *)
Definition sealed_by (root : list Z) (n : note) : list nonce_use := match n with Reserved d e start n => map (fun i => mk_use root d e (start + i)) (seqZ 0 n) | Accepted _ _ _ => [] end.
Definition opened_by (root : list Z) (n : note) : list nonce_use := match n with Accepted d e seq => [mk_use root d e seq] | Reserved _ _ _ _ => [] end.
(** the session, the calls that are running, and the nonces that were reserved and accepted so far *)
Record machine : Type := mk_machine { session : t; calls : gmap nat (prog unit); sealed : list nonce_use; opened : list nonce_use }.
Definition go (i : nat) (x : machine) : machine :=
  match calls x !! i with
  | Some (Act _ m notes k) =>
      match m (session x) with
      | (s, Ok y) => mk_machine s (<[i := k y]> (calls x)) (sealed x ++ concat (sealed_by (root_key (session x)) <$> notes y)) (opened x ++ concat (opened_by (root_key (session x)) <$> notes y))
      | (s, _) => mk_machine s (delete i (calls x)) (sealed x) (opened x)
      end
  | Some (Ret _) => mk_machine (session x) (delete i (calls x)) (sealed x) (opened x)
  | None => x
  end.

(** an action that leaves keys, sequence numbers and windows *)
Definition quiet {Y} (m : M Y) : Prop := forall s, graceless s -> let s' := (m s).1 in root_key s' = root_key s /\ send_seq s' = send_seq s /\ rx_same s s'.
Lemma quiet_gets {Y} (f : t -> Y) : quiet (gets f).
Proof. done. Qed.
Lemma quiet_count n : quiet (count_packets n).
Proof. done. Qed.
Lemma quiet_encryptor e d g b : quiet (get_or_create_encryptor e d g b).
Proof. intros s _. destruct (keeps_encryptor e d g b s) as (E1 & _ & _ & E2 & _). split_and!; [done|done|]. apply leaves_rx_encryptor. Qed.
Lemma quiet_precheck e seq d now : quiet (precheck_replay e seq d now).
Proof. intros s [G _]. unfold precheck_replay. by rewrite no_grace. Qed.
Lemma quiet_snapshot now : quiet (snapshot_grace now).
Proof. intros s [_ G]. unfold snapshot_grace. by rewrite G. Qed.

#[local] Hint Resolve quiet_gets quiet_count quiet_encryptor quiet_precheck quiet_snapshot : quiet.


End Calls.

(** ** Examples *)
#[local] Existing Instances Cipher.sum_aead Cipher.sum_aead_laws sum_hmac.
End DatagramThreads.
