(* ===== verification/DatagramBatch.v ===== *)
(** * Batches of secure datagrams

    [decrypt_payload_batch] (src/lowertier/src/peers/secure_datagram.rs) finds nonces used twice with
    an open-addressing table of 128 slots, checks the packets against one snapshot of the replay
    state, opens them and commits them in the order of their nonces.  For the batches of at most 64
    packets that the callers pass, it gives each packet the verdict of the specification below. *)
From stdpp Require Import base list gmap numbers sorting.
From Stdlib Require Import ZArith Lia.
From S2P Require Import Prelude PacketHeader Packet PacketProps ReplayWindow NetAddr Cipher SecureDatagram SecureDatagramProps DatagramWf DatagramReplay.

Local Open Scope Z_scope.

Module DatagramBatch.
Import SecureDatagram SecureDatagramProps DatagramWf.

(** ** The table of nonces *)
Section Table.
Local Open Scope nat_scope.

(** the [j]-th slot that is looked at from [h] on *)
Definition at_slot (h j : nat) : nat := (h + j) mod table_size.

Lemma at_slot_lt h j : at_slot h j < table_size.
Proof. apply Nat.mod_upper_bound. done. Qed.
Lemma land_mask z : (0 <= z)%Z -> Z.to_nat (Z.land z 127) = Z.to_nat z mod table_size.
Proof. intros Hz. change 127%Z with (Z.ones 7). rewrite Z.land_ones, Z2Nat.inj_mod by (done || lia). done. Qed.
Lemma next_slot_at h j : next_slot (at_slot h j) = at_slot h (S j).
Proof.
  unfold next_slot. rewrite land_mask by lia. unfold at_slot. replace (Z.to_nat (Z.of_nat ((h + j) mod table_size) + 1)) with ((h + j) mod table_size + 1) by lia.
  rewrite Nat.Div0.add_mod_idemp_l. f_equal. lia.
Qed.
Lemma hash_slot_lt e seq : hash_slot e seq < table_size.
Proof.
  unfold hash_slot. change 127%Z with (Z.ones 7). rewrite Z.land_ones by lia.
  match goal with |- context [(?z mod 2 ^ 7)%Z] => pose proof (Z.mod_pos_bound z (2 ^ 7) ltac:(lia)) end. unfold table_size. lia.
Qed.
Lemma at_slot_0 h : h < table_size -> at_slot h 0 = h.
Proof. intros Hh. unfold at_slot. rewrite Nat.add_0_r. by apply Nat.mod_small. Qed.
Lemma at_slot_onto h k : h < table_size -> k < table_size -> exists j, j < table_size /\ at_slot h j = k.
Proof.
  intros Hh Hk. exists ((k + table_size - h) mod table_size). split; [by apply Nat.mod_upper_bound|].
  unfold at_slot. rewrite Nat.Div0.add_mod_idemp_r. replace (h + (k + table_size - h)) with (k + 1 * table_size) by lia.
  rewrite Nat.Div0.mod_add. by apply Nat.mod_small.
Qed.

(** slot [k] holds another nonce than [n] *)
Definition other (table : list (option (Z * Z * nat))) (n : Z * Z) (k : nat) : Prop :=
  exists m f, table !! k = Some (Some (m, f)) /\ m <> n.

Lemma probe_spec table n h : length table = table_size -> forall fuel j, j + fuel = table_size ->
  (forall i, i < j -> other table n (at_slot h i)) ->
  match probe fuel table n (at_slot h j) with
  | Some (k, Some f) => table !! k = Some (Some (n, f))
  | Some (k, None) => table !! k = Some None /\ exists i, k = at_slot h i /\ forall i', i' < i -> other table n (at_slot h i')
  | None => forall i, i < table_size -> other table n (at_slot h i)
  end.
Proof.
  intros Hl. induction fuel as [|fuel IH]; intros j Hj Ho; cbn [probe]; [rewrite Nat.add_0_r in Hj; by subst j|].
  destruct (lookup_lt_is_Some_2 table (at_slot h j)) as [[[m f]|] Hk]; [rewrite Hl; apply at_slot_lt|..]; rewrite Hk; [|split; [done|]; eauto].
  case_bool_decide as Hm; [by subst m|]. rewrite next_slot_at. apply IH; [lia|].
  intros i Hi. destruct (decide (i = j)) as [->|]; [by exists m, f|]. apply Ho. lia.
Qed.

(** the number of slots in use *)
Definition used (table : list (option (Z * Z * nat))) : nat := length (filter (fun x => is_Some x) table).

Lemma used_insert table k x : table !! k = Some None -> used (<[k := Some x]> table) = S (used table).
Proof.
  intros (l1 & l2 & -> & ->)%list_elem_of_split_length. unfold used. rewrite insert_app_r_alt, Nat.sub_diag by done. cbn [insert list_insert].
  rewrite !filter_app, !length_app, filter_cons_True, filter_cons_False by (done || by intros [? ?]). cbn. lia.
Qed.
Lemma used_all table : (forall k, k < length table -> exists x, table !! k = Some (Some x)) -> used table = length table.
Proof.
  intros Ha. unfold used. f_equal. induction table as [|o table IH]; [done|].
  destruct (Ha 0 ltac:(cbn; lia)) as [x [= ->]]. rewrite filter_cons_True by done. f_equal. apply IH.
  intros k Hk. apply (Ha (S k)). cbn. lia.
Qed.

(** the nonces of [seen] are in the table, each with one of its positions *)
Record table_ok (seen : list (option (Z * Z))) (table : list (option (Z * Z * nat))) : Prop := {
  to_length : length table = table_size;
  to_used : used table <= length seen;
  to_chain : forall k n f, table !! k = Some (Some (n, f)) -> seen !! f = Some (Some n) /\
    exists i, k = at_slot (hash_slot n.1 n.2) i /\ forall i', i' < i -> other table n (at_slot (hash_slot n.1 n.2) i');
  to_all : forall n, Some n ∈ seen -> exists k f, table !! k = Some (Some (n, f));
}.

Lemma table_ok_probe seen table n : table_ok seen table -> length seen < table_size ->
  match probe table_size table n (hash_slot n.1 n.2) with
  | Some (k, Some f) => seen !! f = Some (Some n)
  | Some (k, None) => Some n ∉ seen /\ table_ok (seen ++ [Some n]) (<[k := Some (n, length seen)]> table)
  | None => False
  end.
Proof.
  intros [Hl Hu Hc Ha] Hlen. set (h := hash_slot n.1 n.2). assert (h < table_size) as Hh by apply hash_slot_lt.
  pose proof (probe_spec table n h Hl table_size 0 ltac:(lia) ltac:(lia)) as Hp. rewrite at_slot_0 in Hp by done.
  destruct (probe table_size table n h) as [[k [f|]]|].
  - by apply Hc in Hp as [? _].
  - destruct Hp as (Hk & i & Hi & Hbef). assert (forall k' f, table !! k' = Some (Some (n, f)) -> False) as Hnone.
    { intros k' f Hk'. destruct (Hc _ _ _ Hk') as (_ & j & -> & Hj). fold h in Hj, Hk'. destruct (decide (j < i)).
      - destruct (Hbef j ltac:(done)) as (m & f' & Hm & Hne). congruence.
      - destruct (decide (i = j)) as [->|]; [congruence|]. destruct (Hj i ltac:(lia)) as (m & f' & Hm & _). congruence. }
    split; [intros Hin; destruct (Ha n Hin) as (k' & f & ?); eauto|].
    assert (forall m k', other table m k' -> other (<[k := Some (n, length seen)]> table) m k') as Hkeep.
    { intros m k' (m' & f & Hm & ?). exists m', f. rewrite list_lookup_insert_ne by congruence. done. }
    split; [by rewrite length_insert|rewrite used_insert, length_app by done; cbn; lia| |].
    + intros k' m f. destruct (decide (k = k')) as [<-|Hne].
      * rewrite list_lookup_insert_eq by (by eapply lookup_lt_Some). intros [= <- <-].
        split; [by rewrite lookup_app_r, Nat.sub_diag by done|]. exists i. split; [done|]. auto.
      * rewrite list_lookup_insert_ne by done. intros Hm. destruct (Hc _ _ _ Hm) as (Hs & j & -> & Hj).
        split; [by apply lookup_app_l_Some|]. exists j. split; [done|]. auto.
    + intros m [Hm|Hm]%elem_of_app.
      * destruct (Ha m Hm) as (k' & f & Hk'). exists k', f. rewrite list_lookup_insert_ne by congruence. done.
      * apply list_elem_of_singleton in Hm as [= ->]. exists k, (length seen). by rewrite list_lookup_insert_eq by (by eapply lookup_lt_Some).
  - assert (used table = table_size) as Hall; [|lia]. rewrite <- Hl. apply used_all. intros k Hk. rewrite Hl in Hk.
    destruct (at_slot_onto h k Hh Hk) as (j & Hj & <-). destruct (Hp j Hj) as (m & f & Hm & _). eauto.
Qed.
End Table.

(** ** The flags of a batch *)
Definition nonce_of (p : ZCPacket.t) : option (Z * Z) :=
  match classify p with Ok (e, seq, _) => Some (e, seq) | _ => None end.
Definition count (n : Z * Z) (seen : list (option (Z * Z))) : nat := length (filter (fun o => o = Some n) seen).
Definition repeated (seen : list (option (Z * Z))) (o : option (Z * Z)) : bool :=
  match o with Some n => bool_decide (2 <= count n seen)%nat | None => false end.

Section Flags.
Local Open Scope nat_scope.

Definition flags (seen : list (option (Z * Z))) : list bool := map (repeated seen) seen ++ replicate (64 - length seen) false.

Lemma count_app n l k : count n (l ++ k) = count n l + count n k.
Proof. unfold count. by rewrite filter_app, length_app. Qed.
Lemma count_pos n l : 1 <= count n l <-> Some n ∈ l.
Proof.
  unfold count. split.
  - intros Hc. destruct (filter _ l) as [|o k] eqn:E; [cbn in Hc; lia|].
    assert (o ∈ filter (fun o => o = Some n) l) as [-> ?]%list_elem_of_filter by (rewrite E; by left). done.
  - intros Hi. assert (Some n ∈ filter (fun o => o = Some n) l) as Hf by (by apply list_elem_of_filter).
    destruct (filter _ l); [by apply elem_of_nil in Hf|cbn; lia].
Qed.
Lemma count_one n o : count n [o] = if decide (o = Some n) then 1 else 0.
Proof. unfold count. case_decide; [by rewrite filter_cons_True|by rewrite filter_cons_False]. Qed.

Lemma flags_lookup seen i : length seen <= 64 -> flags seen !! i =
  match seen !! i with Some o => Some (repeated seen o) | None => if decide (i < 64) then Some false else None end.
Proof.
  intros Hl. unfold flags. destruct (seen !! i) as [o|] eqn:E.
  - rewrite lookup_app_l by (rewrite length_map; by eapply lookup_lt_Some). by rewrite list_lookup_fmap, E.
  - apply lookup_ge_None in E. rewrite lookup_app_r, length_map by (by rewrite length_map).
    case_decide; [apply lookup_replicate_2; lia|]. apply lookup_ge_None. rewrite length_replicate. lia.
Qed.

Lemma repeated_snoc seen x o : o <> x \/ o = None -> repeated (seen ++ [x]) o = repeated seen o.
Proof.
  intros Ho. destruct o as [n|]; [|done]. unfold repeated. destruct Ho as [Ho|]; [|done].
  by rewrite count_app, count_one, decide_False, Nat.add_0_r by congruence.
Qed.

Lemma flags_fresh seen x : length seen < 64 -> x = None \/ x ∉ seen -> flags (seen ++ [x]) = flags seen.
Proof.
  intros Hl Hx. apply list_eq. intros i. rewrite !flags_lookup by (rewrite ?length_app; cbn; lia).
  destruct (decide (i < length seen)).
  - rewrite lookup_app_l by done. destruct (seen !! i) as [o|] eqn:E; [|done]. f_equal. apply repeated_snoc.
    apply list_elem_of_lookup_2 in E. destruct Hx as [->|Hx]; [destruct o; [by left|by right]|left; congruence].
  - rewrite lookup_app_r, (lookup_ge_None_2 seen) by lia. destruct (i - length seen) as [|k] eqn:E; cbn [lookup list_lookup].
    + rewrite decide_True by lia. f_equal. destruct x as [m|]; [|done]. destruct Hx as [|Hx]; [done|]. unfold repeated.
      apply bool_decide_eq_false. rewrite count_app, count_one, decide_True by done.
      destruct (decide (1 <= count m seen)) as [?%count_pos|]; [done|lia].
    + done.
Qed.

Lemma two_positions seen i j n : i <> j -> seen !! i = Some (Some n) -> seen !! j = Some (Some n) -> 2 <= count n seen.
Proof.
  assert (forall i j, i < j -> seen !! i = Some (Some n) -> seen !! j = Some (Some n) -> 2 <= count n seen) as Hw.
  { clear. intros i j Hij (l & k & -> & ->)%list_elem_of_split_length Hj. rewrite lookup_app_r in Hj by lia.
    destruct (j - length l) as [|m] eqn:E; [lia|]. cbn [lookup list_lookup] in Hj. apply list_elem_of_lookup_2, count_pos in Hj.
    rewrite count_app. change (Some n :: k) with ([Some n] ++ k). rewrite count_app, count_one, decide_True by done. lia. }
  intros Hij Hi Hj. destruct (decide (i < j)); [by apply (Hw i j)|apply (Hw j i); [lia|done..]].
Qed.

Lemma flags_again seen n f : length seen < 64 -> seen !! f = Some (Some n) ->
  flags (seen ++ [Some n]) = <[length seen := true]> (<[f := true]> (flags seen)).
Proof.
  intros Hl Hf. pose proof (lookup_lt_Some _ _ _ Hf) as Hlt. assert (length (flags seen) = 64) as Hfl.
  { unfold flags. rewrite length_app, length_map, length_replicate. lia. }
  assert (1 <= count n seen) as Hc by (apply count_pos; by eapply list_elem_of_lookup_2).
  assert (repeated (seen ++ [Some n]) (Some n) = true) as Hn.
  { unfold repeated. apply bool_decide_eq_true. rewrite count_app, count_one, decide_True by done. lia. }
  apply list_eq. intros i. rewrite flags_lookup by (rewrite length_app; cbn; lia).
  destruct (decide (i = length seen)) as [->|Hi].
  { rewrite list_lookup_insert_eq by (rewrite length_insert; lia). rewrite lookup_app_r, Nat.sub_diag by done. cbn [lookup list_lookup]. by rewrite Hn. }
  rewrite list_lookup_insert_ne by done. destruct (decide (i = f)) as [->|Hi2].
  { rewrite list_lookup_insert_eq by lia. rewrite lookup_app_l by done. by rewrite Hf, Hn. }
  rewrite list_lookup_insert_ne by done. rewrite flags_lookup by lia. destruct (decide (i < length seen)).
  - rewrite lookup_app_l by done. destruct (seen !! i) as [o|] eqn:E; [|done]. f_equal.
    destruct (decide (o = Some n)) as [->|]; [|apply repeated_snoc; by left]. rewrite Hn. symmetry. unfold repeated. apply bool_decide_eq_true.
    by apply (two_positions seen i f n).
  - rewrite lookup_app_r, (lookup_ge_None_2 seen) by lia. destruct (i - length seen) as [|k] eqn:E; [lia|]. done.
Qed.
End Flags.

(** ** The scan of a batch *)
Lemma table_ok_snoc seen table x : table_ok seen table -> (x = None \/ x ∈ seen) -> table_ok (seen ++ [x]) table.
Proof.
  intros [Hl Hu Hc Ha] Hx. split; [done|rewrite length_app; lia| |].
  - intros k n f Hk. destruct (Hc _ _ _ Hk) as [Hs Hi]. split; [by apply lookup_app_l_Some|done].
  - intros n [Hn|Hn%list_elem_of_singleton]%elem_of_app; [by apply Ha|]. subst x. destruct Hx as [|Hx]; [done|by apply Ha].
Qed.

Lemma mark_ok i dup : (i < length dup)%nat -> mark i dup = Ok (<[i := true]> dup).
Proof. intros Hi. unfold mark. by rewrite bool_decide_eq_true_2. Qed.

Lemma flags_length seen : (length seen <= 64)%nat -> length (flags seen) = 64%nat.
Proof. intros. unfold flags. rewrite length_app, length_map, length_replicate. lia. Qed.

Lemma note_nonce_spec seen table n : table_ok seen table -> (length seen < 64)%nat ->
  exists table', note_nonce table (flags seen) n (length seen) = Ok (table', flags (seen ++ [Some n])) /\ table_ok (seen ++ [Some n]) table'.
Proof.
  intros Ht Hl. unfold note_nonce. pose proof (table_ok_probe seen table n Ht ltac:(unfold table_size; lia)) as Hp.
  pose proof (flags_length seen ltac:(lia)) as Hfl.
  destruct (probe _ _ _ _) as [[k [f|]]|]; [| |done].
  - pose proof (lookup_lt_Some _ _ _ Hp). exists table. rewrite mark_ok by lia. cbn [mbind outcome_bind].
    rewrite mark_ok by (rewrite length_insert; lia). cbn [mbind outcome_bind]. rewrite (flags_again seen n f) by done.
    split; [done|]. apply table_ok_snoc; [done|right; by eapply list_elem_of_lookup_2].
  - destruct Hp as [Hn Ht']. eexists. split; [by rewrite flags_fresh by (done || by right)|done].
Qed.

Lemma scan_spec ps : forall seen table, table_ok seen table -> (length seen + length ps <= 64)%nat ->
  Forall (fun p => classify p <> Panic) ps ->
  scan ps (length seen) table (flags seen) = Ok (map classify ps, flags (seen ++ map nonce_of ps)).
Proof.
  induction ps as [|p ps IH]; intros seen table Ht Hl Hp; cbn [scan map]; [by rewrite app_nil_r|].
  apply Forall_cons_iff in Hp as [Hp0 Hp]. cbn [length] in Hl.
  replace (seen ++ nonce_of p :: map nonce_of ps) with ((seen ++ [nonce_of p]) ++ map nonce_of ps) by (by rewrite <- app_assoc).
  assert (length (seen ++ [nonce_of p]) = S (length seen)) as Hs by (rewrite length_app; cbn; lia).
  unfold nonce_of at 1. unfold nonce_of in Hs at 1. destruct (classify p) as [[[e seq] aad]|x|] eqn:E; [| |done].
  - destruct (note_nonce_spec seen table (e, seq) Ht ltac:(lia)) as (table' & -> & Ht'). cbn [mbind outcome_bind].
    rewrite <- Hs, IH by (done || lia). done.
  - rewrite <- (flags_fresh seen None) by (lia || by left). rewrite <- Hs, IH; [done|by apply table_ok_snoc; [|left]|lia|done].
Qed.

Lemma table_ok_empty : table_ok [] (replicate table_size None).
Proof.
  split; [done|done| |intros n Hn; by apply elem_of_nil in Hn].
  intros k n f Hk. apply lookup_replicate in Hk as [? _]. done.
Qed.

(** ** Verdicts *)
Section Verdicts.
Context {A : Aead} {H : Hmac}.

(** the packets that read a replay state, before the keys are used *)
Definition candidate_of (rx : EpochRxSlot * EpochRxSlot * (EpochRxSlot * EpochRxSlot)) (g : option SyncRxGrace) (se : Z) (d : Direction)
    (seen : list (option (Z * Z))) (c : outcome Error (Z * Z * list Z)) : outcome Error (Z * Z * list Z) :=
  match c with
  | Ok (e, seq, aad) =>
      if repeated seen (Some (e, seq)) then Err DuplicateNonce
      else if precheck_replay_state rx g se e seq d then Ok (e, seq, aad) else Err ReplayRejected
  | Err x => Err x
  | Panic => Panic
  end.

Lemma admissions_spec rx g se d seen ps : forall pre, seen = map nonce_of (pre ++ ps) -> (length seen <= 64)%nat ->
  Forall (fun p => classify p <> Panic) ps ->
  admissions rx g se d (flags seen) (length pre) (map classify ps) = Ok (map (fun p => candidate_of rx g se d seen (classify p)) ps).
Proof.
  induction ps as [|p ps IH]; intros pre Hs Hl Hp; cbn [admissions map]; [done|]. apply Forall_cons_iff in Hp as [Hp0 Hp].
  assert (seen !! length pre = Some (nonce_of p)) as Hk.
  { rewrite Hs, map_app. rewrite lookup_app_r, length_map, Nat.sub_diag by (by rewrite length_map). done. }
  assert (admission rx g se d (flags seen) (length pre) (classify p) = Ok (candidate_of rx g se d seen (classify p))) as ->.
  { unfold admission, candidate_of. unfold nonce_of in Hk. destruct (classify p) as [[[e seq] aad]|x|]; [|done|done].
    rewrite flags_lookup, Hk by done. cbn [unwrap mbind outcome_bind]. destruct (repeated _ _); [done|]. by destruct (precheck_replay_state _ _ _ _ _ _). }
  cbn [mbind outcome_bind]. replace (S (length pre)) with (length (pre ++ [p])) by (rewrite length_app; cbn; lia).
  rewrite IH; [done|by rewrite <- app_assoc|done|done].
Qed.

End Verdicts.

(** ** Commits in the order of nonces *)
(** [x] before [y] *)
Definition before (x y : Z * Z) : Prop := x.1 < y.1 \/ (x.1 = y.1 /\ x.2 < y.2).

Lemma accept_after sl x y now : window_ok sl -> valid sl = true -> 0 <= x -> x < y ->
  RW.can_accept (window sl) x = true -> RW.can_accept (window sl) y = true ->
  let sl' := (slot_accept sl x now).1 in window_ok sl' /\ RW.can_accept (window sl') y = true.
Proof.
  intros Hw Hv H0 Hxy Hx Hy. destruct (Hw Hv) as [l Hr]. cbv zeta. rewrite slot_accept_fst. cbn [window].
  pose proof (window_accept (window sl) l x Hr H0) as Ha. rewrite accept_can, Hx in Ha. destruct Ha as [_ Ha].
  split; [intros _; cbn [window]; eauto|]. rewrite (RW.can_accept_refines _ _ _ Ha). rewrite (RW.can_accept_refines _ _ _ Hr) in Hy.
  unfold RW.spec_can_accept, RW.REPLAY_WINDOW_BITS in *. apply bool_decide_eq_true in Hy as [Hn Hy]. apply bool_decide_eq_true.
  rewrite RW.newest_cons, not_elem_of_cons. split; [split; [lia|done]|]. right. destruct Hy as [->|Hy]; [cbn; lia|lia].
Qed.

Lemma max_ahead_mono a b : a <= b -> max_ahead a <= max_ahead b.
Proof. intros. unfold max_ahead, saturating_add. lia. Qed.

Lemma fresh_after x y now now' e : 0 <= x -> x < y -> RW.can_accept (window (slot_accept (fresh_slot e now) x now').1) y = true.
Proof. intros. apply accept_after; [apply fresh_slot_ok|done..]. Qed.

Lemma commit_rx_after p se x y now : pair_ok p -> 0 <= x.2 -> before x y ->
  (commit_rx p se x.1 x.2 now).2 = true -> (commit_rx p se y.1 y.2 now).2 = true ->
  let p' := (commit_rx p se x.1 x.2 now).1 in pair_ok p' /\ (commit_rx p' se y.1 y.2 now).2 = true.
Proof.
  destruct p as [cur prev], x as [e x], y as [e' y]. intros (W1 & W2 & W3) H0 Hb. cbv zeta. rewrite !commit_rx_ok. unfold before in Hb. cbn [fst snd] in *.
  unfold commit_rx. destruct (valid cur) eqn:Ev; cbn [negb andb].
  - destruct (e =? epoch cur) eqn:E1; bool_to_Z.
    { intros Hx Hy. pose proof (slot_accept_frame cur x now) as [F1 F2]. pose proof (slot_accept_ok cur x now W1 H0) as Hk.
      pose proof (fun Hlt => accept_after cur x y now W1 Ev H0 Hlt Hx) as Hn. destruct (slot_accept cur x now) as [s ok]. cbn [fst snd] in *.
      split; [split_and!; cbn [fst snd]; rewrite ?F1, ?F2; first [done|intros Hp; destruct (W3 Hp); split; [congruence|lia]]|]. rewrite F1, F2, Ev. cbn [negb]. subst e.
      destruct (e' =? epoch cur) eqn:E2; bool_to_Z; [apply Hn; [lia|done]|done]. }
    destruct (valid prev && (e =? epoch prev)) eqn:E2.
    { apply andb_true_iff in E2 as [Epv E2%Z.eqb_eq]. destruct (W3 Epv) as [_ Hlt]. intros Hx Hy. pose proof (slot_accept_frame prev x now) as [F1 F2].
      pose proof (slot_accept_ok prev x now W2 H0) as Hk.
      pose proof (fun Hl => accept_after prev x y now W2 Epv H0 Hl Hx) as Hn. destruct (slot_accept prev x now) as [s ok]. cbn [fst snd] in *.
      split; [split_and!; cbn [fst snd]; rewrite ?F1, ?F2; first [done|intros Hp; destruct (W3 Hp); split; [congruence|lia]]|]. rewrite F1, F2, Ev, Epv in *. cbn [negb andb] in *. subst e.
      destruct (e' =? epoch cur) eqn:E3; [done|]. destruct (e' =? epoch prev) eqn:E4; bool_to_Z; [apply Hn; [lia|done]|done]. }
    destruct (epoch cur <? e) eqn:E3; bool_to_Z; [|done]. set (b := if valid prev then _ else _). intros Hx. rewrite Z.leb_antisym in Hx.
    destruct (max_ahead b <? e) eqn:E4; [done|]. intros Hy. pose proof (slot_accept_frame (fresh_slot e now) x now) as [F1 F2].
    pose proof (slot_accept_ok _ x now (fresh_slot_ok e now) H0) as Hk. pose proof (fun Hl => fresh_after x y now now e H0 Hl) as Hn.
    destruct (slot_accept (fresh_slot e now) x now) as [s ok]. cbn [fst snd epoch valid fresh_slot] in *.
    split; [split_and!; cbn [fst snd]; rewrite ?F1, ?F2; first [done|intros _; split; [congruence|lia]]|]. rewrite F1, F2, Ev. cbn [negb andb].
    destruct (e' =? e) eqn:E5; bool_to_Z; [apply Hn; lia|]. rewrite (proj2 (Z.eqb_neq e' (epoch cur))) by lia.
    rewrite (proj2 (Z.ltb_lt e e')) by lia. rewrite (proj2 (Z.eqb_neq e' (epoch cur))) in Hy by lia.
    assert (valid prev && (e' =? epoch prev) = false) as Ep.
    { destruct (valid prev) eqn:Epv; [|done]. destruct (W3 eq_refl). apply Z.eqb_neq. lia. }
    rewrite Ep, (proj2 (Z.ltb_lt (epoch cur) e')) in Hy by lia. apply Z.leb_le in Hy. apply Z.leb_le.
    etransitivity; [exact Hy|]. apply max_ahead_mono. destruct (valid prev) eqn:Epv; [destruct (W3 eq_refl)|]; lia.
  - assert (valid prev = false) as Epv by (destruct (valid prev); [by destruct (W3 eq_refl)|done]).
    intros Hx Hy. rewrite Z.leb_antisym in Hx. destruct (max_ahead se <? e) eqn:E4; [done|]. cbn [epoch fresh_slot]. rewrite Z.eqb_refl.
    pose proof (slot_accept_frame (fresh_slot e now) x now) as [F1 F2].
    pose proof (slot_accept_ok _ x now (fresh_slot_ok e now) H0) as Hk. pose proof (fun Hl => fresh_after x y now now e H0 Hl) as Hn.
    destruct (slot_accept (fresh_slot e now) x now) as [s ok]. cbn [fst snd epoch valid fresh_slot] in *.
    split; [split_and!; cbn [fst snd]; rewrite ?F1, ?F2, ?Epv; done|]. rewrite F1, F2, Epv. cbn [negb andb].
    destruct (e' =? e) eqn:E5; bool_to_Z; [apply Hn; lia|]. rewrite (proj2 (Z.ltb_lt e e')) by lia.
    apply Z.leb_le. etransitivity; [exact Hy|]. apply max_ahead_mono. lia.
Qed.

(** the answer of the slots, with no word from the grace *)
Definition rx_answer (p : EpochRxSlot * EpochRxSlot) (se : Z) (n : Z * Z) : bool := (commit_rx p se n.1 n.2 0).2.

Lemma precheck_split rx g se e seq d : precheck_replay_state rx g se e seq d =
  match precheck_grace g e seq d with Some b => b | None => rx_answer (get d rx) se (e, seq) end.
Proof.
  unfold precheck_replay_state, rx_answer. destruct (precheck_grace g e seq d); [done|]. cbn [fst snd]. rewrite commit_rx_ok.
  by destruct (get d rx).
Qed.
Lemma rx_answer_any p se n now : rx_answer p se n = (commit_rx p se n.1 n.2 now).2.
Proof. unfold rx_answer. by rewrite !commit_rx_ok. Qed.

Lemma precheck_after rx g se x y d now : pair_ok (get d rx) -> grace_ok g d -> 0 <= x.2 -> before x y ->
  precheck_replay_state rx g se x.1 x.2 d = true -> precheck_replay_state rx g se y.1 y.2 d = true ->
  let '(rx', g', _) := commit_replay_state rx g se x.1 x.2 d now in
  pair_ok (get d rx') /\ grace_ok g' d /\ precheck_replay_state rx' g' se y.1 y.2 d = true.
Proof.
  intros Hp Hg H0 Hb. rewrite !precheck_split. unfold commit_replay_state.
  assert (rx_answer (get d rx) se (x.1, x.2) = true -> rx_answer (get d rx) se (y.1, y.2) = true ->
    let p' := (commit_rx (get d rx) se x.1 x.2 now).1 in pair_ok p' /\ rx_answer p' se (y.1, y.2) = true) as Hrx.
  { cbv zeta. rewrite !(rx_answer_any _ _ _ now). cbn [fst snd]. by apply commit_rx_after. }
  destruct g as [g|]; cbn [precheck_grace].
  2: { intros Hx Hy. destruct (Hrx Hx Hy) as [R1 R2]. destruct (commit_rx _ _ _ _ _) as [p' ok]. rewrite precheck_split. cbn [precheck_grace fst] in *.
       by rewrite get_set_same. }
  destruct Hg as [G1 G2]. unfold commit_grace. destruct (get d (g_slots g)) as [a b] eqn:Eg. cbn [fst snd] in *.
  destruct (valid a && (epoch a =? x.1)) eqn:Ea; [|destruct (valid b && (epoch b =? x.1)) eqn:Eb].
  - apply andb_true_iff in Ea as [Va Ea%Z.eqb_eq]. intros Hx Hy. pose proof (slot_accept_frame a x.2 now) as [F1 F2].
    pose proof (slot_accept_ok a x.2 now G1 H0) as Hk. pose proof (fun Hlt => accept_after a x.2 y.2 now G1 Va H0 Hlt Hx) as Hn.
    destruct (slot_accept a x.2 now) as [a' ok]. cbn [fst snd] in *. cbn [grace_ok g_slots]. rewrite get_set_same. split; [done|]. split; [done|].
    rewrite precheck_split. cbn [precheck_grace g_slots]. rewrite get_set_same. cbn [fst snd]. rewrite F1, F2, Va in *. cbn [andb] in *.
    destruct (epoch a =? y.1) eqn:E; [|done]. bool_to_Z. apply Hn; [unfold before in Hb; lia|done].
  - apply andb_true_iff in Eb as [Vb Eb%Z.eqb_eq]. intros Hx Hy. pose proof (slot_accept_frame b x.2 now) as [F1 F2].
    pose proof (slot_accept_ok b x.2 now G2 H0) as Hk. pose proof (fun Hlt => accept_after b x.2 y.2 now G2 Vb H0 Hlt Hx) as Hn.
    destruct (slot_accept b x.2 now) as [b' ok]. cbn [fst snd] in *. cbn [grace_ok g_slots]. rewrite get_set_same. split; [done|]. split; [done|].
    rewrite precheck_split. cbn [precheck_grace g_slots]. rewrite get_set_same. cbn [fst snd]. rewrite F1, F2, Vb in *. cbn [andb] in *.
    destruct (valid a && (epoch a =? y.1)); [done|]. destruct (epoch b =? y.1) eqn:E; [|done]. bool_to_Z. apply Hn; [unfold before in Hb; lia|done].
  - intros Hx Hy. destruct (commit_rx (get d rx) se x.1 x.2 now) as [p' ok] eqn:Ec. cbn [fst] in Hrx. rewrite get_set_same.
    cbn [grace_ok]. rewrite Eg. rewrite precheck_split. cbn [precheck_grace]. rewrite Eg, get_set_same. cbn [fst snd].
    pose proof (commit_rx_pair_ok (get d rx) se x.1 x.2 now Hp H0) as Hp'. rewrite Ec in Hp'. split; [done|]. split; [done|].
    destruct (valid a && (epoch a =? y.1)); [done|]. destruct (valid b && (epoch b =? y.1)); [done|]. by apply Hrx.
Qed.

Lemma commit_all_keeps order : forall rx g se d now sts, pair_ok (get d rx) -> grace_ok g d ->
  StronglySorted before order.*1 -> Forall (fun n => 0 <= n.2 /\ precheck_replay_state rx g se n.1 n.2 d = true) order.*1 ->
  (commit_all rx g se d now order sts).2 = sts.
Proof.
  induction order as [|[n i] order IH]; intros rx g se d now sts Hp Hg Hs Hf; [done|]. cbn [fmap list_fmap fst] in Hs, Hf.
  apply StronglySorted_inv in Hs as [Hs Hb]. apply Forall_cons_iff in Hf as [[H0 Hn] Hf]. destruct n as [e seq]. cbn [commit_all fst snd] in *.
  pose proof (precheck_is_commit rx g se e seq d now) as Hc. rewrite Hn in Hc.
  assert (let '(rx', g', _) := commit_replay_state rx g se e seq d now in
    pair_ok (get d rx') /\ grace_ok g' d /\ Forall (fun n => 0 <= n.2 /\ precheck_replay_state rx' g' se n.1 n.2 d = true) order.*1) as Hnext.
  { pose proof (fun y Hy => precheck_after rx g se (e, seq) y d now Hp Hg H0 Hy Hn) as Ha. cbn [fst snd] in Ha.
    assert (forall l, Forall (before (e, seq)) l -> Forall (fun n => 0 <= n.2 /\ precheck_replay_state rx g se n.1 n.2 d = true) l ->
      let '(rx', g', _) := commit_replay_state rx g se e seq d now in
      Forall (fun n => 0 <= n.2 /\ precheck_replay_state rx' g' se n.1 n.2 d = true) l) as Hl.
    { intros l H1 H2. destruct (commit_replay_state rx g se e seq d now) as [[rx' g'] ok].
      apply Forall_forall. intros y Hy. rewrite Forall_forall in H1, H2. destruct (H2 y Hy). split; [done|]. by apply (Ha y (H1 y Hy)). }
    specialize (Hl _ Hb Hf). pose proof (commit_state_ok rx g se e seq d now Hp Hg H0) as Hk.
    destruct (commit_replay_state rx g se e seq d now) as [[rx' g'] ok]. destruct Hk. done. }
  destruct (commit_replay_state rx g se e seq d now) as [[rx' g'] ok]. cbn [snd] in Hc. subst ok. destruct Hnext as (N1 & N2 & N3). by apply IH.
Qed.

(** ** The order of the commits *)
#[local] Instance commit_le_trans : Transitive commit_le.
Proof. intros [[? ?] ?] [[? ?] ?] [[? ?] ?]. unfold commit_le. cbn. lia. Qed.
#[local] Instance commit_le_total : Total commit_le.
Proof. intros [[? ?] ?] [[? ?] ?]. unfold commit_le. cbn. lia. Qed.

Lemma sorted_before l : StronglySorted commit_le l -> NoDup l.*1 -> StronglySorted before l.*1.
Proof.
  induction 1 as [|[n i] l Hs IH Hf]; cbn [fmap list_fmap]; [constructor|]. intros [Hn Hnd]%NoDup_cons. constructor; [by apply IH|].
  apply Forall_forall. intros m Hm. rewrite Forall_forall in Hf. apply list_elem_of_fmap in Hm as ([m' j] & -> & Hm). cbn [fst] in *.
  specialize (Hf _ Hm). assert (n <> m') as Hne by (intros ->; apply Hn; apply list_elem_of_fmap; by exists (m', j)).
  destruct n as [e x], m' as [e' y]. unfold commit_le, before in *. cbn in *. destruct Hf as [|[-> [|[-> _]]]]; [lia|lia|done].
Qed.

Lemma NoDup_omap_positions {X Y} (f : X -> option Y) l :
  (forall i j x y n, l !! i = Some x -> l !! j = Some y -> f x = Some n -> f y = Some n -> i = j) -> NoDup (omap f l).
Proof.
  induction l as [|x l IH]; intros Hf; [constructor|]. rewrite omap_cons.
  assert (NoDup (omap f l)) as Hnd.
  { apply IH. intros i j u v n Hi Hj Hu Hv. specialize (Hf (S i) (S j) u v n Hi Hj Hu Hv). lia. }
  destruct (f x) as [n|] eqn:E; [|done]. constructor; [|done]. intros (y & Hy & Hn)%list_elem_of_omap.
  apply list_elem_of_lookup_1 in Hy as [j Hj]. specialize (Hf 0%nat (S j) x y n eq_refl Hj E Hn). done.
Qed.

(** ** What a batch gives *)
Section Batch.
Context {A : Aead} {AL : AeadLaws A} {H : Hmac}.

(** the grace state that a batch uses *)
Definition batch_grace (s : t) (now : Z) : option SyncRxGrace :=
  let g := maybe_expire (sync_rx_grace s) now in if g_valid g then Some g else None.

Definition verdict (s : t) (d : Direction) (now : Z) (ps : list ZCPacket.t) (p : ZCPacket.t) : outcome Error ZCPacket.t :=
  match classify p with
  | Ok (e, seq, aad) =>
      if repeated (map nonce_of ps) (Some (e, seq)) then Err DuplicateNonce
      else if precheck_replay_state (rx_slots s) (batch_grace s now) (send_epoch s) e seq d then
        match Cipher.decrypt_with_aad (cipher_for s false e d) p aad with
        | Ok q => Ok q
        | Err x => Err (CipherError x)
        | Panic => Panic
        end
      else Err ReplayRejected
  | Err x => Err x
  | Panic => Panic
  end.

(** the packets a batch opens *)
Definition batch_status (s : t) (d : Direction) (now : Z) (ps : list ZCPacket.t) (p : ZCPacket.t) : status :=
  opened s d p (candidate_of (rx_slots s) (batch_grace s now) (send_epoch s) d (map nonce_of ps) (classify p)).

Lemma verdict_status s d now ps p : bytes_ok (ZCPacket.inner p) -> result_of (batch_status s d now ps p) = verdict s d now ps p.
Proof.
  intros Hb. pose proof (classify_total p Hb) as Hc. unfold batch_status, verdict. destruct (classify p) as [[[e seq] aad]|x|] eqn:E; [|done|done].
  cbn [candidate_of]. destruct (repeated _ _); [done|]. destruct (precheck_replay_state _ _ _ _ _ _); [|done]. cbn [opened].
  pose proof (decrypt_total (cipher_for s false e d) p aad e seq aad Hb E). by destruct (Cipher.decrypt_with_aad _ _ _).
Qed.

Lemma status_opened s d now ps p e seq q : batch_status s d now ps p = Opened e seq q ->
  nonce_of p = Some (e, seq) /\ repeated (map nonce_of ps) (Some (e, seq)) = false /\
  precheck_replay_state (rx_slots s) (batch_grace s now) (send_epoch s) e seq d = true.
Proof.
  unfold batch_status, nonce_of. destruct (classify p) as [[[e' seq'] aad]|x|]; [|done|done]. cbn [candidate_of].
  destruct (repeated _ _) eqn:Er; [done|]. destruct (precheck_replay_state _ _ _ _ _ _) eqn:Ep; [|done]. cbn [opened].
  destruct (Cipher.decrypt_with_aad _ _ _); [|done|done]. intros [= -> -> _]. done.
Qed.

Lemma batch_nonces_distinct s d now ps : NoDup (opened_at (map (batch_status s d now ps) ps)).*1.
Proof.
  rewrite opened_at_nonces. apply NoDup_omap_positions. intros i j x y n Hi Hj Hx Hy.
  destruct (decide (i = j)) as [|Hne]; [done|]. exfalso.
  apply list_lookup_fmap_Some in Hi as (p & -> & Hp). apply list_lookup_fmap_Some in Hj as (p' & -> & Hp').
  destruct (batch_status s d now ps p) as [|e seq q] eqn:E1; [done|]. destruct (batch_status s d now ps p') as [|e' seq' q'] eqn:E2; [done|].
  simplify_eq. apply status_opened in E1 as (N1 & R1 & _). apply status_opened in E2 as (N2 & _).
  unfold repeated in R1. apply bool_decide_eq_false in R1. apply R1.
  apply (two_positions _ i j); [done|rewrite list_lookup_fmap, Hp; cbn; by rewrite N1|rewrite list_lookup_fmap, Hp'; cbn; by rewrite N2].
Qed.

Lemma batch_commits s d now ps : Forall (fun p => bytes_ok (ZCPacket.inner p)) ps -> let sts := map (batch_status s d now ps) ps in
  Forall (fun n => 0 <= n.2 /\ precheck_replay_state (rx_slots s) (batch_grace s now) (send_epoch s) n.1 n.2 d = true) (commit_order sts).*1.
Proof.
  intros Hb sts. apply Forall_forall. intros n ([[e seq] i] & -> & Hin)%list_elem_of_fmap. rewrite commit_order_perm in Hin. cbn [fst snd].
  apply elem_of_opened_at in Hin as [q Hq]. apply list_lookup_fmap_Some in Hq as (p & Hst & Hp). symmetry in Hst.
  apply status_opened in Hst as (Hn & _ & Hc). split; [|done]. unfold nonce_of in Hn. destruct (classify p) as [[[e' seq'] aad]|?|] eqn:E; [|done|done].
  simplify_eq. apply classify_range in E as [_ [? _]]; [done|]. rewrite Forall_forall in Hb. apply Hb. by eapply list_elem_of_lookup_2.
Qed.

Lemma batch_exact s d ps now : wf s -> is_valid s = true ->
  Forall (fun p => bytes_ok (ZCPacket.inner p)) ps -> (length ps <= 64)%nat ->
  (decrypt_payload_batch d ps now s).2 = Ok (map (verdict s d now ps) ps).
Proof.
  intros Hw Hv Hb Hl. pose proof (wf_cache s Hw) as Hc. destruct (wf_rx s Hw d) as [Hp _].
  assert (grace_ok (batch_grace s now) d) as Hg by (unfold batch_grace; destruct (g_valid _); [apply maybe_expire_ok, Hw|done]).
  unfold decrypt_payload_batch. cbv [mbind M_bind gets lift mret M_ret modify]. rewrite Hv. cbn [negb].
  case_bool_decide as Hps; [by subst|].
  assert (Forall (fun p => classify p <> Panic) ps) as Hcl by (eapply Forall_impl; [exact Hb|apply classify_total]).
  pose proof (scan_spec ps [] _ table_ok_empty Hl Hcl) as Hscan. cbn [length app] in Hscan. change (flags []) with (replicate 64 false) in Hscan. rewrite Hscan.
  assert (exists s1, replay_state_snapshot s now = (s1, (rx_slots s, maybe_expire (sync_rx_grace s) now)) /\
    (s1 = s \/ s1 = with_grace s (sync_rx_grace s) 0)) as (s1 & -> & Hs1).
  { unfold replay_state_snapshot. destruct (g_valid (sync_rx_grace s)) eqn:E.
    - destruct (g_valid (maybe_expire _ _)); eauto.
    - exists s. split; [|by left]. unfold maybe_expire. by rewrite E. }
  assert (cache_ok s1 /\ rx_slots s1 = rx_slots s /\ sync_rx_grace s1 = sync_rx_grace s /\ send_epoch s1 = send_epoch s /\
    forall p c, opened s1 d p c = opened s d p c) as (Hc1 & R1 & R2 & R3 & R4).
  { destruct Hs1 as [->| ->]; split_and!; done. }
  cbn [fst snd]. rewrite R3. fold (batch_grace s now).
  rewrite (admissions_spec _ _ _ _ (map nonce_of ps) ps []) by (done || by rewrite length_map).
  set (cs := map _ ps). assert (zip ps cs = map (fun p => (p, candidate_of (rx_slots s) (batch_grace s now) (send_epoch s) d (map nonce_of ps) (classify p))) ps) as ->.
  { subst cs. clear. generalize (map nonce_of ps). intros seen. induction ps; cbn; [done|by f_equal]. }
  destruct (open_all_spec d (map (fun p => (p, candidate_of (rx_slots s) (batch_grace s now) (send_epoch s) d (map nonce_of ps) (classify p))) ps) [] s1 Hc1)
    as (c & b & -> & Hc2); [constructor| |].
  { apply Forall_forall. intros [p o] (p' & [= -> ->] & Hin)%list_elem_of_fmap. rewrite Forall_forall in Hb, Hcl. specialize (Hb _ Hin). specialize (Hcl _ Hin).
    cbn [fst snd]. unfold candidate_of. destruct (classify p') as [[[e seq] aad]|x|] eqn:E; [|done|done].
    destruct (repeated _ _); [done|]. destruct (precheck_replay_state _ _ _ _ _ _); [|done]. split; [done|].
    intros c0 e0 seq0 aad0 _. by eapply decrypt_total. }
  rewrite map_map. cbn [fst snd]. replace (map _ ps) with (map (batch_status s d now ps) ps) by (apply map_ext; intros p; unfold batch_status; by rewrite R4).
  set (sts := map (batch_status s d now ps) ps).
  change (sync_rx_grace (with_cache s1 c)) with (sync_rx_grace s1). change (rx_slots (with_cache s1 c)) with (rx_slots s1).
  change (send_epoch (with_cache s1 c)) with (send_epoch s1). rewrite R1, R2, R3. fold (batch_grace s now).
  pose proof (commit_all_keeps (commit_order sts) (rx_slots s) (batch_grace s now) (send_epoch s) d now sts Hp Hg) as Hk.
  destruct (commit_all _ _ _ _ _ _ _) as [[rx' g'] sts']. cbn [snd] in *. rewrite Hk.
  - f_equal. subst sts. rewrite map_map. apply map_ext_in. intros p Hin. apply verdict_status. rewrite Forall_forall in Hb. apply Hb. by apply list_elem_of_In.
  - apply sorted_before; [apply StronglySorted_merge_sort; apply _|]. rewrite commit_order_perm. apply batch_nonces_distinct.
  - by apply batch_commits.
Qed.
(** C3: A batch of at most 64 packets is decrypted packet by packet: the probing of the nonce table
    ends, nothing panics, and every packet gets the verdict it would get alone against the replay
    state at the start of the batch, except that packets of the batch with equal nonces are all
    rejected, a forged copy of a valid packet's nonce included.  The commits in the order of nonces
    reject none of the packets that passed. *)
Theorem batch_decrypts_exactly s d ps now : wf s -> is_valid s = true ->
  Forall (fun p => bytes_ok (ZCPacket.inner p)) ps -> (length ps <= 64)%nat ->
  (decrypt_payload_batch d ps now s).2 = Ok (map (verdict s d now ps) ps).
Proof. apply batch_exact. Qed.
End Batch.

(** ** No operation on bytes panics *)
Section Safety.
Context {A : Aead} {AL : AeadLaws A} {H : Hmac}.

Definition panics (s : t) (ev : event) : Prop :=
  match ev with
  | Encrypt d p now => (encrypt_payload d p now s).2 = Panic
  | EncryptBatch d ps now => (encrypt_payload_batch d ps now s).2 = Panic
  | Decrypt d p now => (decrypt_payload d p now s).2 = Panic
  | DecryptBatch d ps now => (decrypt_payload_batch d ps now s).2 = Panic
  | Sync _ _ _ _ _ | Invalidate => False
  end.

Lemma encrypt_total c p h nonce aad : bytes_ok (ZCPacket.inner p) -> ZCPacket.peer_manager_header p = Some h ->
  Cipher.encrypt_with_nonce_and_aad c p nonce aad <> Panic.
Proof.
  intros Hb Hh. pose proof (PacketProps.header_layout p h Hb Hh) as Hl. unfold Cipher.encrypt_with_nonce_and_aad. rewrite Hh.
  cbn [unwrap mbind outcome_bind]. destruct (PH.is_encrypted h); [done|]. unfold ensure. case_bool_decide; [|done]. cbn [mbind outcome_bind].
  rewrite (PacketProps.layout_payload _ _ _ _ Hl). cbn [mbind outcome_bind]. destruct (seal _ _ _ _ _) as [[text tag]|]; [|done]. cbn [ok_or mbind outcome_bind].
  case_bool_decide; [|done]. cbn [mbind outcome_bind]. pose proof (PacketProps.layout_write _ _ _ _ text Hl) as Hw.
  destruct (PacketProps.layout_update _ _ _ _ (fun h => PH.set_encrypted h true) Hw) as (p' & -> & _); [|done]. apply Cipher.encrypted_flag, Hl.
Qed.

Lemma aad_header p aad : packet_aad p = Ok aad -> exists h, ZCPacket.peer_manager_header p = Some h.
Proof. unfold packet_aad. destruct (ZCPacket.peer_manager_header p); [eauto|done]. Qed.
Lemma aad_total p : packet_aad p <> Panic.
Proof. unfold packet_aad. by destruct (ZCPacket.peer_manager_header p). Qed.

Lemma encrypt_no_panic s d p now : wf s -> bytes_ok (ZCPacket.inner p) -> (encrypt_payload d p now s).2 <> Panic.
Proof.
  intros Hw Hb. unfold encrypt_payload. cbv [mbind M_bind gets lift fail]. destruct (is_valid s); cbn [negb]; [|done].
  pose proof (reserve_range_spec d 1 now s ltac:(done)) as Hr. pose proof (wf_reserve d 1 now s ltac:(done) Hw) as Hw1.
  destruct (reserve_nonce_range d 1 now s) as [s1 [[e seq]|x|]]; [|done|by destruct Hr as (_ & _ & [])]. cbn [fst] in Hw1.
  pose proof (aad_total p). destruct (packet_aad p) as [aad|x|] eqn:Ea; [|done|done]. destruct (aad_header p aad Ea) as [h Hh].
  destruct (get_or_create_spec s1 e d (session_generation s1) true (wf_cache s1 Hw1)) as (c & -> & _). unfold lift_cipher.
  pose proof (encrypt_total (cipher_for s1 true e d) p h (nonce e seq) aad Hb Hh). by destruct (Cipher.encrypt_with_nonce_and_aad _ _ _ _).
Qed.

Lemma encrypt_all_no_panic c e start ps s : Forall (fun p => bytes_ok (ZCPacket.inner p)) ps -> forall n, (encrypt_all c e start n ps s).2 <> Panic.
Proof.
  intros Hb. induction Hb as [|p ps Hp Hb IH]; intros n; cbn [encrypt_all]; [done|]. cbv [mbind M_bind lift mret M_ret].
  destruct (checked_add 64 start (Z.of_nat n)); [|done]. cbn [ok_or].
  pose proof (aad_total p). destruct (packet_aad p) as [aad|x|] eqn:Ea; [|done|done]. destruct (aad_header p aad Ea) as [h Hh].
  unfold lift_cipher. pose proof (encrypt_total c p h (nonce e z) aad Hp Hh). destruct (Cipher.encrypt_with_nonce_and_aad _ _ _ _); [|done|done].
  specialize (IH (S n)). by destruct (encrypt_all c e start (S n) ps s) as [s' [?|?|]].
Qed.

Lemma encrypt_batch_no_panic s d ps now : wf s -> Forall (fun p => bytes_ok (ZCPacket.inner p)) ps -> len ps <= u_max 64 ->
  (encrypt_payload_batch d ps now s).2 <> Panic.
Proof.
  intros Hw Hb Hl. unfold encrypt_payload_batch. cbv [mbind M_bind gets lift fail mret M_ret]. destruct (is_valid s); cbn [negb]; [|done].
  case_bool_decide as Hps; [done|]. assert (0 < len ps) as Hn by (destruct ps; [done|unfold len; cbn; lia]).
  pose proof (reserve_range_spec d (len ps) now s ltac:(lia)) as Hr. pose proof (wf_reserve d (len ps) now s ltac:(done) Hw) as Hw1.
  destruct (reserve_nonce_range d (len ps) now s) as [s1 [[e seq]|x|]]; [|done|by destruct Hr as (_ & _ & [])]. cbn [fst] in Hw1.
  destruct (get_or_create_spec s1 e d (session_generation s1) true (wf_cache s1 Hw1)) as (c & -> & _). by apply encrypt_all_no_panic.
Qed.

Lemma decrypt_no_panic s d p now : wf s -> bytes_ok (ZCPacket.inner p) -> (decrypt_payload d p now s).2 <> Panic.
Proof.
  intros Hw Hb. destruct (is_valid s) eqn:Hv.
  2: { unfold decrypt_payload. cbv [mbind M_bind gets fail]. by rewrite Hv. }
  pose proof (decrypt_payload_spec s d p now (wf_cache s Hw) Hv) as Hs. pose proof (classify_total p Hb).
  destruct (classify p) as [[[e seq] aad]|x|] eqn:Ec; [|by rewrite Hs|done]. destruct (precheck_replay_state _ _ _ _ _ _); [|by rewrite Hs].
  pose proof (decrypt_total (cipher_for s false e d) p aad e seq aad Hb Ec).
  destruct (Cipher.decrypt_with_aad _ _ _); [destruct Hs as (s' & -> & _)|destruct Hs as (c & -> & _)|]; done.
Qed.

Lemma event_no_panic s ev : wf s -> event_ok ev -> ~ panics s ev.
Proof.
  intros Hw. destruct ev; cbn [event_ok panics]; [intros ?; by apply encrypt_no_panic|intros [? ?]; by apply encrypt_batch_no_panic|intros ?; by apply decrypt_no_panic| |tauto|tauto].
  intros [Hb Hl]. destruct (is_valid s) eqn:Hv; [by rewrite batch_exact|].
  unfold decrypt_payload_batch. cbv [mbind M_bind gets mret M_ret]. by rewrite Hv.
Qed.

(** C5: Through any run of a session over packets that are bytes, batches of at most 64 received
    packets and synchronisations with 32-byte keys, no operation panics and the state keeps its
    types: epochs are u32, sequence numbers u64, the failure count stays below its threshold, cached
    ciphers belong to the root key, and each replay window holds exactly numbers it accepted. *)
Theorem datagram_session_well_formed root gen epoch0 sa ra t0 evs ev : key_ok root -> is_u 32 epoch0 ->
  Forall event_ok evs -> event_ok ev -> let s := run (new root gen epoch0 sa ra t0) evs in wf s /\ ~ panics s ev.
Proof.
  intros Hr He Hevs Hev s. assert (wf s) as Hw by (apply run_wf; [by apply wf_new|done]). split; [done|by apply event_no_panic].
Qed.
End Safety.

(** ** Example: a forged copy of a nonce *)
#[local] Existing Instances Cipher.sum_aead Cipher.sum_aead_laws sum_hmac.

(** the sealed packet with another last byte of its text: its tag does not fit *)
Definition forged_packet : ZCPacket.t :=
  ZCPacket.with_inner DatagramReplay.sealed_packet (<[36%nat := 31]> (ZCPacket.inner DatagramReplay.sealed_packet)).

Lemma batch_decrypts_exactly_witness :
  (decrypt_payload_batch AToB [DatagramReplay.sealed_packet] 1001 demo_session).2 = Ok [Ok plain_packet] /\
  (decrypt_payload_batch AToB [forged_packet] 1001 demo_session).2 = Ok [Err (CipherError Cipher.DecryptionFailed)] /\
  (decrypt_payload_batch AToB [DatagramReplay.sealed_packet; forged_packet] 1001 demo_session).2 = Ok [Err DuplicateNonce; Err DuplicateNonce].
Proof.
  assert (forall ps, Forall (fun p => bytes_ok (ZCPacket.inner p)) ps -> (length ps <= 64)%nat ->
    (decrypt_payload_batch AToB ps 1001 demo_session).2 = Ok (map (verdict demo_session AToB 1001 ps) ps)) as Hb.
  { intros ps H1 H2. apply (batch_decrypts_exactly demo_session AToB ps 1001); [|done|done|done]. apply wf_new; [|done]. apply (bool_decide_unpack _). done. }
  assert (bytes_ok (ZCPacket.inner DatagramReplay.sealed_packet)) as H1 by (apply (bool_decide_unpack _); vm_compute; exact I).
  assert (bytes_ok (ZCPacket.inner forged_packet)) as H2 by (apply (bool_decide_unpack _); vm_compute; exact I).
  assert (forall l, Forall (fun p => bytes_ok (ZCPacket.inner p)) l -> Forall (fun p => bytes_ok (ZCPacket.inner p)) (forged_packet :: l)) as Hf
    by (intros l Hl; constructor; [exact H2|exact Hl]).
  split; [|split].
  - rewrite (Hb [DatagramReplay.sealed_packet]); [vm_compute; reflexivity|constructor; [exact H1|constructor]|cbn; lia].
  - rewrite (Hb [forged_packet]); [vm_compute; reflexivity|apply Hf; constructor|cbn; lia].
  - rewrite (Hb [DatagramReplay.sealed_packet; forged_packet]); [vm_compute; reflexivity|constructor; [exact H1|apply Hf; constructor]|cbn; lia].
Defined.

Lemma datagram_session_well_formed_witness :
  let s := run demo_session (Invalidate :: DatagramReplay.demo_events) in
  wf s /\ ~ panics s (DecryptBatch AToB [DatagramReplay.sealed_packet; forged_packet] 1007).
Proof.
  apply (datagram_session_well_formed (replicate 32 5) 1 7 aes aes 1000 (Invalidate :: DatagramReplay.demo_events)
    (DecryptBatch AToB [DatagramReplay.sealed_packet; forged_packet] 1007)).
  - apply (bool_decide_unpack _). done.
  - done.
  - apply (bool_decide_unpack _). vm_compute. exact I.
  - apply (bool_decide_unpack _). vm_compute. exact I.
Defined.
End DatagramBatch.
