(* ===== verification/PeerSession.v ===== *)
(** * Sessions with a peer

    [PeerSession] of src/lowertier/src/peers/peer_session.rs: a secure datagram session with the
    transition that a handshake prepares, commits or cancels, the history of committed transitions and
    the pinned static key of the peer.  The mutex of the transition makes every operation atomic.
    The store of sessions is in SessionStore. *)
From stdpp Require Import base list gmap numbers.
From Stdlib Require Import ZArith Lia.
From S2P Require Import Prelude PacketHeader Packet PacketProps ReplayWindow NetAddr Cipher SecureDatagram SecureDatagramProps DatagramWf.

Local Open Scope Z_scope.

(** [sha2::Sha256::digest] *)
Class Sha256 : Type := { sha256 : list Z -> list Z }.

Module PeerSession.
Module SD := SecureDatagram.SecureDatagram.

Definition MAX_COMMITTED_TRANSITIONS_PER_SESSION : nat := 8.

Inductive PeerSessionAction : Type := Join | Sync | Create.
#[export] Instance PeerSessionAction_eq_dec : EqDecision PeerSessionAction.
Proof. solve_decision. Defined.

Record CommittedTransition : Type := mk_committed {
  action : PeerSessionAction;
  c_generation : Z;
  c_root_key : list Z;
  c_initial_epoch : Z;
  c_transition_id : list Z;
  c_revision : Z;
}.

Record InitiatorTransitionIdentity : Type := mk_identity {
  i_network_name : list Z;
  i_peer_id : Z;
  session_metadata_id : Z;
  i_action : PeerSessionAction;
  i_generation : Z;
  i_initial_epoch : Z;
  i_transition_id : list Z;
  transition_revision_of : Z;
  root_key_digest_of : list Z;
}.

Record SessionTransition : Type := mk_transition {
  revision : Z;
  reserved_epoch : Z;
  pending_epoch : option Z;
  pending_peer_static_pubkey : option (list Z);
  committed_history : list CommittedTransition;
}.

Record t : Type := mk {
  peer_id : Z;
  metadata_session_id : Z;
  peer_static_pubkey : option (list Z);
  datagram : SD.t;
  transition : SessionTransition;
  invalidated : bool;
}.

Definition with_datagram (s : t) (d : SD.t) : t := mk (peer_id s) (metadata_session_id s) (peer_static_pubkey s) d (transition s) (invalidated s).
Definition with_transition (s : t) (tr : SessionTransition) : t :=
  mk (peer_id s) (metadata_session_id s) (peer_static_pubkey s) (datagram s) tr (invalidated s).
Definition with_pubkey (s : t) (k : option (list Z)) : t := mk (peer_id s) (metadata_session_id s) k (datagram s) (transition s) (invalidated s).
Definition with_pending_pubkey (tr : SessionTransition) (k : option (list Z)) : SessionTransition :=
  mk_transition (revision tr) (reserved_epoch tr) (pending_epoch tr) k (committed_history tr).
Definition with_history (tr : SessionTransition) (h : list CommittedTransition) : SessionTransition :=
  mk_transition (revision tr) (reserved_epoch tr) (pending_epoch tr) (pending_peer_static_pubkey tr) h.

Inductive Error : Type :=
| AlreadyPending
| StaleEpoch
| Invalidated
| SessionChanged
| PubkeyMismatch
| PubkeyPending
| Datagram (e : SD.Error).

(** an operation: the new session and a result *)
Definition R (X : Type) : Type := t * outcome Error X.

(** ** Creation and health *)
Definition new (peer : Z) (root : list Z) (generation initial_epoch : Z) (send_alg recv_alg : list Z)
    (pubkey : option (list Z)) (uuid now : Z) : t :=
  mk peer uuid pubkey (SD.new root generation initial_epoch send_alg recv_alg now)
    (mk_transition 0 initial_epoch None None []) false.

Definition invalidate (s : t) : t :=
  mk (peer_id s) (metadata_session_id s) (peer_static_pubkey s) (SD.invalidate (datagram s)) (transition s) true.
Definition is_valid (s : t) : bool := negb (invalidated s) && SD.is_valid (datagram s).
Definition session_generation (s : t) : Z := SD.session_generation (datagram s).
Definition root_key (s : t) : list Z := SD.root_key (datagram s).
Definition next_sync_epoch (s : t) : Z := SD.next_sync_epoch (datagram s).
Definition transition_revision (s : t) : Z := revision (transition s).
Definition has_pending_transition (s : t) : bool := bool_decide (is_Some (pending_epoch (transition s))).
Definition check_encrypt_algo_same (s : t) (send_alg recv_alg : list Z) : bool := SD.check_encrypt_algo_same (datagram s) send_alg recv_alg.

(** ** Synchronisation *)
Definition prepare_sync_transition_at (s : t) (requested : option Z) : R (Z * list Z * Z * Z) :=
  let tr := transition s in
  match pending_epoch tr with
  | Some _ => (s, Err AlreadyPending)
  | None =>
      let minimum := Z.max (next_sync_epoch s) (wrap 32 (reserved_epoch tr + 1)) in
      match requested with
      | Some e =>
          if e <? minimum then (s, Err StaleEpoch)
          else let rev := wrap 64 (revision tr + 1) in
               (with_transition s (mk_transition rev e (Some e) (pending_peer_static_pubkey tr) (committed_history tr)),
                Ok (session_generation s, root_key s, e, rev))
      | None =>
          let rev := wrap 64 (revision tr + 1) in
          (with_transition s (mk_transition rev minimum (Some minimum) (pending_peer_static_pubkey tr) (committed_history tr)),
           Ok (session_generation s, root_key s, minimum, rev))
      end
  end.
Definition prepare_sync_transition (s : t) : R (Z * list Z * Z * Z) := prepare_sync_transition_at s None.

(** [push_back], then [pop_front] while the history is too long *)
Definition push_history (h : list CommittedTransition) (c : CommittedTransition) : list CommittedTransition :=
  let h := h ++ [c] in drop (length h - MAX_COMMITTED_TRANSITIONS_PER_SESSION) h.

Definition commit_reserved_sync (s : t) (expected : Z) (root : list Z) (generation initial_epoch : Z) (tid : list Z) (now : Z) : R unit :=
  let tr := transition s in
  if negb (is_valid s) then (s, Err Invalidated)
  else if negb (revision tr =? expected) || negb (bool_decide (pending_epoch tr = Some initial_epoch)) then (s, Err SessionChanged)
  else
    let d := SD.sync_root_key (datagram s) root generation initial_epoch true now in
    let key := match pending_peer_static_pubkey tr with Some k => Some k | None => peer_static_pubkey s end in
    let h := push_history (committed_history tr) (mk_committed Sync generation root initial_epoch tid expected) in
    (mk (peer_id s) (metadata_session_id s) key d
       (mk_transition (wrap 64 (revision tr + 1)) (Z.max (reserved_epoch tr) initial_epoch) None None h) (invalidated s), Ok tt).

Definition cancel_reserved_sync (s : t) (expected initial_epoch : Z) : t :=
  let tr := transition s in
  if (revision tr =? expected) && bool_decide (pending_epoch tr = Some initial_epoch) then
    with_transition s (mk_transition (wrap 64 (revision tr + 1)) (wrap 32 (next_sync_epoch s - 1)) None None (committed_history tr))
  else s.

Definition sync_root_key (s : t) (root : list Z) (generation initial_epoch : Z) (preserve_rx_grace : bool) (now : Z) : t :=
  let tr := transition s in
  with_transition (with_datagram s (SD.sync_root_key (datagram s) root generation initial_epoch preserve_rx_grace now))
    (mk_transition (wrap 64 (revision tr + 1)) (Z.max (reserved_epoch tr) initial_epoch) None None (committed_history tr)).

Definition invalidate_if_revision (s : t) (expected : Z) : t * bool :=
  let tr := transition s in
  if negb (revision tr =? expected) then (s, false)
  else (with_transition (invalidate s) (mk_transition (wrap 64 (revision tr + 1)) (reserved_epoch tr) None None (committed_history tr)), true).

(** ** Committed transitions *)
Definition record_committed_transition (s : t) (a : PeerSessionAction) (generation : Z) (root : list Z) (initial_epoch : Z) (tid : list Z) (rev : Z) : t :=
  let tr := transition s in
  with_transition s (with_history tr (push_history (committed_history tr) (mk_committed a generation root initial_epoch tid rev))).

Definition digest_root_key `{Sha256} (root : list Z) : list Z := sha256 root.
Definition root_key_digest `{Sha256} (s : t) : list Z := digest_root_key (root_key s).

Definition matches_identity `{Sha256} (i : InitiatorTransitionIdentity) (c : CommittedTransition) : bool :=
  bool_decide (action c = i_action i) && (c_generation c =? i_generation i) && (c_initial_epoch c =? i_initial_epoch i) &&
  bool_decide (c_transition_id c = i_transition_id i) && bool_decide (digest_root_key (c_root_key c) = root_key_digest_of i).
Definition committed_transition `{Sha256} (s : t) (i : InitiatorTransitionIdentity) : option CommittedTransition :=
  find (matches_identity i) (rev (committed_history (transition s))).
Definition last_committed_transition (s : t) : option CommittedTransition := head (rev (committed_history (transition s))).
Definition initialize_transition_revision (s : t) (rev : Z) : t :=
  let tr := transition s in
  with_transition s (mk_transition rev (reserved_epoch tr) (pending_epoch tr) (pending_peer_static_pubkey tr) (committed_history tr)).

(** ** The static key of the peer *)
(** [existing.is_some_and(|existing| existing != key)] *)
Definition differs (existing : option (list Z)) (key : list Z) : bool :=
  match existing with Some k => negb (bool_decide (k = key)) | None => false end.

Definition reserve_peer_static_pubkey (s : t) (key : option (list Z)) : R unit :=
  match key with
  | None => (s, Ok tt)
  | Some key =>
      let tr := transition s in
      if differs (peer_static_pubkey s) key then (s, Err PubkeyMismatch)
      else if differs (pending_peer_static_pubkey tr) key then (s, Err PubkeyPending)
      else (with_transition s (with_pending_pubkey tr (Some key)), Ok tt)
  end.

Definition commit_reserved_peer_static_pubkey (s : t) : R unit :=
  let tr := transition s in
  match pending_peer_static_pubkey tr with
  | Some key =>
      if differs (peer_static_pubkey s) key then (s, Err PubkeyMismatch)
      else (with_transition (with_pubkey s (Some key)) (with_pending_pubkey tr None), Ok tt)
  | None => (s, Ok tt)
  end.

Definition cancel_reserved_peer_static_pubkey (s : t) : t := with_transition s (with_pending_pubkey (transition s) None).

Definition check_or_set_peer_static_pubkey (s : t) (key : option (list Z)) : R unit :=
  match key with
  | None => (s, Ok tt)
  | Some key =>
      match peer_static_pubkey s with
      | Some k => if bool_decide (k = key) then (s, Ok tt) else (s, Err PubkeyMismatch)
      | None =>
          match pending_peer_static_pubkey (transition s) with
          | Some _ => (s, Err PubkeyPending)
          | None => (with_pubkey s (Some key), Ok tt)
          end
      end
  end.

Definition check_peer_static_pubkey (s : t) (key : option (list Z)) : outcome Error unit :=
  match key with
  | None => Ok tt
  | Some key =>
      if differs (peer_static_pubkey s) key
         || differs (pending_peer_static_pubkey (transition s)) key
      then Err PubkeyMismatch else Ok tt
  end.
Definition peer_static_pubkey_with_pending (s : t) : option (list Z) :=
  match pending_peer_static_pubkey (transition s) with Some k => Some k | None => peer_static_pubkey s end.

(** ** Packets *)
Definition dir_for_sender (sender receiver : Z) : SD.Direction := if sender <? receiver then SD.AToB else SD.BToA.

Section Packets.
Context {A : Aead} {H : Hmac}.

(** an operation of the datagram session *)
Definition on_datagram {X} (s : t) (m : SD.M X) : R X :=
  let '(d, r) := m (datagram s) in
  (with_datagram s d, match r with Ok x => Ok x | Err e => Err (Datagram e) | Panic => Panic end).

Definition encrypt_payload (s : t) (sender receiver : Z) (p : ZCPacket.t) (now : Z) : R ZCPacket.t :=
  if negb (is_valid s) then (s, Err Invalidated) else on_datagram s (SD.encrypt_payload (dir_for_sender sender receiver) p now).
Definition encrypt_payload_batch (s : t) (sender receiver : Z) (ps : list ZCPacket.t) (now : Z) : R (list ZCPacket.t) :=
  if negb (is_valid s) then (s, Err Invalidated) else on_datagram s (SD.encrypt_payload_batch (dir_for_sender sender receiver) ps now).
Definition decrypt_payload (s : t) (sender receiver : Z) (p : ZCPacket.t) (now : Z) : R ZCPacket.t :=
  if negb (is_valid s) then (s, Err Invalidated) else on_datagram s (SD.decrypt_payload (dir_for_sender sender receiver) p now).
Definition decrypt_payload_batch (s : t) (sender receiver : Z) (ps : list ZCPacket.t) (now : Z) : R (list (outcome Error ZCPacket.t)) :=
  if negb (is_valid s) then (s, Ok (map (fun _ => Err Invalidated) ps))
  else
    let '(s, r) := on_datagram s (SD.decrypt_payload_batch (dir_for_sender sender receiver) ps now) in
    (s, match r with
        | Ok rs => Ok (map (fun r => match r with Ok q => Ok q | Err e => Err (Datagram e) | Panic => Panic end) rs)
        | Err e => Err e
        | Panic => Panic
        end).
End Packets.
End PeerSession.
