(* ===== verification/PeerSessionProps.v ===== *)
(** * Properties of sessions with a peer

    Transitions commit at most once and in the order they were prepared, the static key of the peer
    is pinned, and nonces repeat exactly when the send epoch may rotate while a synchronisation
    waits for its commit (src/lowertier/src/peers/peer_session.rs). *)
From stdpp Require Import base list gmap numbers sorting.
From Stdlib Require Import ZArith Lia.
From S2P Require Import Prelude PacketHeader Packet PacketProps ReplayWindow NetAddr Cipher SecureDatagram SecureDatagramProps DatagramWf DatagramReplay PeerSession.

Local Open Scope Z_scope.

Module PeerSessionProps.
Import PeerSession.
Module SP := SecureDatagramProps.SecureDatagramProps.

(** ** Runs of a session *)
Inductive op : Type :=
| OEncrypt (sender receiver : Z) (p : ZCPacket.t) (now : Z)
| OEncryptBatch (sender receiver : Z) (ps : list ZCPacket.t) (now : Z)
| ODecrypt (sender receiver : Z) (p : ZCPacket.t) (now : Z)
| ODecryptBatch (sender receiver : Z) (ps : list ZCPacket.t) (now : Z)
| OPrepare (requested : option Z)
| OCommit (expected : Z) (root : list Z) (generation initial_epoch : Z) (tid : list Z) (now : Z)
| OCancel (expected initial_epoch : Z)
| ORecord (c : CommittedTransition)
| OReserveKey (key : option (list Z))
| OCommitKey
| OCancelKey
| OCheckKey (key : option (list Z))
| OInvalidate
| OInvalidateIf (expected : Z).

Section Runs.
Context {A : Aead} {H : Hmac}.

Definition pstep (s : t) (o : op) : t :=
  match o with
  | OEncrypt a b p now => (encrypt_payload s a b p now).1
  | OEncryptBatch a b ps now => (encrypt_payload_batch s a b ps now).1
  | ODecrypt a b p now => (decrypt_payload s a b p now).1
  | ODecryptBatch a b ps now => (decrypt_payload_batch s a b ps now).1
  | OPrepare req => (prepare_sync_transition_at s req).1
  | OCommit expected root g e tid now => (commit_reserved_sync s expected root g e tid now).1
  | OCancel expected e => cancel_reserved_sync s expected e
  | ORecord c => record_committed_transition s (action c) (c_generation c) (c_root_key c) (c_initial_epoch c) (c_transition_id c) (c_revision c)
  | OReserveKey k => (reserve_peer_static_pubkey s k).1
  | OCommitKey => (commit_reserved_peer_static_pubkey s).1
  | OCancelKey => cancel_reserved_peer_static_pubkey s
  | OCheckKey k => (check_or_set_peer_static_pubkey s k).1
  | OInvalidate => invalidate s
  | OInvalidateIf r => (invalidate_if_revision s r).1
  end.
Definition prun (s : t) (os : list op) : t := fold_left pstep os s.

(** what an operation does to the datagram session *)
Definition devents (s : t) (o : op) : list SP.event :=
  match o with
  | OEncrypt a b p now => if is_valid s then [SP.Encrypt (dir_for_sender a b) p now] else []
  | OEncryptBatch a b ps now => if is_valid s then [SP.EncryptBatch (dir_for_sender a b) ps now] else []
  | ODecrypt a b p now => if is_valid s then [SP.Decrypt (dir_for_sender a b) p now] else []
  | ODecryptBatch a b ps now => if is_valid s then [SP.DecryptBatch (dir_for_sender a b) ps now] else []
  | OCommit expected root g e tid now =>
      match (commit_reserved_sync s expected root g e tid now).2 with Ok _ => [SP.Sync root g e true now] | _ => [] end
  | OInvalidate => [SP.Invalidate]
  | OInvalidateIf r => if (invalidate_if_revision s r).2 then [SP.Invalidate] else []
  | _ => []
  end.

Lemma on_datagram_fst {X} s (m : SD.M X) : (on_datagram s m).1 = with_datagram s (m (datagram s)).1.
Proof. unfold on_datagram. by destruct (m (datagram s)). Qed.

Lemma commit_cases s expected root g e tid now :
  (exists er, commit_reserved_sync s expected root g e tid now = (s, Err er)) \/
  (is_valid s = true /\ revision (transition s) = expected /\ pending_epoch (transition s) = Some e /\
   commit_reserved_sync s expected root g e tid now =
   (mk (peer_id s) (metadata_session_id s) (match pending_peer_static_pubkey (transition s) with Some k => Some k | None => peer_static_pubkey s end)
      (SD.sync_root_key (datagram s) root g e true now)
      (mk_transition (wrap 64 (expected + 1)) (Z.max (reserved_epoch (transition s)) e) None None
        (push_history (committed_history (transition s)) (mk_committed Sync g root e tid expected))) (invalidated s), Ok tt)).
Proof.
  unfold commit_reserved_sync. destruct (is_valid s); cbn [negb]; [|eauto]. destruct (revision (transition s) =? expected) eqn:E; cbn [negb orb]; [|eauto].
  case_bool_decide as Hp; cbn [negb]; [|eauto]. bool_to_Z. subst. by right.
Qed.

End Runs.

(** ** Nonces *)
Section Nonces.
Context {A : Aead} {H : Hmac}.

Fixpoint all_devents (s : t) (os : list op) : list SP.event :=
  match os with [] => [] | o :: os => devents s o ++ all_devents (pstep s o) os end.

(** the nonces that a run uses *)
Definition pnonces_of_run (s : t) (os : list op) : list SP.nonce_use := SP.nonces_of_run (datagram s) (all_devents s os).






Lemma packet_transition s o : match o with OEncrypt _ _ _ _ | OEncryptBatch _ _ _ _ | ODecrypt _ _ _ _ | ODecryptBatch _ _ _ _ => True | _ => False end ->
  pstep s o = with_datagram s (datagram (pstep s o)).
Proof.
  assert (with_datagram s (datagram s) = s) as Hs by (by destruct s). destruct o; try done; intros _; cbn [pstep].
  - unfold encrypt_payload. destruct (is_valid s); cbn [negb]; [|done]. by rewrite on_datagram_fst.
  - unfold encrypt_payload_batch. destruct (is_valid s); cbn [negb]; [|done]. by rewrite on_datagram_fst.
  - unfold decrypt_payload. destruct (is_valid s); cbn [negb]; [|done]. by rewrite on_datagram_fst.
  - unfold decrypt_payload_batch. destruct (is_valid s); cbn [negb]; [|done]. unfold on_datagram. by destruct (SD.decrypt_payload_batch _ _ _ _).
Qed.

Lemma prepare_cases s req : (exists er, prepare_sync_transition_at s req = (s, Err er)) \/
  (pending_epoch (transition s) = None /\ exists e, Z.max (next_sync_epoch s) (wrap 32 (reserved_epoch (transition s) + 1)) <= e /\
    (req = Some e \/ e = Z.max (next_sync_epoch s) (wrap 32 (reserved_epoch (transition s) + 1))) /\
    prepare_sync_transition_at s req = (with_transition s (mk_transition (wrap 64 (revision (transition s) + 1)) e (Some e)
      (pending_peer_static_pubkey (transition s)) (committed_history (transition s))),
      Ok (session_generation s, root_key s, e, wrap 64 (revision (transition s) + 1)))).
Proof.
  unfold prepare_sync_transition_at. destruct (pending_epoch (transition s)); [eauto|]. destruct req as [e|].
  - destruct (e <? _) eqn:E; [eauto|]. bool_to_Z. right. split; [done|]. exists e. eauto.
  - right. split; [done|]. eexists. split; [done|]. eauto.
Qed.



End Nonces.

(** ** A rotation before the commit *)
Section Rotation.
Context {A : Aead} {AL : AeadLaws A} {H : Hmac}.


Lemma reserve_fresh s d n now : SD.send_seq s = (0, 0) -> SD.send_packets_since_epoch s = 0 -> 0 < n < SD.ROTATE_AFTER_PACKETS ->
  saturating_sub now (SD.send_epoch_started_ms s) < SD.ROTATE_AFTER_MS ->
  SP.reserved s d n now = map (fun i => SP.mk_use (SD.root_key s) d (SD.send_epoch s) i) (seqZ 0 n).
Proof.
  intros Hs Hk Hn Ht. unfold SP.reserved, SD.reserve_nonce_range, SD.maybe_rotate_epoch. rewrite (proj2 (Z.eqb_neq n 0)) by lia. rewrite Hk.
  rewrite (proj2 (Z.ltb_lt (saturating_add 64 0 n) _)) by (unfold saturating_add, u_max, SD.ROTATE_AFTER_PACKETS in *; lia).
  rewrite (proj2 (Z.ltb_lt (saturating_sub now _) _)) by done. cbn [andb SD.with_send SD.send_seq SD.send_epoch]. rewrite Hs.
  replace (SD.get d (0, 0)) with 0 by (by destruct d).
  rewrite (proj2 (Z.ltb_ge (saturating_sub (u_max 64) n) 0)) by (unfold saturating_sub; lia). cbn. done.
Qed.

Lemma commit_ok s root g e tid now : is_valid s = true -> pending_epoch (transition s) = Some e ->
  (commit_reserved_sync s (revision (transition s)) root g e tid now).2 = Ok tt /\
  datagram (commit_reserved_sync s (revision (transition s)) root g e tid now).1 = SD.sync_root_key (datagram s) root g e true now /\
  is_valid (commit_reserved_sync s (revision (transition s)) root g e tid now).1 = true.
Proof.
  intros Hv Hp. destruct (commit_cases s (revision (transition s)) root g e tid now) as [(er & E)|(_ & _ & _ & ->)].
  - unfold commit_reserved_sync in E. rewrite Hv, Z.eqb_refl, bool_decide_true in E by done. done.
  - split; [done|]. split; [done|]. unfold is_valid in *. cbn [fst datagram invalidated]. destruct (invalidated s); [done|]. cbn [negb andb] in *.
    unfold SD.sync_root_key. destruct (true && _); [destruct (SD.keep_epoch _ _), (SD.keep_epoch _ _)|]; done.
Qed.

(** the sender's state right after a synchronisation *)
Lemma sync_sender s root g e pres now : let s' := SD.sync_root_key s root g e pres now in
  SD.send_seq s' = (0, 0) /\ SD.send_packets_since_epoch s' = 0 /\ SD.send_epoch s' = e /\ SD.root_key s' = root /\ SD.send_epoch_started_ms s' = now.
Proof. unfold SD.sync_root_key. destruct (pres && _); [destruct (SD.keep_epoch _ _), (SD.keep_epoch _ _)|]; done. Qed.


(** a rotation in the last epoch starts at epoch zero again *)
Lemma reserve_wrapped s d now : SD.ROTATE_AFTER_MS <= saturating_sub now (SD.send_epoch_started_ms s) -> SD.send_epoch s = u_max 32 -> SD.send_seq s = (0, 0) ->
  SP.reserved s d 1 now = [SP.mk_use (SD.root_key s) d 0 0].
Proof.
  intros Ht He Hs. unfold SP.reserved, SD.reserve_nonce_range, SD.maybe_rotate_epoch. cbn [Z.eqb].
  rewrite (proj2 (Z.ltb_ge (saturating_sub now _) SD.ROTATE_AFTER_MS)), andb_false_r by lia.
  cbn [SD.with_send SD.send_seq SD.send_epoch]. rewrite He, Hs. by destruct d.
Qed.

(** The last epoch is no exception for [prepare_sync_transition_at].  After the first packet of a new
    session, which uses epoch zero, the peer asks for a synchronisation at the last epoch; the first
    packet after ten minutes of that epoch is sealed in epoch zero again, under the same root key and
    with the nonce of the first packet. *)
Lemma last_epoch_reuses_nonce peer root gen sa ra key uuid t0 sender receiver p q tid now0 now1 now2 :
  DatagramWf.wf (SD.new root gen 0 sa ra t0) -> SP.sealable p -> saturating_sub now0 t0 < SD.ROTATE_AFTER_MS -> SD.ROTATE_AFTER_MS <= saturating_sub now2 now1 ->
  let u := SP.mk_use root (dir_for_sender sender receiver) 0 0 in
  pnonces_of_run (new peer root gen 0 sa ra key uuid t0)
    [OEncrypt sender receiver p now0; OPrepare (Some (u_max 32)); OCommit 1 root gen (u_max 32) tid now1; OEncrypt sender receiver q now2] = [u; u].
Proof.
  intros Hw (pre & h & body & Hl & Hpe & Hb) Hnow0 Hnow2 u. set (d := dir_for_sender sender receiver) in *. set (s0 := SD.new root gen 0 sa ra t0) in *.
  assert (SP.state_ok s0) as Hst by (split; [apply Hw|]; by split). assert (SD.is_valid s0 = true) as Hv0 by done.
  assert (SP.reserved s0 d 1 now0 = [u]) as Hr0 by (rewrite reserve_fresh by (done || unfold SD.ROTATE_AFTER_PACKETS; lia); done).
  destruct (SP.encrypt_payload_spec s0 d p pre h body now0 (DatagramWf.wf_cache _ Hw) Hv0 Hst Hl Hpe Hb) as (s1 & text & tag & Henc & _ & Hs1 & _); [by destruct d|].
  set (x0 := new peer root gen 0 sa ra key uuid t0). set (x1 := with_datagram x0 s1).
  assert ((encrypt_payload x0 sender receiver p now0).1 = x1) as E1.
  { unfold encrypt_payload. change (is_valid x0) with true. cbn [negb]. rewrite on_datagram_fst. fold d. change (datagram x0) with s0. by rewrite Henc. }
  set (x2 := with_transition x1 (mk_transition 1 (u_max 32) (Some (u_max 32)) None [])).
  assert ((prepare_sync_transition_at x1 (Some (u_max 32))).1 = x2) as E2.
  { unfold prepare_sync_transition_at. cbn [x1 with_datagram transition x0 new pending_epoch reserved_epoch]. rewrite (proj2 (Z.ltb_ge _ _)); [done|].
    unfold next_sync_epoch, SD.next_sync_epoch. pose proof (wrap_range 32) as Hwr. apply Z.max_lub; [|done]. match goal with |- wrap 32 ?z <= _ => specialize (Hwr z ltac:(lia)) end. unfold is_u, u_max in *. lia. }
  assert (SD.is_valid s1 = true) as Hv1.
  { rewrite Hs1. pose proof (SP.reserve_range_spec d 1 now0 s0 ltac:(done)) as Hso. destruct (SD.reserve_nonce_range _ _ _ _) as [y r]. destruct Hso as [-> _]. exact Hv0. }
  assert (is_valid x2 = true) as Hv2 by exact Hv1. destruct (commit_ok x2 root gen (u_max 32) tid now1 Hv2 eq_refl) as (C1 & C2 & C3).
  change (revision (transition x2)) with 1 in C1, C2, C3. change (datagram x2) with s1 in C2.
  destruct (sync_sender s1 root gen (u_max 32) true now1) as (Y1 & _ & Y3 & Y4 & Y5).
  unfold pnonces_of_run. change (datagram x0) with s0. cbn [all_devents pstep devents]. rewrite E1, E2, C1, C3. change (is_valid x0) with true. cbn [app SP.nonces_of_run SP.nonces SP.step].
  fold d. rewrite Hv0, Hr0, Henc. cbn [fst app]. set (s3 := SD.sync_root_key _ _ _ _ _ _) in *.
  assert (SD.is_valid s3 = true) as -> by (unfold is_valid in C3; rewrite C2 in C3; by apply andb_true_iff in C3 as [_ ?]).
  rewrite reserve_wrapped by (done || by rewrite Y5). by rewrite Y4.
Qed.
End Rotation.

(** ** Transitions *)
Section Transitions.
Context {A : Aead} {H : Hmac}.

(** the revisions and epochs that a run prepares and commits *)
Definition prepared (s : t) (o : op) : list (Z * Z) :=
  match o with OPrepare req => match (prepare_sync_transition_at s req).2 with Ok (_, _, e, r) => [(r, e)] | _ => [] end | _ => [] end.
Definition committed (s : t) (o : op) : list (Z * Z) :=
  match o with OCommit r root g e tid now => match (commit_reserved_sync s r root g e tid now).2 with Ok _ => [(r, e)] | _ => [] end | _ => [] end.
Fixpoint prepared_of_run (s : t) (os : list op) : list (Z * Z) :=
  match os with [] => [] | o :: os => prepared s o ++ prepared_of_run (pstep s o) os end.
Fixpoint committed_of_run (s : t) (os : list op) : list (Z * Z) :=
  match os with [] => [] | o :: os => committed s o ++ committed_of_run (pstep s o) os end.

(** a pending epoch was prepared at the current revision, a reserved key agrees with the pinned one,
    and the history is short *)
Record session_inv (done : list (Z * Z)) (s : t) : Prop := {
  si_pending : forall e, pending_epoch (transition s) = Some e -> (revision (transition s), e) ∈ done;
  si_key : forall p k, pending_peer_static_pubkey (transition s) = Some p -> peer_static_pubkey s = Some k -> p = k;
  si_history : (length (committed_history (transition s)) <= MAX_COMMITTED_TRANSITIONS_PER_SESSION)%nat;
}.

Lemma push_history_length h c : (length (push_history h c) <= MAX_COMMITTED_TRANSITIONS_PER_SESSION)%nat.
Proof. unfold push_history. rewrite length_drop. lia. Qed.

(** what an operation may change: the revision grows by at most one, the pinned key stays *)
Definition stays (s s' : t) : Prop :=
  (revision (transition s') = revision (transition s) \/ revision (transition s') = wrap 64 (revision (transition s) + 1)) /\
  forall k, peer_static_pubkey s = Some k -> peer_static_pubkey s' = Some k.

Lemma differs_false o key : differs o key = false -> forall k, o = Some k -> k = key.
Proof. unfold differs. intros Hd k ->. by case_bool_decide. Qed.

Lemma transition_step done s o : session_inv done s -> session_inv (done ++ prepared s o) (pstep s o) /\ stays s (pstep s o).
Proof.
  intros [H1 H2 H3]. assert (session_inv (done ++ []) s /\ stays s s) as Hsame by (rewrite app_nil_r; split; [done|split; [by left|done]]).
  assert (forall d, session_inv (done ++ []) (with_datagram s d) /\ stays s (with_datagram s d)) as Hdat by (intros d; rewrite app_nil_r; split; [done|split; [by left|done]]).
  destruct o; cbn [prepared].
  1-4: rewrite packet_transition by done; apply Hdat.
  - cbn [pstep]. destruct (prepare_cases s requested) as [(er & ->)|(_ & e & _ & _ & ->)]; [done|]. cbn [fst snd]. split; [|split; [by right|done]].
    split; cbn [with_transition transition pending_epoch revision peer_static_pubkey pending_peer_static_pubkey committed_history]; [|done|done].
    intros e' [= <-]. apply elem_of_app. right. by apply list_elem_of_singleton.
  - cbn [pstep]. destruct (commit_cases s expected root generation initial_epoch tid now) as [(er & ->)|(_ & <- & _ & ->)]; [done|]. cbn [fst]. split.
    + split; cbn; [done|done|apply push_history_length].
    + split; [by right|]. cbn [peer_static_pubkey]. intros k Hk. destruct (pending_peer_static_pubkey (transition s)) as [q|] eqn:E; [|done].
      f_equal. by apply H2.
  - cbn [pstep]. unfold cancel_reserved_sync. destruct (_ && _); [|done]. rewrite app_nil_r. split; [by split|split; [by right|done]].
  - cbn [pstep]. rewrite app_nil_r. split; [split; cbn; [done|done|apply push_history_length]|split; [by left|done]].
  - cbn [pstep]. unfold reserve_peer_static_pubkey. destruct key as [key|]; [|done]. destruct (differs (peer_static_pubkey s) key) eqn:E; [done|]. destruct (differs (pending_peer_static_pubkey (transition s)) key); [done|].
    rewrite app_nil_r. split; [|split; [by left|done]]. split; cbn; [done| |done]. intros p k [= <-] Hk. symmetry. by apply (differs_false _ _ E).
  - cbn [pstep]. unfold commit_reserved_peer_static_pubkey. destruct (pending_peer_static_pubkey (transition s)) as [key|] eqn:Ep; [|done].
    destruct (differs (peer_static_pubkey s) key) eqn:E; [done|]. rewrite app_nil_r. split; [by split|split; [by left|]].
    cbn. intros k Hk. f_equal. symmetry. by apply (differs_false _ _ E).
  - rewrite app_nil_r. split; [by split|split; [by left|done]].
  - cbn [pstep]. unfold check_or_set_peer_static_pubkey. destruct key as [key|]; [|done]. destruct (peer_static_pubkey s) as [k|] eqn:Ek; [by destruct (bool_decide _)|].
    destruct (pending_peer_static_pubkey (transition s)) eqn:Ep; [done|]. rewrite app_nil_r. split; [|split; [by left|congruence]].
    split; cbn; [done|congruence|done].
  - rewrite app_nil_r. split; [by split|split; [by left|done]].
  - cbn [pstep]. unfold invalidate_if_revision. destruct (revision _ =? _); cbn [negb fst]; [|done]. rewrite app_nil_r. split; [by split|split; [by right|done]].
Qed.

Lemma committed_step done s o : session_inv done s -> committed s o = [] \/
  (committed s o = [(revision (transition s), (match o with OCommit _ _ _ e _ _ => e | _ => 0 end))] /\
   (revision (transition s), (match o with OCommit _ _ _ e _ _ => e | _ => 0 end)) ∈ done /\
   revision (transition (pstep s o)) = wrap 64 (revision (transition s) + 1)).
Proof.
  intros [H1 _ _]. destruct o; try (by left). cbn [committed pstep].
  destruct (commit_cases s expected root generation initial_epoch tid now) as [(er & ->)|(_ & <- & Hp & ->)]; [by left|]. right. cbn [fst snd].
  split; [done|]. split; [by apply H1|done].
Qed.

Lemma run_transitions os : forall done s, session_inv done s -> 0 <= revision (transition s) -> revision (transition s) + Z.of_nat (length os) < 2 ^ 64 ->
  session_inv (done ++ prepared_of_run s os) (prun s os) /\ (forall k, peer_static_pubkey s = Some k -> peer_static_pubkey (prun s os) = Some k) /\
  StronglySorted Z.lt (committed_of_run s os).*1 /\ Forall (fun x => revision (transition s) <= x.1) (committed_of_run s os) /\
  (forall x, x ∈ committed_of_run s os -> x ∈ done ++ prepared_of_run s os).
Proof.
  induction os as [|o os IH]; intros done s Hi H0 Hl; cbn [prepared_of_run committed_of_run].
  { rewrite app_nil_r. split_and!; try done; [constructor|by intros ? ?%elem_of_nil]. }
  cbn [length] in Hl. destruct (transition_step done s o Hi) as [Hi' [Hrev Hkey]].
  assert (wrap 64 (revision (transition s) + 1) = revision (transition s) + 1) as Hwr by (apply wrap_small; unfold is_u; lia). rewrite Hwr in Hrev.
  destruct (IH _ (pstep s o) Hi') as (I1 & I2 & I3 & I4 & I5); [lia|lia|]. rewrite app_assoc. change (prun s (o :: os)) with (prun (pstep s o) os).
  assert (Forall (fun x => revision (transition s) <= x.1) (committed_of_run (pstep s o) os)) as I4' by (eapply Forall_impl; [exact I4|]; cbn; lia).
  split_and!; [done|auto| | |].
  - destruct (committed_step done s o Hi) as [->|(-> & _ & Hr)]; [done|]. cbn. constructor; [done|]. apply Forall_fmap. eapply Forall_impl; [exact I4|]. cbn. lia.
  - destruct (committed_step done s o Hi) as [->|(-> & _ & _)]; [done|]. constructor; [cbn; lia|done].
  - intros x [Hx|Hx]%elem_of_app; [|by apply I5]. destruct (committed_step done s o Hi) as [E|(E & Hd & _)]; rewrite E in Hx; [by apply elem_of_nil in Hx|].
    apply list_elem_of_singleton in Hx as ->. apply elem_of_app. left. apply elem_of_app. by left.
Qed.

(** C6: In any run of fewer than 2^64 operations, synchronisations commit in the order they were
    prepared and each at most once, with the revision and epoch of a preparation of the run; the
    static key of the peer never changes once it is known; and the history keeps at most eight
    committed transitions. *)
Theorem peer_transitions_serial peer root gen epoch0 sa ra key uuid t0 os os' :
  Z.of_nat (length (os ++ os')) < 2 ^ 64 ->
  let s0 := new peer root gen epoch0 sa ra key uuid t0 in
  StronglySorted Z.lt (committed_of_run s0 (os ++ os')).*1 /\
  (forall x, x ∈ committed_of_run s0 (os ++ os') -> x ∈ prepared_of_run s0 (os ++ os')) /\
  (forall k, peer_static_pubkey (prun s0 os) = Some k -> peer_static_pubkey (prun s0 (os ++ os')) = Some k) /\
  (length (committed_history (transition (prun s0 (os ++ os')))) <= MAX_COMMITTED_TRANSITIONS_PER_SESSION)%nat.
Proof.
  intros Hl s0. assert (session_inv [] s0) as Hi by (split; [done|done|cbn; lia]).
  destruct (run_transitions (os ++ os') [] s0 Hi) as (R1 & _ & R3 & _ & R5); [done|exact Hl|].
  split; [done|]. split; [done|]. split; [|apply R1]. rewrite length_app in Hl.
  destruct (run_transitions os [] s0 Hi) as (Q1 & _); [done|cbn; lia|]. unfold prun at 2. rewrite fold_left_app. fold (prun s0 os).
  intros k Hk. assert (forall os s dn, session_inv dn s -> peer_static_pubkey s = Some k -> peer_static_pubkey (fold_left pstep os s) = Some k) as Hkeep.
  { clear. induction os as [|o os IH]; intros s dn Hi Hk; [done|]. cbn. destruct (transition_step dn s o Hi) as [Hi' [_ Hkey]]. eapply IH; [exact Hi'|by apply Hkey]. }
  by eapply Hkeep.
Qed.
End Transitions.

(** ** Examples *)
#[local] Existing Instances Cipher.sum_aead Cipher.sum_aead_laws SP.sum_hmac.

Definition demo_peer : t := new 2 (replicate 32 5) 1 7 SP.aes SP.aes None 0 1000.
Definition demo_ops : list op :=
  [OEncrypt 1 2 SP.plain_packet 1000; OReserveKey (Some [9]); OPrepare None; OEncrypt 1 2 SP.plain_packet 1001;
   OCommit 1 (replicate 32 5) 1 8 [4] 1002; OEncrypt 1 2 SP.plain_packet 1003; OCheckKey (Some [3]);
   OCommit 1 (replicate 32 5) 1 8 [4] 1004].



Lemma peer_transitions_serial_witness :
  committed_of_run demo_peer demo_ops = [(1, 8)] /\ peer_static_pubkey (prun demo_peer demo_ops) = Some [9] /\
  StronglySorted Z.lt (committed_of_run demo_peer ([] ++ demo_ops)).*1.
Proof.
  split; [reflexivity|]. split; [reflexivity|].
  apply (peer_transitions_serial 2 (replicate 32 5) 1 7 SP.aes SP.aes None 0 1000 [] demo_ops). cbn. lia.
Defined.
End PeerSessionProps.
