(* ===== verification/SessionStore.v ===== *)
(** * The store of peer sessions

    [PeerSessionStore] of src/lowertier/src/peers/peer_session.rs: the published sessions of each peer,
    the creations, in-doubt initiator transitions, responder proofs and initiator receipts that a
    handshake leaves behind, the process-wide quotas of these records, the reservation an initiator
    holds and the transition a responder has prepared.

    A session is shared ([Arc<PeerSession>]): the model has a heap of sessions and every record holds a
    pointer, [Arc::ptr_eq] is equality of pointers.  A [QuotaPermit] is one unit of its counter; dropping
    the record that owns it gives the unit back.  The creation lock makes each store operation atomic.
    The clock, the random transition identifiers, root keys and session uuids are arguments. *)
From stdpp Require Import base list gmap numbers.
From Stdlib Require Import ZArith Lia.
From S2P Require Import Prelude NetAddr Cipher SecureDatagram PeerSession.

Local Open Scope Z_scope.

Module SessionStore.
Module PS := PeerSession.PeerSession.
#[local] Existing Instance PS.PeerSessionAction_eq_dec.

(** milliseconds *)
Definition SESSION_IDLE_TIMEOUT : Z := 60 * 1000.
Definition INITIATOR_RECOVERY_LIFETIME : Z := 120 * 1000.
Definition MAX_IN_DOUBT_RESERVATIONS : Z := 256.
Definition MAX_RESPONDER_RECOVERY_RECORDS : Z := 256.
Definition MAX_RESPONDER_RECOVERIES_PER_PRINCIPAL : Z := 2.
Definition MAX_INITIATOR_RECEIPT_RECORDS : Z := 256.

(** network name and peer id *)
Definition SessionKey : Type := (list Z * Z)%type.
Definition ptr : Type := Z.
Notation Identity := PS.InitiatorTransitionIdentity.
Definition session_key (i : Identity) : SessionKey := (PS.i_network_name i, PS.i_peer_id i).
#[export] Instance identity_eq_dec : EqDecision Identity.
Proof. solve_decision. Defined.

Definition zero_id : list Z := replicate 16 0.

Definition identity_new (key : SessionKey) (metadata : Z) (a : PS.PeerSessionAction) (generation epoch : Z) (tid digest : list Z) : Identity :=
  PS.mk_identity key.1 key.2 metadata a generation epoch tid 0 digest.
Definition with_revision (i : Identity) (rev : Z) : Identity :=
  PS.mk_identity (PS.i_network_name i) (PS.i_peer_id i) (PS.session_metadata_id i) (PS.i_action i) (PS.i_generation i)
    (PS.i_initial_epoch i) (PS.i_transition_id i) rev (PS.root_key_digest_of i).

(** the local revision is not compared *)
Definition matches_authenticated_fields (a b : Identity) : bool :=
  bool_decide (session_key a = session_key b) && (PS.session_metadata_id a =? PS.session_metadata_id b) &&
  bool_decide (PS.i_action a = PS.i_action b) && (PS.i_generation a =? PS.i_generation b) &&
  (PS.i_initial_epoch a =? PS.i_initial_epoch b) && bool_decide (PS.i_transition_id a = PS.i_transition_id b) &&
  bool_decide (PS.root_key_digest_of a = PS.root_key_digest_of b).

Inductive ReservationState : Type := RESERVATION_PENDING | RESERVATION_COMMITTED | RESERVATION_CANCELED | RESERVATION_SUSPENDED.
#[export] Instance ReservationState_eq_dec : EqDecision ReservationState.
Proof. solve_decision. Defined.

Record InitiatorSessionReservation : Type := mk_reservation {
  r_key : SessionKey;
  r_session : ptr;
  r_action : PS.PeerSessionAction;
  r_generation : Z;
  r_root_key : list Z;
  r_initial_epoch : Z;
  r_transition_revision : Z;
  r_transition_id : list Z;
  r_send_algorithm : list Z;
  r_recv_algorithm : list Z;
  r_peer_static_pubkey : option (list Z);
  recovery_quota : bool;
  publishes_session : bool;
  previous_session : option (ptr * Z);
  state : ReservationState;
}.
Definition with_state (r : InitiatorSessionReservation) (quota : bool) (st : ReservationState) : InitiatorSessionReservation :=
  mk_reservation (r_key r) (r_session r) (r_action r) (r_generation r) (r_root_key r) (r_initial_epoch r) (r_transition_revision r)
    (r_transition_id r) (r_send_algorithm r) (r_recv_algorithm r) (r_peer_static_pubkey r) quota (publishes_session r)
    (previous_session r) st.
Definition with_transition_id (r : InitiatorSessionReservation) (tid : list Z) : InitiatorSessionReservation :=
  mk_reservation (r_key r) (r_session r) (r_action r) (r_generation r) (r_root_key r) (r_initial_epoch r) (r_transition_revision r)
    tid (r_send_algorithm r) (r_recv_algorithm r) (r_peer_static_pubkey r) (recovery_quota r) (publishes_session r)
    (previous_session r) (state r).

Record ResponderTransitionRecovery : Type := mk_recovery {
  v_session : ptr;
  v_action : PS.PeerSessionAction;
  v_generation : Z;
  v_root_key : list Z;
  v_initial_epoch : Z;
  v_transition_id : list Z;
  v_transition_revision : Z;
}.

(** The three records and the backup of a proof own one permit each. *)
Record SuspendedInitiatorReservation : Type := mk_suspended {
  s_identity : Identity;
  s_reservation : InitiatorSessionReservation;
}.
Record ResponderRecoveryRecord : Type := mk_record {
  p_identity : Identity;
  p_recovery : ResponderTransitionRecovery;
  p_created_at : Z;
}.
Record InitiatorReceiptRecord : Type := mk_receipt {
  c_identity : Identity;
  c_session : ptr;
}.
Record PeerSessionEntry : Type := mk_entry {
  e_session : ptr;
  e_last_used_at : Z;
}.

(** What [prepare_responder_session] returns; it is owned by the connection. *)
Record UpsertResponderSessionReturn : Type := mk_prepared {
  u_session : ptr;
  u_action : PS.PeerSessionAction;
  u_generation : Z;
  u_root_key : option (list Z);
  u_initial_epoch : Z;
  u_transition_revision : option Z;
  u_transition_id : list Z;
  proof_dependency : option (list Z);
  proof_cleared : bool;
  committed : bool;
  proof_backup : option ResponderRecoveryRecord;
  prepared_key : SessionKey;
}.
Definition with_proof (u : UpsertResponderSessionReturn) (dep : option (list Z)) (cleared done : bool) (b : option ResponderRecoveryRecord)
    : UpsertResponderSessionReturn :=
  mk_prepared (u_session u) (u_action u) (u_generation u) (u_root_key u) (u_initial_epoch u) (u_transition_revision u)
    (u_transition_id u) dep cleared done b (prepared_key u).

(** The sessions on the heap, the maps of the store and the counters of the process. *)
Record world : Type := mk_world {
  heap : gmap ptr PS.t;
  sessions : gmap SessionKey PeerSessionEntry;
  pending_creates : gmap SessionKey ptr;
  in_doubt_initiators : gmap SessionKey SuspendedInitiatorReservation;
  responder_recoveries : gmap SessionKey ResponderRecoveryRecord;
  initiator_receipts : gmap SessionKey InitiatorReceiptRecord;
  IN_DOUBT_RESERVATION_COUNT : Z;
  RESPONDER_RECOVERY_RECORD_COUNT : Z;
  INITIATOR_RECEIPT_RECORD_COUNT : Z;
}.
Definition set_heap (w : world) (h : gmap ptr PS.t) : world :=
  mk_world h (sessions w) (pending_creates w) (in_doubt_initiators w) (responder_recoveries w) (initiator_receipts w)
    (IN_DOUBT_RESERVATION_COUNT w) (RESPONDER_RECOVERY_RECORD_COUNT w) (INITIATOR_RECEIPT_RECORD_COUNT w).
Definition set_sessions (w : world) (m : gmap SessionKey PeerSessionEntry) : world :=
  mk_world (heap w) m (pending_creates w) (in_doubt_initiators w) (responder_recoveries w) (initiator_receipts w)
    (IN_DOUBT_RESERVATION_COUNT w) (RESPONDER_RECOVERY_RECORD_COUNT w) (INITIATOR_RECEIPT_RECORD_COUNT w).
Definition set_pending (w : world) (m : gmap SessionKey ptr) : world :=
  mk_world (heap w) (sessions w) m (in_doubt_initiators w) (responder_recoveries w) (initiator_receipts w)
    (IN_DOUBT_RESERVATION_COUNT w) (RESPONDER_RECOVERY_RECORD_COUNT w) (INITIATOR_RECEIPT_RECORD_COUNT w).
Definition set_in_doubt (w : world) (m : gmap SessionKey SuspendedInitiatorReservation) : world :=
  mk_world (heap w) (sessions w) (pending_creates w) m (responder_recoveries w) (initiator_receipts w)
    (IN_DOUBT_RESERVATION_COUNT w) (RESPONDER_RECOVERY_RECORD_COUNT w) (INITIATOR_RECEIPT_RECORD_COUNT w).
Definition set_recoveries (w : world) (m : gmap SessionKey ResponderRecoveryRecord) : world :=
  mk_world (heap w) (sessions w) (pending_creates w) (in_doubt_initiators w) m (initiator_receipts w)
    (IN_DOUBT_RESERVATION_COUNT w) (RESPONDER_RECOVERY_RECORD_COUNT w) (INITIATOR_RECEIPT_RECORD_COUNT w).
Definition set_receipts (w : world) (m : gmap SessionKey InitiatorReceiptRecord) : world :=
  mk_world (heap w) (sessions w) (pending_creates w) (in_doubt_initiators w) (responder_recoveries w) m
    (IN_DOUBT_RESERVATION_COUNT w) (RESPONDER_RECOVERY_RECORD_COUNT w) (INITIATOR_RECEIPT_RECORD_COUNT w).
Definition set_counts (w : world) (d r c : Z) : world :=
  mk_world (heap w) (sessions w) (pending_creates w) (in_doubt_initiators w) (responder_recoveries w) (initiator_receipts w) d r c.

Inductive Error : Type :=
| ZeroTransitionId
| TransitionIdChanged
| RevisionMismatch
| InvalidLifetime
| IdentityMismatch
| NotPending
| PermitMissing
| AlreadyInDoubt
| ProofPending
| NoPrincipal
| PrincipalFull
| CapacityFull
| ReceiptPending
| ReceiptChanged
| NoInDoubt
| InDoubtMismatch
| InDoubtChanged
| InconsistentKey
| AwaitingRecovery
| CreationPending
| NoSession
| AlgorithmMismatch
| GenerationMismatch
| MissingRootKey
| StaleRootKey
| SyncPending
| ClaimChanged
| StoreChanged
| ProofRequired
| BackupMissing
| MissingRevision
| NoProof
| ProofMismatch
| DependencyMismatch
| Session (e : PS.Error).

(** ** Effects *)
Definition M (X : Type) : Type := world -> world * outcome Error X.
#[export] Instance M_ret : MRet M := fun _ x w => (w, Ok x).
#[export] Instance M_bind : MBind M := fun _ _ f m w =>
  match m w with
  | (w', Ok x) => f x w'
  | (w', Err e) => (w', Err e)
  | (w', Panic) => (w', Panic)
  end.
Definition fail {X} (e : Error) : M X := fun w => (w, Err e).
Definition panic {X} : M X := fun w => (w, Panic).
Definition read : M world := fun w => (w, Ok w).
Definition modify (f : world -> world) : M unit := fun w => (f w, Ok tt).
Definition guard (b : bool) (e : Error) : M unit := if b then mret tt else fail e.
Definition require {X} (o : option X) (e : Error) : M X := match o with Some x => mret x | None => fail e end.
Definition lift {X} (r : outcome PS.Error X) : M X := fun w =>
  (w, match r with Ok x => Ok x | Err e => Err (Session e) | Panic => Panic end).

(** a pointer always has its session: see the invariant *)
Definition deref (p : ptr) : M PS.t := fun w => (w, match heap w !! p with Some s => Ok s | None => Panic end).
Definition put (p : ptr) (s : PS.t) : M unit := modify (fun w => set_heap w (<[p := s]> (heap w))).
(** a method that may change the session, and one that cannot fail *)
Definition on_session {X} (p : ptr) (f : PS.t -> PS.R X) : M X :=
  s ← deref p; _ ← put p (f s).1; lift (f s).2.
Definition update (p : ptr) (f : PS.t -> PS.t) : M unit := s ← deref p; put p (f s).
(** [Arc::new] *)
Definition alloc (s : PS.t) : M ptr := fun w =>
  let p := fresh (dom (heap w)) in (set_heap w (<[p := s]> (heap w)), Ok p).

(** ** Quotas *)
(** The loop of [try_reserve_global] ends with the exchange of the value it has read. *)
Definition try_reserve_global (counter limit : Z) : Z * bool := if limit <=? counter then (counter, false) else (counter + 1, true).
(** [QuotaPermit::drop], a [fetch_sub] *)
Definition drop_permit (counter : Z) : Z := wrap 64 (counter - 1).

Definition reserve_in_doubt : M unit :=
  w ← read;
  let '(c, got) := try_reserve_global (IN_DOUBT_RESERVATION_COUNT w) MAX_IN_DOUBT_RESERVATIONS in
  _ ← modify (fun w => set_counts w c (RESPONDER_RECOVERY_RECORD_COUNT w) (INITIATOR_RECEIPT_RECORD_COUNT w));
  guard got CapacityFull.
Definition reserve_recovery : M unit :=
  w ← read;
  let '(c, got) := try_reserve_global (RESPONDER_RECOVERY_RECORD_COUNT w) MAX_RESPONDER_RECOVERY_RECORDS in
  _ ← modify (fun w => set_counts w (IN_DOUBT_RESERVATION_COUNT w) c (INITIATOR_RECEIPT_RECORD_COUNT w));
  guard got CapacityFull.
Definition reserve_receipt : M unit :=
  w ← read;
  let '(c, got) := try_reserve_global (INITIATOR_RECEIPT_RECORD_COUNT w) MAX_INITIATOR_RECEIPT_RECORDS in
  _ ← modify (fun w => set_counts w (IN_DOUBT_RESERVATION_COUNT w) (RESPONDER_RECOVERY_RECORD_COUNT w) c);
  guard got CapacityFull.
Definition release_in_doubt (w : world) : world :=
  set_counts w (drop_permit (IN_DOUBT_RESERVATION_COUNT w)) (RESPONDER_RECOVERY_RECORD_COUNT w) (INITIATOR_RECEIPT_RECORD_COUNT w).
Definition release_recovery (w : world) : world :=
  set_counts w (IN_DOUBT_RESERVATION_COUNT w) (drop_permit (RESPONDER_RECOVERY_RECORD_COUNT w)) (INITIATOR_RECEIPT_RECORD_COUNT w).
Definition release_receipt (w : world) : world :=
  set_counts w (IN_DOUBT_RESERVATION_COUNT w) (RESPONDER_RECOVERY_RECORD_COUNT w) (drop_permit (INITIATOR_RECEIPT_RECORD_COUNT w)).

(** Removing a record, or inserting over one, drops its permit. *)
Definition remove_recovery (key : SessionKey) (w : world) : world :=
  match responder_recoveries w !! key with
  | Some _ => release_recovery (set_recoveries w (delete key (responder_recoveries w)))
  | None => w
  end.
Definition insert_recovery (key : SessionKey) (p : ResponderRecoveryRecord) (w : world) : world :=
  let w := remove_recovery key w in set_recoveries w (<[key := p]> (responder_recoveries w)).
Definition remove_receipt (key : SessionKey) (w : world) : world :=
  match initiator_receipts w !! key with
  | Some _ => release_receipt (set_receipts w (delete key (initiator_receipts w)))
  | None => w
  end.
Definition insert_receipt (key : SessionKey) (c : InitiatorReceiptRecord) (w : world) : world :=
  let w := remove_receipt key w in set_receipts w (<[key := c]> (initiator_receipts w)).

(** [remove_if] with [Arc::ptr_eq] *)
Definition remove_pending_if (key : SessionKey) (p : ptr) (w : world) : world :=
  if bool_decide (pending_creates w !! key = Some p) then set_pending w (delete key (pending_creates w)) else w.
Definition remove_session_if (key : SessionKey) (p : ptr) (w : world) : world :=
  match sessions w !! key with
  | Some e => if e_session e =? p then set_sessions w (delete key (sessions w)) else w
  | None => w
  end.
Definition publish (key : SessionKey) (p : ptr) (now : Z) (w : world) : world :=
  set_sessions w (<[key := mk_entry p now]> (sessions w)).

(** ** Published sessions *)
Definition session_valid (w : world) (p : ptr) : bool := match heap w !! p with Some s => PS.is_valid s | None => false end.

Definition peek (w : world) (key : SessionKey) : option ptr :=
  match sessions w !! key with
  | Some e => if session_valid w (e_session e) then Some (e_session e) else None
  | None => None
  end.
Definition get (key : SessionKey) (now : Z) : M (option ptr) := fun w =>
  match sessions w !! key with
  | Some e => if session_valid w (e_session e) then (publish key (e_session e) now w, Ok (Some (e_session e)))
              else (remove_session_if key (e_session e) w, Ok None)
  | None => (w, Ok None)
  end.
Definition touch_if_same (key : SessionKey) (p : ptr) (now : Z) (w : world) : world :=
  match sessions w !! key with
  | Some e => if e_session e =? p then publish key p now w else w
  | None => w
  end.
Definition remove (key : SessionKey) (w : world) : world := set_sessions w (delete key (sessions w)).
Definition remove_if_same (key : SessionKey) (p : ptr) (w : world) : world := remove_session_if key p w.
Definition insert_session (key : SessionKey) (p : ptr) (now : Z) (w : world) : world :=
  publish key p now (set_pending w (delete key (pending_creates w))).
Definition has_pending_create (w : world) (key : SessionKey) : bool := bool_decide (is_Some (pending_creates w !! key)).

(** ** Proofs of the responder *)
Definition invalidate_at (p : ptr) (w : world) : world := set_heap w (alter PS.invalidate p (heap w)).
Definition pubkey_at (w : world) (p : ptr) : option (list Z) := heap w !! p ≫= PS.peer_static_pubkey_with_pending.

Definition expired (lifetime now : Z) (w : world) : list SessionKey :=
  omap (fun '(key, p) => if lifetime <=? saturating_sub now (p_created_at p) then Some key else None) (map_to_list (responder_recoveries w)).
Definition expire_one (wn : world * Z) (key : SessionKey) : world * Z :=
  let '(w, n) := wn in
  match responder_recoveries w !! key with
  | Some p => (invalidate_at (v_session (p_recovery p)) (remove_recovery key w), n + 1)
  | None => (w, n)
  end.
Definition expire_responder_recoveries_locked (lifetime now : Z) (w : world) : world * Z :=
  fold_left expire_one (expired lifetime now w) (w, 0).
Definition expire_responder_recoveries (now : Z) (w : world) : world :=
  (expire_responder_recoveries_locked INITIATOR_RECOVERY_LIFETIME now w).1.

(** No timer touches a transition in doubt. *)
Definition expire_in_doubt_sessions (w : world) : Z := 0.

(** the record under [key], removed when it satisfies [f] *)
Definition remove_recovery_if (key : SessionKey) (f : ResponderRecoveryRecord -> bool) (w : world) : world * bool :=
  match responder_recoveries w !! key with
  | Some p => if f p then (remove_recovery key w, true) else (w, false)
  | None => (w, false)
  end.
Definition remove_receipt_if (key : SessionKey) (f : InitiatorReceiptRecord -> bool) (w : world) : world * bool :=
  match initiator_receipts w !! key with
  | Some c => if f c then (remove_receipt key w, true) else (w, false)
  | None => (w, false)
  end.

Definition consume_responder_recovery (i : Identity) (now : Z) (w : world) : world * bool :=
  remove_recovery_if (session_key i) (fun p => matches_authenticated_fields (p_identity p) i) (expire_responder_recoveries now w).
Definition acknowledge_responder_recovery (key : SessionKey) (tid : list Z) (now : Z) (w : world) : world * bool :=
  remove_recovery_if key (fun p => bool_decide (PS.i_transition_id (p_identity p) = tid)) (expire_responder_recoveries now w).
Definition has_responder_recovery (key : SessionKey) (now : Z) (w : world) : world * bool :=
  let w := expire_responder_recoveries now w in (w, bool_decide (is_Some (responder_recoveries w !! key))).
Definition abandon_unacknowledged_responder_recovery (key : SessionKey) (now : Z) (w : world) : world :=
  remove_recovery key (expire_responder_recoveries now w).
Definition responder_recovery_id (key : SessionKey) (now : Z) (w : world) : world * option (list Z) :=
  let w := expire_responder_recoveries now w in
  (w, (fun p => PS.i_transition_id (p_identity p)) <$> responder_recoveries w !! key).

(** ** Receipts of the initiator *)
Definition record_initiator_receipt (i : Identity) (p : ptr) : M unit :=
  _ ← guard (negb (bool_decide (PS.i_transition_id i = zero_id))) ZeroTransitionId;
  w ← read;
  match initiator_receipts w !! session_key i with
  | Some c => if matches_authenticated_fields (c_identity c) i && (c_session c =? p) then mret tt else fail ReceiptPending
  | None =>
      _ ← reserve_receipt;
      modify (insert_receipt (session_key i) (mk_receipt i p))
  end.
Definition initiator_receipt_id (w : world) (key : SessionKey) : option (list Z) :=
  (fun c => PS.i_transition_id (c_identity c)) <$> initiator_receipts w !! key.
Definition initiator_receipt_identity (w : world) (key : SessionKey) : option Identity := c_identity <$> initiator_receipts w !! key.
Definition acknowledge_initiator_receipt (key : SessionKey) (tid : list Z) (w : world) : world * bool :=
  remove_receipt_if key (fun c => bool_decide (PS.i_transition_id (c_identity c) = tid)) w.
Definition acknowledge_initiator_receipt_exact (i : Identity) (w : world) : world * bool :=
  remove_receipt_if (session_key i) (fun c => matches_authenticated_fields (c_identity c) i) w.

Definition active_transition_id (w : world) (key : SessionKey) : option (list Z) :=
  e ← sessions w !! key; s ← heap w !! e_session e; PS.c_transition_id <$> PS.last_committed_transition s.

(** ** The reservation of an initiator *)
Definition bind_transition_id (r : InitiatorSessionReservation) (tid : list Z) : outcome Error InitiatorSessionReservation :=
  if bool_decide (tid = zero_id) then Err ZeroTransitionId
  else if negb (bool_decide (r_transition_id r = zero_id)) && negb (bool_decide (r_transition_id r = tid)) then Err TransitionIdChanged
  else Ok (with_transition_id r tid).
Definition verify_transition_revision (r : InitiatorSessionReservation) (expected : Z) : outcome Error unit :=
  if r_transition_revision r =? expected then Ok tt else Err RevisionMismatch.

(** [release_recovery_quota] *)
Definition release_quota (r : InitiatorSessionReservation) (w : world) : world := if recovery_quota r then release_in_doubt w else w.

Definition cancel_initiator_reservation (r : InitiatorSessionReservation) : M unit :=
  if publishes_session r then modify (remove_pending_if (r_key r) (r_session r))
  else match r_action r with
       | PS.Create => modify (remove_pending_if (r_key r) (r_session r))
       | PS.Sync => update (r_session r) (fun s => PS.cancel_reserved_sync s (r_transition_revision r) (r_initial_epoch r))
       | PS.Join => mret tt
       end.

(** [InitiatorSessionReservation::cancel] *)
Definition cancel (r : InitiatorSessionReservation) : M InitiatorSessionReservation :=
  match state r with
  | RESERVATION_PENDING =>
      _ ← cancel_initiator_reservation r;
      _ ← modify (release_quota r);
      mret (with_state r false RESERVATION_CANCELED)
  | _ => mret r
  end.

(** [InitiatorSessionReservation::drop]; the permit goes with the value. *)
Definition drop_reservation (r : InitiatorSessionReservation) : M unit :=
  r ← (match state r with RESERVATION_SUSPENDED => mret r | _ => cancel r end);
  modify (release_quota r).

(** [m], and [f] when it fails: the permit a failed call drops, the state it restores *)
Definition on_error {X} (m : M X) (f : world -> world) : M X := fun w =>
  match m w with (w', Err e) => (f w', Err e) | r => r end.

Section Identities.
Context {H : Sha256}.

Definition active_transition_matches (w : world) (i : Identity) : bool :=
  bool_decide (is_Some (e ← sessions w !! session_key i; s ← heap w !! e_session e; PS.committed_transition s i)).

Definition transition_identity_with_session_metadata (r : InitiatorSessionReservation) (metadata : Z) : Identity :=
  with_revision (identity_new (r_key r) metadata (r_action r) (r_generation r) (r_initial_epoch r) (r_transition_id r)
    (PS.digest_root_key (r_root_key r))) (r_transition_revision r).
Definition matches_transition_identity_fields (r : InitiatorSessionReservation) (i : Identity) : bool :=
  bool_decide (session_key i = r_key r) && bool_decide (PS.i_action i = r_action r) && (PS.i_generation i =? r_generation r) &&
  (PS.i_initial_epoch i =? r_initial_epoch r) && bool_decide (PS.i_transition_id i = r_transition_id r) &&
  ((PS.transition_revision_of i =? 0) || (PS.transition_revision_of i =? r_transition_revision r)) &&
  bool_decide (PS.root_key_digest_of i = PS.digest_root_key (r_root_key r)).

(** ** Transitions in doubt *)
Definition retain_in_doubt_reservation (r : InitiatorSessionReservation) (i : Identity) (w : world) : world * bool :=
  match in_doubt_initiators w !! session_key i with
  | Some _ => (w, false)
  | None => (set_in_doubt w (<[session_key i := mk_suspended i r]> (in_doubt_initiators w)), true)
  end.

Definition fail_dropping {X} (r : InitiatorSessionReservation) (e : Error) : M X := _ ← drop_reservation r; fail e.

Definition suspend_with_identity (r : InitiatorSessionReservation) (lifetime : Z) (i : Identity) : M unit :=
  if (lifetime =? 0) || (INITIATOR_RECOVERY_LIFETIME <? lifetime) then fail_dropping r InvalidLifetime
  else if negb (matches_transition_identity_fields r i) then fail_dropping r IdentityMismatch
  else if bool_decide (PS.i_transition_id i = zero_id) then fail_dropping r ZeroTransitionId
  else match state r with
       | RESERVATION_PENDING =>
           if negb (recovery_quota r) then _ ← cancel r; fail PermitMissing
           else fun w =>
             match retain_in_doubt_reservation (with_state r false RESERVATION_SUSPENDED) i w with
             | (w', true) => (w', Ok tt)
             | (w', false) => fail_dropping r AlreadyInDoubt w'
             end
       | _ => fail_dropping r NotPending
       end.
Definition suspend (r : InitiatorSessionReservation) (lifetime : Z) : M unit :=
  s ← deref (r_session r);
  suspend_with_identity r lifetime (transition_identity_with_session_metadata r (PS.metadata_session_id s)).
Definition suspend_with_session_metadata (r : InitiatorSessionReservation) (metadata lifetime : Z) : M unit :=
  suspend_with_identity r lifetime (transition_identity_with_session_metadata r metadata).

Definition take_in_doubt (i : Identity) : M SuspendedInitiatorReservation :=
  w ← read;
  d ← require (in_doubt_initiators w !! session_key i) NoInDoubt;
  _ ← guard (matches_authenticated_fields (s_identity d) i) InDoubtMismatch;
  _ ← modify (fun w => set_in_doubt w (delete (session_key i) (in_doubt_initiators w)));
  mret d.

Definition resume_initiator_reservation (i : Identity) : M InitiatorSessionReservation :=
  d ← take_in_doubt i;
  let r := s_reservation d in
  if negb (matches_transition_identity_fields r (s_identity d)) then
    _ ← cancel (with_state r (recovery_quota r) RESERVATION_PENDING);
    _ ← modify release_in_doubt;
    fail InDoubtChanged
  else mret (with_state r true RESERVATION_PENDING).

Definition cancel_initiator_reservation_exact (i : Identity) : M bool := fun w =>
  match take_in_doubt i w with
  | (w, Ok d) =>
      (_ ← cancel (with_state (s_reservation d) (recovery_quota (s_reservation d)) RESERVATION_PENDING);
       _ ← modify release_in_doubt; mret true) w
  | (w, Err _) => (w, Ok false)
  | (w, Panic) => (w, Panic)
  end.
End Identities.

Definition in_doubt_reservation_count (w : world) : Z := Z.of_nat (size (in_doubt_initiators w)).
Definition in_doubt_identity (w : world) (key : SessionKey) : option Identity := s_identity <$> in_doubt_initiators w !! key.

Definition reservation_pubkey (w : world) (r : InitiatorSessionReservation) : option (list Z) :=
  match r_peer_static_pubkey r with Some k => Some k | None => pubkey_at w (r_session r) end.
Definition in_doubt_peer_static_pubkey (w : world) (key : SessionKey) : option (list Z) :=
  d ← in_doubt_initiators w !! key; reservation_pubkey w (s_reservation d).

Definition check_in_doubt_recovery_peer_static_pubkey (i : Identity) (pubkey : option (list Z)) : M bool :=
  w ← read;
  d ← require (in_doubt_initiators w !! session_key i) NoInDoubt;
  _ ← guard (matches_authenticated_fields (s_identity d) i) InDoubtMismatch;
  let reservation_key := r_peer_static_pubkey (s_reservation d) in
  let session_key := pubkey_at w (r_session (s_reservation d)) in
  _ ← guard (negb (bool_decide (is_Some reservation_key) && bool_decide (is_Some session_key) && negb (bool_decide (reservation_key = session_key))))
        InconsistentKey;
  let expected := match reservation_key with Some k => Some k | None => session_key end in
  mret (bool_decide (is_Some expected) && bool_decide (expected = pubkey)).

(** ** Removal of a peer *)
Definition has_records (w : world) (key : SessionKey) : bool :=
  bool_decide (is_Some (sessions w !! key)) || bool_decide (is_Some (pending_creates w !! key)) ||
  bool_decide (is_Some (in_doubt_initiators w !! key)) || bool_decide (is_Some (responder_recoveries w !! key)) ||
  bool_decide (is_Some (initiator_receipts w !! key)).
(** [is_none_or] *)
Definition none_or {X} (o : option X) (f : X -> bool) : bool := match o with Some x => f x | None => true end.
Definition records_match (w : world) (key : SessionKey) (k : list Z) : bool :=
  none_or (sessions w !! key) (fun e => bool_decide (pubkey_at w (e_session e) = Some k)) &&
  none_or (pending_creates w !! key) (fun p => bool_decide (pubkey_at w p = Some k)) &&
  none_or (in_doubt_initiators w !! key) (fun d => bool_decide (reservation_pubkey w (s_reservation d) = Some k)) &&
  none_or (responder_recoveries w !! key) (fun p => bool_decide (pubkey_at w (v_session (p_recovery p)) = Some k)) &&
  none_or (initiator_receipts w !! key) (fun c => bool_decide (pubkey_at w (c_session c) = Some k)).

Definition when_some {X} (o : option X) (f : X -> M unit) : M unit := match o with Some x => f x | None => mret tt end.
Definition clear_peer_records_if_static_key_matches (key : SessionKey) (k : list Z) : M bool :=
  w ← read;
  if negb (has_records w key) then mret false
  else if negb (records_match w key k) then mret false
  else
    _ ← modify (fun w => set_pending w (delete key (pending_creates w)));
    _ ← modify (fun w => set_in_doubt w (delete key (in_doubt_initiators w)));
    _ ← modify (remove_recovery key);
    _ ← modify (remove_receipt key);
    _ ← modify (fun w => set_sessions w (delete key (sessions w)));
    _ ← when_some (pending_creates w !! key) (fun p => modify (invalidate_at p));
    _ ← when_some (in_doubt_initiators w !! key) (fun d =>
          _ ← cancel (with_state (s_reservation d) (recovery_quota (s_reservation d)) RESERVATION_PENDING);
          modify release_in_doubt);
    _ ← when_some (sessions w !! key) (fun e => modify (invalidate_at (e_session e)));
    mret true.

(** ** Preparing an initiator transition *)
(** What the responder's answer and the connection supply: the action, the generation, root key and
    epoch, the algorithms, the peer's static key and the transition identifier; [uuid] is drawn. *)
Record request : Type := mk_request {
  q_action : PS.PeerSessionAction;
  q_generation : Z;
  q_root_key : option (list Z);
  q_initial_epoch : Z;
  q_send_algorithm : list Z;
  q_recv_algorithm : list Z;
  q_peer_static_pubkey : option (list Z);
  q_transition_id : list Z;
  q_uuid : Z;
}.

(** the reservation of [q] on session [p], without its permit *)
Definition reserve (key : SessionKey) (q : request) (p : ptr) (root : list Z) (rev : Z) (publishes : bool) (previous : option (ptr * Z))
    : InitiatorSessionReservation :=
  mk_reservation key p (q_action q) (q_generation q) root (q_initial_epoch q) rev (q_transition_id q) (q_send_algorithm q)
    (q_recv_algorithm q) (q_peer_static_pubkey q) false publishes previous RESERVATION_PENDING.

Definition check_same (p : ptr) (q : request) : M PS.t :=
  s ← deref p;
  _ ← guard (PS.check_encrypt_algo_same s (q_send_algorithm q) (q_recv_algorithm q)) AlgorithmMismatch;
  _ ← lift (PS.check_peer_static_pubkey s (q_peer_static_pubkey q));
  mret s.

(** the entry of a vacant key; [Entry::Occupied] is an error *)
Definition claim_creation (key : SessionKey) (p : ptr) : M unit :=
  w ← read;
  _ ← guard (negb (has_pending_create w key)) CreationPending;
  modify (fun w => set_pending w (<[key := p]> (pending_creates w))).

Definition prepare_new_initiator_session_locked (key : SessionKey) (q : request) (now : Z) : M InitiatorSessionReservation :=
  root ← require (q_root_key q) MissingRootKey;
  w ← read;
  previous ← (match peek w key with
              | Some p =>
                  s ← check_same p q;
                  _ ← guard (negb (bool_decide (PS.root_key s = root))) StaleRootKey;
                  _ ← guard (negb (PS.has_pending_transition s)) SyncPending;
                  mret (Some (p, PS.transition_revision s))
              | None => mret None
              end);
  p ← alloc (PS.initialize_transition_revision
        (PS.new key.2 root (q_generation q) (q_initial_epoch q) (q_send_algorithm q) (q_recv_algorithm q) (q_peer_static_pubkey q) (q_uuid q) now) 1);
  _ ← claim_creation key p;
  mret (reserve key q p root 1 true previous).

Definition prepare_join (key : SessionKey) (q : request) : M InitiatorSessionReservation :=
  w ← read;
  p ← require (peek w key) NoSession;
  s ← check_same p q;
  _ ← guard (PS.session_generation s =? q_generation q) GenerationMismatch;
  mret (reserve key q p (PS.root_key s) (PS.transition_revision s) false None).

Definition cancel_sync (p : ptr) (rev epoch : Z) : M unit := update p (fun s => PS.cancel_reserved_sync s rev epoch).
(** reserve the static key; an error cancels the synchronisation *)
Definition reserve_pubkey_or_cancel (p : ptr) (pubkey : option (list Z)) (rev epoch : Z) : M unit := fun w =>
  match on_session p (fun s => PS.reserve_peer_static_pubkey s pubkey) w with
  | (w, Err e) => (_ ← cancel_sync p rev epoch; fail e) w
  | r => r
  end.

Definition prepare_sync (key : SessionKey) (q : request) : M InitiatorSessionReservation :=
  w ← read;
  _ ← guard (negb (has_pending_create w key)) CreationPending;
  p ← require (peek w key) NoSession;
  _ ← check_same p q;
  root ← require (q_root_key q) MissingRootKey;
  '(active_generation, _, reserved_epoch, rev) ← on_session p (fun s => PS.prepare_sync_transition_at s (Some (q_initial_epoch q)));
  _ ← reserve_pubkey_or_cancel p (q_peer_static_pubkey q) rev reserved_epoch;
  if negb (active_generation =? q_generation q) then
    _ ← cancel_sync p rev reserved_epoch;
    _ ← update p PS.cancel_reserved_peer_static_pubkey;
    fail GenerationMismatch
  else mret (reserve key q p root rev false None).

Definition prepare_initiator_action_with_transition_id (key : SessionKey) (q : request) (now : Z) : M InitiatorSessionReservation :=
  w ← read;
  _ ← guard (negb (bool_decide (is_Some (in_doubt_initiators w !! key)))) AwaitingRecovery;
  _ ← guard (negb (bool_decide (is_Some (responder_recoveries w !! key)))) ProofPending;
  _ ← guard (negb (has_pending_create w key)) CreationPending;
  _ ← reserve_in_doubt;
  r ← on_error
        (match q_action q with
         | PS.Create => prepare_new_initiator_session_locked key q now
         | PS.Sync => if bool_decide (peek w key = None) then prepare_new_initiator_session_locked key q now else prepare_sync key q
         | PS.Join => prepare_join key q
         end) release_in_doubt;
  mret (with_state r true RESERVATION_PENDING).

(** ** Committing an initiator transition *)
Definition can_publish (w : world) (r : InitiatorSessionReservation) : bool :=
  match sessions w !! r_key r, previous_session r with
  | None, None => true
  | Some e, None => negb (session_valid w (e_session e))
  | Some e, Some (p, rev) =>
      (e_session e =? p) && match heap w !! p with Some s => PS.transition_revision s =? rev | None => false end
  | None, Some _ => false
  end.

Definition record_reserved (r : InitiatorSessionReservation) (root : list Z) (s : PS.t) : PS.t :=
  PS.record_committed_transition s (r_action r) (r_generation r) root (r_initial_epoch r) (r_transition_id r) (r_transition_revision r).

Definition commit_new_initiator_session_locked (r : InitiatorSessionReservation) (now : Z) : M unit :=
  w ← read;
  _ ← guard (bool_decide (pending_creates w !! r_key r = Some (r_session r))) ClaimChanged;
  s ← deref (r_session r);
  _ ← guard (PS.is_valid s && (PS.transition_revision s =? r_transition_revision r)) StoreChanged;
  _ ← guard (can_publish w r) StoreChanged;
  _ ← update (r_session r) (record_reserved r (r_root_key r));
  _ ← modify (publish (r_key r) (r_session r) now);
  _ ← when_some (sessions w !! r_key r) (fun e => modify (invalidate_at (e_session e)));
  modify (remove_pending_if (r_key r) (r_session r)).

Definition commit_initiator_reservation_locked (r : InitiatorSessionReservation) (now : Z) : M unit :=
  if publishes_session r then commit_new_initiator_session_locked r now
  else match r_action r with
       | PS.Create => panic
       | PS.Sync =>
           w ← read;
           e ← require (sessions w !! r_key r) NoSession;
           _ ← guard (e_session e =? r_session r) StoreChanged;
           on_session (r_session r) (fun s =>
             PS.commit_reserved_sync s (r_transition_revision r) (r_root_key r) (r_generation r) (r_initial_epoch r) (r_transition_id r) now)
       | PS.Join =>
           w ← read;
           e ← require (sessions w !! r_key r) NoSession;
           s ← deref (r_session r);
           _ ← guard ((e_session e =? r_session r) && (PS.transition_revision s =? r_transition_revision r)) StoreChanged;
           _ ← guard (PS.check_encrypt_algo_same s (r_send_algorithm r) (r_recv_algorithm r)) AlgorithmMismatch;
           _ ← on_session (r_session r) (fun s => PS.check_or_set_peer_static_pubkey s (r_peer_static_pubkey r));
           _ ← update (r_session r) (fun s => record_reserved r (PS.root_key s) s);
           modify (publish (r_key r) (r_session r) now)
       end.

(** A failed commit cancels the reservation and gives its permit back; so does a successful one. *)
Definition commit_by (store_commit : M unit) (r : InitiatorSessionReservation) : world -> (world * InitiatorSessionReservation) * outcome Error ptr :=
  fun w =>
    match state r with
    | RESERVATION_PENDING =>
        match store_commit w with
        | (w, Ok _) => ((release_quota r w, with_state r false RESERVATION_COMMITTED), Ok (r_session r))
        | (w, Err e) =>
            let '(w, o) := cancel_initiator_reservation r w in
            ((release_quota r w, with_state r false RESERVATION_CANCELED), match o with Panic => Panic | _ => Err e end)
        | (w, Panic) => ((w, r), Panic)
        end
    | _ => ((w, r), Err NotPending)
    end.
Definition commit (r : InitiatorSessionReservation) (now : Z) (w : world) : (world * InitiatorSessionReservation) * outcome Error ptr :=
  commit_by (commit_initiator_reservation_locked r now) r w.

Section Receipts.
Context {H : Sha256}.

(** commit under a fresh receipt permit, which a failure drops *)
Definition commit_fresh_receipt (r : InitiatorSessionReservation) (i : Identity) (now : Z) : M unit :=
  _ ← reserve_receipt;
  _ ← on_error (commit_initiator_reservation_locked r now) release_receipt;
  modify (insert_receipt (session_key i) (mk_receipt i (r_session r))).

Definition commit_initiator_reservation_with_receipt (r : InitiatorSessionReservation) (i : Identity) (previous : option Identity) (now : Z) : M unit :=
  _ ← guard (negb (bool_decide (PS.i_transition_id i = zero_id))) ZeroTransitionId;
  _ ← guard (matches_transition_identity_fields r i) IdentityMismatch;
  w ← read;
  match previous, initiator_receipts w !! session_key i with
  | None, Some _ => fail ReceiptPending
  | None, None => commit_fresh_receipt r i now
  | Some previous, Some old =>
      if bool_decide (c_identity old = previous) then
        (** the permit of the previous record moves to the new one *)
        _ ← modify (fun w => set_receipts w (delete (session_key i) (initiator_receipts w)));
        _ ← on_error (commit_initiator_reservation_locked r now)
              (fun w => set_receipts w (<[session_key (c_identity old) := old]> (initiator_receipts w)));
        modify (fun w => set_receipts w (<[session_key i := mk_receipt i (r_session r)]> (initiator_receipts w)))
      else fail ReceiptChanged
  | Some _, None => commit_fresh_receipt r i now
  end.

Definition commit_with_receipt_replacing (r : InitiatorSessionReservation) (i : Identity) (previous : option Identity) (now : Z) (w : world)
    : (world * InitiatorSessionReservation) * outcome Error ptr :=
  commit_by (commit_initiator_reservation_with_receipt r i previous now) r w.
End Receipts.

Definition apply_initiator_action (key : SessionKey) (q : request) (now : Z) : M ptr := fun w =>
  match prepare_initiator_action_with_transition_id key q now w with
  | (w, Ok r) =>
      let '((w, r), o) := commit r now w in
      match drop_reservation r w with (w, Panic) => (w, Panic) | (w, _) => (w, o) end
  | (w, Err e) => (w, Err e)
  | (w, Panic) => (w, Panic)
  end.

(** ** The transition a responder has prepared *)
Definition transition_token (w : world) (u : UpsertResponderSessionReturn) : outcome Error Z :=
  match u_action u with
  | PS.Create | PS.Join => match heap w !! u_session u with Some s => Ok (PS.transition_revision s) | None => Panic end
  | PS.Sync => match u_transition_revision u with Some rev => Ok rev | None => Panic end
  end.
Definition token (u : UpsertResponderSessionReturn) : M Z := fun w => (w, transition_token w u).

Definition for_recovery (p : ptr) (a : PS.PeerSessionAction) (generation : Z) (root : list Z) (epoch : Z) (tid : list Z) (rev : option Z)
    (key : SessionKey) : UpsertResponderSessionReturn :=
  mk_prepared p a generation (Some root) epoch rev tid None false false None key.

Definition cancel_prepared_session (key : SessionKey) (p : ptr) (a : PS.PeerSessionAction) (rev : option Z) (epoch : Z) : M unit :=
  match a with
  | PS.Create => modify (remove_pending_if key p)
  | PS.Sync => match rev with Some rev => cancel_sync p rev epoch | None => mret tt end
  | PS.Join => update p PS.cancel_reserved_peer_static_pubkey
  end.
(** [UpsertResponderSessionReturn::cancel] *)
Definition cancel_prepared (u : UpsertResponderSessionReturn) : M unit :=
  cancel_prepared_session (prepared_key u) (u_session u) (u_action u) (u_transition_revision u) (u_initial_epoch u).

(** ** Preparing a responder transition; [tid], [root] and [uuid] are drawn *)
Definition prepare_responder_session_locked (key : SessionKey) (send_alg recv_alg : list Z) (pubkey : option (list Z)) (allow_existing_proof : bool)
    (tid root : list Z) (uuid now : Z) : M UpsertResponderSessionReturn :=
  w ← read;
  _ ← guard (negb (has_pending_create w key)) CreationPending;
  _ ← guard (negb (bool_decide (is_Some (in_doubt_initiators w !! key)))) AwaitingRecovery;
  _ ← guard (allow_existing_proof || negb (bool_decide (is_Some (responder_recoveries w !! key)))) ProofPending;
  found ← get key now;
  match found with
  | Some p =>
      s ← deref p;
      _ ← guard (PS.check_encrypt_algo_same s send_alg recv_alg) AlgorithmMismatch;
      '(generation, root, epoch, rev) ← on_session p PS.prepare_sync_transition;
      _ ← reserve_pubkey_or_cancel p pubkey rev epoch;
      mret (mk_prepared p PS.Sync generation (Some root) epoch (Some rev) tid None false false None key)
  | None =>
      p ← alloc (PS.initialize_transition_revision (PS.new key.2 root 1 0 send_alg recv_alg pubkey uuid now) 1);
      _ ← claim_creation key p;
      mret (mk_prepared p PS.Create 1 (Some root) 0 None tid None false false None key)
  end.

Definition prepare_responder_session (key : SessionKey) (send_alg recv_alg : list Z) (pubkey : option (list Z)) (tid root : list Z) (uuid now : Z)
    : M UpsertResponderSessionReturn :=
  prepare_responder_session_locked key send_alg recv_alg pubkey false tid root uuid now.

Definition prepare_responder_session_with_recovery_proof (key : SessionKey) (acknowledged : list Z) (send_alg recv_alg : list Z)
    (pubkey : option (list Z)) (tid root : list Z) (uuid now : Z) : M UpsertResponderSessionReturn :=
  _ ← modify (expire_responder_recoveries now);
  w ← read;
  p ← require (responder_recoveries w !! key) NoProof;
  _ ← guard (bool_decide (PS.i_transition_id (p_identity p) = acknowledged)) ProofMismatch;
  u ← prepare_responder_session_locked key send_alg recv_alg pubkey true tid root uuid now;
  mret (with_proof u (Some acknowledged) (proof_cleared u) (committed u) (proof_backup u)).

(** the session the prepared transition stands on is still in place *)
Definition live (w : world) (key : SessionKey) (u : UpsertResponderSessionReturn) : bool :=
  match u_action u with
  | PS.Create => bool_decide (pending_creates w !! key = Some (u_session u))
  | PS.Sync | PS.Join => match sessions w !! key with Some e => e_session e =? u_session u | None => false end
  end.

(** the proof and its permit move into the backup *)
Definition authenticate_prepared_responder_transition (key : SessionKey) (u : UpsertResponderSessionReturn) (acknowledged : list Z)
    : M UpsertResponderSessionReturn :=
  _ ← guard (bool_decide (prepared_key u = key) && bool_decide (proof_dependency u = Some acknowledged)) DependencyMismatch;
  if proof_cleared u then mret u
  else
    w ← read;
    _ ← guard (live w key u) NotPending;
    p ← require (responder_recoveries w !! key) NoProof;
    _ ← guard (bool_decide (PS.i_transition_id (p_identity p) = acknowledged)) ProofMismatch;
    _ ← modify (fun w => set_recoveries w (delete key (responder_recoveries w)));
    mret (with_proof u (proof_dependency u) true (committed u) (Some p)).
Definition authenticate_recovery (u : UpsertResponderSessionReturn) : M UpsertResponderSessionReturn :=
  match proof_dependency u with
  | None => mret u
  | Some tid => authenticate_prepared_responder_transition (prepared_key u) u tid
  end.

Definition restore_responder_recovery (u : UpsertResponderSessionReturn) (w : world) : world :=
  match proof_backup u with
  | None => w
  | Some b =>
      match responder_recoveries w !! prepared_key u with
      | Some _ => release_recovery w
      | None => set_recoveries w (<[prepared_key u := b]> (responder_recoveries w))
      end
  end.
(** [UpsertResponderSessionReturn::drop]; a backup that is not restored is dropped with its permit. *)
Definition drop_prepared (u : UpsertResponderSessionReturn) (w : world) : world :=
  if bool_decide (is_Some (proof_dependency u)) && proof_cleared u && negb (committed u) then restore_responder_recovery u w
  else match proof_backup u with Some _ => release_recovery w | None => w end.

(** ** Committing a responder transition *)
Definition principal_records (w : world) (k : list Z) : Z :=
  Z.of_nat (length (filter (fun kp : SessionKey * ResponderRecoveryRecord => pubkey_at w (v_session (p_recovery kp.2)) = Some k)
                      (map_to_list (responder_recoveries w)))).
Definition reserve_responder_recovery_quota_locked (key : SessionKey) (u : UpsertResponderSessionReturn) : M unit :=
  w ← read;
  _ ← guard (negb (bool_decide (is_Some (responder_recoveries w !! key)))) ProofPending;
  s ← deref (u_session u);
  principal ← require (PS.peer_static_pubkey_with_pending s) NoPrincipal;
  _ ← guard (negb (MAX_RESPONDER_RECOVERIES_PER_PRINCIPAL <=? principal_records w principal)) PrincipalFull;
  reserve_recovery.

Definition record_prepared (a : PS.PeerSessionAction) (u : UpsertResponderSessionReturn) (root : list Z) (rev : Z) (s : PS.t) : PS.t :=
  PS.record_committed_transition s a (u_generation u) root (u_initial_epoch u) (u_transition_id u) rev.

Definition commit_responder_action (key : SessionKey) (u : UpsertResponderSessionReturn) (now : Z) : M unit :=
  w ← read;
  match u_action u with
  | PS.Create =>
      _ ← guard (bool_decide (pending_creates w !! key = Some (u_session u))) ClaimChanged;
      s ← deref (u_session u);
      rev ← token u;
      _ ← guard (PS.is_valid s && (PS.transition_revision s =? rev)) StoreChanged;
      _ ← on_session (u_session u) PS.commit_reserved_peer_static_pubkey;
      root ← require (u_root_key u) MissingRootKey;
      _ ← update (u_session u) (record_prepared PS.Create u root rev);
      _ ← guard (none_or (sessions w !! key) (fun e => negb (session_valid w (e_session e)))) StoreChanged;
      _ ← modify (publish key (u_session u) now);
      modify (remove_pending_if key (u_session u))
  | PS.Sync =>
      e ← require (sessions w !! key) NoSession;
      _ ← guard (e_session e =? u_session u) StoreChanged;
      root ← require (u_root_key u) MissingRootKey;
      rev ← require (u_transition_revision u) MissingRevision;
      on_session (u_session u) (fun s => PS.commit_reserved_sync s rev root (u_generation u) (u_initial_epoch u) (u_transition_id u) now)
  | PS.Join =>
      e ← require (sessions w !! key) NoSession;
      _ ← guard (e_session e =? u_session u) StoreChanged;
      s ← deref (u_session u);
      rev ← token u;
      _ ← guard (PS.is_valid s && (PS.transition_revision s =? rev)) StoreChanged;
      _ ← on_session (u_session u) PS.commit_reserved_peer_static_pubkey;
      update (u_session u) (fun s => record_prepared PS.Join u (PS.root_key s) rev s)
  end.

Section Responder.
Context {H : Sha256}.

Definition record_responder_recovery_locked (key : SessionKey) (u : UpsertResponderSessionReturn) (now : Z) : M unit :=
  s ← deref (u_session u);
  rev ← token u;
  let root := match u_root_key u with Some k => k | None => PS.root_key s end in
  let i := with_revision (identity_new key (PS.metadata_session_id s) (u_action u) (u_generation u) (u_initial_epoch u) (u_transition_id u)
             (PS.digest_root_key root)) rev in
  modify (insert_recovery key
    (mk_record i (mk_recovery (u_session u) (u_action u) (u_generation u) root (u_initial_epoch u) (u_transition_id u) rev) now)).

(** A proof that is reused brings its permit in the backup; otherwise a permit is reserved first. *)
Definition commit_prepared_responder_transition (key : SessionKey) (u : UpsertResponderSessionReturn) (now : Z) : M UpsertResponderSessionReturn :=
  let reused := bool_decide (is_Some (proof_dependency u)) in
  _ ← guard (negb (reused && negb (proof_cleared u))) ProofRequired;
  _ ← guard (negb (reused && bool_decide (proof_backup u = None))) BackupMissing;
  _ ← (if reused then mret tt else reserve_responder_recovery_quota_locked key u);
  _ ← on_error (commit_responder_action key u now) (if reused then id else release_recovery);
  _ ← record_responder_recovery_locked key u now;
  mret (with_proof u (proof_dependency u) (proof_cleared u) true (if reused then None else proof_backup u)).

Definition reconcile_active_responder_transition (i : Identity) (now : Z) : M (option ResponderTransitionRecovery) :=
  _ ← modify (expire_responder_recoveries now);
  w ← read;
  let active :=
    e ← sessions w !! session_key i;
    s ← heap w !! e_session e;
    if negb (PS.is_valid s) || negb (PS.metadata_session_id s =? PS.session_metadata_id i) then None
    else (fun c => mk_recovery (e_session e) (PS.action c) (PS.c_generation c) (PS.c_root_key c) (PS.c_initial_epoch c)
                     (PS.c_transition_id c) (PS.c_revision c)) <$> PS.committed_transition s i in
  mret (match responder_recoveries w !! session_key i with
        | Some p => if matches_authenticated_fields (p_identity p) i then Some (p_recovery p) else active
        | None => active
        end).
End Responder.

(** ** Eviction *)
(** [Arc::strong_count(&entry.session) > 1]: some other record of the store, or a value [outside] it, holds the session. *)
Definition holds (p : ptr) (r : InitiatorSessionReservation) : bool :=
  (r_session r =? p) || match previous_session r with Some (q, _) => q =? p | None => false end.
Definition shared (w : world) (outside : ptr -> bool) (key : SessionKey) (p : ptr) : bool :=
  outside p ||
  bool_decide (map_Exists (fun k e => k <> key /\ e_session e = p) (sessions w)) ||
  bool_decide (map_Exists (fun _ q => q = p) (pending_creates w)) ||
  bool_decide (map_Exists (fun _ d => holds p (s_reservation d) = true) (in_doubt_initiators w)) ||
  bool_decide (map_Exists (fun _ q => v_session (p_recovery q) = p) (responder_recoveries w)) ||
  bool_decide (map_Exists (fun _ c => c_session c = p) (initiator_receipts w)).
Definition evict_unused_sessions_idle (idle : Z) (outside : ptr -> bool) (now : Z) (w : world) : world :=
  let w := (expire_responder_recoveries_locked INITIATOR_RECOVERY_LIFETIME now w).1 in
  set_sessions w (filter (fun '(key, e) =>
    session_valid w (e_session e) &&
    (shared w outside key (e_session e) || (saturating_sub now (e_last_used_at e) <? idle)) = true) (sessions w)).
Definition evict_unused_sessions (outside : ptr -> bool) (now : Z) (w : world) : world :=
  evict_unused_sessions_idle SESSION_IDLE_TIMEOUT outside now w.

(** [PeerSessionStore::new] in a process whose counters stand at [d], [r] and [c] *)
Definition new_store (d r c : Z) : world := mk_world ∅ ∅ ∅ ∅ ∅ ∅ d r c.
End SessionStore.
