(* ===== verification/StoreFrames.v ===== *)
(** * Frames of store calls

    Proof support for the session store: a reflexive and transitive relation that every command of a
    call respects relates the store before the call to the store after it, whatever the call returns
    (src/lowertier/src/peers/peer_session.rs). *)
From stdpp Require Import base list gmap numbers.
From Stdlib Require Import ZArith Lia.
From S2P Require Import Prelude NetAddr Cipher SecureDatagram PeerSession SessionStore.

Local Open Scope Z_scope.

Module StoreFrames.
Import SessionStore.

(** ** Frames: a relation that every command of a call respects *)
Definition steps {X} (R : world -> world -> Prop) (m : M X) : Prop := forall w, R w (m w).1.

Section Frames.
Context (R : world -> world -> Prop) `{!PreOrder R}.

Lemma steps_bind {X Y} (m : M X) (f : X -> M Y) : steps R m -> (forall x, steps R (f x)) -> steps R (m ≫= f).
Proof.
  intros K F w; specialize (K w); unfold mbind, M_bind. destruct (m w) as [w' [x|e|]]; simpl in *; [|done..].
  transitivity w'; [done|apply F].
Qed.
Lemma steps_ret {X} (x : X) : steps R (mret (M:=M) x).
Proof. intros w; simpl; reflexivity. Qed.
Lemma steps_fail {X} e : steps R (fail e : M X).
Proof. intros w; simpl; reflexivity. Qed.
Lemma steps_panic {X} : steps R (panic : M X).
Proof. intros w; simpl; reflexivity. Qed.
Lemma steps_guard b e : steps R (guard b e).
Proof. destruct b; [apply steps_ret|apply steps_fail]. Qed.
Lemma steps_require {X} (o : option X) e : steps R (require o e).
Proof. destruct o; [apply steps_ret|apply steps_fail]. Qed.
Lemma steps_read : steps R read.
Proof. intros w; simpl; reflexivity. Qed.
Lemma steps_deref p : steps R (deref p).
Proof. intros w; simpl; reflexivity. Qed.
Lemma steps_lift {X} (o : outcome PS.Error X) : steps R (lift o).
Proof. intros w; simpl; reflexivity. Qed.
Lemma steps_token u : steps R (token u).
Proof. intros w; simpl; reflexivity. Qed.
Lemma steps_modify g : (forall w, R w (g w)) -> steps R (modify g).
Proof. intros K w; apply K. Qed.
Lemma steps_update p g : (forall w s, heap w !! p = Some s -> R w (set_heap w (<[p := g s]> (heap w)))) -> steps R (update p g).
Proof. intros K w; unfold update, deref, put, mbind, M_bind. destruct (heap w !! p) eqn:E; simpl; [by apply K|reflexivity]. Qed.
Lemma steps_on_session {X} p (g : PS.t -> PS.R X) : (forall w s, heap w !! p = Some s -> R w (set_heap w (<[p := (g s).1]> (heap w)))) ->
  steps R (on_session p g).
Proof.
  intros K w; unfold on_session, deref, put, mbind, M_bind, modify, lift. destruct (heap w !! p) eqn:E; simpl; [by apply K|reflexivity].
Qed.
Lemma steps_alloc s : (forall w p, heap w !! p = None -> R w (set_heap w (<[p := s]> (heap w)))) -> steps R (alloc s).
Proof. intros K w; apply K. apply not_elem_of_dom, is_fresh. Qed.
Lemma steps_on_error {X} (m : M X) g : steps R m -> (forall w, R w (g w)) -> steps R (on_error m g).
Proof. intros K Kg w; specialize (K w); unfold on_error. destruct (m w) as [w' []]; simpl in *; try done. by transitivity w'. Qed.
Lemma steps_when_some {X} (o : option X) f : (forall x, steps R (f x)) -> steps R (when_some o f).
Proof. destruct o; simpl; [auto|intros; apply steps_ret]. Qed.
End Frames.

(** decompose a call into its commands; [tac] proves the relation for an update of the world *)
Ltac frame tac := repeat
  lazymatch goal with
  | |- steps _ (_ ≫= _) => apply steps_bind; [apply _| |intros ?]
  | |- steps _ (mret _) => apply steps_ret; apply _
  | |- steps _ (fail _) => apply steps_fail; apply _
  | |- steps _ panic => apply steps_panic; apply _
  | |- steps _ (guard _ _) => apply steps_guard; apply _
  | |- steps _ (require _ _) => apply steps_require; apply _
  | |- steps _ read => apply steps_read; apply _
  | |- steps _ (deref _) => apply steps_deref; apply _
  | |- steps _ (lift _) => apply steps_lift; apply _
  | |- steps _ (token _) => apply steps_token; apply _
  | |- steps _ (update _ _) => apply steps_update; [apply _|intros ? ? ?; tac]
  | |- steps _ (on_session _ _) => apply steps_on_session; [apply _|intros ? ? ?; tac]
  | |- steps _ (alloc _) => apply steps_alloc; intros ? ? ?; tac
  | |- steps _ (modify _) => apply steps_modify; intros ?; tac
  | |- steps _ (on_error _ _) => apply steps_on_error; [apply _| |intros ?; tac]
  | |- steps _ (when_some _ _) => apply steps_when_some; [apply _|intros ?]
  | |- steps _ _ => case_match
  end.

(** the durable records and the counters *)
Record same_records (w w' : world) : Prop := {
  sr_in_doubt : in_doubt_initiators w' = in_doubt_initiators w;
  sr_recoveries : responder_recoveries w' = responder_recoveries w;
  sr_receipts : initiator_receipts w' = initiator_receipts w;
  sr_d : IN_DOUBT_RESERVATION_COUNT w' = IN_DOUBT_RESERVATION_COUNT w;
  sr_r : RESPONDER_RECOVERY_RECORD_COUNT w' = RESPONDER_RECOVERY_RECORD_COUNT w;
  sr_c : INITIATOR_RECEIPT_RECORD_COUNT w' = INITIATOR_RECEIPT_RECORD_COUNT w;
}.
#[export] Instance same_records_preorder : PreOrder same_records.
Proof. split; [by split|]. intros a b c [] []; split; congruence. Qed.
End StoreFrames.
