(* ===== verification/SessionStoreProps.v ===== *)
(** * Properties of the store of peer sessions

    Every run of store calls keeps the records consistent and the quotas exact, failed and cancelled
    handshakes leave the published sessions and their traffic keys as they were, a commit and its receipt
    are one step, and a transition in doubt waits for its exact identity
    (src/lowertier/src/peers/peer_session.rs). *)
From stdpp Require Import base list gmap numbers.
From Stdlib Require Import ZArith Lia.
From S2P Require Import Prelude NetAddr Cipher SecureDatagram PeerSession SessionStore StoreFrames.

Local Open Scope Z_scope.

Module SessionStoreProps.
Import SessionStore StoreFrames.

Create HintDb store.

Section Invariant.
Context {H : Sha256}.

(** ** Well-formed stores *)
Definition has (w : world) (p : ptr) : Prop := is_Some (heap w !! p).

(** a reservation has its sessions, a CREATE is published when it commits, and a permit is held exactly while it is pending *)
Record reservation_ok (w : world) (r : InitiatorSessionReservation) : Prop := {
  ro_session : has w (r_session r);
  ro_previous : forall p rev, previous_session r = Some (p, rev) -> has w p;
  ro_create : publishes_session r = false -> r_action r <> PS.Create;
  ro_quota : recovery_quota r = bool_decide (state r = RESERVATION_PENDING);
}.

Record wf (w : world) : Prop := {
  wf_sessions : forall k e, sessions w !! k = Some e -> has w (e_session e);
  wf_pending : forall k p, pending_creates w !! k = Some p -> has w p;
  wf_in_doubt : forall k d, in_doubt_initiators w !! k = Some d -> reservation_ok w (s_reservation d) /\
    state (s_reservation d) = RESERVATION_SUSPENDED /\ session_key (s_identity d) = k /\
    matches_transition_identity_fields (s_reservation d) (s_identity d) = true;
  wf_recoveries : forall k p, responder_recoveries w !! k = Some p -> has w (v_session (p_recovery p)) /\ session_key (p_identity p) = k;
  wf_receipts : forall k c, initiator_receipts w !! k = Some c -> has w (c_session c) /\ session_key (c_identity c) = k;
}.

Definition zsize {A} (m : gmap SessionKey A) : Z := Z.of_nat (size m).

(** [d], [r] and [c] permits of the three quotas are held outside the records of the store. *)
Record good (d r c : Z) (w : world) : Prop := {
  g_wf : wf w;
  g_d : IN_DOUBT_RESERVATION_COUNT w = d + zsize (in_doubt_initiators w);
  g_r : RESPONDER_RECOVERY_RECORD_COUNT w = r + zsize (responder_recoveries w);
  g_c : INITIATOR_RECEIPT_RECORD_COUNT w = c + zsize (initiator_receipts w);
  g_d_max : 0 <= d /\ IN_DOUBT_RESERVATION_COUNT w <= MAX_IN_DOUBT_RESERVATIONS;
  g_r_max : 0 <= r /\ RESPONDER_RECOVERY_RECORD_COUNT w <= MAX_RESPONDER_RECOVERY_RECORDS;
  g_c_max : 0 <= c /\ INITIATOR_RECEIPT_RECORD_COUNT w <= MAX_INITIATOR_RECEIPT_RECORDS;
}.

(** no session is freed while the heap grows *)
Definition grows (w w' : world) : Prop := forall p, has w p -> has w' p.
#[local] Instance grows_preorder : PreOrder grows.
Proof. split; [intros w p; done|intros a b c Hab Hbc p Hp; eauto]. Qed.

Lemma has_grows w w' p : grows w w' -> has w p -> has w' p.
Proof. intros G; apply G. Qed.
Lemma reservation_ok_grows w w' r : grows w w' -> reservation_ok w r -> reservation_ok w' r.
Proof. intros G [? ? ? ?]; split; eauto. Qed.

Lemma zsize_insert {A} (m : gmap SessionKey A) k x : m !! k = None -> zsize (<[k:=x]> m) = zsize m + 1.
Proof. intros E; unfold zsize; rewrite map_size_insert_None by done; lia. Qed.
Lemma zsize_delete {A} (m : gmap SessionKey A) k x : m !! k = Some x -> zsize (delete k m) = zsize m - 1 /\ 1 <= zsize m.
Proof.
  intros E; unfold zsize; rewrite map_size_delete_Some by (by eexists).
  assert (size m <> 0%nat) by (intros E0%map_size_empty_inv; subst; set_solver). lia.
Qed.
Lemma zsize_delete_none {A} (m : gmap SessionKey A) k : m !! k = None -> zsize (delete k m) = zsize m.
Proof. intros E; by rewrite delete_id. Qed.
Lemma zsize_nonneg {A} (m : gmap SessionKey A) : 0 <= zsize m.
Proof. unfold zsize; lia. Qed.
Lemma drop_permit_eq n : 1 <= n <= 256 -> drop_permit n = n - 1.
Proof. intros; unfold drop_permit, wrap; rewrite Z.mod_small; lia. Qed.

(** ** The updates of the store *)
Lemma wf_intro w w' : grows w w' -> wf w ->
  (forall k e, sessions w' !! k = Some e -> sessions w !! k = Some e \/ has w' (e_session e)) ->
  (forall k p, pending_creates w' !! k = Some p -> pending_creates w !! k = Some p \/ has w' p) ->
  (forall k x, in_doubt_initiators w' !! k = Some x -> in_doubt_initiators w !! k = Some x \/
     reservation_ok w' (s_reservation x) /\ state (s_reservation x) = RESERVATION_SUSPENDED /\ session_key (s_identity x) = k /\
     matches_transition_identity_fields (s_reservation x) (s_identity x) = true) ->
  (forall k p, responder_recoveries w' !! k = Some p -> responder_recoveries w !! k = Some p \/
     has w' (v_session (p_recovery p)) /\ session_key (p_identity p) = k) ->
  (forall k c, initiator_receipts w' !! k = Some c -> initiator_receipts w !! k = Some c \/ has w' (c_session c) /\ session_key (c_identity c) = k) ->
  wf w'.
Proof.
  intros G [W1 W2 W3 W4 W5] K1 K2 K3 K4 K5; split.
  - intros k e E; destruct (K1 k e E) as [E'|]; [apply G; eauto|done].
  - intros k e E; destruct (K2 k e E) as [E'|]; [apply G; eauto|done].
  - intros k e E; destruct (K3 k e E) as [E'|]; [|done].
    destruct (W3 k e E') as (R & ? & ? & ?); split_and!; eauto using reservation_ok_grows.
  - intros k e E; destruct (K4 k e E) as [E'|]; [|done]. destruct (W4 k e E'); split; auto.
  - intros k e E; destruct (K5 k e E) as [E'|]; [|done]. destruct (W5 k e E'); split; auto.
Qed.

Lemma insert_or {A} (m : gmap SessionKey A) k x (P : SessionKey -> A -> Prop) : P k x ->
  forall k' y, <[k := x]> m !! k' = Some y -> m !! k' = Some y \/ P k' y.
Proof. intros K k' y [[<- <-]|[? ?]]%lookup_insert_Some; auto. Qed.
Ltac keep_wf tac := lazymatch goal with W : wf ?w |- _ => apply (wf_intro w) end; [first [by intros ?|tac]|eassumption|first [intros ? ? ?; left; assumption|tac]..].

Lemma grows_heap w h : (forall p, has w p -> is_Some (h !! p)) -> grows w (set_heap w h).
Proof. intros K p; apply K. Qed.
Lemma grows_put w p s : grows w (set_heap w (<[p := s]> (heap w))).
Proof. intros q [x E]; unfold has; simpl. destruct (decide (p = q)) as [->|]; [rewrite lookup_insert_eq; eauto|rewrite lookup_insert_ne by done; eauto]. Qed.
Lemma grows_invalidate w p : grows w (invalidate_at p w).
Proof. intros q [x E]; unfold has; simpl. destruct (decide (p = q)) as [->|]; [rewrite lookup_alter_eq, E|rewrite lookup_alter_ne by done]; simpl; eauto. Qed.
Lemma grows_same w w' : heap w' = heap w -> grows w w'.
Proof. intros E p; unfold has; by rewrite E. Qed.
Lemma has_put w p s : has (set_heap w (<[p := s]> (heap w))) p.
Proof. unfold has; simpl. rewrite lookup_insert_eq; eauto. Qed.

Section Good.
Context (d r c : Z) (w : world) (G : good d r c w).

Lemma good_heap h : (forall p, has w p -> is_Some (h !! p)) -> good d r c (set_heap w h).
Proof. destruct G as [W ? ? ? ? ? ?]; intros K; split; try done. keep_wf ltac:(exact K). Qed.
Lemma good_put p s : good d r c (set_heap w (<[p := s]> (heap w))).
Proof. apply good_heap; intros q; apply (grows_put w p s). Qed.
Lemma good_invalidate p : good d r c (invalidate_at p w).
Proof. apply good_heap; intros q; apply (grows_invalidate w p). Qed.

Lemma good_sessions m : (forall k e, m !! k = Some e -> sessions w !! k = Some e \/ has w (e_session e)) -> good d r c (set_sessions w m).
Proof. destruct G as [W ? ? ? ? ? ?]; intros K; split; try done. keep_wf ltac:(exact K). Qed.
Lemma good_publish k p now : has w p -> good d r c (publish k p now w).
Proof. intros K; apply good_sessions; intros k' e [[<- <-]|[? ?]]%lookup_insert_Some; auto. Qed.
Lemma good_remove_session k p : good d r c (remove_session_if k p w).
Proof. unfold remove_session_if; repeat case_match; try done; apply good_sessions; intros k' e [? ?]%lookup_delete_Some; auto. Qed.

Lemma good_pending m : (forall k p, m !! k = Some p -> pending_creates w !! k = Some p \/ has w p) -> good d r c (set_pending w m).
Proof. destruct G as [W ? ? ? ? ? ?]; intros K; split; try done. keep_wf ltac:(exact K). Qed.
Lemma good_claim k p : has w p -> good d r c (set_pending w (<[k := p]> (pending_creates w))).
Proof. intros K; apply good_pending; intros k' e [[<- <-]|[? ?]]%lookup_insert_Some; auto. Qed.
Lemma good_delete_pending k : good d r c (set_pending w (delete k (pending_creates w))).
Proof. apply good_pending; intros k' e [? ?]%lookup_delete_Some; auto. Qed.
Lemma good_remove_pending k p : good d r c (remove_pending_if k p w).
Proof. unfold remove_pending_if; case_match; [apply good_delete_pending|done]. Qed.

Lemma good_retain i x : 1 <= d -> in_doubt_initiators w !! session_key i = None -> reservation_ok w x -> state x = RESERVATION_SUSPENDED ->
  matches_transition_identity_fields x i = true ->
  good (d - 1) r c (set_in_doubt w (<[session_key i := mk_suspended i x]> (in_doubt_initiators w))).
Proof.
  intros Hd E0 R S Mt; destruct G as [W Ed ? ? ? ? ?]; split; simpl; try done; try lia.
  - keep_wf ltac:(apply insert_or; split_and!; [apply (reservation_ok_grows w); [by intros ?|done]|done..]).
  - rewrite zsize_insert by done; lia.
Qed.
Lemma good_take_in_doubt k x : in_doubt_initiators w !! k = Some x -> good (d + 1) r c (set_in_doubt w (delete k (in_doubt_initiators w))).
Proof.
  intros E0; destruct G as [W Ed ? ? ? ? ?]; destruct (zsize_delete _ _ _ E0); split; simpl; try done; try lia.
  keep_wf ltac:(exact (fun k' y E => or_introl (proj2 (proj1 (lookup_delete_Some _ k k' y) E)))).
Qed.
Lemma good_release_in_doubt : 1 <= d -> good (d - 1) r c (release_in_doubt w).
Proof.
  intros Hd; destruct G as [W Ed ? ? Hm ? ?]; pose proof (zsize_nonneg (in_doubt_initiators w)); unfold MAX_IN_DOUBT_RESERVATIONS in *.
  split; simpl; rewrite ?drop_permit_eq by lia; unfold MAX_IN_DOUBT_RESERVATIONS; try done; try lia. keep_wf idtac.
Qed.

Lemma good_take_recovery k x : responder_recoveries w !! k = Some x -> good d (r + 1) c (set_recoveries w (delete k (responder_recoveries w))).
Proof.
  intros E0; destruct G as [W ? Er ? ? ? ?]; destruct (zsize_delete _ _ _ E0); split; simpl; try done; try lia.
  keep_wf ltac:(exact (fun k' y E => or_introl (proj2 (proj1 (lookup_delete_Some _ k k' y) E)))).
Qed.
Lemma good_release_recovery : 1 <= r -> good d (r - 1) c (release_recovery w).
Proof.
  intros Hd; destruct G as [W ? Er ? ? Hm ?]; pose proof (zsize_nonneg (responder_recoveries w)); unfold MAX_RESPONDER_RECOVERY_RECORDS in *.
  split; simpl; rewrite ?drop_permit_eq by lia; unfold MAX_RESPONDER_RECOVERY_RECORDS; try done; try lia. keep_wf idtac.
Qed.
Lemma good_add_recovery k x : 1 <= r -> responder_recoveries w !! k = None -> has w (v_session (p_recovery x)) -> session_key (p_identity x) = k ->
  good d (r - 1) c (set_recoveries w (<[k := x]> (responder_recoveries w))).
Proof.
  intros Hr E0 R S; destruct G as [W ? Er ? ? ? ?]; split; simpl; try done; try lia.
  - keep_wf ltac:(apply insert_or; split; [exact R|exact S]).
  - rewrite zsize_insert by done; lia.
Qed.

Lemma good_take_receipt k x : initiator_receipts w !! k = Some x -> good d r (c + 1) (set_receipts w (delete k (initiator_receipts w))).
Proof.
  intros E0; destruct G as [W ? ? Er ? ? ?]; destruct (zsize_delete _ _ _ E0); split; simpl; try done; try lia.
  keep_wf ltac:(exact (fun k' y E => or_introl (proj2 (proj1 (lookup_delete_Some _ k k' y) E)))).
Qed.
Lemma good_release_receipt : 1 <= c -> good d r (c - 1) (release_receipt w).
Proof.
  intros Hd; destruct G as [W ? ? Er ? ? Hm]; pose proof (zsize_nonneg (initiator_receipts w)); unfold MAX_INITIATOR_RECEIPT_RECORDS in *.
  split; simpl; rewrite ?drop_permit_eq by lia; unfold MAX_INITIATOR_RECEIPT_RECORDS; try done; try lia. keep_wf idtac.
Qed.
Lemma good_add_receipt k x : 1 <= c -> initiator_receipts w !! k = None -> has w (c_session x) -> session_key (c_identity x) = k ->
  good d r (c - 1) (set_receipts w (<[k := x]> (initiator_receipts w))).
Proof.
  intros Hr E0 R S; destruct G as [W ? ? Er ? ? ?]; split; simpl; try done; try lia.
  - keep_wf ltac:(apply insert_or; split; [exact R|exact S]).
  - rewrite zsize_insert by done; lia.
Qed.
End Good.

Lemma good_remove_recovery d r c w k : good d r c w -> good d r c (remove_recovery k w).
Proof.
  intros G; unfold remove_recovery; case_match; [|done]. replace r with (r + 1 - 1) at 1 by lia.
  destruct (g_r_max _ _ _ _ G). apply good_release_recovery; [eapply good_take_recovery; eauto|lia].
Qed.
Lemma remove_recovery_none k w : responder_recoveries (remove_recovery k w) !! k = None.
Proof. unfold remove_recovery; case_match; simpl; [apply lookup_delete_eq|done]. Qed.
Lemma remove_recovery_heap k w : heap (remove_recovery k w) = heap w.
Proof. unfold remove_recovery; by case_match. Qed.
Lemma good_insert_recovery d r c w k x : good d r c w -> 1 <= r -> has w (v_session (p_recovery x)) -> session_key (p_identity x) = k ->
  good d (r - 1) c (insert_recovery k x w).
Proof.
  intros G ? K ?; apply good_add_recovery; auto using good_remove_recovery, remove_recovery_none.
  unfold has in *; by rewrite remove_recovery_heap.
Qed.

Lemma good_remove_receipt d r c w k : good d r c w -> good d r c (remove_receipt k w).
Proof.
  intros G; unfold remove_receipt; case_match; [|done]. replace c with (c + 1 - 1) at 1 by lia.
  destruct (g_c_max _ _ _ _ G). apply good_release_receipt; [eapply good_take_receipt; eauto|lia].
Qed.
Lemma remove_receipt_none k w : initiator_receipts (remove_receipt k w) !! k = None.
Proof. unfold remove_receipt; case_match; simpl; [apply lookup_delete_eq|done]. Qed.
Lemma remove_receipt_heap k w : heap (remove_receipt k w) = heap w.
Proof. unfold remove_receipt; by case_match. Qed.
Lemma good_insert_receipt d r c w k x : good d r c w -> 1 <= c -> has w (c_session x) -> session_key (c_identity x) = k ->
  good d r (c - 1) (insert_receipt k x w).
Proof.
  intros G ? K ?; apply good_add_receipt; auto using good_remove_receipt, remove_receipt_none.
  unfold has in *; by rewrite remove_receipt_heap.
Qed.

(** Expiry drops the permit of every proof it removes. *)
Lemma expire_fold d r c ks : forall w n, good d r c w -> let w' := (fold_left expire_one ks (w, n)).1 in good d r c w' /\ grows w w'.
Proof.
  induction ks as [|k ks IH]; intros w n G; [split; [done|simpl; reflexivity]|]. simpl. case_match eqn:E; [|by apply IH].
  destruct (IH (invalidate_at (v_session (p_recovery r0)) (remove_recovery k w)) (n + 1)) as [G' K].
  { by apply good_invalidate, good_remove_recovery. }
  split; [done|]. intros p Hp; apply K, grows_invalidate. unfold has; by rewrite remove_recovery_heap.
Qed.
Lemma good_expire d r c l now w : good d r c w ->
  good d r c (expire_responder_recoveries_locked l now w).1 /\ grows w (expire_responder_recoveries_locked l now w).1.
Proof. apply expire_fold. Qed.

(** ** Calls *)
(** The call does not panic and frees no session; an error leaves [d], [r] and [c] permits outside. *)
Definition runs {X} (d r c : Z) (w : world) (res : world * outcome Error X) (Q : X -> world -> Prop) : Prop :=
  grows w res.1 /\ match res.2 with Ok x => Q x res.1 | Err _ => good d r c res.1 | Panic => False end.

Section Rules.
Context {X Y : Type} (d r c : Z) (w : world) (Q : Y -> world -> Prop).

Lemma runs_grows w' (res : world * outcome Error Y) : grows w w' -> runs d r c w' res Q -> runs d r c w res Q.
Proof. intros G [G' K]; split; [by transitivity w'|done]. Qed.
Lemma runs_bind (m : M X) (f : X -> M Y) (P : X -> world -> Prop) : runs d r c w (m w) P ->
  (forall x w', grows w w' -> P x w' -> runs d r c w' (f x w') Q) -> runs d r c w ((m ≫= f) w) Q.
Proof.
  intros [G K] F; unfold mbind, M_bind; destruct (m w) as [w' [x|e|]]; simpl in *; [|done..].
  apply (runs_grows w'); auto.
Qed.
Lemma runs_ret (y : Y) : Q y w -> runs d r c w (mret (M:=M) y w) Q.
Proof. intros; split; [simpl; reflexivity|done]. Qed.
Lemma runs_fail e : good d r c w -> runs d r c w (fail e w) Q.
Proof. intros; split; [simpl; reflexivity|done]. Qed.
Lemma runs_guard b e (f : unit -> M Y) : good d r c w -> (b = true -> runs d r c w (f tt w) Q) -> runs d r c w ((guard b e ≫= f) w) Q.
Proof. intros G K; unfold guard; destruct b; [by apply K|by apply runs_fail]. Qed.
Lemma runs_require (o : option X) e (f : X -> M Y) : good d r c w -> (forall x, o = Some x -> runs d r c w (f x w) Q) ->
  runs d r c w ((require o e ≫= f) w) Q.
Proof. intros G K; unfold require; destruct o; [by apply K|by apply runs_fail]. Qed.
Lemma runs_modify g (f : unit -> M Y) : grows w (g w) -> runs d r c (g w) (f tt (g w)) Q -> runs d r c w ((modify g ≫= f) w) Q.
Proof. intros G K; by apply (runs_grows (g w)). Qed.
Lemma runs_deref p (f : PS.t -> M Y) : has w p -> (forall s, heap w !! p = Some s -> runs d r c w (f s w) Q) -> runs d r c w ((deref p ≫= f) w) Q.
Proof. intros [s E] K; unfold deref, mbind, M_bind; rewrite E; by apply K. Qed.
Lemma runs_update p g (f : unit -> M Y) : has w p ->
  (forall s, heap w !! p = Some s -> let w' := set_heap w (<[p := g s]> (heap w)) in runs d r c w' (f tt w') Q) ->
  runs d r c w ((update p g ≫= f) w) Q.
Proof.
  intros [s E] K. unfold update, deref, put, mbind, M_bind. rewrite E; simpl. eapply runs_grows; [apply grows_put|by apply K].
Qed.
Lemma runs_alloc s (f : ptr -> M Y) : (forall p, let w' := set_heap w (<[p := s]> (heap w)) in runs d r c w' (f p w') Q) ->
  runs d r c w ((alloc s ≫= f) w) Q.
Proof. intros K; eapply runs_grows; [apply grows_put|apply K]. Qed.
Lemma runs_on_session p (g : PS.t -> PS.R X) (f : X -> M Y) : good d r c w -> has w p -> (forall s, (g s).2 <> Panic) ->
  (forall s x, heap w !! p = Some s -> (g s).2 = Ok x -> let w' := set_heap w (<[p := (g s).1]> (heap w)) in runs d r c w' (f x w') Q) ->
  runs d r c w ((on_session p g ≫= f) w) Q.
Proof.
  intros G [s E] N K. unfold on_session, deref, put, lift, mbind, M_bind, modify. rewrite E; simpl.
  specialize (N s); destruct (g s).2 as [x|e|] eqn:Eo; [|split; [apply grows_put|by apply good_put]|done].
  eapply runs_grows; [apply grows_put|by apply K].
Qed.
Ltac reserve_rule G K counter := unfold mbind, M_bind, modify, read, try_reserve_global;
  destruct (_ <=? counter) eqn:Hle; [split; [by intros ?|by destruct w]|]; cbv zeta in K; apply Z.leb_gt in Hle;
  match type of K with ?g -> runs _ _ _ ?w' _ _ => apply (runs_grows w'); [by intros ?|apply K] end;
  destruct G; split; simpl; try done; try lia; keep_wf idtac.
Lemma runs_reserve_in_doubt (f : unit -> M Y) : good d r c w ->
  (let w' := set_counts w (IN_DOUBT_RESERVATION_COUNT w + 1) (RESPONDER_RECOVERY_RECORD_COUNT w) (INITIATOR_RECEIPT_RECORD_COUNT w) in
   good (d + 1) r c w' -> runs d r c w' (f tt w') Q) -> runs d r c w ((reserve_in_doubt ≫= f) w) Q.
Proof. intros G K; unfold reserve_in_doubt. reserve_rule G K (IN_DOUBT_RESERVATION_COUNT w). Qed.
Lemma runs_reserve_recovery (f : unit -> M Y) : good d r c w ->
  (let w' := set_counts w (IN_DOUBT_RESERVATION_COUNT w) (RESPONDER_RECOVERY_RECORD_COUNT w + 1) (INITIATOR_RECEIPT_RECORD_COUNT w) in
   good d (r + 1) c w' -> runs d r c w' (f tt w') Q) -> runs d r c w ((reserve_recovery ≫= f) w) Q.
Proof. intros G K; unfold reserve_recovery. reserve_rule G K (RESPONDER_RECOVERY_RECORD_COUNT w). Qed.
Lemma runs_reserve_receipt (f : unit -> M Y) : good d r c w ->
  (let w' := set_counts w (IN_DOUBT_RESERVATION_COUNT w) (RESPONDER_RECOVERY_RECORD_COUNT w) (INITIATOR_RECEIPT_RECORD_COUNT w + 1) in
   good d r (c + 1) w' -> runs d r c w' (f tt w') Q) -> runs d r c w ((reserve_receipt ≫= f) w) Q.
Proof. intros G K; unfold reserve_receipt. reserve_rule G K (INITIATOR_RECEIPT_RECORD_COUNT w). Qed.
Lemma runs_right (m : M Y) : runs d r c w ((m ≫= mret) w) Q -> runs d r c w (m w) Q.
Proof. unfold mbind, M_bind; by destruct (m w) as [w' []]. Qed.
Lemma runs_on_error (m : M Y) g d' r' c' : grows w (g (m w).1) -> runs d' r' c' w (m w) Q -> (good d' r' c' (m w).1 -> good d r c (g (m w).1)) ->
  runs d r c w (on_error m g w) Q.
Proof. unfold on_error, runs; intros Hg [G K] F; destruct (m w) as [w' [x|e|]]; simpl in *; auto. Qed.
End Rules.

Lemma runs_read {Y} d r c w (f : world -> M Y) Q : runs d r c w (f w w) Q -> runs d r c w ((read ≫= f) w) Q.
Proof. done. Qed.
Lemma runs_weaken {X} d r c w (res : world * outcome Error X) (P Q : X -> world -> Prop) :
  runs d r c w res P -> (forall x w', grows w w' -> P x w' -> Q x w') -> runs d r c w res Q.
Proof. intros [G K] F; split; [done|]. destruct res as [w' []]; simpl in *; auto. Qed.

Lemma grows_remove_pending w k p : grows w (remove_pending_if k p w).
Proof. apply grows_same; unfold remove_pending_if; by case_match. Qed.
Lemma grows_remove_session w k p : grows w (remove_session_if k p w).
Proof. apply grows_same; unfold remove_session_if; by repeat case_match. Qed.
Lemma grows_release_quota w x : grows w (release_quota x w).
Proof. apply grows_same; unfold release_quota; by case_match. Qed.
Lemma grows_remove_recovery w k : grows w (remove_recovery k w).
Proof. apply grows_same, remove_recovery_heap. Qed.
Lemma grows_insert_recovery w k x : grows w (insert_recovery k x w).
Proof. apply grows_same; simpl; apply remove_recovery_heap. Qed.
Lemma grows_remove_receipt w k : grows w (remove_receipt k w).
Proof. apply grows_same, remove_receipt_heap. Qed.
Lemma grows_insert_receipt w k x : grows w (insert_receipt k x w).
Proof. apply grows_same; simpl; apply remove_receipt_heap. Qed.

(** permits of a reservation *)
Definition qz (x : InitiatorSessionReservation) : Z := if recovery_quota x then 1 else 0.
Lemma good_release_quota d r c w x : good d r c w -> qz x <= d -> good (d - qz x) r c (release_quota x w).
Proof. unfold qz, release_quota; intros G ?; case_match; [by apply good_release_in_doubt|by rewrite Z.sub_0_r]. Qed.

(** one step of a call: the rule of its first command *)
Ltac grow := first [by intros ?|apply grows_put|apply grows_invalidate|apply grows_remove_pending|apply grows_remove_session
  |apply grows_release_quota|apply grows_remove_recovery|apply grows_insert_recovery|apply grows_remove_receipt|apply grows_insert_receipt].
Ltac rstep :=
  lazymatch goal with
  | |- runs _ _ _ _ ((guard _ _ ≫= _) _) _ => apply runs_guard; [eauto with store|intros ?]
  | |- runs _ _ _ _ ((require _ _ ≫= _) _) _ => apply runs_require; [eauto with store|intros ? ?]
  | |- runs _ _ _ _ ((read ≫= _) _) _ => apply runs_read
  | |- runs _ _ _ _ ((modify _ ≫= _) _) _ => apply runs_modify; [try grow|]
  | |- runs _ _ _ _ ((deref _ ≫= _) _) _ => apply runs_deref; [eauto with store|intros ? ?]
  | |- runs _ _ _ _ ((update _ _ ≫= _) _) _ => apply runs_update; [eauto with store|intros ? ? ?]
  | |- runs _ _ _ _ ((alloc _ ≫= _) _) _ => apply runs_alloc; intros ? ?
  | |- runs _ _ _ _ ((on_session _ _ ≫= _) _) _ => apply runs_on_session; [eauto with store|eauto with store|try done|intros ? ? ? ? ?]
  | |- runs _ _ _ _ (mret _ _) _ => apply runs_ret
  | |- runs _ _ _ _ (fail _ _) _ => apply runs_fail; eauto with store
  | |- runs _ _ _ _ (modify _ _) _ => apply runs_right, runs_modify; [try grow|apply runs_ret]
  | |- runs _ _ _ _ (update _ _ _) _ => apply runs_right, runs_update; [eauto with store|intros ? ? ?; apply runs_ret]
  | |- runs _ _ _ _ (on_session _ _ _) _ =>
      apply runs_right, runs_on_session; [eauto with store|eauto with store|try done|intros ? ? ? ? ?; apply runs_ret]
  end.
#[local] Hint Resolve good_put good_invalidate good_publish good_remove_session good_claim good_delete_pending good_remove_pending
  good_remove_recovery good_remove_receipt has_put ro_session wf_sessions wf_pending g_wf : store.
#[local] Hint Extern 2 (has (set_heap _ _) _) => eapply has_grows; [apply grows_put|] : store.

Lemma runs_cancel_initiator d0 r0 c0 d r c w x : good d r c w -> has w (r_session x) ->
  runs d0 r0 c0 w (cancel_initiator_reservation x w) (fun _ w' => good d r c w').
Proof. intros G R; unfold cancel_initiator_reservation; repeat case_match; rstep; eauto with store. Qed.

Lemma runs_cancel d0 r0 c0 d r c w x : good d r c w -> reservation_ok w x -> qz x <= d ->
  runs d0 r0 c0 w (cancel x w) (fun y w' => good (d - qz x + qz y) r c w' /\ reservation_ok w' y /\ (state x = RESERVATION_PENDING -> qz y = 0) /\
    (state x <> RESERVATION_PENDING -> y = x)).
Proof.
  intros G R L; unfold cancel; case_match eqn:Es.
  2-4: rstep; replace (d - qz x + qz x) with d by lia; split_and!; done.
  eapply runs_bind; [apply runs_cancel_initiator; [done|by apply ro_session]|]. intros ? w' Hg G'; simpl in G'. rstep. rstep.
  split_and!; [|apply (reservation_ok_grows w); [transitivity w'; [done|grow]|destruct R; by split]|done|congruence].
  unfold qz at 2; simpl; rewrite Z.add_0_r. by apply good_release_quota.
Qed.

Lemma runs_drop d0 r0 c0 d r c w x : good d r c w -> reservation_ok w x -> qz x <= d ->
  runs d0 r0 c0 w (drop_reservation x w) (fun _ w' => good (d - qz x) r c w').
Proof.
  intros G R L; unfold drop_reservation.
  apply (runs_bind _ _ _ _ _ _ _ (fun y w' => good (d - qz x + qz y) r c w' /\ qz y <= d - qz x + qz y)).
  { assert (K : forall y, qz y <= d - qz x + qz y) by (intros y; lia).
    case_match; [eapply runs_weaken; [by apply runs_cancel|]; intros y w' _ (? & ? & ?); auto..|].
    rstep. split; [by replace (d - qz x + qz x) with d by lia|done]. }
  intros y w' Hg [G' L']; rstep. replace (d - qz x) with (d - qz x + qz y - qz y) by lia. by apply good_release_quota.
Qed.

(** ** Transitions in doubt *)
Lemma runs_fail_dropping {X} d r c w x e (Q : X -> world -> Prop) : good d r c w -> reservation_ok w x -> qz x <= d ->
  runs (d - qz x) r c w (fail_dropping x e w) Q.
Proof.
  intros; unfold fail_dropping; eapply runs_bind; [by eapply runs_drop|]. intros ? w' _ G; simpl in G. rstep.
Qed.

Lemma runs_suspend d r c w x l i : good d r c w -> reservation_ok w x -> qz x <= d ->
  runs (d - qz x) r c w (suspend_with_identity x l i w) (fun _ w' => good (d - qz x) r c w').
Proof.
  intros G R L; unfold suspend_with_identity. case_match; [by apply runs_fail_dropping|].
  destruct (matches_transition_identity_fields x i) eqn:Em; simpl; [|by apply runs_fail_dropping].
  case_match; [by apply runs_fail_dropping|]. destruct (state x) eqn:Es; try by apply runs_fail_dropping.
  pose proof (ro_quota _ _ R) as Eq. rewrite Es, bool_decide_eq_true_2 in Eq by done. rewrite Eq; simpl.
  unfold retain_in_doubt_reservation. destruct (in_doubt_initiators w !! session_key i) eqn:Ei; [by apply runs_fail_dropping|].
  split; simpl; [by intros ?|]. unfold qz in *; rewrite Eq in *.
  apply good_retain; auto. destruct R; by split.
Qed.

(** the permit of a removed record is outside the store *)
Lemma runs_take_in_doubt d r c w i : good d r c w -> runs d r c w (take_in_doubt i w) (fun x w' => good (d + 1) r c w' /\
  reservation_ok w' (s_reservation x) /\ state (s_reservation x) = RESERVATION_SUSPENDED /\
  matches_transition_identity_fields (s_reservation x) (s_identity x) = true /\ in_doubt_initiators w !! session_key i = Some x).
Proof.
  intros G; unfold take_in_doubt; rstep. do 3 rstep. rstep. 
  destruct (wf_in_doubt _ (g_wf _ _ _ _ G) _ _ H0) as (R & ? & ? & ?).
  split_and!; try done; [by eapply good_take_in_doubt|]. by apply (reservation_ok_grows w); [grow|].
Qed.

Lemma reservation_ok_pending w x q : reservation_ok w x -> q = true -> reservation_ok w (with_state x q RESERVATION_PENDING).
Proof. intros [? ? ? ?] ->; by split. Qed.

Lemma runs_resume d r c w i : good d r c w -> runs d r c w (resume_initiator_reservation i w) (fun x w' => good (d + 1) r c w' /\
  reservation_ok w' x /\ qz x = 1).
Proof.
  intros G; unfold resume_initiator_reservation. eapply runs_bind; [by apply runs_take_in_doubt|].
  intros x w' Hg (G' & R & Es & Em & _). rewrite Em; simpl. rstep. split_and!; [done|by apply reservation_ok_pending|done].
Qed.
(** a reservation taken out of its record is cancelled, then the permit of the record goes *)
Lemma runs_cancel_suspended d0 r0 c0 d r c w x : good (d + 1) r c w -> 0 <= d -> reservation_ok w x -> state x = RESERVATION_SUSPENDED ->
  runs d0 r0 c0 w ((_ ← cancel (with_state x (recovery_quota x) RESERVATION_PENDING); modify release_in_doubt) w) (fun _ w' => good d r c w').
Proof.
  intros G Hd [K _ _ Eq] Es; rewrite Es, bool_decide_eq_false_2 in Eq by done. rewrite Eq.
  apply (runs_bind _ _ _ _ _ _ _ (fun _ w' => good (d + 1) r c w')).
  - unfold cancel; simpl. eapply runs_bind; [by apply runs_cancel_initiator|]. intros ? w' Hg G'; simpl in G'. by do 2 rstep.
  - intros ? w' _ G'; simpl in G'. rstep. replace d with (d + 1 - 1) by lia. apply good_release_in_doubt; [done|lia].
Qed.

Lemma runs_cancel_exact d0 r0 c0 d r c w i : good d r c w -> runs d0 r0 c0 w (cancel_initiator_reservation_exact i w) (fun _ w' => good d r c w').
Proof.
  intros G; unfold cancel_initiator_reservation_exact. pose proof (runs_take_in_doubt d r c w i G) as [Hg K].
  destruct (take_in_doubt i w) as [w' [x|e|]]; simpl in *; [|by split|done].
  destruct K as (G' & R & Es & _). apply (runs_grows _ _ _ _ _ w'); [done|].
  pose proof (runs_cancel_suspended d0 r0 c0 d r c w' (s_reservation x) G' (proj1 (g_d_max _ _ _ _ G)) R Es) as [Hc Kc].
  revert Hc Kc. unfold mbind, M_bind. destruct (cancel _ _) as [w2 []]; simpl; [|done..]. intros; by split.
Qed.

Lemma runs_when_some {X} d0 r0 c0 d r c w (o : option X) f : good d r c w ->
  (forall x, o = Some x -> runs d0 r0 c0 w (f x w) (fun _ w' => good d r c w')) -> runs d0 r0 c0 w (when_some o f w) (fun _ w' => good d r c w').
Proof. intros G K; destruct o; simpl; [by apply K|by apply runs_ret]. Qed.

Lemma runs_clear d0 r0 c0 d r c w k key : good d r c w ->
  runs d0 r0 c0 w (clear_peer_records_if_static_key_matches k key w) (fun _ w' => good d r c w').
Proof.
  intros G; unfold clear_peer_records_if_static_key_matches. rstep.
  case_match; [by rstep|]. case_match; [by rstep|]. rstep.
  set (w1 := set_pending w _). assert (G1 : good d r c w1) by (by apply good_delete_pending).
  assert (D1 : in_doubt_initiators w1 = in_doubt_initiators w) by done.
  rstep. set (w2 := set_in_doubt w1 _). rstep. rstep. rstep. set (w5 := set_sessions _ _).
  set (e := if in_doubt_initiators w !! k then 1 else 0).
  assert (G5 : good (d + e) r c w5).
  { apply good_sessions; [apply good_remove_receipt, good_remove_recovery|intros ? ? [? ?]%lookup_delete_Some; auto].
    subst e w2; destruct (in_doubt_initiators w !! k) eqn:E; [by eapply good_take_in_doubt; [done|rewrite D1]|].
    rewrite Z.add_0_r. rewrite D1, delete_id by done. by destruct w. }
  assert (Hg : grows w w5). { intros p Hp. unfold has; simpl. by rewrite remove_receipt_heap, remove_recovery_heap. }
  clearbody w5. eapply runs_bind; [apply (runs_when_some _ _ _ (d + e) r c); [done|intros; rstep; eauto with store]|].
  intros ? w6 Hg6 G6; simpl in G6.
  apply (runs_bind _ _ _ _ _ _ _ (fun _ w' => good d r c w')).
  { destruct (in_doubt_initiators w !! k) as [y|] eqn:E; simpl; subst e.
    - destruct (wf_in_doubt _ (g_wf _ _ _ _ G) _ _ E) as (R & ? & _).
      apply runs_cancel_suspended; auto; [apply (g_d_max _ _ _ _ G)|]. apply (reservation_ok_grows w); [by transitivity w5|done].
    - rstep. by rewrite Z.add_0_r in G6. }
  intros ? w7 Hg7 G7; simpl in G7. eapply runs_bind; [by eapply runs_when_some; [done|intros; rstep; eauto with store]|].
  intros ? w8 ? G8; by rstep.
Qed.

(** ** Preparing and committing an initiator transition *)
Lemma runs_lift {X Y} d r c w (o : outcome PS.Error X) (f : X -> M Y) Q : good d r c w -> o <> Panic ->
  (forall x, o = Ok x -> runs d r c w (f x w) Q) -> runs d r c w ((lift o ≫= f) w) Q.
Proof. intros G N K; unfold lift, mbind, M_bind; destruct o; [by apply K|by apply runs_fail|done]. Qed.

Lemma prepare_sync_total s e : (PS.prepare_sync_transition_at s e).2 <> Panic.
Proof. unfold PS.prepare_sync_transition_at; by repeat case_match. Qed.
Lemma commit_sync_total s a b g e t n : (PS.commit_reserved_sync s a b g e t n).2 <> Panic.
Proof. unfold PS.commit_reserved_sync; by repeat case_match. Qed.
Lemma reserve_key_total s k : (PS.reserve_peer_static_pubkey s k).2 <> Panic.
Proof. unfold PS.reserve_peer_static_pubkey; by repeat case_match. Qed.
Lemma set_key_total s k : (PS.check_or_set_peer_static_pubkey s k).2 <> Panic.
Proof. unfold PS.check_or_set_peer_static_pubkey; by repeat case_match. Qed.
Lemma commit_key_total s : (PS.commit_reserved_peer_static_pubkey s).2 <> Panic.
Proof. unfold PS.commit_reserved_peer_static_pubkey; by repeat case_match. Qed.
Lemma check_key_total s k : PS.check_peer_static_pubkey s k <> Panic.
Proof. unfold PS.check_peer_static_pubkey; by repeat case_match. Qed.
#[local] Hint Resolve prepare_sync_total commit_sync_total reserve_key_total set_key_total commit_key_total check_key_total : store.

Lemma peek_has d r c w k p : good d r c w -> peek w k = Some p -> has w p.
Proof. unfold peek; intros G E; repeat case_match; simplify_eq; eauto with store. Qed.
#[local] Hint Resolve peek_has : store.

(** a reservation that waits for its permit *)
Definition staged_ok (w : world) (x : InitiatorSessionReservation) : Prop := reservation_ok w (with_state x true RESERVATION_PENDING).

Lemma runs_check_same {Y} d r c w p q (f : PS.t -> M Y) Q : good d r c w -> has w p ->
  (forall s, heap w !! p = Some s -> runs d r c w (f s w) Q) -> runs d r c w ((check_same p q ≫= f) w) Q.
Proof.
  intros G K F; apply (runs_bind _ _ _ _ _ _ _ (fun s w' => w' = w /\ heap w !! p = Some s)).
  - unfold check_same; rstep. rstep. apply runs_lift; [done|apply check_key_total|]. intros; by rstep.
  - intros s w' _ [-> E]; auto.
Qed.

Lemma runs_claim {Y} d r c w k p (f : unit -> M Y) Q : good d r c w -> has w p ->
  (let w' := set_pending w (<[k := p]> (pending_creates w)) in runs d r c w' (f tt w') Q) -> runs d r c w ((claim_creation k p ≫= f) w) Q.
Proof.
  intros G K F; apply (runs_bind _ _ _ _ _ _ _ (fun s w' => w' = set_pending w (<[k := p]> (pending_creates w)))).
  - unfold claim_creation; rstep. rstep. by rstep.
  - by intros [] w' _ ->.
Qed.

Lemma runs_prepare_new d r c w k q now : good d r c w ->
  runs d r c w (prepare_new_initiator_session_locked k q now w) (fun x w' => good d r c w' /\ staged_ok w' x).
Proof.
  intros G; unfold prepare_new_initiator_session_locked. rstep. rstep.
  apply (runs_bind _ _ _ _ _ _ _ (fun o w' => w' = w /\ forall p rev, o = Some (p, rev) -> has w p)).
  { destruct (peek w k) as [p|] eqn:Ep; [|by rstep]. apply runs_check_same; [done|by eauto with store|]. intros s Es.
    rstep. rstep. rstep. split; [done|]. intros ? ? [= <- <-]. by eexists. }
  intros o w' _ [-> Ho]. rstep. apply runs_claim; [by apply good_put|apply has_put|]. cbv zeta beta. rstep.
  split; [apply good_claim; [by apply good_put|apply has_put]|]. split; simpl; try done; [apply has_put|].
  intros p' rev E; apply (grows_put w), (Ho _ _ E).
Qed.

Lemma runs_prepare_join d r c w k q : good d r c w -> q_action q = PS.Join ->
  runs d r c w (prepare_join k q w) (fun x w' => good d r c w' /\ staged_ok w' x).
Proof.
  intros G Eq; unfold prepare_join. rstep. rstep. apply runs_check_same; [done|by eauto with store|]. intros s Es. rstep. rstep.
  split; [done|]. split; simpl; try done; [by eauto with store|congruence].
Qed.

Lemma runs_reserve_pubkey {Y} d r c w p k rev e (f : unit -> M Y) Q : good d r c w -> has w p ->
  (forall w', good d r c w' -> grows w w' -> runs d r c w' (f tt w') Q) -> runs d r c w ((reserve_pubkey_or_cancel p k rev e ≫= f) w) Q.
Proof.
  intros G [s Es] K; unfold reserve_pubkey_or_cancel, on_session, deref, put, modify, lift, mbind, M_bind. rewrite Es; simpl.
  pose proof (reserve_key_total s k) as N. destruct (PS.reserve_peer_static_pubkey s k) as [s' [[]|er|]]; simpl in *; [| |done].
  - eapply runs_grows; [apply grows_put|]. apply K; [by apply good_put|apply grows_put].
  - unfold cancel_sync, update, deref, put, modify, mbind, M_bind; simpl. rewrite lookup_insert_eq; simpl.
    split; simpl; [transitivity (set_heap w (<[p := s']> (heap w))); apply grows_put|]. do 2 apply good_put; done.
Qed.

Lemma runs_prepare_sync d r c w k q : good d r c w -> q_action q = PS.Sync ->
  runs d r c w (prepare_sync k q w) (fun x w' => good d r c w' /\ staged_ok w' x).
Proof.
  intros G Eq; unfold prepare_sync. rstep. rstep. rstep. apply runs_check_same; [done|by eauto with store|]. intros s Es. rstep.
  apply runs_on_session; [done|by eexists|eauto with store|]. intros s' [[[g rk] e] rev] _ _ w1.
  assert (G1 : good d r c w1) by (by apply good_put). assert (K1 : has w1 x) by apply has_put. clearbody w1.
  apply runs_reserve_pubkey; [done|done|]. intros w2 G2 Hg2. assert (K2 : has w2 x) by auto.
  case_match; [|rstep; split; [done|]; by split; simpl; try done; congruence].
  unfold cancel_sync. rstep. rstep. rstep.
Qed.

Lemma runs_prepare d r c w k q now : good d r c w ->
  runs d r c w (prepare_initiator_action_with_transition_id k q now w) (fun x w' => good (d + 1) r c w' /\ reservation_ok w' x /\ qz x = 1).
Proof.
  intros G; unfold prepare_initiator_action_with_transition_id. rstep. rstep. rstep. rstep.
  apply runs_reserve_in_doubt; [done|]. intros w1 G1. destruct (g_d_max _ _ _ _ G).
  apply (runs_bind _ _ _ _ _ _ _ (fun x w' => good (d + 1) r c w' /\ staged_ok w' x)); [|intros x w' _ [G' R]; by rstep].
  assert (K : forall m, runs (d + 1) r c w1 (m w1) (fun x w' => good (d + 1) r c w' /\ staged_ok w' x) ->
    runs d r c w1 (on_error m release_in_doubt w1) (fun x w' => good (d + 1) r c w' /\ staged_ok w' x)).
  { intros m K; apply (runs_on_error _ _ _ _ _ _ _ (d + 1) r c); [|done|].
    - destruct K as [Hg _]; intros p Hp; apply Hg in Hp; done.
    - intros G'; replace d with (d + 1 - 1) by lia; apply good_release_in_doubt; [done|lia]. }
  clearbody w1. destruct (q_action q) eqn:Eq; [|case_match|]; apply K;
    auto using runs_prepare_new, runs_prepare_join, runs_prepare_sync.
Qed.

Lemma runs_commit_new d r c w x now : good d r c w -> reservation_ok w x ->
  runs d r c w (commit_new_initiator_session_locked x now w) (fun _ w' => good d r c w').
Proof.
  intros G R; unfold commit_new_initiator_session_locked. rstep. rstep. rstep. rstep. rstep. rstep. rstep.
  set (w2 := publish _ _ _ _). assert (G2 : good d r c w2) by (apply good_publish; [by apply good_put|apply has_put]). clearbody w2.
  eapply runs_bind; [apply (runs_when_some _ _ _ d r c); [done|intros; rstep; eauto with store]|].
  intros ? w3 _ G3; simpl in G3. rstep. eauto with store.
Qed.

Lemma runs_commit_locked d r c w x now : good d r c w -> reservation_ok w x ->
  runs d r c w (commit_initiator_reservation_locked x now w) (fun _ w' => good d r c w').
Proof.
  intros G R; unfold commit_initiator_reservation_locked. destruct (publishes_session x) eqn:Ep; [by apply runs_commit_new|].
  destruct (r_action x) eqn:Ea; [| |by destruct (ro_create _ _ R Ep)]; rstep; rstep.
  - rstep. rstep. rstep. rstep; [eauto with store|]. rstep. rstep.
    apply good_publish; [do 2 apply good_put; done|apply has_put].
  - rstep. rstep; [eauto with store|]. by apply good_put.
Qed.

(** ** Whole calls on a reservation *)
Lemma commit_by_ok d r c w x m : good d r c w -> reservation_ok w x -> qz x <= d ->
  runs d r c w (m w) (fun _ w' => good d r c w') -> let '((w', y), o) := commit_by m x w in
  grows w w' /\ o <> Panic /\ good (d - qz x + qz y) r c w' /\ reservation_ok w' y.
Proof.
  intros G R L [Hg K]; unfold commit_by.
  assert (Kw : forall w' st, grows w w' -> good d r c w' -> st <> RESERVATION_PENDING -> let y := with_state x false st in
    grows w (release_quota x w') /\ good (d - qz x + qz y) r c (release_quota x w') /\ reservation_ok (release_quota x w') y).
  { intros w' st Hg' G' Ns y. assert (Hr : grows w (release_quota x w')) by (transitivity w'; [done|apply grows_release_quota]).
    split_and!; [done| |apply (reservation_ok_grows w); [done|destruct R; split; simpl; try done; by rewrite bool_decide_eq_false_2]].
    unfold qz at 2; simpl; rewrite Z.add_0_r. by apply good_release_quota. }
  destruct (state x); try (split_and!; [reflexivity|done|by replace (d - qz x + qz x) with d by lia|done]).
  destruct (m w) as [w1 [[]|e|]]; simpl in *; [destruct (Kw w1 RESERVATION_COMMITTED) as (? & ? & ?); auto| |done].
  pose proof (runs_cancel_initiator d r c d r c w1 x K (Hg _ (ro_session _ _ R))) as [Hc Kc].
  destruct (cancel_initiator_reservation x w1) as [w2 o]; simpl in *.
  destruct (Kw w2 RESERVATION_CANCELED) as (? & ? & ?); [by transitivity w1|by destruct o|done|].
  split_and!; [done|by destruct o|done|done].
Qed.

Lemma runs_commit_fresh d r c w x i now : good d r c w -> reservation_ok w x -> session_key i = r_key x ->
  runs d r c w (commit_fresh_receipt x i now w) (fun _ w' => good d r c w').
Proof.
  intros G R E; unfold commit_fresh_receipt. apply runs_reserve_receipt; [done|]. intros w1 G1. destruct (g_c_max _ _ _ _ G).
  assert (R1 : reservation_ok w1 x) by (by apply (reservation_ok_grows w); [intros ?|]). clearbody w1.
  apply (runs_bind _ _ _ _ _ _ _ (fun _ w' => good d r (c + 1) w')).
  - pose proof (runs_commit_locked d r (c + 1) w1 x now G1 R1) as K. apply (runs_on_error _ _ _ _ _ _ _ d r (c + 1)); [|done|].
    + destruct K as [Hg _]; intros p Hp; by apply Hg.
    + intros G'; replace c with (c + 1 - 1) by lia; apply good_release_receipt; [done|lia].
  - intros ? w2 Hg G2; simpl in G2; rstep. replace c with (c + 1 - 1) by lia.
    apply good_insert_receipt; [done|lia|apply Hg, R1|done].
Qed.

Lemma records_commit_locked x now : steps same_records (commit_initiator_reservation_locked x now).
Proof.
  unfold commit_initiator_reservation_locked, commit_new_initiator_session_locked.
  frame ltac:(unfold remove_pending_if; repeat case_match; by split).
Qed.

Lemma matches_key x i : matches_transition_identity_fields x i = true -> session_key i = r_key x.
Proof. unfold matches_transition_identity_fields; rewrite !andb_true_iff. intros [[[[[[K ?] ?] ?] ?] ?] ?]. by apply bool_decide_eq_true in K. Qed.

Lemma runs_commit_receipt d r c w x i prev now : good d r c w -> reservation_ok w x ->
  runs d r c w (commit_initiator_reservation_with_receipt x i prev now w) (fun _ w' => good d r c w').
Proof.
  intros G R; unfold commit_initiator_reservation_with_receipt. rstep. rstep.
  match goal with K : matches_transition_identity_fields _ _ = true |- _ => apply matches_key in K as Ek end. rstep.
  destruct prev as [prev|], (initiator_receipts w !! session_key i) as [old|] eqn:Eo; [|by apply runs_commit_fresh|by rstep|by apply runs_commit_fresh].
  case_match; [|by rstep]. rstep. set (w1 := set_receipts w _).
  destruct (wf_receipts _ (g_wf _ _ _ _ G) _ _ Eo) as [Ho Ek'].
  assert (G1 : good d r (c + 1) w1) by (by eapply good_take_receipt).
  assert (R1 : reservation_ok w1 x) by (by apply (reservation_ok_grows w); [intros ?|]).
  pose proof (runs_commit_locked d r (c + 1) w1 x now G1 R1) as K. pose proof (records_commit_locked x now w1) as [_ _ Er _ _ _].
  assert (E0 : initiator_receipts w1 !! session_key i = None) by apply lookup_delete_eq.
  destruct (g_c_max _ _ _ _ G) as [Hc _]. assert (Ho1 : has w1 (c_session old)) by done. clearbody w1.
  apply (runs_bind _ _ _ _ _ _ _ (fun _ w' => good d r (c + 1) w' /\ initiator_receipts w' !! session_key i = None)).
  - destruct K as [Hg K]. unfold on_error, runs. destruct (commit_initiator_reservation_locked x now w1) as [w2 [[]|e|]]; simpl in *; [|split|done].
    + by rewrite Er.
    + done.
    + replace c with (c + 1 - 1) by lia. apply good_add_receipt; auto; [lia|by rewrite Er, Ek'].
  - intros ? w2 Hg [G2 E2]; rstep. replace c with (c + 1 - 1) by lia. apply good_add_receipt; auto; [lia|apply Hg, R1].
Qed.

(** ** The responder *)
Record prepared_ok (w : world) (u : UpsertResponderSessionReturn) : Prop := {
  po_session : has w (u_session u);
  po_backup : forall b, proof_backup u = Some b -> has w (v_session (p_recovery b)) /\ session_key (p_identity b) = prepared_key u;
  po_cleared : is_Some (proof_backup u) -> proof_cleared u = true;
}.
Lemma prepared_ok_grows w w' u : grows w w' -> prepared_ok w u -> prepared_ok w' u.
Proof. intros G [? K ?]; split; auto. intros b E; destruct (K b E); auto. Qed.
(** permits of a prepared transition *)
Definition pz (u : UpsertResponderSessionReturn) : Z := if proof_backup u then 1 else 0.
#[local] Hint Resolve po_session : store.

Lemma runs_get {Y} d0 r0 c0 d r c w k now (f : option ptr -> M Y) Q : good d r c w ->
  (forall o w', good d r c w' -> grows w w' -> (forall p, o = Some p -> has w' p) -> runs d0 r0 c0 w' (f o w') Q) ->
  runs d0 r0 c0 w ((get k now ≫= f) w) Q.
Proof.
  intros G K; unfold get, mbind, M_bind. destruct (sessions w !! k) as [e|] eqn:E; [destruct (session_valid w (e_session e))|apply K; done].
  - assert (has w (e_session e)) by eauto with store. eapply runs_grows; [by apply (grows_same w (publish k (e_session e) now w))|].
    apply K; [by apply good_publish|by intros ?|by intros ? [= <-]].
  - eapply runs_grows; [apply grows_remove_session|]. apply K; [by apply good_remove_session|apply grows_remove_session|done].
Qed.

Lemma runs_prepare_responder d r c w k sa ra pk ex tid root uuid now : good d r c w ->
  runs d r c w (prepare_responder_session_locked k sa ra pk ex tid root uuid now w) (fun u w' => good d r c w' /\ prepared_ok w' u /\ pz u = 0).
Proof.
  intros G; unfold prepare_responder_session_locked. rstep. rstep. rstep. rstep.
  eapply runs_get; [done|]. intros [p|] w1 G1 Hg1 Hp.
  - specialize (Hp p eq_refl). rstep. rstep.
    apply runs_on_session; [done|done|intros ?; apply prepare_sync_total|]. intros s' [[[g rk] e] rev] _ _ w2.
    assert (G2 : good d r c w2) by (by apply good_put). assert (K2 : has w2 p) by apply has_put. clearbody w2.
    apply runs_reserve_pubkey; [done|done|]. intros w3 G3 Hg3. rstep. split_and!; [done| |done]. split; simpl; try done; auto.
  - rstep. apply runs_claim; [by apply good_put|apply has_put|]. cbv zeta beta. rstep.
    split_and!; [apply good_claim; [by apply good_put|apply has_put]| |done]. split; simpl; try done; apply has_put.
Qed.

Lemma runs_prepare_with_proof d r c w k ack sa ra pk tid root uuid now : good d r c w ->
  runs d r c w (prepare_responder_session_with_recovery_proof k ack sa ra pk tid root uuid now w)
    (fun u w' => good d r c w' /\ prepared_ok w' u /\ pz u = 0).
Proof.
  intros G; unfold prepare_responder_session_with_recovery_proof.
  destruct (good_expire d r c INITIATOR_RECOVERY_LIFETIME now w G) as [G1 Hg1].
  apply runs_modify; [done|]. rstep. rstep. rstep. eapply runs_bind; [by apply runs_prepare_responder|].
  intros u w2 _ (G2 & [P1 P2 P3] & E2). rstep. split_and!; [done|by split|done].
Qed.

Lemma runs_authenticate d r c w u : good d r c w -> prepared_ok w u -> pz u <= r ->
  runs d r c w (authenticate_recovery u w) (fun u' w' => good d (r - pz u + pz u') c w' /\ prepared_ok w' u').
Proof.
  intros G P L; unfold authenticate_recovery. case_match; [|rstep; by replace (r - pz u + pz u) with r by lia].
  unfold authenticate_prepared_responder_transition. rstep. case_match eqn:Ec; [rstep; by replace (r - pz u + pz u) with r by lia|].
  rstep. rstep. rstep. rstep. rstep. rstep. assert (Eb : proof_backup u = None).
  { destruct (proof_backup u) eqn:Eb; [|done]. rewrite (po_cleared _ _ P) in Ec; [done|by rewrite Eb]. }
  match goal with K : responder_recoveries w !! _ = Some _ |- _ => rename K into Er end.
  destruct (wf_recoveries _ (g_wf _ _ _ _ G) _ _ Er) as [Hs Ek].
  split; [|split; simpl; [apply P| |done]; by intros b [= <-]]. unfold pz; rewrite Eb; simpl.
  replace (r - 0 + 1) with (r + 1) by lia. by eapply good_take_recovery.
Qed.

Lemma drop_prepared_ok d r c w u : good d r c w -> prepared_ok w u -> pz u <= r -> good d (r - pz u) c (drop_prepared u w) /\ grows w (drop_prepared u w).
Proof.
  intros G P L; unfold drop_prepared, restore_responder_recovery.
  assert (Hn : proof_backup u = None -> good d (r - pz u) c w) by (intros E; unfold pz; rewrite E; by rewrite Z.sub_0_r).
  destruct (proof_backup u) as [b|] eqn:Eb; [|by case_match; split; auto; reflexivity]. destruct (po_backup _ _ P _ Eb) as [Hb Ek].
  unfold pz in *; rewrite Eb in *. case_match; [case_match eqn:Er|]; (split; [|by intros ?]).
  1,3: by apply good_release_recovery.
  by apply good_add_recovery.
Qed.

Lemma runs_commit_action d r c w k u now : good d r c w -> prepared_ok w u ->
  runs d r c w (commit_responder_action k u now w) (fun _ w' => good d r c w').
Proof.
  intros G [P _ _]; unfold commit_responder_action. rstep.
  assert (Kt : forall w (f : Z -> M unit) Q, u_action u <> PS.Sync -> has w (u_session u) -> (forall rev, runs d r c w (f rev w) Q) ->
    runs d r c w ((token u ≫= f) w) Q).
  { intros w0 f Q Ea [s Es] K. unfold token, transition_token, mbind, M_bind. destruct (u_action u); [|done|]; rewrite Es; apply K. }
  destruct (u_action u) eqn:Ea.
  - rstep. rstep. rstep. apply Kt; [done..|]. intros rev. rstep. rstep; [apply commit_key_total|]. rstep. by do 2 apply good_put.
  - rstep. rstep. rstep. rstep. rstep; [intros; apply commit_sync_total|]. by apply good_put.
  - rstep. rstep. apply Kt; [done..|]. intros rev. rstep. rstep; [apply commit_key_total|]. rstep. rstep. rstep. rstep. rstep.
    apply good_remove_pending, good_publish; [by do 2 apply good_put|apply has_put].
Qed.

Lemma runs_reserve_quota {Y} d r c w k u (f : unit -> M Y) Q : good d r c w -> has w (u_session u) ->
  (forall w', good d (r + 1) c w' -> heap w' = heap w -> runs d r c w' (f tt w') Q) ->
  runs d r c w ((reserve_responder_recovery_quota_locked k u ≫= f) w) Q.
Proof.
  intros G P K; apply (runs_bind _ _ _ _ _ _ _ (fun _ w' => good d (r + 1) c w' /\ heap w' = heap w)).
  - unfold reserve_responder_recovery_quota_locked. rstep. rstep. rstep. rstep. rstep. apply runs_right, runs_reserve_recovery; [done|].
    intros w1 G1. by rstep.
  - intros [] w' _ [? ?]; auto.
Qed.

Lemma runs_record_recovery d0 r0 c0 d r c w k u now : good d (r + 1) c w -> 0 <= r -> has w (u_session u) ->
  (u_action u = PS.Sync -> is_Some (u_transition_revision u)) ->
  runs d0 r0 c0 w (record_responder_recovery_locked k u now w) (fun _ w' => good d r c w').
Proof.
  intros G Hr P S; unfold record_responder_recovery_locked. rstep.
  apply (runs_bind _ _ _ _ _ _ _ (fun _ w' => w' = w)).
  { unfold token, transition_token, runs; simpl. destruct P as [s' E'].
    destruct (u_action u); [rewrite E'|destruct S as [? ->]; [done|]|rewrite E']; by split. }
  intros rev w' _ ->. rstep. replace r with (r + 1 - 1) by lia. apply good_insert_recovery; [done|lia|done|by destruct k].
Qed.

(** A SYNC that has committed had its revision. *)
Lemma commit_action_revision k u now w : (commit_responder_action k u now w).2 = Ok tt -> u_action u = PS.Sync -> is_Some (u_transition_revision u).
Proof.
  unfold commit_responder_action, mbind, M_bind, read, require, guard. intros E Ea; rewrite Ea in E.
  destruct (u_transition_revision u); [done|]. exfalso; revert E. by repeat (case_match; simplify_eq/=; try done).
Qed.

Lemma runs_commit_prepared d r c w k u now : good d r c w -> prepared_ok w u -> pz u <= r ->
  runs d r c w (commit_prepared_responder_transition k u now w) (fun u' w' => good d (r - pz u + pz u') c w' /\ prepared_ok w' u').
Proof.
  intros G P L; unfold commit_prepared_responder_transition. set (reused := bool_decide (is_Some (proof_dependency u))); clearbody reused.
  rstep. rstep. assert (Hb : if reused then pz u = 1 else True).
  { destruct reused; [|done]. unfold pz; destruct (proof_backup u) eqn:E; [done|].
    match goal with K : negb (true && bool_decide _) = true |- _ => by apply negb_true_iff, bool_decide_eq_false in K end. }
  set (s := if reused then r else r + 1). assert (Hs : 1 <= s /\ (if reused then s = r else s = r + 1)).
  { destruct (g_r_max _ _ _ _ G); subst s; destruct reused; lia. }
  apply (runs_bind _ _ _ _ _ _ _ (fun _ w' => good d s c w' /\ prepared_ok w' u)).
  { subst s; destruct reused; [by rstep|]. apply runs_right, runs_reserve_quota; [done|apply P|]. intros w1 G1 E1. rstep.
    split; [done|]. apply (prepared_ok_grows w); [by apply grows_same|done]. }
  intros ? w1 Hg1 [G1 P1]. clearbody s. pose proof (runs_commit_action d s c w1 k u now G1 P1) as Ka.
  pose proof (commit_action_revision k u now w1) as Kr.
  apply (runs_bind _ _ _ _ _ _ _ (fun _ w' => good d s c w' /\ prepared_ok w' u /\ (u_action u = PS.Sync -> is_Some (u_transition_revision u)))).
  { destruct Ka as [Hg Ka]; unfold on_error, runs. destruct (commit_responder_action k u now w1) as [w2 [[]|e|]]; simpl in *; [|split|done].
    - split; [done|split_and!; [done|by apply (prepared_ok_grows w1)|auto]].
    - destruct reused; intros p Hp; by apply Hg.
    - destruct Hs as [? Hs], reused; subst s; [done|]. replace r with (r + 1 - 1) by lia. by apply good_release_recovery. }
  intros ? w2 Hg2 (G2 & P2 & K2).
  eapply runs_bind; [apply (runs_record_recovery _ _ _ d (s - 1) c); [by replace (s - 1 + 1) with s by lia|lia|apply P2|done]|].
  intros ? w3 Hg3 G3; simpl in G3. rstep. assert (P3 : prepared_ok w3 u) by (by apply (prepared_ok_grows w2)).
  destruct Hs as [? Hs], P3 as [Q1 Q2 Q3]. destruct reused; unfold pz at 2; simpl.
  - split; [by replace (r - pz u + 0) with (s - 1) by lia|]. split; simpl; [done|done|by intros [? ?]].
  - split; [by fold (pz u); replace (r - pz u + pz u) with (s - 1) by lia|by split].
Qed.

(** ** Runs *)
(** The store, the reservations and prepared transitions that connections own, and the permits held by
    the other stores of the process. *)
Record system : Type := mk_system {
  store : world;
  reservations : gmap Z InitiatorSessionReservation;
  prepareds : gmap Z UpsertResponderSessionReturn;
  other_d : Z;
  other_r : Z;
  other_c : Z;
}.
Definition with_store (s : system) (w : world) : system := mk_system w (reservations s) (prepareds s) (other_d s) (other_r s) (other_c s).
Definition with_reservations (s : system) (m : gmap Z InitiatorSessionReservation) : system :=
  mk_system (store s) m (prepareds s) (other_d s) (other_r s) (other_c s).
Definition with_prepareds (s : system) (m : gmap Z UpsertResponderSessionReturn) : system :=
  mk_system (store s) (reservations s) m (other_d s) (other_r s) (other_c s).

(** [h] names a reservation or a prepared transition; [outside] holds the sessions connections use. *)
Inductive op : Type :=
| OPrepare (h : Z) (key : SessionKey) (q : request) (now : Z)
| OBind (h : Z) (tid : list Z)
| OCommit (h now : Z)
| OCommitReceipt (h : Z) (i : Identity) (previous : option Identity) (now : Z)
| OCancel (h : Z)
| ODrop (h : Z)
| OSuspend (h : Z) (metadata : Z) (lifetime : Z)
| OResume (h : Z) (i : Identity)
| OCancelExact (i : Identity)
| OClear (key : SessionKey) (k : list Z)
| OApply (key : SessionKey) (q : request) (now : Z)
| OReceipt (i : Identity) (p : ptr)
| OAckReceipt (key : SessionKey) (tid : list Z)
| OAckReceiptExact (i : Identity)
| OPrepareResponder (h : Z) (key : SessionKey) (sa ra : list Z) (pk : option (list Z)) (tid root : list Z) (uuid now : Z)
| OPrepareProof (h : Z) (key : SessionKey) (ack sa ra : list Z) (pk : option (list Z)) (tid root : list Z) (uuid now : Z)
| OReconcile (h : Z) (i : Identity) (now : Z)
| OAuthenticate (h : Z)
| OCommitPrepared (h : Z) (key : SessionKey) (now : Z)
| OCancelPrepared (h : Z)
| ODropPrepared (h : Z)
| OConsume (i : Identity) (now : Z)
| OAckProof (key : SessionKey) (tid : list Z) (now : Z)
| OAbandon (key : SessionKey) (now : Z)
| OGet (key : SessionKey) (now : Z)
| OTouch (key : SessionKey) (p : ptr) (now : Z)
| ORemove (key : SessionKey)
| ORemoveIfSame (key : SessionKey) (p : ptr)
| OInsert (key : SessionKey) (p : ptr) (now : Z)
| OEvict (outside : ptr -> bool) (now : Z)
| OSession (p : ptr) (f : PS.t -> PS.t)
| OOtherInDoubt (take : bool)
| OOtherRecovery (take : bool)
| OOtherReceipt (take : bool).

Definition forget {X} (o : outcome Error X) : outcome Error unit := match o with Ok _ => Ok tt | Err e => Err e | Panic => Panic end.
Definition call {X} (s : system) (res : world * outcome Error X) : system * outcome Error unit := (with_store s res.1, forget res.2).
Definition changed (s : system) (w : world) : system * outcome Error unit := (with_store s w, Ok tt).
(** the value a call returns gets the name [h] *)
Definition call_reservation (s : system) (h : Z) (m : M InitiatorSessionReservation) : system * outcome Error unit :=
  match reservations s !! h with
  | Some _ => (s, Ok tt)
  | None =>
      match m (store s) with
      | (w, Ok x) => (with_reservations (with_store s w) (<[h := x]> (reservations s)), Ok tt)
      | (w, o) => (with_store s w, forget o)
      end
  end.
Definition call_prepared (s : system) (h : Z) (m : M UpsertResponderSessionReturn) : system * outcome Error unit :=
  match prepareds s !! h with
  | Some _ => (s, Ok tt)
  | None =>
      match m (store s) with
      | (w, Ok u) => (with_prepareds (with_store s w) (<[h := u]> (prepareds s)), Ok tt)
      | (w, o) => (with_store s w, forget o)
      end
  end.
(** a call by reference on [h] *)
Definition on_reservation (s : system) (h : Z) (f : InitiatorSessionReservation -> world -> (world * InitiatorSessionReservation) * outcome Error unit)
    : system * outcome Error unit :=
  match reservations s !! h with
  | Some x => let '((w, y), o) := f x (store s) in (with_reservations (with_store s w) (<[h := y]> (reservations s)), o)
  | None => (s, Ok tt)
  end.
Definition on_prepared (s : system) (h : Z) (f : UpsertResponderSessionReturn -> M UpsertResponderSessionReturn) : system * outcome Error unit :=
  match prepareds s !! h with
  | Some u =>
      match f u (store s) with
      | (w, Ok u') => (with_prepareds (with_store s w) (<[h := u']> (prepareds s)), Ok tt)
      | (w, o) => (with_store s w, forget o)
      end
  | None => (s, Ok tt)
  end.
(** a call that consumes [h] *)
Definition consume (s : system) (h : Z) (f : InitiatorSessionReservation -> M unit) : system * outcome Error unit :=
  match reservations s !! h with
  | Some x => call (with_reservations s (delete h (reservations s))) (f x (store s))
  | None => (s, Ok tt)
  end.

(** the plan of a connection for a transition it finds committed *)
Definition recover (i : Identity) (now : Z) : M UpsertResponderSessionReturn :=
  found ← reconcile_active_responder_transition i now;
  v ← require found NoProof;
  mret (for_recovery (v_session v) (v_action v) (v_generation v) (v_root_key v) (v_initial_epoch v) (v_transition_id v)
    (match v_action v with PS.Create => None | _ => Some (v_transition_revision v) end) (session_key i)).

Definition exec_initiator (s : system) (o : op) : system * outcome Error unit :=
  let w := store s in
  match o with
  | OPrepare h key q now => call_reservation s h (prepare_initiator_action_with_transition_id key q now)
  | OBind h tid => on_reservation s h (fun x w => match bind_transition_id x tid with Ok y => ((w, y), Ok tt) | o => ((w, x), forget o) end)
  | OCommit h now => on_reservation s h (fun x w => let '(wy, o) := commit x now w in (wy, forget o))
  | OCommitReceipt h i previous now => on_reservation s h (fun x w => let '(wy, o) := commit_with_receipt_replacing x i previous now w in (wy, forget o))
  | OCancel h => on_reservation s h (fun x w => match cancel x w with (w, Ok y) => ((w, y), Ok tt) | (w, o) => ((w, x), forget o) end)
  | ODrop h => consume s h drop_reservation
  | OSuspend h metadata lifetime => consume s h (fun x => suspend_with_session_metadata x metadata lifetime)
  | OResume h i => call_reservation s h (resume_initiator_reservation i)
  | OCancelExact i => call s (cancel_initiator_reservation_exact i w)
  | OApply key q now => call s (apply_initiator_action key q now w)
  | OReceipt i p => if bool_decide (is_Some (heap w !! p)) then call s (record_initiator_receipt i p w) else (s, Ok tt)
  | OAckReceipt key tid => changed s (acknowledge_initiator_receipt key tid w).1
  | OAckReceiptExact i => changed s (acknowledge_initiator_receipt_exact i w).1
  | _ => (s, Ok tt)
  end.
Definition exec_responder (s : system) (o : op) : system * outcome Error unit :=
  let w := store s in
  match o with
  | OPrepareResponder h key sa ra pk tid root uuid now => call_prepared s h (prepare_responder_session key sa ra pk tid root uuid now)
  | OPrepareProof h key ack sa ra pk tid root uuid now =>
      call_prepared s h (prepare_responder_session_with_recovery_proof key ack sa ra pk tid root uuid now)
  | OReconcile h i now => call_prepared s h (recover i now)
  | OAuthenticate h => on_prepared s h authenticate_recovery
  | OCommitPrepared h key now => on_prepared s h (fun u => commit_prepared_responder_transition key u now)
  | OCancelPrepared h => on_prepared s h (fun u => _ ← cancel_prepared u; mret u)
  | ODropPrepared h =>
      match prepareds s !! h with
      | Some u => changed (with_prepareds s (delete h (prepareds s))) (drop_prepared u w)
      | None => (s, Ok tt)
      end
  | OConsume i now => changed s (consume_responder_recovery i now w).1
  | OAckProof key tid now => changed s (acknowledge_responder_recovery key tid now w).1
  | OAbandon key now => changed s (abandon_unacknowledged_responder_recovery key now w)
  | _ => (s, Ok tt)
  end.
(** another store of the process reserves or drops a permit *)
Definition other_counts (s : system) (o : op) : system :=
  let w := store s in
  match o with
  | OOtherInDoubt true =>
      let '(n, got) := try_reserve_global (IN_DOUBT_RESERVATION_COUNT w) MAX_IN_DOUBT_RESERVATIONS in
      mk_system (set_counts w n (RESPONDER_RECOVERY_RECORD_COUNT w) (INITIATOR_RECEIPT_RECORD_COUNT w)) (reservations s) (prepareds s)
        (if got : bool then other_d s + 1 else other_d s) (other_r s) (other_c s)
  | OOtherInDoubt false =>
      if 0 <? other_d s then mk_system (release_in_doubt w) (reservations s) (prepareds s) (other_d s - 1) (other_r s) (other_c s) else s
  | OOtherRecovery true =>
      let '(n, got) := try_reserve_global (RESPONDER_RECOVERY_RECORD_COUNT w) MAX_RESPONDER_RECOVERY_RECORDS in
      mk_system (set_counts w (IN_DOUBT_RESERVATION_COUNT w) n (INITIATOR_RECEIPT_RECORD_COUNT w)) (reservations s) (prepareds s)
        (other_d s) (if got : bool then other_r s + 1 else other_r s) (other_c s)
  | OOtherRecovery false =>
      if 0 <? other_r s then mk_system (release_recovery w) (reservations s) (prepareds s) (other_d s) (other_r s - 1) (other_c s) else s
  | OOtherReceipt true =>
      let '(n, got) := try_reserve_global (INITIATOR_RECEIPT_RECORD_COUNT w) MAX_INITIATOR_RECEIPT_RECORDS in
      mk_system (set_counts w (IN_DOUBT_RESERVATION_COUNT w) (RESPONDER_RECOVERY_RECORD_COUNT w) n) (reservations s) (prepareds s)
        (other_d s) (other_r s) (if got : bool then other_c s + 1 else other_c s)
  | OOtherReceipt false =>
      if 0 <? other_c s then mk_system (release_receipt w) (reservations s) (prepareds s) (other_d s) (other_r s) (other_c s - 1) else s
  | _ => s
  end.
Definition exec (s : system) (o : op) : system * outcome Error unit :=
  let w := store s in
  match o with
  | OClear key k => call s (clear_peer_records_if_static_key_matches key k w)
  | OGet key now => call s (get key now w)
  | OTouch key p now => changed s (touch_if_same key p now w)
  | ORemove key => changed s (remove key w)
  | ORemoveIfSame key p => changed s (remove_if_same key p w)
  | OInsert key p now => if bool_decide (is_Some (heap w !! p)) then changed s (insert_session key p now w) else (s, Ok tt)
  | OEvict outside now => changed s (evict_unused_sessions outside now w)
  | OSession p f => match heap w !! p with Some x => changed s (set_heap w (<[p := f x]> (heap w))) | None => (s, Ok tt) end
  | OOtherInDoubt _ | OOtherRecovery _ | OOtherReceipt _ => (other_counts s o, Ok tt)
  | OPrepare _ _ _ _ | OBind _ _ | OCommit _ _ | OCommitReceipt _ _ _ _ | OCancel _ | ODrop _ | OSuspend _ _ _ | OResume _ _
  | OCancelExact _ | OApply _ _ _ | OReceipt _ _ | OAckReceipt _ _ | OAckReceiptExact _ => exec_initiator s o
  | _ => exec_responder s o
  end.
Definition run (s : system) (os : list op) : system := fold_left (fun s o => (exec s o).1) os s.

(** ** The invariant of a run *)
Definition total {A} (f : A -> Z) (m : gmap Z A) : Z := map_fold (fun _ x n => f x + n) 0 m.
Lemma permits_insert {A} (f : A -> Z) m h x : m !! h = None -> total f (<[h := x]> m) = f x + total f m.
Proof. intros E; unfold total; rewrite map_fold_insert_L; [done| |done]. intros; lia. Qed.
Lemma permits_delete {A} (f : A -> Z) m h x : m !! h = Some x -> total f m = f x + total f (delete h m).
Proof. intros E. rewrite <- (insert_delete_id m h x E) at 1. apply permits_insert, lookup_delete_eq. Qed.
Lemma permits_replace {A} (f : A -> Z) m h x y : m !! h = Some x -> total f (<[h := y]> m) = total f m - f x + f y.
Proof. intros E. rewrite <- insert_delete_eq, permits_insert by apply lookup_delete_eq. rewrite (permits_delete f m h x E). lia. Qed.
Lemma permits_nonneg {A} (f : A -> Z) m : (forall x, 0 <= f x) -> 0 <= total f m.
Proof. intros K; unfold total. apply (map_fold_weak_ind (fun n _ => 0 <= n)); [done|]. intros i x m' n _ Hn; specialize (K x); lia. Qed.
Lemma permits_lookup {A} (f : A -> Z) m h x : (forall x, 0 <= f x) -> m !! h = Some x -> f x <= total f m.
Proof. intros K E; rewrite (permits_delete f m h x E). pose proof (permits_nonneg f (delete h m) K); lia. Qed.
Lemma qz_nonneg x : 0 <= qz x.
Proof. unfold qz; case_match; lia. Qed.
Lemma pz_nonneg u : 0 <= pz u.
Proof. unfold pz; case_match; lia. Qed.

(** the permits outside the records of this store *)
Definition out_d (s : system) : Z := other_d s + total qz (reservations s).
Definition out_r (s : system) : Z := other_r s + total pz (prepareds s).

Record system_ok (s : system) : Prop := {
  so_good : good (out_d s) (out_r s) (other_c s) (store s);
  so_reservations : map_Forall (fun _ x => reservation_ok (store s) x) (reservations s);
  so_prepareds : map_Forall (fun _ u => prepared_ok (store s) u) (prepareds s);
  so_others : 0 <= other_d s /\ 0 <= other_r s /\ 0 <= other_c s;
}.

(** a step: the invariant again, and no panic *)
Definition step_ok (res : system * outcome Error unit) : Prop := system_ok res.1 /\ res.2 <> Panic.

Section Steps.
Context (s : system) (S : system_ok s).

Lemma system_intro w rs ps : grows (store s) w -> good (other_d s + total qz rs) (other_r s + total pz ps) (other_c s) w ->
  (forall h x, rs !! h = Some x -> reservations s !! h = Some x \/ reservation_ok w x) ->
  (forall h u, ps !! h = Some u -> prepareds s !! h = Some u \/ prepared_ok w u) ->
  system_ok (mk_system w rs ps (other_d s) (other_r s) (other_c s)).
Proof.
  destruct S as [G R P O]; intros Hg G' Kr Kp; split; [done| | |done]; simpl.
  - intros h x E; destruct (Kr h x E) as [E'|]; [|done]. eapply reservation_ok_grows; [done|by eapply R].
  - intros h x E; destruct (Kp h x E) as [E'|]; [|done]. eapply prepared_ok_grows; [done|by eapply P].
Qed.

Lemma ok_changed w : good (out_d s) (out_r s) (other_c s) w -> grows (store s) w -> step_ok (changed s w).
Proof. intros; split; [|done]. apply system_intro; auto. Qed.
Lemma ok_same : step_ok (s, Ok tt).
Proof. by split. Qed.

Lemma ok_call {X} (res : world * outcome Error X) (Q : X -> world -> Prop) : runs (out_d s) (out_r s) (other_c s) (store s) res Q ->
  (forall x w, Q x w -> good (out_d s) (out_r s) (other_c s) w) -> step_ok (call s res).
Proof. intros [Hg K] F. destruct res as [w [x|e|]]; simpl in *; [| |done]; (split; [apply (ok_changed w); eauto|done]). Qed.

Lemma ok_call_reservation h m : runs (out_d s) (out_r s) (other_c s) (store s) (m (store s))
    (fun x w => good (out_d s + 1) (out_r s) (other_c s) w /\ reservation_ok w x /\ qz x = 1) -> step_ok (call_reservation s h m).
Proof.
  unfold call_reservation; intros [Hg K]. destruct (reservations s !! h) eqn:Eh; [apply ok_same|].
  destruct (m (store s)) as [w [x|e|]]; simpl in *; [|split; [by apply ok_changed|done]|done].
  destruct K as (G' & R' & Eq). split; [|done]. apply system_intro; auto.
  - rewrite permits_insert, Eq by done. by replace (other_d s + (1 + total qz (reservations s))) with (out_d s + 1) by (unfold out_d; lia).
  - intros h' y [[<- <-]|[? ?]]%lookup_insert_Some; auto.
Qed.

Lemma ok_call_prepared h m : runs (out_d s) (out_r s) (other_c s) (store s) (m (store s))
    (fun u w => good (out_d s) (out_r s) (other_c s) w /\ prepared_ok w u /\ pz u = 0) -> step_ok (call_prepared s h m).
Proof.
  unfold call_prepared; intros [Hg K]. destruct (prepareds s !! h) eqn:Eh; [apply ok_same|].
  destruct (m (store s)) as [w [x|e|]]; simpl in *; [|split; [by apply ok_changed|done]|done].
  destruct K as (G' & R' & Eq). split; [|done]. apply system_intro; auto.
  - by rewrite permits_insert, Eq by done.
  - intros h' y [[<- <-]|[? ?]]%lookup_insert_Some; auto.
Qed.

Lemma qz_bound h x : reservations s !! h = Some x -> qz x <= out_d s.
Proof. intros E; pose proof (permits_lookup qz _ _ _ qz_nonneg E); destruct S as [_ _ _ O]; unfold out_d; lia. Qed.
Lemma pz_bound h u : prepareds s !! h = Some u -> pz u <= out_r s.
Proof. intros E; pose proof (permits_lookup pz _ _ _ pz_nonneg E); destruct S as [_ _ _ O]; unfold out_r; lia. Qed.

Lemma ok_on_reservation h f : (forall x, reservations s !! h = Some x -> reservation_ok (store s) x -> qz x <= out_d s ->
    let '((w, y), o) := f x (store s) in
    grows (store s) w /\ o <> Panic /\ good (out_d s - qz x + qz y) (out_r s) (other_c s) w /\ reservation_ok w y) ->
  step_ok (on_reservation s h f).
Proof.
  unfold on_reservation; intros K. destruct (reservations s !! h) as [x|] eqn:Eh; [|apply ok_same].
  specialize (K x eq_refl (so_reservations _ S _ _ Eh) (qz_bound _ _ Eh)). destruct (f x (store s)) as [[w y] o].
  destruct K as (Hg & No & G' & R'). split; [|done]. apply system_intro; auto.
  - rewrite (permits_replace qz _ _ _ _ Eh). unfold out_d in G'. by rewrite Z.add_assoc, Z.add_sub_assoc.
  - intros h' z [[<- <-]|[? ?]]%lookup_insert_Some; auto.
Qed.

Lemma ok_on_prepared h f : (forall u, prepareds s !! h = Some u -> prepared_ok (store s) u -> pz u <= out_r s ->
    runs (out_d s) (out_r s) (other_c s) (store s) (f u (store s))
      (fun u' w => good (out_d s) (out_r s - pz u + pz u') (other_c s) w /\ prepared_ok w u')) -> step_ok (on_prepared s h f).
Proof.
  unfold on_prepared; intros K. destruct (prepareds s !! h) as [u|] eqn:Eh; [|apply ok_same].
  destruct (K u eq_refl (so_prepareds _ S _ _ Eh) (pz_bound _ _ Eh)) as [Hg K'].
  destruct (f u (store s)) as [w [x|e|]]; simpl in *; [|split; [by apply ok_changed|done]|done].
  destruct K' as (G' & P'). split; [|done]. apply system_intro; auto.
  - rewrite (permits_replace pz _ _ _ _ Eh). unfold out_r in G'. by rewrite Z.add_assoc, Z.add_sub_assoc.
  - intros h' z [[<- <-]|[? ?]]%lookup_insert_Some; auto.
Qed.

Lemma ok_consume h f : (forall x, reservation_ok (store s) x -> qz x <= out_d s ->
    runs (out_d s - qz x) (out_r s) (other_c s) (store s) (f x (store s)) (fun _ w => good (out_d s - qz x) (out_r s) (other_c s) w)) ->
  step_ok (consume s h f).
Proof.
  unfold consume; intros K. destruct (reservations s !! h) as [x|] eqn:Eh; [|apply ok_same].
  destruct (K x (so_reservations _ S _ _ Eh) (qz_bound _ _ Eh)) as [Hg K'].
  assert (K2 : forall w, grows (store s) w -> good (out_d s - qz x) (out_r s) (other_c s) w ->
    system_ok (with_store (with_reservations s (delete h (reservations s))) w)).
  { intros w Hw G'. apply (system_intro w (delete h (reservations s)) (prepareds s)); auto; [|intros ? ? [? ?]%lookup_delete_Some; auto].
    unfold out_d in G'. rewrite (permits_delete qz _ _ _ Eh) in G'.
    by replace (other_d s + (qz x + total qz (delete h (reservations s))) - qz x) with (other_d s + total qz (delete h (reservations s))) in G' by lia. }
  destruct (f x (store s)) as [w [y|e|]]; simpl in *; [by split; [apply K2|]..|done].
Qed.
End Steps.

Lemma runs_apply d r c w k q now : good d r c w -> runs d r c w (apply_initiator_action k q now w) (fun _ w' => good d r c w').
Proof.
  intros G; unfold apply_initiator_action. destruct (runs_prepare d r c w k q now G) as [Hg K].
  destruct (prepare_initiator_action_with_transition_id k q now w) as [w1 [x|e|]]; simpl in *; [|by split|done].
  destruct K as (G1 & R1 & Eq). destruct (g_d_max _ _ _ _ G) as [Hd _].
  pose proof (commit_by_ok (d + 1) r c w1 x (commit_initiator_reservation_locked x now) G1 R1 ltac:(lia) (runs_commit_locked _ _ _ _ _ _ G1 R1)) as Kc.
  unfold commit. destruct (commit_by _ x w1) as [[w2 y] o]. destruct Kc as (Hg2 & No & G2 & R2). rewrite Eq in G2.
  replace (d + 1 - 1 + qz y) with (d + qz y) in G2 by lia.
  destruct (runs_drop d r c (d + qz y) r c w2 y G2 R2 ltac:(lia)) as [Hg3 K3]. replace (d + qz y - qz y) with d in K3 by lia.
  destruct (drop_reservation y w2) as [w3 o3]; simpl in *. destruct o3; [|split..]; simpl; try done.
  all: assert (grows w w3) by (transitivity w1; [done|by transitivity w2]); try split; destruct o; try done.
Qed.

Lemma runs_receipt d r c w i p : good d r c w -> has w p -> runs d r c w (record_initiator_receipt i p w) (fun _ w' => good d r c w').
Proof.
  intros G Hp; unfold record_initiator_receipt. rstep. rstep. case_match; [case_match; rstep; done|].
  apply runs_reserve_receipt; [done|]. intros w1 G1. destruct (g_c_max _ _ _ _ G). rstep. replace c with (c + 1 - 1) by lia.
  apply good_insert_receipt; [done|lia|done|done].
Qed.

Lemma runs_recover d r c w i now : good d r c w ->
  runs d r c w (recover i now w) (fun u w' => good d r c w' /\ prepared_ok w' u /\ pz u = 0).
Proof.
  intros G; unfold recover, reconcile_active_responder_transition.
  destruct (good_expire d r c INITIATOR_RECOVERY_LIFETIME now w G) as [G1 Hg1]. fold (expire_responder_recoveries now w) in *.
  set (w1 := expire_responder_recoveries now w) in *.
  apply (runs_bind _ _ _ _ _ _ _ (fun o w' => good d r c w' /\ forall v, o = Some v -> has w' (v_session v))).
  - apply runs_modify; [done|]. fold w1. rstep. rstep. split; [done|]. intros v.
    set (active := sessions w1 !! session_key i ≫= _). assert (Ka : active = Some v -> has w1 (v_session v)).
    { subst active. intros (e & Ee & (s & Es & K)%bind_Some)%bind_Some. case_match; [done|].
      apply fmap_Some in K as (c0 & _ & ->). simpl. eauto with store. }
    destruct (responder_recoveries w1 !! session_key i) as [p|] eqn:Er; [|done]. case_match; [|done].
    intros [= <-]. by apply (wf_recoveries _ (g_wf _ _ _ _ G1) _ _ Er).
  - intros o w2 _ [G2 K2]. rstep. rstep. split_and!; [done| |done]. split; simpl; [by apply K2|done|by intros [? ?]].
Qed.

Lemma good_evict d r c w out now : good d r c w -> good d r c (evict_unused_sessions out now w) /\ grows w (evict_unused_sessions out now w).
Proof.
  intros G. unfold evict_unused_sessions, evict_unused_sessions_idle.
  destruct (good_expire d r c INITIATOR_RECOVERY_LIFETIME now w G) as [G1 Hg1]. split; [|done].
  apply good_sessions; [done|]. intros k e [? ?]%map_lookup_filter_Some; auto.
Qed.

Section Exec.
Context (s : system) (S : system_ok s).
Let G := so_good s S.

Lemma good_remove_recovery_if d r c w k f : good d r c w -> good d r c (remove_recovery_if k f w).1 /\ grows w (remove_recovery_if k f w).1.
Proof. intros G'; unfold remove_recovery_if; repeat case_match; simpl; auto using good_remove_recovery, grows_remove_recovery; by split. Qed.
Lemma good_remove_receipt_if d r c w k f : good d r c w -> good d r c (remove_receipt_if k f w).1 /\ grows w (remove_receipt_if k f w).1.
Proof. intros G'; unfold remove_receipt_if; repeat case_match; simpl; auto using good_remove_receipt, grows_remove_receipt; by split. Qed.
Lemma ok_expired_then f now : (forall w, good (out_d s) (out_r s) (other_c s) w -> good (out_d s) (out_r s) (other_c s) (f w) /\ grows w (f w)) ->
  step_ok (changed s (f (expire_responder_recoveries now (store s)))).
Proof.
  intros K. destruct (good_expire _ _ _ INITIATOR_RECOVERY_LIFETIME now _ G) as [G1 Hg1]. destruct (K _ G1) as [G2 Hg2].
  apply ok_changed; [done|done|by etransitivity].
Qed.

Lemma exec_initiator_ok o : step_ok (exec_initiator s o).
Proof.
  destruct o; simpl; try by apply ok_same.
  - by apply ok_call_reservation, runs_prepare.
  - apply ok_on_reservation; [done|]. intros x E R L. unfold bind_transition_id.
    assert (K : forall w y, w = store s -> reservation_ok w y -> qz y = qz x -> grows (store s) w /\
      good (out_d s - qz x + qz y) (out_r s) (other_c s) w /\ reservation_ok w y).
    { intros w y -> Ry ->. split_and!; [reflexivity|by replace (out_d s - qz x + qz x) with (out_d s) by lia|done]. }
    destruct (bool_decide (tid = zero_id)); [|destruct (negb _ && negb _)]; [destruct (K _ x eq_refl R eq_refl) as (? & ? & ?); by split_and!..|].
    destruct (K (store s) (with_transition_id x tid) eq_refl) as (? & ? & ?); [destruct R; by split|done|by split_and!].
  - apply ok_on_reservation; [done|]. intros x E R L. unfold commit.
    pose proof (commit_by_ok _ _ _ _ x _ G R L (runs_commit_locked _ _ _ _ x now G R)) as K.
    destruct (commit_by _ _ _) as [[w y] o]. destruct K as (? & ? & ? & ?). split_and!; try done. by destruct o.
  - apply ok_on_reservation; [done|]. intros x E R L. unfold commit_with_receipt_replacing.
    pose proof (commit_by_ok _ _ _ _ x _ G R L (runs_commit_receipt _ _ _ _ x i previous now G R)) as K.
    destruct (commit_by _ _ _) as [[w y] o]. destruct K as (? & ? & ? & ?). split_and!; try done. by destruct o.
  - apply ok_on_reservation; [done|]. intros x E R L.
    destruct (runs_cancel (out_d s) (out_r s) (other_c s) _ _ _ _ x G R L) as [Hg K].
    destruct (cancel x (store s)) as [w [y|e|]]; simpl in *; [|split_and!; [done|done|by replace (out_d s - qz x + qz x) with (out_d s) by lia|by eapply reservation_ok_grows]|done].
    destruct K as (? & ? & _); by split_and!.
  - apply ok_consume; [done|]. intros x R L. by apply runs_drop.
  - apply ok_consume; [done|]. intros x R L. by apply runs_suspend.
  - by apply ok_call_reservation, runs_resume.
  - eapply ok_call; [done|by apply runs_cancel_exact|done].
  - eapply ok_call; [done|by apply runs_apply|done].
  - case_bool_decide; [|by apply ok_same]. eapply ok_call; [done|by apply runs_receipt|done].
  - destruct (good_remove_receipt_if _ _ _ _ key (fun c => bool_decide (PS.i_transition_id (c_identity c) = tid)) G). by apply ok_changed.
  - destruct (good_remove_receipt_if _ _ _ _ (session_key i) (fun c => matches_authenticated_fields (c_identity c) i) G). by apply ok_changed.
Qed.

Lemma exec_responder_ok o : step_ok (exec_responder s o).
Proof.
  destruct o; simpl; try by apply ok_same.
  - apply ok_call_prepared; [done|]. unfold prepare_responder_session. by apply runs_prepare_responder.
  - by apply ok_call_prepared, runs_prepare_with_proof.
  - by apply ok_call_prepared, runs_recover.
  - apply ok_on_prepared; [done|]. intros u E P L. by apply runs_authenticate.
  - apply ok_on_prepared; [done|]. intros u E P L. by apply runs_commit_prepared.
  - apply ok_on_prepared; [done|]. intros u E P L.
    apply (runs_bind _ _ _ _ _ _ _ (fun _ w' => good (out_d s) (out_r s) (other_c s) w')).
    + unfold cancel_prepared, cancel_prepared_session, cancel_sync. repeat case_match; rstep; eauto using good_remove_pending, good_put, po_session.
    + intros ? w' Hg G'. rstep. split; [by replace (out_r s - pz u + pz u) with (out_r s) by lia|by eapply prepared_ok_grows].
  - destruct (prepareds s !! h) as [u|] eqn:Eh; [|by apply ok_same].
    destruct (drop_prepared_ok _ _ _ _ u G (so_prepareds _ S _ _ Eh) (pz_bound s S _ _ Eh)) as [G' Hg].
    split; [|done]. apply (system_intro s S _ (reservations s) (delete h (prepareds s))); auto; [|intros ? ? [? ?]%lookup_delete_Some; auto].
    unfold out_r in G'. rewrite (permits_delete pz _ _ _ Eh) in G'.
    by replace (other_r s + (pz u + total pz (delete h (prepareds s))) - pz u) with (other_r s + total pz (delete h (prepareds s))) in G' by lia.
  - apply (ok_expired_then (fun w => (remove_recovery_if (session_key i) _ w).1)). intros w ?; by apply good_remove_recovery_if.
  - apply (ok_expired_then (fun w => (remove_recovery_if key _ w).1)). intros w ?; by apply good_remove_recovery_if.
  - apply (ok_expired_then (remove_recovery key)). intros w ?; split; [by apply good_remove_recovery|apply grows_remove_recovery].
Qed.

Lemma set_counts_id w : set_counts w (IN_DOUBT_RESERVATION_COUNT w) (RESPONDER_RECOVERY_RECORD_COUNT w) (INITIATOR_RECEIPT_RECORD_COUNT w) = w.
Proof. by destruct w. Qed.
Lemma other_counts_ok o : system_ok (other_counts s o).
Proof.
  assert (K : forall d r c w, good (d + total qz (reservations s)) (r + total pz (prepareds s)) c w -> heap w = heap (store s) -> 0 <= d -> 0 <= r -> 0 <= c ->
    system_ok (mk_system w (reservations s) (prepareds s) d r c)).
  { intros d r c w Gw Eh ? ? ?. pose proof (so_reservations _ S) as R. pose proof (so_prepareds _ S) as P. pose proof (grows_same _ _ Eh). split; simpl; [done| | |done].
    - intros h x E; eapply reservation_ok_grows; [done|by eapply R].
    - intros h x E; eapply prepared_ok_grows; [done|by eapply P]. }
  pose proof G as [W Ed Er Ec Bd Br Bc]. destruct (so_others _ S) as (Od & Or & Oc). unfold out_d, out_r in *.
  destruct o as [ | | | | | | | | | | | | | | | | | | | | | | | | | | | | | | |[]|[]|[]]; simpl; try exact S.
  1,3,5: unfold try_reserve_global; destruct (_ <=? _) eqn:E; [rewrite set_counts_id; apply K; done|apply Z.leb_gt in E];
    (apply K; try done; try lia); split; simpl; try lia; keep_wf idtac.
  all: case_match eqn:E; [|exact S]; apply Z.ltb_lt in E; apply K; try done; try lia.
  - replace (other_d s - 1 + total qz (reservations s)) with (out_d s - 1) by (unfold out_d; lia).
    apply good_release_in_doubt; [done|]. pose proof (permits_nonneg qz (reservations s) qz_nonneg). unfold out_d; lia.
  - replace (other_r s - 1 + total pz (prepareds s)) with (out_r s - 1) by (unfold out_r; lia).
    apply good_release_recovery; [done|]. pose proof (permits_nonneg pz (prepareds s) pz_nonneg). unfold out_r; lia.
  - apply good_release_receipt; [done|lia].
Qed.

Lemma exec_ok o : step_ok (exec s o).
Proof.
  destruct o; try exact (exec_initiator_ok _); try exact (exec_responder_ok _); try (split; [apply (other_counts_ok (_ _))|done]); simpl.
  - eapply ok_call; [done|by apply runs_clear|done].
  - apply (ok_call s S _ (fun _ w => good (out_d s) (out_r s) (other_c s) w)); [|done]. apply runs_right. eapply runs_get; [done|]. intros; by rstep.
  - unfold touch_if_same. destruct (sessions (store s) !! key) as [e|] eqn:E; [destruct (_ =? _) eqn:Ep|]; apply ok_changed; try done; try by intros ?.
    apply good_publish; [done|]. apply Z.eqb_eq in Ep as <-. by eapply wf_sessions; [eapply g_wf|].
  - apply ok_changed; [done| |by intros ?]. apply good_sessions; [done|]. intros ? ? [? ?]%lookup_delete_Some; auto.
  - apply ok_changed; [done|by apply good_remove_session|apply grows_remove_session].
  - case_bool_decide; [|by apply ok_same]. apply ok_changed; [done| |by intros ?]. apply good_publish; [by apply good_delete_pending|done].
  - destruct (good_evict _ _ _ _ outside now G). by apply ok_changed.
  - case_match eqn:E; [|by apply ok_same]. apply ok_changed; [done|by apply good_put|apply grows_put].
Qed.
End Exec.

Lemma run_ok os : forall s, system_ok s -> system_ok (run s os).
Proof. induction os as [|o os IH]; intros s S; [done|]. apply IH. by apply exec_ok. Qed.

Definition fresh_system (d r c : Z) : system := mk_system (new_store d r c) ∅ ∅ d r c.
Lemma fresh_ok d r c : 0 <= d <= 256 -> 0 <= r <= 256 -> 0 <= c <= 256 -> system_ok (fresh_system d r c).
Proof.
  intros; split; [|done|done|simpl; lia]. unfold out_d, out_r, total; simpl; rewrite !map_fold_empty.
  split; simpl; unfold zsize, MAX_IN_DOUBT_RESERVATIONS, MAX_RESPONDER_RECOVERY_RECORDS, MAX_INITIATOR_RECEIPT_RECORDS; rewrite ?map_size_empty; try lia.
  split; simpl; intros k x E; by rewrite lookup_empty in E.
Qed.

(** C7: In every sequence of calls on the session store, interleaved with the use of the sessions and with
    the other stores of the process, no call panics, each quota counter equals the permits that exist (those of
    other stores, of live reservations or proof backups, and one per record of this store) and never exceeds its
    limit, a reservation holds a permit exactly while it is pending, every record stands under the key of
    its identity on a session that exists, and a record in doubt is a suspended reservation with that identity. *)
Theorem store_quotas_exact d r c os : 0 <= d <= 256 -> 0 <= r <= 256 -> 0 <= c <= 256 ->
  let s := run (fresh_system d r c) os in let w := store s in
  (forall o, (exec s o).2 <> Panic) /\
  IN_DOUBT_RESERVATION_COUNT w = other_d s + total qz (reservations s) + zsize (in_doubt_initiators w) /\
  RESPONDER_RECOVERY_RECORD_COUNT w = other_r s + total pz (prepareds s) + zsize (responder_recoveries w) /\
  INITIATOR_RECEIPT_RECORD_COUNT w = other_c s + zsize (initiator_receipts w) /\
  0 <= IN_DOUBT_RESERVATION_COUNT w <= 256 /\ 0 <= RESPONDER_RECOVERY_RECORD_COUNT w <= 256 /\ 0 <= INITIATOR_RECEIPT_RECORD_COUNT w <= 256 /\
  map_Forall (fun _ x => reservation_ok w x) (reservations s) /\ wf w.
Proof.
  intros ? ? ? s w; subst w. assert (S : system_ok s) by (by apply run_ok, fresh_ok). clearbody s. pose proof S as [G R P (? & ? & ?)].
  pose proof G as [W Ed Er Ec Bd Br Bc]. unfold out_d, out_r, MAX_IN_DOUBT_RESERVATIONS, MAX_RESPONDER_RECOVERY_RECORDS, MAX_INITIATOR_RECEIPT_RECORDS in *.
  pose proof (zsize_nonneg (in_doubt_initiators (store s))). pose proof (zsize_nonneg (responder_recoveries (store s))). pose proof (zsize_nonneg (initiator_receipts (store s))).
  split_and!; try lia; try done. intros o; by apply exec_ok.
Qed.
End Invariant.

(** ** A handshake that commits, and one that stays in doubt *)
Definition demo_sha : Sha256 := {| sha256 bytes := bytes |}.
Definition demo_key : SessionKey := ([110; 101; 116], 7).
Definition demo_root (b : Z) : list Z := replicate 32 b.
Definition demo_request (a : PS.PeerSessionAction) (epoch b : Z) : request :=
  mk_request a 1 (Some (demo_root b)) epoch [1] [1] (Some (replicate 32 9)) (replicate 16 b) 40.
Definition demo_identity (a : PS.PeerSessionAction) (epoch b metadata : Z) : Identity :=
  identity_new demo_key metadata a 1 epoch (replicate 16 b) (@PS.digest_root_key demo_sha (demo_root b)).
(** a CREATE with its receipt, then a SYNC whose confirmation is ambiguous *)
Definition demo_run : list op :=
  [OPrepare 0 demo_key (demo_request PS.Create 0 5) 10; OCommitReceipt 0 (demo_identity PS.Create 0 5 40) None 11; ODrop 0;
   OPrepare 1 demo_key (demo_request PS.Sync 3 6) 20; OSuspend 1 77 1000].

Lemma store_quotas_exact_witness : let s := @run demo_sha (fresh_system 3 0 0) demo_run in
  (IN_DOUBT_RESERVATION_COUNT (store s) = 4 /\ INITIATOR_RECEIPT_RECORD_COUNT (store s) = 1) /\
  IN_DOUBT_RESERVATION_COUNT (store s) = other_d s + total qz (reservations s) + zsize (in_doubt_initiators (store s)).
Proof.
  intros s. split; [by vm_compute|].
  exact (proj1 (proj2 (@store_quotas_exact demo_sha 3 0 0 demo_run ltac:(lia) ltac:(lia) ltac:(lia)))).
Defined.
End SessionStoreProps.
