(* ===== verification/SessionHandshake.v ===== *)
(** * Handshakes and the published sessions

    What the handshakes of the session store may do to the sessions that carry traffic
    (src/lowertier/src/peers/peer_session.rs): an attempt that is not confirmed leaves every published
    session and its traffic keys in place, except that a step that looks at the proofs of responders
    invalidates the sessions whose proof has waited for its whole lifetime; a confirmed one publishes its session and its receipt in one
    step, and a transition in doubt ends only by its exact identity or the removal of its peer. *)
From stdpp Require Import base list gmap numbers.
From Stdlib Require Import ZArith Lia.
From S2P Require Import Prelude NetAddr Cipher SecureDatagram PeerSession SessionStore StoreFrames SessionStoreProps.

Local Open Scope Z_scope.

Module SessionHandshake.
Import SessionStore StoreFrames SessionStoreProps.

(** ** What traffic sees of a store *)
(** keys, epochs, counters, replay windows and validity of a session *)
Definition traffic (s : PS.t) : SecureDatagram.SecureDatagram.t * bool := (PS.datagram s, PS.invalidated s).
Definition entries_ok (w : world) : Prop := forall k e, sessions w !! k = Some e -> has w (e_session e).

(** every session keeps its traffic state and every key its published session *)
Record unmoved (w w' : world) : Prop := {
  um_entries : entries_ok w';
  um_traffic : forall p s, heap w !! p = Some s -> exists s', heap w' !! p = Some s' /\ traffic s' = traffic s;
  um_peek : forall k, peek w' k = peek w k;
}.
Definition keeps (w w' : world) : Prop := entries_ok w -> unmoved w w'.
#[export] Instance keeps_preorder : PreOrder keeps.
Proof.
  split; [intros w E; split; eauto|]. intros a b c Hab Hbc E. destruct (Hab E) as [E1 T1 P1]. destruct (Hbc E1) as [E2 T2 P2]. split; [done| |].
  - intros p s Hs. destruct (T1 p s Hs) as (s1 & H1 & <-). destruct (T2 p s1 H1) as (s2 & H2 & <-). eauto.
  - intros k; by rewrite P2.
Qed.

Lemma valid_traffic s s' : traffic s' = traffic s -> PS.is_valid s' = PS.is_valid s.
Proof. unfold traffic, PS.is_valid; by intros [= -> ->]. Qed.

(** the entries and the heap decide what is published *)
Lemma keeps_same w w' : heap w' = heap w -> sessions w' = sessions w -> keeps w w'.
Proof.
  intros Eh Es E; split.
  - intros k e; rewrite Es; intros Ee; unfold has; rewrite Eh; by eapply E.
  - intros p s Hp; exists s; by rewrite Eh.
  - intros k; unfold peek, session_valid; by rewrite Es, Eh.
Qed.
Lemma keeps_heap w h : (forall p s, heap w !! p = Some s -> exists s', h !! p = Some s' /\ traffic s' = traffic s) -> keeps w (set_heap w h).
Proof.
  intros K E; split; [|done|].
  - intros k e Ee; destruct (E k e Ee) as [s Hs]. destruct (K _ _ Hs) as (s' & ? & _). by exists s'.
  - intros k; unfold peek, session_valid; simpl. destruct (sessions w !! k) as [e|] eqn:Ee; [|done].
    destruct (E k e Ee) as [s Hs]. destruct (K _ _ Hs) as (s' & Hs' & Et). by rewrite Hs, Hs', (valid_traffic s s').
Qed.
Lemma keeps_put w p s s' : heap w !! p = Some s -> traffic s' = traffic s -> keeps w (set_heap w (<[p := s']> (heap w))).
Proof.
  intros Hp Et; apply keeps_heap. intros q x Hx. destruct (decide (p = q)) as [<-|Hn]; [|exists x; by rewrite lookup_insert_ne].
  exists s'. rewrite lookup_insert_eq; split; congruence.
Qed.
Lemma keeps_alloc w p s : heap w !! p = None -> keeps w (set_heap w (<[p := s]> (heap w))).
Proof. intros Hp; apply keeps_heap. intros q x Hx. exists x. rewrite lookup_insert_ne; [done|congruence]. Qed.

Lemma keeps_get k now : steps keeps (get k now).
Proof.
  intros w E; unfold get. destruct (sessions w !! k) as [e|] eqn:Ee; [|by apply keeps_same]. destruct (session_valid w (e_session e)) eqn:Ev; simpl.
  - split; [|eauto|].
    + intros k' e' K; simpl in K; apply lookup_insert_Some in K as [[<- <-]|[? ?]]; [by apply (E k e)|by apply (E k' e')].
    + intros k'; unfold peek; simpl. destruct (decide (k = k')) as [<-|]; [by rewrite lookup_insert_eq, Ee|by rewrite lookup_insert_ne].
  - unfold remove_session_if; rewrite Ee, Z.eqb_refl. split; [|eauto|].
    + intros k' e' K; simpl in K; apply lookup_delete_Some in K as [? ?]; by apply (E k' e').
    + intros k'; unfold peek; simpl. destruct (decide (k = k')) as [<-|]; [|by rewrite lookup_delete_ne].
      rewrite lookup_delete_eq, Ee. by change (session_valid (set_sessions w _)) with (session_valid w); rewrite Ev.
Qed.

(** ** Session methods that leave traffic alone *)
Lemma traffic_prepare s r : traffic (PS.prepare_sync_transition_at s r).1 = traffic s.
Proof. unfold PS.prepare_sync_transition_at; by repeat case_match. Qed.
Lemma traffic_cancel s a b : traffic (PS.cancel_reserved_sync s a b) = traffic s.
Proof. unfold PS.cancel_reserved_sync; by repeat case_match. Qed.
Lemma traffic_reserve_key s k : traffic (PS.reserve_peer_static_pubkey s k).1 = traffic s.
Proof. unfold PS.reserve_peer_static_pubkey; by repeat case_match. Qed.
Lemma traffic_commit_key s : traffic (PS.commit_reserved_peer_static_pubkey s).1 = traffic s.
Proof. unfold PS.commit_reserved_peer_static_pubkey; by repeat case_match. Qed.
Lemma traffic_cancel_key s : traffic (PS.cancel_reserved_peer_static_pubkey s) = traffic s.
Proof. done. Qed.
#[export] Hint Resolve traffic_prepare traffic_cancel traffic_reserve_key traffic_commit_key traffic_cancel_key : store.

(** an update of the world in a handshake attempt *)
Ltac keep := first
  [ eapply keeps_put; [eassumption|by eauto with store] | by apply keeps_alloc
  | apply keeps_same; unfold release_quota, remove_pending_if; repeat case_match; done ].
Ltac framed := frame keep.

(** ** Attempts *)
Lemma keeps_cancel_initiator x : steps keeps (cancel_initiator_reservation x).
Proof. unfold cancel_initiator_reservation; framed. Qed.
Lemma keeps_cancel x : steps keeps (cancel x).
Proof. unfold cancel; destruct (state x); try (apply steps_ret; apply _). apply steps_bind; [apply _|apply keeps_cancel_initiator|intros _; framed]. Qed.
Lemma keeps_drop x : steps keeps (drop_reservation x).
Proof.
  unfold drop_reservation. apply steps_bind; [apply _| |intros y; framed].
  destruct (state x); try apply keeps_cancel. apply steps_ret; apply _.
Qed.

Section Attempts.
Context {H : Sha256}.

Lemma keeps_fail_dropping {X} x e : steps keeps (fail_dropping (X := X) x e).
Proof. unfold fail_dropping. apply steps_bind; [apply _|apply keeps_drop|intros _; framed]. Qed.
Lemma keeps_suspend x l i : steps keeps (suspend_with_identity x l i).
Proof.
  unfold suspend_with_identity. do 3 (case_match; [apply keeps_fail_dropping|]). destruct (state x); try apply keeps_fail_dropping.
  case_match; [apply steps_bind; [apply _|apply keeps_cancel|intros _; framed]|].
  intros w; unfold retain_in_doubt_reservation. destruct (in_doubt_initiators w !! session_key i); [apply keeps_fail_dropping|by apply keeps_same].
Qed.
Lemma keeps_take_in_doubt i : steps keeps (take_in_doubt i).
Proof. unfold take_in_doubt; framed. Qed.
Lemma keeps_resume i : steps keeps (resume_initiator_reservation i).
Proof.
  unfold resume_initiator_reservation. apply steps_bind; [apply _|apply keeps_take_in_doubt|intros d].
  case_match; [apply steps_bind; [apply _|apply keeps_cancel|intros _; framed]|framed].
Qed.
Lemma keeps_cancel_exact i : steps keeps (cancel_initiator_reservation_exact i).
Proof.
  intros w; unfold cancel_initiator_reservation_exact. pose proof (keeps_take_in_doubt i w) as K.
  destruct (take_in_doubt i w) as [w1 [d|e|]]; simpl in *; [|done..]. transitivity w1; [done|].
  apply steps_bind; [apply _|apply keeps_cancel|intros _; framed].
Qed.
End Attempts.

Lemma keeps_check_same p q : steps keeps (check_same p q).
Proof. unfold check_same; framed. Qed.
Lemma keeps_claim k p : steps keeps (claim_creation k p).
Proof. unfold claim_creation; framed. Qed.
Lemma keeps_prepare_new k q now : steps keeps (prepare_new_initiator_session_locked k q now).
Proof. unfold prepare_new_initiator_session_locked. frame ltac:(keep). all: try apply keeps_check_same; try apply keeps_claim; framed. Qed.
Lemma keeps_prepare_join k q : steps keeps (prepare_join k q).
Proof. unfold prepare_join. framed. all: try apply keeps_check_same; framed. Qed.
Lemma keeps_reserve_pubkey p k rev e : steps keeps (reserve_pubkey_or_cancel p k rev e).
Proof.
  intros w; unfold reserve_pubkey_or_cancel.
  assert (K : steps keeps (on_session p (fun s => PS.reserve_peer_static_pubkey s k))) by framed. specialize (K w).
  destruct (on_session _ _ w) as [w1 [[]|er|]]; simpl in *; [done| |done]. transitivity w1; [done|].
  unfold cancel_sync. assert (K2 : steps keeps (_ ← update p (fun s => PS.cancel_reserved_sync s rev e); fail er : M unit)) by framed. apply K2.
Qed.
Lemma keeps_prepare_sync k q : steps keeps (prepare_sync k q).
Proof. unfold prepare_sync, cancel_sync. framed. all: try apply keeps_check_same; try apply keeps_reserve_pubkey; framed. Qed.
Lemma keeps_reserve_in_doubt : steps keeps reserve_in_doubt.
Proof. unfold reserve_in_doubt. framed. Qed.
Lemma keeps_prepare k q now : steps keeps (prepare_initiator_action_with_transition_id k q now).
Proof.
  unfold prepare_initiator_action_with_transition_id. framed.
  all: first [apply keeps_reserve_in_doubt|apply keeps_prepare_new|apply keeps_prepare_sync|apply keeps_prepare_join|framed].
Qed.
Lemma keeps_prepare_responder k sa ra pk ex tid root uuid now : steps keeps (prepare_responder_session_locked k sa ra pk ex tid root uuid now).
Proof.
  unfold prepare_responder_session_locked, PS.prepare_sync_transition. framed.
  all: first [apply keeps_get|apply keeps_reserve_pubkey|apply keeps_claim|framed].
Qed.
Lemma keeps_authenticate u : steps keeps (authenticate_recovery u).
Proof. unfold authenticate_recovery, authenticate_prepared_responder_transition. framed. Qed.
Lemma keeps_cancel_prepared u : steps keeps (cancel_prepared u).
Proof. unfold cancel_prepared, cancel_prepared_session, cancel_sync. framed. Qed.
Lemma keeps_drop_prepared u w : keeps w (drop_prepared u w).
Proof. apply keeps_same; unfold drop_prepared, restore_responder_recovery; by repeat case_match. Qed.

(** ** Commits that fail *)
(** a call that changes nothing when it fails, and one that cannot fail *)
Definition atomic {X} (m : M X) : Prop := forall w e, (m w).2 = Err e -> (m w).1 = w.
Definition infallible {X} (m : M X) : Prop := forall w e, (m w).2 <> Err e.

Lemma infallible_bind {X Y} (m : M X) (f : X -> M Y) : infallible m -> (forall x, infallible (f x)) -> infallible (m ≫= f).
Proof. intros K F w e; specialize (K w); unfold mbind, M_bind. destruct (m w) as [w' [x|e'|]]; simpl in *; [apply F|by destruct (K e')|done]. Qed.
Lemma infallible_modify g : infallible (modify g).
Proof. done. Qed.
Lemma infallible_update p g : infallible (update p g).
Proof. intros w e; unfold update, deref, mbind, M_bind; by destruct (heap w !! p). Qed.
Lemma infallible_when_some {X} (o : option X) f : (forall x, infallible (f x)) -> infallible (when_some o f).
Proof. intros K; destruct o; [apply K|done]. Qed.
Lemma atomic_infallible {X} (m : M X) : infallible m -> atomic m.
Proof. intros K w e E; by destruct (K w e). Qed.
(** what comes before does not change the store *)
Lemma atomic_after {X Y} (m : M X) (f : X -> M Y) : steps eq m -> (forall x, atomic (f x)) -> atomic (m ≫= f).
Proof.
  intros K F w e; specialize (K w); unfold mbind, M_bind. destruct (m w) as [w' [x|e'|]]; simpl in *; subst w'; [apply F|done|done].
Qed.
(** what comes after cannot fail *)
Lemma atomic_before {X Y} (m : M X) (f : X -> M Y) : atomic m -> (forall x, infallible (f x)) -> atomic (m ≫= f).
Proof.
  intros K F w e; specialize (K w); unfold mbind, M_bind. destruct (m w) as [w' [x|e'|]]; simpl in *; [|by eauto|done].
  intros E; by destruct (F x w' e).
Qed.
Lemma atomic_on_session {X} p (g : PS.t -> PS.R X) : (forall s e, (g s).2 = Err e -> (g s).1 = s) -> atomic (on_session p g).
Proof.
  intros K w e; unfold on_session, deref, put, lift, mbind, M_bind, modify. destruct (heap w !! p) as [s|] eqn:Ep; [|done]. simpl.
  destruct (g s).2 as [x|e'|] eqn:Eg; intros E; simplify_eq/=. rewrite (K s e' Eg), insert_id by done. by destruct w.
Qed.

Ltac after_reads := repeat
  lazymatch goal with |- atomic (_ ≫= _) => apply atomic_after; [solve [frame ltac:(reflexivity)]|intros ?] end.
Ltac total_call := repeat first
  [apply infallible_update|apply infallible_modify|apply infallible_when_some; intros ?|apply infallible_bind; [|intros ?]].

Lemma atomic_commit_locked x now : atomic (commit_initiator_reservation_locked x now).
Proof.
  unfold commit_initiator_reservation_locked, commit_new_initiator_session_locked.
  case_match; [|case_match]; after_reads.
  - apply atomic_infallible. total_call.
  - apply atomic_before; [|intros ?; total_call].
    apply atomic_on_session. intros s e; unfold PS.check_or_set_peer_static_pubkey; by repeat case_match.
  - apply atomic_on_session. intros s e; unfold PS.commit_reserved_sync; by repeat case_match.
  - done.
Qed.

(** a call whose failure leaves the published sessions alone *)
Definition keeps_on_error {X} (m : M X) : Prop := forall w e, (m w).2 = Err e -> keeps w (m w).1.
Lemma koe_bind {X Y} (m : M X) (f : X -> M Y) : steps keeps m -> (forall x, keeps_on_error (f x)) -> keeps_on_error (m ≫= f).
Proof.
  intros K F w e; specialize (K w); unfold mbind, M_bind. destruct (m w) as [w' [x|e'|]]; simpl in *; [|done..].
  intros E; transitivity w'; [done|by eapply F].
Qed.
Lemma koe_before {X Y} (m : M X) (f : X -> M Y) : keeps_on_error m -> (forall x, infallible (f x)) -> keeps_on_error (m ≫= f).
Proof.
  intros K F w e; specialize (K w); unfold mbind, M_bind. destruct (m w) as [w' [x|e'|]]; simpl in *; [|by eauto|done].
  intros E; by destruct (F x w' e).
Qed.
Lemma koe_atomic {X} (m : M X) : atomic m -> keeps_on_error m.
Proof. intros K w e E; rewrite (K w e E). reflexivity. Qed.
Lemma koe_steps {X} (m : M X) : steps keeps m -> keeps_on_error m.
Proof. intros K w e _; apply K. Qed.
Lemma koe_on_error {X} (m : M X) g : keeps_on_error m -> (forall w, keeps w (g w)) -> keeps_on_error (on_error m g).
Proof.
  intros K G w e; unfold on_error; specialize (K w). destruct (m w) as [w' [x|e'|]]; simpl in *; [done| |done].
  intros _; transitivity w'; [by eapply K|apply G].
Qed.

Ltac koe_binds := repeat
  lazymatch goal with
  | |- keeps_on_error (modify (publish _ _ _) ≫= _) => fail
  | |- keeps_on_error (_ ≫= _) => apply koe_bind; [solve [framed]|intros ?]
  end.
Lemma koe_commit_action k u now : keeps_on_error (commit_responder_action k u now).
Proof.
  unfold commit_responder_action. apply koe_bind; [framed|intros w0]. destruct (u_action u).
  - koe_binds. apply koe_steps. apply steps_update; [apply _|].
    intros w s Es; eapply keeps_put; [done|]. done.
  - apply koe_atomic. after_reads. apply atomic_on_session. intros s e; unfold PS.commit_reserved_sync; by repeat case_match.
  - koe_binds.
    apply koe_atomic, atomic_infallible. total_call.
Qed.

Lemma bind_guard {Y} b e (f : unit -> M Y) w : (guard b e ≫= f) w = if b then f tt w else (w, Err e).
Proof. by destruct b. Qed.
Lemma bind_read {Y} (f : world -> M Y) w : (read ≫= f) w = f w w.
Proof. done. Qed.

Section Confirmations.
Context {H : Sha256}.

Lemma infallible_record k u now : infallible (record_responder_recovery_locked k u now).
Proof.
  intros w e; unfold record_responder_recovery_locked, deref, token, transition_token, mbind, M_bind.
  destruct (heap w !! u_session u) eqn:E; [|done]. destruct (u_action u), (u_transition_revision u); simpl; by rewrite ?E.
Qed.
Lemma koe_commit_prepared k u now : keeps_on_error (commit_prepared_responder_transition k u now).
Proof.
  unfold commit_prepared_responder_transition, reserve_responder_recovery_quota_locked, reserve_recovery.
  do 3 (apply koe_bind; [solve [framed]|intros ?]).
  apply koe_before; [apply koe_on_error; [apply koe_commit_action|intros w; by apply keeps_same; case_match]|].
  intros ?. apply infallible_bind; [apply infallible_record|done].
Qed.

(** ** A commit and its receipt *)
Lemma receipt_release d r c w : good d r c w -> let n := INITIATOR_RECEIPT_RECORD_COUNT w in drop_permit (n + 1) = n.
Proof.
  intros G n. destruct (g_c_max _ _ _ _ G) as [? Hm]. pose proof (g_c _ _ _ _ G). pose proof (zsize_nonneg (initiator_receipts w)).
  unfold MAX_INITIATOR_RECEIPT_RECORDS in *. unfold drop_permit, wrap. rewrite Z.mod_small; subst n; lia.
Qed.
Lemma fresh_receipt_err d r c w x i now e : good d r c w -> (commit_fresh_receipt x i now w).2 = Err e -> (commit_fresh_receipt x i now w).1 = w.
Proof.
  intros G; unfold commit_fresh_receipt, reserve_receipt, mbind, M_bind, read, modify, try_reserve_global.
  destruct (_ <=? _); simpl; [intros _; apply set_counts_id|]. unfold on_error.
  pose proof (atomic_commit_locked x now) as K.
  set (w1 := set_counts w _ _ _). specialize (K w1). destruct (commit_initiator_reservation_locked x now w1) as [w2 [[]|e'|]]; simpl in *; [done| |done].
  intros _. rewrite (K e' eq_refl). unfold release_receipt; subst w1; simpl. rewrite (receipt_release d r c w G). by destruct w.
Qed.
Lemma receipt_err d r c w x i prev now e : good d r c w ->
  (commit_initiator_reservation_with_receipt x i prev now w).2 = Err e -> (commit_initiator_reservation_with_receipt x i prev now w).1 = w.
Proof.
  intros G; unfold commit_initiator_reservation_with_receipt. rewrite bind_guard; case_match; [|done].
  rewrite bind_guard; case_match; [|done]. rewrite bind_read.
  destruct prev as [prev|], (initiator_receipts w !! session_key i) as [old|] eqn:Eo; simpl; try done; try by eapply fresh_receipt_err.
  case_match; [|done]. unfold mbind, M_bind, modify, on_error. pose proof (atomic_commit_locked x now) as K.
  set (w1 := set_receipts w _). specialize (K w1). destruct (commit_initiator_reservation_locked x now w1) as [w2 [[]|e'|]]; simpl in *; [done| |done].
  intros _. rewrite (K e' eq_refl). destruct (wf_receipts _ (g_wf _ _ _ _ G) _ _ Eo) as [_ ->]. subst w1; simpl. unfold set_receipts; simpl.
  rewrite insert_delete_id by done. by destruct w.
Qed.
End Confirmations.

(** ** Runs without a confirmation *)
Section Unconfirmed.
Context {H : Sha256}.

Definition is_err {X} (o : outcome Error X) : bool := match o with Err _ => true | _ => false end.
(** everything a handshake does before its confirmation, a confirmation that is refused, and the
    acknowledgements that follow one *)
Definition unconfirmed (s : system) (o : op) : bool :=
  match o with
  | OPrepare _ _ _ _ | OBind _ _ | OCancel _ | ODrop _ | OSuspend _ _ _ | OResume _ _ | OCancelExact _ | OReceipt _ _ | OAckReceipt _ _
  | OAckReceiptExact _ | OPrepareResponder _ _ _ _ _ _ _ _ _ | OAuthenticate _ | OCancelPrepared _ | ODropPrepared _ | OGet _ _
  | OPrepareProof _ _ _ _ _ _ _ _ _ _ | OReconcile _ _ _ | OConsume _ _ | OAckProof _ _ _ | OAbandon _ _
  | OOtherInDoubt _ | OOtherRecovery _ | OOtherReceipt _ => true
  | OCommit _ _ | OCommitReceipt _ _ _ _ | OApply _ _ _ | OCommitPrepared _ _ _ => is_err (exec s o).2
  | OClear key k => negb (records_match (store s) key k)
  | OTouch _ _ _ | ORemove _ | ORemoveIfSame _ _ | OInsert _ _ _ | OEvict _ _ | OSession _ _ => false
  end.
Fixpoint unconfirmed_run (s : system) (os : list op) : bool :=
  match os with [] => true | o :: os => unconfirmed s o && unconfirmed_run (exec s o).1 os end.

(** ** Proofs past their lifetime *)
(** the sessions whose proof has waited for the lifetime of a proof at [now] *)
Definition lapsed_at (w : world) (now : Z) : list ptr :=
  omap (fun '(key, r) => if INITIATOR_RECOVERY_LIFETIME <=? saturating_sub now (p_created_at r) then Some (v_session (p_recovery r)) else None) (map_to_list (responder_recoveries w)).
(** the steps that look at proofs, with their time; a name that is taken makes no call *)
Definition looks_at_proofs (s : system) (o : op) : option Z :=
  match o with
  | OPrepareProof h _ _ _ _ _ _ _ _ now | OReconcile h _ now => if bool_decide (prepareds s !! h = None) then Some now else None
  | OConsume _ now | OAckProof _ _ now | OAbandon _ now => Some now
  | _ => None
  end.
(** the sessions whose proof lapses in a run *)
Definition lapses (s : system) (o : op) : list ptr := match looks_at_proofs s o with Some now => lapsed_at (store s) now | None => [] end.
Fixpoint lapsed (s : system) (os : list op) : list ptr := match os with [] => [] | o :: os => lapses s o ++ lapsed (exec s o).1 os end.

(** every session keeps its traffic state and every key its published session, but those in [X] are invalidated *)
Definition after_lapse (X : list ptr) (p : ptr) (x : PS.t) : PS.t := if bool_decide (p ∈ X) then PS.invalidate x else x.
Record unmoved_but (X : list ptr) (w w' : world) : Prop := {
  ub_entries : entries_ok w';
  ub_kept : forall p x, heap w !! p = Some x -> exists x', heap w' !! p = Some x' /\ traffic x' = traffic (after_lapse X p x);
  ub_peek : forall k p, peek w' k = Some p <-> peek w k = Some p /\ p ∉ X;
}.
Definition keeps_but (X : list ptr) (w w' : world) : Prop := entries_ok w -> unmoved_but X w w'.
Lemma traffic_invalidate x x' : traffic x' = traffic x -> traffic (PS.invalidate x') = traffic (PS.invalidate x).
Proof. unfold traffic. simpl. by intros [= -> _]. Qed.
Lemma invalidate_twice x : traffic (PS.invalidate (PS.invalidate x)) = traffic (PS.invalidate x).
Proof. done. Qed.
Lemma invalidate_invalid x : PS.is_valid (PS.invalidate x) = false.
Proof. done. Qed.
Lemma after_lapse_app X Y p x : traffic (after_lapse Y p (after_lapse X p x)) = traffic (after_lapse (X ++ Y) p x).
Proof. unfold after_lapse. repeat case_bool_decide; try done; set_solver. Qed.
Lemma traffic_lapse X p x x' : traffic x' = traffic x -> traffic (after_lapse X p x') = traffic (after_lapse X p x).
Proof. unfold after_lapse. case_bool_decide; [apply traffic_invalidate|done]. Qed.
Lemma keeps_but_none w w' : keeps w w' -> keeps_but [] w w'.
Proof.
  intros K E. destruct (K E) as [E' T P]. split; [done| |].
  - intros p x Hx. destruct (T p x Hx) as (x' & ? & ?). by exists x'.
  - intros k p. rewrite P. set_solver.
Qed.
Lemma keeps_but_trans X Y w w1 w2 : keeps_but X w w1 -> keeps_but Y w1 w2 -> keeps_but (X ++ Y) w w2.
Proof.
  intros K1 K2 E. destruct (K1 E) as [E1 T1 P1]. destruct (K2 E1) as [E2 T2 P2]. split; [done| |].
  - intros p x Hx. destruct (T1 p x Hx) as (x1 & H1 & A1). destruct (T2 p x1 H1) as (x2 & H2 & A2). exists x2. split; [done|].
    rewrite A2, <- after_lapse_app. by apply traffic_lapse.
  - intros k p. rewrite P2, P1. set_solver.
Qed.
Lemma keeps_but_after X w w1 w2 : keeps_but X w w1 -> keeps w1 w2 -> keeps_but X w w2.
Proof. intros K1 K2%keeps_but_none. rewrite <- (app_nil_r X). by eapply keeps_but_trans. Qed.

(** an invalidated session is no longer published *)
Lemma keeps_but_invalidate p w : keeps_but [p] w (invalidate_at p w).
Proof.
  intros E. assert (forall q, heap (invalidate_at p w) !! q = (fun x => after_lapse [p] q x) <$> heap w !! q) as Hh.
  { intros q. unfold invalidate_at, after_lapse. simpl. destruct (decide (p = q)) as [<-|Hn]; [rewrite lookup_alter_eq|rewrite lookup_alter_ne by done];
      destruct (heap w !! _); simpl; try done; f_equal; case_bool_decide; set_solver. }
  split.
  - intros k e Ee. destruct (E k e Ee) as [x Hx]. unfold has. rewrite Hh, Hx. by eexists.
  - intros q x Hx. eexists. by rewrite Hh, Hx.
  - intros k q. unfold peek, session_valid. change (sessions (invalidate_at p w)) with (sessions w). destruct (sessions w !! k) as [e|]; [|naive_solver]. rewrite Hh.
    destruct (heap w !! e_session e) as [x|]; simpl; [|naive_solver]. unfold after_lapse. case_bool_decide as Hb; [rewrite invalidate_invalid|]; case_match; set_solver.
Qed.
Lemma fold_expire_n l : forall w n m, (fold_left expire_one l (w, n)).1 = (fold_left expire_one l (w, m)).1.
Proof. induction l as [|k l IH]; intros w n m; [done|]. simpl. case_match; apply IH. Qed.
Lemma expire_list_keeps l : NoDup l -> forall w, (forall k, k ∈ l -> is_Some (responder_recoveries w !! k)) ->
  keeps_but (omap (fun k => (fun r => v_session (p_recovery r)) <$> responder_recoveries w !! k) l) w (fold_left expire_one l (w, 0)).1.
Proof.
  induction 1 as [|k l Hk Hl IH]; intros w Hin; [apply keeps_but_none; reflexivity|]. destruct (Hin k ltac:(left)) as [r Er]. cbn [fold_left omap list_omap expire_one]. rewrite Er. cbn [fmap option_fmap option_map].
  rewrite (fold_expire_n _ _ _ 0). set (w1 := invalidate_at _ _).
  assert (forall k', k' ∈ l -> responder_recoveries w1 !! k' = responder_recoveries w !! k') as Hsame.
  { intros k' Hk'. unfold w1, invalidate_at, remove_recovery. rewrite Er. simpl. apply lookup_delete_ne. by intros ->. }
  change (?a :: ?b) with ([a] ++ b). eapply keeps_but_trans.
  - change [?a] with ([] ++ [a]). eapply keeps_but_trans; [apply keeps_but_none, (keeps_same w (remove_recovery k w)); unfold remove_recovery; by rewrite Er|apply keeps_but_invalidate].
  - replace (omap _ l) with (omap (fun k => (fun r => v_session (p_recovery r)) <$> responder_recoveries w1 !! k) l); [apply IH; intros k' Hk'; rewrite Hsame by done; apply Hin; by right|].
    clear -Hsame. induction l as [|k' l IH]; [done|]. cbn [omap list_omap]. rewrite (Hsame k' ltac:(left)), IH; [done|]. intros; apply Hsame; by right.
Qed.
Lemma expired_spec w now : NoDup (expired INITIATOR_RECOVERY_LIFETIME now w) /\ (forall k, k ∈ expired INITIATOR_RECOVERY_LIFETIME now w -> is_Some (responder_recoveries w !! k)) /\
  omap (fun k => (fun r => v_session (p_recovery r)) <$> responder_recoveries w !! k) (expired INITIATOR_RECOVERY_LIFETIME now w) = lapsed_at w now.
Proof.
  unfold expired, lapsed_at. assert (forall x, x ∈ map_to_list (responder_recoveries w) -> responder_recoveries w !! x.1 = Some x.2) as Hin by (intros [k r]; apply elem_of_map_to_list).
  pose proof (NoDup_fst_map_to_list (responder_recoveries w)) as Hnd. induction (map_to_list (responder_recoveries w)) as [|[k r] l IH]; [split_and!; [constructor|set_solver|done]|].
  cbn [fmap list_fmap fst] in Hnd. inversion Hnd as [|? ? Hk Hnd']; subst. clear Hnd. rename Hnd' into Hnd. destruct IH as (I1 & I2 & I3); [intros; apply Hin; by right|done|]. cbn [omap list_omap]. pose proof (Hin (k, r) ltac:(left)) as Er. simpl in Er.
  destruct (_ <=? _); [|done]. split_and!.
  - constructor; [|done]. intros ([k' r'] & Hx & Ex)%list_elem_of_omap. case_match; [|done]. injection Ex as ->. apply Hk, list_elem_of_fmap. by exists (k, r').
  - intros k' [->|?]%elem_of_cons; [by exists r|by apply I2].
  - cbn [omap list_omap]. rewrite Er. cbn. by rewrite I3.
Qed.
Lemma expire_lapsed w now : keeps_but (lapsed_at w now) w (expire_responder_recoveries now w).
Proof. destruct (expired_spec w now) as (H1 & H2 & <-). by apply expire_list_keeps. Qed.

Lemma keeps_commit_by x m w : keeps_on_error m -> is_err (commit_by m x w).2 = true -> keeps w (commit_by m x w).1.1.
Proof.
  intros K; unfold commit_by. destruct (state x); try (intros _; reflexivity). specialize (K w).
  destruct (m w) as [w1 [[]|e|]]; simpl in *; [done| |done]. pose proof (keeps_cancel_initiator x w1) as K2.
  destruct (cancel_initiator_reservation x w1) as [w2 o]; simpl in *. intros _. transitivity w1; [by eapply K|]. transitivity w2; [done|].
  apply keeps_same; unfold release_quota; by case_match.
Qed.
Lemma koe_receipt d r c w x i prev now e : good d r c w -> (commit_initiator_reservation_with_receipt x i prev now w).2 = Err e ->
  keeps w (commit_initiator_reservation_with_receipt x i prev now w).1.
Proof. intros G E. rewrite (receipt_err _ _ _ _ _ _ _ _ _ G E). reflexivity. Qed.

Lemma keeps_apply k q now : keeps_on_error (apply_initiator_action k q now).
Proof.
  intros w e; unfold apply_initiator_action. pose proof (keeps_prepare k q now w) as K1.
  destruct (prepare_initiator_action_with_transition_id k q now w) as [w1 [x|e1|]]; simpl in *; [|done..].
  pose proof (keeps_commit_by x _ w1 (koe_atomic _ (atomic_commit_locked x now))) as K2. unfold commit.
  destruct (commit_by _ x w1) as [[w2 y] o]; simpl in *. pose proof (keeps_drop y w2) as K3.
  destruct (drop_reservation y w2) as [w3 o3]; simpl in *. intros E.
  assert (o = Err e) as -> by (by destruct o3). destruct o3; simpl; (transitivity w1; [done|]; transitivity w2; [by apply K2|done]).
Qed.

Lemma keeps_clear w key k : records_match w key k = false -> (clear_peer_records_if_static_key_matches key k w).1 = w.
Proof. intros E; unfold clear_peer_records_if_static_key_matches. rewrite bind_read, E. by case_match. Qed.

Lemma keeps_call_reservation s h m : steps keeps m -> keeps (store s) (store (call_reservation s h m).1).
Proof.
  intros K; unfold call_reservation. destruct (reservations s !! h); [reflexivity|]. specialize (K (store s)).
  by destruct (m (store s)) as [w []].
Qed.
Lemma keeps_call_prepared s h m : keeps (store s) (m (store s)).1 -> keeps (store s) (store (call_prepared s h m).1).
Proof. intros K; unfold call_prepared. destruct (prepareds s !! h); [reflexivity|]. by destruct (m (store s)) as [w []]. Qed.
Lemma keeps_on_prepared s h f : (forall u, keeps (store s) (f u (store s)).1) -> keeps (store s) (store (on_prepared s h f).1).
Proof. intros K; unfold on_prepared. destruct (prepareds s !! h) as [u|]; [|reflexivity]. specialize (K u). by destruct (f u (store s)) as [w []]. Qed.
Lemma keeps_consume s h f : (forall x, steps keeps (f x)) -> keeps (store s) (store (consume s h f).1).
Proof. intros K; unfold consume. destruct (reservations s !! h) as [x|]; [|reflexivity]. apply K. Qed.

Lemma keeps_release_quota x w : keeps w (release_quota x w).
Proof. apply keeps_same; unfold release_quota; by case_match. Qed.

Lemma keeps_remove_recovery_if k f w : keeps w (remove_recovery_if k f w).1.
Proof. apply keeps_same; unfold remove_recovery_if, remove_recovery; by repeat case_match. Qed.
Lemma keeps_remove_receipt_if k f w : keeps w (remove_receipt_if k f w).1.
Proof. apply keeps_same; unfold remove_receipt_if, remove_receipt; by repeat case_match. Qed.

Lemma bind_require_world {X Y} (m : M (option X)) e (f : X -> Y) w : ((o ← m; v ← require o e; mret (f v)) w).1 = (m w).1.
Proof. unfold mbind, M_bind; by destruct (m w) as [w' [[v|]| |]]. Qed.

Lemma keeps_exec_initiator s o : system_ok s -> unconfirmed s o = true -> keeps (store s) (store (exec_initiator s o).1).
Proof.
  intros S. pose proof (so_good _ S) as G.
  assert (Ec : forall h f, is_err (on_reservation s h (fun x w => let '(wy, o) := f x w in (wy, forget (X := ptr) o))).2 = true ->
    (forall x, reservations s !! h = Some x -> is_err (f x (store s)).2 = true -> keeps (store s) (f x (store s)).1.1) ->
    keeps (store s) (store (on_reservation s h (fun x w => let '(wy, o) := f x w in (wy, forget o))).1)).
  { intros h f E K; unfold on_reservation in *. destruct (reservations s !! h) as [x|] eqn:Eh; [|reflexivity]. specialize (K x eq_refl).
    destruct (f x (store s)) as [[w y] o']; simpl in *. apply K. by destruct o'. }
  destruct o; cbn [exec_initiator]; intros E; try reflexivity.
  - apply keeps_call_reservation, keeps_prepare.
  - unfold on_reservation. destruct (reservations s !! h) as [x|]; [|reflexivity]. destruct (bind_transition_id x tid); simpl; reflexivity.
  - apply Ec; [done|]. intros x Ex E'. apply keeps_commit_by; [apply koe_atomic, atomic_commit_locked|done].
  - apply Ec; [done|]. intros x Ex E'. unfold commit_with_receipt_replacing, commit_by in *. destruct (state x); try reflexivity.
    pose proof (fun e => koe_receipt _ _ _ _ x i previous now e G) as K.
    destruct (commit_initiator_reservation_with_receipt x i previous now (store s)) as [w1 [[]|e|]]; simpl in *; [done| |done].
    pose proof (keeps_cancel_initiator x w1) as K2. destruct (cancel_initiator_reservation x w1) as [w2 o']; simpl in *.
    transitivity w1; [by eapply K|]. transitivity w2; [done|]. apply keeps_release_quota.
  - unfold on_reservation. destruct (reservations s !! h) as [x|]; [|reflexivity]. pose proof (keeps_cancel x (store s)) as K.
    by destruct (cancel x (store s)) as [w []].
  - apply keeps_consume; intros; apply keeps_drop.
  - apply keeps_consume; intros; apply keeps_suspend.
  - apply keeps_call_reservation, keeps_resume.
  - apply keeps_cancel_exact.
  - simpl in E. assert (exists e, (apply_initiator_action key q now (store s)).2 = Err e) as [e Ee].
    { destruct (apply_initiator_action key q now (store s)) as [w []]; simpl in *; try done. by eexists. }
    by eapply keeps_apply.
  - case_bool_decide; [|reflexivity]. assert (K : steps keeps (record_initiator_receipt i p)).
    { unfold record_initiator_receipt, reserve_receipt. frame ltac:(first [keep|by apply keeps_same; simpl; [apply remove_receipt_heap|unfold remove_receipt; case_match]]). }
    apply K.
  - apply keeps_remove_receipt_if.
  - apply keeps_remove_receipt_if.
Qed.


Lemma keeps_but_call_prepared X s h m : (prepareds s !! h = None -> keeps_but X (store s) (m (store s)).1) ->
  keeps_but (if bool_decide (prepareds s !! h = None) then X else []) (store s) (store (call_prepared s h m).1).
Proof.
  intros K; unfold call_prepared. destruct (prepareds s !! h); [rewrite bool_decide_false by done; apply keeps_but_none; reflexivity|].
  rewrite bool_decide_true by done. specialize (K eq_refl). by destruct (m (store s)) as [w []].
Qed.
Lemma keeps_exec_responder s o : unconfirmed s o = true -> (exec_responder s o = exec s o) -> keeps_but (lapses s o) (store s) (store (exec_responder s o).1).
Proof.
  intros E Ex. destruct o; cbn [exec_responder] in *; unfold lapses; cbn [looks_at_proofs]; try (apply keeps_but_none; reflexivity).
  - apply keeps_but_none, keeps_call_prepared. unfold prepare_responder_session. apply keeps_prepare_responder.
  - replace (match _ with Some _ => _ | None => _ end) with (if bool_decide (prepareds s !! h = None) then lapsed_at (store s) now else []) by (by case_bool_decide).
    apply keeps_but_call_prepared. intros _. eapply keeps_but_after; [apply expire_lapsed|].
    unfold prepare_responder_session_with_recovery_proof, mbind at 1, M_bind at 1, modify; simpl.
    apply (steps_bind keeps read); [framed|]. intros w0. framed. apply keeps_prepare_responder.
  - replace (match _ with Some _ => _ | None => _ end) with (if bool_decide (prepareds s !! h = None) then lapsed_at (store s) now else []) by (by case_bool_decide).
    apply keeps_but_call_prepared. intros _. unfold recover. rewrite bind_require_world. apply expire_lapsed.
  - apply keeps_but_none, keeps_on_prepared; intros; apply keeps_authenticate.
  - apply keeps_but_none. cbn [unconfirmed] in E. rewrite <- Ex in E. unfold on_prepared in *. destruct (prepareds s !! h) as [u|]; [|reflexivity].
    pose proof (koe_commit_prepared key u now (store s)) as K.
    destruct (commit_prepared_responder_transition key u now (store s)) as [w []]; simpl in *; [done|by eapply K|done].
  - apply keeps_but_none, keeps_on_prepared; intros u. apply steps_bind; [apply _|apply keeps_cancel_prepared|intros; framed].
  - apply keeps_but_none. destruct (prepareds s !! h) as [u|]; [|reflexivity]. apply keeps_drop_prepared.
  - eapply keeps_but_after; [apply expire_lapsed|]. apply keeps_remove_recovery_if.
  - eapply keeps_but_after; [apply expire_lapsed|]. apply keeps_remove_recovery_if.
  - eapply keeps_but_after; [apply expire_lapsed|]. apply keeps_same; simpl; unfold abandon_unacknowledged_responder_recovery, remove_recovery; by case_match.
Qed.
Lemma keeps_exec s o : system_ok s -> unconfirmed s o = true -> keeps_but (lapses s o) (store s) (store (exec s o).1).
Proof.
  intros S E. destruct o; try exact (keeps_but_none _ _ (keeps_exec_initiator s _ S E)); try exact (keeps_exec_responder s _ E eq_refl); try discriminate E; apply keeps_but_none; simpl.
  - apply negb_true_iff in E. rewrite (keeps_clear _ _ _ E). reflexivity.
  - apply keeps_get.
  - apply keeps_same; destruct take; simpl; unfold try_reserve_global; by repeat case_match.
  - apply keeps_same; destruct take; simpl; unfold try_reserve_global; by repeat case_match.
  - apply keeps_same; destruct take; simpl; unfold try_reserve_global; by repeat case_match.
Qed.

Lemma keeps_run os : forall s, system_ok s -> unconfirmed_run s os = true -> keeps_but (lapsed s os) (store s) (store (run s os)).
Proof.
  induction os as [|o os IH]; intros s S; [intros _; apply keeps_but_none; reflexivity|]. cbn [unconfirmed_run lapsed]. intros [E E']%andb_true_iff.
  eapply keeps_but_trans; [by apply keeps_exec|]. apply IH; [by apply exec_ok|done].
Qed.

(** C8: In any reachable state of the store, any sequence of handshake steps without a confirmation (preparing,
    cancelling, dropping, suspending and resuming transitions, authenticating proofs, acknowledgements, lookups,
    commits that are refused, removal requests under a wrong static key) leaves every peer's published session the same
    session, with the same traffic keys, epochs, counters and replay windows and the same validity, with one
    exception: a step that looks at the proofs of responders invalidates, and so no longer publishes, exactly the
    sessions whose proof has waited unacknowledged for the lifetime of a proof ([lapsed]: two minutes). *)
Theorem failed_handshakes_keep_sessions d r c os0 os : 0 <= d <= 256 -> 0 <= r <= 256 -> 0 <= c <= 256 ->
  let s := run (fresh_system d r c) os0 in unconfirmed_run s os = true ->
  let s' := run s os in let gone := lapsed s os in
  (forall key p, peek (store s') key = Some p <-> peek (store s) key = Some p /\ p ∉ gone) /\
  (forall p x, heap (store s) !! p = Some x -> exists x', heap (store s') !! p = Some x' /\
     (p ∉ gone -> PS.datagram x' = PS.datagram x /\ PS.is_valid x' = PS.is_valid x) /\
     (p ∈ gone -> PS.datagram x' = SecureDatagram.SecureDatagram.invalidate (PS.datagram x) /\ PS.is_valid x' = false)).
Proof.
  intros ? ? ? s E s' gone. assert (S : system_ok s) by (by apply run_ok, fresh_ok).
  destruct (keeps_run os s S E) as [_ T P]; [intros k e; apply (wf_sessions _ (g_wf _ _ _ _ (so_good _ S)))|].
  split; [apply P|]. intros p x Hx. destruct (T p x Hx) as (x' & Hx' & Et). exists x'. split; [done|]. unfold after_lapse in Et. fold gone in Et.
  split; intros Hp; [rewrite bool_decide_false in Et by done|rewrite bool_decide_true in Et by done].
  - split; [by injection Et|by apply valid_traffic].
  - split; [by apply (f_equal fst) in Et|]. by rewrite (valid_traffic _ _ Et).
Qed.
End Unconfirmed.

(** ** Calls that succeed *)
Lemma bind_ok {X Y} (m : M X) (f : X -> M Y) w w' y : (m ≫= f) w = (w', Ok y) -> exists x w1, m w = (w1, Ok x) /\ f x w1 = (w', Ok y).
Proof. unfold mbind, M_bind. destruct (m w) as [w1 [x|e|]] eqn:E; [|done..]. eauto. Qed.
Lemma guard_ok b e w w' y : guard b e w = (w', Ok y) -> b = true /\ w' = w.
Proof. unfold guard; destruct b; [|done]. by intros [= -> _]. Qed.
Lemma require_ok {X} (o : option X) e w w' y : require o e w = (w', Ok y) -> o = Some y /\ w' = w.
Proof. unfold require; destruct o; [|done]. by intros [= -> ->]. Qed.
Lemma read_ok w w' y : read w = (w', Ok y) -> y = w /\ w' = w.
Proof. by intros [= -> ->]. Qed.
Lemma modify_ok g w w' y : modify g w = (w', Ok y) -> w' = g w.
Proof. by intros [= ->]. Qed.
Lemma deref_ok p w w' s : deref p w = (w', Ok s) -> heap w !! p = Some s /\ w' = w.
Proof. unfold deref. destruct (heap w !! p); [|done]. by intros [= -> ->]. Qed.
Lemma update_ok p g w w' y : update p g w = (w', Ok y) -> exists s, heap w !! p = Some s /\ w' = set_heap w (<[p := g s]> (heap w)).
Proof. unfold update, deref, put, modify, mbind, M_bind. destruct (heap w !! p) as [s|]; [|done]. intros [= <- _]; eauto. Qed.
Lemma on_session_ok {X} p (g : PS.t -> PS.R X) w w' x : on_session p g w = (w', Ok x) ->
  exists s, heap w !! p = Some s /\ (g s).2 = Ok x /\ w' = set_heap w (<[p := (g s).1]> (heap w)).
Proof.
  unfold on_session, deref, put, modify, lift, mbind, M_bind. destruct (heap w !! p) as [s|]; [|done]. simpl.
  destruct (g s).2 as [x'|e|] eqn:Eg; intros E; simplify_eq/=. eauto.
Qed.
Lemma on_error_ok {X} (m : M X) g w w' x : on_error m g w = (w', Ok x) -> m w = (w', Ok x).
Proof. unfold on_error. by destruct (m w) as [w1 []]. Qed.
Ltac inv_ok :=
  repeat lazymatch goal with
  | E : (_ ≫= _) _ = (_, Ok _) |- _ => apply bind_ok in E as (? & ? & ? & ?)
  | E : guard _ _ _ = (_, Ok _) |- _ => apply guard_ok in E as [? ->]
  | E : require _ _ _ = (_, Ok _) |- _ => apply require_ok in E as [? ->]
  | E : read _ = (_, Ok _) |- _ => apply read_ok in E as [-> ->]
  | E : modify _ _ = (_, Ok _) |- _ => apply modify_ok in E as ->
  | E : deref _ _ = (_, Ok _) |- _ => apply deref_ok in E as [? ->]
  | E : update _ _ _ = (_, Ok _) |- _ => apply update_ok in E as (? & ? & ->)
  | E : on_session _ _ _ = (_, Ok _) |- _ => apply on_session_ok in E as (? & ? & ? & ->)
  | E : on_error _ _ _ = (_, Ok _) |- _ => apply on_error_ok in E
  end.

(** the last committed transition of a session *)
Lemma last_push h t : head (rev (PS.push_history h t)) = Some t.
Proof.
  unfold PS.push_history. set (n := (length (h ++ [t]) - PS.MAX_COMMITTED_TRANSITIONS_PER_SESSION)%nat).
  assert (n <= length h)%nat by (subst n; rewrite length_app; simpl; unfold PS.MAX_COMMITTED_TRANSITIONS_PER_SESSION; lia).
  rewrite drop_app_le by done. by rewrite rev_app_distr.
Qed.
Definition last_is (s : PS.t) (x : InitiatorSessionReservation) (root : list Z) : Prop :=
  PS.last_committed_transition s = Some (PS.mk_committed (r_action x) (r_generation x) root (r_initial_epoch x) (r_transition_id x) (r_transition_revision x)).

(** The session stands under its key with the transition as its last one; a synchronisation has the
    reserved keys, and the session is valid unless it was already published and invalid (JOIN). *)
Record published (x : InitiatorSessionReservation) (w w' : world) : Prop := {
  pb_entry : exists e s root, sessions w' !! r_key x = Some e /\ e_session e = r_session x /\ heap w' !! r_session x = Some s /\ last_is s x root /\
    (r_action x <> PS.Join -> root = r_root_key x) /\
    (publishes_session x = true -> (forall e0, sessions w !! r_key x = Some e0 -> e_session e0 <> r_session x) -> PS.is_valid s = true) /\
    (publishes_session x = false -> r_action x = PS.Sync -> PS.is_valid s = true /\ PS.root_key s = r_root_key x /\ PS.session_generation s = r_generation x);
  pb_others : forall k, k <> r_key x -> sessions w' !! k = sessions w !! k;
  pb_claim : publishes_session x = true -> pending_creates w' !! r_key x = None;
}.

Lemma sync_commits s a root g e tid now s' : PS.commit_reserved_sync s a root g e tid now = (s', Ok tt) ->
  PS.is_valid s' = true /\ PS.root_key s' = root /\ PS.session_generation s' = g /\
  PS.last_committed_transition s' = Some (PS.mk_committed PS.Sync g root e tid a).
Proof.
  unfold PS.commit_reserved_sync. destruct (PS.is_valid s) eqn:Ev; simpl; [|done]. case_match; [done|]. intros [= <-].
  unfold PS.is_valid, PS.root_key, PS.session_generation, PS.last_committed_transition, PS.SD.is_valid in *; simpl.
  split_and!; [|unfold PS.SD.sync_root_key; by repeat case_match..|apply last_push].
  unfold PS.SD.sync_root_key; by repeat case_match.
Qed.

Lemma publish_new x now w w' : publishes_session x = true -> commit_new_initiator_session_locked x now w = (w', Ok tt) -> published x w w'.
Proof.
  intros Ep E. unfold commit_new_initiator_session_locked in E. inv_ok. simplify_eq.
  match goal with K : heap w !! r_session x = Some ?y |- _ => rename y into s0; rename K into Es end.
  match goal with K : _ && _ = true |- _ => apply andb_true_iff in K as [Hv _] end.
  match goal with K : when_some _ _ _ = (?y, _) |- _ => rename y into w1; rename K into Ew end.
  set (s1 := record_reserved x (r_root_key x) s0) in *.
  assert (Hs : sessions w1 = <[r_key x := mk_entry (r_session x) now]> (sessions w) /\ exists s2, heap w1 !! r_session x = Some s2 /\
    PS.transition s2 = PS.transition s1 /\ ((forall e0, sessions w !! r_key x = Some e0 -> e_session e0 <> r_session x) -> PS.is_valid s2 = true)).
  { destruct (sessions w !! r_key x) as [e0|] eqn:E0; simpl in Ew; injection Ew as <- _; simpl; (split; [done|]).
    - destruct (decide (e_session e0 = r_session x)) as [Eq|Hn].
      + exists (PS.invalidate s1). rewrite Eq, lookup_alter_eq, lookup_insert_eq. split_and!; [done..|]. intros K; by destruct (K e0).
      + exists s1. rewrite lookup_alter_ne, lookup_insert_eq by done. by split_and!.
    - exists s1. rewrite lookup_insert_eq. by split_and!. }
  destruct Hs as [Hs (s2 & E2 & Et & Hv2)].
  assert (Hr : forall k p, heap (remove_pending_if k p w1) = heap w1 /\ sessions (remove_pending_if k p w1) = sessions w1).
  { intros; unfold remove_pending_if; by case_match. }
  destruct (Hr (r_key x) (r_session x)) as [Hh Hse]. split.
  - exists (mk_entry (r_session x) now), s2, (r_root_key x). rewrite Hh, Hse, Hs, lookup_insert_eq. split_and!; try done; [|congruence].
    unfold last_is, PS.last_committed_transition. rewrite Et. apply last_push.
  - intros k Hk. by rewrite Hse, Hs, lookup_insert_ne.
  - intros _. unfold remove_pending_if. assert (Epc : pending_creates w1 = pending_creates w).
    { destruct (sessions w !! r_key x); by injection Ew as <- _. }
    rewrite bool_decide_eq_true_2; [simpl; apply lookup_delete_eq|].
    rewrite Epc. by match goal with K : bool_decide (pending_creates w !! _ = _) = true |- _ => apply bool_decide_eq_true in K end.
Qed.

Lemma commit_locked_published x now w w' : commit_initiator_reservation_locked x now w = (w', Ok tt) -> published x w w'.
Proof.
  unfold commit_initiator_reservation_locked. destruct (publishes_session x) eqn:Ep; [by apply publish_new|].
  destruct (r_action x) eqn:Ea; intros E; [| |done]; inv_ok.
  - simplify_eq/=. match goal with K : _ && _ = true |- _ => apply andb_true_iff in K as [Hp _]; apply Z.eqb_eq in Hp end.
    rewrite lookup_insert_eq in *. simplify_eq. split; simpl; [|intros k Hk; by rewrite lookup_insert_ne|congruence].
    eexists _, _, _. rewrite !lookup_insert_eq. split_and!; [done..|apply last_push|congruence|congruence|congruence].
  - match goal with K : (e_session _ =? _) = true |- _ => apply Z.eqb_eq in K as Hp end.
    match goal with K : (PS.commit_reserved_sync ?s ?a ?b ?g ?e ?t ?n).2 = _ |- _ =>
      destruct (PS.commit_reserved_sync s a b g e t n) as [s' o] eqn:Ec; simpl in K; subst o end.
    apply sync_commits in Ec as (? & ? & ? & ?). split; simpl; [|done|congruence].
    eexists _, s', _. rewrite lookup_insert_eq. unfold last_is. rewrite Ea. split_and!; try done; congruence.
Qed.

Lemma published_same x w w1 w2 w' : sessions w1 = sessions w -> sessions w' = sessions w2 -> heap w' = heap w2 -> pending_creates w' = pending_creates w2 ->
  published x w1 w2 -> published x w w'.
Proof. intros E1 E2 E3 E4 [P O C]; rewrite E1 in *. split; rewrite ?E2, ?E3, ?E4; auto. Qed.

Lemma reserve_receipt_ok w w' y : reserve_receipt w = (w', Ok y) ->
  w' = set_counts w (IN_DOUBT_RESERVATION_COUNT w) (RESPONDER_RECOVERY_RECORD_COUNT w) (INITIATOR_RECEIPT_RECORD_COUNT w + 1).
Proof.
  unfold reserve_receipt, mbind, M_bind, read, modify, try_reserve_global. destruct (_ <=? _); simpl; [done|]. by intros [= <- _].
Qed.

Section Atomic.
Context {H : Sha256}.

Lemma fresh_receipt_ok x i now w w' : commit_fresh_receipt x i now w = (w', Ok tt) -> initiator_receipts w !! session_key i = None ->
  published x w w' /\ initiator_receipts w' = <[session_key i := mk_receipt i (r_session x)]> (initiator_receipts w).
Proof.
  unfold commit_fresh_receipt. intros E En. apply bind_ok in E as (? & w1 & E1%reserve_receipt_ok & E). inv_ok.
  match goal with K : commit_initiator_reservation_locked x now w1 = (?b, Ok ?u) |- _ => rename b into w2; destruct u; rename K into Ec end.
  assert (Er : initiator_receipts w2 = initiator_receipts w).
  { pose proof (sr_receipts _ _ (records_commit_locked x now w1)) as K. rewrite Ec in K; simpl in K. rewrite K. by subst w1. }
  assert (Ei : remove_receipt (session_key i) w2 = w2) by (unfold remove_receipt; by rewrite Er, En).
  unfold insert_receipt; rewrite Ei; simpl. rewrite Er. split; [|done].
  eapply published_same, commit_locked_published, Ec; [by subst w1|done..].
Qed.

Lemma receipt_commit_ok x i prev now w w' : commit_initiator_reservation_with_receipt x i prev now w = (w', Ok tt) ->
  published x w w' /\ initiator_receipts w' = <[r_key x := mk_receipt i (r_session x)]> (initiator_receipts w) /\
  (forall c, initiator_receipts w !! r_key x = Some c -> prev = Some (c_identity c)).
Proof.
  unfold commit_initiator_reservation_with_receipt. intros E. inv_ok.
  match goal with K : matches_transition_identity_fields x i = true |- _ => apply matches_key in K as Ek end. rewrite <- Ek.
  destruct prev as [prev|], (initiator_receipts w !! session_key i) as [old|] eqn:Eo; try done.
  2,3: match goal with K : commit_fresh_receipt _ _ _ _ = _ |- _ => apply fresh_receipt_ok in K as [? ?]; [|done] end; by split_and!.
  case_bool_decide as Ep; [|done]. inv_ok.
  match goal with K : commit_initiator_reservation_locked x now ?a = (?b, Ok ?u) |- _ => set (w1 := a) in *; rename b into w2; destruct u; rename K into Ec end.
  assert (Er : initiator_receipts w2 = delete (session_key i) (initiator_receipts w)).
  { pose proof (sr_receipts _ _ (records_commit_locked x now w1)) as K. by rewrite Ec in K. }
  simpl. rewrite Er, insert_delete_eq. split_and!; [|done|by intros c [= <-]; subst].
  eapply published_same, commit_locked_published, Ec; done.
Qed.

(** the entries and the receipts *)
Record same_entries (w w' : world) : Prop := {
  se_sessions : sessions w' = sessions w;
  se_receipts : initiator_receipts w' = initiator_receipts w;
  se_count : INITIATOR_RECEIPT_RECORD_COUNT w' = INITIATOR_RECEIPT_RECORD_COUNT w;
}.
#[local] Instance same_entries_preorder : PreOrder same_entries.
Proof. split; [by split|]. intros a b c [] []; split; congruence. Qed.
Lemma entries_cancel x : steps same_entries (cancel_initiator_reservation x).
Proof. unfold cancel_initiator_reservation. frame ltac:(unfold remove_pending_if; repeat case_match; by split). Qed.
Lemma cancel_claim x w : publishes_session x = true -> pending_creates (cancel_initiator_reservation x w).1 !! r_key x <> Some (r_session x).
Proof.
  intros E; unfold cancel_initiator_reservation; rewrite E; simpl. unfold remove_pending_if. case_bool_decide as K; simpl; [by rewrite lookup_delete_eq|done].
Qed.

(** In any state of the store, a commit with its receipt is one step.  If it succeeds, the
    reservation was pending, its session stands under its key with the transition as its last committed one (a
    synchronisation with the reserved root key and generation), the receipt of exactly this transition
    pins that session in place of the receipt the caller named, and no other key changes.  If it fails,
    sessions, receipts and the receipt quota are as before, published sessions keep their traffic keys and the
    creation claim is gone.  Either way the reservation is no longer pending, so it commits at most once. *)
Theorem commit_with_receipt_atomic d r c os h x i prev now : 0 <= d <= 256 -> 0 <= r <= 256 -> 0 <= c <= 256 ->
  let s := run (fresh_system d r c) os in let w := store s in reservations s !! h = Some x ->
  let '((w', y), o) := commit_with_receipt_replacing x i prev now w in
  state y <> RESERVATION_PENDING /\ recovery_quota y = false /\
  match o with
  | Ok p => p = r_session x /\ state x = RESERVATION_PENDING /\ state y = RESERVATION_COMMITTED /\ published x w w' /\
      initiator_receipts w' = <[r_key x := mk_receipt i p]> (initiator_receipts w) /\
      (forall c, initiator_receipts w !! r_key x = Some c -> prev = Some (c_identity c))
  | Err _ => sessions w' = sessions w /\ initiator_receipts w' = initiator_receipts w /\
      INITIATOR_RECEIPT_RECORD_COUNT w' = INITIATOR_RECEIPT_RECORD_COUNT w /\ unmoved w w' /\
      (state x = RESERVATION_PENDING -> publishes_session x = true -> pending_creates w' !! r_key x <> Some (r_session x))
  | Panic => False
  end.
Proof.
  intros ? ? ? s w Ex. assert (S : system_ok s) by (by apply run_ok, fresh_ok). clearbody s.
  pose proof (so_good _ S) as G. pose proof (so_reservations _ S _ _ Ex) as R. fold w in G, R.
  assert (Ew : entries_ok w) by (intros k e; apply (wf_sessions _ (g_wf _ _ _ _ G))).
  pose proof (runs_commit_receipt _ _ _ _ x i prev now G R) as [_ K].
  pose proof (fun e => receipt_err _ _ _ _ x i prev now e G) as Ke. pose proof (receipt_commit_ok x i prev now w) as Kk.
  unfold commit_with_receipt_replacing, commit_by. pose proof (ro_quota _ _ R) as Eq. clearbody w.
  assert (Hw : unmoved w w) by (by apply (reflexivity (R := keeps) w)).
  destruct (state x) eqn:Es; try (rewrite Es, Eq; by split_and!).
  destruct (commit_initiator_reservation_with_receipt x i prev now w) as [w1 [[]|e|]]; simpl in *; [| |done].
  - destruct (Kk w1 eq_refl) as (P & Er & Ep). split_and!; try done; [|unfold release_quota; by case_match].
    eapply published_same, P; [done|unfold release_quota; by case_match..].
  - rewrite (Ke e eq_refl). clear Ke Kk K. pose proof (entries_cancel x w) as [E1 E2 E3]. pose proof (keeps_cancel_initiator x w) as K.
    pose proof (cancel_claim x w) as Kc.
    destruct (runs_cancel_initiator (out_d s) (out_r s) (other_c s) _ _ _ _ x G (ro_session _ _ R)) as [_ No].
    destruct (cancel_initiator_reservation x w) as [w2 o]; simpl in *. destruct o; simpl in No; [..|done]; simpl.
    all: assert (Kr : keeps w (release_quota x w2)) by (transitivity w2; [done|apply keeps_release_quota]).
    all: split_and!; try done; try (unfold release_quota; by case_match). all: by apply Kr.
Qed.
End Atomic.

(** ** Transitions in doubt *)
Section InDoubt.
Context {H : Sha256} (k : SessionKey) (d0 : SuspendedInitiatorReservation).

Definition waits (w w' : world) : Prop := in_doubt_initiators w !! k = Some d0 -> in_doubt_initiators w' !! k = Some d0.
#[local] Instance waits_preorder : PreOrder waits.
Proof. split; [by intros w E|]. intros a b c Hab Hbc E; auto. Qed.

Lemma waits_same w w' : in_doubt_initiators w' = in_doubt_initiators w -> waits w w'.
Proof. intros E; unfold waits; by rewrite E. Qed.
Ltac wait := apply waits_same;
  unfold release_quota, remove_pending_if, remove_session_if, insert_receipt, insert_recovery, remove_receipt, remove_recovery; repeat case_match; done.
Ltac waiting := frame wait.

Lemma waits_commit_locked x now : steps waits (commit_initiator_reservation_locked x now).
Proof. unfold commit_initiator_reservation_locked, commit_new_initiator_session_locked. waiting. Qed.
Lemma waits_cancel_initiator x : steps waits (cancel_initiator_reservation x).
Proof. unfold cancel_initiator_reservation. waiting. Qed.
Lemma waits_cancel x : steps waits (cancel x).
Proof. unfold cancel, cancel_initiator_reservation. waiting. Qed.
Lemma waits_drop x : steps waits (drop_reservation x).
Proof. unfold drop_reservation. waiting; apply waits_cancel. Qed.
Lemma waits_fail_dropping {X} x e : steps waits (fail_dropping (X := X) x e).
Proof. unfold fail_dropping. apply steps_bind; [apply _|apply waits_drop|intros _; waiting]. Qed.
Lemma waits_suspend x l i : steps waits (suspend_with_identity x l i).
Proof.
  unfold suspend_with_identity. do 3 (case_match; [apply waits_fail_dropping|]). destruct (state x); try apply waits_fail_dropping.
  case_match; [apply steps_bind; [apply _|apply waits_cancel|intros _; waiting]|].
  intros w; unfold retain_in_doubt_reservation. destruct (in_doubt_initiators w !! session_key i) eqn:E; [apply waits_fail_dropping|].
  intros Ek; simpl. rewrite lookup_insert_ne; [done|congruence].
Qed.
Lemma waits_commit_by x m w : steps waits m -> waits w (commit_by m x w).1.1.
Proof.
  intros K; unfold commit_by. destruct (state x); try (simpl; reflexivity). specialize (K w).
  destruct (m w) as [w1 [[]|e|]]; simpl in *; [transitivity w1; [done|wait]| |done].
  pose proof (waits_cancel_initiator x w1) as K2. destruct (cancel_initiator_reservation x w1) as [w2 o]; simpl in *.
  transitivity w1; [done|]. transitivity w2; [done|wait].
Qed.
Lemma waits_receipt x i prev now : steps waits (commit_initiator_reservation_with_receipt x i prev now).
Proof.
  unfold commit_initiator_reservation_with_receipt, commit_fresh_receipt, reserve_receipt. waiting; apply waits_commit_locked.
Qed.
Lemma waits_reserve_pubkey p key rev e : steps waits (reserve_pubkey_or_cancel p key rev e).
Proof.
  intros w; unfold reserve_pubkey_or_cancel.
  assert (K : steps waits (on_session p (fun s => PS.reserve_peer_static_pubkey s key))) by waiting. specialize (K w).
  destruct (on_session _ _ w) as [w1 [[]|er|]]; simpl in *; [done| |done]. transitivity w1; [done|].
  unfold cancel_sync. assert (K2 : steps waits (_ ← update p (fun s => PS.cancel_reserved_sync s rev e); fail er : M unit)) by waiting. apply K2.
Qed.
Lemma waits_prepare key q now : steps waits (prepare_initiator_action_with_transition_id key q now).
Proof.
  unfold prepare_initiator_action_with_transition_id, prepare_new_initiator_session_locked, prepare_join, prepare_sync, reserve_in_doubt, check_same, claim_creation, cancel_sync.
  waiting; apply waits_reserve_pubkey.
Qed.
Lemma waits_get key now : steps waits (get key now).
Proof. intros w; unfold get; repeat case_match; simpl; wait. Qed.
Lemma waits_prepare_responder key sa ra pk ex tid root uuid now : steps waits (prepare_responder_session_locked key sa ra pk ex tid root uuid now).
Proof. unfold prepare_responder_session_locked, claim_creation. waiting; first [apply waits_get|apply waits_reserve_pubkey]. Qed.
Lemma waits_expire now w : waits w (expire_responder_recoveries now w).
Proof.
  unfold expire_responder_recoveries, expire_responder_recoveries_locked. generalize (expired INITIATOR_RECOVERY_LIFETIME now w) as ks. generalize 0 as n.
  revert w. intros w n ks; revert w n. induction ks as [|key ks IH]; intros w n; [reflexivity|]. simpl. case_match; [|apply IH].
  etransitivity; [|apply IH]. wait.
Qed.
Lemma waits_take i : session_key i <> k -> steps waits (take_in_doubt i).
Proof.
  intros Hn; unfold take_in_doubt. frame ltac:(intros E; simpl; by rewrite lookup_delete_ne).
Qed.

(** how a record in doubt ends *)
Definition resumed (s s' : system) (o : op) : Prop :=
  exists h i, o = OResume h i /\ session_key i = k /\ matches_authenticated_fields (s_identity d0) i = true /\
    reservations s' !! h = Some (with_state (s_reservation d0) true RESERVATION_PENDING).
Definition cancelled (o : op) : Prop := exists i, o = OCancelExact i /\ session_key i = k /\ matches_authenticated_fields (s_identity d0) i = true.
Definition peer_removed (s : system) (o : op) : Prop := exists key, o = OClear k key /\ reservation_pubkey (store s) (s_reservation d0) = Some key.

Lemma bind_require {X Y} (x : X) e (f : X -> M Y) w : (require (Some x) e ≫= f) w = f x w.
Proof. done. Qed.
Lemma take_same i w : in_doubt_initiators w !! session_key i = Some d0 ->
  take_in_doubt i w = if matches_authenticated_fields (s_identity d0) i
    then (set_in_doubt w (delete (session_key i) (in_doubt_initiators w)), Ok d0) else (w, Err InDoubtMismatch).
Proof. intros E; unfold take_in_doubt. rewrite bind_read, E, bind_require, bind_guard. by case_match. Qed.

Lemma resume_ends s h i : system_ok s -> in_doubt_initiators (store s) !! k = Some d0 ->
  let s' := (call_reservation s h (resume_initiator_reservation i)).1 in
  in_doubt_initiators (store s') !! k = Some d0 \/ resumed s s' (OResume h i).
Proof.
  intros S E; simpl. unfold call_reservation. destruct (reservations s !! h) eqn:Eh; [by left|].
  destruct (decide (session_key i = k)) as [Ek|Hn].
  - unfold resume_initiator_reservation, mbind, M_bind. rewrite (take_same i) by (by rewrite Ek).
    destruct (matches_authenticated_fields (s_identity d0) i) eqn:Em; [|by left].
    destruct (wf_in_doubt _ (g_wf _ _ _ _ (so_good _ S)) _ _ E) as (_ & _ & _ & ->). simpl. right. exists h, i. split_and!; try done. apply lookup_insert_eq.
  - left. assert (K : steps waits (resume_initiator_reservation i)).
    { unfold resume_initiator_reservation. apply steps_bind; [apply _|by apply waits_take|intros d]. waiting; apply waits_cancel. }
    specialize (K (store s) E). by destruct (resume_initiator_reservation i (store s)) as [w []].
Qed.

Lemma cancel_exact_ends s i : in_doubt_initiators (store s) !! k = Some d0 ->
  in_doubt_initiators (cancel_initiator_reservation_exact i (store s)).1 !! k = Some d0 \/ cancelled (OCancelExact i).
Proof.
  intros E; unfold cancel_initiator_reservation_exact. destruct (decide (session_key i = k)) as [Ek|Hn].
  - rewrite (take_same i) by (by rewrite Ek). destruct (matches_authenticated_fields (s_identity d0) i) eqn:Em; [|by left]. right. by exists i.
  - left. pose proof (waits_take i Hn (store s) E) as K. destruct (take_in_doubt i (store s)) as [w [d|e|]]; simpl in *; [|done..].
    revert K. apply (steps_bind waits (cancel _)); [apply waits_cancel|]. intros _; waiting.
Qed.

Lemma clear_ends s key pk : in_doubt_initiators (store s) !! k = Some d0 ->
  in_doubt_initiators (clear_peer_records_if_static_key_matches key pk (store s)).1 !! k = Some d0 \/ peer_removed s (OClear key pk).
Proof.
  intros E. destruct (records_match (store s) key pk) eqn:Em; [|left; by rewrite (keeps_clear _ _ _ Em)].
  destruct (decide (key = k)) as [->|Hn].
  - right. exists pk. split; [done|]. unfold records_match in Em. rewrite !andb_true_iff in Em. destruct Em as [[[[_ _] Ed] _] _].
    rewrite E in Ed; simpl in Ed. by apply bool_decide_eq_true in Ed.
  - left. assert (K : steps waits (clear_peer_records_if_static_key_matches key pk)).
    { unfold clear_peer_records_if_static_key_matches. frame ltac:(first [wait|by intros E'; simpl; rewrite lookup_delete_ne]). apply waits_cancel. }
    by apply K.
Qed.

Lemma waits_call_reservation s h m : steps waits m -> waits (store s) (store (call_reservation s h m).1).
Proof. intros K; unfold call_reservation. destruct (reservations s !! h); [reflexivity|]. specialize (K (store s)). by destruct (m (store s)) as [w []]. Qed.
Lemma waits_call_prepared s h m : steps waits m -> waits (store s) (store (call_prepared s h m).1).
Proof. intros K; unfold call_prepared. destruct (prepareds s !! h); [reflexivity|]. specialize (K (store s)). by destruct (m (store s)) as [w []]. Qed.
Lemma waits_on_prepared s h f : (forall u, steps waits (f u)) -> waits (store s) (store (on_prepared s h f).1).
Proof. intros K; unfold on_prepared. destruct (prepareds s !! h) as [u|]; [|reflexivity]. specialize (K u (store s)). by destruct (f u (store s)) as [w []]. Qed.
Lemma waits_consume s h f : (forall x, steps waits (f x)) -> waits (store s) (store (consume s h f).1).
Proof. intros K; unfold consume. destruct (reservations s !! h) as [x|]; [|reflexivity]. apply K. Qed.
Lemma waits_on_commit s h f : (forall x, waits (store s) (f x (store s)).1.1) ->
  waits (store s) (store (on_reservation s h (fun x w => let '(wy, o) := f x w in (wy, forget (X := ptr) o))).1).
Proof.
  intros K; unfold on_reservation. destruct (reservations s !! h) as [x|]; [|reflexivity]. specialize (K x). by destruct (f x (store s)) as [[w y] o].
Qed.

Lemma waits_initiator s o : (match o with OResume _ _ | OCancelExact _ => False | _ => True end) -> waits (store s) (store (exec_initiator s o).1).
Proof.
  intros No. destruct o; cbn [exec_initiator]; try done; try reflexivity.
  - apply waits_call_reservation, waits_prepare.
  - unfold on_reservation. destruct (reservations s !! h) as [x|]; [|reflexivity]. destruct (bind_transition_id x tid); simpl; reflexivity.
  - apply waits_on_commit; intros x. apply waits_commit_by, waits_commit_locked.
  - apply waits_on_commit; intros x. apply waits_commit_by, waits_receipt.
  - unfold on_reservation. destruct (reservations s !! h) as [x|]; [|reflexivity]. pose proof (waits_cancel x (store s)) as K.
    by destruct (cancel x (store s)) as [w []].
  - apply waits_consume, waits_drop.
  - apply waits_consume; intros; apply waits_suspend.
  - simpl. unfold apply_initiator_action. pose proof (waits_prepare key q now (store s)) as K1.
    destruct (prepare_initiator_action_with_transition_id key q now (store s)) as [w1 [x|e|]]; simpl in *; [|done..].
    pose proof (waits_commit_by x _ w1 (waits_commit_locked x now)) as K2. unfold commit. destruct (commit_by _ x w1) as [[w2 y] o]; simpl in *.
    pose proof (waits_drop y w2) as K3. destruct (drop_reservation y w2) as [w3 []]; simpl in *; (transitivity w1; [done|by transitivity w2]).
  - case_bool_decide; [|reflexivity]. assert (K : steps waits (record_initiator_receipt i p)).
    { unfold record_initiator_receipt, reserve_receipt. waiting. }
    apply K.
  - apply waits_same; simpl. unfold acknowledge_initiator_receipt, remove_receipt_if, remove_receipt; by repeat case_match.
  - apply waits_same; simpl. unfold acknowledge_initiator_receipt_exact, remove_receipt_if, remove_receipt; by repeat case_match.
Qed.

Lemma waits_commit_prepared key u now : steps waits (commit_prepared_responder_transition key u now).
Proof.
  unfold commit_prepared_responder_transition, reserve_responder_recovery_quota_locked, reserve_recovery, commit_responder_action, record_responder_recovery_locked.
  waiting.
Qed.
Lemma waits_remove_recovery_if key f w : waits w (remove_recovery_if key f w).1.
Proof. apply waits_same. unfold remove_recovery_if, remove_recovery; by repeat case_match. Qed.
Lemma waits_modify_expire now : steps waits (modify (expire_responder_recoveries now)).
Proof. apply steps_modify; intros w; apply waits_expire. Qed.

Lemma waits_responder s o : waits (store s) (store (exec_responder s o).1).
Proof.
  destruct o; cbn [exec_responder]; try reflexivity.
  - apply waits_call_prepared. unfold prepare_responder_session. apply waits_prepare_responder.
  - apply waits_call_prepared. unfold prepare_responder_session_with_recovery_proof.
    frame ltac:(apply waits_expire). apply waits_prepare_responder.
  - apply waits_call_prepared. unfold recover, reconcile_active_responder_transition. frame ltac:(apply waits_expire).
  - apply waits_on_prepared; intros u. unfold authenticate_recovery, authenticate_prepared_responder_transition. waiting.
  - apply waits_on_prepared; intros u. apply waits_commit_prepared.
  - apply waits_on_prepared; intros u. unfold cancel_prepared, cancel_prepared_session, cancel_sync. waiting.
  - destruct (prepareds s !! h) as [u|]; [|reflexivity]. apply waits_same; simpl.
    unfold drop_prepared, restore_responder_recovery; by repeat case_match.
  - etransitivity; [apply waits_expire|]. apply waits_remove_recovery_if.
  - etransitivity; [apply waits_expire|]. apply waits_remove_recovery_if.
  - etransitivity; [apply waits_expire|]. simpl; unfold abandon_unacknowledged_responder_recovery; wait.
Qed.

Lemma waits_exec s o : system_ok s -> in_doubt_initiators (store s) !! k = Some d0 ->
  in_doubt_initiators (store (exec s o).1) !! k = Some d0 \/ resumed s (exec s o).1 o \/ cancelled o \/ peer_removed s o.
Proof.
  intros S E. destruct o; try (left; revert E; refine (waits_initiator s _ _); exact I); try (left; revert E; refine (waits_responder s _)); simpl.
  - destruct (resume_ends s h i S E); auto.
  - destruct (cancel_exact_ends s i E); auto.
  - destruct (clear_ends s key k0 E); auto.
  - left; by apply waits_get.
  - left; revert E; apply waits_same. unfold touch_if_same; by repeat case_match.
  - by left.
  - left; revert E; apply waits_same. unfold remove_if_same, remove_session_if; by repeat case_match.
  - left; by case_bool_decide.
  - left. unfold evict_unused_sessions, evict_unused_sessions_idle; simpl. by apply (waits_expire now).
  - left; by case_match.
  - left; revert E; apply waits_same. destruct take; simpl; unfold try_reserve_global; by repeat case_match.
  - left; revert E; apply waits_same. destruct take; simpl; unfold try_reserve_global; by repeat case_match.
  - left; revert E; apply waits_same. destruct take; simpl; unfold try_reserve_global; by repeat case_match.
Qed.
End InDoubt.

Section InDoubtClaim.
Context {H : Sha256}.

(** In any state of the store, a transition in doubt stays recorded through every call, timer and eviction
    until it is resumed under its exact identity (and the caller gets back that reservation, pending and with its
    permit), cancelled under its exact identity, or its peer is removed under the peer's own static key; while it
    waits, no new transition of that peer can be prepared in either role, and the attempt changes nothing. *)
Theorem in_doubt_waits_for_identity d r c os k d0 : 0 <= d <= 256 -> 0 <= r <= 256 -> 0 <= c <= 256 ->
  let s := run (fresh_system d r c) os in let w := store s in in_doubt_initiators w !! k = Some d0 ->
  (forall o, in_doubt_initiators (store (exec s o).1) !! k = Some d0 \/ resumed k d0 s (exec s o).1 o \/ cancelled k d0 o \/ peer_removed k d0 s o) /\
  (forall q now, prepare_initiator_action_with_transition_id k q now w = (w, Err AwaitingRecovery)) /\
  (forall sa ra pk ex tid root uuid now, exists e, prepare_responder_session_locked k sa ra pk ex tid root uuid now w = (w, Err e)).
Proof.
  intros ? ? ? s w E. assert (S : system_ok s) by (by apply run_ok, fresh_ok). split_and!.
  - intros o; by apply waits_exec.
  - intros q now. unfold prepare_initiator_action_with_transition_id. by rewrite bind_read, bind_guard, E.
  - intros. unfold prepare_responder_session_locked. rewrite bind_read, bind_guard. case_match; [|by eexists]. rewrite bind_guard, E. by eexists.
Qed.
End InDoubtClaim.

(** ** Examples *)
(** after the demo run: an attempt in either role while the transition is in doubt, a removal under another key, and
    the resumed synchronisation, refused because its receipt conflicts with the one not yet acknowledged *)
Definition demo_attempts : list op :=
  [OPrepare 2 demo_key (demo_request PS.Sync 4 7) 30; OPrepareResponder 0 demo_key [1] [1] (Some (replicate 32 9)) (replicate 16 2) (demo_root 8) 41 31;
   OClear demo_key (replicate 32 3); OResume 3 (demo_identity PS.Sync 3 6 77); OCommitReceipt 3 (demo_identity PS.Sync 3 6 77) None 32; ODrop 3].

Lemma failed_handshakes_keep_sessions_witness : let s := @run demo_sha (fresh_system 3 0 0) demo_run in let s' := @run demo_sha s demo_attempts in
  @unconfirmed_run demo_sha s demo_attempts = true /\ @lapsed demo_sha s demo_attempts = [] /\ exists p, peek (store s) demo_key = Some p /\ peek (store s') demo_key = Some p.
Proof.
  intros s s'. split; [by vm_compute|]. split; [by vm_compute|]. destruct (peek (store s) demo_key) as [p|] eqn:Ep; [|by vm_compute in Ep]. exists p. split; [done|].
  apply (proj1 (@failed_handshakes_keep_sessions demo_sha 3 0 0 demo_run demo_attempts ltac:(lia) ltac:(lia) ltac:(lia) ltac:(by vm_compute))). split; [exact Ep|].
  assert (El : @lapsed demo_sha s demo_attempts = []) by (by vm_compute). fold s. rewrite El. apply not_elem_of_nil.
Defined.

(** the synchronisation is resumed and confirmed with the receipt of the creation named as the previous one *)
Definition demo_resumed : list op := demo_run ++ [OResume 4 (demo_identity PS.Sync 3 6 77)].
Definition demo_reservation : InitiatorSessionReservation :=
  with_state (reserve demo_key (demo_request PS.Sync 3 6) 0 (demo_root 6) 2 false None) true RESERVATION_PENDING.

Lemma commit_with_receipt_atomic_witness : let s := @run demo_sha (fresh_system 3 0 0) demo_resumed in
  reservations s !! 4 = Some demo_reservation /\
  let '((w', y), o) := @commit_with_receipt_replacing demo_sha demo_reservation (demo_identity PS.Sync 3 6 77) (Some (demo_identity PS.Create 0 5 40)) 50 (store s) in
  o = Ok 0 /\ state y <> RESERVATION_PENDING.
Proof.
  intros s. assert (Ex : reservations s !! 4 = Some demo_reservation) by (by vm_compute). split; [done|].
  pose proof (@commit_with_receipt_atomic demo_sha 3 0 0 demo_resumed 4 demo_reservation (demo_identity PS.Sync 3 6 77)
    (Some (demo_identity PS.Create 0 5 40)) 50 ltac:(lia) ltac:(lia) ltac:(lia) Ex) as K.
  assert (Eo : (@commit_with_receipt_replacing demo_sha demo_reservation (demo_identity PS.Sync 3 6 77) (Some (demo_identity PS.Create 0 5 40)) 50
    (store s)).2 = Ok 0) by (by vm_compute).
  fold s in K. destruct (commit_with_receipt_replacing _ _ _ _ (store s)) as [[w' y] o]. split; [exact Eo|]. exact (proj1 K).
Defined.

Lemma in_doubt_waits_for_identity_witness : let s := @run demo_sha (fresh_system 3 0 0) demo_run in
  exists d0, in_doubt_initiators (store s) !! demo_key = Some d0 /\
    forall q now, prepare_initiator_action_with_transition_id demo_key q now (store s) = (store s, Err AwaitingRecovery).
Proof.
  intros s. destruct (in_doubt_initiators (store s) !! demo_key) as [d0|] eqn:E; [|by vm_compute in E]. exists d0. split; [done|].
  exact (proj1 (proj2 (@in_doubt_waits_for_identity demo_sha 3 0 0 demo_run demo_key d0 ltac:(lia) ltac:(lia) ltac:(lia) E))).
Defined.
End SessionHandshake.
