(* ===== verification/L2Fabric.v ===== *)
(** * The Ethernet forwarding database

    [L2Fabric] of src/lowertier/src/peers/l2_fabric.rs: learning of source addresses, lookups of
    destinations, the bridge policy, the limits on floods and the caches of a batch.  Each method is
    one atomic transition; instants are nanoseconds; the frame parser is the one of [Vlan]. *)
From stdpp Require Import base list gmap numbers sorting fin_maps.
From Stdlib Require Import ZArith Lia.
From S2P Require Import Prelude PacketHeader.

Local Open Scope Z_scope.

Module L2Fabric.
Import Vlan.

#[export] Instance VlanStack_eq_dec : EqDecision VlanStack.
Proof. solve_decision. Defined.
#[export] Instance VlanStack_countable : Countable VlanStack.
Proof. refine (inj_countable' (fun v => (tags v, stack_len v)) (fun x => mk_stack x.1 x.2) _). by intros []. Defined.

Abbreviation FdbKey := (VlanStack * list Z)%type (only parsing).

Inductive EthernetDestination : Type := Known (peer : Z) | Flood.
#[export] Instance EthernetDestination_eq_dec : EqDecision EthernetDestination.
Proof. solve_decision. Defined.

Record FdbEntry : Type := mk_entry { e_peer : Z; last_seen : Z }.
Record FloodBucket : Type := mk_bucket { last_refill : Z; tokens : Z }.
Record L2Policy : Type := mk_policy {
  max_macs_per_peer : Z;
  move_hold : Z;
  allowed_vlans : list Z;
  allowed_ether_types : list Z;
}.
Definition default_policy : L2Policy := mk_policy 0 0 [] [].

(** what does not change *)
Record Config : Type := mk_config {
  capacity : Z;
  age : Z;
  flood_bytes_per_second : Z;
  policy : L2Policy;
  bridge_enabled : bool;
}.
Record Counters : Type := mk_counters { flood_drops : Z; ingress_flood_drops : Z; loop_drops : Z; policy_drops : Z }.

Record t : Type := mk {
  conf : Config;
  fdb : gmap FdbKey FdbEntry;
  entry_count : Z;
  generation : Z;
  flood : FloodBucket;
  ingress : gmap Z FloodBucket;
  per_peer_counts : gmap Z Z;
  counters : Counters;
  next_expiry : Z;
}.

Definition with_fdb (s : t) (m : gmap FdbKey FdbEntry) (n : Z) : t :=
  mk (conf s) m n (generation s) (flood s) (ingress s) (per_peer_counts s) (counters s) (next_expiry s).
Definition with_generation (s : t) (g : Z) : t :=
  mk (conf s) (fdb s) (entry_count s) g (flood s) (ingress s) (per_peer_counts s) (counters s) (next_expiry s).
Definition with_flood (s : t) (b : FloodBucket) : t :=
  mk (conf s) (fdb s) (entry_count s) (generation s) b (ingress s) (per_peer_counts s) (counters s) (next_expiry s).
Definition with_ingress (s : t) (m : gmap Z FloodBucket) : t :=
  mk (conf s) (fdb s) (entry_count s) (generation s) (flood s) m (per_peer_counts s) (counters s) (next_expiry s).
Definition with_counts (s : t) (m : gmap Z Z) : t :=
  mk (conf s) (fdb s) (entry_count s) (generation s) (flood s) (ingress s) m (counters s) (next_expiry s).
Definition with_counters (s : t) (c : Counters) : t :=
  mk (conf s) (fdb s) (entry_count s) (generation s) (flood s) (ingress s) (per_peer_counts s) c (next_expiry s).
Definition with_next_expiry (s : t) (e : Z) : t :=
  mk (conf s) (fdb s) (entry_count s) (generation s) (flood s) (ingress s) (per_peer_counts s) (counters s) e.

Definition count_flood_drop (s : t) : t := let c := counters s in
  with_counters s (mk_counters (wrap 64 (flood_drops c + 1)) (ingress_flood_drops c) (loop_drops c) (policy_drops c)).
Definition count_ingress_drop (s : t) : t := let c := counters s in
  with_counters s (mk_counters (flood_drops c) (wrap 64 (ingress_flood_drops c + 1)) (loop_drops c) (policy_drops c)).
Definition count_loop_drop (s : t) : t := let c := counters s in
  with_counters s (mk_counters (flood_drops c) (ingress_flood_drops c) (wrap 64 (loop_drops c + 1)) (policy_drops c)).
Definition count_policy_drop (s : t) : t := let c := counters s in
  with_counters s (mk_counters (flood_drops c) (ingress_flood_drops c) (loop_drops c) (wrap 64 (policy_drops c + 1))).

(** ** Construction *)
(** the flags of the configuration that the fabric reads *)
Record Flags : Type := mk_flags {
  l2_fdb_capacity : Z;
  l2_fdb_age_seconds : Z;
  l2_flood_bytes_per_second : Z;
  l2_max_macs_per_peer : Z;
  l2_mac_move_hold_seconds : Z;
  l2_allowed_vlans : list Z;
  l2_allowed_ether_types : list Z;
  enable_bridge : bool;
}.

Definition second : Z := 1000000000.

(** [sort_unstable], then [dedup] *)
Fixpoint dedup (l : list Z) : list Z :=
  match l with
  | x :: ((y :: _) as rest) => if x =? y then dedup rest else x :: dedup rest
  | _ => l
  end.
Definition sorted_values (l : list Z) : list Z := dedup (merge_sort Z.le (map (wrap 16) l)).
(** [binary_search] on such a list *)
Definition found (x : Z) (l : list Z) : bool := bool_decide (x ∈ l).

Definition policy_from_flags (f : Flags) : L2Policy :=
  mk_policy (l2_max_macs_per_peer f) (l2_mac_move_hold_seconds f * second)
    (sorted_values (l2_allowed_vlans f)) (sorted_values (l2_allowed_ether_types f)).

Definition new_bucket (rate now : Z) : FloodBucket := mk_bucket now (rate * second).

Definition with_policy (cap age rate : Z) (p : L2Policy) (bridge : bool) (now : Z) : t :=
  mk (mk_config cap age rate p bridge) ∅ 0 1 (new_bucket rate now) ∅ ∅ (mk_counters 0 0 0 0) now.
Definition new (cap age rate now : Z) : t := with_policy cap age rate default_policy true now.
Definition from_flags (f : Flags) (now : Z) : t :=
  with_policy (l2_fdb_capacity f) (l2_fdb_age_seconds f * second) (l2_flood_bytes_per_second f) (policy_from_flags f) (enable_bridge f) now.

(** the checks of the configuration on these flags *)
Definition l2_flags_valid (f : Flags) : bool :=
  (1 <=? l2_fdb_capacity f) && (l2_fdb_capacity f <=? 1048576) &&
  (1 <=? l2_fdb_age_seconds f) && (l2_fdb_age_seconds f <=? 86400) &&
  negb (l2_fdb_capacity f <? l2_max_macs_per_peer f) &&
  negb (l2_fdb_age_seconds f <? l2_mac_move_hold_seconds f) &&
  negb ((4095 <? len (l2_allowed_vlans f)) || existsb (fun v => 4094 <? v) (l2_allowed_vlans f)) &&
  negb ((256 <? len (l2_allowed_ether_types f)) ||
        existsb (fun v => negb ((0x0600 <=? v) && (v <=? 0xffff))) (l2_allowed_ether_types f)).

(** ** Floods *)
Definition since (now earlier : Z) : Z := saturating_sub now earlier.

Definition consume_at (b : FloodBucket) (bytes rate now : Z) : FloodBucket * bool :=
  if rate =? 0 then (b, true)
  else
    let elapsed := since now (last_refill b) in
    let available := Z.min (saturating_add 128 (tokens b) (saturating_mul 128 elapsed rate)) (rate * second) in
    let refill := Z.max (last_refill b) now in
    let cost := bytes * second in
    if available <? cost then (mk_bucket refill available, false)
    else (mk_bucket refill (available - cost), true).

Definition allow_flood_at (s : t) (bytes now : Z) : t * bool :=
  if flood_bytes_per_second (conf s) =? 0 then (s, true)
  else let '(b, ok) := consume_at (flood s) bytes (flood_bytes_per_second (conf s)) now in (with_flood s b, ok).

Definition MAX_FANOUT_RECIPIENTS : Z := 4096.

Definition allow_flood_output_bytes (s : t) (bytes recipients now : Z) : t * bool :=
  let '(s, allowed) := if recipients <=? MAX_FANOUT_RECIPIENTS then allow_flood_at s bytes now else (s, false) in
  (if allowed then s else count_flood_drop s, allowed).
Definition allow_flood_replicated (s : t) (frame_len recipients now : Z) : t * bool :=
  allow_flood_output_bytes s (saturating_mul 64 frame_len recipients) recipients now.

Definition allow_ingress_flood_at (s : t) (bytes peer now : Z) : t * bool :=
  let rate := flood_bytes_per_second (conf s) in
  if rate =? 0 then (s, true)
  else
    let b := default (new_bucket rate now) (ingress s !! peer) in
    let '(b, allowed) := consume_at b bytes rate now in
    let s := with_ingress s (<[peer := b]> (ingress s)) in
    (if allowed then s else count_ingress_drop s, allowed).

(** ** Frames *)
Definition is_unicast (a : list Z) : bool :=
  negb (bool_decide (a = replicate 6 0)) && negb (bool_decide (a = replicate 6 0xff)) &&
  match a with x :: _ => Z.land x 1 =? 0 | [] => false end.

Definition ethernet_addresses (frame : list Z) : option (VlanStack * list Z * list Z) :=
  m ← ethernet_network_metadata frame;
  d ← get_range frame 0 6;
  src ← get_range frame 6 12;
  Some (vlan_stack m, d, src).

Definition needs_tap_admission (s : t) : bool :=
  bridge_enabled (conf s) || negb (bool_decide (allowed_vlans (policy (conf s)) = [])) ||
  negb (bool_decide (allowed_ether_types (policy (conf s)) = [])).
Definition has_policy (s : t) : bool :=
  let p := policy (conf s) in
  negb (max_macs_per_peer p =? 0) || negb (move_hold p =? 0) || negb (bool_decide (allowed_vlans p = [])) ||
  negb (bool_decide (allowed_ether_types p = [])).

(** an empty list allows everything *)
Definition allows (l : list Z) (x : Z) : bool := bool_decide (l = []) || found x l.

Definition allows_compact_ip (s : t) (payload : list Z) : bool :=
  let p := policy (conf s) in
  match payload with
  | b :: _ =>
      match (if Z.shiftr b 4 =? 4 then Some 0x0800 else if Z.shiftr b 4 =? 6 then Some 0x86dd else None) with
      | Some ty => allows (allowed_vlans p) 0 && allows (allowed_ether_types p) ty
      | None => false
      end
  | [] => false
  end.

(** the loop over the tags, with an index out of range as [Panic]: [None] when a tag is denied, else
    whether there was one.  Each round moves by four bytes, so the length of the frame is fuel enough. *)
Fixpoint tags_allowed (fuel : nat) (allowed : list Z) (frame : list Z) (offset : nat) (tagged : bool) : outcome unit (option bool) :=
  match fuel with
  | O => Panic
  | S fuel =>
      ty ← unwrap (get_range frame offset (offset + 2));
      if is_vlan_type (of_be ty) then
        tci ← unwrap (get_range frame (offset + 2) (offset + 4));
        if found (Z.land (of_be tci) 0x0fff) allowed then tags_allowed fuel allowed frame (offset + 4) true
        else Ok None
      else Ok (Some tagged)
  end.

Definition permitted_source (s : t) (frame : list Z) : outcome unit (option (VlanStack * list Z)) :=
  let p := policy (conf s) in
  match ethernet_network_metadata frame with
  | None => Ok None
  | Some m =>
      if negb (allows (allowed_ether_types p) (ether_type m)) then Ok None
      else
        vlans ← (if bool_decide (allowed_vlans p = []) then Ok true
                 else
                   r ← tags_allowed (length frame) (allowed_vlans p) frame 12 false;
                   match r with
                   | None => Ok false
                   | Some tagged => Ok (tagged || found 0 (allowed_vlans p))
                   end);
        if negb vlans then Ok None
        else
          src ← unwrap (get_range frame 6 12);
          Ok (if is_unicast src then Some (vlan_stack m, src) else None)
  end.

(** ** Ownership *)
(** a released entry; the owner of a limited entry has a counter *)
Definition release_peer_entry (s : t) (peer : Z) : outcome unit t :=
  let s := with_generation s (wrap 64 (generation s + 1)) in
  if max_macs_per_peer (policy (conf s)) =? 0 then Ok s
  else
    c ← unwrap (per_peer_counts s !! peer);
    Ok (with_counts s (<[peer := wrap 64 (c - 1)]> (per_peer_counts s))).

(** [remove_if] and [retain] drop entries one by one *)
Fixpoint remove_all (s : t) (l : list (FdbKey * FdbEntry)) : outcome unit t :=
  match l with
  | [] => Ok s
  | (k, e) :: l =>
      s ← release_peer_entry s (e_peer e);
      remove_all (with_fdb s (delete k (fdb s)) (wrap 64 (entry_count s - 1))) l
  end.
Definition retain (s : t) (keep : FdbEntry -> bool) : outcome unit t :=
  remove_all s (filter (fun x => keep x.2 = false) (map_to_list (fdb s))).

(** the reservation: [None] when the peer has no room; its counter is then there already, because
    the limit is not zero *)
Definition try_reserve_peer (s : t) (peer : Z) : option t :=
  let limit := max_macs_per_peer (policy (conf s)) in
  if limit =? 0 then Some s
  else
    let c := default 0 (per_peer_counts s !! peer) in
    if c <? limit then Some (with_counts s (<[peer := c + 1]> (per_peer_counts s))) else None.
Definition reclaim_expired_at (s : t) (now : Z) : outcome unit t :=
  if now <? next_expiry s then Ok s
  else retain (with_next_expiry s (now + Z.min (age (conf s)) second)) (fun e => since now (last_seen e) <=? age (conf s)).

Definition peer_full (s : t) (peer : Z) : bool :=
  let limit := max_macs_per_peer (policy (conf s)) in
  negb (limit =? 0) && match per_peer_counts s !! peer with Some c => limit <=? c | None => false end.

(** an address that another peer may own *)
Definition occupied (s : t) (key : FdbKey) (e : FdbEntry) (peer now : Z) : outcome unit (t * bool) :=
  if e_peer e =? peer then Ok (with_fdb s (<[key := mk_entry (e_peer e) now]> (fdb s)) (entry_count s), true)
  else if since now (last_seen e) <? move_hold (policy (conf s)) then Ok (s, false)
  else
    match try_reserve_peer s peer with
    | None => Ok (s, false)
    | Some s =>
        s ← release_peer_entry s (e_peer e);
        Ok (with_fdb s (<[key := mk_entry peer now]> (fdb s)) (entry_count s), true)
    end.

(** an address that is not in the table *)
Definition vacant (s : t) (key : FdbKey) (peer now : Z) : outcome unit (t * bool) :=
  let pol := policy (conf s) in
  match try_reserve_peer s peer with
  | None => Ok (s, false)
  | Some s' =>
      if entry_count s' <? capacity (conf s') then
        let s := with_fdb s' (<[key := mk_entry peer now]> (fdb s')) (entry_count s' + 1) in
        Ok (with_generation s (wrap 64 (generation s + 1)), true)
      else
        c ← (if max_macs_per_peer pol =? 0 then Ok (per_peer_counts s')
             else c ← unwrap (per_peer_counts s' !! peer); Ok (<[peer := wrap 64 (c - 1)]> (per_peer_counts s')));
        Ok (with_counts s' c, (max_macs_per_peer pol =? 0) && (move_hold pol =? 0))
  end.

Definition learn_new (s : t) (key : FdbKey) (peer now : Z) : outcome unit (t * bool) :=
  s ← (if peer_full s peer || ((capacity (conf s) <=? entry_count s) && bool_decide (fdb s !! key = None))
       then reclaim_expired_at s now else Ok s);
  match fdb s !! key with
  | Some e => occupied s key e peer now
  | None => vacant s key peer now
  end.

Definition learn_address_at (s : t) (vlan : VlanStack) (source : list Z) (peer now : Z) : outcome unit (t * bool) :=
  let key := (vlan, source) in
  match fdb s !! key with
  | Some e =>
      if e_peer e =? peer then Ok (with_fdb s (<[key := mk_entry (e_peer e) now]> (fdb s)) (entry_count s), true)
      else learn_new s key peer now
  | None => learn_new s key peer now
  end.

Definition learn_source_at (s : t) (frame : list Z) (peer now : Z) : outcome unit t :=
  match ethernet_addresses frame with
  | Some (vlan, _, source) =>
      if is_unicast source then '(s, _) ← learn_address_at s vlan source peer now; Ok s else Ok s
  | None => Ok s
  end.

(** ** Destinations *)
Definition destination_address_at (s : t) (vlan : VlanStack) (destination : list Z) (now : Z) : outcome unit (t * EthernetDestination) :=
  if negb (is_unicast destination) then Ok (s, Flood)
  else
    match fdb s !! (vlan, destination) with
    | None => Ok (s, Flood)
    | Some e =>
        if since now (last_seen e) <=? age (conf s) then Ok (s, Known (e_peer e))
        else s ← remove_all s [((vlan, destination), e)]; Ok (s, Flood)
    end.
Definition destination_at (s : t) (frame : list Z) (now : Z) : outcome unit (t * option EthernetDestination) :=
  match ethernet_addresses frame with
  | Some (vlan, d, _) => '(s, r) ← destination_address_at s vlan d now; Ok (s, Some r)
  | None => Ok (s, None)
  end.

(** ** Withdrawal *)
Definition retain_peers (s : t) (reachable bridge : Z -> bool) : outcome unit t :=
  let invalid := (max_macs_per_peer (policy (conf s)) =? 0) ||
    existsb (fun x => negb (x.2 =? 0) && negb (bridge x.1)) (map_to_list (per_peer_counts s)) in
  s ← (if invalid then retain s (fun e => bridge (e_peer e)) else Ok s);
  let s := with_ingress s (filter (fun x => reachable x.1 = true) (ingress s)) in
  Ok (with_counts s (filter (fun x => x.2 <> 0) (per_peer_counts s))).
Definition forget_peer (s : t) (peer : Z) : outcome unit t :=
  s ← retain s (fun e => negb (e_peer e =? peer));
  Ok (with_ingress s (delete peer (ingress s))).
Definition clear (s : t) : outcome unit t :=
  s ← retain s (fun _ => false);
  Ok (with_ingress s ∅).

(** ** Batches *)
Record L2SourceBatch : Type := mk_source_batch { sources : list (VlanStack * list Z * Z); b_generation : Z }.
Abbreviation L2DestinationBatch := (list (VlanStack * list Z * EthernetDestination)) (only parsing).
Record L2IngressBatch : Type := mk_ingress_batch { b_sources : L2SourceBatch; b_destinations : L2DestinationBatch }.
Definition empty_batch : L2IngressBatch := mk_ingress_batch (mk_source_batch [] 0) [].

Definition resolve_at (b : L2DestinationBatch) (s : t) (frame : list Z) (now : Z)
    : outcome unit (t * L2DestinationBatch * option EthernetDestination) :=
  match ethernet_addresses frame with
  | None => Ok (s, b, None)
  | Some (vlan, d, _) =>
      match list_find (fun x => x.1 = (vlan, d)) b with
      | Some (_, (_, r)) => Ok (s, b, Some r)
      | None => '(s, r) ← destination_address_at s vlan d now; Ok (s, b ++ [((vlan, d), r)], Some r)
      end
  end.

Definition contains (b : L2SourceBatch) (s : t) (vlan : VlanStack) (source : list Z) (peer : Z) : L2SourceBatch * bool :=
  let b := if generation s =? b_generation b then b else mk_source_batch [] (generation s) in
  (b, bool_decide ((vlan, source, peer) ∈ sources b)).

Definition record_source (b : L2SourceBatch) (vlan : VlanStack) (source : list Z) (peer : Z) : L2SourceBatch :=
  if negb (is_unicast source) then b
  else
    match list_find (fun x => x.1 = (vlan, source)) (sources b) with
    | Some (i, _) => mk_source_batch (<[i := (vlan, source, peer)]> (sources b)) (b_generation b)
    | None => mk_source_batch (sources b ++ [(vlan, source, peer)]) (b_generation b)
    end.

(** ** Admission *)
Definition admit_compact_ingress_at (s : t) (payload : list Z) (peer now : Z) (is_flood : bool) : t * bool :=
  if negb (allows_compact_ip s payload) then (count_policy_drop s, false)
  else if is_flood then allow_ingress_flood_at s (saturating_add 64 (len payload) 14) peer now
  else (s, true).

Definition admit_source_at (s : t) (frame : list Z) (peer now : Z) : outcome unit (t * bool) :=
  r ← permitted_source s frame;
  match r with
  | None => Ok (s, false)
  | Some (vlan, source) => learn_address_at s vlan source peer now
  end.

Definition admit_source_batch_at (s : t) (frame : list Z) (peer now : Z) (b : L2SourceBatch) : outcome unit (t * L2SourceBatch * bool) :=
  if negb (has_policy s) && negb (match ethernet_addresses frame with Some (_, _, src) => is_unicast src | None => false end)
  then Ok (s, b, true)
  else
    r ← permitted_source s frame;
    match r with
    | None => Ok (s, b, false)
    | Some (vlan, source) =>
        let '(b, known) := contains b s vlan source peer in
        if known then Ok (s, b, true)
        else
          '(s, ok) ← learn_address_at s vlan source peer now;
          Ok (s, if ok && (b_generation b =? generation s) then record_source b vlan source peer else b, ok)
    end.

(** a flood of an address that this node saw behind itself a moment ago *)
Definition is_loop (s : t) (vlan : VlanStack) (source : list Z) (local now : Z) : bool :=
  match fdb s !! (vlan, source) with
  | Some e => (e_peer e =? local) && (since now (last_seen e) <? move_hold (policy (conf s)))
  | None => false
  end.

Definition admit_ingress_batch_at (s : t) (frame : list Z) (peer local now : Z) (b : L2IngressBatch) : outcome unit (t * L2IngressBatch * bool) :=
  match ethernet_addresses frame with
  | None => Ok (s, b, false)
  | Some (vlan, _, source) =>
      denied ← (if has_policy s then r ← permitted_source s frame; Ok (bool_decide (r = None)) else Ok false);
      if denied : bool then Ok (count_policy_drop s, b, false)
      else
        let '(bs, learned) := contains (b_sources b) s vlan source peer in
        '(s, bd, r) ← resolve_at (b_destinations b) s frame now;
        r ← unwrap r;
        let is_flood := bool_decide (r = Flood) in
        let b := mk_ingress_batch bs bd in
        if negb learned && is_flood && negb (peer =? local) && is_loop s vlan source local now then Ok (count_loop_drop s, b, false)
        else
          let '(s, allowed) := if is_flood then allow_ingress_flood_at s (len frame) peer now else (s, true) in
          if negb allowed then Ok (s, b, false)
          else if negb learned && is_unicast source then
            '(s, ok) ← learn_address_at s vlan source peer now;
            if ok : bool then
              Ok (s, if b_generation bs =? generation s then mk_ingress_batch (record_source bs vlan source peer) bd else b, true)
            else Ok (count_policy_drop s, b, false)
          else Ok (s, b, true)
  end.
Definition admit_ingress_at (s : t) (frame : list Z) (peer local now : Z) : outcome unit (t * bool) :=
  '(s, _, ok) ← admit_ingress_batch_at s frame peer local now empty_batch;
  Ok (s, ok).
End L2Fabric.
