(* ===== verification/L2FabricProps.v ===== *)
(** * Properties of the Ethernet forwarding database

    The counters of src/lowertier/src/peers/l2_fabric.rs are exact and bounded in every run and
    nothing panics, an address cannot be taken over while it is held, and the policy looks at every
    VLAN tag of a frame. *)
From stdpp Require Import base list gmap numbers sorting fin_maps.
From Stdlib Require Import ZArith Lia.
From S2P Require Import Prelude PacketHeader L2Fabric.

Local Open Scope Z_scope.

Module L2FabricProps.
Import Vlan L2Fabric.

(** ** Entries of a peer *)
Definition owned (m : gmap FdbKey FdbEntry) (p : Z) : nat := size (filter (fun x => e_peer x.2 = p) m).

Lemma owned_insert_new m k e p : m !! k = None -> owned (<[k := e]> m) p = ((if decide (e_peer e = p) then 1 else 0) + owned m p)%nat.
Proof.
  intros Hk. unfold owned. case_decide as Hp.
  - rewrite map_filter_insert_True by done. rewrite map_size_insert_None; [done|]. apply map_lookup_filter_None. by left.
  - rewrite map_filter_insert_False by done. by rewrite delete_id by done.
Qed.
Lemma owned_delete m k e p : m !! k = Some e -> owned m p = ((if decide (e_peer e = p) then 1 else 0) + owned (delete k m) p)%nat.
Proof. intros Hk. rewrite <- (insert_delete_id m k e) at 1 by done. apply owned_insert_new. apply lookup_delete_eq. Qed.
Lemma owned_insert_over m k e e' p : m !! k = Some e ->
  ((if decide (e_peer e = p) then 1 else 0) + owned (<[k := e']> m) p = (if decide (e_peer e' = p) then 1 else 0) + owned m p)%nat.
Proof.
  intros Hk. rewrite <- insert_delete_eq. rewrite owned_insert_new by apply lookup_delete_eq. rewrite (owned_delete m k e p Hk). lia.
Qed.
Lemma owned_size m p : (owned m p <= size m)%nat.
Proof. apply map_size_filter. Qed.
Lemma owned_empty p : owned ∅ p = 0%nat.
Proof. done. Qed.

(** ** The invariant *)
Definition limit (s : t) : Z := max_macs_per_peer (policy (conf s)).
Definition config_ok (c : Config) : Prop :=
  0 <= capacity c < 2 ^ 64 /\ 0 <= max_macs_per_peer (policy c) < 2 ^ 64 /\ 0 <= move_hold (policy c) <= age c.

Record inv (s : t) : Prop := {
  i_config : config_ok (conf s);
  i_count : entry_count s = Z.of_nat (size (fdb s));
  i_capacity : entry_count s <= capacity (conf s);
  i_peers : limit s <> 0 -> forall p, default 0 (per_peer_counts s !! p) = Z.of_nat (owned (fdb s) p) /\ Z.of_nat (owned (fdb s) p) <= limit s;
}.

(** accepted flags, at their unsigned types *)
Definition flags_ok (f : Flags) : Prop :=
  l2_flags_valid f = true /\ 0 <= l2_max_macs_per_peer f /\ 0 <= l2_mac_move_hold_seconds f.
Lemma flags_config f now : flags_ok f -> config_ok (conf (from_flags f now)).
Proof.
  intros (Hv & H1 & H2). unfold l2_flags_valid in Hv. rewrite !andb_true_iff, !negb_true_iff in Hv. destruct Hv as [[[[[[[A B] C] D] E] F] _] _].
  apply Z.leb_le in A, B, C, D. apply Z.ltb_ge in E, F. unfold config_ok, second. cbn. unfold second. lia.
Qed.

Lemma inv_new cap ag rate p bridge now : config_ok (mk_config cap ag rate p bridge) -> inv (with_policy cap ag rate p bridge now).
Proof.
  intros Hc. split; [done|done|destruct Hc as (Hc & _); cbn in *; lia|]. intros _ q. cbn. rewrite lookup_empty. split; [done|].
  destruct Hc as (_ & Hc & _). unfold limit. cbn in *. rewrite owned_empty. lia.
Qed.
Lemma inv_flags f now : flags_ok f -> inv (from_flags f now).
Proof. intros Hf. apply inv_new. by apply (flags_config f now). Qed.

(** the parts of the state that no entry depends on *)
Definition same_table (s s' : t) : Prop :=
  conf s' = conf s /\ fdb s' = fdb s /\ entry_count s' = entry_count s /\ per_peer_counts s' = per_peer_counts s.
Lemma inv_same s s' : inv s -> same_table s s' -> inv s'.
Proof. intros [H1 H2 H3 H4] (E1 & E2 & E3 & E4). split; unfold limit in *; rewrite ?E1, ?E2, ?E3, ?E4; done. Qed.

(** ** Removal *)
Lemma release_ok s p : (limit s <> 0 -> exists c, per_peer_counts s !! p = Some c /\ 1 <= c < 2 ^ 64) ->
  exists s', release_peer_entry s p = Ok s' /\ conf s' = conf s /\ fdb s' = fdb s /\ entry_count s' = entry_count s /\
    ingress s' = ingress s /\ next_expiry s' = next_expiry s /\ generation s' = wrap 64 (generation s + 1) /\
    (limit s <> 0 -> forall q, default 0 (per_peer_counts s' !! q) = default 0 (per_peer_counts s !! q) - if decide (q = p) then 1 else 0).
Proof.
  intros Hc. unfold release_peer_entry. cbn [with_generation conf per_peer_counts]. fold (limit s).
  destruct (limit s =? 0) eqn:El; bool_to_Z.
  - eexists. split; [done|]. split_and!; done.
  - destruct (Hc El) as (c & Hl & Hr). rewrite Hl. cbn [unwrap mbind outcome_bind]. eexists. split; [done|]. split_and!; try done.
    intros _ q. cbn [with_counts per_peer_counts]. rewrite wrap_small by (unfold is_u; lia). destruct (decide (q = p)) as [->|Hne].
    + rewrite lookup_insert_eq, Hl. done.
    + rewrite lookup_insert_ne by done. cbn. lia.
Qed.

Lemma owner_counter s k e : inv s -> fdb s !! k = Some e -> limit s <> 0 -> exists c, per_peer_counts s !! e_peer e = Some c /\ 1 <= c < 2 ^ 64.
Proof.
  intros [(_ & Hm & _) _ _ Hp] Hk Hl. destruct (Hp Hl (e_peer e)) as [Hd Hle]. pose proof (owned_delete (fdb s) k e (e_peer e) Hk) as Ho.
  rewrite decide_True in Ho by done. destruct (per_peer_counts s !! e_peer e) as [c|]; cbn in Hd; [|lia].
  exists c. split; [done|]. unfold limit in *. lia.
Qed.

Lemma remove_one s k e : inv s -> fdb s !! k = Some e -> exists s1, release_peer_entry s (e_peer e) = Ok s1 /\
  let s2 := with_fdb s1 (delete k (fdb s1)) (wrap 64 (entry_count s1 - 1)) in
  inv s2 /\ conf s2 = conf s /\ fdb s2 = delete k (fdb s) /\ ingress s2 = ingress s /\ generation s2 = wrap 64 (generation s + 1).
Proof.
  intros Hi Hk. destruct (release_ok s (e_peer e)) as (s1 & Hr & E1 & E2 & E3 & E4 & _ & E6 & E7); [by eapply owner_counter|].
  exists s1. split; [done|]. cbv zeta. destruct Hi as [H1 H2 H3 H4].
  assert (size (delete k (fdb s)) = (size (fdb s) - 1)%nat /\ (1 <= size (fdb s))%nat) as [Hs Hs1].
  { rewrite map_size_delete_Some by eauto. split; [lia|]. assert (size (fdb s) <> 0%nat); [|lia]. intros Hz. apply map_size_empty_iff in Hz. rewrite Hz, lookup_empty in Hk. done. }
  assert (wrap 64 (entry_count s1 - 1) = entry_count s - 1) as Hw.
  { rewrite E3. apply wrap_small. unfold is_u. destruct H1 as (Hcap & _). lia. }
  split; [|split_and!; try done; cbn [with_fdb fdb]; by rewrite E2]. split; cbn [with_fdb conf fdb entry_count per_peer_counts].
  - by rewrite E1.
  - rewrite Hw, E2, Hs. lia.
  - rewrite Hw, E1. lia.
  - unfold limit. cbn [with_fdb conf]. rewrite E1. intros Hl p. rewrite E7 by done. destruct (H4 Hl p) as [H5 H6]. rewrite H5, E2.
    rewrite (owned_delete _ _ _ p Hk) in *. unfold limit in *. destruct (decide (p = e_peer e)) as [->|Hne]; [rewrite decide_True in * by done; lia|].
    rewrite decide_False in * by congruence. lia.
Qed.

Lemma remove_all_spec l : forall s, inv s -> NoDup l.*1 -> (forall k e, (k, e) ∈ l -> fdb s !! k = Some e) ->
  exists s', remove_all s l = Ok s' /\ inv s' /\ conf s' = conf s /\ ingress s' = ingress s /\
    forall k, fdb s' !! k = if decide (k ∈ l.*1) then None else fdb s !! k.
Proof.
  induction l as [|[k e] l IH]; intros s Hi Hnd Hl; cbn [remove_all fmap list_fmap fst] in *.
  { exists s. split_and!; try done. }
  apply NoDup_cons in Hnd as [Hnin Hnd]. destruct (remove_one s k e Hi (Hl k e ltac:(by left))) as (s1 & -> & Hi2 & Ec & Ef & Eg & _). cbn [mbind outcome_bind].
  set (s2 := with_fdb _ _ _) in *. destruct (IH s2 Hi2 Hnd) as (s' & -> & Hi' & Ec' & Eg' & Ef').
  { intros k' e' Hin. rewrite Ef. rewrite lookup_delete_ne; [apply Hl; by right|]. intros ->. apply Hnin. apply list_elem_of_fmap. by exists (k', e'). }
  exists s'. split; [done|]. split; [done|]. split; [congruence|]. split; [congruence|]. intros k'. rewrite Ef', Ef.
  destruct (decide (k' ∈ l.*1)) as [Hin|Hin].
  - by rewrite decide_True by (by right).
  - destruct (decide (k = k')) as [<-|Hne]; [rewrite decide_True by (by left); by rewrite lookup_delete_eq|].
    rewrite lookup_delete_ne by done. rewrite decide_False; [done|]. intros [?|?]%elem_of_cons; [congruence|done].
Qed.

Lemma retain_spec s keep : inv s -> exists s', retain s keep = Ok s' /\ inv s' /\ conf s' = conf s /\ ingress s' = ingress s /\
  forall k, fdb s' !! k = match fdb s !! k with Some e => if keep e then Some e else None | None => None end.
Proof.
  intros Hi. unfold retain. destruct (remove_all_spec (filter (fun x => keep x.2 = false) (map_to_list (fdb s))) s Hi) as (s' & -> & Hi' & Ec & Eg & Ef).
  - apply (NoDup_fmap_fst); [|apply NoDup_filter, NoDup_map_to_list].
    intros k e1 e2 [_ H1]%list_elem_of_filter [_ H2]%list_elem_of_filter. apply elem_of_map_to_list in H1, H2. congruence.
  - intros k e [_ Hin]%list_elem_of_filter. by apply elem_of_map_to_list.
  - exists s'. split_and!; try done. intros k. rewrite Ef. destruct (fdb s !! k) as [e|] eqn:E; [|by destruct (decide _)].
    case_decide as Hin.
    + apply list_elem_of_fmap in Hin as ([k' e'] & -> & [Hke Hin]%list_elem_of_filter). apply elem_of_map_to_list in Hin. cbn in *. simplify_eq. by rewrite Hke.
    + destruct (keep e) eqn:Ek; [done|]. destruct Hin. apply list_elem_of_fmap. exists (k, e). split; [done|]. apply list_elem_of_filter. split; [done|]. by apply elem_of_map_to_list.
Qed.

(** ** Learning *)
Definition fresh (s : t) (now : Z) (e : FdbEntry) : Prop := since now (last_seen e) <= age (conf s).

Lemma reclaim_spec s now : inv s -> exists s', reclaim_expired_at s now = Ok s' /\ inv s' /\ conf s' = conf s /\ ingress s' = ingress s /\
  (forall k e, fdb s' !! k = Some e -> fdb s !! k = Some e) /\ (forall k e, fdb s !! k = Some e -> fresh s now e -> fdb s' !! k = Some e).
Proof.
  intros Hi. unfold reclaim_expired_at. destruct (now <? next_expiry s); [exists s; split_and!; done|].
  destruct (retain_spec (with_next_expiry s (now + Z.min (age (conf s)) second)) (fun e => since now (last_seen e) <=? age (conf s))) as (s' & -> & Hi' & Ec & Eg & Ef).
  { by apply (inv_same s). }
  exists s'. split; [done|]. split; [done|]. split; [done|]. split; [done|]. cbn [with_next_expiry fdb] in Ef. split.
  - intros k e He. rewrite Ef in He. destruct (fdb s !! k) as [e'|]; [|done]. destruct (_ <=? _); congruence.
  - intros k e He Hf. rewrite Ef, He. unfold fresh in Hf. by rewrite (proj2 (Z.leb_le _ _)).
Qed.

Lemma reserve_peer_spec s p : match try_reserve_peer s p with
  | Some s' => conf s' = conf s /\ fdb s' = fdb s /\ entry_count s' = entry_count s /\ ingress s' = ingress s /\ generation s' = generation s /\
      (limit s <> 0 -> default 0 (per_peer_counts s !! p) < limit s /\ is_Some (per_peer_counts s' !! p) /\
       forall q, default 0 (per_peer_counts s' !! q) = default 0 (per_peer_counts s !! q) + if decide (q = p) then 1 else 0)
  | None => limit s <> 0 /\ limit s <= default 0 (per_peer_counts s !! p)
  end.
Proof.
  unfold try_reserve_peer. fold (limit s). destruct (limit s =? 0) eqn:El; bool_to_Z; [done|].
  destruct (default 0 (per_peer_counts s !! p) <? limit s) eqn:Ec; bool_to_Z; [|done].
  split_and!; try done. intros _. cbn [with_counts per_peer_counts]. split; [done|]. split; [by rewrite lookup_insert_eq|].
  intros q. destruct (decide (q = p)) as [->|Hne]; [by rewrite lookup_insert_eq|]. rewrite lookup_insert_ne by done. lia.
Qed.

(** what learning [key] for [peer] may do *)
Record learned (s : t) (key : FdbKey) (peer now : Z) (s' : t) (ok : bool) : Prop := {
  l_inv : inv s';
  l_conf : conf s' = conf s;
  l_ingress : ingress s' = ingress s;
  l_others : forall k e, k <> key -> fdb s !! k = Some e -> fresh s now e -> fdb s' !! k = Some e;
  l_new : forall k e, fdb s' !! k = Some e -> fdb s !! k = Some e \/ (k = key /\ ok = true /\ e = mk_entry peer now);
  l_ok : ok = true -> fdb s' !! key = Some (mk_entry peer now) \/ (limit s = 0 /\ move_hold (policy (conf s)) = 0);
  l_held : forall e, fdb s !! key = Some e -> e_peer e <> peer -> since now (last_seen e) < move_hold (policy (conf s)) ->
    ok = false /\ fdb s' !! key = Some e;
}.

Lemma learned_from s s1 key peer now s' ok : learned s1 key peer now s' ok -> inv s -> conf s1 = conf s -> ingress s1 = ingress s ->
  (forall k e, fdb s1 !! k = Some e -> fdb s !! k = Some e) -> (forall k e, fdb s !! k = Some e -> fresh s now e -> fdb s1 !! k = Some e) ->
  learned s key peer now s' ok.
Proof.
  intros [L1 L2 L3 L4 L5 L6 L7] Hi Ec Eg E1 E2. unfold fresh, limit in *. rewrite Ec in *. split; try done.
  - congruence.
  - intros k e Hk He Hf. apply (L4 k e); [done|by apply E2|done].
  - intros k e He. destruct (L5 k e He) as [?|?]; [left; by apply E1|by right].
  - intros e He Hp Hh. apply (L7 e); [|done|done]. apply E2; [done|]. destruct (i_config s Hi) as (_ & _ & ?). lia.
Qed.

Lemma refresh_inv s key e now : inv s -> fdb s !! key = Some e -> inv (with_fdb s (<[key := mk_entry (e_peer e) now]> (fdb s)) (entry_count s)).
Proof.
  intros [H1 H2 H3 H4] Hk. split; cbn [with_fdb conf fdb entry_count per_peer_counts limit]; [done| |done|].
  - rewrite map_size_insert_Some by eauto. done.
  - intros Hl p. destruct (H4 Hl p) as [H5 H6]. pose proof (owned_insert_over (fdb s) key e (mk_entry (e_peer e) now) p Hk) as Ho. cbn [e_peer] in Ho.
    replace (owned (<[key := mk_entry (e_peer e) now]> (fdb s)) p) with (owned (fdb s) p) by lia. done.
Qed.

Lemma refresh_learned s key e peer now : inv s -> fdb s !! key = Some e -> e_peer e = peer ->
  learned s key peer now (with_fdb s (<[key := mk_entry (e_peer e) now]> (fdb s)) (entry_count s)) true.
Proof.
  intros Hi Hk <-. split; cbn [with_fdb conf fdb ingress]; try done.
  - by apply refresh_inv.
  - intros k e' Hne He _. by rewrite lookup_insert_ne.
  - intros k e'. destruct (decide (k = key)) as [->|]; [rewrite lookup_insert_eq; intros [= <-]; by right|rewrite lookup_insert_ne by done; by left].
  - intros _. left. by rewrite lookup_insert_eq.
  - intros e' He Hp. congruence.
Qed.

Lemma keep_learned s key peer now : inv s -> learned s key peer now s false.
Proof. intros Hi. split; try done. intros k e ?. by left. Qed.

Lemma occupied_spec s key e peer now : inv s -> fdb s !! key = Some e ->
  exists s' ok, occupied s key e peer now = Ok (s', ok) /\ learned s key peer now s' ok.
Proof.
  intros Hi Hk. unfold occupied. destruct (e_peer e =? peer) eqn:Ep; bool_to_Z; [eexists _, _; split; [done|by apply refresh_learned]|].
  destruct (since now (last_seen e) <? move_hold (policy (conf s))) eqn:Eh; bool_to_Z; [eexists _, _; split; [done|by apply keep_learned]|].
  pose proof (reserve_peer_spec s peer) as Hr. destruct (try_reserve_peer s peer) as [s1|]; [|eexists _, _; split; [done|by apply keep_learned]].
  destruct Hr as (C1 & F1 & N1 & G1 & _ & R1). assert (limit s1 = limit s) as El by (unfold limit; by rewrite C1).
  pose proof (owner_counter s key e Hi Hk) as Ho. destruct Hi as [H1 H2 H3 H4].
  destruct (release_ok s1 (e_peer e)) as (s2 & -> & C2 & F2 & N2 & G2 & _ & _ & R2).
  { rewrite El. intros Hl. destruct (Ho Hl) as (c & Hc & Hcr). destruct (R1 Hl) as (_ & _ & Hq). specialize (Hq (e_peer e)).
    rewrite Hc, decide_False in Hq by congruence. cbn in Hq. destruct (per_peer_counts s1 !! e_peer e) as [c'|]; cbn in Hq; [|lia]. exists c'. split; [done|lia]. }
  cbn [mbind outcome_bind]. eexists _, _. split; [done|]. split; cbn [with_fdb conf fdb ingress entry_count]; try congruence.
  - split; cbn [with_fdb conf fdb entry_count per_peer_counts].
    + congruence.
    + rewrite F2, F1, N2, N1, map_size_insert_Some by eauto. done.
    + rewrite N2, N1, C2, C1. done.
    + unfold limit. cbn [with_fdb conf]. rewrite C2, C1. intros Hl p. rewrite R2 by (by rewrite El). destruct (R1 Hl) as (Hlt & _ & Hq). rewrite Hq, F2, F1.
      destruct (H4 Hl p) as [H5 H6]. destruct (H4 Hl peer) as [H7 _]. pose proof (owned_insert_over (fdb s) key e (mk_entry peer now) p Hk) as Hov. cbn [e_peer] in Hov.
      unfold limit in *. destruct (decide (p = peer)) as [->|Hne]; [rewrite (decide_True _ _ (eq_refl peer)) in Hov|rewrite (decide_False (P := peer = p)) in Hov by congruence].
      * rewrite (decide_False (P := e_peer e = peer)) in Hov by done. rewrite (decide_False (P := peer = e_peer e)) by congruence. lia.
      * destruct (decide (p = e_peer e)) as [->|]; [rewrite (decide_True _ _ eq_refl) in Hov; lia|rewrite (decide_False (P := e_peer e = p)) in Hov by congruence; lia].
  - intros k e' Hne He _. rewrite lookup_insert_ne by done. by rewrite F2, F1.
  - intros k e'. destruct (decide (k = key)) as [->|]; [rewrite lookup_insert_eq; intros [= <-]; by right|rewrite lookup_insert_ne by done; rewrite F2, F1; by left].
  - intros _. left. by rewrite lookup_insert_eq.
  - intros e' He Hp Hh. rewrite Hk in He. injection He as <-. lia.
Qed.

Lemma vacant_spec s key peer now : inv s -> fdb s !! key = None ->
  exists s' ok, vacant s key peer now = Ok (s', ok) /\ learned s key peer now s' ok.
Proof.
  intros Hi Hk. unfold vacant. pose proof (reserve_peer_spec s peer) as Hr.
  destruct (try_reserve_peer s peer) as [s1|]; [|eexists _, _; split; [done|by apply keep_learned]].
  destruct Hr as (C1 & F1 & N1 & G1 & _ & R1). pose proof Hi as [H1 H2 H3 H4]. fold (limit s). destruct (entry_count s1 <? capacity (conf s1)) eqn:Ec; bool_to_Z.
  - eexists _, _. split; [done|]. split; cbn [with_generation with_fdb conf fdb ingress]; try congruence.
    + split; cbn [with_generation with_fdb conf fdb entry_count per_peer_counts].
      * congruence.
      * rewrite F1, map_size_insert_None by done. lia.
      * rewrite N1, C1 in *. lia.
      * unfold limit. cbn [with_generation with_fdb conf]. rewrite C1. intros Hl p. destruct (R1 Hl) as (Hlt & _ & Hq). rewrite Hq, F1.
        rewrite owned_insert_new by done. cbn [e_peer]. destruct (H4 Hl p) as [H5 H6]. unfold limit in *.
        destruct (decide (p = peer)) as [->|]; [rewrite decide_True by done; lia|rewrite decide_False by congruence; lia].
    + intros k e' Hne He _. rewrite lookup_insert_ne by done. by rewrite F1.
    + intros k e'. destruct (decide (k = key)) as [->|]; [rewrite lookup_insert_eq; intros [= <-]; by right|rewrite lookup_insert_ne by done; rewrite F1; by left].
    + intros _. left. by rewrite lookup_insert_eq.
  - assert (forall c ok, (limit s <> 0 -> forall p, default 0 (c !! p) = default 0 (per_peer_counts s !! p)) ->
      (ok = true -> limit s = 0 /\ move_hold (policy (conf s)) = 0) -> learned s key peer now (with_counts s1 c) ok) as Hl.
    { intros c ok Hc Hok. split; cbn [with_counts conf fdb ingress]; try congruence.
      - split; cbn [with_counts conf fdb entry_count per_peer_counts]; rewrite ?F1, ?N1, ?C1; try done. unfold limit. cbn [with_counts conf]. rewrite C1.
        intros Hl p. rewrite Hc by done. by apply H4.
      - intros k e. rewrite F1. by left.
      - intros ?. by right; apply Hok. }
    unfold limit in *. destruct (max_macs_per_peer (policy (conf s)) =? 0) eqn:El; bool_to_Z; cbn [mbind outcome_bind andb].
    + eexists _, _. split; [done|]. apply Hl; [done|]. intros Ho. bool_to_Z. done.
    + destruct (R1 El) as (Hlt & [c Hc] & Hq). rewrite Hc. cbn [unwrap mbind outcome_bind]. eexists _, _. split; [done|]. apply Hl; [|done].
      intros _ p. pose proof (Hq peer) as Hqp. rewrite Hc, decide_True in Hqp by done. cbn in Hqp. destruct (H4 El peer) as [H7 _].
      destruct (decide (p = peer)) as [->|Hne].
      * rewrite lookup_insert_eq. cbn. rewrite wrap_small; [lia|]. destruct H1 as (_ & ? & _). unfold is_u. lia.
      * rewrite lookup_insert_ne, Hq, decide_False by done. lia.
Qed.

Lemma learn_spec s vlan source peer now : inv s -> exists s' ok, learn_address_at s vlan source peer now = Ok (s', ok) /\ learned s (vlan, source) peer now s' ok.
Proof.
  intros Hi. assert (exists s' ok, learn_new s (vlan, source) peer now = Ok (s', ok) /\ learned s (vlan, source) peer now s' ok) as Hn.
  { unfold learn_new. set (b := _ || _). assert (exists s1, (if b then reclaim_expired_at s now else Ok s) = Ok s1 /\ inv s1 /\ conf s1 = conf s /\ ingress s1 = ingress s /\
      (forall k e, fdb s1 !! k = Some e -> fdb s !! k = Some e) /\ (forall k e, fdb s !! k = Some e -> fresh s now e -> fdb s1 !! k = Some e)) as (s1 & -> & Hi1 & E1 & E2 & E3 & E4).
    { destruct b; [by apply reclaim_spec|]. exists s. split_and!; done. }
    cbn [mbind outcome_bind]. destruct (fdb s1 !! (vlan, source)) as [e|] eqn:E.
    - destruct (occupied_spec s1 (vlan, source) e peer now Hi1 E) as (s' & ok & -> & Hl). exists s', ok. split; [done|]. by apply (learned_from s s1).
    - destruct (vacant_spec s1 (vlan, source) peer now Hi1 E) as (s' & ok & -> & Hl). exists s', ok. split; [done|]. by apply (learned_from s s1). }
  unfold learn_address_at. destruct (fdb s !! (vlan, source)) as [e|] eqn:E; [|done]. destruct (e_peer e =? peer) eqn:Ep; [|done]. bool_to_Z.
  eexists _, _. split; [done|]. by apply refresh_learned.
Qed.

(** ** Steps *)
(** What one step at [now] guarantees: the invariant, the configuration, and every held entry of a
    peer that the step does not withdraw. *)
Record evolves (s : t) (stays : Z -> Prop) (now : Z) (s' : t) : Prop := {
  v_inv : inv s';
  v_conf : conf s' = conf s;
  v_held : forall k e, fdb s !! k = Some e -> stays (e_peer e) -> since now (last_seen e) < move_hold (policy (conf s)) ->
    exists e', fdb s' !! k = Some e' /\ e_peer e' = e_peer e /\ (e' = e \/ last_seen e' = now);
}.

Lemma evolves_same s stays now s' : inv s -> same_table s s' -> evolves s stays now s'.
Proof.
  intros Hi Hs. pose proof (inv_same s s' Hi Hs). destruct Hs as (E1 & E2 & _). split; [done|done|]. intros k e He _ _. exists e. rewrite E2. by split; [|split; [|left]].
Qed.

Lemma evolves_trans s stays now s1 s2 : evolves s stays now s1 -> evolves s1 stays now s2 -> evolves s stays now s2.
Proof.
  intros [A1 A2 A3] [B1 B2 B3]. split; [done|congruence|]. intros k e He Hp Hh. destruct (A3 k e He Hp Hh) as (e1 & He1 & Hp1 & Hs1).
  destruct (B3 k e1 He1) as (e2 & He2 & Hp2 & Hs2); [by rewrite Hp1| |].
  - rewrite A2. destruct Hs1 as [->|Hs1]; [done|]. unfold since, saturating_sub in *. rewrite Hs1. lia.
  - exists e2. split; [done|]. split; [congruence|]. destruct Hs2 as [->|?]; [|by right]. by destruct Hs1; [left|right].
Qed.

Lemma held_fresh s now e : inv s -> since now (last_seen e) < move_hold (policy (conf s)) -> fresh s now e.
Proof. intros [(_ & _ & H) _ _ _]. unfold fresh. lia. Qed.

Lemma learn_evolves s stays vlan source peer now : inv s ->
  exists s' ok, learn_address_at s vlan source peer now = Ok (s', ok) /\ evolves s stays now s'.
Proof.
  intros Hi. destruct (learn_spec s vlan source peer now Hi) as (s' & ok & E & [L1 L2 L3 L4 L5 L6 L7]). exists s', ok. split; [done|]. split; [done|done|].
  intros k e He _ Hh. destruct (decide (k = (vlan, source))) as [->|Hne].
  - destruct (decide (e_peer e = peer)) as [Ep|Ep].
    + unfold learn_address_at in E. rewrite He, (proj2 (Z.eqb_eq _ _) Ep) in E. injection E as <- <-. cbn [with_fdb fdb]. rewrite lookup_insert_eq. eexists. split; [done|]. by split; [|right].
    + destruct (L7 e He Ep Hh) as [_ H]. exists e. by split; [|split; [|left]].
  - exists e. split; [|by split; [|left]]. apply L4; [done|done|by apply held_fresh].
Qed.

Lemma retain_evolves s (stays : Z -> Prop) now keep : inv s -> (forall e, stays (e_peer e) -> since now (last_seen e) < move_hold (policy (conf s)) -> keep e = true) ->
  exists s', retain s keep = Ok s' /\ ingress s' = ingress s /\ evolves s stays now s'.
Proof.
  intros Hi Hk. destruct (retain_spec s keep Hi) as (s' & E & Hi' & Ec & Eg & Ef). exists s'. split; [done|]. split; [done|]. split; [done|done|].
  intros k e He Hp Hh. exists e. rewrite Ef, He, Hk by done. by split; [|split; [|left]].
Qed.

Lemma destination_evolves s stays vlan d now : inv s ->
  exists s' r, destination_address_at s vlan d now = Ok (s', r) /\ evolves s stays now s'.
Proof.
  intros Hi. unfold destination_address_at. assert (evolves s stays now s) as Hs by by apply evolves_same.
  destruct (is_unicast d); cbn [negb]; [|by eexists _, _]. destruct (fdb s !! (vlan, d)) as [e|] eqn:E; [|by eexists _, _].
  destruct (since now (last_seen e) <=? age (conf s)) eqn:Ea; [by eexists _, _|]. bool_to_Z.
  destruct (remove_all_spec [((vlan, d), e)] s Hi) as (s' & -> & Hi' & Ec & Eg & Ef).
  { apply NoDup_singleton. }
  { intros k e' [= -> ->]%list_elem_of_singleton. done. }
  cbn [mbind outcome_bind]. eexists _, _. split; [done|]. split; [done|done|].
  intros k e' He _ Hh. exists e'. split; [|by split; [|left]]. rewrite Ef. cbn [fmap list_fmap fst].
  destruct (decide (k = (vlan, d))) as [->|Hne].
  - rewrite E in He. injection He as <-. apply held_fresh in Hh; [|done]. unfold fresh in Hh. lia.
  - by rewrite decide_False by set_solver.
Qed.

(** ** The policy *)
Lemma get_range_inside {A} (l r : list A) a b i j : get_range l a b = Some r -> (i <= j /\ j <= b - a)%nat ->
  get_range l (a + i) (a + j) = Some (take (j - i) (drop i r)).
Proof.
  intros [H ->]%get_range_Some Hi. apply get_range_Some. split; [lia|]. rewrite skipn_firstn_comm, drop_drop, take_take.
  f_equal; lia.
Qed.

(** the second walk over the tags finds what the first one put on the stack *)
Lemma tags_allowed_stack allowed frame : forall slots x o v m fuel tagged,
  get_range frame o (o + 2) = Some x -> vlan_loop slots frame (of_be x) (o + 2) v = Some m -> stack_wf v -> (slots < fuel)%nat ->
  exists l, as_slice (vlan_stack m) = as_slice v ++ l /\
    tags_allowed fuel allowed frame o tagged = Ok (if forallb (fun i => found i allowed) l then Some (tagged || negb (bool_decide (l = []))) else None).
Proof.
  induction slots as [|slots IH]; intros x o v m fuel tagged Hx Hm Hv Hf; (destruct fuel as [|fuel]; [lia|]);
    cbn [vlan_loop tags_allowed] in *; rewrite Hx; cbn [unwrap mbind outcome_bind];
    (destruct (is_vlan_type (of_be x)) eqn:Et; [|injection Hm as <-; exists []; rewrite app_nil_r; cbn; by rewrite orb_false_r]).
  - done.
  - destruct (get_range frame (o + 2) (o + 2 + 4)) as [tag|] eqn:Eg; [|done]. cbn [mbind option_bind] in Hm.
    pose proof (get_range_inside frame tag _ _ 0 2 Eg ltac:(lia)) as G1. pose proof (get_range_inside frame tag _ _ 2 4 Eg ltac:(lia)) as G2.
    rewrite drop_0 in G1. replace (o + 2 + 0)%nat with (o + 2)%nat in G1 by lia. replace (o + 2 + 2)%nat with (o + 4)%nat in * by lia. replace (o + 2 + 4)%nat with (o + 4 + 2)%nat in * by lia.
    cbn [Nat.sub] in G1, G2. rewrite G1. cbn [unwrap mbind outcome_bind].
    destruct (decide (stack_len v < 4)%nat) as [Hlt|]; [|rewrite push_full in Hm by (try done; destruct Hv; lia); done].
    destruct (push_wf v (Z.land (of_be (take 2 tag)) 0x0fff) Hv Hlt) as (v' & Ep & Hv' & _ & Es). rewrite Ep in Hm. cbn [mbind option_bind] in Hm.
    destruct (IH _ (o + 4)%nat v' m fuel true G2 Hm Hv' ltac:(lia)) as (l & El & Ht).
    exists (Z.land (of_be (take 2 tag)) 0x0fff :: l). split; [rewrite El, Es, <- app_assoc; done|]. cbn [forallb].
    destruct (found _ allowed) eqn:Ea; cbn [andb]; [|done]. rewrite Ht. rewrite (bool_decide_eq_false_2 (_ :: l = [])) by done. cbn [negb orb]. by rewrite orb_true_r.
Qed.

(** the policy as a specification over the parsed frame *)
Definition vlans_permitted (allowed vlans : list Z) : bool :=
  bool_decide (allowed = []) || (if bool_decide (vlans = []) then found 0 allowed else forallb (fun i => found i allowed) vlans).

Lemma permitted_spec s frame : permitted_source s frame = Ok (
  m ← ethernet_network_metadata frame;
  if allows (allowed_ether_types (policy (conf s))) (ether_type m) && vlans_permitted (allowed_vlans (policy (conf s))) (as_slice (vlan_stack m)) &&
     is_unicast (take 6 (drop 6 frame))
  then Some (vlan_stack m, take 6 (drop 6 frame)) else None).
Proof.
  unfold permitted_source. destruct (ethernet_network_metadata frame) as [m|] eqn:Em; [|done]. cbn [mbind option_bind].
  destruct (allows _ (ether_type m)); cbn [negb andb]; [|done].
  unfold ethernet_network_metadata in Em. destruct (get_range frame 12 14) as [ty|] eqn:Et; [|done]. cbn [mbind option_bind] in Em.
  pose proof (proj1 (get_range_Some _ _ _ _) Et) as [Hlen _].
  destruct (tags_allowed_stack (allowed_vlans (policy (conf s))) frame 5 ty 12 empty_stack m (length frame) false Et Em) as (l & El & Ht); [split; cbn; lia|lia|].
  assert (get_range frame 6 12 = Some (take 6 (drop 6 frame))) as Hs by (apply get_range_Some; split; [lia|done]).
  change (as_slice empty_stack) with (@nil Z) in El. cbn [app] in El. rewrite El, Ht, Hs. unfold vlans_permitted.
  destruct (bool_decide (allowed_vlans _ = [])); cbn [mbind outcome_bind negb orb unwrap]; [by destruct (is_unicast _)|].
  destruct l as [|i l]; cbn [forallb mbind outcome_bind].
  - cbn [bool_decide]. cbn. destruct (found 0 _); cbn; [by destruct (is_unicast _)|done].
  - rewrite (bool_decide_eq_false_2 (i :: l = [])) by done. destruct (found i _ && _); cbn; [by destruct (is_unicast _)|done].
Qed.

(** ** Admission *)
Lemma flood_same s bytes peer now : same_table s (allow_ingress_flood_at s bytes peer now).1.
Proof. unfold allow_ingress_flood_at. destruct (_ =? 0); [done|]. destruct (consume_at _ _ _ _) as [b []]; done. Qed.
Lemma replicated_same s n recipients now : same_table s (allow_flood_replicated s n recipients now).1.
Proof.
  unfold allow_flood_replicated, allow_flood_output_bytes, allow_flood_at. destruct (_ <=? _); [|done]. destruct (_ =? 0); [done|].
  destruct (consume_at _ _ _ _) as [b []]; done.
Qed.
Lemma compact_same s payload peer now is_flood : same_table s (admit_compact_ingress_at s payload peer now is_flood).1.
Proof. unfold admit_compact_ingress_at. destruct (allows_compact_ip _ _); [|done]. cbn [negb]. destruct is_flood; [apply flood_same|done]. Qed.

Lemma resolve_evolves b s stays frame now : inv s ->
  exists s' b' r, resolve_at b s frame now = Ok (s', b', r) /\ evolves s stays now s' /\ (is_Some (ethernet_addresses frame) -> is_Some r).
Proof.
  intros Hi. unfold resolve_at. assert (evolves s stays now s) as Hs by by apply evolves_same.
  destruct (ethernet_addresses frame) as [[[vlan d] src]|]; [|eexists _, _, _; split; [done|]; split; [done|by intros [? [=]]]].
  destruct (list_find _ b) as [[i [? r]]|]; [by eexists _, _, _|].
  destruct (destination_evolves s stays vlan d now Hi) as (s' & r & -> & He). by eexists _, _, _.
Qed.

Lemma admit_source_evolves s stays frame peer now : inv s ->
  exists s' ok, admit_source_at s frame peer now = Ok (s', ok) /\ evolves s stays now s'.
Proof.
  intros Hi. unfold admit_source_at. rewrite permitted_spec. cbn [mbind outcome_bind]. destruct (_ ≫= _) as [[vlan source]|].
  - by apply learn_evolves.
  - eexists _, _. split; [done|]. by apply evolves_same.
Qed.

Lemma admit_source_batch_evolves s stays frame peer now b : inv s ->
  exists s' b' ok, admit_source_batch_at s frame peer now b = Ok (s', b', ok) /\ evolves s stays now s'.
Proof.
  intros Hi. unfold admit_source_batch_at. assert (evolves s stays now s) as Hs by by apply evolves_same.
  destruct (_ && _); [by eexists _, _, _|]. rewrite permitted_spec. cbn [mbind outcome_bind]. destruct (_ ≫= _) as [[vlan source]|]; [|by eexists _, _, _].
  destruct (contains _ _ _ _ _) as [b' []]; [by eexists _, _, _|]. destruct (learn_evolves s stays vlan source peer now Hi) as (s' & ok & -> & He).
  cbn [mbind outcome_bind]. by eexists _, _, _.
Qed.

Lemma evolves_after s stays now s1 s2 : evolves s stays now s1 -> same_table s1 s2 -> evolves s stays now s2.
Proof. intros H Hs. eapply evolves_trans; [exact H|]. apply evolves_same; [apply H|done]. Qed.

Lemma admit_ingress_evolves s stays frame peer local now b : inv s ->
  exists s' b' ok, admit_ingress_batch_at s frame peer local now b = Ok (s', b', ok) /\ evolves s stays now s'.
Proof.
  intros Hi. unfold admit_ingress_batch_at. assert (evolves s stays now s) as Hs by by apply evolves_same.
  destruct (ethernet_addresses frame) as [[[vlan d] src]|] eqn:Ea; [|by eexists _, _, _].
  assert (exists denied, (if has_policy s then r ← permitted_source s frame; Ok (bool_decide (r = None)) else Ok false) = @Ok unit bool denied) as (denied & ->).
  { destruct (has_policy s); [rewrite permitted_spec|]; by eexists. }
  cbn [mbind outcome_bind]. destruct denied; [eexists _, _, _; split; [done|by apply (evolves_after _ _ _ s)]|].
  destruct (contains _ _ _ _ _) as [bs lrn]. destruct (resolve_evolves (b_destinations b) s stays frame now Hi) as (s1 & bd & r & -> & He1 & [r' ->]); [by rewrite Ea|].
  cbn [mbind outcome_bind unwrap]. destruct (negb lrn && _ && _ && _); [eexists _, _, _; split; [done|by apply (evolves_after _ _ _ s1)]|].
  assert (same_table s1 (if bool_decide (r' = Flood) then allow_ingress_flood_at s1 (len frame) peer now else (s1, true)).1) as Hf by (destruct (bool_decide _); [apply flood_same|done]).
  destruct (if bool_decide (r' = Flood) then _ else _) as [s2 allowed]. cbn [fst] in Hf. pose proof (evolves_after _ _ _ _ _ He1 Hf) as He2.
  destruct allowed; cbn [negb]; [|by eexists _, _, _]. destruct (negb lrn && is_unicast src); [|by eexists _, _, _].
  destruct (learn_evolves s2 stays vlan src peer now (v_inv _ _ _ _ He2)) as (s3 & ok & -> & He3). cbn [mbind outcome_bind].
  pose proof (evolves_trans _ _ _ _ _ He2 He3) as He. destruct ok; [by eexists _, _, _|]. eexists _, _, _. split; [done|by apply (evolves_after _ _ _ s3)].
Qed.

(** ** Withdrawal *)
Lemma filter_counts (m : gmap Z Z) p : default 0 (filter (fun x => x.2 <> 0) m !! p) = default 0 (m !! p).
Proof.
  destruct (m !! p) as [c|] eqn:E.
  - destruct (decide (c = 0)) as [->|Hc].
    + rewrite (proj2 (map_lookup_filter_None _ _ _)); [done|]. right. intros x Hx. rewrite E in Hx. injection Hx as <-. cbn. lia.
    + rewrite (proj2 (map_lookup_filter_Some _ _ _ _) (conj E Hc)). done.
  - by rewrite (proj2 (map_lookup_filter_None _ _ _) (or_introl E)).
Qed.

Lemma owned_pos m k e : m !! k = Some e -> (0 < owned m (e_peer e))%nat.
Proof. intros H. rewrite (owned_delete m k e (e_peer e) H), decide_True by done. lia. Qed.

Lemma forget_evolves s peer now : inv s ->
  exists s', forget_peer s peer = Ok s' /\ evolves s (fun p => p <> peer) now s' /\ (forall k e, fdb s' !! k = Some e -> fdb s !! k = Some e /\ e_peer e <> peer).
Proof.
  intros Hi. unfold forget_peer. destruct (retain_spec s (fun e => negb (e_peer e =? peer)) Hi) as (s' & E & Hi' & Ec & Eg & Ef). rewrite E.
  cbn [mbind outcome_bind]. eexists. split; [done|]. split.
  - apply (evolves_after _ _ _ s'); [|done]. split; [done|done|]. intros k e He Hp _. exists e. rewrite Ef, He, (proj2 (Z.eqb_neq _ _)) by done. by split; [|split; [|left]].
  - intros k e. cbn [with_ingress fdb]. rewrite Ef. destruct (fdb s !! k) as [e'|]; [|done]. destruct (e_peer e' =? peer) eqn:Ep; cbn [negb]; [done|]. intros [= <-]. bool_to_Z. done.
Qed.

Lemma clear_evolves s now : inv s -> exists s', clear s = Ok s' /\ evolves s (fun _ => False) now s' /\ fdb s' = ∅.
Proof.
  intros Hi. unfold clear. destruct (retain_spec s (fun _ => false) Hi) as (s' & E & Hi' & Ec & Eg & Ef). rewrite E. cbn [mbind outcome_bind]. eexists. split; [done|]. split.
  - by apply (evolves_after _ _ _ s'); [split|].
  - cbn [with_ingress fdb]. apply map_eq. intros k. rewrite Ef, lookup_empty. by destruct (fdb s !! k).
Qed.

Lemma retain_peers_evolves s reachable bridge now : inv s ->
  exists s', retain_peers s reachable bridge = Ok s' /\ evolves s (fun p => bridge p = true) now s' /\ (forall k e, fdb s' !! k = Some e -> fdb s !! k = Some e /\ bridge (e_peer e) = true).
Proof.
  intros Hi. unfold retain_peers. set (invalid := _ || _).
  assert (exists s', (if invalid then retain s (fun e => bridge (e_peer e)) else Ok s) = Ok s' /\ evolves s (fun p => bridge p = true) now s' /\
    (forall k e, fdb s' !! k = Some e -> fdb s !! k = Some e /\ bridge (e_peer e) = true)) as (s' & -> & He & Hw).
  { destruct invalid eqn:Ei.
    - destruct (retain_spec s (fun e => bridge (e_peer e)) Hi) as (s' & E & Hi' & Ec & Eg & Ef). exists s'. split; [done|]. split.
      + split; [done|done|]. intros k e He Hp _. exists e. rewrite Ef, He, Hp. by split; [|split; [|left]].
      + intros k e. rewrite Ef. destruct (fdb s !! k) as [e'|]; [|done]. destruct (bridge (e_peer e')) eqn:Eb; [|done]. by intros [= <-].
    - exists s. split; [done|]. split; [by apply evolves_same|]. intros k e He. split; [done|]. destruct (bridge (e_peer e)) eqn:Eb; [done|].
      unfold invalid in Ei. apply orb_false_iff in Ei as [El Ex]. apply Z.eqb_neq in El. destruct Hi as [_ _ _ H4]. destruct (H4 El (e_peer e)) as [H5 _].
      pose proof (owned_pos _ _ _ He). destruct (per_peer_counts s !! e_peer e) as [c|] eqn:Ec; cbn [default] in H5; [|cbn in H5; lia].
      assert (existsb (fun x : Z * Z => negb (x.2 =? 0) && negb (bridge x.1)) (map_to_list (per_peer_counts s)) = true) as Ht; [|congruence].
      apply existsb_exists. exists (e_peer e, c). split; [apply list_elem_of_In; by apply elem_of_map_to_list|]. cbn in *. rewrite Eb, (proj2 (Z.eqb_neq _ _)) by lia. done. }
  cbn [mbind outcome_bind]. eexists. split; [done|]. split; [|done]. destruct He as [[H1 H2 H3 H4] A2 A3]. split; [|done|done].
  split; [done|done|done|]. cbn [with_counts with_ingress fdb per_peer_counts]. intros Hl p. rewrite filter_counts. by apply H4.
Qed.

(** ** Runs *)
Inductive op : Type :=
| OLearnSource (frame : list Z) (peer now : Z)
| ODestination (frame : list Z) (now : Z)
| OResolve (b : L2DestinationBatch) (frame : list Z) (now : Z)
| OAdmitSource (frame : list Z) (peer now : Z)
| OAdmitSourceBatch (frame : list Z) (peer now : Z) (b : L2SourceBatch)
| OAdmitIngress (frame : list Z) (peer local now : Z) (b : L2IngressBatch)
| OAdmitCompact (payload : list Z) (peer now : Z) (is_flood : bool)
| OFlood (frame_len recipients now : Z)
| ORetainPeers (reachable bridge : Z -> bool)
| OForgetPeer (peer : Z)
| OClear.

Definition exec (s : t) (o : op) : outcome unit t :=
  match o with
  | OLearnSource frame peer now => learn_source_at s frame peer now
  | ODestination frame now => '(s, _) ← destination_at s frame now; Ok s
  | OResolve b frame now => '(s, _, _) ← resolve_at b s frame now; Ok s
  | OAdmitSource frame peer now => '(s, _) ← admit_source_at s frame peer now; Ok s
  | OAdmitSourceBatch frame peer now b => '(s, _, _) ← admit_source_batch_at s frame peer now b; Ok s
  | OAdmitIngress frame peer local now b => '(s, _, _) ← admit_ingress_batch_at s frame peer local now b; Ok s
  | OAdmitCompact payload peer now is_flood => Ok (admit_compact_ingress_at s payload peer now is_flood).1
  | OFlood n recipients now => Ok (allow_flood_replicated s n recipients now).1
  | ORetainPeers reachable bridge => retain_peers s reachable bridge
  | OForgetPeer peer => forget_peer s peer
  | OClear => clear s
  end.
Fixpoint run (s : t) (l : list op) : outcome unit t :=
  match l with
  | [] => Ok s
  | o :: l => s ← exec s o; run s l
  end.

(** the time of a step, if it reads the clock *)
Definition at_time (o : op) (now : Z) : Prop :=
  match o with
  | OLearnSource _ _ n | ODestination _ n | OResolve _ _ n | OAdmitSource _ _ n | OAdmitSourceBatch _ _ n _
  | OAdmitIngress _ _ _ n _ | OAdmitCompact _ _ n _ | OFlood _ _ n => n = now
  | ORetainPeers _ _ | OForgetPeer _ | OClear => True
  end.
(** a step that does not withdraw [p] *)
Definition keeps_peer (o : op) (p : Z) : Prop :=
  match o with
  | ORetainPeers _ bridge => bridge p = true
  | OForgetPeer q => p <> q
  | OClear => False
  | _ => True
  end.

Lemma exec_evolves s o now : inv s -> at_time o now -> exists s', exec s o = Ok s' /\ evolves s (keeps_peer o) now s'.
Proof.
  intros Hi Ht. destruct o; cbn [exec at_time keeps_peer] in *; subst.
  - unfold learn_source_at. destruct (ethernet_addresses frame) as [[[v d] src]|]; [|eexists; split; [done|by apply evolves_same]].
    destruct (is_unicast src); [|eexists; split; [done|by apply evolves_same]]. destruct (learn_evolves s (fun _ => True) v src peer now Hi) as (s' & ok & -> & He). by exists s'.
  - unfold destination_at. destruct (ethernet_addresses frame) as [[[v d] src]|]; [|eexists; split; [done|by apply evolves_same]].
    destruct (destination_evolves s (fun _ => True) v d now Hi) as (s' & r & -> & He). by exists s'.
  - destruct (resolve_evolves b s (fun _ => True) frame now Hi) as (s' & b' & r & -> & He & _). by exists s'.
  - destruct (admit_source_evolves s (fun _ => True) frame peer now Hi) as (s' & ok & -> & He). by exists s'.
  - destruct (admit_source_batch_evolves s (fun _ => True) frame peer now b Hi) as (s' & b' & ok & -> & He). by exists s'.
  - destruct (admit_ingress_evolves s (fun _ => True) frame peer local now b Hi) as (s' & b' & ok & -> & He). by exists s'.
  - eexists. split; [done|]. apply evolves_same; [done|apply compact_same].
  - eexists. split; [done|]. apply evolves_same; [done|apply replicated_same].
  - destruct (retain_peers_evolves s reachable bridge now Hi) as (s' & -> & He & _). by exists s'.
  - destruct (forget_evolves s peer now Hi) as (s' & -> & He & _). by exists s'.
  - destruct (clear_evolves s now Hi) as (s' & -> & He & _). by exists s'.
Qed.

Lemma at_time_exists o : exists now, at_time o now.
Proof. destruct o; cbn; try (by eexists); by exists 0. Qed.

Lemma run_evolves l : forall s, inv s -> exists s', run s l = Ok s' /\ inv s' /\ conf s' = conf s.
Proof.
  induction l as [|o l IH]; intros s Hi; [by exists s|]. destruct (at_time_exists o) as [now Ht].
  destruct (exec_evolves s o now Hi Ht) as (s1 & E & [H1 H2 _]). cbn [run]. rewrite E. cbn [mbind outcome_bind].
  destruct (IH s1 H1) as (s' & E' & Hi' & Hc). exists s'. split; [done|]. split; [done|congruence].
Qed.

(** [p] owns [k] and was seen there at [t0] or later in the hold time *)
Definition holds (s : t) (k : FdbKey) (p t0 : Z) : Prop :=
  exists e, fdb s !! k = Some e /\ e_peer e = p /\ t0 <= last_seen e.
Definition in_hold (s : t) (t0 : Z) (o : op) : Prop := exists now, at_time o now /\ t0 <= now < t0 + move_hold (policy (conf s)).

Lemma since_hold s t0 now last : t0 <= last -> t0 <= now < t0 + move_hold (policy (conf s)) -> since now last < move_hold (policy (conf s)).
Proof. unfold since, saturating_sub. lia. Qed.

Lemma run_holds l k p t0 : forall s, inv s -> holds s k p t0 -> Forall (fun o => in_hold s t0 o /\ keeps_peer o p) l ->
  exists s', run s l = Ok s' /\ inv s' /\ conf s' = conf s /\ holds s' k p t0.
Proof.
  induction l as [|o l IH]; intros s Hi Hh Hl; [by exists s|]. apply Forall_cons_iff in Hl as [[(now & Ht & Hn) Hk] Hl].
  destruct (exec_evolves s o now Hi Ht) as (s1 & E & [H1 H2 H3]). cbn [run]. rewrite E. cbn [mbind outcome_bind].
  destruct Hh as (e & He & Hp & Hs). destruct (H3 k e He) as (e1 & He1 & Hp1 & Hs1); [by rewrite Hp|by apply (since_hold s t0)|].
  destruct (IH s1 H1) as (s' & E' & Hi' & Hc & Hh').
  - exists e1. split; [done|]. split; [congruence|]. destruct Hs1 as [-> | ->]; [done|lia].
  - unfold in_hold in *. by rewrite H2.
  - exists s'. split; [done|]. split; [done|]. split; [congruence|done].
Qed.

Lemma held_destination s k p t0 now : inv s -> holds s k p t0 -> is_unicast k.2 = true -> t0 <= now < t0 + move_hold (policy (conf s)) ->
  destination_address_at s k.1 k.2 now = Ok (s, Known p) /\
  forall q, q <> p -> exists s', learn_address_at s k.1 k.2 q now = Ok (s', false) /\ holds s' k p t0.
Proof.
  intros Hi (e & He & <- & Hs) Hu Hn. pose proof (since_hold s t0 now (last_seen e) Hs Hn) as Hh. destruct k as [v a]. cbn [fst snd] in *. split.
  - unfold destination_address_at. rewrite Hu, He. cbn [negb]. pose proof (held_fresh s now e Hi Hh) as Hf. unfold fresh in Hf. by rewrite (proj2 (Z.leb_le _ _)).
  - intros q Hq. destruct (learn_spec s v a q now Hi) as (s' & ok & E & [_ _ _ _ _ _ L7]). destruct (L7 e He) as [-> Hk]; [congruence|done|].
    exists s'. split; [done|]. by exists e.
Qed.

(** ** Results *)
(** C23: the forwarding database stays consistent: from a new fabric with accepted flags, whatever frames, batches and
    withdrawals follow, no step panics, the entry counter is the size of the table and within the
    capacity, and with a limit each peer's counter is the number of its entries and within it. *)
Theorem l2_fabric_consistent f now l :
  flags_ok f ->
  exists s, run (from_flags f now) l = Ok s /\
    entry_count s = Z.of_nat (size (fdb s)) /\ entry_count s <= l2_fdb_capacity f /\
    (l2_max_macs_per_peer f <> 0 -> forall peer,
       default 0 (per_peer_counts s !! peer) = Z.of_nat (owned (fdb s) peer) /\ Z.of_nat (owned (fdb s) peer) <= l2_max_macs_per_peer f).
Proof.
  intros Hf. destruct (run_evolves l _ (inv_flags f now Hf)) as (s & E & [H1 H2 H3 H4] & Ec).
  exists s. split; [done|]. unfold limit in *. rewrite Ec in *. cbn in *. done.
Qed.

(** an address is held: once [peer] has an address at [t0], then until the hold time is over,
    whatever the other peers send and unless [peer] itself is withdrawn, frames to that address go
    to [peer], and another peer that claims the address is refused. *)
Theorem l2_address_held f start before s vlan source peer t0 s1 l now :
  flags_ok f ->
  run (from_flags f start) before = Ok s ->
  learn_address_at s vlan source peer t0 = Ok (s1, true) ->
  is_unicast source = true ->
  Forall (fun o => in_hold s1 t0 o /\ keeps_peer o peer) l ->
  t0 <= now < t0 + l2_mac_move_hold_seconds f * second ->
  exists s2, run s1 l = Ok s2 /\ destination_address_at s2 vlan source now = Ok (s2, Known peer) /\
    forall q, q <> peer -> exists s3, learn_address_at s2 vlan source q now = Ok (s3, false) /\
      exists e, fdb s3 !! (vlan, source) = Some e /\ e_peer e = peer.
Proof.
  intros Hf Hr Hlrn Hu Hl Hn. destruct (run_evolves before _ (inv_flags f start Hf)) as (s' & E & Hi & Ec).
  rewrite E in Hr. injection Hr as ->. destruct (learn_spec s vlan source peer t0 Hi) as (s' & ok & E' & [L1 L2 _ _ _ L6 _]).
  rewrite Hlrn in E'. injection E' as -> <-. rewrite Ec in *. cbn [from_flags with_policy policy_from_flags conf policy move_hold] in *.
  destruct (L6 eq_refl) as [Hk|[_ Hk]]; [|lia].
  destruct (run_holds l (vlan, source) peer t0 s' L1) as (s2 & E2 & Hi2 & Ec2 & Hh2); [|done|].
  { eexists. split; [exact Hk|]. cbn. split; [done|lia]. }
  exists s2. split; [done|]. destruct (held_destination s2 (vlan, source) peer t0 now Hi2 Hh2 Hu) as [Hd Hq].
  { by rewrite Ec2, L2. }
  split; [done|]. intros q Hne. destruct (Hq q Hne) as (s3 & E3 & e & He & Hp & _). exists s3. split; [done|]. by exists e.
Qed.

(** no tag hides a frame from the policy: the source of a frame with any stack of tags is admitted
    exactly when the stack has at most four tags, the EtherType behind the last one is allowed,
    every VLAN of the stack is allowed (0 for a frame without a tag) and the source is unicast;
    it is admitted on the VLANs of the stack in their order, and no read is out of range. *)
Theorem l2_policy_exact s dst src ts ty rest :
  length dst = 6%nat -> length src = 6%nat -> Forall tag_ok ts -> is_u 16 ty -> is_vlan_type ty = false ->
  exists v, as_slice v = (if decide (length ts <= 4)%nat then map (fun t => Z.land t.2 0x0fff) ts else []) /\
    permitted_source s (dst ++ src ++ tagged ts ty ++ rest) =
    Ok (if bool_decide (length ts <= 4)%nat && allows (allowed_ether_types (policy (conf s))) ty &&
           vlans_permitted (allowed_vlans (policy (conf s))) (as_slice v) && is_unicast src
        then Some (v, src) else None).
Proof.
  intros Hd Hs Hts Hty Hnv. rewrite permitted_spec.
  pose proof (vlan_metadata_correct (dst ++ src) ts ty rest ltac:(rewrite length_app; lia) Hts Hty Hnv) as Hm.
  rewrite <- app_assoc in Hm. destruct (ethernet_network_metadata _) as [m|]; cbn [mbind option_bind].
  - destruct Hm as (Hl & <- & _ & Hv). exists (vlan_stack m). rewrite decide_True, bool_decide_eq_true_2 by done. split; [done|]. cbn [andb].
    rewrite <- Hd, drop_app_length, Hd, <- Hs, take_app_length. done.
  - exists empty_stack. rewrite decide_False, bool_decide_eq_false_2 by lia. done.
Qed.

(** ** Witnesses *)
Definition sample_flags : Flags := mk_flags 2 10 100000 1 5 [5; 0] [] true.
Definition sample : t := from_flags sample_flags 0.
Definition sample_frame (src : list Z) (tag : Z) : list Z := replicate 6 0xff ++ src ++ tagged [(0x8100, tag)] 0x0800 ++ [1; 2].
Definition sample_mac (x : Z) : list Z := [2; 0; 0; 0; 0; x].
Lemma sample_ok : flags_ok sample_flags.
Proof. split; [reflexivity|]. cbn. lia. Qed.

(** an address, a second one over the limit, a claim by another peer, a withdrawal *)
Definition sample_ops : list op := [
  OAdmitIngress (sample_frame (sample_mac 1) 5) 7 1 0 empty_batch;
  OAdmitIngress (sample_frame (sample_mac 2) 5) 7 1 second empty_batch;
  OAdmitSource (sample_frame (sample_mac 1) 5) 8 second;
  OForgetPeer 7].

Lemma l2_fabric_consistent_witness :
  exists s, run sample sample_ops = Ok s /\ entry_count s = Z.of_nat (size (fdb s)) /\ entry_count s <= 2 /\
    (1 <> 0 -> forall peer, default 0 (per_peer_counts s !! peer) = Z.of_nat (owned (fdb s) peer) /\ Z.of_nat (owned (fdb s) peer) <= 1).
Proof. apply (l2_fabric_consistent sample_flags 0 sample_ops). exact sample_ok. Defined.

Definition sample_run (l : list op) : t := match run sample l with Ok s => s | _ => sample end.
Definition sample_stack : VlanStack := mk_stack [5; 0; 0; 0] 1.
Definition sample_learned (l : list op) (peer now : Z) : t :=
  match learn_address_at (sample_run l) sample_stack (sample_mac 1) peer now with Ok (s, _) => s | _ => sample end.
Definition sample_before : list op := [OAdmitSource (sample_frame (sample_mac 2) 5) 9 0].
Definition sample_during : list op := [
  OAdmitSource (sample_frame (sample_mac 1) 5) 8 (2 * second);
  OForgetPeer 9;
  ODestination (sample_frame (sample_mac 1) 5) (3 * second)].

Lemma l2_address_held_witness :
  exists s2, run (sample_learned sample_before 7 second) sample_during = Ok s2 /\
    destination_address_at s2 sample_stack (sample_mac 1) (4 * second) = Ok (s2, Known 7) /\
    forall q, q <> 7 -> exists s3, learn_address_at s2 sample_stack (sample_mac 1) q (4 * second) = Ok (s3, false) /\
      exists e, fdb s3 !! (sample_stack, sample_mac 1) = Some e /\ e_peer e = 7.
Proof.
  apply (l2_address_held sample_flags 0 sample_before (sample_run sample_before) sample_stack (sample_mac 1) 7 second
    (sample_learned sample_before 7 second) sample_during (4 * second)).
  - exact sample_ok.
  - vm_compute. reflexivity.
  - vm_compute. reflexivity.
  - reflexivity.
  - assert (move_hold (policy (conf (sample_learned sample_before 7 second))) = 5 * second) as Hm by (vm_compute; reflexivity).
    apply Forall_cons_2; [|apply Forall_cons_2; [|apply Forall_cons_2; [|apply Forall_nil_2]]]; (split; [|cbn; lia]).
    + exists (2 * second). rewrite Hm. unfold second. split; [reflexivity|lia].
    + exists second. rewrite Hm. unfold second. split; [exact I|lia].
    + exists (3 * second). rewrite Hm. unfold second. split; [reflexivity|lia].
  - cbn. unfold second. lia.
Defined.

Lemma l2_policy_exact_witness :
  exists v, as_slice v = [5; 6] /\
    permitted_source sample (replicate 6 0xff ++ sample_mac 1 ++ tagged [(0x88a8, 0x2005); (0x8100, 6)] 0x0800 ++ [1; 2]) = Ok None.
Proof.
  destruct (l2_policy_exact sample (replicate 6 0xff) (sample_mac 1) [(0x88a8, 0x2005); (0x8100, 6)] 0x0800 [1; 2]) as (v & Hv & Hp).
  - reflexivity.
  - reflexivity.
  - apply Forall_cons_2; [|apply Forall_cons_2; [|apply Forall_nil_2]]; (split; [reflexivity|unfold is_u; cbn; lia]).
  - unfold is_u. lia.
  - reflexivity.
  - exists v. change (as_slice v = [5; 6]) in Hv. split; [exact Hv|]. rewrite Hp, Hv. reflexivity.
Defined.
End L2FabricProps.
