(* ===== verification/Forwarding.v ===== *)
(** * Forwarding snapshots and service routes

    The tables that a route generation publishes (src/lowertier/src/peers/route_trait.rs,
    [ForwardingPeerTable] and [ForwardingDecisionSnapshot]) and the service routes of
    src/lowertier/src/peers/service_route.rs with the store that pins flows to gateways.  The
    prefix_trie crate is an interface; the hash of [DefaultHasher] is an argument. *)
From stdpp Require Import base list gmap sets numbers sorting.
From Stdlib Require Import ZArith Lia.
From S2P Require Import Prelude NetAddr.

Local Open Scope Z_scope.

(** ** Prefixes of the cidr crate and maps of the prefix_trie crate *)
Module Prefix.
Import Net.

(** a network address and the number of its leading bits that count *)
Record Cidr : Type := mk_cidr { c_addr : Z; c_len : Z }.
#[export] Instance Cidr_eq_dec : EqDecision Cidr.
Proof. solve_decision. Defined.
#[export] Instance Cidr_countable : Countable Cidr.
Proof. apply (inj_countable' (fun c => (c_addr c, c_len c)) (fun p => mk_cidr p.1 p.2)). by intros []. Defined.

Inductive IpCidr : Type := CidrV4 (c : Cidr) | CidrV6 (c : Cidr).
#[export] Instance IpCidr_eq_dec : EqDecision IpCidr.
Proof. solve_decision. Defined.
#[export] Instance IpCidr_countable : Countable IpCidr.
Proof.
  apply (inj_countable' (fun c => match c with CidrV4 c => inl c | CidrV6 c => inr c end)
    (fun s => match s with inl c => CidrV4 c | inr c => CidrV6 c end)). by intros [].
Defined.

(** the prefix holds the address, of [w] bits *)
Definition covers (w : Z) (c : Cidr) (a : Z) : bool := Z.shiftr (c_addr c) (w - c_len c) =? Z.shiftr a (w - c_len c).

(** a prefix and an address of one family *)
Definition ip_covers (c : IpCidr) (i : IpAddr) : bool :=
  match c, i with
  | CidrV4 c, V4 a => covers 32 c a
  | CidrV6 c, V6 a => covers 128 c a
  | _, _ => false
  end.
Definition ip_len (c : IpCidr) : Z := match c with CidrV4 c | CidrV6 c => c_len c end.

Class PrefixMaps : Type := {
  PrefixMap : Type -> Type;
  pm_new : forall {V}, PrefixMap V;
  pm_insert : forall {V}, Cidr -> V -> PrefixMap V -> PrefixMap V;
  pm_get : forall {V}, PrefixMap V -> Cidr -> option V;
  (** [get_lpm] at the prefix of one address *)
  pm_get_lpm : forall {V}, Z -> PrefixMap V -> Z -> option (Cidr * V);
}.
Class PrefixMapLaws `{PrefixMaps} : Prop := {
  pm_get_new V k : pm_get (@pm_new _ V) k = None;
  pm_get_insert V k (v : V) m k' : pm_get (pm_insert k v m) k' = if decide (k = k') then Some v else pm_get m k';
  pm_lpm_some V w (m : PrefixMap V) a k v : pm_get_lpm w m a = Some (k, v) ->
    pm_get m k = Some v /\ covers w k a = true /\ forall k' v', pm_get m k' = Some v' -> covers w k' a = true -> c_len k' <= c_len k;
  pm_lpm_none V w (m : PrefixMap V) a : pm_get_lpm w m a = None -> forall k v, pm_get m k = Some v -> covers w k a = false;
}.

(** *** An instance: search in a finite map *)
Definition longer {V} (x y : Cidr * V) : Cidr * V := if c_len x.1 <? c_len y.1 then y else x.
Fixpoint longest {V} (l : list (Cidr * V)) : option (Cidr * V) :=
  match l with
  | [] => None
  | x :: l => Some (match longest l with Some y => longer x y | None => x end)
  end.
Definition map_maps : PrefixMaps := {|
  PrefixMap V := gmap Cidr V;
  pm_new V := ∅;
  pm_insert V k v m := <[k := v]> m;
  pm_get V m k := m !! k;
  pm_get_lpm V w m a := longest (filter (fun x => covers w x.1 a = true) (map_to_list m));
|}.

Lemma longest_some {V} (l : list (Cidr * V)) x : longest l = Some x -> x ∈ l /\ forall y, y ∈ l -> c_len y.1 <= c_len x.1.
Proof.
  revert x. induction l as [|z l IH]; [done|]. intros x. cbn. destruct (longest l) as [y|] eqn:E.
  - destruct (IH y eq_refl) as [Hin Hmax]. unfold longer. intros [= <-]. destruct (c_len z.1 <? c_len y.1) eqn:El; bool_to_Z.
    + split; [by right|]. intros u [->|Hu]%elem_of_cons; [lia|by apply Hmax].
    + split; [by left|]. intros u [->|Hu]%elem_of_cons; [lia|]. specialize (Hmax u Hu). lia.
  - intros [= <-]. destruct l as [|? ?]; [|cbn in E; done]. split; [by left|]. intros u [->|Hu]%elem_of_cons; [lia|by apply elem_of_nil in Hu].
Qed.
Lemma longest_none {V} (l : list (Cidr * V)) : longest l = None -> l = [].
Proof. by destruct l. Qed.

Lemma map_maps_laws : @PrefixMapLaws map_maps.
Proof.
  split.
  - intros V k. apply lookup_empty.
  - intros V k v m k'. cbn. case_decide as E; [subst; apply lookup_insert_eq|by apply lookup_insert_ne].
  - cbn. intros V w m a k v [Hin Hmax]%longest_some. apply list_elem_of_filter in Hin as [Hc Hin]. apply elem_of_map_to_list in Hin. split_and!; [done|done|].
    intros k' v' Hk Hc'. apply (Hmax (k', v')). apply list_elem_of_filter. split; [done|]. by apply elem_of_map_to_list.
  - cbn. intros V w m a Hn%longest_none k v Hk. destruct (covers w k a) eqn:E; [|done].
    assert ((k, v) ∈ filter (fun x => covers w x.1 a = true) (map_to_list m)) as Hin by (apply list_elem_of_filter; split; [done|by apply elem_of_map_to_list]).
    rewrite Hn in Hin. by apply elem_of_nil in Hin.
Qed.
End Prefix.

(** ** Service routes (service_route.rs) *)
Module ServiceRoute.
Import Prefix Net.

Inductive RouteSource : Type := Static | Bgp | Overlay.
#[export] Instance RouteSource_eq_dec : EqDecision RouteSource.
Proof. solve_decision. Defined.
Inductive ServiceRouteAction : Type := Forward | ExitSnat | Blackhole.
#[export] Instance ServiceRouteAction_eq_dec : EqDecision ServiceRouteAction.
Proof. solve_decision. Defined.

Record ServiceRoute : Type := mk_route {
  prefix : IpCidr;
  gateway : Z;
  preference : Z;
  metric : Z;
  path_id : Z;
  action : ServiceRouteAction;
}.
#[export] Instance ServiceRoute_eq_dec : EqDecision ServiceRoute.
Proof. solve_decision. Defined.

Record ServiceRouteSelection : Type := mk_selection { s_prefix : IpCidr; s_gateway : Z; s_path_id : Z; s_action : ServiceRouteAction }.
Definition selection (r : ServiceRoute) : ServiceRouteSelection := mk_selection (prefix r) (gateway r) (path_id r) (action r).

(** comparisons in sequence: the first that is not equal decides *)
Definition then_with (c d : comparison) : comparison := match c with Eq => d | _ => c end.
(** the order of the candidates of a prefix *)
Definition candidate_cmp (l r : ServiceRoute) : comparison :=
  then_with (preference r ?= preference l) (then_with (metric l ?= metric r) (then_with (gateway l ?= gateway r) (path_id l ?= path_id r))).
Definition candidate_le (l r : ServiceRoute) : Prop := candidate_cmp l r <> Gt.
#[export] Instance candidate_le_dec l r : Decision (candidate_le l r).
Proof. unfold candidate_le. destruct (candidate_cmp l r); [left|left|right]; congruence. Defined.

Section Crates.
Context {PM : PrefixMaps}.
(** the order of prefixes in the cidr crate *)
Context (cidr_cmp : IpCidr -> IpCidr -> comparison).
(** [DefaultHasher] over flow, gateway and path *)
Context (hash : Z -> Z -> Z -> Z).

Record ServiceRouteSnapshot : Type := mk_snapshot {
  generation : Z;
  routes : list ServiceRoute;
  ipv4 : PrefixMap (list ServiceRoute);
  ipv6 : PrefixMap (list ServiceRoute);
}.
Definition default_snapshot : ServiceRouteSnapshot := mk_snapshot 0 [] pm_new pm_new.

Definition group_by_prefix (l : list ServiceRoute) : gmap IpCidr (list ServiceRoute) :=
  foldl (fun m r => <[prefix r := default [] (m !! prefix r) ++ [r]]> m) ∅ l.
Definition insert_group (s : ServiceRouteSnapshot) (g : IpCidr * list ServiceRoute) : ServiceRouteSnapshot :=
  let candidates := merge_sort candidate_le g.2 in
  match g.1 with
  | CidrV4 p => mk_snapshot (generation s) (routes s) (pm_insert p candidates (ipv4 s)) (ipv6 s)
  | CidrV6 p => mk_snapshot (generation s) (routes s) (ipv4 s) (pm_insert p candidates (ipv6 s))
  end.
(** the groups come in the order of a hash map, each prefix once *)
Definition from_routes (gen : Z) (l : list ServiceRoute) : ServiceRouteSnapshot :=
  foldl insert_group (mk_snapshot gen l pm_new pm_new) (map_to_list (group_by_prefix l)).

Definition candidates (s : ServiceRouteSnapshot) (address : IpAddr) : option (list ServiceRoute) :=
  match address with
  | V4 a => snd <$> pm_get_lpm 32 (ipv4 s) a
  | V6 a => snd <$> pm_get_lpm 128 (ipv6 s) a
  end.

(** *** The store *)
Record GatewayPin : Type := mk_pin { pin_selection : ServiceRouteSelection; pin_created_at : Z }.
Record GatewayFlowPlan : Type := mk_plan { plan_generation : Z; plan_selection : ServiceRouteSelection; plan_created_at : Z }.
Record Store : Type := mk_store {
  table : RouteSource -> option (list ServiceRoute);
  snapshot : ServiceRouteSnapshot;
  pins : gmap (IpCidr * Z) GatewayPin;
  plans : gmap (IpAddr * Z) GatewayFlowPlan;
  pin_capacity : Z;
  pin_ttl : Z;
}.
Definition with_pins (s : Store) (m : gmap (IpCidr * Z) GatewayPin) : Store :=
  mk_store (table s) (snapshot s) m (plans s) (pin_capacity s) (pin_ttl s).
Definition with_plans (s : Store) (m : gmap (IpAddr * Z) GatewayFlowPlan) : Store :=
  mk_store (table s) (snapshot s) (pins s) m (pin_capacity s) (pin_ttl s).

Definition new_store (capacity ttl : Z) : outcome unit Store :=
  if 0 <? capacity then Ok (mk_store (fun _ => None) default_snapshot ∅ ∅ capacity ttl) else Panic.

Definition source_cmp (l r : ServiceRoute) : comparison :=
  then_with (cidr_cmp (prefix l) (prefix r)) (then_with (gateway l ?= gateway r) (path_id l ?= path_id r)).
Definition source_le (l r : ServiceRoute) : Prop := source_cmp l r <> Gt.
#[export] Instance source_le_dec l r : Decision (source_le l r).
Proof. unfold source_le. destruct (source_cmp l r); [left|left|right]; congruence. Defined.
Definition same_route (l r : ServiceRoute) : bool :=
  bool_decide (prefix l = prefix r) && (gateway l =? gateway r) && (path_id l =? path_id r).
(** [dedup_by]: of neighbours that are the same the first stays *)
Fixpoint dedup_from (x : ServiceRoute) (l : list ServiceRoute) : list ServiceRoute :=
  match l with
  | [] => [x]
  | y :: l => if same_route y x then dedup_from x l else x :: dedup_from y l
  end.
Definition dedup_routes (l : list ServiceRoute) : list ServiceRoute := match l with [] => [] | x :: l => dedup_from x l end.

(** all sources together, in the order of a hash map *)
Definition build_snapshot (t : RouteSource -> option (list ServiceRoute)) (gen : Z) : ServiceRouteSnapshot :=
  from_routes gen (default [] (t Static) ++ default [] (t Bgp) ++ default [] (t Overlay)).
Definition replace_source (s : Store) (source : RouteSource) (l : list ServiceRoute) : Store :=
  let l := dedup_routes (merge_sort source_le l) in
  let t := fun x => if decide (x = source) then Some l else table s x in
  let gen := Z.max (wrap 64 (generation (snapshot s) + 1)) 1 in
  mk_store t (build_snapshot t gen) (pins s) (plans s) (pin_capacity s) (pin_ttl s).
Definition routes_from (s : Store) (source : RouteSource) : list ServiceRoute := default [] (table s source).

Definition since (now earlier : Z) : Z := saturating_sub now earlier.
(** how many entries go when a full cache has nothing expired *)
Definition remove_count (n capacity : Z) : nat := Z.to_nat (Z.max (n - saturating_mul 64 capacity 3 / 4) 1).
(** drop the first entries in the order of the map *)
Definition drop_some {K} `{Countable K} {V} (m : gmap K V) (n : nat) : gmap K V :=
  foldr delete m (take n (map_to_list m)).*1.
Definition size_of {K} `{Countable K} {V} (m : gmap K V) : Z := Z.of_nat (size m).

Definition reserve_pin_capacity (s : Store) (now : Z) : Store :=
  if size_of (pins s) <? pin_capacity s then s
  else
    let m := filter (fun x => since now (pin_created_at x.2) <= pin_ttl s) (pins s) in
    if size_of m <? pin_capacity s then with_pins s m
    else with_pins s (drop_some m (remove_count (size_of m) (pin_capacity s))).
Definition reserve_plan_capacity (s : Store) (now : Z) : Store :=
  if size_of (plans s) <? pin_capacity s then s
  else
    let m := filter (fun x => since now (plan_created_at x.2) <= pin_ttl s /\ plan_generation x.2 = generation (snapshot s)) (plans s) in
    if size_of m <? pin_capacity s then with_plans s m
    else with_plans s (drop_some m (remove_count (size_of m) (pin_capacity s))).

Definition is_live (live : Z -> bool) (a : ServiceRouteAction) (g : Z) : bool := bool_decide (a = Blackhole) || live g.
Definition route_is_live (live : Z -> bool) (r : ServiceRoute) : bool := is_live live (action r) (gateway r).
Definition max_of (l : list Z) : option Z := match l with [] => None | x :: l => Some (foldl Z.max x l) end.
Definition min_of (l : list Z) : option Z := match l with [] => None | x :: l => Some (foldl Z.min x l) end.

(** the live candidates of the best preference and, among them, the best metric *)
Definition eligible (live : Z -> bool) (l : list ServiceRoute) : option (list ServiceRoute) :=
  best ← max_of (preference <$> filter (fun r => route_is_live live r = true) l);
  low ← min_of (metric <$> filter (fun r => preference r = best /\ route_is_live live r = true) l);
  Some (filter (fun r => preference r = best /\ metric r = low /\ route_is_live live r = true) l).
(** [max_by_key]: the last of the greatest *)
Fixpoint max_by_key (key : ServiceRoute -> Z) (best : ServiceRoute) (l : list ServiceRoute) : ServiceRoute :=
  match l with
  | [] => best
  | x :: l => max_by_key key (if key x <? key best then best else x) l
  end.
Definition still_eligible (l : list ServiceRoute) (c : ServiceRouteSelection) : bool :=
  existsb (fun r => (gateway r =? s_gateway c) && (path_id r =? s_path_id c) && bool_decide (action r = s_action c)) l.

Definition store_plan (s : Store) (key : IpAddr * Z) (c : ServiceRouteSelection) (now gen : Z) : Store :=
  let s := reserve_plan_capacity s now in
  with_plans s (<[key := mk_plan gen c now]> (plans s)).

(** a plan for the address and flow that is still good *)
Definition current_plan (s : Store) (key : IpAddr * Z) (live : Z -> bool) (now : Z) : option ServiceRouteSelection :=
  p ← plans s !! key;
  if (plan_generation p =? generation (snapshot s)) && (since now (plan_created_at p) <=? pin_ttl s) &&
     is_live live (s_action (plan_selection p)) (s_gateway (plan_selection p))
  then Some (plan_selection p) else None.
Definition current_pin (s : Store) (key : IpCidr * Z) (l : list ServiceRoute) (now : Z) : option ServiceRouteSelection :=
  p ← pins s !! key;
  if (since now (pin_created_at p) <=? pin_ttl s) && still_eligible l (pin_selection p) then Some (pin_selection p) else None.

Definition choose (s : Store) (first : ServiceRoute) (rest : list ServiceRoute) (address : IpAddr) (flow now : Z) : Store * ServiceRouteSelection :=
  let gen := generation (snapshot s) in
  let key := (prefix first, flow) in
  match current_pin s key (first :: rest) now with
  | Some c => (store_plan s (address, flow) c now gen, c)
  | None =>
      let c := selection (max_by_key (fun r => hash flow (gateway r) (path_id r)) first rest) in
      let s := reserve_pin_capacity (with_pins s (delete key (pins s))) now in
      let s := with_pins s (<[key := mk_pin c now]> (pins s)) in
      (store_plan s (address, flow) c now gen, c)
  end.
Definition select_gateway (s : Store) (address : IpAddr) (flow : Z) (live : Z -> bool) (now : Z) : Store * option ServiceRouteSelection :=
  match current_plan s (address, flow) live now with
  | Some c => (s, Some c)
  | None =>
      let s := with_plans s (delete (address, flow) (plans s)) in
      match candidates (snapshot s) address ≫= eligible live with
      | Some (first :: rest) => let '(s, c) := choose s first rest address flow now in (s, Some c)
      | _ => (s, None)
      end
  end.
End Crates.
End ServiceRoute.

(** ** Forwarding tables (route_trait.rs) *)
Module Forwarding.
Import Prefix Net.

(** the fields that the decisions below read *)
Record PeerFeatureFlag : Type := mk_features {
  waypoint_v1 : bool;
  relay_semantics_v1 : bool;
  deny_transit_data : bool;
  exit_node : bool;
}.
Record ForwardingPeerInfo : Type := mk_info {
  peer_id : Z;
  feature_flag : option PeerFeatureFlag;
  static_pubkey : option (list Z);
}.
Record ForwardingPeerTable : Type := mk_table { peers : list ForwardingPeerInfo; peer_indexes : gmap Z nat }.

Definition info_le (a b : ForwardingPeerInfo) : Prop := peer_id a <= peer_id b.
#[export] Instance info_le_dec a b : Decision (info_le a b).
Proof. unfold info_le. apply _. Defined.
Fixpoint dedup_peers_from (x : ForwardingPeerInfo) (l : list ForwardingPeerInfo) : list ForwardingPeerInfo :=
  match l with
  | [] => [x]
  | y :: l => if peer_id y =? peer_id x then dedup_peers_from x l else x :: dedup_peers_from y l
  end.
Definition dedup_peers (l : list ForwardingPeerInfo) : list ForwardingPeerInfo := match l with [] => [] | x :: l => dedup_peers_from x l end.
(** sorted by peer, each peer once *)
Definition new_table (l : list ForwardingPeerInfo) : ForwardingPeerTable :=
  let l := dedup_peers (merge_sort info_le l) in
  mk_table l (foldl (fun m x => <[peer_id x.2 := x.1]> m) ∅ (imap pair l)).
Definition get (t : ForwardingPeerTable) (p : Z) : option ForwardingPeerInfo := i ← peer_indexes t !! p; peers t !! i.

Inductive NextHopPolicy : Type := ControlHop | LeastHop | LeastCost | MaxGoodput.

Section Crates.
Context {PM : PrefixMaps}.

(** a next hop is the peer it leads to *)
Record ForwardingDecisionSnapshot : Type := mk_decision {
  fs_generation : Z;
  capabilities : ForwardingPeerTable;
  suppressed_peer_ids : gset Z;
  least_hop : gmap Z Z;
  control_hop : gmap Z Z;
  least_cost : gmap Z Z;
  max_goodput : gmap Z Z;
  ipv4_peer_ids : gmap Z Z;
  ipv6_peer_ids : gmap Z Z;
  service_routes : ServiceRoute.ServiceRouteSnapshot;
}.

Definition or_else (a b : option Z) : option Z := match a with Some _ => a | None => b end.
Definition next_hop (s : ForwardingDecisionSnapshot) (p : Z) (policy : NextHopPolicy) : option Z :=
  if bool_decide (p ∈ suppressed_peer_ids s) then None
  else
    match policy with
    | ControlHop => control_hop s !! p
    | MaxGoodput => or_else (or_else (max_goodput s !! p) (least_cost s !! p)) (least_hop s !! p)
    | LeastCost => or_else (least_cost s !! p) (least_hop s !! p)
    | LeastHop => least_hop s !! p
    end.
Definition peer_id_by_ip (s : ForwardingDecisionSnapshot) (i : IpAddr) : option Z :=
  match i with V4 a => ipv4_peer_ids s !! a | V6 a => ipv6_peer_ids s !! a end.
End Crates.
End Forwarding.
