(* ===== verification/ServiceRouteProps.v ===== *)
(** * Properties of service routes

    The store of src/lowertier/src/peers/service_route.rs keeps its caches within their capacity
    and selects live gateways of the longest matching prefix. *)
From stdpp Require Import base list gmap sets numbers sorting.
From Stdlib Require Import ZArith Lia.
From S2P Require Import Prelude NetAddr Forwarding.

Local Open Scope Z_scope.

Module ServiceRouteProps.
Import Prefix Net ServiceRoute.

Section Props.
Context {PM : PrefixMaps} {PL : PrefixMapLaws}.
Context (cidr_cmp : IpCidr -> IpCidr -> comparison) (hash : Z -> Z -> Z -> Z).

(** ** Snapshots *)
Definition of_prefix (l : list ServiceRoute) (p : IpCidr) : list ServiceRoute := filter (fun r => prefix r = p) l.
(** [p] is the prefix of a route, covers the address, and no such prefix is longer *)
Definition longest_match (l : list ServiceRoute) (i : IpAddr) (p : IpCidr) : Prop :=
  of_prefix l p <> [] /\ ip_covers p i = true /\ forall r, r ∈ l -> ip_covers (prefix r) i = true -> ip_len (prefix r) <= ip_len p.

Definition nonempty {A} (l : list A) : option (list A) := match l with [] => None | _ => Some l end.

Lemma group_lookup l p : group_by_prefix l !! p = nonempty (of_prefix l p).
Proof.
  unfold group_by_prefix, of_prefix. induction l as [|r l IH] using rev_ind; [done|].
  rewrite foldl_app, filter_app. cbn [foldl]. destruct (decide (prefix r = p)) as [<-|Hne].
  - rewrite lookup_insert_eq, IH, filter_cons_True, filter_nil by done. destruct (filter _ l); done.
  - rewrite lookup_insert_ne, IH, filter_cons_False, filter_nil, app_nil_r by done. done.
Qed.

Lemma insert_groups l s : NoDup l.*1 ->
  routes (foldl insert_group s l) = routes s /\ generation (foldl insert_group s l) = generation s /\
  (forall p, pm_get (ipv4 (foldl insert_group s l)) p = match list_to_map (M := gmap _ _) l !! CidrV4 p with Some c => Some (merge_sort candidate_le c) | None => pm_get (ipv4 s) p end) /\
  (forall p, pm_get (ipv6 (foldl insert_group s l)) p = match list_to_map (M := gmap _ _) l !! CidrV6 p with Some c => Some (merge_sort candidate_le c) | None => pm_get (ipv6 s) p end).
Proof.
  revert s. induction l as [|[k c] l IH]; intros s Hnd; [done|]. cbn [fmap list_fmap fst] in Hnd. apply NoDup_cons in Hnd as [Hn Hnd].
  cbn [foldl list_to_map foldr uncurry]. destruct (IH (insert_group s (k, c)) Hnd) as (H1 & H2 & H3 & H4).
  assert (list_to_map (M := gmap _ _) l !! k = None) as Hk by by apply not_elem_of_list_to_map.
  rewrite H1, H2. split; [by destruct k|]. split; [by destruct k|].
  split; intros p; rewrite ?H3, ?H4; destruct k as [k|k]; cbn [insert_group fst snd ipv4 ipv6 list_to_map foldr uncurry];
    try (rewrite lookup_insert_ne by done; done); rewrite pm_get_insert;
    (case_decide as E; [subst; by rewrite lookup_insert_eq, Hk|by rewrite lookup_insert_ne by congruence]).
Qed.

Lemma from_routes_get g l : routes (from_routes g l) = l /\ generation (from_routes g l) = g /\
  (forall p, pm_get (ipv4 (from_routes g l)) p = merge_sort candidate_le <$> nonempty (of_prefix l (CidrV4 p))) /\
  (forall p, pm_get (ipv6 (from_routes g l)) p = merge_sort candidate_le <$> nonempty (of_prefix l (CidrV6 p))).
Proof.
  unfold from_routes. destruct (insert_groups (map_to_list (group_by_prefix l)) (mk_snapshot g l pm_new pm_new)) as (H1 & H2 & H3 & H4); [apply NoDup_fst_map_to_list|].
  split; [done|]. split; [done|]. split; intros p; rewrite ?H3, ?H4, list_to_map_to_list, group_lookup; cbn [ipv4 ipv6]; rewrite pm_get_new; by destruct (nonempty _).
Qed.

Lemma nonempty_get l p : nonempty (of_prefix l p) <> None -> of_prefix l p <> [].
Proof. by destruct (of_prefix l p). Qed.
Lemma of_prefix_in l r : r ∈ l -> of_prefix l (prefix r) <> [].
Proof. intros H E. assert (r ∈ of_prefix l (prefix r)) as Hin by by apply list_elem_of_filter. rewrite E in Hin. by apply elem_of_nil in Hin. Qed.

(** the candidates are the routes of the longest prefix that covers the address *)
Lemma candidates_spec g l i : match candidates (from_routes g l) i with
  | Some c => exists p, longest_match l i p /\ forall r, r ∈ c <-> r ∈ l /\ prefix r = p
  | None => forall r, r ∈ l -> ip_covers (prefix r) i = false
  end.
Proof.
  destruct (from_routes_get g l) as (_ & _ & H4 & H6).
  assert (forall w m (k : Cidr -> IpCidr) a, (forall p, pm_get m p = merge_sort candidate_le <$> nonempty (of_prefix l (k p))) ->
    (forall p, ip_len (k p) = c_len p) -> (forall p, ip_covers (k p) i = covers w p a) -> (forall p, ip_covers p i = true -> exists q, p = k q) ->
    match snd <$> pm_get_lpm w m a with
    | Some c => exists p, longest_match l i p /\ forall r, r ∈ c <-> r ∈ l /\ prefix r = p
    | None => forall r, r ∈ l -> ip_covers (prefix r) i = false
    end) as Hg.
  { intros w m k a Hm Hlen Hc Hk. destruct (pm_get_lpm w m a) as [[p c]|] eqn:E; cbn [fmap option_fmap option_map snd].
    - apply pm_lpm_some in E as (E1 & E2 & E3). rewrite Hm in E1. destruct (of_prefix l (k p)) as [|r0 rs] eqn:Ep; [done|]. cbn [nonempty fmap option_fmap option_map] in E1. injection E1 as <-.
      exists (k p). split.
      + split; [by rewrite Ep|]. split; [by rewrite Hc|]. intros r Hr Hcov. destruct (Hk _ Hcov) as [q Hq]. rewrite Hq, !Hlen in *. rewrite Hc in Hcov.
        pose proof (of_prefix_in l r Hr) as Hne. rewrite Hq in Hne. destruct (of_prefix l (k q)) as [|r1 rs1] eqn:Eq; [done|]. apply (E3 q (merge_sort candidate_le (r1 :: rs1))); [|done]. by rewrite Hm, Eq.
      + intros r. rewrite merge_sort_Permutation, <- Ep. unfold of_prefix. rewrite list_elem_of_filter. tauto.
    - intros r Hr. destruct (ip_covers (prefix r) i) eqn:Hcov; [|done]. destruct (Hk _ Hcov) as [q Hq]. rewrite Hq, Hc in Hcov.
      pose proof (of_prefix_in l r Hr) as Hne. rewrite Hq in Hne. destruct (of_prefix l (k q)) as [|r1 rs1] eqn:Eq; [done|].
      rewrite (pm_lpm_none _ _ _ _ E q (merge_sort candidate_le (r1 :: rs1))) in Hcov; [done|]. by rewrite Hm, Eq. }
  destruct i as [a|a]; cbn [candidates]; [apply (Hg 32 _ CidrV4)|apply (Hg 128 _ CidrV6)]; try done; intros [p|p]; cbn; intros; try done; by eexists.
Qed.

(** ** Choices *)
Lemma foldl_extreme (f : Z -> Z -> Z) (R : Z -> Z -> Prop) : (forall a b, f a b = a \/ f a b = b) -> (forall a b, R a (f a b) /\ R b (f a b)) ->
  Transitive R -> Reflexive R -> forall l x, foldl f x l ∈ x :: l /\ forall y, y ∈ x :: l -> R y (foldl f x l).
Proof.
  intros H1 H2 Ht Hr. induction l as [|y l IH]; intros x; cbn [foldl].
  - split; [by left|]. by intros y ->%list_elem_of_singleton.
  - destruct (IH (f x y)) as [Hin Hmax]. split.
    + apply elem_of_cons in Hin as [->|Hin]; [destruct (H1 x y) as [->| ->]; [by left|right; by left]|right; by right].
    + destruct (H2 x y) as [Hx Hy]. intros z [->|[->|Hz]%elem_of_cons]%elem_of_cons.
      * transitivity (f x y); [done|]. apply Hmax. by left.
      * transitivity (f x y); [done|]. apply Hmax. by left.
      * apply Hmax. by right.
Qed.
Lemma max_of_spec l : match max_of l with Some m => m ∈ l /\ forall x, x ∈ l -> x <= m | None => l = [] end.
Proof. destruct l as [|x l]; [done|]. apply (foldl_extreme Z.max Z.le); try apply _; lia. Qed.
Lemma min_of_spec l : match min_of l with Some m => m ∈ l /\ forall x, x ∈ l -> m <= x | None => l = [] end.
Proof. destruct l as [|x l]; [done|]. apply (foldl_extreme Z.min (fun a b => b <= a)); try lia; [intros ? ? ? ?; lia|intros ?; lia]. Qed.

(** the best live route of [l] *)
Definition best_live (live : Z -> bool) (l : list ServiceRoute) (r : ServiceRoute) : Prop :=
  r ∈ l /\ route_is_live live r = true /\
  forall r', r' ∈ l -> route_is_live live r' = true -> preference r' < preference r \/ (preference r' = preference r /\ metric r <= metric r').

Lemma eligible_spec live l : match eligible live l with
  | Some c => c <> [] /\ forall r, r ∈ c -> best_live live l r
  | None => forall r, r ∈ l -> route_is_live live r = false
  end.
Proof.
  unfold eligible. pose proof (max_of_spec (preference <$> filter (fun r => route_is_live live r = true) l)) as H1.
  destruct (max_of _) as [best|]; cbn [mbind option_bind].
  - destruct H1 as [Hin Hmax]. apply list_elem_of_fmap in Hin as (r0 & -> & [Hl0 H0]%list_elem_of_filter).
    pose proof (min_of_spec (metric <$> filter (fun r => preference r = preference r0 /\ route_is_live live r = true) l)) as H2.
    destruct (min_of _) as [low|].
    + destruct H2 as [Hin2 Hmin]. apply list_elem_of_fmap in Hin2 as (r1 & -> & [[Hp1 Hl1] H1]%list_elem_of_filter). split.
      * intros E. assert (r1 ∈ filter (fun r => preference r = preference r0 /\ metric r = metric r1 /\ route_is_live live r = true) l) as Hin by (by apply list_elem_of_filter).
        rewrite E in Hin. by apply elem_of_nil in Hin.
      * intros r [(Hp & Hm & Hl) Hr]%list_elem_of_filter. split; [done|]. split; [done|]. intros r' Hr' Hl'.
        assert (preference r' <= preference r0) as Hle by (apply Hmax, list_elem_of_fmap; exists r'; split; [done|by apply list_elem_of_filter]).
        destruct (decide (preference r' = preference r0)) as [E|]; [right|left; lia]. split; [lia|]. rewrite Hm. apply Hmin, list_elem_of_fmap. exists r'. split; [done|]. by apply list_elem_of_filter.
    + assert (r0 ∈ filter (fun r => preference r = preference r0 /\ route_is_live live r = true) l) as Hin by (by apply list_elem_of_filter).
      apply fmap_nil_inv in H2. rewrite H2 in Hin. by apply elem_of_nil in Hin.
  - intros r Hr. destruct (route_is_live live r) eqn:E; [|done]. apply fmap_nil_inv in H1.
    assert (r ∈ filter (fun r => route_is_live live r = true) l) as Hin by (by apply list_elem_of_filter). rewrite H1 in Hin. by apply elem_of_nil in Hin.
Qed.

Lemma max_by_key_in key l : forall x, max_by_key key x l ∈ x :: l.
Proof.
  induction l as [|y l IH]; intros x; cbn [max_by_key]; [by left|]. specialize (IH (if key y <? key x then x else y)).
  apply elem_of_cons in IH as [->|IH]; [destruct (_ <? _); [by left|right; by left]|right; by right].
Qed.

(** ** Caches *)
Section Cache.
Context {K} `{Countable K} {V : Type}.
Implicit Type m : gmap K V.

Lemma delete_all_lookup ks m k v : foldr delete m ks !! k = Some v -> m !! k = Some v.
Proof. induction ks as [|k' ks IH]; [done|]. cbn. intros [_ Hk]%lookup_delete_Some. by apply IH. Qed.
Lemma delete_all_size ks m : NoDup ks -> (forall k, k ∈ ks -> is_Some (m !! k)) -> (size (foldr delete m ks) + length ks = size m)%nat.
Proof.
  induction ks as [|k ks IH]; intros Hnd Hin; [cbn; lia|]. apply NoDup_cons in Hnd as [Hn Hnd]. cbn [foldr length].
  rewrite <- (IH Hnd) by (intros k' Hk'; apply Hin; by right).
  assert (is_Some (foldr delete m ks !! k)) as Hs.
  { assert (foldr delete m ks !! k = m !! k) as ->; [|apply Hin; by left]. clear -Hn. induction ks as [|k' ks IH]; [done|]. apply not_elem_of_cons in Hn as [Hne Hn].
    cbn. by rewrite lookup_delete_ne, IH. }
  rewrite map_size_delete_Some by done. destruct Hs as [v Hv]. assert (size (foldr delete m ks) <> 0%nat); [|lia].
  intros E%map_size_empty_inv. rewrite E in Hv. by rewrite lookup_empty in Hv.
Qed.

Lemma drop_some_lookup m n k v : drop_some m n !! k = Some v -> m !! k = Some v.
Proof. apply delete_all_lookup. Qed.
Lemma drop_some_size m cap : 0 < cap -> cap <= size_of m -> size_of (drop_some m (remove_count (size_of m) cap)) < cap.
Proof.
  intros Hc Hm. unfold drop_some, size_of in *. set (n := remove_count _ _). set (ks := (take n (map_to_list m)).*1).
  assert (size (foldr delete m ks) + length ks = size m)%nat as Hs.
  { apply delete_all_size.
    - unfold ks. rewrite <- firstn_map. apply (NoDup_app (take n (map_to_list m).*1) (drop n (map_to_list m).*1)). rewrite take_drop. apply NoDup_fst_map_to_list.
    - intros k Hk. unfold ks in Hk. apply list_elem_of_fmap in Hk as ([k' v] & -> & Hk). apply elem_of_take in Hk as (i & Hi & _).
      apply list_elem_of_lookup_2, elem_of_map_to_list in Hi. by exists v. }
  assert (length ks = n `min` size m)%nat as Hl by (unfold ks; rewrite length_fmap, length_take, length_map_to_list; lia).
  assert (saturating_mul 64 cap 3 / 4 < cap) as Hq by (apply Z.div_lt_upper_bound; [lia|]; unfold saturating_mul; lia).
  unfold remove_count in n. lia.
Qed.
Lemma insert_size m k v cap : size_of m < cap -> size_of (<[k := v]> m) <= cap.
Proof. unfold size_of. intros Hs. destruct (m !! k) eqn:E; [rewrite map_size_insert_Some by eauto|rewrite map_size_insert_None by done]; lia. Qed.
Lemma delete_size m k cap : size_of m <= cap -> size_of (delete k m) <= cap.
Proof. unfold size_of. rewrite map_size_delete. destruct (m !! k); cbn [id]; unfold id; lia. Qed.
End Cache.

(** ** The invariant of the store *)
Definition all_routes (t : RouteSource -> option (list ServiceRoute)) : list ServiceRoute :=
  default [] (t Static) ++ default [] (t Bgp) ++ default [] (t Overlay).
Definition plan_ok (s : Store) (i : IpAddr) (p : GatewayFlowPlan) : Prop :=
  plan_generation p <= generation (snapshot s) /\
  (plan_generation p = generation (snapshot s) ->
   exists r, r ∈ routes (snapshot s) /\ plan_selection p = selection r /\ longest_match (routes (snapshot s)) i (prefix r)).

Record inv (n : Z) (s : Store) : Prop := {
  i_capacity : 0 < pin_capacity s;
  i_pins : size_of (pins s) <= pin_capacity s;
  i_plans : size_of (plans s) <= pin_capacity s;
  i_generation : 0 <= generation (snapshot s) <= n;
  i_snapshot : snapshot s = build_snapshot (table s) (generation (snapshot s));
  i_plan : forall i f p, plans s !! (i, f) = Some p -> plan_ok s i p;
  i_pin : forall k f p, pins s !! (k, f) = Some p -> s_prefix (pin_selection p) = k;
}.

Lemma build_routes t g : routes (build_snapshot t g) = all_routes t /\ generation (build_snapshot t g) = g.
Proof. unfold build_snapshot. fold (all_routes t). destruct (from_routes_get g (all_routes t)) as (H1 & H2 & _). done. Qed.

Lemma inv_new_store cap ttl s : new_store cap ttl = Ok s -> inv 0 s.
Proof.
  unfold new_store. destruct (0 <? cap) eqn:E; [|done]. intros [= <-]. bool_to_Z. split; cbn [pin_capacity pins plans snapshot table default_snapshot generation]; try done; try (unfold size_of; rewrite map_size_empty; lia); intros k f p; by rewrite lookup_empty.
Qed.

Lemma inv_replace n s source l : inv n s -> n + 1 < 2 ^ 64 -> inv (n + 1) (replace_source cidr_cmp s source l).
Proof.
  intros [H1 H2 H3 H4 H5 H6 H7] Hn. unfold replace_source. set (t := fun x => _). rewrite wrap_small by (unfold is_u; lia). rewrite Z.max_l by lia.
  destruct (build_routes t (generation (snapshot s) + 1)) as [Er Eg]. split; cbn [pin_capacity pins plans snapshot table]; try done.
  - rewrite Eg. lia.
  - by rewrite Eg.
  - intros i f p Hp. destruct (H6 i f p Hp) as [Hle _]. split; cbn [snapshot]; rewrite Eg; lia.
Qed.

Lemma reserve_pin_spec n s now : inv n s -> inv n (reserve_pin_capacity s now) /\ size_of (pins (reserve_pin_capacity s now)) < pin_capacity s /\
  snapshot (reserve_pin_capacity s now) = snapshot s /\ plans (reserve_pin_capacity s now) = plans s /\ table (reserve_pin_capacity s now) = table s /\
  pin_capacity (reserve_pin_capacity s now) = pin_capacity s.
Proof.
  intros Hi. pose proof Hi as [H1 H2 H3 H4 H5 H6 H7]. unfold reserve_pin_capacity. destruct (size_of (pins s) <? _) eqn:E1; [bool_to_Z; done|].
  set (m := filter _ (pins s)). assert (forall m', (forall k p, m' !! k = Some p -> m !! k = Some p) -> size_of m' < pin_capacity s -> inv n (with_pins s m')) as Hw.
  { intros m' Hsub Hs. split; cbn [with_pins pin_capacity pins plans snapshot table]; try done; [lia|]. intros k f p Hp. apply (H7 k f). apply Hsub in Hp. by apply map_lookup_filter_Some in Hp as [? _]. }
  destruct (size_of m <? _) eqn:E2; bool_to_Z; [split_and!; try done; by apply Hw|].
  pose proof (drop_some_size m (pin_capacity s) H1 E2) as Hd. split_and!; try done. apply Hw; [|done]. intros k p. apply drop_some_lookup.
Qed.
Lemma reserve_plan_spec n s now : inv n s -> inv n (reserve_plan_capacity s now) /\ size_of (plans (reserve_plan_capacity s now)) < pin_capacity s /\
  snapshot (reserve_plan_capacity s now) = snapshot s /\ table (reserve_plan_capacity s now) = table s /\ pin_capacity (reserve_plan_capacity s now) = pin_capacity s.
Proof.
  intros Hi. pose proof Hi as [H1 H2 H3 H4 H5 H6 H7]. unfold reserve_plan_capacity. destruct (size_of (plans s) <? _) eqn:E1; [bool_to_Z; done|].
  set (m := filter _ (plans s)). assert (forall m', (forall k p, m' !! k = Some p -> m !! k = Some p) -> size_of m' < pin_capacity s -> inv n (with_plans s m')) as Hw.
  { intros m' Hsub Hs. split; cbn [with_plans pin_capacity pins plans snapshot table]; try done; [lia|]. intros i f p Hp. apply (H6 i f). apply Hsub in Hp. by apply map_lookup_filter_Some in Hp as [? _]. }
  destruct (size_of m <? _) eqn:E2; bool_to_Z; [split_and!; try done; by apply Hw|].
  pose proof (drop_some_size m (pin_capacity s) H1 E2) as Hd. split_and!; try done. apply Hw; [|done]. intros k p. apply drop_some_lookup.
Qed.

Lemma inv_store_plan n s i f r now : inv n s -> r ∈ routes (snapshot s) -> longest_match (routes (snapshot s)) i (prefix r) ->
  inv n (store_plan s (i, f) (selection r) now (generation (snapshot s))).
Proof.
  intros Hi Hr Hm. unfold store_plan. destruct (reserve_plan_spec n s now Hi) as ([H1 H2 H3 H4 H5 H6 H7] & Hs & Es & Et & Ec). set (s' := reserve_plan_capacity s now) in *.
  split; cbn [with_plans pin_capacity pins plans snapshot table]; try done.
  - rewrite Ec in *. by apply insert_size.
  - intros i' f' p. destruct (decide ((i', f') = (i, f))) as [[= -> ->]|Hne]; [|rewrite lookup_insert_ne by done; apply H6].
    rewrite lookup_insert_eq. intros [= <-]. unfold plan_ok. cbn [with_plans snapshot plan_generation plan_selection]. rewrite Es. split; [done|]. intros _. by exists r.
Qed.

(** ** Selection *)
Lemma choose_spec n s first rest i f now p : inv n s -> longest_match (routes (snapshot s)) i p ->
  (forall r, r ∈ first :: rest -> r ∈ routes (snapshot s) /\ prefix r = p) ->
  inv n (choose hash s first rest i f now).1 /\ exists r, r ∈ first :: rest /\ (choose hash s first rest i f now).2 = selection r.
Proof.
  intros Hi Hm Hl. assert (Forall (fun r => prefix r = p) (first :: rest)) as Hpf by (apply Forall_forall; intros r Hr; by apply Hl).
  pose proof (proj2 (Hl first ltac:(by left))) as Hf. unfold choose. rewrite Hf. unfold current_pin.
  destruct (pins s !! (p, f)) as [q|] eqn:Eq; cbn [mbind option_bind].
  1: destruct (_ && _) eqn:Eb.
  { apply andb_true_iff in Eb as [_ Eb]. unfold still_eligible in Eb. apply existsb_exists in Eb as (r & Hr & Eb). apply list_elem_of_In in Hr.
    apply andb_true_iff in Eb as [[Eg Ep]%andb_true_iff Ea]. apply Z.eqb_eq in Eg, Ep. apply bool_decide_eq_true in Ea.
    pose proof (i_pin n s Hi p f q Eq) as Hpre. assert (pin_selection q = selection r) as ->.
    { destruct (Hl r Hr) as [_ Hr2]. destruct (pin_selection q). unfold selection. cbn in *. congruence. }
    destruct (Hl r Hr) as [Hr1 Hr2]. split; [|by exists r]. apply inv_store_plan; [done|done|by rewrite Hr2]. }
  all: set (r := max_by_key _ _ _); assert (r ∈ first :: rest) as Hr by apply max_by_key_in; destruct (Hl r Hr) as [Hr1 Hr2].
  all: assert (inv n (with_pins s (delete (p, f) (pins s)))) as Hd
    by (destruct Hi as [H1 H2 H3 H4 H5 H6 H7]; split; cbn [with_pins pin_capacity pins plans snapshot table]; try done; [by apply delete_size|intros k f' q' [_ Hq]%lookup_delete_Some; by apply (H7 k f')]).
  all: destruct (reserve_pin_spec n _ now Hd) as ([H1 H2 H3 H4 H5 H6 H7] & Hs & Es & _ & _ & Ec); set (s1 := reserve_pin_capacity _ now) in *.
  all: assert (inv n (with_pins s1 (<[(p, f) := mk_pin (selection r) now]> (pins s1)))) as Hi1
    by (split; cbn [with_pins pin_capacity pins plans snapshot table]; try done;
        [rewrite Ec in *; by apply insert_size|intros k f' q'; destruct (decide ((k, f') = (p, f))) as [[= -> ->]|Hne];
           [rewrite lookup_insert_eq; by intros [= <-]|rewrite lookup_insert_ne by done; apply H7]]).
  all: set (s2 := with_pins s1 _) in *; assert (snapshot s2 = snapshot s) as E2 by exact Es.
  all: split; [|by exists r]; cbn [fst]; rewrite <- E2; apply inv_store_plan; [done|by rewrite E2|by rewrite E2, Hr2].
Qed.

(** what a selection may be *)
Definition selected (s : Store) (i : IpAddr) (f : Z) (live : Z -> bool) (now : Z) (c : option ServiceRouteSelection) : Prop :=
  match c with
  | Some c => exists r, r ∈ routes (snapshot s) /\ c = selection r /\ longest_match (routes (snapshot s)) i (prefix r) /\ route_is_live live r = true /\
      (current_plan s (i, f) live now = None -> best_live live (of_prefix (routes (snapshot s)) (prefix r)) r)
  | None => (forall r, r ∈ routes (snapshot s) -> ip_covers (prefix r) i = false) \/
      exists p, longest_match (routes (snapshot s)) i p /\ forall r, r ∈ routes (snapshot s) -> prefix r = p -> route_is_live live r = false
  end.

Lemma best_live_perm live l l' r : (forall x, x ∈ l <-> x ∈ l') -> best_live live l r -> best_live live l' r.
Proof. intros Hl (H1 & H2 & H3). split; [by apply Hl|]. split; [done|]. intros r' Hr'. apply H3. by apply Hl. Qed.

Lemma select_spec n s i f live now : inv n s ->
  inv n (select_gateway hash s i f live now).1 /\ selected s i f live now (select_gateway hash s i f live now).2.
Proof.
  intros Hi. unfold select_gateway. destruct (current_plan s (i, f) live now) as [c|] eqn:Ec.
  { split; [done|]. cbn [snd selected]. pose proof Ec as Ec'. unfold current_plan in Ec'. destruct (plans s !! (i, f)) as [p|] eqn:Ep; [|done]. cbn [mbind option_bind] in Ec'.
    destruct (_ && _) eqn:Eb; [|done]. injection Ec' as <-. apply andb_true_iff in Eb as [[Eg _]%andb_true_iff El]. apply Z.eqb_eq in Eg.
    destruct (i_plan n s Hi i f p Ep) as [_ Hp]. destruct (Hp Eg) as (r & Hr & Hs & Hm). exists r. rewrite Hs in El. split_and!; try done. congruence. }
  set (s1 := with_plans s _). assert (inv n s1) as Hi1.
  { destruct Hi as [H1 H2 H3 H4 H5 H6 H7]. split; cbn [s1 with_plans pin_capacity pins plans snapshot table]; try done; [by apply delete_size|intros i' f' p [_ Hp]%lookup_delete_Some; by apply (H6 i' f')]. }
  assert (routes (snapshot s) = all_routes (table s)) as Er by (rewrite (i_snapshot n s Hi) at 1; apply build_routes).
  pose proof (candidates_spec (generation (snapshot s)) (all_routes (table s)) i) as Hc. fold (build_snapshot (table s) (generation (snapshot s))) in Hc.
  change (from_routes _ _) with (build_snapshot (table s) (generation (snapshot s))) in Hc. rewrite <- (i_snapshot n s Hi), <- Er in Hc.
  change (candidates (snapshot s1) i) with (candidates (snapshot s) i). destruct (candidates (snapshot s) i) as [c|]; cbn [mbind option_bind].
  - destruct Hc as (p & Hm & Hin). pose proof (eligible_spec live c) as He. destruct (eligible live c) as [[|first rest]|].
    + destruct He as [He _]. done.
    + destruct He as [_ He]. destruct (choose_spec n s1 first rest i f now p Hi1 Hm) as [Hi' (r & Hr & Er')].
      { intros r Hr. destruct (He r Hr) as [Hrc _]. by apply Hin. }
      destruct (choose hash s1 first rest i f now) as [s' c']. cbn [fst snd] in *. split; [done|]. cbn [selected]. destruct (He r Hr) as (Hrc & Hrl & Hb). apply Hin in Hrc as [Hr1 Hr2].
      exists r. rewrite Hr2. split_and!; try done. intros _. apply (best_live_perm live c); [|by apply He]. intros x. unfold of_prefix. rewrite list_elem_of_filter, Hin. tauto.
    + split; [done|]. cbn [snd selected]. right. exists p. split; [done|]. intros r Hr Hrp. apply He. by apply Hin.
  - split; [done|]. left. done.
Qed.

(** ** Runs *)
Inductive op : Type :=
| OReplace (source : RouteSource) (l : list ServiceRoute)
| OSelect (i : IpAddr) (flow : Z) (live : Z -> bool) (now : Z).
Definition exec (s : Store) (o : op) : Store :=
  match o with
  | OReplace source l => replace_source cidr_cmp s source l
  | OSelect i f live now => (select_gateway hash s i f live now).1
  end.
Definition run (s : Store) (l : list op) : Store := foldl exec s l.

Lemma exec_capacity s o : pin_capacity (exec s o) = pin_capacity s.
Proof.
  destruct o; [done|]. cbn [exec]. unfold select_gateway. destruct (current_plan _ _ _ _); [done|]. destruct (_ ≫= _) as [[|first rest]|]; [done| |done].
  assert (forall s k c now g, pin_capacity (store_plan s k c now g) = pin_capacity s) as Hp.
  { intros. unfold store_plan, reserve_plan_capacity. repeat case_match; done. }
  unfold choose. destruct (current_pin _ _ _ _); cbn [fst]; rewrite Hp; [done|]. unfold reserve_pin_capacity. repeat case_match; done.
Qed.

Lemma run_store_inv l : forall n s, inv n s -> n + len l < 2 ^ 64 -> inv (n + len l) (run s l) /\ pin_capacity (run s l) = pin_capacity s.
Proof.
  unfold len. induction l as [|o l IH]; intros n s Hi Hn; cbn [run foldl length] in *.
  - split; [|done]. by rewrite Z.add_0_r.
  - assert (inv (n + 1) (exec s o)) as H1.
    { destruct o; cbn [exec]; [apply inv_replace; [done|lia]|]. destruct (select_spec n s i flow live now Hi) as [[H1 H2 H3 H4 H5 H6 H7] _]. split; try done. lia. }
    destruct (IH (n + 1) (exec s o) H1 ltac:(lia)) as [Hr Hc]. rewrite exec_capacity in Hc. split; [|done]. replace (n + Z.of_nat (S (length l))) with (n + 1 + Z.of_nat (length l)) by lia. done.
Qed.

(** C22: gateways of service routes are selected correctly: after any sequence of replaced sources and
    selections both caches are within the capacity, and a selection is a live route of the longest
    prefix that covers the address; unless a plan of the same route generation still holds, no live
    route of that prefix has a better preference or, with the same preference, a better metric.
    Nothing is selected only when no prefix covers the address or no route of the longest is live. *)
Theorem service_route_selection cap ttl s0 l i f live now :
  new_store cap ttl = Ok s0 -> len l < 2 ^ 64 ->
  let s := run s0 l in
  let '(s', c) := select_gateway hash s i f live now in
  selected s i f live now c /\ routes (snapshot s) = all_routes (table s) /\
  size_of (pins s') <= cap /\ size_of (plans s') <= cap.
Proof.
  intros Hn Hl s. destruct (run_store_inv l 0 s0 (inv_new_store cap ttl s0 Hn) Hl) as [Hi Hc]. fold s in Hi, Hc.
  assert (pin_capacity s0 = cap) as Hcap by (unfold new_store in Hn; destruct (0 <? cap); [by injection Hn as <-|done]).
  destruct (select_spec (0 + len l) s i f live now Hi) as [Hi' Hsel].
  pose proof (exec_capacity s (OSelect i f live now)) as Hc'. cbn [exec] in Hc'.
  destruct (select_gateway hash s i f live now) as [s' c]. cbn [fst snd] in *. split; [done|]. split; [rewrite (i_snapshot _ s Hi) at 1; apply build_routes|].
  destruct Hi' as [_ H2 H3 _ _ _ _]. rewrite Hc', Hc, Hcap in *. done.
Qed.
End Props.

(** ** A witness *)
Definition sample_cmp (a b : IpCidr) : comparison :=
  match a, b with
  | CidrV4 a, CidrV4 b | CidrV6 a, CidrV6 b => then_with (c_addr a ?= c_addr b) (c_len a ?= c_len b)
  | CidrV4 _, CidrV6 _ => Lt
  | CidrV6 _, CidrV4 _ => Gt
  end.
Definition sample_hash (flow gateway path : Z) : Z := (flow * 31 + gateway * 17 + path) mod 101.
Definition sample_routes : list ServiceRoute := [
  mk_route (CidrV4 (mk_cidr 0x0a000000 8)) 1 900 0 1 Forward;
  mk_route (CidrV4 (mk_cidr 0x0a010000 16)) 2 100 5 2 Forward;
  mk_route (CidrV4 (mk_cidr 0x0a010000 16)) 3 100 7 3 ExitSnat;
  mk_route (CidrV4 (mk_cidr 0x0a010000 16)) 4 200 0 4 Forward].
Definition sample_store : Store (PM := map_maps) := mk_store (PM := map_maps) (fun _ => None) (default_snapshot (PM := map_maps)) ∅ ∅ 2 100.
Definition sample_ops : list op := [OReplace Static sample_routes; OSelect (V4 0x0a010203) 6 (fun g => g <? 4) 10; OSelect (V4 0x0a020304) 6 (fun _ => true) 11].

Lemma service_route_selection_witness :
  let '(s', c) := select_gateway (PM := map_maps) sample_hash (run (PM := map_maps) sample_cmp sample_hash sample_store sample_ops) (V4 0x0a010204) 9 (fun g => negb (g =? 4)) 12 in
  c = Some (mk_selection (CidrV4 (mk_cidr 0x0a010000 16)) 2 2 Forward) /\ size_of (pins s') <= 2 /\ size_of (plans s') <= 2.
Proof.
  pose proof (service_route_selection (PM := map_maps) (PL := map_maps_laws) sample_cmp sample_hash 2 100 sample_store sample_ops (V4 0x0a010204) 9 (fun g => negb (g =? 4)) 12
    ltac:(reflexivity) ltac:(reflexivity)) as H.
  cbv zeta in H. remember (select_gateway (PM := map_maps) sample_hash _ (V4 0x0a010204) 9 _ 12) as x eqn:E. destruct x as [s' c].
  destruct H as (_ & _ & H1 & H2). split; [|split; assumption].
  change c with (s', c).2. rewrite E. vm_compute. reflexivity.
Defined.
End ServiceRouteProps.
