(* ===== verification/PathPolicy.v ===== *)
(** * Paths chosen by the sender (src/lowertier/src/peers/path_policy.rs)

    Compilation of the configured groups and paths, their resolution against a forwarding snapshot,
    the choice of one member per segment for a flow, and the counters.  Text is a list of bytes.
    The base64 and cidr crates are arguments, prefix maps an interface; the logarithm of [f64] is
    an argument, because its last digits are not specified. *)
From Stdlib Require Import Floats.SpecFloat.
From stdpp Require Import base list gmap sets numbers strings.
From Stdlib Require Import ZArith Lia.
From S2P Require Import Prelude NetAddr TokenBucket Forwarding.

Local Open Scope Z_scope.

Module PathPolicy.
Import Prefix Net Forwarding.

Definition MAX_GROUPS : Z := 64.
Definition MAX_PATHS : Z := 64.
Definition MAX_MEMBERS : Z := 32.
Definition MAX_WAYPOINTS : Z := 4.
Definition MAX_WEIGHT : Z := 1000.

(** ** Configuration and policy *)
Record PathGroup : Type := mk_group { g_name : list Z; g_members : list (list Z); g_balance : list Z; g_weights : list Z }.
Record PathRule : Type := mk_path { p_to : list Z; p_via : list (list Z); p_gateway : list Z; p_strict : bool }.
Record Config : Type := mk_config { group : list PathGroup; path : list PathRule }.
#[export] Instance PathGroup_eq_dec : EqDecision PathGroup.
Proof. solve_decision. Defined.
#[export] Instance PathRule_eq_dec : EqDecision PathRule.
Proof. solve_decision. Defined.
#[export] Instance Config_eq_dec : EqDecision Config.
Proof. solve_decision. Defined.

Inductive PeerRef : Type := Key (k : list Z) | Ip (i : IpAddr).
#[export] Instance PeerRef_eq_dec : EqDecision PeerRef.
Proof. solve_decision. Defined.
Inductive Balance : Type := Flow | Failover.
#[export] Instance Balance_eq_dec : EqDecision Balance.
Proof. solve_decision. Defined.
Record Member : Type := mk_member { m_text : list Z; m_peer : PeerRef; weight : Z }.
Record Segment : Type := mk_segment { seg_name : list Z; balance : Balance; seg_members : list Member }.
Inductive Target : Type := TPeer (r : PeerRef) | TPrefix (c : IpCidr) | TInternet.
#[export] Instance Target_eq_dec : EqDecision Target.
Proof. solve_decision. Defined.
Record Rule : Type := mk_rule { to_text : list Z; to : Target; via : list Segment; gateway : option Segment; strict : bool }.

(** ** Errors of the configuration *)
Inductive EntryError : Type :=
| BadName | BadBalance | MemberCount | WeightCount | WeightsNeedFlow | NotAPeer (text : list Z) | ListedTwice (text : list Z) | BadWeight
| NotASegment (text : list Z) | BadTarget | TooManyWaypoints | GatewayOfPeer | InternetNeedsGateway | CidrNeedsHop | PathNeedsVia.
Inductive CompileError : Type :=
| TooManyGroups | TooManyPaths | InGroup (i : nat) (e : EntryError) | GroupTwice (i : nat) | InPath (i : nat) (e : EntryError) | TargetTwice (i : nat).

Definition with_context {E E' A} (f : E -> E') (x : outcome E A) : outcome E' A :=
  match x with Ok a => Ok a | Err e => Err (f e) | Panic => Panic end.

Section Crates.
Context {PM : PrefixMaps}.
Context (base64_decode : list Z -> option (list Z)) (cidr_from_str : list Z -> option IpCidr) (ln : spec_float -> spec_float).

Definition parse_peer (text : list Z) : option PeerRef :=
  match parse_ip text with
  | Some i => Some (Ip i)
  | None => k ← base64_decode text; if len k =? 32 then Some (Key k) else None
  end.

Definition is_name_char (c : Z) : bool :=
  ((48 <=? c) && (c <=? 57)) || ((65 <=? c) && (c <=? 90)) || ((97 <=? c) && (c <=? 122)) || (c =? 45) || (c =? 95).
Definition valid_group_name (name : list Z) : bool :=
  (1 <=? len name) && (len name <=? 32) && forallb is_name_char name && bool_decide (parse_peer name = None) &&
  negb (bool_decide (name = str "internet")).

Definition parse_balance (text : list Z) : option Balance :=
  if bool_decide (text = []) || bool_decide (text = str "flow") then Some Flow
  else if bool_decide (text = str "failover") then Some Failover else None.

(** the members of a group from index [i] on *)
Fixpoint compile_members (weights : list Z) (i : nat) (before : list Member) (l : list (list Z)) : outcome EntryError (list Member) :=
  match l with
  | [] => Ok before
  | text :: l =>
      peer ← ok_or (parse_peer text) (NotAPeer text);
      _ ← ensure (negb (existsb (fun m => bool_decide (m_peer m = peer)) before)) (ListedTwice text);
      let w := default 1 (weights !! i) in
      _ ← ensure ((1 <=? w) && (w <=? MAX_WEIGHT)) BadWeight;
      compile_members weights (S i) (before ++ [mk_member text peer w]) l
  end.
Definition compile_group (g : PathGroup) : outcome EntryError Segment :=
  _ ← ensure (valid_group_name (g_name g)) BadName;
  b ← ok_or (parse_balance (g_balance g)) BadBalance;
  _ ← ensure ((1 <=? len (g_members g)) && (len (g_members g) <=? MAX_MEMBERS)) MemberCount;
  _ ← ensure (bool_decide (g_weights g = []) || (len (g_weights g) =? len (g_members g))) WeightCount;
  _ ← ensure (bool_decide (g_weights g = []) || bool_decide (b = Flow)) WeightsNeedFlow;
  ms ← compile_members (g_weights g) 0 [] (g_members g);
  Ok (mk_segment (g_name g) b ms).

Definition compile_segment (groups : gmap (list Z) Segment) (text : list Z) : outcome EntryError Segment :=
  match groups !! text with
  | Some s => Ok s
  | None =>
      peer ← ok_or (parse_peer text) (NotASegment text);
      Ok (mk_segment text Failover [mk_member text peer 1])
  end.
Fixpoint compile_segments (groups : gmap (list Z) Segment) (l : list (list Z)) : outcome EntryError (list Segment) :=
  match l with
  | [] => Ok []
  | text :: l => s ← compile_segment groups text; rest ← compile_segments groups l; Ok (s :: rest)
  end.
Definition compile_target (text : list Z) : outcome EntryError Target :=
  if bool_decide (text = str "internet") then Ok TInternet
  else
    match parse_peer text with
    | Some p => Ok (TPeer p)
    | None => c ← ok_or (cidr_from_str text) BadTarget; Ok (TPrefix c)
    end.
Definition compile_rule (groups : gmap (list Z) Segment) (p : PathRule) : outcome EntryError Rule :=
  target ← compile_target (p_to p);
  _ ← ensure (len (p_via p) <=? MAX_WAYPOINTS) TooManyWaypoints;
  v ← compile_segments groups (p_via p);
  gw ← (if bool_decide (p_gateway p = []) then Ok None else g ← compile_segment groups (p_gateway p); Ok (Some g));
  let has_gateway := match gw with Some _ => true | None => false end in
  let has_via := negb (bool_decide (p_via p = [])) in
  _ ← match target with
      | TPeer _ => ensure (negb has_gateway) GatewayOfPeer
      | TInternet => ensure has_gateway InternetNeedsGateway
      | TPrefix _ => ensure (has_gateway || has_via) CidrNeedsHop
      end;
  _ ← ensure (has_gateway || has_via) PathNeedsVia;
  Ok (mk_rule (p_to p) target v gw (p_strict p)).

Fixpoint compile_groups (i : nat) (groups : gmap (list Z) Segment) (l : list PathGroup) : outcome CompileError (gmap (list Z) Segment) :=
  match l with
  | [] => Ok groups
  | g :: l =>
      s ← with_context (InGroup (S i)) (compile_group g);
      _ ← ensure (bool_decide (groups !! g_name g = None)) (GroupTwice (S i));
      compile_groups (S i) (<[g_name g := s]> groups) l
  end.
(** the text that the code compares for a target tells the targets apart *)
Fixpoint compile_rules (groups : gmap (list Z) Segment) (i : nat) (rules : list Rule) (l : list PathRule) : outcome CompileError (list Rule) :=
  match l with
  | [] => Ok rules
  | p :: l =>
      r ← with_context (InPath (S i)) (compile_rule groups p);
      _ ← ensure (negb (existsb (fun r' => bool_decide (to r' = to r)) rules)) (TargetTwice (S i));
      compile_rules groups (S i) (rules ++ [r]) l
  end.
Definition compile (c : Config) : outcome CompileError (list Rule) :=
  _ ← ensure (len (group c) <=? MAX_GROUPS) TooManyGroups;
  _ ← ensure (len (path c) <=? MAX_PATHS) TooManyPaths;
  groups ← compile_groups 0 ∅ (group c);
  compile_rules groups 0 [] (path c).

(** ** Runtime *)
Record RuleCounters : Type := mk_counters { waypoint_packets : Z; fallback_packets : Z; dropped_packets : Z; picks : list (list Z) }.
Record Compiled : Type := mk_compiled { source : option Config; policy : list Rule; counters : list RuleCounters; version : Z }.
Record ResolvedMember : Type := mk_resolved_member { rm_peer : option Z; reachable : bool; waypoint : bool; exit : bool }.
Record Resolved : Type := mk_resolved {
  r_generation : Z;
  r_version : Z;
  members : list (list (list ResolvedMember));
  peer_rules : gmap Z Z;
  rule_peers : list (option Z);
  prefix_v4 : PrefixMap Z;
  prefix_v6 : PrefixMap Z;
  internet : option Z;
}.
Record GatewayChoice : Type := mk_choice { gc_peer : Z; gc_rule : Z; gc_exit : bool }.
Inductive WaypointPlan : Type := Automatic | Via (chain : list Z) | Fallback | Drop.
Inductive Role : Type := Waypoint | Gateway.

Record t : Type := mk { my_peer_id : Z; compiled : option Compiled; resolved : option Resolved; flags : option Z }.
Definition new (my : Z) : t := mk my None None None.
Definition with_resolved (s : t) (r : option Resolved) : t := mk (my_peer_id s) (compiled s) r (flags s).
Definition with_compiled (s : t) (c : Compiled) : t := mk (my_peer_id s) (Some c) (resolved s) (flags s).
Definition with_counters (c : Compiled) (l : list RuleCounters) : Compiled := mk_compiled (source c) (policy c) l (version c).

(** the segments of a rule: the waypoints, then the gateway *)
Definition segments (r : Rule) : list Segment := via r ++ match gateway r with Some g => [g] | None => [] end.
Definition new_counters (r : Rule) : RuleCounters := mk_counters 0 0 0 (map (fun s => map (fun _ => 0) (seg_members s)) (segments r)).

(** [ptr] identifies the shared flags *)
Definition refresh (s : t) (ptr : Z) (path_policy : option Config) : t :=
  if bool_decide (flags s = Some ptr) then s
  else
    let s' :=
      if bool_decide (source <$> compiled s = Some path_policy) then s
      else
        let rules := match path_policy with
                     | Some c => match compile c with Ok r => r | _ => [] end
                     | None => []
                     end in
        let v := match compiled s with Some c => wrap 64 (version c + 1) | None => 1 end in
        mk (my_peer_id s) (Some (mk_compiled path_policy rules (map new_counters rules) v)) None (flags s) in
    mk (my_peer_id s') (compiled s') (resolved s') (Some ptr).
Definition is_active (s : t) : bool := match compiled s with Some c => negb (bool_decide (length (policy c) = 0%nat)) | None => false end.

(** *** Resolution *)
Definition keys_of (snap : ForwardingDecisionSnapshot) : gmap (list Z) Z :=
  foldl (fun m p => match static_pubkey p with Some k => <[k := peer_id p]> m | None => m end) ∅ (peers (capabilities snap)).
Definition resolve_ref (r : PeerRef) (snap : ForwardingDecisionSnapshot) (keys : gmap (list Z) Z) : option Z :=
  match r with Key k => keys !! k | Ip i => peer_id_by_ip snap i end.
Definition forwards (f : PeerFeatureFlag) : bool := waypoint_v1 f && relay_semantics_v1 f && negb (deny_transit_data f).
Definition is_some_and {A} (o : option A) (f : A -> bool) : bool := match o with Some a => f a | None => false end.
Definition is_some {A} (o : option A) : bool := match o with Some _ => true | None => false end.
Definition resolve_member (snap : ForwardingDecisionSnapshot) (keys : gmap (list Z) Z) (my : Z) (r : PeerRef) : ResolvedMember :=
  match resolve_ref r snap keys with
  | None => mk_resolved_member None false false false
  | Some p =>
      let features := i ← get (capabilities snap) p; feature_flag i in
      mk_resolved_member (Some p) (negb (p =? my) && is_some (next_hop snap p LeastCost)) (is_some_and features forwards) (is_some_and features exit_node)
  end.
Definition resolve_segment (snap : ForwardingDecisionSnapshot) (keys : gmap (list Z) Z) (my : Z) (s : Segment) : list ResolvedMember :=
  map (fun m => resolve_member snap keys my (m_peer m)) (seg_members s).
Definition add_rule (snap : ForwardingDecisionSnapshot) (keys : gmap (list Z) Z) (my : Z) (r : Resolved) (x : nat * Rule) : Resolved :=
  let index := wrap 16 (Z.of_nat x.1) in
  let rule := x.2 in
  let ms := members r ++ [map (resolve_segment snap keys my) (segments rule)] in
  let mk' peer_rules rp v4 v6 inet := mk_resolved (r_generation r) (r_version r) ms peer_rules (rule_peers r ++ [rp]) v4 v6 inet in
  match to rule with
  | TPeer ref =>
      match resolve_ref ref snap keys with
      | Some p => mk' (<[p := index]> (peer_rules r)) (Some p) (prefix_v4 r) (prefix_v6 r) (internet r)
      | None => mk' (peer_rules r) None (prefix_v4 r) (prefix_v6 r) (internet r)
      end
  | TPrefix (CidrV4 c) => mk' (peer_rules r) None (pm_insert c index (prefix_v4 r)) (prefix_v6 r) (internet r)
  | TPrefix (CidrV6 c) => mk' (peer_rules r) None (prefix_v4 r) (pm_insert c index (prefix_v6 r)) (internet r)
  | TInternet => mk' (peer_rules r) None (prefix_v4 r) (prefix_v6 r) (Some index)
  end.
Definition resolve (c : Compiled) (snap : ForwardingDecisionSnapshot) (my : Z) : Resolved :=
  foldl (add_rule snap (keys_of snap) my) (mk_resolved (fs_generation snap) (version c) [] ∅ [] pm_new pm_new None) (imap pair (policy c)).

(** the cached resolution, renewed when the snapshot or the policy is another *)
Definition resolved_for (s : t) (snap : ForwardingDecisionSnapshot) : t * option (Compiled * Resolved) :=
  match compiled s with
  | None => (s, None)
  | Some c =>
      if bool_decide (length (policy c) = 0%nat) then (s, None)
      else
        let fresh := let r := resolve c snap (my_peer_id s) in (with_resolved s (Some r), Some (c, r)) in
        match resolved s with
        | Some r => if (r_generation r =? fs_generation snap) && (r_version r =? version c) then (s, Some (c, r)) else fresh
        | None => fresh
        end
  end.

(** *** The choice of a member *)
Definition mix (v : Z) : Z :=
  let v := Z.lxor v (Z.shiftr v 30) in
  let v := wrap 64 (v * 0xbf58476d1ce4e5b9) in
  let v := Z.lxor v (Z.shiftr v 27) in
  let v := wrap 64 (v * 0x94d049bb133111eb) in
  Z.lxor v (Z.shiftr v 31).
Definition f64_half : spec_float := F64.div (F64.of_u 1) (F64.of_u 2).
Definition score (flow salt peer weight : Z) : spec_float :=
  let hash := mix (Z.lxor flow (mix (Z.lxor salt (wrap 64 (Z.shiftl peer 20))))) in
  let unit := F64.div (SFadd F64.prec F64.emax (F64.of_u (Z.shiftr hash 11)) f64_half) (F64.of_u (2 ^ 53)) in
  F64.div (F64.of_u weight) (SFopp (ln unit)).
(** the rank of a number in [total_cmp], by its bits; NaN is the positive quiet one *)
Definition total_key (x : spec_float) : Z :=
  let signed (s : bool) (m : Z) := if s then - m - 1 else m in
  match x with
  | S754_zero s => signed s 0
  | S754_infinity s => signed s 0x7ff0000000000000
  | S754_nan => 0x7ff8000000000000
  | S754_finite s m e => signed s (if Zpos m <? 2 ^ 52 then Zpos m else (e + 1075) * 2 ^ 52 + (Zpos m - 2 ^ 52))
  end.

Definition usable (role : Role) (excluded : list Z) (exports : Z -> bool) (m : ResolvedMember) : option Z :=
  p ← rm_peer m;
  let capable := match role with Waypoint => waypoint m | Gateway => exit m || exports p end in
  if reachable m && capable && negb (bool_decide (p ∈ excluded)) then Some p else None.
(** the usable members with their indexes *)
Definition candidates (role : Role) (excluded : list Z) (exports : Z -> bool) (ms : list ResolvedMember) : list (nat * Z) :=
  omap (fun x => (fun p => (x.1, p)) <$> usable role excluded exports x.2) (imap pair ms).
(** [max_by]: the later of equals *)
Fixpoint max_by (rank : nat * Z -> outcome unit Z) (best : nat * Z) (l : list (nat * Z)) : outcome unit (nat * Z) :=
  match l with
  | [] => Ok best
  | x :: l =>
      kb ← rank best;
      kx ← rank x;
      max_by rank (if kx <? kb then best else x) l
  end.
Definition rank_of (seg : Segment) (flow salt : Z) (x : nat * Z) : outcome unit Z :=
  m ← unwrap (seg_members seg !! x.1);
  Ok (total_key (score flow salt x.2 (weight m))).
Definition pick (seg : Segment) (ms : list ResolvedMember) (flow salt : Z) (role : Role) (excluded : list Z) (exports : Z -> bool)
    : outcome unit (option (nat * Z)) :=
  match balance seg, candidates role excluded exports ms with
  | _, [] => Ok None
  | Failover, x :: _ => Ok (Some x)
  | Flow, x :: l => best ← max_by (rank_of seg flow salt) x l; Ok (Some best)
  end.

(** *** Counters *)
Definition add_waypoint (c : RuleCounters) (n : Z) : RuleCounters := mk_counters (wrap 64 (waypoint_packets c + n)) (fallback_packets c) (dropped_packets c) (picks c).
Definition add_fallback (c : RuleCounters) : RuleCounters := mk_counters (waypoint_packets c) (wrap 64 (fallback_packets c + 1)) (dropped_packets c) (picks c).
Definition add_dropped (c : RuleCounters) : RuleCounters := mk_counters (waypoint_packets c) (fallback_packets c) (wrap 64 (dropped_packets c + 1)) (picks c).
Definition add_pick (c : RuleCounters) (x : nat * nat) : outcome unit RuleCounters :=
  row ← unwrap (picks c !! x.1);
  n ← unwrap (row !! x.2);
  Ok (mk_counters (waypoint_packets c) (fallback_packets c) (dropped_packets c) (<[x.1 := <[x.2 := wrap 64 (n + 1)]> row]> (picks c))).
Fixpoint add_picks (c : RuleCounters) (l : list (nat * nat)) : outcome unit RuleCounters :=
  match l with
  | [] => Ok c
  | x :: l => c ← add_pick c x; add_picks c l
  end.
(** update the counters of one rule of the shared policy *)
Definition count (s : t) (c : Compiled) (i : nat) (f : RuleCounters -> outcome unit RuleCounters) : outcome unit t :=
  x ← unwrap (counters c !! i);
  y ← f x;
  Ok (with_compiled s (with_counters c (<[i := y]> (counters c)))).

(** *** Gateways *)
Definition gateway_for_rule (s : t) (c : Compiled) (r : Resolved) (rule_index flow : Z) (exports : Z -> bool) : outcome unit (t * option GatewayChoice) :=
  let i := Z.to_nat rule_index in
  match policy c !! i with
  | None => Ok (s, None)
  | Some rule =>
      match gateway rule with
      | None => Ok (s, None)
      | Some g =>
          mss ← unwrap (members r !! i);
          match last mss with
          | None => Ok (s, None)
          | Some ms =>
              let salt := Z.lor (Z.shiftl rule_index 8) (len (via rule)) in
              picked ← pick g ms flow salt Gateway [] exports;
              match picked with
              | None => s ← count s c i (fun x => Ok (add_fallback x)); Ok (s, None)
              | Some (m, p) => s ← count s c i (fun x => add_pick x (length (via rule), m)); Ok (s, Some (mk_choice p rule_index (negb (exports p))))
              end
          end
      end
  end.

Definition prefix_rule (r : Resolved) (i : IpAddr) : option Z :=
  match i with
  | V4 a => snd <$> pm_get_lpm 32 (prefix_v4 r) a
  | V6 a => snd <$> pm_get_lpm 128 (prefix_v6 r) a
  end.
(** a peer that announces the best service route for the address *)
Definition exports_of (snap : ForwardingDecisionSnapshot) (i : IpAddr) (p : Z) : bool :=
  is_some_and (ServiceRoute.candidates (service_routes snap) i) (existsb (fun r => ServiceRoute.gateway r =? p)).

Definition cidr_gateway (s : t) (snap : ForwardingDecisionSnapshot) (i : IpAddr) (flow : Z) : outcome unit (t * option GatewayChoice) :=
  match resolved_for s snap with
  | (s, None) => Ok (s, None)
  | (s, Some (c, r)) =>
      match prefix_rule r i with
      | None => Ok (s, None)
      | Some rule => gateway_for_rule s c r rule flow (exports_of snap i)
      end
  end.
Definition internet_gateway (s : t) (snap : ForwardingDecisionSnapshot) (flow : Z) : outcome unit (t * option GatewayChoice) :=
  match resolved_for s snap with
  | (s, None) => Ok (s, None)
  | (s, Some (c, r)) =>
      match internet r with
      | None => Ok (s, None)
      | Some rule => gateway_for_rule s c r rule flow (fun _ => false)
      end
  end.
Definition rule_for_address (s : t) (snap : ForwardingDecisionSnapshot) (i : IpAddr) : t * option Z :=
  match resolved_for s snap with
  | (s, None) => (s, None)
  | (s, Some (_, r)) => (s, prefix_rule r i)
  end.

(** the first rule with waypoints whose gateway may be the peer *)
Fixpoint gateway_rule (l : list (nat * Rule)) (r : Resolved) (p : Z) : outcome unit (option Z) :=
  match l with
  | [] => Ok None
  | (i, rule) :: l =>
      if is_some (gateway rule) && negb (bool_decide (length (via rule) = 0%nat)) then
        mss ← unwrap (members r !! i);
        if is_some_and (last mss) (existsb (fun m => bool_decide (rm_peer m = Some p))) then Ok (Some (wrap 16 (Z.of_nat i)))
        else gateway_rule l r p
      else gateway_rule l r p
  end.
Definition rule_for_destination (s : t) (snap : ForwardingDecisionSnapshot) (p : Z) : outcome unit (t * option Z) :=
  match resolved_for s snap with
  | (s, None) => Ok (s, None)
  | (s, Some (c, r)) =>
      match peer_rules r !! p with
      | Some rule => Ok (s, Some rule)
      | None => x ← gateway_rule (imap pair (policy c)) r p; Ok (s, x)
      end
  end.

(** *** Waypoints *)
(** one member per segment; [None] when a segment has no usable member *)
Fixpoint plan_via (mss : list (list ResolvedMember)) (rule_index destination flow : Z) (position : nat) (chain : list Z) (picked : list (nat * nat))
    (l : list Segment) : outcome unit (option (list Z * list (nat * nat))) :=
  match l with
  | [] => Ok (Some (chain, picked))
  | seg :: l =>
      let salt := Z.lor (Z.shiftl rule_index 8) (Z.of_nat position) in
      ms ← unwrap (mss !! position);
      x ← pick seg ms flow salt Waypoint (chain ++ [destination]) (fun _ => false);
      match x with
      | Some (m, p) => plan_via mss rule_index destination flow (S position) (chain ++ [p]) (picked ++ [(position, m)]) l
      | None => Ok None
      end
  end.
Definition waypoints (s : t) (snap : ForwardingDecisionSnapshot) (rule_index destination flow : Z) : outcome unit (t * WaypointPlan) :=
  match resolved_for s snap with
  | (s, None) => Ok (s, Automatic)
  | (s, Some (c, r)) =>
      let i := Z.to_nat rule_index in
      match policy c !! i with
      | None => Ok (s, Automatic)
      | Some rule =>
          if bool_decide (length (via rule) = 0%nat) then Ok (s, Automatic)
          else
            _ ← unwrap (counters c !! i);
            mss ← unwrap (members r !! i);
            x ← plan_via mss rule_index destination flow 0 [] [] (via rule);
            match x with
            | Some (chain, picked) => s ← count s c i (fun x => add_picks (add_waypoint x 1) picked); Ok (s, Via chain)
            | None =>
                if strict rule then s ← count s c i (fun x => Ok (add_dropped x)); Ok (s, Drop)
                else s ← count s c i (fun x => Ok (add_fallback x)); Ok (s, Fallback)
            end
      end
  end.

Definition record_send_fallback (s : t) (rule_index : Z) (is_strict : bool) : t :=
  match compiled s with
  | None => s
  | Some c =>
      match counters c !! Z.to_nat rule_index with
      | None => s
      | Some x =>
          let x := add_waypoint x (-1) in
          let x := if is_strict then add_dropped x else add_fallback x in
          with_compiled s (with_counters c (<[Z.to_nat rule_index := x]> (counters c)))
      end
  end.
Definition is_strict (s : t) (rule_index : Z) : bool :=
  is_some_and (compiled s) (fun c => is_some_and (policy c !! Z.to_nat rule_index) strict).
End Crates.
End PathPolicy.
