(* ===== verification/PathPolicyProps.v ===== *)
(** * Properties of sender-chosen paths

    Compiled policies are within their limits, no operation of src/lowertier/src/peers/path_policy.rs
    panics, the waypoints of a plan are distinct, reachable and willing to forward, a flow moves only
    when its own members go, and a gateway comes from the path with the longest prefix. *)
From Stdlib Require Import Floats.SpecFloat.
From stdpp Require Import base list gmap sets numbers strings.
From Stdlib Require Import ZArith Lia.
From S2P Require Import Prelude NetAddr TokenBucket Forwarding PathPolicy.

Local Open Scope Z_scope.

Module PathPolicyProps.
Import Prefix Net Forwarding PathPolicy.

(** ** Lists *)
Lemma omap_split {A B} (f : A -> option B) (l : list A) l1 x l2 : omap f l = l1 ++ x :: l2 ->
  exists k1 y k2, l = k1 ++ y :: k2 /\ f y = Some x /\ omap f k1 = l1 /\ omap f k2 = l2.
Proof.
  revert l1. induction l as [|a l IH]; intros l1 H; cbn in H; [by destruct l1|]. destruct (f a) as [b|] eqn:E.
  - destruct l1 as [|b' l1]; cbn in H; injection H as -> H.
    + by exists [], a, l.
    + destruct (IH l1 H) as (k1 & y & k2 & -> & Hy & <- & <-). exists (a :: k1), y, k2. cbn. by rewrite E.
  - destruct (IH l1 H) as (k1 & y & k2 & -> & Hy & <- & <-). exists (a :: k1), y, k2. cbn. by rewrite E.
Qed.
Lemma omap_sub {A B} (f g : A -> option B) (l : list A) : (forall a b, g a = Some b -> f a = Some b) -> forall b, b ∈ omap g l -> b ∈ omap f l.
Proof. intros H b (a & Ha & Hb)%list_elem_of_omap. apply list_elem_of_omap. exists a. split; [done|by apply H]. Qed.
Lemma imap_pair_snoc {A} (l : list A) x : imap pair (l ++ [x]) = imap pair l ++ [(length l, x)].
Proof. rewrite imap_app. cbn. by rewrite Nat.add_0_r. Qed.

(** ** Compiled policies *)
Definition seg_ok (s : Segment) : Prop :=
  1 <= len (seg_members s) <= MAX_MEMBERS /\ NoDup (m_peer <$> seg_members s) /\ Forall (fun m => 1 <= weight m <= MAX_WEIGHT) (seg_members s).
Definition rule_ok (r : Rule) : Prop :=
  len (via r) <= MAX_WAYPOINTS /\ Forall seg_ok (segments r) /\ segments r <> [] /\
  match to r with TPeer _ => gateway r = None | TInternet => is_Some (gateway r) | TPrefix _ => True end.
Definition policy_ok (l : list Rule) : Prop := len l <= MAX_PATHS /\ Forall rule_ok l /\ NoDup (to <$> l).

Section Props.
Context {PM : PrefixMaps} {PL : PrefixMapLaws}.
Context (base64_decode : list Z -> option (list Z)) (cidr_from_str : list Z -> option IpCidr) (ln : spec_float -> spec_float).

Lemma members_ok weights l : forall i before, NoDup (m_peer <$> before) -> Forall (fun m => 1 <= weight m <= MAX_WEIGHT) before ->
  compile_members base64_decode weights i before l <> Panic /\
  forall ms, compile_members base64_decode weights i before l = Ok ms ->
    len ms = len before + len l /\ NoDup (m_peer <$> ms) /\ Forall (fun m => 1 <= weight m <= MAX_WEIGHT) ms.
Proof.
  unfold len. induction l as [|text l IH]; intros i before Hn Hw; cbn [compile_members].
  - split; [done|]. intros ms [= <-]. split; [cbn; lia|done].
  - destruct (parse_peer base64_decode text) as [peer|]; cbn [ok_or mbind outcome_bind]; [|done].
    destruct (existsb _ before) eqn:Ee; cbn [negb ensure mbind outcome_bind]; [done|].
    destruct ((1 <=? _) && _) eqn:Ew; cbn [ensure mbind outcome_bind]; [|done]. apply andb_true_iff in Ew as [W1%Z.leb_le W2%Z.leb_le].
    destruct (IH (S i) (before ++ [mk_member text peer (default 1 (weights !! i))])) as [IH1 IH2].
    + rewrite fmap_app. apply NoDup_app. split; [done|]. split; [|apply NoDup_singleton]. intros x Hx ->%list_elem_of_singleton. cbn in *.
      apply list_elem_of_fmap in Hx as (m & Hm & Hin). assert (existsb (fun m => bool_decide (m_peer m = peer)) before = true); [|congruence].
      apply existsb_exists. exists m. split; [by apply list_elem_of_In|]. by apply bool_decide_eq_true.
    + apply Forall_app. split; [done|]. by apply Forall_singleton.
    + split; [done|]. intros ms Hms. destruct (IH2 ms Hms) as (H1 & H2 & H3). split; [|done]. rewrite H1, length_app. cbn. lia.
Qed.

Lemma group_ok g : compile_group base64_decode g <> Panic /\ forall s, compile_group base64_decode g = Ok s -> seg_ok s.
Proof.
  unfold compile_group. destruct (valid_group_name _ _); cbn [ensure mbind outcome_bind]; [|done]. destruct (parse_balance _); cbn [ok_or mbind outcome_bind]; [|done].
  destruct ((1 <=? len (g_members g)) && _) eqn:El; cbn [ensure mbind outcome_bind]; [|done]. apply andb_true_iff in El as [L1%Z.leb_le L2%Z.leb_le].
  destruct (_ || (_ =? _)); cbn [ensure mbind outcome_bind]; [|done]. destruct (_ || bool_decide (b = Flow)); cbn [ensure mbind outcome_bind]; [|done].
  destruct (members_ok (g_weights g) (g_members g) 0 [] ltac:(constructor) ltac:(constructor)) as [H1 H2].
  destruct (compile_members _ _ _ _ _) as [ms|e|]; cbn [mbind outcome_bind]; [|done|done]. split; [done|]. intros s [= <-]. destruct (H2 ms eq_refl) as (Hl & Hn & Hw).
  split; cbn [seg_members]; [|done]. rewrite Hl. change (len (@nil Member)) with 0. lia.
Qed.

Definition groups_ok (m : gmap (list Z) Segment) : Prop := forall k s, m !! k = Some s -> seg_ok s.

Lemma groups_compiled l : forall i m, groups_ok m -> compile_groups base64_decode i m l <> Panic /\ forall m', compile_groups base64_decode i m l = Ok m' -> groups_ok m'.
Proof.
  induction l as [|g l IH]; intros i m Hm; cbn [compile_groups]; [split; [done|]; by intros m' [= <-]|].
  destruct (group_ok g) as [H1 H2]. destruct (compile_group _ g) as [s|e|]; cbn [with_context mbind outcome_bind]; [|done|done].
  destruct (bool_decide _); cbn [ensure mbind outcome_bind]; [|done]. apply IH. intros k s' [[<- <-]|[_ Hk]]%lookup_insert_Some; [by apply H2|by apply (Hm k)].
Qed.

Lemma segment_ok m text : groups_ok m -> compile_segment base64_decode m text <> Panic /\ forall s, compile_segment base64_decode m text = Ok s -> seg_ok s.
Proof.
  intros Hm. unfold compile_segment. destruct (m !! text) as [s|] eqn:E; [split; [done|]; intros s' [= <-]; by apply (Hm text)|].
  destruct (parse_peer _ _) as [p|]; cbn [ok_or mbind outcome_bind]; [|done]. split; [done|]. intros s [= <-]. unfold seg_ok, len, MAX_MEMBERS, MAX_WEIGHT. cbn.
  split; [lia|]. split; [apply NoDup_singleton|]. apply Forall_singleton. cbn. lia.
Qed.
Lemma segments_ok m l : groups_ok m -> compile_segments base64_decode m l <> Panic /\
  forall ss, compile_segments base64_decode m l = Ok ss -> Forall seg_ok ss /\ length ss = length l.
Proof.
  intros Hm. induction l as [|text l [IH1 IH2]]; cbn [compile_segments]; [split; [done|]; by intros ss [= <-]|].
  destruct (segment_ok m text Hm) as [H1 H2]. destruct (compile_segment _ m text) as [s|e|]; cbn [mbind outcome_bind]; [|done|done].
  destruct (compile_segments _ m l) as [ss|e|]; cbn [mbind outcome_bind]; [|done|done]. split; [done|]. intros ss' [= <-]. destruct (IH2 ss eq_refl) as [H3 H4].
  split; [by constructor; [apply H2|]|]. cbn. by rewrite H4.
Qed.

Lemma rule_compiled m p : groups_ok m -> compile_rule base64_decode cidr_from_str m p <> Panic /\ forall r, compile_rule base64_decode cidr_from_str m p = Ok r -> rule_ok r.
Proof.
  intros Hm. unfold compile_rule. assert (compile_target base64_decode cidr_from_str (p_to p) <> Panic) as Ht.
  { unfold compile_target. destruct (bool_decide _); [done|]. destruct (parse_peer _ _); [done|]. by destruct (cidr_from_str _). }
  destruct (compile_target _ _ _) as [tg|e|]; cbn [mbind outcome_bind]; [|done|done].
  destruct (len (p_via p) <=? MAX_WAYPOINTS) eqn:El; cbn [ensure mbind outcome_bind]; [|done]. apply Z.leb_le in El.
  destruct (segments_ok m (p_via p) Hm) as [H1 H2]. destruct (compile_segments _ m _) as [v|e|]; cbn [mbind outcome_bind]; [|done|done]. destruct (H2 v eq_refl) as [Hv Hlv].
  assert (exists x, (if bool_decide (p_gateway p = []) then Ok None else g ← compile_segment base64_decode m (p_gateway p); Ok (Some g)) = x /\ x <> Panic /\
    forall gw, x = Ok gw -> Forall seg_ok match gw with Some g => [g] | None => [] end) as (x & -> & Hx & Hg).
  { eexists. split; [done|]. destruct (bool_decide _); [split; [done|]; intros gw [= <-]; constructor|]. destruct (segment_ok m (p_gateway p) Hm) as [G1 G2].
    destruct (compile_segment _ m (p_gateway p)) as [g|e|]; cbn [mbind outcome_bind]; [|done|done]. split; [done|]. intros gw [= <-]. apply Forall_singleton. by apply G2. }
  destruct x as [gw|e|]; cbn [mbind outcome_bind]; [|done|done]. specialize (Hg gw eq_refl).
  assert (negb (bool_decide (p_via p = [])) = true -> v <> []) as Hnv by (intros Hb ->; destruct (p_via p); [done|cbn in Hlv; done]).
  set (hv := negb _) in *. assert (forall r, (_ ← ensure (match gw with Some _ => true | None => false end || hv) PathNeedsVia; Ok (mk_rule (p_to p) tg v gw (p_strict p))) = Ok r ->
    match tg with TPeer _ => gw = None | TInternet => is_Some gw | TPrefix _ => True end -> rule_ok r) as Hr.
  { intros r Hr Hs. destruct (_ || hv) eqn:Eo; cbn [ensure mbind outcome_bind] in Hr; [|done]. injection Hr as <-. unfold rule_ok, segments, len in *. cbn [via gateway to]. rewrite Hlv.
    split; [done|]. split; [by apply Forall_app|]. split; [|done]. destruct gw; [by destruct v|]. cbn in Eo. specialize (Hnv Eo). by destruct v. }
  destruct tg, gw, hv; cbn [ensure mbind outcome_bind negb orb] in *; (split; [done|]); intros r' Hr'; try discriminate Hr'; apply Hr; done.
Qed.

Lemma compile_ok c : compile base64_decode cidr_from_str c <> Panic /\ forall l, compile base64_decode cidr_from_str c = Ok l -> policy_ok l.
Proof.
  unfold compile. destruct (len (group c) <=? _); cbn [ensure mbind outcome_bind]; [|done]. destruct (len (path c) <=? MAX_PATHS) eqn:El; cbn [ensure mbind outcome_bind]; [|done]. apply Z.leb_le in El.
  destruct (groups_compiled (group c) 0 ∅) as [H1 H2]; [intros k s; by rewrite lookup_empty|]. destruct (compile_groups _ _ _ _) as [m|e|]; cbn [mbind outcome_bind]; [|done|done].
  specialize (H2 m eq_refl). assert (forall ps i rules, Forall rule_ok rules -> NoDup (to <$> rules) -> compile_rules base64_decode cidr_from_str m i rules ps <> Panic /\
    forall l, compile_rules base64_decode cidr_from_str m i rules ps = Ok l -> len l = len rules + len ps /\ Forall rule_ok l /\ NoDup (to <$> l)) as Hr.
  { unfold len. induction ps as [|p ps IH]; intros i rules Hf Hn; cbn [compile_rules].
    - split; [done|]. intros l [= <-]. split; [cbn; lia|done].
    - destruct (rule_compiled m p H2) as [R1 R2]. destruct (compile_rule _ _ m p) as [r|e|]; cbn [with_context mbind outcome_bind]; [|done|done].
      destruct (existsb _ rules) eqn:Ee; cbn [negb ensure mbind outcome_bind]; [done|]. destruct (IH (S i) (rules ++ [r])) as [I1 I2].
      + apply Forall_app. split; [done|]. apply Forall_singleton. by apply R2.
      + rewrite fmap_app. apply NoDup_app. split; [done|]. split; [|apply NoDup_singleton]. intros x Hx ->%list_elem_of_singleton. apply list_elem_of_fmap in Hx as (r' & Hr' & Hin).
        assert (existsb (fun r' => bool_decide (to r' = to r)) rules = true); [|congruence]. apply existsb_exists. exists r'. split; [by apply list_elem_of_In|]. by apply bool_decide_eq_true.
      + split; [done|]. intros l Hl. destruct (I2 l Hl) as (L1 & L2 & L3). split; [|done]. rewrite L1, length_app. cbn. lia. }
  destruct (Hr (path c) 0%nat [] ltac:(constructor) ltac:(constructor)) as [R1 R2]. split; [done|]. intros l Hl. destruct (R2 l Hl) as (L1 & L2 & L3). split; [|done].
  rewrite L1. change (len (@nil Rule)) with 0. lia.
Qed.

(** ** The choice of a member *)
Notation ranked key l1 x l2 := ((forall y, y ∈ l1 -> key y <= key x) /\ (forall y, y ∈ l2 -> key y < key x)) (only parsing).

(** a list has one element that beats all before and after it, and [max_by] finds it *)
Lemma max_by_spec rank key l : forall b, (forall y, y ∈ b :: l -> rank y = Ok (key y)) ->
  exists l1 x l2, b :: l = l1 ++ x :: l2 /\ max_by rank b l = Ok x /\ ranked key l1 x l2.
Proof.
  induction l as [|y l IH]; intros b Hr; cbn [max_by].
  - exists [], b, []. split; [done|]. split; [done|]. split; intros z Hz; by apply elem_of_nil in Hz.
  - rewrite (Hr b), (Hr y) by set_solver. cbn [mbind outcome_bind]. destruct (key y <? key b) eqn:E; bool_to_Z.
    + destruct (IH b) as (l1 & x & l2 & Hl & Hm & H1 & H2); [intros z Hz; apply Hr; set_solver|]. rewrite Hm. destruct l1 as [|b' l1]; cbn in Hl; injection Hl as -> ->.
      * exists [], x, (y :: l2). split; [done|]. split; [done|]. split; [done|]. intros z [->|Hz]%elem_of_cons; [done|by apply H2].
      * exists (b' :: y :: l1), x, l2. split; [done|]. split; [done|]. split; [|done]. specialize (H1 b') as H3. intros z [->|[->|Hz]%elem_of_cons]%elem_of_cons.
        -- apply H3. by left.
        -- specialize (H3 ltac:(by left)). lia.
        -- apply H1. by right.
    + destruct (IH y) as (l1 & x & l2 & Hl & Hm & H1 & H2); [intros z Hz; apply Hr; set_solver|]. rewrite Hm. exists (b :: l1), x, l2. rewrite Hl. split; [done|]. split; [done|]. split; [|done].
      intros z [->|Hz]%elem_of_cons; [|by apply H1]. destruct l1 as [|y' l1]; cbn in Hl; injection Hl as -> ->; [done|]. specialize (H1 y' ltac:(by left)). lia.
Qed.
Lemma ranked_unique (key : nat * Z -> Z) l1 x l2 k1 y k2 : l1 ++ x :: l2 = k1 ++ y :: k2 -> ranked key l1 x l2 -> ranked key k1 y k2 -> x = y.
Proof.
  revert k1. induction l1 as [|a l1 IH]; intros [|b k1] H [A1 A2] [B1 B2]; cbn in H; injection H as H H'; subst.
  - done.
  - specialize (B1 b ltac:(by left)). specialize (A2 y ltac:(set_solver)). lia.
  - specialize (A1 y ltac:(by left)). specialize (B2 x ltac:(set_solver)). lia.
  - apply (IH k1 H'); split; [intros z Hz; apply A1; by right|done|intros z Hz; apply B1; by right|done].
Qed.

Definition key_of (seg : Segment) (flow salt : Z) (x : nat * Z) : Z :=
  match seg_members seg !! x.1 with Some m => total_key (score ln flow salt x.2 (weight m)) | None => 0 end.

Lemma candidates_in role excluded exports ms i p : (i, p) ∈ candidates role excluded exports ms <->
  exists m, ms !! i = Some m /\ usable role excluded exports m = Some p.
Proof.
  unfold candidates. rewrite list_elem_of_omap. split.
  - intros ([j m] & Hin & He). apply list_elem_of_lookup in Hin as [k Hk]. rewrite list_lookup_imap in Hk. destruct (ms !! k) eqn:Em; [|done]. cbn in Hk. injection Hk as <- <-.
    cbn in He. destruct (usable _ _ _ _) eqn:Eu; [|done]. cbn in He. injection He as <- <-. eauto.
  - intros (m & Hm & Hu). exists (i, m). split; [|cbn; by rewrite Hu]. apply list_elem_of_lookup. exists i. by rewrite list_lookup_imap, Hm.
Qed.

(** the member that a segment gives: the first, or the one that ranks best *)
Definition preferred (seg : Segment) (flow salt : Z) (l1 : list (nat * Z)) (x : nat * Z) (l2 : list (nat * Z)) : Prop :=
  match balance seg with Failover => l1 = [] | Flow => ranked (key_of seg flow salt) l1 x l2 end.

Lemma pick_spec seg ms flow salt role excluded exports : length ms = length (seg_members seg) ->
  exists r, pick ln seg ms flow salt role excluded exports = Ok r /\
  match r with
  | Some x => exists l1 l2, candidates role excluded exports ms = l1 ++ x :: l2 /\ preferred seg flow salt l1 x l2
  | None => candidates role excluded exports ms = []
  end.
Proof.
  intros Hl. unfold pick, preferred. destruct (candidates _ _ _ ms) as [|x l] eqn:Ec; [eexists; split; [by destruct (balance seg)|done]|].
  destruct (balance seg).
  - destruct (max_by_spec (rank_of ln seg flow salt) (key_of seg flow salt) l x) as (l1 & y & l2 & Hx & Hm & Hr).
    + intros [i p] Hin. rewrite <- Ec in Hin. apply candidates_in in Hin as (m & Hm & _). apply lookup_lt_Some in Hm. rewrite Hl in Hm. apply lookup_lt_is_Some in Hm as [m' Hm'].
      unfold rank_of, key_of. cbn [fst snd]. rewrite Hm'. done.
    + rewrite Hm. cbn [mbind outcome_bind]. eexists. split; [done|]. by exists l1, l2.
  - eexists. split; [done|]. by exists [], l.
Qed.
Lemma pick_unique seg ms flow salt role excluded exports l1 x l2 : length ms = length (seg_members seg) ->
  candidates role excluded exports ms = l1 ++ x :: l2 -> preferred seg flow salt l1 x l2 -> pick ln seg ms flow salt role excluded exports = Ok (Some x).
Proof.
  intros Hl Hc Hp. destruct (pick_spec seg ms flow salt role excluded exports Hl) as (r & -> & Hr). do 2 f_equal. destruct r as [y|]; [|rewrite Hr in Hc; by destruct l1].
  destruct Hr as (k1 & k2 & Hk & Hpk). unfold preferred in *. rewrite Hk in Hc. destruct (balance seg).
  - f_equal. by apply (ranked_unique (key_of seg flow salt) _ _ _ _ _ _ Hc).
  - subst. cbn in Hc. by injection Hc as ->.
Qed.

(** ** Resolution *)
Definition resolved_members (snap : ForwardingDecisionSnapshot) (my : Z) (r : Rule) : list (list ResolvedMember) :=
  map (resolve_segment snap (keys_of snap) my) (segments r).

(** the rule of a prefix map or of the internet is one with that target *)
Definition names (l : list Rule) (tg : Target) (v : option Z) : Prop :=
  match v with
  | Some n => exists i r, l !! i = Some r /\ to r = tg /\ n = wrap 16 (Z.of_nat i)
  | None => forall r, r ∈ l -> to r <> tg
  end.
Lemma names_snoc_other l r tg v : names l tg v -> to r <> tg -> names (l ++ [r]) tg v.
Proof.
  intros H Hne. destruct v as [n|]; cbn [names] in *.
  - destruct H as (i & r' & Hi & Ht & Hn). exists i, r'. split; [|done]. by apply lookup_app_l_Some.
  - intros r' [Hr| ->%list_elem_of_singleton]%elem_of_app; [by apply H|done].
Qed.
Lemma names_snoc_here l r tg : to r = tg -> names (l ++ [r]) tg (Some (wrap 16 (Z.of_nat (length l)))).
Proof. intros Ht. exists (length l), r. split; [|done]. by rewrite list_lookup_middle. Qed.

Lemma resolve_spec c snap my :
  r_generation (resolve c snap my) = fs_generation snap /\ r_version (resolve c snap my) = version c /\
  members (resolve c snap my) = map (resolved_members snap my) (policy c) /\
  (forall p, names (policy c) (TPrefix (CidrV4 p)) (pm_get (prefix_v4 (resolve c snap my)) p)) /\
  (forall p, names (policy c) (TPrefix (CidrV6 p)) (pm_get (prefix_v6 (resolve c snap my)) p)) /\
  names (policy c) TInternet (internet (resolve c snap my)).
Proof.
  unfold resolve. destruct c as [src l cnt v]. cbn [policy version]. induction l as [|r l IH] using rev_ind.
  - cbn. split; [done|]. split; [done|]. split; [done|]. split; [|split; [|intros r Hr; by apply elem_of_nil in Hr]];
      intros p; rewrite pm_get_new; intros r Hr; by apply elem_of_nil in Hr.
  - rewrite imap_pair_snoc, foldl_app. cbn [foldl]. set (R := foldl _ _ _) in *. clearbody R. destruct IH as (H1 & H2 & H3 & H4 & H5 & H6).
    rewrite map_app. cbn [map]. rewrite <- H1, <- H2, <- H3. change (map (resolve_segment snap (keys_of snap) my) (segments r)) with (resolved_members snap my r).
    unfold add_rule. cbn [fst snd]. destruct (to r) as [ref|[p|p]|] eqn:Et; [destruct (resolve_ref ref snap (keys_of snap))| | |];
      cbn [r_generation r_version members prefix_v4 prefix_v6 internet]; (split; [done|]); (split; [done|]); (split; [done|]); split_and!; try (intros q);
      rewrite ?pm_get_insert; try case_decide; subst; try (apply names_snoc_here; by rewrite Et); apply names_snoc_other; try done; rewrite Et; congruence.
Qed.

Lemma resolve_counters c l snap my : resolve (with_counters c l) snap my = resolve c snap my.
Proof. done. Qed.

(** a peer that the reference names and that may carry a path of this node *)
Definition member_peer (snap : ForwardingDecisionSnapshot) (my : Z) (ref : PeerRef) (p : Z) : Prop :=
  resolve_ref ref snap (keys_of snap) = Some p /\ p <> my /\ next_hop snap p LeastCost <> None.
Definition features (snap : ForwardingDecisionSnapshot) (p : Z) : option PeerFeatureFlag := i ← get (capabilities snap) p; feature_flag i.
Definition good_waypoint (snap : ForwardingDecisionSnapshot) (my : Z) (ref : PeerRef) (p : Z) : Prop :=
  member_peer snap my ref p /\
  exists f, features snap p = Some f /\ waypoint_v1 f = true /\ relay_semantics_v1 f = true /\ deny_transit_data f = false.
Definition good_gateway (snap : ForwardingDecisionSnapshot) (my : Z) (exports : Z -> bool) (ref : PeerRef) (p : Z) : Prop :=
  member_peer snap my ref p /\ (exports p = true \/ exists f, features snap p = Some f /\ exit_node f = true).

Lemma is_some_and_true {A} (o : option A) f : is_some_and o f = true <-> exists a, o = Some a /\ f a = true.
Proof. destruct o as [a|]; cbn; split; [eauto|by intros (? & [= <-] & ?)|done|by intros (? & ? & ?)]. Qed.
Lemma is_some_true {A} (o : option A) : is_some o = true <-> o <> None.
Proof. by destruct o. Qed.

Lemma resolve_member_peer snap my ref p : rm_peer (resolve_member snap (keys_of snap) my ref) = Some p ->
  resolve_member snap (keys_of snap) my ref =
  mk_resolved_member (Some p) (negb (p =? my) && is_some (next_hop snap p LeastCost)) (is_some_and (features snap p) forwards) (is_some_and (features snap p) exit_node).
Proof. unfold resolve_member. destruct (resolve_ref ref snap (keys_of snap)) as [q|]; [|done]. by intros [= ->]. Qed.

Lemma usable_waypoint snap my ref p excluded : usable Waypoint excluded (fun _ => false) (resolve_member snap (keys_of snap) my ref) = Some p <->
  good_waypoint snap my ref p /\ p ∉ excluded.
Proof.
  unfold usable, good_waypoint, member_peer. destruct (resolve_ref ref snap (keys_of snap)) as [q|] eqn:Er.
  - assert (rm_peer (resolve_member snap (keys_of snap) my ref) = Some q) as Hq by (unfold resolve_member; by rewrite Er). pose proof (resolve_member_peer _ _ _ _ Hq) as ->.
    cbn [rm_peer reachable waypoint mbind option_bind]. destruct (_ && _) eqn:E.
    + rewrite !andb_true_iff, !negb_true_iff, Z.eqb_neq, is_some_true, is_some_and_true, bool_decide_eq_false in E. unfold forwards in E. setoid_rewrite andb_true_iff in E. setoid_rewrite andb_true_iff in E. setoid_rewrite negb_true_iff in E. naive_solver.
    + split; [done|]. intros [((Hp & Hne & Hh) & f & Hf & F1 & F2 & F3) Hx]. injection Hp as ->. exfalso. apply diff_true_false. rewrite <- E. symmetry.
      rewrite !andb_true_iff, !negb_true_iff, Z.eqb_neq, is_some_true, is_some_and_true, bool_decide_eq_false. split_and!; try done. exists f. unfold forwards. by rewrite F1, F2, F3.
  - unfold resolve_member. rewrite Er. cbn. split; [done|]. intros [((? & _) & _) _]. done.
Qed.
Lemma usable_gateway snap my ref p exports : usable Gateway [] exports (resolve_member snap (keys_of snap) my ref) = Some p <-> good_gateway snap my exports ref p.
Proof.
  unfold usable, good_gateway, member_peer. destruct (resolve_ref ref snap (keys_of snap)) as [q|] eqn:Er.
  - assert (rm_peer (resolve_member snap (keys_of snap) my ref) = Some q) as Hq by (unfold resolve_member; by rewrite Er). pose proof (resolve_member_peer _ _ _ _ Hq) as ->.
    cbn [rm_peer reachable exit mbind option_bind]. rewrite bool_decide_eq_false_2 by apply not_elem_of_nil. cbn [negb]. rewrite andb_true_r. destruct (_ && _) eqn:E.
    + rewrite !andb_true_iff, orb_true_iff, !negb_true_iff, Z.eqb_neq, is_some_true, is_some_and_true in E. naive_solver.
    + split; [done|]. intros [(Hp & Hne & Hh) Hx]. injection Hp as ->. exfalso. apply diff_true_false. rewrite <- E. symmetry.
      rewrite !andb_true_iff, orb_true_iff, !negb_true_iff, Z.eqb_neq, is_some_true, is_some_and_true. naive_solver.
  - unfold resolve_member. rewrite Er. cbn. split; [done|]. intros [(? & _) _]. done.
Qed.

(** ** Plans *)
Lemma segment_candidates role excluded exports snap my seg i p :
  (i, p) ∈ candidates role excluded exports (resolve_segment snap (keys_of snap) my seg) <->
  exists m, seg_members seg !! i = Some m /\ usable role excluded exports (resolve_member snap (keys_of snap) my (m_peer m)) = Some p.
Proof.
  rewrite candidates_in. unfold resolve_segment. split.
  - intros (m & Hm & Hu). apply list_lookup_fmap_Some in Hm as (m' & -> & Hm'). eauto.
  - intros (m & Hm & Hu). eexists. split; [|exact Hu]. apply list_lookup_fmap_Some. eauto.
Qed.
Lemma resolve_segment_length snap my seg : length (resolve_segment snap (keys_of snap) my seg) = length (seg_members seg).
Proof. apply length_map. Qed.

Definition serves (snap : ForwardingDecisionSnapshot) (my : Z) (seg : Segment) (p : Z) : Prop :=
  exists m, m ∈ seg_members seg /\ good_waypoint snap my (m_peer m) p.
(** the resolved members of the segments from [k] on *)
Definition at_position (snap : ForwardingDecisionSnapshot) (my : Z) (mss : list (list ResolvedMember)) (k : nat) (l : list Segment) : Prop :=
  forall j seg, l !! j = Some seg -> mss !! (k + j)%nat = Some (resolve_segment snap (keys_of snap) my seg).
Lemma at_position_cons snap my mss k seg l : at_position snap my mss k (seg :: l) ->
  mss !! k = Some (resolve_segment snap (keys_of snap) my seg) /\ at_position snap my mss (S k) l.
Proof.
  intros H. split; [specialize (H 0%nat seg eq_refl); by rewrite Nat.add_0_r in H|]. intros j s Hj. specialize (H (S j) s Hj). by replace (S k + j)%nat with (k + S j)%nat by lia.
Qed.

Lemma pick_waypoint snap my seg flow salt excluded :
  exists x, pick ln seg (resolve_segment snap (keys_of snap) my seg) flow salt Waypoint excluded (fun _ => false) = Ok x /\
  match x with
  | Some (i, p) => (i < length (seg_members seg))%nat /\ serves snap my seg p /\ p ∉ excluded
  | None => forall p, serves snap my seg p -> p ∈ excluded
  end.
Proof.
  destruct (pick_spec seg (resolve_segment snap (keys_of snap) my seg) flow salt Waypoint excluded (fun _ => false) (resolve_segment_length _ _ _)) as (x & -> & Hx).
  exists x. split; [done|]. destruct x as [[i p]|].
  - destruct Hx as (l1 & l2 & Hc & _). assert ((i, p) ∈ candidates Waypoint excluded (fun _ => false) (resolve_segment snap (keys_of snap) my seg)) as Hin by (rewrite Hc; set_solver).
    apply segment_candidates in Hin as (m & Hm & [Hg Hx]%usable_waypoint). split; [by eapply lookup_lt_Some|]. split; [|done]. exists m. split; [by eapply list_elem_of_lookup_2|done].
  - intros p (m & Hm & Hg). destruct (decide (p ∈ excluded)) as [|Hn]; [done|]. apply list_elem_of_lookup in Hm as [i Hi].
    assert ((i, p) ∈ candidates Waypoint excluded (fun _ => false) (resolve_segment snap (keys_of snap) my seg)) as Hin; [|rewrite Hx in Hin; by apply elem_of_nil in Hin].
    apply segment_candidates. exists m. split; [done|]. by apply usable_waypoint.
Qed.

Definition pick_in (k : nat) (l : list Segment) (x : nat * nat) : Prop := exists j seg, x.1 = (k + j)%nat /\ l !! j = Some seg /\ (x.2 < length (seg_members seg))%nat.

Lemma nodup_before_last (l : list Z) p d : NoDup (l ++ [d]) -> p ∉ l ++ [d] -> NoDup (l ++ [p; d]).
Proof.
  intros (H1 & H2 & _)%NoDup_app Hp. apply NoDup_app. split; [done|]. split; [set_solver|]. apply NoDup_cons. split; [set_solver|apply NoDup_singleton].
Qed.

Lemma plan_via_spec snap my mss rule dest flow l : forall k chain picked, at_position snap my mss k l -> NoDup (chain ++ [dest]) ->
  exists r, plan_via ln mss rule dest flow k chain picked l = Ok r /\
  match r with
  | Some (chain', picked') => exists c pk, chain' = chain ++ c /\ picked' = picked ++ pk /\ Forall2 (serves snap my) l c /\ NoDup (chain ++ c ++ [dest]) /\ Forall (pick_in k l) pk
  | None => exists pre seg post c, l = pre ++ seg :: post /\ Forall2 (serves snap my) pre c /\ NoDup (chain ++ c ++ [dest]) /\
      forall p, serves snap my seg p -> p ∈ chain ++ c ++ [dest]
  end.
Proof.
  induction l as [|seg l IH]; intros k chain picked Hp Hn; cbn [plan_via].
  - eexists. split; [done|]. exists [], []. rewrite !app_nil_r. split_and!; try done; constructor.
  - apply at_position_cons in Hp as [Hk Hp]. rewrite Hk. cbn [unwrap mbind outcome_bind].
    destruct (pick_waypoint snap my seg flow (Z.lor (Z.shiftl rule 8) (Z.of_nat k)) (chain ++ [dest])) as (x & -> & Hx). cbn [mbind outcome_bind]. destruct x as [[i p]|].
    + destruct Hx as (Hi & Hs & Hnx). assert (NoDup ((chain ++ [p]) ++ [dest])) as Hn'.
      { rewrite <- app_assoc. by apply nodup_before_last. }
      destruct (IH (S k) (chain ++ [p]) (picked ++ [(k, i)]) Hp Hn') as (r & -> & Hr). exists r. split; [done|]. destruct r as [[chain' picked']|].
      * destruct Hr as (c & pk & -> & -> & Hf & Hnd & Hpk). exists (p :: c), ((k, i) :: pk). rewrite <- !app_assoc in *. split_and!; try done; [by constructor|]. constructor.
        -- exists 0%nat, seg. cbn. split_and!; [lia|done|done].
        -- eapply Forall_impl; [exact Hpk|]. intros [a b] (j & s & Ha & Hj & Hb). exists (S j), s. cbn in *. split_and!; [lia|done|done].
      * destruct Hr as (pre & sg & post & c & -> & Hf & Hnd & Hall). exists (seg :: pre), sg, post, (p :: c). rewrite <- !app_assoc in *. split_and!; try done; by constructor.
    + eexists. split; [done|]. exists [], seg, l, []. split_and!; try done; constructor.
Qed.

(** ** The runtime *)
Section Runtime.
(** the snapshot of each route generation *)
Variable snap : Z -> ForwardingDecisionSnapshot.
Hypothesis snap_generation : forall g, fs_generation (snap g) = g.

Definition rules (s : t) : list Rule := match compiled s with Some c => policy c | None => [] end.
Definition rows_ok (r : Rule) (c : RuleCounters) : Prop := Forall2 (fun seg row => length row = length (seg_members seg)) (segments r) (picks c).
Definition inv (s : t) : Prop :=
  match compiled s with
  | None => resolved s = None
  | Some c => policy_ok (policy c) /\ Forall2 rows_ok (policy c) (counters c) /\ forall r, resolved s = Some r -> exists g, r = resolve c (snap g) (my_peer_id s)
  end.
(** the step keeps the policy *)
Definition same_rules (s s' : t) : Prop := inv s' /\ rules s' = rules s /\ my_peer_id s' = my_peer_id s.

Lemma same_rules_refl s : inv s -> same_rules s s.
Proof. done. Qed.

Lemma same_rules_trans s s1 s2 : same_rules s s1 -> same_rules s1 s2 -> same_rules s s2.
Proof. intros (_ & A1 & A2) (B & B1 & B2). split; [done|]. split; congruence. Qed.

Lemma resolved_for_spec s g : inv s -> exists s', same_rules s s' /\ compiled s' = compiled s /\
  resolved_for s (snap g) = (s', match compiled s with
                                  | Some c => if bool_decide (length (policy c) = 0%nat) then None else Some (c, resolve c (snap g) (my_peer_id s))
                                  | None => None
                                  end).
Proof.
  intros Hi. unfold resolved_for, same_rules. destruct (compiled s) as [c|] eqn:Ec; [|by exists s]. destruct (bool_decide _); [by exists s|].
  pose proof Hi as Hi'. unfold inv in Hi'. rewrite Ec in Hi'. destruct Hi' as (H1 & H2 & H3).
  assert (inv (with_resolved s (Some (resolve c (snap g) (my_peer_id s))))) as Hf.
  { unfold inv. cbn [with_resolved compiled resolved my_peer_id]. rewrite Ec. split_and!; try done. intros r [= <-]. by exists g. }
  assert (rules (with_resolved s (Some (resolve c (snap g) (my_peer_id s)))) = rules s) as Hr by done.
  destruct (resolved s) as [r|] eqn:Er; [|exists (with_resolved s (Some (resolve c (snap g) (my_peer_id s)))); split; [done|]; split; [exact Ec|done]].
  destruct (_ && _) eqn:Eb; [|exists (with_resolved s (Some (resolve c (snap g) (my_peer_id s)))); split; [done|]; split; [exact Ec|done]]. apply andb_true_iff in Eb as [Eg%Z.eqb_eq _]. destruct (H3 r eq_refl) as [g' ->].
  destruct (resolve_spec c (snap g') (my_peer_id s)) as (Hg & _). rewrite Hg, !snap_generation in Eg. subst g'. by exists s.
Qed.

Lemma count_spec s c i rule f : inv s -> compiled s = Some c -> policy c !! i = Some rule ->
  (forall x, rows_ok rule x -> exists y, f x = Ok y /\ rows_ok rule y) -> exists s', count s c i f = Ok s' /\ same_rules s s'.
Proof.
  intros Hi Ec Hr Hf. unfold inv in Hi. rewrite Ec in Hi. destruct Hi as (H1 & H2 & H3). destruct (Forall2_lookup_l _ _ _ _ _ H2 Hr) as (x & Hx & Hrow).
  unfold count. rewrite Hx. cbn [unwrap mbind outcome_bind]. destruct (Hf x Hrow) as (y & -> & Hy). cbn [mbind outcome_bind]. eexists. split; [done|].
  unfold same_rules, inv, rules. cbn [with_compiled compiled with_counters policy counters resolved my_peer_id]. rewrite Ec. split_and!; try done.
  rewrite <- (list_insert_id (policy c) i rule Hr). by apply Forall2_insert.
Qed.

Lemma add_pick_ok rule x k i seg : rows_ok rule x -> segments rule !! k = Some seg -> (i < length (seg_members seg))%nat ->
  exists y, add_pick x (k, i) = Ok y /\ rows_ok rule y.
Proof.
  intros Hx Hs Hi. destruct (Forall2_lookup_l _ _ _ _ _ Hx Hs) as (row & Hrow & Hl). unfold add_pick. cbn [fst snd]. rewrite Hrow. cbn [unwrap mbind outcome_bind].
  rewrite <- Hl in Hi. apply lookup_lt_is_Some in Hi as [n Hn]. rewrite Hn. cbn [unwrap mbind outcome_bind]. eexists. split; [done|]. unfold rows_ok. cbn [picks].
  rewrite <- (list_insert_id (segments rule) k seg Hs). apply Forall2_insert; [done|]. by rewrite length_insert.
Qed.
Lemma add_picks_ok rule l : forall x, rows_ok rule x -> Forall (pick_in 0 (via rule)) l -> exists y, add_picks x l = Ok y /\ rows_ok rule y.
Proof.
  induction l as [|[k i] l IH]; intros x Hx Hl; [by exists x|]. apply Forall_cons_iff in Hl as [(j & seg & Hj & Hs & Hi) Hl]. cbn in Hj, Hi. subst k.
  destruct (add_pick_ok rule x j i seg Hx) as (y & Hy & Hr); [by apply lookup_app_l_Some|done|]. cbn [add_picks]. rewrite Hy. cbn [mbind outcome_bind]. by apply IH.
Qed.

Lemma resolved_rule c i rule g my : policy c !! i = Some rule -> members (resolve c (snap g) my) !! i = Some (resolved_members (snap g) my rule).
Proof. intros H. destruct (resolve_spec c (snap g) my) as (_ & _ & -> & _). apply list_lookup_fmap_Some. by exists rule. Qed.

(** *** What a plan promises *)
Definition plan_ok (l : list Rule) (my g : Z) (i : nat) (dest : Z) (p : WaypointPlan) : Prop :=
  match p with
  | Automatic => forall r, l !! i = Some r -> via r = []
  | Via chain => exists r, l !! i = Some r /\ via r <> [] /\ Forall2 (serves (snap g) my) (via r) chain /\ NoDup (chain ++ [dest]) /\ len chain <= MAX_WAYPOINTS
  | Fallback | Drop => exists r pre seg post chain, l !! i = Some r /\ strict r = match p with Drop => true | _ => false end /\
      via r = pre ++ seg :: post /\ Forall2 (serves (snap g) my) pre chain /\ NoDup (chain ++ [dest]) /\
      forall q, serves (snap g) my seg q -> q ∈ chain ++ [dest]
  end.

Lemma at_position_via rule g my : at_position (snap g) my (resolved_members (snap g) my rule) 0 (via rule).
Proof. intros j seg Hj. apply list_lookup_fmap_Some. exists seg. split; [done|]. by apply lookup_app_l_Some. Qed.

Lemma waypoints_spec s g rule dest flow : inv s ->
  exists s' p, waypoints ln s (snap g) rule dest flow = Ok (s', p) /\ same_rules s s' /\ plan_ok (rules s) (my_peer_id s) g (Z.to_nat rule) dest p.
Proof.
  intros Hi. unfold waypoints. destruct (resolved_for_spec s g Hi) as (s1 & Hs1 & Ec1 & ->). assert (rules s = match compiled s with Some c => policy c | None => [] end) as Hrl by done.
  destruct (compiled s) as [c|] eqn:Ec; rewrite Hrl; [|eexists _, _; split; [done|]; split; [done|]; intros r Hr; done].
  destruct (bool_decide_reflect (length (policy c) = 0%nat)) as [E0|_].
  { eexists _, _. split; [done|]. split; [done|]. intros r Hr. by rewrite (nil_length_inv _ E0) in Hr. }
  destruct (policy c !! Z.to_nat rule) as [r|] eqn:Er; [|eexists _, _; split; [done|]; split; [done|]; intros r Hr; congruence].
  destruct (bool_decide_reflect (length (via r) = 0%nat)) as [Ev|Ev].
  { eexists _, _. split; [done|]. split; [done|]. intros r' Hr'. rewrite Er in Hr'. injection Hr' as <-. by apply nil_length_inv. }
  pose proof Hi as Hi'. unfold inv in Hi'. rewrite Ec in Hi'. destruct Hi' as ((_ & Hp & _) & Hcn & _). destruct (Forall2_lookup_l _ _ _ _ _ Hcn Er) as (cnt & Hcnt & _).
  rewrite Hcnt, (resolved_rule c _ r g (my_peer_id s) Er). cbn [unwrap mbind outcome_bind].
  destruct (plan_via_spec (snap g) (my_peer_id s) (resolved_members (snap g) (my_peer_id s) r) rule dest flow (via r) 0 [] [] (at_position_via r g _) ltac:(apply NoDup_singleton)) as (x & -> & Hx).
  cbn [mbind outcome_bind]. assert (forall f, (forall x, rows_ok r x -> exists y, f x = Ok y /\ rows_ok r y) -> exists s', count s1 c (Z.to_nat rule) f = Ok s' /\ same_rules s s') as Hcount.
  { intros f Hf. destruct (count_spec s1 c (Z.to_nat rule) r f (proj1 Hs1) Ec1 Er Hf) as (s' & E & H). exists s'. split; [done|]. by apply (same_rules_trans s s1). }
  destruct x as [[chain picked]|].
  - destruct Hx as (ch & pk & -> & -> & Hf & Hnd & Hpk). destruct (Hcount (fun x => add_picks (add_waypoint x 1) ([] ++ pk))) as (s' & -> & Hs'); [intros y Hy; by apply add_picks_ok|].
    cbn [mbind outcome_bind]. eexists _, _. split; [done|]. split; [done|]. exists r. split_and!; try done; [intros E; by rewrite E in Ev|]. apply Forall2_length in Hf. unfold len. cbn [app]. rewrite <- Hf.
    apply Forall_lookup_1 with (i := Z.to_nat rule) (x := r) in Hp; [|done]. apply Hp.
  - destruct Hx as (pre & seg & post & ch & Hv & Hf & Hnd & Hall). destruct (strict r) eqn:Es.
    + destruct (Hcount (fun x => Ok (add_dropped x))) as (s' & -> & Hs'); [intros y Hy; by eexists|]. cbn [mbind outcome_bind]. eexists _, _. split; [done|]. split; [done|]. by exists r, pre, seg, post, ch.
    + destruct (Hcount (fun x => Ok (add_fallback x))) as (s' & -> & Hs'); [intros y Hy; by eexists|]. cbn [mbind outcome_bind]. eexists _, _. split; [done|]. split; [done|]. by exists r, pre, seg, post, ch.
Qed.

(** *** Gateways *)
Lemma gateway_for_rule_spec s c g rule flow exports : inv s -> compiled s = Some c ->
  exists s' x, gateway_for_rule ln s c (resolve c (snap g) (my_peer_id s)) rule flow exports = Ok (s', x) /\ same_rules s s' /\
  match x with
  | Some ch => exists r seg m, policy c !! Z.to_nat rule = Some r /\ gateway r = Some seg /\ m ∈ seg_members seg /\
      good_gateway (snap g) (my_peer_id s) exports (m_peer m) (gc_peer ch) /\ gc_rule ch = rule /\ gc_exit ch = negb (exports (gc_peer ch))
  | None => forall r seg m p, policy c !! Z.to_nat rule = Some r -> gateway r = Some seg -> m ∈ seg_members seg -> ~ good_gateway (snap g) (my_peer_id s) exports (m_peer m) p
  end.
Proof.
  intros Hi Ec. unfold gateway_for_rule. destruct (policy c !! Z.to_nat rule) as [r|] eqn:Er; [|by eexists _, _].
  destruct (gateway r) as [seg|] eqn:Eg; [|eexists _, _; split; [done|]; split; [done|]; intros r' seg m p [= <-]; congruence].
  rewrite (resolved_rule c _ r g _ Er). cbn [unwrap mbind outcome_bind]. assert (segments r = via r ++ [seg]) as Hseg by (unfold segments; by rewrite Eg).
  unfold resolved_members. rewrite Hseg, map_app. cbn [map]. rewrite last_snoc.
  set (salt := Z.lor _ _). destruct (pick_spec seg (resolve_segment (snap g) (keys_of (snap g)) (my_peer_id s) seg) flow salt Gateway [] exports (resolve_segment_length _ _ _)) as (x & -> & Hx).
  cbn [mbind outcome_bind]. destruct x as [[i p]|].
  - destruct Hx as (l1 & l2 & Hc & _). assert ((i, p) ∈ candidates Gateway [] exports (resolve_segment (snap g) (keys_of (snap g)) (my_peer_id s) seg)) as Hin by (rewrite Hc; set_solver).
    apply segment_candidates in Hin as (m & Hm & Hg%usable_gateway). pose proof (lookup_lt_Some _ _ _ Hm) as Hlt.
    destruct (count_spec s c (Z.to_nat rule) r (fun x => add_pick x (length (via r), i)) Hi Ec Er) as (s' & -> & Hs).
    { intros x Hrow. apply (add_pick_ok r x _ _ seg); [done|by rewrite Hseg, list_lookup_middle|done]. }
    cbn [mbind outcome_bind]. eexists _, _. split; [done|]. split; [done|]. exists r, seg, m. split_and!; try done. by eapply list_elem_of_lookup_2.
  - destruct (count_spec s c (Z.to_nat rule) r (fun x => Ok (add_fallback x)) Hi Ec Er) as (s' & -> & Hs); [intros x Hrow; by eexists|].
    cbn [mbind outcome_bind]. eexists _, _. split; [done|]. split; [done|]. intros r' seg' m p [= <-] Hseg' Hm Hg. rewrite Eg in Hseg'. injection Hseg' as <-.
    apply list_elem_of_lookup in Hm as [i Hi']. assert ((i, p) ∈ candidates Gateway [] exports (resolve_segment (snap g) (keys_of (snap g)) (my_peer_id s) seg)) as Hin.
    { apply segment_candidates. exists m. split; [done|]. by apply usable_gateway. }
    rewrite Hx in Hin. by apply elem_of_nil in Hin.
Qed.

(** the path that applies to an address: the longest prefix that covers it *)
Definition path_for (l : list Rule) (a : IpAddr) (r : Rule) : Prop :=
  exists p, to r = TPrefix p /\ ip_covers p a = true /\ forall r' p', r' ∈ l -> to r' = TPrefix p' -> ip_covers p' a = true -> ip_len p' <= ip_len p.
Definition covered (l : list Rule) (a : IpAddr) : Prop := exists r p, r ∈ l /\ to r = TPrefix p /\ ip_covers p a = true.

Lemma index_small l i r : policy_ok l -> l !! i = Some r -> wrap 16 (Z.of_nat i) = Z.of_nat i.
Proof. intros (Hl & _) Hi. apply lookup_lt_Some in Hi. unfold len, MAX_PATHS in Hl. apply wrap_small. unfold is_u. lia. Qed.

Lemma prefix_rule_spec c g my a : policy_ok (policy c) ->
  match prefix_rule (resolve c (snap g) my) a with
  | Some n => exists r, policy c !! Z.to_nat n = Some r /\ path_for (policy c) a r
  | None => ~ covered (policy c) a
  end.
Proof.
  intros Hp. destruct (resolve_spec c (snap g) my) as (_ & _ & _ & H4 & H6 & _).
  assert (forall w m (k : Cidr -> IpCidr) x, (forall p, names (policy c) (TPrefix (k p)) (pm_get m p)) -> (forall p, ip_len (k p) = c_len p) ->
    (forall p, ip_covers (k p) a = covers w p x) -> (forall p, ip_covers p a = true -> exists q, p = k q) ->
    match snd <$> pm_get_lpm w m x with
    | Some n => exists r, policy c !! Z.to_nat n = Some r /\ path_for (policy c) a r
    | None => ~ covered (policy c) a
    end) as Hg.
  { intros w m k x Hm Hlen Hc Hk. destruct (pm_get_lpm w m x) as [[p n]|] eqn:E; cbn [fmap option_fmap option_map snd].
    - apply pm_lpm_some in E as (E1 & E2 & E3). pose proof (Hm p) as Hn. rewrite E1 in Hn. destruct Hn as (i & r & Hi & Ht & ->). rewrite (index_small _ _ _ Hp Hi), Nat2Z.id.
      exists r. split; [done|]. exists (k p). split; [done|]. split; [by rewrite Hc|]. intros r' p' Hr' Ht' Hc'. destruct (Hk p' Hc') as [q ->]. rewrite !Hlen. rewrite Hc in Hc'.
      pose proof (Hm q) as Hq. destruct (pm_get m q) as [v|] eqn:Eq; [by apply (E3 q v)|]. by destruct (Hq r' Hr').
    - intros (r & p & Hr & Ht & Hc'). destruct (Hk p Hc') as [q ->]. rewrite Hc in Hc'. pose proof (Hm q) as Hq. destruct (pm_get m q) as [v|] eqn:Eq; [|by destruct (Hq r Hr)].
      by rewrite (pm_lpm_none _ _ _ _ E q v Eq) in Hc'. }
  destruct a as [x|x]; cbn [prefix_rule]; [apply (Hg 32 _ CidrV4)|apply (Hg 128 _ CidrV6)]; try done; intros [p|p]; cbn; intros; try done; by eexists.
Qed.

Definition gateway_ok (l : list Rule) (my g : Z) (a : IpAddr) (x : option GatewayChoice) : Prop :=
  let exports := exports_of (snap g) a in
  match x with
  | Some ch => exists r seg m, l !! Z.to_nat (gc_rule ch) = Some r /\ path_for l a r /\ gateway r = Some seg /\ m ∈ seg_members seg /\
      good_gateway (snap g) my exports (m_peer m) (gc_peer ch) /\ gc_exit ch = negb (exports (gc_peer ch))
  | None => ~ covered l a \/ exists r, r ∈ l /\ path_for l a r /\
      forall seg m p, gateway r = Some seg -> m ∈ seg_members seg -> ~ good_gateway (snap g) my exports (m_peer m) p
  end.

Lemma cidr_gateway_spec s g a flow : inv s ->
  exists s' x, cidr_gateway ln s (snap g) a flow = Ok (s', x) /\ same_rules s s' /\ gateway_ok (rules s) (my_peer_id s) g a x.
Proof.
  intros Hi. unfold cidr_gateway. destruct (resolved_for_spec s g Hi) as (s1 & Hs1 & Ec1 & ->). assert (rules s = match compiled s with Some c => policy c | None => [] end) as Hrl by done.
  assert (~ covered [] a) as Hnil by (intros (r & p & Hr & _); by apply elem_of_nil in Hr).
  pose proof Hi as Hi'. unfold inv in Hi'. destruct (compiled s) as [c|] eqn:Ec; rewrite Hrl; [|eexists _, _; split; [done|]; split; [done|]; by left].
  destruct (bool_decide_reflect (length (policy c) = 0%nat)) as [E0|_]; [eexists _, _; split; [done|]; split; [done|]; left; by rewrite (nil_length_inv _ E0)|].
  destruct Hi' as (Hp & _). pose proof (prefix_rule_spec c g (my_peer_id s) a Hp) as Hpr. destruct (prefix_rule _ a) as [n|]; [|eexists _, _; split; [done|]; split; [done|]; by left].
  destruct Hpr as (r & Hr & Hpath). destruct Hs1 as (Hi1 & Hr1 & Hm1). rewrite <- Hm1.
  destruct (gateway_for_rule_spec s1 c g n flow (exports_of (snap g) a) Hi1 Ec1) as (s' & x & -> & Hs' & Hx). eexists _, _. split; [done|].
  split; [apply (same_rules_trans s s1); [done|done]|]. unfold gateway_ok. destruct x as [ch|].
  - destruct Hx as (r' & seg & m & Hr' & Hseg & Hm & Hg & Hrule & Hexit). rewrite Hr in Hr'. injection Hr' as <-. exists r, seg, m. rewrite Hrule. done.
  - right. exists r. split; [by eapply list_elem_of_lookup_2|]. split; [done|]. intros seg m p Hseg Hm. by apply (Hx r seg m p).
Qed.

(** *** The other operations *)
Lemma internet_gateway_spec s g flow : inv s -> exists s' x, internet_gateway ln s (snap g) flow = Ok (s', x) /\ same_rules s s'.
Proof.
  intros Hi. unfold internet_gateway. destruct (resolved_for_spec s g Hi) as (s1 & Hs1 & Ec1 & ->). destruct (compiled s) as [c|] eqn:Ec; [|by eexists _, _].
  destruct (bool_decide _); [by eexists _, _|]. destruct (internet _) as [n|]; [|by eexists _, _]. destruct Hs1 as (Hi1 & Hr1 & Hm1). rewrite <- Hm1.
  destruct (gateway_for_rule_spec s1 c g n flow (fun _ => false) Hi1 Ec1) as (s' & x & -> & Hs' & _). eexists _, _. split; [done|]. by apply (same_rules_trans s s1).
Qed.

Lemma gateway_rule_total c g my p : forall k l, (forall i r, l !! i = Some r -> policy c !! (k + i)%nat = Some r) ->
  exists x, gateway_rule (imap (fun i r => ((k + i)%nat, r)) l) (resolve c (snap g) my) p = Ok x.
Proof.
  intros k l. revert k. induction l as [|r l IH]; intros k Hl; [by eexists|]. rewrite imap_cons. cbn [gateway_rule]. rewrite Nat.add_0_r.
  destruct (IH (S k)) as [x Hx]; [intros i r' Hi; specialize (Hl (S i) r' Hi); by replace (S k + i)%nat with (k + S i)%nat by lia|].
  assert (imap ((fun i r => ((k + i)%nat, r)) ∘ S) l = imap (fun i r => ((S k + i)%nat, r)) l) as -> by (apply imap_ext; intros i r' _; cbn; f_equal; lia).
  rewrite Hx. specialize (Hl 0%nat r eq_refl). rewrite Nat.add_0_r in Hl. rewrite (resolved_rule c k r g my Hl). cbn [unwrap mbind outcome_bind].
  destruct (_ && _); [|by eexists]. destruct (is_some_and _ _); by eexists.
Qed.
Lemma rule_for_destination_spec s g p : inv s -> exists s' x, rule_for_destination s (snap g) p = Ok (s', x) /\ same_rules s s'.
Proof.
  intros Hi. unfold rule_for_destination. destruct (resolved_for_spec s g Hi) as (s1 & Hs1 & Ec1 & ->). destruct (compiled s) as [c|] eqn:Ec; [|by eexists _, _].
  destruct (bool_decide _); [by eexists _, _|]. destruct (peer_rules _ !! p) as [n|]; [by eexists _, _|].
  destruct (gateway_rule_total c g (my_peer_id s) p 0 (policy c)) as [x Hx]; [done|]. cbn [Nat.add] in Hx. change (fun i r => (i, r)) with (@pair nat Rule) in Hx. rewrite Hx. by eexists _, _.
Qed.
Lemma rule_for_address_spec s g a : inv s -> same_rules s (rule_for_address s (snap g) a).1.
Proof.
  intros Hi. unfold rule_for_address. destruct (resolved_for_spec s g Hi) as (s1 & Hs1 & Ec1 & ->). destruct (compiled s) as [c|]; [|done]. by destruct (bool_decide _).
Qed.

Lemma new_rows r : rows_ok r (new_counters r).
Proof. unfold rows_ok. cbn [new_counters picks]. apply Forall2_fmap_r, Forall_Forall2_diag, Forall_forall. intros seg _. apply length_map. Qed.
Lemma refresh_path_inv s ptr cfg : inv s -> inv (refresh base64_decode cidr_from_str s ptr cfg) /\ my_peer_id (refresh base64_decode cidr_from_str s ptr cfg) = my_peer_id s.
Proof.
  intros Hi. unfold refresh. destruct (bool_decide _); [done|]. destruct (bool_decide _); [done|]. cbn [compiled resolved my_peer_id]. split; [|done]. unfold inv. cbn [compiled resolved policy counters].
  assert (policy_ok (match cfg with Some c => match compile base64_decode cidr_from_str c with Ok r => r | _ => [] end | None => [] end)) as Hp.
  { assert (policy_ok []) as Hn by (split; [unfold len, MAX_PATHS; cbn; lia|split; constructor]). destruct cfg as [c|]; [|done].
    destruct (compile_ok c) as [_ H]. destruct (compile _ _ c); [by apply H|done|done]. }
  split; [done|]. split; [|done]. apply Forall2_fmap_r, Forall_Forall2_diag, Forall_forall. intros r _. apply new_rows.
Qed.
Lemma record_spec s i b : inv s -> same_rules s (record_send_fallback s i b).
Proof.
  intros Hi. unfold record_send_fallback. destruct (compiled s) as [c|] eqn:Ec; [|done]. destruct (counters c !! Z.to_nat i) as [x|] eqn:Ex; [|done].
  pose proof Hi as Hi'. unfold inv in Hi'. rewrite Ec in Hi'. destruct Hi' as (H1 & H2 & H3). destruct (Forall2_lookup_r _ _ _ _ _ H2 Ex) as (r & Hr & Hrow).
  unfold same_rules, inv, rules. cbn [with_compiled compiled with_counters policy counters resolved my_peer_id]. rewrite Ec. split_and!; try done.
  rewrite <- (list_insert_id (policy c) _ r Hr). apply Forall2_insert; [done|]. by destruct b.
Qed.

(** *** Runs *)
Inductive op : Type :=
| ORefresh (ptr : Z) (cfg : option Config)
| OWaypoints (g rule dest flow : Z)
| OCidr (g : Z) (a : IpAddr) (flow : Z)
| OInternet (g flow : Z)
| OAddress (g : Z) (a : IpAddr)
| ODestination (g p : Z)
| ORecord (rule : Z) (b : bool).
Definition exec (s : t) (o : op) : outcome unit t :=
  match o with
  | ORefresh ptr cfg => Ok (refresh base64_decode cidr_from_str s ptr cfg)
  | OWaypoints g rule dest flow => '(s, _) ← waypoints ln s (snap g) rule dest flow; Ok s
  | OCidr g a flow => '(s, _) ← cidr_gateway ln s (snap g) a flow; Ok s
  | OInternet g flow => '(s, _) ← internet_gateway ln s (snap g) flow; Ok s
  | OAddress g a => Ok (rule_for_address s (snap g) a).1
  | ODestination g p => '(s, _) ← rule_for_destination s (snap g) p; Ok s
  | ORecord rule b => Ok (record_send_fallback s rule b)
  end.
Fixpoint run (s : t) (l : list op) : outcome unit t :=
  match l with
  | [] => Ok s
  | o :: l => s ← exec s o; run s l
  end.

Lemma exec_inv s o : inv s -> exists s', exec s o = Ok s' /\ inv s' /\ my_peer_id s' = my_peer_id s.
Proof.
  intros Hi. destruct o; cbn [exec].
  - eexists. split; [done|]. by apply refresh_path_inv.
  - destruct (waypoints_spec s g rule dest flow Hi) as (s' & p & -> & (H1 & _ & H2) & _). by exists s'.
  - destruct (cidr_gateway_spec s g a flow Hi) as (s' & x & -> & (H1 & _ & H2) & _). by exists s'.
  - destruct (internet_gateway_spec s g flow Hi) as (s' & x & -> & (H1 & _ & H2)). by exists s'.
  - destruct (rule_for_address_spec s g a Hi) as (H1 & _ & H2). by eexists.
  - destruct (rule_for_destination_spec s g p Hi) as (s' & x & -> & (H1 & _ & H2)). by exists s'.
  - destruct (record_spec s rule b Hi) as (H1 & _ & H2). by eexists.
Qed.
Lemma run_path_inv l : forall s, inv s -> exists s', run s l = Ok s' /\ inv s' /\ my_peer_id s' = my_peer_id s.
Proof.
  induction l as [|o l IH]; intros s Hi; [by exists s|]. destruct (exec_inv s o Hi) as (s1 & E & Hi1 & Hm). cbn [run]. rewrite E. cbn [mbind outcome_bind].
  destruct (IH s1 Hi1) as (s' & E' & Hi' & Hm'). exists s'. split; [done|]. split; [done|congruence].
Qed.
Lemma new_path_inv my : inv (new my).
Proof. done. Qed.

(** *** Stability *)
(** from [g] to [g'] members only go, and not those of the chain *)
Definition only_loses (my g g' : Z) (chain : list Z) : Prop :=
  (forall ref p, good_waypoint (snap g') my ref p -> good_waypoint (snap g) my ref p) /\
  (forall ref p, p ∈ chain -> good_waypoint (snap g) my ref p -> good_waypoint (snap g') my ref p).

Definition member_choice (g my : Z) (excluded : list Z) (x : nat * Member) : option (nat * Z) :=
  (fun p => (x.1, p)) <$> usable Waypoint excluded (fun _ => false) (resolve_member (snap g) (keys_of (snap g)) my (m_peer x.2)).
Lemma segment_choices g my excluded seg : candidates Waypoint excluded (fun _ => false) (resolve_segment (snap g) (keys_of (snap g)) my seg) =
  omap (member_choice g my excluded) (imap pair (seg_members seg)).
Proof.
  unfold candidates, resolve_segment. generalize (seg_members seg). intros l. set (h := fun m => resolve_member _ _ _ (m_peer m)).
  assert (imap pair (map h l) = (fun x => (x.1, h x.2)) <$> imap pair l) as -> by (rewrite fmap_imap; exact (imap_fmap pair h l)).
  generalize (imap pair l). intros k. induction k as [|x k IH]; [done|]. cbn. unfold member_choice at 1. cbn. fold (h x.2). destruct (usable _ _ _ (h x.2)); cbn; by rewrite IH.
Qed.
Lemma member_choice_some g my excluded x y : member_choice g my excluded x = Some y <-> x.1 = y.1 /\ good_waypoint (snap g) my (m_peer x.2) y.2 /\ y.2 ∉ excluded.
Proof.
  unfold member_choice. split.
  - intros H. destruct (usable _ _ _ _) as [p|] eqn:E; [|done]. cbn in H. injection H as <-. apply usable_waypoint in E. done.
  - destruct y as [i p]. cbn. intros (<- & H). apply usable_waypoint in H. by rewrite H.
Qed.

Lemma pick_stable my g g' seg flow salt excluded i p : only_loses my g g' [p] ->
  pick ln seg (resolve_segment (snap g) (keys_of (snap g)) my seg) flow salt Waypoint excluded (fun _ => false) = Ok (Some (i, p)) ->
  pick ln seg (resolve_segment (snap g') (keys_of (snap g')) my seg) flow salt Waypoint excluded (fun _ => false) = Ok (Some (i, p)).
Proof.
  intros [Hl Hk] H. destruct (pick_spec seg (resolve_segment (snap g) (keys_of (snap g)) my seg) flow salt Waypoint excluded (fun _ => false) (resolve_segment_length _ _ _)) as (x & E & Hx).
  rewrite E in H. injection H as ->. destruct Hx as (l1 & l2 & Hc & Hp). rewrite segment_choices in Hc. apply omap_split in Hc as (k1 & y & k2 & Hy & Ey & <- & <-).
  apply (pick_unique seg _ flow salt Waypoint excluded _ (omap (member_choice g' my excluded) k1) (i, p) (omap (member_choice g' my excluded) k2)).
  - apply resolve_segment_length.
  - rewrite segment_choices, Hy, omap_app. cbn [omap list_omap]. apply member_choice_some in Ey as (Ey1 & Ey2 & Ey3).
    rewrite (proj2 (member_choice_some g' my excluded y (i, p))); [done|]. split; [done|]. split; [|done]. apply Hk; [by left|done].
  - assert (forall a b, member_choice g' my excluded a = Some b -> member_choice g my excluded a = Some b) as Hsub.
    { intros a b (H1 & H2 & H3)%member_choice_some. apply member_choice_some. split; [done|]. split; [by apply Hl|done]. }
    unfold preferred in *. destruct (balance seg).
    + destruct Hp as [P1 P2]. split; intros z Hz; [apply P1|apply P2]; by apply (omap_sub _ (member_choice g' my excluded)).
    + assert (omap (member_choice g' my excluded) k1 = []) as ->; [|done]. apply elem_of_nil_inv. intros z Hz. apply (omap_sub (member_choice g my excluded)) in Hz; [|done]. rewrite Hp in Hz. by apply elem_of_nil in Hz.
Qed.

Lemma plan_stable my g g' mss mss' rule dest flow chain' l : only_loses my g g' chain' -> forall k chain picked picked',
  at_position (snap g) my mss k l -> at_position (snap g') my mss' k l ->
  plan_via ln mss rule dest flow k chain picked l = Ok (Some (chain', picked')) -> plan_via ln mss' rule dest flow k chain picked l = Ok (Some (chain', picked')).
Proof.
  intros [Hl Hk]. induction l as [|seg l IH]; intros k chain picked picked' Hp Hp' H; cbn [plan_via] in *; [done|].
  apply at_position_cons in Hp as [P1 P2], Hp' as [P1' P2']. rewrite P1 in H. rewrite P1'. cbn [unwrap mbind outcome_bind] in *.
  destruct (pick_waypoint (snap g) my seg flow (Z.lor (Z.shiftl rule 8) (Z.of_nat k)) (chain ++ [dest])) as (x & E & _). rewrite E in H. cbn [mbind outcome_bind] in H. destruct x as [[i p]|]; [|done].
  assert (p ∈ chain') as Hin.
  { clear -H. revert H. generalize (S k), (picked ++ [(k, i)]). assert (p ∈ chain ++ [p]) as Hin by set_solver. revert Hin. generalize (chain ++ [p]). clear k chain picked.
    induction l as [|seg l IH]; intros chain Hin k picked H; cbn [plan_via] in H; [injection H as -> _; done|].
    destruct (mss !! k); [|done]. cbn [unwrap mbind outcome_bind] in H. destruct (pick _ _ _ _ _ _ _ _) as [[[j q]|]| |]; try done. cbn [mbind outcome_bind] in H. eapply IH; [|exact H]. set_solver. }
  rewrite (pick_stable my g g' seg flow _ _ i p); [|split; [done|intros ref q ->%list_elem_of_singleton; by apply Hk]|done]. cbn [mbind outcome_bind]. by apply IH.
Qed.

Lemma waypoints_plan s g rule dest flow s' p r : inv s -> waypoints ln s (snap g) rule dest flow = Ok (s', p) -> rules s !! Z.to_nat rule = Some r -> via r <> [] ->
  match plan_via ln (resolved_members (snap g) (my_peer_id s) r) rule dest flow 0 [] [] (via r) with
  | Ok (Some (chain, _)) => p = Via chain
  | Ok None => p = if strict r then Drop else Fallback
  | _ => False
  end.
Proof.
  intros Hi H Hr Hv. unfold waypoints in H. destruct (resolved_for_spec s g Hi) as (s1 & Hs1 & Ec1 & E). rewrite E in H. clear E. unfold rules in Hr.
  destruct (compiled s) as [c|]; [|done]. rewrite bool_decide_eq_false_2 in H by (intros E; by rewrite (nil_length_inv _ E) in Hr). rewrite Hr in H.
  rewrite bool_decide_eq_false_2 in H by (intros E; by apply nil_length_inv in E). destruct (counters c !! _); [|done]. rewrite (resolved_rule c _ r g (my_peer_id s) Hr) in H.
  cbn [unwrap mbind outcome_bind] in H. destruct (plan_via _ _ _ _ _ _ _ _ _) as [[[chain pk]|]|[]|]; cbn [mbind outcome_bind] in H; try done.
  - destruct (count _ _ _ _); cbn [mbind outcome_bind] in H; [by injection H as _ <-|done|done].
  - destruct (strict r); destruct (count _ _ _ _); cbn [mbind outcome_bind] in H; try done; by injection H as _ <-.
Qed.

(** ** Results *)
(** C21: a plan for a packet is right: after any sequence of configurations and lookups no operation
    panics, and waypoints are at most four, one of each segment in order, all different and none of
    them the destination or this node, each reachable and willing to forward waypoint traffic in the
    snapshot of the packet; a packet is dropped or falls back, by the strictness of its path, only
    when a segment has no such member left; and routing is automatic only without waypoints. *)
Theorem waypoint_plan_correct my l g rule dest flow :
  exists s s' p, run (new my) l = Ok s /\ waypoints ln s (snap g) rule dest flow = Ok (s', p) /\ plan_ok (rules s) my g (Z.to_nat rule) dest p.
Proof.
  destruct (run_path_inv l (new my) (new_path_inv my)) as (s & E & Hi & Hm). destruct (waypoints_spec s g rule dest flow Hi) as (s' & p & Hw & _ & Hp).
  rewrite Hm in Hp. by exists s, s', p.
Qed.

(** a member that disappears moves only its own flows: when from one snapshot to another peers
    only stop to be usable as waypoints, and those of the plan of a flow stay usable, the flow keeps
    its plan, with weighted and with failover groups. *)
Theorem flows_move_only_with_members my l s g g' rule dest flow s1 chain :
  run (new my) l = Ok s -> waypoints ln s (snap g) rule dest flow = Ok (s1, Via chain) -> only_loses my g g' chain ->
  exists s2, waypoints ln s1 (snap g') rule dest flow = Ok (s2, Via chain).
Proof.
  intros Hr Hw Hlose. destruct (run_path_inv l (new my) (new_path_inv my)) as (s' & E & Hi & Hm). rewrite E in Hr. injection Hr as ->.
  destruct (waypoints_spec s g rule dest flow Hi) as (s1' & p & Hw' & (Hi1 & Hr1 & Hm1) & Hp). rewrite Hw in Hw'. injection Hw' as <- <-.
  destruct Hp as (r & Hrule & Hv & _). pose proof (waypoints_plan s g rule dest flow s1 _ r Hi Hw Hrule Hv) as H1.
  destruct (waypoints_spec s1 g' rule dest flow Hi1) as (s2 & p & Hw2 & _). exists s2. rewrite Hw2. do 2 f_equal.
  rewrite <- Hr1 in Hrule. pose proof (waypoints_plan s1 g' rule dest flow s2 p r Hi1 Hw2 Hrule Hv) as H2. rewrite Hm1, Hm in H2. rewrite Hm in H1. change (my_peer_id (new my)) with my in *.
  destruct (plan_via ln (resolved_members (snap g) my r) rule dest flow 0 [] [] (via r)) as [[[ch pk]|]|[]|] eqn:Ep; [|by destruct (strict r)|done|done].
  injection H1 as ->. by rewrite (plan_stable my g g' _ _ rule dest flow ch (via r) Hlose 0 [] [] pk (at_position_via r g my) (at_position_via r g' my) Ep) in H2.
Qed.

(** the gateway of an address comes from the path with the longest prefix that covers it: it is
    a reachable member of the gateway of that path that is an exit or announces the best service
    route for the address, and it translates addresses exactly when it does not announce one; there
    is none only when no path covers the address or that path has no such member. *)
Theorem path_gateway_correct my l g a flow :
  exists s s' x, run (new my) l = Ok s /\ cidr_gateway ln s (snap g) a flow = Ok (s', x) /\ gateway_ok (rules s) my g a x.
Proof.
  destruct (run_path_inv l (new my) (new_path_inv my)) as (s & E & Hi & Hm). destruct (cidr_gateway_spec s g a flow Hi) as (s' & x & Hw & _ & Hp).
  rewrite Hm in Hp. by exists s, s', x.
Qed.
End Runtime.
End Props.

(** ** Witnesses *)
Definition sample_decode (text : list Z) : option (list Z) := None.
Definition sample_cidr (text : list Z) : option IpCidr :=
  if bool_decide (text = str "10.8.0.0/13") then Some (CidrV4 (mk_cidr 0x0a080000 13)) else None.
(** the first term of the series of the logarithm at one *)
Definition sample_ln (x : spec_float) : spec_float := SFsub F64.prec F64.emax x (F64.of_u 1).
Definition sample_feature : PeerFeatureFlag := mk_features true true false true.
(** three peers; from generation 2 on there is no route to the peer 3 *)
Definition sample_snap (g : Z) : ForwardingDecisionSnapshot (PM := map_maps) :=
  mk_decision (PM := map_maps) g (new_table [mk_info 2 (Some sample_feature) None; mk_info 3 (Some sample_feature) None; mk_info 9 None None])
    (if g <? 2 then ∅ else {[3]}) (list_to_map [(2, 2); (3, 3); (9, 2)]) ∅ ∅ ∅
    (list_to_map [(0x0a000002, 2); (0x0a000003, 3); (0x0a000009, 9)]) ∅ (ServiceRoute.default_snapshot (PM := map_maps)).
Definition sample_config : Config := mk_config
  [mk_group (str "relays") [str "10.0.0.2"; str "10.0.0.3"] (str "flow") [5; 1]]
  [mk_path (str "10.0.0.9") [str "relays"] [] true; mk_path (str "10.8.0.0/13") [] (str "relays") false].
Definition sample_ops : list op := [ORefresh 1 (Some sample_config); OInternet 1 7; ORecord 0 true].

Definition sample_run (l : list op) : t (PM := map_maps) :=
  match run (PM := map_maps) sample_decode sample_cidr sample_ln sample_snap (new (PM := map_maps) 1) l with Ok s => s | _ => new (PM := map_maps) 1 end.
Definition result_of {A B} (x : outcome unit (A * B)) : option B := match x with Ok (_, b) => Some b | _ => None end.

Lemma waypoint_plan_correct_witness :
  exists s s', run (PM := map_maps) sample_decode sample_cidr sample_ln sample_snap (new (PM := map_maps) 1) sample_ops = Ok s /\
    waypoints (PM := map_maps) sample_ln s (sample_snap 1) 0 9 5 = Ok (s', Via [2]) /\ plan_ok (PM := map_maps) sample_snap (rules s) 1 1 0 9 (Via [2]).
Proof.
  destruct (waypoint_plan_correct (PM := map_maps) (PL := map_maps_laws) sample_decode sample_cidr sample_ln sample_snap (fun g => eq_refl) 1 sample_ops 1 0 9 5) as (s & s' & p & H1 & H2 & H3).
  exists s, s'. assert (p = Via [2]) as ->; [|split; [exact H1|split; [exact H2|exact H3]]].
  assert (s = sample_run sample_ops) as Es by (unfold sample_run; rewrite H1; reflexivity). subst s.
  assert (result_of (waypoints (PM := map_maps) sample_ln (sample_run sample_ops) (sample_snap 1) 0 9 5) = Some (Via [2])) as Hw by (vm_compute; reflexivity).
  rewrite H2 in Hw. cbn [result_of] in Hw. congruence.
Defined.

Lemma sample_loses : only_loses (PM := map_maps) sample_snap 1 1 2 [2].
Proof.
  split.
  - intros ref p [(H1 & H2 & H3) H4]. split; [|exact H4]. split; [exact H1|]. split; [exact H2|]. revert H3. unfold next_hop. cbn [sample_snap suppressed_peer_ids]. destruct (bool_decide (p ∈ _)); [done|].
    by rewrite bool_decide_eq_false_2 by set_solver.
  - intros ref p ->%list_elem_of_singleton [(H1 & H2 & H3) H4]. split; [|exact H4]. split; [exact H1|]. split; [exact H2|]. by vm_compute.
Qed.
Definition sample_planned : t (PM := map_maps) :=
  match waypoints (PM := map_maps) sample_ln (sample_run sample_ops) (sample_snap 1) 0 9 5 with Ok (s, _) => s | _ => new (PM := map_maps) 1 end.

Lemma flows_move_only_with_members_witness : exists s2, waypoints (PM := map_maps) sample_ln sample_planned (sample_snap 2) 0 9 5 = Ok (s2, Via [2]).
Proof.
  apply (flows_move_only_with_members (PM := map_maps) (PL := map_maps_laws) sample_decode sample_cidr sample_ln sample_snap (fun g => eq_refl) 1 sample_ops (sample_run sample_ops) 1 2 0 9 5).
  - vm_compute. reflexivity.
  - vm_compute. reflexivity.
  - exact sample_loses.
Defined.

Lemma path_gateway_correct_witness :
  exists s s', run (PM := map_maps) sample_decode sample_cidr sample_ln sample_snap (new (PM := map_maps) 1) sample_ops = Ok s /\
    cidr_gateway (PM := map_maps) sample_ln s (sample_snap 1) (V4 0x0a090001) 5 = Ok (s', Some (mk_choice 2 1 true)) /\
    gateway_ok (PM := map_maps) sample_snap (rules s) 1 1 (V4 0x0a090001) (Some (mk_choice 2 1 true)).
Proof.
  destruct (path_gateway_correct (PM := map_maps) (PL := map_maps_laws) sample_decode sample_cidr sample_ln sample_snap (fun g => eq_refl) 1 sample_ops 1 (V4 0x0a090001) 5) as (s & s' & x & H1 & H2 & H3).
  exists s, s'. assert (x = Some (mk_choice 2 1 true)) as ->; [|split; [exact H1|split; [exact H2|exact H3]]].
  assert (s = sample_run sample_ops) as Es by (unfold sample_run; rewrite H1; reflexivity). subst s.
  assert (result_of (cidr_gateway (PM := map_maps) sample_ln (sample_run sample_ops) (sample_snap 1) (V4 0x0a090001) 5) = Some (Some (mk_choice 2 1 true))) as Hw by (vm_compute; reflexivity).
  rewrite H2 in Hw. cbn [result_of] in Hw. congruence.
Defined.
End PathPolicyProps.
