(* ===== verification/RouteGraph.v ===== *)
(** * The graphs that routes are computed on

    From the synchronised peer records to weighted graphs (src/lowertier/src/peers/peer_ospf_route.rs):
    [TopologyBuildInput::capture] builds the topology, [TopologyBuildInput::with_measurements] the graph of the
    data edges, with transit denied where a peer denies it and avoided where a peer asks for it, the graph of the
    measured deliveries, and the control graph.

    The cost calculator is an interface, as in the code; the base64 and cidr crates and the lookup of a credential by
    its key are arguments.  Hash maps are traversed in one fixed order. *)
From stdpp Require Import base list gmap numbers sorting.
From Stdlib Require Import ZArith Lia.
From S2P Require Import Prelude NetAddr Forwarding PeerGraph WidestPath.

Local Open Scope Z_scope.

Module RouteGraph.
Import PeerGraph Prefix.

(** ** Peer records *)
(** the fields that routing reads *)
Record PeerFeatureFlag : Type := mk_flags { deny_transit_data : bool; relay_semantics_v1 : bool; avoid_relay_data : bool }.
Record RelayLinkCost : Type := mk_link { link_peer : list Z; bias_ms : Z }.
Inductive PeerIdentityType : Type := Admin | Credential | SharedNode | ForeignRelay.
#[export] Instance PeerIdentityType_eq_dec : EqDecision PeerIdentityType.
Proof. solve_decision. Defined.
Definition identity_of (n : Z) : option PeerIdentityType :=
  if n =? 0 then Some Admin else if n =? 1 then Some Credential else if n =? 2 then Some SharedNode else if n =? 3 then Some ForeignRelay else None.

Record RoutePeerInfo : Type := mk_peer {
  p_version : Z;
  identity_type : Z;
  noise_static_pubkey : list Z;
  feature_flag : option PeerFeatureFlag;
  relay_link_cost : list RelayLinkCost;
  ipv4_addr : option Z;
  ipv6_addr : option (option Z);
  ipv6_public_addr_lease : option (option Z);
  proxy_cidrs : list (list Z);
  udp_nat_type : Z;
}.
Definition is_admin (info : RoutePeerInfo) : bool := bool_decide (identity_of (identity_type info) = Some Admin).
Definition is_credential_peer_info (info : RoutePeerInfo) : bool := bool_decide (identity_of (identity_type info) = Some Credential).

(** what [capture] reads of [SyncedRouteInfo] *)
Record SyncedRouteInfo : Type := mk_synced {
  sy_version : Z;
  sy_peer_infos : gmap Z RoutePeerInfo;
  sy_conn_map : gmap Z (gset Z);
  suppressed_non_reusable : gset Z;
}.

Abbreviation PeerGraph := (Graph Z).
Record TopologyBuildInput : Type := mk_topology {
  t_version : Z;
  t_graph : PeerGraph;
  (** [NodeIndex::end()] is [None] *)
  t_start_node : option nat;
  t_peer_infos : gmap Z RoutePeerInfo;
  t_conn_map : gmap Z (gset Z);
  t_suppressed_peer_ids : gset Z;
  relay_credential_peers : gset Z;
  t_local_proxy_cidrs : list IpCidr;
}.
Record RouteBuildInput : Type := mk_input {
  version : Z;
  graph : PeerGraph;
  control_graph : PeerGraph;
  speed_graph : WidestPath.SpeedGraph;
  speed_preparation : option WidestPath.WidestPathPreparation;
  start_node : option nat;
  peer_infos : gmap Z RoutePeerInfo;
  suppressed_peer_ids : gset Z;
  local_proxy_cidrs : list IpCidr;
}.

(** ** Capturing the topology *)
(** a [BTreeSet] in its order *)
Definition ascending (s : gset Z) : list Z := merge_sort Z.le (elements s).

Section Capture.
Context {P : Petgraph}.
(** [SyncedRouteInfo::get_credential_info_by_pubkey]: whether the credential of a key allows relaying *)
Context (credential_allows_relay : list Z -> option bool).
Context (parse_cidr : list Z -> option IpCidr).

Definition is_relay_credential (info : RoutePeerInfo) : bool :=
  is_credential_peer_info info && bool_decide (credential_allows_relay (noise_static_pubkey info) = Some true).

(** one node for each peer *)
Definition add_peer (s : PeerGraph * gmap Z nat) (p : Z) : PeerGraph * gmap Z nat :=
  (add_node p s.1, <[p := node_count s.1]> s.2).

(** an edge to each connected peer that is a node *)
Definition add_connection (nodes : gmap Z nat) (src : nat) (g : PeerGraph) (dst : Z) : PeerGraph :=
  match nodes !! dst with Some v => add_edge src v 0 g | None => g end.
Definition add_connections (my_peer_id : Z) (conns : gmap Z (gset Z)) (suppressed : gset Z) (nodes : gmap Z nat) (g : PeerGraph) (x : Z * nat) : PeerGraph :=
  if negb (x.1 =? my_peer_id) && bool_decide (x.1 ∈ suppressed) then g
  else match conns !! x.1 with
       | None => g
       | Some peers => foldl (add_connection nodes x.2) g (ascending peers)
       end.

(** an edge back from a credential that may relay to the administrator that reports it *)
Definition add_reverse_edge (nodes : gmap Z nat) (conns : gmap Z (gset Z)) (relays suppressed : gset Z) (source_peer : Z) (source_node : nat)
    (g : PeerGraph) (dst : Z) : PeerGraph :=
  if bool_decide (dst ∈ suppressed) || negb (bool_decide (dst ∈ relays)) then g
  else match nodes !! dst with
       | None => g
       | Some dst_node =>
           if match conns !! dst with Some c => bool_decide (source_peer ∈ c) | None => false end then g
           else add_edge dst_node source_node 0 g
       end.
Definition add_reverse_edges (nodes : gmap Z nat) (infos : gmap Z RoutePeerInfo) (conns : gmap Z (gset Z)) (relays suppressed : gset Z)
    (g : PeerGraph) (x : Z * gset Z) : PeerGraph :=
  if negb (match infos !! x.1 with Some info => is_admin info | None => false end) then g
  else match nodes !! x.1 with
       | None => g
       | Some source_node => foldl (add_reverse_edge nodes conns relays suppressed x.1 source_node) g (ascending x.2)
       end.
Definition add_authorized_relay_reverse_edges (nodes : gmap Z nat) (infos : gmap Z RoutePeerInfo) (conns : gmap Z (gset Z)) (relays suppressed : gset Z)
    (g : PeerGraph) : PeerGraph :=
  foldl (add_reverse_edges nodes infos conns relays suppressed) g (map_to_list conns).

Definition capture (my_peer_id : Z) (synced : SyncedRouteInfo) : TopologyBuildInput :=
  let infos := filter (fun x : Z * RoutePeerInfo => p_version x.2 <> 0) (sy_peer_infos synced) in
  let conns := sy_conn_map synced in
  let suppressed := suppressed_non_reusable synced in
  let relays : gset Z := list_to_set (fst <$> filter (fun x : Z * RoutePeerInfo => is_relay_credential x.2) (map_to_list infos)) in
  let '(g, nodes) := foldl add_peer (graph_new, ∅) (fst <$> map_to_list infos) in
  let start := nodes !! my_peer_id in
  let g :=
    if bool_decide (start = None) then g
    else add_authorized_relay_reverse_edges nodes infos conns relays suppressed (foldl (add_connections my_peer_id conns suppressed nodes) g (map_to_list nodes)) in
  let cidrs := match infos !! my_peer_id with Some info => omap parse_cidr (proxy_cidrs info) | None => [] end in
  mk_topology (sy_version synced) g start infos conns suppressed relays cidrs.
End Capture.

(** ** Measurements *)
(** [RouteCostCalculatorInterface] *)
Class RouteCostCalculator : Type := { calculate_cost : Z -> Z -> Z; calculate_delivery_bps : Z -> Z -> option Z }.

Section Measure.
Context {P : Petgraph} {CC : RouteCostCalculator}.
(** the base64 crate *)
Context (decode : list Z -> option (list Z)).
Definition peer_key (s : list Z) : option (list Z) := k ← decode s; if len k =? 32 then Some k else None.

Section Topology.
Context (t : TopologyBuildInput).
Definition peer_of (u : nat) : option RoutePeerInfo := p ← node_weights (t_graph t) !! u; t_peer_infos t !! p.
Definition is_start (u : nat) : bool := bool_decide (t_start_node t = Some u).

Definition source_denies_transit (u : nat) : bool :=
  negb (is_start u) && match peer_of u ≫= feature_flag with Some f => deny_transit_data f || negb (relay_semantics_v1 f) | None => true end.
(** the first of the source's link costs that names the target's key *)
Definition bias (u v : nat) : Z :=
  match (info ← peer_of u; dst ← peer_of v;
         bias_ms <$> head (filter (fun l => peer_key (link_peer l) = Some (noise_static_pubkey dst)) (take 256 (relay_link_cost info)))) with
  | Some b => b
  | None => 0
  end.
Definition peer_at (u : nat) : Z := default 0 (node_weights (t_graph t) !! u).
(** used only where a measurement is captured *)
Definition effective_cost (u v : nat) : Z :=
  let raw_cost := Z.max (calculate_cost (peer_at u) (peer_at v)) 0 in
  Z.min (saturating_add 64 raw_cost (bias u v)) (2 ^ 31 - 1).
Definition source_can_publish_delivery (u : nat) : bool :=
  is_start u || match peer_of u with Some info => is_admin info | None => false end || bool_decide (peer_at u ∈ relay_credential_peers t).

(** the edge of the speed graph, if the delivery may be used and is measured *)
Definition add_delivery (capture : bool) (g : WidestPath.SpeedGraph) (e : Edge Z) : WidestPath.SpeedGraph :=
  if capture && source_can_publish_delivery (source e) && negb (source_denies_transit (source e)) then
    match calculate_delivery_bps (peer_at (source e)) (peer_at (target e)) with
    | None => g
    | Some d => if d =? 0 then g else add_edge (source e) (target e) (WidestPath.mk_speed d (effective_cost (source e) (target e))) g
    end
  else g.

(** the clone of the topology with every weight replaced *)
Definition weighted (g : PeerGraph) : PeerGraph :=
  let f e := mk_edge (source e) (target e) (effective_cost (source e) (target e)) in
  mk_graph (node_weights g) (f <$> edge_references g) (fun u => f <$> edges g u).

(** [retain_edges]: transit only where it is allowed *)
Definition allows_transit (u : nat) : bool :=
  is_start u || match peer_of u ≫= feature_flag with Some f => relay_semantics_v1 f && negb (deny_transit_data f) | None => false end.
Definition avoid_cost (u : nat) : Z :=
  if negb (is_start u) && match peer_of u ≫= feature_flag with Some f => avoid_relay_data f | None => false end then 1 else 0.
Definition permitted (d : gmap nat Z) (u v : nat) : bool :=
  match d !! u, d !! v with Some a, Some b => a + avoid_cost u =? b | _, _ => false end.

Definition with_measurements (capture_cost capture_delivery : bool) : outcome WidestPath.Error RouteBuildInput :=
  let g := if capture_cost then weighted (t_graph t) else graph_new in
  let speed := if capture_delivery then foldl (fun g p => add_node p g) graph_new (node_weights (t_graph t)) else graph_new in
  let speed := foldl (add_delivery capture_delivery) speed (edge_references (t_graph t)) in
  let g := retain_edges (fun u _ => allows_transit u) g in
  let distances :=
    match t_start_node t with
    | Some start => if bool_decide (is_Some (node_weights g !! start)) then dijkstra g start (fun e => avoid_cost (source e)) else ∅
    | None => ∅
    end in
  let g := retain_edges (permitted distances) g in
  let speed := retain_edges (permitted distances) speed in
  preparation ← (if capture_delivery then p ← WidestPath.prepare_widest_path speed (default (node_count speed) (t_start_node t)); Ok (Some p) else Ok None);
  Ok (mk_input (t_version t) g (t_graph t) speed preparation (t_start_node t) (t_peer_infos t) (t_suppressed_peer_ids t) (t_local_proxy_cidrs t)).
End Topology.
End Measure.
End RouteGraph.
