(* ===== verification/RouteGraphProps.v ===== *)
(** * Properties of the route graphs

    What [capture] and [with_measurements] (RouteGraph) build: the topology has exactly the reported and authorised
    edges, and the data graph exactly the paths over consenting relays that cross the fewest peers to be avoided. *)
From stdpp Require Import base list gmap numbers sorting.
From Stdlib Require Import ZArith Lia.
From S2P Require Import Prelude NetAddr GraphAlgo Forwarding PeerGraph WidestPath WidestPathProps WidestRoutes RouteGraph.

Local Open Scope Z_scope.

Module RouteGraphProps.
Import PeerGraph RouteGraph.

(** ** The measured graphs *)
(** a topology as [capture] makes it *)
Record topology_ok (t : TopologyBuildInput) : Prop := {
  to_wf : well_formed (t_graph t);
  to_nodup : NoDup (node_weights (t_graph t));
  to_start : forall s, t_start_node t = Some s -> (s < node_count (t_graph t))%nat;
  to_size : Z.of_nat (node_count (t_graph t)) < 2 ^ 32;
  to_bias : forall p info l, t_peer_infos t !! p = Some info -> l ∈ relay_link_cost info -> is_u 32 (bias_ms l);
}.

Section Measured.
Context {P : Petgraph} {PL : PetgraphLaws} {CC : RouteCostCalculator} (decode : list Z -> option (list Z)).
Context (t : TopologyBuildInput) (T : topology_ok t) (s : nat) (Hs : t_start_node t = Some s).
#[local] Notation weighted := (weighted decode t (t_graph t)).

Lemma bias_range u v : 0 <= bias decode t u v.
Proof.
  unfold bias. destruct (_ ≫= _) as [b|] eqn:E; [|lia]. apply bind_Some in E as (info & Ei & E). apply bind_Some in E as (dst & Ed & E).
  apply fmap_Some in E as (l & El & ->). apply head_Some_elem_of, list_elem_of_filter in El as [_ El].
  apply bind_Some in Ei as (p & _ & Ei). assert (K : is_u 32 (bias_ms l)); [|unfold is_u in K; lia].
  eapply to_bias; [done|exact Ei|]. eapply elem_of_take in El as (i & ? & _). by eapply list_elem_of_lookup_2.
Qed.
Lemma effective_cost_range u v : 0 <= effective_cost decode t u v <= 2 ^ 31 - 1.
Proof. pose proof (bias_range u v). unfold effective_cost, saturating_add, u_max. lia. Qed.

(** the topology with its costs *)
Lemma elem_of_weighted e : e ∈ edge_references weighted <->
  exists e0, e0 ∈ edge_references (t_graph t) /\ source e0 = source e /\ target e0 = target e /\ weight e = effective_cost decode t (source e) (target e).
Proof.
  simpl. rewrite list_elem_of_fmap. split.
  - intros (e0 & -> & He). by exists e0.
  - intros (e0 & He & Es & Et & Ew). exists e0. split; [|done]. destruct e; simpl in *. by subst.
Qed.
Lemma weighted_wf : well_formed weighted.
Proof.
  split.
  - intros e (e0 & He & <- & <- & _)%elem_of_weighted. by apply (to_wf t T).
  - intros u. simpl. rewrite (wf_out _ (to_wf t T) u). generalize (edge_references (t_graph t)) as l. induction l as [|e l IH]; [done|].
    rewrite fmap_cons, !filter_cons. simpl. case_decide; [rewrite fmap_cons|]; by rewrite IH.
Qed.
Lemma weighted_count : node_count weighted = node_count (t_graph t).
Proof. done. Qed.

(** *** Relays that consent *)
Definition data_graph : Graph Z := retain_edges (fun u _ => allows_transit t u) weighted.
Definition avoided (es : list (Edge Z)) : Z := sum_Z (fun e => avoid_cost t (source e)) es.
(** every edge leaves this node or a peer that allows transit *)
Definition consented (es : list (Edge Z)) : Prop := forall e, e ∈ es -> allows_transit t (source e) = true.

Lemma avoid_cost_range u : 0 <= avoid_cost t u <= 1.
Proof. unfold avoid_cost. case_match; lia. Qed.
Lemma avoided_snoc es e : avoided (es ++ [e]) = avoided es + avoid_cost t (source e).
Proof. unfold avoided. rewrite sum_Z_app. simpl. lia. Qed.

Lemma data_walk es v : walk data_graph s es v <-> walk weighted s es v /\ consented es.
Proof.
  unfold data_graph, consented. split.
  - induction 1 as [|es u e We [IH1 IH2] [He Hk]%elem_of_retain Hu]; [split; [constructor|set_solver]|].
    split; [by eapply walk_snoc|]. intros x [?| ->%list_elem_of_singleton]%elem_of_app; auto.
  - intros [We Hk]. induction We as [|es u e We IH He Hu]; [constructor|]. eapply walk_snoc; [apply IH; set_solver| |done].
    apply elem_of_retain. split; [done|]. apply Hk. set_solver.
Qed.

(** *** Peers to be avoided *)
Definition avoid_distances : gmap nat Z := dijkstra data_graph s (fun e => avoid_cost t (source e)).
Definition preferred_graph : Graph Z := retain_edges (permitted t avoid_distances) data_graph.

Lemma data_wf : well_formed data_graph.
Proof. apply retain_wf, weighted_wf. Qed.
Lemma data_count : node_count data_graph = node_count (t_graph t).
Proof. unfold data_graph. by rewrite retain_count. Qed.

Lemma avoid_distances_spec : distances data_graph s (fun e => avoid_cost t (source e)) avoid_distances.
Proof.
  pose proof (to_size t T). apply (dijkstra_spec _ data_graph s _ 1 data_wf); rewrite ?data_count; [by apply (to_start t T)|intros; apply avoid_cost_range|lia|lia].
Qed.

(** the ways of the preferred graph are the consented ones that avoid best *)
Lemma preferred_walk es v : walk preferred_graph s es v <-> walk data_graph s es v /\ forall es2, walk data_graph s es2 v -> avoided es <= avoided es2.
Proof.
  pose proof (tight_walk data_graph data_wf s _ _ avoid_distances_spec (fun e _ => proj1 (avoid_cost_range (source e)))) as K. split.
  - intros We. assert (Kt : walk data_graph s es v /\ forall e, e ∈ es -> tight avoid_distances (fun e => avoid_cost t (source e)) e = true).
    { induction We as [|es u e We [IH1 IH2] [He Hk]%elem_of_retain Hu]; [split; [constructor|set_solver]|]. split; [by eapply walk_snoc|].
      intros x [?| ->%list_elem_of_singleton]%elem_of_app; auto. }
    destruct Kt as [Wd Ht]. split; [done|]. by apply (K es v Wd).
  - intros [Wd Km]. pose proof (proj2 (K es v Wd) Km) as Ht. clear Km. induction Wd as [|es u e We IH He Hu]; [constructor|].
    eapply walk_snoc; [apply IH; set_solver| |done]. apply elem_of_retain. split; [done|]. apply (Ht e). set_solver.
Qed.

(** *** The speed graph *)
(** the measured edge over an edge of the topology *)
Definition delivery_edge (e : Edge Z) : option (Edge WidestPath.SpeedEdge) :=
  if source_can_publish_delivery t (source e) && negb (source_denies_transit t (source e)) then
    match calculate_delivery_bps (peer_at t (source e)) (peer_at t (target e)) with
    | None => None
    | Some d => if d =? 0 then None else Some (mk_edge (source e) (target e) (WidestPath.mk_speed d (effective_cost decode t (source e) (target e))))
    end
  else None.
Lemma add_delivery_edge g e : add_delivery decode t true g e = match delivery_edge e with Some x => add_edge (source x) (target x) (weight x) g | None => g end.
Proof. unfold add_delivery, delivery_edge. simpl. repeat case_match; done. Qed.

Lemma add_nodes_spec {W} l : forall g : Graph W, let g' := foldl (fun g p => add_node p g) g l in
  well_formed g -> well_formed g' /\ node_weights g' = node_weights g ++ l /\ edge_references g' = edge_references g.
Proof.
  induction l as [|p l IH]; intros g g' Wf; [by rewrite app_nil_r|]. destruct (IH (add_node p g) (add_node_wf p g Wf)) as (K1 & K2 & K3).
  destruct (add_node_spec W p g) as (E1 & E2 & _). unfold g'; simpl. split_and!; [done|rewrite K2, E1, <- app_assoc; done|by rewrite K3].
Qed.

Lemma add_deliveries_spec l : forall g, (forall e, e ∈ l -> (source e < node_count g)%nat /\ (target e < node_count g)%nat) -> well_formed g ->
  let g' := foldl (add_delivery decode t true) g l in
  well_formed g' /\ node_weights g' = node_weights g /\ forall x, x ∈ edge_references g' <-> x ∈ edge_references g \/ exists e, e ∈ l /\ delivery_edge e = Some x.
Proof.
  induction l as [|e l IH]; intros g Hl Wf; [simpl; split_and!; [done|done|set_solver]|]. simpl. rewrite add_delivery_edge.
  assert (Hx : forall x, delivery_edge e = Some x -> source x = source e /\ target x = target e) by (unfold delivery_edge; intros x; repeat case_match; intros; by simplify_eq).
  destruct (delivery_edge e) as [x|] eqn:Ed.
  - destruct (Hx x eq_refl) as [Es Et]. destruct (Hl e ltac:(by left)) as [Hu Hv]. destruct (add_edge_spec _ (source x) (target x) (weight x) g) as (Ew & Er & _).
    destruct (IH (add_edge (source x) (target x) (weight x) g)) as (K1 & K2 & K3).
    { intros y Hy. rewrite add_edge_count. apply Hl. by right. }
    { apply add_edge_wf; [by rewrite Es|by rewrite Et|done]. }
    split_and!; [done|by rewrite K2|]. intros y. rewrite K3, Er, elem_of_cons. replace (mk_edge (source x) (target x) (weight x)) with x by (by destruct x). set_solver.
  - destruct (IH g ltac:(set_solver) Wf) as (K1 & K2 & K3). split_and!; [done|done|]. intros y. rewrite K3. set_solver.
Qed.

Definition measured_graph : WidestPath.SpeedGraph :=
  foldl (add_delivery decode t true) (foldl (fun g p => add_node p g) graph_new (node_weights (t_graph t))) (edge_references (t_graph t)).
Lemma measured_spec : well_formed measured_graph /\ node_weights measured_graph = node_weights (t_graph t) /\
  forall x, x ∈ edge_references measured_graph <-> exists e, e ∈ edge_references (t_graph t) /\ delivery_edge e = Some x.
Proof.
  destruct (add_nodes_spec (W := WidestPath.SpeedEdge) (node_weights (t_graph t)) graph_new graph_new_wf) as (K1 & K2 & K3). destruct (graph_new_empty WidestPath.SpeedEdge) as (E1 & E2 & _).
  rewrite E1 in K2. rewrite E2 in K3. destruct (add_deliveries_spec (edge_references (t_graph t)) _ ltac:(intros e He; unfold node_count; rewrite K2; by apply (to_wf t T)) K1) as (L1 & L2 & L3).
  split_and!; [done|by unfold measured_graph; rewrite L2, K2|]. intros x. unfold measured_graph. rewrite L3, K3. set_solver.
Qed.
Definition speed : WidestPath.SpeedGraph := retain_edges (permitted t avoid_distances) measured_graph.

Lemma denies_allows u : negb (source_denies_transit t u) = allows_transit t u.
Proof. unfold source_denies_transit, allows_transit. destruct (is_start t u); [done|]. simpl. destruct (peer_of t u ≫= feature_flag) as [f|]; [|done]. by destruct (deny_transit_data f), (relay_semantics_v1 f). Qed.

(** an edge of the speed graph lies over one of the preferred graph *)
Lemma speed_edge x : x ∈ edge_references speed ->
  exists e, e ∈ edge_references preferred_graph /\ source e = source x /\ target e = target x /\ WidestPath.latency_ms (weight x) = weight e /\
    source_can_publish_delivery t (source e) = true /\ calculate_delivery_bps (peer_at t (source e)) (peer_at t (target e)) = Some (WidestPath.delivery_bps (weight x)) /\
    WidestPath.delivery_bps (weight x) <> 0.
Proof.
  unfold speed. intros [Hx Hk]%elem_of_retain. destruct measured_spec as (_ & _ & K). apply K in Hx as (e & He & Ex). unfold delivery_edge in Ex.
  destruct (_ && _) eqn:Eb; [|done]. apply andb_true_iff in Eb as [Hp Hd]. rewrite denies_allows in Hd. destruct (calculate_delivery_bps _ _) as [d|] eqn:Ec; [|done].
  destruct (Z.eqb_spec d 0); [done|]. injection Ex as <-. simpl in *. exists (mk_edge (source e) (target e) (effective_cost decode t (source e) (target e))). simpl. split_and!; try done.
  apply elem_of_retain. split; [|done]. apply elem_of_retain. split; [|done]. apply elem_of_weighted. by exists e.
Qed.
Lemma speed_wf : well_formed speed.
Proof. apply retain_wf, measured_spec. Qed.
Lemma speed_nodes : node_weights speed = node_weights (t_graph t).
Proof. destruct (retain_edges_spec _ (permitted t avoid_distances) measured_graph) as (E & _). destruct measured_spec as (_ & E2 & _). unfold speed. by rewrite E, E2. Qed.
Lemma speed_ok : (forall p q d, calculate_delivery_bps p q = Some d -> is_u 64 d) -> WidestPathProps.graph_ok speed.
Proof.
  intros Hd. split; [|apply speed_wf]. intros x Hx. destruct (wf_ends _ speed_wf x Hx) as [? ?]. destruct (speed_edge x Hx) as (e & He & _ & _ & El & _ & Ed & _).
  split_and!; [done|done|by eapply Hd|]. rewrite El. apply elem_of_retain in He as [[He _]%elem_of_retain _]. apply elem_of_weighted in He as (e0 & _ & _ & _ & ->).
  pose proof (effective_cost_range (source e) (target e)). unfold is_u. lia.
Qed.
End Measured.

(** ** Capturing *)
(** [g'] is [g] with the edges of [S] *)
Record adds {W} (S : Edge W -> Prop) (g g' : Graph W) : Prop := {
  ad_nodes : node_weights g' = node_weights g;
  ad_wf : well_formed g -> well_formed g';
  ad_edges : forall e, e ∈ edge_references g' <-> e ∈ edge_references g \/ S e;
}.
Lemma adds_none {W} (S : Edge W -> Prop) g : (forall e, ~ S e) -> adds S g g.
Proof. intros K. split; [done|done|]. intros e. pose proof (K e). tauto. Qed.
Lemma adds_ext {W} (S S' : Edge W -> Prop) g g' : adds S g g' -> (forall e, S e <-> S' e) -> adds S' g g'.
Proof. intros [K1 K2 K3] E. split; [done|done|]. intros e. by rewrite K3, E. Qed.
Lemma adds_trans {W} (S S' : Edge W -> Prop) g g' g'' : adds S g g' -> adds S' g' g'' -> adds (fun e => S e \/ S' e) g g''.
Proof. intros [K1 K2 K3] [L1 L2 L3]. split; [by rewrite L1|auto|]. intros e. rewrite L3, K3. tauto. Qed.
Lemma adds_fold {W A} (S : A -> Edge W -> Prop) (f : Graph W -> A -> Graph W) ns l :
  (forall x g, x ∈ l -> node_weights g = ns -> adds (S x) g (f g x)) -> forall g, node_weights g = ns -> adds (fun e => exists x, x ∈ l /\ S x e) g (foldl f g l).
Proof.
  induction l as [|x l IH]; intros Hf g Hn; [apply adds_none; set_solver|]. simpl. pose proof (Hf x g ltac:(by left) Hn) as K.
  eapply adds_ext; [eapply adds_trans; [exact K|apply IH; [intros; apply Hf; [by right|done]|by rewrite (ad_nodes _ _ _ K)]]|]. set_solver.
Qed.

Section Captured.
Context {P : Petgraph} {PL : PetgraphLaws}.

Lemma adds_edge {W} u v (w : W) g : (u < node_count g)%nat -> (v < node_count g)%nat -> adds (fun e => e = mk_edge u v w) g (add_edge u v w g).
Proof.
  intros Hu Hv. destruct (add_edge_spec W u v w g) as (E1 & E2 & _). split; [done|by apply add_edge_wf|]. intros e. rewrite E2. set_solver.
Qed.

(** the index of each peer *)
Definition indexes (ks : list Z) (nodes : gmap Z nat) : Prop := forall p i, nodes !! p = Some i <-> ks !! i = Some p.
Lemma add_peers_spec ks : NoDup ks -> let '(g, nodes) := foldl add_peer (graph_new, ∅) ks in
  well_formed g /\ node_weights g = ks /\ edge_references g = [] /\ indexes ks nodes.
Proof.
  destruct (graph_new_empty Z) as (E1 & E2 & _). induction ks as [|p ks IH] using rev_ind; intros Nd.
  { simpl. split_and!; [apply graph_new_wf|done|done|]. intros p i. rewrite lookup_empty. by split. }
  rewrite foldl_app. apply NoDup_app in Nd as (Nd & Hn & _). specialize (IH Nd). destruct (foldl add_peer (graph_new, ∅) ks) as [g nodes]. destruct IH as (K1 & K2 & K3 & K4). simpl.
  destruct (add_node_spec Z p g) as (N1 & N2 & _). split_and!; [by apply add_node_wf|by rewrite N1, K2|by rewrite N2|]. unfold node_count. rewrite K2.
  intros q i. destruct (decide (q = p)) as [->|Hq].
  - rewrite lookup_insert_eq, lookup_app. split; [intros [= <-]; rewrite lookup_ge_None_2 by lia; by rewrite Nat.sub_diag|].
    destruct (ks !! i) eqn:Ek; [intros [= ->]; exfalso; apply (Hn p); [by eapply list_elem_of_lookup_2|set_solver]|].
    intros Ei. apply list_lookup_singleton_Some in Ei as [Ei _]. apply lookup_ge_None_1 in Ek. f_equal. lia.
  - rewrite lookup_insert_ne, lookup_app by done. pose proof (K4 q i) as ->. split; [intros ->; done|]. destruct (ks !! i); [done|]. intros [_ ->]%list_lookup_singleton_Some. done.
Qed.

Lemma elem_of_ascending x (l : gset Z) : x ∈ ascending l <-> x ∈ l.
Proof. unfold ascending. rewrite merge_sort_Permutation. apply elem_of_elements. Qed.

Section Edges.
Context (nodes : gmap Z nat) (ks : list Z) (Hi : indexes ks nodes) (infos : gmap Z RoutePeerInfo) (conns : gmap Z (gset Z)) (relays suppressed : gset Z) (my : Z).

Lemma index_bound p u (g : Graph Z) : nodes !! p = Some u -> node_weights g = ks -> (u < node_count g)%nat.
Proof. intros E%Hi En. unfold node_count. rewrite En. by eapply lookup_lt_Some. Qed.

Lemma adds_connection p u dst g : nodes !! p = Some u -> node_weights g = ks ->
  adds (fun e => exists v, nodes !! dst = Some v /\ e = mk_edge u v 0) g (add_connection nodes u g dst).
Proof.
  intros Hu En. unfold add_connection. destruct (nodes !! dst) as [v|] eqn:Ev.
  - eapply adds_ext; [apply adds_edge; eapply index_bound; eauto|]. intros e. split; [intros ->; eauto|]. intros (? & [= <-] & ->); done.
  - apply adds_none. by intros e (? & ? & _).
Qed.
Definition connected (p dst : Z) : Prop := (p = my \/ p ∉ suppressed) /\ exists peers, conns !! p = Some peers /\ dst ∈ peers.
Lemma adds_connections p u g : nodes !! p = Some u -> node_weights g = ks ->
  adds (fun e => exists dst v, connected p dst /\ nodes !! dst = Some v /\ e = mk_edge u v 0) g (add_connections my conns suppressed nodes g (p, u)).
Proof.
  intros Hu En. unfold add_connections, connected. simpl. destruct (Z.eqb_spec p my) as [Hp|Hp], (bool_decide_reflect (p ∈ suppressed)) as [Hsu|Hsu]; simpl.
  3: { apply adds_none. intros e (dst & v & [[?|?] _] & _); done. }
  all: destruct (conns !! p) as [peers|] eqn:Ec; [|apply adds_none; intros e (dst & v & [_ (? & ? & _)] & _); congruence].
  all: eapply adds_ext; [apply (adds_fold (fun dst e => exists v, nodes !! dst = Some v /\ e = mk_edge u v 0) _ ks); [intros dst g' _ En'; by eapply adds_connection|done]|].
  all: intros e; split; [intros (dst & ?%elem_of_ascending & v & ? & ?); exists dst, v; split_and!; eauto|].
  all: intros (dst & v & [_ (peers' & Ep & ?)] & ? & ?); simplify_eq; exists dst; split; [by apply elem_of_ascending|eauto].
Qed.

(** an administrator reports a relay credential that does not report it *)
Definition reversed (p dst : Z) : Prop :=
  (exists info, infos !! dst = Some info /\ is_admin info = true) /\ (exists peers, conns !! dst = Some peers /\ p ∈ peers) /\ p ∉ suppressed /\ p ∈ relays /\
  ~ exists peers, conns !! p = Some peers /\ dst ∈ peers.
Lemma adds_reverse p (peers : gset Z) g : conns !! p = Some peers -> node_weights g = ks ->
  adds (fun e => exists q u v, reversed q p /\ nodes !! q = Some u /\ nodes !! p = Some v /\ e = mk_edge u v 0) g (add_reverse_edges nodes infos conns relays suppressed g (p, peers)).
Proof.
  intros Ec En. unfold add_reverse_edges. simpl. destruct (match infos !! p with Some info => is_admin info | None => false end) eqn:Ea; simpl.
  2: { apply adds_none. intros e (q & u & v & [(info & Ei & Ha) _] & _). rewrite Ei in Ea. congruence. }
  assert (Ha : exists info, infos !! p = Some info /\ is_admin info = true) by (destruct (infos !! p); [eauto|done]).
  destruct (nodes !! p) as [v|] eqn:Ev; [|apply adds_none; intros e (q & u & v & _ & _ & ? & _); done].
  eapply adds_ext; [apply (adds_fold (fun q e => reversed q p /\ exists u, nodes !! q = Some u /\ e = mk_edge u v 0) _ ks); [|done]|].
  - intros q g' Hq%elem_of_ascending En'. unfold add_reverse_edge, reversed.
    destruct (bool_decide_reflect (q ∈ suppressed)) as [Hsu|Hsu], (bool_decide_reflect (q ∈ relays)) as [Hr|Hr]; simpl; try (apply adds_none; naive_solver).
    destruct (nodes !! q) as [u|] eqn:Eu; [|apply adds_none; naive_solver].
    destruct (match conns !! q with Some c => bool_decide (p ∈ c) | None => false end) eqn:Er.
    + apply adds_none. intros e [(_ & _ & _ & _ & K) _]. destruct (conns !! q) as [c|]; [|done]. apply bool_decide_eq_true in Er. eauto.
    + eapply adds_ext; [apply adds_edge; eapply index_bound; eauto|]. intros e. split; [intros ->|intros [_ (? & [= <-] & ->)]; done].
      split; [split_and!; eauto|eauto]. intros (c & Ecq & Hc). rewrite Ecq in Er. by apply bool_decide_eq_false in Er.
  - intros e. split; [intros (q & _ & R & u & ? & ?); eauto 10|]. intros (q & u & v' & R & ? & [= <-] & ->). exists q. split; [|eauto].
    destruct R as (_ & (c & Ecq & ?) & _). rewrite Ec in Ecq. simplify_eq. by apply elem_of_ascending.
Qed.
End Edges.

Section Topology.
Context (allows : list Z -> option bool) (parse : list Z -> option Prefix.IpCidr) (my : Z) (synced : SyncedRouteInfo).

(** the peers that routing knows *)
Definition known : gmap Z RoutePeerInfo := filter (fun x => p_version x.2 <> 0) (sy_peer_infos synced).
Definition may_relay (p : Z) : Prop := exists info, known !! p = Some info /\ is_relay_credential allows info = true.
(** a reported connection of a peer that is not suppressed, or the way back from a relay credential to its administrator *)
Definition topology_edge (p q : Z) : Prop :=
  connected (sy_conn_map synced) (suppressed_non_reusable synced) my p q \/
  ((exists info, known !! q = Some info /\ is_admin info = true) /\ (exists peers, sy_conn_map synced !! q = Some peers /\ p ∈ peers) /\
   p ∉ suppressed_non_reusable synced /\ may_relay p /\ ~ exists peers, sy_conn_map synced !! p = Some peers /\ q ∈ peers).

Record synced_ok : Prop := {
  so_mine : is_Some (known !! my);
  so_size : Z.of_nat (size (sy_peer_infos synced)) < 2 ^ 32;
  so_bias : forall p info l, sy_peer_infos synced !! p = Some info -> l ∈ relay_link_cost info -> is_u 32 (bias_ms l);
}.

Lemma relays_spec p : p ∈ (list_to_set (fst <$> filter (fun x : Z * RoutePeerInfo => is_relay_credential allows x.2) (map_to_list known)) : gset Z) <-> may_relay p.
Proof.
  rewrite elem_of_list_to_set, list_elem_of_fmap. unfold may_relay. split.
  - intros ([q info] & -> & [Hr Hq]%list_elem_of_filter). apply elem_of_map_to_list in Hq. exists info. split; [done|]. by apply Is_true_true.
  - intros (info & Hk & Hr). exists (p, info). split; [done|]. apply list_elem_of_filter. split; [by apply Is_true_true|by apply elem_of_map_to_list].
Qed.
(** the edges that [capture] adds to the graph of the nodes *)
Lemma captured_edges g nodes ks relays : node_weights g = ks -> indexes ks nodes -> (forall p, p ∈ relays <-> may_relay p) ->
  adds (fun e => exists p q, ks !! source e = Some p /\ ks !! target e = Some q /\ weight e = 0 /\ topology_edge p q) g
    (add_authorized_relay_reverse_edges nodes known (sy_conn_map synced) relays (suppressed_non_reusable synced)
      (foldl (add_connections my (sy_conn_map synced) (suppressed_non_reusable synced) nodes) g (map_to_list nodes))).
Proof.
  intros En Hi Hr. set (g1 := foldl _ g _).
  assert (A1 : adds (fun e => exists x, x ∈ map_to_list nodes /\ exists dst v, connected (sy_conn_map synced) (suppressed_non_reusable synced) my x.1 dst /\ nodes !! dst = Some v /\ e = mk_edge x.2 v 0) g g1).
  { apply (adds_fold (fun (x : Z * nat) e => exists dst v, connected _ _ my x.1 dst /\ nodes !! dst = Some v /\ e = mk_edge x.2 v 0) _ ks); [|done].
    intros [p u] g' Hx%elem_of_map_to_list En'. by eapply adds_connections. }
  eapply adds_ext; [eapply adds_trans; [exact A1|]|].
  { apply (adds_fold (fun (x : Z * gset Z) e => exists q u v, reversed known (sy_conn_map synced) relays (suppressed_non_reusable synced) q x.1 /\ nodes !! q = Some u /\ nodes !! x.1 = Some v /\ e = mk_edge u v 0) _ ks); [|by rewrite (ad_nodes _ _ _ A1)].
    intros [p peers] g' Hx%elem_of_map_to_list En'. by eapply adds_reverse. }
  intros e. unfold topology_edge, reversed. setoid_rewrite Hr. split.
  - intros [([p u] & Hx%elem_of_map_to_list & dst & v & C & Hv & ->)|([p peers] & Hx%elem_of_map_to_list & q & u & v & R & Hu & Hv & ->)]; simpl in *.
    + exists p, dst. split_and!; [by apply Hi|by apply Hi|done|by left].
    + exists q, p. split_and!; [by apply Hi|by apply Hi|done|by right].
  - intros (p & q & Hu%Hi & Hv%Hi & Ew & [C|R]); destruct e as [u v w]; simpl in *; subst w.
    + left. exists (p, u). split; [by apply elem_of_map_to_list|]. by exists q, v.
    + right. destruct R as (Ra & (peers & Rc & Rp) & Rr). exists (q, peers). split; [by apply elem_of_map_to_list|]. exists p, u, v. destruct Rr as (? & ? & ?). split_and!; try done; eauto.
Qed.

(** the topology has the known peers as its nodes and exactly the topology's edges *)
Lemma capture_spec : synced_ok -> let t := capture allows parse my synced in
  topology_ok t /\ (exists s, t_start_node t = Some s /\ node_weights (t_graph t) !! s = Some my) /\
  t_peer_infos t = known /\ t_suppressed_peer_ids t = suppressed_non_reusable synced /\ (forall p, p ∈ node_weights (t_graph t) <-> is_Some (known !! p)) /\
  forall e, e ∈ edge_references (t_graph t) <-> exists p q, node_weights (t_graph t) !! source e = Some p /\ node_weights (t_graph t) !! target e = Some q /\ weight e = 0 /\ topology_edge p q.
Proof.
  intros [[info Hm] Hsz Hb]. unfold capture. fold known. set (ks := (map_to_list known).*1). assert (Nd : NoDup ks) by apply NoDup_fst_map_to_list.
  pose proof (add_peers_spec ks Nd) as K. destruct (foldl add_peer (graph_new, ∅) ks) as [g nodes]. destruct K as (Wf & En & Er & Hi).
  assert (Hks : forall p, p ∈ ks <-> is_Some (known !! p)).
  { intros p. unfold ks. rewrite list_elem_of_fmap. split; [intros ([? i] & -> & ?%elem_of_map_to_list); by exists i|intros [i ?]; exists (p, i); split; [done|by apply elem_of_map_to_list]]. }
  destruct (proj1 (list_elem_of_lookup ks my)) as [s Es]; [apply Hks; eauto|]. pose proof (proj2 (Hi my s) Es) as Hs. rewrite Hs. rewrite bool_decide_false by done.
  pose proof (captured_edges g nodes ks _ En Hi relays_spec) as A. set (g2 := add_authorized_relay_reverse_edges _ _ _ _ _ _) in *.
  assert (En2 : node_weights g2 = ks) by (by rewrite (ad_nodes _ _ _ A)). simpl. split_and!.
  - split; simpl; [by apply (ad_wf _ _ _ A)|by rewrite En2|intros ? [= <-]; unfold node_count; rewrite En2; by eapply lookup_lt_Some| |].
    + unfold node_count. rewrite En2. unfold ks. rewrite length_fmap, length_map_to_list. eapply Z.le_lt_trans; [|exact Hsz]. apply Nat2Z.inj_le, map_subseteq_size, map_filter_subseteq.
    + intros p i l [Hp _]%map_lookup_filter_Some. by eapply Hb.
  - exists s. by rewrite En2.
  - done.
  - done.
  - intros p. by rewrite En2.
  - intros e. rewrite En2, (ad_edges _ _ _ A), Er. set_solver.
Qed.
End Topology.
End Captured.

(** ** Measuring a topology *)
Section Inputs.
Context {P : Petgraph} {PL : PetgraphLaws} {CC : RouteCostCalculator} (decode : list Z -> option (list Z)).
Context (Hd : forall p q d, calculate_delivery_bps p q = Some d -> is_u 64 d).

Lemma prepare_total g start : WidestPathProps.graph_ok g -> (start < node_count g)%nat -> exists p, WidestPath.prepare_widest_path g start = Ok p.
Proof.
  intros Gk Hs. destruct (lookup_lt_is_Some_2 (node_weights g) start Hs) as [peer Hp]. pose proof (WidestRoutes.work_limit_spec g start peer Hp) as Kl. unfold WidestPath.prepare_widest_path.
  destruct (WidestPath.widest_path_work_limit _ _) as [lim|e|]; [|eauto|done]. assert (Hlim : 0 <= lim < 2 ^ 63) by (unfold WidestPath.MAX_ROUTE_REBUILD_WORK in *; nia).
  unfold WidestPath.with_used. rewrite (proj2 (Z.ltb_ge lim 0)) by lia.
  pose proof (WidestPathProps.within_prepare g start Gk Hs (WidestPath.mk_budget 0 lim) ltac:(unfold WidestPathProps.budget_ok; simpl; lia) eq_refl) as Kp.
  destruct (WidestPath.prepare_widest_path_with_budget _ _ _) as [[p b]|[]|]; [eauto|eauto|done|done].
Qed.

Context (t : TopologyBuildInput) (T : topology_ok t) (s : nat) (Hs : t_start_node t = Some s).

(** what a rebuild starts from *)
Record measured (cd : bool) (input : RouteBuildInput) : Prop := {
  me_version : version input = t_version t;
  me_graph : graph input = preferred_graph decode t s;
  me_control : control_graph input = t_graph t;
  me_start : start_node input = Some s;
  me_infos : peer_infos input = t_peer_infos t;
  me_suppressed : suppressed_peer_ids input = t_suppressed_peer_ids t;
  me_speed : cd = true -> speed_graph input = speed decode t s /\ exists p, speed_preparation input = Some p /\ WidestPath.prepare_widest_path (speed decode t s) s = Ok p;
  me_no_speed : cd = false -> edge_references (speed_graph input) = [];
}.
Lemma no_deliveries g l : foldl (add_delivery decode t false) g l = g.
Proof. by induction l. Qed.
Lemma start_is_node : is_Some (node_weights (data_graph decode t) !! s).
Proof. apply lookup_lt_is_Some_2. change (s < node_count (data_graph decode t))%nat. rewrite data_count. by apply (to_start t T). Qed.

Lemma with_measurements_spec cd : exists input, with_measurements decode t true cd = Ok input /\ measured cd input.
Proof.
  unfold with_measurements. rewrite Hs. pose proof start_is_node as Hn. unfold data_graph in Hn. rewrite bool_decide_true by done. destruct cd; simpl.
  - destruct (prepare_total (speed decode t s) s) as [p Ep]; [by apply speed_ok|unfold node_count; rewrite speed_nodes by done; by apply (to_start t T)|].
    unfold speed, measured_graph, avoid_distances, data_graph in Ep. rewrite Ep. simpl. eexists. split; [done|]. split; try done. intros _. split; [done|]. eauto.
  - rewrite no_deliveries. eexists. split; [done|]. split; try done. intros _. simpl.
    destruct (retain_edges_spec WidestPath.SpeedEdge (permitted t (avoid_distances decode t s)) graph_new) as (_ & E & _). destruct (graph_new_empty WidestPath.SpeedEdge) as (_ & E2 & _).
    rewrite E2 in E. by apply Permutation_nil_r in E.
Qed.
End Inputs.

(** C19: The route graphs of a rebuild are exact.  From the synchronised records, [capture] and [with_measurements] always succeed;
    the control graph has an edge exactly for each reported connection of a peer that is not suppressed and for the way back from
    a relay credential to the administrator that reports it; a walk of the data graph from this node is exactly a walk of the
    topology, with its measured costs, in which every relay consents to transit and which crosses the fewest peers that ask to be
    avoided; every edge of the speed graph lies over an edge of the data graph, has its latency, and carries a measured delivery
    of a peer that may publish one. *)
Theorem route_graphs_exact {P : Petgraph} {PL : PetgraphLaws} {CC : RouteCostCalculator} decode allows parse my synced cd :
  synced_ok my synced -> (forall p q d, calculate_delivery_bps p q = Some d -> is_u 64 d) ->
  let t := capture allows parse my synced in
  exists s input, node_weights (t_graph t) !! s = Some my /\ with_measurements decode t true cd = Ok input /\ start_node input = Some s /\
    (forall e, e ∈ edge_references (control_graph input) <-> exists p q,
      node_weights (control_graph input) !! source e = Some p /\ node_weights (control_graph input) !! target e = Some q /\ weight e = 0 /\ topology_edge allows my synced p q) /\
    (forall es v, walk (graph input) s es v <-> walk (weighted decode t (t_graph t)) s es v /\ consented t es /\
      forall es2, walk (weighted decode t (t_graph t)) s es2 v -> consented t es2 -> avoided t es <= avoided t es2) /\
    (forall x, x ∈ edge_references (speed_graph input) -> exists e, e ∈ edge_references (graph input) /\ source e = source x /\ target e = target x /\
      WidestPath.latency_ms (weight x) = weight e /\ source_can_publish_delivery t (source e) = true /\
      calculate_delivery_bps (peer_at t (source e)) (peer_at t (target e)) = Some (WidestPath.delivery_bps (weight x)) /\ WidestPath.delivery_bps (weight x) <> 0).
Proof.
  intros So Hd t. destruct (capture_spec allows parse my synced So) as (T & (s & Hs & Hmy) & _ & _ & _ & Hc). fold t in T, Hs, Hmy, Hc.
  destruct (with_measurements_spec decode Hd t T s Hs cd) as (input & Hm & M). exists s, input. rewrite (me_control _ _ _ _ _ M), (me_graph _ _ _ _ _ M), (me_start _ _ _ _ _ M).
  split_and!; try done.
  - intros es v. rewrite (preferred_walk decode t T s Hs). setoid_rewrite (data_walk decode t T s Hs). split; [intros [[? ?] K]|intros (? & ? & K)]; split_and!; try done; [intros es2 ? ?; by apply K|intros es2 [? ?]; by apply K].
  - destruct cd; [rewrite (proj1 (me_speed _ _ _ _ _ M eq_refl)); by apply speed_edge|rewrite (me_no_speed _ _ _ _ _ M eq_refl); set_solver].
Qed.

(** peer 2 denies transit, so peer 4 is reached over 3 *)
Definition demo_info (deny : bool) : RoutePeerInfo := mk_peer 1 0 [] (Some (mk_flags deny true false)) [] None None None [] 0.
Definition demo_synced : SyncedRouteInfo :=
  mk_synced 1 {[1 := demo_info false; 2 := demo_info true; 3 := demo_info false; 4 := demo_info false]} {[1 := {[2; 3]}; 2 := {[4]}; 3 := {[4]}]} ∅.
Definition demo_costs : RouteCostCalculator := {| calculate_cost _ _ := 7; calculate_delivery_bps p _ := if p =? 1 then Some 1000 else None |}.

#[local] Notation demo_topology := (capture (fun _ => None) (fun _ => None) 1 demo_synced).
Definition edge_counts (o : outcome WidestPath.Error RouteBuildInput) : list nat :=
  match o with Ok i => [length (edge_references (control_graph i)); length (edge_references (graph i)); length (edge_references (speed_graph i))] | _ => [] end.

Lemma route_graphs_exact_witness : exists s input,
  with_measurements (CC := demo_costs) (fun _ => None) demo_topology true true = Ok input /\ start_node input = Some s /\ edge_counts (Ok input) = [4; 3; 2]%nat /\
  forall es v, walk (graph input) s es v -> consented demo_topology es.
Proof.
  assert (So : synced_ok 1 demo_synced).
  { split; [by eexists|done|]. intros p info l K Hl. assert (relay_link_cost info = []) as E; [|rewrite E in Hl; set_solver].
    unfold demo_synced in K. simpl in K. repeat (apply lookup_insert_Some in K as [[_ <-]|[_ K]]; [done|]). by apply lookup_singleton_Some in K as [_ <-]. }
  destruct (route_graphs_exact (CC := demo_costs) (fun _ => None) (fun _ => None) (fun _ => None) 1 demo_synced true So) as (s & input & _ & Hm & Hst & _ & Hw & _).
  { intros p q d K. simpl in K. case_match; simplify_eq. unfold is_u. lia. }
  exists s, input. split; [exact Hm|]. split; [exact Hst|]. split; [|intros es v [_ [K _]]%Hw; exact K].
  rewrite <- Hm. vm_compute. reflexivity.
Defined.
End RouteGraphProps.
