(* ===== verification/RouteTable.v ===== *)
(** * Route tables

    [RouteTable] of src/lowertier/src/peers/peer_ospf_route.rs: the next hops of each policy over the graphs of
    RouteGraph, the maps from addresses to peers that all policies share, and the snapshots that packets are routed by.

    The prefix_trie crate is the interface of Forwarding, with the traversal of its maps; the cidr crate's parser is an
    argument.  A hash map that is traversed is traversed in one fixed order. *)
From stdpp Require Import base list gmap numbers sorting strings.
From Stdlib Require Import ZArith Lia.
From S2P Require Import Prelude NetAddr GraphAlgo Forwarding PeerGraph WidestPath RouteGraph.

Local Open Scope Z_scope.

Module RouteTable.
Import PeerGraph Prefix RouteGraph Net.

Abbreviation Error := WidestPath.Error.
(** [ForwardingNextHop] *)
Record NextHopInfo : Type := mk_hop {
  next_hop_peer_id : Z;
  path_delivery_bps : Z;
  path_latency : Z;
  path_len : Z;
  hop_version : Z;
}.
Definition i32_max : Z := 2 ^ 31 - 1.

(** ** Next hops of one policy *)
(** the entry of a destination, unless a newer one is there *)
Definition install (version : Z) (m : gmap Z NextHopInfo) (dst : Z) (info : NextHopInfo) : gmap Z NextHopInfo :=
  match m !! dst with
  | Some x => if hop_version x <? version then <[dst := info]> m else m
  | None => <[dst := info]> m
  end.

(** the only error of the search is that its fuel ran out *)
Definition of_search {A} (r : outcome string A) : outcome Error A :=
  match r with Ok x => Ok x | Err _ => Err WidestPath.OutOfFuel | Panic => Panic end.

Fixpoint fold_routes {S A} (f : S -> A -> outcome Error S) (s : S) (l : list A) : outcome Error S :=
  match l with [] => Ok s | x :: l => s ← f s x; fold_routes f s l end.

Definition install_weighted_routes (g : PeerGraph) (costs : gmap nat Z) (next_hops : gmap nat (nat * nat)) (version : Z) (m : gmap Z NextHopInfo)
    : outcome Error (gmap Z NextHopInfo) :=
  fold_routes (fun m x =>
    let '(dst, (next_hop, path_len)) := x in
    next ← unwrap (node_weights g !! next_hop);
    cost ← unwrap (costs !! dst);
    dst_peer_id ← unwrap (node_weights g !! dst);
    Ok (install version m dst_peer_id (mk_hop next 0 (Z.min cost i32_max) (Z.of_nat path_len) version))) m (map_to_list next_hops).

Section Policies.
Context {P : Petgraph}.

(** an edge that is on a path of fewest hops *)
Definition on_least_hops (path_len_map : gmap nat Z) (e : Edge Z) : option Z :=
  match path_len_map !! source e, path_len_map !! target e with
  | Some a, Some b => if a + 1 =? b then Some (weight e) else None
  | _, _ => None
  end.
Definition gen_next_hop_map_with_least_hop (g : PeerGraph) (start : nat) (version : Z) (m : gmap Z NextHopInfo) : outcome Error (gmap Z NextHopInfo) :=
  match node_weights g !! start with
  | None => Ok m
  | Some _ =>
      let path_len_map := dijkstra g start (fun _ => 1) in
      '(costs, next_hops) ← of_search (GraphAlgo.dijkstra_with_first_hop_filtered (Q := list (Z * nat)) (out_costs g (on_least_hops path_len_map)) (search_fuel g) start);
      install_weighted_routes g costs next_hops version m
  end.
Definition gen_next_hop_map_with_least_cost (g : PeerGraph) (start : nat) (version : Z) (m : gmap Z NextHopInfo) : outcome Error (gmap Z NextHopInfo) :=
  match node_weights g !! start with
  | None => Ok m
  | Some _ =>
      '(costs, next_hops) ← of_search (GraphAlgo.dijkstra_with_first_hop (Q := list (Z * nat)) (fun u => (fun e => (target e, weight e)) <$> edges g u) (search_fuel g) start);
      install_weighted_routes g costs next_hops version m
  end.
Definition gen_next_hop_map_with_max_goodput_checked (g : WidestPath.SpeedGraph) (start : nat) (version : Z)
    (preparation : WidestPath.WidestPathPreparation) (budget : WidestPath.WidestPathWorkBudget) (m : gmap Z NextHopInfo) : outcome Error (gmap Z NextHopInfo) :=
  match node_weights g !! start with
  | None => Ok m
  | Some _ =>
      '(routes, _) ← WidestPath.widest_path_with_preparation g start preparation budget;
      fold_routes (fun m (x : nat * WidestPath.SpeedPath) =>
        let q := WidestPath.quality x.2 in
        dst_peer_id ← unwrap (node_weights g !! x.1);
        Ok (install version m dst_peer_id (mk_hop (WidestPath.next_hop_peer_id x.2) (WidestPath.q_delivery_bps q)
          (Z.min (WidestPath.q_latency_ms q) i32_max) (WidestPath.q_hops q) version))) m (map_to_list routes)
  end.

(** ** Direct edges come first *)
Definition direct_route (input : RouteBuildInput) (g : PeerGraph) (m : gmap Z NextHopInfo) (e : Edge Z) : outcome Error (gmap Z NextHopInfo) :=
  destination ← unwrap (node_weights g !! target e);
  if bool_decide (destination ∈ suppressed_peer_ids input) then Ok m
  else
    let latency := if (0 <? node_count (graph input))%nat then Z.min (weight e) i32_max else 0 in
    Ok (<[destination := mk_hop destination 0 latency 1 (version input)]> m).
(** a direct route shows the delivery of its edge *)
Definition direct_delivery (g : WidestPath.SpeedGraph) (m : gmap Z NextHopInfo) (e : Edge WidestPath.SpeedEdge) : outcome Error (gmap Z NextHopInfo) :=
  destination ← unwrap (node_weights g !! target e);
  Ok match m !! destination with
     | Some r =>
         if (next_hop_peer_id r =? destination) && (path_len r =? 1) then
           <[destination := mk_hop (next_hop_peer_id r) (WidestPath.delivery_bps (weight e)) (Z.min (WidestPath.latency_ms (weight e)) i32_max) (path_len r) (hop_version r)]> m
         else m
     | None => m
     end.

Definition policy_routes (input : RouteBuildInput) (policy : Forwarding.NextHopPolicy) (start : nat) : outcome Error (option (gmap Z NextHopInfo)) :=
  match policy with
  | Forwarding.ControlHop => m ← gen_next_hop_map_with_least_hop (control_graph input) start (version input) ∅; Ok (Some m)
  | Forwarding.LeastHop =>
      if (node_count (graph input) =? 0)%nat then Ok None
      else m ← gen_next_hop_map_with_least_hop (graph input) start (version input) ∅; Ok (Some m)
  | Forwarding.LeastCost =>
      if (node_count (graph input) =? 0)%nat then Ok None
      else m ← gen_next_hop_map_with_least_cost (graph input) start (version input) ∅; Ok (Some m)
  | Forwarding.MaxGoodput =>
      let g := speed_graph input in
      if (node_count g =? 0)%nat then Ok None
      else
        preparation ← ok_or (speed_preparation input) WidestPath.WidestPathWorkError;
        work_limit ← WidestPath.widest_path_work_limit (Z.of_nat (node_count g)) (Z.of_nat (edge_count g));
        budget ← WidestPath.with_used (WidestPath.capacity_work preparation) work_limit;
        m ← gen_next_hop_map_with_max_goodput_checked g start (version input) preparation budget ∅; Ok (Some m)
  end.

Definition is_control (policy : Forwarding.NextHopPolicy) : bool := match policy with Forwarding.ControlHop => true | _ => false end.
Definition is_goodput (policy : Forwarding.NextHopPolicy) : bool := match policy with Forwarding.MaxGoodput => true | _ => false end.

(** [None] of [policy_routes] is the early return of an empty map *)
Definition build_automatic_next_hops (input : RouteBuildInput) (policy : Forwarding.NextHopPolicy) : outcome Error (gmap Z NextHopInfo) :=
  match start_node input with
  | None => Ok ∅
  | Some start =>
      routes ← policy_routes input policy start;
      match routes with
      | None => Ok ∅
      | Some routes =>
          if is_control policy then Ok routes
          else
            let direct_graph := if (0 <? node_count (graph input))%nat then graph input else control_graph input in
            routes ← fold_routes (direct_route input direct_graph) routes (edges direct_graph start);
            if is_goodput policy then fold_routes (direct_delivery (speed_graph input)) routes (edges (speed_graph input) start) else Ok routes
      end
  end.
End Policies.

(** ** Maps that the policies share *)
(** [PrefixMap::into_iter] with a map over the values and [collect] *)
Class PrefixMapCollect `{PrefixMaps} : Type := { pm_collect : forall {V V'}, (V -> V') -> PrefixMap V -> PrefixMap V' }.
Class PrefixMapCollectLaws `{PrefixMapCollect} : Prop := {
  pm_get_collect V V' (f : V -> V') m k : pm_get (pm_collect f m) k = f <$> pm_get m k;
}.

Definition cidr_last (w : Z) (c : Cidr) : Z := c_addr c + 2 ^ (w - c_len c) - 1.
Definition cidr_is_subset (child parent : IpCidr) : bool :=
  match child, parent with
  | CidrV4 c, CidrV4 p => (c_addr p <=? c_addr c) && (cidr_last 32 c <=? cidr_last 32 p)
  | CidrV6 c, CidrV6 p => (c_addr p <=? c_addr c) && (cidr_last 128 c <=? cidr_last 128 p)
  | _, _ => false
  end.

Section Shared.
Context {PM : PrefixMaps} {PC : PrefixMapCollect}.
Context (parse_cidr : list Z -> option IpCidr).

Record PeerIdVersion : Type := mk_peer_version { pv_peer : Z; pv_version : Z }.
Record SharedRouteMaps : Type := mk_shared {
  s_peer_infos : gmap Z RoutePeerInfo;
  s_suppressed_peer_ids : gset Z;
  s_ipv4 : gmap Z Z;
  s_ipv6 : gmap Z Z;
  s_cidr : PrefixMap Z;
  s_cidr_v6 : PrefixMap Z;
  s_service_routes : ServiceRoute.ServiceRouteSnapshot;
  s_version : Z;
}.

(** the maps while they are built *)
Record builder : Type := mk_builder {
  b_infos : gmap Z RoutePeerInfo;
  b_ipv4 : gmap Z PeerIdVersion;
  b_ipv6 : gmap Z PeerIdVersion;
  b_cidr : PrefixMap PeerIdVersion;
  b_cidr_v6 : PrefixMap PeerIdVersion;
  b_routes : list ServiceRoute.ServiceRoute;
}.

Section Build.
Context (my_peer_id : Z) (input : RouteBuildInput) (baseline : gmap Z NextHopInfo).

Definition is_reachable (p : Z) : bool :=
  negb (bool_decide (p ∈ suppressed_peer_ids input)) && match baseline !! p with Some r => version input <=? hop_version r | None => false end.
Definition path_len_of (p : Z) : Z := match baseline !! p with Some r => path_len r | None => u_max 64 end.
Definition is_new_peer_better (new old : PeerIdVersion) : bool :=
  if pv_version old <? pv_version new then true
  else if pv_peer new =? pv_peer old then false
  else path_len_of (pv_peer new) <? path_len_of (pv_peer old).

(** [entry], [and_modify], [or_insert] *)
Definition claim (new : PeerIdVersion) (m : gmap Z PeerIdVersion) (a : Z) : gmap Z PeerIdVersion :=
  match m !! a with
  | Some old => if is_new_peer_better new old then <[a := new]> m else m
  | None => <[a := new]> m
  end.
Definition claim_opt (new : PeerIdVersion) (m : gmap Z PeerIdVersion) (a : option Z) : gmap Z PeerIdVersion :=
  match a with Some a => claim new m a | None => m end.
Definition claim_prefix (new : PeerIdVersion) (m : PrefixMap PeerIdVersion) (c : Cidr) : PrefixMap PeerIdVersion :=
  match pm_get m c with
  | Some old => if (pv_peer new =? my_peer_id) || is_new_peer_better new old then pm_insert c new m else m
  | None => pm_insert c new m
  end.

Definition add_proxy (p : Z) (b : builder) (text : list Z) : builder :=
  match parse_cidr text with
  | None => b
  | Some cidr =>
      if negb (p =? my_peer_id) && existsb (cidr_is_subset cidr) (local_proxy_cidrs input) then b
      else
        let routes := b_routes b ++ [ServiceRoute.mk_route cidr p 100 0 p ServiceRoute.Forward] in
        let new := mk_peer_version p (version input) in
        match cidr with
        | CidrV4 c => mk_builder (b_infos b) (b_ipv4 b) (b_ipv6 b) (claim_prefix new (b_cidr b) c) (b_cidr_v6 b) routes
        | CidrV6 c => mk_builder (b_infos b) (b_ipv4 b) (b_ipv6 b) (b_cidr b) (claim_prefix new (b_cidr_v6 b) c) routes
        end
  end.
Definition add_info (b : builder) (x : Z * RoutePeerInfo) : builder :=
  let '(p, info) := x in
  if negb (is_reachable p) then b
  else
    let new := mk_peer_version p (version input) in
    let v6 := claim_opt new (claim_opt new (b_ipv6 b) (mjoin (ipv6_addr info))) (mjoin (ipv6_public_addr_lease info)) in
    foldl (add_proxy p)
      (mk_builder (<[p := info]> (b_infos b)) (claim_opt new (b_ipv4 b) (ipv4_addr info)) v6 (b_cidr b) (b_cidr_v6 b) (b_routes b))
      (proxy_cidrs info).

Definition build_shared_maps : SharedRouteMaps :=
  let b := foldl add_info (mk_builder ∅ ∅ ∅ pm_new pm_new []) (map_to_list (peer_infos input)) in
  mk_shared (b_infos b) (suppressed_peer_ids input) (pv_peer <$> b_ipv4 b) (pv_peer <$> b_ipv6 b)
    (pm_collect pv_peer (b_cidr b)) (pm_collect pv_peer (b_cidr_v6 b)) (ServiceRoute.from_routes (version input) (b_routes b)) (version input).
End Build.

(** ** The table *)
Record t : Type := mk {
  rt_peer_infos : gmap Z RoutePeerInfo;
  next_hop_map : gmap Z NextHopInfo;
  rt_suppressed_peer_ids : gset Z;
  rt_ipv4 : gmap Z PeerIdVersion;
  rt_ipv6 : gmap Z PeerIdVersion;
  rt_cidr : PrefixMap PeerIdVersion;
  rt_cidr_v6 : PrefixMap PeerIdVersion;
  next_hop_map_version : Z;
  shared_maps : option SharedRouteMaps;
}.
Definition new : t := mk ∅ ∅ ∅ ∅ ∅ pm_new pm_new 0 None.
Definition clear_for_version (r : t) (v : Z) : t := mk ∅ ∅ ∅ ∅ ∅ pm_new pm_new (Z.max (next_hop_map_version r) v) None.

Definition get_topology_next_hop (r : t) (dst : Z) : option NextHopInfo :=
  match next_hop_map r !! dst with Some x => if next_hop_map_version r <=? hop_version x then Some x else None | None => None end.
Definition get_next_hop (r : t) (dst : Z) : option NextHopInfo :=
  if match shared_maps r with Some s => bool_decide (dst ∈ s_suppressed_peer_ids s) | None => bool_decide (dst ∈ rt_suppressed_peer_ids r) end then None
  else get_topology_next_hop r dst.
Definition peer_reachable (r : t) (p : Z) : bool := bool_decide (is_Some (get_next_hop r p)).

Definition replace_policy (r : t) (next_hops : gmap Z NextHopInfo) (s : SharedRouteMaps) : t :=
  mk ∅ next_hops ∅ ∅ ∅ pm_new pm_new (s_version s) (Some s).
Definition replace_next_hops (r : t) (next_hops : gmap Z NextHopInfo) (v : Z) : t :=
  mk (rt_peer_infos r) next_hops (rt_suppressed_peer_ids r) (rt_ipv4 r) (rt_ipv6 r) (rt_cidr r) (rt_cidr_v6 r) v (shared_maps r).

(** ** Snapshots *)
Record RouteTableSnapshot : Type := mk_table_snapshot {
  sn_peer_infos : gmap Z RoutePeerInfo;
  sn_next_hop_map : gmap Z NextHopInfo;
  sn_suppressed_peer_ids : gset Z;
  sn_ipv4 : gmap Z Z;
  sn_ipv6 : gmap Z Z;
  sn_cidr : PrefixMap Z;
  sn_cidr_v6 : PrefixMap Z;
  sn_service_routes : ServiceRoute.ServiceRouteSnapshot;
  sn_version : Z;
}.
Definition into_snapshot (r : t) : RouteTableSnapshot :=
  match shared_maps r with
  | Some s => mk_table_snapshot (s_peer_infos s) (next_hop_map r) (s_suppressed_peer_ids s) (s_ipv4 s) (s_ipv6 s) (s_cidr s) (s_cidr_v6 s)
                (s_service_routes s) (next_hop_map_version r)
  | None => mk_table_snapshot (rt_peer_infos r) (next_hop_map r) (rt_suppressed_peer_ids r) (pv_peer <$> rt_ipv4 r) (pv_peer <$> rt_ipv6 r)
              (pm_collect pv_peer (rt_cidr r)) (pm_collect pv_peer (rt_cidr_v6 r)) ServiceRoute.default_snapshot (next_hop_map_version r)
  end.

Definition sn_get_topology_next_hop (s : RouteTableSnapshot) (dst : Z) : option NextHopInfo :=
  match sn_next_hop_map s !! dst with Some x => if sn_version s <=? hop_version x then Some x else None | None => None end.
Definition sn_get_next_hop (s : RouteTableSnapshot) (dst : Z) : option NextHopInfo :=
  if bool_decide (dst ∈ sn_suppressed_peer_ids s) then None else sn_get_topology_next_hop s dst.
Definition sn_peer_reachable (s : RouteTableSnapshot) (p : Z) : bool := bool_decide (is_Some (sn_get_next_hop s p)).
Definition get_peer_id_for_proxy (s : RouteTableSnapshot) (i : IpAddr) : option Z :=
  match i with
  | V4 a => snd <$> pm_get_lpm 32 (sn_cidr s) a
  | V6 a => snd <$> pm_get_lpm 128 (sn_cidr_v6 s) a
  end.
End Shared.
End RouteTable.
