(* ===== verification/RouteTableProps.v ===== *)
(** * Properties of the route tables

    The next hops of every policy are those of best ways over the graphs of RouteGraph, with direct edges first; the
    shared maps lead to reachable owners; a snapshot decides as its table does (RouteTable). *)
From stdpp Require Import base list gmap numbers sorting strings.
From Stdlib Require Import ZArith Lia.
From S2P Require Import Prelude NetAddr GraphAlgo Forwarding PeerGraph WidestPath WidestPathProps WidestRoutes RouteGraph RouteGraphProps RouteTable.

Local Open Scope Z_scope.

Module RouteTableProps.
Import PeerGraph RouteGraph RouteGraphProps RouteTable.

(** ** Installing routes *)
(** routes of one version to different peers are all installed *)
Lemma install_all {A} (ver : Z) (key : A -> Z) (val : A -> NextHopInfo) (f : gmap Z NextHopInfo -> A -> outcome Error (gmap Z NextHopInfo)) l :
  (forall x m, x ∈ l -> f m x = Ok (install ver m (key x) (val x))) -> NoDup (key <$> l) ->
  exists m, fold_routes f ∅ l = Ok m /\ forall p r, m !! p = Some r <-> exists x, x ∈ l /\ key x = p /\ val x = r.
Proof.
  intros Hf Nd. cut (forall m0, (forall x, x ∈ l -> m0 !! key x = None) ->
    exists m, fold_routes f m0 l = Ok m /\ forall p r, m !! p = Some r <-> m0 !! p = Some r \/ exists x, x ∈ l /\ key x = p /\ val x = r).
  { intros K. destruct (K ∅) as (m & E & Hm); [intros; apply lookup_empty|]. exists m. split; [done|]. intros p r. rewrite Hm, lookup_empty. naive_solver. }
  induction l as [|x l IH]; intros m0 Hn; [exists m0; split; [done|]; set_solver|]. simpl. rewrite Hf by (by left). simpl.
  apply NoDup_cons in Nd as [Hx Nd]. unfold install. rewrite (Hn x) by (by left).
  destruct (IH ltac:(intros; apply Hf; by right) Nd (<[key x := val x]> m0)) as (m & E & Hm).
  { intros y Hy. rewrite lookup_insert_ne; [apply Hn; by right|]. intros Ek. apply Hx. rewrite Ek. by apply list_elem_of_fmap_2. }
  exists m. split; [done|]. intros p r. rewrite Hm. specialize (Hn x ltac:(by left)). split.
  - intros [K|(y & ? & ? & ?)]; [|right; exists y; set_solver]. apply lookup_insert_Some in K as [[<- <-]|[? ?]]; [right; exists x; set_solver|by left].
  - intros [K|(y & [->|Hy]%elem_of_cons & <- & <-)]; [left; rewrite lookup_insert_ne; [done|congruence]|left; by rewrite lookup_insert_eq|right; eauto].
Qed.

Section Tables.
Context {P : Petgraph} {PL : PetgraphLaws}.

Definition peer_name {W} (g : Graph W) (v : nat) : Z := default 0 (node_weights g !! v).
Lemma peer_name_inj {W} (g : Graph W) u v p : NoDup (node_weights g) -> node_weights g !! u = Some p -> node_weights g !! v = Some p -> u = v.
Proof. intros Nd Hu Hv. by eapply NoDup_lookup. Qed.
Lemma walk_node {W} (g : Graph W) start es v : well_formed g -> (start < node_count g)%nat -> walk g start es v -> (v < node_count g)%nat.
Proof. intros Wf Hs We. destruct We as [|es u e We He Hu]; [done|]. by apply (wf_ends g Wf). Qed.
Lemma first_target_node {W} (g : Graph W) start es v : well_formed g -> (start < node_count g)%nat -> walk g start es v -> (first_target start es < node_count g)%nat.
Proof.
  intros Wf Hs We. destruct es as [|e es]; [done|]. assert (K : forall x, x ∈ e :: es -> x ∈ edge_references g) by (clear -We; remember (e :: es) as l eqn:El; clear El; induction We; set_solver).
  apply (wf_ends g Wf). apply K. by left.
Qed.

(** different nodes are different peers *)
Lemma names_nodup {W X} (g : Graph W) (m : gmap nat X) : NoDup (node_weights g) -> (forall v x, m !! v = Some x -> (v < node_count g)%nat) -> NoDup ((fun x => peer_name g x.1) <$> map_to_list m).
Proof.
  intros Nd Hm. apply NoDup_alt. intros i j p Hi Hj. rewrite list_lookup_fmap in Hi, Hj. apply fmap_Some in Hi as ([v x] & Hi & ->). apply fmap_Some in Hj as ([u y] & Hj & Ek).
  eapply NoDup_lookup; [exact (NoDup_fst_map_to_list m)|by rewrite list_lookup_fmap, Hi|]. rewrite list_lookup_fmap, Hj. simpl in *. f_equal.
  apply list_elem_of_lookup_2, elem_of_map_to_list in Hi, Hj. destruct (lookup_lt_is_Some_2 (node_weights g) v (Hm _ _ Hi)) as [pv Ev], (lookup_lt_is_Some_2 (node_weights g) u (Hm _ _ Hj)) as [pu Eu].
  unfold peer_name in Ek. rewrite Ev, Eu in Ek. simpl in Ek. subst. by eapply peer_name_inj.
Qed.
Lemma peer_name_lookup {W} (g : Graph W) v p : node_weights g !! v = Some p -> peer_name g v = p.
Proof. unfold peer_name. by intros ->. Qed.
(** the routes of the nodes of a map, found by their peers *)
Lemma install_nodes {W X} (g : Graph W) (ver : Z) (val : nat * X -> NextHopInfo) (f : gmap Z NextHopInfo -> nat * X -> outcome Error (gmap Z NextHopInfo)) (ws : gmap nat X) :
  NoDup (node_weights g) -> (forall v x, ws !! v = Some x -> (v < node_count g)%nat) ->
  (forall v x m, ws !! v = Some x -> f m (v, x) = Ok (install ver m (peer_name g v) (val (v, x)))) ->
  exists m, fold_routes f ∅ (map_to_list ws) = Ok m /\ (forall v p, node_weights g !! v = Some p -> m !! p = (fun x => val (v, x)) <$> ws !! v) /\ (forall p r, m !! p = Some r -> p ∈ node_weights g).
Proof.
  intros Nd Hw Hf. destruct (install_all ver (fun x => peer_name g x.1) val f (map_to_list ws)) as (m & E & Hm); [intros [v x] m ?%elem_of_map_to_list; by apply Hf|by apply names_nodup|].
  exists m. split_and!; [done| |].
  - intros v p Ev. apply option_eq. intros r. rewrite Hm. split.
    + intros ([u x] & Hx%elem_of_map_to_list & En & <-). simpl in *. destruct (lookup_lt_is_Some_2 (node_weights g) u (Hw _ _ Hx)) as [pu Eu]. rewrite (peer_name_lookup g u pu Eu) in En. subst pu.
      assert (u = v) as -> by (by eapply peer_name_inj). by rewrite Hx.
    + intros (x & Hx & ->)%fmap_Some. exists (v, x). split_and!; [by apply elem_of_map_to_list|by apply peer_name_lookup|done].
  - intros p r ([v x] & Hx%elem_of_map_to_list & <- & _)%Hm. simpl. destruct (lookup_lt_is_Some_2 (node_weights g) v (Hw _ _ Hx)) as [pv Ev]. rewrite (peer_name_lookup g v pv Ev). by eapply list_elem_of_lookup_2.
Qed.

(** ** Searches over costs *)
Section Weighted.
Context (g : Graph Z) (start : nat) (Wf : well_formed g) (Hs : (start < node_count g)%nat) (Nd : NoDup (node_weights g)) (ver : Z).

(** the entry of a way *)
Definition hop_of (es : list (Edge Z)) (cost : Z) : NextHopInfo := mk_hop (peer_name g (first_target start es)) 0 (Z.min cost i32_max) (len es) ver.
(** the best way over the edges that have a cost *)
Definition cheapest (cost : Edge Z -> option Z) (v : nat) (o : option NextHopInfo) : Prop :=
  match o with
  | Some r => exists es, walk g start es v /\ (forall e, e ∈ es -> is_Some (cost e)) /\ r = hop_of es (total cost es) /\
      forall es2, walk g start es2 v -> (forall e, e ∈ es2 -> is_Some (cost e)) -> total cost es <= total cost es2
  | None => forall es, walk g start es v -> ~ forall e, e ∈ es -> is_Some (cost e)
  end.

Lemma search_routes cost C E : (forall e c, e ∈ edge_references g -> cost e = Some c -> 0 <= c <= C) -> 0 <= C -> C * Z.of_nat (node_count g) < 2 ^ 64 ->
  (forall u, E u = out_costs g cost u) ->
  exists m, ('(costs, next_hops) ← of_search (GraphAlgo.dijkstra_with_first_hop_filtered (Q := list (Z * nat)) E (search_fuel g) start); install_weighted_routes g costs next_hops ver ∅) = Ok m /\
    (forall v p, node_weights g !! v = Some p -> cheapest cost v (m !! p)) /\ (forall p r, m !! p = Some r -> p ∈ node_weights g).
Proof.
  intros Hc HC Ho HE. destruct (first_hops_spec g Wf start Hs cost C Hc HC Ho E HE) as (sc & fh & -> & K). simpl.
  assert (Kf : forall v f k, fh !! v = Some (f, k) -> exists es, sc !! v = Some (total cost es) /\ walk g start es v /\ (forall e, e ∈ es -> is_Some (cost e)) /\ k = length es /\ f = first_target start es /\
    forall es2, walk g start es2 v -> (forall e, e ∈ es2 -> is_Some (cost e)) -> total cost es <= total cost es2).
  { intros v f k Ef. specialize (K v). rewrite Ef in K. destruct (sc !! v) as [d|]; [|done]. destruct K as [(es & We & Hes & -> & -> & ->)%(search_walk g Wf) K]. exists es.
    split_and!; try done. intros es2 W2 H2. apply (K _ (length es2) (first_target start es2)). apply (search_walk g Wf). by exists es2. }
  set (val := fun x : nat * (nat * nat) => mk_hop (peer_name g x.2.1) 0 (Z.min (default 0 (sc !! x.1)) i32_max) (Z.of_nat x.2.2) ver).
  destruct (install_nodes g ver val (fun m x => let '(dst, (next_hop, path_len)) := x in next ← unwrap (node_weights g !! next_hop); cost ← unwrap (sc !! dst); dst_peer_id ← unwrap (node_weights g !! dst);
      Ok (install ver m dst_peer_id (mk_hop next 0 (Z.min cost i32_max) (Z.of_nat path_len) ver))) fh Nd) as (m & Em & Hm & Hn).
  - intros v [f k] (es & _ & We & _)%Kf. by eapply walk_node.
  - intros v [f k] m Hx. destruct (Kf v f k Hx) as (es & Ed & We & _ & -> & -> & _). rewrite Ed.
    destruct (lookup_lt_is_Some_2 (node_weights g) v (walk_node g start es v Wf Hs We)) as [pv Ev]. destruct (lookup_lt_is_Some_2 (node_weights g) _ (first_target_node g start es v Wf Hs We)) as [pf Ef].
    unfold val, peer_name. simpl. rewrite Ev, Ef, Ed. done.
  - exists m. split_and!; [exact Em| |exact Hn]. intros v p Ev. rewrite (Hm v p Ev). destruct (fh !! v) as [[f k]|] eqn:Ef; simpl.
    + destruct (Kf v f k Ef) as (es & Ed & We & Hes & -> & -> & Kmin). exists es. split_and!; try done. unfold val, hop_of. simpl. by rewrite Ed.
    + intros es We Hes. specialize (K v). rewrite Ef in K. destruct (sc !! v); [done|]. apply (K (total cost es) (length es) (first_target start es)). apply (search_walk g Wf). by exists es.
Qed.
End Weighted.

(** ** The policies over costs *)
Section CostPolicies.
Context (g : Graph Z) (start : nat) (Wf : well_formed g) (Hs : (start < node_count g)%nat) (Nd : NoDup (node_weights g)) (ver : Z).
Context (Hw : forall e, e ∈ edge_references g -> 0 <= weight e <= 2 ^ 31 - 1) (Hn : Z.of_nat (node_count g) < 2 ^ 32).

Definition way_cost (es : list (Edge Z)) : Z := sum_cost weight es.
Definition shorter (es es2 : list (Edge Z)) : Prop := len es < len es2 \/ len es = len es2 /\ way_cost es <= way_cost es2.
Definition cheaper (es es2 : list (Edge Z)) : Prop := way_cost es <= way_cost es2.
(** the entry is that of a best way, and there is none exactly when there is no way *)
Definition best_way (better : list (Edge Z) -> list (Edge Z) -> Prop) (v : nat) (o : option NextHopInfo) : Prop :=
  match o with
  | Some r => exists es, walk g start es v /\ r = hop_of g start ver es (way_cost es) /\ forall es2, walk g start es2 v -> better es es2
  | None => forall es, ~ walk g start es v
  end.

Lemma start_lookup : is_Some (node_weights g !! start).
Proof. by apply lookup_lt_is_Some_2. Qed.
Lemma hops_length es : sum_cost (fun _ : Edge Z => 1) es = len es.
Proof. unfold sum_cost, len. induction es as [|e es IH]; simpl; lia. Qed.

Lemma least_cost_routes : exists m, gen_next_hop_map_with_least_cost g start ver ∅ = Ok m /\
  (forall v p, node_weights g !! v = Some p -> best_way cheaper v (m !! p)) /\ (forall p r, m !! p = Some r -> p ∈ node_weights g).
Proof.
  unfold gen_next_hop_map_with_least_cost, GraphAlgo.dijkstra_with_first_hop. destruct start_lookup as [ps ->].
  destruct (search_routes g start Wf Hs Nd ver (fun e => Some (weight e)) (2 ^ 31 - 1) (fun u => (fun x : nat * Z => (x.1, Some x.2)) <$> ((fun e => (target e, weight e)) <$> edges g u))) as (m & Em & Hm & Hk).
  - intros e c He [= <-]. by apply Hw.
  - lia.
  - nia.
  - intros u. unfold out_costs. by rewrite <- list_fmap_compose.
  - exists m. split_and!; [exact Em| |exact Hk]. intros v p Ev. specialize (Hm v p Ev). destruct (m !! p) as [r|]; simpl in *.
    + destruct Hm as (es & We & _ & -> & Km). exists es. split_and!; [done|done|]. intros es2 W2. apply Km; [done|]. intros; by eexists.
    + intros es We. eapply Hm; [exact We|]. intros; by eexists.
Qed.

Lemma on_least_hops_tight d (e : Edge Z) : on_least_hops d e = if tight d (fun _ => 1) e then Some (weight e) else None.
Proof. unfold on_least_hops, tight. destruct (d !! source e), (d !! target e); done. Qed.
Lemma tight_total d (es : list (Edge Z)) : (forall e, e ∈ es -> tight d (fun _ => 1) e = true) -> total (on_least_hops d) es = way_cost es.
Proof. unfold total, way_cost, sum_cost. intros K. apply sum_Z_ext. intros e He. by rewrite on_least_hops_tight, K. Qed.

Lemma least_hop_routes : exists m, gen_next_hop_map_with_least_hop g start ver ∅ = Ok m /\
  (forall v p, node_weights g !! v = Some p -> best_way shorter v (m !! p)) /\ (forall p r, m !! p = Some r -> p ∈ node_weights g).
Proof.
  unfold gen_next_hop_map_with_least_hop. destruct start_lookup as [ps ->]. set (d := dijkstra g start (fun _ => 1)).
  assert (D : distances g start (fun _ => 1) d) by (apply (dijkstra_spec _ g start _ 1); [done|done|lia|lia|lia]).
  assert (Kt : forall es v, walk g start es v -> (forall e, e ∈ es -> is_Some (on_least_hops d e)) <-> forall es2, walk g start es2 v -> len es <= len es2).
  { intros es v We. setoid_rewrite on_least_hops_tight. setoid_rewrite <- hops_length. rewrite <- (tight_walk g Wf start _ d D ltac:(lia) es v We).
    split; intros K e He; specialize (K e He); destruct (tight _ _ e); try done; by destruct K. }
  assert (Kc : forall es, (forall e, e ∈ es -> is_Some (on_least_hops d e)) -> total (on_least_hops d) es = way_cost es).
  { intros es K. apply tight_total. intros e He. specialize (K e He). rewrite on_least_hops_tight in K. destruct (tight _ _ e); [done|by destruct K]. }
  destruct (search_routes g start Wf Hs Nd ver (on_least_hops d) (2 ^ 31 - 1) (out_costs g (on_least_hops d))) as (m & Em & Hm & Hk); [|lia|nia|done|].
  { intros e c He. rewrite on_least_hops_tight. case_match; intros; simplify_eq. by apply Hw. }
  exists m. split_and!; [exact Em| |exact Hk]. intros v p Ev. specialize (Hm v p Ev). destruct (m !! p) as [r|]; simpl in *.
  - destruct Hm as (es & We & Hes & -> & Km). exists es. rewrite (Kc es Hes). split_and!; [done|done|]. intros es2 W2. pose proof (proj1 (Kt es v We) Hes) as K1. unfold shorter.
    destruct (decide (len es = len es2)) as [El|]; [|specialize (K1 es2 W2); lia]. right. split; [done|].
    assert (H2 : forall e, e ∈ es2 -> is_Some (on_least_hops d e)) by (apply (Kt es2 v W2); intros es3 W3; rewrite <- El; auto).
    specialize (Km es2 W2 H2). rewrite (Kc es Hes), (Kc es2 H2) in Km. lia.
  - intros es We. pose proof (distances_walks g Wf start _ d D v) as Dv. destruct (d !! v) as [dv|]; [|by eapply Dv]. destruct Dv as [(es2 & W2 & Ex) Dv]. rewrite hops_length in Ex. subst dv.
    apply (Hm es2 W2). apply (Kt es2 v W2). intros es3 W3. rewrite <- (hops_length es3). by apply Dv.
Qed.
End CostPolicies.

(** ** Maximum goodput *)
Definition goodput_hop (ver : Z) (p : WidestPath.SpeedPath) : NextHopInfo :=
  let q := WidestPath.quality p in
  mk_hop (WidestPath.next_hop_peer_id p) (WidestPath.q_delivery_bps q) (Z.min (WidestPath.q_latency_ms q) i32_max) (WidestPath.q_hops q) ver.

Lemma graph_ok_wf g : WidestPathProps.graph_ok g -> well_formed g.
Proof. intros [K1 K2]. split; [|done]. intros e (? & ? & _)%K1. done. Qed.

Lemma goodput_routes g start peer ver prep : WidestPathProps.graph_ok g -> node_weights g !! start = Some peer -> NoDup (node_weights g) ->
  WidestPath.prepare_widest_path g start = Ok prep ->
  match (work_limit ← WidestPath.widest_path_work_limit (Z.of_nat (node_count g)) (Z.of_nat (edge_count g));
         budget ← WidestPath.with_used (WidestPath.capacity_work prep) work_limit;
         gen_next_hop_map_with_max_goodput_checked g start ver prep budget ∅) with
  | Ok m => exists rs, WidestRoutes.optimal g start peer rs /\ (forall v p, node_weights g !! v = Some p -> m !! p = goodput_hop ver <$> rs !! v) /\ (forall p r, m !! p = Some r -> p ∈ node_weights g)
  | Err e => e = WidestPath.WidestPathWorkError /\ WidestPath.MAX_ROUTE_REBUILD_WORK < WidestRoutes.work_bound g
  | Panic => False
  end.
Proof.
  intros G Hp Nd Ep. pose proof (WidestRoutes.max_goodput_spec g start peer G Hp) as K. unfold WidestPath.max_goodput_routes in K. rewrite Ep in K. cbn [mbind outcome_bind] in K.
  destruct (WidestPath.widest_path_work_limit _ _) as [lim|e|]; [|done|done]. cbn [mbind outcome_bind] in *. destruct (WidestPath.with_used _ _) as [b|e|]; [|done|done]. cbn [mbind outcome_bind] in *.
  unfold gen_next_hop_map_with_max_goodput_checked. rewrite Hp. destruct (WidestPath.widest_path_with_preparation _ _ _ _) as [[rs b']|e|]; [|done|done]. cbn [mbind outcome_bind] in *.
  assert (Hrs : forall v x, rs !! v = Some x -> (v < node_count g)%nat).
  { intros v x Hx. destruct (proj1 K v x Hx) as (_ & c & _ & _ & B). destruct (WidestRoutes.be_walk _ _ _ _ _ _ B) as (es & We & _).
    eapply walk_node; [apply (graph_ok_wf g G)|by eapply lookup_lt_Some|exact We]. }
  match goal with |- context [fold_routes ?f _ _] => destruct (install_nodes g ver (fun x => goodput_hop ver x.2) f rs Nd Hrs) as (m & Em & Hm & Hk) end.
  - intros v x m Hx. destruct (lookup_lt_is_Some_2 (node_weights g) v (Hrs _ _ Hx)) as [pv Ev]. simpl. unfold peer_name. by rewrite Ev.
  - rewrite Em. exists rs. split_and!; [done| |done]. intros v p Ev. by rewrite (Hm v p Ev).
Qed.

(** ** Direct edges *)
(** a fold that updates the route of a node for each element, again and again *)
Lemma fold_updates {W A} (g : Graph W) (key : A -> nat) (upd : nat -> Z -> option NextHopInfo -> option NextHopInfo) (f : gmap Z NextHopInfo -> A -> outcome Error (gmap Z NextHopInfo)) l :
  (forall x m, x ∈ l -> exists m', f m x = Ok m' /\ (forall v p, node_weights g !! v = Some p -> m' !! p = if decide (v = key x) then upd v p (m !! p) else m !! p) /\
    forall p, is_Some (m' !! p) -> p ∈ node_weights g \/ is_Some (m !! p)) ->
  (forall v p o, upd v p (upd v p o) = upd v p o) ->
  forall m0, exists m, fold_routes f m0 l = Ok m /\ (forall v p, node_weights g !! v = Some p -> m !! p = if decide (v ∈ key <$> l) then upd v p (m0 !! p) else m0 !! p) /\
    forall p, is_Some (m !! p) -> p ∈ node_weights g \/ is_Some (m0 !! p).
Proof.
  intros Hf Hi. induction l as [|x l IH]; intros m0; [by exists m0; split_and!; [done|intros; rewrite decide_False by set_solver|auto]|].
  destruct (Hf x m0 ltac:(by left)) as (m1 & E1 & K1 & D1). destruct (IH ltac:(intros; apply Hf; by right) m1) as (m & E & K & D). exists m. simpl. rewrite E1. simpl. split_and!; [done| |].
  - intros v p Ev. rewrite (K v p Ev), (K1 v p Ev). destruct (decide (v = key x)) as [Ex|Ex], (decide (v ∈ key <$> l)).
    + rewrite decide_True by set_solver. apply Hi.
    + by rewrite decide_True by set_solver.
    + by rewrite decide_True by set_solver.
    + by rewrite decide_False by set_solver.
  - intros p [?|?]%D; [by left|by apply D1].
Qed.

Section Direct.
Context {CC : RouteCostCalculator} (decode : list Z -> option (list Z)) (Hd : forall p q d, calculate_delivery_bps p q = Some d -> is_u 64 d).
Context (t : TopologyBuildInput) (T : topology_ok t) (s : nat) (Hs : t_start_node t = Some s) (cd : bool) (input : RouteBuildInput) (M : measured decode t s cd input).
#[local] Notation g := (preferred_graph decode t s).
#[local] Notation sg := (speed decode t s).

(** this node reports a connection to [v] that data may use *)
Definition neighbour (v : nat) : Prop := exists e, e ∈ edge_references (graph input) /\ source e = s /\ target e = v.
Definition direct_hop (v : nat) (p delivery : Z) : NextHopInfo := mk_hop p delivery (effective_cost decode t s v) 1 (version input).

Lemma preferred_wf : well_formed g.
Proof. by apply retain_wf, data_wf. Qed.
Lemma preferred_nodes : node_weights g = node_weights (t_graph t).
Proof.
  unfold preferred_graph. destruct (retain_edges_spec Z (permitted t (avoid_distances decode t s)) (data_graph decode t)) as (E & _). rewrite E.
  unfold data_graph. by destruct (retain_edges_spec Z (fun u _ => allows_transit t u) (weighted decode t (t_graph t))) as (-> & _).
Qed.
Lemma preferred_weight e : e ∈ edge_references g -> weight e = effective_cost decode t (source e) (target e).
Proof. intros [[He _]%elem_of_retain _]%elem_of_retain. by apply elem_of_weighted in He as (e0 & _ & _ & _ & ->). Qed.
Lemma preferred_range e : e ∈ edge_references g -> 0 <= weight e <= 2 ^ 31 - 1.
Proof. intros ->%preferred_weight. by apply effective_cost_range. Qed.
Lemma nodes_count {W} (h : Graph W) : node_weights h = node_weights (t_graph t) -> node_count h = node_count (t_graph t).
Proof. unfold node_count. by intros ->. Qed.
Lemma start_count {W} (h : Graph W) : node_weights h = node_weights (t_graph t) -> (s < node_count h)%nat.
Proof. intros ->%nodes_count. by apply (to_start t T). Qed.
Lemma elem_of_targets {W} (h : Graph W) v : well_formed h -> v ∈ target <$> edges h s <-> exists e, e ∈ edge_references h /\ source e = s /\ target e = v.
Proof. intros Wf. rewrite list_elem_of_fmap. setoid_rewrite (elem_of_edges h s _ Wf). naive_solver. Qed.

Lemma direct_routes m0 : exists m, fold_routes (direct_route input g) m0 (edges g s) = Ok m /\
  (forall v p, node_weights g !! v = Some p -> m !! p = if decide (v ∈ target <$> edges g s) then if bool_decide (p ∈ suppressed_peer_ids input) then m0 !! p else Some (direct_hop v p 0) else m0 !! p) /\
  forall p, is_Some (m !! p) -> p ∈ node_weights g \/ is_Some (m0 !! p).
Proof.
  apply (fold_updates g target (fun v p o => if bool_decide (p ∈ suppressed_peer_ids input) then o else Some (direct_hop v p 0))); [|intros; by case_match].
  intros e m [He Hu]%(elem_of_edges g s e preferred_wf). destruct (lookup_lt_is_Some_2 (node_weights g) (target e)) as [q Eq]; [by apply (wf_ends g preferred_wf)|].
  unfold direct_route. rewrite Eq. simpl. pose proof (preferred_range e He) as Hr. rewrite (preferred_weight e He), Hu in *.
  assert (((0 <? node_count (graph input))%nat = true)) as -> by (rewrite (me_graph _ _ _ _ _ M); pose proof (start_count g preferred_nodes); by apply Nat.ltb_lt; lia).
  rewrite Z.min_l by (unfold i32_max; lia). case_bool_decide as Hq; (eexists; split; [done|]); split.
  - intros v p Ev. case_decide as Et; [|done]. rewrite Et, Eq in Ev. simplify_eq. by rewrite bool_decide_true.
  - by right.
  - intros v p Ev. case_decide as Et; [rewrite Et, Eq in Ev; simplify_eq; by rewrite lookup_insert_eq, bool_decide_false|].
    rewrite lookup_insert_ne; [done|]. intros ->. destruct Et. eapply NoDup_lookup; [|exact Ev|exact Eq]. rewrite preferred_nodes. apply T.
  - intros p. destruct (decide (q = p)) as [<-|]; [left; by eapply list_elem_of_lookup_2|]. rewrite lookup_insert_ne by done. by right.
Qed.

(** the measured delivery of the direct edge to [v] *)
Definition edge_delivery (v : nat) : Z := default 0 (calculate_delivery_bps (peer_at t s) (peer_at t v)).
Definition with_delivery (v : nat) (p : Z) (o : option NextHopInfo) : option NextHopInfo :=
  (fun r => if (next_hop_peer_id r =? p) && (path_len r =? 1) then mk_hop p (edge_delivery v) (effective_cost decode t s v) 1 (hop_version r) else r) <$> o.
Lemma speed_weight e : e ∈ edge_references sg -> source e = s -> WidestPath.delivery_bps (weight e) = edge_delivery (target e) /\ WidestPath.latency_ms (weight e) = effective_cost decode t s (target e).
Proof.
  intros He Hu. destruct (speed_edge decode t T s Hs e He) as (x & Hx & Es & Et & El & _ & Ed & _). rewrite Es, Hu, Et in Ed. unfold edge_delivery. rewrite Ed, El, (preferred_weight x Hx). by rewrite Es, Hu, Et.
Qed.
Lemma direct_deliveries m0 : exists m, fold_routes (direct_delivery sg) m0 (edges sg s) = Ok m /\
  (forall v p, node_weights sg !! v = Some p -> m !! p = if decide (v ∈ target <$> edges sg s) then with_delivery v p (m0 !! p) else m0 !! p) /\
  forall p, is_Some (m !! p) -> p ∈ node_weights sg \/ is_Some (m0 !! p).
Proof.
  pose proof (speed_wf decode t T s Hs) as Wf. apply (fold_updates sg target with_delivery).
  2: { intros v p [r|]; [|done]. unfold with_delivery. cbn [fmap option_fmap option_map]. f_equal. destruct ((next_hop_peer_id r =? p) && (path_len r =? 1)) eqn:E; cbn [next_hop_peer_id path_len]; [by rewrite Z.eqb_refl|by rewrite E]. }
  intros e m [He Hu]%(elem_of_edges sg s e Wf). destruct (lookup_lt_is_Some_2 (node_weights sg) (target e)) as [q Eq]; [by apply (wf_ends sg Wf)|].
  unfold direct_delivery. rewrite Eq. simpl. destruct (speed_weight e He Hu) as [-> ->]. rewrite Z.min_l by (pose proof (effective_cost_range decode t T s (target e)); unfold i32_max; lia).
  eexists; split; [done|]. split.
  - intros v p Ev. case_decide as Et.
    + rewrite Et, Eq in Ev. simplify_eq. unfold with_delivery. destruct (m !! p) as [r|] eqn:Er; simpl; [|done]. destruct (_ && _) eqn:Eb; [|done]. rewrite lookup_insert_eq.
      apply andb_true_iff in Eb as [->%Z.eqb_eq ->%Z.eqb_eq]. done.
    + assert (q <> p). { intros ->. destruct Et. eapply NoDup_lookup; [|exact Ev|exact Eq]. rewrite speed_nodes by done. apply T. }
      repeat case_match; try done. by rewrite lookup_insert_ne.
  - intros p Hp. destruct (decide (q = p)) as [<-|]; [left; by eapply list_elem_of_lookup_2|]. right. repeat case_match; try done. by rewrite lookup_insert_ne in Hp.
Qed.

(** ** Every policy *)
Context (my : Z) (Hmy : node_weights (t_graph t) !! s = Some my) (Hz : forall e, e ∈ edge_references (t_graph t) -> weight e = 0) (Hcd : cd = true).
(** the capacity of the direct connection, zero where none is measured *)
Definition direct_capacity (v : nat) (d : Z) : Prop :=
  (exists e, e ∈ edge_references (speed_graph input) /\ source e = s /\ target e = v /\ WidestPath.delivery_bps (weight e) = d) \/
  ((forall e, e ∈ edge_references (speed_graph input) -> source e = s -> target e <> v) /\ d = 0).
Definition widest_way (v : nat) (o : option NextHopInfo) : Prop :=
  match o with
  | Some r => exists x c, r = goodput_hop (version input) x /\ v <> s /\ 0 < c /\ (forall es, walk (speed_graph input) s es v -> WidestPathProps.bottleneck es <= c) /\
      WidestRoutes.best (speed_graph input) s my c v x
  | None => v = s \/ forall es, walk (speed_graph input) s es v -> WidestPathProps.bottleneck es <= 0
  end.
Definition route_of (policy : Forwarding.NextHopPolicy) : nat -> option NextHopInfo -> Prop :=
  match policy with
  | Forwarding.ControlHop => best_way (control_graph input) s (version input) shorter
  | Forwarding.LeastHop => best_way (graph input) s (version input) shorter
  | Forwarding.LeastCost => best_way (graph input) s (version input) cheaper
  | Forwarding.MaxGoodput => widest_way
  end.
(** direct connections to peers that are not suppressed come first, except for control traffic *)
Definition takes_direct (policy : Forwarding.NextHopPolicy) (v : nat) (p : Z) : Prop :=
  policy <> Forwarding.ControlHop /\ neighbour v /\ p ∉ suppressed_peer_ids input.

Lemma optimal_widest rs v : WidestRoutes.optimal sg s my rs -> widest_way v (goodput_hop (version input) <$> rs !! v).
Proof.
  destruct (me_speed _ _ _ _ _ M Hcd) as [E _]. intros [K1 K2]. unfold widest_way. rewrite E. destruct (rs !! v) as [x|] eqn:Ex; simpl.
  - destruct (K1 v x Ex) as (? & c & ? & ? & ?). by exists x, c.
  - destruct (decide (v = s)) as [|Hv]; [by left|right]. intros es We. destruct (decide (0 < WidestPathProps.bottleneck es)) as [Hb|]; [|lia].
    destruct (K2 v es We Hv Hb) as [? K]. by rewrite Ex in K.
Qed.
(** a route over the direct edge already has its capacity *)
Lemma with_delivery_same rs v p : WidestRoutes.optimal sg s my rs -> node_weights sg !! v = Some p ->
  with_delivery v p (goodput_hop (version input) <$> rs !! v) = goodput_hop (version input) <$> rs !! v.
Proof.
  intros [K1 _] Ev. destruct (rs !! v) as [x|] eqn:Ex; [|done]. destruct (K1 v x Ex) as (_ & c & _ & _ & B). unfold with_delivery. cbn [fmap option_fmap option_map]. f_equal.
  destruct (_ && _) eqn:Eb; [|done]. apply andb_true_iff in Eb as [Enh%Z.eqb_eq El%Z.eqb_eq]. destruct (WidestRoutes.be_walk _ _ _ _ _ _ B) as (es & We & Hc & Hl).
  unfold WidestRoutes.machine_label in Hl. injection Hl as Hl1 Hl2 _. unfold goodput_hop in *. simpl in *. rewrite El in Hl2.
  destruct We as [|es u e We He Hu]; [done|]. rewrite WidestRoutes.len_snoc in Hl2. assert (es = []) as -> by (destruct es; [done|unfold len in *; simpl in *; lia]). inversion We as [Enil Eu|es2 ? ? ? ? ? Ee]; subst u; [|by destruct es2].
  destruct (speed_weight e He ltac:(done)) as [Ed Ela]. destruct (WidestPathProps.go_edges sg (speed_ok decode t T s Hs Hd) e He) as (_ & _ & Hu1 & _).
  pose proof (effective_cost_range decode t T s (target e)). rewrite (WidestRoutes.be_delivery _ _ _ _ _ _ B), Hl1, El, Enh, <- Hc. unfold WidestPathProps.bottleneck, WidestRoutes.latency, is_u, u_max, i32_max in *. simpl in *.
  rewrite <- Eu, Ela. f_equal; lia.
Qed.

(** the entries of a table, each under the peer of a node *)
Definition over_nodes (m : gmap Z NextHopInfo) : Prop := forall p r, m !! p = Some r -> p ∈ node_weights (t_graph t).

Lemma cost_policy policy : policy <> Forwarding.MaxGoodput ->
  exists m, policy_routes input policy s = Ok (Some m) /\ (forall v p, node_weights (t_graph t) !! v = Some p -> route_of policy v (m !! p)) /\ over_nodes m.
Proof.
  intros Hp. unfold policy_routes, route_of, over_nodes. rewrite (me_control _ _ _ _ _ M), (me_graph _ _ _ _ _ M). pose proof (start_count g preferred_nodes) as Hg.
  assert ((node_count g =? 0)%nat = false) as -> by (apply Nat.eqb_neq; lia).
  assert (Nd : NoDup (node_weights g)) by (rewrite preferred_nodes; apply T). assert (Hn : Z.of_nat (node_count g) < 2 ^ 32) by (rewrite (nodes_count g preferred_nodes); apply T).
  destruct policy; [| | |done].
  - destruct (least_hop_routes (t_graph t) s (to_wf t T) (start_count _ eq_refl) (to_nodup t T) (version input) ltac:(by intros e ->%Hz) (to_size t T)) as (m & -> & Hm & Hk). simpl. by exists m.
  - destruct (least_hop_routes g s preferred_wf Hg Nd (version input) preferred_range Hn) as (m & -> & Hm & Hk). rewrite <- preferred_nodes. simpl. by exists m.
  - destruct (least_cost_routes g s preferred_wf Hg Nd (version input) preferred_range Hn) as (m & -> & Hm & Hk). rewrite <- preferred_nodes. simpl. by exists m.
Qed.
Lemma goodput_policy : match policy_routes input Forwarding.MaxGoodput s with
  | Ok o => exists m rs, o = Some m /\ WidestRoutes.optimal sg s my rs /\ (forall v p, node_weights (t_graph t) !! v = Some p -> m !! p = goodput_hop (version input) <$> rs !! v) /\ over_nodes m
  | Err e => e = WidestPath.WidestPathWorkError /\ WidestPath.MAX_ROUTE_REBUILD_WORK < WidestRoutes.work_bound (speed_graph input)
  | Panic => False
  end.
Proof.
  pose proof (speed_nodes decode t T s Hs) as En. destruct (me_speed _ _ _ _ _ M Hcd) as (E & prep & Ep & Hprep). unfold policy_routes, over_nodes. rewrite E, Ep. cbn [ok_or mbind outcome_bind].
  assert ((node_count sg =? 0)%nat = false) as -> by (pose proof (start_count sg En); apply Nat.eqb_neq; lia).
  pose proof (goodput_routes sg s my (version input) prep (speed_ok decode t T s Hs Hd) ltac:(by rewrite En) ltac:(rewrite En; apply T) Hprep) as K. rewrite En in K.
  destruct (WidestPath.widest_path_work_limit _ _) as [lim|e|]; [|done|done]. cbn [mbind outcome_bind] in *. destruct (WidestPath.with_used _ _) as [b|e|]; [|done|done]. cbn [mbind outcome_bind] in *.
  destruct (gen_next_hop_map_with_max_goodput_checked _ _ _ _ _ _) as [m|e|]; [|done|done]. destruct K as (rs & ? & ? & ?). cbn [mbind outcome_bind]. by exists m, rs.
Qed.

Lemma direct_first m0 : over_nodes m0 -> exists m, fold_routes (direct_route input g) m0 (edges g s) = Ok m /\ over_nodes m /\
  forall v p, node_weights (t_graph t) !! v = Some p -> m !! p = Some (direct_hop v p 0) /\ neighbour v /\ p ∉ suppressed_peer_ids input \/ m !! p = m0 !! p /\ ~ (neighbour v /\ p ∉ suppressed_peer_ids input).
Proof.
  intros H0. destruct (direct_routes m0) as (m & E & K & D). exists m. split; [done|]. rewrite preferred_nodes in K, D. split; [intros p r Er; destruct (D p ltac:(by eexists)) as [|[r0 ?]]; [done|by eapply H0]|].
  intros v p Ev. rewrite (K v p Ev). unfold neighbour. rewrite (me_graph _ _ _ _ _ M). pose proof (elem_of_targets g v preferred_wf) as Ht.
  destruct (decide (v ∈ target <$> edges g s)) as [Hv|Hv]; [|right; tauto]. case_bool_decide; [right; tauto|left; tauto].
Qed.

(** the table of a policy *)
Record table_of (policy : Forwarding.NextHopPolicy) (routes : gmap Z NextHopInfo) : Prop := {
  tb_direct : forall v p, node_weights (t_graph t) !! v = Some p -> takes_direct policy v p ->
    exists d, routes !! p = Some (direct_hop v p d) /\ if is_goodput policy then direct_capacity v d else d = 0;
  tb_way : forall v p, node_weights (t_graph t) !! v = Some p -> ~ takes_direct policy v p -> route_of policy v (routes !! p);
  tb_nodes : over_nodes routes;
}.
Lemma goodput_table m rs : WidestRoutes.optimal sg s my rs -> (forall v p, node_weights (t_graph t) !! v = Some p -> m !! p = goodput_hop (version input) <$> rs !! v) -> over_nodes m ->
  exists m1 m2, fold_routes (direct_route input g) m (edges g s) = Ok m1 /\ fold_routes (direct_delivery sg) m1 (edges sg s) = Ok m2 /\ table_of Forwarding.MaxGoodput m2.
Proof.
  intros Ho Hm H0. pose proof (speed_nodes decode t T s Hs) as En. destruct (direct_first m H0) as (m1 & E1 & H1 & K1). destruct (direct_deliveries m1) as (m2 & E2 & K2 & D2). rewrite En in K2, D2.
  exists m1, m2. split_and!; [done|done|]. destruct (me_speed _ _ _ _ _ M Hcd) as [Esg _]. pose proof (fun v => elem_of_targets sg v (speed_wf decode t T s Hs)) as Ht. split.
  - intros v p Ev (_ & Hn & Hp). destruct (K1 v p Ev) as [[Er _]|[_ []]]; [|done]. rewrite (K2 v p Ev), Er. unfold with_delivery, direct_capacity. simpl. rewrite Esg. case_decide as Hv.
    + rewrite Z.eqb_refl. simpl. eexists. split; [done|]. left. apply Ht in Hv as (e & He & Hu & <-). exists e. split_and!; try done. by apply speed_weight.
    + exists 0. split; [done|]. right. split; [|done]. intros e He Hu <-. destruct Hv. apply Ht. by exists e.
  - intros v p Ev Hn. destruct (K1 v p Ev) as [(_ & ? & ?)|[Er _]]; [by destruct Hn|]. rewrite (K2 v p Ev), Er, (Hm v p Ev). rewrite (with_delivery_same rs v p Ho) by (by rewrite En).
    simpl. case_decide; by apply optimal_widest.
  - intros p r Er. destruct (D2 p ltac:(by eexists)) as [|[r0 ?]]; [done|by eapply H1].
Qed.

Lemma graph_nodes : (0 <? node_count (graph input))%nat = true.
Proof. rewrite (me_graph _ _ _ _ _ M). pose proof (start_count g preferred_nodes). apply Nat.ltb_lt. lia. Qed.
Lemma cost_tables policy : policy <> Forwarding.MaxGoodput -> exists routes, build_automatic_next_hops input policy = Ok routes /\ table_of policy routes.
Proof.
  intros Hp. unfold build_automatic_next_hops. rewrite (me_start _ _ _ _ _ M), graph_nodes, (me_graph _ _ _ _ _ M).
  destruct (cost_policy policy Hp) as (m & -> & Hm & H0). cbn [mbind outcome_bind]. destruct (is_control policy) eqn:Ec.
  - exists m. split; [done|]. split; [|by intros; apply Hm|done]. intros v p _ []. by destruct policy.
  - destruct (direct_first m H0) as (m1 & -> & H1 & K1). cbn [mbind outcome_bind]. assert (is_goodput policy = false) as Eg by (by destruct policy). rewrite Eg. exists m1. split; [done|]. split; [| |done].
    + intros v p Ev (_ & ? & ?). rewrite Eg. destruct (K1 v p Ev) as [[Er _]|[_ []]]; [|done]. by exists 0.
    + intros v p Ev Hn. destruct (K1 v p Ev) as [(_ & ? & ?)|[-> _]]; [|by apply Hm]. destruct Hn. split_and!; [by destruct policy|done|done].
Qed.
Lemma goodput_tables : match build_automatic_next_hops input Forwarding.MaxGoodput with
  | Ok routes => table_of Forwarding.MaxGoodput routes
  | Err e => e = WidestPath.WidestPathWorkError /\ WidestPath.MAX_ROUTE_REBUILD_WORK < WidestRoutes.work_bound (speed_graph input)
  | Panic => False
  end.
Proof.
  unfold build_automatic_next_hops. rewrite (me_start _ _ _ _ _ M), graph_nodes, (me_graph _ _ _ _ _ M). pose proof goodput_policy as K.
  destruct (policy_routes _ _ _) as [o|e|]; [|done|done]. destruct K as (m & rs & -> & Ho & Hm & H0). cbn [mbind outcome_bind is_control is_goodput].
  destruct (goodput_table m rs Ho Hm H0) as (m1 & m2 & -> & E2 & K2). cbn [mbind outcome_bind]. rewrite (proj1 (me_speed _ _ _ _ _ M Hcd)), E2. done.
Qed.
End Direct.
End Tables.

(** C14: The next hops that a rebuild computes are right for every policy.  From the synchronised records, the route graphs are
    built and [build_automatic_next_hops] over them never panics; only for maximum goodput it can fail, with the work error, and
    only when the speed graph exceeds the work bound.  In the table, a peer that this node has a usable connection to and that is
    not suppressed is its own next hop, at one hop, with the cost of the connection and (for maximum goodput) its measured
    capacity; control traffic makes no such exception.  Every other peer has the first hop, length and cost of a best walk, and
    no entry exactly when there is none: of fewest hops and then least cost over the topology (control) or the data graph (least
    hop), of least cost over the data graph (least cost), of greatest capacity and then best over the speed graph (maximum
    goodput).  No other peer has an entry. *)
Theorem automatic_routes_correct {P : Petgraph} {PL : PetgraphLaws} {CC : RouteCostCalculator} decode allows parse my synced policy :
  synced_ok my synced -> (forall p q d, calculate_delivery_bps p q = Some d -> is_u 64 d) ->
  let t := capture allows parse my synced in
  exists s input, node_weights (t_graph t) !! s = Some my /\ with_measurements decode t true true = Ok input /\
    match build_automatic_next_hops input policy with
    | Ok routes => table_of decode t s input my policy routes
    | Err e => policy = Forwarding.MaxGoodput /\ e = WidestPath.WidestPathWorkError /\ WidestPath.MAX_ROUTE_REBUILD_WORK < WidestRoutes.work_bound (speed_graph input)
    | Panic => False
    end.
Proof.
  intros So Hd t. destruct (capture_spec allows parse my synced So) as (T & (s & Hs & Hmy) & _ & _ & _ & Hc). fold t in T, Hs, Hmy, Hc.
  destruct (with_measurements_spec decode Hd t T s Hs true) as (input & Hm & M). exists s, input. split_and!; [done|done|].
  assert (Hz : forall e, e ∈ edge_references (t_graph t) -> weight e = 0) by (intros e (p & q & _ & _ & ? & _)%Hc; done).
  assert (policy = Forwarding.MaxGoodput \/ policy <> Forwarding.MaxGoodput) as [->|Hp] by (destruct policy; auto).
  - pose proof (goodput_tables decode Hd t T s Hs true input M my Hmy eq_refl) as K. by destruct (build_automatic_next_hops _ _).
  - by destruct (cost_tables decode t T s Hs true input M my Hz policy Hp) as (routes & -> & ?).
Qed.

#[local] Notation demo_topology := (capture (fun _ => None) (fun _ => None) 1 demo_synced).
Definition hop_to (o : outcome Error (gmap Z NextHopInfo)) (p : Z) : option NextHopInfo := match o with Ok m => m !! p | _ => None end.
Definition hops_of (o : outcome Error RouteBuildInput) (p : Z) : option NextHopInfo :=
  match o with Ok i => hop_to (build_automatic_next_hops i Forwarding.LeastCost) p | _ => None end.

Lemma automatic_routes_correct_witness : exists s input routes,
  with_measurements (CC := demo_costs) (fun _ => None) demo_topology true true = Ok input /\ build_automatic_next_hops input Forwarding.LeastCost = Ok routes /\
  table_of (CC := demo_costs) (fun _ => None) demo_topology s input 1 Forwarding.LeastCost routes /\ hop_to (Ok routes) 4 = Some (mk_hop 3 0 14 2 1).
Proof.
  assert (So : synced_ok 1 demo_synced).
  { split; [by eexists|done|]. intros p info l K Hl. assert (relay_link_cost info = []) as E; [|rewrite E in Hl; set_solver].
    unfold demo_synced in K. simpl in K. repeat (apply lookup_insert_Some in K as [[_ <-]|[_ K]]; [done|]). by apply lookup_singleton_Some in K as [_ <-]. }
  destruct (automatic_routes_correct (CC := demo_costs) (fun _ => None) (fun _ => None) (fun _ => None) 1 demo_synced Forwarding.LeastCost So) as (s & input & _ & Hm & Ht).
  { intros p q d K. simpl in K. case_match; simplify_eq. unfold is_u. lia. }
  destruct (build_automatic_next_hops input Forwarding.LeastCost) as [routes|e|] eqn:Er; [|destruct Ht as [K _]; discriminate K|destruct Ht]. exists s, input, routes. split; [exact Hm|]. split; [exact Er|]. split; [exact Ht|].
  assert (K : hops_of (Ok input) 4 = Some (mk_hop 3 0 14 2 1)) by (rewrite <- Hm; vm_compute; reflexivity). unfold hops_of in K. rewrite Er in K. exact K.
Defined.
End RouteTableProps.
