(* ===== verification/SharedMapsProps.v ===== *)
(** * Properties of the shared maps

    The maps from addresses and prefixes to peers lead to reachable owners that are nearest, and a snapshot of a table
    decides as the table does (RouteTable). *)
From stdpp Require Import base list gmap numbers sorting strings.
From Stdlib Require Import ZArith Lia.
From S2P Require Import Prelude NetAddr GraphAlgo Forwarding PeerGraph WidestPath RouteGraph RouteGraphProps RouteTable RouteTableProps.

Local Open Scope Z_scope.

Module SharedMapsProps.
Import PeerGraph Prefix RouteGraph RouteGraphProps RouteTable RouteTableProps Net.

(** ** Owners of keys *)
Section Owners.
Context {K : Type} `{EqDecision K} (ver : Z) (beats : Z -> Z -> Prop) (better : PeerIdVersion -> PeerIdVersion -> bool).
Context (Hself : forall p, beats p p).
Context (Hyes : forall new old q, pv_version new = ver -> pv_version old = ver -> better new old = true -> beats (pv_peer old) q -> beats (pv_peer new) q).
Context (Hno : forall new old, pv_version new = ver -> pv_version old = ver -> better new old = false -> beats (pv_peer old) (pv_peer new)).

(** every claimed key has an owner that claimed it and that no other claimant beats *)
Record owners (S : Z -> K -> Prop) (m : K -> option PeerIdVersion) : Prop := {
  ow_some : forall k x, m k = Some x -> pv_version x = ver /\ S (pv_peer x) k /\ forall q, S q k -> beats (pv_peer x) q;
  ow_all : forall k q, S q k -> is_Some (m k);
}.
Lemma owners_ext (S S' : Z -> K -> Prop) m : owners S m -> (forall q k, S q k <-> S' q k) -> owners S' m.
Proof.
  intros [K1 K2] E. split; [|intros k q ?%E; by eapply K2]. intros k x (? & ? & Kb)%K1. split_and!; [done|by apply E|]. intros q ?%E. auto.
Qed.
Lemma owners_empty (S : Z -> K -> Prop) m : (forall k, m k = None) -> (forall q k, ~ S q k) -> owners S m.
Proof. intros Hm Hn. split; [intros k x; by rewrite Hm|]. intros k q []%Hn. Qed.
Lemma owners_claim S m m' p a : owners S m -> (forall k, m' k = if decide (a = k) then match m k with
    | Some old => if better (mk_peer_version p ver) old then Some (mk_peer_version p ver) else Some old
    | None => Some (mk_peer_version p ver) end else m k) ->
  owners (fun q k => S q k \/ q = p /\ k = a) m'.
Proof.
  intros [K1 K2] Hm. split.
  - intros k x. rewrite Hm. case_decide as Ek; [subst a|intros (? & ? & Kb)%K1; split_and!; [done|by left|intros q [?|[_ ?]]; [by apply Kb|by destruct Ek]]].
    destruct (m k) as [old|] eqn:Eo.
    + destruct (K1 k old Eo) as (Ev & So & Kb). destruct (better _ old) eqn:Eb; intros [= <-].
      * split_and!; [done|right; done|]. intros q [Hq|[-> _]]; [|apply Hself]. by apply (Hyes (mk_peer_version p ver) old q eq_refl Ev Eb), Kb.
      * split_and!; [done|by left|]. intros q [Hq|[-> _]]; [by apply Kb|]. by apply (Hno (mk_peer_version p ver) old eq_refl Ev Eb).
    + intros [= <-]. split_and!; [done|right; done|]. intros q [Hq|[-> _]]; [|apply Hself]. destruct (K2 k q Hq) as [? E]. by rewrite Eo in E.
  - intros k q Hq. rewrite Hm. case_decide as Ek; [repeat case_match; by eexists|]. destruct Hq as [?|[_ ?]]; [by eapply K2|by destruct Ek].
Qed.
End Owners.

(** ** Building the maps *)
Section Building.
Context {PM : PrefixMaps} {PL : PrefixMapLaws} {PC : PrefixMapCollect} {PCL : PrefixMapCollectLaws} (parse_cidr : list Z -> option IpCidr).
Context (my : Z) (input : RouteBuildInput) (baseline : gmap Z NextHopInfo).
#[local] Notation reachable := (is_reachable input baseline).
#[local] Notation distance := (path_len_of baseline).
#[local] Notation ver := (version input).
Context (Hmin : forall p, distance my <= distance p).

(** the nearest owner, this node first *)
Definition nearer (p q : Z) : Prop := distance p <= distance q.
Definition preferred_owner (p q : Z) : Prop := p = my \/ q <> my /\ nearer p q.
(** a prefix within one that this node announces is not taken from others *)
Definition shadowed (p : Z) (c : IpCidr) : bool := negb (p =? my) && existsb (cidr_is_subset c) (local_proxy_cidrs input).

Section Records.
Context (l : list (Z * RoutePeerInfo)).
Definition has_ipv4 (p a : Z) : Prop := reachable p = true /\ exists info, (p, info) ∈ l /\ ipv4_addr info = Some a.
Definition has_ipv6 (p a : Z) : Prop := reachable p = true /\ exists info, (p, info) ∈ l /\ (mjoin (ipv6_addr info) = Some a \/ mjoin (ipv6_public_addr_lease info) = Some a).
Definition has_prefix (p : Z) (c : IpCidr) : Prop :=
  reachable p = true /\ exists info text, (p, info) ∈ l /\ text ∈ proxy_cidrs info /\ parse_cidr text = Some c /\ shadowed p c = false.
End Records.

Lemma claim_owners S m p a : owners ver nearer S (fun k => m !! k) -> owners ver nearer (fun q k => S q k \/ q = p /\ k = a) (fun k => claim baseline (mk_peer_version p ver) m a !! k).
Proof.
  intros O. eapply (owners_claim ver nearer (is_new_peer_better baseline)); [unfold nearer; lia| | |exact O|].
  - intros new old q E1 E2. unfold is_new_peer_better, nearer. rewrite E1, E2, Z.ltb_irrefl. case_match; [done|]. intros ?%Z.ltb_lt. lia.
  - intros new old E1 E2. unfold is_new_peer_better, nearer. rewrite E1, E2, Z.ltb_irrefl. case_match eqn:E; [apply Z.eqb_eq in E as ->; lia|]. intros ?%Z.ltb_ge. lia.
  - intros k. unfold claim. case_decide as Ek; [subst k; destruct (m !! a) eqn:Ea; [case_match; [by rewrite lookup_insert_eq|done]|by rewrite lookup_insert_eq]|].
    repeat case_match; by rewrite ?lookup_insert_ne by done.
Qed.
Lemma claim_opt_owners S m p o : owners ver nearer S (fun k => m !! k) -> owners ver nearer (fun q k => S q k \/ q = p /\ o = Some k) (fun k => claim_opt baseline (mk_peer_version p ver) m o !! k).
Proof.
  intros O. destruct o as [a|]; simpl.
  - eapply owners_ext; [by apply claim_owners|]. naive_solver.
  - eapply owners_ext; [exact O|]. naive_solver.
Qed.
Lemma claim_prefix_owners S m p c : owners ver preferred_owner S (pm_get m) ->
  owners ver preferred_owner (fun q k => S q k \/ q = p /\ k = c) (pm_get (claim_prefix my baseline (mk_peer_version p ver) m c)).
Proof.
  intros O. eapply (owners_claim ver preferred_owner (fun new old => (pv_peer new =? my) || is_new_peer_better baseline new old)); [| | |exact O|].
  - intros q. unfold preferred_owner, nearer. destruct (decide (q = my)); [by left|right; split; [done|lia]].
  - intros new old q E1 E2. unfold is_new_peer_better, preferred_owner, nearer. rewrite E1, E2, Z.ltb_irrefl. pose proof (Hmin (pv_peer new)). destruct (Z.eqb_spec (pv_peer new) my); [by left|]. simpl.
    case_match; [done|]. intros ?%Z.ltb_lt [Eo|[? ?]]; [rewrite Eo in *; lia|right; split; [done|lia]].
  - intros new old E1 E2. unfold is_new_peer_better, preferred_owner, nearer. rewrite E1, E2, Z.ltb_irrefl. destruct (Z.eqb_spec (pv_peer new) my); [done|]. simpl.
    destruct (Z.eqb_spec (pv_peer new) (pv_peer old)) as [En|]; [intros _; right; split; [done|rewrite En; lia]|]. intros ?%Z.ltb_ge. right. split; [done|lia].
  - intros k. unfold claim_prefix. case_decide as Ek; [subst k; destruct (pm_get m c) eqn:Ea; [case_match; [by rewrite pm_get_insert, decide_True|done]|by rewrite pm_get_insert, decide_True]|].
    repeat case_match; by rewrite ?pm_get_insert, ?decide_False by done.
Qed.

Definition forward_route (c : IpCidr) (p : Z) : ServiceRoute.ServiceRoute := ServiceRoute.mk_route c p 100 0 p ServiceRoute.Forward.
Record built (S4 S6 : Z -> Z -> Prop) (SP : Z -> IpCidr -> Prop) (infos : gmap Z RoutePeerInfo) (b : builder) : Prop := {
  bu_ipv4 : owners ver nearer S4 (fun k => b_ipv4 b !! k);
  bu_ipv6 : owners ver nearer S6 (fun k => b_ipv6 b !! k);
  bu_cidr : owners ver preferred_owner (fun q c => SP q (CidrV4 c)) (pm_get (b_cidr b));
  bu_cidr_v6 : owners ver preferred_owner (fun q c => SP q (CidrV6 c)) (pm_get (b_cidr_v6 b));
  bu_routes : forall x, x ∈ b_routes b <-> exists p c, SP p c /\ x = forward_route c p;
  bu_infos : b_infos b = infos;
}.
Lemma built_ext S4 S6 SP S4' S6' SP' infos b : built S4 S6 SP infos b -> (forall q k, S4 q k <-> S4' q k) -> (forall q k, S6 q k <-> S6' q k) -> (forall q k, SP q k <-> SP' q k) -> built S4' S6' SP' infos b.
Proof.
  intros [K1 K2 K3 K4 K5 K6] E4 E6 EP. split; try done; [by eapply owners_ext|by eapply owners_ext|eapply owners_ext; [exact K3|intros; apply EP]|eapply owners_ext; [exact K4|intros; apply EP]|].
  intros x. rewrite K5. by setoid_rewrite EP.
Qed.
Lemma add_proxy_built S4 S6 SP infos b p text : built S4 S6 SP infos b ->
  built S4 S6 (fun q c => SP q c \/ q = p /\ parse_cidr text = Some c /\ shadowed p c = false) infos (add_proxy parse_cidr my input baseline p b text).
Proof.
  intros B. unfold add_proxy. destruct (parse_cidr text) as [c|] eqn:Ep; [|eapply built_ext; [exact B|naive_solver..]]. fold (shadowed p c). destruct (shadowed p c) eqn:Es.
  { eapply built_ext; [exact B|done|done|]. intros q k. split; [by left|]. intros [?|(_ & [= <-] & ?)]; [done|congruence]. }
  destruct B as [K1 K2 K3 K4 K5 K6].
  assert (Kr : forall x, x ∈ b_routes b ++ [forward_route c p] <-> exists q k, (SP q k \/ q = p /\ Some c = Some k /\ shadowed p k = false) /\ x = forward_route k q).
  { intros x. rewrite elem_of_app, K5, list_elem_of_singleton. naive_solver. }
  destruct c as [c|c]; (split; simpl; [done|done| | |exact Kr|done]).
  - eapply owners_ext; [exact (claim_prefix_owners _ _ p c K3)|]. simpl. naive_solver.
  - eapply owners_ext; [exact K4|]. naive_solver.
  - eapply owners_ext; [exact K3|]. naive_solver.
  - eapply owners_ext; [exact (claim_prefix_owners _ _ p c K4)|]. simpl. naive_solver.
Qed.
Lemma add_proxies_built S4 S6 infos p texts : forall SP b, built S4 S6 SP infos b ->
  built S4 S6 (fun q c => SP q c \/ q = p /\ exists text, text ∈ texts /\ parse_cidr text = Some c /\ shadowed p c = false) infos (foldl (add_proxy parse_cidr my input baseline p) b texts).
Proof.
  induction texts as [|text texts IH]; intros SP b B; simpl; [eapply built_ext; [exact B|set_solver..]|].
  eapply built_ext; [exact (IH _ _ (add_proxy_built _ _ _ _ _ p text B))|done|done|]. intros q k. simpl. setoid_rewrite elem_of_cons. naive_solver.
Qed.

(** the records of the peers that are reached *)
Definition reached (l : list (Z * RoutePeerInfo)) : gmap Z RoutePeerInfo := foldl (fun m x => if reachable x.1 then <[x.1 := x.2]> m else m) ∅ l.
Lemma add_infos_built l : let b := foldl (add_info parse_cidr my input baseline) (mk_builder ∅ ∅ ∅ pm_new pm_new []) l in
  built (has_ipv4 l) (has_ipv6 l) (has_prefix l) (reached l) b.
Proof.
  induction l as [|[p info] l IH] using rev_ind; simpl.
  - split; simpl; try (apply owners_empty; [intros; by rewrite ?lookup_empty, ?pm_get_new|]); try done.
    + intros q k (_ & i & K & _). set_solver.
    + intros q k (_ & i & K & _). set_solver.
    + intros q k (_ & i & ? & K & _). set_solver.
    + intros q k (_ & i & ? & K & _). set_solver.
    + intros x. split; [set_solver|]. intros (q & c & (_ & i & ? & K & _) & _). set_solver.
  - unfold reached in *. rewrite !foldl_app. cbn [foldl fst snd]. set (b := foldl _ _ l) in *. destruct (reachable p) eqn:Er.
    + destruct IH as [K1 K2 K3 K4 K5 K6]. unfold add_info at 1. rewrite Er. cbn [negb]. eapply built_ext.
      * apply add_proxies_built. split; simpl; [exact (claim_opt_owners _ _ p _ K1)|exact (claim_opt_owners _ _ p _ (claim_opt_owners _ _ p _ K2))|exact K3|exact K4|exact K5|by rewrite K6].
      * intros q k. unfold has_ipv4. setoid_rewrite elem_of_app. setoid_rewrite list_elem_of_singleton. naive_solver.
      * intros q k. unfold has_ipv6. setoid_rewrite elem_of_app. setoid_rewrite list_elem_of_singleton. naive_solver.
      * intros q k. unfold has_prefix. setoid_rewrite elem_of_app. setoid_rewrite list_elem_of_singleton. naive_solver.
    + unfold add_info at 1. rewrite Er. cbn [negb]. assert (Hf : reachable p <> true) by congruence. eapply built_ext; [exact IH|..]; intros q k; unfold has_ipv4, has_ipv6, has_prefix; setoid_rewrite elem_of_app; setoid_rewrite list_elem_of_singleton; naive_solver.
Qed.
End Building.

(** ** What a snapshot finds *)
(** every claimed key leads to a claimant that is preferred to the others *)
Definition owns {K} (beats : Z -> Z -> Prop) (S : Z -> K -> Prop) (f : K -> option Z) : Prop :=
  forall k, match f k with Some p => S p k /\ (forall q, S q k -> beats p q) | None => forall q, ~ S q k end.
Lemma owners_owns {K} ver beats (S : Z -> K -> Prop) m : owners ver beats S m -> owns beats S (fun k => pv_peer <$> m k).
Proof.
  intros [K1 K2] k. destruct (m k) as [x|] eqn:E; simpl; [by destruct (K1 k x E) as (_ & ? & ?)|]. intros q Hq. destruct (K2 k q Hq) as [? K3]. by rewrite E in K3.
Qed.
Lemma owns_ext {K} beats (S : Z -> K -> Prop) f f' : owns beats S f -> (forall k, f' k = f k) -> owns beats S f'.
Proof. intros O E k. rewrite E. apply O. Qed.

Section Snapshots.
Context {PM : PrefixMaps} {PL : PrefixMapLaws} {PC : PrefixMapCollect} {PCL : PrefixMapCollectLaws} (parse_cidr : list Z -> option IpCidr).
Context (my : Z) (input : RouteBuildInput) (baseline : gmap Z NextHopInfo).
#[local] Notation records := (map_to_list (peer_infos input)).

Record maps_of (sn : RouteTableSnapshot) : Prop := {
  mo_ipv4 : owns (nearer baseline) (has_ipv4 input baseline records) (fun a => sn_ipv4 sn !! a);
  mo_ipv6 : owns (nearer baseline) (has_ipv6 input baseline records) (fun a => sn_ipv6 sn !! a);
  mo_proxy : forall i, match get_peer_id_for_proxy sn i with
    | Some p => exists c, ip_covers c i = true /\ has_prefix parse_cidr my input baseline records p c /\
        (forall q, has_prefix parse_cidr my input baseline records q c -> preferred_owner my baseline p q) /\
        forall q c', has_prefix parse_cidr my input baseline records q c' -> ip_covers c' i = true -> ip_len c' <= ip_len c
    | None => forall q c, has_prefix parse_cidr my input baseline records q c -> ip_covers c i = false
    end;
  mo_infos : forall p info, sn_peer_infos sn !! p = Some info <-> is_reachable input baseline p = true /\ peer_infos input !! p = Some info;
}.

(** the owner of the longest prefix *)
Lemma lpm_owner w beats (S : Z -> Cidr -> Prop) m a : owns beats S (pm_get m) ->
  match snd <$> pm_get_lpm w m a with
  | Some p => exists c, covers w c a = true /\ S p c /\ (forall q, S q c -> beats p q) /\ forall q c', S q c' -> covers w c' a = true -> c_len c' <= c_len c
  | None => forall q c, S q c -> covers w c a = false
  end.
Proof.
  intros O. destruct (pm_get_lpm w m a) as [[c p]|] eqn:E; simpl.
  - apply pm_lpm_some in E as (Eg & Ec & Km). exists c. pose proof (O c) as K. rewrite Eg in K. destruct K as [K1 K2]. split_and!; [done|done|done|].
    intros q c' Hq. specialize (O c'). destruct (pm_get m c') as [p'|] eqn:E'; [by apply (Km c' p')|by destruct (O q)].
  - intros q c Hq. specialize (O c). destruct (pm_get m c) as [p|] eqn:Eg; [|by destruct (O q)]. by eapply pm_lpm_none.
Qed.
Lemma reached_lookup l p info : NoDup l.*1 -> reached input baseline l !! p = Some info <-> is_reachable input baseline p = true /\ (p, info) ∈ l.
Proof.
  unfold reached. induction l as [|[q i] l IH] using rev_ind; intros Nd; [cbn; rewrite lookup_empty; set_solver|]. rewrite foldl_app, elem_of_app, list_elem_of_singleton. cbn [foldl fst snd].
  rewrite fmap_app in Nd. apply NoDup_app in Nd as (N1 & N2 & _). specialize (IH N1). assert (Hq : forall i', (q, i') ∉ l) by (intros i' K; eapply N2; [by apply (list_elem_of_fmap_2 fst) in K|set_solver]).
  destruct (decide (p = q)) as [->|Hn].
  - destruct (is_reachable input baseline q) eqn:Er; [rewrite lookup_insert_eq|rewrite IH]; naive_solver.
  - destruct (is_reachable input baseline q) eqn:Er; [rewrite lookup_insert_ne by done|]; rewrite IH; naive_solver.
Qed.

Lemma snapshot_maps r hops : (forall p, path_len_of baseline my <= path_len_of baseline p) ->
  maps_of (into_snapshot (replace_policy r hops (build_shared_maps parse_cidr my input baseline))).
Proof.
  intros Hmin. destruct (add_infos_built parse_cidr my input baseline Hmin records) as [K1 K2 K3 K4 _ K6]. unfold build_shared_maps, into_snapshot. simpl. set (b := foldl _ _ _) in *. split; simpl.
  - eapply owns_ext; [exact (owners_owns _ _ _ _ K1)|]. intros k. by rewrite lookup_fmap.
  - eapply owns_ext; [exact (owners_owns _ _ _ _ K2)|]. intros k. by rewrite lookup_fmap.
  - assert (O4 : owns (preferred_owner my baseline) (fun q c => has_prefix parse_cidr my input baseline records q (CidrV4 c)) (pm_get (pm_collect pv_peer (b_cidr b)))).
    { eapply owns_ext; [exact (owners_owns _ _ _ _ K3)|]. intros k. by rewrite pm_get_collect. }
    assert (O6 : owns (preferred_owner my baseline) (fun q c => has_prefix parse_cidr my input baseline records q (CidrV6 c)) (pm_get (pm_collect pv_peer (b_cidr_v6 b)))).
    { eapply owns_ext; [exact (owners_owns _ _ _ _ K4)|]. intros k. by rewrite pm_get_collect. }
    intros [a|a]; simpl; [pose proof (lpm_owner 32 _ _ _ a O4) as K|pose proof (lpm_owner 128 _ _ _ a O6) as K]; simpl in K.
    all: case_match; [destruct K as (c & ? & ? & ? & Km)|intros q [c|c] ?; simpl; [..]; try done; by eapply K].
    + exists (CidrV4 c). split_and!; [done|done|done|]. intros q [c'|c'] ? ?; [by eapply Km|done].
    + exists (CidrV6 c). split_and!; [done|done|done|]. intros q [c'|c'] ? ?; [done|by eapply Km].
  - intros p info. rewrite K6, reached_lookup by apply NoDup_fst_map_to_list. by rewrite elem_of_map_to_list.
Qed.
End Snapshots.

(** ** The baseline is the control table *)
Section Baseline.
Context {CC : RouteCostCalculator} (decode : list Z -> option (list Z)) (t : TopologyBuildInput) (s : nat) (input : RouteBuildInput) (my : Z) (control : gmap Z NextHopInfo).
Context (Hmy : node_weights (t_graph t) !! s = Some my) (Ht : table_of decode t s input my Forwarding.ControlHop control).
#[local] Notation cg := (control_graph input).

Lemma control_way v p : node_weights (t_graph t) !! v = Some p -> best_way cg s (version input) shorter v (control !! p).
Proof. intros Ev. apply (tb_way _ _ _ _ _ _ _ Ht v p Ev). by intros []. Qed.
Lemma control_nearest p : path_len_of control my <= path_len_of control p.
Proof.
  pose proof (control_way s my Hmy) as K. unfold path_len_of. destruct (control !! my) as [r|]; [|by destruct (K [] ltac:(constructor))].
  destruct K as (es & _ & -> & K). specialize (K [] ltac:(constructor)). unfold shorter, hop_of, len in *. simpl in *.
  destruct (control !! p) as [r|] eqn:Er; [|unfold u_max; lia]. pose proof (tb_nodes _ _ _ _ _ _ _ Ht p r Er) as [v Ev]%list_elem_of_lookup.
  pose proof (control_way v p Ev) as Kp. rewrite Er in Kp. destruct Kp as (es2 & _ & -> & _). simpl. unfold len. lia.
Qed.
Lemma control_reaches p : is_reachable input control p = true <-> p ∉ suppressed_peer_ids input /\ exists v es, node_weights (t_graph t) !! v = Some p /\ walk cg s es v.
Proof.
  unfold is_reachable. rewrite andb_true_iff, negb_true_iff, bool_decide_eq_false. apply and_iff_compat_l. split.
  - destruct (control !! p) as [r|] eqn:Er; [intros _|done]. pose proof (tb_nodes _ _ _ _ _ _ _ Ht p r Er) as [v Ev]%list_elem_of_lookup. pose proof (control_way v p Ev) as Kp. rewrite Er in Kp. destruct Kp as (es & We & _). by exists v, es.
  - intros (v & es & Ev & We). pose proof (control_way v p Ev) as Kp. destruct (control !! p) as [r|]; [|by destruct (Kp es)]. destruct Kp as (es2 & _ & -> & _). simpl. apply Z.leb_refl.
Qed.
End Baseline.

(** C20: The address maps of a rebuild lead to reachable owners.  From the synchronised records, the control table is built and
    the shared maps over it; in the snapshot of any policy table that is given these maps, a peer is held reachable exactly when
    it is not suppressed and a walk of the topology leads to it; an address leads to a reachable peer that announces it and that
    is at least as near as every other one, and an address that some reachable peer announces is never missing; an address
    behind a proxy prefix leads to an announcer of the longest prefix that covers it, to this node when it announces that prefix
    itself and to a nearest announcer otherwise, where prefixes within one that this node announces do not count for others. *)
Theorem shared_maps_correct {P : Petgraph} {PL : PetgraphLaws} {CC : RouteCostCalculator} {PM : PrefixMaps} {PML : PrefixMapLaws} {PC : PrefixMapCollect} {PCL : PrefixMapCollectLaws}
    decode allows parse my synced r hops :
  synced_ok my synced -> (forall p q d, calculate_delivery_bps p q = Some d -> is_u 64 d) ->
  let t := capture allows parse my synced in
  exists s input control, node_weights (t_graph t) !! s = Some my /\ with_measurements decode t true true = Ok input /\
    build_automatic_next_hops input Forwarding.ControlHop = Ok control /\
    (forall p, is_reachable input control p = true <-> p ∉ suppressed_peer_ids input /\ exists v es, node_weights (t_graph t) !! v = Some p /\ walk (control_graph input) s es v) /\
    maps_of parse my input control (into_snapshot (replace_policy r hops (build_shared_maps parse my input control))).
Proof.
  intros So Hd t. destruct (capture_spec allows parse my synced So) as (T & (s & Hs & Hmy) & _ & _ & _ & Hc). fold t in T, Hs, Hmy, Hc.
  destruct (with_measurements_spec decode Hd t T s Hs true) as (input & Hm & M).
  destruct (cost_tables decode t T s Hs true input M my ltac:(intros e (p & q & _ & _ & ? & _)%Hc; done) Forwarding.ControlHop ltac:(done)) as (control & Ec & Ht).
  exists s, input, control. split_and!; [done|done|done|by eapply control_reaches|]. apply snapshot_maps. by eapply control_nearest.
Qed.

(** finite maps collect *)
Definition map_collect : @PrefixMapCollect map_maps := Build_PrefixMapCollect map_maps (fun V V' (f : V -> V') (m : gmap Cidr V) => (f <$> m : gmap Cidr V')).
Lemma map_collect_laws : @PrefixMapCollectLaws map_maps map_collect.
Proof. split. intros V V' f m k. simpl. apply lookup_fmap. Qed.

(** peers 2 and 4 both announce an address and a prefix; peer 2 is nearer *)
Definition demo_owner (p4 : option Z) (prefixes : list (list Z)) : RoutePeerInfo := mk_peer 1 0 [] None [] p4 None None prefixes 0.
Definition demo_owners : SyncedRouteInfo :=
  mk_synced 1 {[1 := demo_owner None []; 2 := demo_owner (Some 10) ([8] :: nil); 3 := demo_owner None []; 4 := demo_owner (Some 10) ([8] :: [16] :: nil)]}
    {[1 := {[2; 3]}; 2 := {[3]}; 3 := {[4]}]} ∅.
Definition demo_prefix (text : list Z) : option IpCidr := match text with [n] => Some (CidrV4 (mk_cidr 0x0a010000 n)) | _ => None end.
Definition found (o : outcome Error RouteBuildInput) : list (option Z) :=
  match o with
  | Ok input =>
      match build_automatic_next_hops input Forwarding.ControlHop with
      | Ok control =>
          let sn := into_snapshot (PM := map_maps) (PC := map_collect) (replace_policy (PM := map_maps) (RouteTable.new (PM := map_maps)) ∅ (build_shared_maps (PM := map_maps) (PC := map_collect) demo_prefix 1 input control)) in
          [sn_ipv4 sn !! 10; get_peer_id_for_proxy sn (V4 0x0a020304); get_peer_id_for_proxy sn (V4 0x0a010304); get_peer_id_for_proxy sn (V4 0x0b010304)]
      | _ => []
      end
  | _ => []
  end.
#[local] Notation demo_topology := (capture (fun _ => None) demo_prefix 1 demo_owners).
#[local] Notation demo_snapshot input control :=
  (into_snapshot (PM := map_maps) (PC := map_collect) (replace_policy (PM := map_maps) (RouteTable.new (PM := map_maps)) ∅ (build_shared_maps (PM := map_maps) (PC := map_collect) demo_prefix 1 input control))).

Lemma shared_maps_correct_witness : exists input control,
  with_measurements (CC := demo_costs) (fun _ => None) demo_topology true true = Ok input /\ build_automatic_next_hops input Forwarding.ControlHop = Ok control /\
  maps_of (PM := map_maps) demo_prefix 1 input control (demo_snapshot input control) /\ found (Ok input) = [Some 2; Some 2; Some 4; None].
Proof.
  assert (So : synced_ok 1 demo_owners).
  { split; [by eexists|done|]. intros p info l K Hl. assert (relay_link_cost info = []) as E; [|rewrite E in Hl; set_solver].
    unfold demo_owners in K. simpl in K. repeat (apply lookup_insert_Some in K as [[_ <-]|[_ K]]; [done|]). by apply lookup_singleton_Some in K as [_ <-]. }
  destruct (shared_maps_correct (CC := demo_costs) (PM := map_maps) (PML := map_maps_laws) (PC := map_collect) (PCL := map_collect_laws) (fun _ => None) (fun _ => None) demo_prefix 1 demo_owners (RouteTable.new (PM := map_maps)) ∅ So)
    as (s & input & control & _ & Hm & Ec & _ & K).
  { intros p q d K. simpl in K. case_match; simplify_eq. unfold is_u. lia. }
  exists input, control. split; [exact Hm|]. split; [exact Ec|]. split; [exact K|]. rewrite <- Hm. vm_compute. reflexivity.
Defined.
End SharedMapsProps.
