(* ===== verification/RouteRebuild.v ===== *)
(** * Rebuilding and publishing routes

    The rebuild of the route tables in src/lowertier/src/peers/peer_ospf_route.rs: the domains of a request, the work
    budget, the tables of one topology, and the snapshot that is published from them.

    Other threads change the synchronised records, the measurements and the receiver of the publications meanwhile: each
    read of them sees one state of a given sequence, in order.  The peers of a snapshot, their bridge evidence and the
    memory accounting of the retained input are left out. *)
From stdpp Require Import base list gmap numbers sorting strings.
From Stdlib Require Import ZArith Lia.
From S2P Require Import Prelude NetAddr GraphAlgo Forwarding PeerGraph WidestPath RouteGraph RouteTable.

Local Open Scope Z_scope.

Module RouteRebuild.
Import PeerGraph Prefix RouteGraph RouteTable.

(** ** Domains *)
Record RouteRebuildDomains : Type := mk_domains { topology : bool; cost : bool; delivery : bool; bridge : bool; foreign : bool }.
Definition all_domains : RouteRebuildDomains := mk_domains true true true true true.
Definition cost_domain : RouteRebuildDomains := mk_domains false true false false false.
Definition delivery_domain : RouteRebuildDomains := mk_domains false false true false false.
Definition needs_route_input (d : RouteRebuildDomains) : bool := topology d || cost d || delivery d.
Definition needs_publication (d : RouteRebuildDomains) : bool := topology d || cost d || delivery d || bridge d || foreign d.
Definition bits (d : RouteRebuildDomains) : Z :=
  Z.lor (Z.b2z (topology d)) (Z.lor (Z.shiftl (Z.b2z (cost d)) 1) (Z.lor (Z.shiftl (Z.b2z (delivery d)) 2)
    (Z.lor (Z.shiftl (Z.b2z (bridge d)) 3) (Z.shiftl (Z.b2z (foreign d)) 4)))).
Definition from_bits (b : Z) : RouteRebuildDomains :=
  mk_domains (negb (Z.land b 1 =? 0)) (negb (Z.land b (Z.shiftl 1 1) =? 0)) (negb (Z.land b (Z.shiftl 1 2) =? 0))
    (negb (Z.land b (Z.shiftl 1 3) =? 0)) (negb (Z.land b (Z.shiftl 1 4) =? 0)).

(** requests wait as bits until the worker takes them all at once *)
Definition request_route_rebuild (pending : Z) (d : RouteRebuildDomains) : Z := if negb (needs_publication d) then pending else Z.lor pending (bits d).
Definition take_requests (pending : Z) : option RouteRebuildDomains * Z := (if pending =? 0 then None else Some (from_bits pending), 0).

(** ** The work budget *)
Definition usize_of_bool (b : bool) : Z := if b then 1 else 0.
Definition route_build_work_within_budget (input : RouteBuildInput) (d : RouteRebuildDomains) : bool :=
  let policy_count := if topology d then 3 else usize_of_bool (cost d) + usize_of_bool (delivery d) in
  default false (
    edge_scans ← checked_add 64 (Z.of_nat (edge_count (graph input))) (Z.of_nat (edge_count (speed_graph input)));
    node_scans ← checked_add 64 (Z.of_nat (node_count (graph input))) (Z.of_nat (node_count (speed_graph input)));
    policy_factor ← WidestPath.checked_mul 64 policy_count 2;
    node_factor ← WidestPath.checked_mul 64 policy_count 4;
    work ← WidestPath.checked_mul 64 edge_scans (Z.max policy_factor 1);
    nodes ← WidestPath.checked_mul 64 node_scans (Z.max node_factor 1);
    base_work ← checked_add 64 work nodes;
    speed_work ← (if topology d || delivery d then
        preparation ← speed_preparation input;
        Some (default (u_max 64) (work ← checked_add 64 (WidestPath.capacity_work preparation) (Z.of_nat (edge_count (speed_graph input)));
                                  checked_add 64 work (len (WidestPath.destinations preparation))))
      else Some 0);
    total ← checked_add 64 base_work speed_work;
    Some (total <=? WidestPath.MAX_ROUTE_REBUILD_WORK)).

(** ** The service *)
Record ForeignNetworkRouteInfoEntry : Type := mk_foreign { foreign_peer_ids : list Z; network_secret_digest : list Z; my_peer_id_for_this_network : Z }.
(** a network by its name and digest *)
Abbreviation NetworkIdentity := (list Z * list Z)%type.

(** what the other threads leave for one read *)
Record World : Type := mk_world {
  w_synced : SyncedRouteInfo;
  w_allows_relay : list Z -> option bool;
  w_foreign_network : gmap (Z * list Z) ForeignNetworkRouteInfoEntry;
  w_calculator : RouteCostCalculator;
  (** whether the publication of a generation is accepted *)
  w_accepts : Z -> bool;
}.

Record RouteRebuildWorkCounters : Type := mk_counters {
  topology_rebuilds : Z; least_hop_rebuilds : Z; least_cost_rebuilds : Z; max_goodput_rebuilds : Z; owner_map_rebuilds : Z; snapshot_publications : Z;
}.

Section Service.
Context {P : Petgraph} {PM : PrefixMaps} {PC : PrefixMapCollect}.
Context (decode : list Z -> option (list Z)) (parse_cidr : list Z -> option IpCidr) (my_peer_id : Z).
Context (world : nat -> World).

Record ForwardingSnapshot : Type := mk_forwarding {
  generation : Z;
  fs_control_hop : gmap Z NextHopInfo;
  fs_route_table : RouteTableSnapshot;
  fs_route_table_with_cost : RouteTableSnapshot;
  fs_route_table_with_speed : RouteTableSnapshot;
  fs_foreign_network_owner_map : gmap NetworkIdentity (list Z);
  fs_foreign_network_my_peer_id_map : gmap (list Z * Z) Z;
}.
Record Service : Type := mk_service {
  route_table : RouteTable.t;
  route_table_with_cost : RouteTable.t;
  route_table_with_speed : RouteTable.t;
  control_hop : gmap Z NextHopInfo;
  committed_topology : option TopologyBuildInput;
  forwarding_snapshot : ForwardingSnapshot;
  next_forwarding_generation : Z;
  foreign_network_owner_map : gmap NetworkIdentity (list Z);
  foreign_network_my_peer_id_map : gmap (list Z * Z) Z;
  interface_peers_generation : Z;
  route_rebuild_failures : Z;
  rebuild_work : RouteRebuildWorkCounters;
  (** the reads so far *)
  clock : nat;
}.

Definition set_tables (r rc rs : RouteTable.t) (s : Service) : Service :=
  mk_service r rc rs (control_hop s) (committed_topology s) (forwarding_snapshot s) (next_forwarding_generation s) (foreign_network_owner_map s)
    (foreign_network_my_peer_id_map s) (interface_peers_generation s) (route_rebuild_failures s) (rebuild_work s) (clock s).
Definition set_topology (c : gmap Z NextHopInfo) (t : option TopologyBuildInput) (s : Service) : Service :=
  mk_service (route_table s) (route_table_with_cost s) (route_table_with_speed s) c t (forwarding_snapshot s) (next_forwarding_generation s)
    (foreign_network_owner_map s) (foreign_network_my_peer_id_map s) (interface_peers_generation s) (route_rebuild_failures s) (rebuild_work s) (clock s).
Definition set_snapshot (f : ForwardingSnapshot) (g : Z) (s : Service) : Service :=
  mk_service (route_table s) (route_table_with_cost s) (route_table_with_speed s) (control_hop s) (committed_topology s) f g
    (foreign_network_owner_map s) (foreign_network_my_peer_id_map s) (interface_peers_generation s) (route_rebuild_failures s) (rebuild_work s) (clock s).
Definition set_owners (o : gmap NetworkIdentity (list Z)) (m : gmap (list Z * Z) Z) (s : Service) : Service :=
  mk_service (route_table s) (route_table_with_cost s) (route_table_with_speed s) (control_hop s) (committed_topology s) (forwarding_snapshot s)
    (next_forwarding_generation s) o m (interface_peers_generation s) (route_rebuild_failures s) (rebuild_work s) (clock s).
Definition set_failures (f : Z) (s : Service) : Service :=
  mk_service (route_table s) (route_table_with_cost s) (route_table_with_speed s) (control_hop s) (committed_topology s) (forwarding_snapshot s)
    (next_forwarding_generation s) (foreign_network_owner_map s) (foreign_network_my_peer_id_map s) (interface_peers_generation s) f (rebuild_work s) (clock s).
Definition set_work (w : RouteRebuildWorkCounters) (s : Service) : Service :=
  mk_service (route_table s) (route_table_with_cost s) (route_table_with_speed s) (control_hop s) (committed_topology s) (forwarding_snapshot s)
    (next_forwarding_generation s) (foreign_network_owner_map s) (foreign_network_my_peer_id_map s) (interface_peers_generation s) (route_rebuild_failures s) w (clock s).
Definition mark_interface_peers_dirty (s : Service) : Service :=
  mk_service (route_table s) (route_table_with_cost s) (route_table_with_speed s) (control_hop s) (committed_topology s) (forwarding_snapshot s)
    (next_forwarding_generation s) (foreign_network_owner_map s) (foreign_network_my_peer_id_map s) (wrap 64 (interface_peers_generation s + 1))
    (route_rebuild_failures s) (rebuild_work s) (clock s).
(** one read of what other threads change *)
Definition read (s : Service) : World * Service :=
  (world (clock s),
   mk_service (route_table s) (route_table_with_cost s) (route_table_with_speed s) (control_hop s) (committed_topology s) (forwarding_snapshot s)
    (next_forwarding_generation s) (foreign_network_owner_map s) (foreign_network_my_peer_id_map s) (interface_peers_generation s)
    (route_rebuild_failures s) (rebuild_work s) (S (clock s))).
Definition read_version (s : Service) : Z * Service := let '(w, s) := read s in (sy_version (w_synced w), s).

Definition count_up (t h c g o p : Z) (s : Service) : Service :=
  let w := rebuild_work s in
  set_work (mk_counters (wrap 64 (topology_rebuilds w + t)) (wrap 64 (least_hop_rebuilds w + h)) (wrap 64 (least_cost_rebuilds w + c))
    (wrap 64 (max_goodput_rebuilds w + g)) (wrap 64 (owner_map_rebuilds w + o)) (wrap 64 (snapshot_publications w + p))) s.
Definition empty_snapshot : ForwardingSnapshot :=
  mk_forwarding 0 ∅ (into_snapshot RouteTable.new) (into_snapshot RouteTable.new) (into_snapshot RouteTable.new) ∅ ∅.
Definition service_new : Service :=
  mk_service RouteTable.new RouteTable.new RouteTable.new ∅ None empty_snapshot 0 ∅ ∅ 1 0 (mk_counters 0 0 0 0 0 0) 0.

(** ** Rebuilding the tables *)
Definition fail_domains (d : RouteRebuildDomains) (s : Service) : Service := set_failures (Z.lor (route_rebuild_failures s) (bits d)) s.
Definition clear_failures (d : RouteRebuildDomains) (s : Service) : Service := set_failures (Z.land (route_rebuild_failures s) (Z.lxor (bits d) (u_max 8))) s.

Definition capture_topology (s : Service) : TopologyBuildInput * Service :=
  let '(w, s) := read s in (capture (w_allows_relay w) parse_cidr my_peer_id (w_synced w), s).
(** a stale topology cannot be used for a new cost: all domains are rebuilt then *)
Definition choose_topology (d : RouteRebuildDomains) (s : Service) : TopologyBuildInput * RouteRebuildDomains * Service :=
  if topology d then let '(t, s) := capture_topology s in (t, d, s)
  else
    let '(current_version, s) := read_version s in
    match committed_topology s with
    | Some t =>
        if t_version t =? current_version then (t, d, s)
        else let '(t, s) := capture_topology s in (t, all_domains, s)
    | None => let '(t, s) := capture_topology s in (t, all_domains, s)
    end.

(** a policy that exceeds its work is dropped *)
Definition within_budgets (input : RouteBuildInput) (d : RouteRebuildDomains) (s : Service) : RouteRebuildDomains * Service :=
  let '(d, s) :=
    if cost d && negb (route_build_work_within_budget input cost_domain) then
      (mk_domains (topology d) false (delivery d) (bridge d) (foreign d), fail_domains cost_domain s)
    else (d, s) in
  if delivery d && negb (route_build_work_within_budget input delivery_domain) then
    (mk_domains (topology d) (cost d) false (bridge d) (foreign d), fail_domains delivery_domain s)
  else (d, s).

(** the result of a policy, or [None] for the work error *)
Definition policy_table (input : RouteBuildInput) (policy : Forwarding.NextHopPolicy) : outcome Error (option (gmap Z NextHopInfo)) :=
  match build_automatic_next_hops input policy with
  | Ok routes => Ok (Some routes)
  | Err WidestPath.WidestPathWorkError => Ok None
  | Err e => Err e
  | Panic => Panic
  end.

Definition rebuild_topology (t : TopologyBuildInput) (input : RouteBuildInput) (s : Service) : outcome Error (bool * Service) :=
  baseline_next_hops ← policy_table input Forwarding.LeastHop;
  match baseline_next_hops with
  | None => Ok (false, fail_domains all_domains s)
  | Some baseline_next_hops =>
  control_next_hops ← policy_table input Forwarding.ControlHop;
  control_next_hops ← unwrap control_next_hops;
  cost_next_hops ← policy_table input Forwarding.LeastCost;
  match cost_next_hops with
  | None => Ok (false, fail_domains all_domains s)
  | Some cost_next_hops =>
  speed_next_hops ← policy_table input Forwarding.MaxGoodput;
  match speed_next_hops with
  | None => Ok (false, fail_domains all_domains s)
  | Some speed_next_hops =>
      let shared := build_shared_maps parse_cidr my_peer_id input control_next_hops in
      let s := set_topology control_next_hops (Some t) s in
      Ok (true, count_up 0 1 1 1 0 0 (set_tables (replace_policy (route_table s) baseline_next_hops shared)
        (replace_policy (route_table_with_cost s) cost_next_hops shared) (replace_policy (route_table_with_speed s) speed_next_hops shared) s))
  end end end.

Definition rebuild_policies (input : RouteBuildInput) (d : RouteRebuildDomains) (s : Service) : outcome Error (RouteRebuildDomains * Service) :=
  cost_next_hops ← (if cost d then policy_table input Forwarding.LeastCost else Ok None);
  let '(d, s) := if cost d && negb (bool_decide (is_Some cost_next_hops)) then
      (mk_domains (topology d) false (delivery d) (bridge d) (foreign d), fail_domains cost_domain s) else (d, s) in
  speed_next_hops ← (if delivery d then policy_table input Forwarding.MaxGoodput else Ok None);
  let '(d, s) := if delivery d && negb (bool_decide (is_Some speed_next_hops)) then
      (mk_domains (topology d) (cost d) false (bridge d) (foreign d), fail_domains delivery_domain s) else (d, s) in
  s ← (if cost d then
         next_hops ← unwrap cost_next_hops;
         Ok (count_up 0 0 1 0 0 0 (set_tables (route_table s) (replace_next_hops (route_table_with_cost s) next_hops (version input)) (route_table_with_speed s) s))
       else Ok s);
  s ← (if delivery d then
         next_hops ← unwrap speed_next_hops;
         Ok (count_up 0 0 0 1 0 0 (set_tables (route_table s) (route_table_with_cost s) (replace_next_hops (route_table_with_speed s) next_hops (version input)) s))
       else Ok s);
  Ok (d, s).

(** the tables from an input, unless the topology changes meanwhile *)
Definition rebuild_current (t : TopologyBuildInput) (input : RouteBuildInput) (d : RouteRebuildDomains) (s : Service)
    : outcome Error (option (RouteRebuildDomains * RouteBuildInput) * Service) :=
  let '(current_version, s) := read_version s in
  if negb (current_version =? t_version t) then Ok (None, s)
  else
    '(built, d, s) ← (if topology d then '(built, s) ← rebuild_topology t input s; Ok (built, d, s)
                      else '(d, s) ← rebuild_policies input d s; Ok (true, d, s));
    if negb built then Ok (None, s)
    else
      let '(current_version, s) := read_version s in
      if negb (current_version =? t_version t) then Ok (None, s) else Ok (Some (d, input), s).

Definition update_route_tables_for_domains (d : RouteRebuildDomains) (s : Service) : outcome Error (option (RouteRebuildDomains * RouteBuildInput) * Service) :=
  if negb (needs_route_input d) then Ok (None, s)
  else
    let '(t, d, s) := choose_topology d s in
    let s := if topology d then count_up 1 0 0 0 0 0 s else s in
    let '(w, s) := read s in
    let capture_cost := topology d || cost d || delivery d in
    let capture_delivery := topology d || delivery d in
    input ← with_measurements (CC := w_calculator w) decode t capture_cost capture_delivery;
    let s := clear_failures d s in
    if topology d && negb (route_build_work_within_budget input d) then Ok (None, fail_domains all_domains s)
    else
      let '(d, s) := if topology d then (d, s) else within_budgets input d s in
      if negb (needs_route_input d) then Ok (None, s)
      else
        rebuild_current t input d s.

(** ** Owners of foreign networks *)
Definition zero_digest : list Z := replicate 32 0.
Definition digest_of (d : list Z) : list Z := if len d =? 32 then d else zero_digest.
Definition add_foreign_network (r : RouteTable.t) (m : gmap NetworkIdentity (list Z) * gmap (list Z * Z) Z) (x : (Z * list Z) * ForeignNetworkRouteInfoEntry)
    : gmap NetworkIdentity (list Z) * gmap (list Z * Z) Z :=
  let '((peer_id, network_name), entry) := x in
  if (peer_id =? my_peer_id) || negb (peer_reachable r peer_id) || (len (foreign_peer_ids entry) =? 0) then m
  else
    let network_identity := (network_name, digest_of (network_secret_digest entry)) in
    let owner := my_peer_id_for_this_network entry in
    (<[network_identity := default [] (m.1 !! network_identity) ++ [owner]]> m.1, <[(network_name, owner) := peer_id]> m.2).
Definition update_foreign_network_owner_map (s : Service) : Service :=
  let '(w, s) := read s in
  let '(owners, mine) := foldl (add_foreign_network (route_table s)) (∅, ∅) (map_to_list (w_foreign_network w)) in
  set_owners owners mine s.

(** ** Publishing *)
Inductive Publication : Type := Published | Rejected.
Definition next_snapshot (d : RouteRebuildDomains) (s : Service) (gen : Z) : ForwardingSnapshot :=
  let previous := forwarding_snapshot s in
  mk_forwarding gen (control_hop s)
    (if topology d then into_snapshot (route_table s) else fs_route_table previous)
    (if topology d || cost d then into_snapshot (route_table_with_cost s) else fs_route_table_with_cost previous)
    (if topology d || delivery d then into_snapshot (route_table_with_speed s) else fs_route_table_with_speed previous)
    (if topology d || foreign d then foreign_network_owner_map s else fs_foreign_network_owner_map previous)
    (if topology d || foreign d then foreign_network_my_peer_id_map s else fs_foreign_network_my_peer_id_map previous).
Definition allocate_forwarding_generation (s : Service) : option Z := checked_add 64 (next_forwarding_generation s) 1.
Definition publish_forwarding_snapshot_for_domains (d : RouteRebuildDomains) (s : Service) : Publication * Service :=
  if negb (needs_publication d) then (Published, s)
  else
    match allocate_forwarding_generation s with
    | None => (Rejected, s)
    | Some gen =>
        let next := next_snapshot d s gen in
        let '(w, s) := read s in
        if w_accepts w gen then (Published, count_up 0 0 0 0 0 1 (set_snapshot next gen s))
        else (Rejected, set_snapshot (forwarding_snapshot s) gen s)
    end.
Definition publish_conservative_forwarding_snapshot (s : Service) : Publication * Service :=
  let '(v, s) := read_version s in
  let s := set_tables (clear_for_version (route_table s) v) (clear_for_version (route_table_with_cost s) v) (clear_for_version (route_table_with_speed s) v) s in
  let s := set_owners ∅ ∅ (set_topology (control_hop s) None s) in
  publish_forwarding_snapshot_for_domains all_domains s.

(** the maps that packets are routed by, over the same tables *)
Definition decision_snapshot (capabilities : Forwarding.ForwardingPeerTable) (f : ForwardingSnapshot) : Forwarding.ForwardingDecisionSnapshot :=
  Forwarding.mk_decision (generation f) capabilities (sn_suppressed_peer_ids (fs_route_table f)) (next_hop_peer_id <$> sn_next_hop_map (fs_route_table f))
    (next_hop_peer_id <$> fs_control_hop f) (next_hop_peer_id <$> sn_next_hop_map (fs_route_table_with_cost f)) (next_hop_peer_id <$> sn_next_hop_map (fs_route_table_with_speed f))
    (sn_ipv4 (fs_route_table f)) (sn_ipv6 (fs_route_table f)) (sn_service_routes (fs_route_table f)).
Definition or_route (a b : option NextHopInfo) : option NextHopInfo := match a with Some _ => a | None => b end.
Definition get_next_hop_with_policy_from_snapshot (f : ForwardingSnapshot) (dst : Z) (policy : Forwarding.NextHopPolicy) : option NextHopInfo :=
  match policy with
  | Forwarding.ControlHop => fs_control_hop f !! dst
  | Forwarding.MaxGoodput => or_route (or_route (sn_get_next_hop (fs_route_table_with_speed f) dst) (sn_get_next_hop (fs_route_table_with_cost f) dst)) (sn_get_next_hop (fs_route_table f) dst)
  | Forwarding.LeastCost => or_route (sn_get_next_hop (fs_route_table_with_cost f) dst) (sn_get_next_hop (fs_route_table f) dst)
  | Forwarding.LeastHop => sn_get_next_hop (fs_route_table f) dst
  end.

(** ** One request *)
(** what is published after the tables, [None] when nothing is *)
Definition finish_rebuild (d : RouteRebuildDomains) (input : RouteBuildInput) (s : Service) : outcome Error (option Publication * Service) :=
  let s := if topology d || foreign d then count_up 0 0 0 0 1 0 (update_foreign_network_owner_map s) else s in
  let '(v, s) := read_version s in
  if negb (v =? version input) then Ok (None, mark_interface_peers_dirty s)
  else let '(p, s) := publish_forwarding_snapshot_for_domains d s in Ok (Some p, s).
Definition conservative (s : Service) : outcome Error (option Publication * Service) :=
  let '(p, s) := publish_conservative_forwarding_snapshot s in Ok (Some p, s).
(** a topology that changed meanwhile is rebuilt once more *)
Definition confirm_rebuild (d : RouteRebuildDomains) (input : RouteBuildInput) (s : Service) : outcome Error (option Publication * Service) :=
  let '(v, s) := read_version s in
  if negb (v =? version input) then
    '(r, s) ← update_route_tables_for_domains all_domains s;
    match r with
    | Some (d, input) => finish_rebuild d input s
    | None => conservative (set_failures 0 s)
    end
  else finish_rebuild d input s.
Definition rebuild_domains_locked (d : RouteRebuildDomains) (s : Service) : outcome Error (option Publication * Service) :=
  '(r, s) ← update_route_tables_for_domains d s;
  let failures := route_rebuild_failures s in
  let s := set_failures 0 s in
  match r with
  | Some (d, input) => confirm_rebuild d input s
  | None =>
      if negb (Z.land failures (bits all_domains) =? 0) then conservative s
      else
        let '(v, s) := read_version s in
        if match committed_topology s with Some t => t_version t =? v | None => false end then
          let s := if foreign d then count_up 0 0 0 0 1 0 (update_foreign_network_owner_map s) else s in
          let '(p, s) := publish_forwarding_snapshot_for_domains d s in Ok (Some p, s)
        else
          '(r, s) ← update_route_tables_for_domains all_domains s;
          match r with
          | Some (d, input) => confirm_rebuild d input s
          | None => conservative (set_failures 0 s)
          end
  end.
Definition rebuild_domains (d : RouteRebuildDomains) (s : Service) : outcome Error (option Publication * Service) :=
  if negb (needs_publication d) then Ok (None, s) else rebuild_domains_locked d s.

(** requests in turn, until one panics *)
Fixpoint rebuilds (l : list RouteRebuildDomains) (s : Service) : outcome Error (list (option Publication) * Service) :=
  match l with
  | [] => Ok ([], s)
  | d :: l => '(p, s) ← rebuild_domains d s; '(ps, s) ← rebuilds l s; Ok (p :: ps, s)
  end.
End Service.
End RouteRebuild.
