(* ===== verification/RouteRebuildProps.v ===== *)
(** * Properties of rebuilding and publishing

    Whatever the other threads do meanwhile, the tables are those of one topology at all times, and so is every
    snapshot that is published from them while publications are accepted (RouteRebuild). *)
From stdpp Require Import base list gmap numbers sorting strings.
From Stdlib Require Import ZArith Lia.
From S2P Require Import Prelude NetAddr GraphAlgo Forwarding PeerGraph WidestPath WidestRoutes RouteGraph RouteGraphProps RouteTable RouteTableProps SharedMapsProps RouteRebuild.

Local Open Scope Z_scope.

Module RouteRebuildProps.
Import PeerGraph Prefix RouteGraph RouteGraphProps RouteTable RouteTableProps SharedMapsProps RouteRebuild.

(** ** Domains *)
Lemma from_bits_bits d : from_bits (bits d) = d.
Proof. by destruct d as [[] [] [] [] []]. Qed.
(** requests that wait are joined *)
Definition join (a b : RouteRebuildDomains) : RouteRebuildDomains :=
  mk_domains (topology a || topology b) (cost a || cost b) (delivery a || delivery b) (bridge a || bridge b) (foreign a || foreign b).
Lemma bits_join a b : Z.lor (bits a) (bits b) = bits (join a b).
Proof. by destruct a as [[] [] [] [] []], b as [[] [] [] [] []]. Qed.
Definition no_domains : RouteRebuildDomains := mk_domains false false false false false.
(** no request that waits is lost *)
Lemma requests_joined ds : take_requests (foldl request_route_rebuild 0 ds) = (let d := foldl join no_domains ds in if needs_publication d then Some d else None, 0).
Proof.
  change 0 with (bits no_domains) at 1. generalize no_domains as d0. induction ds as [|d ds IH]; intros d0; simpl.
  - unfold take_requests. by destruct d0 as [[] [] [] [] []].
  - replace (request_route_rebuild (bits d0) d) with (bits (join d0 d)); [apply IH|]. unfold request_route_rebuild. rewrite bits_join. destruct d0 as [[] [] [] [] []], d as [[] [] [] [] []]; done.
Qed.
Lemma failed_bits f d : needs_publication d = true -> Z.land (Z.lor f (bits d)) (bits all_domains) <> 0.
Proof.
  intros Hd K. rewrite Z.land_lor_distr_l in K. apply Z.lor_eq_0_iff in K as [_ K]. by destruct d as [[] [] [] [] []].
Qed.

Section Rebuild.
Context {P : Petgraph} {PL : PetgraphLaws} {PM : PrefixMaps} {PML : PrefixMapLaws} {PC : PrefixMapCollect} {PCL : PrefixMapCollectLaws}.
Context (decode : list Z -> option (list Z)) (parse_cidr : list Z -> option IpCidr) (my : Z) (world : nat -> World).

#[local] Notation calc n := (w_calculator (world n)).
Definition version_at (n : nat) : Z := sy_version (w_synced (world n)).
(** the environment: this node is always known, measurements fit their type, and the version of the records never decreases *)
Record world_ok : Prop := {
  wo_synced : forall n, synced_ok my (w_synced (world n));
  wo_delivery : forall n p q d, calculate_delivery_bps (RouteCostCalculator := calc n) p q = Some d -> is_u 64 d;
  wo_version : forall m n, (m <= n)%nat -> version_at m <= version_at n;
}.
Context (Wo : world_ok).

Definition topology_at (n : nat) : TopologyBuildInput := capture (w_allows_relay (world n)) parse_cidr my (w_synced (world n)).
Lemma topology_version n : t_version (topology_at n) = version_at n.
Proof. unfold topology_at, capture. repeat case_match; done. Qed.

(** ** Tables of one topology *)
(** the table of a policy for the measurements of some time *)
Definition policy_of (t : TopologyBuildInput) (policy : Forwarding.NextHopPolicy) (hops : gmap Z NextHopInfo) : Prop :=
  exists n cd s input, node_weights (t_graph t) !! s = Some my /\ with_measurements (CC := calc n) decode t true cd = Ok input /\ version input = t_version t /\
    table_of (CC := calc n) decode t s input my policy hops.

Lemma policy_table_spec n m cd policy input : with_measurements (CC := calc m) decode (topology_at n) true cd = Ok input -> (policy = Forwarding.MaxGoodput -> cd = true) ->
  exists o, policy_table input policy = Ok o /\ match o with Some hops => policy_of (topology_at n) policy hops | None => policy = Forwarding.MaxGoodput end.
Proof.
  intros Em Hcd. destruct (capture_spec (w_allows_relay (world n)) parse_cidr my (w_synced (world n)) (wo_synced Wo n)) as (T & (s & Hs & Hmy) & _ & _ & _ & Hc). fold (topology_at n) in *.
  assert (Hz : forall e, e ∈ edge_references (t_graph (topology_at n)) -> weight e = 0) by (intros e (p & q & _ & _ & ? & _)%Hc; done).
  destruct (with_measurements_spec (CC := calc m) decode (wo_delivery Wo m) (topology_at n) T s Hs cd) as (input' & Em' & M). rewrite Em in Em'. injection Em' as <-.
  pose proof (me_version _ _ _ _ _ M) as Ev. unfold policy_table. assert (policy = Forwarding.MaxGoodput \/ policy <> Forwarding.MaxGoodput) as [->|Hp] by (destruct policy; auto).
  - specialize (Hcd eq_refl) as ->. pose proof (goodput_tables (CC := calc m) decode (wo_delivery Wo m) (topology_at n) T s Hs true input M my Hmy eq_refl) as K.
    destruct (build_automatic_next_hops _ _) as [hops|e|]; [|destruct K as [-> _]; by exists None|done]. exists (Some hops). split; [done|]. by exists m, true, s, input.
  - destruct (cost_tables (CC := calc m) decode (topology_at n) T s Hs cd input M my Hz policy Hp) as (hops & -> & K). exists (Some hops). split; [done|]. by exists m, cd, s, input.
Qed.
Lemma measurable n m cd : exists input, with_measurements (CC := calc m) decode (topology_at n) true cd = Ok input /\ version input = version_at n.
Proof.
  destruct (capture_spec (w_allows_relay (world n)) parse_cidr my (w_synced (world n)) (wo_synced Wo n)) as (T & (s & Hs & _) & _). fold (topology_at n) in *.
  destruct (with_measurements_spec (CC := calc m) decode (wo_delivery Wo m) (topology_at n) T s Hs cd) as (input & Em & M). exists input. split; [done|]. by rewrite (me_version _ _ _ _ _ M), topology_version.
Qed.

(** the maps that the tables share come from the control table *)
Definition shared_of (t : TopologyBuildInput) (control : gmap Z NextHopInfo) (shared : SharedRouteMaps) : Prop :=
  exists n input, with_measurements (CC := calc n) decode t true true = Ok input /\ version input = t_version t /\ shared = build_shared_maps parse_cidr my input control.
(** a table with shared maps, and its snapshot *)
Definition table_is (shared : SharedRouteMaps) (hops : gmap Z NextHopInfo) (r : RouteTable.t) : Prop :=
  next_hop_map r = hops /\ shared_maps r = Some shared /\ next_hop_map_version r = s_version shared.
Definition snapshot_of (shared : SharedRouteMaps) (hops : gmap Z NextHopInfo) : RouteTableSnapshot := into_snapshot (replace_policy RouteTable.new hops shared).
Lemma table_snapshot shared hops r : table_is shared hops r -> into_snapshot r = snapshot_of shared hops.
Proof. intros (<- & E & Ev). unfold snapshot_of, into_snapshot. rewrite E, Ev. done. Qed.

(** the control table, the shared maps and the tables of one topology *)
Record tables (t : TopologyBuildInput) (control : gmap Z NextHopInfo) (shared : SharedRouteMaps) (h hc hs : gmap Z NextHopInfo) : Prop := {
  ts_control : policy_of t Forwarding.ControlHop control;
  ts_shared : shared_of t control shared;
  ts_hop : policy_of t Forwarding.LeastHop h;
  ts_cost : policy_of t Forwarding.LeastCost hc;
  ts_speed : policy_of t Forwarding.MaxGoodput hs;
}.
Definition live (t : TopologyBuildInput) (shared : SharedRouteMaps) (s : Service) : Prop := exists h hc hs, tables t (control_hop s) shared h hc hs /\
  table_is shared h (route_table s) /\ table_is shared hc (route_table_with_cost s) /\ table_is shared hs (route_table_with_speed s).
Definition coherent (t : TopologyBuildInput) (shared : SharedRouteMaps) (f : ForwardingSnapshot) : Prop := exists h hc hs, tables t (fs_control_hop f) shared h hc hs /\
  fs_route_table f = snapshot_of shared h /\ fs_route_table_with_cost f = snapshot_of shared hc /\ fs_route_table_with_speed f = snapshot_of shared hs.
(** no data is routed *)
Definition cleared (f : ForwardingSnapshot) : Prop :=
  sn_next_hop_map (fs_route_table f) = ∅ /\ sn_next_hop_map (fs_route_table_with_cost f) = ∅ /\ sn_next_hop_map (fs_route_table_with_speed f) = ∅.

Definition stale (t : TopologyBuildInput) (s : Service) : Prop := t_version t < version_at (clock s).
(** the tables are always those of the committed topology, which was captured before *)
Definition base (s : Service) : Prop := forall t, committed_topology s = Some t -> (exists n, (n < clock s)%nat /\ t = topology_at n) /\ exists shared, live t shared s.
(** the published snapshot has the maps and the control table of the tables *)
Definition in_step (t : TopologyBuildInput) (s : Service) : Prop :=
  exists shared, live t shared s /\ coherent t shared (forwarding_snapshot s) /\ fs_control_hop (forwarding_snapshot s) = control_hop s.
(** the published snapshot is empty or of one topology, and in step unless that has changed since *)
Definition shown (s : Service) : Prop := cleared (forwarding_snapshot s) \/ exists n shared, (n < clock s)%nat /\ coherent (topology_at n) shared (forwarding_snapshot s).
Definition link (s : Service) : Prop := shown s /\
  forall t, committed_topology s = Some t -> in_step t s \/ stale t s.
(** nothing but the failures and the counters changed, and time passed *)
Record same (s s' : Service) : Prop := {
  sa_control : control_hop s' = control_hop s;
  sa_table : route_table s' = route_table s;
  sa_cost : route_table_with_cost s' = route_table_with_cost s;
  sa_speed : route_table_with_speed s' = route_table_with_speed s;
  sa_topology : committed_topology s' = committed_topology s;
  sa_snapshot : forwarding_snapshot s' = forwarding_snapshot s;
  sa_clock : (clock s <= clock s')%nat;
}.
Lemma same_refl s : same s s.
Proof. by split. Qed.
Lemma same_trans s1 s2 s3 : same s1 s2 -> same s2 s3 -> same s1 s3.
Proof. intros [] []. split; try congruence. lia. Qed.
Lemma stale_later t s s' : stale t s -> (clock s <= clock s')%nat -> stale t s'.
Proof. unfold stale. intros ? Hc. pose proof (wo_version Wo _ _ Hc). lia. Qed.
Lemma same_base s s' : same s s' -> base s -> base s'.
Proof.
  intros [E1 E2 E3 E4 E5 _ Hc] B t. rewrite E5. intros [(n & ? & ?) [shared L]]%B. split; [exists n; split; [lia|done]|]. exists shared. unfold live. by rewrite E1, E2, E3, E4.
Qed.
Lemma same_in_step t s s' : same s s' -> in_step t s -> in_step t s'.
Proof. intros [E1 E2 E3 E4 E5 E6 Hc] (shared & K). exists shared. unfold live. by rewrite E1, E2, E3, E4, E6. Qed.
Lemma shown_later s s' : shown s -> forwarding_snapshot s' = forwarding_snapshot s -> (clock s <= clock s')%nat -> shown s'.
Proof. intros [?|(n & shared & ? & ?)] E Hc; unfold shown; rewrite E; [by left|right]. exists n, shared. split; [lia|done]. Qed.
Lemma same_link s s' : same s s' -> link s -> link s'.
Proof.
  intros Sa [L1 L2]. pose proof (sa_clock _ _ Sa). split.
  - by apply (shown_later s); [|apply Sa|].
  - intros t. rewrite (sa_topology _ _ Sa). intros [?|?]%L2; [left; by eapply same_in_step|right; by eapply stale_later].
Qed.

(** ** One rebuild of the tables *)
Lemma same_read s : same s (read world s).2.
Proof. split; simpl; try done. lia. Qed.
Lemma same_count t h c g o p s : same s (count_up t h c g o p s).
Proof. by split. Qed.
Lemma same_failures f s : same s (set_failures f s).
Proof. by split. Qed.

Lemma choose_topology_spec d s : base s -> let '(t, d', s') := choose_topology parse_cidr my world d s in
  same s s' /\ route_rebuild_failures s' = route_rebuild_failures s /\ needs_route_input d' || negb (needs_route_input d) = true /\
  ((exists n, (clock s <= n < clock s')%nat /\ t = topology_at n) /\ topology d' = true \/ d' = d /\ topology d = false /\ committed_topology s = Some t /\ t_version t = version_at (clock s)).
Proof.
  intros B. unfold choose_topology, capture_topology, read_version, read. destruct (topology d) eqn:Et; simpl.
  - split_and!; [split; simpl; try done; lia|done|by destruct (needs_route_input d)|]. left. split; [|done]. exists (clock s). split; [lia|done].
  - destruct (committed_topology s) as [t|] eqn:Ec; simpl.
    + destruct (Z.eqb_spec (t_version t) (sy_version (w_synced (world (clock s))))) as [Ev|]; simpl.
      * split_and!; [split; simpl; try done; lia|done|by destruct (needs_route_input d)|]. right. by split_and!.
      * split_and!; [split; simpl; try done; lia|done|done|]. left. split; [|done]. exists (S (clock s)). split; [lia|done].
    + split_and!; [split; simpl; try done; lia|done|done|]. left. split; [|done]. exists (S (clock s)). split; [lia|done].
Qed.
Lemma budgets_spec input d s : let '(d', s') := within_budgets input d s in
  same s s' /\ clock s' = clock s /\ topology d' = topology d /\ (delivery d' = true -> delivery d = true) /\
  (needs_route_input d = true -> topology d = false -> needs_route_input d' = false -> Z.land (route_rebuild_failures s') (bits all_domains) <> 0).
Proof.
  unfold within_budgets, fail_domains. destruct d as [tp [] [] br fo]; simpl; repeat (destruct (route_build_work_within_budget input _); simpl);
    (split_and!; [by split|done|done|done|]); unfold needs_route_input; simpl; try (intros; destruct tp; done); intros _ _ _; apply failed_bits; done.
Qed.

Lemma topology_spec n m input s : with_measurements (CC := calc m) decode (topology_at n) true true = Ok input -> version input = version_at n ->
  exists b s', rebuild_topology parse_cidr my (topology_at n) input s = Ok (b, s') /\ forwarding_snapshot s' = forwarding_snapshot s /\ clock s' = clock s /\
    if b then committed_topology s' = Some (topology_at n) /\ exists shared, live (topology_at n) shared s' else same s s' /\ Z.land (route_rebuild_failures s') (bits all_domains) <> 0.
Proof.
  intros Em Ev. pose proof (fun policy => policy_table_spec n m true policy input Em (fun _ => eq_refl)) as Kp. unfold rebuild_topology.
  destruct (Kp Forwarding.LeastHop) as ([h|] & -> & Kh); [|done]. cbn [mbind outcome_bind]. destruct (Kp Forwarding.ControlHop) as ([c|] & -> & Kc); [|done]. cbn [mbind outcome_bind unwrap].
  destruct (Kp Forwarding.LeastCost) as ([hc|] & -> & Khc); [|done]. cbn [mbind outcome_bind]. destruct (Kp Forwarding.MaxGoodput) as ([hs|] & -> & Khs); cbn [mbind outcome_bind]; (eexists _, _; split; [done|]).
  - simpl. split_and!; [done|done|done|]. eexists _, h, hc, hs. split; [|by split_and!]. split; try done. exists m, input. split_and!; [done|by rewrite topology_version|done].
  - simpl. split_and!; [done|done|by split|]. by apply failed_bits.
Qed.
(** a new table of one policy for the same topology *)
Lemma replaced shared hops r hops' v : table_is shared hops r -> v = s_version shared -> table_is shared hops' (replace_next_hops r hops' v).
Proof. intros (_ & ? & _) ->. by split_and!. Qed.
Lemma shared_version t control shared : shared_of t control shared -> s_version shared = t_version t.
Proof. intros (n & input & _ & <- & ->). done. Qed.

Lemma policies_spec n m cd input d s : with_measurements (CC := calc m) decode (topology_at n) true cd = Ok input -> version input = version_at n -> (delivery d = true -> cd = true) ->
  exists d' s', rebuild_policies input d s = Ok (d', s') /\ topology d' = topology d /\ committed_topology s' = committed_topology s /\
    forwarding_snapshot s' = forwarding_snapshot s /\ clock s' = clock s /\ control_hop s' = control_hop s /\ forall shared, live (topology_at n) shared s -> live (topology_at n) shared s'.
Proof.
  intros Em Ev Hcd.
  assert (Kc : exists o, (if cost d then policy_table input Forwarding.LeastCost else Ok None) = Ok o /\ (cost d = true -> exists x, o = Some x /\ policy_of (topology_at n) Forwarding.LeastCost x)).
  { destruct (cost d); [|by exists None]. destruct (policy_table_spec n m cd Forwarding.LeastCost input Em ltac:(done)) as ([x|] & -> & ?); [|done]. exists (Some x). split; [done|]. by exists x. }
  assert (Ks : exists o, (if delivery d then policy_table input Forwarding.MaxGoodput else Ok None) = Ok o /\ forall x, o = Some x -> policy_of (topology_at n) Forwarding.MaxGoodput x).
  { destruct (delivery d); [|by exists None]. destruct (policy_table_spec n m cd Forwarding.MaxGoodput input Em ltac:(intros _; by apply Hcd)) as (o & -> & ?). exists o. split; [done|]. intros x ->. done. }
  destruct Kc as (oc & Ec & Kc), Ks as (os & Eo & Ks). unfold rebuild_policies. rewrite Ec. cbn [mbind outcome_bind].
  destruct d as [tp co de br fo]. cbn [cost delivery topology bridge foreign] in *.
  assert (co && negb (bool_decide (is_Some oc)) = false) as -> by (destruct co; [destruct (Kc eq_refl) as (x & -> & _); by rewrite bool_decide_true by eauto|done]).
  cbn [cost delivery topology bridge foreign]. rewrite Eo. cbn [mbind outcome_bind].
  destruct co; [destruct (Kc eq_refl) as (x & -> & Kx)|]; (destruct de, os as [y|]; [rewrite bool_decide_true by eauto|rewrite bool_decide_false by (by intros [])|..]);
    cbn [andb negb cost delivery topology mbind outcome_bind unwrap]; (eexists _, _; split; [done|]); (split_and!; [done..|]).
  all: intros shared (h & hc & hs & [K1 K2 K3 K4 K5] & T1 & T2 & T3); assert (Es : version input = s_version shared) by (by rewrite (shared_version _ _ _ K2), topology_version).
  all: eexists h, _, _; (split; [split; [done|done|done|first [exact Kx|exact K4]|first [exact (Ks y eq_refl)|exact K5]]|]); (split_and!; [done|..]); first [done|by eapply replaced].
Qed.

(** how the tables are updated: to one topology, or not at all *)
Record updated (d : RouteRebuildDomains) (s : Service) (r : option (RouteRebuildDomains * RouteBuildInput)) (s' : Service) : Prop := {
  up_base : base s';
  up_snapshot : forwarding_snapshot s' = forwarding_snapshot s;
  up_clock : (clock s <= clock s')%nat;
  up_some : forall d' input, r = Some (d', input) -> exists t, committed_topology s' = Some t /\ version input = t_version t /\
    (topology d' = true \/ (link s -> in_step t s'));
  up_link : r = None -> link s -> link s';
  up_none : r = None -> Z.land (route_rebuild_failures s') (bits all_domains) <> 0 \/ needs_route_input d = false /\ s' = s \/ forall t, committed_topology s' = Some t -> stale t s';
}.
(** nothing was rebuilt *)
Lemma updated_none d s s' : base s -> same s s' ->
  Z.land (route_rebuild_failures s') (bits all_domains) <> 0 \/ needs_route_input d = false /\ s' = s \/ (forall t, committed_topology s' = Some t -> stale t s') -> updated d s None s'.
Proof.
  intros B Sa K. split; [by eapply same_base|apply Sa|apply Sa|done|intros _; by apply same_link|done].
Qed.
(** a version that was read later and differs is greater *)
Lemma later_version m n : (m <= n)%nat -> version_at n <> version_at m -> version_at m < version_at n.
Proof. intros Hn. pose proof (wo_version Wo _ _ Hn). lia. Qed.
(** the topology in use was captured from a known version *)
Lemma committed_before s t : base s -> committed_topology s = Some t -> exists n, (n < clock s)%nat /\ t = topology_at n /\ t_version t = version_at n.
Proof. intros B Et. destruct (B t Et) as ((n & ? & ->) & _). exists n. by rewrite topology_version. Qed.
Lemma older_stale s n t k : base s -> committed_topology s = Some t -> (clock s <= n < k)%nat -> version_at k <> version_at n -> t_version t < version_at k.
Proof.
  intros B Et Hn Hv. destruct (committed_before s t B Et) as (n0 & ? & _ & ->). pose proof (wo_version Wo n0 n ltac:(lia)). pose proof (later_version n k ltac:(lia) Hv). lia.
Qed.
Lemma base_of n s : committed_topology s = Some (topology_at n) -> (n < clock s)%nat -> (exists shared, live (topology_at n) shared s) -> base s.
Proof. intros Ec Hn L t. rewrite Ec. intros [= <-]. split; [by exists n|done]. Qed.
(** what a stale topology leaves published *)
Lemma stale_link s s' : shown s -> forwarding_snapshot s' = forwarding_snapshot s -> (clock s <= clock s')%nat -> (forall t, committed_topology s' = Some t -> stale t s') -> link s'.
Proof.
  intros L1 Ef Hc K. split; [by apply (shown_later s)|intros t Et; right; by apply K].
Qed.
Lemma recheck_spec n (input : RouteBuildInput) (d : RouteRebuildDomains) (s : Service) : base s -> committed_topology s = Some (topology_at n) -> (n < clock s)%nat ->
  exists r s', (let '(v, s) := read_version world s in if negb (v =? t_version (topology_at n)) then Ok (None, s) else Ok (Some (d, input), s)) = Ok (E := Error) (r, s') /\
    same s s' /\ match r with Some x => x = (d, input) | None => forall t, committed_topology s' = Some t -> stale t s' end.
Proof.
  intros B Ec Hn. pose proof (same_read s) as Sr. unfold read_version, read in *. simpl in Sr |- *. rewrite topology_version.
  destruct (Z.eqb_spec (sy_version (w_synced (world (clock s)))) (version_at n)) as [E1|E1]; cbn [negb]; (eexists _, _; split; [done|]); (split; [done|]); [done|].
  intros t. simpl. rewrite Ec. intros [= <-]. eapply (stale_later _ s); [|simpl; lia]. unfold stale. rewrite topology_version. apply later_version; [lia|done].
Qed.
Lemma current_spec n m cd input d s : base s -> (n < clock s)%nat -> with_measurements (CC := calc m) decode (topology_at n) true cd = Ok input -> version input = version_at n ->
  (topology d || delivery d = true -> cd = true) -> (topology d = true /\ (forall t, committed_topology s = Some t -> t_version t <= version_at n) \/ committed_topology s = Some (topology_at n)) ->
  exists r s', rebuild_current parse_cidr my world (topology_at n) input d s = Ok (r, s') /\ base s' /\ forwarding_snapshot s' = forwarding_snapshot s /\ (clock s <= clock s')%nat /\
    match r with
    | Some (d', input') => committed_topology s' = Some (topology_at n) /\ topology d' = topology d /\ input' = input /\ (topology d = false -> in_step (topology_at n) s -> in_step (topology_at n) s')
    | None => (link s -> link s') /\ (Z.land (route_rebuild_failures s') (bits all_domains) <> 0 \/ forall t, committed_topology s' = Some t -> stale t s')
    end.
Proof.
  intros B Hn Em Ev Hcd Ht. unfold rebuild_current, read_version. pose proof (same_read s) as Sr. destruct (read world s) as [w s1] eqn:Er. simpl in Sr. injection Er as <- Es1.
  assert (Ek : clock s1 = S (clock s)) by (by rewrite <- Es1). clear Es1. rewrite topology_version.
  destruct (Z.eqb_spec (sy_version (w_synced (world (clock s)))) (version_at n)) as [E1|E1]; cbn [negb].
  2: { eexists _, _. split; [done|]. split_and!; [by eapply same_base|apply Sr|apply Sr|by apply same_link|right]. intros t. rewrite (sa_topology _ _ Sr). intros Et.
       eapply (stale_later _ s); [|lia]. unfold stale. assert (t_version t <= version_at n) by (destruct Ht as [[_ K]|K]; [by apply K|rewrite Et in K; injection K as ->; rewrite topology_version; lia]).
       pose proof (later_version n (clock s) ltac:(lia) E1). lia. }
  pose proof (same_base _ _ Sr B) as B1. destruct (topology d) eqn:Et.
  - rewrite (Hcd eq_refl) in Em. destruct (topology_spec n m input s1 Em Ev) as (b & s2 & -> & Ef & Hk & K). cbn [mbind outcome_bind]. destruct b; cbn [negb].
    + destruct K as [Ec L]. pose proof (base_of n s2 Ec ltac:(lia) L) as B2. destruct (recheck_spec n input d s2 B2 Ec ltac:(lia)) as (r & s3 & E3 & S3 & K3). rewrite topology_version in E3. unfold read_version in E3. rewrite E3.
      exists r, s3. split; [done|]. pose proof (sa_clock _ _ S3). split_and!; [by eapply same_base|by rewrite (sa_snapshot _ _ S3), Ef, (sa_snapshot _ _ Sr)|lia|]. destruct r as [[d' i']|].
      * injection K3 as -> ->. split_and!; [by rewrite (sa_topology _ _ S3)|done|done|done].
      * split; [|by right]. intros [L0 _]. eapply (stale_link s); [done|by rewrite (sa_snapshot _ _ S3), Ef, (sa_snapshot _ _ Sr)|lia|done].
    + destruct K as [S2 Kf]. pose proof (same_trans _ _ _ Sr S2) as S3. eexists _, _. split; [done|]. split_and!; [by eapply same_base|apply S3|apply S3|by apply same_link|by left].
  - destruct Ht as [[? _]|Ec]; [done|]. rewrite <- (sa_topology _ _ Sr) in Ec. destruct (policies_spec n m cd input d s1 Em Ev Hcd) as (d' & s2 & -> & Ed & Ec2 & Ef & Hk & Eh & L). cbn [mbind outcome_bind negb].
    rewrite Ec in Ec2. destruct (B1 _ Ec) as [_ [shared L1]]. pose proof (base_of n s2 Ec2 ltac:(lia) (ex_intro _ shared (L _ L1))) as B2.
    assert (Hin : in_step (topology_at n) s -> in_step (topology_at n) s2) by (intros (sh & ? & ? & ?)%(same_in_step _ _ _ Sr); exists sh; rewrite Ef, Eh; auto). destruct (recheck_spec n input d' s2 B2 Ec2 ltac:(lia)) as (r & s3 & E3 & S3 & K3). rewrite topology_version in E3. unfold read_version in E3. rewrite E3.
    exists r, s3. split; [done|]. pose proof (sa_clock _ _ S3). split_and!; [by eapply same_base|by rewrite (sa_snapshot _ _ S3), Ef, (sa_snapshot _ _ Sr)|lia|]. destruct r as [[d2 i']|].
    + injection K3 as -> ->. split_and!; [by rewrite (sa_topology _ _ S3)|by rewrite Ed|done|]. intros _ I. eapply same_in_step; [exact S3|]. by apply Hin.
    + split; [|by right]. intros [L0 _]. eapply (stale_link s); [done|by rewrite (sa_snapshot _ _ S3), Ef, (sa_snapshot _ _ Sr)|lia|done].
Qed.

Lemma update_spec d s : base s -> exists r s', update_route_tables_for_domains decode parse_cidr my world d s = Ok (r, s') /\ updated d s r s'.
Proof.
  intros B. unfold update_route_tables_for_domains. destruct (needs_route_input d) eqn:En; cbn [negb]; [|eexists _, _; split; [done|]; apply updated_none; [done|apply same_refl|right; by left]].
  pose proof (choose_topology_spec d s B) as Kc. destruct (choose_topology parse_cidr my world d s) as [[t d1] s1]. destruct Kc as (S1 & Ef1 & En1 & Kt). rewrite En in En1. cbn [negb] in En1. rewrite orb_false_r in En1.
  set (s2 := if topology d1 then count_up 1 0 0 0 0 0 s1 else s1). assert (S2 : same s s2) by (unfold s2; case_match; [eapply same_trans; [exact S1|apply same_count]|done]).
  assert (Ek2 : clock s2 = clock s1) by (unfold s2; by case_match). clearbody s2.
  pose proof (same_read s2) as Sr. destruct (read world s2) as [w s3] eqn:Er. cbn [snd] in Sr. injection Er as <- Es3. assert (Ek3 : clock s3 = S (clock s2)) by (by rewrite <- Es3). clear Es3.
  unfold needs_route_input in En1. rewrite En1.
  assert (exists n, (n < clock s3)%nat /\ t = topology_at n /\ (topology d1 = true /\ (clock s <= n)%nat \/ committed_topology s = Some t /\ version_at n = version_at (clock s) /\ topology d1 = false)) as (n & Hn & -> & Kn).
  { destruct Kt as [[(n & Hn & ->) Ht]|(-> & Ht & Ec & Ev)]; [exists n; split_and!; [lia|done|left; split; [done|lia]]|].
    destruct (committed_before s t B Ec) as (n & Hn & -> & En'). pose proof (sa_clock _ _ S1). exists n. split_and!; [lia|done|right; split_and!; [done|congruence|done]]. }
  destruct (measurable n (clock s2) (topology d1 || delivery d1)) as (input & Em & Ev). rewrite Em. cbn [mbind outcome_bind].
  pose proof (same_trans _ _ _ S2 Sr) as S3. set (s4 := clear_failures d1 s3). assert (S4 : same s s4) by (eapply same_trans; [exact S3|apply same_failures]). assert (Ek4 : clock s4 = clock s3) by done. clearbody s4.
  destruct (topology d1 && negb (route_build_work_within_budget input d1)) eqn:Eb.
  { eexists _, _. split; [done|]. apply updated_none; [done|eapply same_trans; [exact S4|apply same_failures]|left; by apply failed_bits]. }
  assert (exists d2 s5, (if topology d1 then (d1, s4) else within_budgets input d1 s4) = (d2, s5) /\ same s s5 /\ clock s5 = clock s4 /\ topology d2 = topology d1 /\ (delivery d2 = true -> delivery d1 = true) /\
    (needs_route_input d2 = false -> Z.land (route_rebuild_failures s5) (bits all_domains) <> 0)) as (d2 & s5 & -> & S5 & Ek5 & Et2 & Hd2 & Kf).
  { destruct (topology d1) eqn:Et; [exists d1, s4; split_and!; try done; unfold needs_route_input; by rewrite Et|].
    pose proof (budgets_spec input d1 s4) as K. destruct (within_budgets input d1 s4) as [d2 s5]. destruct K as (S5 & Ek & E1 & E2 & K). exists d2, s5. split_and!; [done|by eapply same_trans|done|congruence|done|].
    apply K; [unfold needs_route_input; by rewrite Et|done]. }
  destruct (needs_route_input d2) eqn:En2; cbn [negb]; [|eexists _, _; split; [done|]; apply updated_none; [done|done|left; by apply Kf]].
  destruct (current_spec n (clock s2) (topology d1 || delivery d1) input d2 s5) as (r & s6 & -> & B6 & Ef6 & Ek6 & K6); [by eapply same_base|lia|done|done| | |].
  - rewrite Et2. intros [->|Kd]%orb_true_iff; [done|]. by rewrite (Hd2 Kd), orb_true_r.
  - rewrite Et2, (sa_topology _ _ S5). destruct Kn as [[? Hn2]|(Ec & _)]; [left; split; [done|]|by right]. intros t0 Et0. destruct (committed_before s t0 B Et0) as (n0 & ? & _ & ->). apply (wo_version Wo). lia.
  - exists r, s6. split; [done|]. pose proof (sa_clock _ _ S5). split; [done|by rewrite Ef6, (sa_snapshot _ _ S5)|lia| | |].
    + intros d' i ->. destruct K6 as (Ec6 & Et6 & -> & Kin). exists (topology_at n). split_and!; [done|by rewrite topology_version|]. rewrite Et6, Et2. destruct Kn as [[? _]|(Ec & Ev2 & Ht1)]; [by left|right].
      intros [_ L]. destruct (L _ Ec) as [I|Hst]; [apply Kin; [congruence|by eapply same_in_step]|]. unfold stale in Hst. rewrite topology_version in Hst. lia.
    + intros -> L. apply K6. by eapply same_link.
    + intros ->. destruct K6 as [_ [?|?]]; [by left|by right; right].
Qed.

(** ** Publishing *)
Lemma next_coherent t shared d s gen : live t shared s -> (topology d = true \/ coherent t shared (forwarding_snapshot s)) -> coherent t shared (next_snapshot d s gen).
Proof.
  intros (h & hc & hs & [K1 K2 K3 K4 K5] & T1 & T2 & T3) Hd. unfold next_snapshot, coherent. simpl. rewrite (table_snapshot _ _ _ T1), (table_snapshot _ _ _ T2), (table_snapshot _ _ _ T3).
  destruct (topology d); simpl; [exists h, hc, hs; by split_and!|]. destruct Hd as [?|(h' & hc' & hs' & [_ _ ? ? ?] & -> & -> & ->)]; [done|].
  exists h', (if cost d then hc else hc'), (if delivery d then hs else hs'). destruct (cost d), (delivery d); by split_and!.
Qed.
Lemma publish_spec d s t : base s -> committed_topology s = Some t ->
  let '(p, s') := publish_forwarding_snapshot_for_domains world d s in base s' /\ (topology d = true \/ in_step t s -> p = Published -> link s').
Proof.
  intros B Ec. destruct (B t Ec) as ((n & Hn & ->) & shared & L). unfold publish_forwarding_snapshot_for_domains. destruct (needs_publication d) eqn:En; cbn [negb].
  2: { split; [done|]. intros Hd _. destruct Hd as [Hd|I]; [unfold needs_publication in En; by rewrite Hd in En|]. split; [|intros t; rewrite Ec; intros [= <-]; by left].
       right. destruct I as (sh & _ & ? & _). by exists n, sh. }
  destruct (allocate_forwarding_generation s) as [gen|]; [|done]. unfold read.
  destruct (w_accepts (world (clock s)) gen) eqn:Ea; (split; [apply (base_of n); [done|simpl; lia|by exists shared]|try done]). intros Hd _.
  assert (exists sh, live (topology_at n) sh s /\ coherent (topology_at n) sh (next_snapshot d s gen)) as (sh & Ls & Kc).
  { destruct Hd as [Hd|(sh & ? & ? & _)]; [exists shared|exists sh]; (split; [done|]); apply next_coherent; auto. }
  split; [right; exists n, sh; split; [simpl; lia|done]|]. intros t. simpl. rewrite Ec. intros [= <-]. left. by exists sh.
Qed.
Lemma base_none s : committed_topology s = None -> base s.
Proof. intros E t. by rewrite E. Qed.
Lemma conservative_spec s : let '(p, s') := publish_conservative_forwarding_snapshot world s in base s' /\ (p = Published -> link s').
Proof.
  unfold publish_conservative_forwarding_snapshot, read_version, read, publish_forwarding_snapshot_for_domains. cbn [needs_publication all_domains topology orb negb].
  destruct (allocate_forwarding_generation _) as [gen|]; [|split; [by apply base_none|done]]. simpl. destruct (w_accepts (world (S (clock s))) gen); (split; [by apply base_none|]); [|done]. intros _. split; [by left|done].
Qed.
Lemma owners_same s : same s (update_foreign_network_owner_map my world s).
Proof. unfold update_foreign_network_owner_map. pose proof (same_read s) as K. destruct (read world s) as [w s1]. simpl in K. destruct (foldl _ _ _) as [o m]. destruct K. by split. Qed.

(** ** One request *)
(** a request always comes to an end, and keeps the snapshot right unless its publication is rejected *)
Definition fine (Q : Prop) (o : outcome Error (option Publication * Service)) : Prop :=
  exists p s', o = Ok (p, s') /\ base s' /\ (Q -> p <> Some Rejected -> link s').

Lemma conservative_fine Q s : fine Q (conservative world s).
Proof.
  unfold conservative. pose proof (conservative_spec s) as K. destruct (publish_conservative_forwarding_snapshot world s) as [p s']. destruct K as [B K].
  exists (Some p), s'. split_and!; [done|done|]. intros _ Hp. apply K. by destruct p.
Qed.
Lemma finish_fine Q d input s t : base s -> committed_topology s = Some t -> version input = t_version t -> (Q -> shown s) -> (topology d = true \/ (Q -> in_step t s)) ->
  fine Q (finish_rebuild my world d input s).
Proof.
  intros B Ec Ev Hsh Hd. unfold finish_rebuild. set (s1 := if topology d || foreign d then count_up 0 0 0 0 1 0 (update_foreign_network_owner_map my world s) else s).
  assert (S1 : same s s1) by (unfold s1; case_match; [eapply same_trans; [apply owners_same|apply same_count]|apply same_refl]). clearbody s1.
  unfold read_version. pose proof (same_trans _ _ _ S1 (same_read s1)) as S2. destruct (read world s1) as [w s2] eqn:Er. cbn [snd] in S2. injection Er as <- Es2. assert (Ek : clock s2 = S (clock s1)) by (by rewrite <- Es2). clear Es2.
  pose proof (same_base _ _ S2 B) as B2. pose proof Ec as Ec2. rewrite <- (sa_topology _ _ S2) in Ec2. destruct (Z.eqb_spec (sy_version (w_synced (world (clock s1)))) (version input)) as [E|E]; cbn [negb].
  - pose proof (publish_spec d s2 t B2 Ec2) as K. destruct (publish_forwarding_snapshot_for_domains world d s2) as [p s3]. destruct K as [B3 K]. exists (Some p), s3. split_and!; [done|done|].
    intros HQ Hp. apply K; [|by destruct p]. destruct Hd as [?|Hi]; [by left|right]. by eapply same_in_step; [|apply Hi].
  - eexists _, _. split; [done|]. split; [intros t' Et'; exact (B2 t' Et')|]. intros HQ _. apply (stale_link s); [by apply Hsh|apply S2|apply S2|].
    intros t'. simpl. rewrite Ec2. intros [= <-]. destruct (committed_before s t B Ec) as (n & ? & _ & En). pose proof (sa_clock _ _ S1). eapply (stale_later _ s1); [|simpl; lia]. unfold stale. rewrite En. apply later_version; [lia|]. unfold version_at in *. congruence.
Qed.
(** the tables were rebuilt from a state that was right *)
Lemma rebuilt_finish (Q : Prop) d s d' input s' : updated d s (Some (d', input)) s' -> (Q -> link s) ->
  exists t, base s' /\ committed_topology s' = Some t /\ version input = t_version t /\ (Q -> shown s') /\ (topology d' = true \/ (Q -> in_step t s')).
Proof.
  intros U HL. destruct (up_some _ _ _ _ U d' input eq_refl) as (t & Ec & Ev & Hd). exists t. split_and!; [apply U|done|done| |destruct Hd; [by left|right; auto]].
  intros HQ. apply (shown_later s); [apply HL, HQ|apply U|apply U].
Qed.
Lemma retry_fine Q s : base s -> (Q -> link s) -> forall k, (forall t d input s', base s' -> committed_topology s' = Some t -> version input = t_version t -> (Q -> shown s') ->
    (topology d = true \/ (Q -> in_step t s')) -> fine Q (k d input s')) ->
  fine Q ('(r, s) ← update_route_tables_for_domains decode parse_cidr my world all_domains s;
          match r with Some (d, input) => k d input s | None => conservative world (set_failures 0 s) end).
Proof.
  intros B HL k Hk. destruct (update_spec all_domains s B) as (r & s1 & -> & U). cbn [mbind outcome_bind]. destruct r as [[d input]|]; [|apply conservative_fine].
  destruct (rebuilt_finish Q _ _ _ _ _ U HL) as (t & ? & ? & ? & ? & ?). by eapply Hk.
Qed.
Lemma confirm_fine Q d input s t : base s -> committed_topology s = Some t -> version input = t_version t -> (Q -> shown s) -> (topology d = true \/ (Q -> in_step t s)) ->
  fine Q (confirm_rebuild decode parse_cidr my world d input s).
Proof.
  intros B Ec Ev Hsh Hd. unfold confirm_rebuild, read_version. pose proof (same_read s) as S1. destruct (read world s) as [w s1] eqn:Er. cbn [snd] in S1. injection Er as <- Es1. assert (Ek : clock s1 = S (clock s)) by (by rewrite <- Es1). clear Es1.
  pose proof (same_base _ _ S1 B) as B1. destruct (Z.eqb_spec (sy_version (w_synced (world (clock s)))) (version input)) as [E|E]; cbn [negb].
  - apply (finish_fine Q d input s1 t); [done|by rewrite (sa_topology _ _ S1)|done|intros HQ; apply (shown_later s); [auto|apply S1|apply S1]|]. destruct Hd as [?|Hi]; [by left|right]. intros HQ. eapply same_in_step; [exact S1|auto].
  - apply retry_fine; [done| |intros; by eapply finish_fine]. intros HQ. apply (stale_link s); [auto|apply S1|apply S1|]. intros t'. rewrite (sa_topology _ _ S1), Ec. intros [= <-].
    destruct (committed_before s t B Ec) as (n & ? & _ & En). eapply (stale_later _ s); [|lia]. unfold stale. rewrite En. apply later_version; [lia|]. unfold version_at in *. congruence.
Qed.
Lemma rebuild_fine (Q : Prop) d s : base s -> (Q -> link s) -> fine Q (rebuild_domains_locked decode parse_cidr my world d s).
Proof.
  intros B HL. unfold rebuild_domains_locked. destruct (update_spec d s B) as (r & s1 & -> & U). cbn [mbind outcome_bind].
  pose proof (same_failures 0 s1) as S2. set (s2 := set_failures 0 s1) in *. set (f := route_rebuild_failures s1). destruct r as [[d' input]|].
  - destruct (rebuilt_finish Q _ _ _ _ _ U HL) as (t & ? & ? & ? & ? & Hd). apply (confirm_fine Q d' input s2 t); [by eapply same_base|done|done|done|]. destruct Hd as [?|?]; [by left|right]; auto.
  - destruct (Z.eqb_spec (Z.land f (bits all_domains)) 0) as [Ef|Ef]; cbn [negb]; [|apply conservative_fine].
    destruct (up_none _ _ _ _ U eq_refl) as [?|Kn]; [done|]. unfold read_version. pose proof (same_trans _ _ _ S2 (same_read s2)) as S3. destruct (read world s2) as [w s3] eqn:Er. cbn [snd] in S3. injection Er as <- Es3.
    assert (Ek : clock s3 = S (clock s1)) by (by rewrite <- Es3). clear Es3. pose proof (same_base _ _ S3 (up_base _ _ _ _ U)) as B3.
    assert (HL3 : Q -> link s3) by (intros HQ; eapply same_link; [exact S3|]; apply (up_link _ _ _ _ U); auto).
    destruct (committed_topology s3) as [t|] eqn:Ec; [|apply retry_fine; [done|done|intros; by eapply confirm_fine]].
    destruct (Z.eqb_spec (t_version t) (sy_version (w_synced (world (clock s1))))) as [Ev|Ev]; [|apply retry_fine; [done|done|intros; by eapply confirm_fine]].
    assert (Hi : Q -> in_step t s3).
    { intros HQ. eapply same_in_step; [exact S3|]. destruct (up_link _ _ _ _ U eq_refl (HL HQ)) as [_ L]. rewrite (sa_topology _ _ S3) in Ec. destruct (L t Ec) as [?|Hst]; [done|]. unfold stale, version_at in Hst. lia. }
    set (s4 := if foreign d then count_up 0 0 0 0 1 0 (update_foreign_network_owner_map my world s3) else s3).
    assert (S4 : same s3 s4) by (unfold s4; case_match; [eapply same_trans; [apply owners_same|apply same_count]|apply same_refl]). clearbody s4.
    pose proof (publish_spec d s4 t (same_base _ _ S4 B3) ltac:(by rewrite (sa_topology _ _ S4))) as K. destruct (publish_forwarding_snapshot_for_domains world d s4) as [p s5]. destruct K as [B5 K].
    exists (Some p), s5. split_and!; [done|done|]. intros HQ Hp. apply K; [right; eapply same_in_step; [exact S4|auto]|by destruct p].
Qed.

(** requests in turn *)
Lemma rebuilds_fine l : forall (Q : Prop) s, base s -> (Q -> link s) ->
  exists ps s', rebuilds decode parse_cidr my world l s = Ok (ps, s') /\ base s' /\ (Q -> Some Rejected ∉ ps -> link s').
Proof.
  induction l as [|d l IH]; intros Q s B HL; simpl; [exists [], s; by split_and!; [| |auto]|].
  assert (fine Q (rebuild_domains decode parse_cidr my world d s)) as (p & s1 & -> & B1 & L1).
  { unfold rebuild_domains. destruct (needs_publication d); cbn [negb]; [by apply rebuild_fine|]. exists None, s. by split_and!; [| |auto]. }
  cbn [mbind outcome_bind]. destruct (IH (Q /\ p <> Some Rejected) s1 B1 ltac:(intros [? ?]; auto)) as (ps & s2 & -> & B2 & L2). cbn [mbind outcome_bind].
  exists (p :: ps), s2. split_and!; [done|done|]. intros HQ Hn. apply L2; [split; [done|]|]; set_solver.
Qed.

(** ** Decisions about packets *)
(** every entry has the version of its topology *)
Lemma table_version t policy hops p r : policy_of t policy hops -> hops !! p = Some r -> hop_version r = t_version t.
Proof.
  intros (n & cd & s & input & _ & _ & <- & [K1 K2 K3]) Er. destruct (proj1 (list_elem_of_lookup _ _) (K3 p r Er)) as [v Ev].
  destruct (decide (hop_version r = version input)) as [|Hn]; [done|exfalso].
  assert (Hd : ~ takes_direct s input policy v p) by (intros Hd; destruct (K1 v p Ev Hd) as (d & E & _); rewrite Er in E; injection E as ->; done).
  specialize (K2 v p Ev Hd). rewrite Er in K2. destruct policy; simpl in K2; [destruct K2 as (es & _ & -> & _)..|destruct K2 as (x & c & -> & _)]; done.
Qed.
(** a lookup in a table of one topology is one in its map, for a peer that is not suppressed *)
Lemma snapshot_hop t control shared policy hops p : shared_of t control shared -> policy_of t policy hops ->
  sn_get_next_hop (snapshot_of shared hops) p = if bool_decide (p ∈ s_suppressed_peer_ids shared) then None else hops !! p.
Proof.
  intros Hs Hp. unfold sn_get_next_hop, sn_get_topology_next_hop, snapshot_of, into_snapshot. simpl. case_match; [done|]. destruct (hops !! p) as [r|] eqn:Er; [|done].
  rewrite (table_version t policy hops p r Hp Er), (shared_version _ _ _ Hs), Z.leb_refl. done.
Qed.
Lemma empty_hop sn p : sn_next_hop_map sn = ∅ -> sn_get_next_hop sn p = None.
Proof. intros E. unfold sn_get_next_hop, sn_get_topology_next_hop. rewrite E, lookup_empty. by case_match. Qed.
Lemma or_route_fmap a b : next_hop_peer_id <$> or_route a b = Forwarding.or_else (next_hop_peer_id <$> a) (next_hop_peer_id <$> b).
Proof. by destruct a. Qed.

Lemma shown_decisions capabilities s p policy : shown s -> let f := forwarding_snapshot s in
  (policy = Forwarding.ControlHop -> p ∉ sn_suppressed_peer_ids (fs_route_table f)) ->
  Forwarding.next_hop (decision_snapshot capabilities f) p policy = next_hop_peer_id <$> get_next_hop_with_policy_from_snapshot f p policy.
Proof.
  intros Hs f Hc. unfold Forwarding.next_hop, decision_snapshot, get_next_hop_with_policy_from_snapshot. simpl. rewrite !lookup_fmap. destruct Hs as [(E1 & E2 & E3)|(n & shared & _ & h & hc & hs & [K1 K2 K3 K4 K5] & E1 & E2 & E3)].
  - fold f in E1, E2, E3. rewrite !empty_hop by done. rewrite E1, E2, E3, !lookup_empty. case_bool_decide; [|by destruct policy]. destruct policy; try done. by destruct Hc.
  - fold f in E1, E2, E3. rewrite E1, E2, E3 in *. rewrite (snapshot_hop _ _ _ _ _ _ K2 K3), (snapshot_hop _ _ _ _ _ _ K2 K4), (snapshot_hop _ _ _ _ _ _ K2 K5). unfold snapshot_of, into_snapshot in *. simpl in *.
    case_bool_decide; [destruct policy; try done; by destruct Hc|]. destruct policy; rewrite ?or_route_fmap; done.
Qed.
(** the maps of a coherent snapshot are right *)
Lemma coherent_maps t shared f : coherent t shared f -> exists m input, with_measurements (CC := calc m) decode t true true = Ok input /\ maps_of parse_cidr my input (fs_control_hop f) (fs_route_table f).
Proof.
  intros (h & hc & hs & [K1 (m & input & Em & _ & ->) _ _ _] & -> & _). exists m, input. split; [done|]. apply snapshot_maps. destruct K1 as (n & cd & s & i & Hmy & _ & _ & K1).
  intros p. by eapply (control_nearest (CC := calc n)).
Qed.

(** ** Rejected publications *)
(** a rejected publication leaves the snapshot before it *)
Definition kept (s : Service) (o : outcome Error (option Publication * Service)) : Prop := forall s', o = Ok (Some Rejected, s') -> forwarding_snapshot s' = forwarding_snapshot s.
Lemma publish_kept d s : let '(p, s') := publish_forwarding_snapshot_for_domains world d s in p = Rejected -> forwarding_snapshot s' = forwarding_snapshot s.
Proof. unfold publish_forwarding_snapshot_for_domains, read. destruct (negb _); [done|]. destruct (allocate_forwarding_generation s); [|done]. by destruct (w_accepts _ _). Qed.
Lemma conservative_kept s : kept s (conservative world s).
Proof.
  intros s'. unfold conservative, publish_conservative_forwarding_snapshot, read_version, read. set (s1 := set_owners _ _ _). pose proof (publish_kept all_domains s1) as K.
  destruct (publish_forwarding_snapshot_for_domains world all_domains s1) as [p s2]. intros [= -> <-]. by rewrite (K eq_refl).
Qed.
Lemma kept_from s s1 o : forwarding_snapshot s1 = forwarding_snapshot s -> kept s1 o -> kept s o.
Proof. intros E K s' Es. by rewrite (K s' Es). Qed.
Lemma finish_kept d input s : kept s (finish_rebuild my world d input s).
Proof.
  intros s'. unfold finish_rebuild, read_version. set (s1 := if topology d || foreign d then _ else s).
  assert (E1 : forwarding_snapshot s1 = forwarding_snapshot s) by (unfold s1; case_match; [apply owners_same|done]). pose proof (sa_snapshot _ _ (same_read s1)) as E2. destruct (read world s1) as [w s2]. cbn [snd] in E2.
  destruct (negb _); [done|]. pose proof (publish_kept d s2) as K. destruct (publish_forwarding_snapshot_for_domains world d s2) as [p s3]. intros [= -> <-]. rewrite (K eq_refl). congruence.
Qed.
Lemma retry_kept s k : base s -> (forall d input s', base s' -> kept s' (k d input s')) ->
  kept s ('(r, s) ← update_route_tables_for_domains decode parse_cidr my world all_domains s; match r with Some (d, input) => k d input s | None => conservative world (set_failures 0 s) end).
Proof.
  intros B Hk. destruct (update_spec all_domains s B) as (r & s1 & -> & U). cbn [mbind outcome_bind]. destruct r as [[d input]|]; (eapply kept_from; [apply (up_snapshot _ _ _ _ U)|]); [apply Hk, U|].
  exact (conservative_kept (set_failures 0 s1)).
Qed.
Lemma confirm_kept d input s : base s -> kept s (confirm_rebuild decode parse_cidr my world d input s).
Proof.
  intros B. unfold confirm_rebuild, read_version. pose proof (same_read s) as S1. destruct (read world s) as [w s1]. cbn [snd] in S1. eapply kept_from; [apply S1|].
  destruct (negb _); [|apply finish_kept]. apply retry_kept; [by eapply same_base|]. intros; apply finish_kept.
Qed.
Lemma rebuild_kept d s : base s -> kept s (rebuild_domains decode parse_cidr my world d s).
Proof.
  intros B. unfold rebuild_domains, rebuild_domains_locked. destruct (negb _); [done|]. destruct (update_spec d s B) as (r & s1 & -> & U). cbn [mbind outcome_bind]. eapply kept_from; [apply (up_snapshot _ _ _ _ U)|].
  pose proof (up_base _ _ _ _ U) as B1. destruct r as [[d' input]|]; [exact (confirm_kept d' input (set_failures 0 s1) B1)|]. destruct (negb _); [exact (conservative_kept (set_failures 0 s1))|].
  unfold read_version. pose proof (same_trans _ _ _ (same_failures 0 s1) (same_read (set_failures 0 s1))) as S3. destruct (read world (set_failures 0 s1)) as [w s3]. cbn [snd] in S3. eapply kept_from; [apply S3|].
  destruct (match committed_topology s3 with Some _ => _ | None => _ end); [|apply retry_kept; [by eapply same_base|intros; by apply confirm_kept]].
  set (s4 := if foreign d then _ else s3). assert (E4 : forwarding_snapshot s4 = forwarding_snapshot s3) by (unfold s4; case_match; [apply owners_same|done]).
  intros s'. pose proof (publish_kept d s4) as K. destruct (publish_forwarding_snapshot_for_domains world d s4) as [p s5]. intros [= -> <-]. by rewrite (K eq_refl).
Qed.
Lemma rebuild_base d s p s' : base s -> rebuild_domains decode parse_cidr my world d s = Ok (p, s') -> base s'.
Proof.
  intros B. unfold rebuild_domains. destruct (negb _); [by intros [= _ <-]|]. destruct (rebuild_fine False d s B ltac:(done)) as (p' & s1 & -> & B1 & _). by intros [= _ <-].
Qed.

(** ** A rebuild of the costs for the committed topology *)
Lemma current_cost s n input hc : version input = version_at n -> policy_table input Forwarding.LeastCost = Ok (Some hc) -> policy_of (topology_at n) Forwarding.LeastCost hc -> (forall k, (clock s <= k)%nat -> version_at k = version_at n) ->
  exists s', rebuild_current parse_cidr my world (topology_at n) input cost_domain s = Ok (Some (cost_domain, input), s') /\ (clock s <= clock s')%nat /\ forwarding_snapshot s' = forwarding_snapshot s /\ control_hop s' = control_hop s /\
    exists hc, policy_of (topology_at n) Forwarding.LeastCost hc /\ route_table_with_cost s' = replace_next_hops (route_table_with_cost s) hc (version_at n).
Proof.
  intros Ev Ep Khc Hv. assert (E : forall k, (clock s <= k)%nat -> sy_version (w_synced (world k)) =? t_version (topology_at n) = true) by (intros k Hk; rewrite topology_version; apply Z.eqb_eq; by apply Hv).
  unfold rebuild_current, read_version, read. rewrite (E (clock s)) by lia. cbn [negb topology cost_domain]. unfold rebuild_policies. cbn [cost delivery mbind outcome_bind]. rewrite Ep. 
  cbn -[topology_at version_at policy_of t_version replace_next_hops Z.eqb bool_decide]. rewrite ?bool_decide_true by eauto. cbn -[topology_at version_at policy_of t_version replace_next_hops Z.eqb]. rewrite (E (S (clock s))) by lia. cbn [negb].
  eexists. split; [done|]. simpl. split_and!; [lia|done|done|]. exists hc. by rewrite Ev.
Qed.
Lemma update_cost s n : (n < clock s)%nat -> committed_topology s = Some (topology_at n) -> (forall k, (clock s <= k)%nat -> version_at k = version_at n) ->
  exists r s', update_route_tables_for_domains decode parse_cidr my world cost_domain s = Ok (r, s') /\ (clock s <= clock s')%nat /\
    match r with
    | None => Z.land (route_rebuild_failures s') (bits all_domains) <> 0
    | Some (d, input) => d = cost_domain /\ version input = version_at n /\ forwarding_snapshot s' = forwarding_snapshot s /\ control_hop s' = control_hop s /\
        exists hc, policy_of (topology_at n) Forwarding.LeastCost hc /\ route_table_with_cost s' = replace_next_hops (route_table_with_cost s) hc (version_at n)
    end.
Proof.
  intros Hn Ec Hv. unfold update_route_tables_for_domains, choose_topology, read_version. cbn [needs_route_input cost_domain topology cost delivery orb negb].
  unfold read. cbn [committed_topology clock]. rewrite Ec, topology_version. change (sy_version (w_synced (world (clock s)))) with (version_at (clock s)). rewrite (Hv (clock s)), Z.eqb_refl by lia. cbn [topology cost delivery orb cost_domain clock]. 
  destruct (measurable n (S (clock s)) false) as (input & Em & Ev). rewrite Em. cbn [mbind outcome_bind andb cost delivery topology orb].
  destruct (policy_table_spec n (S (clock s)) false Forwarding.LeastCost input Em ltac:(done)) as ([hc|] & Ep & Khc); [|done].
  unfold within_budgets. cbn [cost delivery andb]. change (mk_domains false true false false false) with cost_domain. destruct (route_build_work_within_budget input cost_domain); cbn [negb cost delivery andb topology orb cost_domain bridge foreign].
  - cbn [needs_route_input topology cost delivery orb negb]. change (mk_domains false true false false false) with cost_domain. match goal with |- context [rebuild_current _ _ _ _ _ _ ?x] => destruct (current_cost x n input hc) as (s' & -> & Hk & K); [exact Ev|exact Ep|exact Khc|intros k Hk; apply Hv; simpl in Hk; lia|] end.
    eexists _, _. split; [done|]. simpl in Hk. split; [lia|]. destruct K as (K1 & K2 & hc' & K3 & K4). split_and!; [done|exact Ev|exact K1|exact K2|]. exists hc'. split; [exact K3|exact K4].
  - eexists _, _. split; [done|]. simpl. split; [lia|]. by apply failed_bits.
Qed.
Lemma conservative_cleared s s' : conservative world s = Ok (Some Published, s') -> cleared (forwarding_snapshot s').
Proof.
  unfold conservative, publish_conservative_forwarding_snapshot, read_version, read, publish_forwarding_snapshot_for_domains. cbn [needs_publication all_domains topology orb negb].
  destruct (allocate_forwarding_generation _) as [gen|]; [|done]. simpl. destruct (w_accepts _ gen); [|done]. by intros [= <-].
Qed.
(** only the table of the costs is new *)
Lemma cost_published s n s' : (n < clock s)%nat -> committed_topology s = Some (topology_at n) -> (forall k, (clock s <= k)%nat -> version_at k = version_at n) ->
  rebuild_domains decode parse_cidr my world cost_domain s = Ok (Some Published, s') -> let f := forwarding_snapshot s' in
  cleared f \/ exists hc, policy_of (topology_at n) Forwarding.LeastCost hc /\ fs_control_hop f = control_hop s /\
    fs_route_table f = fs_route_table (forwarding_snapshot s) /\ fs_route_table_with_speed f = fs_route_table_with_speed (forwarding_snapshot s) /\
    fs_route_table_with_cost f = into_snapshot (replace_next_hops (route_table_with_cost s) hc (version_at n)).
Proof.
  intros Hn Ec Hv. unfold rebuild_domains, rebuild_domains_locked. cbn [needs_publication cost_domain topology cost orb negb]. destruct (update_cost s n Hn Ec Hv) as (r & s1 & -> & Hk & K). cbn [mbind outcome_bind].
  destruct r as [[d input]|]; [|rewrite (proj2 (Z.eqb_neq _ _)) by done; cbn [negb]; intros ?%conservative_cleared; by left]. destruct K as (-> & Ev & Ef & Eh & hc & Khc & Et).
  unfold confirm_rebuild, finish_rebuild, read_version, read. cbn [clock set_failures topology foreign cost_domain orb]. change (sy_version (w_synced (world (clock s1)))) with (version_at (clock s1)). change (sy_version (w_synced (world (S (clock s1))))) with (version_at (S (clock s1))). rewrite Ev, (Hv (clock s1)), (Hv (S (clock s1))), Z.eqb_refl by lia. cbn [negb].
  unfold publish_forwarding_snapshot_for_domains. cbn [needs_publication topology cost orb negb]. destruct (allocate_forwarding_generation _) as [gen|]; [|done]. unfold read. destruct (w_accepts _ gen); [|done].
  intros [= <-]. right. exists hc. cbn. rewrite <- Et, Ef, Eh. done.
Qed.
Lemma into_snapshot_hops r : sn_next_hop_map (into_snapshot r) = next_hop_map r /\ sn_version (into_snapshot r) = next_hop_map_version r.
Proof. unfold into_snapshot. by case_match. Qed.
Lemma new_base : base service_new.
Proof. by apply base_none. Qed.
Lemma new_link : link service_new.
Proof. split; [by left|done]. Qed.
End Rebuild.

(** C15: Every published forwarding snapshot is of one topology.  For any sequence of rebuild requests, whatever the other
    threads change between the reads of a rebuild (the synchronised records, whose version never decreases, the measurements,
    the foreign networks), the requests are carried out without a panic; as long as no publication is rejected, the published
    snapshot either routes no data at all or there is one captured topology such that its control table, its least-hop,
    least-cost and maximum-goodput tables are each right for this topology under measurements taken at some time, the three
    tables carry the same address maps, and these lead to reachable owners. *)
Theorem published_routes_coherent {P : Petgraph} {PL : PetgraphLaws} {PM : PrefixMaps} {PML : PrefixMapLaws} {PC : PrefixMapCollect} {PCL : PrefixMapCollectLaws} decode parse_cidr my world l :
  world_ok my world ->
  exists ps s, rebuilds decode parse_cidr my world l service_new = Ok (ps, s) /\
    (Some Rejected ∉ ps -> let f := forwarding_snapshot s in
     cleared f \/ exists n shared, (n < clock s)%nat /\ coherent decode parse_cidr my world (topology_at parse_cidr my world n) shared f /\
       exists m input, with_measurements (CC := w_calculator (world m)) decode (topology_at parse_cidr my world n) true true = Ok input /\
         maps_of parse_cidr my input (fs_control_hop f) (fs_route_table f)).
Proof.
  intros Wo. destruct (rebuilds_fine decode parse_cidr my world Wo l True service_new (new_base decode parse_cidr my world) (fun _ => new_link decode parse_cidr my world)) as (ps & s & E & _ & L).
  exists ps, s. split; [done|]. intros Hp f. destruct (L I Hp) as [[?|(n & shared & Hn & K)] _]; [by left|right]. exists n, shared. split_and!; [done|done|]. by eapply coherent_maps.
Qed.

(** C16: Packets are routed as the route service says.  After any sequence of rebuild requests without a rejected publication,
    the decision snapshot that packets are forwarded by and the lookup of a next hop in the published forwarding snapshot
    agree for every peer and every policy, fallbacks included, except that a control packet to a suppressed peer has a next
    hop only in the latter. *)
Theorem packet_decisions_agree {P : Petgraph} {PL : PetgraphLaws} {PM : PrefixMaps} {PML : PrefixMapLaws} {PC : PrefixMapCollect} {PCL : PrefixMapCollectLaws} decode parse_cidr my world l :
  world_ok my world ->
  exists ps s, rebuilds decode parse_cidr my world l service_new = Ok (ps, s) /\
    (Some Rejected ∉ ps -> forall capabilities p policy, let f := forwarding_snapshot s in
     policy <> Forwarding.ControlHop \/ p ∉ sn_suppressed_peer_ids (fs_route_table f) ->
     Forwarding.next_hop (decision_snapshot capabilities f) p policy = next_hop_peer_id <$> get_next_hop_with_policy_from_snapshot f p policy).
Proof.
  intros Wo. destruct (rebuilds_fine decode parse_cidr my world Wo l True service_new (new_base decode parse_cidr my world) (fun _ => new_link decode parse_cidr my world)) as (ps & s & E & _ & L).
  exists ps, s. split; [done|]. intros Hp capabilities p policy f Hc. destruct (L I Hp) as [K _]. eapply shown_decisions; [exact K|]. intros ->. by destruct Hc.
Qed.

(** C35: After a rejected publication a rebuild of the costs alone publishes tables of two topologies.  In any state that rebuild
    requests lead to, if the publication of a rebuild is rejected, the published snapshot stays as it was while the rebuilt
    topology stays committed.  If that is another version than the published one and no record changes after it, a rebuild of the
    costs that is published publishes, unless it exceeds the work budget and routes no data at all, the least-cost table and the
    control table of the committed topology beside the least-hop and maximum-goodput tables of the snapshot before, with the
    address maps of that: there is no topology of which the published snapshot is a coherent one. *)
Theorem rejected_publication_mixes {P : Petgraph} {PL : PetgraphLaws} {PM : PrefixMaps} {PML : PrefixMapLaws} {PC : PrefixMapCollect} {PCL : PrefixMapCollectLaws} decode parse_cidr my world l ps s d s1 t s2 :
  world_ok my world -> rebuilds decode parse_cidr my world l service_new = Ok (ps, s) ->
  rebuild_domains decode parse_cidr my world d s = Ok (Some Rejected, s1) -> committed_topology s1 = Some t -> sn_version (fs_route_table (forwarding_snapshot s)) <> t_version t ->
  (forall n, (clock s1 <= n)%nat -> version_at world n = t_version t) -> rebuild_domains decode parse_cidr my world cost_domain s1 = Ok (Some Published, s2) ->
  let f := forwarding_snapshot s2 in forwarding_snapshot s1 = forwarding_snapshot s /\
  (cleared f \/
   fs_route_table f = fs_route_table (forwarding_snapshot s) /\ fs_route_table_with_speed f = fs_route_table_with_speed (forwarding_snapshot s) /\
   policy_of decode my world t Forwarding.ControlHop (fs_control_hop f) /\
   (exists hc, policy_of decode my world t Forwarding.LeastCost hc /\ sn_next_hop_map (fs_route_table_with_cost f) = hc /\ sn_version (fs_route_table_with_cost f) = t_version t) /\
   forall t' shared, ~ coherent decode parse_cidr my world t' shared f).
Proof.
  intros Wo Er Ej Ec Hne Hv Ep f. destruct (rebuilds_fine decode parse_cidr my world Wo l False service_new (new_base decode parse_cidr my world) ltac:(done)) as (ps' & s' & Er' & B & _). rewrite Er in Er'. injection Er' as <- <-.
  pose proof (rebuild_kept decode parse_cidr my world Wo d s B s1 Ej) as Ek. pose proof (rebuild_base decode parse_cidr my world Wo d s _ s1 B Ej) as B1. split; [done|].
  destruct (B1 t Ec) as ((n & Hn & ->) & shared & h & hc0 & hs & [K1 K2 _ _ _] & _ & _ & _). rewrite (topology_version) in *.
  destruct (cost_published decode parse_cidr my world Wo s1 n s2 Hn Ec Hv Ep) as [?|(hc & Khc & E1 & E2 & E3 & E4)]; [by left|right]. fold f in E1, E2, E3, E4.
  split_and!; [by rewrite E2, Ek|by rewrite E3, Ek|by rewrite E1|exists hc; split; [done|]; rewrite E4; apply into_snapshot_hops|]. intros t' sh (h' & hc' & hs' & _ & F1 & F2 & _). apply Hne. rewrite <- Ek, <- E2, F1. rewrite E4 in F2. apply (f_equal sn_version) in F2. rewrite (proj2 (into_snapshot_hops _)) in F2. done.
Qed.

(** ** A change of topology *)
(** peer 4 is behind peer 2 at first and behind peer 3 from the eighth read on *)
Definition demo_links (late : bool) : SyncedRouteInfo :=
  mk_synced (if late then 2 else 1) {[1 := demo_info false; 2 := demo_info false; 3 := demo_info false; 4 := demo_info false]}
    (if late then {[1 := {[3]}; 3 := {[4]}]} else {[1 := {[2]}; 2 := {[4]}]}) ∅.
Definition demo_world (accepts : Z -> bool) (n : nat) : World := mk_world (demo_links (8 <=? n)%nat) (fun _ => None) ∅ demo_costs accepts.
Lemma demo_world_ok accepts : world_ok 1 (demo_world accepts).
Proof.
  split.
  - intros n. unfold demo_world, demo_links. simpl. split; [by eexists|done|]. intros p info l K Hl. assert (relay_link_cost info = []) as E; [|rewrite E in Hl; set_solver].
    simpl in K. repeat (apply lookup_insert_Some in K as [[_ <-]|[_ K]]; [done|]). by apply lookup_singleton_Some in K as [_ <-].
  - intros n p q d K. simpl in K. case_match; simplify_eq. unfold is_u. lia.
  - intros m n Hmn. unfold version_at, demo_world, demo_links. cbn [w_synced sy_version]. destruct (Nat.leb_spec 8 m), (Nat.leb_spec 8 n); lia.
Qed.
(** what was published, the next hops to peer 4 by fewest hops, by least cost and for control, and the versions of the tables *)
Definition summary (o : outcome Error (list (option Publication) * Service (PM := map_maps))) : option (list (option Publication) * list (option Z) * list Z) :=
  match o with
  | Ok (ps, s) =>
      let f := forwarding_snapshot s in
      let hop policy := next_hop_peer_id <$> get_next_hop_with_policy_from_snapshot f 4 policy in
      Some (ps, [hop Forwarding.LeastHop; hop Forwarding.LeastCost; hop Forwarding.ControlHop],
            [sn_version (fs_route_table f); sn_version (fs_route_table_with_cost f); sn_version (fs_route_table_with_speed f)])
  | _ => None
  end.
#[local] Notation demo_run accepts l :=
  (rebuilds (P := list_petgraph) (PM := map_maps) (PC := map_collect) (fun _ => None) (fun _ => None) 1 (demo_world accepts) l (service_new (PM := map_maps) (PC := map_collect))).

Lemma published_routes_coherent_witness : exists ps s, demo_run (fun _ => true) [all_domains; all_domains; cost_domain] = Ok (ps, s) /\
  summary (Ok (ps, s)) = Some ([Some Published; Some Published; Some Published], [Some 3; Some 3; Some 3], [2; 2; 2]) /\
  (cleared (forwarding_snapshot s) \/ exists n shared, coherent (P := list_petgraph) (PC := map_collect) (fun _ => None) (fun _ => None) 1 (demo_world (fun _ => true)) (topology_at (fun _ => None) 1 (demo_world (fun _ => true)) n) shared (forwarding_snapshot s)).
Proof.
  destruct (published_routes_coherent (PM := map_maps) (PML := map_maps_laws) (PC := map_collect) (PCL := map_collect_laws) (fun _ => None) (fun _ => None) 1 (demo_world (fun _ => true)) [all_domains; all_domains; cost_domain] (demo_world_ok _))
    as (ps & s & E & K).
  exists ps, s. split; [exact E|]. assert (Es : summary (Ok (ps, s)) = Some ([Some Published; Some Published; Some Published], [Some 3; Some 3; Some 3], [2; 2; 2])) by (rewrite <- E; vm_compute; reflexivity).
  split; [exact Es|]. assert (Hp : Some Rejected ∉ ps) by (injection Es as -> _; intros Hin; repeat (apply elem_of_cons in Hin as [Hin|Hin]; [discriminate Hin|]); by apply elem_of_nil in Hin).
  destruct (K Hp) as [Kc|(n & shared & _ & Kc & _)]; [left; exact Kc|right; exists n, shared; exact Kc].
Defined.

Lemma packet_decisions_agree_witness : exists ps s, demo_run (fun _ => true) [all_domains; all_domains; cost_domain] = Ok (ps, s) /\
  summary (Ok (ps, s)) = Some ([Some Published; Some Published; Some Published], [Some 3; Some 3; Some 3], [2; 2; 2]) /\
  Forwarding.next_hop (decision_snapshot (Forwarding.mk_table [] ∅) (forwarding_snapshot s)) 4 Forwarding.LeastCost =
    next_hop_peer_id <$> get_next_hop_with_policy_from_snapshot (forwarding_snapshot s) 4 Forwarding.LeastCost.
Proof.
  destruct (packet_decisions_agree (PM := map_maps) (PML := map_maps_laws) (PC := map_collect) (PCL := map_collect_laws) (fun _ => None) (fun _ => None) 1 (demo_world (fun _ => true)) [all_domains; all_domains; cost_domain] (demo_world_ok _))
    as (ps & s & E & K).
  exists ps, s. split; [exact E|]. assert (Es : summary (Ok (ps, s)) = Some ([Some Published; Some Published; Some Published], [Some 3; Some 3; Some 3], [2; 2; 2])) by (rewrite <- E; vm_compute; reflexivity).
  split; [exact Es|]. assert (Hp : Some Rejected ∉ ps) by (injection Es as -> _; intros Hin; repeat (apply elem_of_cons in Hin as [Hin|Hin]; [discriminate Hin|]); by apply elem_of_nil in Hin).
  apply (K Hp). left. discriminate.
Defined.

(** a state in which the second rebuild is rejected, after the first *)
Definition state_of (o : outcome Error (option Publication * Service (PM := map_maps))) : Service (PM := map_maps) := match o with Ok (_, s) => s | _ => service_new (PM := map_maps) (PC := map_collect) end.
Definition result_of (o : outcome Error (option Publication * Service (PM := map_maps))) : option (option Publication) := match o with Ok (p, _) => Some p | _ => None end.
Lemma result_state o p : result_of o = Some p -> o = Ok (p, state_of o).
Proof. destruct o as [[p' s]|e|]; try discriminate. intros E. injection E as ->. reflexivity. Qed.
#[local] Notation demo_rejecting := (demo_world (fun g => negb (g =? 2))).
#[local] Notation demo_rebuild d s := (rebuild_domains (P := list_petgraph) (PM := map_maps) (PC := map_collect) (fun _ => None) (fun _ => None) 1 demo_rejecting d s).
Definition demo_first : Service (PM := map_maps) := state_of (demo_rebuild all_domains (service_new (PM := map_maps) (PC := map_collect))).
Definition demo_second : Service (PM := map_maps) := state_of (demo_rebuild all_domains demo_first).
Definition demo_third : Service (PM := map_maps) := state_of (demo_rebuild cost_domain demo_second).
Lemma demo_reached : demo_run (fun g => negb (g =? 2)) [all_domains] = Ok ([Some Published], demo_first).
Proof. cbn [rebuilds]. rewrite (result_state (demo_rebuild all_domains (service_new (PM := map_maps) (PC := map_collect))) (Some Published)) by (vm_compute; reflexivity). reflexivity. Qed.
(** peer 4 is reached over peer 2 by fewest hops and over peer 3 by least cost *)
Lemma rejected_publication_mixes_witness : let f := forwarding_snapshot demo_third in
  (forall t shared, ~ coherent (P := list_petgraph) (PC := map_collect) (fun _ => None) (fun _ => None) 1 demo_rejecting t shared f) /\
  next_hop_peer_id <$> get_next_hop_with_policy_from_snapshot f 4 Forwarding.LeastHop = Some 2 /\ next_hop_peer_id <$> get_next_hop_with_policy_from_snapshot f 4 Forwarding.LeastCost = Some 3.
Proof.
  intros f. split; [|split; vm_compute; reflexivity].
  assert (Ec : t_version <$> committed_topology demo_second = Some 2) by (vm_compute; reflexivity). destruct (committed_topology demo_second) as [t|] eqn:Et; [|discriminate Ec]. injection Ec as Ec.
  destruct (rejected_publication_mixes (PM := map_maps) (PML := map_maps_laws) (PC := map_collect) (PCL := map_collect_laws) (fun _ => None) (fun _ => None) 1 demo_rejecting [all_domains] [Some Published] demo_first all_domains demo_second t demo_third
    (demo_world_ok _) demo_reached) as [_ [(Hc & _)|(_ & _ & _ & _ & K)]].
  - apply result_state. vm_compute. reflexivity.
  - exact Et.
  - rewrite Ec. vm_compute. discriminate.
  - intros n Hn. rewrite Ec. assert (Hk : (8 <= clock demo_second)%nat) by (apply Nat.leb_le; vm_compute; reflexivity). unfold version_at, demo_world, demo_links. cbn [w_synced sy_version]. by rewrite (proj2 (Nat.leb_le 8 n)) by lia.
  - apply result_state. vm_compute. reflexivity.
  - exfalso. assert (Hh : next_hop_peer_id <$> sn_next_hop_map (fs_route_table (forwarding_snapshot demo_third)) !! 4 = Some 2) by (vm_compute; reflexivity). rewrite Hc, lookup_empty in Hh. discriminate Hh.
  - exact K.
Defined.
End RouteRebuildProps.
