(* ===== verification/Credentials.v ===== *)
(** * Credentials (src/lowertier/src/peers/credential_manager.rs)

    An administrator signs certificates with a key that is derived from the network secret, passes them on in proofs and
    revokes them; every node verifies certificates, bundles, revocation states and status evidence.

    Ed25519 and SHA-256 (ring, sha2), X25519, base64 and the encoding of messages (prost) are interfaces with their documented
    laws; HMAC is the one of [SecureDatagram].  Random bytes, the time and whether the file could be written or read are
    arguments.  The content of the file is the last store that was written: a write goes to a temporary file that is renamed.
    Text is the list of its bytes. *)
From stdpp Require Import base list gmap numbers sorting countable strings.
From Stdlib Require Import ZArith Lia.
From S2P Require Import Prelude NetAddr SecureDatagram.

Local Open Scope Z_scope.

(** ** Third-party interfaces *)
Class Signatures : Type := {
  ed_public : list Z -> list Z;
  ed_sign : list Z -> list Z -> list Z;
  ed_verify : list Z -> list Z -> list Z -> bool;
  sha256 : list Z -> list Z;
  x_public : list Z -> list Z;
}.
Class SignatureLaws (S : Signatures) : Prop := {
  ed_verify_sign seed m : length seed = 32%nat -> ed_verify (ed_public seed) m (ed_sign seed m) = true;
  ed_public_length seed : length seed = 32%nat -> length (ed_public seed) = 32%nat;
  ed_sign_length seed m : length seed = 32%nat -> length (ed_sign seed m) = 64%nat;
  sha256_length m : length (sha256 m) = 32%nat;
  x_public_length key : length key = 32%nat -> length (x_public key) = 32%nat;
}.
(** [encode_to_vec] and [decode] of a message *)
Class Codec (A : Type) : Type := { encode : A -> list Z; decode : list Z -> option A }.
Class CodecLaws {A} (C : Codec A) : Prop := { decode_encode x : decode (encode x) = Some x }.
(** base64: the standard alphabet and the one for URLs *)
Class Base64 : Type := { b64_encode : list Z -> list Z; b64_decode : list Z -> option (list Z); url_encode : list Z -> list Z; url_decode : list Z -> option (list Z) }.
Class Base64Laws (B : Base64) : Prop := { b64_decode_encode x : b64_decode (b64_encode x) = Some x; url_decode_encode x : url_decode (url_encode x) = Some x }.

Module Credentials.

Definition CREDENTIAL_BUNDLE_VERSION : Z := 1.
Definition CREDENTIAL_STATE_VERSION : Z := 1.
Definition ROOT_SEED_DOMAIN : list Z := str "lowertier credential root seed v1".
Definition ROOT_FINGERPRINT_DOMAIN : list Z := str "lowertier credential root fingerprint v1".
Definition CERTIFICATE_DOMAIN : list Z := str "lowertier credential certificate v1".
Definition REVOCATION_DOMAIN : list Z := str "lowertier credential revocation v1".
Definition STATUS_DOMAIN : list Z := str "lowertier credential certificate status v1".
Definition CERTIFICATE_ID_LEN : Z := 16.
(** durations in nanoseconds *)
Definition second : Z := 1000000000.
Definition MAX_CREDENTIAL_TTL : Z := 24 * 60 * 60 * second.
Definition MAX_REVOCATION_AGE : Z := 24 * 60 * 60.
Definition MAX_FUTURE_SKEW : Z := 5 * 60.
Definition MAX_STATUS_LIFETIME : Z := 60 * second.
Definition i64_saturate (z : Z) : Z := Z.min (2 ^ 63 - 1) (Z.max (- 2 ^ 63) z).

(** ** Messages *)
Record CredentialCertificate : Type := mk_certificate {
  cc_version : Z; cc_network_name : list Z; cc_root_public_key : list Z; cc_root_fingerprint : list Z; cc_subject : list Z; cc_serial : Z; cc_issued_unix : Z; cc_expiry_unix : Z;
  cc_role : list Z; cc_groups : list (list Z); cc_allow_relay : bool; cc_allowed_proxy_cidrs : list (list Z); cc_reusable : bool; cc_signature : list Z; cc_certificate_id : list Z;
}.
Record TrustedCredentialPubkey : Type := mk_credential {
  tc_pubkey : list Z; tc_groups : list (list Z); tc_allow_relay : bool; tc_expiry_unix : Z; tc_allowed_proxy_cidrs : list (list Z); tc_reusable : option bool; tc_version : Z; tc_serial : Z;
  tc_network_name : list Z; tc_root_public_key : list Z; tc_root_fingerprint : list Z; tc_role : list Z; tc_signature : list Z; tc_certificate : option CredentialCertificate; tc_certificate_id : list Z;
}.
Record TrustedCredentialPubkeyProof : Type := mk_proof { proof_credential : option TrustedCredentialPubkey; credential_hmac : list Z }.
Record CredentialBundle : Type := mk_bundle {
  cb_version : Z; cb_private_key : list Z; cb_network_name : list Z; cb_root_public_key : list Z; cb_root_fingerprint : list Z; cb_serial : Z; cb_certificate : option CredentialCertificate; cb_issued_unix : Z;
  cb_expiry_unix : Z; cb_role : list Z; cb_groups : list (list Z); cb_allow_relay : bool; cb_allowed_proxy_cidrs : list (list Z); cb_reusable : bool; cb_certificate_id : list Z;
}.
Record CredentialRevocationState : Type := mk_revocation {
  rs_version : Z; rs_network_name : list Z; rs_root_public_key : list Z; rs_root_fingerprint : list Z; rs_state_version : Z; rs_revoked_serials : list Z; rs_issued_unix : Z; rs_signature : list Z; rs_revoked_certificate_ids : list (list Z);
}.
Record CredentialCertificateStatus : Type := mk_status {
  cs_version : Z; cs_network_name : list Z; cs_root_fingerprint : list Z; cs_certificate_id : list Z; cs_sequence : Z; cs_issued_unix : Z; cs_not_after_unix : Z; cs_revoked : bool; cs_signature : list Z; cs_root_public_key : list Z;
}.
#[export] Instance certificate_eq_dec : EqDecision CredentialCertificate.
Proof. solve_decision. Defined.
#[export] Instance credential_eq_dec : EqDecision TrustedCredentialPubkey.
Proof. solve_decision. Defined.

Inductive CredentialError : Type :=
  InvalidEncoding | InvalidBundle | WrongNetwork | WrongRoot | Expired | Revoked | InvalidSignature | InvalidSerial | InvalidStateVersion | InvalidCertificateId
  | InvalidLifetime | IssuerUnavailable | FutureTimestamp | DuplicatePolicyValue | StorageUnavailable.

(** ** Order of text and of identifiers *)
Fixpoint text_leb (a b : list Z) : bool :=
  match a, b with
  | [], _ => true
  | _ :: _, [] => false
  | x :: a, y :: b => if x <? y then true else if y <? x then false else text_leb a b
  end.
Definition text_le (a b : list Z) : Prop := text_leb a b = true.
#[export] Instance text_le_dec a b : Decision (text_le a b) := decide (text_leb a b = true).
Definition text_ltb (a b : list Z) : bool := negb (text_leb b a).
Definition all_zero (l : list Z) : bool := forallb (fun b => b =? 0) l.
(** [windows(2).all(...)] *)
Fixpoint windows_all (f : list Z -> list Z -> bool) (l : list (list Z)) : bool :=
  match l with a :: ((b :: _) as l) => f a b && windows_all f l | _ => true end.
Definition blank (s : list Z) : bool := bool_decide (Text.trim s = []).
Definition canonical_strings_checked (values : list (list Z)) : outcome CredentialError (list (list Z)) :=
  _ ← ensure (negb (existsb blank values)) InvalidBundle;
  let sorted := merge_sort text_le values in
  _ ← ensure (windows_all (fun a b => negb (bool_decide (a = b))) sorted) DuplicatePolicyValue;
  Ok sorted.
Definition is_canonical_strings (values : list (list Z)) : bool := forallb (fun s => negb (blank s)) values && windows_all text_ltb values.

(** ** The store of a manager *)
Record CredentialEntry : Type := mk_entry {
  e_pubkey : list Z; e_bundle : list Z; e_certificate_id : list Z; e_role : list Z; e_certificate_signature : list Z; e_certificate_bytes : list Z; e_groups : list (list Z); e_allow_relay : bool;
  e_allowed_proxy_cidrs : list (list Z); e_reusable : bool; e_expiry_unix : Z; e_created_at_unix : Z;
}.
Record CredentialStore : Type := mk_store { credentials : gmap (list Z) CredentialEntry; revocation_state_version : Z; revoked_certificate_ids : gset (list Z) }.
Definition default_store : CredentialStore := mk_store ∅ 0 ∅.
(** [disk] is what the file holds; a manager without a path has none *)
Record CredentialManager : Type := mk_manager {
  store : CredentialStore; has_path : bool; disk : option CredentialStore; network_name : list Z; root_seed : option (list Z); root_public_key : list Z; root_fingerprint : list Z;
}.
Definition with_store (m : CredentialManager) (s : CredentialStore) : CredentialManager := mk_manager s (has_path m) (disk m) (network_name m) (root_seed m) (root_public_key m) (root_fingerprint m).
Definition with_disk (m : CredentialManager) (d : CredentialStore) : CredentialManager := mk_manager (store m) (has_path m) (Some d) (network_name m) (root_seed m) (root_public_key m) (root_fingerprint m).

Definition is_active_at (e : CredentialEntry) (now : Z) (revoked : gset (list Z)) : bool :=
  (len (e_certificate_id e) =? CERTIFICATE_ID_LEN) && (now <? e_expiry_unix e) && negb (bool_decide (e_certificate_id e ∈ revoked)).
Definition is_certificate_id_revoked (m : CredentialManager) (id : list Z) : bool := bool_decide (id ∈ revoked_certificate_ids (store m)).

(** [written]: the file could be written *)
Definition persist_store (written : bool) (m : CredentialManager) : CredentialManager * outcome CredentialError unit :=
  if has_path m then if written then (with_disk m (store m), Ok tt) else (m, Err StorageUnavailable) else (m, Ok tt).
Definition save_to_disk (written : bool) (m : CredentialManager) : CredentialManager := if has_path m && written then with_disk m (store m) else m.
(** [readable]: the file is there, no link, private and can be parsed *)
Definition load_from_disk (readable : bool) (m : CredentialManager) : CredentialManager :=
  if has_path m && readable then match disk m with Some s => with_store m s | None => m end else m.
Definition remove_expired_credentials_at (now : Z) (written : bool) (m : CredentialManager) : CredentialManager * bool :=
  let s := store m in
  let kept := filter (fun x : list Z * CredentialEntry => is_active_at x.2 now (revoked_certificate_ids s) = true) (credentials s) in
  let removed := negb (Nat.eqb (size kept) (size (credentials s))) in
  let m := with_store m (mk_store kept (revocation_state_version s) (revoked_certificate_ids s)) in
  (if removed then save_to_disk written m else m, removed).

Section Manager.
Context `{Signatures, Hmac, Base64, Codec CredentialCertificate, Codec CredentialBundle, Codec CredentialRevocationState, Codec CredentialCertificateStatus, Codec TrustedCredentialPubkey}.

Definition derive_root_seed (name secret : list Z) : list Z := sha256 (ROOT_SEED_DOMAIN ++ to_be 8 (len name) ++ name ++ to_be 8 (len secret) ++ secret).
Definition root_fingerprint_for (root : list Z) : list Z := sha256 (ROOT_FINGERPRINT_DOMAIN ++ to_be 8 (len root) ++ root).
Definition certificate_signing_bytes (c : CredentialCertificate) : list Z :=
  CERTIFICATE_DOMAIN ++ encode (mk_certificate (cc_version c) (cc_network_name c) (cc_root_public_key c) (cc_root_fingerprint c) (cc_subject c) (cc_serial c) (cc_issued_unix c) (cc_expiry_unix c)
    (cc_role c) (cc_groups c) (cc_allow_relay c) (cc_allowed_proxy_cidrs c) (cc_reusable c) [] (cc_certificate_id c)).
Definition revocation_signing_bytes (s : CredentialRevocationState) : list Z :=
  REVOCATION_DOMAIN ++ encode (mk_revocation (rs_version s) (rs_network_name s) (rs_root_public_key s) (rs_root_fingerprint s) (rs_state_version s) (rs_revoked_serials s) (rs_issued_unix s) [] (rs_revoked_certificate_ids s)).
Definition status_signing_bytes (s : CredentialCertificateStatus) : list Z :=
  STATUS_DOMAIN ++ encode (mk_status (cs_version s) (cs_network_name s) (cs_root_fingerprint s) (cs_certificate_id s) (cs_sequence s) (cs_issued_unix s) (cs_not_after_unix s) (cs_revoked s) [] (cs_root_public_key s)).
Definition encode_bundle (b : CredentialBundle) : list Z := url_encode (encode b).
Definition decode_pubkey_b64 (s : list Z) : option (list Z) := decoded ← b64_decode s; if len decoded =? 32 then Some decoded else None.
(** [TrustedCredentialPubkeyProof] (proto/peer_rpc.rs) *)
Definition generate_credential_hmac_from_bytes (bytes secret : list Z) : list Z := hmac_sha256 secret (str "lowertier credential proof" ++ bytes).
Definition new_signed (c : TrustedCredentialPubkey) (secret : list Z) : TrustedCredentialPubkeyProof := mk_proof (Some c) (generate_credential_hmac_from_bytes (encode c) secret).
Definition verify_credential_hmac_with_bytes (p : TrustedCredentialPubkeyProof) (bytes secret : list Z) : bool :=
  negb (bool_decide (credential_hmac p = [])) && bool_decide (credential_hmac p = generate_credential_hmac_from_bytes bytes secret).
Definition verify_credential_hmac (p : TrustedCredentialPubkeyProof) (secret : list Z) : bool :=
  match proof_credential p with Some c => verify_credential_hmac_with_bytes p (encode c) secret | None => false end.

(** *** Verification *)
(** too long to live, or no life at all *)
Definition bad_lifetime (issued expiry : Z) : bool := (expiry <=? issued) || (MAX_CREDENTIAL_TTL / second <? i64_saturate (expiry - issued)).
Definition from_the_future (issued now : Z) : bool := i64_saturate (now + MAX_FUTURE_SKEW) <? issued.
Definition verify_credential_certificate (c : CredentialCertificate) (name root : list Z) (pinned : option (list Z)) (now : Z) : outcome CredentialError unit :=
  if negb (len root =? 32) || negb (cc_version c =? CREDENTIAL_BUNDLE_VERSION) || negb (bool_decide (cc_network_name c = name)) || negb (bool_decide (cc_root_public_key c = root))
     || negb (bool_decide (cc_root_fingerprint c = root_fingerprint_for root)) || negb (len (cc_certificate_id c) =? CERTIFICATE_ID_LEN) || all_zero (cc_certificate_id c)
     || negb (cc_serial c =? 0) || negb (len (cc_subject c) =? 32) || (cc_expiry_unix c <=? now) || from_the_future (cc_issued_unix c) now || bad_lifetime (cc_issued_unix c) (cc_expiry_unix c)
     || negb (len (cc_signature c) =? 64) || negb (is_canonical_strings (cc_groups c)) || negb (is_canonical_strings (cc_allowed_proxy_cidrs c)) then
    Err (if cc_expiry_unix c <=? now then Expired else if from_the_future (cc_issued_unix c) now then FutureTimestamp else if bad_lifetime (cc_issued_unix c) (cc_expiry_unix c) then InvalidLifetime else InvalidBundle)
  else if match pinned with Some p => negb (bool_decide (p = cc_root_fingerprint c)) | None => false end then Err WrongRoot
  else ensure (ed_verify root (certificate_signing_bytes c) (cc_signature c)) InvalidSignature.
Definition verify_trusted_credential (c : TrustedCredentialPubkey) (name : list Z) (pinned : option (list Z)) (now : Z) : outcome CredentialError unit :=
  if negb (len (tc_pubkey c) =? 32) || negb (len (tc_root_public_key c) =? 32) || negb (len (tc_root_fingerprint c) =? 32) || negb (len (tc_certificate_id c) =? CERTIFICATE_ID_LEN) || all_zero (tc_certificate_id c) then Err InvalidBundle
  else
    certificate ← ok_or (tc_certificate c) InvalidBundle;
    if negb (bool_decide (cc_certificate_id certificate = tc_certificate_id c)) || negb (bool_decide (cc_subject certificate = tc_pubkey c)) || negb (bool_decide (cc_role certificate = str "Credential"))
       || negb (bool_decide (cc_groups certificate = tc_groups c)) || negb (Bool.eqb (cc_allow_relay certificate) (tc_allow_relay c)) || negb (cc_expiry_unix certificate =? tc_expiry_unix c)
       || negb (bool_decide (cc_allowed_proxy_cidrs certificate = tc_allowed_proxy_cidrs c)) || negb (Bool.eqb (cc_reusable certificate) (default false (tc_reusable c))) || negb (bool_decide (tc_signature c = cc_signature certificate)) then Err InvalidBundle
    else verify_credential_certificate certificate name (tc_root_public_key c) pinned now.
Definition parse_credential_bundle (encoded : list Z) : outcome CredentialError CredentialBundle :=
  bytes ← ok_or (url_decode encoded) InvalidEncoding;
  bundle ← ok_or (decode bytes) InvalidBundle;
  _ ← ensure (bool_decide (encode bundle = bytes)) InvalidBundle;
  Ok bundle.
Definition verify_credential_bundle (encoded name root : list Z) (now : Z) : outcome CredentialError CredentialBundle :=
  b ← parse_credential_bundle encoded;
  _ ← ensure (len root =? 32) WrongRoot;
  if negb (cb_version b =? CREDENTIAL_BUNDLE_VERSION) || negb (bool_decide (cb_network_name b = name)) || negb (bool_decide (cb_root_public_key b = root)) || negb (bool_decide (cb_root_fingerprint b = root_fingerprint_for root)) then
    Err (if negb (bool_decide (cb_network_name b = name)) then WrongNetwork else WrongRoot)
  else if negb (len (cb_private_key b) =? 32) || (cb_expiry_unix b <=? now) || from_the_future (cb_issued_unix b) now || bad_lifetime (cb_issued_unix b) (cb_expiry_unix b)
          || negb (len (cb_certificate_id b) =? CERTIFICATE_ID_LEN) || all_zero (cb_certificate_id b) then
    Err (if cb_expiry_unix b <=? now then Expired else if from_the_future (cb_issued_unix b) now then FutureTimestamp else if bad_lifetime (cb_issued_unix b) (cb_expiry_unix b) then InvalidLifetime else InvalidCertificateId)
  else
    c ← ok_or (cb_certificate b) InvalidBundle;
    if negb (is_canonical_strings (cb_groups b)) || negb (is_canonical_strings (cb_allowed_proxy_cidrs b)) || negb (cc_version c =? CREDENTIAL_BUNDLE_VERSION) || negb (cc_serial c =? 0)
       || negb (bool_decide (cc_certificate_id c = cb_certificate_id b)) || negb (bool_decide (cc_network_name c = cb_network_name b)) || negb (bool_decide (cc_root_public_key c = cb_root_public_key b))
       || negb (bool_decide (cc_root_fingerprint c = cb_root_fingerprint b)) || negb (bool_decide (cc_subject c = x_public (cb_private_key b))) || negb (cc_expiry_unix c =? cb_expiry_unix b)
       || negb (cc_issued_unix c =? cb_issued_unix b) || negb (bool_decide (cb_role b = str "Credential")) || negb (bool_decide (cc_role c = cb_role b)) || negb (bool_decide (cc_groups c = cb_groups b))
       || negb (Bool.eqb (cc_allow_relay c) (cb_allow_relay b)) || negb (bool_decide (cc_allowed_proxy_cidrs c = cb_allowed_proxy_cidrs b)) || negb (Bool.eqb (cc_reusable c) (cb_reusable b))
       || negb (len (cc_signature c) =? 64) then Err InvalidBundle
    else
      _ ← verify_credential_certificate c name root (Some (cb_root_fingerprint b)) now;
      Ok b.
Definition verify_credential_bundle_for_network (encoded name : list Z) (pinned : option (list Z)) (now : Z) : outcome CredentialError CredentialBundle :=
  b ← parse_credential_bundle encoded;
  _ ← ensure (bool_decide (cb_network_name b = name)) WrongNetwork;
  _ ← ensure (match pinned with Some p => bool_decide (p = cb_root_fingerprint b) | None => true end) WrongRoot;
  verify_credential_bundle encoded name (cb_root_public_key b) now.
(** a certificate of a handshake *)
Definition verify_certificate_bytes (bytes name fingerprint subject role : list Z) (now : Z) : outcome CredentialError CredentialCertificate :=
  c ← ok_or (decode bytes) InvalidBundle;
  _ ← ensure (bool_decide (encode c = bytes) && (len subject =? 32)) InvalidBundle;
  _ ← verify_credential_certificate c name (cc_root_public_key c) (Some fingerprint) now;
  _ ← ensure (bool_decide (cc_subject c = subject) && bool_decide (cc_role c = role)) InvalidBundle;
  Ok c.
Definition verify_status_evidence_bytes (bytes name fingerprint certificate_id : list Z) (now max_lifetime minimum_sequence : Z) : outcome CredentialError CredentialCertificateStatus :=
  s ← ok_or (decode bytes) InvalidBundle;
  _ ← ensure (bool_decide (encode s = bytes) && (len fingerprint =? 32) && (len certificate_id =? CERTIFICATE_ID_LEN)) InvalidBundle;
  if negb (cs_version s =? CREDENTIAL_STATE_VERSION) || negb (bool_decide (cs_network_name s = name)) || negb (bool_decide (cs_root_fingerprint s = fingerprint)) || negb (len (cs_root_public_key s) =? 32)
     || negb (bool_decide (root_fingerprint_for (cs_root_public_key s) = fingerprint)) || negb (bool_decide (cs_certificate_id s = certificate_id)) || (cs_sequence s <? minimum_sequence)
     || from_the_future (cs_issued_unix s) now || (cs_not_after_unix s <=? cs_issued_unix s) || (cs_not_after_unix s <=? now)
     || (Z.min (max_lifetime / second) (MAX_STATUS_LIFETIME / second) <? i64_saturate (cs_not_after_unix s - cs_issued_unix s)) || negb (len (cs_signature s) =? 64) then
    Err (if from_the_future (cs_issued_unix s) now then FutureTimestamp else if cs_not_after_unix s <=? now then Expired else InvalidBundle)
  else
    _ ← ensure (ed_verify (cs_root_public_key s) (status_signing_bytes s) (cs_signature s)) InvalidSignature;
    _ ← ensure (negb (cs_revoked s)) Revoked;
    Ok s.
Definition verify_revocation_state_at (encoded name root : list Z) (minimum_version now : Z) : outcome CredentialError CredentialRevocationState :=
  _ ← ensure (len root =? 32) WrongRoot;
  bytes ← ok_or (url_decode encoded) InvalidEncoding;
  s ← ok_or (decode bytes) InvalidBundle;
  _ ← ensure (bool_decide (encode s = bytes)) InvalidBundle;
  let too_old := rs_issued_unix s <? i64_saturate (now - MAX_REVOCATION_AGE) in
  if negb (rs_version s =? CREDENTIAL_STATE_VERSION) || negb (bool_decide (rs_network_name s = name)) || negb (bool_decide (rs_root_public_key s = root)) || negb (bool_decide (rs_root_fingerprint s = root_fingerprint_for root))
     || too_old || from_the_future (rs_issued_unix s) now || negb (bool_decide (rs_revoked_serials s = []))
     || existsb (fun id => negb (len id =? CERTIFICATE_ID_LEN) || all_zero id) (rs_revoked_certificate_ids s) then
    Err (if from_the_future (rs_issued_unix s) now then FutureTimestamp else if too_old then Expired else WrongRoot)
  else
    _ ← ensure (negb (rs_state_version s <? minimum_version) && windows_all text_ltb (rs_revoked_certificate_ids s)) InvalidStateVersion;
    _ ← ensure (ed_verify root (revocation_signing_bytes s) (rs_signature s)) InvalidSignature;
    Ok s.

(** *** Issuing *)
Definition admin_root (name secret : list Z) : list Z * list Z * list Z :=
  let seed := derive_root_seed name secret in (seed, ed_public seed, root_fingerprint_for (ed_public seed)).
Definition try_new_with_network_and_bundle (path : bool) (file : option CredentialStore) (readable : bool) (name : list Z) (secret bundle pinned : option (list Z)) (now : Z) : outcome CredentialError CredentialManager :=
  let secret := match secret with Some [] => None | x => x end in
  root ← match secret with
         | Some secret => let '(seed, public, fingerprint) := admin_root name secret in Ok (Some seed, public, fingerprint)
         | None =>
             match bundle with
             | Some encoded =>
                 b ← verify_credential_bundle_for_network encoded name pinned now;
                 _ ← ensure (len (cb_root_public_key b) =? 32) WrongRoot;
                 _ ← ensure (len (cb_root_fingerprint b) =? 32) WrongRoot;
                 Ok (None, cb_root_public_key b, cb_root_fingerprint b)
             | None => Ok (None, replicate 32 0, root_fingerprint_for (replicate 32 0))
             end
         end;
  let '(seed, public, fingerprint) := root in
  Ok (load_from_disk readable (mk_manager default_store path (if path then file else None) name seed public fingerprint)).
Definition sign_certificate (m : CredentialManager) (subject id : list Z) (issued expiry : Z) (role : list Z) (groups : list (list Z)) (allow_relay : bool) (cidrs : list (list Z)) (reusable : bool)
    : outcome CredentialError CredentialCertificate :=
  seed ← ok_or (root_seed m) IssuerUnavailable;
  _ ← ensure (len id =? CERTIFICATE_ID_LEN) InvalidCertificateId;
  let unsigned signature := mk_certificate CREDENTIAL_BUNDLE_VERSION (network_name m) (root_public_key m) (root_fingerprint m) subject 0 issued expiry role groups allow_relay cidrs reusable signature id in
  Ok (unsigned (ed_sign seed (certificate_signing_bytes (unsigned [])))).
(** the first of the drawn identifiers that is usable: the loop goes on without one *)
Definition pick_certificate_id (draws : list (list Z)) (used : list (list Z)) : option (list Z) := find (fun id => negb (all_zero id) && negb (existsb (fun u => bool_decide (u = id)) used)) draws.
Record randomness : Type := mk_random { rand_uuid : list Z; rand_ids : list (list Z); rand_private : list Z }.
(** a signed entry is kept if it can be stored *)
Definition issue (m : CredentialManager) (id certificate_id : list Z) (groups : list (list Z)) (allow_relay : bool) (cidrs : list (list Z)) (reusable : bool) (private : list Z) (now expiry : Z) (written : bool)
    : CredentialManager * outcome CredentialError (list Z * list Z) :=
  let public := x_public private in
  match (groups ← canonical_strings_checked groups;
         cidrs ← canonical_strings_checked cidrs;
         certificate ← sign_certificate m public certificate_id now expiry (str "Credential") groups allow_relay cidrs reusable;
         Ok (groups, cidrs, certificate)) with
  | Ok (groups, cidrs, certificate) =>
      let encoded := encode_bundle (mk_bundle CREDENTIAL_BUNDLE_VERSION private (network_name m) (root_public_key m) (root_fingerprint m) 0 (Some certificate) now expiry
                                      (str "Credential") groups allow_relay cidrs reusable certificate_id) in
      let entry := mk_entry (b64_encode public) encoded certificate_id (str "Credential") (cc_signature certificate) (encode certificate) groups allow_relay cidrs reusable expiry now in
      let s := store m in
      let '(m, r) := persist_store written (with_store m (mk_store (<[id := entry]> (credentials s)) (revocation_state_version s) (revoked_certificate_ids s))) in
      match r with
      | Ok _ => (m, Ok (id, encoded))
      | Err e => (with_store m (mk_store (delete id (credentials (store m))) (revocation_state_version (store m)) (revoked_certificate_ids (store m))), Err e)
      | Panic => (m, Panic)
      end
  | Err e => (m, Err e)
  | Panic => (m, Panic)
  end.
(** [None]: no identifier was drawn yet that can be used *)
Definition generate_credential_bundle (m : CredentialManager) (groups : list (list Z)) (allow_relay : bool) (cidrs : list (list Z)) (ttl : Z) (credential_id : option (list Z)) (reusable : bool)
    (random : randomness) (now now' : Z) (written written' : bool) : option (CredentialManager * outcome CredentialError (list Z * list Z)) :=
  if bool_decide (root_seed m = None) then Some (m, Err IssuerUnavailable)
  else if (ttl / second =? 0) || (MAX_CREDENTIAL_TTL <? ttl) then Some (m, Err InvalidLifetime)
  else
    let m := (remove_expired_credentials_at now written m).1 in
    let id := match credential_id with Some id => if bool_decide (Text.trim id = []) then rand_uuid random else Text.trim id | None => rand_uuid random end in
    match credentials (store m) !! id with
    | Some ({| e_bundle := _ :: _ |} as existing) => Some (m, Ok (id, e_bundle existing))
    | _ =>
        certificate_id ← pick_certificate_id (rand_ids random) (e_certificate_id <$> (map_to_list (credentials (store m))).*2);
        Some (issue m id certificate_id groups allow_relay cidrs reusable (rand_private random) now' (i64_saturate (now' + ttl / second)) written')
    end.
Definition new_admin_certificate (m : CredentialManager) (subject : list Z) (ttl : Z) (draws : list (list Z)) (now : Z) : option (outcome CredentialError CredentialCertificate) :=
  if (ttl / second =? 0) || (MAX_CREDENTIAL_TTL <? ttl) then Some (Err InvalidLifetime)
  else
    id ← pick_certificate_id draws [];
    Some (sign_certificate m subject id now (i64_saturate (now + ttl / second)) (str "Admin") [] true [] true).
Definition to_trusted_credential (m : CredentialManager) (e : CredentialEntry) : option TrustedCredentialPubkey :=
  pubkey ← decode_pubkey_b64 (e_pubkey e);
  Some (mk_credential pubkey (e_groups e) (e_allow_relay e) (e_expiry_unix e) (e_allowed_proxy_cidrs e) (Some (e_reusable e)) CREDENTIAL_BUNDLE_VERSION 0 (network_name m) (root_public_key m) (root_fingerprint m)
          (e_role e) (e_certificate_signature e) (decode (e_certificate_bytes e)) (e_certificate_id e)).
Definition active_entries (m : CredentialManager) (now : Z) : list CredentialEntry :=
  filter (fun e => is_active_at e now (revoked_certificate_ids (store m)) = true) (map_to_list (credentials (store m))).*2.
Definition get_trusted_pubkeys (m : CredentialManager) (secret : list Z) (now : Z) : list TrustedCredentialPubkeyProof :=
  if bool_decide (root_seed m = None) then [] else omap (fun e => (fun c => new_signed c secret) <$> to_trusted_credential m e) (active_entries m now).
Definition is_pubkey_trusted (m : CredentialManager) (pubkey : list Z) (now : Z) : bool := existsb (fun e => bool_decide (e_pubkey e = b64_encode pubkey)) (active_entries m now).

(** *** Revoking *)
Definition try_revoke_credential (m : CredentialManager) (credential_id : list Z) (written : bool) : CredentialManager * outcome CredentialError bool :=
  if bool_decide (root_seed m = None) then (m, Err IssuerUnavailable)
  else
    let s := store m in
    match credentials s !! credential_id with
    | None => (m, Ok false)
    | Some entry =>
        if negb (len (e_certificate_id entry) =? CERTIFICATE_ID_LEN) then (m, Err InvalidCertificateId)
        else
          match checked_add 64 (revocation_state_version s) 1 with
          | None => (m, Err InvalidStateVersion)
          | Some next_version =>
              let '(m, r) := persist_store written (with_store m (mk_store (delete credential_id (credentials s)) next_version ({[e_certificate_id entry]} ∪ revoked_certificate_ids s))) in
              match r with
              | Ok _ => (m, Ok true)
              | Err e =>
                  let s := store m in
                  (with_store m (mk_store (<[credential_id := entry]> (credentials s)) (next_version - 1) (revoked_certificate_ids s ∖ {[e_certificate_id entry]})), Err e)
              | Panic => (m, Panic)
              end
          end
    end.
Definition revocation_state (m : CredentialManager) (now : Z) : outcome CredentialError (list Z) :=
  seed ← ok_or (root_seed m) IssuerUnavailable;
  let unsigned signature := mk_revocation CREDENTIAL_STATE_VERSION (network_name m) (root_public_key m) (root_fingerprint m) (revocation_state_version (store m)) [] now signature
                              (merge_sort text_le (elements (revoked_certificate_ids (store m)))) in
  Ok (url_encode (encode (unsigned (ed_sign seed (revocation_signing_bytes (unsigned [])))))).
Definition apply_revocation_state (m : CredentialManager) (encoded : list Z) (now : Z) (written : bool) : CredentialManager * outcome CredentialError unit :=
  match verify_revocation_state_at encoded (network_name m) (root_public_key m) 0 now with
  | Ok state =>
      let s := store m in
      let ids := revoked_certificate_ids s ∪ list_to_set (rs_revoked_certificate_ids state) in
      let version := Z.max (revocation_state_version s) (rs_state_version state) in
      let m := with_store m (mk_store (credentials s) version ids) in
      if Nat.eqb (size (revoked_certificate_ids s)) (size ids) && (revocation_state_version s =? version) then (m, Ok tt) else (save_to_disk written m, Ok tt)
  | Err e => (m, Err e)
  | Panic => (m, Panic)
  end.
(** [sequence]: the time in milliseconds *)
Definition new_admin_certificate_status_ephemeral (m : CredentialManager) (certificate_id : list Z) (ttl now sequence : Z) : outcome CredentialError CredentialCertificateStatus :=
  seed ← ok_or (root_seed m) IssuerUnavailable;
  _ ← ensure (negb (negb (len certificate_id =? CERTIFICATE_ID_LEN) || all_zero certificate_id)) InvalidCertificateId;
  _ ← ensure (negb ((ttl / second =? 0) || (MAX_STATUS_LIFETIME <? ttl))) InvalidLifetime;
  let unsigned signature := mk_status CREDENTIAL_STATE_VERSION (network_name m) (root_fingerprint m) certificate_id sequence now (i64_saturate (now + ttl / second))
                              (is_certificate_id_revoked m certificate_id) signature (root_public_key m) in
  Ok (unsigned (ed_sign seed (status_signing_bytes (unsigned [])))).
End Manager.
End Credentials.
