(* ===== verification/CredentialsProps.v ===== *)
(** * Properties of credentials

    What an administrator issues is accepted everywhere until it expires or is revoked, and revocations reach every node and
    stay (Credentials). *)
From stdpp Require Import base list gmap numbers sorting countable strings.
From Stdlib Require Import ZArith Lia.
From S2P Require Import Prelude NetAddr SecureDatagram Credentials.

Local Open Scope Z_scope.

Module CredentialsProps.
Import Credentials.

(** ** The order of text *)
Lemma text_leb_refl a : text_leb a a = true.
Proof. induction a as [|x a IH]; [done|]. simpl. by rewrite Z.ltb_irrefl. Qed.
Lemma text_leb_total a b : text_leb a b = true \/ text_leb b a = true.
Proof.
  revert b. induction a as [|x a IH]; intros [|y b]; simpl; auto. destruct (Z.ltb_spec x y), (Z.ltb_spec y x); auto; lia.
Qed.
Lemma text_leb_trans a b c : text_leb a b = true -> text_leb b c = true -> text_leb a c = true.
Proof.
  revert b c. induction a as [|x a IH]; intros [|y b] [|z c]; simpl; try done.
  destruct (Z.ltb_spec x y), (Z.ltb_spec y x), (Z.ltb_spec y z), (Z.ltb_spec z y), (Z.ltb_spec x z), (Z.ltb_spec z x); try done; try lia. apply IH.
Qed.
Lemma text_leb_antisym a b : text_leb a b = true -> text_leb b a = true -> a = b.
Proof.
  revert b. induction a as [|x a IH]; intros [|y b]; simpl; try done. destruct (Z.ltb_spec x y), (Z.ltb_spec y x); try done; try lia.
  intros H1 H2. f_equal; [lia|by apply IH].
Qed.
#[export] Instance text_le_total : Total text_le.
Proof. intros a b. apply text_leb_total. Qed.
#[export] Instance text_le_trans : Transitive text_le.
Proof. intros a b c. apply text_leb_trans. Qed.
(** sorted without repetition is strictly increasing *)
Lemma sorted_strict l : StronglySorted text_le l -> NoDup l -> windows_all text_ltb l = true.
Proof.
  induction 1 as [|a l Hs IH Ha]; [done|]. intros Hn. apply NoDup_cons in Hn as [Hn Hl]. destruct l as [|b l]; [done|]. change (text_ltb a b && windows_all text_ltb (b :: l) = true). rewrite (IH Hl), andb_true_r.
  apply Forall_cons in Ha as [Ha _]. unfold text_ltb. destruct (text_leb b a) eqn:E; [|done]. assert (a = b) as -> by (by apply text_leb_antisym). set_solver.
Qed.
Lemma merge_sort_strict l : NoDup l -> windows_all text_ltb (merge_sort text_le l) = true.
Proof. intros Hn. apply sorted_strict; [apply (StronglySorted_merge_sort text_le)|]. by rewrite merge_sort_Permutation. Qed.
Lemma windows_distinct l : StronglySorted text_le l -> windows_all (fun a b => negb (bool_decide (a = b))) l = true -> windows_all text_ltb l = true.
Proof.
  induction 1 as [|a l Hs IH Ha]; [done|]. destruct l as [|b l]; [done|]. intros [Hd Hw]%andb_prop. change (text_ltb a b && windows_all text_ltb (b :: l) = true). rewrite (IH Hw), andb_true_r.
  apply Forall_cons in Ha as [Ha _]. unfold text_ltb. destruct (text_leb b a) eqn:E; [|done]. assert (a = b) as -> by (by apply text_leb_antisym). by rewrite bool_decide_eq_true_2 in Hd.
Qed.
(** what [canonical_strings_checked] returns is canonical and has the same members *)
Lemma canonical_checked l l' : canonical_strings_checked l = Ok l' -> is_canonical_strings l' = true /\ l' ≡ₚ l.
Proof.
  unfold canonical_strings_checked. destruct (existsb blank l) eqn:Eb; cbn [ensure negb mbind outcome_bind]; [done|].
  destruct (windows_all _ _) eqn:Ew; cbn [ensure mbind outcome_bind]; [|done]. intros [= <-]. split; [|apply merge_sort_Permutation].
  unfold is_canonical_strings. apply andb_true_intro. split; [|apply windows_distinct; [apply (StronglySorted_merge_sort text_le)|done]].
  apply forallb_forall. intros s Hs. apply list_elem_of_In in Hs. rewrite merge_sort_Permutation in Hs. destruct (blank s) eqn:E; [|done].
  assert (existsb blank l = true); [|congruence]. apply existsb_exists. exists s. split; [by apply list_elem_of_In|done].
Qed.

Section Manager.
Context {S : Signatures} {SL : SignatureLaws S} {Hm : Hmac} {HL : HmacLaws Hm} {B : Base64} {BL : Base64Laws B}.
Context {C1 : Codec CredentialCertificate} {L1 : CodecLaws C1} {C2 : Codec CredentialBundle} {L2 : CodecLaws C2} {C3 : Codec CredentialRevocationState} {L3 : CodecLaws C3}.
Context {C4 : Codec CredentialCertificateStatus} {L4 : CodecLaws C4} {C5 : Codec TrustedCredentialPubkey}.

(** ** What is issued *)
(** a manager that can sign *)
Record admin (m : CredentialManager) : Prop := {
  admin_seed : exists seed, root_seed m = Some seed /\ length seed = 32%nat /\ root_public_key m = ed_public seed;
  admin_fingerprint : root_fingerprint m = root_fingerprint_for (root_public_key m);
}.
Lemma admin_public_length m : admin m -> len (root_public_key m) = 32.
Proof. intros [(seed & _ & Hl & ->) _]. unfold len. by rewrite ed_public_length. Qed.
(** times far from the ends of their type *)
Definition time_ok (t : Z) : Prop := 0 <= t <= 2 ^ 62.
Lemma saturate_small z : - 2 ^ 63 <= z < 2 ^ 63 -> i64_saturate z = z.
Proof. unfold i64_saturate. lia. Qed.
Definition lifetime_ok (issued expiry : Z) : Prop := issued < expiry <= issued + 86400.
Lemma lifetime_fine issued expiry : time_ok issued -> lifetime_ok issued expiry -> bad_lifetime issued expiry = false.
Proof.
  unfold time_ok, lifetime_ok, bad_lifetime. intros. rewrite saturate_small by lia. change (MAX_CREDENTIAL_TTL / second) with 86400.
  apply orb_false_intro; [apply Z.leb_gt; lia|apply Z.ltb_ge; lia].
Qed.
Lemma not_from_the_future issued now : time_ok issued -> time_ok now -> issued - MAX_FUTURE_SKEW <= now -> from_the_future issued now = false.
Proof. unfold time_ok, from_the_future, MAX_FUTURE_SKEW. intros. rewrite saturate_small by lia. apply Z.ltb_ge. lia. Qed.
Definition id_ok (id : list Z) : Prop := len id = CERTIFICATE_ID_LEN /\ all_zero id = false.
(** a signed certificate is accepted from shortly before it is issued until it expires *)
Lemma signed_verifies m subject id issued expiry role groups relay cidrs reusable c now :
  admin m -> sign_certificate m subject id issued expiry role groups relay cidrs reusable = Ok c ->
  len subject = 32 -> id_ok id -> time_ok issued -> lifetime_ok issued expiry -> is_canonical_strings groups = true -> is_canonical_strings cidrs = true ->
  time_ok now -> issued - MAX_FUTURE_SKEW <= now < expiry ->
  verify_credential_certificate c (network_name m) (root_public_key m) (Some (root_fingerprint m)) now = Ok tt.
Proof.
  intros Ha Hs Hsub [Hid1 Hid2] Hi Hl Hg Hc Hn Hw. pose proof (admin_public_length m Ha) as Hpub. destruct Ha as [(seed & Es & Hseed & Ep) Ef]. unfold sign_certificate in Hs. rewrite Es in Hs.
  cbn [ok_or mbind outcome_bind] in Hs. rewrite Hid1 in Hs. cbn [ensure mbind outcome_bind Z.eqb CERTIFICATE_ID_LEN Pos.eqb] in Hs. injection Hs as <-.
  unfold verify_credential_certificate. cbn [cc_version cc_network_name cc_root_public_key cc_root_fingerprint cc_certificate_id cc_serial cc_subject cc_expiry_unix cc_issued_unix cc_signature cc_groups cc_allowed_proxy_cidrs].
  rewrite Hpub, Hid1, Hid2, Hsub, Hg, Hc, Ef. rewrite !bool_decide_eq_true_2 by done. rewrite lifetime_fine, not_from_the_future, (proj2 (Z.leb_gt _ _)) by (done || lia).
  unfold len. rewrite ed_sign_length by done. cbn. unfold certificate_signing_bytes. cbn. rewrite Ep. unfold certificate_signing_bytes. rewrite ed_verify_sign by done. done.
Qed.
Definition bundle_of (m : CredentialManager) (e : CredentialEntry) (private : list Z) (c : CredentialCertificate) : CredentialBundle :=
  mk_bundle CREDENTIAL_BUNDLE_VERSION private (network_name m) (root_public_key m) (root_fingerprint m) 0 (Some c) (e_created_at_unix e) (e_expiry_unix e) (str "Credential")
    (e_groups e) (e_allow_relay e) (e_allowed_proxy_cidrs e) (e_reusable e) (e_certificate_id e).
Definition sign_entry (m : CredentialManager) (e : CredentialEntry) (private : list Z) : outcome CredentialError CredentialCertificate :=
  sign_certificate m (x_public private) (e_certificate_id e) (e_created_at_unix e) (e_expiry_unix e) (str "Credential") (e_groups e) (e_allow_relay e) (e_allowed_proxy_cidrs e) (e_reusable e).
(** an entry that the manager issued *)
Record issued_with (m : CredentialManager) (e : CredentialEntry) (private : list Z) (c : CredentialCertificate) : Prop := {
  iw_private : len private = 32;
  iw_sign : sign_entry m e private = Ok c;
  iw_pubkey : e_pubkey e = b64_encode (x_public private);
  iw_bundle : e_bundle e = encode_bundle (bundle_of m e private c);
  iw_role : e_role e = str "Credential";
  iw_signature : e_certificate_signature e = cc_signature c;
  iw_bytes : e_certificate_bytes e = encode c;
  iw_id : id_ok (e_certificate_id e);
  iw_time : time_ok (e_created_at_unix e);
  iw_life : lifetime_ok (e_created_at_unix e) (e_expiry_unix e);
  iw_groups : is_canonical_strings (e_groups e) = true;
  iw_cidrs : is_canonical_strings (e_allowed_proxy_cidrs e) = true;
}.
Definition issued (m : CredentialManager) (e : CredentialEntry) : Prop := exists private c, issued_with m e private c.
Lemma x_public_len private : len private = 32 -> len (x_public private) = 32.
Proof. unfold len. intros E. rewrite x_public_length; [done|lia]. Qed.
(** the certificate says what the entry says *)
Lemma sign_entry_fields m e private c : sign_entry m e private = Ok c ->
  cc_version c = CREDENTIAL_BUNDLE_VERSION /\ cc_serial c = 0 /\ cc_network_name c = network_name m /\ cc_root_public_key c = root_public_key m /\ cc_root_fingerprint c = root_fingerprint m /\
  cc_subject c = x_public private /\ cc_issued_unix c = e_created_at_unix e /\ cc_expiry_unix c = e_expiry_unix e /\ cc_role c = str "Credential" /\ cc_groups c = e_groups e /\
  cc_allow_relay c = e_allow_relay e /\ cc_allowed_proxy_cidrs c = e_allowed_proxy_cidrs e /\ cc_reusable c = e_reusable e /\ cc_certificate_id c = e_certificate_id e.
Proof. unfold sign_entry, sign_certificate. destruct (root_seed m); [|done]. cbn [ok_or mbind outcome_bind]. destruct (_ =? _); [|done]. cbn [ensure mbind outcome_bind]. intros [= <-]. done. Qed.
Lemma issued_certificate_verifies m e private c now : admin m -> issued_with m e private c -> time_ok now -> e_created_at_unix e - MAX_FUTURE_SKEW <= now < e_expiry_unix e ->
  verify_credential_certificate c (network_name m) (root_public_key m) (Some (root_fingerprint m)) now = Ok tt /\ len (cc_signature c) = 64.
Proof.
  intros Ha [] Hn Hw. split; [eapply signed_verifies; eauto using x_public_len|]. destruct Ha as [(seed & Es & Hs & _) _]. unfold sign_entry, sign_certificate in iw_sign0. rewrite Es in iw_sign0.
  cbn [ok_or mbind outcome_bind] in iw_sign0. destruct (_ =? _); [|done]. cbn [ensure mbind outcome_bind] in iw_sign0. injection iw_sign0 as <-. unfold len. cbn [cc_signature]. by rewrite ed_sign_length.
Qed.
Lemma issued_bundle_verifies m e private c now : admin m -> issued_with m e private c -> time_ok now -> e_created_at_unix e - MAX_FUTURE_SKEW <= now < e_expiry_unix e ->
  verify_credential_bundle_for_network (e_bundle e) (network_name m) (Some (root_fingerprint m)) now = Ok (bundle_of m e private c).
Proof.
  intros Ha Hi Hn Hw. destruct (issued_certificate_verifies _ _ _ _ now Ha Hi Hn Hw) as [Hv Hsig]. pose proof (admin_public_length m Ha) as Hpub. destruct Hi, iw_id0 as [Hid1 Hid2].
  destruct (sign_entry_fields _ _ _ _ iw_sign0) as (F1 & F2 & F3 & F4 & F5 & F6 & F7 & F8 & F9 & F10 & F11 & F12 & F13 & F14).
  assert (Ep : parse_credential_bundle (e_bundle e) = Ok (bundle_of m e private c)).
  { unfold parse_credential_bundle. rewrite iw_bundle0. unfold encode_bundle. rewrite url_decode_encode. cbn [ok_or mbind outcome_bind]. rewrite decode_encode. cbn [ok_or mbind outcome_bind]. by rewrite bool_decide_eq_true_2. }
  unfold verify_credential_bundle_for_network. rewrite Ep. cbn [mbind outcome_bind]. rewrite bool_decide_eq_true_2 by done. cbn [ensure mbind outcome_bind]. rewrite bool_decide_eq_true_2 by done. cbn [ensure mbind outcome_bind].
  unfold verify_credential_bundle. rewrite Ep. cbn [mbind outcome_bind cb_root_public_key cb_version cb_network_name cb_root_fingerprint cb_private_key cb_expiry_unix cb_issued_unix cb_certificate_id cb_certificate cb_groups cb_allowed_proxy_cidrs cb_role cb_allow_relay cb_reusable bundle_of].
  rewrite Hpub, iw_private0, Hid1, Hid2, lifetime_fine, not_from_the_future, (proj2 (Z.leb_gt _ _)) by (done || lia). pose proof (admin_fingerprint m Ha) as Ef. rewrite (bool_decide_eq_true_2 (root_fingerprint m = _)) by done. rewrite !bool_decide_eq_true_2 by done. cbn [ensure mbind outcome_bind negb orb Z.eqb Pos.eqb CREDENTIAL_BUNDLE_VERSION CERTIFICATE_ID_LEN ok_or].
  rewrite iw_groups0, iw_cidrs0, F1, F2, F3, F4, F5, F6, F7, F8, F9, F10, F11, F12, F13, F14, Hsig, !Z.eqb_refl, !Bool.eqb_reflx. rewrite !bool_decide_eq_true_2 by done. cbn [negb orb Z.eqb]. rewrite Hv. done.
Qed.
Definition credential_of (m : CredentialManager) (e : CredentialEntry) (private : list Z) (c : CredentialCertificate) : TrustedCredentialPubkey :=
  mk_credential (x_public private) (e_groups e) (e_allow_relay e) (e_expiry_unix e) (e_allowed_proxy_cidrs e) (Some (e_reusable e)) CREDENTIAL_BUNDLE_VERSION 0 (network_name m) (root_public_key m) (root_fingerprint m)
    (str "Credential") (cc_signature c) (Some c) (e_certificate_id e).
Lemma issued_credential m e private c : issued_with m e private c -> to_trusted_credential m e = Some (credential_of m e private c).
Proof.
  intros []. unfold to_trusted_credential, decode_pubkey_b64. rewrite iw_pubkey0, b64_decode_encode. cbn [mbind option_bind]. rewrite x_public_len by done. cbn [Z.eqb Pos.eqb mbind option_bind].
  rewrite iw_bytes0, decode_encode, iw_role0, iw_signature0. done.
Qed.
Lemma issued_credential_verifies m e private c now : admin m -> issued_with m e private c -> time_ok now -> e_created_at_unix e - MAX_FUTURE_SKEW <= now < e_expiry_unix e ->
  verify_trusted_credential (credential_of m e private c) (network_name m) (Some (root_fingerprint m)) now = Ok tt.
Proof.
  intros Ha Hi Hn Hw. destruct (issued_certificate_verifies _ _ _ _ now Ha Hi Hn Hw) as [Hv _]. pose proof (admin_public_length m Ha) as Hpub. destruct Hi, iw_id0 as [Hid1 Hid2].
  destruct (sign_entry_fields _ _ _ _ iw_sign0) as (F1 & F2 & F3 & F4 & F5 & F6 & F7 & F8 & F9 & F10 & F11 & F12 & F13 & F14).
  assert (Hf : len (root_fingerprint m) = 32) by (destruct Ha as [_ ->]; unfold len, root_fingerprint_for; by rewrite sha256_length).
  unfold verify_trusted_credential, credential_of. cbn [tc_pubkey tc_root_public_key tc_root_fingerprint tc_certificate_id tc_certificate tc_groups tc_allow_relay tc_expiry_unix tc_allowed_proxy_cidrs tc_reusable tc_signature default].
  rewrite x_public_len, Hpub, Hf, Hid1, Hid2 by done. cbn [negb orb Z.eqb Pos.eqb CERTIFICATE_ID_LEN ok_or mbind outcome_bind].
  rewrite F14, F6, F9, F10, F11, F8, F12, F13, Z.eqb_refl, !Bool.eqb_reflx. rewrite !bool_decide_eq_true_2 by done. exact Hv.
Qed.
(** the proof of an entry has its HMAC *)
Lemma new_signed_verifies c secret : verify_credential_hmac (new_signed c secret) secret = true.
Proof.
  unfold verify_credential_hmac, new_signed, verify_credential_hmac_with_bytes. cbn [proof_credential credential_hmac].
  rewrite (bool_decide_eq_true_2 (generate_credential_hmac_from_bytes (encode c) secret = generate_credential_hmac_from_bytes (encode c) secret)) by done. rewrite andb_true_r.
  unfold generate_credential_hmac_from_bytes. apply negb_true_iff, bool_decide_eq_false. intros E. pose proof (hmac_length secret (str "lowertier credential proof" ++ encode c)) as L. by rewrite E in L.
Qed.

(** *** Well-formed managers *)
Definition store_ok (m : CredentialManager) (s : CredentialStore) : Prop :=
  (forall id e, credentials s !! id = Some e -> issued m e) /\ (forall id, id ∈ revoked_certificate_ids s -> id_ok id).
Definition well_formed (m : CredentialManager) : Prop := store_ok m (store m) /\ (forall d, disk m = Some d -> store_ok m d).
Definition same_root (m m' : CredentialManager) : Prop := network_name m' = network_name m /\ root_seed m' = root_seed m /\ root_public_key m' = root_public_key m /\ root_fingerprint m' = root_fingerprint m.
Lemma same_root_admin m m' : same_root m m' -> admin m -> admin m'.
Proof. intros (E1 & E2 & E3 & E4) [Hs Hf]. split; [by rewrite E2, E3|by rewrite E3, E4]. Qed.
Lemma same_root_issued m m' e : same_root m m' -> issued m e -> issued m' e.
Proof.
  intros (E1 & E2 & E3 & E4) (private & c & []). exists private, c. split; try done.
  - revert iw_sign0. unfold sign_entry, sign_certificate. by rewrite E1, E2, E3, E4.
  - rewrite iw_bundle0. unfold bundle_of. by rewrite E1, E3, E4.
Qed.
Lemma same_root_store m m' s : same_root m m' -> store_ok m s -> store_ok m' s.
Proof. intros Hr [H1 H2]. split; [|done]. intros id e E. by eapply same_root_issued, H1. Qed.
(** a manager whose stores are parts of the ones before *)
Lemma well_formed_stores m m' : same_root m m' -> store_ok m (store m') -> (disk m' = disk m \/ disk m' = Some (store m')) -> well_formed m -> well_formed m'.
Proof.
  intros Hr Hs Hd [_ Hw]. split; [by eapply same_root_store|]. intros d E. eapply same_root_store; [done|]. destruct Hd as [Hd|Hd]; [apply Hw; congruence|]. rewrite Hd in E. by injection E as <-.
Qed.
Lemma persist_shape w m : let x := persist_store w m in same_root m x.1 /\ store x.1 = store m /\ (disk x.1 = disk m \/ disk x.1 = Some (store m)) /\ has_path x.1 = has_path m /\ (x.2 = Ok tt -> has_path m = true -> disk x.1 = Some (store m)) /\ x.2 <> Panic.
Proof. unfold persist_store. destruct (has_path m) eqn:E; [destruct w|]; simpl; repeat split; eauto; try done. Qed.
Lemma save_shape w m : let m' := save_to_disk w m in same_root m m' /\ store m' = store m /\ (disk m' = disk m \/ disk m' = Some (store m)) /\ has_path m' = has_path m.
Proof. unfold save_to_disk. destruct (_ && _); simpl; repeat split; eauto. Qed.
Lemma expire_shape now w m : let m' := (remove_expired_credentials_at now w m).1 in
  same_root m m' /\ credentials (store m') ⊆ credentials (store m) /\ revoked_certificate_ids (store m') = revoked_certificate_ids (store m) /\ (disk m' = disk m \/ disk m' = Some (store m')) /\ has_path m' = has_path m.
Proof.
  unfold remove_expired_credentials_at. simpl. set (m1 := with_store _ _). destruct (negb _).
  - destruct (save_shape w m1) as (R & -> & D & P). split_and!; [done|apply map_filter_subseteq|done|done|done].
  - split_and!; [done|apply map_filter_subseteq|done|by left|done].
Qed.
(** what every step of a manager does besides its purpose *)
Record evolves (m m' : CredentialManager) : Prop := {
  ev_root : same_root m m';
  ev_path : has_path m' = has_path m;
  ev_form : well_formed m';
  ev_disk : disk m' = disk m \/ exists d, disk m' = Some d /\ revoked_certificate_ids d = revoked_certificate_ids (store m');
}.
Lemma evolves_refl m : well_formed m -> evolves m m.
Proof. intros Hw. split; [done|done|done|by left]. Qed.
Lemma store_evolves_trans m m1 m2 : evolves m m1 -> evolves m1 m2 -> revoked_certificate_ids (store m2) = revoked_certificate_ids (store m1) -> evolves m m2.
Proof.
  intros [(R1 & R2 & R3 & R4) P F D] [(R1' & R2' & R3' & R4') P' F' D'] V. split; [split_and!; congruence|congruence|done|]. destruct D' as [D'|D']; [|by right].
  destruct D as [D|(d & D & E)]; [left; congruence|right; exists d; split; congruence].
Qed.
Lemma expire_evolves now w m : well_formed m -> evolves m (remove_expired_credentials_at now w m).1.
Proof.
  intros Hw. destruct (expire_shape now w m) as (R & C & V & D & P). split; [done|done| |destruct D as [?|?]; [by left|right; eauto]].
  apply (well_formed_stores m); [done| |done|done]. destruct Hw as [[H1 H2] _]. split; [intros id e E; eapply H1, lookup_weaken; eauto|by rewrite V].
Qed.
Lemma pick_ok draws used id : pick_certificate_id draws used = Some id -> Forall (fun d => len d = CERTIFICATE_ID_LEN) draws -> id_ok id.
Proof.
  unfold pick_certificate_id. intros E F. apply find_some in E as [Hin Hc]. apply andb_prop in Hc as [Hz _]. split; [|by apply negb_true_iff].
  rewrite Forall_forall in F. apply F. by apply list_elem_of_In.
Qed.
(** a lifetime that the issuer accepts *)
Lemma ttl_lifetime ttl now : 0 <= ttl -> (ttl / second =? 0) || (MAX_CREDENTIAL_TTL <? ttl) = false -> time_ok now -> lifetime_ok now (i64_saturate (now + ttl / second)).
Proof.
  intros Ht [H1 H2]%orb_false_elim Hn. unfold MAX_CREDENTIAL_TTL, second, time_ok, lifetime_ok in *. apply Z.eqb_neq in H1. apply Z.ltb_ge in H2.
  assert (0 <= ttl / 1000000000 <= 86400) by (split; [apply Z.div_pos; lia|]; apply (Z.div_le_upper_bound ttl 1000000000 86400); lia). rewrite saturate_small by lia. lia.
Qed.
Lemma issue_evolves m id certificate_id groups allow_relay cidrs reusable private now expiry written :
  admin m -> well_formed m -> id_ok certificate_id -> len private = 32 -> time_ok now -> lifetime_ok now expiry ->
  let x := issue m id certificate_id groups allow_relay cidrs reusable private now expiry written in
  evolves m x.1 /\ revoked_certificate_ids (store x.1) = revoked_certificate_ids (store m) /\ (forall id' encoded, x.2 = Ok (id', encoded) -> exists e, credentials (store x.1) !! id' = Some e /\ e_bundle e = encoded).
Proof.
  intros Ha Hw Hid Hp Hn Hl. unfold issue.
  destruct (canonical_strings_checked groups) as [groups'|e|] eqn:Eg; cbn [mbind outcome_bind]; [|split_and!; [by apply evolves_refl|done|done]..].
  destruct (canonical_strings_checked cidrs) as [cidrs'|e|] eqn:Ec; cbn [mbind outcome_bind]; [|split_and!; [by apply evolves_refl|done|done]..].
  destruct (sign_certificate m _ _ _ _ _ _ _ _ _) as [c|e|] eqn:Es; cbn [mbind outcome_bind]; [|split_and!; [by apply evolves_refl|done|done]..].
  set (entry := mk_entry _ _ _ _ _ _ _ _ _ _ _ _). assert (Hi : issued m entry) by (exists private, c; apply canonical_checked in Eg as [? _]; apply canonical_checked in Ec as [? _]; by split).
  set (s1 := mk_store (<[id := entry]> (credentials (store m))) _ _). assert (H1 : store_ok m s1).
  { destruct Hw as [[H1 H2] _]. split; [|done]. intros i e E. simpl in E. apply lookup_insert_Some in E as [[_ <-]|[_ E]]; [done|by eapply H1]. }
  destruct (persist_shape written (with_store m s1)) as (R & St & D & P & _ & Hnp). destruct (persist_store written (with_store m s1)) as [m2 r]. cbn [fst snd] in *. change (store (with_store m s1)) with s1 in *.
  destruct r as [[]|e|]; [|  |done]; cbn [fst snd].
  - split_and!; [|by rewrite St|intros id' encoded [= <- <-]; exists entry; rewrite St; simpl; by rewrite lookup_insert_eq].
    split; [done|done| |destruct D as [D|D]; [by left|right; exists s1; rewrite St; by rewrite D]]. apply (well_formed_stores m); [done|by rewrite St|rewrite St; destruct D; [by left|by right]|done].
  - split_and!; [|simpl; by rewrite St|done]. assert (H3 : store_ok m (mk_store (delete id (credentials (store m2))) (revocation_state_version (store m2)) (revoked_certificate_ids (store m2)))).
    { rewrite St. destruct H1 as [H1 H2]. split; [|done]. intros i e0 E. cbn [credentials] in E. apply lookup_delete_Some in E as [_ E]. by eapply H1. }
    split; [done|done| |destruct D as [D|D]; [by left|right; exists s1; simpl; rewrite St; by rewrite D]]. split; [apply (same_root_store m); [exact R|exact H3]|]. intros d E. simpl in E. apply (same_root_store m); [exact R|]. destruct D as [D|D]; rewrite D in E; [by apply Hw|]. by injection E as <-.
Qed.
Lemma generate_evolves m groups allow_relay cidrs ttl credential_id reusable random now now' written written' m' r :
  admin m -> well_formed m -> 0 <= ttl -> Forall (fun d => len d = CERTIFICATE_ID_LEN) (rand_ids random) -> len (rand_private random) = 32 -> time_ok now' ->
  generate_credential_bundle m groups allow_relay cidrs ttl credential_id reusable random now now' written written' = Some (m', r) ->
  evolves m m' /\ revoked_certificate_ids (store m') = revoked_certificate_ids (store m) /\ (forall id encoded, r = Ok (id, encoded) -> exists e, credentials (store m') !! id = Some e /\ e_bundle e = encoded).
Proof.
  intros Hadmin Hwf Httl Hids Hprivate Hnow. unfold generate_credential_bundle. rewrite bool_decide_eq_false_2 by (destruct Hadmin as [(seed & -> & _) _]; done).
  destruct ((ttl / second =? 0) || (MAX_CREDENTIAL_TTL <? ttl)) eqn:Et; [intros [= <- <-]; split_and!; [by apply evolves_refl|done|done]|]. pose proof (ttl_lifetime ttl now' Httl Et Hnow) as Hl.
  pose proof (expire_evolves now written m Hwf) as He. destruct (expire_shape now written m) as (R & _ & V & _ & _). set (m1 := (remove_expired_credentials_at now written m).1) in *. clearbody m1. rewrite <- V.
  set (id := match credential_id with Some _ => _ | None => _ end). clearbody id.
  assert (Hissue : forall cid, pick_certificate_id (rand_ids random) (e_certificate_id <$> (map_to_list (credentials (store m1))).*2) = Some cid ->
    issue m1 id cid groups allow_relay cidrs reusable (rand_private random) now' (i64_saturate (now' + ttl / second)) written' = (m', r) ->
    evolves m m' /\ revoked_certificate_ids (store m') = revoked_certificate_ids (store m1) /\ (forall id encoded, r = Ok (id, encoded) -> exists e, credentials (store m') !! id = Some e /\ e_bundle e = encoded)).
  { intros cid Ep Ei. apply pick_ok in Ep; [|done]. destruct He as [He1 He2 He3 He4].
    destruct (issue_evolves m1 id cid groups allow_relay cidrs reusable (rand_private random) now' _ written' (same_root_admin _ _ R Hadmin) He3 Ep Hprivate Hnow Hl) as (E & V' & C). rewrite Ei in *. cbn [fst snd] in *.
    split_and!; [|done|done]. by eapply store_evolves_trans; [split|exact E|]. }
  destruct (credentials (store m1) !! id) as [[pk [|b bs] cid rl sg cb gs ar cd ru ex cr]|] eqn:Ee; [|intros [= <- <-]; split_and!; [done|done|intros id0 en [= <- <-]; eexists; split; [exact Ee|done]]|].
  all: destruct (pick_certificate_id _ _) as [cid1|] eqn:Ep; [|done]; cbn [mbind option_bind]; intros [= Ei]; by eapply Hissue.
Qed.

(** ** Runs of a manager *)
Inductive op : Type :=
| OGenerate (groups : list (list Z)) (allow_relay : bool) (cidrs : list (list Z)) (ttl : Z) (credential_id : option (list Z)) (reusable : bool) (random : randomness) (now now' : Z) (written written' : bool)
| ORevoke (credential_id : list Z) (written : bool)
| OExpire (now : Z) (written : bool)
| OApply (encoded : list Z) (now : Z) (written : bool)
| ORestart (readable : bool).
Definition restart (readable : bool) (m : CredentialManager) : CredentialManager :=
  load_from_disk readable (mk_manager default_store (has_path m) (disk m) (network_name m) (root_seed m) (root_public_key m) (root_fingerprint m)).
Definition step (m : CredentialManager) (o : op) : CredentialManager :=
  match o with
  | OGenerate groups relay cidrs ttl id reusable random now now' w w' => match generate_credential_bundle m groups relay cidrs ttl id reusable random now now' w w' with Some x => x.1 | None => m end
  | ORevoke id w => (try_revoke_credential m id w).1
  | OExpire now w => (remove_expired_credentials_at now w m).1
  | OApply encoded now w => (apply_revocation_state m encoded now w).1
  | ORestart readable => restart readable m
  end.
Definition run (m : CredentialManager) (ops : list op) : CredentialManager := foldl step m ops.
(** random bytes of the right length, a time that is one *)
Definition op_ok (o : op) : Prop :=
  match o with
  | OGenerate _ _ _ ttl _ _ random _ now' _ _ => 0 <= ttl /\ Forall (fun d => len d = CERTIFICATE_ID_LEN) (rand_ids random) /\ len (rand_private random) = 32 /\ time_ok now'
  | _ => True
  end.
Lemma revoke_cases m id w : well_formed m ->
  evolves m (try_revoke_credential m id w).1 /\
  match (try_revoke_credential m id w).2 with
  | Ok true => exists e, credentials (store m) !! id = Some e /\ revoked_certificate_ids (store (try_revoke_credential m id w).1) = {[e_certificate_id e]} ∪ revoked_certificate_ids (store m) /\
                 (has_path m = true -> disk (try_revoke_credential m id w).1 = Some (store (try_revoke_credential m id w).1))
  | Err StorageUnavailable => exists e, credentials (store m) !! id = Some e /\ revoked_certificate_ids (store (try_revoke_credential m id w).1) = ({[e_certificate_id e]} ∪ revoked_certificate_ids (store m)) ∖ {[e_certificate_id e]} /\
                 disk (try_revoke_credential m id w).1 = disk m
  | _ => (try_revoke_credential m id w).1 = m
  end.
Proof.
  intros Hw. unfold try_revoke_credential. case_bool_decide; [split; [by apply evolves_refl|done]|]. destruct (credentials (store m) !! id) as [e|] eqn:E; [|split; [by apply evolves_refl|done]].
  destruct (negb _) eqn:El; [split; [by apply evolves_refl|done]|]. destruct (checked_add _ _ _) as [v|]; [|split; [by apply evolves_refl|done]].
  set (s1 := mk_store (delete id (credentials (store m))) v _). pose proof Hw as [[H1 H2] _].
  assert (He : id_ok (e_certificate_id e)) by (destruct (H1 _ _ E) as (? & ? & []); done).
  assert (Hs : store_ok m s1) by (split; [intros i x Hx; simpl in Hx; apply lookup_delete_Some in Hx as [_ Hx]; by eapply H1|intros i Hi; simpl in Hi; apply elem_of_union in Hi as [Hi|Hi]; [apply elem_of_singleton in Hi as ->; done|by apply H2]]).
  unfold persist_store. cbn [has_path with_store]. destruct (has_path m) eqn:Ep; [destruct w|]; cbn [fst snd].
  - split; [|exists e; done]. split; [done|done| |right; by eexists]. apply (well_formed_stores m); [done|done|by right|done].
  - split; [|exists e; done]. split; [done|done| |by left]. apply (well_formed_stores m); [done| |by left|done].
    split; [intros i x Hx; simpl in Hx; apply lookup_insert_Some in Hx as [[_ <-]|[_ Hx]]; [by eapply H1|]; apply lookup_delete_Some in Hx as [_ Hx]; by eapply H1|]. intros i Hi. simpl in Hi. apply Hs. simpl. set_solver.
  - split; [|exists e; done]. split; [done|done| |by left]. apply (well_formed_stores m); [done|done|by left|done].
Qed.
Lemma apply_cases m encoded now w : well_formed m ->
  evolves m (apply_revocation_state m encoded now w).1 /\ revoked_certificate_ids (store m) ⊆ revoked_certificate_ids (store (apply_revocation_state m encoded now w).1).
Proof.
  intros Hw. unfold apply_revocation_state. destruct (verify_revocation_state_at _ _ _ _ _) as [st|e|] eqn:E; [|split; [by apply evolves_refl|done]..].
  assert (Hids : forall i, i ∈ rs_revoked_certificate_ids st -> id_ok i).
  { revert E. unfold verify_revocation_state_at. destruct (len (root_public_key m) =? 32); cbn [ensure mbind outcome_bind]; [|done]. destruct (url_decode encoded) as [bytes|]; cbn [ok_or mbind outcome_bind]; [|done].
    destruct (decode bytes) as [s|]; cbn [ok_or mbind outcome_bind]; [|done]. destruct (bool_decide (encode s = bytes)); cbn [ensure mbind outcome_bind]; [|done].
    destruct (_ || existsb _ _) eqn:Eb; [done|]. apply orb_false_elim in Eb as [_ Eb]. destruct (_ && _); cbn [ensure mbind outcome_bind]; [|done]. destruct (ed_verify _ _ _); cbn [ensure mbind outcome_bind]; [|done]. intros [= <-].
    intros i Hi. destruct (decide (id_ok i)) as [?|Hn]; [done|exfalso]. assert (existsb (fun id => negb (len id =? CERTIFICATE_ID_LEN) || all_zero id) (rs_revoked_certificate_ids s) = true); [|congruence].
    apply existsb_exists. exists i. split; [by apply list_elem_of_In|]. destruct (Z.eqb_spec (len i) CERTIFICATE_ID_LEN) as [El|]; [|done]. destruct (all_zero i) eqn:Ez; [done|]. by destruct Hn. }
  set (s1 := mk_store (credentials (store m)) _ _). set (m1 := with_store m s1).
  assert (Hs : store_ok m s1) by (destruct Hw as [[H1 H2] _]; split; [done|]; intros i Hi; simpl in Hi; apply elem_of_union in Hi as [Hi|Hi]; [by apply H2|apply elem_of_list_to_set in Hi; by apply Hids]).
  assert (He : evolves m m1) by (split; [done|done| |by left]; apply (well_formed_stores m); [done|done|by left|done]).
  assert (Hsub : revoked_certificate_ids (store m) ⊆ revoked_certificate_ids (store m1)) by (simpl; set_solver).
  destruct (_ && _); cbn [fst]; [done|]. destruct (save_shape w m1) as (R & St & D & P). rewrite St. split; [|done]. split; [done|done| |destruct D as [D|D]; [by left|right; exists s1; rewrite St, D; done]].
  apply (well_formed_stores m); [done|by rewrite St|rewrite St; destruct D; [by left|by right]|done].
Qed.
Lemma restart_evolves readable m : well_formed m -> same_root m (restart readable m) /\ has_path (restart readable m) = has_path m /\ disk (restart readable m) = disk m /\ well_formed (restart readable m).
Proof.
  intros [_ Hd]. unfold restart, load_from_disk. cbn [has_path disk]. assert (store_ok m default_store) by (split; [intros i e E; simpl in E; by rewrite lookup_empty in E|set_solver]).
  destruct (has_path m && readable); [destruct (disk m) as [d|] eqn:E|]; (split_and!; [done|done|done|]).
  - split; [apply (same_root_store m); [done|by apply Hd]|]. intros d0 E0. simpl in E0. apply (same_root_store m); [done|by apply Hd].
  - split; [by apply (same_root_store m)|]. intros d0 E0. done.
  - split; [by apply (same_root_store m)|]. intros d0 E0. simpl in E0. apply (same_root_store m); [done|by apply Hd].
Qed.
Lemma step_well_formed m o : admin m -> well_formed m -> op_ok o -> same_root m (step m o) /\ well_formed (step m o) /\ has_path (step m o) = has_path m.
Proof.
  intros Ha Hw Ho. destruct o as [groups relay cidrs ttl id reusable random now now' w w'|id w|now w|encoded now w|readable]; simpl.
  - destruct (generate_credential_bundle _ _ _ _ _ _ _ _ _ _ _ _) as [[m' r]|] eqn:E; [|done]. destruct Ho as (? & ? & ? & ?). eapply generate_evolves in E as ([] & _ & _); done.
  - destruct (revoke_cases m id w Hw) as [[] _]. done.
  - destruct (expire_evolves now w m Hw). done.
  - destruct (apply_cases m encoded now w Hw) as [[] _]. done.
  - destruct (restart_evolves readable m Hw) as (? & ? & ? & ?). done.
Qed.
Lemma run_well_formed m ops : admin m -> well_formed m -> Forall op_ok ops -> same_root m (run m ops) /\ well_formed (run m ops) /\ has_path (run m ops) = has_path m.
Proof.
  unfold run. revert m. induction ops as [|o ops IH]; intros m Ha Hw Hok; [done|]. apply Forall_cons in Hok as [Ho Hok]. destruct (step_well_formed m o Ha Hw Ho) as (R & W & P).
  simpl. destruct (IH _ (same_root_admin _ _ R Ha) W Hok) as ((R1 & R2 & R3 & R4) & W' & P'). destruct R as (Q1 & Q2 & Q3 & Q4). split_and!; [|done|congruence]. split_and!; congruence.
Qed.
(** an entry that is asked for anew has the policy that is asked for *)
Definition has_policy (e : CredentialEntry) (groups : list (list Z)) (allow_relay : bool) (cidrs : list (list Z)) (reusable : bool) (created expiry : Z) : Prop :=
  e_groups e ≡ₚ groups /\ e_allow_relay e = allow_relay /\ e_allowed_proxy_cidrs e ≡ₚ cidrs /\ e_reusable e = reusable /\ e_created_at_unix e = created /\ e_expiry_unix e = expiry.
Lemma issue_policy m id cid groups relay cidrs reusable private now expiry w m' id' encoded : issue m id cid groups relay cidrs reusable private now expiry w = (m', Ok (id', encoded)) ->
  id' = id /\ exists e, credentials (store m') !! id = Some e /\ has_policy e groups relay cidrs reusable now expiry.
Proof.
  unfold issue. destruct (canonical_strings_checked groups) as [groups'|e|] eqn:Eg; cbn [mbind outcome_bind]; [|done..]. destruct (canonical_strings_checked cidrs) as [cidrs'|e|] eqn:Ec; cbn [mbind outcome_bind]; [|done..].
  destruct (sign_certificate m _ _ _ _ _ _ _ _ _) as [c|e|]; cbn [mbind outcome_bind]; [|done..]. set (entry := mk_entry _ _ _ _ _ _ _ _ _ _ _ _). set (s1 := mk_store _ _ _).
  destruct (persist_shape w (with_store m s1)) as (_ & St & _). destruct (persist_store w (with_store m s1)) as [m2 [[]|e|]]; [|done..]. cbn [fst] in St. intros [= <- <- <-]. split; [done|]. exists entry. rewrite St. simpl. rewrite lookup_insert_eq. split; [done|].
  apply canonical_checked in Eg as [_ Eg]. apply canonical_checked in Ec as [_ Ec]. done.
Qed.
Lemma generate_policy m groups relay cidrs ttl credential_id reusable random now now' w w' m' id encoded : time_ok now' -> 0 <= ttl ->
  generate_credential_bundle m groups relay cidrs ttl credential_id reusable random now now' w w' = Some (m', Ok (id, encoded)) -> credentials (store m) !! id = None ->
  exists e, credentials (store m') !! id = Some e /\ has_policy e groups relay cidrs reusable now' (now' + ttl / second).
Proof.
  intros Hn Ht. unfold generate_credential_bundle. case_bool_decide; [done|]. destruct (_ || _) eqn:Et; [done|]. destruct (expire_shape now w m) as (_ & Sub & _). set (m1 := (remove_expired_credentials_at now w m).1) in *. clearbody m1.
  set (id0 := match credential_id with Some _ => _ | None => _ end). clearbody id0. apply orb_false_elim in Et as [Et1 Et2]. apply Z.ltb_ge in Et2.
  assert (Hx : i64_saturate (now' + ttl / second) = now' + ttl / second).
  { unfold time_ok in Hn. apply saturate_small. unfold MAX_CREDENTIAL_TTL, second in *. assert (0 <= ttl / 1000000000 <= 86400) by (split; [apply Z.div_pos; lia|apply Z.div_le_upper_bound; lia]). lia. }
  destruct (credentials (store m1) !! id0) as [[pk [|b bs] cid rl sg cb gs ar cd ru ex cr]|] eqn:Ee.
  - destruct (pick_certificate_id _ _); [|done]. cbn [mbind option_bind]. intros [= Ei] Hf. apply issue_policy in Ei as [-> Hp]. by rewrite <- Hx.
  - intros [= <- <- _] Hf. exfalso. apply (lookup_weaken _ _ _ _ Ee) in Sub. congruence.
  - destruct (pick_certificate_id _ _); [|done]. cbn [mbind option_bind]. intros [= Ei] Hf. apply issue_policy in Ei as [-> Hp]. by rewrite <- Hx.
Qed.
(** C12: Whatever a manager with the network secret did before (issuing, revoking, expiring, applying revocation states,
    restarting, with its file written or not), a credential that it issues or hands out again is good: from five minutes before
    it was issued until it expires, its bundle and the credential in its proof verify for every node that knows the name and the
    root of the network, with the policy of the entry, and unless its identifier is revoked the manager announces it with a
    valid HMAC.  A credential under a new name has exactly the groups, prefixes, rights and lifetime that were asked for;
    under an existing name the entry of that name is handed out as it is. *)
Theorem issued_credentials_trusted m ops groups relay cidrs ttl credential_id reusable random now now' w w' m' id encoded :
  admin m -> well_formed m -> Forall op_ok ops -> op_ok (OGenerate groups relay cidrs ttl credential_id reusable random now now' w w') ->
  generate_credential_bundle (run m ops) groups relay cidrs ttl credential_id reusable random now now' w w' = Some (m', Ok (id, encoded)) ->
  exists e b c, credentials (store m') !! id = Some e /\
    (credentials (store (run m ops)) !! id = None -> has_policy e groups relay cidrs reusable now' (now' + ttl / second)) /\
    cb_groups b = e_groups e /\ cb_allow_relay b = e_allow_relay e /\ cb_allowed_proxy_cidrs b = e_allowed_proxy_cidrs e /\ cb_reusable b = e_reusable e /\ cb_expiry_unix b = e_expiry_unix e /\
    tc_groups c = e_groups e /\ tc_allow_relay c = e_allow_relay e /\ tc_allowed_proxy_cidrs c = e_allowed_proxy_cidrs e /\ tc_reusable c = Some (e_reusable e) /\ tc_pubkey c = x_public (cb_private_key b) /\
    forall t, time_ok t -> e_created_at_unix e - MAX_FUTURE_SKEW <= t < e_expiry_unix e ->
      verify_credential_bundle_for_network encoded (network_name m) (Some (root_fingerprint m)) t = Ok b /\
      verify_trusted_credential c (network_name m) (Some (root_fingerprint m)) t = Ok tt /\
      (e_certificate_id e ∉ revoked_certificate_ids (store m') -> forall secret, new_signed c secret ∈ get_trusted_pubkeys m' secret t /\ verify_credential_hmac (new_signed c secret) secret = true).
Proof.
  intros Ha Hw Hops (Ht & Hids & Hpr & Hn) Hg. destruct (run_well_formed m ops Ha Hw Hops) as (R & W & _). pose proof (same_root_admin _ _ R Ha) as Ha1.
  destruct (generate_evolves _ _ _ _ _ _ _ _ _ _ _ _ _ _ Ha1 W Ht Hids Hpr Hn Hg) as ([R' _ [[W' _] _] _] & _ & He). destruct (He id encoded eq_refl) as (e & Ee & <-).
  pose proof (same_root_admin _ _ R' Ha1) as Ha2. destruct (W' _ _ Ee) as (private & c & Hi). destruct R as (Q1 & _ & _ & Q4), R' as (Q1' & _ & _ & Q4').
  exists e, (bundle_of m' e private c), (credential_of m' e private c). split_and!; try done.
  { intros Hf. destruct (generate_policy _ _ _ _ _ _ _ _ _ _ _ _ _ _ _ Hn Ht Hg Hf) as (e' & Ee' & Hp). by simplify_eq. }
  intros t Htime Hwin. rewrite <- Q1, <- Q4, <- Q1', <- Q4'. split_and!; [by apply issued_bundle_verifies|by apply issued_credential_verifies|].
  intros Hr secret. split; [|apply new_signed_verifies]. unfold get_trusted_pubkeys. rewrite bool_decide_eq_false_2 by (destruct Ha2 as [(seed & -> & _) _]; done).
  apply list_elem_of_omap. exists e. split; [|by rewrite (issued_credential _ _ _ _ Hi)]. unfold active_entries. apply list_elem_of_filter. split.
  - unfold is_active_at. destruct Hi, iw_id0 as [-> _]. rewrite (proj2 (Z.ltb_lt _ _)), bool_decide_eq_false_2 by (done || lia). done.
  - apply list_elem_of_fmap. exists (id, e). split; [done|]. by apply elem_of_map_to_list.
Qed.

(** ** Revocations *)
(** revoked in memory and in the file *)
Definition durable (id : list Z) (m : CredentialManager) : Prop := id ∈ revoked_certificate_ids (store m) /\ exists d, disk m = Some d /\ id ∈ revoked_certificate_ids d.
(** the file can be read at a restart, and no revocation of this very certificate fails *)
Definition calm (id : list Z) (m : CredentialManager) (o : op) : Prop :=
  match o with
  | ORestart readable => readable = true
  | ORevoke cid w => (try_revoke_credential m cid w).2 = Err StorageUnavailable -> forall e, credentials (store m) !! cid = Some e -> e_certificate_id e <> id
  | _ => True
  end.
Fixpoint all_calm (id : list Z) (m : CredentialManager) (ops : list op) : Prop := match ops with [] => True | o :: ops => calm id m o /\ all_calm id (step m o) ops end.
Lemma evolves_durable id m m' : evolves m m' -> durable id m -> id ∈ revoked_certificate_ids (store m') -> durable id m'.
Proof. intros [_ _ _ D] [_ (d & E & Hd)] Hi. split; [done|]. destruct D as [D|(d' & D & Ed)]; [exists d; by rewrite D|exists d'; split; [done|by rewrite Ed]]. Qed.
Lemma step_durable id m o : admin m -> well_formed m -> has_path m = true -> op_ok o -> calm id m o -> durable id m -> durable id (step m o).
Proof.
  intros Ha Hw Hp Ho Hc Hd. destruct o as [groups relay cidrs ttl cid reusable random now now' w w'|cid w|now w|encoded now w|readable]; cbn [step calm op_ok] in *.
  - destruct (generate_credential_bundle _ _ _ _ _ _ _ _ _ _ _ _) as [[m' r]|] eqn:E; [|done]. destruct Ho as (? & ? & ? & ?). eapply generate_evolves in E as (Ev & V & _); [|done..]. eapply evolves_durable; [done|done|]. simpl. rewrite V. apply Hd.
  - destruct (revoke_cases m cid w Hw) as [Ev Hr]. destruct ((try_revoke_credential m cid w).2) as [[]|[]|] eqn:Er; try (by rewrite Hr).
    + destruct Hr as (e & _ & V & _). eapply evolves_durable; [done|done|]. rewrite V. apply elem_of_union_r, Hd.
    + destruct Hr as (e & E & V & _). eapply evolves_durable; [done|done|]. rewrite V. specialize (Hc eq_refl e E). destruct Hd as [Hd _]. set_solver.
  - destruct (expire_shape now w m) as (_ & _ & V & _). eapply evolves_durable; [by apply expire_evolves|done|]. rewrite V. apply Hd.
  - destruct (apply_cases m encoded now w Hw) as [Ev V]. eapply evolves_durable; [done|done|]. apply V, Hd.
  - subst readable. destruct Hd as [_ (d & E & Hd)]. unfold restart, load_from_disk. cbn [has_path disk]. rewrite Hp, E. simpl. split; [done|]. by exists d.
Qed.
Lemma run_durable id m ops : admin m -> well_formed m -> has_path m = true -> Forall op_ok ops -> all_calm id m ops -> durable id m -> durable id (run m ops).
Proof.
  unfold run. revert m. induction ops as [|o ops IH]; intros m Ha Hw Hp Hok Hc Hd; [done|]. apply Forall_cons in Hok as [Ho Hok]. destruct Hc as [Hc Hcs].
  destruct (step_well_formed m o Ha Hw Ho) as (R & W & P). simpl. apply IH; [by eapply same_root_admin|done|congruence|done|done|by apply step_durable].
Qed.
(** a revocation state reaches every node that knows the root *)
Lemma revocation_state_verifies m now t encoded : admin m -> well_formed m -> is_u 64 (revocation_state_version (store m)) -> time_ok now -> time_ok t -> now - MAX_FUTURE_SKEW <= t <= now + MAX_REVOCATION_AGE ->
  revocation_state m now = Ok encoded ->
  exists st, verify_revocation_state_at encoded (network_name m) (root_public_key m) 0 t = Ok st /\ forall id, id ∈ revoked_certificate_ids (store m) -> id ∈ rs_revoked_certificate_ids st.
Proof.
  intros Ha [[_ Hids] _] Hv Hn Ht Hw. pose proof (admin_public_length m Ha) as Hpub. pose proof (admin_fingerprint m Ha) as Ef. destruct (admin_seed m Ha) as (seed & Es & Hseed & Ep). unfold revocation_state. rewrite Es. cbn [ok_or mbind outcome_bind]. intros [= <-].
  set (ids := merge_sort text_le (elements (revoked_certificate_ids (store m)))). set (st := mk_revocation _ _ _ _ _ _ _ _ _). exists st.
  assert (Hin : forall id, id ∈ ids <-> id ∈ revoked_certificate_ids (store m)) by (intros id; unfold ids; rewrite merge_sort_Permutation; apply elem_of_elements).
  split; [|intros id Hi; by apply Hin]. unfold verify_revocation_state_at. rewrite Hpub, url_decode_encode. cbn [ensure Z.eqb Pos.eqb ok_or mbind outcome_bind]. rewrite decode_encode. cbn [ok_or mbind outcome_bind].
  rewrite bool_decide_eq_true_2 by done. cbn [ensure mbind outcome_bind]. unfold st. cbn [rs_version rs_network_name rs_root_public_key rs_root_fingerprint rs_issued_unix rs_revoked_serials rs_revoked_certificate_ids rs_state_version rs_signature]. fold st.
  assert (Ex : existsb (fun id => negb (len id =? CERTIFICATE_ID_LEN) || all_zero id) ids = false).
  { apply not_true_is_false. intros E. apply existsb_exists in E as (id & Hi & E). apply list_elem_of_In, Hin, Hids in Hi as [Hl Hz]. by rewrite Hl, Hz in E. }
  rewrite Ex, not_from_the_future by (done || lia). unfold time_ok, MAX_REVOCATION_AGE in *. rewrite saturate_small, (proj2 (Z.ltb_ge _ _)) by lia. rewrite (bool_decide_eq_true_2 (root_fingerprint m = _)) by done. rewrite !bool_decide_eq_true_2 by done. cbn [negb orb Z.eqb Pos.eqb CREDENTIAL_STATE_VERSION].
  destruct Hv as [Hv _]. rewrite (proj2 (Z.ltb_ge _ 0)) by lia. assert (Hsort : windows_all text_ltb ids = true) by (apply merge_sort_strict, NoDup_elements). rewrite Hsort. cbn [negb andb ensure mbind outcome_bind].
  unfold st. unfold revocation_signing_bytes at 1. cbn [rs_version rs_network_name rs_root_public_key rs_root_fingerprint rs_issued_unix rs_revoked_serials rs_revoked_certificate_ids rs_state_version rs_signature]. fold ids. rewrite Ep.
  change (REVOCATION_DOMAIN ++ encode ?x) with (revocation_signing_bytes x). rewrite ed_verify_sign by done. done.
Qed.
Lemma apply_reaches m encoded t w st id : verify_revocation_state_at encoded (network_name m) (root_public_key m) 0 t = Ok st -> id ∈ rs_revoked_certificate_ids st -> is_certificate_id_revoked (apply_revocation_state m encoded t w).1 id = true.
Proof.
  intros E Hi. unfold apply_revocation_state, is_certificate_id_revoked. rewrite E. apply bool_decide_eq_true. destruct (_ && _); cbn [fst]; [simpl; set_solver|]. destruct (save_shape w (with_store m (mk_store (credentials (store m))
    (Z.max (revocation_state_version (store m)) (rs_state_version st)) (revoked_certificate_ids (store m) ∪ list_to_set (rs_revoked_certificate_ids st))))) as (_ & -> & _). simpl. set_solver.
Qed.
(** the proofs that a manager announces are of certificates that are not revoked *)
Lemma announced_not_revoked m secret t p c : p ∈ get_trusted_pubkeys m secret t -> proof_credential p = Some c -> is_certificate_id_revoked m (tc_certificate_id c) = false.
Proof.
  unfold get_trusted_pubkeys. case_bool_decide; [intros Hp; by apply elem_of_nil in Hp|]. intros Hp. apply list_elem_of_omap in Hp as (e & He & Ep). unfold to_trusted_credential in Ep. destruct (decode_pubkey_b64 _); [|done]. cbn in Ep. injection Ep as <-.
  simpl. intros [= <-]. simpl. apply list_elem_of_filter in He as [He _]. unfold is_active_at in He. apply andb_prop in He as [_ He]. by apply negb_true_iff in He.
Qed.
(** C11: A revocation that succeeded is permanent: whatever the manager does afterwards, restarts and failed writes included, the
    certificate stays revoked and the manager never announces it again, every status that it signs for it says revoked, and every
    revocation state that it signs revokes it on each node of the network that applies it within a day.  The file must be
    readable when the manager starts, and no revocation of another entry with the same certificate may fail. *)
Theorem revocation_is_permanent m cid w ops :
  admin m -> well_formed m -> has_path m = true -> (try_revoke_credential m cid w).2 = Ok true ->
  exists e, credentials (store m) !! cid = Some e /\ let id := e_certificate_id e in
    (Forall op_ok ops -> all_calm id (try_revoke_credential m cid w).1 ops -> let m' := run (try_revoke_credential m cid w).1 ops in
     is_certificate_id_revoked m' id = true /\
     (forall secret t p c, p ∈ get_trusted_pubkeys m' secret t -> proof_credential p = Some c -> tc_certificate_id c <> id) /\
     (forall ttl now sequence status, new_admin_certificate_status_ephemeral m' id ttl now sequence = Ok status -> cs_revoked status = true) /\
     (forall now encoded node t w', is_u 64 (revocation_state_version (store m')) -> time_ok now -> time_ok t -> now - MAX_FUTURE_SKEW <= t <= now + MAX_REVOCATION_AGE -> revocation_state m' now = Ok encoded ->
        network_name node = network_name m -> root_public_key node = root_public_key m -> is_certificate_id_revoked (apply_revocation_state node encoded t w').1 id = true)).
Proof.
  intros Ha Hw Hp Hr. destruct (revoke_cases m cid w Hw) as [Ev Hc]. rewrite Hr in Hc. destruct Hc as (e & Ee & V & D). exists e. split; [done|]. cbv zeta. intros Hops Hcalm. destruct Ev as [R P F _].
  pose proof (same_root_admin _ _ R Ha) as Ha1. set (m1 := (try_revoke_credential m cid w).1) in *. clearbody m1. assert (Hd : durable (e_certificate_id e) m1) by (split; [rewrite V; set_solver|exists (store m1); split; [by apply D|rewrite V; set_solver]]).
  destruct (run_durable _ m1 ops Ha1 F ltac:(congruence) Hops Hcalm Hd) as [Hin _]. destruct (run_well_formed m1 ops Ha1 F Hops) as (R' & W' & _). set (m2 := run m1 ops) in *. clearbody m2.
  assert (Hrev : is_certificate_id_revoked m2 (e_certificate_id e) = true) by (by apply bool_decide_eq_true). split_and!; [done| | |].
  - intros secret t p c H1 H2 E. pose proof (announced_not_revoked _ _ _ _ _ H1 H2) as H3. rewrite E in H3. congruence.
  - intros ttl now sequence status. unfold new_admin_certificate_status_ephemeral, ok_or. destruct (root_seed m2); [|done]. cbn [mbind outcome_bind].
    set (b1 := negb (_ || all_zero _)). destruct b1; [|done]. cbn [ensure mbind outcome_bind]. set (b2 := negb (_ || _)). destruct b2; [|done]. cbn [ensure mbind outcome_bind]. intros [= <-]. exact Hrev.
  - intros now encoded node t w' Hv Hn Ht Hwin Es En Er. destruct (revocation_state_verifies m2 now t encoded (same_root_admin _ _ R' Ha1) W' Hv Hn Ht Hwin Es) as (st & E1 & E2).
    apply (apply_reaches _ _ _ _ st); [|by apply E2]. destruct R as (R1 & _ & R3 & _), R' as (R1' & _ & R3' & _). rewrite En, Er, <- R1, <- R3, <- R1', <- R3'. exact E1.
Qed.
(** A revocation that cannot be stored takes back a revocation from before: an entry whose certificate was already revoked (by a
    revocation state, say) is announced again after a failed attempt to revoke it. *)
Lemma failed_revocation_unrevokes m cid e secret t : admin m -> has_path m = true -> credentials (store m) !! cid = Some e -> issued m e -> is_u 63 (revocation_state_version (store m)) ->
  is_certificate_id_revoked m (e_certificate_id e) = true -> t < e_expiry_unix e -> let m' := (try_revoke_credential m cid false).1 in
  (try_revoke_credential m cid false).2 = Err StorageUnavailable /\ is_certificate_id_revoked m' (e_certificate_id e) = false /\
  exists p c, p ∈ get_trusted_pubkeys m' secret t /\ proof_credential p = Some c /\ tc_certificate_id c = e_certificate_id e.
Proof.
  intros Ha Hp Ee (private & c & Hi) [Hv1 Hv2] Hr Ht. pose proof Hi as []. destruct iw_id0 as [Hid _]. unfold try_revoke_credential. rewrite bool_decide_eq_false_2 by (destruct Ha as [(seed & -> & _) _]; done).
  rewrite Ee, Hid. cbn [Z.eqb Pos.eqb negb CERTIFICATE_ID_LEN]. rewrite checked_add_small by lia. unfold persist_store. cbn [has_path with_store]. rewrite Hp. cbn [fst snd store with_store]. set (m' := with_store _ _). cbv zeta. assert (Hi' : issued_with m' e private c) by (destruct Hi; by split).
  assert (Hn : is_certificate_id_revoked m' (e_certificate_id e) = false) by (apply bool_decide_eq_false; simpl; set_solver). split_and!; [done|done|].
  exists (new_signed (credential_of m' e private c) secret), (credential_of m' e private c). split_and!; [|done|done]. unfold get_trusted_pubkeys. rewrite bool_decide_eq_false_2 by (destruct Ha as [(seed & E & _) _]; simpl; by rewrite E).
  apply list_elem_of_omap. exists e. split; [|by rewrite (issued_credential m' e private c Hi')]. apply list_elem_of_filter. split.
  - unfold is_active_at. rewrite Hid, (proj2 (Z.ltb_lt _ _)) by lia. cbn [Z.eqb Pos.eqb andb CERTIFICATE_ID_LEN]. by apply negb_true_iff.
  - apply list_elem_of_fmap. exists (cid, e). split; [done|]. apply elem_of_map_to_list. simpl. by rewrite lookup_insert_eq.
Qed.
End Manager.

(** ** An instance *)
(** messages as numbers with lengths in front *)
Class Wire (A : Type) : Type := { put : A -> list Z; get : list Z -> option (A * list Z); get_put a r : get (put a ++ r) = Some (a, r) }.
#[local, refine] Instance wire_Z : Wire Z := {| put z := [z]; get s := match s with z :: r => Some (z, r) | [] => None end |}.
Proof. done. Defined.
#[local, refine] Instance wire_bool : Wire bool := {| put b := [Z.b2z b]; get s := match s with z :: r => Some (z =? 1, r) | [] => None end |}.
Proof. by intros [] r. Defined.
#[local, refine] Instance wire_prod {A C} `{Wire A, Wire C} : Wire (A * C) := {| put x := put x.1 ++ put x.2; get s := x ← get s; y ← get x.2; Some ((x.1, y.1), y.2) |}.
Proof. intros [a c] r. simpl. rewrite <- app_assoc, get_put. simpl. by rewrite get_put. Defined.
Fixpoint get_n {A} `{Wire A} (n : nat) (s : list Z) : option (list A * list Z) := match n with O => Some ([], s) | S n => x ← get s; y ← get_n n x.2; Some (x.1 :: y.1, y.2) end.
Lemma get_n_put {A} `{Wire A} (l : list A) r : get_n (length l) (concat (put <$> l) ++ r) = Some (l, r).
Proof. induction l as [|a l IH]; [done|]. rewrite fmap_cons. cbn [length get_n concat]. rewrite <- app_assoc, get_put. cbn [mbind option_bind fst snd]. by rewrite IH. Qed.
#[local, refine] Instance wire_list {A} `{Wire A} : Wire (list A) := {| put l := len l :: concat (put <$> l); get s := match s with n :: r => get_n (Z.to_nat n) r | [] => None end |}.
Proof. intros l r. simpl. unfold len. rewrite Nat2Z.id. apply get_n_put. Defined.
#[local, refine] Instance wire_option {A} `{Wire A} : Wire (option A) := {| put o := put (match o with Some a => [a] | None => [] end); get s := x ← get s; match x.1 with [a] => Some (Some a, x.2) | [] => Some (None, x.2) | _ => None end |}.
Proof. intros [a|] r; by rewrite get_put. Defined.
Definition codec_of {A T} `{Wire T} (to : A -> T) (back : T -> A) : Codec A := {| encode a := put (to a); decode s := match get s with Some (x, []) => Some (back x) | _ => None end |}.
Lemma codec_of_laws {A T} `{Wire T} (to : A -> T) (back : T -> A) : (forall a, back (to a) = a) -> CodecLaws (codec_of to back).
Proof. intros Ho. split. intros a. simpl. rewrite <- (app_nil_r (put (to a))), get_put. by rewrite Ho. Qed.
Definition certificate_tuple (c : CredentialCertificate) :=
  (cc_version c, cc_network_name c, cc_root_public_key c, cc_root_fingerprint c, cc_subject c, cc_serial c, cc_issued_unix c, cc_expiry_unix c, cc_role c, cc_groups c, cc_allow_relay c, cc_allowed_proxy_cidrs c, cc_reusable c, cc_signature c, cc_certificate_id c).
#[local] Instance ex_certificate_codec : Codec CredentialCertificate := codec_of certificate_tuple (fun '(a, b, c, d, e, f, g, h, i, j, k, l, m, n, o) => mk_certificate a b c d e f g h i j k l m n o).
Definition bundle_tuple (c : CredentialBundle) :=
  (cb_version c, cb_private_key c, cb_network_name c, cb_root_public_key c, cb_root_fingerprint c, cb_serial c, certificate_tuple <$> cb_certificate c, cb_issued_unix c, cb_expiry_unix c, cb_role c, cb_groups c, cb_allow_relay c, cb_allowed_proxy_cidrs c, cb_reusable c, cb_certificate_id c).
#[local] Instance ex_bundle_codec : Codec CredentialBundle := codec_of bundle_tuple (fun '(a, b, c, d, e, f, g, h, i, j, k, l, m, n, o) =>
  mk_bundle a b c d e f ((fun '(a, b, c, d, e, f, g, h, i, j, k, l, m, n, o) => mk_certificate a b c d e f g h i j k l m n o) <$> g) h i j k l m n o).
Definition revocation_tuple (c : CredentialRevocationState) := (rs_version c, rs_network_name c, rs_root_public_key c, rs_root_fingerprint c, rs_state_version c, rs_revoked_serials c, rs_issued_unix c, rs_signature c, rs_revoked_certificate_ids c).
#[local] Instance ex_revocation_codec : Codec CredentialRevocationState := codec_of revocation_tuple (fun '(a, b, c, d, e, f, g, h, i) => mk_revocation a b c d e f g h i).
Definition status_tuple (c : CredentialCertificateStatus) := (cs_version c, cs_network_name c, cs_root_fingerprint c, cs_certificate_id c, cs_sequence c, cs_issued_unix c, cs_not_after_unix c, cs_revoked c, cs_signature c, cs_root_public_key c).
#[local] Instance ex_status_codec : Codec CredentialCertificateStatus := codec_of status_tuple (fun '(a, b, c, d, e, f, g, h, i, j) => mk_status a b c d e f g h i j).
(** only its encoding is used *)
#[local] Instance ex_credential_codec : Codec TrustedCredentialPubkey :=
  {| encode c := put (tc_pubkey c, tc_groups c, tc_allow_relay c, tc_expiry_unix c, tc_allowed_proxy_cidrs c, tc_reusable c, tc_version c, tc_serial c, tc_network_name c, tc_root_public_key c, tc_root_fingerprint c, tc_role c, tc_signature c,
       certificate_tuple <$> tc_certificate c, tc_certificate_id c); decode _ := None |}.
#[local] Instance ex_certificate_laws : CodecLaws ex_certificate_codec.
Proof. apply codec_of_laws. by intros []. Qed.
#[local] Instance ex_bundle_laws : CodecLaws ex_bundle_codec.
Proof. apply codec_of_laws. by intros [????? ? [[]|] ????????]. Qed.
#[local] Instance ex_revocation_laws : CodecLaws ex_revocation_codec.
Proof. apply codec_of_laws. by intros []. Qed.
#[local] Instance ex_status_laws : CodecLaws ex_status_codec.
Proof. apply codec_of_laws. by intros []. Qed.
Definition ex_sum (l : list Z) : Z := sum_Z (fun z => z) l mod 256.
#[local] Instance ex_signatures : Signatures :=
  {| ed_public seed := seed; ed_sign seed m := replicate 64 (ex_sum (seed ++ m)); ed_verify root m s := bool_decide (s = replicate 64 (ex_sum (root ++ m))); sha256 m := replicate 32 (ex_sum m); x_public key := (fun b => (b + 1) mod 256) <$> key |}.
#[local] Instance ex_signature_laws : SignatureLaws ex_signatures.
Proof. split; simpl; intros; [by apply bool_decide_eq_true|done|done|done|by rewrite length_fmap]. Qed.
#[local] Instance ex_base64 : Base64 := {| b64_encode x := x; b64_decode := Some; url_encode x := x; url_decode := Some |}.
#[local] Instance ex_base64_laws : Base64Laws ex_base64.
Proof. by split. Qed.
#[local] Instance ex_hmac : Hmac := {| hmac_sha256 k m := replicate 32 (ex_sum (k ++ m)) |}.
#[local] Instance ex_hmac_laws : HmacLaws ex_hmac.
Proof. by split. Qed.
Definition ex_manager : CredentialManager :=
  let '(seed, public, fingerprint) := admin_root (str "net") (str "secret") in mk_manager default_store true None (str "net") (Some seed) public fingerprint.
Definition ex_random : randomness := mk_random (str "uuid") [replicate 16 0; replicate 16 9] (replicate 32 5).
Definition ex_generate : option (CredentialManager * outcome CredentialError (list Z * list Z)) :=
  generate_credential_bundle (run ex_manager []) [str "ops"; str "dev"] true [str "10.0.0.0/8"] (3600 * second) (Some (str " laptop ")) false ex_random 1000 1000 true true.
Lemma ex_generate_ok : match ex_generate with Some (_, Ok (id, _)) => bool_decide (id = str "laptop") | _ => false end = true.
Proof. vm_compute. reflexivity. Qed.
Lemma ex_admin : admin ex_manager.
Proof. split; [exists (derive_root_seed (str "net") (str "secret")); split_and!; reflexivity|reflexivity]. Qed.
Lemma ex_well_formed : well_formed ex_manager.
Proof. split; [split; [intros id e E; simpl in E; by rewrite lookup_empty in E|intros id Hi; simpl in Hi; by apply not_elem_of_empty in Hi]|done]. Qed.
Lemma ex_op_ok : op_ok (OGenerate [str "ops"; str "dev"] true [str "10.0.0.0/8"] (3600 * second) (Some (str " laptop ")) false ex_random 1000 1000 true true).
Proof. split_and!; [unfold second; lia|repeat constructor|reflexivity|unfold time_ok; lia]. Qed.
Lemma issued_credentials_trusted_witness : exists m' encoded e b, ex_generate = Some (m', Ok (str "laptop", encoded)) /\ credentials (store m') !! str "laptop" = Some e /\ e_groups e ≡ₚ [str "ops"; str "dev"] /\
  (e_created_at_unix e - MAX_FUTURE_SKEW <= 2000 < e_expiry_unix e -> verify_credential_bundle_for_network encoded (str "net") (Some (root_fingerprint ex_manager)) 2000 = Ok b).
Proof.
  pose proof ex_generate_ok as K. destruct ex_generate as [[m' [[id encoded]|err|]]|] eqn:E; [|discriminate K..]. apply bool_decide_eq_true_1 in K. subst id.
  destruct (issued_credentials_trusted ex_manager [] [str "ops"; str "dev"] true [str "10.0.0.0/8"] (3600 * second) (Some (str " laptop ")) false ex_random 1000 1000 true true m' (str "laptop") encoded ex_admin ex_well_formed
    (Forall_nil_2 op_ok) ex_op_ok E) as (e & b & c & Ee & Hp & _ & _ & _ & _ & _ & _ & _ & _ & _ & _ & Ht).
  exists m', encoded, e, b. split; [reflexivity|]. split; [exact Ee|]. split; [exact (proj1 (Hp eq_refl))|]. intros Hw. refine (proj1 (Ht 2000 _ Hw)). unfold time_ok. lia.
Defined.
Definition ex_issued : CredentialManager := match ex_generate with Some (m, _) => m | None => ex_manager end.
Lemma ex_issued_ok : admin ex_issued /\ well_formed ex_issued /\ has_path ex_issued = true.
Proof.
  unfold ex_issued. destruct ex_generate as [[m' r]|] eqn:E; [|split_and!; [apply ex_admin|apply ex_well_formed|reflexivity]]. destruct ex_op_ok as (H1 & H2 & H3 & H4).
  unfold ex_generate in E. change (run ex_manager []) with ex_manager in E. destruct (generate_evolves _ _ _ _ _ _ _ _ _ _ _ _ _ _ ex_admin ex_well_formed H1 H2 H3 H4 E) as ([R P W _] & _ & _). split_and!; [exact (same_root_admin _ _ R ex_admin)|exact W|exact P].
Qed.
Lemma ex_revoked : (try_revoke_credential ex_issued (str "laptop") true).2 = Ok true.
Proof. vm_compute. reflexivity. Qed.
Lemma revocation_is_permanent_witness : exists e, credentials (store ex_issued) !! str "laptop" = Some e /\
  is_certificate_id_revoked (run (try_revoke_credential ex_issued (str "laptop") true).1 [OExpire 5000 false; ORestart true; ORevoke (str "laptop") false]) (e_certificate_id e) = true.
Proof.
  destruct ex_issued_ok as (Ha & Hw & Hp).
  destruct (revocation_is_permanent ex_issued (str "laptop") true [OExpire 5000 false; ORestart true; ORevoke (str "laptop") false] Ha Hw Hp ex_revoked) as (e & Ee & Hr).
  exists e. split; [exact Ee|]. refine (proj1 (Hr _ _)); [repeat constructor|]. split; [exact I|]. split; [reflexivity|]. split; [|exact I]. intros K. exfalso. vm_compute in K. discriminate K.
Defined.
End CredentialsProps.
