(* ===== verification/RouteRecords.v ===== *)
(** * Records of the route exchange

    [SyncedRouteInfo] of src/lowertier/src/peers/peer_ospf_route.rs: the records and connections that peers report, the
    checks of a request before it is merged, and the merge with its memory accounting.

    A raw message ([DynamicMessage] of the prost-reflect crate) is of any type, with its length and its peer field as
    arguments, as is the encoded length of a record (prost).  The topology lock makes every operation one transition; the
    time is an argument.  The order of a hash map is not observed.  A record holds the fields that routes and credentials are
    computed from; its multicast groups, which the merge normalises first, are left out, as are the maps of group trusts and foreign
    networks that a removal also clears. *)
From stdpp Require Import base list gmap numbers sorting.
From Stdlib Require Import ZArith Lia.
From S2P Require Import Prelude MemoryGovernor Credentials PeerGraph RouteGraph.

Local Open Scope Z_scope.

Module RouteRecords.
Import RouteGraph.

Definition MAX_ROUTE_SYNC_PEERS : Z := 4096.
Definition MAX_ROUTE_SYNC_EDGES : Z := 32768.
Definition MAX_ROUTE_SYNC_EDGES_PER_SOURCE : Z := 1024.
Definition ROUTE_PEER_RETAINED_OVERHEAD_BYTES : Z := 512.
Definition ROUTE_PEER_RETAINED_EXPANSION_FACTOR : Z := 4.

Record PeerIdVersion : Type := mk_id { id_peer : Z; id_version : Z }.
(** a row of bits for each peer *)
Record RouteConnBitmap : Type := mk_bitmap { bm_peer_ids : list PeerIdVersion; bitmap : list Z }.
Record PeerConnInfo : Type := mk_conns { pc_peer_id : option PeerIdVersion; connected_peer_ids : list Z }.
Inductive ConnInfo : Type := ConnBitmap (b : RouteConnBitmap) | ConnPeerList (l : list PeerConnInfo).

Inductive Error : Type := DuplicatePeerId | Stopped.
(** the malformed requests, by what is wrong with them *)
Inductive Malformed : Type :=
  TooManyPeers | DuplicateId | Overflow | WrongLength | TrailingBits | TooManyEdgesOfSource | TooManyEdges | MissingSource | WrongScope | WrongRole.

(** ** Bitmaps *)
Definition get_bit (b : RouteConnBitmap) (idx : Z) : bool :=
  match bitmap b !! Z.to_nat (idx / 8) with Some byte => Z.land (Z.shiftr byte (idx mod 8)) 1 =? 1 | None => false end.
Definition get_connected_peers (b : RouteConnBitmap) (peer_idx : Z) : gset Z :=
  list_to_set (omap (fun x : nat * PeerIdVersion => if get_bit b (peer_idx * len (bm_peer_ids b) + Z.of_nat x.1) then Some (id_peer x.2) else None) (imap pair (bm_peer_ids b))).

Fixpoint count_ones (n : nat) (byte : Z) : Z := match n with O => 0 | S n => Z.b2z (Z.testbit byte (Z.of_nat n)) + count_ones n byte end.
(** the bits of a row in one byte *)
Definition row_byte (row_start row_end first_byte last_byte byte_idx byte : Z) : Z :=
  let byte := if byte_idx =? first_byte then Z.land byte (wrap 8 (Z.shiftl (u_max 8) (row_start mod 8))) else byte in
  if byte_idx =? last_byte then
    let valid_bits := (row_end - 1) mod 8 + 1 in
    if valid_bits <? 8 then Z.land byte (Z.shiftl 1 valid_bits - 1) else byte
  else byte.
Fixpoint row_count (b : RouteConnBitmap) (row_start row_end first_byte last_byte : Z) (n : nat) (byte_idx : Z) (count : Z) : option Z :=
  match n with
  | O => Some count
  | S n =>
      byte ← bitmap b !! Z.to_nat byte_idx;
      count ← checked_add 64 count (count_ones 8 (row_byte row_start row_end first_byte last_byte byte_idx byte));
      row_count b row_start row_end first_byte last_byte n (byte_idx + 1) count
  end.
Definition checked_mul (w a b : Z) : option Z := if a * b <? 2 ^ w then Some (a * b) else None.
Definition bitmap_row_edge_count (b : RouteConnBitmap) (peer_count source_idx : Z) : option Z :=
  if peer_count =? 0 then Some 0
  else
    row_start ← checked_mul 64 source_idx peer_count;
    row_end ← checked_add 64 row_start peer_count;
    let first_byte := row_start / 8 in
    let last_byte := (row_end - 1) / 8 in
    row_count b row_start row_end first_byte last_byte (Z.to_nat (last_byte - first_byte + 1)) first_byte 0.

(** ** Checks of one request *)
Fixpoint no_duplicate (seen : gset Z) (l : list Z) : bool :=
  match l with [] => true | p :: l => if bool_decide (p ∈ seen) then false else no_duplicate ({[p]} ∪ seen) l end.
Fixpoint check_rows (b : RouteConnBitmap) (peer_count : Z) (n : nat) (source_idx edge_count : Z) : outcome Malformed unit :=
  match n with
  | O => Ok tt
  | S n =>
      source_edge_count ← ok_or (bitmap_row_edge_count b peer_count source_idx) Overflow;
      _ ← ensure (source_edge_count <=? MAX_ROUTE_SYNC_EDGES_PER_SOURCE) TooManyEdgesOfSource;
      edge_count ← ok_or (checked_add 64 edge_count source_edge_count) Overflow;
      _ ← ensure (edge_count <=? MAX_ROUTE_SYNC_EDGES) TooManyEdges;
      check_rows b peer_count n (source_idx + 1) edge_count
  end.
Definition trailing_bits_clear (b : RouteConnBitmap) (edge_bits : Z) : bool :=
  match last (bitmap b) with
  | Some last_byte => (edge_bits mod 8 =? 0) || (Z.land last_byte (Z.lxor (Z.shiftl 1 (edge_bits mod 8) - 1) (u_max 8)) =? 0)
  | None => true
  end.
Definition validate_bitmap (b : RouteConnBitmap) : outcome Malformed unit :=
  let peer_count := len (bm_peer_ids b) in
  _ ← ensure (peer_count <=? MAX_ROUTE_SYNC_PEERS) TooManyPeers;
  _ ← ensure (no_duplicate ∅ (id_peer <$> bm_peer_ids b)) DuplicateId;
  edge_bits ← ok_or (checked_mul 64 peer_count peer_count) Overflow;
  _ ← ensure (len (bitmap b) =? (edge_bits + 7) / 8) WrongLength;
  _ ← ensure (trailing_bits_clear b edge_bits) TrailingBits;
  check_rows b peer_count (length (bm_peer_ids b)) 0 0.
Fixpoint check_sources (l : list PeerConnInfo) (source_ids node_ids : gset Z) (edge_count : Z) : outcome Malformed unit :=
  match l with
  | [] => Ok tt
  | source :: l =>
      p ← ok_or (pc_peer_id source) MissingSource;
      _ ← ensure (negb (bool_decide (id_peer p ∈ source_ids))) DuplicateId;
      let connected_count := len (connected_peer_ids source) in
      _ ← ensure (connected_count <=? MAX_ROUTE_SYNC_EDGES_PER_SOURCE) TooManyEdgesOfSource;
      edge_count ← ok_or (checked_add 64 edge_count connected_count) Overflow;
      _ ← ensure (edge_count <=? MAX_ROUTE_SYNC_EDGES) TooManyEdges;
      _ ← ensure (no_duplicate ∅ (connected_peer_ids source)) DuplicateId;
      let node_ids := {[id_peer p]} ∪ node_ids ∪ list_to_set (connected_peer_ids source) in
      _ ← ensure (Z.of_nat (size node_ids) <=? MAX_ROUTE_SYNC_PEERS) TooManyPeers;
      check_sources l ({[id_peer p]} ∪ source_ids) node_ids edge_count
  end.
Definition validate_route_conn_info (c : ConnInfo) : outcome Malformed unit :=
  match c with
  | ConnBitmap b => validate_bitmap b
  | ConnPeerList l => _ ← ensure (len l <=? MAX_ROUTE_SYNC_PEERS) TooManyPeers; check_sources l ∅ ∅ 0
  end.
Definition validate_foreign_relay_conn_scope (from_peer_id : Z) (c : ConnInfo) : outcome Malformed unit :=
  match c with
  | ConnBitmap _ => Err WrongScope
  | ConnPeerList [source] => p ← ok_or (pc_peer_id source) WrongScope; ensure (id_peer p =? from_peer_id) WrongScope
  | ConnPeerList _ => Err WrongScope
  end.
(** what a role may send at all: [records] are the peers of its records *)
Definition validate_route_sync_role_shape (from_peer_id : Z) (role : PeerIdentityType) (records : option (list Z)) (conn_info : option ConnInfo) (foreign_network : bool)
    : outcome Malformed unit :=
  _ ← ensure (bool_decide (role = Admin) || negb foreign_network) WrongRole;
  _ ← match role, records with
      | (SharedNode | Credential), Some l =>
          match l with [p] => ensure (p =? from_peer_id) WrongRole | _ => Err WrongRole end
      | _, _ => Ok tt
      end;
  match role, conn_info with
  | ForeignRelay, Some c => validate_foreign_relay_conn_scope from_peer_id c
  | (SharedNode | Credential), Some _ => Err WrongRole
  | _, _ => Ok tt
  end.

(** ** The records *)
Record RouteRecord : Type := mk_record {
  r_peer_id : Z;
  r_peer_route_id : Z;
  r_last_update : option Z;
  r_info : RoutePeerInfo;
  (** the groups it claims, with a proof for each *)
  r_groups : list (list Z * list Z);
  trusted_credential_pubkeys : list Credentials.TrustedCredentialPubkeyProof;
}.
Record RouteConnInfo : Type := mk_conn { connected_peers : gset Z; conn_version : Z }.
(** [RoutePeerInfo::new]: the record of a peer that is only known by its number *)
Definition empty_info : RoutePeerInfo := mk_peer 0 0 [] None [] None None None [] 0.
Definition empty_record (now : Z) : RouteRecord := mk_record 0 0 (Some now) empty_info [] [].
Definition r_version (r : RouteRecord) : Z := p_version (r_info r).
Definition touch (now : Z) (r : RouteRecord) : RouteRecord := mk_record (r_peer_id r) (r_peer_route_id r) (Some now) (r_info r) (r_groups r) (trusted_credential_pubkeys r).

Section Records.
Context {Raw : Type} (raw_len : Raw -> Z) (raw_peer_id : Raw -> option Z) (encoded_len : RouteRecord -> Z).

Record t : Type := mk {
  peer_infos : gmap Z RouteRecord;
  raw_peer_infos : gmap Z Raw;
  retained_peer_bytes : gmap Z Z;
  retained_peer_bytes_total : Z;
  process_memory : MemoryGovernor.t;
  conn_map : gmap Z RouteConnInfo;
  version : Z;
}.
Definition with_infos (s : t) (infos : gmap Z RouteRecord) : t :=
  mk infos (raw_peer_infos s) (retained_peer_bytes s) (retained_peer_bytes_total s) (process_memory s) (conn_map s) (version s).
Definition with_conns (s : t) (conns : gmap Z RouteConnInfo) : t :=
  mk (peer_infos s) (raw_peer_infos s) (retained_peer_bytes s) (retained_peer_bytes_total s) (process_memory s) conns (version s).
Definition inc (s : t) : t :=
  mk (peer_infos s) (raw_peer_infos s) (retained_peer_bytes s) (retained_peer_bytes_total s) (process_memory s) (conn_map s) (wrap 32 (version s + 1)).

(** *** Removing *)
Definition release_peer (s : t) (p : Z) : t :=
  match retained_peer_bytes s !! p with
  | Some bytes =>
      mk (peer_infos s) (delete p (raw_peer_infos s)) (delete p (retained_peer_bytes s)) (wrap 64 (retained_peer_bytes_total s - bytes))
        (MemoryGovernor.release (process_memory s) bytes) (conn_map s) (version s)
  | None => mk (peer_infos s) (delete p (raw_peer_infos s)) (retained_peer_bytes s) (retained_peer_bytes_total s) (process_memory s) (conn_map s) (version s)
  end.
Definition remove_peers_locked (l : list Z) (s : t) : t :=
  let peer_ids : gset Z := list_to_set l in
  if bool_decide (peer_ids = ∅) then s
  else
    let s := with_conns (with_infos s (foldl (fun m p => delete p m) (peer_infos s) (elements peer_ids))) (foldl (fun m p => delete p m) (conn_map s) (elements peer_ids)) in
    inc (foldl release_peer s (elements peer_ids)).

(** *** Peers that are only mentioned *)
Definition fill_empty_peer (now : Z) (x : t * bool) (p : Z) : t * bool :=
  let '(s, need_inc_version) := x in
  let '(s, need_inc_version) := if bool_decide (is_Some (peer_infos s !! p)) then (s, need_inc_version) else (with_infos s (<[p := empty_record now]> (peer_infos s)), true) in
  if bool_decide (is_Some (conn_map s !! p)) then (s, need_inc_version) else (with_conns s (<[p := mk_conn ∅ 0]> (conn_map s)), true).
Definition fill_empty_peer_info_locked (now : Z) (peer_ids : gset Z) (s : t) : t * bool := foldl (fill_empty_peer now) (s, false) (ascending peer_ids).
Definition fill_empty_peer_info (now : Z) (peer_ids : gset Z) (s : t) : t :=
  let '(s, need_inc_version) := fill_empty_peer_info_locked now peer_ids s in if need_inc_version then inc s else s.

(** *** Merging records *)
Definition get_peer_info_version_with_default (s : t) (p : Z) : Z := match peer_infos s !! p with Some r => r_version r | None => 0 end.
Definition check_duplicate_peer_id (s : t) (my_peer_id my_peer_route_id dst_peer_id : Z) (dst_peer_route_id : option Z) (r : RouteRecord) : outcome Error unit :=
  if r_peer_id r =? my_peer_id then
    ensure (negb (negb (r_peer_route_id r =? my_peer_route_id) && (get_peer_info_version_with_default s (r_peer_id r) <? r_version r))) DuplicatePeerId
  else if r_peer_id r =? dst_peer_id then
    match dst_peer_route_id with
    | None => Ok tt
    | Some dst_route => ensure (negb (negb (dst_route =? r_peer_route_id r) && (r_version r <? get_peer_info_version_with_default s (r_peer_id r)))) DuplicatePeerId
    end
  else Ok tt.
Definition retained_bytes (r : RouteRecord) (raw : Raw) : Z :=
  saturating_add 64 (saturating_mul 64 (saturating_add 64 (encoded_len r) (raw_len raw)) ROUTE_PEER_RETAINED_EXPANSION_FACTOR) ROUTE_PEER_RETAINED_OVERHEAD_BYTES.
(** a newer record takes the place of an older one, if the memory for it is granted *)
Definition store_record (now : Z) (r : RouteRecord) (raw : Raw) (s : t) : option t :=
  let bytes := retained_bytes r raw in
  let old_bytes := default 0 (retained_peer_bytes s !! r_peer_id r) in
  let added_bytes := saturating_sub bytes old_bytes in
  let '(memory, granted) := if added_bytes =? 0 then (process_memory s, true) else MemoryGovernor.reserve (process_memory s) added_bytes in
  if negb granted then None
  else
    let p := r_peer_id r in
    let '(total, memory) :=
      if old_bytes <=? bytes then (wrap 64 (retained_peer_bytes_total s + (bytes - old_bytes)), memory)
      else (wrap 64 (retained_peer_bytes_total s - (old_bytes - bytes)), MemoryGovernor.release memory (old_bytes - bytes)) in
    Some (mk (<[p := touch now r]> (peer_infos s)) (<[p := raw]> (raw_peer_infos s)) (<[p := bytes]> (retained_peer_bytes s)) total memory (conn_map s) (version s)).

Section Merge.
Context (my_peer_id my_peer_route_id dst_peer_id now : Z).
Definition merge_record (s : t) (r : RouteRecord) (raw : Raw) : t * outcome Error bool :=
  match check_duplicate_peer_id s my_peer_id my_peer_route_id dst_peer_id
          (if r_peer_id r =? dst_peer_id then r_peer_route_id <$> peer_infos s !! dst_peer_id else None) r with
  | Ok _ =>
      match raw_peer_id raw with
      | None => (s, Err Stopped)
      | Some p =>
          if negb (p =? r_peer_id r) then (s, Err Stopped)
          else if match peer_infos s !! r_peer_id r with Some old => r_version old <? r_version r | None => true end then
            match store_record now r raw s with Some s => (s, Ok true) | None => (s, Err Stopped) end
          else (s, Ok false)
      end
  | Err e => (s, Err e)
  | Panic => (s, Panic)
  end.
(** an error ends the merge: the records before it stay merged *)
Fixpoint merge_records (l : list (RouteRecord * Raw)) (need_inc_version : bool) (s : t) : t * outcome Error unit :=
  match l with
  | [] => (if need_inc_version then inc s else s, Ok tt)
  | (r, raw) :: l =>
      match merge_record s r raw with
      | (s, Ok merged) => merge_records l (need_inc_version || merged) s
      | (s, Err e) => (s, Err e)
      | (s, Panic) => (s, Panic)
      end
  end.
Definition update_peer_infos_locked (infos : list RouteRecord) (raws : list Raw) (s : t) : t * outcome Error unit :=
  if negb (len infos =? len raws) then (s, Err Stopped) else merge_records (zip infos raws) false s.
End Merge.

(** *** Merging connections *)
Definition update_conn_info_one_peer (s : t) (x : PeerIdVersion) (peers : gset Z) : t * bool :=
  if match conn_map s !! id_peer x with Some old => conn_version old <? id_version x | None => true end then
    (with_conns s (<[id_peer x := mk_conn peers (id_version x)]> (conn_map s)), true)
  else (s, false).
Definition update_row (now : Z) (b : RouteConnBitmap) (x : t * bool) (row : nat * PeerIdVersion) : t * bool :=
  let peers := get_connected_peers b (Z.of_nat row.1) in
  let '(s, changed) := update_conn_info_one_peer (fill_empty_peer_info now peers x.1) row.2 peers in (s, x.2 || changed).
Definition update_conn_info_with_bitmap (now : Z) (b : RouteConnBitmap) (s : t) : t :=
  let s := fill_empty_peer_info now (list_to_set (id_peer <$> bm_peer_ids b)) s in
  let '(s, need_inc_version) := foldl (update_row now b) (s, false) (imap pair (bm_peer_ids b)) in
  if need_inc_version then inc s else s.
Definition update_source (now : Z) (x : t * bool) (source : PeerConnInfo) : t * bool :=
  match pc_peer_id source with
  | None => x
  | Some p =>
      let peers : gset Z := list_to_set (connected_peer_ids source) in
      let '(s, changed) := update_conn_info_one_peer (fill_empty_peer_info now peers x.1) p peers in (s, x.2 || changed)
  end.
Definition update_conn_info_with_list (now : Z) (l : list PeerConnInfo) (s : t) : t :=
  let '(s, need_inc_version) := foldl (update_source now) (s, false) l in
  if need_inc_version then inc s else s.
Definition update_conn_info_locked (now : Z) (c : ConnInfo) (s : t) : t :=
  match c with ConnBitmap b => update_conn_info_with_bitmap now b s | ConnPeerList l => update_conn_info_with_list now l s end.

(** *** The merged state is checked before anything changes *)
(** the peers so far and the connections as they will be *)
Definition merged : Type := gset Z * gmap Z (Z * gset Z).
Definition add_peer_id (m : merged) (p : Z) : option merged :=
  let ids := {[p]} ∪ m.1 in if MAX_ROUTE_SYNC_PEERS <? Z.of_nat (size ids) then None else Some (ids, m.2).
Fixpoint add_peer_ids (l : list Z) (m : merged) : option merged := match l with [] => Some m | p :: l => m ← add_peer_id m p; add_peer_ids l m end.
Definition replace_conn (m : merged) (x : PeerIdVersion) (peers : gset Z) : merged :=
  if match m.2 !! id_peer x with Some old => old.1 <? id_version x | None => true end then (m.1, <[id_peer x := (id_version x, peers)]> m.2) else m.
Fixpoint merge_rows (b : RouteConnBitmap) (l : list (nat * PeerIdVersion)) (m : merged) : option merged :=
  match l with
  | [] => Some m
  | row :: l => let peers := get_connected_peers b (Z.of_nat row.1) in m ← add_peer_ids (ascending peers) m; merge_rows b l (replace_conn m row.2 peers)
  end.
Fixpoint merge_sources (l : list PeerConnInfo) (m : merged) : option merged :=
  match l with
  | [] => Some m
  | source :: l =>
      p ← pc_peer_id source;
      m ← add_peer_id m (id_peer p);
      let peers : gset Z := list_to_set (connected_peer_ids source) in
      m ← add_peer_ids (ascending peers) m;
      merge_sources l (replace_conn m p peers)
  end.
Fixpoint within_edge_limits (l : list (Z * (Z * gset Z))) (edge_count : Z) : bool :=
  match l with
  | [] => true
  | x :: l =>
      let n := Z.of_nat (size x.2.2) in
      if MAX_ROUTE_SYNC_EDGES_PER_SOURCE <? n then false
      else match checked_add 64 edge_count n with
           | Some edge_count => if MAX_ROUTE_SYNC_EDGES <? edge_count then false else within_edge_limits l edge_count
           | None => false
           end
  end.
Definition validate_merged_route_state_locked (s : t) (infos : list RouteRecord) (conn_info : option ConnInfo) : outcome Error unit :=
  let m : merged := (dom (peer_infos s) ∪ list_to_set (r_peer_id <$> infos), (fun c => (conn_version c, connected_peers c)) <$> conn_map s) in
  m ← ok_or (match conn_info with
             | None => Some m
             | Some (ConnBitmap b) => m ← add_peer_ids (id_peer <$> bm_peer_ids b) m; merge_rows b (imap pair (bm_peer_ids b)) m
             | Some (ConnPeerList l) => merge_sources l m
             end) Stopped;
  _ ← ensure (Z.of_nat (size m.1) <=? MAX_ROUTE_SYNC_PEERS) Stopped;
  ensure (within_edge_limits (map_to_list m.2) 0) Stopped.

(** *** One request *)
Record request : Type := mk_request {
  q_source : Z;
  q_infos : list RouteRecord;
  q_raws : list Raw;
  q_conn_info : option ConnInfo;
  (** the source may report connections *)
  q_authority : bool;
  q_now : Z;
}.
Definition update_peer_infos_and_conn_info_with_authority (my_peer_id my_peer_route_id : Z) (q : request) (s : t) : t * outcome Error bool :=
  match validate_merged_route_state_locked s (q_infos q) (q_conn_info q) with
  | Ok _ =>
      let version_before := version s in
      let s := if negb (q_authority q) && bool_decide (is_Some (conn_map s !! q_source q)) then inc (with_conns s (delete (q_source q) (conn_map s))) else s in
      match update_peer_infos_locked my_peer_id my_peer_route_id (q_source q) (q_now q) (q_infos q) (q_raws q) s with
      | (s, Ok _) =>
          let s := match q_conn_info q with Some c => update_conn_info_locked (q_now q) c s | None => s end in
          (s, Ok (negb (version s =? version_before)))
      | (s, Err e) => (s, Err e)
      | (s, Panic) => (s, Panic)
      end
  | Err e => (s, Err e)
  | Panic => (s, Panic)
  end.
(** the connections of this node, from its own interfaces *)
Definition update_my_conn_info_locked (now my_peer_id : Z) (peers : gset Z) (s : t) : t * bool :=
  let '(s, updated) := fill_empty_peer_info_locked now peers s in
  let new_version := wrap 32 (match conn_map s !! my_peer_id with Some c => conn_version c | None => 0 end + 1) in
  if match conn_map s !! my_peer_id with Some old => negb (bool_decide (connected_peers old = peers)) | None => true end then
    (with_conns s (<[my_peer_id := mk_conn peers new_version]> (conn_map s)), true)
  else (s, updated).
Definition new (memory : MemoryGovernor.t) : t := mk ∅ ∅ ∅ 0 memory ∅ 0.
End Records.
End RouteRecords.
