(* ===== verification/RouteRecordsProps.v ===== *)
(** * Properties of the route records

    Rows of a bitmap are counted exactly, the state that peers report stays within its limits, the memory of its records is
    accounted exactly, and nodes that receive the same records hold the same records (RouteRecords). *)
From stdpp Require Import base list gmap numbers sorting.
From Stdlib Require Import ZArith Lia.
From S2P Require Import Prelude MemoryGovernor Credentials PeerGraph RouteGraph RouteGraphProps RouteRecords.

Local Open Scope Z_scope.

Module RouteRecordsProps.
Import RouteGraph RouteGraphProps RouteRecords.

(** ** Bitmaps *)
(** how many of [n] positions from [a] satisfy [f] *)
Fixpoint cnt (f : Z -> bool) (a : Z) (n : nat) : Z := match n with O => 0 | S n => Z.b2z (f (a + Z.of_nat n)) + cnt f a n end.
Lemma cnt_app f a n m : cnt f a (n + m) = cnt f a n + cnt f (a + Z.of_nat n) m.
Proof. induction m as [|m IH]; [rewrite Nat.add_0_r; simpl; lia|]. rewrite Nat.add_succ_r. simpl. rewrite IH. replace (a + Z.of_nat (n + m)) with (a + Z.of_nat n + Z.of_nat m) by lia. lia. Qed.
Lemma cnt_ext f g a b n : (forall k, 0 <= k < Z.of_nat n -> f (a + k) = g (b + k)) -> cnt f a n = cnt g b n.
Proof. induction n as [|n IH]; intros H; [done|]. simpl. rewrite H by lia. rewrite IH; [done|]. intros k Hk. apply H. lia. Qed.
Lemma cnt_none f a n : (forall k, 0 <= k < Z.of_nat n -> f (a + k) = false) -> cnt f a n = 0.
Proof. induction n as [|n IH]; intros H; [done|]. simpl. rewrite H by lia. rewrite IH; [done|]. intros k Hk. apply H. lia. Qed.
Lemma cnt_bound f a n : 0 <= cnt f a n <= Z.of_nat n.
Proof. induction n as [|n IH]; simpl; [lia|]. destruct (f _); simpl; lia. Qed.
Lemma count_ones_cnt n byte : count_ones n byte = cnt (Z.testbit byte) 0 n.
Proof. induction n as [|n IH]; [done|]. simpl. by rewrite IH. Qed.

Section Bitmap.
Context (b : RouteConnBitmap) (Hb : Forall (is_u 8) (bitmap b)).
Lemma get_bit_testbit idx byte : bitmap b !! Z.to_nat (idx / 8) = Some byte -> get_bit b idx = Z.testbit byte (idx mod 8).
Proof.
  intros E. unfold get_bit. rewrite E. rewrite Z.testbit_odd, Z.land_ones with (n := 1) by lia. change (2 ^ 1) with 2. rewrite Zmod_odd. by destruct (Z.odd _).
Qed.
(** the set bits of a row in one byte *)
Lemma row_byte_bits row_start row_end byte_idx byte k : 0 <= row_start < row_end -> row_start / 8 <= byte_idx <= (row_end - 1) / 8 -> is_u 8 byte -> 0 <= k < 8 ->
  Z.testbit (row_byte row_start row_end (row_start / 8) ((row_end - 1) / 8) byte_idx byte) k = Z.testbit byte k && (row_start <=? 8 * byte_idx + k) && (8 * byte_idx + k <? row_end).
Proof.
  intros Hr Hi Hby Hk. unfold row_byte, wrap, u_max. pose proof (Z.div_mod row_start 8 ltac:(lia)). pose proof (Z.div_mod (row_end - 1) 8 ltac:(lia)). pose proof (Z.mod_pos_bound row_start 8 ltac:(lia)). pose proof (Z.mod_pos_bound (row_end - 1) 8 ltac:(lia)).
  set (m := row_start mod 8) in *. set (v := (row_end - 1) mod 8 + 1) in *.
  assert (E1 : Z.testbit (if byte_idx =? row_start / 8 then Z.land byte (Z.shiftl (2 ^ 8 - 1) m mod 2 ^ 8) else byte) k = Z.testbit byte k && (row_start <=? 8 * byte_idx + k)).
  { destruct (Z.eqb_spec byte_idx (row_start / 8)) as [->|].
    - rewrite Z.land_spec, Z.mod_pow2_bits_low by lia. f_equal. rewrite Z.shiftl_spec by lia. change (2 ^ 8 - 1) with (Z.ones 8).
      destruct (Z.leb_spec row_start (8 * (row_start / 8) + k)); [rewrite Z.ones_spec_low by lia; done|rewrite Z.testbit_neg_r by lia; done].
    - rewrite (proj2 (Z.leb_le _ _)) by lia. by rewrite andb_true_r. }
  destruct (Z.eqb_spec byte_idx ((row_end - 1) / 8)) as [E2|].
  - destruct (Z.ltb_spec v 8).
    + rewrite Z.land_spec, E1, Z.shiftl_1_l. f_equal. replace (2 ^ v - 1) with (Z.ones v) by (rewrite Z.ones_equiv; lia).
      destruct (Z.ltb_spec (8 * byte_idx + k) row_end); [rewrite Z.ones_spec_low by lia; done|rewrite Z.ones_spec_high by lia; done].
    + rewrite E1, (proj2 (Z.ltb_lt _ _)) by lia. by rewrite andb_true_r.
  - rewrite E1, (proj2 (Z.ltb_lt _ _)) by lia. by rewrite andb_true_r.
Qed.
(** the bits of a row, counted byte by byte *)
Lemma row_count_cnt row_start row_end n byte_idx count : 0 <= row_start < row_end -> row_start / 8 <= byte_idx -> byte_idx + Z.of_nat n = (row_end - 1) / 8 + 1 ->
  (row_end - 1) / 8 < len (bitmap b) -> 0 <= count -> count + 8 * Z.of_nat n < 2 ^ 64 ->
  row_count b row_start row_end (row_start / 8) ((row_end - 1) / 8) n byte_idx count =
    Some (count + cnt (fun k => get_bit b k && (row_start <=? k) && (k <? row_end)) (8 * byte_idx) (8 * n)).
Proof.
  intros Hr. revert byte_idx count. induction n as [|n IH]; intros byte_idx count Hi Hn Hl Hc Hm; [simpl; f_equal; lia|]. cbn [row_count].
  assert (0 <= row_start / 8) by (apply Z.div_pos; lia).
  destruct (lookup_lt_is_Some_2 (bitmap b) (Z.to_nat byte_idx)) as [byte E]; [unfold len in Hl; lia|]. rewrite E. cbn [mbind option_bind].
  assert (Hby : is_u 8 byte) by (eapply Forall_lookup_1; eauto).
  set (f := fun k => get_bit b k && (row_start <=? k) && (k <? row_end)).
  assert (Ec : count_ones 8 (row_byte row_start row_end (row_start / 8) ((row_end - 1) / 8) byte_idx byte) = cnt f (8 * byte_idx) 8).
  { rewrite count_ones_cnt. apply cnt_ext. intros k Hk. rewrite Z.add_0_l, row_byte_bits by (lia || done). unfold f.
    assert (Ed : (8 * byte_idx + k) / 8 = byte_idx) by (rewrite Z.mul_comm, Z.div_add_l by lia; rewrite (Z.div_small k) by lia; lia).
    assert (Em : (8 * byte_idx + k) mod 8 = k) by (rewrite Z.mul_comm, Z.add_comm, Z_mod_plus_full; apply Z.mod_small; lia).
    rewrite (get_bit_testbit _ byte) by (by rewrite Ed). by rewrite Em. }
  rewrite Ec. pose proof (cnt_bound f (8 * byte_idx) 8). rewrite checked_add_small by lia. cbn [mbind option_bind].
  rewrite IH by lia. replace (8 * S n)%nat with (8 + 8 * n)%nat by lia. rewrite cnt_app. f_equal.
  replace (8 * (byte_idx + 1)) with (8 * byte_idx + Z.of_nat 8) by lia. fold f. lia.
Qed.
Lemma row_cnt row_start n : 0 <= row_start -> (0 < n)%nat -> let row_end := row_start + Z.of_nat n in
  cnt (fun k => get_bit b k && (row_start <=? k) && (k <? row_end)) (8 * (row_start / 8)) (8 * Z.to_nat ((row_end - 1) / 8 - row_start / 8 + 1)) = cnt (get_bit b) row_start n.
Proof.
  intros H0 Hn row_end. pose proof (Z.div_mod row_start 8 ltac:(lia)). pose proof (Z.div_mod (row_end - 1) 8 ltac:(lia)). pose proof (Z.mod_pos_bound row_start 8 ltac:(lia)). pose proof (Z.mod_pos_bound (row_end - 1) 8 ltac:(lia)).
  assert (row_start / 8 <= (row_end - 1) / 8) by (apply Z.div_le_mono; lia).
  set (before := Z.to_nat (row_start mod 8)). set (after := Z.to_nat (7 - (row_end - 1) mod 8)).
  replace (8 * Z.to_nat ((row_end - 1) / 8 - row_start / 8 + 1))%nat with (before + (n + after))%nat by lia. rewrite !cnt_app.
  replace (8 * (row_start / 8) + Z.of_nat before) with row_start by lia.
  rewrite (cnt_none _ _ before), (cnt_none _ _ after), (cnt_ext _ (get_bit b) row_start row_start n); [lia|..].
  - intros k Hk. rewrite (proj2 (Z.leb_le _ _)), (proj2 (Z.ltb_lt _ _)) by lia. by rewrite !andb_true_r.
  - intros k Hk. rewrite (proj2 (Z.ltb_ge _ _)) by lia. by rewrite andb_false_r.
  - intros k Hk. rewrite (proj2 (Z.leb_gt row_start _)) by lia. by rewrite andb_false_r.
Qed.
Lemma connected_count a (l : list PeerIdVersion) : NoDup (id_peer <$> l) ->
  let peers := omap (fun x : nat * PeerIdVersion => if get_bit b (a + Z.of_nat x.1) then Some (id_peer x.2) else None) (imap pair l) in
  NoDup peers /\ (forall p, p ∈ peers -> p ∈ id_peer <$> l) /\ len peers = cnt (get_bit b) a (length l).
Proof.
  induction l as [|x l IH] using rev_ind; intros Hd; [split_and!; [constructor|intros p H; by apply elem_of_nil in H|done]|].
  rewrite fmap_app in Hd. apply NoDup_app in Hd as (Hd & Hx & _). destruct (IH Hd) as (N & M & L).
  rewrite imap_app, omap_app, length_app, Nat.add_1_r. cbn [cnt]. simpl. rewrite Nat.add_0_r. unfold len in *. rewrite length_app.
  destruct (get_bit b (a + Z.of_nat (length l))); simpl; [|rewrite app_nil_r; split_and!; [done| |lia]; intros p Hp; rewrite fmap_app; set_solver].
  split_and!; [|intros p Hp; rewrite fmap_app; set_solver|lia].
  apply NoDup_app. split_and!; [done| |apply NoDup_singleton]. intros p Hp Hp'. apply list_elem_of_singleton in Hp' as ->. apply (Hx (id_peer x)); set_solver.
Qed.
(** the limit on the edges of a source is checked on the number of peers that the row will install *)
Lemma bitmap_row_edge_count_spec i : let n := len (bm_peer_ids b) in n <= MAX_ROUTE_SYNC_PEERS -> NoDup (id_peer <$> bm_peer_ids b) -> len (bitmap b) = (n * n + 7) / 8 -> 0 <= i < n ->
  bitmap_row_edge_count b n i = Some (Z.of_nat (size (get_connected_peers b i))).
Proof.
  intros n Hn Hd Hl Hi. unfold bitmap_row_edge_count, MAX_ROUTE_SYNC_PEERS in *. rewrite (proj2 (Z.eqb_neq _ _)) by lia.
  unfold checked_mul. rewrite (proj2 (Z.ltb_lt _ _)) by nia. cbn [mbind option_bind]. rewrite checked_add_small by nia. cbn [mbind option_bind].
  assert (Hlast : (i * n + n - 1) / 8 < len (bitmap b)) by (rewrite Hl; apply Z.div_lt_upper_bound; [lia|]; pose proof (Z.div_mod (n * n + 7) 8 ltac:(lia)); pose proof (Z.mod_pos_bound (n * n + 7) 8 ltac:(lia)); nia).
  assert (i * n / 8 <= (i * n + n - 1) / 8) by (apply Z.div_le_mono; lia). assert (0 <= i * n / 8) by (apply Z.div_pos; nia).
  assert ((i * n + n - 1) / 8 < 2 ^ 32) by (apply Z.div_lt_upper_bound; nia).
  rewrite row_count_cnt; [|nia|lia|lia|done|lia|lia]. rewrite Z.add_0_l. f_equal.
  pose proof (row_cnt (i * n) (length (bm_peer_ids b))) as R. cbv zeta in R. change (Z.of_nat (length (bm_peer_ids b))) with n in R. rewrite R; [|nia|unfold n, len in Hi; lia].
  destruct (connected_count (i * n) (bm_peer_ids b) Hd) as (N & _ & L). unfold get_connected_peers. rewrite size_list_to_set by done. symmetry. exact L.
Qed.
End Bitmap.

(** *** The checks of a bitmap *)
Section Validate.
Context (b : RouteConnBitmap) (Hb : Forall (is_u 8) (bitmap b)).
Notation n := (len (bm_peer_ids b)).
Definition row_size (i : Z) : Z := Z.of_nat (size (get_connected_peers b i)).
Lemma check_rows_spec k i e : n <= MAX_ROUTE_SYNC_PEERS -> NoDup (id_peer <$> bm_peer_ids b) -> len (bitmap b) = (n * n + 7) / 8 -> 0 <= i -> i + Z.of_nat k <= n -> 0 <= e <= MAX_ROUTE_SYNC_EDGES ->
  check_rows b n k i e = Ok tt <->
    (forall j, i <= j < i + Z.of_nat k -> row_size j <= MAX_ROUTE_SYNC_EDGES_PER_SOURCE) /\ e + sum_Z row_size (seqZ i (Z.of_nat k)) <= MAX_ROUTE_SYNC_EDGES.
Proof.
  intros Hn Hd Hl. revert i e. induction k as [|k IH]; intros i e Hi Hk He; [simpl; split; [intros _; split; [lia|simpl; lia]|done]|].
  rewrite seqZ_cons by lia. replace (Z.pred (Z.of_nat (S k))) with (Z.of_nat k) by lia. replace (Z.succ i) with (i + 1) by lia. cbn [check_rows sum_Z].
  rewrite (bitmap_row_edge_count_spec b Hb i) by (done || lia). fold (row_size i). cbn [ok_or mbind outcome_bind].
  assert (Hr : 0 <= row_size i) by (unfold row_size; lia). assert (Hs : 0 <= sum_Z row_size (seqZ (i + 1) (Z.of_nat k))) by (apply sum_Z_nonneg; intros; unfold row_size; lia).
  destruct (Z.leb_spec (row_size i) MAX_ROUTE_SYNC_EDGES_PER_SOURCE) as [H1|H1]; cbn [ensure mbind outcome_bind]; [|split; [done|intros [F _]; specialize (F i); lia]].
  unfold MAX_ROUTE_SYNC_EDGES, MAX_ROUTE_SYNC_EDGES_PER_SOURCE in *. rewrite checked_add_small by lia. cbn [ok_or mbind outcome_bind].
  destruct (Z.leb_spec (e + row_size i) 32768) as [H2|H2]; cbn [ensure mbind outcome_bind]; [|split; [done|intros [_ F]; lia]].
  rewrite IH by lia. split; intros [F S]; (split; [|lia]); intros j Hj; [destruct (decide (j = i)) as [->|]; [done|]|]; apply F; lia.
Qed.
Lemma no_duplicate_spec seen l : no_duplicate seen l = true <-> NoDup l /\ (forall p, p ∈ l -> p ∉ seen).
Proof.
  revert seen. induction l as [|p l IH]; intros seen; simpl; [split; [intros _; split; [constructor|set_solver]|done]|]. case_bool_decide as H; [split; [done|intros [_ F]; by destruct (F p ltac:(left))]|].
  rewrite IH, NoDup_cons. split; [intros [N F]; split; [split; [intros Hp; specialize (F p Hp); set_solver|done]|]|intros [[Hp N] F]; split; [done|]].
  - intros q Hq. apply elem_of_cons in Hq as [->|Hq]; [done|]. specialize (F q Hq). set_solver.
  - intros q Hq. assert (q <> p) by congruence. assert (q ∉ seen) by (apply F; by right). set_solver.
Qed.
(** C24: A bitmap of connections is accepted exactly when it has at most 4096 peers, all different, the length its square
    needs, no bit set behind the last row, and each row installs at most 1024 connections and all of them together at most
    32768.  The connections are counted byte by byte with masks and never built, so the count of a row is shown to be the
    number of peers that the merge reads from it. *)
Theorem bitmap_accepted_iff : validate_route_conn_info (ConnBitmap b) = Ok tt <->
  n <= MAX_ROUTE_SYNC_PEERS /\ NoDup (id_peer <$> bm_peer_ids b) /\ len (bitmap b) = (n * n + 7) / 8 /\ trailing_bits_clear b (n * n) = true /\
  (forall j, 0 <= j < n -> row_size j <= MAX_ROUTE_SYNC_EDGES_PER_SOURCE) /\ sum_Z row_size (seqZ 0 n) <= MAX_ROUTE_SYNC_EDGES.
Proof.
  unfold validate_route_conn_info, validate_bitmap. destruct (Z.leb_spec n MAX_ROUTE_SYNC_PEERS) as [H1|H1]; cbn [ensure mbind outcome_bind]; [|split; [done|lia]].
  destruct (no_duplicate ∅ (id_peer <$> bm_peer_ids b)) eqn:H2; cbn [ensure mbind outcome_bind]; [|split; [done|intros (_ & N & _); enough (no_duplicate ∅ (id_peer <$> bm_peer_ids b) = true) by congruence; apply no_duplicate_spec; set_solver]].
  apply no_duplicate_spec in H2 as [H2 _]. assert (0 <= n) by (unfold len; lia). unfold checked_mul. rewrite (proj2 (Z.ltb_lt _ _)) by (unfold MAX_ROUTE_SYNC_PEERS in H1; nia). cbn [ok_or mbind outcome_bind].
  destruct (Z.eqb_spec (len (bitmap b)) ((n * n + 7) / 8)) as [H3|H3]; cbn [ensure mbind outcome_bind]; [|split; [done|naive_solver]].
  destruct (trailing_bits_clear b (n * n)) eqn:H4; cbn [ensure mbind outcome_bind]; [|split; [done|naive_solver]].
  rewrite check_rows_spec; [|done..|unfold len; lia|unfold MAX_ROUTE_SYNC_EDGES; lia]. fold n. change (Z.of_nat (length (bm_peer_ids b))) with n. rewrite !Z.add_0_l. naive_solver.
Qed.
End Validate.

(** ** Limits *)
Definition total_edges (c : gmap Z (gset Z)) : Z := map_fold (fun _ x n => Z.of_nat (size x) + n) 0 c.
Lemma total_edges_insert c p x : c !! p = None -> total_edges (<[p := x]> c) = Z.of_nat (size x) + total_edges c.
Proof. intros E. unfold total_edges. rewrite map_fold_insert_L; [done| |done]. intros. lia. Qed.
Lemma total_edges_delete c p x : c !! p = Some x -> total_edges c = Z.of_nat (size x) + total_edges (delete p c).
Proof. intros E. rewrite <- (total_edges_insert (delete p c) p x) by apply lookup_delete_eq. by rewrite insert_delete_id. Qed.
Lemma total_edges_nonneg c : 0 <= total_edges c.
Proof. induction c as [|p x c E IH] using map_ind; [done|]. rewrite total_edges_insert by done. lia. Qed.
(** connections that are empty or the same are no more *)
Lemma total_edges_le c d : (forall p x, c !! p = Some x -> x = ∅ \/ d !! p = Some x) -> total_edges c <= total_edges d.
Proof.
  revert d. induction c as [|p x c E IH] using map_ind; intros d H; [apply total_edges_nonneg|].
  rewrite total_edges_insert by done.
  assert (Hc : forall q y, c !! q = Some y -> q <> p /\ (y = ∅ \/ d !! q = Some y)).
  { intros q y Hq. destruct (decide (q = p)) as [->|Hne]; [congruence|]. split; [done|]. apply H. by rewrite lookup_insert_ne. }
  destruct (H p x (lookup_insert_eq _ _ _)) as [->|Hd].
  - rewrite size_empty. specialize (IH d). assert (total_edges c <= total_edges d); [|lia]. apply IH. intros q y Hq. by apply Hc.
  - rewrite (total_edges_delete d p x Hd). assert (total_edges c <= total_edges (delete p d)); [|lia]. apply IH.
    intros q y Hq. destruct (Hc q y Hq) as [Hne [?|?]]; [by left|right]. by rewrite lookup_delete_ne.
Qed.
Lemma within_edge_limits_spec l n : 0 <= n -> within_edge_limits l n = true -> Forall (fun x => Z.of_nat (size x.2.2) <= MAX_ROUTE_SYNC_EDGES_PER_SOURCE) l /\ (l = [] \/ n + sum_Z (fun x => Z.of_nat (size x.2.2)) l <= MAX_ROUTE_SYNC_EDGES).
Proof.
  revert n. induction l as [|x l IH]; intros n Hn H; [split; [constructor|by left]|]. cbn [within_edge_limits] in H.
  destruct (Z.ltb_spec MAX_ROUTE_SYNC_EDGES_PER_SOURCE (Z.of_nat (size x.2.2))); [done|].
  destruct (checked_add _ _ _) eqn:E; [|done]. apply checked_add_Some in E as [-> _]. destruct (Z.ltb_spec MAX_ROUTE_SYNC_EDGES (n + Z.of_nat (size x.2.2))); [done|].
  destruct (IH (n + Z.of_nat (size x.2.2)) ltac:(lia) H) as [F S]. split; [by constructor|right]. destruct S as [->|S]; simpl in *; lia.
Qed.
Lemma total_edges_sum (m : gmap Z (Z * gset Z)) : total_edges (snd <$> m) = sum_Z (fun x => Z.of_nat (size x.2.2)) (map_to_list m).
Proof.
  induction m as [|p x m E IH] using map_ind; [done|]. rewrite fmap_insert, total_edges_insert, IH by (by rewrite lookup_fmap, E).
  rewrite (sum_Z_perm _ _ _ (map_to_list_insert m p x E)). done.
Qed.
Lemma add_peer_ids_spec l (m m' : merged) : add_peer_ids l m = Some m' -> m' = (m.1 ∪ list_to_set l, m.2).
Proof.
  revert m. induction l as [|p l IH]; intros m H; simpl in H; [injection H as <-; destruct m; simpl; f_equal; set_solver|].
  unfold add_peer_id in H. destruct (_ <? _); [done|]. simpl in H. rewrite (IH _ H). simpl. f_equal. set_solver.
Qed.

Section Records.
Context {Raw : Type} (raw_len : Raw -> Z) (raw_peer_id : Raw -> option Z) (encoded_len : RouteRecord -> Z).
Notation state := (t (Raw := Raw)).
(** the checked state covers the state that the merge builds *)
Definition covers (m : merged) (s : state) : Prop :=
  dom (peer_infos s) ⊆ m.1 /\
  forall p, match conn_map s !! p, m.2 !! p with
            | Some c, Some (v, peers) => conn_version c = v /\ (connected_peers c = ∅ \/ connected_peers c = peers)
            | Some c, None => c = mk_conn ∅ 0
            | None, x => x = None
            end.
Lemma covers_inc m s : covers m s -> covers m (inc s).
Proof. done. Qed.
Lemma fill_covers_one now m (x : state * bool) p : covers m x.1 -> p ∈ m.1 -> covers m (fill_empty_peer now x p).1.
Proof.
  destruct x as [s need]. intros [D C] Hp. unfold fill_empty_peer.
  set (s1 := if bool_decide (is_Some (peer_infos s !! p)) then s else with_infos s (<[p := empty_record now]> (peer_infos s))).
  assert (H1 : covers m s1 /\ conn_map s1 = conn_map s) by (unfold s1; destruct (bool_decide _); [done|]; split; [split; [simpl; rewrite dom_insert_L; set_solver|done]|done]).
  replace (if bool_decide (is_Some (peer_infos s !! p)) then (s, need) else (with_infos s (<[p := empty_record now]> (peer_infos s)), true))
    with (s1, need || negb (bool_decide (is_Some (peer_infos s !! p)))) by (unfold s1; destruct (bool_decide _); simpl; [by rewrite orb_false_r|by rewrite orb_true_r]).
  cbv beta iota. clearbody s1. destruct H1 as [[D1 C1] E1]. case_bool_decide as Hn; [done|]. apply eq_None_not_Some in Hn. split; [done|].
  intros q. simpl. destruct (decide (p = q)) as [->|Hne]; [|rewrite lookup_insert_ne by done; apply C1].
  specialize (C1 q). rewrite Hn in C1. rewrite lookup_insert_eq. by rewrite C1.
Qed.
Lemma fill_covers now peers m (s : state) : covers m s -> peers ⊆ m.1 -> covers m (fill_empty_peer_info now peers s).
Proof.
  intros H Hp. unfold fill_empty_peer_info, fill_empty_peer_info_locked.
  assert (Hl : forall l (x : state * bool), (forall p, p ∈ l -> p ∈ m.1) -> covers m x.1 -> covers m (foldl (fill_empty_peer now) x l).1).
  { induction l as [|p l IH]; intros x Hm Hx; [done|]. simpl. apply IH; [set_solver|]. apply fill_covers_one; [done|set_solver]. }
  specialize (Hl (ascending peers) (s, false)). destruct (foldl _ _ _) as [s' []]; [apply covers_inc|]; apply Hl; try done; intros p Hq; apply elem_of_ascending in Hq; set_solver.
Qed.
Lemma one_peer_covers x peers m (s : state) : covers m s -> 0 <= id_version x -> covers (replace_conn m x peers) (update_conn_info_one_peer s x peers).1.
Proof.
  intros [D C] Hv. assert (Hid : (replace_conn m x peers).1 = m.1) by (unfold replace_conn; by repeat case_match).
  split; [rewrite Hid; unfold update_conn_info_one_peer; by repeat case_match|]. intros q.
  destruct (decide (id_peer x = q)) as [<-|Hne].
  - specialize (C (id_peer x)). unfold update_conn_info_one_peer, replace_conn. destruct (conn_map s !! id_peer x) as [c|] eqn:E, (m.2 !! id_peer x) as [[v ps]|] eqn:Em; try done.
    + destruct C as [Ev C]. simpl. rewrite Ev. destruct (Z.ltb_spec v (id_version x)); simpl; [rewrite !lookup_insert_eq; auto|rewrite E, Em; auto].
    + subst c. simpl. rewrite lookup_insert_eq. destruct (Z.ltb_spec 0 (id_version x)); simpl; [rewrite lookup_insert_eq; auto|]. rewrite E. simpl. split; [lia|by left].
    + simpl. rewrite !lookup_insert_eq. auto.
  - assert (E1 : conn_map (update_conn_info_one_peer s x peers).1 !! q = conn_map s !! q) by (unfold update_conn_info_one_peer; repeat case_match; try done; by apply lookup_insert_ne).
    assert (E2 : (replace_conn m x peers).2 !! q = m.2 !! q) by (unfold replace_conn; repeat case_match; try done; by apply lookup_insert_ne).
    rewrite E1, E2. apply C.
Qed.
Lemma covers_more m ids (s : state) : covers m s -> covers (m.1 ∪ ids, m.2) s.
Proof. intros [D C]. split; [set_solver|done]. Qed.
(** one reported source: the check and the merge do the same *)
Lemma source_covers now x (peers : gset Z) m (s : state) : covers m s -> 0 <= id_version x -> peers ⊆ m.1 ->
  covers (replace_conn m x peers) (update_conn_info_one_peer (fill_empty_peer_info now peers s) x peers).1.
Proof. intros H Hv Hp. apply one_peer_covers; [by apply fill_covers|done]. Qed.
Lemma rows_cover now b l m m' (x : state * bool) : Forall (fun row : nat * PeerIdVersion => 0 <= id_version row.2) l -> merge_rows b l m = Some m' -> covers m x.1 -> covers m' (foldl (update_row now b) x l).1.
Proof.
  revert m x. induction l as [|row l IH]; intros m x Hv H Hc; [by injection H as <-|]. apply Forall_cons in Hv as [Hv Hl]. cbn [merge_rows] in H.
  destruct (add_peer_ids _ m) as [m1|] eqn:E; [|done]. cbn [mbind option_bind] in H. apply add_peer_ids_spec in E.
  apply (IH (replace_conn m1 row.2 (get_connected_peers b (Z.of_nat row.1)))); [done|done|]. unfold update_row. set (peers := get_connected_peers b (Z.of_nat row.1)) in *.
  pose proof (source_covers now row.2 peers m1 x.1) as S. destruct (update_conn_info_one_peer _ _ _) as [s' ?]. simpl in *. apply S; [subst m1; by apply covers_more|done|].
  subst m1. simpl. intros p Hp. apply elem_of_union_r, elem_of_list_to_set, elem_of_ascending. done.
Qed.
Lemma sources_cover now l m m' (x : state * bool) : Forall (fun c => forall p, pc_peer_id c = Some p -> 0 <= id_version p) l -> merge_sources l m = Some m' -> covers m x.1 -> covers m' (foldl (update_source now) x l).1.
Proof.
  revert m x. induction l as [|c l IH]; intros m x Hv H Hc; [by injection H as <-|]. apply Forall_cons in Hv as [Hv Hl]. cbn [merge_sources] in H.
  destruct (pc_peer_id c) as [p|] eqn:Ep; [|done]. cbn [mbind option_bind] in H. unfold add_peer_id in H. destruct (_ <? _); [done|]. cbn [mbind option_bind] in H.
  destruct (add_peer_ids _ _) as [m1|] eqn:E; [|done]. cbn [mbind option_bind] in H. apply add_peer_ids_spec in E.
  apply (IH (replace_conn m1 p (list_to_set (connected_peer_ids c)))); [done|done|]. unfold update_source. rewrite Ep.
  pose proof (source_covers now p (list_to_set (connected_peer_ids c)) m1 x.1) as S. destruct (update_conn_info_one_peer _ _ _) as [s' ?]. simpl in *.
  apply S; [subst m1; simpl; replace (({[id_peer p]} ∪ m.1) ∪ _) with (m.1 ∪ ({[id_peer p]} ∪ list_to_set (ascending (list_to_set (connected_peer_ids c) : gset Z)))) by set_solver; by apply covers_more|by apply Hv|].
  subst m1. simpl. intros q Hq. apply elem_of_union_r, elem_of_list_to_set, elem_of_ascending. done.
Qed.
(** *** Merging records *)
Notation store := (store_record raw_len encoded_len).
Notation merge := (merge_records raw_len raw_peer_id encoded_len).
Definition newer (s : state) (r : RouteRecord) : Prop := match peer_infos s !! r_peer_id r with Some old => r_version old < r_version r | None => True end.
Lemma merge_record_cases my my_route dst now (s : state) r raw : let x := merge_record raw_len raw_peer_id encoded_len my my_route dst now s r raw in
  (x.2 = Ok true /\ newer s r /\ store now r raw s = Some x.1) \/ (x.1 = s /\ (x.2 = Ok false -> ~ newer s r) /\ x.2 <> Ok true /\ x.2 <> Panic).
Proof.
  unfold merge_record, newer. assert (Hc : forall o, check_duplicate_peer_id s my my_route dst o r <> Panic) by (intros o; unfold check_duplicate_peer_id, ensure; by repeat case_match).
  destruct (check_duplicate_peer_id _ _ _ _ _ _) eqn:E; [|right; naive_solver|by apply Hc in E].
  destruct (raw_peer_id raw) as [p|]; [|right; naive_solver]. destruct (negb _); [right; naive_solver|].
  destruct (peer_infos s !! r_peer_id r) as [old|]; [destruct (Z.ltb_spec (r_version old) (r_version r))|].
  - destruct (store now r raw s) eqn:Es; [left|right]; naive_solver.
  - right. split_and!; [done| |done|done]. intros _ Hn. lia.
  - destruct (store now r raw s) eqn:Es; [left|right]; naive_solver.
Qed.
(** what every stored record keeps, the merge of a request keeps *)
Lemma merge_records_keep (P : state -> Prop) my my_route dst now l need s :
  (forall s, P s -> P (inc s)) -> (forall s s' r raw, (r, raw) ∈ l -> newer s r -> store now r raw s = Some s' -> P s -> P s') -> P s -> P (merge my my_route dst now l need s).1.
Proof.
  intros Hi. revert need s. induction l as [|[r raw] l IH]; intros need s Hs HP; cbn [merge_records]; [destruct need; simpl; auto|].
  pose proof (merge_record_cases my my_route dst now s r raw) as H. destruct (merge_record _ _ _ _ _ _ _ _ _ _) as [s1 o]. cbv zeta in H. cbn [fst snd] in H.
  assert (P s1) by (destruct H as [(-> & Hn & Es)|(-> & _)]; [eapply Hs; [left|..]; eauto|done]).
  destruct o; [apply IH; [intros; eapply Hs; [right|..]; eauto|done]|done|done].
Qed.
Lemma update_peer_infos_keep (P : state -> Prop) my my_route dst now infos raws s :
  (forall s, P s -> P (inc s)) -> (forall s s' r raw, r ∈ infos -> newer s r -> store now r raw s = Some s' -> P s -> P s') -> P s ->
  P (update_peer_infos_locked raw_len raw_peer_id encoded_len my my_route dst now infos raws s).1.
Proof.
  intros Hi Hs HP. unfold update_peer_infos_locked. destruct (negb _); [done|]. apply merge_records_keep; [done| |done].
  intros s0 s' r raw Hin. apply Hs. by apply elem_of_zip_l in Hin.
Qed.
Lemma store_fields now r raw s s' : store now r raw s = Some s' -> peer_infos s' = <[r_peer_id r := touch now r]> (peer_infos s) /\ conn_map s' = conn_map s /\ version s' = version s.
Proof. unfold store_record. repeat case_match; intros Hs; try done; by simplify_eq. Qed.

(** *** The limits hold in every state *)
Definition limits (s : state) : Prop :=
  Z.of_nat (size (dom (peer_infos s))) <= MAX_ROUTE_SYNC_PEERS /\
  (forall p c, conn_map s !! p = Some c -> Z.of_nat (size (connected_peers c)) <= MAX_ROUTE_SYNC_EDGES_PER_SOURCE) /\
  total_edges (connected_peers <$> conn_map s) <= MAX_ROUTE_SYNC_EDGES.
Definition merged_limits (m : merged) : Prop := Z.of_nat (size m.1) <= MAX_ROUTE_SYNC_PEERS /\ within_edge_limits (map_to_list m.2) 0 = true.
Lemma size_mono (X Y : gset Z) : X ⊆ Y -> Z.of_nat (size X) <= Z.of_nat (size Y).
Proof. intros H. apply subseteq_size in H. lia. Qed.
Lemma covers_limits m s : covers m s -> merged_limits m -> limits s.
Proof.
  intros [D C] [Hp Hw]. destruct (within_edge_limits_spec _ 0 ltac:(lia) Hw) as [F S].
  assert (K : forall p c, conn_map s !! p = Some c -> connected_peers c = ∅ \/ exists v, m.2 !! p = Some (v, connected_peers c)).
  { intros p c E. specialize (C p). rewrite E in C. destruct (m.2 !! p) as [[v ps]|]; [|subst c; by left]. destruct C as [_ [?| ->]]; eauto. }
  split_and!; [pose proof (size_mono _ _ D); lia| |].
  - intros p c E. destruct (K p c E) as [->|[v Hm]]; [done|]. apply elem_of_map_to_list in Hm. rewrite Forall_forall in F. apply (F _ Hm).
  - transitivity (total_edges (snd <$> m.2)).
    + apply total_edges_le. intros p x E. rewrite lookup_fmap in E. destruct (conn_map s !! p) as [c|] eqn:Ec; [|done]. injection E as <-.
      destruct (K p c Ec) as [?|[v Hm]]; [by left|right]. by rewrite lookup_fmap, Hm.
    + rewrite total_edges_sum. destruct S as [->|S]; [done|lia].
Qed.
Lemma fewer_limits (s s' : state) : limits s -> Z.of_nat (size (dom (peer_infos s'))) <= MAX_ROUTE_SYNC_PEERS -> conn_map s' ⊆ conn_map s -> limits s'.
Proof.
  intros (_ & H1 & H2) Hp Hc. split_and!; [done|intros p c E; eapply H1, lookup_weaken; eauto|]. etransitivity; [|apply H2].
  apply total_edges_le. intros p x E. right. eapply lookup_weaken; [done|]. by apply map_fmap_mono.
Qed.
Definition before (s : state) (infos : list RouteRecord) : merged := (dom (peer_infos s) ∪ list_to_set (r_peer_id <$> infos), (fun c => (conn_version c, connected_peers c)) <$> conn_map s).
Definition after (conn_info : option ConnInfo) (m : merged) : option merged :=
  match conn_info with
  | None => Some m
  | Some (ConnBitmap b) => m ← add_peer_ids (id_peer <$> bm_peer_ids b) m; merge_rows b (imap pair (bm_peer_ids b)) m
  | Some (ConnPeerList l) => merge_sources l m
  end.
Lemma validate_spec s infos conn_info : validate_merged_route_state_locked s infos conn_info = Ok tt <-> exists m, after conn_info (before s infos) = Some m /\ merged_limits m.
Proof.
  unfold validate_merged_route_state_locked. fold (before s infos). fold (after conn_info (before s infos)). destruct (after _ _) as [m|]; simpl; [|split; [done|naive_solver]].
  unfold merged_limits. split.
  - intros H. exists m. destruct (Z.leb_spec (Z.of_nat (size m.1)) MAX_ROUTE_SYNC_PEERS); simpl in H; [|done]. by destruct (within_edge_limits _ _).
  - intros (? & [= <-] & Hp & ->). by rewrite (proj2 (Z.leb_le _ _)).
Qed.
Lemma validate_no_panic (s : state) infos conn_info : validate_merged_route_state_locked s infos conn_info <> Panic.
Proof. unfold validate_merged_route_state_locked, ok_or, ensure. by repeat (case_match; simpl). Qed.
Lemma replace_conn_ids m x peers : (replace_conn m x peers).1 = m.1.
Proof. unfold replace_conn. by repeat case_match. Qed.
Lemma after_more conn_info m m' : after conn_info m = Some m' -> m.1 ⊆ m'.1.
Proof.
  assert (Hr : forall b l m m', merge_rows b l m = Some m' -> m.1 ⊆ m'.1).
  { intros b l. induction l as [|row l IH]; intros m0 m1 H; [by injection H as <-|]. cbn [merge_rows] in H. destruct (add_peer_ids _ _) as [m2|] eqn:E; [|done]. apply add_peer_ids_spec in E as ->.
    apply IH in H. rewrite replace_conn_ids in H. simpl in H. set_solver. }
  destruct conn_info as [[b|l]|]; simpl; [|revert m|by intros [= <-]].
  - destruct (add_peer_ids _ _) as [m2|] eqn:E; [|done]. apply add_peer_ids_spec in E as ->. intros H. apply Hr in H. simpl in H. set_solver.
  - induction l as [|c l IH]; intros m0 H; [by injection H as <-|]. cbn [merge_sources] in H. destruct (pc_peer_id c) as [p|]; [|done]. cbn [mbind option_bind] in H.
    unfold add_peer_id in H. destruct (_ <? _); [done|]. cbn [mbind option_bind] in H. destruct (add_peer_ids _ _) as [m2|] eqn:E; [|done]. apply add_peer_ids_spec in E as ->.
    apply IH in H. rewrite replace_conn_ids in H. simpl in H. set_solver.
Qed.
Definition versions_ok (c : ConnInfo) : Prop :=
  match c with
  | ConnBitmap b => Forall (fun x => 0 <= id_version x) (bm_peer_ids b)
  | ConnPeerList l => Forall (fun c => forall p, pc_peer_id c = Some p -> 0 <= id_version p) l
  end.
Lemma update_conn_info_covers now c m m' s : versions_ok c -> after (Some c) m = Some m' -> covers m s -> covers m' (update_conn_info_locked now c s).
Proof.
  intros Hv Ha Hc. destruct c as [b|l]; simpl in *.
  - destruct (add_peer_ids _ _) as [m1|] eqn:E; [|done]. apply add_peer_ids_spec in E. simpl in Ha. unfold update_conn_info_with_bitmap.
    set (s1 := fill_empty_peer_info now (list_to_set (id_peer <$> bm_peer_ids b)) s). assert (H1 : covers m1 s1) by (subst m1; apply fill_covers; [by apply covers_more|set_solver]).
    assert (Hf : Forall (fun row : nat * PeerIdVersion => 0 <= id_version row.2) (imap pair (bm_peer_ids b))).
    { apply Forall_lookup. intros i row Hi. rewrite list_lookup_imap in Hi. destruct (bm_peer_ids b !! i) as [x|] eqn:Ex; [|done]. injection Hi as <-. simpl. eapply (Forall_lookup_1 _ _ _ _ Hv Ex). }
    pose proof (rows_cover now b _ m1 m' (s1, false) Hf Ha H1). destruct (foldl _ _ _) as [s2 []]; done.
  - unfold update_conn_info_with_list. pose proof (sources_cover now l m m' (s, false) Hv Ha Hc). destruct (foldl _ _ _) as [s2 []]; done.
Qed.
(** *** The memory of the records *)
Notation held := MemoryGovernor.total.
Lemma held_replace m p x : held (<[p := x]> m) = held m + x - default 0 (m !! p).
Proof. destruct (m !! p) as [y|] eqn:E; simpl; [rewrite (MemoryGovernor.total_update m p y x E)|rewrite MemoryGovernor.total_insert by done]; lia. Qed.
(** the counters say what the records hold; [others] is what the rest of the process retains *)
Definition accounted (others : Z) (s : state) : Prop :=
  map_Forall (fun _ x => 0 <= x) (retained_peer_bytes s) /\ dom (retained_peer_bytes s) = dom (raw_peer_infos s) /\
  retained_peer_bytes_total s = held (retained_peer_bytes s) /\ MemoryGovernor.retained (process_memory s) = others + held (retained_peer_bytes s) /\
  others + held (retained_peer_bytes s) <= MemoryGovernor.limit (process_memory s).
Lemma retained_bytes_nonneg r raw : 0 <= encoded_len r -> 0 <= raw_len raw -> 0 <= retained_bytes raw_len encoded_len r raw.
Proof. intros. unfold retained_bytes, saturating_add, saturating_mul, u_max, ROUTE_PEER_RETAINED_EXPANSION_FACTOR, ROUTE_PEER_RETAINED_OVERHEAD_BYTES. lia. Qed.
Section Account.
Context (Hr : forall raw, 0 <= raw_len raw) (He : forall r, 0 <= encoded_len r) (others : Z) (Ho : 0 <= others).
Lemma store_accounted now r raw s s' : store now r raw s = Some s' -> MemoryGovernor.limit (process_memory s) < 2 ^ 64 -> accounted others s -> accounted others s' /\ MemoryGovernor.limit (process_memory s') = MemoryGovernor.limit (process_memory s).
Proof.
  intros Es Hl (Hn & Hd & Ht & Hm & Hle). unfold store_record in Es. set (bytes := retained_bytes raw_len encoded_len r raw) in *. set (old := default 0 (retained_peer_bytes s !! r_peer_id r)) in *.
  assert (Hb : 0 <= bytes) by (apply retained_bytes_nonneg; auto).
  assert (Hold : 0 <= old <= held (retained_peer_bytes s)).
  { unfold old. pose proof (MemoryGovernor.total_nonneg _ Hn). destruct (retained_peer_bytes s !! r_peer_id r) as [y|] eqn:E; simpl; [|lia]. split; [by apply (Hn _ _ E)|].
    by apply (MemoryGovernor.total_ge _ _ _ Hn E). }
  assert (Hh : held (<[r_peer_id r := bytes]> (retained_peer_bytes s)) = held (retained_peer_bytes s) + bytes - old) by apply held_replace.
  assert (Hf : map_Forall (fun _ x => 0 <= x) (<[r_peer_id r := bytes]> (retained_peer_bytes s))) by (by apply map_Forall_insert_2).
  assert (Hdom : dom (<[r_peer_id r := bytes]> (retained_peer_bytes s)) = dom (<[r_peer_id r := raw]> (raw_peer_infos s))) by (rewrite !dom_insert_L; by rewrite Hd).
  unfold saturating_sub in Es. destruct (Z.leb_spec old bytes).
  - assert (Em : exists g, (if Z.max 0 (bytes - old) =? 0 then (process_memory s, true) else MemoryGovernor.reserve (process_memory s) (Z.max 0 (bytes - old))) = (g.1, g.2) /\
      (g.2 = true -> MemoryGovernor.limit g.1 = MemoryGovernor.limit (process_memory s) /\ MemoryGovernor.retained g.1 = MemoryGovernor.retained (process_memory s) + (bytes - old) /\ MemoryGovernor.retained g.1 <= MemoryGovernor.limit (process_memory s))).
    { destruct (Z.eqb_spec (Z.max 0 (bytes - old)) 0); [exists (process_memory s, true); split; [done|]; simpl; lia|]. exists (MemoryGovernor.reserve (process_memory s) (Z.max 0 (bytes - old))).
      split; [by destruct (MemoryGovernor.reserve _ _)|]. pose proof (MemoryGovernor.reserve_spec (process_memory s) (Z.max 0 (bytes - old))) as R. destruct (MemoryGovernor.reserve _ _) as [g []]; simpl; [intros _|done]. lia. }
    destruct Em as ([g ok] & Em & Hg). rewrite Em in Es. simpl in *. destruct ok; [|done]. destruct (Hg eq_refl) as (G1 & G2 & G3). injection Es as <-. unfold accounted. simpl.
    rewrite Hh, wrap_small by (unfold is_u; lia). split_and!; try done; lia.
  - rewrite (Z.max_l 0 (bytes - old)) in Es by lia. simpl in Es. injection Es as <-. unfold accounted. simpl. rewrite MemoryGovernor.release_spec by lia. simpl.
    rewrite Hh, wrap_small by (unfold is_u; lia). split_and!; try done; lia.
Qed.
Lemma release_accounted s p : MemoryGovernor.limit (process_memory s) < 2 ^ 64 -> accounted others s -> accounted others (release_peer s p) /\ MemoryGovernor.limit (process_memory (release_peer s p)) = MemoryGovernor.limit (process_memory s).
Proof.
  intros Hl (Hn & Hd & Ht & Hm & Hle). unfold release_peer. destruct (retained_peer_bytes s !! p) as [x|] eqn:E.
  - pose proof (Hn _ _ E) as Hx. simpl in Hx. pose proof (MemoryGovernor.total_delete _ _ _ E) as Eh. assert (Hn' : map_Forall (fun _ x => 0 <= x) (delete p (retained_peer_bytes s))) by (by apply map_Forall_delete).
    pose proof (MemoryGovernor.total_nonneg _ Hn'). unfold accounted. simpl. rewrite MemoryGovernor.release_spec by lia. simpl. rewrite wrap_small by (unfold is_u; lia).
    split_and!; try done; [rewrite !dom_delete_L; by rewrite Hd|lia|lia|lia].
  - unfold accounted. simpl. split_and!; try done. rewrite dom_delete_L, <- Hd. apply not_elem_of_dom in E. set_solver.
Qed.
End Account.

(** *** Runs *)
Inductive op : Type := OSync (q : request (Raw := Raw)) | ORemove (peers : list Z).
Section Runs.
Context (my my_route : Z).
Notation sync := (update_peer_infos_and_conn_info_with_authority raw_len raw_peer_id encoded_len my my_route).
Definition step (s : state) (o : op) : state := match o with OSync q => (sync q s).1 | ORemove peers => remove_peers_locked peers s end.
Definition run (s : state) (ops : list op) : state := foldl step s ops.
(** what the handler passes: connections only of a source that may report them, with versions that are unsigned *)
Definition request_ok (q : request (Raw := Raw)) : Prop := (q_authority q = false -> q_conn_info q = None) /\ (forall c, q_conn_info q = Some c -> versions_ok c).
Definition op_ok (o : op) : Prop := match o with OSync q => request_ok q | ORemove _ => True end.

(** the state in which the records are merged *)
Definition entered (q : request (Raw := Raw)) (s : state) : state :=
  if negb (q_authority q) && bool_decide (is_Some (conn_map s !! q_source q)) then inc (with_conns s (delete (q_source q) (conn_map s))) else s.
Notation merged_infos q s := (update_peer_infos_locked raw_len raw_peer_id encoded_len my my_route (q_source q) (q_now q) (q_infos q) (q_raws q) (entered q s)).
Lemma sync_cases q s : 
  ((sync q s).1 = s /\ exists e, (sync q s).2 = Err e) \/
  exists m, after (q_conn_info q) (before s (q_infos q)) = Some m /\ merged_limits m /\
    (((sync q s).1 = (merged_infos q s).1 /\ (merged_infos q s).2 <> Ok tt) \/
     ((merged_infos q s).2 = Ok tt /\ (exists b, (sync q s).2 = Ok b) /\
      (sync q s).1 = match q_conn_info q with Some c => update_conn_info_locked (q_now q) c (merged_infos q s).1 | None => (merged_infos q s).1 end)).
Proof.
  unfold update_peer_infos_and_conn_info_with_authority. destruct (validate_merged_route_state_locked s (q_infos q) (q_conn_info q)) as [[]|e|] eqn:E; [|left; simpl; eauto|by apply validate_no_panic in E].
  right. apply validate_spec in E as (m & Ea & Hm). exists m. split_and!; [done|done|]. fold (entered q s). destruct (update_peer_infos_locked _ _ _ _ _ _ _ _ _ _) as [s1 [[]|e|]] eqn:Es; simpl; [right|left..]; eauto.
Qed.
Lemma merged_infos_shape q s : let s' := (merged_infos q s).1 in dom (peer_infos s') ⊆ (before s (q_infos q)).1 /\ conn_map s' = conn_map (entered q s).
Proof.
  cbv zeta. apply (update_peer_infos_keep (fun s' => dom (peer_infos s') ⊆ (before s (q_infos q)).1 /\ conn_map s' = conn_map (entered q s))); [done| |].
  - intros s0 s1 r raw Hin _ Hs [D C]. destruct (store_fields _ _ _ _ _ Hs) as (-> & -> & _). split; [|done]. rewrite dom_insert_L. assert (r_peer_id r ∈ (before s (q_infos q)).1); [|set_solver].
    apply elem_of_union_r, elem_of_list_to_set, list_elem_of_fmap_2. done.
  - split; [|done]. unfold entered. destruct (_ && _); simpl; set_solver.
Qed.
Lemma sync_limits q s : request_ok q -> limits s -> limits (sync q s).1.
Proof.
  intros [Ha Hv] Hs. destruct (sync_cases q s) as [[-> _]|(m & Em & Hm & H)]; [done|]. destruct (merged_infos_shape q s) as [D C].
  assert (Hsub : conn_map (entered q s) ⊆ conn_map s) by (unfold entered; destruct (_ && _); [apply delete_subseteq|done]).
  assert (Hf : limits (merged_infos q s).1).
  { apply (fewer_limits s); [done| |by rewrite C]. pose proof (size_mono _ _ D). pose proof (size_mono _ _ (after_more _ _ _ Em)). destruct Hm. lia. }
  destruct H as [[-> _]|(_ & _ & ->)]; [done|]. destruct (q_conn_info q) as [c|] eqn:Ec; [|done].
  apply (covers_limits m); [|done]. apply (update_conn_info_covers _ c (before s (q_infos q))); [by apply Hv|done|]. split; [done|]. rewrite C.
  assert (q_authority q = true) as Eq by (destruct (q_authority q); [done|by specialize (Ha eq_refl)]). unfold entered. rewrite Eq. simpl.
  intros p. rewrite lookup_fmap. destruct (conn_map s !! p); simpl; auto.
Qed.
Lemma foldl_delete {A} (m : gmap Z A) l : foldl (fun m p => delete p m) m l ⊆ m.
Proof. revert m. induction l as [|p l IH]; intros m; [done|]. simpl. etransitivity; [apply IH|apply delete_subseteq]. Qed.
Lemma release_keeps (s : state) l : let s' := foldl release_peer s l in peer_infos s' = peer_infos s /\ conn_map s' = conn_map s.
Proof. revert s. induction l as [|p l IH]; intros s; [done|]. simpl. destruct (IH (release_peer s p)) as [-> ->]. unfold release_peer. by destruct (_ !! p). Qed.
Lemma remove_limits l (s : state) : limits s -> limits (remove_peers_locked l s).
Proof.
  intros Hs. unfold remove_peers_locked. case_bool_decide; [done|]. set (s1 := with_conns _ _). destruct (release_keeps s1 (elements (list_to_set l : gset Z))) as [E1 E2].
  apply (fewer_limits s); [done| |]; simpl; rewrite ?E1, ?E2; unfold s1; simpl; [|apply foldl_delete].
  destruct Hs as [Hp _]. pose proof (size_mono _ _ (subseteq_dom _ _ (foldl_delete (peer_infos s) (elements (list_to_set l : gset Z))))). lia.
Qed.
(** *** What a request reports of connections *)
Definition reports (c : ConnInfo) : list (PeerIdVersion * gset Z) :=
  match c with
  | ConnBitmap b => imap (fun i x => (x, get_connected_peers b (Z.of_nat i))) (bm_peer_ids b)
  | ConnPeerList l => omap (fun c => (fun p => (p, list_to_set (connected_peer_ids c))) <$> pc_peer_id c) l
  end.
Definition report_step (now : Z) (x : state * bool) (r : PeerIdVersion * gset Z) : state * bool :=
  let '(s, changed) := update_conn_info_one_peer (fill_empty_peer_info now r.2 x.1) r.1 r.2 in (s, x.2 || changed).
Definition mentioned (now : Z) (c : ConnInfo) (s : state) : state := match c with ConnBitmap b => fill_empty_peer_info now (list_to_set (id_peer <$> bm_peer_ids b)) s | _ => s end.
Lemma update_conn_info_reports now c (s : state) :
  update_conn_info_locked now c s = let '(s, changed) := foldl (report_step now) (mentioned now c s, false) (reports c) in if changed then inc s else s.
Proof.
  destruct c as [b|l]; simpl.
  - unfold update_conn_info_with_bitmap. f_equal. set (x := (_, false)). clearbody x.
    replace (imap (fun i x => (x, get_connected_peers b (Z.of_nat i))) (bm_peer_ids b)) with ((fun row : nat * PeerIdVersion => (row.2, get_connected_peers b (Z.of_nat row.1))) <$> imap pair (bm_peer_ids b)) by (by rewrite fmap_imap).
    revert x. induction (imap pair (bm_peer_ids b)) as [|row l IH]; intros x; [done|]. simpl. apply IH.
  - unfold update_conn_info_with_list. f_equal. generalize (s, false). induction l as [|c l IH]; intros x; [done|]. simpl. unfold update_source at 2. destruct (pc_peer_id c); simpl; apply IH.
Qed.
Definition newer_conn (s : state) (x : PeerIdVersion) : Prop := match conn_map s !! id_peer x with Some old => conn_version old < id_version x | None => True end.
Section Keep.
Context (P : state -> Prop) (now : Z) (Hinc : forall s, P s -> P (inc s)).
Context (Hinfo : forall s p, peer_infos s !! p = None -> P s -> P (with_infos s (<[p := empty_record now]> (peer_infos s)))).
Context (Hconn : forall s p, conn_map s !! p = None -> P s -> P (with_conns s (<[p := mk_conn ∅ 0]> (conn_map s)))).
Lemma fill_keep peers s : P s -> P (fill_empty_peer_info now peers s).
Proof.
  intros HP. unfold fill_empty_peer_info, fill_empty_peer_info_locked.
  assert (Hl : forall l (x : state * bool), P x.1 -> P (foldl (fill_empty_peer now) x l).1).
  { induction l as [|p l IH]; intros [s0 need] Hx; [done|]. cbn [foldl] in *. apply IH. cbn [fst] in Hx. unfold fill_empty_peer.
    assert (H1 : P (if bool_decide (is_Some (peer_infos s0 !! p)) then (s0, need) else (with_infos s0 (<[p := empty_record now]> (peer_infos s0)), true)).1).
    { case_bool_decide as E; [done|]. apply Hinfo; [by apply eq_None_not_Some|done]. }
    destruct (if bool_decide _ then _ else _) as [s1 ?]. case_bool_decide as E; [done|]. apply Hconn; [by apply eq_None_not_Some|done]. }
  specialize (Hl (ascending peers) (s, false)). destruct (foldl _ _ _) as [s' []]; simpl in *; auto.
Qed.
Lemma report_keep l (x : state * bool) :
  (forall s r, r ∈ l -> newer_conn s r.1 -> P s -> P (with_conns s (<[id_peer r.1 := mk_conn r.2 (id_version r.1)]> (conn_map s)))) -> P x.1 -> P (foldl (report_step now) x l).1.
Proof.
  revert x. induction l as [|r l IH]; intros x Hr HP; [done|]. simpl. apply IH; [intros; apply Hr; [by right|done..]|]. unfold report_step, update_conn_info_one_peer.
  set (s1 := fill_empty_peer_info now r.2 x.1). assert (P s1) by (by apply fill_keep). destruct (conn_map s1 !! id_peer r.1) as [old|] eqn:E; [destruct (Z.ltb_spec (conn_version old) (id_version r.1))|]; simpl; auto.
  - apply Hr; [left| |done]. unfold newer_conn. by rewrite E.
  - apply Hr; [left| |done]. unfold newer_conn. by rewrite E.
Qed.
Lemma update_conn_keep c s :
  (forall s r, r ∈ reports c -> newer_conn s r.1 -> P s -> P (with_conns s (<[id_peer r.1 := mk_conn r.2 (id_version r.1)]> (conn_map s)))) -> P s -> P (update_conn_info_locked now c s).
Proof.
  intros Hr HP. rewrite update_conn_info_reports. assert (P (mentioned now c s)) by (destruct c; simpl; [by apply fill_keep|done]).
  pose proof (report_keep (reports c) (mentioned now c s, false) Hr). destruct (foldl _ _ _) as [s' []]; simpl in *; auto.
Qed.
End Keep.

(** *** Limits and memory in every run *)
Section Bounded.
Context (Hr : forall raw, 0 <= raw_len raw) (He : forall r, 0 <= encoded_len r) (others : Z) (Ho : 0 <= others) (limit : Z) (Hlim : limit < 2 ^ 64).
Definition sound (s : state) : Prop := accounted others s /\ MemoryGovernor.limit (process_memory s) = limit.
Lemma sync_sound q s : sound s -> sound (sync q s).1.
Proof.
  intros Hs. destruct (sync_cases q s) as [[-> _]|(m & _ & _ & H)]; [done|].
  assert (Hm : sound (merged_infos q s).1).
  { apply update_peer_infos_keep; [done| |unfold entered; by destruct (_ && _)]. intros s0 s1 r raw _ _ Est [A L]. destruct (store_accounted Hr He others Ho _ _ _ _ _ Est ltac:(lia) A) as [A' L']. split; [done|lia]. }
  destruct H as [[-> _]|(_ & _ & ->)]; [done|]. destruct (q_conn_info q) as [c|]; [|done]. by apply update_conn_keep.
Qed.
Lemma remove_sound l s : sound s -> sound (remove_peers_locked l s).
Proof.
  intros Hs. unfold remove_peers_locked. case_bool_decide; [done|]. set (s1 := with_conns _ _). assert (H1 : sound s1) by done. clearbody s1. change (sound (foldl release_peer s1 (elements (list_to_set l : gset Z)))).
  revert s1 H1. induction (elements (list_to_set l : gset Z)) as [|p k IH]; intros s1 [A L]; [done|]. simpl. apply IH. destruct (release_accounted Hr He others Ho s1 p ltac:(lia) A) as [A' L']. split; [done|lia].
Qed.
(** C18: In every run of synchronisation requests and removals, whether a request is accepted, refused or fails half-way, the
    records stay within 4096 peers, the connections within 1024 for each source and 32768 in all, and the memory counters say
    exactly what the records hold: the total of the table, the share of the process counter above what the other components
    hold, and never more than the limit of the governor. *)
Theorem route_state_bounded ops s : Forall op_ok ops -> limits s -> sound s -> limits (run s ops) /\ sound (run s ops).
Proof.
  unfold run. revert s. induction ops as [|o ops IH]; intros s Hok Hl Hs; [done|]. apply Forall_cons in Hok as [Ho1 Hok]. simpl. apply IH; [done| |].
  - destruct o as [q|l]; [by apply sync_limits|by apply remove_limits].
  - destruct o as [q|l]; [by apply sync_sound|by apply remove_sound].
Qed.
End Bounded.

(** *** The newest record wins *)
Definition strip (r : RouteRecord) : RouteRecord := mk_record (r_peer_id r) (r_peer_route_id r) None (r_info r) (r_groups r) (trusted_credential_pubkeys r).
Definition knows (p v : Z) (s : state) : Prop := exists r, peer_infos s !! p = Some r /\ v <= r_version r.
Definition sees (p v : Z) (s : state) : Prop := exists c, conn_map s !! p = Some c /\ v <= conn_version c.
Lemma knows_store p v now r raw s s' : newer s r -> store now r raw s = Some s' -> knows p v s -> knows p v s'.
Proof.
  intros Hn Es (old & E & Hv). destruct (store_fields _ _ _ _ _ Es) as (Ei & _). unfold knows. rewrite Ei. unfold newer in Hn.
  destruct (decide (r_peer_id r = p)) as [<-|Hne]; [|rewrite lookup_insert_ne by done; eauto]. rewrite lookup_insert_eq. rewrite E in Hn. exists (touch now r). split; [done|]. unfold r_version in *. simpl in *. lia.
Qed.
Lemma knows_merge p v dst now l need s : knows p v s -> knows p v (merge my my_route dst now l need s).1.
Proof. apply (merge_records_keep (knows p v)); [done|]. intros s0 s' r raw _. apply knows_store. Qed.
Lemma knows_conns p v now c s : knows p v s -> knows p v (update_conn_info_locked now c s).
Proof.
  apply (update_conn_keep (knows p v)); try done. intros s0 q E (r & Er & Hr). exists r. split; [|done]. simpl. rewrite lookup_insert_ne; [done|]. congruence.
Qed.
Lemma sees_report p v (s : state) (r : PeerIdVersion * gset Z) : newer_conn s r.1 -> sees p v s -> sees p v (with_conns s (<[id_peer r.1 := mk_conn r.2 (id_version r.1)]> (conn_map s))).
Proof.
  intros Hn (c & E & Hv). unfold sees, newer_conn in *. simpl. destruct (decide (id_peer r.1 = p)) as [<-|Hne]; [|rewrite lookup_insert_ne by done; eauto].
  rewrite lookup_insert_eq. rewrite E in Hn. eexists. split; [done|]. simpl. lia.
Qed.
Lemma sees_fill p v (s : state) q : conn_map s !! q = None -> sees p v s -> sees p v (with_conns s (<[q := mk_conn ∅ 0]> (conn_map s))).
Proof. intros E (c & Ec & Hc). exists c. split; [|done]. simpl. rewrite lookup_insert_ne; [done|]. congruence. Qed.
Lemma sees_reports p v now l (x : state * bool) : sees p v x.1 -> sees p v (foldl (report_step now) x l).1.
Proof. apply (report_keep (sees p v)); try done; intros; [by apply sees_fill|by apply sees_report]. Qed.
(** after an accepted merge nothing of it is newer than what is stored *)
Lemma merge_records_newest dst now l need s r raw : (merge my my_route dst now l need s).2 = Ok tt -> (r, raw) ∈ l -> knows (r_peer_id r) (r_version r) (merge my my_route dst now l need s).1.
Proof.
  revert need s. induction l as [|[r0 raw0] l IH]; intros need s Hok Hin; [by apply elem_of_nil in Hin|]. cbn [merge_records] in *.
  pose proof (merge_record_cases my my_route dst now s r0 raw0) as H. destruct (merge_record _ _ _ _ _ _ _ _ _ _) as [s1 [b|e|]]; [|done|done]. cbv zeta in H. cbn [fst snd] in H.
  apply elem_of_cons in Hin as [[= -> ->]|Hin]; [|by apply IH]. apply knows_merge. destruct H as [(_ & _ & Es)|(-> & Hn & Hb & _)].
  - destruct (store_fields _ _ _ _ _ Es) as (Ei & _). exists (touch now r0). rewrite Ei, lookup_insert_eq. done.
  - destruct b; [done|]. specialize (Hn eq_refl). unfold newer in Hn. destruct (peer_infos s !! r_peer_id r0) as [old|] eqn:E; [|by destruct Hn]. exists old. split; [done|]. lia.
Qed.
Lemma reports_newest now l (x : state * bool) r : r ∈ l -> sees (id_peer r.1) (id_version r.1) (foldl (report_step now) x l).1.
Proof.
  revert x. induction l as [|r0 l IH]; intros x Hin; [by apply elem_of_nil in Hin|]. simpl. apply elem_of_cons in Hin as [->|Hin]; [|by apply IH]. apply sees_reports.
  unfold report_step, update_conn_info_one_peer. set (s1 := fill_empty_peer_info now r0.2 x.1). unfold sees. destruct (conn_map s1 !! id_peer r0.1) as [old|] eqn:E; [destruct (Z.ltb_spec (conn_version old) (id_version r0.1))|]; simpl.
  - rewrite lookup_insert_eq. eexists. split; [done|]. simpl. lia.
  - rewrite E. eauto.
  - rewrite lookup_insert_eq. eexists. split; [done|]. simpl. lia.
Qed.
Lemma update_conn_newest now c (s : state) r : r ∈ reports c -> sees (id_peer r.1) (id_version r.1) (update_conn_info_locked now c s).
Proof. intros Hin. rewrite update_conn_info_reports. pose proof (reports_newest now (reports c) (mentioned now c s, false) r Hin). destruct (foldl _ _ _) as [s' []]; done. Qed.
Lemma sees_conns p v now c s : sees p v s -> sees p v (update_conn_info_locked now c s).
Proof. apply (update_conn_keep (sees p v)); try done; intros; [by apply sees_fill|by apply sees_report]. Qed.
(** what a node knows of a peer: its record but for the time at which it came, and its connections; a peer that is only
    mentioned has version zero *)
Definition known (s : state) (p : Z) : option RouteRecord := match peer_infos s !! p with Some r => if 0 <? r_version r then Some (strip r) else None | None => None end.
Definition linked (s : state) (p : Z) : option (Z * gset Z) := match conn_map s !! p with Some c => if 0 <? conn_version c then Some (conn_version c, connected_peers c) else None | None => None end.
Lemma strip_version r : r_version (strip r) = r_version r.
Proof. done. Qed.
Lemma known_Some s p k : known s p = Some k <-> exists r, peer_infos s !! p = Some r /\ 0 < r_version r /\ k = strip r.
Proof.
  unfold known. destruct (peer_infos s !! p) as [r|]; [|naive_solver]. destruct (Z.ltb_spec 0 (r_version r)); split; try done.
  - intros [= <-]. by exists r.
  - by intros (? & [= <-] & _ & ->).
  - intros (? & [= <-] & ? & _). lia.
Qed.
Lemma linked_Some s p v peers : linked s p = Some (v, peers) <-> conn_map s !! p = Some (mk_conn peers v) /\ 0 < v.
Proof.
  unfold linked. destruct (conn_map s !! p) as [[ps v0]|]; [|naive_solver]. simpl. destruct (Z.ltb_spec 0 v0); naive_solver lia.
Qed.
(** the records of a request, by the peer they are stored under, and its reported connections *)
Definition sent (q : request (Raw := Raw)) (p : Z) (r : RouteRecord) : Prop := exists r0, r0 ∈ q_infos q /\ r_peer_id r0 = p /\ 0 < r_version r0 /\ strip r0 = r.
Definition conn_reports (q : request (Raw := Raw)) : list (PeerIdVersion * gset Z) := match q_conn_info q with Some c => reports c | None => [] end.
Definition sent_link (q : request (Raw := Raw)) (p : Z) (l : Z * gset Z) : Prop := (mk_id p l.1, l.2) ∈ conn_reports q /\ 0 < l.1.
(** [s] holds nothing but of [R], and the newest of it *)
Definition newest_records (R : Z -> RouteRecord -> Prop) (s : state) : Prop :=
  (forall p k, known s p = Some k -> R p k) /\ (forall p r, R p r -> knows p (r_version r) s).
Definition newest_links (L : Z -> Z * gset Z -> Prop) (s : state) : Prop :=
  (forall p l, linked s p = Some l -> L p l) /\ (forall p l, L p l -> sees p l.1 s).
Definition only (R : Z -> RouteRecord -> Prop) (s : state) : Prop := forall p k, known s p = Some k -> R p k.
Definition only_links (L : Z -> Z * gset Z -> Prop) (s : state) : Prop := forall p l, linked s p = Some l -> L p l.
Lemma only_store R now r raw s s' : (0 < r_version r -> R (r_peer_id r) (strip r)) -> store now r raw s = Some s' -> only R s -> only R s'.
Proof.
  intros Hr Es Ho p k (r1 & E & Hv & ->)%known_Some. destruct (store_fields _ _ _ _ _ Es) as (Ei & _). rewrite Ei in E.
  apply lookup_insert_Some in E as [[<- <-]|[_ E]]; [by apply Hr|]. apply Ho, known_Some. by exists r1.
Qed.
Lemma only_conns R now c s : only R s -> only R (update_conn_info_locked now c s).
Proof.
  apply (update_conn_keep (only R)); try done. intros s0 p _ Ho q k (r & E & Hv & ->)%known_Some. simpl in E.
  apply lookup_insert_Some in E as [[_ <-]|[_ E]]; [by apply Z.lt_irrefl in Hv|]. apply Ho, known_Some. by exists r.
Qed.
Lemma only_links_conns L now c s : (forall x peers, (x, peers) ∈ reports c -> 0 < id_version x -> L (id_peer x) (id_version x, peers)) -> only_links L s -> only_links L (update_conn_info_locked now c s).
Proof.
  intros Hc. apply (update_conn_keep (only_links L)); [done|done|..].
  - intros s0 p _ Ho q [v peers] [E Hv]%linked_Some. simpl in E. apply lookup_insert_Some in E as [[_ [= _ <-]]|[_ E]]; [lia|]. by apply Ho, linked_Some.
  - intros s0 [x ps] Hin _ Ho q [v peers] [E Hv]%linked_Some. simpl in E. apply lookup_insert_Some in E as [[<- [= -> <-]]|[_ E]]; [by apply Hc|]. by apply Ho, linked_Some.
Qed.
(** an accepted request in steps *)
Lemma sync_accepted q s b : (sync q s).2 = Ok b -> (merged_infos q s).2 = Ok tt /\
  (sync q s).1 = match q_conn_info q with Some c => update_conn_info_locked (q_now q) c (merged_infos q s).1 | None => (merged_infos q s).1 end.
Proof.
  unfold update_peer_infos_and_conn_info_with_authority. fold (entered q s). destruct (validate_merged_route_state_locked _ _ _); [|done|done].
  destruct (merged_infos q s) as [s1 [[]|e|]]; simpl; done.
Qed.
Lemma merged_infos_newest q s r : (merged_infos q s).2 = Ok tt -> r ∈ q_infos q -> knows (r_peer_id r) (r_version r) (merged_infos q s).1.
Proof.
  unfold update_peer_infos_locked. destruct (Z.eqb_spec (len (q_infos q)) (len (q_raws q))) as [El|]; [|done]. cbn [negb]. unfold len in El.
  intros Hi [i Ei]%list_elem_of_lookup. destruct (lookup_lt_is_Some_2 (q_raws q) i) as [raw Er]; [apply lookup_lt_Some in Ei; lia|]. apply (merge_records_newest _ _ _ _ _ r raw Hi).
  apply (list_elem_of_lookup_2 _ i). rewrite lookup_zip_with, Ei, Er. done.
Qed.
Lemma entered_infos q s : peer_infos (entered q s) = peer_infos s.
Proof. unfold entered. by destruct (_ && _). Qed.
Lemma sync_newest_records R q s b : (sync q s).2 = Ok b -> newest_records R s -> newest_records (fun p r => R p r \/ sent q p r) (sync q s).1.
Proof.
  intros [Hi ->]%sync_accepted [HF HM]. set (R' := fun p r => R p r \/ sent q p r). set (s1 := (merged_infos q s).1).
  assert (F1 : only R' s1).
  { apply (update_peer_infos_keep (only R')); [done| |].
    - intros s0 s' r raw Hin _. apply only_store. intros Hv. right. by exists r.
    - intros p k Hk. left. apply HF. revert Hk. unfold known. by rewrite entered_infos. }
  assert (K1 : forall p r, R' p r -> knows p (r_version r) s1).
  { intros p r [Hr|(r0 & Hin & <- & _ & <-)]; [|exact (merged_infos_newest q s r0 Hi Hin)]. apply (update_peer_infos_keep (knows p (r_version r))); [done|intros s0 s' r0 raw _; apply knows_store|].
    unfold knows. rewrite entered_infos. by apply HM. }
  clearbody s1. destruct (q_conn_info q) as [c|]; [|done]. split; [by apply only_conns|]. intros p r Hr. by apply knows_conns, K1.
Qed.
Lemma sync_newest_links L q s b : (sync q s).2 = Ok b -> q_authority q = true -> newest_links L s -> newest_links (fun p l => L p l \/ sent_link q p l) (sync q s).1.
Proof.
  intros [Hi ->]%sync_accepted Ha [HF HM]. destruct (merged_infos_shape q s) as [_ C]. cbv zeta in C. set (s1 := (merged_infos q s).1) in *.
  assert (Een : entered q s = s) by (unfold entered; by rewrite Ha). rewrite Een in C.
  assert (F1 : only_links L s1) by (intros p l; unfold linked; rewrite C; apply HF). assert (K1 : forall p l, L p l -> sees p l.1 s1) by (intros p l Hl; unfold sees; rewrite C; by apply HM).
  clearbody s1. unfold sent_link, conn_reports. destruct (q_conn_info q) as [c|]; simpl.
  - split.
    + apply only_links_conns; [intros [p v] peers; by right|]. intros p l Hl. left. by apply F1.
    + intros p l [Hl|[Hl _]]; [by apply sees_conns, K1|]. exact (update_conn_newest _ _ _ _ Hl).
  - split; [intros p l Hl; left; by apply F1|]. intros p l [Hl|[[]%elem_of_nil _]]; by apply K1.
Qed.

Fixpoint accepted (s : state) (qs : list (request (Raw := Raw))) : Prop :=
  match qs with [] => True | q :: qs => (exists b, (sync q s).2 = Ok b) /\ accepted (sync q s).1 qs end.
Definition synced (s : state) (qs : list (request (Raw := Raw))) : state := foldl (fun s q => (sync q s).1) s qs.
(** what a node is told: what it knows at first, and what it is sent *)
Definition told (s : state) (qs : list (request (Raw := Raw))) (p : Z) (r : RouteRecord) : Prop := known s p = Some r \/ exists q, q ∈ qs /\ sent q p r.
Definition told_links (s : state) (qs : list (request (Raw := Raw))) (p : Z) (l : Z * gset Z) : Prop := linked s p = Some l \/ exists q, q ∈ qs /\ sent_link q p l.
Lemma newest_records_ext R R' s : (forall p r, R p r <-> R' p r) -> newest_records R s -> newest_records R' s.
Proof. intros E [F M]. split; intros p r H; [by apply E, F|by apply M, E]. Qed.
Lemma newest_links_ext L L' s : (forall p l, L p l <-> L' p l) -> newest_links L s -> newest_links L' s.
Proof. intros E [F M]. split; intros p r H; [by apply E, F|by apply M, E]. Qed.
Lemma synced_newest_records s qs R : accepted s qs -> newest_records R s -> newest_records (fun p r => R p r \/ exists q, q ∈ qs /\ sent q p r) (synced s qs).
Proof.
  revert R s. induction qs as [|q qs IH]; intros R s Ha Hn; [revert Hn; apply newest_records_ext; set_solver|]. destruct Ha as ([b Hok] & Ha).
  eapply newest_records_ext; [|exact (IH _ _ Ha (sync_newest_records _ _ _ _ Hok Hn))]. intros p r. simpl. set_solver.
Qed.
Lemma synced_newest_links s qs L : accepted s qs -> Forall (fun q => q_authority q = true) qs -> newest_links L s -> newest_links (fun p l => L p l \/ exists q, q ∈ qs /\ sent_link q p l) (synced s qs).
Proof.
  revert L s. induction qs as [|q qs IH]; intros L s Ha Hq Hn; [revert Hn; apply newest_links_ext; set_solver|]. destruct Ha as ([b Hok] & Ha). apply Forall_cons_1 in Hq as [Hq Hqs].
  eapply newest_links_ext; [|exact (IH _ _ Ha Hqs (sync_newest_links _ _ _ _ Hok Hq Hn))]. intros p r. simpl. set_solver.
Qed.
(** no version has two records, or two sets of connections *)
Definition one_record (R : Z -> RouteRecord -> Prop) : Prop := forall p r r', R p r -> R p r' -> r_version r = r_version r' -> r = r'.
Definition one_link (L : Z -> Z * gset Z -> Prop) : Prop := forall p l l', L p l -> L p l' -> l.1 = l'.1 -> l = l'.
Lemma synced_known s qs p k : accepted s qs -> one_record (told s qs) ->
  known (synced s qs) p = Some k <-> told s qs p k /\ forall r, told s qs p r -> r_version r <= r_version k.
Proof.
  intros Ha Hone. destruct (synced_newest_records s qs (fun p r => known s p = Some r) Ha) as [F M].
  { split; [done|]. intros p0 r (r0 & E & _ & ->)%known_Some. by exists r0. }
  split.
  - intros Hk. split; [by apply F|]. intros r Hr. destruct (M p r Hr) as (r1 & E & Hv). apply known_Some in Hk as (r2 & E2 & _ & ->). simplify_eq. done.
  - intros [Hk Hnew]. destruct (M p k Hk) as (r1 & E & Hv).
    assert (0 < r_version k) by (destruct Hk as [(r2 & _ & ? & ->)%known_Some|(q & _ & r2 & _ & _ & ? & <-)]; done).
    assert (Hs : known (synced s qs) p = Some (strip r1)) by (apply known_Some; exists r1; split_and!; [done|lia|done]). rewrite Hs. f_equal. apply (Hone p); [by apply F|done|].
    pose proof (Hnew _ (F _ _ Hs)). rewrite strip_version in *. lia.
Qed.
Lemma synced_linked s qs p k : accepted s qs -> Forall (fun q => q_authority q = true) qs -> one_link (told_links s qs) ->
  linked (synced s qs) p = Some k <-> told_links s qs p k /\ forall l, told_links s qs p l -> l.1 <= k.1.
Proof.
  intros Ha Hq Hone. destruct (synced_newest_links s qs (fun p l => linked s p = Some l) Ha Hq) as [F M].
  { split; [done|]. intros p0 [v ps] [E _]%linked_Some. by eexists. }
  split.
  - intros Hk. split; [by apply F|]. intros l Hl. destruct (M p l Hl) as (c & E & Hv). destruct k as [v ps]. apply linked_Some in Hk as (E2 & _). simplify_eq. done.
  - intros [Hk Hnew]. destruct (M p k Hk) as (c & E & Hv).
    assert (0 < k.1) by (destruct k; destruct Hk as [[_ ?]%linked_Some|(q & _ & _ & ?)]; done).
    assert (Hs : linked (synced s qs) p = Some (conn_version c, connected_peers c)) by (apply linked_Some; split; [by destruct c|lia]). rewrite Hs. f_equal. apply (Hone p); [by apply F|done|].
    pose proof (Hnew _ (F _ _ Hs)). simpl in *. lia.
Qed.

(** *** Sources without connections *)
Definition silent (s : state) : Prop := peer_infos s = ∅ /\ forall p c, conn_map s !! p = Some c -> connected_peers c = ∅.
Definition silent_source (p : Z) : ConnInfo := ConnPeerList [mk_conns (Some (mk_id p 1)) []].
Definition silent_request (p : Z) : request (Raw := Raw) := mk_request 1 [] [] (Some (silent_source p)) true 0.
Lemma within_edge_limits_empty l : Forall (fun x : Z * (Z * gset Z) => x.2.2 = ∅) l -> within_edge_limits l 0 = true.
Proof. induction 1 as [|x l H _ IH]; [done|]. cbn [within_edge_limits]. rewrite H, size_empty. exact IH. Qed.
Lemma silent_sync p s : silent s -> conn_map s !! p = None ->
  silent (sync (silent_request p) s).1 /\ conn_map (sync (silent_request p) s).1 = <[p := mk_conn ∅ 1]> (conn_map s) /\ exists b, (sync (silent_request p) s).2 = Ok b.
Proof.
  intros [Hi Hc] Hp. unfold update_peer_infos_and_conn_info_with_authority. cbn [q_infos q_conn_info silent_request].
  assert (E : validate_merged_route_state_locked s [] (Some (silent_source p)) = Ok tt).
  { apply validate_spec. exists ({[p]}, <[p := (1, ∅)]> ((fun c => (conn_version c, connected_peers c)) <$> conn_map s)). split.
    - unfold before. simpl. rewrite Hi, dom_empty_L, union_empty_r_L. unfold add_peer_id. cbn [fst snd]. rewrite union_empty_r_L, size_singleton. cbn [mbind option_bind]. unfold replace_conn. simpl.
      change (ascending ∅) with (@nil Z). rewrite union_empty_r_L. simpl. rewrite lookup_fmap, Hp. done.
    - split; [cbn [fst]; by rewrite size_singleton|]. apply within_edge_limits_empty. apply Forall_forall. intros [q [v ps]] Hin. apply elem_of_map_to_list in Hin. simpl in *.
      apply lookup_insert_Some in Hin as [[_ [= <- <-]]|[_ Hin]]; [done|]. rewrite lookup_fmap in Hin. destruct (conn_map s !! q) as [c|] eqn:Ec; [|done]. injection Hin as <- <-. by apply (Hc q). }
  rewrite E. simpl. unfold update_conn_info_with_list. simpl. unfold update_source. simpl. unfold update_conn_info_one_peer, fill_empty_peer_info, fill_empty_peer_info_locked.
  assert (Ea : ascending ∅ = []) by reflexivity. rewrite Ea. simpl. rewrite Hp. simpl. split_and!; [|done|eauto].
  split; [done|]. intros q c Hq. simpl in Hq. apply lookup_insert_Some in Hq as [[_ <-]|[_ Hq]]; [done|by apply (Hc q)].
Qed.
Lemma silent_run n s : silent s -> conn_map s = ∅ ->
  let qs := silent_request <$> (Z.of_nat <$> seq 0 n) in accepted s qs /\ silent (synced s qs) /\ size (conn_map (synced s qs)) = n /\ forall p, Z.of_nat n <= p -> conn_map (synced s qs) !! p = None.
Proof.
  intros Hs H0. assert (Happ : forall l k s0, accepted s0 l -> accepted (synced s0 l) k -> accepted s0 (l ++ k)).
  { induction l as [|q l IH]; intros k s0; [done|]. intros [? ?] Hk. simpl. split; [done|]. by apply IH. }
  induction n as [|n IH]; cbv zeta in *; [simpl; rewrite H0; split_and!; try done; intros; apply lookup_empty|].
  rewrite seq_S, !fmap_app. simpl. destruct IH as (A & S & E & F). unfold synced in *. rewrite foldl_app. cbn [foldl]. set (s1 := foldl _ _ _) in *.
  destruct (silent_sync (Z.of_nat n) s1 S ltac:(by apply F; lia)) as (S' & E' & b & Ok'). split_and!; [apply Happ; [done|]; simpl; eauto|done|rewrite E', map_size_insert_None by (apply F; lia); lia|].
  intros p Hp. rewrite E', lookup_insert_ne by lia. apply F. lia.
Qed.
Lemma silent_source_valid p : validate_route_conn_info (silent_source p) = Ok tt.
Proof.
  unfold silent_source. cbn -[size union list_to_set]. rewrite bool_decide_eq_false_2 by set_solver. cbn -[size union].
  assert (E : size ({[p]} ∪ ∅ ∪ ∅ : gset Z) = 1%nat) by (rewrite !union_empty_r_L; apply size_singleton).
  vm_compute in E |- *. by rewrite E.
Qed.
Lemma silent_limits (s : state) : silent s -> limits s.
Proof.
  intros [Hi Hc]. split_and!; [rewrite Hi; done|intros p c E; by rewrite (Hc p c E)|].
  transitivity (total_edges ∅); [|done]. apply total_edges_le. intros p x E. rewrite lookup_fmap in E. destruct (conn_map s !! p) as [c|] eqn:Ec; [|done]. injection E as <-. left. by apply (Hc p).
Qed.
(** C38: The check of the merged state counts the peers that have a record, and a list of connections adds a source without
    giving it one.  So requests that each pass every check, every one accepted and none refused by the limits, put any number of
    sources (here any number of peer ids there are) into the connection map, while the records stay empty and the limits
    hold. *)
Theorem silent_sources_unbounded (n : nat) (memory : MemoryGovernor.t) : Z.of_nat n <= 2 ^ 32 ->
  exists qs, accepted (new memory) qs /\
    Forall (fun q => exists p, is_u 32 p /\ q_authority q = true /\ q_infos q = [] /\ q_conn_info q = Some (silent_source p) /\ validate_route_conn_info (silent_source p) = Ok tt) qs /\
    limits (synced (new memory) qs) /\ peer_infos (synced (new memory) qs) = ∅ /\ size (conn_map (synced (new memory) qs)) = n.
Proof.
  intros Hn. exists (silent_request <$> (Z.of_nat <$> seq 0 n)). assert (H0 : silent (new memory)) by done.
  destruct (silent_run n (new memory) H0 eq_refl) as (A & S & E & _). split_and!; [done| |by apply silent_limits|apply S|done].
  apply Forall_fmap, Forall_fmap, Forall_forall. intros i Hi. apply elem_of_seq in Hi. exists (Z.of_nat i). simpl. split_and!; [split; lia|done|done|done|apply silent_source_valid].
Qed.

(** *** Requests that fail half-way *)
Lemma merge_error_version dst now l need s e : (merge my my_route dst now l need s).2 = Err e -> version (merge my my_route dst now l need s).1 = version s.
Proof.
  revert need s. induction l as [|[r raw] l IH]; intros need s H; cbn [merge_records] in *; [done|].
  pose proof (merge_record_cases my my_route dst now s r raw) as C. destruct (merge_record _ _ _ _ _ _ _ _ _ _) as [s1 o]. cbv zeta in C. cbn [fst snd] in C.
  assert (E : version s1 = version s) by (destruct C as [(_ & _ & Es)|(-> & _)]; [by apply store_fields in Es as (_ & _ & ?)|done]). destruct o; [rewrite (IH _ _ H); done|done|done].
Qed.
(** the failing record is known, the ones before it are merged *)
Lemma merge_error dst now l need s e : let s1 := (merge my my_route dst now l need s).1 in (merge my my_route dst now l need s).2 = Err e ->
  exists l1 r raw l2, l = l1 ++ (r, raw) :: l2 /\ merge_record raw_len raw_peer_id encoded_len my my_route dst now s1 r raw = (s1, Err e) /\
    forall x, x ∈ l1 -> knows (r_peer_id x.1) (r_version x.1) s1.
Proof.
  cbv zeta. revert need s. induction l as [|[r raw] l IH]; intros need s H; cbn [merge_records] in *; [done|].
  pose proof (merge_record_cases my my_route dst now s r raw) as C. destruct (merge_record raw_len _ _ _ _ _ _ s r raw) as [s1 o] eqn:Em. cbv zeta in C. cbn [fst snd] in C. destruct o as [b|e'|]; [|simpl in *|done].
  - destruct (IH _ _ H) as (l1 & r1 & raw1 & l2 & -> & E1 & K). exists ((r, raw) :: l1), r1, raw1, l2. split_and!; [done|done|]. intros x [->|Hx]%elem_of_cons; [|by apply K]. apply knows_merge. simpl.
    destruct C as [(_ & _ & Es)|(-> & Hn & Hb & _)].
    + destruct (store_fields _ _ _ _ _ Es) as (Ei & _). exists (touch now r). rewrite Ei, lookup_insert_eq. done.
    + destruct b; [done|]. specialize (Hn eq_refl). unfold newer in Hn. destruct (peer_infos s !! r_peer_id r) as [old|] eqn:E; [|by destruct Hn]. exists old. split; [done|]. lia.
  - injection H as ->. destruct C as [(? & _)|(-> & _)]; [done|]. exists [], r, raw, l. split_and!; [done|done|]. intros x []%elem_of_nil.
Qed.
(** what a merge changes is one of its records, and newer *)
Lemma merge_changes dst now infos raws s p : let s1 := (update_peer_infos_locked raw_len raw_peer_id encoded_len my my_route dst now infos raws s).1 in
  peer_infos s1 !! p = peer_infos s !! p \/ exists r, r ∈ infos /\ r_peer_id r = p /\ newer s r /\ peer_infos s1 !! p = Some (touch now r).
Proof.
  cbv zeta. apply (update_peer_infos_keep (fun s1 => peer_infos s1 !! p = peer_infos s !! p \/ exists r, r ∈ infos /\ r_peer_id r = p /\ newer s r /\ peer_infos s1 !! p = Some (touch now r))); [done| |by left].
  intros s0 s' r raw Hin Hn Es H. destruct (store_fields _ _ _ _ _ Es) as (Ei & _). rewrite Ei. destruct (decide (r_peer_id r = p)) as [Ep|]; [|by rewrite lookup_insert_ne].
  right. exists r. rewrite Ep, lookup_insert_eq. split_and!; [done|done| |done]. unfold newer in *. rewrite Ep in *. destruct H as [H|(r' & _ & Ep' & Hn' & H)]; rewrite H in Hn; [done|].
  rewrite Ep' in Hn'. change (r_version (touch now r')) with (r_version r') in Hn. destruct (peer_infos s !! p); [lia|done].
Qed.
Lemma knows_newer s r : knows (r_peer_id r) (r_version r) s -> ~ newer s r.
Proof. intros (old & E & Hv) Hn. unfold newer in Hn. rewrite E in Hn. lia. Qed.
Lemma merge_nothing_new dst now l s : (forall x, x ∈ l -> knows (r_peer_id x.1) (r_version x.1) s) -> (merge my my_route dst now l false s).1 = s.
Proof.
  induction l as [|[r raw] l IH]; intros H; cbn [merge_records]; [done|].
  pose proof (merge_record_cases my my_route dst now s r raw) as C. destruct (merge_record _ _ _ _ _ _ _ _ _ _) as [s1 o]. cbv zeta in C. cbn [fst snd] in C.
  destruct C as [(_ & Hn & _)|(-> & _ & Hb & _)]; [by apply knows_newer in Hn; [|apply (H (r, raw)); left]|]. destruct o as [[]|e|]; [done|apply IH; intros; apply H; by right|done|done].
Qed.
Lemma merge_ok_version dst now l need s : (merge my my_route dst now l need s).2 = Ok tt ->
  version (merge my my_route dst now l need s).1 = wrap 32 (version s + 1) \/ (need = false /\ (merge my my_route dst now l need s).1 = s).
Proof.
  revert need s. induction l as [|[r raw] l IH]; intros need s H; cbn [merge_records] in *; [destruct need; [by left|by right]|].
  pose proof (merge_record_cases my my_route dst now s r raw) as C. destruct (merge_record _ _ _ _ _ _ _ _ _ _) as [s1 o]. cbv zeta in C. cbn [fst snd] in C. destruct o as [b|e|]; [|done|done].
  destruct C as [([= ->] & _ & Es)|(-> & _ & Hb & _)].
  - destruct (store_fields _ _ _ _ _ Es) as (_ & _ & Ev). rewrite orb_true_r in *. left. rewrite <- Ev. destruct (IH _ _ H) as [E|[E _]]; done.
  - destruct b; [done|]. rewrite orb_false_r in *. by apply IH.
Qed.
Lemma wrap_moves v : is_u 32 v -> wrap 32 (v + 1) <> v.
Proof. intros [H1 H2] E. unfold wrap in E. destruct (decide (v = 2 ^ 32 - 1)) as [->|]; [done|]. rewrite Z.mod_small in E; lia. Qed.
(** a request without news changes nothing and says so *)
Lemma sync_nothing_new q s : entered q s = s -> q_conn_info q = None -> (forall r, r ∈ q_infos q -> knows (r_peer_id r) (r_version r) s) ->
  (sync q s).1 = s /\ forall b, (sync q s).2 = Ok b -> b = false.
Proof.
  intros Een Ec H. unfold update_peer_infos_and_conn_info_with_authority. destruct (validate_merged_route_state_locked _ _ _); [|done|done]. fold (entered q s). rewrite Een, Ec.
  assert (E : (update_peer_infos_locked raw_len raw_peer_id encoded_len my my_route (q_source q) (q_now q) (q_infos q) (q_raws q) s).1 = s).
  { unfold update_peer_infos_locked. destruct (negb _); [done|]. apply merge_nothing_new. intros [r raw] Hx. apply H. by apply elem_of_zip_l in Hx. }
  destruct (update_peer_infos_locked _ _ _ _ _ _ _ _ _ _) as [s1 [[]|e|]]; simpl in *; subst s1; [|done|done]. split; [done|]. intros b [= <-]. by rewrite Z.eqb_refl.
Qed.
(** one with news moves the version *)
Lemma sync_news q s b r : entered q s = s -> q_conn_info q = None -> is_u 32 (version s) -> r ∈ q_infos q -> newer s r -> (sync q s).2 = Ok b -> b = true.
Proof.
  intros Een Ec Hu Hin Hn Hok. pose proof (sync_accepted _ _ _ Hok) as [Hi _]. pose proof (merged_infos_newest q s r Hi Hin) as K. revert Hok.
  unfold update_peer_infos_and_conn_info_with_authority. destruct (validate_merged_route_state_locked _ _ _); [|done|done]. fold (entered q s). rewrite Een, Ec in *.
  unfold update_peer_infos_locked in *. destruct (negb _); [done|]. pose proof (merge_ok_version _ _ _ _ _ Hi) as [E|[_ E]].
  - destruct (merge_records _ _ _ _ _ _ _ _ _ _) as [s1 [[]|e|]]; simpl in *; [|done|done]. intros [= <-]. rewrite E. apply negb_true_iff, Z.eqb_neq. by apply wrap_moves.
  - rewrite E in K. by apply knows_newer in K.
Qed.
(** C36: A request that fails leaves the version of the route state as it was (but for the connections it drops of a source
    that may no longer report any), and when it fails on one of its records, every record before that one stays merged: what is
    changed is a record of the request that is newer than what was held.  These records are then hidden: any later request
    without connections that brings only records which are held by then, such as the same ones again, changes nothing and
    is answered as no change, while the same request to the state before, if accepted with a newer record, is a change. *)
Theorem failed_request_hides_records q s e : (sync q s).2 = Err e -> let s1 := (sync q s).1 in
  (exists s0, (s0 = s \/ s0 = entered q s) /\ version s1 = version s0 /\
     (s1 = s0 \/ exists l1 r raw l2, zip (q_infos q) (q_raws q) = l1 ++ (r, raw) :: l2 /\
        merge_record raw_len raw_peer_id encoded_len my my_route (q_source q) (q_now q) s1 r raw = (s1, Err e) /\
        forall x, x ∈ l1 -> knows (r_peer_id x.1) (r_version x.1) s1)) /\
  (forall p, peer_infos s1 !! p = peer_infos s !! p \/ exists r, r ∈ q_infos q /\ r_peer_id r = p /\ newer s r /\ peer_infos s1 !! p = Some (touch (q_now q) r)) /\
  (forall q', entered q' s1 = s1 -> q_conn_info q' = None -> (forall r, r ∈ q_infos q' -> knows (r_peer_id r) (r_version r) s1) ->
     (sync q' s1).1 = s1 /\ forall b, (sync q' s1).2 = Ok b -> b = false) /\
  (forall q' r b, entered q' s = s -> q_conn_info q' = None -> is_u 32 (version s) -> r ∈ q_infos q' -> newer s r -> (sync q' s).2 = Ok b -> b = true).
Proof.
  intros He. cbv zeta. split; [|split; [|split; [intros q'; apply sync_nothing_new|intros q' r b; apply sync_news]]].
  - revert He. unfold update_peer_infos_and_conn_info_with_authority. destruct (validate_merged_route_state_locked _ _ _); [|simpl; exists s; auto|done]. fold (entered q s).
    unfold update_peer_infos_locked. destruct (negb _); [intros _; exists (entered q s); simpl; auto|].
    pose proof (merge_error_version (q_source q) (q_now q) (zip (q_infos q) (q_raws q)) false (entered q s)) as Hv.
    pose proof (merge_error (q_source q) (q_now q) (zip (q_infos q) (q_raws q)) false (entered q s)) as Hm.
    destruct (merge_records _ _ _ _ _ _ _ _ _ _) as [s1 [[]|e1|]]; simpl in *; [done| |done]. intros [= ->]. exists (entered q s). split_and!; [by right|by eapply Hv|right; by apply Hm].
  - intros p. unfold update_peer_infos_and_conn_info_with_authority in *. destruct (validate_merged_route_state_locked _ _ _); [|by left|by left]. fold (entered q s) in *.
    pose proof (merge_changes (q_source q) (q_now q) (q_infos q) (q_raws q) (entered q s) p) as H. unfold newer in *. rewrite entered_infos in H.
    destruct (update_peer_infos_locked _ _ _ _ _ _ _ _ _ _) as [s1 [[]|e1|]]; [done|exact H|done].
Qed.
End Runs.

(** *** Convergence *)
(** C17: Two nodes, each with its own identity, memory and initial state, that are told the same records (by what they hold at
    first and by requests they accept, in whatever order, batches and repetitions) know the same record of every peer: of
    the records they were told of this peer the one with the newest version.  The same holds for connections when every
    request comes from a source that may report connections.  This needs that no peer uses a version for two different
    records (or sets of connections); between the requests no peer is removed. *)
Theorem routes_converge my my_route my' my_route' s s' qs qs' : accepted my my_route s qs -> accepted my' my_route' s' qs' ->
  (one_record (told s qs) -> (forall p r, told s qs p r <-> told s' qs' p r) ->
     forall p, known (synced my my_route s qs) p = known (synced my' my_route' s' qs') p /\
       forall k, known (synced my my_route s qs) p = Some k <-> told s qs p k /\ forall r, told s qs p r -> r_version r <= r_version k) /\
  (Forall (fun q => q_authority q = true) qs -> Forall (fun q => q_authority q = true) qs' -> one_link (told_links s qs) -> (forall p l, told_links s qs p l <-> told_links s' qs' p l) ->
     forall p, linked (synced my my_route s qs) p = linked (synced my' my_route' s' qs') p /\
       forall k, linked (synced my my_route s qs) p = Some k <-> told_links s qs p k /\ forall l, told_links s qs p l -> l.1 <= k.1).
Proof.
  intros Ha Ha'. split.
  - intros H1 Hs p. assert (H1' : one_record (told s' qs')) by (intros p0 r r'; rewrite <- !Hs; apply H1).
    split; [|intros k; by apply synced_known]. apply option_eq. intros k. rewrite !synced_known by done. setoid_rewrite Hs. done.
  - intros Hq Hq' H1 Hs p. assert (H1' : one_link (told_links s' qs')) by (intros p0 r r'; rewrite <- !Hs; apply H1).
    split; [|intros k; by apply synced_linked]. apply option_eq. intros k. rewrite !synced_linked by done. setoid_rewrite Hs. done.
Qed.
End Records.

(** ** Examples *)
(** a raw message that is only the number of its peer *)
Definition ex_sync (q : request (Raw := Z)) (s : t (Raw := Z)) : t (Raw := Z) * outcome Error bool :=
  update_peer_infos_and_conn_info_with_authority (fun _ => 40) Some (fun _ => 100) 1 7 q s.
Definition ex_record (p route v : Z) : RouteRecord := mk_record p route None (mk_peer v 0 [] None [] None None None [] 0) [] [].
Definition ex_request (infos : list RouteRecord) (c : option ConnInfo) (now : Z) : request (Raw := Z) := mk_request 2 infos (r_peer_id <$> infos) c true now.
Definition ex_state : t (Raw := Z) := new (MemoryGovernor.with_limit (2 ^ 20)).
(** a record of peer 2, and with it one of another node that calls itself peer 1 *)
Definition ex_failing : request (Raw := Z) := ex_request [ex_record 2 20 1; ex_record 1 99 1] None 5.
Definition ex_retry : request (Raw := Z) := ex_request [ex_record 2 20 1] None 6.
Lemma failed_request_hides_records_witness : let s1 := (ex_sync ex_failing ex_state).1 in
  known ex_state 2 = None /\ known s1 2 = Some (ex_record 2 20 1) /\ version s1 = version ex_state /\
  (exists b, (ex_sync ex_retry s1).2 = Ok b) /\ (forall b, (ex_sync ex_retry s1).2 = Ok b -> b = false) /\ (exists b, (ex_sync ex_retry ex_state).2 = Ok b) /\ (forall b, (ex_sync ex_retry ex_state).2 = Ok b -> b = true).
Proof.
  destruct (failed_request_hides_records (fun _ => 40) Some (fun _ => 100) 1 7 ex_failing ex_state DuplicatePeerId) as (_ & _ & H & G); [by vm_compute|].
  intros s1. split_and!; [by vm_compute|by vm_compute|by vm_compute|exists false; by vm_compute| |exists true; by vm_compute|].
  - apply H; [by vm_compute|done|]. intros r [->|[]%elem_of_nil]%elem_of_cons. eexists. split; [by vm_compute|]. by vm_compute.
  - intros b. apply (G ex_retry (ex_record 2 20 1)); [by vm_compute|done|split; by vm_compute|left|by vm_compute].
Defined.

(** connections as a list and as a bitmap of three peers *)
Definition ex_list : ConnInfo := ConnPeerList [mk_conns (Some (mk_id 2 1)) [3; 4]].
Definition ex_bitmap : ConnInfo := ConnBitmap (mk_bitmap [mk_id 2 2; mk_id 3 1; mk_id 4 1] [170; 0]).
Definition ex_first : request (Raw := Z) := ex_request [ex_record 2 20 1; ex_record 3 30 1] (Some ex_list) 5.
Definition ex_second : request (Raw := Z) := ex_request [ex_record 2 20 2] (Some ex_bitmap) 6.
Notation ex_run := (run (fun _ => 40) Some (fun _ => 100) 1 7).
Notation ex_synced := (synced (fun _ => 40) Some (fun _ => 100) 1 7).
Lemma ex_start : limits ex_state /\ sound 0 (2 ^ 20) ex_state.
Proof. split; [apply silent_limits; done|]. done. Qed.
Lemma route_state_bounded_witness : limits (ex_run ex_state [OSync ex_first; OSync ex_failing; ORemove [3]; OSync ex_second]).
Proof.
  refine (proj1 (route_state_bounded (fun _ => 40) Some (fun _ => 100) 1 7 _ _ 0 _ (2 ^ 20) _ [OSync ex_first; OSync ex_failing; ORemove [3]; OSync ex_second] ex_state _ (proj1 ex_start) (proj2 ex_start))); try (intros; lia).
  repeat constructor; simpl; try done; intros c [= <-]; repeat constructor; simpl; try lia. intros p [= <-]. simpl. lia.
Defined.
Lemma silent_sources_unbounded_witness : exists qs, peer_infos (synced (Raw := Z) (fun _ => 40) Some (fun _ => 100) 1 7 ex_state qs) = ∅ /\ size (conn_map (ex_synced ex_state qs)) = 5000%nat.
Proof.
  destruct (silent_sources_unbounded (Raw := Z) (fun _ => 40) Some (fun _ => 100) 1 7 5000 (MemoryGovernor.with_limit (2 ^ 20))) as (qs & _ & _ & _ & Hi & Hc); [lia|]. exists qs. split; [exact Hi|exact Hc].
Defined.
Definition ex_other : t (Raw := Z) := new (MemoryGovernor.with_limit (2 ^ 21)).
Notation ex_synced_other := (synced (fun _ => 40) Some (fun _ => 100) 5 8).
(** the same requests at node 1 and, in another order and repeated, at node 5 *)
Definition ex_qs : list (request (Raw := Z)) := [ex_first; ex_second].
Definition ex_qs_other : list (request (Raw := Z)) := [ex_second; ex_first; ex_second].
Lemma ex_qs_same (P : request (Raw := Z) -> Prop) : (exists q, q ∈ ex_qs /\ P q) <-> (exists q, q ∈ ex_qs_other /\ P q).
Proof. unfold ex_qs, ex_qs_other. split; intros (q & Hq & HP); exists q; (split; [|exact HP]); rewrite !elem_of_cons in *; tauto. Qed.
Lemma ex_told p r : told ex_state ex_qs p r <-> told ex_other ex_qs_other p r.
Proof. apply or_iff_compat_l, ex_qs_same. Qed.
Lemma ex_told_links p l : told_links ex_state ex_qs p l <-> told_links ex_other ex_qs_other p l.
Proof. apply or_iff_compat_l, ex_qs_same. Qed.
Lemma ex_told_cases p r : told ex_state ex_qs p r -> r ∈ [ex_record 2 20 1; ex_record 3 30 1; ex_record 2 20 2] /\ r_peer_id r = p.
Proof. intros [H|(q & Hq & r0 & Hr & <- & _ & <-)]; [done|]. apply elem_of_cons in Hq as [->|[->|[]%elem_of_nil]%elem_of_cons]; simpl in Hr; set_solver. Qed.
Lemma ex_one_record : one_record (told ex_state ex_qs).
Proof.
  intros p r r' [H E]%ex_told_cases [H' E']%ex_told_cases. repeat (apply elem_of_cons in H as [->|H]; [|]); try (by apply elem_of_nil in H);
    repeat (apply elem_of_cons in H' as [->|H']; [|]); try (by apply elem_of_nil in H'); intros Ev; try done; subst; discriminate.
Qed.
Lemma ex_told_links_cases p l : told_links ex_state ex_qs p l -> (mk_id p l.1, l.2) ∈ reports ex_list ++ reports ex_bitmap.
Proof. intros [H|(q & Hq & Hl & _)]; [done|]. apply elem_of_app. apply elem_of_cons in Hq as [->|[->|[]%elem_of_nil]%elem_of_cons]; [by left|by right]. Qed.
Lemma ex_one_link : one_link (told_links ex_state ex_qs).
Proof.
  intros p [v ps] [v' ps'] [i H]%ex_told_links_cases%list_elem_of_lookup [j H']%ex_told_links_cases%list_elem_of_lookup. cbn [fst snd] in *. intros <-. f_equal.
  assert (Hnd : NoDup ((fun x : PeerIdVersion * gset Z => (id_peer x.1, id_version x.1)) <$> reports ex_list ++ reports ex_bitmap)) by (apply (bool_decide_unpack _); by vm_compute).
  assert (i = j) as <-; [|by pose proof (eq_trans (eq_sym H) H') as [= ->]]. apply (NoDup_lookup _ _ _ (p, v) Hnd); rewrite list_lookup_fmap; [rewrite H|rewrite H']; done.
Qed.
Lemma routes_converge_witness : known (ex_synced ex_state ex_qs) 2 = known (ex_synced_other ex_other ex_qs_other) 2 /\ linked (ex_synced ex_state ex_qs) 2 = linked (ex_synced_other ex_other ex_qs_other) 2.
Proof.
  destruct (routes_converge (fun _ => 40) Some (fun _ => 100) 1 7 5 8 ex_state ex_other ex_qs ex_qs_other) as [HR HL].
  - split; [exists true; by vm_compute|]. split; [exists true; by vm_compute|done].
  - split; [exists true; by vm_compute|]. split; [exists true; by vm_compute|]. split; [exists false; by vm_compute|done].
  - split; [exact (proj1 (HR ex_one_record ex_told 2))|].
    refine (proj1 (HL _ _ ex_one_link ex_told_links 2)); repeat (apply List.Forall_cons; [reflexivity|]); apply List.Forall_nil.
Defined.
Definition ex_bits : RouteConnBitmap := mk_bitmap [mk_id 2 2; mk_id 3 1; mk_id 4 1] [170; 0].
Lemma bitmap_accepted_iff_witness : sum_Z (row_size ex_bits) (seqZ 0 3) <= MAX_ROUTE_SYNC_EDGES.
Proof.
  assert (Hb : Forall (is_u 8) (bitmap ex_bits)) by (repeat constructor; unfold is_u; simpl; lia).
  assert (E : validate_route_conn_info (ConnBitmap ex_bits) = Ok tt) by (vm_compute; reflexivity).
  apply (proj1 (bitmap_accepted_iff ex_bits Hb)) in E. exact (proj2 (proj2 (proj2 (proj2 (proj2 E))))).
Defined.
End RouteRecordsProps.
