(* ===== verification/CredentialTrust.v ===== *)
(** * Trust in credentials and groups

    [SyncedRouteInfo] of src/lowertier/src/peers/peer_ospf_route.rs: which keys are trusted because administrators announce
    them, who owns a key that one peer only may use, who loses its trust, and which groups a peer is in.

    The credentials are those of [Credentials], the records those of [RouteRecords].  What prost-reflect reads of a raw message
    is an argument, as is whether a peer is active (it has a control route) and the locally authenticated peers.  A map is
    traversed in one fixed order; the topology lock makes a refresh one transition. *)
From stdpp Require Import base list gmap numbers sorting strings.
From Stdlib Require Import ZArith Lia.
From S2P Require Import Prelude NetAddr SecureDatagram MemoryGovernor Credentials PeerGraph RouteGraph RouteRecords.

Local Open Scope Z_scope.

Module CredentialTrust.
Import Credentials RouteGraph.

Definition ROUTE_CREDENTIAL_ID_BYTES : Z := 16.

(** ** Evidence of a local handshake ([AuthenticatedRoutePeerEvidence], peers/route_trait.rs) *)
Inductive SecureAuthLevel : Type := NoAuth | EncryptedUnauthenticated | PeerVerified | NetworkSecretConfirmed.
Record AuthenticatedRoutePeerEvidence : Type := mk_evidence { ev_peer_id : Z; ev_identity_type : PeerIdentityType; ev_noise_static_pubkey : list Z; secure_auth_level : SecureAuthLevel }.
Definition is_allowed_role_auth_pair (role : PeerIdentityType) (level : SecureAuthLevel) : bool :=
  match role, level with
  | Admin, (PeerVerified | NetworkSecretConfirmed) => true
  | Credential, PeerVerified => true
  | (SharedNode | ForeignRelay), (EncryptedUnauthenticated | PeerVerified) => true
  | _, _ => false
  end.
Definition validate_for (e : AuthenticatedRoutePeerEvidence) (p : Z) : bool := (ev_peer_id e =? p) && (len (ev_noise_static_pubkey e) =? 32) && is_allowed_role_auth_pair (ev_identity_type e) (secure_auth_level e).

Inductive TrustedKeySource : Type := OspfNode | OspfCredential.
Record TrustedKeyMetadata : Type := mk_metadata { key_source : TrustedKeySource; key_expiry : option Z }.

(** ** Groups of a peer ([PeerGroupInfo], proto/peer_rpc.rs) *)
Definition verify_group `{Hmac} (g : list Z * list Z) (secret : list Z) (p : Z) : bool := bool_decide (g.2 = hmac_sha256 secret (g.1 ++ [0] ++ to_be 4 p)).

Definition credential_is_current (c : TrustedCredentialPubkey) (m : CredentialManager) (now : Z) : bool :=
  (now <? tc_expiry_unix c) && (len (tc_certificate_id c) =? ROUTE_CREDENTIAL_ID_BYTES) && negb (all_zero (tc_certificate_id c)) && negb (is_certificate_id_revoked m (tc_certificate_id c)).
Definition is_admin_record (r : RouteRecords.RouteRecord) : bool := negb (RouteRecords.r_version r =? 0) && is_admin (RouteRecords.r_info r).
Definition r_key (r : RouteRecords.RouteRecord) : list Z := noise_static_pubkey (RouteRecords.r_info r).
Definition credential_is_reusable (c : TrustedCredentialPubkey) : bool := default true (tc_reusable c).

Section Trust.
Context `{Signatures, Hmac, Codec CredentialCertificate, Codec TrustedCredentialPubkey}.
Context {Raw : Type} (raw_credential_bytes raw_certificate_bytes : Raw -> nat -> option (list Z)).

Record t : Type := mk {
  routes : RouteRecords.t (Raw := Raw);
  manager : CredentialManager;
  locally_authenticated_peers : gmap Z AuthenticatedRoutePeerEvidence;
  trusted_credential_pubkeys : gmap (list Z) TrustedCredentialPubkey;
  non_reusable_credential_owners : gmap (list Z) Z;
  suppressed : gset Z;
  group_trust_map : gmap Z (gmap (list Z) (list Z));
  group_trust_map_cache : gmap Z (gset (list Z));
}.
Definition with_routes (s : t) (r : RouteRecords.t (Raw := Raw)) : t :=
  mk r (manager s) (locally_authenticated_peers s) (trusted_credential_pubkeys s) (non_reusable_credential_owners s) (suppressed s) (group_trust_map s) (group_trust_map_cache s).
Definition with_groups (s : t) (g : gmap Z (gmap (list Z) (list Z))) (c : gmap Z (gset (list Z))) : t :=
  mk (routes s) (manager s) (locally_authenticated_peers s) (trusted_credential_pubkeys s) (non_reusable_credential_owners s) (suppressed s) g c.

(** ** Credentials of the records *)
Definition credential_proof_is_valid (raw : option Raw) (idx : nat) (p : TrustedCredentialPubkeyProof) (network_secret : option (list Z)) : bool :=
  match network_secret with
  | Some ((_ :: _) as secret) =>
      match raw ≫= fun raw => raw_credential_bytes raw idx with
      | Some bytes => verify_credential_hmac_with_bytes p bytes secret
      | None => verify_credential_hmac p secret
      end
  | _ => false
  end.
Definition normalize_credential_policy (m : CredentialManager) (c : TrustedCredentialPubkey) (now : Z) : option (TrustedCredentialPubkey * list Z) :=
  certificate ← tc_certificate c;
  if negb (bool_decide (tc_root_public_key c = root_public_key m)) || negb (bool_decide (tc_root_fingerprint c = root_fingerprint m)) || negb (tc_serial c =? 0) || negb (cc_serial certificate =? 0)
     || negb (len (tc_certificate_id c) =? ROUTE_CREDENTIAL_ID_BYTES) || all_zero (tc_certificate_id c) || negb (bool_decide (cc_certificate_id certificate = tc_certificate_id c))
     || negb (cc_version certificate =? tc_version c) || negb (bool_decide (cc_network_name certificate = tc_network_name c)) || negb (bool_decide (cc_root_public_key certificate = tc_root_public_key c))
     || negb (bool_decide (cc_root_fingerprint certificate = tc_root_fingerprint c)) || negb (bool_decide (cc_subject certificate = tc_pubkey c)) || negb (cc_expiry_unix certificate =? tc_expiry_unix c)
     || negb (bool_decide (cc_role certificate = tc_role c)) || negb (bool_decide (cc_groups certificate = tc_groups c)) || negb (Bool.eqb (cc_allow_relay certificate) (tc_allow_relay c))
     || negb (bool_decide (cc_allowed_proxy_cidrs certificate = tc_allowed_proxy_cidrs c)) || negb (bool_decide (tc_reusable c = Some (cc_reusable certificate))) || negb (bool_decide (tc_signature c = cc_signature certificate)) then None
  else
    _ ← match verify_trusted_credential c (network_name m) (Some (root_fingerprint m)) now with Ok _ => Some tt | _ => None end;
    if negb (credential_is_current c m now) then None
    else
      Some (mk_credential (cc_subject certificate) (cc_groups certificate) (cc_allow_relay certificate) (cc_expiry_unix certificate) (cc_allowed_proxy_cidrs certificate) (Some (cc_reusable certificate)) (cc_version certificate) 0
              (cc_network_name certificate) (cc_root_public_key certificate) (cc_root_fingerprint certificate) (cc_role certificate) (cc_signature certificate) (tc_certificate c) (cc_certificate_id certificate),
            1 :: encode certificate).
(** what one proof of a record says, if anything *)
Definition candidate (m : CredentialManager) (network_secret : option (list Z)) (now : Z) (raw : option Raw) (idx : nat) (p : TrustedCredentialPubkeyProof) : option (TrustedCredentialPubkey * list Z) :=
  if negb (credential_proof_is_valid raw idx p network_secret) then None
  else
    c ← proof_credential p;
    x ← normalize_credential_policy m c now;
    Some (x.1, match raw ≫= fun raw => raw_certificate_bytes raw idx with Some bytes => 1 :: bytes | None => x.2 end).
Record collected : Type := mk_collected { candidates : gmap (list Z) (TrustedCredentialPubkey * list Z); conflicting_pubkeys : gset (list Z); admin_keys : gmap (list Z) TrustedKeyMetadata }.
Definition add_candidate (k : collected) (x : TrustedCredentialPubkey * list Z) : collected :=
  match candidates k !! tc_pubkey x.1 with
  | None => mk_collected (<[tc_pubkey x.1 := x]> (candidates k)) (conflicting_pubkeys k) (admin_keys k)
  | Some old => if bool_decide (old.2 = x.2) then k else mk_collected (candidates k) ({[tc_pubkey x.1]} ∪ conflicting_pubkeys k) (admin_keys k)
  end.
Definition locally_authenticated_admin (s : t) (p : Z) (r : RouteRecords.RouteRecord) : bool :=
  match locally_authenticated_peers s !! p with Some e => bool_decide (ev_identity_type e = Admin) && bool_decide (ev_noise_static_pubkey e = r_key r) && validate_for e p | None => false end.
(** the proofs of one record, in order *)
Definition record_candidates (s : t) (network_secret : option (list Z)) (now : Z) (x : Z * RouteRecords.RouteRecord) : list (TrustedCredentialPubkey * list Z) :=
  omap (fun y : nat * TrustedCredentialPubkeyProof => candidate (manager s) network_secret now (RouteRecords.raw_peer_infos (routes s) !! x.1) y.1 y.2) (imap pair (RouteRecords.trusted_credential_pubkeys x.2)).
Definition collect_record (s : t) (network_secret : option (list Z)) (now : Z) (k : collected) (x : Z * RouteRecords.RouteRecord) : collected :=
  if negb (is_admin_record x.2) then k
  else
    let k := if locally_authenticated_admin s x.1 x.2 then mk_collected (candidates k) (conflicting_pubkeys k) (<[r_key x.2 := mk_metadata OspfNode None]> (admin_keys k)) else k in
    foldl add_candidate k (record_candidates s network_secret now x).
Definition collect_trusted_credentials (s : t) (network_secret : option (list Z)) (now : Z) : gmap (list Z) TrustedCredentialPubkey * gmap (list Z) TrustedKeyMetadata :=
  let k := foldl (collect_record s network_secret now) (mk_collected ∅ ∅ ∅) (map_to_list (RouteRecords.peer_infos (routes s))) in
  let agreed := filter (fun x : list Z * (TrustedCredentialPubkey * list Z) => x.1 ∉ conflicting_pubkeys k) (candidates k) in
  (fst <$> agreed, ((fun x : TrustedCredentialPubkey * list Z => mk_metadata OspfCredential (Some (tc_expiry_unix x.1))) <$> agreed) ∪ admin_keys k).

(** ** Owners of keys that one peer only may use *)
Definition owner_candidates (s : t) (all_trusted : gmap (list Z) TrustedCredentialPubkey) (is_peer_active : Z -> bool) : gmap (list Z) (gset Z) :=
  foldl (fun (m : gmap (list Z) (gset Z)) (x : Z * RouteRecords.RouteRecord) =>
    if bool_decide (r_key x.2 = []) then m
    else match all_trusted !! r_key x.2 with
         | None => m
         | Some c => if credential_is_reusable c then m else if negb (is_peer_active x.1) then m else <[r_key x.2 := {[x.1]} ∪ default ∅ (m !! r_key x.2)]> m
         end) ∅ (map_to_list (RouteRecords.peer_infos (routes s))).
Definition elect (x : gmap (list Z) Z * gset Z) (c : list Z * gset Z) : gmap (list Z) Z * gset Z :=
  match ascending c.2 with [] => x | owner :: _ => (<[c.1 := owner]> x.1, x.2 ∪ (c.2 ∖ {[owner]})) end.
Definition collect_non_reusable_credential_owners (s : t) (all_trusted : gmap (list Z) TrustedCredentialPubkey) (is_peer_active : Z -> bool) : gmap (list Z) Z * gset Z :=
  foldl elect (∅, ∅) (map_to_list (owner_candidates s all_trusted is_peer_active)).
Definition replace_non_reusable_credential_owners (active_owners : gmap (list Z) Z) (s : t) : t :=
  mk (routes s) (manager s) (locally_authenticated_peers s) (trusted_credential_pubkeys s)
    (active_owners ∪ filter (fun x : list Z * Z => is_Some (active_owners !! x.1)) (non_reusable_credential_owners s)) (suppressed s) (group_trust_map s) (group_trust_map_cache s).
Definition replace_suppressed_non_reusable_credential_peers_locked (peers : gset Z) (s : t) : t * bool :=
  if bool_decide (suppressed s = peers) then (s, false)
  else
    (mk (RouteRecords.inc (routes s)) (manager s) (locally_authenticated_peers s) (trusted_credential_pubkeys s) (non_reusable_credential_owners s)
       (filter (fun p => p ∈ peers) (suppressed s) ∪ peers) (group_trust_map s) (group_trust_map_cache s), true).
Definition replace_trusted_credential_pubkeys (all_trusted : gmap (list Z) TrustedCredentialPubkey) (s : t) : t * gset (list Z) :=
  (mk (routes s) (manager s) (locally_authenticated_peers s) all_trusted (non_reusable_credential_owners s) (suppressed s) (group_trust_map s) (group_trust_map_cache s), dom (trusted_credential_pubkeys s)).

(** ** Groups *)
Definition set_peer_groups (p : Z) (groups : gmap (list Z) (list Z)) (s : t) : t :=
  if bool_decide (groups = ∅) then with_groups s (delete p (group_trust_map s)) (delete p (group_trust_map_cache s))
  else with_groups s (<[p := groups]> (group_trust_map s)) (<[p := dom groups]> (group_trust_map_cache s)).
Definition get_proof_groups (p : Z) (s : t) : gmap (list Z) (list Z) := filter (fun x : list Z * list Z => x.2 <> []) (default ∅ (group_trust_map s !! p)).
Definition add_default (m : gmap (list Z) (list Z)) (group : list Z) : gmap (list Z) (list Z) := match m !! group with Some _ => m | None => <[group := []]> m end.
Definition update_credential_group (all_trusted : gmap (list Z) TrustedCredentialPubkey) (s : t) (r : RouteRecords.RouteRecord) : t :=
  if bool_decide (r_key r = []) then s
  else match all_trusted !! r_key r with
       | None => s
       | Some c => set_peer_groups (RouteRecords.r_peer_id r) (foldl add_default (get_proof_groups (RouteRecords.r_peer_id r) s) (tc_groups c)) s
       end.
Definition update_credential_groups (all_trusted : gmap (list Z) TrustedCredentialPubkey) (s : t) : t :=
  foldl (update_credential_group all_trusted) s (map_to_list (RouteRecords.peer_infos (routes s))).*2.
(** [declarations]: the groups with a secret that are configured here *)
Definition verify_groups (s : t) (declarations : gmap (list Z) (list Z)) (trust_admin_groups_without_proof : bool) (r : RouteRecords.RouteRecord) : gmap (list Z) (list Z) :=
  let proven := foldl (fun (m : gmap (list Z) (list Z)) g => match declarations !! g.1 with Some secret => if verify_group g secret (RouteRecords.r_peer_id r) then <[g.1 := g.2]> m else m | None => m end) ∅ (RouteRecords.r_groups r) in
  if trust_admin_groups_without_proof && locally_authenticated_admin s (RouteRecords.r_peer_id r) r then foldl add_default proven (RouteRecords.r_groups r).*1 else proven.
Definition replace_groups (p : Z) (groups : gmap (list Z) (list Z)) (s : t) : t :=
  if bool_decide (groups = ∅) then match group_trust_map s !! p with Some _ => with_groups s (delete p (group_trust_map s)) (delete p (group_trust_map_cache s)) | None => s end
  else with_groups s (<[p := groups]> (group_trust_map s)) (<[p := dom groups]> (group_trust_map_cache s)).
Definition verify_and_update_group_trusts (infos : list RouteRecords.RouteRecord) (declarations : gmap (list Z) (list Z)) (trust_admin_groups_without_proof : bool) (s : t) : t :=
  foldl (fun s r => replace_groups (RouteRecords.r_peer_id r) (verify_groups s declarations trust_admin_groups_without_proof r) s) s infos.
Definition get_peer_groups (s : t) (p : Z) : gset (list Z) := default ∅ (group_trust_map_cache s !! p).

(** ** A refresh *)
Definition collect_revoked_credential_peers (s : t) (prev_trusted : gset (list Z)) (all_trusted : gmap (list Z) TrustedCredentialPubkey) : gset Z :=
  dom (filter (fun x : Z * RouteRecords.RouteRecord => r_key x.2 <> [] /\ RouteRecords.r_version x.2 <> 0 /\ r_key x.2 ∈ prev_trusted /\ all_trusted !! r_key x.2 = None) (RouteRecords.peer_infos (routes s))).
Definition remove_peers_locked (l : list Z) (s : t) : t :=
  let s := with_routes s (RouteRecords.remove_peers_locked l (routes s)) in
  with_groups s (foldl (fun m p => delete p m) (group_trust_map s) (elements (list_to_set l : gset Z))) (foldl (fun m p => delete p m) (group_trust_map_cache s) (elements (list_to_set l : gset Z))).
Definition verify_and_update_credential_trusts (network_secret : option (list Z)) (is_peer_active : Z -> bool) (protected_peer_id : option Z) (now : Z) (s : t) : t * (gset Z * gmap (list Z) TrustedKeyMetadata * bool) :=
  let protect (peers : gset Z) := match protected_peer_id with Some p => peers ∖ {[p]} | None => peers end in
  let '(all_trusted, global_trusted_keys) := collect_trusted_credentials s network_secret now in
  let '(s, prev_trusted) := replace_trusted_credential_pubkeys all_trusted s in
  let '(owners, duplicates) := collect_non_reusable_credential_owners s all_trusted is_peer_active in
  let s := replace_non_reusable_credential_owners owners s in
  let '(s, suppressed_changed) := replace_suppressed_non_reusable_credential_peers_locked (protect duplicates) s in
  let s := update_credential_groups all_trusted s in
  let untrusted := protect (collect_revoked_credential_peers s prev_trusted all_trusted) in
  let s := if bool_decide (untrusted = ∅) then s else remove_peers_locked (elements untrusted) s in
  (s, (untrusted, global_trusted_keys, suppressed_changed)).
Definition get_credential_info_by_pubkey (s : t) (key : list Z) (now : Z) : option TrustedCredentialPubkey :=
  if bool_decide (key = []) then None else c ← trusted_credential_pubkeys s !! key; fst <$> normalize_credential_policy (manager s) c now.

(** ** Records of an administrator ([do_sync_route_info_validated]) *)
Section Handler.
Context (raw_len : Raw -> Z) (raw_peer_id : Raw -> option Z) (encoded_len : RouteRecords.RouteRecord -> Z).
(** the records, then the groups, and the trust only when something changed; [false] is the answer on an error.  The versions
    that the session saves for the neighbour and the branches for other senders are left out. *)
Definition sync_records (my_peer_id my_peer_route_id : Z) (declarations : gmap (list Z) (list Z)) (network_secret : option (list Z)) (is_peer_active : Z -> bool) (now : Z)
    (q : RouteRecords.request (Raw := Raw)) (s : t) : t * bool :=
  match RouteRecords.update_peer_infos_and_conn_info_with_authority raw_len raw_peer_id encoded_len my_peer_id my_peer_route_id q (routes s) with
  | (r, Ok topology_changed) =>
      let s := with_routes s r in
      let s := if Nat.eqb (length (RouteRecords.q_infos q)) 0 then s else verify_and_update_group_trusts (RouteRecords.q_infos q) declarations (bool_decide (network_secret = None)) s in
      let s := if topology_changed then (verify_and_update_credential_trusts network_secret is_peer_active (Some my_peer_id) now s).1 else s in
      (s, true)
  | (r, _) => (with_routes s r, false)
  end.
End Handler.
End Trust.
End CredentialTrust.
