(* ===== verification/CredentialTrustProps.v ===== *)
(** * Properties of the trust in credentials

    After a refresh exactly the credentials that administrators agree on are trusted, keys for one peer have one owner, and peers
    whose credential is gone are removed (CredentialTrust). *)
From stdpp Require Import base list gmap numbers sorting strings.
From Stdlib Require Import ZArith Lia.
From S2P Require Import Prelude NetAddr SecureDatagram MemoryGovernor Credentials CredentialsProps PeerGraph RouteGraph RouteGraphProps RouteRecords RouteRecordsProps CredentialTrust.

Local Open Scope Z_scope.

Module CredentialTrustProps.
Import Credentials RouteGraph RouteGraphProps CredentialTrust.

Section Trust.
Context {S : Signatures} {Hm : Hmac} {C1 : Codec CredentialCertificate} {C5 : Codec TrustedCredentialPubkey}.
Context {Raw : Type} (raw_credential_bytes raw_certificate_bytes : Raw -> nat -> option (list Z)).
Notation state := (t (Raw := Raw)).
Notation infos s := (RouteRecords.peer_infos (routes s)).
Notation candidate_of := (candidate raw_credential_bytes raw_certificate_bytes).

(** ** Collecting *)
Record gathered (l : list (TrustedCredentialPubkey * list Z)) (k : collected) : Prop := {
  ga_from : forall key y, candidates k !! key = Some y -> y ∈ l /\ tc_pubkey y.1 = key;
  ga_all : forall x, x ∈ l -> is_Some (candidates k !! tc_pubkey x.1);
  ga_conflict : forall key, key ∈ conflicting_pubkeys k <-> exists x y, x ∈ l /\ tc_pubkey x.1 = key /\ candidates k !! key = Some y /\ y.2 <> x.2;
}.
Lemma gathered_add l k x : gathered l k -> gathered (l ++ [x]) (add_candidate k x).
Proof.
  intros [F A C]. unfold add_candidate. destruct (candidates k !! tc_pubkey x.1) as [old|] eqn:E.
  - assert (F' : forall key y, candidates k !! key = Some y -> y ∈ l ++ [x] /\ tc_pubkey y.1 = key) by (intros key y Hy; destruct (F key y Hy); split; [apply elem_of_app; by left|done]).
    assert (A' : forall z, z ∈ l ++ [x] -> is_Some (candidates k !! tc_pubkey z.1)) by (intros z Hz; apply elem_of_app in Hz as [Hz|Hz]; [by apply A|apply list_elem_of_singleton in Hz as ->; eauto]).
    case_bool_decide as Eo; (split; [done|done|]); intros key.
    + rewrite C. split; [intros (z & y & Hz & R); exists z, y; split; [apply elem_of_app; by left|done]|]. intros (z & y & Hz & Hk & Hy & Hn). apply elem_of_app in Hz as [Hz|Hz]; [by exists z, y|].
      apply list_elem_of_singleton in Hz as ->. subst key. simplify_eq.
    + cbn [conflicting_pubkeys candidates]. rewrite elem_of_union, elem_of_singleton, C. split.
      * intros [->|(z & y & Hz & R)]; [exists x, old; split; [apply elem_of_app; right; by left|done]|exists z, y; split; [apply elem_of_app; by left|done]].
      * intros (z & y & Hz & Hk & Hy & Hn). apply elem_of_app in Hz as [Hz|Hz]; [right; by exists z, y|]. apply list_elem_of_singleton in Hz as ->. by left.
  - assert (Hnew : forall z, z ∈ l -> tc_pubkey z.1 <> tc_pubkey x.1) by (intros z Hz Ez; destruct (A z Hz) as [y Hy]; congruence). split; cbn [candidates conflicting_pubkeys].
    + intros key y Hy. apply lookup_insert_Some in Hy as [[<- <-]|[_ Hy]]; [split; [apply elem_of_app; right; by left|done]|]. destruct (F key y Hy). split; [apply elem_of_app; by left|done].
    + intros z Hz. apply elem_of_app in Hz as [Hz|Hz]; [rewrite lookup_insert_ne by (symmetry; by apply Hnew); by apply A|]. apply list_elem_of_singleton in Hz as ->. rewrite lookup_insert_eq. eauto.
    + intros key. rewrite C. split.
      * intros (z & y & Hz & Hk & Hy & Hn). exists z, y. split_and!; [apply elem_of_app; by left|done| |done]. rewrite lookup_insert_ne; [done|]. subst key. symmetry. by apply Hnew.
      * intros (z & y & Hz & Hk & Hy & Hn). apply elem_of_app in Hz as [Hz|Hz].
        -- exists z, y. split_and!; try done. rewrite lookup_insert_ne in Hy; [done|]. subst key. symmetry. by apply Hnew.
        -- apply list_elem_of_singleton in Hz as ->. subst key. rewrite lookup_insert_eq in Hy. by injection Hy as <-.
Qed.
Lemma gathered_fold l l' k : gathered l k -> gathered (l ++ l') (foldl add_candidate k l').
Proof. revert l k. induction l' as [|x l' IH]; intros l k H; [by rewrite app_nil_r|]. simpl. replace (l ++ x :: l') with ((l ++ [x]) ++ l') by (by rewrite <- app_assoc). apply IH. by apply gathered_add. Qed.
(** the credential that says what a certificate says *)
Definition of_certificate (ce : CredentialCertificate) : TrustedCredentialPubkey :=
  mk_credential (cc_subject ce) (cc_groups ce) (cc_allow_relay ce) (cc_expiry_unix ce) (cc_allowed_proxy_cidrs ce) (Some (cc_reusable ce)) (cc_version ce) 0
    (cc_network_name ce) (cc_root_public_key ce) (cc_root_fingerprint ce) (cc_role ce) (cc_signature ce) (Some ce) (cc_certificate_id ce).
(** a proof is good: its HMAC under the network secret covers the credential (the bytes that were received, where the raw message
    has them), the credential says what its certificate says, and the certificate is one of the root of this network, in time
    and not revoked; [id] is what certificates are compared by *)
Record good_proof (m : CredentialManager) (secret : list Z) (now : Z) (raw : option Raw) (idx : nat) (proof : TrustedCredentialPubkeyProof) (c : TrustedCredentialPubkey) (id : list Z) : Prop := {
  gp_credential : proof_credential proof = Some c;
  gp_secret : secret <> [];
  gp_hmac : credential_hmac proof = hmac_sha256 secret (str "lowertier credential proof" ++ default (encode c) (raw ≫= fun raw => raw_credential_bytes raw idx));
  gp_hmac_some : credential_hmac proof <> [];
  gp_certificate : exists ce, c = of_certificate ce /\ cc_serial ce = 0 /\ id = 1 :: default (encode ce) (raw ≫= fun raw => raw_certificate_bytes raw idx);
  gp_root : tc_root_public_key c = root_public_key m /\ tc_root_fingerprint c = root_fingerprint m;
  gp_verified : verify_trusted_credential c (network_name m) (Some (root_fingerprint m)) now = Ok tt;
  gp_id : len (tc_certificate_id c) = 16 /\ all_zero (tc_certificate_id c) = false;
  gp_current : now < tc_expiry_unix c /\ is_certificate_id_revoked m (tc_certificate_id c) = false;
}.
Lemma credential_current_spec c m now : credential_is_current c m now = true <-> now < tc_expiry_unix c /\ len (tc_certificate_id c) = 16 /\ all_zero (tc_certificate_id c) = false /\ is_certificate_id_revoked m (tc_certificate_id c) = false.
Proof. unfold credential_is_current, ROUTE_CREDENTIAL_ID_BYTES. rewrite !andb_true_iff, Z.ltb_lt, Z.eqb_eq, !negb_true_iff. tauto. Qed.
(** the policy that is used is the one that was signed *)
Lemma normalize_spec m c now c' id : normalize_credential_policy m c now = Some (c', id) <->
  c' = c /\ verify_trusted_credential c (network_name m) (Some (root_fingerprint m)) now = Ok tt /\ tc_root_public_key c = root_public_key m /\ tc_root_fingerprint c = root_fingerprint m /\
  credential_is_current c m now = true /\ exists ce, c = of_certificate ce /\ cc_serial ce = 0 /\ id = 1 :: encode ce.
Proof.
  unfold normalize_credential_policy. split.
  - destruct (tc_certificate c) as [ce|] eqn:Ece; [|done]. cbn [mbind option_bind]. destruct (_ || _) eqn:Eb; [done|]. repeat (apply orb_false_elim in Eb as [Eb ?]).
    destruct (verify_trusted_credential _ _ _ _) as [[]|e|] eqn:Ev; [|done..]. cbn [mbind option_bind]. destruct (credential_is_current c m now) eqn:Ecc; [|done]. cbn [negb]. intros [= <- <-].
    repeat match goal with H : negb _ = false |- _ => apply negb_false_iff in H end. repeat match goal with H : bool_decide _ = true |- _ => apply bool_decide_eq_true in H | H : (_ =? _) = true |- _ => apply Z.eqb_eq in H | H : Bool.eqb _ _ = true |- _ => apply Bool.eqb_prop in H end.
    assert (Ec : c = of_certificate ce); [|split_and!; [symmetry; exact Ec|done..|by exists ce]]. clear Ev Ecc. unfold of_certificate.
    destruct c; cbn [tc_pubkey tc_groups tc_allow_relay tc_expiry_unix tc_allowed_proxy_cidrs tc_reusable tc_version tc_serial tc_network_name tc_root_public_key tc_root_fingerprint tc_role tc_signature tc_certificate tc_certificate_id] in *. f_equal; congruence.
  - intros (-> & Hv & Hr & Hf & Hcur & ce & Ec & Hs & ->). pose proof (proj1 (credential_current_spec _ _ _) Hcur) as (_ & Hl & Hz & _). subst c. rewrite Hv, Hcur. unfold of_certificate in *. cbn [tc_pubkey tc_groups tc_allow_relay tc_expiry_unix tc_allowed_proxy_cidrs tc_reusable tc_version tc_serial tc_network_name tc_root_public_key tc_root_fingerprint tc_role tc_signature tc_certificate tc_certificate_id mbind option_bind] in *.
    rewrite Hr, Hf, Hs, Hl, Hz, !Z.eqb_refl, !Bool.eqb_reflx, !bool_decide_eq_true_2 by done. rewrite <- Hr, <- Hf. done.
Qed.
(** what counts for a proof is that it is good *)
Lemma candidate_good m secret now raw idx proof x : candidate_of m secret now raw idx proof = Some x <-> exists key, secret = Some key /\ good_proof m key now raw idx proof x.1 x.2.
Proof.
  unfold candidate, credential_proof_is_valid, verify_credential_hmac, verify_credential_hmac_with_bytes, generate_credential_hmac_from_bytes. split.
  - destruct (proof_credential proof) as [c|] eqn:Ec; [|by destruct (negb _)]. cbn [mbind option_bind]. destruct secret as [[|z l]|]; [done| |done]. intros H. exists (z :: l). split; [done|].
    assert (Hh : credential_hmac proof <> [] /\ credential_hmac proof = hmac_sha256 (z :: l) (str "lowertier credential proof" ++ default (encode c) (raw ≫= fun raw => raw_credential_bytes raw idx))).
    { destruct (raw ≫= fun raw => raw_credential_bytes raw idx); cbn [default]; destruct (_ && _) eqn:E; try done; apply andb_prop in E as [E1 E2]; by apply negb_true_iff, bool_decide_eq_false in E1; apply bool_decide_eq_true in E2. }
    destruct (negb _); [done|]. destruct (normalize_credential_policy m c now) as [[c' id]|] eqn:En; [|done]. cbn [fst snd] in H. apply normalize_spec in En as (-> & Hv & Hr & Hf & Hcur & ce & Hce & Hs & ->).
    apply credential_current_spec in Hcur as (C1' & C2' & C3' & C4'). injection H as <-. cbn [fst snd]. split; try done; [by destruct Hh|by destruct Hh|]. exists ce. split_and!; [done|done|]. by destruct (raw ≫= fun raw => raw_certificate_bytes raw idx).
  - intros (key & -> & [Hc Hs Hh Hne (ce & Hce & Hse & Hid) [Hr Hf] Hv [Hl Hz] [Hex Hrev]]). destruct x as [c id]. cbn [fst snd] in *. destruct key as [|z l]; [done|]. rewrite Hc. cbn [mbind option_bind].
    assert (Hcur : credential_is_current c m now = true) by (by apply credential_current_spec). assert (En : normalize_credential_policy m c now = Some (c, 1 :: encode ce)) by (apply normalize_spec; split_and!; try done; by exists ce).
    rewrite En. cbn [fst snd]. rewrite (bool_decide_eq_false_2 (credential_hmac proof = [])) by done. subst id.
    destruct (raw ≫= fun raw => raw_credential_bytes raw idx); cbn [default] in Hh; rewrite bool_decide_eq_true_2 by done; cbn [negb andb]; by destruct (raw ≫= fun raw => raw_certificate_bytes raw idx).
Qed.
(** everything that the records of administrators announce with a good proof *)
Definition announced (s : state) (secret : option (list Z)) (now : Z) (x : TrustedCredentialPubkey * list Z) : Prop :=
  exists p r idx proof key, infos s !! p = Some r /\ is_admin_record r = true /\ RouteRecords.trusted_credential_pubkeys r !! idx = Some proof /\ secret = Some key /\
    good_proof (manager s) key now (RouteRecords.raw_peer_infos (routes s) !! p) idx proof x.1 x.2.
Lemma announced_iff s secret now x : announced s secret now x <->
  exists p r idx proof, infos s !! p = Some r /\ is_admin_record r = true /\ RouteRecords.trusted_credential_pubkeys r !! idx = Some proof /\
    candidate_of (manager s) secret now (RouteRecords.raw_peer_infos (routes s) !! p) idx proof = Some x.
Proof.
  split; [intros (p & r & idx & proof & key & ? & ? & ? & ? & ?); exists p, r, idx, proof; split_and!; try done; apply candidate_good; by exists key|].
  intros (p & r & idx & proof & ? & ? & ? & Hc). apply candidate_good in Hc as (key & ? & ?). by exists p, r, idx, proof, key.
Qed.
Notation all_candidates s secret now := (concat ((fun x : Z * RouteRecords.RouteRecord => if is_admin_record x.2 then record_candidates raw_credential_bytes raw_certificate_bytes s secret now x else []) <$> map_to_list (infos s))).
Lemma elem_of_concat {A} (x : A) ls : x ∈ concat ls <-> exists l, x ∈ l /\ l ∈ ls.
Proof. rewrite list_elem_of_In, in_concat. split; intros (l & H1 & H2); exists l; rewrite !list_elem_of_In in *; done. Qed.
Lemma announced_candidates s secret now x : x ∈ all_candidates s secret now <-> announced s secret now x.
Proof.
  rewrite elem_of_concat, announced_iff. split.
  - intros (l & Hx & Hl). apply list_elem_of_fmap in Hl as ([p r] & -> & Hin). apply elem_of_map_to_list in Hin. simpl in Hx. destruct (is_admin_record r) eqn:Ea; [|by apply elem_of_nil in Hx].
    apply list_elem_of_omap in Hx as ([idx proof] & Hi & Hc). apply list_elem_of_lookup in Hi as [i Hi]. rewrite list_lookup_imap in Hi. destruct (_ !! i) as [pr|] eqn:Ei; [|done]. injection Hi as <- <-. by exists p, r, i, pr.
  - intros (p & r & idx & proof & Hp & Ha & Hi & Hc). exists (record_candidates raw_credential_bytes raw_certificate_bytes s secret now (p, r)). split.
    + apply list_elem_of_omap. exists (idx, proof). split; [|done]. apply (list_elem_of_lookup_2 _ idx). rewrite list_lookup_imap. cbn [snd]. by rewrite Hi.
    + apply list_elem_of_fmap. exists (p, r). simpl. rewrite Ha. split; [done|]. by apply elem_of_map_to_list.
Qed.
Lemma collect_gathered s secret now l l0 k : gathered l0 k ->
  gathered (l0 ++ concat ((fun x : Z * RouteRecords.RouteRecord => if is_admin_record x.2 then record_candidates raw_credential_bytes raw_certificate_bytes s secret now x else []) <$> l))
    (foldl (collect_record raw_credential_bytes raw_certificate_bytes s secret now) k l).
Proof.
  revert l0 k. induction l as [|x l IH]; intros l0 k H; [by rewrite app_nil_r|]. rewrite fmap_cons. cbn [concat foldl]. rewrite app_assoc. apply IH. unfold collect_record. destruct (is_admin_record x.2); cbn [negb]; [|by rewrite app_nil_r].
  apply gathered_fold. destruct (locally_authenticated_admin s x.1 x.2); [|done]. by destruct H.
Qed.
Notation collect s secret now := (collect_trusted_credentials raw_credential_bytes raw_certificate_bytes s secret now).
(** a key is trusted when some administrator announces it and all that do agree on its certificate *)
Lemma collect_exact s secret now key :
  (forall c, (collect s secret now).1 !! key = Some c -> exists id, announced s secret now (c, id) /\ tc_pubkey c = key /\ forall x, announced s secret now x -> tc_pubkey x.1 = key -> x.2 = id) /\
  (forall x, announced s secret now x -> tc_pubkey x.1 = key -> (forall y, announced s secret now y -> tc_pubkey y.1 = key -> y.2 = x.2) -> exists c, (collect s secret now).1 !! key = Some c /\ announced s secret now (c, x.2)).
Proof.
  unfold collect_trusted_credentials. set (k := foldl _ _ _). assert (G : gathered (all_candidates s secret now) k).
  { apply (collect_gathered s secret now _ []). split; cbn [candidates conflicting_pubkeys]; [intros key0 y E; by rewrite lookup_empty in E|intros x Hx; by apply elem_of_nil in Hx|]. intros key0. split; [set_solver|intros (x & y & Hx & _); by apply elem_of_nil in Hx]. }
  destruct G as [F A C]. cbn [fst]. split.
  - intros c E. rewrite lookup_fmap in E. destruct (filter _ _ !! key) as [[c0 id]|] eqn:Ef; [|done]. injection E as <-. apply map_lookup_filter_Some in Ef as [Ec Hn]. simpl in *. destruct (F _ _ Ec) as [Hin Hk]. exists id.
    split_and!; [by apply announced_candidates|done|]. intros x Hx Hxk. destruct (decide (x.2 = id)) as [?|Hne]; [done|]. exfalso. apply Hn. apply C. exists x, (c0, id). split_and!; [by apply announced_candidates|done|done|]. simpl. congruence.
  - intros x Hx Hk Hall. destruct (A x) as [[c id] Ec]; [by apply announced_candidates|]. rewrite Hk in Ec. destruct (F _ _ Ec) as [Hin Hck]. simpl in *. assert (id = x.2) as -> by (apply (Hall (c, id)); [by apply announced_candidates|done]).
    exists c. split; [|by apply announced_candidates]. rewrite lookup_fmap. assert (filter (fun y : list Z * (TrustedCredentialPubkey * list Z) => y.1 ∉ conflicting_pubkeys k) (candidates k) !! key = Some (c, x.2)) as ->; [|done].
    apply map_lookup_filter_Some. split; [done|]. simpl. intros Hc. apply C in Hc as (z & y & Hz & Hzk & Hy & Hn). simplify_eq. apply Hn. symmetry. apply Hall; [by apply announced_candidates|done].
Qed.
(** ** Owners *)
Definition user (s : state) (trusted : gmap (list Z) TrustedCredentialPubkey) (active : Z -> bool) (k : list Z) (p : Z) : Prop :=
  exists r c, infos s !! p = Some r /\ r_key r = k /\ k <> [] /\ trusted !! k = Some c /\ credential_is_reusable c = false /\ active p = true.
Lemma ascending_head (X : gset Z) : match ascending X with [] => X = ∅ | p :: _ => p ∈ X /\ forall q, q ∈ X -> p <= q end.
Proof.
  pose proof (elem_of_ascending) as E. pose proof (StronglySorted_merge_sort Z.le (elements X)) as Hs. fold (ascending X) in Hs. destruct (ascending X) as [|p l] eqn:El.
  - apply set_eq. intros q. rewrite <- (E q X), El. set_solver.
  - split; [rewrite <- (E p X), El; by left|]. intros q Hq. rewrite <- (E q X), El in Hq. inversion Hs as [|? ? Hl Hf]; subst. apply elem_of_cons in Hq as [->|Hq]; [lia|]. rewrite Forall_forall in Hf. by apply Hf.
Qed.
Section Owners.
Context (s : state) (trusted : gmap (list Z) TrustedCredentialPubkey) (active : Z -> bool).
Definition wants (k : list Z) (x : Z * RouteRecords.RouteRecord) : Prop := r_key x.2 = k /\ k <> [] /\ active x.1 = true /\ exists c, trusted !! k = Some c /\ credential_is_reusable c = false.
Lemma owner_candidates_spec k p : (p ∈ default ∅ (owner_candidates s trusted active !! k) <-> user s trusted active k p) /\ owner_candidates s trusted active !! k <> Some ∅.
Proof.
  unfold owner_candidates. set (f := fun (m : gmap (list Z) (gset Z)) (x : Z * RouteRecords.RouteRecord) => _).
  assert (Hf : forall m x, (forall q, q ∈ default ∅ (f m x !! k) <-> q ∈ default ∅ (m !! k) \/ (q = x.1 /\ wants k x)) /\ (m !! k <> Some ∅ -> f m x !! k <> Some ∅)).
  { intros m x. unfold f, wants. case_bool_decide as Ek; [split; [intros q; split; [by left|intros [?|(_ & Hk & Hne & _)]; [done|congruence]]|done]|].
    destruct (trusted !! r_key x.2) as [c|] eqn:Et; [|split; [intros q; split; [by left|intros [?|(_ & <- & _ & _ & c & Hc & _)]; [done|congruence]]|done]].
    destruct (credential_is_reusable c) eqn:Er; [split; [intros q; split; [by left|intros [?|(_ & <- & _ & _ & c' & Hc & Hc')]; [done|congruence]]|done]|].
    destruct (active x.1) eqn:Ea; cbn [negb]; [|split; [intros q; split; [by left|intros [?|(_ & _ & _ & Ha & _)]; [done|congruence]]|done]].
    destruct (decide (r_key x.2 = k)) as [<-|Hne]; [|rewrite lookup_insert_ne by done; split; [intros q; split; [by left|intros [?|(_ & ? & _)]; done]|done]].
    rewrite lookup_insert_eq. split; [|intros _ [= He]; set_solver]. intros q. simpl. rewrite elem_of_union, elem_of_singleton. split; [intros [->|?]; [right; split_and!; eauto|by left]|intros [?|[-> _]]; [by right|by left]]. }
  assert (Hl : forall l m, (p ∈ default ∅ (foldl f m l !! k) <-> p ∈ default ∅ (m !! k) \/ exists r, (p, r) ∈ l /\ wants k (p, r)) /\ (m !! k <> Some ∅ -> foldl f m l !! k <> Some ∅)).
  { induction l as [|x l IH]; intros m; [split; [split; [by left|intros [?|(r & Hr & _)]; [done|by apply elem_of_nil in Hr]]|done]|]. simpl. destruct (IH (f m x)) as [I1 I2], (Hf m x) as [F1 F2]. split; [|auto]. rewrite I1, F1. split.
    - intros [[?|[-> Hw]]|(r & Hr & Hw)]; [by left|right; exists x.2; destruct x; split; [left|done]|right; exists r; split; [by right|done]].
    - intros [?|(r & Hr & Hw)]; [by left; left|]. apply elem_of_cons in Hr as [<-|Hr]; [by left; right|right; eauto]. }
  destruct (Hl (map_to_list (infos s)) ∅) as [H1 H2]. split; [|apply H2; by rewrite lookup_empty]. rewrite H1, lookup_empty. unfold user, wants. split.
  - intros [?|(r & Hr & Hk & Hne & Ha & c & Hc)]; [set_solver|]. apply elem_of_map_to_list in Hr. exists r, c. naive_solver.
  - intros (r & c & Hr & Hk & Hne & Hc & Hu & Ha). right. exists r. split; [by apply elem_of_map_to_list|]. naive_solver.
Qed.
Definition winner (k : list Z) (p : Z) : Prop := user s trusted active k p /\ forall q, user s trusted active k q -> p <= q.
Lemma owners_spec : let x := collect_non_reusable_credential_owners s trusted active in
  (forall k p, x.1 !! k = Some p <-> winner k p) /\ (forall p, p ∈ x.2 <-> exists k q, user s trusted active k p /\ user s trusted active k q /\ q < p).
Proof.
  cbv zeta. unfold collect_non_reusable_credential_owners. set (oc := owner_candidates s trusted active).
  assert (Hl : forall l o d, NoDup l.*1 -> (forall k X, (k, X) ∈ l -> X <> ∅) ->
    (forall k p, (foldl elect (o, d) l).1 !! k = Some p <-> (exists X, (k, X) ∈ l /\ p ∈ X /\ forall q, q ∈ X -> p <= q) \/ (k ∉ l.*1 /\ o !! k = Some p)) /\
    (forall p, p ∈ (foldl elect (o, d) l).2 <-> p ∈ d \/ exists k X q, (k, X) ∈ l /\ p ∈ X /\ q ∈ X /\ q < p)).
  { induction l as [|[k0 X0] l IH]; intros o d Hn Hne; [split; [intros k p; simpl; split; [right; split; [set_solver|done]|intros [(X & HX & _)|[_ ?]]; [by apply elem_of_nil in HX|done]]|intros p; simpl; split; [by left|intros [?|(k & X & q & HX & _)]; [done|by apply elem_of_nil in HX]]]|].
    apply NoDup_cons in Hn as [Hk0 Hn]. simpl. unfold elect at 2 4. cbn [fst snd]. pose proof (ascending_head X0) as Hh. destruct (ascending X0) as [|w tl]; [by destruct (Hne k0 X0 ltac:(left))|]. destruct Hh as [Hw Hmin].
    destruct (IH (<[k0 := w]> o) (d ∪ (X0 ∖ {[w]})) Hn) as [I1 I2]; [intros k X HX; apply (Hne k X); by right|]. split.
    - intros k p. rewrite I1. split.
      + intros [(X & HX & R)|[Hk E]]; [left; exists X; split; [by right|done]|]. apply lookup_insert_Some in E as [[<- <-]|[Hd E]]; [left; exists X0; split; [by left|done]|right; split; [set_solver|done]].
      + intros [(X & HX & Hp & Hq)|[Hk E]]; [|right; split; [set_solver|rewrite lookup_insert_ne; [done|set_solver]]]. apply elem_of_cons in HX as [[= -> ->]|HX]; [|left; by exists X].
        right. split; [done|]. rewrite lookup_insert_eq. f_equal. specialize (Hmin p Hp). specialize (Hq w Hw). lia.
    - intros p. rewrite I2, elem_of_union, elem_of_difference, elem_of_singleton. split.
      + intros [[?|[Hp Hd]]|(k & X & q & HX & R)]; [by left|right; exists k0, X0, w; split_and!; [by left|done|done|specialize (Hmin p Hp); lia]|right; exists k, X, q; split; [by right|done]].
      + intros [?|(k & X & q & HX & Hp & Hq & Hlt)]; [by left; left|]. apply elem_of_cons in HX as [[= -> ->]|HX]; [left; right; split; [done|]; intros ->; specialize (Hmin q Hq); lia|right; by exists k, X, q]. }
  destruct (Hl (map_to_list oc) ∅ ∅) as [H1 H2]; [apply NoDup_fst_map_to_list|intros k X HX ->; apply elem_of_map_to_list in HX; by apply (owner_candidates_spec k 0)|].
  assert (Hu : forall k X p, (k, X) ∈ map_to_list oc -> p ∈ X <-> user s trusted active k p) by (intros k X p HX; apply elem_of_map_to_list in HX; rewrite <- (proj1 (owner_candidates_spec k p)); fold oc; by rewrite HX).
  assert (He : forall k p, user s trusted active k p -> exists X, (k, X) ∈ map_to_list oc /\ p ∈ X).
  { intros k p Hp. pose proof Hp as Hp'. apply (proj1 (owner_candidates_spec k p)) in Hp. fold oc in Hp. destruct (oc !! k) as [X|] eqn:E; [|simpl in Hp; set_solver]. exists X. split; [by apply elem_of_map_to_list|done]. }
  split.
  - intros k p. rewrite H1, lookup_empty. unfold winner. split; [intros [(X & HX & Hp & Hq)|[_ ?]]; [|done]; split; [by apply (Hu k X p HX)|intros q Hq'; apply Hq; by apply (Hu k X q HX)]|].
    intros [Hp Hq]. destruct (He k p Hp) as (X & HX & HpX). left. exists X. split_and!; [done|done|]. intros q Hq'. apply Hq. by apply (Hu k X q HX).
  - intros p. rewrite H2. split; [intros [?|(k & X & q & HX & Hp & Hq & Hlt)]; [set_solver|]; exists k, q; split_and!; [by apply (Hu k X p HX)|by apply (Hu k X q HX)|done]|].
    intros (k & q & Hp & Hq & Hlt). destruct (He k p Hp) as (X & HX & HpX). right. exists k, X, q. split_and!; [done|done|by apply (Hu k X q HX)|done].
Qed.
End Owners.

(** ** Groups *)
Lemma add_default_dom m l : dom (foldl add_default m l) = dom m ∪ list_to_set l.
Proof.
  revert m. induction l as [|g l IH]; intros m; simpl; [set_solver|]. rewrite IH. unfold add_default. destruct (m !! g) as [x|] eqn:E; [|rewrite dom_insert_L; set_solver]. apply elem_of_dom_2 in E. set_solver.
Qed.
Lemma set_peer_groups_get p q groups (s : state) : get_peer_groups (set_peer_groups p groups s) q = if decide (p = q) then dom groups else get_peer_groups s q.
Proof.
  unfold set_peer_groups, get_peer_groups. case_bool_decide as E; cbn [group_trust_map_cache with_groups]; destruct (decide (p = q)) as [->|Hne].
  - rewrite lookup_delete_eq, E. by rewrite dom_empty_L.
  - by rewrite lookup_delete_ne.
  - by rewrite lookup_insert_eq.
  - by rewrite lookup_insert_ne.
Qed.
Lemma set_peer_groups_proofs p q groups (s : state) : p <> q -> get_proof_groups q (set_peer_groups p groups s) = get_proof_groups q s.
Proof. intros Hne. unfold set_peer_groups, get_proof_groups. case_bool_decide; cbn [group_trust_map with_groups]; [by rewrite lookup_delete_ne|by rewrite lookup_insert_ne]. Qed.
Definition rest (s s' : state) : Prop :=
  routes s' = routes s /\ manager s' = manager s /\ trusted_credential_pubkeys s' = trusted_credential_pubkeys s /\ non_reusable_credential_owners s' = non_reusable_credential_owners s /\ suppressed s' = suppressed s.
Lemma set_peer_groups_rest p groups (s : state) : rest s (set_peer_groups p groups s).
Proof. unfold set_peer_groups. by case_bool_decide. Qed.
Lemma update_group_rest all s r : rest s (update_credential_group (Raw := Raw) all s r).
Proof. unfold update_credential_group. case_bool_decide; [done|]. destruct (all !! _); [apply set_peer_groups_rest|done]. Qed.
Lemma update_groups_rest all (s : state) : rest s (update_credential_groups all s).
Proof.
  unfold update_credential_groups. generalize (map_to_list (infos s)).*2. intros l. revert s. induction l as [|r l IH]; intros s; [done|]. simpl. destruct (update_group_rest all s r) as (E1 & E2 & E3 & E4 & E5). destruct (IH (update_credential_group all s r)) as (F1 & F2 & F3 & F4 & F5). split_and!; congruence.
Qed.
(** a peer with a trusted key is in the groups it has proven and in those of its credential *)
Lemma update_groups_get all (s : state) p r c : (forall q r, infos s !! q = Some r -> r_key r <> [] -> RouteRecords.r_peer_id r = q) -> infos s !! p = Some r -> r_key r <> [] -> all !! r_key r = Some c ->
  get_peer_groups (update_credential_groups all s) p = dom (get_proof_groups p s) ∪ list_to_set (tc_groups c).
Proof.
  intros Hid Hp Hk Hc. unfold update_credential_groups. assert (Hin : (p, r) ∈ map_to_list (infos s)) by (by apply elem_of_map_to_list).
  assert (Hall : forall x, x ∈ map_to_list (infos s) -> r_key x.2 <> [] -> RouteRecords.r_peer_id x.2 = x.1) by (intros [q r0] Hq; apply elem_of_map_to_list in Hq; by apply Hid).
  pose proof (NoDup_fst_map_to_list (infos s)) as Hn. revert Hin Hall Hn. generalize (map_to_list (infos s)). intros l. clear Hid Hp. 
  assert (Hother : forall l (s : state), p ∉ l.*1 -> (forall x, x ∈ l -> r_key x.2 <> [] -> RouteRecords.r_peer_id x.2 = x.1) -> get_peer_groups (foldl (update_credential_group all) s l.*2) p = get_peer_groups s p).
  { clear. induction l as [|x l IH]; intros s Hn Hall; [done|]. simpl. rewrite IH; [|set_solver|set_solver]. unfold update_credential_group. case_bool_decide as Ek; [done|]. destruct (all !! r_key x.2) as [c0|]; [|done].
    rewrite set_peer_groups_get, decide_False; [done|]. rewrite (Hall x ltac:(left) Ek). set_solver. }
  revert s. induction l as [|x l IH]; intros s Hin Hall Hn; [by apply elem_of_nil in Hin|]. apply NoDup_cons in Hn as [Hx Hn]. simpl. apply elem_of_cons in Hin as [<-|Hin].
  - rewrite Hother; [|done|set_solver]. unfold update_credential_group. cbn [snd]. rewrite bool_decide_eq_false_2 by done. pose proof (Hall (p, r) ltac:(left) Hk) as Hpi. cbn [fst snd] in Hpi. rewrite Hc, Hpi, set_peer_groups_get, decide_True by done. apply add_default_dom.
  - rewrite IH; [|done|set_solver|done]. f_equal. f_equal. unfold update_credential_group. case_bool_decide as Ek; [done|]. destruct (all !! r_key x.2) as [c0|]; [|done]. apply set_peer_groups_proofs. rewrite (Hall x ltac:(left) Ek). intros Ex. apply Hx. rewrite Ex. apply (list_elem_of_fmap_2 fst l (p, r)). done.
Qed.

(** ** A refresh *)
Lemma verified_signature c name pinned now ce : verify_trusted_credential c name pinned now = Ok tt -> tc_certificate c = Some ce -> ed_verify (tc_root_public_key c) (certificate_signing_bytes ce) (cc_signature ce) = true.
Proof.
  unfold verify_trusted_credential, verify_credential_certificate. intros H Hc. rewrite Hc in H. destruct (_ || _) in H; [done|]. cbn [ok_or mbind outcome_bind] in H. destruct (_ || _) in H; [done|]. destruct (_ || _) in H; [done|].
  destruct (match pinned with Some _ => _ | None => _ end); [done|]. by destruct (ed_verify _ _ _).
Qed.
Lemma announced_verified s secret now c id : announced s secret now (c, id) ->
  verify_trusted_credential c (network_name (manager s)) (Some (root_fingerprint (manager s))) now = Ok tt /\ tc_root_public_key c = root_public_key (manager s) /\ now < tc_expiry_unix c /\ is_certificate_id_revoked (manager s) (tc_certificate_id c) = false /\
  exists ce, c = of_certificate ce /\ ed_verify (root_public_key (manager s)) (certificate_signing_bytes ce) (cc_signature ce) = true.
Proof.
  intros (p & r & idx & proof & key & _ & _ & _ & _ & G). destruct (gp_root _ _ _ _ _ _ _ _ G), (gp_current _ _ _ _ _ _ _ _ G), (gp_certificate _ _ _ _ _ _ _ _ G) as (ce & Hce & _). cbn [fst snd] in *.
  pose proof (gp_verified _ _ _ _ _ _ _ _ G) as Hv. cbn [fst] in Hv. split_and!; [done|done|done|done|]. exists ce. split; [done|]. pose proof (verified_signature _ _ _ _ _ Hv ltac:(by rewrite Hce)) as Hsig. congruence.
Qed.
Lemma owners_replaced (o : gmap (list Z) Z) (old : gmap (list Z) Z) : o ∪ filter (fun x : list Z * Z => is_Some (o !! x.1)) old = o.
Proof.
  apply map_eq. intros k. destruct (o !! k) as [p|] eqn:E; [by apply lookup_union_Some_l|]. apply lookup_union_None. split; [done|]. apply map_lookup_filter_None. right. intros p _ [q Hq]. simpl in Hq. congruence.
Qed.
Lemma foldl_delete_lookup {A} (m : gmap Z A) l p : foldl (fun m p => delete p m) m l !! p = if decide (p ∈ l) then None else m !! p.
Proof.
  revert m. induction l as [|q l IH]; intros m; [by rewrite decide_False by (apply not_elem_of_nil)|]. simpl. rewrite IH. destruct (decide (p ∈ l)) as [H1|H1]; [by rewrite decide_True by (by right)|].
  destruct (decide (p = q)) as [->|Hne]; [rewrite lookup_delete_eq, decide_True by left; done|]. rewrite lookup_delete_ne by done. rewrite decide_False; [done|]. intros H2. by apply elem_of_cons in H2 as [?|?].
Qed.
(** removal takes the records and the groups of the removed peers *)
Lemma removed_lookup (X : gset Z) (s : state) p : let s' := if bool_decide (X = ∅) then s else remove_peers_locked (elements X) s in
  infos s' !! p = (if decide (p ∈ X) then None else infos s !! p) /\ (p ∉ X -> get_peer_groups s' p = get_peer_groups s p) /\
  trusted_credential_pubkeys s' = trusted_credential_pubkeys s /\ non_reusable_credential_owners s' = non_reusable_credential_owners s /\ suppressed s' = suppressed s.
Proof.
  cbv zeta. case_bool_decide as E; [subst X; split_and!; [rewrite decide_False by (apply not_elem_of_empty); done|done|done|done|done]|]. assert (El : (list_to_set (elements X) : gset Z) = X) by apply list_to_set_elements_L.
  assert (Hd : forall q, q ∈ elements X <-> q ∈ X) by (intros q; apply elem_of_elements). split_and!; [| |done|done|done].
  - simpl. unfold RouteRecords.remove_peers_locked. rewrite El, bool_decide_eq_false_2 by done. set (s1 := RouteRecords.with_conns _ _). destruct (RouteRecordsProps.release_keeps s1 (elements X)) as [E1 _]. simpl. rewrite E1. unfold s1. simpl. rewrite foldl_delete_lookup.
    destruct (decide (p ∈ X)) as [H1|H1]; [rewrite decide_True by (by apply Hd)|rewrite decide_False by (by rewrite Hd)]; done.
  - intros Hp. unfold get_peer_groups. simpl. rewrite El, foldl_delete_lookup, decide_False by (by rewrite Hd). done.
Qed.
Section Refresh.
Context (secret : option (list Z)) (active : Z -> bool) (protected now : Z) (s : state).
Notation refreshed := (verify_and_update_credential_trusts raw_credential_bytes raw_certificate_bytes secret active (Some protected) now s).
Notation trusted := (collect s secret now).1.
Definition lost (p : Z) : Prop := p <> protected /\ exists r, infos s !! p = Some r /\ r_key r <> [] /\ RouteRecords.r_version r <> 0 /\ is_Some (trusted_credential_pubkeys s !! r_key r) /\ trusted !! r_key r = None.
Lemma refreshed_shape : let s' := refreshed.1 in
  trusted_credential_pubkeys s' = trusted /\ non_reusable_credential_owners s' = (collect_non_reusable_credential_owners s trusted active).1 /\ suppressed s' = (collect_non_reusable_credential_owners s trusted active).2 ∖ {[protected]} /\
  (forall p, p ∈ refreshed.2.1.1 <-> lost p) /\ (forall p, infos s' !! p = if decide (p ∈ refreshed.2.1.1) then None else infos s !! p) /\
  (forall p r c, (forall q r, infos s !! q = Some r -> r_key r <> [] -> RouteRecords.r_peer_id r = q) -> infos s' !! p = Some r -> r_key r <> [] -> trusted !! r_key r = Some c -> get_peer_groups s' p = dom (get_proof_groups p s) ∪ list_to_set (tc_groups c)).
Proof.
  cbv zeta. unfold verify_and_update_credential_trusts. destruct (collect s secret now) as [all keys] eqn:Ec. cbn [fst]. unfold replace_trusted_credential_pubkeys. set (s1 := mk (routes s) (manager s) _ all _ _ _ _).
  assert (Eo : collect_non_reusable_credential_owners s1 all active = collect_non_reusable_credential_owners s all active) by done. rewrite Eo. destruct (collect_non_reusable_credential_owners s all active) as [owners dups]. cbn [fst snd].
  unfold replace_non_reusable_credential_owners. rewrite owners_replaced. set (s2 := mk (routes s1) _ _ _ owners _ _ _).
  assert (H3 : exists b s3, replace_suppressed_non_reusable_credential_peers_locked (dups ∖ {[protected]}) s2 = (s3, b) /\ infos s3 = infos s /\ trusted_credential_pubkeys s3 = all /\ non_reusable_credential_owners s3 = owners /\ suppressed s3 = dups ∖ {[protected]} /\ group_trust_map s3 = group_trust_map s).
  { unfold replace_suppressed_non_reusable_credential_peers_locked. case_bool_decide as Es; [exists false, s2; done|]. eexists true, _. split_and!; [done|done|done|done| |done]. cbn [suppressed]. apply set_eq. intros q. rewrite elem_of_union, elem_of_filter. naive_solver. }
  destruct H3 as (b & s3 & E3 & I3 & T3 & O3 & S3 & G3). rewrite E3. cbv beta iota. destruct (update_groups_rest all s3) as (R4 & _ & T4 & O4 & S4). set (s4 := update_credential_groups all s3) in *.
  set (X := collect_revoked_credential_peers s4 (dom (trusted_credential_pubkeys s)) all ∖ {[protected]}). cbn [fst snd].
  assert (HX : forall p, p ∈ X <-> lost p).
  { intros p. unfold X, lost, collect_revoked_credential_peers. rewrite R4, I3, elem_of_difference, elem_of_singleton, elem_of_dom, Ec. cbn [fst]. split.
    - intros [[r Hf] Hp]. apply map_lookup_filter_Some in Hf as (Hr & H1 & H2 & H3 & H4). simpl in *. split; [done|]. exists r. rewrite elem_of_dom in H3. done.
    - intros [Hp (r & Hr & H1 & H2 & H3 & H4)]. split; [|done]. exists r. apply map_lookup_filter_Some. simpl. rewrite elem_of_dom. done. }
  assert (I4 : infos s4 = infos s) by (rewrite R4; exact I3).
  destruct (removed_lookup X s4 0) as (_ & _ & T5 & O5 & S5). split_and!; [by rewrite T5, T4, T3|by rewrite O5, O4, O3|by rewrite S5, S4, S3|done| |].
  - intros p. destruct (removed_lookup X s4 p) as (E & _). rewrite I4 in E. exact E.
  - intros p r c Hid Hp Hk Hc. destruct (removed_lookup X s4 p) as (E & G & _). rewrite E, I4 in Hp. destruct (decide (p ∈ X)) as [|Hn]; [done|]. rewrite (G Hn). unfold s4. rewrite (update_groups_get all s3 p r c); [|by rewrite I3|by rewrite I3|done|done].
    f_equal. unfold get_proof_groups. by rewrite G3.
Qed.
(** C10: A refresh of the trust gives exactly what the records justify.  A key is trusted if and only if the record of an
    administrator carries a proof for it that is good under the network secret, and all such proofs have the same certificate; what
    is trusted is signed by the root of this network, neither expired nor revoked, and its policy is the signed one.  A key that one
    peer only may use belongs to the least active peer that has it, and exactly the other active peers with it are suppressed (the
    own one excepted).  Exactly the peers whose key was trusted and no longer is are removed, and every other peer with a trusted
    key is in the groups it has proven and those of its credential. *)
Theorem credential_trust_exact : let s' := refreshed.1 in let users := user s (trusted_credential_pubkeys s') active in
  (forall key c, trusted_credential_pubkeys s' !! key = Some c ->
     tc_pubkey c = key /\ (exists id, announced s secret now (c, id) /\ forall x, announced s secret now x -> tc_pubkey x.1 = key -> x.2 = id) /\
     verify_trusted_credential c (network_name (manager s)) (Some (root_fingerprint (manager s))) now = Ok tt /\ tc_root_public_key c = root_public_key (manager s) /\
     now < tc_expiry_unix c /\ is_certificate_id_revoked (manager s) (tc_certificate_id c) = false /\
     exists ce, c = of_certificate ce /\ ed_verify (root_public_key (manager s)) (certificate_signing_bytes ce) (cc_signature ce) = true) /\
  (forall x, announced s secret now x -> (forall y, announced s secret now y -> tc_pubkey y.1 = tc_pubkey x.1 -> y.2 = x.2) -> exists c, trusted_credential_pubkeys s' !! tc_pubkey x.1 = Some c /\ announced s secret now (c, x.2)) /\
  (forall k p, non_reusable_credential_owners s' !! k = Some p <-> users k p /\ forall q, users k q -> p <= q) /\
  (forall p, p ∈ suppressed s' <-> p <> protected /\ exists k q, users k p /\ users k q /\ q < p) /\
  (forall p, infos s' !! p = if decide (p ∈ refreshed.2.1.1) then None else infos s !! p) /\ (forall p, p ∈ refreshed.2.1.1 <-> lost p) /\
  (forall p r c, (forall q r, infos s !! q = Some r -> r_key r <> [] -> RouteRecords.r_peer_id r = q) -> infos s' !! p = Some r -> r_key r <> [] -> trusted_credential_pubkeys s' !! r_key r = Some c ->
     get_peer_groups s' p = dom (get_proof_groups p s) ∪ list_to_set (tc_groups c)).
Proof.
  cbv zeta. destruct refreshed_shape as (T & O & Su & L & I & G). rewrite T, O, Su. destruct (owners_spec s trusted active) as [H1 H2]. split_and!; [| |done| |done|done|done].
  - intros key c Hc. destruct (collect_exact s secret now key) as [E _]. destruct (E c Hc) as (id & Ha & Hk & Hx). destruct (announced_verified _ _ _ _ _ Ha) as (V1 & V2 & V3 & V4 & V5). split_and!; try done. by exists id.
  - intros x Hx Hy. destruct (collect_exact s secret now (tc_pubkey x.1)) as [_ E]. by apply (E x).
  - intros p. rewrite elem_of_difference, elem_of_singleton, H2. naive_solver.
Qed.
End Refresh.

(** ** From the issuer to the other nodes *)
Section Issued.
Context {SL : SignatureLaws S} {HL : HmacLaws Hm} {B : Base64} {BL : Base64Laws B} {L1 : CodecLaws C1} {C2 : Codec CredentialBundle}.
(** what the raw message of a record says of a proof is what the typed one says *)
Definition raw_faithful (raw : option Raw) (idx : nat) (c : TrustedCredentialPubkey) : Prop :=
  (forall bytes, (raw ≫= fun raw => raw_credential_bytes raw idx) = Some bytes -> bytes = encode c) /\
  (forall bytes certificate, (raw ≫= fun raw => raw_certificate_bytes raw idx) = Some bytes -> tc_certificate c = Some certificate -> bytes = encode certificate).
Lemma issued_candidate (issuer m : CredentialManager) e private c secret raw idx now : CredentialsProps.admin issuer -> CredentialsProps.issued_with issuer e private c ->
  network_name m = network_name issuer -> root_public_key m = root_public_key issuer -> root_fingerprint m = root_fingerprint issuer -> secret <> [] ->
  CredentialsProps.time_ok now -> e_created_at_unix e - MAX_FUTURE_SKEW <= now < e_expiry_unix e -> is_certificate_id_revoked m (e_certificate_id e) = false ->
  let credential := CredentialsProps.credential_of issuer e private c in raw_faithful raw idx credential ->
  candidate_of m (Some secret) now raw idx (new_signed credential secret) = Some (credential, 1 :: encode c).
Proof.
  intros Ha Hi En Er Ef Hs Ht Hw Hrev credential [Hraw1 Hraw2].
  assert (Hv : credential_proof_is_valid raw_credential_bytes raw idx (new_signed credential secret) (Some secret) = true).
  { unfold credential_proof_is_valid. destruct secret as [|z l]; [done|]. pose proof (CredentialsProps.new_signed_verifies credential (z :: l)) as V. unfold verify_credential_hmac in V. cbn [proof_credential new_signed] in V.
    destruct (raw ≫= _) as [bytes|] eqn:E; [|exact V]. by rewrite (Hraw1 bytes eq_refl). }
  pose proof (CredentialsProps.issued_credential_verifies issuer e private c now Ha Hi Ht Hw) as V. fold credential in V. destruct (CredentialsProps.sign_entry_fields _ _ _ _ (CredentialsProps.iw_sign _ _ _ _ Hi)) as (F1 & F2 & F3 & F4 & F5 & F6 & F7 & F8 & F9 & F10 & F11 & F12 & F13 & F14).
  destruct (CredentialsProps.iw_id _ _ _ _ Hi) as [Hid1 Hid2].
  assert (Hn : normalize_credential_policy m credential now = Some (credential, 1 :: encode c)).
  { unfold normalize_credential_policy. cbn [tc_certificate credential CredentialsProps.credential_of mbind option_bind tc_root_public_key tc_root_fingerprint tc_serial tc_certificate_id tc_version tc_network_name tc_pubkey tc_expiry_unix tc_role tc_groups tc_allow_relay tc_allowed_proxy_cidrs tc_reusable tc_signature].
    fold credential. rewrite Er, Ef, En, V, F1, F2, F3, F4, F5, F6, F8, F9, F10, F11, F12, F13, F14, Hid1, Hid2, !Z.eqb_refl, !Bool.eqb_reflx. rewrite !bool_decide_eq_true_2 by done. cbn [negb orb mbind option_bind].
    assert (Hcur : credential_is_current credential m now = true); [|rewrite Hcur; done]. unfold credential_is_current. cbn [tc_expiry_unix tc_certificate_id credential CredentialsProps.credential_of]. rewrite Hid1, Hid2, Hrev, (proj2 (Z.ltb_lt _ _)) by lia. done. }
  unfold candidate. rewrite Hv. cbn [negb new_signed proof_credential mbind option_bind]. rewrite Hn. cbn [mbind option_bind fst snd]. destruct (raw ≫= fun raw => raw_certificate_bytes raw idx) as [bytes|] eqn:E; [|done]. by rewrite (Hraw2 bytes c eq_refl).
Qed.
(** the raw messages of all records are faithful *)
Definition all_faithful (s : state) : Prop := forall p r idx proof c, infos s !! p = Some r -> RouteRecords.trusted_credential_pubkeys r !! idx = Some proof -> proof_credential proof = Some c ->
  raw_faithful (RouteRecords.raw_peer_infos (routes s) !! p) idx c.
(** the certificate determines the credential *)
Lemma announced_unique s secret now x y : all_faithful s -> announced s secret now x -> announced s secret now y -> x.2 = y.2 -> x.1 = y.1.
Proof.
  assert (K : forall z, all_faithful s -> announced s secret now z -> exists ce, z.1 = of_certificate ce /\ z.2 = 1 :: encode ce).
  { intros z Hf (p & r & idx & proof & key & Hp & _ & Hi & _ & G). destruct (gp_certificate _ _ _ _ _ _ _ _ G) as (ce & Hce & _ & Hid). exists ce. split; [done|]. rewrite Hid. f_equal.
    pose proof (proj2 (Hf p r idx proof _ Hp Hi (gp_credential _ _ _ _ _ _ _ _ G))) as Hraw. destruct (_ ≫= fun raw => raw_certificate_bytes raw idx) as [bytes|]; [|done]. apply (Hraw bytes ce eq_refl). by rewrite Hce. }
  intros Hf Hx Hy E. destruct (K x Hf Hx) as (ce & -> & Ex), (K y Hf Hy) as (de & -> & Ey). rewrite Ex, Ey in E. injection E as E. f_equal.
  apply (f_equal (decode (A := CredentialCertificate))) in E. rewrite !decode_encode in E. by injection E.
Qed.
(** C13: What an administrator announces, every node of the network trusts.  If the record of an administrator carries the proofs
    that the manager of an issuer announces at some time, a node with the name and the root of that network that refreshes its
    trust with the same secret, from five minutes before a credential of them was issued until it expires, trusts its key, with the
    policy of its entry, unless the certificate is revoked there or another certificate is announced for the key.  The raw messages
    that the node keeps say the same as the records read from them ([all_faithful]). *)
Theorem announced_credentials_trusted (issuer : CredentialManager) e private c secret announced_at (s : state) p r active protected now :
  CredentialsProps.admin issuer -> e ∈ active_entries issuer announced_at -> CredentialsProps.issued_with issuer e private c ->
  network_name (manager s) = network_name issuer -> root_public_key (manager s) = root_public_key issuer -> root_fingerprint (manager s) = root_fingerprint issuer ->
  infos s !! p = Some r -> is_admin_record r = true -> RouteRecords.trusted_credential_pubkeys r = get_trusted_pubkeys issuer secret announced_at -> secret <> [] -> all_faithful s ->
  CredentialsProps.time_ok now -> e_created_at_unix e - MAX_FUTURE_SKEW <= now < e_expiry_unix e -> is_certificate_id_revoked (manager s) (e_certificate_id e) = false ->
  (forall x, announced s (Some secret) now x -> tc_pubkey x.1 = x_public private -> x.2 = 1 :: encode c) ->
  exists credential, trusted_credential_pubkeys (verify_and_update_credential_trusts raw_credential_bytes raw_certificate_bytes (Some secret) active (Some protected) now s).1 !! x_public private = Some credential /\
    tc_groups credential = e_groups e /\ tc_allow_relay credential = e_allow_relay e /\ tc_allowed_proxy_cidrs credential = e_allowed_proxy_cidrs e /\ tc_reusable credential = Some (e_reusable e) /\ tc_expiry_unix credential = e_expiry_unix e.
Proof.
  intros Ha He Hi En Er Ef Hp Hadm Hpr Hs Hfaith Ht Hw Hrev Hall. destruct (refreshed_shape (Some secret) active protected now s) as (-> & _). set (credential := CredentialsProps.credential_of issuer e private c). exists credential. split_and!; try done.
  assert (Hin : new_signed credential secret ∈ RouteRecords.trusted_credential_pubkeys r).
  { rewrite Hpr. unfold get_trusted_pubkeys. rewrite bool_decide_eq_false_2 by (destruct Ha as [(seed & -> & _) _]; done). apply list_elem_of_omap. exists e. split; [done|]. by rewrite (CredentialsProps.issued_credential _ _ _ _ Hi). }
  apply list_elem_of_lookup in Hin as [idx Hidx].
  assert (Hann : announced s (Some secret) now (credential, 1 :: encode c)) by (apply announced_iff; exists p, r, idx, (new_signed credential secret); split_and!; try done; apply issued_candidate; try done; by apply (Hfaith p r idx (new_signed credential secret))).
  destruct (collect_exact s (Some secret) now (x_public private)) as [_ E]. destruct (E (credential, 1 :: encode c) Hann eq_refl Hall) as (c' & Hc' & Ha'). rewrite Hc'. f_equal. by apply (announced_unique s (Some secret) now (c', 1 :: encode c) (credential, 1 :: encode c)).
Qed.
End Issued.

(** ** Groups between refreshes *)
(** the names of the groups are those of the map *)
Definition cached (s : state) : Prop := forall p, group_trust_map_cache s !! p = dom <$> group_trust_map s !! p.
Lemma set_peer_groups_cached p groups (s : state) : cached s -> cached (set_peer_groups p groups s).
Proof.
  intros H q. unfold set_peer_groups. case_bool_decide; cbn [group_trust_map group_trust_map_cache with_groups]; destruct (decide (p = q)) as [->|Hne]; rewrite ?lookup_delete_eq, ?lookup_insert_eq, ?lookup_delete_ne, ?lookup_insert_ne by done; done.
Qed.
Lemma replace_groups_cached p groups (s : state) : cached s -> cached (replace_groups p groups s).
Proof.
  intros H q. unfold replace_groups. case_bool_decide; [destruct (group_trust_map s !! p); [|done]|]; cbn [group_trust_map group_trust_map_cache with_groups]; destruct (decide (p = q)) as [->|Hne];
    rewrite ?lookup_delete_eq, ?lookup_insert_eq, ?lookup_delete_ne, ?lookup_insert_ne by done; done.
Qed.
Lemma remove_peers_cached l (s : state) : cached s -> cached (remove_peers_locked l s).
Proof. intros H q. simpl. rewrite !foldl_delete_lookup. by destruct (decide _). Qed.
Lemma foldl_cached {A} (f : state -> A -> state) l : (forall s x, cached s -> cached (f s x)) -> forall s, cached s -> cached (foldl f s l).
Proof. intros Hf. induction l as [|x l IH]; intros s H; [done|]. simpl. by apply IH, Hf. Qed.
Lemma refresh_cached secret active protected now (s : state) : cached s -> cached (verify_and_update_credential_trusts raw_credential_bytes raw_certificate_bytes secret active protected now s).1.
Proof.
  intros H. unfold verify_and_update_credential_trusts. destruct (collect s secret now) as [all keys]. unfold replace_trusted_credential_pubkeys. destruct (collect_non_reusable_credential_owners _ _ _) as [owners dups].
  unfold replace_suppressed_non_reusable_credential_peers_locked. set (s1 := replace_non_reusable_credential_owners _ _).
  assert (H4 : forall s2, cached s2 -> cached (update_credential_groups all s2)).
  { intros s2 H2. apply foldl_cached; [|done]. intros s3 r H3. unfold update_credential_group. case_bool_decide; [done|]. destruct (all !! _); [by apply set_peer_groups_cached|done]. }
  case_bool_decide; cbn [fst]; (case_bool_decide; [|apply remove_peers_cached]); by apply H4.
Qed.
Section Handler.
Context (raw_len : Raw -> Z) (raw_peer_id : Raw -> option Z) (encoded_len : RouteRecords.RouteRecord -> Z) (my my_route : Z) (declarations : gmap (list Z) (list Z)) (secret : option (list Z)) (active : Z -> bool) (now : Z).
Notation request := (RouteRecords.request (Raw := Raw)).
Notation receive q s := (sync_records raw_credential_bytes raw_certificate_bytes raw_len raw_peer_id encoded_len my my_route declarations secret active now q s).
(** every request keeps the names of the groups *)
Lemma sync_records_cached q (s : state) : cached s -> cached (receive q s).1.
Proof.
  intros H. unfold sync_records. destruct (RouteRecords.update_peer_infos_and_conn_info_with_authority _ _ _ _ _ _ _) as [r [b|e|]]; [|done|done]. cbn [fst].
  assert (H1 : cached (if Nat.eqb (length (RouteRecords.q_infos q)) 0 then with_routes s r else verify_and_update_group_trusts (RouteRecords.q_infos q) declarations (bool_decide (secret = None)) (with_routes s r))).
  { destruct (Nat.eqb _ _); [done|]. apply foldl_cached; [|done]. intros. by apply replace_groups_cached. }
  destruct b; [by apply refresh_cached|done].
Qed.
(** the groups that a record proves: with a secret that is configured here, or, in a network without a secret, by an
    administrator that authenticated to this node *)
Definition proves (s : state) (r : RouteRecords.RouteRecord) (g : list Z) : Prop :=
  (exists proof key, (g, proof) ∈ RouteRecords.r_groups r /\ declarations !! g = Some key /\ proof = hmac_sha256 key (g ++ [0] ++ to_be 4 (RouteRecords.r_peer_id r))) \/
  (secret = None /\ locally_authenticated_admin s (RouteRecords.r_peer_id r) r = true /\ g ∈ (RouteRecords.r_groups r).*1).
Notation proven s r := (verify_groups s declarations (bool_decide (secret = None)) r).
Lemma verify_groups_proves s r g : g ∈ dom (proven s r) <-> proves s r g.
Proof.
  unfold verify_groups, proves. set (f := fun (m : gmap (list Z) (list Z)) (x : list Z * list Z) => _).
  assert (Hf : forall l m, g ∈ dom (foldl f m l) <-> g ∈ dom m \/ exists proof key, (g, proof) ∈ l /\ declarations !! g = Some key /\ proof = hmac_sha256 key (g ++ [0] ++ to_be 4 (RouteRecords.r_peer_id r))).
  { induction l as [|[g0 proof0] l IH]; intros m; [split; [by left|intros [?|(? & ? & []%elem_of_nil & _)]; done]|]. cbn [foldl]. rewrite IH.
    assert (Hx : g ∈ dom (f m (g0, proof0)) <-> g ∈ dom m \/ (g = g0 /\ exists key, declarations !! g0 = Some key /\ proof0 = hmac_sha256 key (g0 ++ [0] ++ to_be 4 (RouteRecords.r_peer_id r)))).
    { unfold f, verify_group. cbn [fst snd]. destruct (declarations !! g0) as [key|]; [case_bool_decide as E; [rewrite dom_insert_L, elem_of_union, elem_of_singleton|]|]; naive_solver. }
    rewrite Hx. setoid_rewrite elem_of_cons. naive_solver. }
  pose proof (Hf (RouteRecords.r_groups r) ∅) as H0. rewrite dom_empty_L in H0. destruct (bool_decide (secret = None) && _) eqn:E.
  - apply andb_prop in E as [E1 E2]. apply bool_decide_eq_true in E1. rewrite add_default_dom, elem_of_union, H0, elem_of_list_to_set. set_solver.
  - rewrite H0. split; [intros [?|?]; [set_solver|by left]|intros [?|(Hs & Ha & _)]; [by right|]]. rewrite Ha, bool_decide_eq_true_2 in E; done.
Qed.
(** the last of the records that is of the peer *)
Definition last_of (p : Z) (l : list RouteRecords.RouteRecord) : option RouteRecords.RouteRecord := last (filter (fun r => RouteRecords.r_peer_id r = p) l).
(** the groups are those of the last record of each peer, everything else of the trust stays *)
Record regrouped (l : list RouteRecords.RouteRecord) (s s' : state) : Prop := {
  rg_local : locally_authenticated_peers s' = locally_authenticated_peers s;
  rg_trusted : trusted_credential_pubkeys s' = trusted_credential_pubkeys s;
  rg_groups : forall p, get_peer_groups s' p = match last_of p l with Some r => dom (proven s r) | None => get_peer_groups s p end;
}.
Lemma regrouped_app l l' a b c : regrouped l a b -> regrouped l' b c -> regrouped (l ++ l') a c.
Proof.
  intros [L1 T1 G1] [L2 T2 G2]. split; [congruence|congruence|]. intros p. unfold last_of in *. rewrite G2, filter_app, last_app. destruct (last (filter _ l')); [|by apply G1].
  unfold verify_groups, locally_authenticated_admin. by rewrite L1.
Qed.
Lemma regrouped_one r (s : state) : cached s -> regrouped [r] s (replace_groups (RouteRecords.r_peer_id r) (proven s r) s).
Proof.
  intros H. split; [unfold replace_groups; by repeat case_match..|]. intros p. unfold last_of. rewrite filter_cons. destruct (decide (RouteRecords.r_peer_id r = p)) as [Ep|Hne]; cbn [filter list_filter last]; unfold replace_groups, get_peer_groups.
  - case_bool_decide as E; [rewrite E, dom_empty_L|by rewrite Ep; cbn [with_groups group_trust_map_cache]; rewrite lookup_insert_eq]. rewrite Ep in *. destruct (group_trust_map s !! p) eqn:Em; cbn [with_groups group_trust_map_cache]; [by rewrite lookup_delete_eq|].
    by rewrite (H p), Em.
  - case_bool_decide; [destruct (group_trust_map s !! _); [|done]|]; cbn [with_groups group_trust_map_cache]; [by rewrite lookup_delete_ne|by rewrite lookup_insert_ne].
Qed.
Lemma regrouped_all l (s : state) : cached s -> regrouped l s (verify_and_update_group_trusts l declarations (bool_decide (secret = None)) s).
Proof.
  unfold verify_and_update_group_trusts. revert s. induction l as [|r l IH]; intros s H; [by split|]. cbn [foldl]. apply (regrouped_app [r]  l _ _ _ (regrouped_one r s H)). apply IH. by apply replace_groups_cached.
Qed.
(** requests that are accepted as no change, one after the other *)
Fixpoint unchanging (s : state) (qs : list request) : Prop :=
  match qs with
  | [] => True
  | q :: qs => (RouteRecords.update_peer_infos_and_conn_info_with_authority raw_len raw_peer_id encoded_len my my_route q (routes s)).2 = Ok false /\ unchanging (receive q s).1 qs
  end.
Definition received (s : state) (qs : list request) : state := foldl (fun s q => (receive q s).1) s qs.
Lemma received_regrouped qs : forall s, cached s -> unchanging s qs -> cached (received s qs) /\ regrouped (concat (RouteRecords.q_infos <$> qs)) s (received s qs).
Proof.
  induction qs as [|q qs IH]; intros s H Hu; [by split|]. destruct Hu as [Hq Hu]. destruct (IH _ (sync_records_cached q s H) Hu) as [I1 I2]. split; [exact I1|]. cbn [fmap list_fmap concat]. eapply regrouped_app; [|exact I2].
  unfold sync_records. destruct (RouteRecords.update_peer_infos_and_conn_info_with_authority _ _ _ _ _ _ _) as [r o]. cbn [snd] in Hq. subst o. cbn [fst].
  destruct (RouteRecords.q_infos q) as [|r0 l]; [by split|]. cbn [length Nat.eqb]. apply (regrouped_app [] (r0 :: l) s (with_routes s r)); [by split|]. by apply regrouped_all.
Qed.
(** C37: Records that are received again without a change, as from a second neighbour, take the groups of their credentials
    from their peers.  After any sequence of requests that are accepted as no change, a peer of which a record was received is
    exactly in the groups that the last of these records proves itself, whatever credential is trusted for its key: so it has lost
    every group of its credential that the record does not prove.  The peers of which none was received keep their groups.  Only
    a refresh of the trust gives the groups of a credential back, and a change has to trigger it.  (The names of groups are
    [cached], as every operation keeps them.) *)
Theorem repeated_record_drops_groups qs (s : state) : cached s -> unchanging s qs -> let s' := received s qs in
  trusted_credential_pubkeys s' = trusted_credential_pubkeys s /\
  (forall p, match last_of p (concat (RouteRecords.q_infos <$> qs)) with
             | Some r => forall g, g ∈ get_peer_groups s' p <-> proves s r g
             | None => get_peer_groups s' p = get_peer_groups s p
             end) /\
  (forall active now, let s'' := (verify_and_update_credential_trusts raw_credential_bytes raw_certificate_bytes secret active (Some my) now s').1 in
     (forall q r, infos s' !! q = Some r -> r_key r <> [] -> RouteRecords.r_peer_id r = q) ->
     forall p r c, infos s'' !! p = Some r -> r_key r <> [] -> trusted_credential_pubkeys s'' !! r_key r = Some c ->
       get_peer_groups s'' p = dom (get_proof_groups p s') ∪ list_to_set (tc_groups c)).
Proof.
  intros H Hu s'. destruct (received_regrouped qs s H Hu) as [_ [_ T G]]. split; [exact T|]. split.
  - intros p. specialize (G p). destruct (last_of _ _) as [r|]; [|exact G]. intros g. unfold s'. rewrite G. apply verify_groups_proves.
  - intros active' now' s'' Hid p r c Hp Hk Hc. destruct (refreshed_shape secret active' my now' s') as (T' & _ & _ & _ & _ & R). apply (R p r c Hid Hp Hk). by rewrite <- T'.
Qed.
End Handler.
End Trust.

(** ** Examples *)
#[local] Existing Instances CredentialsProps.ex_signatures CredentialsProps.ex_signature_laws CredentialsProps.ex_base64 CredentialsProps.ex_base64_laws CredentialsProps.ex_hmac CredentialsProps.ex_hmac_laws.
#[local] Existing Instances CredentialsProps.ex_certificate_codec CredentialsProps.ex_certificate_laws CredentialsProps.ex_bundle_codec CredentialsProps.ex_credential_codec.
(** no raw message says anything *)
Definition ex_none (raw : Z) (idx : nat) : option (list Z) := None.
Definition ex_secret : list Z := str "secret".
Definition ex_key : list Z := x_public (replicate 32 5).
Definition ex_info (key : list Z) (role : Z) : RoutePeerInfo := mk_peer 1 role key None [] None None None [] 0.
(** an administrator that announces the credential of the laptop, and the laptop *)
Definition ex_admin_record : RouteRecords.RouteRecord := RouteRecords.mk_record 2 20 None (ex_info (replicate 32 7) 0) [] (get_trusted_pubkeys CredentialsProps.ex_issued ex_secret 1500).
Definition ex_laptop : RouteRecords.RouteRecord := RouteRecords.mk_record 3 30 None (ex_info ex_key 1) [] [].
Definition ex_node : t (Raw := Z) := mk (RouteRecords.new (MemoryGovernor.with_limit (2 ^ 20))) CredentialsProps.ex_manager ∅ ∅ ∅ ∅ ∅ ∅.
Definition ex_sync (infos : list RouteRecords.RouteRecord) (s : t (Raw := Z)) : t (Raw := Z) * bool :=
  sync_records ex_none ex_none (fun _ => 40) Some (fun _ => 100) 1 10 ∅ (Some ex_secret) (fun _ => true) 1500 (RouteRecords.mk_request 2 infos (RouteRecords.r_peer_id <$> infos) None true 0) s.
Definition ex_synced : t (Raw := Z) := (ex_sync [ex_admin_record; ex_laptop] ex_node).1.
Definition ex_repeated : t (Raw := Z) := (ex_sync [ex_laptop] ex_synced).1.
Definition ex_refreshed : t (Raw := Z) := (verify_and_update_credential_trusts ex_none ex_none (Some ex_secret) (fun _ => true) (Some 1) 1500 ex_repeated).1.
Definition ex_again : RouteRecords.request (Raw := Z) := RouteRecords.mk_request 2 [ex_laptop] [3] None true 0.
(** the laptop is in the groups of its credential, loses them when its record comes again, and is back in them after a refresh *)
Lemma repeated_record_drops_groups_witness : get_peer_groups ex_synced 3 = {[str "dev"; str "ops"]} /\ (forall g, g ∉ get_peer_groups ex_repeated 3) /\ get_peer_groups ex_refreshed 3 = {[str "dev"; str "ops"]}.
Proof.
  destruct (repeated_record_drops_groups ex_none ex_none (fun _ => 40) Some (fun _ => 100) 1 10 ∅ (Some ex_secret) (fun _ => true) 1500 [ex_again] ex_synced) as (_ & G & _).
  - apply sync_records_cached. intros p. reflexivity.
  - split; [vm_compute; reflexivity|done].
  - split; [vm_compute; reflexivity|]. split; [|vm_compute; reflexivity]. intros g Hg. specialize (G 3). assert (El : last_of 3 (concat (RouteRecords.q_infos <$> [ex_again])) = Some ex_laptop) by reflexivity.
    rewrite El in G. apply (G g) in Hg as [(proof & key & []%elem_of_nil & _)|(E & _)]. discriminate E.
Defined.
(** raw messages that are the records themselves, with the bytes of their encoding *)
Definition ex_credential_bytes (raw : RouteRecords.RouteRecord) (idx : nat) : option (list Z) := p ← RouteRecords.trusted_credential_pubkeys raw !! idx; c ← proof_credential p; Some (encode c).
Definition ex_certificate_bytes (raw : RouteRecords.RouteRecord) (idx : nat) : option (list Z) := p ← RouteRecords.trusted_credential_pubkeys raw !! idx; c ← proof_credential p; ce ← tc_certificate c; Some (encode ce).
(** a node with the record of the administrator only *)
Definition ex_holding : t (Raw := RouteRecords.RouteRecord) :=
  mk (RouteRecords.mk {[2 := ex_admin_record]} {[2 := ex_admin_record]} ∅ 0 (MemoryGovernor.with_limit (2 ^ 20)) ∅ 1) CredentialsProps.ex_manager ∅ ∅ ∅ ∅ ∅ ∅.
Lemma ex_entry : (fun e => (e_created_at_unix e, e_expiry_unix e)) <$> credentials (store CredentialsProps.ex_issued) !! str "laptop" = Some (1000, 4600).
Proof. vm_compute. reflexivity. Qed.
Lemma ex_one_proof : length (get_trusted_pubkeys CredentialsProps.ex_issued ex_secret 1500) = 1%nat.
Proof. vm_compute. reflexivity. Qed.
Lemma ex_roots : network_name CredentialsProps.ex_manager = network_name CredentialsProps.ex_issued /\ root_public_key CredentialsProps.ex_manager = root_public_key CredentialsProps.ex_issued /\
  root_fingerprint CredentialsProps.ex_manager = root_fingerprint CredentialsProps.ex_issued.
Proof. split_and!; vm_compute; reflexivity. Qed.
Lemma ex_active e : credentials (store CredentialsProps.ex_issued) !! str "laptop" = Some e -> e ∈ active_entries CredentialsProps.ex_issued 1500.
Proof.
  intros Ee. unfold active_entries. apply list_elem_of_filter. split; [|apply list_elem_of_fmap; exists (str "laptop", e); split; [done|by apply elem_of_map_to_list]].
  assert (K : (fun e => is_active_at e 1500 (revoked_certificate_ids (store CredentialsProps.ex_issued))) <$> credentials (store CredentialsProps.ex_issued) !! str "laptop" = Some true) by (vm_compute; reflexivity). rewrite Ee in K. by injection K.
Qed.
Lemma ex_infos p r : RouteRecords.peer_infos (routes ex_holding) !! p = Some r -> p = 2 /\ r = ex_admin_record.
Proof. intros H. change (({[2 := ex_admin_record]} : gmap Z RouteRecords.RouteRecord) !! p = Some r) in H. by apply lookup_singleton_Some in H as [<- <-]. Qed.
Lemma ex_raw_faithful r idx proof c : RouteRecords.trusted_credential_pubkeys r !! idx = Some proof -> proof_credential proof = Some c -> raw_faithful ex_credential_bytes ex_certificate_bytes (Some r) idx c.
Proof.
  intros Hi Hc. unfold raw_faithful, ex_credential_bytes, ex_certificate_bytes. cbn [mbind option_bind]. rewrite Hi. cbn [mbind option_bind]. rewrite Hc. cbn [mbind option_bind].
  split; [intros bytes Hb; apply (inj Some) in Hb; symmetry; exact Hb|]. intros bytes ce Hb Hce. rewrite Hce in Hb. cbn [mbind option_bind] in Hb. apply (inj Some) in Hb. symmetry. exact Hb.
Qed.
Lemma ex_faithful : all_faithful ex_credential_bytes ex_certificate_bytes ex_holding.
Proof. intros p r idx proof c [-> ->]%ex_infos Hi Hc. exact (ex_raw_faithful ex_admin_record idx proof c Hi Hc). Qed.
(** the only proof that anyone announces there *)
Lemma ex_only e private c x : credentials (store CredentialsProps.ex_issued) !! str "laptop" = Some e -> CredentialsProps.issued_with CredentialsProps.ex_issued e private c -> announced ex_credential_bytes ex_certificate_bytes ex_holding (Some ex_secret) 1500 x -> x.2 = 1 :: encode c.
Proof.
  intros Ee Hi (p & r & idx & proof & Hp & _ & Hidx & Hc)%announced_iff. destruct (ex_infos p r Hp) as [-> Hr]. subst r.
  destruct CredentialsProps.ex_issued_ok as (Ha & _ & _). destruct ex_roots as (R1 & R2 & R3). pose proof ex_entry as K. rewrite Ee in K. injection K as K1 K2.
  set (credential := CredentialsProps.credential_of CredentialsProps.ex_issued e private c).
  assert (Hin : new_signed credential ex_secret ∈ get_trusted_pubkeys CredentialsProps.ex_issued ex_secret 1500).
  { unfold get_trusted_pubkeys. rewrite bool_decide_eq_false_2 by (destruct Ha as [(seed & -> & _) _]; done). apply list_elem_of_omap. exists e. split; [by apply ex_active|]. by rewrite (CredentialsProps.issued_credential _ _ _ _ Hi). }
  pose proof Hidx as Hidx0. change (RouteRecords.trusted_credential_pubkeys ex_admin_record) with (get_trusted_pubkeys CredentialsProps.ex_issued ex_secret 1500) in Hidx. pose proof ex_one_proof as Hone. destruct (get_trusted_pubkeys CredentialsProps.ex_issued ex_secret 1500) as [|p0 [|? ?]]; [discriminate Hone| |discriminate Hone].
  apply list_elem_of_singleton in Hin. destruct idx as [|idx]; [|discriminate Hidx]. injection Hidx as Hidx. subst p0 proof.
  assert (Hrev : is_certificate_id_revoked CredentialsProps.ex_manager (e_certificate_id e) = false) by (apply bool_decide_eq_false; apply not_elem_of_empty).
  pose proof (issued_candidate ex_credential_bytes ex_certificate_bytes CredentialsProps.ex_issued CredentialsProps.ex_manager e private c ex_secret (RouteRecords.raw_peer_infos (routes ex_holding) !! 2) 0%nat 1500 Ha Hi R1 R2 R3 ltac:(discriminate)
    ltac:(unfold CredentialsProps.time_ok; lia) ltac:(unfold MAX_FUTURE_SKEW; lia) Hrev) as Hcand. cbv zeta in Hcand.
  pose proof (ex_faithful 2 ex_admin_record 0%nat (new_signed credential ex_secret) credential Hp Hidx0 eq_refl) as Hraw.
  specialize (Hcand Hraw). assert (E : Some (credential, 1 :: encode c) = Some x) by (rewrite <- Hc; symmetry; exact Hcand). injection E as <-. reflexivity.
Qed.
Lemma announced_credentials_trusted_witness : exists e private credential, credentials (store CredentialsProps.ex_issued) !! str "laptop" = Some e /\
  trusted_credential_pubkeys (verify_and_update_credential_trusts ex_credential_bytes ex_certificate_bytes (Some ex_secret) (fun _ => true) (Some 1) 1500 ex_holding).1 !! x_public private = Some credential /\ tc_groups credential = e_groups e.
Proof.
  destruct CredentialsProps.ex_issued_ok as (Ha & [[Hw _] _] & _). destruct ex_roots as (R1 & R2 & R3). pose proof ex_entry as K. destruct (credentials (store CredentialsProps.ex_issued) !! str "laptop") as [e|] eqn:Ee; [|discriminate K].
  injection K as K1 K2. destruct (Hw _ _ Ee) as (private & c & Hi).
  destruct (announced_credentials_trusted ex_credential_bytes ex_certificate_bytes CredentialsProps.ex_issued e private c ex_secret 1500 ex_holding 2 ex_admin_record (fun _ => true) 1 1500 Ha (ex_active e Ee) Hi R1 R2 R3) as (credential & Hc & Hg & _).
  - reflexivity.
  - reflexivity.
  - reflexivity.
  - discriminate.
  - exact ex_faithful.
  - unfold CredentialsProps.time_ok. lia.
  - unfold MAX_FUTURE_SKEW. lia.
  - apply bool_decide_eq_false, not_elem_of_empty.
  - intros x Hx _. exact (ex_only e private c x Ee Hi Hx).
  - exists e, private, credential. split; [reflexivity|]. split; [exact Hc|exact Hg].
Defined.
End CredentialTrustProps.
